(* ===== verification/_CoqProject ===== *)
-Q . S2P
Prelude.v
Str.v
Extern.v
Path.v
SourceId.v
PackageId.v
Graph.v
DepQueue.v
Utf8.v
Features.v
ConfigValue.v
Config.v
SourceConfig.v
BuildScript.v
Target.v
Lev.v
Profiles.v
TomlManifest.v
TomlTargets.v
Cfg.v
Dependency.v
Summary.v
ResTypes.v
PackageRegistry.v
RegistryTrait.v
ResContext.v
ResFeatures.v
ResErrors.v
Resolve.v
Package.v
ReadManifest.v
Workspace.v
PreviousLocks.v
UnitDeps.v
UnitGraph.v
BuildMap.v
JobQueue.v
JobRun.v
Encode.v
LockFile.v
LockFileOps.v
Resolver.v
ResInvariant.v
ResFacts.v
ResCorrect.v
ResCycles.v
ResTermination.v
ResolveOps.v
UpdateLock.v
CompileFilter.v
CompileOps.v
IndexNames.v
RegistryIndex.v
RegistrySource.v
RegistryData.v
Sources.v
RegistryPins.v
Fingerprint.v
DepInfo.v
CompileArgs.v
RustcInfo.v
TargetInfo.v
OutputFiles.v
CommandLine.v
Freshness.v
CompileUnits.v
