(* ===== verification/Prelude.v ===== *)
(** * Cargo, a verification library

    Cargo reads a package's manifest and its configuration, asks registries
    for the packages it depends on, resolves them to one version each, writes
    the result to [Cargo.lock], and compiles the resulting graph of units in
    parallel.  This library models that pipeline as functions and step
    machines, from [src/cargo/], and proves what each part promises to the
    next.  Paths below are relative to [src/cargo/].

    ** Parts, files and code

    Foundations
    - [Prelude]: results ([Ok], [Err], and [Panic] for what would abort the
      program), loops that return early, sorting, heaps, hash maps whose keys
      have an equality of their own ([HashKey]), and the choices the standard
      library leaves open ([RustStd]: the order of hash tables, of equal
      elements in [sort_unstable_by], of equal elements of a heap).
    - [Str], [Utf8], [Path]: strings as UTF-8 bytes, and paths as [std::path]
      has them on Unix; [util/paths.rs].
    - [Extern]: the crates [semver] and [url] as classes, with their laws.
    - [Graph], [DepQueue], [Lev], [Cfg]: [util/graph.rs],
      [util/dependency_queue.rs], [util/lev_distance.rs], [util/cfg.rs].

    Identity of packages
    - [SourceId], [PackageId], [Dependency], [Summary]:
      [core/source/source_id.rs], [core/package_id.rs],
      [core/package_id_spec.rs], [core/dependency.rs], [core/summary.rs].

    Configuration
    - [ConfigValue], [Config]: [util/config.rs]; values, their merging, the
      search for files, keys and environment, getters, the deserializer,
      credentials.
    - [SourceConfig]: [sources/config.rs]; which source replaces which.

    Manifests
    - [Features], [Target], [Profiles]: [core/features.rs], the targets of
      [core/manifest.rs], [core/profiles.rs].
    - [TomlManifest], [TomlTargets], [ReadManifest]: [util/toml/mod.rs] and
      [util/toml/targets.rs]; the tables of a [Cargo.toml], the targets listed
      and inferred, [to_real_manifest] and [to_virtual_manifest].
    - [Package]: the manifest, the package and the unit of compilation.
    - [Workspace]: [core/workspace.rs]; the root, the members and their checks.

    Resolution
    - [ResTypes], [ResContext], [ResErrors], [Resolve], [Resolver]:
      [core/resolver/] (types, context, conflict cache, errors, the resolved
      graph, the loop).  [PackageRegistry] is [core/registry.rs], which
      answers the resolver's questions.  [Resolver] is a machine with one step
      for each iteration of the inner loop of [activate_deps_loop].
    - [ResFeatures], [ResInvariant], [ResFacts], [ResCorrect], [ResCycles],
      [ResTermination]: theorems on the resolver.
    - [RegistryTrait]: the package registry keeps the promise of the trait the
      resolver uses, the same answer to the same query, up to the precise
      versions in source ids.
    - [Encode], [LockFile]: [core/resolver/encode.rs] and its round trip.
    - [PreviousLocks], [ResolveOps]: [ops/resolve.rs]; what of the previous lock
      file is locked again, and the question put to the resolver.
    - [LockFileOps], [UpdateLock]: [ops/lockfile.rs] and
      [ops/cargo_generate_lockfile.rs]; the file itself, and [cargo update].

    Sources of packages
    - [IndexNames], [RegistryIndex]: [sources/registry/index.rs]; the file of a
      crate, its lines, their cache and checksums.
    - [RegistrySource], [RegistryData]: [sources/registry/mod.rs] with the
      directory of [local.rs] and the clone of [remote.rs].
    - [Sources]: [sources/directory.rs], [sources/replaced.rs], and the sources
      of a configuration as the ones a package registry asks.
    - [RegistryPins]: a registry answers alike however precisely it is named.

    Compilation
    - [CompileFilter], [CompileOps]: [ops/cargo_compile.rs]; which packages and
      targets a command selects, up to the units it compiles.
    - [UnitDeps], [UnitGraph]: [core/compiler/context/unit_dependencies.rs].
    - [BuildScript], [BuildMap]: [core/compiler/custom_build.rs], with what
      script outputs add to compiler calls ([core/compiler/mod.rs]).
    - [JobQueue], [JobRun]: [core/compiler/job_queue.rs].
    - [Fingerprint], [DepInfo], [Freshness]: [core/compiler/fingerprint.rs]; the
      content, hash and memo of a fingerprint in a store, the files a unit was
      built from, and the decision whether a unit is built again.
    - [RustcInfo], [TargetInfo]: [util/rustc.rs] with [util/process_builder.rs],
      and [core/compiler/build_context/target_info.rs]; the compiler, the cache
      of what it printed, and the files of each crate type.
    - [OutputFiles]: [core/compiler/context/compilation_files.rs] and
      [core/compiler/layout.rs]; the metadata of units and the names of files.
    - [CompileArgs]: the flags of [core/compiler/build_context/mod.rs],
      incremental compilation and the path of the root module.
    - [CommandLine]: [core/compiler/compilation.rs], [TargetConfig], and the
      command lines of [rustc] and [rustdoc] of [core/compiler/mod.rs].
    - [CompileUnits]: [compile] of [core/compiler/mod.rs], which prepares the
      units and fills the job queue.

    ** What the theorems show

    - Resolution: [ResTermination.resolve_returns], the search ends on every
      finite registry; [ResCorrect], what it answers is closed under the
      dependencies that were asked for, has one package per [links] key, one
      per semver-compatible range of a name and source (where a dependency is
      answered with packages of one range, which patches need not respect), and
      nothing that nobody wants;
      [ResFeatures], the features of a package are those reachable from the
      requested ones; [ResCycles], the cycle check returns, reports only
      cycles, and what it misses.
    - Registry and lock file: the answers to a query and that asking again
      answers the same, the effect of a lock file on a summary, what a previous
      lock file keeps and that finding it out ends, that a lock file read back
      is the resolve that was written, and that writing it twice writes it once.
    - Sources: the index answers from exactly the lines of the crate's file,
      whatever was cached; a registry updates at most once for a query it
      cannot answer; a package is unpacked from a file that had the checksum of
      the index when it was downloaded; the query of a source of a configuration
      changes later answers only by such an update, so that without the network
      the sources are as [RegistryTrait] asks.
    - Compilation: what a command selects; the unit graph is built in finitely
      many steps and is closed under dependencies; each unit is linked with
      exactly the scripts of what it depends on; planning queues one job per
      reachable unit and returns; the job queue starts a job only after its
      dependencies, never uses more tokens than it has, and finishes every job
      or reports the first error.
    - Files: metadata is worked out for exactly the units of a build, and no two
      units that have any write the same file or share a directory, as long as
      no two hashes collide.
    - Freshness: a unit is fresh exactly if the fingerprint on disk and its own
      agree in content, a dependency counting with the hash its memo showed; that
      memos are right is an invariant of planning, and examples show the two
      places where the code leaves a memo behind later.
    - The compiler: behind its cache it answers as its processes would, what it
      prints about crate types is what is read, and what it reads of its command
      line is the profile of the unit.
    - Configuration: which file decides a key, that well-typed files give a
      well-typed configuration, when source replacement returns.
    - Manifests and workspaces: what holds of every manifest that is read, with
      the platform that patches and replacements get; that
      reading the targets never panics and gives well-formed targets; that a
      workspace that is read is one, and that reading it returns.
    - Data types, as lemmas the above rest on: round trips of printed forms,
      equality and order of source ids, the edit distance, the conflict cache.

    The theorems named as findings of the manifest show where the code departs
    from what it, or its documentation, says.

    ** Interfaces

    What the code takes from elsewhere is an argument of the definitions:
    [SemverLib], [UrlLib], [TomlLib], [HexLib], [GitLib], [IndexJson],
    [Hashing], [CacheLib], [MetadataHash] (crates, with [glob], the reading and
    writing of a lock file and the opening of files as plain arguments),
    [RustStd], [UnicodeStd], [UnicodeCase], [UnicodeLower] (standard library),
    [FileSystem], [DirSystem], [RegistryFiles], [Disk] (the disk), [Registry],
    [SourceLib], [PackageSources] and the downloads of the unit graph (what
    sources of packages answer), [Works] (what a job does when it runs).
    [Registry] and [SourceLib] are discharged by [RegistryTrait] and [Sources],
    [FileNames], the names [Freshness] uses, by [OutputFiles] there, and
    [RegistryData], with its laws, by the two instances of the file
    [RegistryData].  Laws, where a theorem needs them, are separate classes
    ([SemverLaws], [UrlLaws], [HexLaws], [MetadataHashLaws], [RegistryDataLaws],
    [RegistryFilesLaws]); each class has a concrete instance on which the
    witnesses run.

    ** Bounds and fuel

    Recursion that is not structural takes fuel and returns [None] when it
    runs out; theorems show that enough fuel gives a result:
    [Cfg.from_str] (twice the length of the text), [Path.ancestors] (its
    length), [PackageRegistry] queries, [Resolver.run], [UnitDeps] (the number
    of possible units), [BuildMap.build_map], [ResCycles] and
    [Graph.path_to_top] (the number of nodes), [SourceConfig.load] (the number
    of configured sources; beyond it the code itself does not return),
    [Workspace.find_path_deps] (one more than the directories that hold a
    manifest), fingerprints (one more than the address, as a fingerprint only
    refers to older ones), [Freshness.calculate], [CompileUnits.compile] and
    [OutputFiles.metadata_of] (the rank of the unit in the acyclic graph).
    Depths in [DepQueue] wrap at [2^64] as [usize] does; [as u32] in
    [TomlManifest] keeps 32 bits; integers of the configuration are [i64].

    ** Not modelled

    Errors are their rendered messages; a path in a message is shown as its
    bytes.  Output to the terminal is collected in a list and taken to
    succeed.  Left out are: git and path sources, which list files by patterns
    and drive libgit2, unpacking archives, HTTP and [PackageSet]; processes,
    threads and locks on files; errors of writing fingerprints and lock files;
    what a job does while its process runs and after it; the terminal and the
    command line of cargo; and the code [serde] derives, so that the model of
    manifests starts from the tables it fills in.  Strings are not interned:
    interning preserves their equality. *)
From stdpp Require Export base gmap strings list fin_maps sorting relations.
From Stdlib Require Export Ascii.

#[export] Set Warnings "-clear-no-such-hyp,-register-all".
#[global] Arguments String.append !_ _ / : simpl nomatch.

(** * Outcomes of Rust functions

    A [CargoResult<T>] is [Ok]/[Err]; a Rust panic ([unwrap], [assert!],
    indexing) is a third outcome, never confused with an error value. *)
Inductive res (E A : Type) : Type :=
| Ok (a : A)
| Err (e : E)
| Panic (msg : string).
Arguments Ok {E A} a.
Arguments Err {E A} e.
Arguments Panic {E A} msg%_string.

Definition res_bind {E A B : Type} (f : A → res E B) (m : res E A) : res E B :=
  match m with
  | Ok a => f a
  | Err e => Err e
  | Panic p => Panic p
  end.

#[global] Instance res_mret {E} : MRet (res E) := λ A a, Ok a.
#[global] Instance res_mbind {E} : MBind (res E) := λ A B f m, res_bind f m.
#[global] Instance res_fmap {E} : FMap (res E) :=
  λ A B f m, res_bind (λ a, Ok (f a)) m.

(** [CargoResult<T>]: errors carry their rendered message. *)
Abbreviation cresult := (res string).

Definition is_ok {E A} (m : res E A) : bool :=
  match m with Ok _ => true | _ => false end.
Definition is_panic {E A} (m : res E A) : bool :=
  match m with Panic _ => true | _ => false end.

(** [Result::map_err] *)
Definition map_err {E F A} (f : E → F) (m : res E A) : res F A :=
  match m with Ok a => Ok a | Err e => Err (f e) | Panic p => Panic p end.

(** [Option::unwrap] *)
Definition unwrap {E A} (o : option A) : res E A :=
  match o with
  | Some a => Ok a
  | None => Panic "called `Option::unwrap()` on a `None` value"
  end.

(** [chain_err(ctx)]: the report shows the context, then the cause. *)
Definition chain_err {A} (ctx : string) (m : res string A) : res string A :=
  map_err (λ e, String.append ctx (String (Ascii.ascii_of_nat 10) (String.append "Caused by: " e))) m.

(** Recursions bounded by a fuel argument return [None] when it runs out. *)
Definition fbind {E A B : Type} (m : option (res E A)) (f : A → option (res E B))
    : option (res E B) :=
  match m with
  | Some (Ok a) => f a
  | Some (Err e) => Some (Err e)
  | Some (Panic p) => Some (Panic p)
  | None => None
  end.
Notation "'let*' x ':=' m 'in' k" := (fbind m (λ x, k))
  (at level 10, x pattern, m at level 100, k at level 200) : stdpp_scope.

(** A [for] loop whose body may return early. *)
Fixpoint foldM {E A B : Type} (f : B → A → res E B) (b : B) (l : list A) : res E B :=
  match l with
  | [] => Ok b
  | x :: l => match f b x with
              | Ok b' => foldM f b' l
              | Err e => Err e
              | Panic p => Panic p
              end
  end.

Section res_lemmas.
Context {E : Type}.

Lemma bind_Ok_inv {A B} (m : res E A) (f : A → res E B) (b : B) :
  m ≫= f = Ok b → ∃ a, m = Ok a ∧ f a = Ok b.
Proof. destruct m; simpl; intros H; try discriminate. eauto. Qed.

Lemma bind_assoc {A B C} (m : res E A) (f : A → res E B) (g : B → res E C) :
  (m ≫= f) ≫= g = m ≫= (λ a, f a ≫= g).
Proof. by destruct m. Qed.

Lemma foldM_app {A B} (f : B → A → res E B) b l1 l2 :
  foldM f b (l1 ++ l2) = foldM f b l1 ≫= λ b', foldM f b' l2.
Proof. revert b; induction l1 as [|x l1 IH]; intros b; [done|].
  simpl. destruct (f b x); simpl; auto. Qed.

(** Loop invariants: a property kept by each iteration that succeeds. *)
Lemma foldM_inv {A B} (f : B → A → res E B) (P : B → Prop) l b b' :
  (∀ b x b', x ∈ l → P b → f b x = Ok b' → P b') →
  P b → foldM f b l = Ok b' → P b'.
Proof.
  revert b; induction l as [|x l IH]; intros b Hstep HP Hf; simpl in Hf.
  - by simplify_eq.
  - destruct (f b x) as [b1| |] eqn:Hx; try done.
    eapply (IH b1); [|eapply Hstep; eauto; set_solver|done].
    intros; eapply Hstep; eauto; set_solver.
Qed.

(** A loop all of whose iterations succeed succeeds. *)
Lemma foldM_ok {A B} (f : B → A → res E B) (P : B → list A → Prop) l b :
  (∀ b x l', P b (x :: l') → ∃ b', f b x = Ok b' ∧ P b' l') →
  P b l → ∃ b', foldM f b l = Ok b' ∧ P b' [].
Proof.
  revert b; induction l as [|x l IH]; intros b Hstep HP; simpl.
  - eauto.
  - destruct (Hstep b x l HP) as (b1 & -> & HP1). eauto.
Qed.

(** A loop that collects one result per element. *)
Lemma foldM_collect {A B} (f : A → res E B) acc l :
  match foldM (λ out x, y ← f x; Ok (out ++ [y])) acc l with
  | Ok out => ∃ new, out = acc ++ new ∧ Forall2 (λ x y, f x = Ok y) l new
  | Err e => ∃ x, x ∈ l ∧ f x = Err e
  | Panic m => ∃ x, x ∈ l ∧ f x = Panic m
  end.
Proof.
  revert acc. induction l as [|x l IH]; intros acc; simpl; [exists []; by rewrite app_nil_r|].
  destruct (f x) as [y|e|m] eqn:Hx; simpl; [|exists x; split; [constructor|done]..].
  specialize (IH (acc ++ [y])). destruct (foldM _ _ l) as [out|e|m].
  - destruct IH as (new & -> & Hnew). exists (y :: new). rewrite <-app_assoc. split; [done|by constructor].
  - destruct IH as (z & Hz & ?). exists z. split; [by constructor|done].
  - destruct IH as (z & Hz & ?). exists z. split; [by constructor|done].
Qed.
End res_lemmas.

(** Case analysis on every [match] of a hypothesis that computes a result. *)
Ltac res_inv H :=
  repeat (match type of H with context [match ?x with _ => _ end] => destruct x eqn:? end; simplify_eq; try discriminate).

(** Evaluation of a closed equation by the virtual machine, without reading
    the normal forms back. *)
Ltac vm_eq :=
  match goal with |- @eq ?A ?x ?y => exact (@eq_refl A x <: @eq A x y) end.

(** * What the standard library leaves unspecified

    [HashMap] and [HashSet] iterate in an arbitrary order, [sort_unstable_by]
    orders equal elements arbitrarily.  Definitions that depend on such a
    choice take it from this class; a theorem over a class instance holds for
    every choice the standard library may make. *)
Definition cmp_le {A} (cmp : A → A → comparison) (x y : A) : Prop := cmp x y ≠ Gt.
Record cmp_total {A} (cmp : A → A → comparison) : Prop := {
  cmp_le_trans : ∀ x y z, cmp_le cmp x y → cmp_le cmp y z → cmp_le cmp x z;
  cmp_opp : ∀ x y, cmp y x = CompOpp (cmp x y);
}.

(** Orders composed: one after the other, and through a function. *)
Definition cmp_then (o o' : comparison) : comparison := match o with Eq => o' | o => o end.
Lemma cmp_total_on {A B} (f : A → B) cmp : cmp_total cmp → cmp_total (λ x y, cmp (f x) (f y)).
Proof. intros [Htr Hop]. split; [intros x y z; apply Htr|intros x y; apply Hop]. Qed.
Lemma cmp_total_ext {A} (cmp cmp' : A → A → comparison) : (∀ x y, cmp x y = cmp' x y) → cmp_total cmp → cmp_total cmp'.
Proof.
  intros He [Htr Hop]. split; [intros x y z; unfold cmp_le; rewrite <-!He; apply Htr|intros x y; rewrite <-!He; apply Hop].
Qed.
Section cmp_facts.
Context {A : Type} (cmp : A → A → comparison) (Htot : cmp_total cmp).
Lemma cmp_eq_sym x y : cmp x y = Eq → cmp y x = Eq.
Proof. intros H. by rewrite (cmp_opp _ Htot x y), H. Qed.
Lemma cmp_eq_l x y z : cmp x y = Eq → cmp x z = cmp y z.
Proof.
  intros H. pose proof (cmp_eq_sym _ _ H) as H'. pose proof (cmp_opp _ Htot x z) as Hx. pose proof (cmp_opp _ Htot y z) as Hy.
  pose proof (cmp_le_trans _ Htot x y z) as H1. pose proof (cmp_le_trans _ Htot y x z) as H2.
  pose proof (cmp_le_trans _ Htot z x y) as H3. pose proof (cmp_le_trans _ Htot z y x) as H4. unfold cmp_le in *.
  rewrite H, H', Hx, Hy in *. destruct (cmp x z), (cmp y z); try done; exfalso; cbn in *; naive_solver.
Qed.
Lemma cmp_eq_r x y z : cmp x y = Eq → cmp z x = cmp z y.
Proof. intros H. by rewrite (cmp_opp _ Htot x z), (cmp_opp _ Htot y z), (cmp_eq_l _ _ _ H). Qed.
Lemma cmp_eq_refl x : cmp x x = Eq.
Proof. pose proof (cmp_opp _ Htot x x) as H. by destruct (cmp x x). Qed.
Lemma cmp_lt_le_trans x y z : cmp x y = Lt → cmp_le cmp y z → cmp x z = Lt.
Proof.
  intros Hxy Hyz. pose proof (cmp_le_trans _ Htot x y z ltac:(unfold cmp_le; congruence) Hyz) as Hxz.
  destruct (cmp x z) eqn:E; [|done..]. rewrite (cmp_eq_l _ _ _ E) in Hxy. rewrite (cmp_opp _ Htot y z) in Hxy.
  unfold cmp_le in *. by destruct (cmp y z).
Qed.
End cmp_facts.
Lemma cmp_total_then {A} (c c' : A → A → comparison) :
  cmp_total c → cmp_total c' → cmp_total (λ x y, cmp_then (c x y) (c' x y)).
Proof.
  intros Hc Hc'. split.
  - intros x y z. unfold cmp_le. destruct (c x y) eqn:Hxy; cbn [cmp_then]; [|intros _|done].
    + rewrite (cmp_eq_l c Hc _ _ z Hxy). destruct (c y z); [|done..]. apply (cmp_le_trans _ Hc').
    + destruct (c y z) eqn:Hyz; cbn [cmp_then]; [|intros _|done].
      * rewrite <-(cmp_eq_r c Hc _ _ x Hyz), Hxy. done.
      * rewrite (cmp_lt_le_trans c Hc _ _ _ Hxy); [done|]. unfold cmp_le. by rewrite Hyz.
  - intros x y. rewrite (cmp_opp _ Hc x y), (cmp_opp _ Hc' x y). by destruct (c x y).
Qed.
Lemma nat_cmp_total : cmp_total Nat.compare.
Proof.
  split; [|intros x y; apply Nat.compare_antisym]. intros x y z. unfold cmp_le. rewrite !Nat.compare_le_iff. lia.
Qed.
Lemma pos_cmp_total : cmp_total Pos.compare.
Proof.
  split; [|intros x y; apply Pos.compare_antisym]. intros x y z. unfold cmp_le. rewrite !Pos.compare_le_iff. lia.
Qed.
Lemma ascii_cmp_total : cmp_total Ascii.compare.
Proof.
  split; [|intros x y; apply Ascii.compare_antisym]. intros x y z. unfold cmp_le, Ascii.compare. rewrite !N.compare_le_iff. lia.
Qed.
Lemma string_cmp_total : cmp_total String.compare.
Proof.
  split; [|intros x y; apply String.compare_antisym]. unfold cmp_le.
  induction x as [|a x IH]; intros [|b y] [|c z]; cbn [String.compare]; try done.
  pose proof ascii_cmp_total as Ha. specialize (IH y z). destruct (Ascii.compare a b) eqn:Hab; [|intros _|done].
  - rewrite (cmp_eq_l _ Ha _ _ c Hab). by destruct (Ascii.compare b c).
  - destruct (Ascii.compare b c) eqn:Hbc; [|intros _|done].
    + by rewrite <-(cmp_eq_r _ Ha _ _ a Hbc), Hab.
    + rewrite (cmp_lt_le_trans _ Ha _ _ _ Hab); [done|]. unfold cmp_le. by rewrite Hbc.
Qed.

(** The derived order of [Option]. *)
Definition option_cmp {A} (cmp : A → A → comparison) (x y : option A) : comparison :=
  match x, y with Some x, Some y => cmp x y | Some _, None => Gt | None, Some _ => Lt | None, None => Eq end.
Lemma option_cmp_total {A} (cmp : A → A → comparison) : cmp_total cmp → cmp_total (option_cmp cmp).
Proof. intros [Htr Hop]. split; [intros [x|] [y|] [z|]; try done; apply Htr|intros [x|] [y|]; try done; apply Hop]. Qed.

Class RustStd := {
  hm_iter : ∀ {K} `{Countable K} {A}, gmap K A → list (K * A);
  hm_iter_perm : ∀ {K} `{Countable K} {A} (m : gmap K A), hm_iter m ≡ₚ map_to_list m;
  hs_iter : ∀ {K} `{Countable K}, gset K → list K;
  hs_iter_perm : ∀ {K} `{Countable K} (s : gset K), hs_iter s ≡ₚ elements s;
  sort_unstable_by : ∀ {A}, (A → A → comparison) → list A → list A;
  sort_unstable_perm : ∀ {A} (cmp : A → A → comparison) l, sort_unstable_by cmp l ≡ₚ l;
  sort_unstable_sorted : ∀ {A} (cmp : A → A → comparison) l,
    cmp_total cmp → StronglySorted (cmp_le cmp) (sort_unstable_by cmp l);
  (* [BinaryHeap]: a multiset whose greatest elements come out first *)
  heap_push : ∀ {A}, (A → A → comparison) → A → list A → list A;
  heap_push_perm : ∀ {A} (cmp : A → A → comparison) x l, heap_push cmp x l ≡ₚ x :: l;
  heap_pop : ∀ {A}, (A → A → comparison) → list A → option (A * list A);
  heap_pop_None : ∀ {A} (cmp : A → A → comparison) l, heap_pop cmp l = None ↔ l = [];
  heap_pop_perm : ∀ {A} (cmp : A → A → comparison) l x l',
    heap_pop cmp l = Some (x, l') → l ≡ₚ x :: l';
  heap_pop_max : ∀ {A} (cmp : A → A → comparison) l x l',
    cmp_total cmp → heap_pop cmp l = Some (x, l') → ∀ y, y ∈ l → cmp_le cmp y x;
}.

Lemma last_default {A} (x : A) l d : List.last (x :: l) d = List.last l x.
Proof.
  revert x d. induction l as [|y l IH]; intros x d; [done|].
  change (List.last (x :: y :: l) d) with (List.last (y :: l) d).
  by rewrite !IH.
Qed.

(** [Iterator::max_by_key]: the last of several maximal elements. *)
Definition max_by_key {A} (f : A → N) (l : list A) : option A :=
  foldl (λ acc x, match acc with
                  | None => Some x
                  | Some y => if (f y <=? f x)%N then Some x else Some y
                  end) None l.

Lemma max_by_key_acc {A} (f : A → N) l a :
  ∃ x, foldl (λ acc x, match acc with
                  | None => Some x
                  | Some y => if (f y <=? f x)%N then Some x else Some y
                  end) (Some a) l = Some x ∧ (x = a ∨ x ∈ l) ∧
       ∀ y, y = a ∨ y ∈ l → (f y <= f x)%N.
Proof.
  revert a. induction l as [|b l IH]; intros a; simpl.
  - exists a. split_and!; [done|by left|]. intros y [->|Hy]; [lia|].
    by apply elem_of_nil in Hy.
  - destruct (N.leb_spec (f a) (f b)) as [Hle|Hlt].
    + destruct (IH b) as (x & -> & Hx & Hmax). exists x. split_and!; [done| |].
      * right. apply elem_of_cons. tauto.
      * intros y [->|Hy]; [|apply Hmax; apply elem_of_cons in Hy; tauto].
        pose proof (Hmax b (or_introl eq_refl)). lia.
    + destruct (IH a) as (x & -> & Hx & Hmax). exists x. split_and!; [done| |].
      * destruct Hx; [by left|right; by constructor].
      * intros y [->|Hy]; [by apply Hmax; left|].
        apply elem_of_cons in Hy as [->|Hy]; [|by apply Hmax; right].
        pose proof (Hmax a (or_introl eq_refl)). lia.
Qed.

Lemma max_by_key_Some {A} (f : A → N) l x :
  max_by_key f l = Some x → x ∈ l ∧ ∀ y, y ∈ l → (f y <= f x)%N.
Proof.
  unfold max_by_key. destruct l as [|a l]; simpl; [done|].
  destruct (max_by_key_acc f l a) as (z & -> & Hz & Hmax). intros; simplify_eq.
  split; [apply elem_of_cons; tauto|]. intros y Hy. apply Hmax. by apply elem_of_cons.
Qed.

Lemma max_by_key_None {A} (f : A → N) l : max_by_key f l = None ↔ l = [].
Proof.
  unfold max_by_key. destruct l as [|a l]; simpl; [done|].
  destruct (max_by_key_acc f l a) as (z & -> & _). naive_solver.
Qed.

(** [usize] on a 64-bit target. *)
Definition usize_bits : N := 64.
Definition usize_max : N := 2 ^ usize_bits - 1.
Definition usize_wrap (n : N) : N := n mod 2 ^ usize_bits.

Lemma usize_wrap_small n : (n <= usize_max)%N → usize_wrap n = n.
Proof. intros Hn. unfold usize_wrap. apply N.mod_small. unfold usize_max, usize_bits in *. lia. Qed.

(** Stable sorting ([slice::sort_by]), insertion from the right. *)
Fixpoint insert_by {A} (cmp : A → A → comparison) (x : A) (l : list A) : list A :=
  match l with
  | [] => [x]
  | y :: l' => match cmp x y with
               | Gt => y :: insert_by cmp x l'
               | _ => x :: l
               end
  end.
Definition sort_by {A} (cmp : A → A → comparison) (l : list A) : list A :=
  foldr (insert_by cmp) [] l.

Lemma insert_by_perm {A} (cmp : A → A → comparison) x l : insert_by cmp x l ≡ₚ x :: l.
Proof.
  induction l as [|y l IH]; simpl; [done|].
  destruct (cmp x y); try done. rewrite IH. constructor.
Qed.

Lemma sort_by_perm {A} (cmp : A → A → comparison) l : sort_by cmp l ≡ₚ l.
Proof. induction l as [|x l IH]; simpl; [done|]. by rewrite insert_by_perm, IH. Qed.

Section sort_by.
Context {A : Type} (cmp : A → A → comparison) (Htot : cmp_total cmp).

Lemma cmp_le_refl x : cmp_le cmp x x.
Proof. intros H. pose proof (cmp_opp _ Htot x x). rewrite H in *. done. Qed.

Lemma insert_by_sorted x l :
  StronglySorted (cmp_le cmp) l → StronglySorted (cmp_le cmp) (insert_by cmp x l).
Proof.
  induction 1 as [|y l Hl IH Hy]; simpl; [repeat constructor|].
  destruct (cmp x y) eqn:Hxy; try (constructor; [by constructor|]; constructor;
    [unfold cmp_le; congruence|]; eapply Forall_impl; [exact Hy|]; intros z Hz;
    eapply cmp_le_trans; [done| |exact Hz]; unfold cmp_le; congruence).
  constructor; [done|]. rewrite insert_by_perm. constructor; [|done].
  unfold cmp_le. rewrite (cmp_opp _ Htot x y), Hxy. done.
Qed.

Lemma sort_by_sorted l : StronglySorted (cmp_le cmp) (sort_by cmp l).
Proof. induction l; simpl; [constructor|]. by apply insert_by_sorted. Qed.
End sort_by.

(** A heap kept as a list sorted from the greatest element on. *)
Definition list_heap_push {A} (cmp : A → A → comparison) (x : A) (l : list A) : list A :=
  x :: l.
Definition list_heap_pop {A} (cmp : A → A → comparison) (l : list A) : option (A * list A) :=
  match rev (sort_by cmp l) with
  | [] => None
  | x :: l => Some (x, l)
  end.

Lemma list_heap_pop_perm {A} (cmp : A → A → comparison) l x l' :
  list_heap_pop cmp l = Some (x, l') → l ≡ₚ x :: l'.
Proof.
  unfold list_heap_pop. destruct (rev _) as [|y k] eqn:Hr; [done|]. intros [= -> ->].
  by rewrite <-Hr, <-Permutation_rev, sort_by_perm.
Qed.

Lemma list_heap_pop_max {A} (cmp : A → A → comparison) l x l' :
  cmp_total cmp → list_heap_pop cmp l = Some (x, l') → ∀ y, y ∈ l → cmp_le cmp y x.
Proof.
  intros Ht. unfold list_heap_pop. destruct (rev _) as [|y k] eqn:Hr; [done|]. intros [= -> ->] w Hy.
  pose proof (sort_by_sorted cmp Ht l) as Hs.
  assert (Hrev : sort_by cmp l = rev l' ++ [x]) by (by rewrite <-(rev_involutive (sort_by cmp l)), Hr).
  assert (Hy' : w ∈ rev l' ++ [x]) by (by rewrite <-Hrev, sort_by_perm).
  rewrite Hrev in Hs. apply elem_of_app in Hy' as [Hy'|Hy'].
  - clear Hrev Hr Hy. induction (rev l') as [|z m IH]; [by apply elem_of_nil in Hy'|].
    apply StronglySorted_inv in Hs as [Hs Hz]. apply elem_of_cons in Hy' as [->|Hy']; [|auto].
    rewrite Forall_forall in Hz. apply Hz. apply elem_of_app. right. by apply list_elem_of_singleton.
  - apply list_elem_of_singleton in Hy' as ->. by apply cmp_le_refl.
Qed.

(** One admissible choice, used by the concrete runs. *)
Program Definition std_order : RustStd := {|
  hm_iter K _ _ A m := map_to_list m;
  hs_iter K _ _ s := elements s;
  sort_unstable_by A cmp l := sort_by cmp l;
  heap_push A cmp x l := list_heap_push cmp x l;
  heap_pop A cmp l := list_heap_pop cmp l;
|}.
Next Obligation. done. Qed.
Next Obligation. done. Qed.
Next Obligation. intros. apply sort_by_perm. Qed.
Next Obligation. intros. by apply sort_by_sorted. Qed.
Next Obligation. done. Qed.
Next Obligation.
  intros A cmp l. unfold list_heap_pop. destruct (rev _) as [|y k] eqn:Hr; split; try done.
  - intros _. apply (f_equal (@rev _)) in Hr. rewrite rev_involutive in Hr. simpl in Hr.
    apply Permutation_nil. rewrite <-Hr. by rewrite sort_by_perm.
  - intros ->. done.
Qed.
Next Obligation. intros A cmp l x l'. apply list_heap_pop_perm. Qed.
Next Obligation. intros A cmp l x l'. apply list_heap_pop_max. Qed.

Section std_lemmas.
Context `{RS : RustStd} {K : Type} `{Countable K}.

Lemma elem_of_hm_iter {A} (m : gmap K A) k x : (k, x) ∈ hm_iter m ↔ m !! k = Some x.
Proof. rewrite hm_iter_perm. apply elem_of_map_to_list. Qed.

Lemma elem_of_hs_iter (s : gset K) k : k ∈ hs_iter s ↔ k ∈ s.
Proof. rewrite hs_iter_perm. set_solver. Qed.

Lemma NoDup_hs_iter (s : gset K) : NoDup (hs_iter s).
Proof. rewrite hs_iter_perm. apply NoDup_elements. Qed.

Lemma NoDup_hm_iter_fst {A} (m : gmap K A) : NoDup (hm_iter m).*1.
Proof. rewrite hm_iter_perm. apply NoDup_fst_map_to_list. Qed.
End std_lemmas.

(** * Hash maps over types with their own equality

    Several key types of Cargo ([PackageId], [SourceId], [Version]) define a
    [PartialEq] that is coarser than equality of their fields.  [HashKey K]
    names the data that [==] compares, and a [HashMap<K, V>] stores, under it,
    the key that was inserted first together with the current value. *)
Class HashKey (K : Type) := {
  hkey : Type;
  #[global] hkey_eq_dec :: EqDecision hkey;
  #[global] hkey_countable :: Countable hkey;
  to_key : K → hkey;
}.
#[global] Typeclasses Opaque hkey.
#[global] Arguments hkey K {_} : simpl never.
#[global] Arguments to_key {K _} _ : simpl never.
#[global] Arguments hkey_eq_dec {K _} : simpl never.
#[global] Arguments hkey_countable {K _} : simpl never.

(** [a == b] *)
Definition heqb `{HashKey K} (a b : K) : bool := bool_decide (to_key a = to_key b).
Notation "a ==? b" := (heqb a b) (at level 60) : stdpp_scope.

Definition leibniz_key (K : Type) `{Countable K} : HashKey K :=
  {| hkey := K; to_key := λ k, k |}.
#[global] Instance string_key : HashKey string := leibniz_key string.
#[global] Instance nat_key : HashKey nat := leibniz_key nat.
#[global] Instance prod_key `{HashKey A, HashKey B} : HashKey (A * B) :=
  {| hkey := hkey A * hkey B; to_key := λ p, (to_key p.1, to_key p.2) |}.
#[global] Instance option_key `{HashKey A} : HashKey (option A) :=
  {| hkey := option (hkey A); to_key := λ o, to_key <$> o |}.
#[global] Instance list_key `{HashKey A} : HashKey (list A) :=
  {| hkey := list (hkey A); to_key := λ l, to_key <$> l |}.

Abbreviation hashmap K V := (@gmap (hkey K) hkey_eq_dec hkey_countable (K * V)).
Abbreviation keyset K := (@gset (hkey K) hkey_eq_dec hkey_countable).

Section hashmap.
Context `{HK : HashKey K} {V : Type}.
Implicit Types m : hashmap K V.

Definition hget m (k : K) : option V := snd <$> m !! to_key k.
Definition hcontains m (k : K) : bool := bool_decide (is_Some (m !! to_key k)).
(** [insert]: an existing key object is kept, its value replaced. *)
Definition hinsert (k : K) (v : V) m : hashmap K V :=
  match m !! to_key k with
  | Some (k0, _) => <[to_key k := (k0, v)]> m
  | None => <[to_key k := (k, v)]> m
  end.
(** [entry(k).or_insert(v)] *)
Definition hor_insert (k : K) (v : V) m : hashmap K V :=
  match m !! to_key k with
  | Some _ => m
  | None => <[to_key k := (k, v)]> m
  end.
(** mutation through [get_mut(k)] *)
Definition hupdate (f : V → V) (k : K) m : hashmap K V :=
  alter (prod_map id f) (to_key k) m.
Definition hremove (k : K) m : hashmap K V := delete (to_key k) m.
(** [iter()], in an arbitrary order *)
Definition hiter `{RustStd} m : list (K * V) := (hm_iter m).*2.
Definition hkeys `{RustStd} m : list K := (hiter m).*1.
Definition hvalues `{RustStd} m : list V := (hiter m).*2.

(** Every stored key object belongs to the key it is stored under. *)
Definition hwf m : Prop := ∀ i k v, m !! i = Some (k, v) → to_key k = i.

Lemma hget_empty k : hget (∅ : hashmap K V) k = None.
Proof. unfold hget. by rewrite lookup_empty. Qed.

Lemma hget_key m k k' : to_key k = to_key k' → hget m k = hget m k'.
Proof. unfold hget. by intros ->. Qed.

Lemma hget_Some m k k' v : m !! to_key k = Some (k', v) → hget m k = Some v.
Proof. unfold hget. by intros ->. Qed.

Lemma hget_Some_inv m k v : hget m k = Some v → ∃ k', m !! to_key k = Some (k', v).
Proof. unfold hget. destruct (m !! to_key k) as [[k' v']|]; naive_solver. Qed.

Lemma hget_hinsert k k' v m :
  hget (hinsert k v m) k' = if decide (to_key k = to_key k') then Some v else hget m k'.
Proof.
  unfold hget, hinsert.
  destruct (m !! to_key k) as [[k0 v0]|]; rewrite lookup_insert; by case_decide.
Qed.

Lemma hget_hor_insert k k' v m :
  hget (hor_insert k v m) k' =
    if decide (to_key k = to_key k') then Some (default v (hget m k)) else hget m k'.
Proof.
  unfold hget, hor_insert.
  destruct (m !! to_key k) as [[k0 v0]|] eqn:E.
  - case_decide as Heq; [rewrite <-Heq, E|]; done.
  - rewrite lookup_insert. by case_decide.
Qed.

Lemma hget_hupdate f k k' m :
  hget (hupdate f k m) k' =
    if decide (to_key k = to_key k') then f <$> hget m k' else hget m k'.
Proof.
  unfold hget, hupdate. rewrite lookup_alter. case_decide as Heq; [|done].
  rewrite Heq. by destruct (m !! to_key k') as [[? ?]|].
Qed.

Lemma hcontains_true m k : hcontains m k = true ↔ ∃ v, hget m k = Some v.
Proof.
  unfold hcontains, hget. rewrite bool_decide_eq_true. split.
  - intros [[k0 v] E]. rewrite E. eauto.
  - intros [v E]. destruct (m !! to_key k); [eauto|done].
Qed.

Lemma hwf_empty : hwf (∅ : hashmap K V).
Proof. intros i k v H. by rewrite lookup_empty in H. Qed.

Lemma hwf_hinsert k v m : hwf m → hwf (hinsert k v m).
Proof.
  intros Hm i k' v'. unfold hinsert.
  destruct (m !! to_key k) as [[k0 v0]|] eqn:E;
    rewrite lookup_insert; case_decide; intros; simplify_eq; eauto.
Qed.

Lemma hwf_hor_insert k v m : hwf m → hwf (hor_insert k v m).
Proof.
  intros Hm i k' v'. unfold hor_insert.
  destruct (m !! to_key k) as [[k0 v0]|] eqn:E; [by apply Hm|].
  rewrite lookup_insert; case_decide; intros; simplify_eq; eauto.
Qed.

Lemma hwf_hupdate f k m : hwf m → hwf (hupdate f k m).
Proof.
  intros Hm i k' v'. unfold hupdate. rewrite lookup_alter.
  case_decide as Heq; [|by apply Hm]. subst i.
  destruct (m !! to_key k) as [[k0 v0]|] eqn:E; [|done].
  simpl; intros; simplify_eq. by apply (Hm _ _ _ E).
Qed.

(** The keys as a set *)
Definition hdom m : keyset K := dom m.

Lemma hcontains_hdom m k : hcontains m k = bool_decide (to_key k ∈ hdom m).
Proof. apply bool_decide_ext. unfold hdom. by rewrite elem_of_dom. Qed.

Lemma hget_hdom m k : is_Some (hget m k) ↔ to_key k ∈ hdom m.
Proof. unfold hget, hdom. by rewrite fmap_is_Some, elem_of_dom. Qed.

Lemma hdom_empty : hdom ∅ = ∅.
Proof. apply dom_empty_L. Qed.

Lemma hdom_hinsert k v m : hdom (hinsert k v m) = {[to_key k]} ∪ hdom m.
Proof. unfold hinsert. destruct (m !! to_key k) as [[? ?]|]; apply leibniz_equiv, dom_insert. Qed.

Lemma hdom_hremove k m : hdom (hremove k m) = hdom m ∖ {[to_key k]}.
Proof. apply leibniz_equiv, dom_delete. Qed.

Context `{RustStd}.

Lemma elem_of_hiter m k v : (k, v) ∈ hiter m ↔ ∃ i, m !! i = Some (k, v).
Proof.
  unfold hiter. rewrite list_elem_of_fmap. split.
  - intros ([i [k' v']] & Heq & Hin). simplify_eq/=.
    exists i. by apply elem_of_hm_iter.
  - intros [i Hi]. exists (i, (k, v)). split; [done|]. by apply elem_of_hm_iter.
Qed.

Lemma elem_of_hiter_wf m k v : hwf m → (k, v) ∈ hiter m ↔ m !! to_key k = Some (k, v).
Proof.
  intros Hwf. rewrite elem_of_hiter. split; [|eauto].
  intros [i Hi]. by rewrite (Hwf _ _ _ Hi).
Qed.

Lemma hiter_one k0 v0 k v : (k, v) ∈ hiter (hinsert k0 v0 ∅) → k = k0 ∧ v = v0.
Proof.
  intros [i Hi]%elem_of_hiter. unfold hinsert in Hi. rewrite lookup_empty in Hi.
  apply lookup_insert_Some in Hi as [[_ [= -> ->]]|[_ Hi]]; [done|by rewrite lookup_empty in Hi].
Qed.

Lemma elem_of_hkeys_get m k :
  hwf m → k ∈ hkeys m → ∃ v, hget m k = Some v.
Proof.
  intros Hwf. unfold hkeys. rewrite list_elem_of_fmap.
  intros ([k' v] & -> & Hin). apply elem_of_hiter_wf in Hin; [|done].
  exists v. unfold hget; simpl. by rewrite Hin.
Qed.

Lemma hget_elem_of_hkeys m k v :
  hwf m → hget m k = Some v → ∃ k', k' ∈ hkeys m ∧ to_key k' = to_key k.
Proof.
  intros Hwf. unfold hget. destruct (m !! to_key k) as [[k' v']|] eqn:E; [|done].
  intros _. exists k'. pose proof (Hwf _ _ _ E) as Hk. split; [|done].
  unfold hkeys. apply list_elem_of_fmap. exists (k', v'). split; [done|].
  apply elem_of_hiter. eauto.
Qed.

(** Keys of a well-formed map are pairwise different under [==]. *)
Lemma NoDup_hkeys m : hwf m → NoDup (to_key <$> hkeys m).
Proof.
  intros Hwf. unfold hkeys, hiter. rewrite <-!list_fmap_compose.
  assert (Heq : (λ p : hkey K * (K * V), to_key p.2.1) <$> hm_iter m = (hm_iter m).*1).
  { apply list_fmap_ext. intros i [j [k v]] Hi. simpl.
    apply (Hwf j k v). apply elem_of_hm_iter. by apply list_elem_of_lookup_2 in Hi. }
  erewrite list_fmap_ext; [rewrite Heq; apply NoDup_hm_iter_fst|done].
Qed.
End hashmap.

(** What is left of a set shrinks as elements are marked. *)
Lemma size_left_mono {K} `{Countable K} (d c c' : gset K) : c ⊆ c' → (size (d ∖ c') ≤ size (d ∖ c))%nat.
Proof. intros Hc. apply subseteq_size. set_solver. Qed.

Lemma size_left_mark {K} `{Countable K} (d c : gset K) k :
  k ∈ d → k ∉ c → (S (size (d ∖ ({[k]} ∪ c))) ≤ size (d ∖ c))%nat.
Proof.
  intros Hk Hc. assert (Hd : d ∖ ({[k]} ∪ c) = (d ∖ c) ∖ {[k]}) by set_solver. rewrite Hd.
  rewrite size_difference by set_solver. rewrite size_singleton.
  assert (size (d ∖ c) ≠ 0); [|lia]. rewrite size_non_empty_iff. set_solver.
Qed.

(** A [HashSet<K>] is the map to the unit type. *)
Abbreviation hashset K := (hashmap K unit).

Lemma heqb_true `{HashKey K} (a b : K) : a ==? b = true ↔ to_key a = to_key b.
Proof. apply bool_decide_eq_true. Qed.
Lemma heqb_false `{HashKey K} (a b : K) : a ==? b = false ↔ to_key a ≠ to_key b.
Proof. apply bool_decide_eq_false. Qed.
Lemma heqb_refl `{HashKey K} (a : K) : a ==? a = true.
Proof. by apply heqb_true. Qed.

(** [slice.contains(x)] with the element's own equality. *)
Definition hmem `{HashKey K} (x : K) (l : list K) : bool := existsb (λ y, x ==? y) l.
Lemma hmem_true `{HashKey K} (x : K) l :
  hmem x l = true ↔ to_key x ∈ (to_key <$> l).
Proof.
  unfold hmem. rewrite existsb_exists, list_elem_of_fmap.
  split; intros (y & H1 & H2).
  - exists y. rewrite heqb_true in H2. rewrite list_elem_of_In. auto.
  - exists y. rewrite heqb_true. rewrite <-list_elem_of_In. auto.
Qed.

(** Membership in the lists that [List.filter] and [List.map] make. *)
Lemma elem_of_filter_bool {A} (f : A → bool) l x : x ∈ List.filter f l ↔ x ∈ l ∧ f x = true.
Proof. by rewrite !list_elem_of_In, List.filter_In. Qed.
Lemma elem_of_list_map {A B} (f : A → B) l y : y ∈ List.map f l ↔ ∃ x, x ∈ l ∧ y = f x.
Proof. rewrite list_elem_of_In, in_map_iff. setoid_rewrite list_elem_of_In. naive_solver. Qed.
Lemma elem_of_concat_bind {A B} (f : A → list B) l y : y ∈ concat (List.map f l) ↔ ∃ x, x ∈ l ∧ y ∈ f x.
Proof.
  rewrite list_elem_of_In, in_concat. setoid_rewrite in_map_iff. setoid_rewrite list_elem_of_In. naive_solver.
Qed.

(** Characters beyond ASCII are classified by Unicode tables; a character is
    given by its UTF-8 bytes. *)
Class UnicodeStd := {
  char_is_alphabetic : string → bool;
  char_is_alphanumeric : string → bool;
}.

Create HintDb cargo.
#[export] Hint Resolve hwf_empty hwf_hinsert hwf_hor_insert hwf_hupdate : cargo.
Create Rewrite HintDb cargo.
#[export] Hint Rewrite @hget_empty @hget_hinsert @hget_hor_insert @hget_hupdate : cargo.
