(* ===== verification/Str.v ===== *)
(** The operations of Rust's [str] that Cargo uses, on [String.string].  A
    string is its UTF-8 bytes; every operation below splits only at ASCII
    characters, so bytes and characters agree. *)
From S2P Require Import Prelude.

Local Open Scope string_scope.

Definition ch (n : nat) : ascii := ascii_of_nat n.
(** The double quote character. *)
Definition quote : ascii := ch 34.
Definition quote_str : string := String quote EmptyString.
Definition empty : string := EmptyString.

Definition is_empty (s : string) : bool :=
  match s with EmptyString => true | _ => false end.

Fixpoint contains_char (c : ascii) (s : string) : bool :=
  match s with
  | EmptyString => false
  | String d s => Ascii.eqb c d || contains_char c s
  end.

(** [s.splitn(2, c)]: the part before the first [c], and the part after it. *)
Fixpoint split_once (c : ascii) (s : string) : string * option string :=
  match s with
  | EmptyString => (EmptyString, None)
  | String d s' => if Ascii.eqb c d then (EmptyString, Some s')
                   else let '(a, b) := split_once c s' in (String d a, b)
  end.

(** [s.split(c)] *)
Fixpoint split_char (c : ascii) (s : string) : list string :=
  match s with
  | EmptyString => [EmptyString]
  | String d s' =>
      if Ascii.eqb c d then EmptyString :: split_char c s'
      else match split_char c s' with
           | [] => [String d EmptyString]
           | x :: l => String d x :: l
           end
  end.

Definition starts_with (p s : string) : bool := String.prefix p s.

Fixpoint str_drop (n : nat) (s : string) : string :=
  match n, s with
  | S n, String _ s => str_drop n s
  | _, _ => s
  end.

Fixpoint str_take (n : nat) (s : string) : string :=
  match n, s with
  | S n, String c s => String c (str_take n s)
  | _, _ => EmptyString
  end.

Fixpoint ends_with_char (c : ascii) (s : string) : bool :=
  match s with
  | EmptyString => false
  | String d EmptyString => Ascii.eqb c d
  | String _ s => ends_with_char c s
  end.

Definition ends_with (suf s : string) : bool :=
  String.eqb (str_drop (String.length s - String.length suf) s) suf.

(** [s.splitn(2, p)] *)
Fixpoint split_str (p s : string) : string * option string :=
  if starts_with p s then (EmptyString, Some (str_drop (String.length p) s))
  else match s with
       | EmptyString => (EmptyString, None)
       | String c s => let '(a, b) := split_str p s in (String c a, b)
       end.

(** ASCII lower case ([str::to_lowercase] on ASCII text). *)
Definition lower_char (c : ascii) : ascii :=
  let n := nat_of_ascii c in
  if ((65 <=? n) && (n <=? 90))%nat then ascii_of_nat (n + 32) else c.
Fixpoint to_lowercase (s : string) : string :=
  match s with
  | EmptyString => EmptyString
  | String c s => String (lower_char c) (to_lowercase s)
  end.

(** [s.replace(a, b)] for one-character patterns. *)
Fixpoint replace_char (a b : ascii) (s : string) : string :=
  match s with
  | EmptyString => EmptyString
  | String c s => String (if Ascii.eqb a c then b else c) (replace_char a b s)
  end.

(** The longest prefix whose characters satisfy [p], and the rest. *)
Fixpoint span (p : ascii → bool) (s : string) : string * string :=
  match s with
  | EmptyString => (EmptyString, EmptyString)
  | String c s' => if p c then let '(a, b) := span p s' in (String c a, b)
                   else (EmptyString, s)
  end.

Fixpoint all_chars (p : ascii → bool) (s : string) : bool :=
  match s with
  | EmptyString => true
  | String c s => p c && all_chars p s
  end.

Fixpoint join (sep : string) (l : list string) : string :=
  match l with
  | [] => EmptyString
  | [x] => x
  | x :: l => x ++ sep ++ join sep l
  end.

(** The first character of a non-empty string: a byte and the continuation
    bytes that follow it. *)
Definition is_continuation (c : ascii) : bool :=
  ((128 <=? nat_of_ascii c) && (nat_of_ascii c <? 192))%nat.
Definition char_len (s : string) : nat :=
  match s with
  | EmptyString => 0
  | String _ s => S (String.length (span is_continuation s).1)
  end.

(** [&s[..n]]: panics past the end and inside a character. *)
Definition slice_to {E} (n : nat) (s : string) : res E string :=
  if (String.length s <? n)%nat then Panic "byte index out of bounds"
  else match str_drop n s with
       | String c _ => if is_continuation c then Panic "byte index is not a char boundary"
                       else Ok (str_take n s)
       | EmptyString => Ok s
       end.

(** [s.chars()], each character as its bytes. *)
Fixpoint chars_aux (acc : string) (s : string) : list string :=
  match s with
  | EmptyString => if is_empty acc then [] else [acc]
  | String c s =>
      if is_continuation c then chars_aux (acc ++ String c EmptyString) s
      else (if is_empty acc then [] else [acc]) ++ chars_aux (String c EmptyString) s
  end.
Definition chars (s : string) : list string := chars_aux EmptyString s.

(** The scalar value of a character. *)
Definition byte_val (c : ascii) : N := N_of_ascii c.
Definition char_code (c : string) : N :=
  match c with
  | String a EmptyString => byte_val a
  | String a (String b EmptyString) => N.lor (N.shiftl (N.land (byte_val a) 31) 6) (N.land (byte_val b) 63)
  | String a (String b (String c EmptyString)) =>
      N.lor (N.shiftl (N.land (byte_val a) 15) 12)
            (N.lor (N.shiftl (N.land (byte_val b) 63) 6) (N.land (byte_val c) 63))
  | String a (String b (String c (String d _))) =>
      N.lor (N.shiftl (N.land (byte_val a) 7) 18)
        (N.lor (N.shiftl (N.land (byte_val b) 63) 12)
               (N.lor (N.shiftl (N.land (byte_val c) 63) 6) (N.land (byte_val d) 63)))
  | EmptyString => 0
  end.
Definition scalars (s : string) : list N := char_code <$> chars s.

(** [s.contains(p)] *)
Fixpoint contains_str (p s : string) : bool :=
  starts_with p s || match s with EmptyString => false | String _ s => contains_str p s end.

Definition in_range (a b c : ascii) : bool :=
  ((nat_of_ascii a <=? nat_of_ascii c) && (nat_of_ascii c <=? nat_of_ascii b))%nat.

(** * Lemmas *)
Lemma String_inj a b s t : String a s = String b t → a = b ∧ s = t.
Proof. by intros [=]. Qed.
Lemma app_nil_r_str (s : string) : s ++ EmptyString = s.
Proof. induction s as [|c s IH]; simpl; [done|by rewrite IH]. Qed.

Lemma app_assoc_str (a b c : string) : (a ++ b) ++ c = a ++ b ++ c.
Proof. induction a as [|x a IH]; simpl; [done|by rewrite IH]. Qed.

Lemma length_app_str (a b : string) :
  String.length (a ++ b) = String.length a + String.length b.
Proof. induction a as [|x a IH]; simpl; [done|by rewrite IH]. Qed.

Lemma span_app p a s :
  all_chars p a = true →
  match s with EmptyString => True | String c _ => p c = false end →
  span p (a ++ s) = (a, s).
Proof.
  intros Ha Hs. induction a as [|c a IH]; simpl in *.
  - destruct s as [|c s]; simpl; [done|]. by rewrite Hs.
  - apply andb_true_iff in Ha as [-> Ha]. by rewrite IH.
Qed.

Lemma span_spec p s a b :
  span p s = (a, b) →
  s = a ++ b ∧ all_chars p a = true ∧
  match b with EmptyString => True | String c _ => p c = false end.
Proof.
  revert a b. induction s as [|c s IH]; intros a b; simpl.
  - intros; by simplify_eq.
  - destruct (p c) eqn:Hc.
    + destruct (span p s) as [a' b'] eqn:Hs. intros; simplify_eq.
      destruct (IH _ _ eq_refl) as (-> & ? & ?). simpl. rewrite Hc. done.
    + intros; simplify_eq. done.
Qed.

Lemma split_once_app c a s :
  contains_char c a = false → split_once c (a ++ String c s) = (a, Some s).
Proof.
  induction a as [|d a IH]; simpl.
  - by rewrite Ascii.eqb_refl.
  - intros [Hd Ha]%orb_false_iff. by rewrite Hd, IH.
Qed.

Lemma split_once_none c a : contains_char c a = false → split_once c a = (a, None).
Proof.
  induction a as [|d a IH]; simpl; [done|].
  intros [Hd Ha]%orb_false_iff. by rewrite Hd, IH.
Qed.

Lemma split_once_Some c s a b :
  split_once c s = (a, Some b) → s = a ++ String c b ∧ contains_char c a = false.
Proof.
  revert a b. induction s as [|d s IH]; intros a b; simpl; [done|].
  destruct (Ascii.eqb_spec c d) as [->|Hne].
  - intros; by simplify_eq.
  - destruct (split_once c s) as [a' b'] eqn:E. intros; simplify_eq.
    destruct (IH _ _ eq_refl) as [-> ?]. simpl. split; [done|].
    apply orb_false_iff. split; [by apply Ascii.eqb_neq|done].
Qed.

Lemma split_once_None c s a :
  split_once c s = (a, None) → s = a ∧ contains_char c a = false.
Proof.
  revert a. induction s as [|d s IH]; intros a; simpl.
  - intros; by simplify_eq.
  - destruct (Ascii.eqb_spec c d) as [->|Hne]; [done|].
    destruct (split_once c s) as [a' [b'|]] eqn:E; intros; simplify_eq.
    destruct (IH _ eq_refl) as [-> ?]. split; [done|].
    apply orb_false_iff. split; [by apply Ascii.eqb_neq|done].
Qed.

Lemma ends_with_char_snoc c x : ends_with_char c (x ++ String c EmptyString) = true.
Proof.
  induction x as [|d x IH]; simpl; [by rewrite Ascii.eqb_refl|].
  rewrite IH. by destruct (x ++ String c EmptyString) eqn:Hx; destruct x.
Qed.

Lemma str_take_app a b : str_take (String.length a) (a ++ b) = a.
Proof. induction a as [|d a IH]; simpl; [by destruct b|by rewrite IH]. Qed.

Lemma str_drop_app a b : str_drop (String.length a) (a ++ b) = b.
Proof. induction a as [|d a IH]; simpl; [by destruct b|done]. Qed.

Lemma starts_with_app p s : starts_with p (p ++ s) = true.
Proof.
  unfold starts_with. induction p as [|c p IH]; simpl; [by destruct s|].
  by destruct (ascii_dec c c).
Qed.

Lemma starts_with_spec p s : starts_with p s = true → ∃ r, s = p ++ r.
Proof.
  revert s. induction p as [|c p IH]; intros s; simpl; [eauto|].
  destruct s as [|d s]; [done|]. unfold starts_with; simpl.
  destruct (ascii_dec c d) as [->|]; [|done]. intros [r ->]%IH. eauto.
Qed.

Lemma ends_with_char_app c s : ends_with_char c s = true →
  ∃ a, s = (a ++ String c EmptyString).
Proof.
  induction s as [|d s IH]; simpl; [done|]. destruct s as [|d' s].
  - intros Hd%Ascii.eqb_eq. subst. by exists EmptyString.
  - intros Hs. destruct (IH Hs) as [a ->]. by exists (String d a).
Qed.

(** * [BTreeMap<String, _>]: iteration in the order of the keys *)
Definition btree_iter {A} (m : gmap string A) : list (string * A) :=
  sort_by (λ a b, String.compare a.1 b.1) (map_to_list m).

Lemma elem_of_btree_iter {A} (m : gmap string A) k x : (k, x) ∈ btree_iter m ↔ m !! k = Some x.
Proof. unfold btree_iter. rewrite sort_by_perm. apply elem_of_map_to_list. Qed.

Lemma NoDup_btree_iter {A} (m : gmap string A) : NoDup (btree_iter m).*1.
Proof. unfold btree_iter. rewrite sort_by_perm. apply NoDup_fst_map_to_list. Qed.
