(* ===== verification/Extern.v ===== *)
(** Third-party crates the program calls, as interfaces: [semver] (versions
    and requirements) and [url].  The definitions that use them take them as
    class arguments; what the code relies on is stated as separate law classes.
    Each interface has one concrete instance, on which the concrete runs of
    the library evaluate. *)
From S2P Require Import Prelude Str.

Local Open Scope string_scope.

(** * The [semver] crate *)
Class SemverLib := {
  Version : Type;
  VersionReq : Type;
  #[global] Version_key :: HashKey Version;       (* [==], [Hash] *)
  version_cmp : Version → Version → comparison;   (* [Ord] *)
  version_major : Version → N;
  version_minor : Version → N;
  version_patch : Version → N;
  version_parse : string → res string Version;
  version_to_string : Version → string;
  #[global] VersionReq_eq_dec :: EqDecision VersionReq;
  #[global] VersionReq_countable :: Countable VersionReq;
  req_parse : string → res (string * option VersionReq) VersionReq;
    (* an error message, and the requirement a deprecated spelling stands for *)
  req_to_string : VersionReq → string;
  req_any : VersionReq;
  req_exact : Version → VersionReq;
  req_matches : VersionReq → Version → bool;
}.

(** The documented behaviour of [semver] that theorems name as they use it. *)
Class SemverLaws `{SV : SemverLib} := {
  version_cmp_eq : ∀ a b, version_cmp a b = Eq ↔ to_key a = to_key b;
  version_cmp_total : cmp_total version_cmp;
  version_major_key : ∀ a b, to_key a = to_key b → version_major a = version_major b;
  version_minor_key : ∀ a b, to_key a = to_key b → version_minor a = version_minor b;
  version_patch_key : ∀ a b, to_key a = to_key b → version_patch a = version_patch b;
  req_matches_key : ∀ r a b, to_key a = to_key b → req_matches r a = req_matches r b;
  req_any_to_string : starts_with "=" (req_to_string req_any) = false;
  req_exact_to_string : ∀ v, starts_with "=" (req_to_string (req_exact v)) = true;
  req_exact_matches : ∀ v, req_matches (req_exact v) v = true;
}.

(** * The [url] crate *)
Class UrlLib := {
  Url : Type;
  #[global] Url_eq_dec :: EqDecision Url;
  #[global] Url_countable :: Countable Url;
  url_cmp : Url → Url → comparison;
  url_parse : string → res string Url;
  url_as_str : Url → string;                      (* also [Display] *)
  url_scheme : Url → string;
  url_host_str : Url → option string;
  url_path : Url → string;
  url_cannot_be_a_base : Url → bool;
  url_path_segments : Url → option (list string);
  url_query : Url → option string;
  url_query_pairs : Url → list (string * string);
  url_fragment : Url → option string;
  url_set_fragment : option string → Url → Url;
  url_set_query : option string → Url → Url;
  url_set_scheme : string → Url → option Url;     (* [Err(())] is [None] *)
  url_set_path : string → Url → Url;
  url_pop_if_empty : Url → Url;                   (* through [path_segments_mut] *)
  url_pop : Url → Url;
  url_push : string → Url → Url;
  url_to_file_path : Url → option string;
  url_from_file_path : string → option Url;
}.
#[global] Instance Url_key `{UrlLib} : HashKey Url := leibniz_key Url.

(** The documented behaviour of [url] that theorems name: the order is total and
    agrees with equality. *)
Class UrlLaws `{UL : UrlLib} := {
  url_cmp_eq : ∀ a b, url_cmp a b = Eq ↔ a = b;
  url_cmp_total : cmp_total url_cmp;
}.

(** * Concrete instances *)

(** ** Decimal numbers *)
Definition digit (n : nat) : ascii := ascii_of_nat (48 + n).
Fixpoint print_nat_aux (fuel n : nat) (acc : string) : string :=
  match fuel with
  | O => acc
  | S fuel =>
      let acc := String (digit (n mod 10)) acc in
      if (n <? 10)%nat then acc else print_nat_aux fuel (n / 10) acc
  end.
Definition print_nat (n : nat) : string := print_nat_aux (S n) n EmptyString.
Definition is_digit (c : ascii) : bool := in_range "0" "9" c.
Fixpoint parse_nat_aux (acc : nat) (s : string) : option nat :=
  match s with
  | EmptyString => Some acc
  | String c s => if is_digit c then parse_nat_aux (10 * acc + (nat_of_ascii c - 48)) s else None
  end.
Definition parse_nat (s : string) : option nat :=
  match s with EmptyString => None | _ => parse_nat_aux 0 s end.

(** ** A [semver] with versions [major.minor.patch] and the requirements
    [*], [=v] and [^v] *)
Definition sem_version : Type := nat * nat * nat.
Inductive sem_req := SemAny | SemExact (v : sem_version) | SemCaret (v : sem_version).
#[global] Instance sem_req_eq_dec : EqDecision sem_req.
Proof. solve_decision. Defined.
#[global] Instance sem_req_countable : Countable sem_req.
Proof.
  refine (inj_countable'
    (λ r, match r with SemAny => None | SemExact v => Some (inl v) | SemCaret v => Some (inr v) end)
    (λ o, match o with None => SemAny | Some (inl v) => SemExact v | Some (inr v) => SemCaret v end) _).
  by intros [].
Defined.

Definition sem_print (v : sem_version) : string :=
  let '(a, b, c) := v in print_nat a ++ "." ++ print_nat b ++ "." ++ print_nat c.
Definition sem_parse (s : string) : res string sem_version :=
  match split_char "." s with
  | [a; b; c] => match parse_nat a, parse_nat b, parse_nat c with
                 | Some a, Some b, Some c => Ok (a, b, c)
                 | _, _, _ => Err "bad version"
                 end
  | _ => Err "bad version"
  end.
Definition sem_cmp (v w : sem_version) : comparison :=
  let '(a, b, c) := v in let '(a', b', c') := w in
  match Nat.compare a a' with
  | Eq => match Nat.compare b b' with Eq => Nat.compare c c' | o => o end
  | o => o
  end.
(** [^v]: not below [v], and equal to it up to the first non-zero number. *)
Definition sem_caret (v w : sem_version) : bool :=
  let '(a, b, c) := v in let '(a', b', c') := w in
  negb (match sem_cmp v w with Gt => true | _ => false end) &&
  (if (0 <? a)%nat then a =? a'
   else (a' =? 0) && (if (0 <? b) then b =? b' else (b' =? 0) && (c =? c')))%nat.
Definition sem_matches (r : sem_req) (v : sem_version) : bool :=
  match r with
  | SemAny => true
  | SemExact w => bool_decide (v = w)
  | SemCaret w => sem_caret w v
  end.
Definition sem_req_print (r : sem_req) : string :=
  match r with
  | SemAny => "*"
  | SemExact v => "= " ++ sem_print v
  | SemCaret v => "^" ++ sem_print v
  end.
Definition sem_req_parse (s : string) : res (string * option sem_req) sem_req :=
  let ver f s := match sem_parse s with Ok v => Ok (f v) | _ => Err ("bad requirement", None) end in
  if String.eqb s "*" then Ok SemAny
  else if starts_with "= " s then ver SemExact (str_drop 2 s)
  else if starts_with "^" s then ver SemCaret (str_drop 1 s)
  else ver SemCaret s.

Definition sem_lib : SemverLib := {|
  Version := sem_version;
  VersionReq := sem_req;
  Version_key := leibniz_key sem_version;
  version_cmp := sem_cmp;
  version_major v := N.of_nat v.1.1;
  version_minor v := N.of_nat v.1.2;
  version_patch v := N.of_nat v.2;
  version_parse := sem_parse;
  version_to_string := sem_print;
  req_parse := sem_req_parse;
  req_to_string := sem_req_print;
  req_any := SemAny;
  req_exact := SemExact;
  req_matches := sem_matches;
|}.

Lemma sem_cmp_eq v w : sem_cmp v w = Eq ↔ v = w.
Proof.
  destruct v as [[a b] c], w as [[a' b'] c']. simpl.
  destruct (Nat.compare_spec a a'), (Nat.compare_spec b b'), (Nat.compare_spec c c');
    subst; split; intros; simplify_eq; done || lia.
Qed.

Lemma sem_cmp_total : cmp_total sem_cmp.
Proof.
  split.
  - intros [[a b] c] [[a' b'] c'] [[a'' b''] c'']. unfold cmp_le, sem_cmp.
    destruct (Nat.compare_spec a a'), (Nat.compare_spec a' a''), (Nat.compare_spec a a''); try lia; try done;
    destruct (Nat.compare_spec b b'), (Nat.compare_spec b' b''), (Nat.compare_spec b b''); try lia; try done;
    destruct (Nat.compare_spec c c'), (Nat.compare_spec c' c''), (Nat.compare_spec c c''); try lia; done.
  - intros [[a b] c] [[a' b'] c']. simpl.
    rewrite (Nat.compare_antisym a a'), (Nat.compare_antisym b b'), (Nat.compare_antisym c c').
    by destruct (Nat.compare a a'), (Nat.compare b b'), (Nat.compare c c').
Qed.

#[global] Instance sem_laws : SemverLaws (SV:=sem_lib).
Proof.
  split; unfold to_key; simpl.
  - intros a b. apply sem_cmp_eq.
  - apply sem_cmp_total.
  - by intros a b [= ->].
  - by intros a b [= ->].
  - by intros a b [= ->].
  - by intros r a b [= ->].
  - done.
  - intros [[a b] c]. done.
  - intros v. by apply bool_decide_eq_true.
Qed.

(** ** A [url] with hierarchical URLs [scheme://host/a/b?query#fragment] *)
Definition hier_url : Type := string * string * list string * option string * option string.

Definition hier_print (u : hier_url) : string :=
  let '(sch, host, segs, q, f) := u in
  sch ++ "://" ++ host ++ "/" ++ join "/" segs ++
  match q with Some q => "?" ++ q | None => EmptyString end ++
  match f with Some f => "#" ++ f | None => EmptyString end.
Definition hier_parse (s : string) : res string hier_url :=
  let '(s, f) := split_once "#" s in
  let '(s, q) := split_once "?" s in
  match split_once ":" s with
  | (sch, Some rest) =>
      if starts_with "//" rest && negb (String.eqb sch EmptyString) then
        let '(host, path) := split_once "/" (str_drop 2 rest) in
        Ok (sch, host, split_char "/" (default EmptyString path), q, f)
      else Err "relative URL without a base"
  | (_, None) => Err "relative URL without a base"
  end.
Definition hier_pairs (u : hier_url) : list (string * string) :=
  match u.1.2 with
  | None => []
  | Some q => (λ kv, let '(k, v) := split_once "=" kv in (k, default EmptyString v)) <$> split_char "&" q
  end.
Definition hier_pop (l : list string) : list string := removelast l.
Definition hier_pop_if_empty (l : list string) : list string :=
  if bool_decide (last l = Some EmptyString) then removelast l else l.
Definition drop_slash (p : string) : string := if starts_with "/" p then str_drop 1 p else p.

Definition hier_lib : UrlLib := {|
  Url := hier_url;
  url_cmp u v := cmp_then (String.compare (hier_print u) (hier_print v)) (Pos.compare (encode u) (encode v));
  url_parse := hier_parse;
  url_as_str := hier_print;
  url_scheme u := let '(s, _, _, _, _) := u in s;
  url_host_str u := let '(_, h, _, _, _) := u in
                    if String.eqb h EmptyString then None else Some h;
  url_path u := let '(_, _, p, _, _) := u in "/" ++ join "/" p;
  url_cannot_be_a_base u := false;
  url_path_segments u := let '(_, _, p, _, _) := u in Some p;
  url_query u := u.1.2;
  url_query_pairs := hier_pairs;
  url_fragment u := u.2;
  url_set_fragment f u := (u.1, f);
  url_set_query q u := (u.1.1, q, u.2);
  url_set_scheme s u := let '(_, h, p, q, f) := u in Some (s, h, p, q, f);
  url_set_path p u := let '(s, h, _, q, f) := u in (s, h, split_char "/" (drop_slash p), q, f);
  url_pop_if_empty u := let '(s, h, p, q, f) := u in (s, h, hier_pop_if_empty p, q, f);
  url_pop u := let '(s, h, p, q, f) := u in (s, h, hier_pop p, q, f);
  url_push x u := let '(s, h, p, q, f) := u in (s, h, (hier_pop_if_empty p ++ [x])%list, q, f);
  url_to_file_path u := let '(s, _, p, _, _) := u in
                        if String.eqb s "file" then Some ("/" ++ join "/" p) else None;
  url_from_file_path p := if starts_with "/" p
                          then Some ("file", EmptyString, split_char "/" (str_drop 1 p), None, None)
                          else None;
|}.
#[global] Instance hier_laws : UrlLaws (UL:=hier_lib).
Proof.
  split; cbn [url_cmp hier_lib].
  - intros a b. split.
    + unfold cmp_then. destruct (String.compare _ _); [|done..]. intros H%Pos.compare_eq_iff. by apply (inj encode).
    + intros ->. by rewrite (cmp_eq_refl _ string_cmp_total), (cmp_eq_refl _ pos_cmp_total).
  - apply cmp_total_then; [exact (cmp_total_on hier_print _ string_cmp_total)|exact (cmp_total_on encode _ pos_cmp_total)].
Qed.
