(* ===== verification/Path.v ===== *)
(** Paths, [std::path] of the Rust standard library on Unix, and the path
    functions of [src/cargo/util/paths.rs].  A path is its spelling; two paths
    are equal when their components are. *)
From S2P Require Import Prelude Str.

Local Open Scope string_scope.

(** * [std::path] *)
Abbreviation path := string.

Inductive Component := RootDir | CurDir | ParentDir | Normal (s : string).
#[global] Instance Component_eq_dec : EqDecision Component.
Proof. solve_decision. Defined.
#[global] Instance Component_countable : Countable Component.
Proof.
  refine (inj_countable'
    (λ c, match c with RootDir => inl 0 | CurDir => inl 1 | ParentDir => inl 2 | Normal s => inr s end)
    (λ x, match x with inl 0 => RootDir | inl 1 => CurDir | inl _ => ParentDir | inr s => Normal s end) _).
  by intros [].
Defined.

Definition is_absolute (p : path) : bool := starts_with "/" p.

(** A segment between separators; empty ones and [.] name no component. *)
Definition skipped (seg : string) : bool := is_empty seg || String.eqb seg ".".
Definition component_of (seg : string) : Component :=
  if String.eqb seg ".." then ParentDir else Normal seg.
Definition body_components (segs : list string) : list Component :=
  component_of <$> List.filter (λ s, negb (skipped s)) segs.

(** The segments after the leading separator, or all of them. *)
Definition body (p : path) : list string :=
  split_char "/" (if is_absolute p then str_drop 1 p else p).

(** A relative path keeps a leading [.] as a component. *)
Definition leading_dot (p : path) : bool :=
  negb (is_absolute p) && bool_decide (head (body p) = Some ".").

Definition components (p : path) : list Component :=
  ((if is_absolute p then [RootDir] else if leading_dot p then [CurDir] else [])
   ++ body_components (body p))%list.

Definition path_eqb (p q : path) : bool := bool_decide (components p = components q).

(** [PathBuf::push], [Path::join] *)
Definition path_join (a b : path) : path :=
  if is_absolute b then b
  else if is_empty a || ends_with_char "/" a then a ++ b
  else a ++ "/" ++ b.

(** [Components::as_path] drops the segments at the end that name nothing. *)
Fixpoint trim_back (dot : bool) (rev_segs : list string) : list string :=
  match rev_segs with
  | [] => []
  | s :: rest =>
      if skipped s && negb (dot && String.eqb s "." && bool_decide (rest = []))
      then trim_back dot rest else rev_segs
  end.

(** [Path::parent] *)
Definition parent (p : path) : option path :=
  match trim_back (leading_dot p) (rev (body p)) with
  | [] => None
  | _ :: rest =>
      Some ((if is_absolute p then "/" else "") ++
            join "/" (rev (trim_back (leading_dot p) rest)))
  end.

(** [PathBuf::pop] *)
Definition path_pop (p : path) : path := default p (parent p).

(** [Path::file_name] *)
Definition file_name (p : path) : option string :=
  match last (components p) with Some (Normal s) => Some s | _ => None end.

(** The part before and the part after the last dot; a name that starts with
    its only dot is all stem. *)
Definition rsplit_dot (name : string) : string * option string :=
  match rev (split_char "." name) with
  | ext :: seg :: r =>
      let stem := join "." (rev (seg :: r)) in
      if is_empty stem then (name, None) else (stem, Some ext)
  | _ => (name, None)
  end.
Definition file_stem (p : path) : option string := fst ∘ rsplit_dot <$> file_name p.
Definition extension (p : path) : option string := file_name p ≫= snd ∘ rsplit_dot.

(** [Path::strip_prefix]: the components of the prefix are taken off, and the
    rest is spelled as before between its first and its last component. *)
Fixpoint strip_components (a b : list Component) : option (list Component) :=
  match b, a with
  | [], _ => Some a
  | y :: b, x :: a => if decide (x = y) then strip_components a b else None
  | _ :: _, [] => None
  end.
Fixpoint drop_components (dot : bool) (n : nat) (segs : list string) : list string :=
  match n, segs with
  | O, _ => segs
  | _, [] => []
  | S n', s :: rest =>
      if skipped s && negb (dot && String.eqb s ".") then drop_components false n rest
      else drop_components false n' rest
  end.
Fixpoint trim_front (segs : list string) : list string :=
  match segs with
  | [] => []
  | s :: rest => if skipped s then trim_front rest else segs
  end.
Definition strip_prefix (p base : path) : option path :=
  match strip_components (components p) (components base) with
  | None => None
  | Some _ =>
      if bool_decide (components base = [])
      then Some ((if is_absolute p then "/" else "") ++
                 join "/" (rev (trim_back (leading_dot p) (rev (body p)))))
      else
        let n := (length (components base) - (if is_absolute p then 1 else 0))%nat in
        let rest := drop_components (leading_dot p) n (body p) in
        Some (join "/" (trim_front (rev (trim_back false (rev rest)))))
  end.
Example strip_prefix_1 : strip_prefix "/a//b/./c/" "/a/b" = Some "c" ∧ strip_prefix "/a/b" "/a/b/" = Some ""
  ∧ strip_prefix "/a/b" "b" = None ∧ strip_prefix "./a/b" "." = Some "a/b" ∧ strip_prefix "/a" "/" = Some "a".
Proof. repeat split. Qed.

Example components_1 : components "/a//b/./c/../" = [RootDir; Normal "a"; Normal "b"; Normal "c"; ParentDir].
Proof. reflexivity. Qed.
Example components_2 : components "./a/." = [CurDir; Normal "a"].
Proof. reflexivity. Qed.
Example parent_1 : parent "/a//b/./" = Some "/a" ∧ parent "/a" = Some "/" ∧ parent "/" = None
  ∧ parent "a" = Some "" ∧ parent "" = None ∧ parent "./a" = Some "." ∧ parent "." = Some "".
Proof. repeat split. Qed.
Example stem_1 : file_stem "src/bin/a.b.rs" = Some "a.b" ∧ extension "src/bin/a.b.rs" = Some "rs"
  ∧ file_stem "src/.rs" = Some ".rs" ∧ extension "src/.rs" = None ∧ file_stem "a/.." = None.
Proof. repeat split. Qed.

(** * [src/cargo/util/paths.rs] *)

(** [dylib_path_envvar] on Linux *)
Definition dylib_path_envvar : string := "LD_LIBRARY_PATH".

Definition normalize_step (ret : path) (component : Component) : path :=
  match component with
  | RootDir => path_join ret "/"
  | CurDir => ret
  | ParentDir => path_pop ret
  | Normal c => path_join ret c
  end.

Definition normalize_path (p : path) : path :=
  fold_left normalize_step (components p) EmptyString.

(** [without_prefix] compares component by component, as [strip_prefix] does. *)
Definition without_prefix (long_path prefix : path) : option path := strip_prefix long_path prefix.

(** [PathAncestors]: its state and [next].  [stop_at] is the value of the
    [__CARGO_TEST_ROOT] variable. *)
Record PathAncestors := mkPathAncestors {
  current : option path;
  stop_at : option path;
}.
Definition ancestors_next (it : PathAncestors) : option (path * PathAncestors) :=
  match current it with
  | None => None
  | Some p =>
      let after := parent p in
      let after := match stop_at it with
                   | Some stop => if path_eqb p stop then None else after
                   | None => after
                   end in
      Some (p, mkPathAncestors after (stop_at it))
  end.
Fixpoint collect_ancestors (fuel : nat) (it : PathAncestors) : list path :=
  match fuel with
  | O => []
  | S fuel => match ancestors_next it with
              | None => []
              | Some (p, it) => p :: collect_ancestors fuel it
              end
  end.
(** Each step shortens the path, so its length bounds the iteration. *)
Definition ancestors (stop : option path) (p : path) : list path :=
  collect_ancestors (S (S (String.length p))) (mkPathAncestors (Some p) stop).

Example normalize_1 : normalize_path "/a/./b/../../c//d" = "/c/d".
Proof. reflexivity. Qed.
Example ancestors_1 : ancestors None "/a/b" = ["/a/b"; "/a"; "/"]
  ∧ ancestors (Some "/a/") "/a/b" = ["/a/b"; "/a"].
Proof. split; reflexivity. Qed.

(** * Facts *)

Lemma join_cons_length sep x l :
  (String.length x ≤ String.length (join sep (x :: l)))%nat.
Proof. destruct l; simpl; rewrite ?length_app_str; lia. Qed.

Lemma join_app_length sep l1 l2 : l1 ≠ [] → l2 ≠ [] →
  String.length (join sep (l1 ++ l2)%list)
  = (String.length (join sep l1) + String.length sep + String.length (join sep l2))%nat.
Proof.
  intros H1 H2. induction l1 as [|x l1 IH]; [done|].
  destruct l1 as [|y l1]; simpl.
  - destruct l2; [done|]. simpl. rewrite !length_app_str. lia.
  - simpl in IH. rewrite !length_app_str, IH by done. lia.
Qed.

Lemma split_char_cons c s : ∃ x l, split_char c s = x :: l.
Proof.
  destruct s as [|a s]; simpl; [eauto|].
  destruct (Ascii.eqb c a); [eauto|]. destruct (split_char c s); eauto.
Qed.

Lemma join_split_char c s : join (String c "") (split_char c s) = s.
Proof.
  induction s as [|a s IH]; simpl; [done|].
  destruct (split_char_cons c s) as (x & l & Hs). rewrite Hs in *.
  destruct (Ascii.eqb_spec c a) as [->|]; destruct l; simpl in *; congruence.
Qed.

Lemma trim_back_suffix dot l : ∃ l', l = (l' ++ trim_back dot l)%list.
Proof.
  induction l as [|s l [l' IH]]; simpl; [by exists []|].
  destruct (skipped s && _); [|by exists []]. exists (s :: l'). simpl. by f_equal.
Qed.

(** The segment that [parent] removes is not empty. *)
Lemma trim_back_head dot l s rest : trim_back dot l = s :: rest → s ≠ "".
Proof.
  induction l as [|x l IH]; simpl; [done|].
  destruct (skipped x && _) eqn:Hx; [done|]. intros [= -> ->] ->. simpl in Hx.
  by rewrite andb_false_r in Hx.
Qed.

Lemma body_length p :
  String.length p = ((if is_absolute p then 1 else 0) + String.length (join "/" (body p)))%nat.
Proof.
  unfold body, is_absolute. rewrite join_split_char.
  destruct (starts_with "/" p) eqn:Hp; [|done].
  apply starts_with_spec in Hp as [r ->]. done.
Qed.

(** [parent] is shorter, so that walking up ends. *)
Lemma parent_shorter p q : parent p = Some q → (String.length q < String.length p)%nat.
Proof.
  unfold parent. destruct (trim_back _ (rev (body p))) as [|s rest] eqn:Ht; [done|].
  intros [= <-]. rewrite (body_length p).
  pose proof (trim_back_head _ _ _ _ Ht) as Hs.
  destruct (trim_back_suffix (leading_dot p) (rev (body p))) as [l1 H1]. rewrite Ht in H1.
  destruct (trim_back_suffix (leading_dot p) rest) as [l2 H2].
  set (keep := trim_back (leading_dot p) rest) in *.
  assert (Hb : body p = (rev keep ++ rev l2 ++ s :: rev l1)%list).
  { rewrite <-(rev_involutive (body p)), H1, H2, !rev_app_distr. simpl.
    by rewrite rev_app_distr, <-!app_assoc. }
  rewrite length_app_str, Hb.
  assert (Htail : (0 < String.length (join "/" (rev l2 ++ s :: rev l1)%list))%nat).
  { destruct (decide (rev l2 = [])) as [->|Hl2].
    - pose proof (join_cons_length "/" s (rev l1)). destruct s; [done|]. simpl in *. lia.
    - rewrite join_app_length by done. simpl. lia. }
  destruct (decide (rev keep = [])) as [Hk|Hk].
  - rewrite Hk. simpl. destruct (is_absolute p); simpl; lia.
  - rewrite join_app_length; [|done|by destruct (rev l2)]. destruct (is_absolute p); simpl; lia.
Qed.

(** Stepping up [n] times. *)
Fixpoint up (n : nat) (p : path) : option path :=
  match n with
  | O => Some p
  | S n => match parent p with Some q => up n q | None => None end
  end.

(** The iteration of [PathAncestors] ends: more fuel changes nothing. *)
Lemma collect_ancestors_fuel fuel fuel' it :
  (S (from_option (λ p, S (String.length p)) 0 (current it)) ≤ fuel)%nat → (fuel ≤ fuel')%nat →
  collect_ancestors fuel' it = collect_ancestors fuel it.
Proof.
  revert fuel' it. induction fuel as [|fuel IH]; intros fuel' it Hf Hle; [lia|].
  destruct fuel' as [|fuel']; [lia|]. simpl.
  destruct (ancestors_next it) as [[p it']|] eqn:Hn; [|done]. f_equal. apply IH; [|lia].
  unfold ancestors_next in Hn. destruct (current it) as [c|] eqn:Hc; simplify_eq/=.
  destruct (parent p) as [q|] eqn:Hq; simpl.
  - apply parent_shorter in Hq. destruct (stop_at it) as [st|]; [destruct (path_eqb p st)|]; simpl; lia.
  - destruct (stop_at it) as [st|]; [destruct (path_eqb p st)|]; simpl; lia.
Qed.

Lemma collect_ancestors_step fuel p :
  collect_ancestors (S fuel) (mkPathAncestors (Some p) None)
  = p :: collect_ancestors fuel (mkPathAncestors (parent p) None).
Proof. done. Qed.

(** Without a stop, the ancestors of [p] are [p] and what [parent] reaches. *)
Lemma ancestors_cons p : ancestors None p
  = p :: match parent p with Some q => ancestors None q | None => [] end.
Proof.
  unfold ancestors at 1. rewrite collect_ancestors_step. f_equal.
  destruct (parent p) as [q|] eqn:Hq; [|done].
  apply parent_shorter in Hq. unfold ancestors. apply collect_ancestors_fuel; simpl; lia.
Qed.

Lemma elem_of_ancestors p q : q ∈ ancestors None p ↔ ∃ n, up n p = Some q.
Proof.
  revert q. induction (well_founded_ltof _ String.length p) as [p _ IH]. intros q.
  rewrite ancestors_cons, elem_of_cons.
  destruct (parent p) as [r|] eqn:Hr.
  - rewrite (IH r (parent_shorter _ _ Hr)). split.
    + intros [->|[n Hn]]; [by exists 0|exists (S n)]. by simpl; rewrite Hr.
    + intros [[|n] Hn]; [left; by simplify_eq/=|right; exists n]. by simpl in Hn; rewrite Hr in Hn.
  - rewrite elem_of_nil. split.
    + intros [->|[]]. by exists 0.
    + intros [[|n] Hn]; [left; by simplify_eq/=|]. by simpl in Hn; rewrite Hr in Hn.
Qed.

(** ** Segments *)
Definition no_slash (s : string) : Prop := contains_char "/" s = false.
Lemma split_char_segments s : Forall no_slash (split_char "/" s).
Proof.
  induction s as [|a s IH]; cbn [split_char]; [by repeat constructor|].
  destruct (Ascii.eqb_spec "/" a) as [<-|Ha]; [by constructor; [reflexivity|]|].
  destruct (split_char "/" s) as [|x l]; [repeat constructor|].
  - unfold no_slash. cbn [contains_char]. by rewrite (proj2 (Ascii.eqb_neq _ _) Ha).
  - apply Forall_cons in IH as [Hx Hl]. constructor; [|done]. unfold no_slash in *. cbn [contains_char].
    by rewrite (proj2 (Ascii.eqb_neq _ _) Ha), Hx.
Qed.
Lemma split_char_slash a b : split_char "/" (a ++ "/" ++ b) = (split_char "/" a ++ split_char "/" b)%list.
Proof.
  induction a as [|x a IH]; [done|]. change ((String x a ++ "/" ++ b)) with (String x (a ++ "/" ++ b)).
  cbn [split_char]. rewrite IH. destruct (Ascii.eqb "/" x); [done|].
  destruct (split_char_cons "/" a) as (y & l & ->). done.
Qed.
Lemma split_char_plain s : no_slash s → split_char "/" s = [s].
Proof.
  unfold no_slash. induction s as [|a s IH]; [done|]. cbn [contains_char split_char].
  destruct (Ascii.eqb "/" a); [done|]. intros H. by rewrite (IH H).
Qed.
Lemma split_char_join l : l ≠ [] → Forall no_slash l → split_char "/" (join "/" l) = l.
Proof.
  intros Hne. induction 1 as [|x l Hx Hl IH]; [done|]. destruct l as [|y l]; [by apply split_char_plain|].
  change (join "/" (x :: y :: l)) with (x ++ "/" ++ join "/" (y :: l)).
  by rewrite split_char_slash, (split_char_plain x Hx), IH.
Qed.
Lemma body_components_app l1 l2 : body_components (l1 ++ l2) = (body_components l1 ++ body_components l2)%list.
Proof. unfold body_components. by rewrite List.filter_app, fmap_app. Qed.
Lemma body_components_skipped l : Forall (λ s, skipped s = true) l → body_components l = [].
Proof. unfold body_components. induction 1 as [|s l Hs _ IH]; [done|]. cbn. by rewrite Hs. Qed.

(** A name that is one component. *)
Definition plain (s : string) : Prop := no_slash s ∧ skipped s = false ∧ s ≠ "..".
Lemma body_components_plain s : plain s → body_components [s] = [Normal s].
Proof.
  intros (_ & Hs & Hd). unfold body_components. cbn. rewrite Hs. cbn. unfold component_of.
  by rewrite (proj2 (String.eqb_neq _ _) Hd).
Qed.
Lemma plain_relative s : no_slash s → is_absolute s = false.
Proof.
  unfold is_absolute. intros Hs. destruct (starts_with "/" s) eqn:E; [|done].
  apply starts_with_spec in E as (r & ->). done.
Qed.

(** Both ways of joining a name put it after the segments, up to an empty one. *)
Lemma absolute_slash d r : d ≠ "" → is_absolute (d ++ "/" ++ r) = is_absolute d.
Proof. intros Hd. destruct d as [|a [|b d]]; [done|..]; unfold is_absolute; cbn; by repeat case_match. Qed.
Lemma body_slash d r : d ≠ "" → body (d ++ "/" ++ r) = (body d ++ split_char "/" r)%list.
Proof.
  intros Hd. unfold body. rewrite (absolute_slash d r Hd). destruct d as [|a d]; [done|]. destruct (is_absolute (String a d)).
  - change (str_drop 1 (String a d ++ "/" ++ r)) with (d ++ "/" ++ r). by rewrite split_char_slash.
  - by rewrite split_char_slash.
Qed.
Lemma components_slash d r : d ≠ "" → components (d ++ "/" ++ r) = (components d ++ body_components (split_char "/" r))%list.
Proof.
  intros Hd.
  assert (Hdot : leading_dot (d ++ "/" ++ r) = leading_dot d).
  { unfold leading_dot. rewrite absolute_slash, body_slash by done. unfold body.
    destruct (split_char_cons "/" (if is_absolute d then str_drop 1 d else d)) as (x & l & ->). done. }
  unfold components. rewrite absolute_slash, Hdot, body_slash, body_components_app by done. by rewrite app_assoc.
Qed.
Lemma components_slash_join d s : d ≠ "" → plain s → components (d ++ "/" ++ s) = (components d ++ [Normal s])%list.
Proof. intros Hd Hs. rewrite components_slash, (split_char_plain s), body_components_plain by (done || apply Hs). done. Qed.
Lemma components_trailing d : d ≠ "" → components (d ++ "/") = components d.
Proof. intros Hd. change (d ++ "/") with (d ++ "/" ++ ""). rewrite components_slash by done. apply app_nil_r. Qed.
Lemma components_join d s : plain s → components (path_join d s) = (components d ++ [Normal s])%list.
Proof.
  intros Hs. unfold path_join. rewrite (plain_relative s) by apply Hs. destruct (is_empty d) eqn:He.
  - destruct d; [|done]. cbn [orb]. change ("" ++ s) with s. change (components "") with (@nil Component). cbn [app].
    unfold components, body, leading_dot. rewrite (plain_relative s) by apply Hs. unfold body.
    rewrite (plain_relative s), (split_char_plain s) by apply Hs. rewrite (body_components_plain s Hs). cbn [negb andb head].
    rewrite bool_decide_eq_false_2; [done|]. intros [= ->]. by destruct Hs as (_ & ? & _).
  - cbn [orb]. assert (Hd : d ≠ "") by by intros ->. destruct (ends_with_char "/" d) eqn:Hend; [|by apply components_slash_join].
    apply ends_with_char_app in Hend as (e & ->). rewrite app_assoc_str. destruct e as [|a e].
    + assert (Habs : is_absolute ("" ++ "/" ++ s) = true) by exact (starts_with_app "/" s).
      assert (Hbody : body ("" ++ "/" ++ s) = [s]).
      { unfold body. rewrite Habs. change (str_drop 1 ("" ++ "/" ++ s)) with s. apply split_char_plain, Hs. }
      unfold components. by rewrite Habs, Hbody, (body_components_plain s Hs).
    + rewrite (components_slash_join (String a e)), (components_trailing (String a e)) by done. done.
Qed.

(** What [parent] takes off is the last component. *)
Lemma trim_back_split dot l : ∃ l', l = (l' ++ trim_back dot l)%list ∧ Forall (λ s, skipped s = true) l' ∧
  match trim_back dot l with
  | [] => True
  | s :: rest => skipped s = true → dot = true ∧ s = "." ∧ rest = []
  end.
Proof.
  induction l as [|s l (l' & IH & Hsk & Hh)]; cbn [trim_back]; [by exists []|].
  destruct (skipped s && _) eqn:E.
  - exists (s :: l'). apply andb_true_iff in E as [E _]. split; [by cbn; rewrite <-IH|]. split; [by constructor|done].
  - exists []. split; [done|]. split; [constructor|]. intros Hs. rewrite Hs in E. cbn in E.
    apply negb_false_iff in E. rewrite !andb_true_iff in E. destruct E as [[-> Hd] Hr].
    apply String.eqb_eq in Hd. by apply bool_decide_eq_true in Hr.
Qed.
Lemma body_segments p : Forall no_slash (body p).
Proof. apply split_char_segments. Qed.

(** Taking a prefix off and putting it back. *)
Lemma components_join_relative d r : is_absolute d = true → is_absolute r = false →
  components (path_join d r) = (components d ++ body_components (split_char "/" r))%list.
Proof.
  intros Hd Hr. assert (Hne : d ≠ "") by by intros ->. unfold path_join. rewrite Hr.
  assert (He : is_empty d = false) by by destruct d. rewrite He. cbn [orb]. destruct (ends_with_char "/" d) eqn:Hend; [|by apply components_slash].
  apply ends_with_char_app in Hend as (e & ->). rewrite app_assoc_str. destruct e as [|a e].
  - assert (Habs : is_absolute ("" ++ "/" ++ r) = true) by exact (starts_with_app "/" r).
    assert (Hbody : body ("" ++ "/" ++ r) = split_char "/" r) by (unfold body; by rewrite Habs).
    unfold components. by rewrite Habs, Hbody.
  - rewrite components_slash, components_trailing by done. done.
Qed.
Lemma absolute_components p : is_absolute p = true ↔ head (components p) = Some RootDir.
Proof.
  unfold components. destruct (is_absolute p); [done|]. split; [done|]. destruct (leading_dot p); [done|]. cbn [app].
  unfold body_components. destruct (List.filter _ _) as [|s l]; [done|]. cbn. unfold component_of. by destruct (String.eqb s "..").
Qed.
Lemma drop_components_spec n segs : body_components (drop_components false n segs) = drop n (body_components segs).
Proof.
  revert n. induction segs as [|s segs IH]; intros [|n]; [done..|]. cbn [drop_components andb negb]. rewrite andb_true_r.
  change (s :: segs) with ([s] ++ segs)%list. rewrite body_components_app. unfold body_components at 2. cbn. destruct (skipped s); cbn; apply IH.
Qed.
Lemma trim_front_spec l : body_components (trim_front l) = body_components l ∧ (∀ x r, trim_front l = x :: r → skipped x = false) ∧ (∀ x, x ∈ trim_front l → x ∈ l).
Proof.
  induction l as [|s l (IH1 & IH2 & IH3)]; [done|]. cbn [trim_front]. destruct (skipped s) eqn:Hs.
  - split_and!; [|done|intros; right; by apply IH3]. rewrite IH1. change (s :: l) with ([s] ++ l)%list. rewrite body_components_app.
    unfold body_components at 2. cbn. by rewrite Hs.
  - split_and!; [done|by intros ?? [= <- <-]|done].
Qed.
Lemma trim_ends_spec l : let k := trim_front (rev (trim_back false (rev l))) in
  body_components k = body_components l ∧ (∀ x r, k = x :: r → skipped x = false) ∧ (∀ x, x ∈ k → x ∈ l).
Proof.
  cbv zeta. destruct (trim_front_spec (rev (trim_back false (rev l)))) as (H1 & H2 & H3).
  destruct (trim_back_split false (rev l)) as (l1 & Hl & Hsk & _). apply (f_equal (@rev _)) in Hl. rewrite rev_involutive, rev_app_distr in Hl.
  split_and!; [|done|].
  - rewrite H1. symmetry. rewrite Hl at 1. rewrite body_components_app, (body_components_skipped (rev l1)), app_nil_r; [done|].
    apply Forall_forall. intros x Hx. rewrite Forall_forall in Hsk. apply Hsk. by apply list_elem_of_In, in_rev, list_elem_of_In in Hx.
  - intros x Hx%H3. rewrite Hl. apply elem_of_app. by left.
Qed.
Lemma strip_components_spec a b r : strip_components a b = Some r → a = (b ++ r)%list.
Proof.
  revert a. induction b as [|y b IH]; intros [|x a]; cbn; try done; [by intros [= <-]..|].
  case_decide as Hx; [|done]. intros H. by rewrite Hx, (IH a).
Qed.
Lemma join_strip_prefix p base r : is_absolute base = true → strip_prefix p base = Some r →
  is_absolute r = false ∧ components (path_join base r) = components p.
Proof.
  intros Hb. unfold strip_prefix. destruct (strip_components _ _) as [rest|] eqn:Hs; [|done]. apply strip_components_spec in Hs.
  assert (Hcb : components base = RootDir :: body_components (body base)) by (unfold components; by rewrite Hb).
  assert (Hp : is_absolute p = true) by (apply absolute_components; by rewrite Hs, Hcb).
  assert (Hcp : components p = RootDir :: body_components (body p)) by (unfold components; by rewrite Hp).
  rewrite bool_decide_eq_false_2 by (by rewrite Hcb). assert (Hdot : leading_dot p = false) by (unfold leading_dot; by rewrite Hp).
  rewrite Hp, Hdot, Hcb. cbn [length]. rewrite Nat.sub_succ, Nat.sub_0_r. set (n := length (body_components (body base))).
  destruct (trim_ends_spec (drop_components false n (body p))) as (H1 & H2 & H3). set (k := trim_front _) in *. intros [= <-].
  assert (Hno : Forall no_slash k).
  { apply Forall_forall. intros x Hx%H3. assert (Hin : ∀ m l, x ∈ drop_components false m l → x ∈ l).
    { clear. intros m l. revert m. induction l as [|s l IH]; intros [|m]; cbn [drop_components]; try done. case_match; intros Hx; right; by eapply IH. }
    apply Hin in Hx. by apply (proj1 (Forall_forall _ _) (body_segments p)). }
  assert (Hrel : is_absolute (join "/" k) = false).
  { destruct k as [|x l]; [done|]. pose proof (H2 x l eq_refl) as Hx. inversion Hno as [|?? Hns _]; subst.
    destruct x as [|a x]; [done|]. unfold is_absolute. assert (Ha : Ascii.eqb "/" a = false).
    { unfold no_slash in Hns. cbn [contains_char] in Hns. by destruct (Ascii.eqb "/" a). }
    assert (Hpre : ∀ y, String.prefix "/" (String a y) = false).
    { intros y. destruct (String.prefix "/" (String a y)) eqn:E; [|done]. apply starts_with_spec in E as (r & E).
      injection E as ->. by rewrite Ascii.eqb_refl in Ha. }
    destruct l as [|y l]; cbn [join]; apply Hpre. }
  split; [done|]. rewrite components_join_relative by done. rewrite Hcb, Hcp. cbn. f_equal.
  assert (Hk : body_components (split_char "/" (join "/" k)) = body_components k).
  { destruct k; [done|]. by rewrite split_char_join. }
  rewrite Hk, H1, drop_components_spec. rewrite Hcp, Hcb in Hs. injection Hs as Hs. rewrite Hs. subst n. by rewrite drop_app_length.
Qed.

Lemma relative_head p x l : is_absolute p = false → body p = x :: l → l ≠ [] → x ≠ "".
Proof.
  unfold body. intros Habs. rewrite Habs. intros Hp Hl ->. rewrite <-(join_split_char "/" p), Hp in Habs.
  destruct l as [|y l]; [done|].
  change (starts_with "/" ("/" ++ join "/" (y :: l)) = false) in Habs. by rewrite starts_with_app in Habs.
Qed.
Lemma components_of_segments (abs : bool) K : Forall no_slash K → (abs = false → ∀ x l, K = x :: l → x ≠ "") →
  components ((if abs then "/" else "") ++ join "/" K)
  = ((if abs then [RootDir] else if bool_decide (head K = Some ".") then [CurDir] else []) ++ body_components K)%list.
Proof.
  intros Hns Hne. destruct K as [|x K]; [by destruct abs|].
  pose proof (split_char_join (x :: K) ltac:(done) Hns) as Hsplit. set (j := join "/" (x :: K)) in *.
  destruct abs.
  - assert (Ha : is_absolute ("/" ++ j) = true) by exact (starts_with_app "/" j).
    unfold components, body. rewrite Ha. change (str_drop 1 ("/" ++ j)) with j. by rewrite Hsplit.
  - cbn [String.append]. assert (Ha : is_absolute j = false).
    { destruct (is_absolute j) eqn:E; [|done]. apply starts_with_spec in E as (r & E). rewrite E in Hsplit.
      injection Hsplit as Hx _. by destruct (Hne eq_refl x K eq_refl). }
    unfold components, leading_dot, body. rewrite Ha, Hsplit. done.
Qed.

Lemma parent_components p q : parent p = Some q → ∃ c, components p = (components q ++ [c])%list.
Proof.
  unfold parent. destruct (trim_back_split (leading_dot p) (rev (body p))) as (l1 & H1 & Hsk1 & Hh).
  destruct (trim_back _ (rev (body p))) as [|s rest]; [done|]. intros [= <-].
  destruct (trim_back_split (leading_dot p) rest) as (l2 & H2 & Hsk2 & Hh2).
  set (keep := trim_back (leading_dot p) rest) in *.
  assert (Hb : body p = (rev keep ++ rev l2 ++ s :: rev l1)%list).
  { rewrite <-(rev_involutive (body p)), H1, H2, !rev_app_distr. cbn [rev]. by rewrite rev_app_distr, <-!app_assoc. }
  assert (Hns : Forall no_slash (rev keep)) by (pose proof (body_segments p) as H; rewrite Hb in H; by apply Forall_app in H as [? _]).
  assert (Hhead : is_absolute p = false → ∀ x l, rev keep = x :: l → x ≠ "").
  { intros Habs x l Hk. apply (relative_head p x (l ++ rev l2 ++ s :: rev l1)%list Habs); [by rewrite Hb, Hk|]. by destruct l, (rev l2). }
  rewrite (components_of_segments (is_absolute p) (rev keep) Hns Hhead).
  assert (Hbc : body_components (body p) = (body_components (rev keep) ++ body_components [s])%list).
  { rewrite Hb, !body_components_app. change (s :: rev l1) with ([s] ++ rev l1)%list. rewrite body_components_app.
    rewrite (body_components_skipped (rev l2)), (body_components_skipped (rev l1)) by by apply Forall_rev.
    by rewrite app_nil_r. }
  unfold components. rewrite Hbc, app_assoc.
  destruct (skipped s) eqn:Hs.
  - destruct (Hh eq_refl) as (Hdot & -> & ->). assert (l2 = []) as -> by (by destruct l2). 
    assert (keep = []) as -> by done. exists CurDir. rewrite Hdot. unfold leading_dot in Hdot.
    by destruct (is_absolute p).
  - exists (component_of s). assert (Hc : body_components [s] = [component_of s]) by (unfold body_components; cbn; by rewrite Hs).
    rewrite Hc. f_equal. f_equal. destruct (is_absolute p) eqn:Habs; [done|].
    unfold leading_dot. rewrite Habs, Hb. cbn [negb andb].
    destruct (rev keep) as [|x K] eqn:Hk; [|done]. cbn [app head].
    case_bool_decide as Hd; [|done]. exfalso.
    assert (Hld : leading_dot p = true) by (unfold leading_dot; rewrite Habs, Hb; cbn; by rewrite bool_decide_eq_true).
    destruct (rev l2) as [|y r2] eqn:Hl2.
    + cbn in Hd. injection Hd as ->. done.
    + cbn in Hd. injection Hd as ->. assert (Hl2' : l2 = (rev r2 ++ ["."])%list) by (by rewrite <-(rev_involutive l2), Hl2).
      assert (Hkeep : keep = []) by (apply (f_equal (@rev _)) in Hk; by rewrite rev_involutive in Hk).
      rewrite Hkeep, app_nil_r in H2. subst rest l2. unfold keep in Hkeep. rewrite Hld in Hkeep.
      clear -Hkeep. induction (rev r2) as [|z m IH]; [done|]. cbn [app trim_back] in Hkeep.
      destruct (skipped z && _); [by apply IH|done].
Qed.
