(* ===== verification/SourceId.v ===== *)
(** Sources of packages: [src/cargo/core/source/source_id.rs] and
    [canonicalize_url] of [src/cargo/sources/git/source.rs]. *)
From S2P Require Import Prelude Str Extern.

Local Open Scope string_scope.

Definition CRATES_IO_INDEX : string := "https://github.com/rust-lang/crates.io-index".

Inductive GitReference := Tag (s : string) | Branch (s : string) | Rev (s : string).
#[global] Instance GitReference_eq_dec : EqDecision GitReference.
Proof. solve_decision. Defined.
#[global] Instance GitReference_countable : Countable GitReference.
Proof.
  refine (inj_countable'
    (λ r, match r with Tag s => inl s | Branch s => inr (inl s) | Rev s => inr (inr s) end)
    (λ x, match x with inl s => Tag s | inr (inl s) => Branch s | inr (inr s) => Rev s end) _).
  by intros [].
Defined.

Inductive Kind := Git (r : GitReference) | Path | Registry | LocalRegistry | Directory.
#[global] Instance Kind_eq_dec : EqDecision Kind.
Proof. solve_decision. Defined.
#[global] Instance Kind_countable : Countable Kind.
Proof.
  refine (inj_countable'
    (λ k, match k with Git r => inl r | Path => inr 0 | Registry => inr 1
                     | LocalRegistry => inr 2 | Directory => inr 3 end)
    (λ x, match x with inl r => Git r | inr 0 => Path | inr 1 => Registry
                     | inr 2 => LocalRegistry | inr _ => Directory end) _).
  by intros [].
Defined.

(** Derived [Ord]: the constructors in order, then their arguments. *)
Definition git_reference_cmp (a b : GitReference) : comparison :=
  match a, b with
  | Tag s, Tag t | Branch s, Branch t | Rev s, Rev t => String.compare s t
  | Tag _, _ => Lt
  | Branch _, Tag _ => Gt
  | Branch _, Rev _ => Lt
  | Rev _, _ => Gt
  end.
Definition kind_index (k : Kind) : nat :=
  match k with Git _ => 0 | Path => 1 | Registry => 2 | LocalRegistry => 3 | Directory => 4 end.
Definition kind_cmp (a b : Kind) : comparison :=
  match a, b with
  | Git r, Git s => git_reference_cmp r s
  | _, _ => Nat.compare (kind_index a) (kind_index b)
  end.

Section source_id.
Context `{UL : UrlLib}.

(** [SourceId] and [SourceIdInner] *)
Record SourceId := mkSourceId {
  sid_url : Url;
  sid_canonical_url : Url;
  sid_kind : Kind;
  sid_precise : option string;
  sid_name : option string;
}.

(** [url.to_url()] for [&str] and for [&Path] *)
Definition str_to_url (s : string) : cresult Url :=
  map_err (λ e, "invalid url `" ++ s ++ "`: " ++ e) (url_parse s).
Definition path_to_url (p : string) : cresult Url :=
  match url_from_file_path p with
  | Some u => Ok u
  | None => Err ("invalid path url `" ++ p ++ "`")
  end.

(** [git::canonicalize_url] *)
Definition strip_trailing_slash (url : Url) : Url :=
  if ends_with_char "/" (url_path url) then url_pop_if_empty url else url.

Definition lowercase_github (url : Url) : cresult Url :=
  if bool_decide (url_host_str url = Some "github.com") then
    match url_set_scheme "https" url with
    | Some url => Ok (url_set_path (to_lowercase (url_path url)) url)
    | None => Panic "called `Result::unwrap()` on an `Err` value"
    end
  else Ok url.

Definition chop_git (url : Url) : cresult Url :=
  if ends_with ".git" (url_path url) then
    match url_path_segments url ≫= last with
    | Some seg =>
        if (String.length seg <? 4)%nat then Panic "attempt to subtract with overflow"
        else last ← slice_to (String.length seg - 4) seg;
             Ok (url_push last (url_pop url))
    | None => Panic "called `Option::unwrap()` on a `None` value"
    end
  else Ok url.

Definition canonicalize_url (url : Url) : cresult Url :=
  if url_cannot_be_a_base url then
    Err ("invalid url `" ++ url_as_str url ++ "`: cannot-be-a-base-URLs are not supported")
  else
    url ← lowercase_github (strip_trailing_slash url);
    chop_git url.

(** [SourceId::new] *)
Definition new (kind : Kind) (url : Url) : cresult SourceId :=
  canonical_url ← canonicalize_url url;
  Ok (mkSourceId url canonical_url kind None None).

Definition with_precise (s : SourceId) (v : option string) : SourceId :=
  mkSourceId (sid_url s) (sid_canonical_url s) (sid_kind s) v (sid_name s).

Definition for_path (path : string) : cresult SourceId :=
  url ← path_to_url path; new Path url.
Definition for_git (url : Url) (reference : GitReference) : cresult SourceId :=
  new (Git reference) url.
Definition for_registry (url : Url) : cresult SourceId := new Registry url.
Definition for_local_registry (path : string) : cresult SourceId :=
  url ← path_to_url path; new LocalRegistry url.
Definition for_directory (path : string) : cresult SourceId :=
  url ← path_to_url path; new Directory url.

(** [alt_registry]; [index] is [config.get_registry_index(key)]. *)
Definition alt_registry (index : string → cresult Url) (key : string) : cresult SourceId :=
  url ← index key;
  canonical_url ← canonicalize_url url;
  Ok (mkSourceId url canonical_url Registry None (Some key)).

(** [SourceId::from_url]; the loop over the query pairs keeps the last
    reference it sees. *)
Definition read_reference (pairs : list (string * string)) : GitReference :=
  foldl (λ reference kv,
           let '(k, v) := kv in
           if String.eqb k "branch" || String.eqb k "ref" then Branch v
           else if String.eqb k "rev" then Rev v
           else if String.eqb k "tag" then Tag v
           else reference) (Branch "master") pairs.

Definition from_url (s : string) : cresult SourceId :=
  match split_once "+" s with
  | (_, None) => Err ("invalid source `" ++ s ++ "`")
  | (kind, Some url) =>
      if String.eqb kind "git" then
        url ← str_to_url url;
        let reference := read_reference (url_query_pairs url) in
        let precise := url_fragment url in
        let url := url_set_query None (url_set_fragment None url) in
        id ← for_git url reference;
        Ok (with_precise id precise)
      else if String.eqb kind "registry" then
        url ← str_to_url url;
        id ← new Registry url;
        Ok (with_precise id (Some "locked"))
      else if String.eqb kind "path" then
        url ← str_to_url url; new Path url
      else Err ("unsupported source protocol: " ++ kind)
  end.

(** [GitReference::pretty_ref] and the [Display] of [PrettyRef] *)
Definition pretty_ref (r : GitReference) : option string :=
  match r with
  | Branch s => if String.eqb s "master" then None else Some ("branch=" ++ s)
  | Tag s => Some ("tag=" ++ s)
  | Rev s => Some ("rev=" ++ s)
  end.

(** [Display] of [SourceIdToUrl] *)
Definition to_url (s : SourceId) : string :=
  match sid_kind s with
  | Path => "path+" ++ url_as_str (sid_url s)
  | Git reference =>
      "git+" ++ url_as_str (sid_url s) ++
      match pretty_ref reference with Some p => "?" ++ p | None => EmptyString end ++
      match sid_precise s with Some p => "#" ++ p | None => EmptyString end
  | Registry => "registry+" ++ url_as_str (sid_url s)
  | LocalRegistry => "local-registry+" ++ url_as_str (sid_url s)
  | Directory => "directory+" ++ url_as_str (sid_url s)
  end.

Definition url_display (url : Url) : string :=
  if String.eqb (url_scheme url) "file" then
    match url_to_file_path url with
    | Some path => path
    | None => url_as_str url
    end
  else url_as_str url.

(** [Display] of [SourceId]; slicing [precise] may panic. *)
Definition display (s : SourceId) : cresult string :=
  match sid_kind s with
  | Path => Ok (url_display (sid_url s))
  | Git reference =>
      let u := url_as_str (sid_url s) ++
               match pretty_ref reference with Some p => "?" ++ p | None => EmptyString end in
      match sid_precise s with
      | Some p => p ← slice_to (Nat.min (String.length p) 8) p; Ok (u ++ "#" ++ p)
      | None => Ok u
      end
  | Registry | LocalRegistry => Ok ("registry `" ++ url_display (sid_url s) ++ "`")
  | Directory => Ok ("dir " ++ url_display (sid_url s))
  end.

Definition is_path (s : SourceId) : bool :=
  match sid_kind s with Path => true | _ => false end.
Definition is_registry (s : SourceId) : bool :=
  match sid_kind s with Registry | LocalRegistry => true | _ => false end.
Definition is_alt_registry (s : SourceId) : bool :=
  is_registry s && bool_decide (is_Some (sid_name s)).
Definition is_git (s : SourceId) : bool :=
  match sid_kind s with Git _ => true | _ => false end.
Definition git_reference (s : SourceId) : option GitReference :=
  match sid_kind s with Git r => Some r | _ => None end.
Definition is_default_registry (s : SourceId) : bool :=
  match sid_kind s with
  | Registry => String.eqb (url_as_str (sid_url s)) CRATES_IO_INDEX
  | _ => false
  end.
Definition display_registry (s : SourceId) : string :=
  if is_default_registry s then "crates.io index"
  else "`" ++ url_display (sid_url s) ++ "` index".

(** [PartialEq], [Ord] and [Hash]; a hasher is the list of what it was fed. *)
Definition source_id_eq (a b : SourceId) : bool :=
  if negb (bool_decide (sid_kind a = sid_kind b)) then false
  else if bool_decide (sid_url a = sid_url b) then true
  else match sid_kind a, sid_kind b with
       | Git ref1, Git ref2 =>
           bool_decide (ref1 = ref2) && bool_decide (sid_canonical_url a = sid_canonical_url b)
       | _, _ => false
       end.

Definition source_id_cmp (a b : SourceId) : comparison :=
  match kind_cmp (sid_kind a) (sid_kind b) with
  | Eq =>
      match url_cmp (sid_url a) (sid_url b) with
      | Eq =>
          match sid_kind a, sid_kind b with
          | Git ref1, Git ref2 =>
              match git_reference_cmp ref1 ref2 with
              | Eq => url_cmp (sid_canonical_url a) (sid_canonical_url b)
              | o => o
              end
          | _, _ => kind_cmp (sid_kind a) (sid_kind b)
          end
      | o => o
      end
  | o => o
  end.

Definition source_id_hash (s : SourceId) : Kind * string :=
  (sid_kind s, match sid_kind s with
               | Git _ => url_as_str (sid_canonical_url s)
               | _ => url_as_str (sid_url s)
               end).

(** What [==] compares: the key under which hash maps file a source. *)
#[global] Instance SourceId_key : HashKey SourceId := {|
  hkey := Kind * Url;
  to_key s := (sid_kind s, match sid_kind s with
                           | Git _ => sid_canonical_url s
                           | _ => sid_url s
                           end);
|}.

(** Every constructor of the module establishes it. *)
Definition sid_wf (s : SourceId) : Prop :=
  canonicalize_url (sid_url s) = Ok (sid_canonical_url s).

(** * Equality and hashing *)
Lemma new_wf k u s : new k u = Ok s → sid_wf s.
Proof. intros (c & Hc & ?)%bind_Ok_inv. by simplify_eq/=. Qed.

Lemma with_precise_wf s v : sid_wf s → sid_wf (with_precise s v).
Proof. done. Qed.

Lemma from_url_wf x s : from_url x = Ok s → sid_wf s.
Proof.
  unfold from_url. destruct (split_once "+" x) as [k [u|]]; [|done].
  repeat case_match; intros Hs; try discriminate.
  all: apply bind_Ok_inv in Hs as (u2 & _ & Hs); try by apply new_wf in Hs.
  all: apply bind_Ok_inv in Hs as (s2 & H2%new_wf & ?); by simplify_eq/=.
Qed.

Lemma source_id_eq_key a b :
  sid_wf a → sid_wf b → source_id_eq a b = (a ==? b).
Proof.
  unfold sid_wf, source_id_eq, heqb, to_key. intros Ha Hb. simpl.
  destruct (decide (sid_kind a = sid_kind b)) as [Hk|Hk].
  2: { rewrite (bool_decide_eq_false_2 _ Hk). simpl. symmetry.
       apply bool_decide_eq_false_2. congruence. }
  rewrite (bool_decide_eq_true_2 _ Hk). simpl. rewrite <-Hk.
  destruct (decide (sid_url a = sid_url b)) as [Hu|Hu].
  - rewrite (bool_decide_eq_true_2 _ Hu). symmetry. apply bool_decide_eq_true_2.
    f_equal. rewrite Hu in Ha. destruct (sid_kind a); congruence.
  - rewrite (bool_decide_eq_false_2 _ Hu). destruct (sid_kind a).
    + rewrite bool_decide_eq_true_2 by done. simpl.
      apply bool_decide_ext. split; [by intros ->|congruence].
    + symmetry; apply bool_decide_eq_false_2; congruence.
    + symmetry; apply bool_decide_eq_false_2; congruence.
    + symmetry; apply bool_decide_eq_false_2; congruence.
    + symmetry; apply bool_decide_eq_false_2; congruence.
Qed.

(** On sources that the constructors of the module build, [==] is an
    equivalence relation, it is the relation hash maps file sources by, and
    equal sources feed a hasher the same data. *)
Theorem source_id_eq_spec a b c (Ha : sid_wf a) (Hb : sid_wf b) (Hc : sid_wf c) :
  source_id_eq a a = true ∧
  source_id_eq a b = source_id_eq b a ∧
  (source_id_eq a b = true → source_id_eq b c = true → source_id_eq a c = true) ∧
  (source_id_eq a b = true ↔ to_key a = to_key b) ∧
  (source_id_eq a b = true → source_id_hash a = source_id_hash b).
Proof.
  rewrite !source_id_eq_key by done. split_and!.
  - apply heqb_refl.
  - apply bool_decide_ext. split; congruence.
  - rewrite !heqb_true. congruence.
  - apply heqb_true.
  - rewrite heqb_true. unfold source_id_hash, to_key. simpl. intros [= -> H].
    by destruct (sid_kind b); rewrite H.
Qed.

(** * Round trip through the URL form *)

(** What the [url] crate promises of the URL a git source prints: appending a
    query with one pair and a fragment to [u] parses to [u] with these. *)
Definition reads_back (u : Url) (reference : GitReference) (precise : option string) : Prop :=
  ∃ u', url_parse (url_as_str u ++
          match pretty_ref reference with Some p => "?" ++ p | None => EmptyString end ++
          match precise with Some p => "#" ++ p | None => EmptyString end) = Ok u' ∧
    url_query_pairs u' = match reference with
                         | Branch s => if String.eqb s "master" then [] else [("branch", s)]
                         | Tag s => [("tag", s)]
                         | Rev s => [("rev", s)]
                         end ∧
    url_fragment u' = precise ∧ url_set_query None (url_set_fragment None u') = u.

Lemma new_roundtrip s k :
  sid_wf s → new k (sid_url s) = Ok (mkSourceId (sid_url s) (sid_canonical_url s) k None None).
Proof. unfold sid_wf, new. by intros ->. Qed.

Lemma str_to_url_print s u : url_parse s = Ok u → str_to_url s = Ok u.
Proof. unfold str_to_url. by intros ->. Qed.

(** Reading back the URL that [to_url] writes restores the source: git
    sources with their reference and revision, path sources, and registries,
    which come back locked.  Local registries and directories have no
    readable form. *)
Theorem from_url_to_url s (Hwf : sid_wf s)
    (Hparse : url_parse (url_as_str (sid_url s)) = Ok (sid_url s))
    (Hgit : match sid_kind s with
            | Git r => reads_back (sid_url s) r (sid_precise s) | _ => True end) :
  from_url (to_url s) =
    match sid_kind s with
    | Git r => Ok (mkSourceId (sid_url s) (sid_canonical_url s) (Git r) (sid_precise s) None)
    | Path => Ok (mkSourceId (sid_url s) (sid_canonical_url s) Path None None)
    | Registry => Ok (mkSourceId (sid_url s) (sid_canonical_url s) Registry (Some "locked") None)
    | LocalRegistry => Err "unsupported source protocol: local-registry"
    | Directory => Err "unsupported source protocol: directory"
    end.
Proof.
  unfold from_url, to_url. destruct (sid_kind s) as [r| | | |] eqn:Hk.
  - destruct Hgit as (u' & Hp & Hq & Hf & Hu). apply str_to_url_print in Hp.
    match type of Hp with str_to_url ?x = _ => set (text := x) in * end.
    change ("git+" ++ text) with ("git" ++ String "+" text).
    rewrite split_once_app by done. simpl. rewrite Hp. simpl. rewrite Hf, Hu.
    unfold for_git. rewrite new_roundtrip by done. simpl. unfold with_precise; simpl.
    do 3 f_equal. rewrite Hq. destruct r as [t|b|t]; simpl; try done.
    by destruct (String.eqb_spec b "master") as [->|]; simpl.
  - simpl. rewrite (str_to_url_print _ _ Hparse). simpl. by rewrite new_roundtrip.
  - simpl. rewrite (str_to_url_print _ _ Hparse). simpl. by rewrite new_roundtrip.
  - done.
  - done.
Qed.


(** * The order is total *)
Definition kind_key (k : Kind) : nat * (nat * string) :=
  (kind_index k, match k with
                 | Git (Tag s) => (0%nat, s) | Git (Branch s) => (1%nat, s) | Git (Rev s) => (2%nat, s)
                 | _ => (0%nat, "")
                 end).
Definition kind_key_cmp (a b : nat * (nat * string)) : comparison :=
  cmp_then (Nat.compare a.1 b.1) (cmp_then (Nat.compare a.2.1 b.2.1) (String.compare a.2.2 b.2.2)).
Lemma kind_cmp_key a b : kind_cmp a b = kind_key_cmp (kind_key a) (kind_key b).
Proof. by destruct a as [[]| | | |], b as [[]| | | |]. Qed.
Lemma kind_cmp_total : cmp_total kind_cmp.
Proof.
  eapply cmp_total_ext; [intros x y; symmetry; apply kind_cmp_key|]. apply (cmp_total_on kind_key kind_key_cmp).
  apply cmp_total_then; [exact (cmp_total_on _ _ nat_cmp_total)|].
  apply cmp_total_then; [exact (cmp_total_on (λ a : nat * (nat * string), a.2.1) _ nat_cmp_total)|].
  exact (cmp_total_on (λ a : nat * (nat * string), a.2.2) _ string_cmp_total).
Qed.
Lemma kind_cmp_eq a b : kind_cmp a b = Eq → a = b.
Proof.
  destruct a as [[]| | | |], b as [[]| | | |]; cbn; try done; intros H; by apply String.compare_eq_iff in H as ->.
Qed.
Lemma kind_cmp_refl a : kind_cmp a a = Eq.
Proof. apply (cmp_eq_refl _ kind_cmp_total). Qed.

Definition git_canonical (s : SourceId) : option Url := if is_git s then Some (sid_canonical_url s) else None.
Lemma source_id_cmp_lex a b :
  source_id_cmp a b = cmp_then (kind_cmp (sid_kind a) (sid_kind b))
                        (cmp_then (url_cmp (sid_url a) (sid_url b)) (option_cmp url_cmp (git_canonical a) (git_canonical b))).
Proof.
  unfold source_id_cmp, git_canonical, is_git. destruct (kind_cmp (sid_kind a) (sid_kind b)) eqn:Hk; [|done..].
  apply kind_cmp_eq in Hk as Heq. rewrite Heq. cbn [cmp_then]. destruct (url_cmp _ _); [|done..]. cbn [cmp_then].
  destruct (sid_kind b) as [r| | | |] eqn:Hb; try done.
  assert (Hr : git_reference_cmp r r = Eq) by (apply (kind_cmp_refl (Git r))). by rewrite Hr.
Qed.
Lemma source_id_cmp_total `{!UrlLaws} : cmp_total source_id_cmp.
Proof.
  eapply cmp_total_ext; [intros x y; symmetry; apply source_id_cmp_lex|].
  apply cmp_total_then; [exact (cmp_total_on sid_kind _ kind_cmp_total)|].
  apply cmp_total_then; [exact (cmp_total_on sid_url _ url_cmp_total)|].
  exact (cmp_total_on git_canonical _ (option_cmp_total _ url_cmp_total)).
Qed.
(** Equal by the order is equal by [==]; not the other way round. *)
Lemma source_id_cmp_key `{!UrlLaws} a b : source_id_cmp a b = Eq → to_key a = to_key b.
Proof.
  rewrite source_id_cmp_lex. destruct (kind_cmp _ _) eqn:Hk; [|done..]. apply kind_cmp_eq in Hk. cbn [cmp_then].
  destruct (url_cmp _ _) eqn:Hu; [|done..]. apply url_cmp_eq in Hu. cbn [cmp_then]. unfold git_canonical, is_git, to_key. cbn.
  rewrite Hk, Hu. destruct (sid_kind b); try done. cbn. intros Hc%url_cmp_eq. by rewrite Hc.
Qed.
End source_id.
Arguments SourceId {UL}.

(** * Concrete runs *)
Definition github_git : Url (UrlLib:=hier_lib) := ("git", "github.com", ["Foo"; "bar.git"], None, None).
Definition github_https : Url (UrlLib:=hier_lib) := ("https", "github.com", ["foo"; "bar"], None, None).
Definition tagged (u : Url (UrlLib:=hier_lib)) : SourceId (UL:=hier_lib) :=
  mkSourceId u github_https (Git (Tag "v1")) (Some "80e71a30") None.

Lemma tagged_wf u : u = github_git ∨ u = github_https → sid_wf (UL:=hier_lib) (tagged u).
Proof. by intros [-> | ->]; vm_compute. Qed.

Lemma source_id_eq_spec_witness :
  source_id_eq (UL:=hier_lib) (tagged github_git) (tagged github_https) = true ∧
  source_id_hash (UL:=hier_lib) (tagged github_git) = source_id_hash (UL:=hier_lib) (tagged github_https).
Proof.
  assert (Hg := tagged_wf github_git (or_introl eq_refl)).
  assert (Hh := tagged_wf github_https (or_intror eq_refl)).
  destruct (source_id_eq_spec (UL:=hier_lib) _ _ _ Hg Hh Hh) as (_ & _ & _ & Hk & Hhash).
  split; [by apply Hk|]. apply Hhash. by apply Hk.
Defined.

Lemma from_url_to_url_witness :
  from_url (UL:=hier_lib) (to_url (UL:=hier_lib) (tagged github_git)) = Ok (tagged github_git).
Proof.
  apply (from_url_to_url (UL:=hier_lib) (tagged github_git)).
  - by apply tagged_wf; left.
  - by vm_compute.
  - exists ("git", "github.com", ["Foo"; "bar.git"], Some "tag=v1", Some "80e71a30").
    by vm_compute.
Defined.

(** Two git sources that [==] identifies may be ordered strictly by [cmp]:
    the order looks at the URL before it looks at the canonical URL. *)
Theorem source_id_cmp_not_eq :
  sid_wf (UL:=hier_lib) (tagged github_git) ∧ sid_wf (UL:=hier_lib) (tagged github_https) ∧
  source_id_eq (UL:=hier_lib) (tagged github_git) (tagged github_https) = true ∧
  source_id_cmp (UL:=hier_lib) (tagged github_git) (tagged github_https) = Lt.
Proof. by vm_compute. Qed.
