(* ===== verification/PackageId.v ===== *)
(** Package identifiers and the specifications users write for them:
    [src/cargo/core/package_id.rs] and [src/cargo/core/package_id_spec.rs]. *)
From S2P Require Import Prelude Str Extern SourceId.

Local Open Scope string_scope.

Section package_id.
Context `{SV : SemverLib} `{UL : UrlLib}.

(** * [PackageId] *)
Record PackageId := mkPackageId {
  pid_name : string;
  pid_version : Version;
  pid_source_id : SourceId;
}.

(** What the derived [PartialEq] compares, with the coarser equalities of
    versions and sources. *)
#[global] Instance PackageId_key : HashKey PackageId := {|
  hkey := string * hkey Version * hkey SourceId;
  to_key p := (pid_name p, to_key (pid_version p), to_key (pid_source_id p));
|}.

Definition package_id_cmp (a b : PackageId) : comparison :=
  match String.compare (pid_name a) (pid_name b) with
  | Eq => match version_cmp (pid_version a) (pid_version b) with
          | Eq => source_id_cmp (pid_source_id a) (pid_source_id b)
          | o => o
          end
  | o => o
  end.

(** [ToSemver for &str] *)
Definition to_semver (s : string) : cresult Version :=
  map_err (λ _, "cannot parse '" ++ s ++ "' as a semver") (version_parse s).

(** [PackageId::new] *)
Definition new (name version : string) (sid : SourceId) : cresult PackageId :=
  v ← to_semver version; Ok (mkPackageId name v sid).

Definition with_precise (p : PackageId) (precise : option string) : PackageId :=
  mkPackageId (pid_name p) (pid_version p) (SourceId.with_precise (pid_source_id p) precise).
Definition with_source_id (p : PackageId) (source : SourceId) : PackageId :=
  mkPackageId (pid_name p) (pid_version p) source.

(** [Display] *)
Definition display (p : PackageId) : cresult string :=
  let s := pid_name p ++ " v" ++ version_to_string (pid_version p) in
  if is_default_registry (pid_source_id p) then Ok s
  else src ← SourceId.display (pid_source_id p); Ok (s ++ " (" ++ src ++ ")").

(** [Serialize] and [Deserialize] *)
Definition serialize (p : PackageId) : string :=
  pid_name p ++ " " ++ version_to_string (pid_version p) ++
  " (" ++ to_url (pid_source_id p) ++ ")".

Definition deserialize (s : string) : cresult PackageId :=
  let '(name, rest) := split_once " " s in
  match rest with
  | None => Err "invalid serialized PackageId"
  | Some rest =>
      let '(version, url) := split_once " " rest in
      version ← version_parse version;
      match url with
      | None => Err "invalid serialized PackageId"
      | Some url =>
          if starts_with "(" url && ends_with_char ")" url then
            source_id ← from_url (str_take (String.length url - 2) (str_drop 1 url));
            Ok (mkPackageId name version source_id)
          else Err "invalid serialized PackageId"
      end
  end.

(** * [PackageIdSpec] *)
Record PackageIdSpec := mkSpec {
  spec_name : string;
  spec_version : option Version;
  spec_url : option Url;
}.

Context `{UC : UnicodeStd}.

(** [PackageIdSpec::from_url] *)
Definition spec_from_url (url : Url) : cresult PackageIdSpec :=
  match url_query url with
  | Some _ => Err ("cannot have a query string in a pkgid: " ++ url_as_str url)
  | None =>
      let frag := url_fragment url in
      let url := url_set_fragment None url in
      match url_path_segments url with
      | None => Err ("pkgid urls must have a path: " ++ url_as_str url)
      | Some path =>
          match last path with
          | None => Err ("pkgid urls must have at least one path component: " ++ url_as_str url)
          | Some path_name =>
              nv ← match frag return cresult (string * option Version) with
                   | Some fragment =>
                       let '(name_or_version, part) := split_once ":" fragment in
                       match part with
                       | Some part => version ← to_semver part; Ok (name_or_version, Some version)
                       | None =>
                           c ← unwrap (head (chars name_or_version));
                           if char_is_alphabetic c then Ok (name_or_version, None)
                           else version ← to_semver name_or_version; Ok (path_name, Some version)
                       end
                   | None => Ok (path_name, None)
                   end;
              Ok (mkSpec nv.1 nv.2 (Some url))
          end
      end
  end.

Definition valid_name_char (c : string) : bool :=
  char_is_alphanumeric c || String.eqb c "_" || String.eqb c "-".

Definition parse_name_version (spec : string) : cresult PackageIdSpec :=
  let '(name, version) := split_once ":" spec in
  version ← match version return cresult (option Version) with
            | Some version => v ← version_parse version; Ok (Some v)
            | None => Ok None
            end;
  match List.find (λ c, negb (valid_name_char c)) (chars name) with
  | Some c => Err ("invalid character in pkgid `" ++ spec ++ "`: `" ++ c ++ "`")
  | None => Ok (mkSpec name version None)
  end.

(** [PackageIdSpec::parse] *)
Definition parse (spec : string) : cresult PackageIdSpec :=
  if contains_char "/" spec then
    match str_to_url spec with
    | Ok url => spec_from_url url
    | Panic m => Panic m
    | Err _ =>
        if negb (contains_str "://" spec) then
          match url_parse ("cargo://" ++ spec) with
          | Ok url => spec_from_url url
          | Panic m => Panic m
          | Err _ => parse_name_version spec
          end
        else parse_name_version spec
    end
  else parse_name_version spec.

Definition from_package_id (p : PackageId) : PackageIdSpec :=
  mkSpec (pid_name p) (Some (pid_version p)) (Some (sid_url (pid_source_id p))).

Definition set_url (s : PackageIdSpec) (url : Url) : PackageIdSpec :=
  mkSpec (spec_name s) (spec_version s) (Some url).

(** [PackageIdSpec::matches] *)
Definition matches (s : PackageIdSpec) (p : PackageId) : bool :=
  if negb (String.eqb (spec_name s) (pid_name p)) then false
  else if match spec_version s with Some v => negb (v ==? pid_version p) | None => false end
  then false
  else match spec_url s with
       | Some u => bool_decide (u = sid_url (pid_source_id p))
       | None => true
       end.

(** [Display] *)
Definition spec_display (s : PackageIdSpec) : cresult string :=
  out ← match spec_url s return cresult (string * bool) with
        | Some url =>
            base ← (if String.eqb (url_scheme url) "cargo"
                    then host ← unwrap (url_host_str url); Ok (host ++ url_path url)
                    else Ok (url_as_str url));
            segs ← unwrap (url_path_segments url);
            seg ← unwrap (last segs);
            if negb (String.eqb seg (spec_name s))
            then Ok (base ++ "#" ++ spec_name s, true) else Ok (base, false)
        | None => Ok (spec_name s, true)
        end;
  let '(text, printed_name) := (out : string * bool) in
  match spec_version s with
  | Some v => Ok (text ++ (if printed_name then ":" else "#") ++ version_to_string v)
  | None => Ok text
  end.

(** [minimize]: one line per candidate, the version alone when it is enough. *)
Definition version_cnt (ids : list PackageId) : hashmap Version nat :=
  foldl (λ (m : hashmap Version nat) id, hupdate S (pid_version id) (hor_insert (pid_version id) 0%nat m)) ∅ ids.
Definition newline : string := String (ch 10) EmptyString.
Definition minimize (msg : string) (ids : list PackageId) (spec : PackageIdSpec) : cresult string :=
  let cnt := version_cnt ids in
  foldM (λ msg id,
    n ← unwrap (hget cnt (pid_version id));
    if (n =? 1)%nat then
      Ok (msg ++ newline ++ "  " ++ spec_name spec ++ ":" ++ version_to_string (pid_version id))
    else s ← spec_display (from_package_id id); Ok (msg ++ newline ++ "  " ++ s)) msg ids.

(** [PackageIdSpec::query] *)
Definition query (spec : PackageIdSpec) (i : list PackageId) : cresult PackageId :=
  match filter (λ p, matches spec p = true) i with
  | [] => s ← spec_display spec;
          Err ("package id specification `" ++ s ++ "` matched no packages")
  | [ret] => Ok ret
  | vec =>
      s ← spec_display spec;
      msg ← minimize ("There are multiple `" ++ spec_name spec ++ "` packages in your project, " ++
                      "and the specification `" ++ s ++ "` is ambiguous." ++ newline ++
                      "Please re-run this command with `-p <spec>` where `<spec>` is one " ++
                      "of the following:") vec spec;
      Err msg
  end.

Definition query_str (spec : string) (i : list PackageId) : cresult PackageId :=
  s ← chain_err ("invalid package id specification: `" ++ spec ++ "`") (parse spec);
  query s i.
Lemma package_id_key_eq (a b : PackageId) :
  to_key a = to_key b ↔
  pid_name a = pid_name b ∧ to_key (pid_version a) = to_key (pid_version b) ∧
  to_key (pid_source_id a) = to_key (pid_source_id b).
Proof.
  split.
  - intros H. split_and!; [exact (f_equal (λ x, x.1.1) H)|exact (f_equal (λ x, x.1.2) H)
                          |exact (f_equal snd H)].
  - intros (Hn & Hv & Hs). exact (f_equal3 (λ n v s, (n, v, s)) Hn Hv Hs).
Qed.

(** * Queries *)

(** [Display] prints the host of a [cargo:] URL and the last path segment of
    any: both exist for the URLs the parser accepts. *)
Definition printable (u : Url) : Prop :=
  (url_scheme u = "cargo" → is_Some (url_host_str u)) ∧
  is_Some (url_path_segments u ≫= last).

Lemma spec_display_ok s :
  (∀ u, spec_url s = Some u → printable u) → ∃ t, spec_display s = Ok t.
Proof.
  intros Hp. unfold spec_display. destruct (spec_url s) as [u|].
  - destruct (Hp u eq_refl) as [Hh [seg Hseg]].
    assert (Hb : ∃ b, (if String.eqb (url_scheme u) "cargo"
                    then host ← unwrap (url_host_str u); Ok (host ++ url_path u)
                    else Ok (url_as_str u)) = Ok (E:=string) b).
    { destruct (String.eqb_spec (url_scheme u) "cargo") as [Hc|Hc]; [|eauto].
      destruct (Hh Hc) as [h ->]. simpl. eauto. }
    destruct Hb as [b ->]. simpl. destruct (url_path_segments u) as [segs|]; [|done].
    simpl in *. rewrite Hseg. simpl.
    destruct (negb _); simpl; destruct (spec_version s); eauto.
  - simpl. destruct (spec_version s); eauto.
Qed.

Lemma version_cnt_Some ids id :
  id ∈ ids → is_Some (hget (version_cnt ids) (pid_version id)).
Proof.
  unfold version_cnt.
  assert (Hkeep : ∀ l (m : hashmap Version nat) v, is_Some (hget m v) →
    is_Some (hget (foldl (λ (m : hashmap Version nat) id,
      hupdate S (pid_version id) (hor_insert (pid_version id) 0%nat m)) m l) v)).
  { induction l as [|x l IH]; intros m v Hm; simpl; [done|]. apply IH.
    autorewrite with cargo. repeat case_decide; rewrite ?fmap_is_Some; eauto. }
  generalize (∅ : hashmap Version nat). induction ids as [|x ids IH]; intros m Hin; simpl.
  - by apply elem_of_nil in Hin.
  - apply elem_of_cons in Hin as [->|Hin]; [|by apply IH]. apply Hkeep.
    autorewrite with cargo. rewrite !decide_True by done. simpl. eauto.
Qed.

Lemma minimize_ok msg ids spec :
  (∀ p, p ∈ ids → printable (sid_url (pid_source_id p))) → ∃ t, minimize msg ids spec = Ok t.
Proof.
  intros Hp. unfold minimize. pose proof (version_cnt_Some ids) as Hcnt.
  revert Hcnt. generalize (version_cnt ids). intros cnt Hcnt. revert msg.
  induction ids as [|x ids IH]; intros msg; simpl; [eauto|].
  destruct (Hcnt x ltac:(constructor)) as [k ->]. simpl.
  assert (Hrest : ∀ msg, ∃ t, foldM (λ msg id,
    n ← unwrap (hget cnt (pid_version id));
    if (n =? 1)%nat then
      Ok (msg ++ newline ++ "  " ++ spec_name spec ++ ":" ++ version_to_string (pid_version id))
    else s ← spec_display (from_package_id id); Ok (msg ++ newline ++ "  " ++ s)) msg ids = Ok t).
  { apply IH; intros; [apply Hp|apply Hcnt]; by constructor. }
  destruct (k =? 1)%nat; [apply Hrest|].
  destruct (spec_display_ok (from_package_id x)) as [t ->]; simpl; [|apply Hrest].
  intros u [= <-]. apply Hp. constructor.
Qed.

(** A query returns a package exactly when it is the only candidate that
    matches; no candidate or several are an error, and on printable URLs the
    error message is produced without a panic. *)
Theorem query_spec spec ids :
  (∀ id, query spec ids = Ok id ↔ filter (λ p, matches spec p = true) ids = [id]) ∧
  ((∀ u, spec_url spec = Some u → printable u) →
   (∀ p, p ∈ ids → printable (sid_url (pid_source_id p))) →
   is_panic (query spec ids) = false).
Proof.
  unfold query.
  assert (Hsub : ∀ p, p ∈ filter (λ p, matches spec p = true) ids → p ∈ ids)
    by (intros p [_ ?]%list_elem_of_filter; done).
  destruct (filter _ ids) as [|a [|b l]] eqn:Hf.
  - split.
    + intros id. split; [|done]. destruct (spec_display spec); done.
    + intros Hs _. by destruct (spec_display_ok spec Hs) as [t ->].
  - split; [|done]. intros id. split; intros [= ->]; done.
  - split.
    + intros id. split; [|done]. destruct (spec_display spec); simpl; [|done..].
      by destruct (minimize _ _ _).
    + intros Hs Hp. destruct (spec_display_ok spec Hs) as [t ->]. simpl.
      match goal with |- context [minimize ?m _ _] =>
        destruct (minimize_ok m (a :: b :: l) spec) as [t' ->]; [|done] end.
      intros p Hin. by apply Hp, Hsub.
Qed.

(** * Round trips *)

(** [deserialize] inverts [serialize]: name and version come back as they
    were and the source as [from_url] reads it. *)
Theorem deserialize_serialize p (Hname : contains_char " " (pid_name p) = false)
    (Hver : contains_char " " (version_to_string (pid_version p)) = false)
    (Hparse : version_parse (version_to_string (pid_version p)) = Ok (pid_version p)) :
  deserialize (serialize p) =
    (source_id ← from_url (to_url (pid_source_id p));
     Ok (mkPackageId (pid_name p) (pid_version p) source_id)).
Proof.
  unfold deserialize, serialize. set (src := to_url (pid_source_id p)).
  change (pid_name p ++ " " ++ ?x) with (pid_name p ++ String " " x).
  rewrite split_once_app by done.
  change (?v ++ " (" ++ ?x) with (v ++ String " " ("(" ++ x)).
  rewrite split_once_app by done. rewrite Hparse. simpl.
  assert (Hlen : String.length (src ++ ")") - 1 = String.length src)
    by (rewrite length_app_str; simpl; lia).
  pose proof (ends_with_char_snoc ")" ("(" ++ src)) as Hne.
  assert (Hst : starts_with EmptyString (src ++ ")") = true) by (by destruct (src ++ ")")).
  simpl in Hne. simpl. rewrite Hne, Hst. simpl. by rewrite Hlen, str_take_app.
Qed.

(** The fragment [spec_display] writes behind a URL with last segment [seg]. *)
Definition spec_fragment (s : PackageIdSpec) (seg : string) : option string :=
  match String.eqb seg (spec_name s), spec_version s with
  | true, None => None
  | true, Some v => Some (version_to_string v)
  | false, None => Some (spec_name s)
  | false, Some v => Some (spec_name s ++ ":" ++ version_to_string v)
  end.

(** What is needed of the [url] crate: the printed text, fragment included,
    parses (for a [cargo:] URL once the scheme is put back). *)
Definition url_text_reads_back (u : Url) (text : string) (f : option string) : Prop :=
  ∃ u', contains_char "/" text = true ∧
    (url_parse text = Ok u' ∨
     is_ok (url_parse text) = false ∧ is_panic (url_parse text) = false ∧
     contains_str "://" text = false ∧ url_parse ("cargo://" ++ text) = Ok u') ∧
    url_query u' = None ∧ url_fragment u' = f ∧ url_set_fragment None u' = u.

(** The names and versions the two crates accept, as printed. *)
Definition spec_wf (s : PackageIdSpec) : Prop :=
  contains_char "/" (spec_name s) = false ∧ contains_char ":" (spec_name s) = false ∧
  (∀ c, c ∈ chars (spec_name s) → valid_name_char c = true) ∧
  (∃ c, head (chars (spec_name s)) = Some c ∧ char_is_alphabetic c = true) ∧
  (∀ v, spec_version s = Some v →
     version_parse (version_to_string v) = Ok v ∧
     contains_char "/" (version_to_string v) = false ∧
     contains_char ":" (version_to_string v) = false ∧
     ∃ c, head (chars (version_to_string v)) = Some c ∧ char_is_alphabetic c = false).

Lemma contains_char_app c a b : contains_char c (a ++ b) = contains_char c a || contains_char c b.
Proof. induction a as [|d a IH]; simpl; [done|]. rewrite IH. by rewrite orb_assoc. Qed.

Lemma parse_name_version_ok s :
  spec_wf s → spec_url s = None →
  parse_name_version (spec_name s ++ match spec_version s with
    | Some v => String ":" (version_to_string v) | None => EmptyString end) = Ok s.
Proof.
  intros (Hsl & Hco & Hchars & _ & Hv) Hu. unfold parse_name_version.
  assert (Hfind : List.find (λ c, negb (valid_name_char c)) (chars (spec_name s)) = None).
  { destruct (List.find _ _) as [c|] eqn:Hf; [|done].
    apply List.find_some in Hf as [Hin%list_elem_of_In Hc].
    by rewrite (Hchars c Hin) in Hc. }
  destruct s as [name [v|] url]; simpl in *; subst url.
  - destruct (Hv v eq_refl) as (Hp & _). rewrite split_once_app by done. simpl.
    rewrite Hp. simpl. by rewrite Hfind.
  - rewrite app_nil_r_str, split_once_none by done. simpl. by rewrite Hfind.
Qed.

Lemma spec_from_url_ok s u u' seg :
  spec_wf s → spec_url s = Some u → url_path_segments u ≫= last = Some seg →
  url_query u' = None → url_fragment u' = spec_fragment s seg → url_set_fragment None u' = u →
  spec_from_url u' = Ok s.
Proof.
  intros (_ & Hco & _ & (c & Hc & Hal) & Hv) Hu Hseg Hq Hf Hset. unfold spec_from_url.
  rewrite Hq, Hset, Hf. destruct (url_path_segments u) as [segs|]; [|done]. simpl in Hseg.
  rewrite Hseg. unfold spec_fragment, to_semver.
  destruct s as [name ver url]; simpl in *; subst url.
  destruct (String.eqb_spec seg name) as [->|Hne]; destruct ver as [v|]; simpl.
  - destruct (Hv v eq_refl) as (Hp & _ & Hcv & d & Hd & Had).
    rewrite split_once_none by done. rewrite Hd. simpl. rewrite Had, Hp. done.
  - done.
  - destruct (Hv v eq_refl) as (Hp & _). rewrite split_once_app by done.
    rewrite Hp. done.
  - rewrite split_once_none by done. rewrite Hc. simpl. by rewrite Hal.
Qed.

(** Printing a package id specification and parsing the text again gives
    the specification back: with a URL (whose last segment carries the name
    when they agree), with a version, with both, or with the name alone. *)
Theorem parse_display s text (Hwf : spec_wf s) (Hd : spec_display s = Ok text)
    (Hurl : ∀ u, spec_url s = Some u →
       ∃ seg, url_path_segments u ≫= last = Some seg ∧
              url_text_reads_back u text (spec_fragment s seg)) :
  parse text = Ok s.
Proof.
  unfold parse, spec_display in *. destruct (spec_url s) as [u|] eqn:Hu.
  - destruct (Hurl u eq_refl) as (seg & Hseg & u' & -> & Hpar & Hq & Hf & Hset).
    pose proof (spec_from_url_ok s u u' seg Hwf Hu Hseg Hq Hf Hset) as Hok.
    unfold str_to_url. destruct Hpar as [->|(Hno & Hnp & Hns & ->)]; [done|].
    destruct (url_parse text); try done. simpl. by rewrite Hns.
  - simpl in Hd. pose proof (parse_name_version_ok s Hwf Hu) as Hok.
    destruct Hwf as (Hsl & _ & _ & _ & Hv).
    destruct (spec_version s) as [v|] eqn:Hver; simplify_eq/=.
    + rewrite contains_char_app. destruct (Hv v eq_refl) as (_ & Hvs & _).
      simpl. by rewrite Hsl, Hvs.
    + rewrite app_nil_r_str in Hok. by rewrite Hsl.
Qed.

(** * The order is total *)
Lemma package_id_cmp_lex a b :
  package_id_cmp a b = cmp_then (String.compare (pid_name a) (pid_name b))
    (cmp_then (version_cmp (pid_version a) (pid_version b)) (source_id_cmp (pid_source_id a) (pid_source_id b))).
Proof. unfold package_id_cmp. by destruct (String.compare _ _), (version_cmp _ _). Qed.
Lemma package_id_cmp_total `{!SemverLaws} `{!UrlLaws} : cmp_total package_id_cmp.
Proof.
  eapply cmp_total_ext; [intros x y; symmetry; apply package_id_cmp_lex|].
  apply cmp_total_then; [exact (cmp_total_on pid_name _ string_cmp_total)|].
  apply cmp_total_then; [exact (cmp_total_on pid_version _ version_cmp_total)|].
  exact (cmp_total_on pid_source_id _ source_id_cmp_total).
Qed.
Lemma package_id_cmp_eq `{!SemverLaws} `{!UrlLaws} a b :
  package_id_cmp a b = Eq →
  to_key a = to_key b ∧ pid_name a = pid_name b ∧ source_id_cmp (pid_source_id a) (pid_source_id b) = Eq.
Proof.
  rewrite package_id_cmp_lex. destruct (String.compare _ _) eqn:Hn; [|done..]. apply String.compare_eq_iff in Hn. cbn [cmp_then].
  destruct (version_cmp _ _) eqn:Hv; [|done..]. apply version_cmp_eq in Hv. cbn [cmp_then]. intros Hs. split_and!; [|done..].
  apply package_id_key_eq. split_and!; [done..|]. by apply source_id_cmp_key.
Qed.
End package_id.

(** * Concrete runs *)
Definition ascii_letters : UnicodeStd := {|
  char_is_alphabetic c :=
    match c with
    | String c EmptyString => in_range "a" "z" c || in_range "A" "Z" c
    | _ => false
    end;
  char_is_alphanumeric c :=
    match c with
    | String c EmptyString => in_range "a" "z" c || in_range "A" "Z" c || in_range "0" "9" c
    | _ => false
    end;
|}.

Section runs.
Local Existing Instance sem_lib.
Local Existing Instance hier_lib.
Local Existing Instance ascii_letters.

Definition crates_io : SourceId :=
  let u := ("https", "github.com", ["rust-lang"; "crates.io-index"], None, None) in
  mkSourceId u u Registry None None.
Definition foo (v : Version) : PackageId := mkPackageId "foo" v crates_io.
Definition bar_spec : PackageIdSpec :=
  mkSpec "bar" (Some (1, 2, 3)) (Some ("http", "crates.io", ["foo"], None, None)).

Lemma query_spec_witness :
  query (mkSpec "foo" (Some (1, 0, 0)) None) [foo (1, 0, 0); foo (2, 0, 0)] = Ok (foo (1, 0, 0)) ∧
  is_panic (query (mkSpec "foo" None None) [foo (1, 0, 0); foo (2, 0, 0)]) = false.
Proof.
  split.
  - apply query_spec. vm_eq.
  - apply query_spec; [done|]. intros p Hp.
    assert (Hsrc : pid_source_id p = crates_io).
    { apply elem_of_cons in Hp as [->|Hp]; [done|]. by apply list_elem_of_singleton in Hp as ->. }
    rewrite Hsrc. split; [done|]. by exists "crates.io-index".
Defined.

Lemma deserialize_serialize_witness :
  deserialize (serialize (foo (1, 0, 12))) =
  Ok (mkPackageId "foo" (1, 0, 12) (SourceId.with_precise crates_io (Some "locked"))).
Proof.
  rewrite (deserialize_serialize (foo (1, 0, 12))) by vm_eq. vm_eq.
Defined.

Lemma parse_display_witness : parse "http://crates.io/foo#bar:1.2.3" = Ok bar_spec.
Proof.
  apply (parse_display bar_spec).
  - split_and!; try done.
    + intros c Hc. change (c ∈ ["b"; "a"; "r"]) in Hc.
      repeat (apply elem_of_cons in Hc as [->|Hc]; [done|]). by apply elem_of_nil in Hc.
    + by exists "b".
    + intros v [= <-]. split_and!; try done. by exists "1".
  - done.
  - intros u [= <-]. exists "foo". split; [done|].
    exists ("http", "crates.io", ["foo"], None, Some "bar:1.2.3").
    split_and!; try done. left. vm_eq.
Defined.

(** A specification whose URL ends in an empty fragment makes [parse]
    panic instead of reporting an invalid specification. *)
Theorem parse_empty_fragment_panics :
  is_panic (parse "http://crates.io/foo#") = true ∧ is_ok (parse "http://crates.io/foo") = true.
Proof. split; vm_eq. Qed.
End runs.
