(* ===== verification/Graph.v ===== *)
(** The dependency graph of [src/cargo/util/graph.rs]: [Graph<N, E>], a map
    from nodes to a map from children to edge data, and [path_to_top]. *)
From S2P Require Import Prelude.

Section graph.
Context {Node : Type} `{HK : HashKey Node} {E : Type} `{RS : RustStd}.

(** [nodes: HashMap<N, HashMap<N, E>>] *)
Record Graph := mkGraph { nodes : hashmap Node (hashmap Node E) }.

Definition new : Graph := mkGraph ∅.

Definition add (g : Graph) (node : Node) : Graph :=
  mkGraph (hor_insert node ∅ (nodes g)).

(** [link] returns [&mut E] to the slot of the edge; [upd] is what the caller
    does through that reference, [dflt] is [E::default()]. *)
Definition link (g : Graph) (node child : Node) (dflt : E) (upd : E → E) : Graph :=
  mkGraph (hupdate (λ adj, hupdate upd child (hor_insert child dflt adj)) node
                   (hor_insert node ∅ (nodes g))).

Definition contains (g : Graph) (k : Node) : bool := hcontains (nodes g) k.

Definition edge (g : Graph) (from to : Node) : option E :=
  hget (nodes g) from ≫= λ adj, hget adj to.

Definition edges (g : Graph) (from : Node) : list (Node * E) :=
  match hget (nodes g) from with
  | Some adj => hiter adj
  | None => []
  end.

Definition iter (g : Graph) : list Node := hkeys (nodes g).

(** The closure [first_pkg_depending_on] of [path_to_top]. *)
Definition first_pkg_depending_on (g : Graph) (pkg : Node) (result : list Node) : option Node :=
  fst <$> head (filter (λ p, hmem p.1 result = false)
                       (filter (λ p, hcontains p.2 pkg = true) (hiter (nodes g)))).

(** The [while let] loop; [fuel] bounds its iterations. *)
Fixpoint path_loop (g : Graph) (fuel : nat) (pkg : Node) (result : list Node) : option (list Node) :=
  match first_pkg_depending_on g pkg result with
  | None => Some result
  | Some p => match fuel with
              | O => None
              | S fuel => path_loop g fuel p (result ++ [p])
              end
  end.

Definition path_to_top (g : Graph) (pkg : Node) : option (list Node) :=
  path_loop g (size (nodes g)) pkg [pkg].

(** * Well-formedness *)
Definition wf (g : Graph) : Prop :=
  hwf (nodes g) ∧ ∀ i k adj, nodes g !! i = Some (k, adj) → hwf adj.

(** [parent] lists [child] among its children. *)
Definition depends_on (g : Graph) (parent child : Node) : Prop :=
  ∃ e, edge g parent child = Some e.

Lemma wf_new : wf new.
Proof. split; [apply hwf_empty|]. intros i k adj H. simpl in H. by rewrite lookup_empty in H. Qed.

Lemma wf_add g n : wf g → wf (add g n).
Proof.
  intros [Hn Ha]. split; [by apply hwf_hor_insert|].
  intros i k adj. simpl. unfold hor_insert.
  destruct (nodes g !! to_key n) as [[? ?]|] eqn:En; [apply Ha|].
  rewrite lookup_insert. case_decide; [|apply Ha].
  intros; simplify_eq. apply hwf_empty.
Qed.

Lemma wf_link g a b d f : wf g → wf (link g a b d f).
Proof.
  intros Hwf. destruct (wf_add g a Hwf) as [Hn Ha]. split.
  - by apply hwf_hupdate.
  - intros i k adj. simpl. unfold hupdate at 1. rewrite lookup_alter.
    case_decide as Heq; [subst i|by apply Ha].
    destruct (hor_insert a ∅ (nodes g) !! to_key a) as [[k0 adj0]|] eqn:El; [|done].
    simpl. intros; simplify_eq. apply hwf_hupdate, hwf_hor_insert. by eapply Ha.
Qed.

Lemma edge_add g n a b : edge (add g n) a b = edge g a b.
Proof.
  unfold edge, add; simpl. rewrite hget_hor_insert.
  case_decide as Heq; [|done]. rewrite (hget_key _ _ _ Heq).
  destruct (hget (nodes g) a); simpl; [done|apply hget_empty].
Qed.

(** [link] creates or updates exactly one edge. *)
Lemma edge_link g a b d f x y :
  edge (link g a b d f) x y =
    if decide (to_key a = to_key x ∧ to_key b = to_key y)
    then Some (f (default d (edge g a b))) else edge g x y.
Proof.
  unfold edge, link; simpl. rewrite hget_hupdate, !hget_hor_insert.
  destruct (decide (to_key a = to_key x)) as [Ha|Ha]; simpl.
  2: { rewrite decide_False by tauto. done. }
  rewrite <-(hget_key _ _ _ Ha), hget_hupdate, !hget_hor_insert.
  destruct (hget (nodes g) a) as [adj|]; simpl; rewrite ?hget_empty;
    repeat case_decide; done || tauto.
Qed.

Lemma contains_link g a b d f x :
  contains (link g a b d f) x = contains g x || (a ==? x).
Proof.
  apply Bool.eq_true_iff_eq. unfold contains, link; simpl.
  rewrite orb_true_iff, !hcontains_true, heqb_true.
  setoid_rewrite hget_hupdate. rewrite !hget_hor_insert.
  repeat case_decide; simpl; firstorder eauto.
Qed.

Lemma elem_of_iter g n : wf g → n ∈ iter g → contains g n = true.
Proof. intros [Hn _] H. apply hcontains_true. by apply elem_of_hkeys_get. Qed.

(** * [path_to_top] *)
Lemma first_pkg_Some g pkg result p :
  wf g → first_pkg_depending_on g pkg result = Some p →
  to_key p ∈ dom (nodes g) ∧ (to_key p ∉ (to_key <$> result)) ∧ depends_on g p pkg.
Proof.
  intros [Hn _]. unfold first_pkg_depending_on.
  destruct (filter _ _) as [|[p' adj] l] eqn:Ef; [done|].
  simpl; intros; simplify_eq.
  assert (Hin : (p, adj) ∈ (p, adj) :: l) by constructor.
  rewrite <-Ef, !list_elem_of_filter in Hin. destruct Hin as (Hm & Hc & Hin).
  apply elem_of_hiter_wf in Hin; [|done]. simpl in *. split_and!.
  - apply elem_of_dom. eauto.
  - rewrite <-hmem_true. congruence.
  - apply hcontains_true in Hc as [e He]. exists e. unfold edge.
    by rewrite (hget_Some _ _ _ _ Hin).
Qed.

Lemma first_pkg_None g pkg result n :
  wf g → first_pkg_depending_on g pkg result = None →
  depends_on g n pkg → to_key n ∈ (to_key <$> result).
Proof.
  intros [Hn _] Hf [e He]. unfold edge in He.
  destruct (hget (nodes g) n) as [adj|] eqn:Hg; [|done]. simpl in He.
  destruct (hget_Some_inv _ _ _ Hg) as [n' El].
  rewrite <-(Hn _ _ _ El). apply hmem_true. apply dec_stable; intros Hm.
  apply not_true_iff_false in Hm. unfold first_pkg_depending_on in Hf.
  assert (Hin : (n', adj) ∈ filter (λ p, hmem p.1 result = false)
    (filter (λ p, hcontains p.2 pkg = true) (hiter (nodes g)))).
  { rewrite !list_elem_of_filter. split_and!; [done| |].
    - apply hcontains_true. eauto.
    - apply elem_of_hiter. eauto. }
  destruct (filter _ _); [set_solver|done].
Qed.

(** Each element is a child of the next one. *)
Fixpoint upward (g : Graph) (l : list Node) : Prop :=
  match l with
  | a :: ((b :: _) as l') => depends_on g b a ∧ upward g l'
  | _ => True
  end.

Lemma upward_snoc g l a b :
  upward g (l ++ [a]) → depends_on g b a → upward g (l ++ [a; b]).
Proof.
  induction l as [|x [|y l] IH]; simpl in *; tauto.
Qed.

Lemma path_loop_spec g fuel pre pkg :
  wf g → upward g (pre ++ [pkg]) → NoDup (to_key <$> (pre ++ [pkg])) →
  (∀ i, i ∈ tail (to_key <$> (pre ++ [pkg])) → i ∈ dom (nodes g)) →
  size (nodes g) ≤ fuel + length pre →
  ∃ ext, path_loop g fuel pkg (pre ++ [pkg]) = Some (pre ++ [pkg] ++ ext) ∧
    upward g (pre ++ [pkg] ++ ext) ∧ NoDup (to_key <$> (pre ++ [pkg] ++ ext)) ∧
    ∀ n, depends_on g n (List.last ext pkg) → to_key n ∈ (to_key <$> (pre ++ [pkg] ++ ext)).
Proof.
  intros Hwf. revert pre pkg. induction fuel as [|fuel IH];
    intros pre pkg Hup Hnd Hdom Hsz; simpl;
    destruct (first_pkg_depending_on g pkg (pre ++ [pkg])) as [p|] eqn:Ef.
  2, 4: exists []; cbn [app]; split_and!; try done;
        intros n Hn; by eapply first_pkg_None.
  all: destruct (first_pkg_Some _ _ _ _ Hwf Ef) as (Hd & Hnin & Hdep).
  - exfalso. set (t := tail (to_key <$> (pre ++ [pkg]))) in *.
    assert (Hlen : length t = length pre).
    { unfold t. rewrite fmap_app. destruct pre; simpl; [done|].
      rewrite length_app, length_fmap. simpl. lia. }
    assert (Hnt : NoDup (to_key p :: t)).
    { constructor.
      - intros Hin. apply Hnin. unfold t in Hin. destruct (to_key <$> _); [done|].
        simpl in Hin. by constructor.
      - unfold t. destruct (to_key <$> (pre ++ [pkg])); [done|]. by inversion Hnd. }
    assert (Hsub : list_to_set (to_key p :: t) ⊆ dom (nodes g)).
    { intros i. rewrite elem_of_list_to_set, elem_of_cons. intros [->|?]; auto. }
    apply subseteq_size in Hsub. rewrite size_list_to_set, size_dom in Hsub by done.
    simpl in *. lia.
  - destruct (IH (pre ++ [pkg]) p) as (ext & -> & Hu & Hn' & Hmax).
    + rewrite <-app_assoc. by apply upward_snoc.
    + rewrite fmap_app. apply NoDup_app. split_and!; [done| |apply NoDup_singleton].
      intros i Hi Hi'. simpl in Hi'. apply list_elem_of_singleton in Hi'. by subst.
    + intros i Hi. destruct (to_key <$> (pre ++ [pkg])) as [|i0 l0] eqn:El.
      { destruct pre; simplify_eq. }
      rewrite fmap_app, El in Hi. simpl in Hi.
      rewrite elem_of_app in Hi. destruct Hi as [Hi|Hi]; [by apply Hdom|].
      apply list_elem_of_singleton in Hi. by subst.
    + rewrite length_app. simpl. lia.
    + exists (p :: ext). rewrite <-!app_assoc in *. simpl in *. split_and!; try done.
      intros n Hn1. apply Hmax. by rewrite <-(last_default p ext pkg).
Qed.

(** [path_to_top] always returns, without exhausting its bound, a path
    that starts at the package asked for, climbs one dependency edge at each
    step, visits no package twice, and stops only at a package all of whose
    dependents it has visited already. *)
Theorem path_to_top_spec g pkg :
  wf g →
  ∃ ext, path_to_top g pkg = Some (pkg :: ext) ∧ upward g (pkg :: ext) ∧
    NoDup (to_key <$> (pkg :: ext)) ∧
    ∀ n, depends_on g n (List.last ext pkg) → to_key n ∈ (to_key <$> (pkg :: ext)).
Proof.
  intros Hwf. apply (path_loop_spec g _ [] pkg Hwf); simpl; try done.
  - apply NoDup_singleton.
  - intros i Hi. by apply elem_of_nil in Hi.
  - lia.
Qed.
End graph.
Arguments Graph : clear implicits.
Arguments Graph Node {HK} E.

(** A three-node chain with a cycle back to its end: [1 -> 2 -> 3 -> 2]. *)
Definition sample : Graph nat nat :=
  link (link (link new 1 2 0 S) 2 3 0 S) 3 2 0 S.

Lemma wf_sample : wf sample.
Proof. unfold sample. repeat apply wf_link. apply wf_new. Qed.

Lemma path_to_top_spec_witness :
  wf sample ∧
  ∃ ext, path_to_top (RS:=std_order) sample 2 = Some (2 :: ext) ∧
    upward sample (2 :: ext) ∧ NoDup (to_key <$> (2 :: ext)) ∧
    ∀ n, depends_on sample n (List.last ext 2) → to_key n ∈ (to_key <$> (2 :: ext)).
Proof.
  split; [exact wf_sample|].
  exact (path_to_top_spec (RS:=std_order) sample 2 wf_sample).
Defined.
