(* ===== verification/DepQueue.v ===== *)
(** The build scheduler's queue, [src/cargo/util/dependency_queue.rs]:
    [DependencyQueue<K, V>] with [queue], [queue_finished], [dequeue],
    [finish], and the invariant that ties its mutable fields to the
    dependencies that were queued and the packages that were finished. *)
From S2P Require Import Prelude.

Inductive Freshness := Fresh | Dirty.
#[global] Instance Freshness_eq_dec : EqDecision Freshness.
Proof. solve_decision. Defined.

Definition combine (self other : Freshness) : Freshness :=
  match self with Fresh => other | Dirty => Dirty end.

(** [const IN_PROGRESS: usize = !0] *)
Definition IN_PROGRESS : N := usize_max.

Section queue.
Context {K : Type} `{CK : Countable K} {V : Type} `{RS : RustStd}.

Record DependencyQueue := mkQueue {
  dep_map : gmap K (gset K * V);
  reverse_dep_map : gmap K (gset K);
  dirty : gset K;
  pending : gset K;
  depth : gmap K N;
}.

Definition new : DependencyQueue := mkQueue ∅ ∅ ∅ ∅ ∅.

(** One [rev.insert(key)] of the loop in [queue]. *)
Definition add_reverse (key : K) (m : gmap K (gset K)) (dep : K) : gmap K (gset K) :=
  <[dep := {[key]} ∪ default ∅ (m !! dep)]> m.

(** [queue] returns [&mut V] to the value stored for [key]; [upd] is what the
    caller does through it. *)
Definition queue (fresh : Freshness) (key : K) (value : V) (dependencies : list K)
    (upd : V → V) (q : DependencyQueue) : DependencyQueue :=
  match dep_map q !! key with
  | Some (ds, v) =>
      mkQueue (<[key := (ds, upd v)]> (dep_map q)) (reverse_dep_map q) (dirty q)
              (pending q) (depth q)
  | None =>
      mkQueue (<[key := (list_to_set dependencies, upd value)]> (dep_map q))
              (foldl (add_reverse key) (reverse_dep_map q) dependencies)
              (if decide (fresh = Dirty) then {[key]} ∪ dirty q else dirty q)
              (pending q) (depth q)
  end.

(** [.flat_map(|it| it).map(|dep| depth(dep, map, results)).max()]: the memo
    table is threaded through the visits.  [None] is fuel exhaustion. *)
Definition visit_result := option (res Empty_set (N * gmap K N)).
Fixpoint max_children (visit : K → gmap K N → visit_result) (deps : list K)
    (m : option N) (results : gmap K N)
    : option (res Empty_set (option N * gmap K N)) :=
  match deps with
  | [] => Some (Ok (m, results))
  | dep :: deps =>
      match visit dep results with
      | Some (Ok (d, results)) =>
          max_children visit deps (Some (N.max (default 0%N m) d)) results
      | Some (Err e) => match e with end
      | Some (Panic p) => Some (Panic p)
      | None => None
      end
  end.

(** The local function [depth] of [queue_finished]. *)
Fixpoint depth_of (map : gmap K (gset K)) (fuel : nat) (key : K)
    (results : gmap K N) : visit_result :=
  match results !! key with
  | Some d => if (d =? IN_PROGRESS)%N
              then Some (Panic "cycle in DependencyQueue")
              else Some (Ok (d, results))
  | None =>
      match fuel with
      | O => None
      | S fuel =>
          match max_children (depth_of map fuel) (hs_iter (default ∅ (map !! key)))
                             None (<[key := IN_PROGRESS]> results) with
          | Some (Ok (m, results)) =>
              let d := usize_wrap (1 + default 0%N m) in
              Some (Ok (d, <[key := d]> results))
          | Some (Err e) => match (e : Empty_set) with end
          | Some (Panic p) => Some (Panic p)
          | None => None
          end
      end
  end.

(** Every key the recursion can meet. *)
Definition all_keys (q : DependencyQueue) : gset K :=
  dom (dep_map q) ∪ dom (reverse_dep_map q)
    ∪ map_fold (λ _ s acc, s ∪ acc) ∅ (reverse_dep_map q).

Fixpoint depth_all (map : gmap K (gset K)) (fuel : nat) (keys : list K)
    (results : gmap K N) : option (res Empty_set (gmap K N)) :=
  match keys with
  | [] => Some (Ok results)
  | key :: keys =>
      match depth_of map fuel key results with
      | Some (Ok (_, results)) => depth_all map fuel keys results
      | Some (Err e) => match e with end
      | Some (Panic p) => Some (Panic p)
      | None => None
      end
  end.

Definition queue_finished (q : DependencyQueue)
    : option (res Empty_set DependencyQueue) :=
  match depth_all (reverse_dep_map q) (S (size (all_keys q)))
                  (hm_iter (dep_map q)).*1 (depth q) with
  | Some (Ok d) =>
      Some (Ok (mkQueue (dep_map q) (reverse_dep_map q) (dirty q) (pending q) d))
  | Some (Err e) => match e with end
  | Some (Panic p) => Some (Panic p)
  | None => None
  end.

(** The candidates of [dequeue], in iteration order. *)
Definition ready (q : DependencyQueue) : list K :=
  (filter (λ p : K * (gset K * V), p.2.1 = ∅) (hm_iter (dep_map q))).*1.

Definition dequeue (q : DependencyQueue)
    : res Empty_set (option (Freshness * K * V) * DependencyQueue) :=
  if forallb (λ k, bool_decide (is_Some (depth q !! k))) (ready q) then
    match max_by_key (λ k, default 0%N (depth q !! k)) (ready q) with
    | None => Ok (None, q)
    | Some key =>
        match dep_map q !! key with
        | Some (_, data) =>
            let fresh := if decide (key ∈ dirty q) then Dirty else Fresh in
            Ok (Some (fresh, key, data),
                mkQueue (delete key (dep_map q)) (reverse_dep_map q) (dirty q)
                        ({[key]} ∪ pending q) (depth q))
        | None => Panic "called `Option::unwrap()` on a `None` value"
        end
    end
  else Panic "no entry found for key".

Definition is_empty (q : DependencyQueue) : bool :=
  bool_decide (dep_map q = ∅) && bool_decide (pending q = ∅).

Definition len (q : DependencyQueue) : nat := size (dep_map q) + size (pending q).

(** One iteration of the loop over [reverse_deps] in [finish]. *)
Definition finish_dep (key : K) (fresh : Freshness)
    (st : gmap K (gset K * V) * gset K) (dep : K)
    : res Empty_set (gmap K (gset K * V) * gset K) :=
  let '(dm, dirt) := st in
  let dirt := if decide (fresh = Dirty) then {[dep]} ∪ dirt else dirt in
  match dm !! dep with
  | None => Panic "called `Option::unwrap()` on a `None` value"
  | Some (ds, v) =>
      if decide (key ∈ ds)
      then Ok (<[dep := (ds ∖ {[key]}, v)]> dm, dirt)
      else Panic "assertion failed: self.dep_map.get_mut(dep).unwrap().0.remove(key)"
  end.

Definition finish (key : K) (fresh : Freshness) (q : DependencyQueue)
    : res Empty_set DependencyQueue :=
  if decide (key ∈ pending q) then
    let pend := pending q ∖ {[key]} in
    match reverse_dep_map q !! key with
    | None => Ok (mkQueue (dep_map q) (reverse_dep_map q) (dirty q) pend (depth q))
    | Some deps =>
        match foldM (finish_dep key fresh) (dep_map q, dirty q) (hs_iter deps) with
        | Ok (dm, dirt) => Ok (mkQueue dm (reverse_dep_map q) dirt pend (depth q))
        | Err e => match e with end
        | Panic p => Panic p
        end
    end
  else Panic "assertion failed: self.pending.remove(key)".

(** * Depth *)
Section depth.
Context (map : gmap K (gset K)) (U : gset K).
Implicit Types r : gmap K N.

(** [c] waits for [k]. *)
Definition redge (k c : K) : Prop := c ∈ default ∅ (map !! k).

Inductive path : K → list K → Prop :=
| path_one k : path k [k]
| path_step k c l : redge k c → path c l → path k (k :: l).

(** [d] nodes is the length of a longest path from [k]. *)
Definition longest (k : K) (d : N) : Prop :=
  (∃ l, path k l ∧ N.of_nat (length l) = d) ∧
  ∀ l, path k l → (N.of_nat (length l) <= d)%N.

Lemma path_rtc k x l : rtc redge k x → path x l →
  ∃ l', path k l' ∧ length l ≤ length l'.
Proof.
  intros Hr Hp. induction Hr as [|k c x Hkc _ IH]; [eauto|].
  destruct (IH Hp) as (l' & Hl' & Hlen). exists (k :: l').
  split; [by apply (path_step _ c)|simpl; lia].
Qed.

Lemma path_tc k x l : tc redge k x → path x l →
  ∃ l', path k l' ∧ length l < length l'.
Proof.
  intros Htc Hp.
  assert (∃ c, redge k c ∧ rtc redge c x) as (c & Hkc & Hr).
  { inversion Htc; subst; eauto using tc_rtc, rtc_refl. }
  destruct (path_rtc _ _ _ Hr Hp) as (l' & Hl' & Hlen).
  exists (k :: l'). split; [by apply (path_step _ c)|simpl; lia].
Qed.

(** A longest path exists only where no cycle can be reached. *)
Lemma longest_no_cycle k d x : longest k d → rtc redge k x → ¬ tc redge x x.
Proof.
  intros [_ Hmax] Hr Hc.
  assert (Hn : ∀ n, ∃ l, path x l ∧ n ≤ length l).
  { induction n as [|n (l & Hl & Hlen)].
    - exists [x]. split; [constructor|simpl; lia].
    - destruct (path_tc _ _ _ Hc Hl) as (l' & ? & ?). exists l'. split; [done|lia]. }
  destruct (Hn (S (N.to_nat d))) as (l & Hl & Hlen).
  destruct (path_rtc _ _ _ Hr Hl) as (l' & Hl' & Hlen').
  specialize (Hmax _ Hl'). lia.
Qed.

Lemma longest_intro k (cs : list K) (h : K → N) :
  (∀ c, redge k c ↔ c ∈ cs) → (∀ c, c ∈ cs → longest c (h c)) →
  longest k (1 + foldr (λ c m, N.max (h c) m) 0%N cs).
Proof.
  intros Hcs Hh. split.
  - destruct (decide (cs = [])) as [->|Hne].
    { exists [k]. split; [constructor|done]. }
    assert (Hex : ∃ c, c ∈ cs ∧ foldr (λ c m, N.max (h c) m) 0%N cs = h c).
    { clear Hcs Hh. induction cs as [|c cs IH]; [done|]. simpl.
      destruct (decide (cs = [])) as [->|Hcs].
      - exists c. split; [constructor|]. simpl. lia.
      - destruct (IH Hcs) as (c' & Hc' & ->).
        destruct (N.max_dec (h c) (h c')) as [->| ->]; [exists c|exists c'];
          (split; [|done]); by constructor. }
    destruct Hex as (c & Hc & ->). destruct (Hh c Hc) as [(l & Hl & Hlen) _].
    exists (k :: l). split; [apply (path_step _ c); [by apply Hcs|done]|].
    simpl length. lia.
  - intros l Hl. inversion Hl as [|k' c l' Hkc Hp]; subst; simpl length; [lia|].
    apply Hcs in Hkc. destruct (Hh c Hkc) as [_ Hmax]. specialize (Hmax _ Hp).
    assert (h c <= foldr (λ c m, N.max (h c) m) 0 cs)%N; [|lia].
    clear -Hkc. induction cs as [|c' cs IH]; [by apply elem_of_nil in Hkc|].
    simpl. apply elem_of_cons in Hkc as [->|Hin]; [lia|]. specialize (IH Hin). lia.
Qed.

(** Finished entries of the memo table. *)
Definition finished_entries r : gmap K N := filter (λ p, p.2 ≠ IN_PROGRESS) r.

Record memo_ok r : Prop := {
  mo_longest : ∀ k d, r !! k = Some d → d ≠ IN_PROGRESS → longest k d;
  mo_bound : ∀ k d, r !! k = Some d → d ≠ IN_PROGRESS →
                    (d <= N.of_nat (size (finished_entries r)))%N;
  mo_dom : dom r ⊆ U;
}.

(** [r'] extends [r] with finished entries only. *)
Definition memo_ext r r' : Prop :=
  (∀ s, r' !! s = Some IN_PROGRESS ↔ r !! s = Some IN_PROGRESS) ∧
  (∀ k d, r !! k = Some d → r' !! k = Some d).

Lemma memo_ext_refl r : memo_ext r r.
Proof. split; auto. Qed.

Lemma memo_ext_trans r1 r2 r3 : memo_ext r1 r2 → memo_ext r2 r3 → memo_ext r1 r3.
Proof. intros [H1 H2] [H3 H4]. split; [intros; by rewrite H3|auto]. Qed.

Lemma finished_size r r' : memo_ext r r' →
  size (finished_entries r) ≤ size (finished_entries r').
Proof.
  intros [_ He]. apply map_subseteq_size, map_subseteq_spec.
  intros k d. unfold finished_entries. rewrite !map_lookup_filter_Some.
  intros [? ?]. auto.
Qed.

Lemma finished_size_U r : memo_ok r → size (finished_entries r) ≤ size U.
Proof.
  intros [_ _ Hd]. rewrite <-size_dom. apply subseteq_size.
  etrans; [apply dom_filter_subseteq|done].
Qed.

Context (Uclosed : ∀ k c, k ∈ U → redge k c → c ∈ U).
Context (Usmall : (N.of_nat (size U) < IN_PROGRESS)%N).

(** Packages on the call stack lead to the one being visited. *)
Definition stack_above r (key : K) : Prop :=
  ∀ s, r !! s = Some IN_PROGRESS → tc redge s key.

Definition visit_post (key : K) r (out : visit_result) : Prop :=
  match out with
  | Some (Ok (d, r')) =>
      memo_ok r' ∧ memo_ext r r' ∧ r' !! key = Some d ∧ d ≠ IN_PROGRESS
  | Some (Panic _) => ∃ x, rtc redge key x ∧ tc redge x x
  | _ => False
  end.

Definition visit_pre (fuel : nat) r (key : K) : Prop :=
  key ∈ U ∧ memo_ok r ∧ stack_above r key ∧ size (U ∖ dom r) ≤ fuel.

Lemma visit_pre_ext fuel r r' key :
  visit_pre fuel r key → memo_ok r' → memo_ext r r' → visit_pre fuel r' key.
Proof.
  intros (HU & _ & Hst & Hf) Hok [Hip Hext]. split_and!; [done..| |].
  - intros s Hs. by apply Hst, Hip.
  - etrans; [|done]. apply subseteq_size. intros k.
    rewrite !elem_of_difference, !elem_of_dom. intros [? Hk]. split; [done|].
    intros [d Hd]. apply Hk. eauto.
Qed.

Lemma max_children_spec fuel key visit cs m r :
  (∀ c r, visit_pre fuel r c → visit_post c r (visit c r)) →
  (∀ c, c ∈ cs → redge key c ∧ visit_pre fuel r c) → memo_ok r →
  match max_children visit cs m r with
  | Some (Ok (m', r')) =>
      memo_ok r' ∧ memo_ext r r' ∧
      (∀ c, c ∈ cs → ∃ d, r' !! c = Some d ∧ d ≠ IN_PROGRESS) ∧
      default 0%N m' = N.max (default 0%N m)
        (foldr (λ c mx, N.max (default 0 (r' !! c)) mx) 0 cs)%N
  | Some (Panic _) => ∃ x, rtc redge key x ∧ tc redge x x
  | _ => False
  end.
Proof.
  intros Hvisit. revert m r. induction cs as [|c cs IH]; intros m r Hcs Hok; simpl.
  - split_and!; [done|apply memo_ext_refl| |lia].
    intros c Hc. by apply elem_of_nil in Hc.
  - destruct (Hcs c ltac:(by constructor)) as [Hkc Hpre].
    pose proof (Hvisit c r Hpre) as Hpost.
    destruct (visit c r) as [[[d r1]|[]|p]|]; simpl in Hpost; [| |done].
    2: { destruct Hpost as (x & Hx & Hxx). exists x. split; [|done].
         by apply (rtc_l _ _ c). }
    destruct Hpost as (Hok1 & Hext1 & Hd & Hdip).
    specialize (IH (Some (N.max (default 0%N m) d)) r1).
    destruct (max_children visit cs _ r1) as [[[m' r']|[]|p]|].
    2, 3: apply IH; [|done]; intros c' Hc';
          destruct (Hcs c' ltac:(by constructor)); eauto using visit_pre_ext.
    destruct IH as (Hok' & Hext' & Hall & Hmax).
    { intros c' Hc'. destruct (Hcs c' ltac:(by constructor)).
      eauto using visit_pre_ext. }
    { done. }
    assert (Hd' : r' !! c = Some d) by (by apply Hext').
    split_and!; [done|by eapply memo_ext_trans| |].
    + intros c' [->|Hc']%elem_of_cons; eauto.
    + rewrite Hmax, Hd'. simpl. lia.
Qed.

Lemma memo_ok_start r key :
  memo_ok r → r !! key = None → key ∈ U →
  memo_ok (<[key := IN_PROGRESS]> r) ∧
  size (U ∖ dom (<[key := IN_PROGRESS]> r)) < size (U ∖ dom r).
Proof.
  intros [Hl Hb Hd] Hkey HU. split.
  - constructor.
    + intros k d. rewrite lookup_insert. case_decide; [congruence|apply Hl].
    + intros k d. rewrite lookup_insert. case_decide; [congruence|].
      intros Hk Hip. unfold finished_entries. rewrite map_filter_insert_False by (simpl; auto).
      rewrite delete_id by done. by eapply Hb.
    + rewrite dom_insert. set_solver.
  - apply subset_size. split.
    + rewrite dom_insert. set_solver.
    + intros Hsub. assert (Hin : key ∈ U ∖ dom r).
      { apply elem_of_difference. split; [done|]. by apply not_elem_of_dom. }
      apply Hsub in Hin. rewrite dom_insert in Hin. set_solver.
Qed.

Lemma memo_ok_finish r key d :
  memo_ok r → r !! key = Some IN_PROGRESS → longest key d →
  (d <= 1 + N.of_nat (size (finished_entries r)))%N →
  d ≠ IN_PROGRESS ∧ memo_ok (<[key := d]> r).
Proof.
  intros [Hl Hb Hd] Hkey Hlong Hle.
  assert (Hfin : finished_entries r !! key = None).
  { unfold finished_entries. apply map_lookup_filter_None. right.
    intros x Hx. simpl. naive_solver. }
  assert (HleU : S (size (finished_entries r)) ≤ size U).
  { rewrite <-size_dom. assert (Hin : key ∈ U) by (apply Hd; apply elem_of_dom; eauto).
    transitivity (size ({[key]} ∪ dom (finished_entries r))).
    - rewrite size_union, size_singleton; [lia|].
      apply disjoint_singleton_l. by apply not_elem_of_dom.
    - apply subseteq_size. assert (dom (finished_entries r) ⊆ dom r)
        by apply dom_filter_subseteq. set_solver. }
  assert (Hdip : d ≠ IN_PROGRESS) by lia.
  assert (Hins : finished_entries (<[key := d]> r) = <[key := d]> (finished_entries r)).
  { unfold finished_entries. by rewrite map_filter_insert_True. }
  split; [done|]. constructor.
  - intros k d'. rewrite lookup_insert. case_decide; [naive_solver|apply Hl].
  - intros k d'. rewrite lookup_insert, Hins, map_size_insert_None by done.
    case_decide; [intros; simplify_eq; lia|].
    intros Hk Hip. specialize (Hb _ _ Hk Hip). lia.
  - rewrite dom_insert. assert (key ∈ dom r) by (apply elem_of_dom; eauto). set_solver.
Qed.

Lemma redge_elem k c : redge k c ↔ c ∈ hs_iter (default ∅ (map !! k)).
Proof. by rewrite elem_of_hs_iter. Qed.

Lemma foldr_max_ext (f g : K → N) cs :
  (∀ c, c ∈ cs → f c = g c) →
  foldr (λ c mx, N.max (f c) mx) 0%N cs = foldr (λ c mx, N.max (g c) mx) 0%N cs.
Proof.
  induction cs as [|c cs IH]; intros Hfg; simpl; [done|].
  rewrite (Hfg c) by constructor. f_equal. apply IH. intros; apply Hfg; by constructor.
Qed.

Lemma foldr_max_le (f : K → N) b cs :
  (∀ c, c ∈ cs → (f c <= b)%N) → (foldr (λ c mx, N.max (f c) mx) 0 cs <= b)%N.
Proof.
  induction cs as [|c cs IH]; intros Hf; simpl; [lia|].
  assert (f c <= b)%N by (apply Hf; constructor).
  assert (foldr (λ c mx, N.max (f c) mx) 0 cs <= b)%N; [|lia].
  apply IH. intros; apply Hf; by constructor.
Qed.

Lemma visit_pre_child fuel r key c :
  visit_pre (S fuel) r key → r !! key = None → redge key c →
  visit_pre fuel (<[key := IN_PROGRESS]> r) c.
Proof.
  intros (HU & Hok & Hst & Hf) Hkey Hkc.
  destruct (memo_ok_start r key Hok Hkey HU) as [Hok0 Hlt].
  split_and!; [by eapply Uclosed|done| |lia].
  intros s. rewrite lookup_insert. case_decide.
  - subst. intros _. by apply tc_once.
  - intros Hs. eapply tc_r; [by apply Hst|done].
Qed.

Lemma visit_done r key m r' :
  memo_ok r' → r !! key = None →
  memo_ext (<[key := IN_PROGRESS]> r) r' →
  (∀ c, redge key c → ∃ d, r' !! c = Some d ∧ d ≠ IN_PROGRESS) →
  m = foldr (λ c mx, N.max (default 0%N (r' !! c)) mx) 0%N
            (hs_iter (default ∅ (map !! key))) →
  visit_post key r (Some (Ok (usize_wrap (1 + m), <[key := usize_wrap (1 + m)]> r'))).
Proof.
  intros Hok' Hkey [Hip Hext] Hall Hm.
  assert (Hlong : longest key (1 + m)).
  { rewrite Hm. apply longest_intro; [intros; apply redge_elem|].
    intros c Hc%redge_elem. destruct (Hall c Hc) as (d & Hd & Hdip). rewrite Hd.
    by apply (mo_longest _ Hok'). }
  assert (Hmx : (m <= N.of_nat (size (finished_entries r')))%N).
  { rewrite Hm. apply foldr_max_le. intros c Hc%redge_elem.
    destruct (Hall c Hc) as (d & Hd & Hdip). rewrite Hd.
    by apply (mo_bound _ Hok' c). }
  assert (Hkey' : r' !! key = Some IN_PROGRESS).
  { apply Hip. by rewrite lookup_insert_eq. }
  destruct (memo_ok_finish r' key (1 + m) Hok' Hkey' Hlong) as [Hdip Hok2]; [lia|].
  rewrite usize_wrap_small by (unfold IN_PROGRESS in *;
    pose proof (finished_size_U r' Hok'); lia).
  simpl. split_and!; [done| |by rewrite lookup_insert_eq|done].
  split.
  - intros s. rewrite lookup_insert. case_decide as Heq; [subst; naive_solver|].
    rewrite Hip. by rewrite lookup_insert_ne.
  - intros k d Hk. rewrite lookup_insert_ne by congruence.
    apply Hext. by rewrite lookup_insert_ne by congruence.
Qed.

Lemma depth_of_spec fuel key r :
  visit_pre fuel r key → visit_post key r (depth_of map fuel key r).
Proof.
  revert key r. induction fuel as [|fuel IH]; intros key r Hpre;
    pose proof Hpre as (HU & Hok & Hst & Hf);
    simpl; destruct (r !! key) as [d|] eqn:Hkey.
  1, 3: destruct (N.eqb_spec d IN_PROGRESS) as [->|Hd]; simpl;
        [exists key; split; [done|by apply Hst]
        |split_and!; [done|apply memo_ext_refl|done|done]].
  { assert (Hin : key ∈ U ∖ dom r).
    { apply elem_of_difference. split; [done|]. by apply not_elem_of_dom. }
    assert (Hemp : U ∖ dom r = ∅) by (apply leibniz_equiv, size_empty_inv; lia).
    rewrite Hemp in Hin. by apply elem_of_empty in Hin. }
  destruct (memo_ok_start r key Hok Hkey HU) as [Hok0 Hlt].
  pose proof (max_children_spec fuel key (depth_of map fuel)
    (hs_iter (default ∅ (map !! key))) None (<[key := IN_PROGRESS]> r)) as Hmc.
  destruct (max_children _ _ None _) as [[[m' r']|[]|p]|];
    [|apply Hmc; [intros; by apply IH| |done];
      intros c Hc%redge_elem; eauto using visit_pre_child ..].
  destruct Hmc as (Hok' & Hext & Hall & Hm).
  { intros; by apply IH. }
  { intros c Hc%redge_elem. eauto using visit_pre_child. }
  { done. }
  apply visit_done; [done..| |by rewrite Hm; apply N.max_0_l].
  intros c Hc%redge_elem. eauto.
Qed.

Lemma depth_all_spec fuel keys r :
  (∀ k, k ∈ keys → k ∈ U) → memo_ok r →
  (∀ s, r !! s ≠ Some IN_PROGRESS) → size U ≤ fuel →
  match depth_all map fuel keys r with
  | Some (Ok r') => memo_ok r' ∧ memo_ext r r' ∧
      ∀ k, k ∈ keys → ∃ d, r' !! k = Some d ∧ d ≠ IN_PROGRESS
  | Some (Panic _) => ∃ k x, k ∈ keys ∧ rtc redge k x ∧ tc redge x x
  | _ => False
  end.
Proof.
  revert r. induction keys as [|k keys IH]; intros r HU Hok Hnip Hf; simpl.
  { split_and!; [done|apply memo_ext_refl|]. intros k Hk. by apply elem_of_nil in Hk. }
  assert (Hpre : visit_pre fuel r k).
  { split_and!; [apply HU; by constructor|done|intros s Hs; by destruct (Hnip s)|].
    etrans; [|done]. apply subseteq_size. set_solver. }
  pose proof (depth_of_spec fuel k r Hpre) as Hpost.
  destruct (depth_of map fuel k r) as [[[d r1]|[]|p]|]; simpl in Hpost; [| |done].
  2: { destruct Hpost as (x & ? & ?). exists k, x. split_and!; [by constructor|done..]. }
  destruct Hpost as (Hok1 & Hext1 & Hd & Hdip).
  specialize (IH r1). destruct (depth_all map fuel keys r1) as [[r'|[]|p]|].
  3: apply IH; [set_solver|done| |done]; intros s Hs; by apply Hext1, Hnip in Hs.
  - destruct IH as (Hok' & Hext' & Hall); [set_solver|done| |done|].
    { intros s Hs; by apply Hext1, Hnip in Hs. }
    split_and!; [done|by eapply memo_ext_trans|].
    intros k' [->|Hk']%elem_of_cons; [|eauto].
    exists d. split; [by apply Hext'|done].
  - destruct IH as (k' & x & ? & ? & ?); [set_solver|done| |done|].
    { intros s Hs; by apply Hext1, Hnip in Hs. }
    exists k', x. split_and!; [by constructor|done..].
Qed.
End depth.

Lemma redge_all_keys q k c : redge (reverse_dep_map q) k c → c ∈ all_keys q.
Proof.
  unfold redge, all_keys. destruct (reverse_dep_map q !! k) as [s|] eqn:Ek; simpl;
    [|set_solver]. intros Hc. apply elem_of_union_r. revert s Ek Hc.
  apply (map_fold_weak_ind
    (λ acc m, ∀ s, m !! k = Some s → c ∈ s → c ∈ acc)); [set_solver|].
  intros i x m acc Hi IH s. rewrite lookup_insert. case_decide; set_solver.
Qed.

Lemma memo_ok_empty m U : memo_ok m U ∅.
Proof. constructor; [intros k d; by rewrite lookup_empty..|]. rewrite dom_empty_L. set_solver. Qed.

(** No package that waits, directly or not, for a queued one is in a cycle. *)
Definition acyclic (q : DependencyQueue) : Prop :=
  ∀ k x, k ∈ dom (dep_map q) → rtc (redge (reverse_dep_map q)) k x →
         ¬ tc (redge (reverse_dep_map q)) x x.

Lemma queue_finished_cases q :
  depth q = ∅ → (N.of_nat (size (all_keys q)) < IN_PROGRESS)%N →
  match queue_finished q with
  | Some (Ok q') =>
      ∃ d, q' = mkQueue (dep_map q) (reverse_dep_map q) (dirty q) (pending q) d ∧
      ∀ k, k ∈ dom (dep_map q) →
        ∃ n, d !! k = Some n ∧ longest (reverse_dep_map q) k n
  | Some (Panic _) => ¬ acyclic q
  | _ => False
  end.
Proof.
  intros Hd Hsz. unfold queue_finished. rewrite Hd.
  assert (Hkeys : ∀ k, k ∈ (hm_iter (dep_map q)).*1 ↔ k ∈ dom (dep_map q)).
  { intros k. rewrite elem_of_dom, list_elem_of_fmap. split.
    - intros ([k' x] & -> & Hin). apply elem_of_hm_iter in Hin. eauto.
    - intros [x Hx]. exists (k, x). split; [done|]. by apply elem_of_hm_iter. }
  pose proof (depth_all_spec (reverse_dep_map q) (all_keys q)
    ltac:(intros; by eapply redge_all_keys) Hsz
    (S (size (all_keys q))) (hm_iter (dep_map q)).*1 ∅) as Hall.
  destruct (depth_all _ _ _ _) as [[d|[]|p]|].
  - destruct Hall as (Hok & _ & Hk); [| |intros s; by rewrite lookup_empty|lia|].
    { intros k Hk%Hkeys. unfold all_keys. set_solver. }
    { apply memo_ok_empty. }
    exists d. split; [done|]. intros k Hin%Hkeys. destruct (Hk k Hin) as (n & Hn & Hip).
    exists n. split; [done|]. by apply (mo_longest _ _ _ Hok).
  - destruct Hall as (k & x & Hk%Hkeys & Hr & Hc);
      [|apply memo_ok_empty|intros s; by rewrite lookup_empty|lia|].
    { intros k Hk%Hkeys. unfold all_keys. set_solver. }
    intros Hac. by apply (Hac k x).
  - apply Hall; [|apply memo_ok_empty|intros s; by rewrite lookup_empty|lia].
    intros k Hk%Hkeys. unfold all_keys. set_solver.
Qed.

(** On a freshly filled queue, [queue_finished] always returns, and it
    detects exactly the dependency cycles: on an acyclic queue it succeeds,
    touches only [depth], and records for every queued package the number of
    packages on a longest chain of packages waiting for it; on a cyclic queue
    it panics. *)
Theorem queue_finished_spec q
    (Hd : depth q = ∅) (Hsz : (N.of_nat (size (all_keys q)) < IN_PROGRESS)%N) :
  (acyclic q →
     ∃ d, queue_finished q =
            Some (Ok (mkQueue (dep_map q) (reverse_dep_map q) (dirty q) (pending q) d)) ∧
          ∀ k, k ∈ dom (dep_map q) →
            ∃ n, d !! k = Some n ∧ longest (reverse_dep_map q) k n) ∧
  (¬ acyclic q → ∃ msg, queue_finished q = Some (Panic msg)).
Proof.
  pose proof (queue_finished_cases q Hd Hsz) as Hc.
  destruct (queue_finished q) as [[q'|[]|msg]|]; [| |done].
  - destruct Hc as (d & -> & Hlong). split; [eauto|]. intros Hac. exfalso.
    apply Hac. intros k x Hk. destruct (Hlong k Hk) as (n & _ & Hn).
    by eapply longest_no_cycle.
  - split; [done|eauto].
Qed.

(** * The life of a queue

    [D] gives the dependencies each package was queued with, [I] the packages
    queued as dirty, and [F] the packages finished so far, with the freshness
    they finished with. *)
Record queue_inv (D : gmap K (gset K)) (I : gset K) (F : gmap K Freshness)
    (q : DependencyQueue) : Prop := {
  qi_waiting : ∀ k s v, dep_map q !! k = Some (s, v) →
    (k ∉ pending q) ∧ (k ∉ dom F) ∧ ∃ ds, D !! k = Some ds ∧ s = ds ∖ dom F;
  qi_started : ∀ k, k ∈ pending q ∨ k ∈ dom F →
    ∃ ds, D !! k = Some ds ∧ ds ⊆ dom F;
  qi_disjoint : ∀ k, k ∈ pending q → k ∉ dom F;
  qi_all : ∀ k, k ∈ dom D → k ∈ dom (dep_map q) ∨ k ∈ pending q ∨ k ∈ dom F;
  qi_reverse : ∀ d k, redge (reverse_dep_map q) d k ↔ ∃ ds, D !! k = Some ds ∧ d ∈ ds;
  qi_dirty : ∀ k, k ∈ dirty q ↔
    k ∈ I ∨ ∃ ds d, D !! k = Some ds ∧ d ∈ ds ∧ F !! d = Some Dirty;
}.

(** Every dependency that was named has been queued itself. *)
Definition closed (D : gmap K (gset K)) : Prop :=
  ∀ k ds d, D !! k = Some ds → d ∈ ds → d ∈ dom D.

Lemma redge_add_reverse key deps m d k :
  redge (foldl (add_reverse key) m deps) d k ↔ redge m d k ∨ (k = key ∧ d ∈ deps).
Proof.
  revert m. induction deps as [|dep deps IH]; intros m; simpl; [set_solver|].
  rewrite IH. unfold redge, add_reverse. rewrite lookup_insert, elem_of_cons.
  case_decide as Heq; [subst|]; simpl; set_solver.
Qed.

Lemma inv_new : queue_inv ∅ ∅ ∅ new.
Proof.
  constructor; unfold redge; simpl; intros *; rewrite ?lookup_empty; simpl;
    try set_solver.
  all: split; [set_solver|]; try (intros [?|H]; [done|revert H]);
    intros (? & Hn & _); by rewrite lookup_empty in Hn.
Qed.

(** Filling the queue: the first entry for a key counts. *)
Lemma inv_queue D I q fresh key value deps upd :
  queue_inv D I ∅ q → pending q = ∅ →
  queue_inv (if decide (key ∈ dom D) then D else <[key := list_to_set deps]> D)
            (if decide ((key ∉ dom D) ∧ fresh = Dirty) then {[key]} ∪ I else I) ∅
            (queue fresh key value deps upd q).
Proof.
  intros [Hw Hs Hdj Ha Hr Hdi] Hp. unfold queue.
  assert (Hdom : key ∈ dom D ↔ key ∈ dom (dep_map q)).
  { split; [intros Hk; destruct (Ha key Hk) as [?|[?|?]]; set_solver|].
    intros [[s v] Hk]%elem_of_dom. destruct (Hw _ _ _ Hk) as (_ & _ & ds & Hds & _).
    apply elem_of_dom. eauto. }
  destruct (dep_map q !! key) as [[ds v]|] eqn:Ek.
  - rewrite decide_True by (apply Hdom, elem_of_dom; eauto).
    rewrite decide_False by (intros [Hn _]; apply Hn, Hdom, elem_of_dom; eauto).
    constructor; simpl; auto.
    + intros k s' v'. rewrite lookup_insert. case_decide; [|apply Hw].
      intros; simplify_eq. by eapply Hw.
    + intros k Hk. rewrite dom_insert. set_solver.
  - assert (Hnd : key ∉ dom D) by (rewrite Hdom; by apply not_elem_of_dom).
    rewrite (decide_False (P:=key ∈ dom D)) by done.
    assert (HDk : D !! key = None) by (by apply not_elem_of_dom).
    constructor; simpl.
    + intros k s' v'. rewrite lookup_insert. case_decide as Heq.
      * intros; simplify_eq. split_and!; [set_solver..|].
        exists (list_to_set deps). rewrite lookup_insert_eq. split; [done|set_solver].
      * intros Hk. destruct (Hw _ _ _ Hk) as (? & ? & ds & ? & ?). split_and!; [done..|].
        exists ds. by rewrite lookup_insert_ne.
    + set_solver.
    + set_solver.
    + intros k. rewrite !dom_insert. specialize (Ha k). set_solver.
    + intros d k. rewrite redge_add_reverse, Hr, lookup_insert.
      case_decide as Heq; [subst k|naive_solver].
      rewrite HDk. split.
      * intros [(ds & ? & _)|[_ Hin]]; [done|]. eexists. split; [done|set_solver].
      * intros (ds & Hds & Hin). simplify_eq. right. set_solver.
    + intros k. assert (Hrhs : ∀ J : gset K, (k ∈ J ∨ ∃ ds d,
          <[key:=list_to_set deps]> D !! k = Some ds ∧ d ∈ ds ∧
          (∅ : gmap K Freshness) !! d = Some Dirty) ↔ k ∈ J).
      { intros J. split; [intros [?|(? & ? & _ & _ & Hf)]; [done|]|by left].
        by rewrite lookup_empty in Hf. }
      rewrite Hrhs. assert (HdI : k ∈ dirty q ↔ k ∈ I).
      { rewrite Hdi. split; [intros [?|(? & ? & _ & _ & Hf)]; [done|]|by left].
        by rewrite lookup_empty in Hf. }
      destruct (decide (fresh = Dirty)); repeat case_decide; set_solver.
Qed.

(** What [queue_finished] establishes, and the steps below preserve. *)
Definition depth_ok (q : DependencyQueue) : Prop :=
  ∀ k, k ∈ dom (dep_map q) →
    ∃ n, depth q !! k = Some n ∧ longest (reverse_dep_map q) k n.

Lemma elem_of_ready q k : k ∈ ready q ↔ ∃ v, dep_map q !! k = Some (∅, v).
Proof.
  unfold ready. rewrite list_elem_of_fmap. split.
  - intros ([k' [s v]] & -> & Hin). apply list_elem_of_filter in Hin as [Hs Hin].
    simpl in Hs; subst. apply elem_of_hm_iter in Hin. eauto.
  - intros [v Hv]. exists (k, (∅, v)). split; [done|].
    apply list_elem_of_filter. split; [done|]. by apply elem_of_hm_iter.
Qed.

Lemma ready_depth q : depth_ok q →
  forallb (λ k, bool_decide (is_Some (depth q !! k))) (ready q) = true.
Proof.
  intros Hd. apply forallb_forall. intros k Hk%list_elem_of_In%elem_of_ready.
  destruct Hk as [v Hv]. apply bool_decide_eq_true.
  destruct (Hd k) as (n & -> & _); [apply elem_of_dom; eauto|eauto].
Qed.

(** The state after a package was handed out. *)
Lemma inv_dequeue D I F q k v :
  queue_inv D I F q → dep_map q !! k = Some (∅, v) →
  (∃ ds, D !! k = Some ds ∧ ds ⊆ dom F) ∧
  queue_inv D I F (mkQueue (delete k (dep_map q)) (reverse_dep_map q) (dirty q)
                           ({[k]} ∪ pending q) (depth q)).
Proof.
  intros [Hw Hs Hdj Ha Hr Hdi] Hk.
  destruct (Hw _ _ _ Hk) as (Hkp & HkF & ds & Hds & Hempty).
  assert (Hsub : ds ⊆ dom F).
  { intros d Hd. destruct (decide (d ∈ dom F)) as [|Hn]; [done|]. exfalso.
    apply (not_elem_of_empty (C:=gset K) d). rewrite Hempty. by apply elem_of_difference. }
  split; [eauto|].
  constructor; simpl; auto.
  - intros k' s v' Hk'. apply lookup_delete_Some in Hk' as [Hne Hk'].
    destruct (Hw _ _ _ Hk') as (? & ? & ?). split_and!; [|done..].
    rewrite elem_of_union, elem_of_singleton. naive_solver.
  - intros k'. rewrite elem_of_union, elem_of_singleton.
    intros [[->|Hk']|Hk']; [by exists ds|by apply Hs; left|by apply Hs; right].
  - intros k'. rewrite elem_of_union, elem_of_singleton. intros [->|?]; [done|by apply Hdj].
  - intros k' Hk'. rewrite dom_delete_L. destruct (decide (k' = k)) as [->|Hne].
    + right; left. by apply elem_of_union_l, elem_of_singleton.
    + destruct (Ha k' Hk') as [?|[?|?]]; [left|right; left|by right; right].
      * apply elem_of_difference. by rewrite elem_of_singleton.
      * by apply elem_of_union_r.
Qed.

Lemma dequeue_cases D I F q :
  queue_inv D I F q → depth_ok q →
  match dequeue q with
  | Ok (Some (fr, k, v), q') =>
      ∃ ds, D !! k = Some ds ∧ ds ⊆ dom F ∧ dep_map q !! k = Some (∅, v) ∧
        (fr = Dirty ↔ k ∈ I ∨ ∃ d, d ∈ ds ∧ F !! d = Some Dirty) ∧
        (∀ k' v', dep_map q !! k' = Some (∅, v') →
           (default 0 (depth q !! k') <= default 0 (depth q !! k))%N) ∧
        queue_inv D I F q' ∧ depth_ok q' ∧
        pending q' = {[k]} ∪ pending q ∧ dom (dep_map q') = dom (dep_map q) ∖ {[k]}
  | Ok (None, q') =>
      q' = q ∧ ∀ k, k ∈ dom (dep_map q) →
        ∃ ds d, D !! k = Some ds ∧ d ∈ ds ∧ d ∉ dom F
  | _ => False
  end.
Proof.
  intros Hinv Hdep. unfold dequeue. rewrite (ready_depth q Hdep).
  destruct (max_by_key _ (ready q)) as [k|] eqn:Hmax.
  - apply max_by_key_Some in Hmax as [Hk Hmax].
    apply elem_of_ready in Hk as [v Hv]. rewrite Hv.
    destruct (inv_dequeue D I F q k v Hinv Hv) as [(ds & Hds & Hsub) Hinv'].
    exists ds. split_and!; try done.
    + pose proof (qi_dirty _ _ _ _ Hinv k) as Hdi.
      case_decide as Hdirty; split; try done.
      * intros _. apply Hdi in Hdirty as [?|(ds' & d & ? & ? & ?)]; [by left|].
        simplify_eq. right. eauto.
      * intros Hcase. exfalso. apply Hdirty, Hdi.
        destruct Hcase as [?|(d & ? & ?)]; [by left|right; eauto].
    + intros k' v' Hk'. apply Hmax, elem_of_ready. eauto.
    + intros k' Hk'. simpl in *. apply Hdep.
      rewrite dom_delete_L in Hk'. by apply elem_of_difference in Hk' as [? _].
    + simpl. apply dom_delete_L.
  - apply max_by_key_None in Hmax. split; [done|].
    intros k [[s v] Hk]%elem_of_dom.
    destruct (qi_waiting _ _ _ _ Hinv _ _ _ Hk) as (_ & _ & ds & Hds & Hs).
    destruct (set_choose_or_empty s) as [[d Hd]|Hse].
    + rewrite Hs in Hd. apply elem_of_difference in Hd as [? ?]. eauto.
    + apply leibniz_equiv in Hse. rewrite Hse in Hk.
      assert (Hin : k ∈ ready q) by (apply elem_of_ready; eauto).
      rewrite Hmax in Hin. by apply elem_of_nil in Hin.
Qed.

(** [dequeue] never panics on a prepared queue.  It hands out a package
    only when all the dependencies it was queued with have been finished, it
    prefers a package with the longest chain of dependents, it reports the
    package as dirty exactly when it was queued dirty or one of its
    dependencies was rebuilt, and it moves the package to [pending]; when it
    returns [None], every waiting package has an unfinished dependency. *)
Theorem dequeue_spec D I F q (Hinv : queue_inv D I F q) (Hdep : depth_ok q) :
  match dequeue q with
  | Ok (Some (fr, k, v), q') =>
      ∃ ds, D !! k = Some ds ∧ ds ⊆ dom F ∧ dep_map q !! k = Some (∅, v) ∧
        (fr = Dirty ↔ k ∈ I ∨ ∃ d, d ∈ ds ∧ F !! d = Some Dirty) ∧
        (∀ k' v', dep_map q !! k' = Some (∅, v') →
           (default 0 (depth q !! k') <= default 0 (depth q !! k))%N) ∧
        queue_inv D I F q' ∧ depth_ok q' ∧
        pending q' = {[k]} ∪ pending q ∧ dom (dep_map q') = dom (dep_map q) ∖ {[k]}
  | Ok (None, q') =>
      q' = q ∧ ∀ k, k ∈ dom (dep_map q) →
        ∃ ds d, D !! k = Some ds ∧ d ∈ ds ∧ d ∉ dom F
  | _ => False
  end.
Proof. by apply dequeue_cases. Qed.

(** The loop of [finish], after the packages [l] remain to be visited. *)
Definition finish_state (q : DependencyQueue) (key : K) (fresh : Freshness)
    (deps : gset K) (st : gmap K (gset K * V) * gset K) (l : list K) : Prop :=
  NoDup l ∧ (∀ x, x ∈ l → x ∈ deps) ∧
  (∀ x, st.1 !! x = if decide (x ∈ deps ∧ x ∉ l)
                    then prod_map (λ s, s ∖ {[key]}) id <$> dep_map q !! x
                    else dep_map q !! x) ∧
  (∀ x, x ∈ st.2 ↔ x ∈ dirty q ∨ (fresh = Dirty ∧ x ∈ deps ∧ x ∉ l)).

Lemma finish_dep_step q key fresh deps st x l :
  (∀ x, x ∈ deps → ∃ s v, dep_map q !! x = Some (s, v) ∧ key ∈ s) →
  finish_state q key fresh deps st (x :: l) →
  ∃ st', finish_dep key fresh st x = Ok st' ∧ finish_state q key fresh deps st' l.
Proof.
  intros Hdeps (Hnd & Hl & Hdm & Hdirt). destruct st as [dm dirt]; simpl in *.
  apply NoDup_cons in Hnd as [Hx Hnd].
  assert (Hxd : x ∈ deps) by (apply Hl; constructor).
  destruct (Hdeps x Hxd) as (s & v & Hs & Hkey).
  assert (Hdmx : dm !! x = Some (s, v)).
  { rewrite Hdm, decide_False; [done|]. intros [_ Hn]. apply Hn. constructor. }
  rewrite Hdmx, decide_True by done. eexists. split; [done|].
  assert (Hsplit : ∀ y, (y ∈ deps ∧ y ∉ l) ↔ y = x ∨ (y ∈ deps ∧ y ∉ x :: l)).
  { intros y. rewrite not_elem_of_cons. destruct (decide (y = x)); naive_solver. }
  split_and!; [done|intros y Hy; apply Hl; by constructor| |]; simpl.
  - intros y. rewrite lookup_insert. destruct (decide (x = y)) as [->|Hne].
    + rewrite decide_True by done. by rewrite Hs.
    + rewrite Hdm. pose proof (Hsplit y). repeat case_decide; naive_solver.
  - intros y. rewrite Hsplit. destruct (decide (fresh = Dirty)).
    + rewrite elem_of_union, elem_of_singleton, Hdirt. naive_solver.
    + rewrite Hdirt. naive_solver.
Qed.

(** The packages a pending one is to be reported to. *)
Lemma waiting_for_pending D I F q key x :
  queue_inv D I F q → key ∈ pending q → redge (reverse_dep_map q) key x →
  ∃ s v, dep_map q !! x = Some (s, v) ∧ key ∈ s.
Proof.
  intros [Hw Hs Hdj Ha Hr Hdi] Hp Hx.
  apply Hr in Hx as (ds & Hds & Hin).
  destruct (Ha x) as [Hx|Hx]; [apply elem_of_dom; eauto| |].
  - apply elem_of_dom in Hx as [[s v] Hv].
    destruct (Hw _ _ _ Hv) as (_ & _ & ds' & Hds' & ->). simplify_eq.
    exists (ds ∖ dom F), v. split; [done|]. apply elem_of_difference. auto.
  - destruct (Hs x Hx) as (ds' & Hds' & Hsub). simplify_eq.
    exfalso. by apply (Hdj key Hp), Hsub.
Qed.

Lemma inv_finish D I F q key fresh dm dirt :
  queue_inv D I F q → key ∈ pending q →
  finish_state q key fresh (default ∅ (reverse_dep_map q !! key)) (dm, dirt) [] →
  queue_inv D I (<[key := fresh]> F)
    (mkQueue dm (reverse_dep_map q) dirt (pending q ∖ {[key]}) (depth q)).
Proof.
  intros Hinv Hp (_ & _ & Hdm & Hdirt). pose proof Hinv as [Hw Hs Hdj Ha Hr Hdi].
  simpl in *. assert (Hnil : ∀ x (P : Prop), (P ∧ x ∉ @nil K) ↔ P).
  { intros x P. split; [tauto|]. split; [done|apply not_elem_of_nil]. }
  assert (HF : key ∉ dom F) by (by apply Hdj).
  constructor; simpl.
  - intros k s v Hk. rewrite Hdm in Hk.
    assert (∃ s0, dep_map q !! k = Some (s0, v) ∧ s = s0 ∖ {[key]}) as (s0 & Hk0 & ->).
    { case_decide as Hc.
      - destruct (dep_map q !! k) as [[s0 v0]|]; simplify_eq/=. eauto.
      - exists s. split; [done|]. apply leibniz_equiv. intros y.
        rewrite elem_of_difference, elem_of_singleton. split; [|tauto].
        intros Hy. split; [done|]. intros ->.
        destruct (Hw _ _ _ Hk) as (_ & _ & ds & Hds & ->).
        apply Hc, Hnil. apply Hr. exists ds. split; [done|].
        by apply elem_of_difference in Hy as [? _]. }
    destruct (Hw _ _ _ Hk0) as (Hkp & HkF & ds & Hds & ->). split_and!.
    + rewrite elem_of_difference. tauto.
    + rewrite dom_insert, elem_of_union, elem_of_singleton. intros [->|?]; [done|tauto].
    + exists ds. split; [done|]. rewrite dom_insert_L. set_solver +.
  - intros k Hk. rewrite dom_insert, elem_of_union, elem_of_singleton in Hk.
    rewrite dom_insert_L.
    destruct (Hs k) as (ds & ? & ?).
    { destruct Hk as [?|[->|?]]; [left; set_solver|by left|by right]. }
    exists ds. split; [done|]. set_solver.
  - intros k. rewrite elem_of_difference, elem_of_singleton, dom_insert,
      elem_of_union, elem_of_singleton. intros [? ?] [?|?]; [done|by eapply Hdj].
  - intros k Hk. rewrite dom_insert, elem_of_union, elem_of_singleton.
    destruct (Ha k Hk) as [Hd|[Hd|Hd]]; [left| |by right; right; right].
    + apply elem_of_dom in Hd as [x Hx]. apply elem_of_dom. rewrite Hdm.
      case_decide; rewrite Hx; eauto.
    + right. destruct (decide (k = key)); [by right; left|left].
      apply elem_of_difference. by rewrite elem_of_singleton.
  - done.
  - intros k. rewrite Hdirt, Hnil, Hdi. fold (redge (reverse_dep_map q) key k).
    rewrite Hr. split.
    + intros [[?|(ds & d & ? & ? & Hd)]|[-> (ds & ? & ?)]]; [by left|right..].
      * exists ds, d. split_and!; [done..|]. rewrite lookup_insert_ne; [done|].
        intros ->. apply HF, elem_of_dom. eauto.
      * exists ds, key. by rewrite lookup_insert_eq.
    + intros [?|(ds & d & ? & ? & Hd)]; [by left; left|].
      rewrite lookup_insert in Hd. case_decide; simplify_eq; [right|left; right]; eauto.
Qed.

Lemma finish_ok D I F q key fresh :
  queue_inv D I F q → depth_ok q → key ∈ pending q →
  ∃ q', finish key fresh q = Ok q' ∧ queue_inv D I (<[key := fresh]> F) q' ∧
    depth_ok q' ∧ pending q' = pending q ∖ {[key]} ∧ dom (dep_map q') = dom (dep_map q).
Proof.
  intros Hinv Hdep Hp. unfold finish. rewrite decide_True by done.
  pose proof (λ x Hx, waiting_for_pending D I F q key x Hinv Hp Hx) as Hdeps.
  assert (Hst0 : ∀ deps, reverse_dep_map q !! key = deps →
    finish_state q key fresh (default ∅ deps) (dep_map q, dirty q)
                 (hs_iter (default ∅ deps))).
  { intros deps _. split_and!; simpl; [apply NoDup_hs_iter|..].
    - intros x. by rewrite elem_of_hs_iter.
    - intros x. rewrite decide_False; [done|]. rewrite elem_of_hs_iter. tauto.
    - intros x. rewrite elem_of_hs_iter. tauto. }
  assert (Hfin : ∀ dm dirt, finish_state q key fresh
      (default ∅ (reverse_dep_map q !! key)) (dm, dirt) [] →
    dom dm = dom (dep_map q) ∧
    depth_ok (mkQueue dm (reverse_dep_map q) dirt (pending q ∖ {[key]}) (depth q))).
  { intros dm dirt (_ & _ & Hdm & _). simpl in Hdm.
    assert (Hd : dom dm = dom (dep_map q)).
    { apply set_eq. intros x. rewrite !elem_of_dom, Hdm.
      case_decide; [by rewrite fmap_is_Some|done]. }
    split; [done|]. intros k. simpl. rewrite Hd. apply Hdep. }
  destruct (reverse_dep_map q !! key) as [deps|] eqn:Er.
  - destruct (foldM_ok (finish_dep key fresh) (finish_state q key fresh deps)
      (hs_iter deps) (dep_map q, dirty q)) as ([dm dirt] & -> & Hst).
    { intros st x l Hst. eapply finish_dep_step; [|done].
      intros y Hy. apply Hdeps. unfold redge. by rewrite Er. }
    { by apply (Hst0 (Some deps)). }
    destruct (Hfin dm dirt Hst). eexists. split_and!; try done.
    apply inv_finish; [done..|by rewrite Er].
  - assert (Hst : finish_state q key fresh ∅ (dep_map q, dirty q) []).
    { specialize (Hst0 None eq_refl). simpl in Hst0.
      assert (hs_iter (∅ : gset K) = []) as <-; [|done].
      apply Permutation_nil_r. by rewrite hs_iter_perm, elements_empty. }
    destruct (Hfin _ _ Hst). eexists. split_and!; try done.
    apply inv_finish; [done..|by rewrite Er].
Qed.

(** Finishing a package that is being built never panics; it makes the
    package finished with the given freshness, keeps the invariant (so the
    dependents lose exactly this dependency and become dirty when it was
    rebuilt) and leaves the set of waiting packages as it was.  Finishing a
    package that was not handed out panics. *)
Theorem finish_spec D I F q key fresh (Hinv : queue_inv D I F q) (Hdep : depth_ok q) :
  if decide (key ∈ pending q) then
    ∃ q', finish key fresh q = Ok q' ∧ queue_inv D I (<[key := fresh]> F) q' ∧
      depth_ok q' ∧ pending q' = pending q ∖ {[key]} ∧ dom (dep_map q') = dom (dep_map q)
  else is_panic (finish key fresh q) = true.
Proof.
  case_decide as Hp; [by eapply finish_ok|].
  unfold finish. by rewrite decide_False.
Qed.

(** When nothing is being built and packages wait, one of them is ready: a
    waiting package of greatest depth cannot wait for another one. *)
Lemma dequeue_progress D I F q :
  queue_inv D I F q → closed D → depth_ok q → pending q = ∅ → dep_map q ≠ ∅ →
  ∃ x q', dequeue q = Ok (Some x, q').
Proof.
  intros Hinv Hcl Hdep Hp Hne.
  pose proof (dequeue_cases D I F q Hinv Hdep) as Hd.
  destruct (dequeue q) as [[[x|] q']|[]|]; [by eauto| |done].
  destruct Hd as [-> Hall]. exfalso.
  destruct (max_by_key (λ k, default 0%N (depth q !! k)) (elements (dom (dep_map q))))
    as [k|] eqn:Hmax.
  2: { apply max_by_key_None, elements_empty_inv in Hmax.
       apply Hne, dom_empty_iff_L. by apply leibniz_equiv. }
  apply max_by_key_Some in Hmax as [Hk Hmax]. rewrite elem_of_elements in Hk.
  destruct (Hall k Hk) as (ds & d & Hds & Hin & HdF).
  assert (Hdd : d ∈ dom (dep_map q)).
  { destruct (qi_all _ _ _ _ Hinv d) as [?|[?|?]]; [by eapply Hcl|done| |done].
    rewrite Hp in *. by apply not_elem_of_empty in H. }
  specialize (Hmax d). rewrite elem_of_elements in Hmax. specialize (Hmax Hdd).
  destruct (Hdep k Hk) as (n & Hn & [(l & Hl & Hlen) _]).
  destruct (Hdep d Hdd) as (m & Hm & [_ Hlm]). rewrite Hn, Hm in Hmax. simpl in Hmax.
  assert (Hpath : path (reverse_dep_map q) d (d :: l)).
  { apply (path_step _ _ k); [|done]. apply (qi_reverse _ _ _ _ Hinv). eauto. }
  specialize (Hlm _ Hpath). simpl in Hlm. lia.
Qed.

(** The two steps the client takes once the queue is prepared, with the
    record of what was finished. *)
Inductive qstep : DependencyQueue * gmap K Freshness →
                  DependencyQueue * gmap K Freshness → Prop :=
| step_dequeue q q' F x : dequeue q = Ok (Some x, q') → qstep (q, F) (q', F)
| step_finish q q' F k fresh :
    finish k fresh q = Ok q' → qstep (q, F) (q', <[k := fresh]> F).

Definition run_ok D I (st : DependencyQueue * gmap K Freshness) : Prop :=
  queue_inv D I st.2 st.1 ∧ depth_ok st.1.

(** Work left: a waiting package counts for two steps, a pending one for one. *)
Definition work (q : DependencyQueue) : nat := 2 * size (dep_map q) + size (pending q).

Lemma qstep_ok D I st st' :
  run_ok D I st → qstep st st' → run_ok D I st' ∧ work st'.1 < work st.1.
Proof.
  intros [Hinv Hdep] Hs. destruct Hs as [q q' F [[fr k] v] Hd|q q' F k fresh Hf]; simpl in *.
  - pose proof (dequeue_cases D I F q Hinv Hdep) as Hsp. rewrite Hd in Hsp.
    destruct Hsp as (ds & _ & _ & Hk & _ & _ & Hinv' & Hdep' & Hp & Hdm).
    split; [by split|]. unfold work. rewrite Hp, <-!size_dom, Hdm.
    assert (Hkd : k ∈ dom (dep_map q)) by (apply elem_of_dom; eauto).
    rewrite size_difference by set_solver. rewrite size_singleton.
    assert (k ∉ pending q) by (by eapply (qi_waiting _ _ _ _ Hinv)).
    rewrite size_union, size_singleton by (by apply disjoint_singleton_l).
    assert (size (dom (dep_map q)) ≠ 0); [|lia].
    intros Hz%size_empty_inv. set_solver.
  - destruct (decide (k ∈ pending q)) as [Hk|Hk];
      [|unfold finish in Hf; by rewrite decide_False in Hf].
    destruct (finish_ok D I F q k fresh Hinv Hdep Hk) as (q1 & Hf1 & Hinv' & Hdep' & Hp & Hdm).
    rewrite Hf1 in Hf. simplify_eq.
    split; [by split|]. unfold work. rewrite Hp, <-!size_dom, Hdm.
    rewrite size_difference by set_solver. rewrite size_singleton.
    assert (size (pending q) ≠ 0); [|lia].
    intros Hz%size_empty_inv. set_solver.
Qed.

(** C40. Every build terminates and builds everything: from a prepared queue
    whose dependencies were all queued, no run of [dequeue]s and [finish]es
    has more than two steps per package, every state of a run in which no
    step is possible has an empty queue, and all packages queued are then
    finished. *)
Theorem run_complete D I q n st
    (Hinv : queue_inv D I ∅ q) (Hdep : depth_ok q) (Hcl : closed D)
    (Hrun : nsteps qstep n (q, ∅) st) :
  n ≤ work q ∧
  ((∃ st', qstep st st') ∨ (is_empty st.1 = true ∧ dom st.2 = dom D)).
Proof.
  assert (Hgen : ∀ st0, run_ok D I st0 → nsteps qstep n st0 st →
            run_ok D I st ∧ n + work st.1 ≤ work st0.1).
  { clear. intros st0 Hok Hn. induction Hn as [st|n st0 st1 st Hs Hn IH]; [by split|].
    destruct (qstep_ok _ _ _ _ Hok Hs) as [Hok' Hlt]. destruct (IH Hok'). split; [done|lia]. }
  destruct (Hgen (q, ∅) (conj Hinv Hdep) Hrun) as [[Hinv' Hdep'] Hle].
  simpl in Hle. split; [lia|]. destruct st as [q' F]; simpl in *. clear Hgen Hrun Hle.
  destruct (set_choose_or_empty (pending q')) as [[k Hk]|Hp].
  - left. destruct (finish_ok D I F q' k Fresh Hinv' Hdep' Hk) as (q'' & Hf & _).
    eexists. by apply (step_finish q' q'' F k Fresh).
  - apply leibniz_equiv in Hp. destruct (decide (dep_map q' = ∅)) as [He|Hne].
    + right. unfold is_empty. rewrite He, Hp, !bool_decide_true by done.
      split; [done|]. apply set_eq. intros k. split.
      * intros Hk. destruct (qi_started _ _ _ _ Hinv' k) as (ds & Hds & _); [by right|].
        apply elem_of_dom. eauto.
      * intros Hk. destruct (qi_all _ _ _ _ Hinv' k Hk) as [Hc|[Hc|HF]]; simpl in *; [| |exact HF].
        -- rewrite He, dom_empty in Hc. by apply not_elem_of_empty in Hc.
        -- rewrite Hp in Hc. by apply not_elem_of_empty in Hc.
    + left. destruct (dequeue_progress D I F q' Hinv' Hcl Hdep' Hp Hne) as (x & q'' & Hd).
      eexists. by apply (step_dequeue q' q'' F x).
Qed.
End queue.
Arguments DependencyQueue K {_ _} V.

(** * The queue of the unit test [deep_first]: 4 waits for 2 and 3, 2 for 1, 5
    for 3 and 4. *)
Section deep_first.
#[local] Existing Instance std_order.

Definition deep_first : DependencyQueue nat unit :=
  let q k deps := queue Fresh k tt deps id in
  q 5 [4; 3] (q 4 [2; 3] (q 3 [] (q 2 [1] (q 1 [] new)))).

Definition deep_first_deps : gmap nat (gset nat) :=
  <[5 := list_to_set [4; 3]]> (<[4 := list_to_set [2; 3]]>
    (<[3 := list_to_set []]> (<[2 := list_to_set [1]]>
      (<[1 := list_to_set []]> ∅)))).

Lemma deep_first_inv : queue_inv deep_first_deps ∅ ∅ deep_first.
Proof.
  unfold deep_first, deep_first_deps.
  pose proof (@inv_new nat _ _ unit) as H.
  pose proof (inv_queue _ _ _ Fresh 1 tt [] id H eq_refl) as H1.
  pose proof (inv_queue _ _ _ Fresh 2 tt [1] id H1 eq_refl) as H2.
  pose proof (inv_queue _ _ _ Fresh 3 tt [] id H2 eq_refl) as H3.
  pose proof (inv_queue _ _ _ Fresh 4 tt [2; 3] id H3 eq_refl) as H4.
  pose proof (inv_queue _ _ _ Fresh 5 tt [4; 3] id H4 eq_refl) as H5.
  exact H5.
Qed.

Lemma deep_first_small : (N.of_nat (size (all_keys deep_first)) < IN_PROGRESS)%N.
Proof. vm_compute. reflexivity. Qed.

Lemma deep_first_acyclic : acyclic deep_first.
Proof.
  pose proof (queue_finished_cases deep_first eq_refl deep_first_small) as Hc.
  destruct (queue_finished deep_first) as [[q'|[]|]|] eqn:Hq; [|vm_compute in Hq..];
    try discriminate.
  destruct Hc as (d & -> & Hlong). intros k x Hk.
  destruct (Hlong k Hk) as (n & _ & Hn). by eapply longest_no_cycle.
Qed.

Lemma queue_finished_spec_witness :
  depth deep_first = ∅ ∧ (N.of_nat (size (all_keys deep_first)) < IN_PROGRESS)%N ∧
  ∃ d, queue_finished deep_first =
         Some (Ok (mkQueue (dep_map deep_first) (reverse_dep_map deep_first)
                           (dirty deep_first) (pending deep_first) d)).
Proof.
  split_and!; [reflexivity|exact deep_first_small|].
  destruct (proj1 (queue_finished_spec deep_first eq_refl deep_first_small)
                  deep_first_acyclic) as (d & Hd & _).
  exists d. exact Hd.
Defined.

(** The prepared queue: depths 4, 3, 3, 2, 1 for packages 1 to 5. *)
Definition prepared : DependencyQueue nat unit :=
  match queue_finished deep_first with Some (Ok q) => q | _ => deep_first end.

Lemma prepared_ok : queue_inv deep_first_deps ∅ ∅ prepared ∧ depth_ok prepared.
Proof.
  pose proof (queue_finished_cases deep_first eq_refl deep_first_small) as Hc.
  unfold prepared. destruct (queue_finished deep_first) as [[q'|[]|]|] eqn:Hq;
    [|vm_compute in Hq; discriminate..].
  destruct Hc as (d & -> & Hlong). split; [|exact Hlong].
  destruct deep_first_inv. by constructor.
Qed.

Lemma dequeue_spec_witness :
  match dequeue prepared with
  | Ok (Some (fr, k, v), q') =>
      fr = Fresh ∧ k = 1 ∧ depth_ok q' ∧ pending q' = {[1]} ∪ pending prepared
  | _ => False
  end.
Proof.
  pose proof (dequeue_spec deep_first_deps ∅ ∅ prepared
                (proj1 prepared_ok) (proj2 prepared_ok)) as H.
  assert (Hd : ∃ q', dequeue prepared = Ok (Some (Fresh, 1, tt), q'))
    by (eexists; vm_compute; reflexivity).
  destruct Hd as [q' Hd]. rewrite Hd in H |- *.
  destruct H as (ds & _ & _ & _ & _ & _ & _ & Hok & Hp & _). auto.
Defined.

(** The queue with package 1 handed out. *)
Definition building : DependencyQueue nat unit :=
  match dequeue prepared with Ok (_, q) => q | _ => prepared end.

Lemma building_ok : queue_inv deep_first_deps ∅ ∅ building ∧ depth_ok building.
Proof.
  pose proof (dequeue_cases deep_first_deps ∅ ∅ prepared
                (proj1 prepared_ok) (proj2 prepared_ok)) as H.
  unfold building. destruct (dequeue prepared) as [[[[[fr k] v]|] q']|[]|]; [| |done].
  - destruct H as (ds & _ & _ & _ & _ & _ & ? & ? & _). by split.
  - destruct H as [-> _]. exact prepared_ok.
Qed.

Lemma finish_spec_witness :
  ∃ q', finish 1 Dirty building = Ok q' ∧ 2 ∈ dirty q' ∧ 3 ∉ dirty q'.
Proof.
  pose proof (finish_spec deep_first_deps ∅ ∅ building 1 Dirty
                (proj1 building_ok) (proj2 building_ok)) as H.
  destruct (decide (1 ∈ pending building)) as [_|Hn];
    [|exfalso; apply Hn; apply (bool_decide_unpack _); vm_compute; exact I].
  destruct H as (q' & Hf & Hinv & _). exists q'. split; [exact Hf|].
  rewrite !(qi_dirty _ _ _ _ Hinv). split.
  - right. exists (list_to_set [1]), 1.
    split_and!; [reflexivity|apply (bool_decide_unpack _); vm_compute; exact I|reflexivity].
  - intros [Hc|(ds & d & Hds & Hd & HF)]; [by apply not_elem_of_empty in Hc|].
    assert (H3 : deep_first_deps !! 3 = Some ∅) by reflexivity.
    rewrite H3 in Hds. injection Hds as <-. by apply not_elem_of_empty in Hd.
Defined.

Lemma deep_first_closed : closed deep_first_deps.
Proof.
  intros k ds d Hk Hd. unfold deep_first_deps in *.
  repeat (apply lookup_insert_Some in Hk as [[<- <-]|[_ Hk]];
    [rewrite !dom_insert, dom_empty; revert Hd; set_solver +|]).
  by rewrite lookup_empty in Hk.
Qed.

Lemma run_complete_witness :
  nsteps qstep 1 (prepared, ∅) (building, ∅) ∧ 1 ≤ work prepared ∧
  ((∃ st', qstep (building, ∅) st') ∨
   (is_empty building = true ∧ dom (∅ : gmap nat Freshness) = dom deep_first_deps)).
Proof.
  assert (Hrun : nsteps qstep 1 (prepared, ∅) (building, ∅)).
  { apply nsteps_once. apply (step_dequeue _ _ _ (Fresh, 1, tt)).
    vm_compute. reflexivity. }
  split; [exact Hrun|].
  exact (run_complete deep_first_deps ∅ prepared 1 (building, ∅)
           (proj1 prepared_ok) (proj2 prepared_ok) deep_first_closed Hrun).
Defined.
End deep_first.
