(* ===== verification/Utf8.v ===== *)
(** Text functions of the Rust standard library that depend on the encoding:
    validity of UTF-8, and white space as Unicode defines it. *)
From S2P Require Import Prelude Str.

Local Open Scope string_scope.

(** [str::from_utf8] *)
Definition byte_in (a b : nat) (c : ascii) : bool :=
  ((a <=? nat_of_ascii c) && (nat_of_ascii c <=? b))%nat.
Definition cont : ascii → bool := byte_in 128 191.
(** What the second byte of a sequence of three, or of four, may be. *)
Definition second3 (c d : ascii) : bool :=
  if byte_in 224 224 c then byte_in 160 191 d
  else if byte_in 237 237 c then byte_in 128 159 d else cont d.
Definition second4 (c d : ascii) : bool :=
  if byte_in 240 240 c then byte_in 144 191 d
  else if byte_in 244 244 c then byte_in 128 143 d else cont d.
Fixpoint valid_utf8 (s : string) : bool :=
  match s with
  | EmptyString => true
  | String c s1 =>
      if byte_in 0 127 c then valid_utf8 s1
      else match s1 with
           | EmptyString => false
           | String d s2 =>
               if byte_in 194 223 c then cont d && valid_utf8 s2
               else match s2 with
                    | EmptyString => false
                    | String e s3 =>
                        if byte_in 224 239 c then second3 c d && cont e && valid_utf8 s3
                        else match s3 with
                             | EmptyString => false
                             | String f s4 =>
                                 byte_in 240 244 c && second4 c d && cont e && cont f && valid_utf8 s4
                             end
                    end
           end
  end.

(** [char::is_whitespace] *)
Definition is_whitespace (c : string) : bool :=
  let n := char_code c in
  existsb (N.eqb n) [9; 10; 11; 12; 13; 32; 133; 160; 5760; 8232; 8233; 8239; 8287; 12288]%N
  || ((8192 <=? n) && (n <=? 8202))%N.

Fixpoint drop_while {A} (p : A → bool) (l : list A) : list A :=
  match l with
  | [] => []
  | x :: l' => if p x then drop_while p l' else l
  end.
Definition of_chars (l : list string) : string := join "" l.
(** [str::trim_right], [str::trim] *)
Definition trim_right (s : string) : string :=
  of_chars (rev (drop_while is_whitespace (rev (chars s)))).
Definition trim (s : string) : string :=
  of_chars (rev (drop_while is_whitespace (rev (drop_while is_whitespace (chars s))))).

(** [split(char::is_whitespace)] without the words that are all white space. *)
Fixpoint split_words (word : list string) (l : list string) : list string :=
  match l with
  | [] => [of_chars (rev word)]
  | c :: l => if is_whitespace c then of_chars (rev word) :: split_words [] l
              else split_words (c :: word) l
  end.
Definition words (s : string) : list string :=
  List.filter (λ w, existsb (λ c, negb (is_whitespace c)) (chars w)) (split_words [] (chars s)).

Example trim_1 : trim "  cargo:a=b 	" = "cargo:a=b" ∧ trim_right " a " = " a" ∧ trim "   " = "".
Proof. split_and!; vm_eq. Qed.
Example words_1 : words " -l  foo -L/x" = ["-l"; "foo"; "-L/x"].
Proof. vm_eq. Qed.
