(* ===== verification/Features.v ===== *)
(** Feature gates, [src/cargo/core/features.rs]: editions, the [cargo-features]
    of a manifest, the [-Z] flags, and the channel test that allows them. *)
From S2P Require Import Prelude Str.

Local Open Scope string_scope.

(** * Editions *)
Inductive Edition := Edition2015 | Edition2018.
#[global] Instance Edition_eq_dec : EqDecision Edition.
Proof. solve_decision. Defined.

Definition edition_display (e : Edition) : string :=
  match e with Edition2015 => "2015" | Edition2018 => "2018" end.

Definition edition_from_str (s : string) : cresult Edition :=
  if String.eqb s "2015" then Ok Edition2015
  else if String.eqb s "2018" then Ok Edition2018
  else Err ("supported edition values are `2015` or `2018`, but `" ++ s ++ "` is unknown").

(** * The channel *)

(** What [channel] and [nightly_features_allowed] read: two environment
    variables, the build's release channel, two thread-local flags. *)
Record Env := mkEnv {
  channel_override : option string;   (* __CARGO_TEST_CHANNEL_OVERRIDE_DO_NOT_USE_THIS *)
  rustc_bootstrap : option string;    (* RUSTC_BOOTSTRAP *)
  release_channel : option string;    (* version().cfg_info *)
  NIGHTLY_FEATURES_ALLOWED : bool;
  ENABLE_NIGHTLY_FEATURES : bool;
}.

Definition channel (env : Env) : string :=
  match channel_override env with
  | Some c => c
  | None =>
      if bool_decide (rustc_bootstrap env = Some "1") then "dev"
      else default "dev" (release_channel env)
  end.

Definition nightly_features_allowed (env : Env) : bool :=
  if ENABLE_NIGHTLY_FEATURES env then true
  else if String.eqb (channel env) "nightly" || String.eqb (channel env) "dev"
       then NIGHTLY_FEATURES_ALLOWED env
       else false.

Definition maybe_allow_nightly_features (env : Env) : Env :=
  mkEnv (channel_override env) (rustc_bootstrap env) (release_channel env)
        true (ENABLE_NIGHTLY_FEATURES env).
Definition enable_nightly_features (env : Env) : Env :=
  mkEnv (channel_override env) (rustc_bootstrap env) (release_channel env)
        (NIGHTLY_FEATURES_ALLOWED env) true.

(** * Manifest features *)
Inductive Status := Stable | Unstable.
#[global] Instance Status_eq_dec : EqDecision Status.
Proof. solve_decision. Defined.

(** The invocation of the [features!] macro: one constructor per field. *)
Inductive Feature :=
| test_dummy_stable | test_dummy_unstable | alternative_registries | edition
| rename_dependency | publish_lockfile | profile_overrides | namespaced_features
| default_run | metabuild.
#[global] Instance Feature_eq_dec : EqDecision Feature.
Proof. solve_decision. Defined.

Definition all_features : list Feature :=
  [test_dummy_stable; test_dummy_unstable; alternative_registries; edition;
   rename_dependency; publish_lockfile; profile_overrides; namespaced_features;
   default_run; metabuild].

Definition stab (f : Feature) : Status :=
  match f with
  | test_dummy_stable | edition | rename_dependency => Stable
  | _ => Unstable
  end.

(** [stringify!($feature)] *)
Definition feature_name (f : Feature) : string :=
  match f with
  | test_dummy_stable => "test_dummy_stable"
  | test_dummy_unstable => "test_dummy_unstable"
  | alternative_registries => "alternative_registries"
  | edition => "edition"
  | rename_dependency => "rename_dependency"
  | publish_lockfile => "publish_lockfile"
  | profile_overrides => "profile_overrides"
  | namespaced_features => "namespaced_features"
  | default_run => "default_run"
  | metabuild => "metabuild"
  end.

(** [struct Features]: [field fs f] is the field the macro declares for [f]. *)
Record Features := mkFeatures {
  field : Feature → bool;
  activated : list string;
}.
Definition features_default : Features := mkFeatures (λ _, false) [].

(** [Feature::is_enabled], through the getter the macro writes. *)
Definition is_enabled (fs : Features) (f : Feature) : bool :=
  bool_decide (stab f = Stable) || field fs f.

(** [Features::status]: which field a name stands for. *)
Definition status (feature : string) : option Feature :=
  if contains_char "_" feature then None
  else let feature := replace_char "-" "_" feature in
       List.find (λ f, String.eqb feature (feature_name f)) all_features.

Definition stable_warning (feature : string) : string :=
  "the cargo feature `" ++ feature ++ "` is now stable and is no longer necessary to be listed in the manifest".

(** [Features::add]; the second component is the caller's [warnings]. *)
Definition add (env : Env) (fs : Features) (feature : string) (warnings : list string)
    : cresult Features * list string :=
  match status feature with
  | None => (Err ("unknown cargo feature `" ++ feature ++ "`"), warnings)
  | Some f =>
      if field fs f then
        (Err ("the cargo feature `" ++ feature ++ "` has already been activated"), warnings)
      else
        let set := mkFeatures (λ g, if decide (g = f) then true else field fs g) (activated fs) in
        match stab f with
        | Stable => (Ok set, (warnings ++ [stable_warning feature])%list)
        | Unstable =>
            if negb (nightly_features_allowed env) then
              (Err ("the cargo feature `" ++ feature ++
                    "` requires a nightly version of Cargo, but this is the `" ++
                    channel env ++ "` channel"), warnings)
            else (Ok set, warnings)
        end
  end.

Fixpoint add_all (env : Env) (fs : Features) (features : list string) (warnings : list string)
    : cresult Features * list string :=
  match features with
  | [] => (Ok fs, warnings)
  | feature :: features =>
      match add env fs feature warnings with
      | (Ok fs, warnings) =>
          add_all env (mkFeatures (field fs) (activated fs ++ [feature])%list) features warnings
      | (Err e, warnings) => (Err e, warnings)
      | (Panic p, warnings) => (Panic p, warnings)
      end
  end.

(** [Features::new] *)
Definition new (env : Env) (features : list string) (warnings : list string)
    : cresult Features * list string :=
  add_all env features_default features warnings.

Definition newline : string := String (ch 10) EmptyString.

(** [Features::require] *)
Definition require (env : Env) (fs : Features) (f : Feature) : cresult unit :=
  if is_enabled fs f then Ok tt
  else
    let feature := replace_char "_" "-" (feature_name f) in
    let gate := "`cargo-features = [" ++ quote_str ++ feature ++ quote_str ++ "]`" in
    let msg := "feature `" ++ feature ++ "` is required" in
    Err (if nightly_features_allowed env
         then msg ++ newline ++ newline ++ "consider adding " ++ gate ++ " to the manifest"
         else msg ++ newline ++ newline ++
              "this Cargo does not support nightly features, but if you" ++ newline ++
              "switch to nightly channel you can add" ++ newline ++
              gate ++ " to enable this feature").

(** * [-Z] flags *)
Record CliUnstable := mkCli {
  print_im_a_teapot : bool;
  unstable_options : bool;
  offline : bool;
  no_index_update : bool;
  avoid_dev_deps : bool;
  minimal_versions : bool;
  package_features : bool;
  advanced_env : bool;
  config_profile : bool;
}.
Definition cli_default : CliUnstable :=
  mkCli false false false false false false false false false.

Definition parse_bool (value : option string) : cresult bool :=
  match value with
  | None => Ok true
  | Some s => if String.eqb s "yes" then Ok true
              else if String.eqb s "no" then Ok false
              else Err ("expected `no` or `yes`, found: " ++ s)
  end.

(** [CliUnstable::add] *)
Definition cli_add (c : CliUnstable) (flag : string) : cresult CliUnstable :=
  let '(k, v) := split_once "=" flag in
  let '(mkCli tp uo off niu add mv pf ae cp) := c in
  if String.eqb k "print-im-a-teapot" then
    b ← parse_bool v; Ok (mkCli b uo off niu add mv pf ae cp)
  else if String.eqb k "unstable-options" then Ok (mkCli tp true off niu add mv pf ae cp)
  else if String.eqb k "offline" then Ok (mkCli tp uo true niu add mv pf ae cp)
  else if String.eqb k "no-index-update" then Ok (mkCli tp uo off true add mv pf ae cp)
  else if String.eqb k "avoid-dev-deps" then Ok (mkCli tp uo off niu true mv pf ae cp)
  else if String.eqb k "minimal-versions" then Ok (mkCli tp uo off niu add true pf ae cp)
  else if String.eqb k "package-features" then Ok (mkCli tp uo off niu add mv true ae cp)
  else if String.eqb k "advanced-env" then Ok (mkCli tp uo off niu add mv pf true cp)
  else if String.eqb k "config-profile" then Ok (mkCli tp uo off niu add mv pf ae true)
  else Err ("unknown `-Z` flag specified: " ++ k).

(** [CliUnstable::parse] *)
Definition cli_parse (env : Env) (c : CliUnstable) (flags : list string) : cresult CliUnstable :=
  if negb (bool_decide (flags = [])) && negb (nightly_features_allowed env) then
    Err "the `-Z` flag is only accepted on the nightly channel of Cargo"
  else foldM cli_add c flags.

(** * Names in the manifest *)
Definition manifest_name (f : Feature) : string := replace_char "_" "-" (feature_name f).

Lemma elem_of_all_features f : f ∈ all_features.
Proof. destruct f; apply (bool_decide_unpack _); vm_compute; exact I. Qed.

Lemma replace_back s :
  contains_char "_" s = false → replace_char "_" "-" (replace_char "-" "_" s) = s.
Proof.
  induction s as [|c s IH]; [done|]. cbn [contains_char replace_char].
  intros [Hc Hs]%orb_false_iff. rewrite IH by done. f_equal.
  apply Ascii.eqb_neq in Hc. destruct (Ascii.eqb_spec "-" c) as [<-|Hne]; [done|].
  by destruct (Ascii.eqb_spec "_" c).
Qed.

(** A field is reached by its manifest name, dashes for underscores, only. *)
Lemma status_Some s f : status s = Some f ↔ s = manifest_name f.
Proof.
  split; [|intros ->; by destruct f].
  unfold status. destruct (contains_char "_" s) eqn:Hu; [done|].
  intros Hf. apply List.find_some in Hf as [_ Hf%String.eqb_eq].
  unfold manifest_name. rewrite <-Hf. by rewrite replace_back.
Qed.

Lemma manifest_name_inj f g : manifest_name f = manifest_name g → f = g.
Proof.
  intros H. assert (Hs : status (manifest_name g) = Some f) by (by apply status_Some).
  assert (Hg : status (manifest_name g) = Some g) by (by apply status_Some). congruence.
Qed.

(** The lists of [cargo-features] that are accepted. *)
Definition acceptable (env : Env) (l : list string) (fs : list Feature) : Prop :=
  l = map manifest_name fs ∧ NoDup fs ∧
  ∀ f, f ∈ fs → stab f = Unstable → nightly_features_allowed env = true.

Lemma add_spec env st seen s w :
  (∀ f, field st f = true ↔ f ∈ seen) →
  match add env st s w with
  | (Ok st', w') => ∃ f, s = manifest_name f ∧ (f ∉ seen) ∧
      (stab f = Unstable → nightly_features_allowed env = true) ∧
      (∀ g, field st' g = true ↔ g ∈ f :: seen) ∧ activated st' = activated st ∧
      w' = (w ++ if decide (stab f = Stable) then [stable_warning s] else [])%list
  | (Err _, w') => w' = w ∧ ∀ f, s = manifest_name f →
      f ∈ seen ∨ (stab f = Unstable ∧ nightly_features_allowed env = false)
  | (Panic _, _) => False
  end.
Proof.
  intros Hseen. unfold add. destruct (status s) as [f|] eqn:Hs.
  2: { split; [done|]. intros f ->. assert (status (manifest_name f) = Some f)
         by (by apply status_Some). congruence. }
  apply status_Some in Hs as ->.
  assert (Hinj : ∀ g, manifest_name f = manifest_name g → g = f).
  { intros g Hg. by apply manifest_name_inj in Hg. }
  destruct (field st f) eqn:Hf.
  { split; [done|]. intros g ->%Hinj. left. by apply Hseen. }
  assert (Hnin : f ∉ seen) by (rewrite <-Hseen; congruence).
  assert (Hset : ∀ g, (if decide (g = f) then true else field st g) = true ↔ g ∈ f :: seen).
  { intros g. rewrite elem_of_cons, <-Hseen. case_decide; naive_solver. }
  destruct (stab f) eqn:Hst.
  - exists f. rewrite decide_True by done. split_and!; done || (by rewrite Hst).
  - destruct (nightly_features_allowed env) eqn:Hn; simpl.
    + exists f. rewrite decide_False by congruence. rewrite app_nil_r.
      split_and!; done.
    + split; [done|]. intros g ->%Hinj. by right.
Qed.

Lemma add_all_spec env st seen l w :
  (∀ f, field st f = true ↔ f ∈ seen) →
  match add_all env st l w with
  | (Ok st', w') => ∃ fs, acceptable env l fs ∧ (∀ f, f ∈ fs → f ∉ seen) ∧
      (∀ f, field st' f = true ↔ f ∈ (fs ++ seen)%list) ∧
      activated st' = (activated st ++ l)%list ∧
      w' = (w ++ map (λ f, stable_warning (manifest_name f))
                     (filter (λ f, stab f = Stable) fs))%list
  | (Err _, _) => ∀ fs, acceptable env l fs → ∃ f, f ∈ fs ∧ f ∈ seen
  | (Panic _, _) => False
  end.
Proof.
  revert st seen w. induction l as [|s l IH]; intros st seen w Hseen; simpl.
  - exists []. split_and!; try done.
    + split_and!; [done|constructor|]. intros f Hf. by apply elem_of_nil in Hf.
    + intros f Hf. by apply elem_of_nil in Hf.
    + by rewrite app_nil_r.
    + by rewrite app_nil_r.
  - pose proof (add_spec env st seen s w Hseen) as Ha.
    destruct (add env st s w) as [[st1|e|p] w1]; [| |done].
    + destruct Ha as (f & -> & Hf & Hnf & Hfield & Hact & Hw).
      specialize (IH (mkFeatures (field st1) (activated st1 ++ [manifest_name f])) (f :: seen) w1 Hfield).
      destruct (add_all env _ l w1) as [[st2|e|p] w2]; [| |done].
      * destruct IH as (fs & (-> & Hnd & Hun) & Hdis & Hfl & Hact2 & Hw2).
        exists (f :: fs). split_and!.
        -- split_and!; [done| |].
           ++ constructor; [|done]. intros Hin. apply (Hdis f Hin). constructor.
           ++ intros g [->|Hg]%elem_of_cons; [done|by apply Hun].
        -- intros g [->|Hg]%elem_of_cons; [done|]. specialize (Hdis g Hg).
           rewrite not_elem_of_cons in Hdis. tauto.
        -- intros g. rewrite Hfl. rewrite !elem_of_app, !elem_of_cons. tauto.
        -- rewrite Hact2. simpl. by rewrite Hact, <-app_assoc.
        -- rewrite Hw2, Hw. rewrite filter_cons, <-app_assoc. by case_decide.
      * intros [|g fs] (Heq & Hnd & Hun); [done|]. simpl in Heq. simplify_eq.
        match goal with H : manifest_name _ = manifest_name _ |- _ =>
          apply manifest_name_inj in H; subst g end.
        apply NoDup_cons in Hnd as [Hgf Hnd].
        destruct (IH fs) as (h & Hh & Hhs).
        { split_and!; [done..|]. intros h Hh. apply Hun. by constructor. }
        apply elem_of_cons in Hhs as [->|Hhs]; [done|].
        exists h. split; [by constructor|done].
    + intros [|g fs] (Heq & Hnd & Hun); [done|]. simpl in Heq. simplify_eq.
      destruct Ha as [_ Ha]. destruct (Ha g eq_refl) as [Hg|[Hg Hn]].
      * exists g. split; [constructor|done].
      * rewrite (Hun g ltac:(constructor) Hg) in Hn. done.
Qed.

(** [Features::new] accepts a list of [cargo-features] exactly when every
    entry is the dashed name of a known feature, none is repeated, and unstable
    ones occur only where nightly features are allowed.  It then switches on
    exactly the listed features, records the list, and warns once, in order,
    for each one that is stable already. *)
Theorem features_new_spec env l w :
  match new env l w with
  | (Ok st, w') => ∃ fs, acceptable env l fs ∧
      (∀ f, field st f = true ↔ f ∈ fs) ∧ activated st = l ∧
      w' = (w ++ map (λ f, stable_warning (manifest_name f))
                     (filter (λ f, stab f = Stable) fs))%list
  | (Err _, _) => ¬ ∃ fs, acceptable env l fs
  | (Panic _, _) => False
  end.
Proof.
  pose proof (add_all_spec env features_default [] l w) as H. unfold new.
  destruct (add_all env features_default l w) as [[st|e|p] w'].
  - destruct H as (fs & Hacc & _ & Hfl & Hact & Hw).
    { intros f. simpl. split; [done|]. intros Hf. by apply elem_of_nil in Hf. }
    exists fs. split_and!; try done. intros f. by rewrite Hfl, app_nil_r.
  - intros [fs Hacc]. destruct (H ltac:(intros f; split; [done|intros Hf; by apply elem_of_nil in Hf])
      fs Hacc) as (f & _ & Hf). by apply elem_of_nil in Hf.
  - apply H. intros f; split; [done|intros Hf; by apply elem_of_nil in Hf].
Qed.

(** A gate built from an accepted list opens for a feature exactly when the
    feature is stable or listed; otherwise [require] returns an error. *)
Theorem require_spec env l w st w' f (Hnew : new env l w = (Ok st, w')) :
  (require env st f = Ok tt ↔ stab f = Stable ∨ manifest_name f ∈ l) ∧
  is_panic (require env st f) = false.
Proof.
  pose proof (add_all_spec env features_default [] l w) as H. unfold new in Hnew.
  rewrite Hnew in H. destruct H as (fs & (Hl & _) & _ & Hfl & _).
  { intros g. simpl. split; [done|]. intros Hf. by apply elem_of_nil in Hf. }
  assert (Hin : field st f = true ↔ manifest_name f ∈ l).
  { rewrite Hfl, app_nil_r, Hl. rewrite (list_elem_of_fmap manifest_name). split.
    - intros Hf. eauto.
    - intros (g & Hg & ?). by rewrite (manifest_name_inj _ _ Hg). }
  unfold require, is_enabled.
  assert (Hen : bool_decide (stab f = Stable) || field st f = true
                ↔ stab f = Stable ∨ manifest_name f ∈ l).
  { by rewrite orb_true_iff, bool_decide_eq_true, Hin. }
  destruct (bool_decide (stab f = Stable) || field st f); [by rewrite <-Hen|].
  split; [|done]. split; [done|]. intros Hc. by apply Hen in Hc.
Qed.

Lemma require_spec_witness :
  let env := mkEnv None None (Some "nightly") true false in
  ∃ st w', new env ["edition"; "default-run"] [] = (Ok st, w') ∧
    require env st default_run = Ok tt ∧ require env st metabuild ≠ Ok tt.
Proof.
  intros env.
  assert (Hex : ∃ st w', new env ["edition"; "default-run"] [] = (Ok st, w'))
    by (eexists _, _; vm_compute; reflexivity).
  destruct Hex as (st & w' & Hnew). exists st, w'. split; [exact Hnew|]. split.
  - apply (require_spec env _ _ st w' default_run Hnew). right. vm_compute.
    right. left.
  - intros H. apply (require_spec env _ _ st w' metabuild Hnew) in H.
    destruct H as [H|H]; [discriminate|]. revert H. apply (bool_decide_unpack _).
    vm_compute. exact I.
Defined.
