(* ===== verification/ConfigValue.v ===== *)
(** Configuration values, [ConfigValue] of [src/cargo/util/config.rs]: the
    conversion from and to TOML, and [merge], which combines the value of a
    nearer file with the value of a farther one. *)
From S2P Require Import Prelude Str Path.

Local Open Scope string_scope.

(** * [toml::Value]
    A float and a date are kept as their text: Cargo never looks inside. *)
Inductive toml :=
| TString (s : string)
| TInteger (i : Z)
| TFloat (text : string)
| TBoolean (b : bool)
| TDatetime (text : string)
| TArray (l : list toml)
| TTable (t : gmap string toml).

Definition type_str (v : toml) : string :=
  match v with
  | TString _ => "string"
  | TInteger _ => "integer"
  | TFloat _ => "float"
  | TBoolean _ => "boolean"
  | TDatetime _ => "datetime"
  | TArray _ => "array"
  | TTable _ => "table"
  end.

(** The [toml] crate: its parser, the parser that does not ask for a newline
    after a table header, and its printer. *)
Class TomlLib := {
  toml_from_str : string → res string toml;
  toml_from_str_legacy : string → res string toml;
  toml_to_string : toml → string;
}.

(** * [ConfigValue] *)
Inductive CV :=
| CInteger (i : Z) (p : path)
| CString (s : string) (p : path)
| CList (l : list (string * path)) (p : path)
| CTable (t : gmap string CV) (p : path)
| CBoolean (b : bool) (p : path).

Definition desc (v : CV) : string :=
  match v with
  | CTable _ _ => "table"
  | CList _ _ => "array"
  | CString _ _ => "string"
  | CBoolean _ _ => "boolean"
  | CInteger _ _ => "integer"
  end.

Definition definition_path (v : CV) : path :=
  match v with
  | CBoolean _ p | CInteger _ p | CString _ p | CList _ p | CTable _ p => p
  end.

(** [ConfigValue::expected] *)
Definition cv_expected {A} (v : CV) (wanted key : string) : cresult A :=
  Err ("expected a " ++ wanted ++ ", but found a " ++ desc v ++ " for `" ++ key
       ++ "` in " ++ definition_path v).

Definition cv_i64 (v : CV) (key : string) : cresult (Z * path) :=
  match v with CInteger i p => Ok (i, p) | _ => cv_expected v "integer" key end.
Definition cv_string (v : CV) (key : string) : cresult (string * path) :=
  match v with CString s p => Ok (s, p) | _ => cv_expected v "string" key end.
Definition cv_table (v : CV) (key : string) : cresult (gmap string CV * path) :=
  match v with CTable t p => Ok (t, p) | _ => cv_expected v "table" key end.
Definition cv_list (v : CV) (key : string) : cresult (list (string * path)) :=
  match v with CList l _ => Ok l | _ => cv_expected v "list" key end.
Definition cv_boolean (v : CV) (key : string) : cresult (bool * path) :=
  match v with CBoolean b p => Ok (b, p) | _ => cv_expected v "bool" key end.

(** [ConfigValue::from_toml] *)
Definition list_item (p : path) (v : toml) : cresult (string * path) :=
  match v with
  | TString val => Ok (val, p)
  | v => Err ("expected string but found " ++ type_str v ++ " in list")
  end.

Fixpoint from_toml (p : path) (v : toml) : cresult CV :=
  match v with
  | TString val => Ok (CString val p)
  | TBoolean b => Ok (CBoolean b p)
  | TInteger i => Ok (CInteger i p)
  | TArray val =>
      l ← foldM (λ out v, x ← list_item p v; Ok (out ++ [x])%list) [] val;
      Ok (CList l p)
  | TTable val =>
      let converted := from_toml p <$> val in
      t ← foldM (λ out '(key, value),
                   v ← chain_err ("failed to parse key `" ++ key ++ "`") value;
                   Ok (<[key := v]> out)) ∅ (btree_iter converted);
      Ok (CTable t p)
  | v => Err ("found TOML configuration value of unknown type `" ++ type_str v ++ "`")
  end.

(** [ConfigValue::into_toml] *)
Fixpoint into_toml (v : CV) : toml :=
  match v with
  | CBoolean b _ => TBoolean b
  | CString s _ => TString s
  | CInteger i _ => TInteger i
  | CList l _ => TArray ((λ x, TString x.1) <$> l)
  | CTable t _ => TTable (into_toml <$> t)
  end.

(** [ConfigValue::merge] *)
Definition merge_context (key : string) (file1 file2 : path) : string :=
  "failed to merge key `" ++ key ++ "` between files:" ++ String (ch 10) ("  file 1: "
  ++ file1 ++ String (ch 10) ("  file 2: " ++ file2)).
Definition clash {A} (expected found : CV) : cresult A :=
  Err ("expected " ++ desc expected ++ ", but found " ++ desc found).

Section merge.
Context `{RS : RustStd}.

Fixpoint merge (self from : CV) {struct from} : cresult CV :=
  match self, from with
  | CList old p, CList new _ => Ok (CList (old ++ new)%list p)
  | CTable old p, CTable new _ =>
      let new := (λ value, (value, λ entry, merge entry value)) <$> new in
      t ← foldM (λ old '(key, (value, merge_value)),
                   match old !! key with
                   | Some entry =>
                       e ← chain_err
                             (merge_context key (definition_path entry) (definition_path value))
                             (merge_value entry);
                       Ok (<[key := e]> old)
                   | None => Ok (<[key := value]> old)
                   end) old (hm_iter new);
      Ok (CTable t p)
  | CList _ _, _ | CTable _ _, _ | _, CList _ _ | _, CTable _ _ => clash self from
  | _, _ => Ok self
  end.

End merge.

(** * Induction on values: the values of a table are smaller. *)
Fixpoint cv_size (v : CV) : nat :=
  match v with
  | CTable t _ => S (map_fold (λ _ n m, n + m)%nat 0 (cv_size <$> t))
  | _ => 1
  end.

Lemma cv_size_lookup (t : gmap string CV) p k v :
  t !! k = Some v → (cv_size v < cv_size (CTable t p))%nat.
Proof.
  intros Hk. simpl. apply Nat.lt_succ_r.
  assert (Hk' : (cv_size <$> t) !! k = Some (cv_size v)) by (by rewrite lookup_fmap, Hk).
  rewrite <-(insert_delete_id _ _ _ Hk'), map_fold_insert_L; [lia|intros; lia|].
  by rewrite lookup_delete_eq.
Qed.

Lemma CV_table_ind (P : CV → Prop) :
  (∀ v, (∀ t p, v ≠ CTable t p) → P v) →
  (∀ t p, (∀ k v, t !! k = Some v → P v) → P (CTable t p)) → ∀ v, P v.
Proof.
  intros Hleaf Htable v. induction (well_founded_ltof _ cv_size v) as [v _ IH].
  destruct v as [| | |t p|]; try (by apply Hleaf).
  apply Htable. intros k v Hk. apply IH. by eapply cv_size_lookup.
Qed.

(** * Reading a value along a path of keys *)
Fixpoint get (v : CV) (ks : list string) : option CV :=
  match ks with
  | [] => Some v
  | k :: ks => match v with CTable t _ => match t !! k with Some v => get v ks | None => None end
                          | _ => None end
  end.

(** What a value is apart from the contents of tables. *)
Definition top (v : CV) : CV := match v with CTable _ p => CTable ∅ p | v => v end.
Inductive class := Scalar | List | Table.
#[global] Instance class_eq_dec : EqDecision class.
Proof. solve_decision. Defined.
Definition class_of (v : CV) : class :=
  match v with CTable _ _ => Table | CList _ _ => List | _ => Scalar end.

(** Values are determined by what is found along each path. *)
Lemma get_ext a b : (∀ ks, top <$> get a ks = top <$> get b ks) → a = b.
Proof.
  revert b. induction a as [a Ha|t p IH] using CV_table_ind; intros b Hab.
  - specialize (Hab []). destruct a, b; simplify_eq/=; try done; exfalso; by eapply Ha.
  - assert (∃ u, b = CTable u p) as [u ->].
    { specialize (Hab []). destruct b; simplify_eq/=. eauto. }
    f_equal. apply map_eq. intros k. pose proof (λ ks, Hab (k :: ks)) as Hk. simpl in Hk.
    destruct (t !! k) as [v|] eqn:Ht, (u !! k) as [w|] eqn:Hu; try done.
    + f_equal. by eapply IH.
    + by specialize (Hk []).
    + by specialize (Hk []).
Qed.

(** [merge] keeps what the nearer file says and appends lists. *)
Definition join_top (a b : CV) : CV :=
  match a, b with
  | CList old p, CList new _ => CList (old ++ new)%list p
  | _, _ => top a
  end.
Definition overlay (a b : option CV) : option CV :=
  match a, b with
  | Some a, Some b => Some (join_top a b)
  | Some a, None => Some (top a)
  | None, b => top <$> b
  end.

(** The two values agree on which paths are tables and which are lists. *)
Definition compatible (a b : CV) : Prop :=
  ∀ ks x y, get a ks = Some x → get b ks = Some y → class_of x = class_of y.

Lemma compatible_lookup t p u q k x y : compatible (CTable t p) (CTable u q) →
  t !! k = Some x → u !! k = Some y → compatible x y.
Proof. intros Hc Ht Hu ks. specialize (Hc (k :: ks)). simpl in Hc. by rewrite Ht, Hu in Hc. Qed.

Section merge_facts.
Context `{RS : RustStd}.

(** The loop over the entries of the farther table. *)
Definition merge_entry (old : gmap string CV) (entry : string * (CV * (CV → cresult CV)))
    : cresult (gmap string CV) :=
  let '(key, (value, merge_value)) := entry in
  match old !! key with
  | Some entry =>
      e ← chain_err (merge_context key (definition_path entry) (definition_path value))
            (merge_value entry);
      Ok (<[key := e]> old)
  | None => Ok (<[key := value]> old)
  end.

Definition mergers (new : gmap string CV) : gmap string (CV * (CV → cresult CV)) :=
  (λ value, (value, λ entry, merge entry value)) <$> new.

Lemma merge_tables old p new q :
  merge (CTable old p) (CTable new q)
  = t ← foldM merge_entry old (hm_iter (mergers new)); Ok (CTable t p).
Proof. done. Qed.

(** What the loop leaves at a key. *)
Definition merged_at (a b : option CV) : cresult (option CV) :=
  match a, b with
  | Some a, Some b => Some <$> merge a b
  | Some a, None => Ok (Some a)
  | None, b => Ok b
  end.

Lemma merge_loop_ok l old t : NoDup l.*1 →
  (∀ k v f, (k, (v, f)) ∈ l → f = λ entry, merge entry v) →
  foldM merge_entry old l = Ok t →
  ∀ k, merged_at (old !! k) (fst <$> (list_to_map l : gmap string (CV * (CV → cresult CV))) !! k)
       = Ok (t !! k).
Proof.
  revert old. induction l as [|[key [value f]] l IH]; intros old Hnd Hf Hl k.
  - simplify_eq/=. by destruct (t !! k).
  - rewrite fmap_cons in Hnd. apply NoDup_cons in Hnd as [Hkey Hnd].
    assert (Hnone : (list_to_map l : gmap string (CV * (CV → cresult CV))) !! key = None)
      by (by apply not_elem_of_list_to_map).
    assert (Hf' : ∀ k v f, (k, (v, f)) ∈ l → f = λ entry, merge entry v)
      by (intros; apply (Hf k0); by right).
    pose proof (Hf key value f ltac:(constructor)) as ->.
    cbn [foldM] in Hl. destruct (merge_entry old _) as [old'| |] eqn:He; try done.
    specialize (IH old' Hnd Hf' Hl k). rewrite list_to_map_cons.
    assert (Hold : old' !! k = if decide (k = key) then old' !! key else old !! k).
    { unfold merge_entry in He. destruct (decide (k = key)) as [->|Hk]; [done|].
      destruct (old !! key) as [entry|]; [destruct (merge entry value)|]; simplify_eq/=;
        by rewrite lookup_insert_ne. }
    destruct (decide (k = key)) as [->|Hk].
    + rewrite Hnone in IH. rewrite lookup_insert_eq. unfold merge_entry in He. simpl in *.
      destruct (old !! key) as [entry|]; simpl;
        [destruct (merge entry value) as [e| |]|]; simplify_eq/=;
        rewrite lookup_insert_eq in IH; simplify_eq/=; congruence.
    + rewrite lookup_insert_ne by done. by rewrite <-Hold.
Qed.
(** The loop fails exactly when some entry does. *)
Lemma merge_loop_total l old : NoDup l.*1 →
  (∀ k v f e, (k, (v, f)) ∈ l → old !! k = Some e → is_panic (f e) = false) →
  is_panic (foldM merge_entry old l) = false ∧
  (is_ok (foldM merge_entry old l) = true ↔
   ∀ k v f e, (k, (v, f)) ∈ l → old !! k = Some e → is_ok (f e) = true).
Proof.
  revert old. induction l as [|[key [value f]] l IH]; intros old Hnd Hp.
  { split; [done|]. split; [|done]. intros _ k v f e Hin. by apply elem_of_nil in Hin. }
  rewrite fmap_cons in Hnd. apply NoDup_cons in Hnd as [Hkey Hnd].
  assert (Hother : ∀ k v g e x, (k, (v, g)) ∈ l → <[key := x]> old !! k = Some e → old !! k = Some e).
  { intros k v g e x Hin. rewrite lookup_insert_ne; [done|]. intros ->. apply Hkey.
    apply list_elem_of_fmap. by exists (k, (v, g)). }
  assert (Hsame : ∀ k v g e x, (k, (v, g)) ∈ l → old !! k = Some e → <[key := x]> old !! k = Some e).
  { intros k v g e x Hin. rewrite lookup_insert_ne; [done|]. intros ->. apply Hkey.
    apply list_elem_of_fmap. by exists (k, (v, g)). }
  assert (Hrest : ∀ x, is_panic (foldM merge_entry (<[key := x]> old) l) = false ∧
    (is_ok (foldM merge_entry (<[key := x]> old) l) = true ↔
     ∀ k v f e, (k, (v, f)) ∈ l → old !! k = Some e → is_ok (f e) = true)).
  { intros x. destruct (IH (<[key := x]> old) Hnd) as [IHp IHo].
    { intros k v g e Hin He. eapply (Hp k v g e); [by right|eauto]. }
    split; [done|]. rewrite IHo. split; intros Hall k v g e Hin He; eapply Hall; eauto. }
  cbn [foldM merge_entry]. destruct (old !! key) as [entry|] eqn:Hold.
  - pose proof (Hp key value f entry ltac:(constructor) Hold) as Hfp.
    destruct (f entry) as [x|e|m] eqn:Hf; simpl in *; [|split; [done|split; [done|]]|done].
    + destruct (Hrest x) as [HP HO]. split; [done|]. rewrite HO. split.
      * intros Hall k v g e [[= -> -> ->]|Hin]%elem_of_cons He; [by simplify_eq; rewrite Hf|eauto].
      * intros Hall k v g e Hin. apply (Hall k v g e). by right.
    + intros Hall. specialize (Hall key value f entry ltac:(constructor) Hold). by rewrite Hf in Hall.
  - destruct (Hrest value) as [HP HO]. split; [done|]. rewrite HO. split.
    + intros Hall k v g e [[= -> -> ->]|Hin]%elem_of_cons He; [by simplify_eq|eauto].
    + intros Hall k v g e Hin. apply (Hall k v g e). by right.
Qed.

Lemma elem_of_mergers new k v f : (k, (v, f)) ∈ hm_iter (mergers new) ↔
  new !! k = Some v ∧ f = λ entry, merge entry v.
Proof.
  rewrite elem_of_hm_iter. unfold mergers. rewrite lookup_fmap.
  destruct (new !! k); simpl; split; [by intros [= -> ->]|by intros [[= ->] ->]|done|by intros [? _]].
Qed.

Lemma list_to_map_mergers new k :
  fst <$> (list_to_map (hm_iter (mergers new)) : gmap string (CV * (CV → cresult CV))) !! k = new !! k.
Proof.
  destruct (list_to_map (hm_iter (mergers new)) !! k) as [[v f]|] eqn:Hk.
  - apply elem_of_list_to_map_2, elem_of_mergers in Hk as [-> _]. done.
  - apply not_elem_of_list_to_map_2 in Hk. destruct (new !! k) as [v|] eqn:Hn; [|done].
    destruct Hk. apply list_elem_of_fmap. exists (k, (v, λ entry, merge entry v)).
    split; [done|]. by apply elem_of_mergers.
Qed.

Lemma merge_tables_lookup old p new q c : merge (CTable old p) (CTable new q) = Ok c →
  ∃ t, c = CTable t p ∧ ∀ k, merged_at (old !! k) (new !! k) = Ok (t !! k).
Proof.
  rewrite merge_tables. intros (t & Ht & [= <-])%bind_Ok_inv. exists t. split; [done|]. intros k.
  rewrite <-(list_to_map_mergers new). eapply merge_loop_ok; [apply NoDup_hm_iter_fst| |done].
  by intros ??? [_ ->]%elem_of_mergers.
Qed.

Lemma merge_no_panic a b : is_panic (merge a b) = false.
Proof.
  revert a. induction b as [b Hb|new q IH] using CV_table_ind; intros a.
  - destruct a, b; try done. exfalso; by eapply Hb.
  - destruct a as [| | |old p|]; try done. rewrite merge_tables.
    destruct (merge_loop_total (hm_iter (mergers new)) old) as [Hp _].
    { apply NoDup_hm_iter_fst. } { intros k v f e [Hk ->]%elem_of_mergers _. by eapply IH. }
    by destruct (foldM _ _ _).
Qed.

Lemma merge_ok_compatible a b : is_ok (merge a b) = true ↔ compatible a b.
Proof.
  revert a. induction b as [b Hb|new q IH] using CV_table_ind; intros a.
  - split.
    + intros Hm [|k ks] x y; [intros [= <-] [= <-]; destruct a, b; try done; exfalso; by eapply Hb|].
      intros _. destruct b; try done. exfalso; by eapply Hb.
    + intros Hc. specialize (Hc [] a b eq_refl eq_refl).
      destruct a, b; try done; exfalso; by eapply Hb.
  - destruct a as [| | |old p|];
      try (split; [done|intros Hc; by specialize (Hc [] _ _ eq_refl eq_refl)]).
    rewrite merge_tables.
    destruct (merge_loop_total (hm_iter (mergers new)) old) as [_ Ho].
    { apply NoDup_hm_iter_fst. } { intros k v f e [_ ->]%elem_of_mergers _. apply merge_no_panic. }
    transitivity (is_ok (foldM merge_entry old (hm_iter (mergers new))) = true);
      [by destruct (foldM _ _ _)|]. rewrite Ho. split.
    + intros Hall [|k ks] x y; [by intros [= <-] [= <-]|]. simpl.
      destruct (old !! k) as [e|] eqn:He; [|done]. destruct (new !! k) as [v|] eqn:Hv; [|done].
      apply (IH k v Hv e), (Hall k v (λ entry, merge entry v)); [by apply elem_of_mergers|done].
    + intros Hc k v f e [Hk ->]%elem_of_mergers He. apply (IH k v Hk e). by eapply compatible_lookup.
Qed.

Lemma merge_get a b c : merge a b = Ok c →
  ∀ ks, top <$> get c ks = overlay (get a ks) (get b ks).
Proof.
  revert a c. induction b as [b Hb|new q IH] using CV_table_ind; intros a c Hm ks.
  - assert (Hg : ∀ k ks, get b (k :: ks) = None) by (intros; destruct b; try done; exfalso; by eapply Hb).
    destruct ks as [|k ks]; [|rewrite Hg]; destruct a, b; simplify_eq/=; try done; exfalso; by eapply Hb.
  - destruct a as [| | |old p|]; try done.
    apply merge_tables_lookup in Hm as (t & -> & Ht). destruct ks as [|k ks]; [done|]. simpl.
    specialize (Ht k). destruct (old !! k) as [x|], (new !! k) as [y|] eqn:Hy; simpl in Ht.
    + destruct (merge x y) as [z| |] eqn:Hz; try done. injection Ht as <-. by eapply IH.
    + injection Ht as <-. by destruct (get x ks).
    + by injection Ht as <-.
    + by injection Ht as <-.
Qed.

(** Merging two configuration values never panics; it succeeds exactly when they agree on which
    paths are tables and which are lists, and then every path of keys leads to the nearer value, to
    the farther one where there is no nearer, and for lists to the nearer followed by the farther,
    whatever the order in which the entries of the hash maps are visited. *)
Theorem merge_spec a b :
  is_panic (merge a b) = false ∧
  (is_ok (merge a b) = true ↔ compatible a b) ∧
  (∀ c, merge a b = Ok c ↔
     compatible a b ∧ ∀ ks, top <$> get c ks = overlay (get a ks) (get b ks)).
Proof.
  split; [apply merge_no_panic|]. split; [apply merge_ok_compatible|]. intros c. split.
  - intros Hm. split; [|by apply merge_get]. apply merge_ok_compatible. by rewrite Hm.
  - intros [Hc Hg]. apply merge_ok_compatible in Hc. destruct (merge a b) as [d| |] eqn:Hm; try done.
    f_equal. apply get_ext. intros ks. rewrite Hg. by apply merge_get.
Qed.
End merge_facts.

(** * TOML conversion *)

(** [collect::<CargoResult<HashMap<_, _>>>] *)
Lemma foldM_collect_map {A B} (g : string → A → cresult B) l (acc t : gmap string B) :
  NoDup l.*1 →
  foldM (λ out '(k, v), x ← g k v; Ok (<[k := x]> out)) acc l = Ok t ↔
  ∀ k, match (list_to_map l : gmap string A) !! k with
       | Some v => Some <$> g k v = Ok (t !! k)
       | None => t !! k = acc !! k
       end.
Proof.
  revert acc. induction l as [|[key v] l IH]; intros acc Hnd.
  - simpl. split; [by intros [= ->]|]. intros Ht. f_equal. apply map_eq. intros k. by rewrite Ht.
  - rewrite fmap_cons in Hnd. apply NoDup_cons in Hnd as [Hkey Hnd].
    apply (not_elem_of_list_to_map (M:=gmap string)) in Hkey. rewrite list_to_map_cons.
    cbn [fst] in Hkey.
    cbn [foldM]. destruct (g key v) as [x| |] eqn:Hx; simpl.
    + rewrite IH by done. split; intros Ht k; specialize (Ht k).
      * destruct (decide (k = key)) as [->|Hk].
        -- rewrite lookup_insert_eq. rewrite Hkey, lookup_insert_eq in Ht. by rewrite Hx, Ht.
        -- rewrite lookup_insert_ne by done. by rewrite lookup_insert_ne in Ht.
      * destruct (decide (k = key)) as [->|Hk].
        -- rewrite Hkey, lookup_insert_eq. rewrite lookup_insert_eq, Hx in Ht. by injection Ht.
        -- rewrite (lookup_insert_ne acc) by done. by rewrite lookup_insert_ne in Ht.
    + split; [done|]. intros Ht. specialize (Ht key). by rewrite lookup_insert_eq, Hx in Ht.
    + split; [done|]. intros Ht. specialize (Ht key). by rewrite lookup_insert_eq, Hx in Ht.
Qed.

Lemma lookup_btree_list {A} (m : gmap string A) k :
  (list_to_map (btree_iter m) : gmap string A) !! k = m !! k.
Proof.
  destruct (m !! k) as [x|] eqn:Hk.
  - apply elem_of_list_to_map; [apply NoDup_btree_iter|by apply elem_of_btree_iter].
  - apply not_elem_of_list_to_map. intros ([k' x] & -> & Hin)%list_elem_of_fmap.
    apply elem_of_btree_iter in Hin. cbn in Hk. congruence.
Qed.

Fixpoint toml_size (v : toml) : nat :=
  match v with
  | TTable t => S (map_fold (λ _ n m, n + m)%nat 0 (toml_size <$> t))
  | _ => 1
  end.

Lemma toml_size_lookup (t : gmap string toml) k v :
  t !! k = Some v → (toml_size v < toml_size (TTable t))%nat.
Proof.
  intros Hk. simpl. apply Nat.lt_succ_r.
  assert (Hk' : (toml_size <$> t) !! k = Some (toml_size v)) by (by rewrite lookup_fmap, Hk).
  rewrite <-(insert_delete_id _ _ _ Hk'), map_fold_insert_L; [lia|intros; lia|].
  by rewrite lookup_delete_eq.
Qed.

Lemma toml_table_ind (P : toml → Prop) :
  (∀ v, (∀ t, v ≠ TTable t) → P v) →
  (∀ t, (∀ k v, t !! k = Some v → P v) → P (TTable t)) → ∀ v, P v.
Proof.
  intros Hleaf Htable v. induction (well_founded_ltof _ toml_size v) as [v _ IH].
  destruct v as [| | | | | |t]; try (by apply Hleaf).
  apply Htable. intros k v Hk. apply IH. by apply toml_size_lookup in Hk.
Qed.

Lemma from_toml_TTable p (val : gmap string toml) :
  from_toml p (TTable val)
  = t ← foldM (λ (out : gmap string CV) '(key, value),
                 v ← chain_err ("failed to parse key `" ++ key ++ "`") value;
                 Ok (<[key := v]> out)) ∅ (btree_iter (from_toml p <$> val));
    Ok (CTable t p).
Proof. done. Qed.

(** A table converts when each of its values does. *)
Lemma from_toml_table p (val : gmap string toml) cv :
  from_toml p (TTable val) = Ok cv ↔
  ∃ t, cv = CTable t p ∧ ∀ k, match val !! k with
                              | Some v => ∃ x, from_toml p v = Ok x ∧ t !! k = Some x
                              | None => t !! k = None
                              end.
Proof.
  rewrite from_toml_TTable. set (l := btree_iter (from_toml p <$> val)).
  assert (Hl : ∀ t : gmap string CV, foldM (λ out '(key, value),
      v ← chain_err ("failed to parse key `" ++ key ++ "`") value; Ok (<[key := v]> out)) ∅ l = Ok t ↔
      ∀ k, match val !! k with
           | Some v => ∃ x, from_toml p v = Ok x ∧ t !! k = Some x
           | None => t !! k = None
           end).
  { intros t. rewrite (foldM_collect_map (λ key value, chain_err ("failed to parse key `" ++ key ++ "`") value))
      by apply NoDup_btree_iter.
    apply forall_proper. intros k. unfold l. rewrite lookup_btree_list, lookup_fmap.
    destruct (val !! k) as [v|]; simpl; [|done]. destruct (from_toml p v) as [x| |]; simpl; split;
      [by intros [= <-]; eauto|by intros (? & [= <-] & ->)|done|by intros (? & ? & _)|done|by intros (? & ? & _)]. }
  split.
  - intros (t & Ht & [= <-])%bind_Ok_inv. exists t. split; [done|]. by apply Hl.
  - intros (t & -> & Ht%Hl). by rewrite Ht.
Qed.

(** The value with every definition moved to one file. *)
Fixpoint relocate (p : path) (v : CV) : CV :=
  match v with
  | CInteger i _ => CInteger i p
  | CString s _ => CString s p
  | CList l _ => CList ((λ x, (x.1, p)) <$> l) p
  | CTable t _ => CTable (relocate p <$> t) p
  | CBoolean b _ => CBoolean b p
  end.

Lemma from_toml_strings p l out :
  foldM (λ out v, x ← list_item p v; Ok (out ++ [x])%list) [] l = Ok out →
  (λ x, TString x.1) <$> out = l ∧ (λ x, (x.1, p)) <$> out = out.
Proof.
  intros Hf. pose proof (foldM_collect (list_item p) [] l) as Hc. rewrite Hf in Hc.
  destruct Hc as (new & -> & Hnew). clear Hf. simpl.
  induction Hnew as [|x [s q] l new Hx Hnew [IH1 IH2]]; [done|]. rewrite !fmap_cons, IH1, IH2.
  by destruct x; simplify_eq/=.
Qed.

Lemma from_toml_strings_ok p (l : list (string * path)) acc :
  foldM (λ out v, x ← list_item p v; Ok (out ++ [x])%list) acc ((λ x, TString x.1) <$> l)
  = Ok (acc ++ ((λ x, (x.1, p)) <$> l))%list.
Proof.
  revert acc. induction l as [|x l IH]; intros acc; simpl; [by rewrite app_nil_r|].
  rewrite IH. by rewrite <-app_assoc.
Qed.

(** Reading TOML and writing it back are inverse: what [from_toml] accepts, [into_toml] gives
    back unchanged, and reading what [into_toml] writes gives the same value, every part of it now
    defined by the file that was read. *)
Theorem toml_roundtrip p v cv :
  (from_toml p v = Ok cv → into_toml cv = v ∧ relocate p cv = cv) ∧
  from_toml p (into_toml cv) = Ok (relocate p cv).
Proof.
  split.
  - revert cv. induction v as [v Hv|t IH] using toml_table_ind; intros cv.
    + destruct v; try done; simpl; [by intros [= <-]..| |].
      * intros (out & Hout & [= <-])%bind_Ok_inv. apply from_toml_strings in Hout as [Ho1 Ho2].
        simpl. by rewrite Ho1, Ho2.
      * exfalso; by eapply Hv.
    + intros (u & -> & Hu)%from_toml_table. simpl. split; f_equal; apply map_eq; intros k;
        rewrite lookup_fmap; specialize (Hu k); destruct (t !! k) as [v|] eqn:Ht.
      * destruct Hu as (x & Hx & ->). simpl. f_equal. by eapply IH.
      * by rewrite Hu.
      * destruct Hu as (x & Hx & ->). simpl. f_equal. by eapply IH.
      * by rewrite Hu.
  - induction cv as [cv Hcv|t q IH] using CV_table_ind.
    + destruct cv; try done; simpl; [|exfalso; by eapply Hcv].
      by rewrite from_toml_strings_ok.
    + apply from_toml_table. eexists. split; [done|]. intros k. rewrite !lookup_fmap.
      destruct (t !! k) as [w|] eqn:Hk; simpl; [|done]. exists (relocate p w). split; [|done].
      by eapply IH.
Qed.

(** * Types of configuration values *)

(** A schema gives each key of a table a type; a scalar may be a string, a boolean or a number. *)
Inductive cty := TyScalar | TyList | TyTable (fields : string → option cty).

Fixpoint typed (τ : cty) (v : CV) : Prop :=
  match τ, v with
  | TyScalar, v => class_of v = Scalar
  | TyList, v => class_of v = List
  | TyTable fields, CTable t _ =>
      ∀ k x, t !! k = Some x → match fields k with Some τ => typed τ x | None => False end
  | TyTable _, _ => False
  end.

(** The same as a test. *)
Fixpoint typedb (τ : cty) (v : CV) : bool :=
  match τ, v with
  | TyScalar, v => bool_decide (class_of v = Scalar)
  | TyList, v => bool_decide (class_of v = List)
  | TyTable fields, CTable t _ =>
      forallb (λ e : string * CV, match fields e.1 with Some τ => typedb τ e.2 | None => false end)
        (map_to_list t)
  | TyTable _, _ => false
  end.

Lemma typedb_typed τ v : typedb τ v = true → typed τ v.
Proof.
  revert τ. induction v as [v Hv|t p IH] using CV_table_ind; intros τ.
  - destruct τ, v; simpl; try apply bool_decide_eq_true; try done. exfalso; by eapply Hv.
  - destruct τ as [| |fields]; simpl; [done..|].
    rewrite forallb_forall. intros Hall k x Hk.
    specialize (Hall (k, x)). rewrite <-list_elem_of_In, elem_of_map_to_list in Hall.
    specialize (Hall Hk). simpl in Hall. destruct (fields k); [|done]. by eapply IH.
Qed.

Lemma typed_class τ v : typed τ v →
  class_of v = match τ with TyScalar => Scalar | TyList => List | TyTable _ => Table end.
Proof. by destruct τ, v. Qed.

Lemma typed_compatible τ a b : typed τ a → typed τ b → compatible a b.
Proof.
  intros Ha Hb ks. revert τ a b Ha Hb. induction ks as [|k ks IH]; intros τ a b Ha Hb x y; simpl.
  - intros [= <-] [= <-]. rewrite (typed_class τ a), (typed_class τ b); done.
  - destruct a as [| | |t p|]; try done. destruct b as [| | |u q|]; try done.
    destruct (t !! k) as [v|] eqn:Hv; [|done]. destruct (u !! k) as [w|] eqn:Hw; [|done].
    destruct τ as [| |fields]; try done. specialize (Ha k v Hv). specialize (Hb k w Hw).
    destruct (fields k) as [τ|]; [|done]. by eapply IH.
Qed.

Lemma merge_typed `{RS : RustStd} τ a b : typed τ a → typed τ b →
  ∃ c, merge a b = Ok c ∧ typed τ c.
Proof.
  intros Ha Hb. pose proof (typed_compatible τ a b Ha Hb) as Hc.
  apply merge_ok_compatible in Hc. destruct (merge a b) as [c| |] eqn:Hm; try done.
  exists c. split; [done|]. clear Hc. revert τ a c Ha Hb Hm.
  induction b as [b Hleaf|u q IH] using CV_table_ind; intros τ a c Ha Hb Hm.
  - destruct τ; destruct a, b; simplify_eq/=; try done; exfalso; by eapply Hleaf.
  - destruct τ as [| |fields]; try done. destruct a as [| | |t p|]; try done.
    apply merge_tables_lookup in Hm as (m & -> & Hm). intros k x Hx. specialize (Hm k).
    rewrite Hx in Hm. destruct (t !! k) as [v|] eqn:Hv, (u !! k) as [w|] eqn:Hw; simpl in Hm.
    + destruct (merge v w) as [z| |] eqn:Hz; try done. injection Hm as ->.
      specialize (Ha k v Hv). specialize (Hb k w Hw). destruct (fields k) as [τ|]; [|done].
      by apply (IH k w Hw τ v).
    + injection Hm as ->. by apply (Ha k).
    + injection Hm as ->. by apply (Hb k).
    + done.
Qed.

Definition as_toml : toml := TTable {["a" := TArray [TString "x"]]}.
Lemma toml_roundtrip_witness :
  from_toml "f" as_toml = Ok (CTable {["a" := CList [("x", "f")] "f"]} "f") ∧
  into_toml (CTable {["a" := CList [("x", "f")] "f"]} "f") = as_toml.
Proof.
  pose proof (toml_roundtrip "f" as_toml (CTable {["a" := CList [("x", "f")] "f"]} "f")) as [H _].
  split; [reflexivity|]. apply H. reflexivity.
Defined.
