(* ===== verification/Config.v ===== *)
(** Cargo's configuration, [src/cargo/util/config.rs]: the search for
    [.cargo/config] files, the keys and their environment variables, the typed
    getters and the deserializer behind [Config::get]. *)
From S2P Require Import Prelude Str Extern Path Features ConfigValue.

Local Open Scope string_scope.

(** The files Cargo may read: [fs::metadata(p).is_ok()], and the outcome of
    opening a file and then of reading it. *)
Class FileSystem := {
  fs_exists : path → bool;
  fs_open : path → cresult (cresult string);
}.

(** [str::to_uppercase], by the Unicode tables. *)
Class UnicodeCase := { to_uppercase : string → string }.

(** * Standard library: [FromStr] *)
Definition digit_val (c : ascii) : option Z :=
  if in_range "0" "9" c then Some (Z.of_N (byte_val c) - 48)%Z else None.
Definition i64_min : Z := (- 2 ^ 63)%Z.
Definition i64_max : Z := (2 ^ 63 - 1)%Z.
Definition in_i64 (z : Z) : bool := (i64_min <=? z)%Z && (z <=? i64_max)%Z.

Definition overflow (negative : bool) : string :=
  if negative then "number too small to fit in target type"
  else "number too large to fit in target type".

(** The loop of [from_str_radix]: each checked multiplication and addition. *)
Fixpoint parse_digits (negative : bool) (acc : Z) (s : string) : cresult Z :=
  match s with
  | EmptyString => Ok acc
  | String c s =>
      match digit_val c with
      | None => Err "invalid digit found in string"
      | Some x =>
          let acc := (acc * 10)%Z in
          if negb (in_i64 acc) then Err (overflow negative)
          else let acc := (if negative then acc - x else acc + x)%Z in
               if negb (in_i64 acc) then Err (overflow negative)
               else parse_digits negative acc s
      end
  end.
Definition parse_i64 (s : string) : cresult Z :=
  match s with
  | EmptyString => Err "cannot parse integer from empty string"
  | String c rest =>
      let '(negative, digits) :=
        if Ascii.eqb c "+" then (false, rest)
        else if Ascii.eqb c "-" then (true, rest) else (false, s) in
      if is_empty digits then Err "cannot parse integer from empty string"
      else parse_digits negative 0 digits
  end.
Definition parse_bool_str (s : string) : cresult bool :=
  if String.eqb s "true" then Ok true
  else if String.eqb s "false" then Ok false
  else Err "provided string was not `true` or `false`".
Definition parse_string (s : string) : cresult string := Ok s.

(** * Keys *)
Inductive ConfigKeyPart := Part (s : string) | CasePart (s : string).
#[global] Instance ConfigKeyPart_eq_dec : EqDecision ConfigKeyPart.
Proof. solve_decision. Defined.
#[global] Instance ConfigKeyPart_countable : Countable ConfigKeyPart.
Proof.
  refine (inj_countable' (λ p, match p with Part s => inl s | CasePart s => inr s end)
            (λ x, match x with inl s => Part s | inr s => CasePart s end) _).
  by intros [].
Defined.

Definition part_to_env `{UnicodeCase} (p : ConfigKeyPart) : string :=
  match p with
  | Part s => to_uppercase (replace_char "-" "_" s)
  | CasePart s => s
  end.
Definition part_to_config (p : ConfigKeyPart) : string :=
  match p with Part s | CasePart s => s end.

Definition ConfigKey : Type := list ConfigKeyPart.
Definition key_from_str (key : string) : ConfigKey := Part <$> split_char "." key.
Definition key_join (key : ConfigKey) (next : ConfigKeyPart) : ConfigKey := (key ++ [next])%list.
Definition key_to_env `{UnicodeCase} (key : ConfigKey) : string :=
  "CARGO_" ++ join "_" (part_to_env <$> key).
Definition key_to_config (key : ConfigKey) : string := join "." (part_to_config <$> key).
Definition key_last {E} (key : ConfigKey) : res E ConfigKeyPart := unwrap (last key).

(** * Where a value comes from, and errors *)
Inductive Definition_ := DPath (p : path) | DEnvironment (key : string).
Record Value (T : Type) := mkValue { val : T; definition : Definition_ }.
Arguments mkValue {T}. Arguments val {T}. Arguments definition {T}.
Abbreviation OptValue T := (option (Value T)).

Definition definition_display (d : Definition_) : string :=
  match d with
  | DPath p => p
  | DEnvironment key => "environment variable `" ++ key ++ "`"
  end.

Record ConfigError := mkConfigError {
  ce_error : string;
  ce_definition : option Definition_;
}.
Definition ce_display (e : ConfigError) : string :=
  match ce_definition e with
  | Some d => "error in " ++ definition_display d ++ ": " ++ ce_error e
  | None => ce_error e
  end.
Definition ce_new (message : string) (d : Definition_) : ConfigError := mkConfigError message (Some d).
Definition ce_expected (key expected : string) (found : CV) : ConfigError :=
  mkConfigError ("`" ++ key ++ "` expected " ++ expected ++ ", but found a " ++ desc found)
    (Some (DPath (definition_path found))).
Definition ce_missing (key : string) : ConfigError :=
  mkConfigError ("missing config key `" ++ key ++ "`") None.
Definition with_key_context (e : ConfigError) (key : string) (d : Definition_) : ConfigError :=
  mkConfigError ("could not load config key `" ++ key ++ "`: " ++ ce_display e) (Some d).
Definition ce_custom (msg : string) : ConfigError := mkConfigError msg None.
Definition ce_from (error : string) : ConfigError := mkConfigError error None.

(** * [Config] *)
Inductive Verbosity := Verbose | Normal | Quiet.
Inductive ColorChoice := ColorAlways | ColorNever | ColorAuto.

(** [Shell]: the colour choice is [None] for a plain writer. *)
Record Shell := mkShell {
  verbosity : Verbosity;
  color_choice : option ColorChoice;
}.
Definition set_color_choice (sh : Shell) (color : option string) : cresult Shell :=
  match color_choice sh with
  | None => Ok sh
  | Some _ =>
      cfg ← match color with
            | Some arg =>
                if String.eqb arg "always" then Ok ColorAlways
                else if String.eqb arg "never" then Ok ColorNever
                else if String.eqb arg "auto" then Ok ColorAuto
                else Err ("argument for --color must be auto, always, or never, but found `" ++ arg ++ "`")
            | None => Ok ColorAuto
            end;
      Ok (mkShell (verbosity sh) (Some cfg))
  end.

Record Config := mkConfig {
  home_path : path;
  shell : Shell;
  values_cell : option (gmap string CV);      (* [LazyCell]: loaded at most once *)
  cwd : path;
  extra_verbose : bool;
  frozen : bool;
  locked : bool;
  cli_flags : CliUnstable;
  target_dir_cell : option path;              (* from [--target-dir] *)
  env : gmap string string;                   (* the copy kept in the structure *)
  os_env : gmap string string;                (* what [env::var_os] reads *)
}.

Definition network_allowed (c : Config) : bool := negb (frozen c) && negb (offline (cli_flags c)).
Definition lock_update_allowed (c : Config) : bool := negb (frozen c) && negb (locked c).

Definition set_values (c : Config) (values : gmap string CV) : cresult Config :=
  match values_cell c with
  | Some _ => Err "config values already found"
  | None => Ok (mkConfig (home_path c) (shell c) (Some values) (cwd c) (extra_verbose c) (frozen c)
                  (locked c) (cli_flags c) (target_dir_cell c) (env c) (os_env c))
  end.
Definition set_env (c : Config) (e : gmap string string) : Config :=
  mkConfig (home_path c) (shell c) (values_cell c) (cwd c) (extra_verbose c) (frozen c)
    (locked c) (cli_flags c) (target_dir_cell c) e (os_env c).

(** [Definition::root] *)
Definition root (c : Config) (d : Definition_) : cresult path :=
  match d with
  | DPath p => dir ← unwrap (parent p); unwrap (parent dir)
  | DEnvironment _ => Ok (cwd c)
  end.

(** * Loading *)
Section load.
Context `{RS : RustStd} `{FS : FileSystem} `{TL : TomlLib}.

Definition nl : string := String (ch 10) "".

(** [cargo_toml::parse], of [src/cargo/util/toml/mod.rs], with its warning. *)
Definition invalid_syntax_warning (file : path) : string :=
  "TOML file found which contains invalid syntax and will soon not parse" ++ nl
  ++ "at `" ++ file ++ "`." ++ nl ++ nl
  ++ "The TOML spec requires newlines after table definitions (e.g. `[a] b = 1` is" ++ nl
  ++ "invalid), but this file has a table header which does not have a newline after" ++ nl
  ++ "it. A newline needs to be added and this warning will soon become a hard error" ++ nl
  ++ "in the future.".
Definition parse_toml (contents : string) (file : path) : cresult (toml * list string) :=
  match toml_from_str contents with
  | Ok ret => Ok (ret, [])
  | Panic m => Panic m
  | Err first_error =>
      match toml_from_str_legacy contents with
      | Ok ret => Ok (ret, [invalid_syntax_warning file])
      | Panic m => Panic m
      | Err _ => chain_err "could not parse input as TOML" (Err first_error)
      end
  end.

(** What is being built: the merged value, and the warnings printed. *)
Definition loading : Type := CV * list string.

Definition read_value (p : path) : cresult (CV * list string) :=
  file ← fs_open p;
  contents ← chain_err ("failed to read configuration file `" ++ p ++ "`") file;
  '(toml, warnings) ← chain_err ("could not parse TOML configuration in `" ++ p ++ "`")
                        (parse_toml contents p);
  value ← chain_err ("failed to load TOML configuration from `" ++ p ++ "`") (from_toml p toml);
  Ok (value, warnings).

(** The closure of [load_values_from]. *)
Definition load_file (s : loading) (p : path) : cresult loading :=
  let '(cfg, warned) := s in
  '(value, warnings) ← read_value p;
  cfg ← chain_err ("failed to merge configuration at `" ++ p ++ "`") (merge cfg value);
  Ok (cfg, (warned ++ warnings)%list).

(** [walk_tree]; [stash] holds the files visited. *)
Definition config_in (dir : path) : path := path_join (path_join dir ".cargo") "config".
Definition walk_dir {S} (walk : S → path → cresult S) (st : S * list path) (current : path)
    : cresult (S * list path) :=
  let '(s, stash) := st in
  let possible := config_in current in
  if fs_exists possible then
    s ← walk s possible;
    Ok (s, possible :: stash)
  else Ok (s, stash).
Definition walk_tree {S} (stop : option path) (pwd home : path) (walk : S → path → cresult S) (s : S)
    : cresult S :=
  '(s, stash) ← foldM (walk_dir walk) (s, []) (ancestors stop pwd);
  let config := path_join home "config" in
  if negb (existsb (path_eqb config) stash) && fs_exists config then walk s config
  else Ok s.

(** The old layout of the credentials file kept the token at the top. *)
Definition move_token (value : gmap string CV) : gmap string CV :=
  match value !! "token" with
  | Some token =>
      let value := delete "token" value in
      match value !! "registry" with
      | None => <["registry" := CTable {["token" := token]} "."]> value
      | Some _ => value
      end
  | None => value
  end.

Definition load_credentials (c : Config) (s : loading) : cresult loading :=
  let '(cfg, warned) := s in
  let credentials := path_join (home_path c) "credentials" in
  if negb (fs_exists credentials) then Ok s
  else
    '(value, warnings) ← read_value credentials;
    match value with
    | CTable value p =>
        cfg ← merge (CTable (move_token value) p) cfg;
        Ok (cfg, (warned ++ warnings)%list)
    | _ => Panic "internal error: entered unreachable code"
    end.

Definition test_root (c : Config) : option path := os_env c !! "__CARGO_TEST_ROOT".

Definition load_values_from (c : Config) (p : path) : cresult (gmap string CV * list string) :=
  s ← chain_err "could not load Cargo configuration"
        (walk_tree (test_root c) p (home_path c) load_file (CTable ∅ ".", []));
  '(cfg, warned) ← load_credentials c s;
  match cfg with
  | CTable map _ => Ok (map, warned)
  | _ => Panic "internal error: entered unreachable code"
  end.
Definition load_values (c : Config) : cresult (gmap string CV * list string) :=
  load_values_from c (cwd c).

Definition reload_rooted_at_cargo_home (c : Config) : cresult Config :=
  '(values, _) ← load_values_from c (home_path c);
  Ok (mkConfig (home_path c) (shell c) (Some values) (cwd c) (extra_verbose c) (frozen c)
        (locked c) (cli_flags c) (target_dir_cell c) (env c) (os_env c)).

(** [Config::values]: the files do not change while Cargo runs, so loading
    them once and loading them at each use give the same values. *)
Definition values (c : Config) : cresult (gmap string CV) :=
  match values_cell c with
  | Some vals => Ok vals
  | None => '(vals, _) ← load_values c; Ok vals
  end.

(** * Reading one key *)
Fixpoint get_cv_loop (key : string) (i : nat) (v : CV) (parts : list string)
    : cresult (option CV) :=
  match parts with
  | [] => Ok (Some v)
  | part :: parts =>
      match v with
      | CTable map _ =>
          match map !! part with
          | Some v => get_cv_loop key (S i) v parts
          | None => Ok None
          end
      | _ =>
          let idx := (sum_list (String.length <$> take i (split_char "." key)) + i - 1)%nat in
          key_so_far ← slice_to idx key;
          Err ("expected table for configuration key `" ++ key_so_far ++ "`, but found "
               ++ desc v ++ " in " ++ definition_path v)
      end
  end.

Definition get_cv (c : Config) (key : string) : cresult (option CV) :=
  vals ← values c;
  match split_char "." key with
  | [] => Panic "called `Option::unwrap()` on a `None` value"
  | first :: parts =>
      match vals !! first with
      | Some v => get_cv_loop key 1 v parts
      | None => Ok None
      end
  end.

Definition from_failure {A} (m : cresult A) : res ConfigError A := map_err ce_from m.
Definition into_failure {A} (m : res ConfigError A) : cresult A := map_err ce_display m.

Context `{UC : UnicodeCase}.

Definition get_env {T} (parse : string → cresult T) (c : Config) (key : ConfigKey)
    : res ConfigError (OptValue T) :=
  let key := key_to_env key in
  match env c !! key with
  | Some value =>
      v ← map_err (λ e, ce_new e (DEnvironment key)) (parse value);
      Ok (Some (mkValue v (DEnvironment key)))
  | None => Ok None
  end.

Definition has_key (c : Config) (key : ConfigKey) : res ConfigError bool :=
  let env_key := key_to_env key in
  if bool_decide (is_Some (env c !! env_key)) then Ok true
  else
    let env_pattern := env_key ++ "_" in
    if existsb (starts_with env_pattern) (hm_iter (env c)).*1 then Ok true
    else match get_cv c (key_to_config key) with
         | Ok (Some _) => Ok true
         | Panic m => Panic m
         | _ => Ok false
         end.

(** The three getters that look at the environment first. *)
Definition get_string_priv (c : Config) (key : ConfigKey) : res ConfigError (OptValue string) :=
  v ← get_env parse_string c key;
  match v with
  | Some v => Ok (Some v)
  | None =>
      let config_key := key_to_config key in
      o_cv ← from_failure (get_cv c config_key);
      match o_cv with
      | Some (CString s p) => Ok (Some (mkValue s (DPath p)))
      | Some cv => Err (ce_expected config_key "a string" cv)
      | None => Ok None
      end
  end.
Definition get_bool_priv (c : Config) (key : ConfigKey) : res ConfigError (OptValue bool) :=
  v ← get_env parse_bool_str c key;
  match v with
  | Some v => Ok (Some v)
  | None =>
      let config_key := key_to_config key in
      o_cv ← from_failure (get_cv c config_key);
      match o_cv with
      | Some (CBoolean b p) => Ok (Some (mkValue b (DPath p)))
      | Some cv => Err (ce_expected config_key "true/false" cv)
      | None => Ok None
      end
  end.
Definition get_integer (c : Config) (key : ConfigKey) : res ConfigError (OptValue Z) :=
  let config_key := key_to_config key in
  v ← get_env parse_i64 c key;
  match v with
  | Some v => Ok (Some v)
  | None =>
      o_cv ← from_failure (get_cv c config_key);
      match o_cv with
      | Some (CInteger i p) => Ok (Some (mkValue i (DPath p)))
      | Some cv => Err (ce_expected config_key "an integer" cv)
      | None => Ok None
      end
  end.
Definition get_string (c : Config) (key : string) : cresult (OptValue string) :=
  into_failure (get_string_priv c (key_from_str key)).
Definition get_bool (c : Config) (key : string) : cresult (OptValue bool) :=
  into_failure (get_bool_priv c (key_from_str key)).
Definition get_i64 (c : Config) (key : string) : cresult (OptValue Z) :=
  into_failure (get_integer c (key_from_str key)).

Definition string_to_path (c : Config) (value : string) (d : Definition_) : cresult path :=
  if contains_char "/" value then dir ← root c d; Ok (path_join dir value)
  else Ok value.
Definition get_path (c : Config) (key : string) : cresult (OptValue path) :=
  v ← get_string c key;
  match v with
  | Some v => p ← string_to_path c (val v) (definition v); Ok (Some (mkValue p (definition v)))
  | None => Ok None
  end.

(** [Config::expected] *)
Definition expected {A} (ty key : string) (v : CV) : cresult A :=
  map_err (λ e, "invalid configuration for key `" ++ key ++ "`" ++ nl ++ e) (cv_expected v ty key).

Definition get_list (c : Config) (key : string) : cresult (OptValue (list (string * path))) :=
  o_cv ← get_cv c key;
  match o_cv with
  | Some (CList i p) => Ok (Some (mkValue i (DPath p)))
  | Some v => expected "list" key v
  | None => Ok None
  end.
Definition get_list_or_split_string (c : Config) (key : string) : cresult (OptValue (list string)) :=
  v ← into_failure (get_env parse_string c (key_from_str key));
  match v with
  | Some value => Ok (Some (mkValue (split_char " " (val value)) (definition value)))
  | None =>
      o_cv ← get_cv c key;
      match o_cv with
      | Some (CList i p) => Ok (Some (mkValue i.*1 (DPath p)))
      | Some (CString i p) => Ok (Some (mkValue (split_char " " i) (DPath p)))
      | Some v => expected "list or string" key v
      | None => Ok None
      end
  end.
Definition get_path_and_args (c : Config) (key : string) : cresult (OptValue (path * list string)) :=
  v ← get_list_or_split_string c key;
  match v with
  | Some v =>
      match val v with
      | [] => Ok None
      | arg0 :: args =>
          p ← string_to_path c arg0 (definition v);
          Ok (Some (mkValue (p, args) (definition v)))
      end
  | None => Ok None
  end.
Definition get_table (c : Config) (key : string) : cresult (OptValue (gmap string CV)) :=
  o_cv ← get_cv c key;
  match o_cv with
  | Some (CTable i p) => Ok (Some (mkValue i (DPath p)))
  | Some v => expected "table" key v
  | None => Ok None
  end.

(** * Uses of the getters *)
Definition default_registry (c : Config) : cresult (option string) :=
  v ← get_string c "registry.default"; Ok (val <$> v : option string).

Definition target_dir (c : Config) : cresult (option path) :=
  match target_dir_cell c with
  | Some dir => Ok (Some dir)
  | None =>
      match os_env c !! "CARGO_TARGET_DIR" with
      | Some dir => Ok (Some (path_join (cwd c) dir))
      | None =>
          v ← get_path c "build.target-dir";
          match v with
          | Some v => Ok (Some (path_join (cwd c) (val v)))
          | None => Ok None
          end
      end
  end.

Definition maybe_get_tool (c : Config) (tool : string) : cresult (option path) :=
  match os_env c !! to_uppercase tool with
  | Some tool_path =>
      let maybe_relative := contains_char "/" tool_path || contains_char "\" tool_path in
      Ok (Some (if (maybe_relative : bool) then path_join (cwd c) tool_path else tool_path))
  | None =>
      v ← get_path c ("build." ++ tool);
      match v with
      | Some tool_path => Ok (Some (val tool_path))
      | None => Ok None
      end
  end.
Definition get_tool (c : Config) (tool : string) : cresult path :=
  default tool <$> maybe_get_tool c tool.

(** [Result::unwrap_or] *)
Definition unwrap_or {A} (m : cresult A) (d : A) : cresult A :=
  match m with Err _ => Ok d | m => m end.

(** [Config::configure] *)
Definition configure (fenv : Env) (c : Config) (verbose : N) (quiet : option bool) (color : option string)
    (frozen locked : bool) (target_dir : option path) (unstable_flags : list string) : cresult Config :=
  let extra_verbose := (2 <=? verbose)%N in
  let verbose := if (verbose =? 0)%N then None else Some true in
  cfg_verbose ← unwrap_or (get_bool c "term.verbose") None;
  cfg_color ← unwrap_or (get_string c "term.color") None;
  let cfg_verbose := val <$> cfg_verbose in
  let cfg_color := val <$> cfg_color in
  let color := match color with Some _ => color | None => cfg_color end in
  verbosity ← match verbose, cfg_verbose, quiet with
              | Some true, _, None | None, Some true, None => Ok Verbose
              | None, _, Some true => Ok Quiet
              | Some true, _, Some true => Err "cannot set both --verbose and --quiet"
              | Some false, _, _ | _, _, Some false | None, Some false, None | None, None, None => Ok Normal
              end;
  let sh := mkShell verbosity (color_choice (shell c)) in
  sh ← set_color_choice sh color;
  flags ← cli_parse fenv (cli_flags c) unstable_flags;
  Ok (mkConfig (home_path c) sh (values_cell c) (cwd c) extra_verbose frozen locked flags
        target_dir (env c) (os_env c)).
End load.

(** * [Deserializer]
    What [Config::get] offers to a [serde] visitor.  A deserializer is a key
    of the configuration; a visitor says what it makes of each kind of value;
    the warnings that are printed on the way are collected. *)
Definition de (V : Type) : Type := (list string * res ConfigError V)%type.
Definition de_lift {V} (r : res ConfigError V) : de V := ([], r).
Definition de_bind {A V} (m : de A) (f : A → de V) : de V :=
  match m.2 with
  | Ok a => let r := f a in ((m.1 ++ r.1)%list, r.2)
  | Err e => (m.1, Err e)
  | Panic p => (m.1, Panic p)
  end.
Definition de_map_err {V} (g : ConfigError → ConfigError) (m : de V) : de V := (m.1, map_err g m.2).
Notation "'let+' x ':=' m 'in' k" := (de_bind m (λ x, k))
  (at level 10, x pattern, m at level 100, k at level 200) : stdpp_scope.

(** [ConfigMapAccess] *)
Record ConfigMapAccess := mkMapAccess {
  ma_key : ConfigKey;
  set_iter : list ConfigKeyPart;
  ma_next : option ConfigKeyPart;
}.

(** [ConfigSeqAccess] *)
Definition ConfigSeqAccess : Type := list (string * Definition_).

(** [de::Visitor]: the methods the deserializer calls. *)
Record Visitor (V : Type) := mkVisitor {
  visit_bool : bool → de V;
  visit_i64 : Z → de V;
  visit_string : string → de V;
  visit_none : de V;
  visit_some : ConfigKey → de V;
  visit_seq : ConfigSeqAccess → de V;
  visit_map : ConfigMapAccess → de V;
  visit_newtype_string : string → de V;
  visit_newtype_struct : ConfigKey → de V;
}.
Arguments visit_bool {V}. Arguments visit_i64 {V}. Arguments visit_string {V}.
Arguments visit_none {V}. Arguments visit_some {V}. Arguments visit_seq {V}.
Arguments visit_map {V}. Arguments visit_newtype_string {V}. Arguments visit_newtype_struct {V}.

Section deserialize.
Context `{RS : RustStd} `{FS : FileSystem} `{TL : TomlLib} `{UC : UnicodeCase} (c : Config).

(** [deserialize_method!] *)
Definition deserialize_method {A V} (getter : Config → ConfigKey → res ConfigError (OptValue A))
    (visit : A → de V) (key : ConfigKey) : de V :=
  let+ v := de_lift (getter c key) in
  match v with
  | None => de_lift (Err (ce_missing (key_to_config key)))
  | Some v => de_map_err (λ e, with_key_context e (key_to_config key) (definition v)) (visit (val v))
  end.
Definition deserialize_bool {V} (visitor : Visitor V) := deserialize_method get_bool_priv (visit_bool visitor).
Definition deserialize_integer {V} (visitor : Visitor V) := deserialize_method get_integer (visit_i64 visitor).
Definition deserialize_string {V} (visitor : Visitor V) := deserialize_method get_string_priv (visit_string visitor).

Definition deserialize_option {V} (visitor : Visitor V) (key : ConfigKey) : de V :=
  let+ found := de_lift (has_key c key) in
  if found : bool then visit_some visitor key else visit_none visitor.

(** [ConfigSeqAccess::new] *)
Definition seq_item (d : Definition_) (v : toml) : res ConfigError (string * Definition_) :=
  match v with
  | TString s => Ok (s, d)
  | v => Err (ce_new ("expected string, found " ++ type_str v) d)
  end.
Definition env_seq (key : ConfigKey) (v : string) : res ConfigError ConfigSeqAccess :=
  let env_key := key_to_env key in
  let def := DEnvironment env_key in
  if negb (starts_with "[" v && ends_with_char "]" v) then
    Err (ce_new ("should have TOML list syntax, found `" ++ v ++ "`") def)
  else
    part ← key_last key;
    let temp_key := part_to_env part in
    toml_v ← map_err (λ e, ce_new ("could not parse TOML list: " ++ e) def)
               (toml_from_str (temp_key ++ "=" ++ v));
    t ← unwrap (match toml_v with TTable t => Some t | _ => None end);
    value ← unwrap (t !! temp_key);
    match value with
    | TArray values => foldM (λ out v, x ← seq_item def v; Ok (out ++ [x])%list) [] values
    | _ => Panic "env var was not array"
    end.
Definition seq_access_new (key : ConfigKey) : res ConfigError ConfigSeqAccess :=
  v ← from_failure (get_list c (key_to_config key));
  let in_file := match v with
                 | Some v => (λ x, (x.1, DPath x.2)) <$> val v
                 | None => []
                 end in
  if advanced_env (cli_flags c) then
    match env c !! key_to_env key with
    | Some v => in_env ← env_seq key v; Ok (in_file ++ in_env)%list
    | None => Ok in_file
    end
  else Ok in_file.

(** [ConfigMapAccess::new_map]; the last part of the environment key of an
    entry starts behind the key and ends at the next underscore. *)
Definition env_part (env_pattern env_key : string) : option ConfigKeyPart :=
  if starts_with env_pattern env_key
  then Some (CasePart (split_once "_" (str_drop (String.length env_pattern) env_key)).1)
  else None.
Definition map_parts (key : ConfigKey) (t : option (gmap string CV)) : gset ConfigKeyPart :=
  let in_file := match t with
                 | Some t => list_to_set (CasePart <$> (hm_iter t).*1)
                 | None => ∅
                 end in
  if advanced_env (cli_flags c) then
    in_file ∪ list_to_set (omap (env_part (key_to_env key ++ "_")) (hm_iter (env c)).*1)
  else in_file.
Definition new_map (key : ConfigKey) : res ConfigError ConfigMapAccess :=
  v ← from_failure (get_table c (key_to_config key));
  Ok (mkMapAccess key (hs_iter (map_parts key (val <$> v))) None).

(** [ConfigMapAccess::new_struct] *)
Definition unused_key (key : ConfigKey) (fields : list string) (entry : string * CV) : option string :=
  let '(t_key, value) := entry in
  if bool_decide (t_key ∈ fields) then None
  else Some ("unused key `" ++ key_to_config (key_join key (Part t_key)) ++ "` in config file `"
             ++ definition_path value ++ "`").
Definition new_struct (key : ConfigKey) (fields : list string) : de ConfigMapAccess :=
  let+ v := de_lift (from_failure (get_table c (key_to_config key))) in
  let warnings := match v with
                  | Some v => omap (unused_key key fields) (hm_iter (val v))
                  | None => []
                  end in
  (warnings, Ok (mkMapAccess key (hs_iter (list_to_set (Part <$> fields) : gset ConfigKeyPart)) None)).

(** [next_key_seed] gives the name of the next part and remembers it,
    [next_value_seed] the deserializer of its value. *)
Definition next_key (a : ConfigMapAccess) : option string * ConfigMapAccess :=
  match set_iter a with
  | key :: rest => (Some (part_to_config key), mkMapAccess (ma_key a) rest (Some key))
  | [] => (None, a)
  end.
Definition next_value (a : ConfigMapAccess) : res ConfigError ConfigKey * ConfigMapAccess :=
  match ma_next a with
  | Some next_key => (Ok (key_join (ma_key a) next_key), mkMapAccess (ma_key a) (set_iter a) None)
  | None => (Panic "next field missing", a)
  end.

Definition deserialize_seq {V} (visitor : Visitor V) (key : ConfigKey) : de V :=
  let+ s := de_lift (seq_access_new key) in visit_seq visitor s.
Definition deserialize_map {V} (visitor : Visitor V) (key : ConfigKey) : de V :=
  let+ m := de_lift (new_map key) in visit_map visitor m.
Definition deserialize_struct {V} (fields : list string) (visitor : Visitor V) (key : ConfigKey) : de V :=
  let+ m := new_struct key fields in visit_map visitor m.

Definition deserialize_newtype_struct {V} (name : string) (visitor : Visitor V) (key : ConfigKey) : de V :=
  if String.eqb name "ConfigRelativePath" then
    let+ v := de_lift (get_string_priv c key) in
    match v with
    | Some v =>
        let+ dir := de_lift (from_failure (root c (definition v))) in
        visit_newtype_string visitor (path_join dir (val v))
    | None => de_lift (Err (ce_missing (key_to_config key)))
    end
  else visit_newtype_struct visitor key.

(** An error of the visitor gets the key as context; one of the list or of the
    table the visitor would be given does not. *)
Definition deserialize_any {V} (visitor : Visitor V) (key : ConfigKey) : de V :=
  match env c !! key_to_env key with
  | Some v =>
      let context :=
        de_map_err (λ e, with_key_context e (key_to_config key) (DEnvironment (key_to_env key))) in
      if String.eqb v "true" || String.eqb v "false"
      then context (visit_bool visitor (String.eqb v "true"))
      else match parse_i64 v with
           | Ok i => context (visit_i64 visitor i)
           | _ => if advanced_env (cli_flags c) && starts_with "[" v && ends_with_char "]" v
                  then let+ s := de_lift (seq_access_new key) in context (visit_seq visitor s)
                  else context (visit_string visitor v)
           end
  | None =>
      let+ o_cv := de_lift (from_failure (get_cv c (key_to_config key))) in
      match o_cv with
      | Some cv =>
          let context :=
            de_map_err (λ e, with_key_context e (key_to_config key) (DPath (definition_path cv))) in
          match cv with
          | CInteger i _ => context (visit_i64 visitor i)
          | CString s _ => context (visit_string visitor s)
          | CList _ _ => let+ s := de_lift (seq_access_new key) in context (visit_seq visitor s)
          | CTable _ _ => let+ m := de_lift (new_map key) in context (visit_map visitor m)
          | CBoolean b _ => context (visit_bool visitor b)
          end
      | None => de_lift (Err (ce_missing (key_to_config key)))
      end
  end.
End deserialize.

(** * [save_credentials] *)
Section credentials.
Context `{TL : TomlLib}.

(** The new contents of the credentials file at [file]. *)
Definition token_entry (file : path) (token : string) (registry : option string) : string * CV :=
  let table := CTable {["token" := CString token file]} file in
  match registry with
  | Some registry => ("registries", CTable {[registry := table]} file)
  | None => ("registry", table)
  end.
Definition as_table (v : toml) : option (gmap string toml) :=
  match v with TTable t => Some t | _ => None end.
Definition move_old_token (t : gmap string toml) : gmap string toml :=
  match t !! "token" with
  | Some token => <["registry" := TTable {["token" := token]}]> (delete "token" t)
  | None => t
  end.
Definition save_credentials (file : path) (contents token : string) (registry : option string)
    : cresult string :=
  let '(key, value) := token_entry file token registry in
  '(v, _) ← parse_toml contents file;
  t ← unwrap (as_table v);
  Ok (toml_to_string (TTable (<[key := into_toml value]> (move_old_token t)))).
End credentials.

(** * Facts *)

Lemma split_char_no c s x : x ∈ split_char c s → contains_char c x = false.
Proof.
  revert x. induction s as [|a s IH]; intros x; simpl.
  - by intros ->%list_elem_of_singleton.
  - destruct (split_char_cons c s) as (y & l & Hs). rewrite Hs in *.
    destruct (Ascii.eqb c a) eqn:Ha.
    + intros [->|Hx]%elem_of_cons; [done|by apply IH].
    + intros [->|Hx]%elem_of_cons; [|by apply IH; right]. simpl.
      rewrite (IH y) by by left. by rewrite Ha.
Qed.

(** The index computed for the message is the length of the parts so far. *)
Lemma key_so_far_length l : l ≠ [] →
  (sum_list (String.length <$> l) + length l - 1)%nat = String.length (join "." l).
Proof.
  induction l as [|x l IH]; [done|]. intros _. destruct l as [|y l]; [simpl; lia|].
  change (join "." (x :: y :: l)) with (x ++ "." ++ join "." (y :: l)).
  rewrite !length_app_str, <-IH by done. simpl. lia.
Qed.

Lemma join_app sep l1 l2 : l1 ≠ [] → l2 ≠ [] →
  join sep (l1 ++ l2)%list = join sep l1 ++ sep ++ join sep l2.
Proof.
  intros H1 H2. induction l1 as [|x l1 IH]; [done|]. destruct l1 as [|y l1].
  - simpl. by destruct l2.
  - change (x ++ sep ++ join sep ((y :: l1) ++ l2)%list = (x ++ sep ++ join sep (y :: l1)) ++ sep ++ join sep l2).
    rewrite IH by done. by rewrite !app_assoc_str.
Qed.

Lemma slice_key_so_far {E} key pre post : split_char "." key = (pre ++ post)%list → pre ≠ [] → post ≠ [] →
  slice_to (sum_list (String.length <$> take (length pre) (split_char "." key)) + length pre - 1) key
  = Ok (join "." pre) :> res E string.
Proof.
  intros Hs Hpre Hpost. rewrite Hs, take_app_length, key_so_far_length by done.
  assert (Hk : key = join "." pre ++ "." ++ join "." post)
    by (by rewrite <-join_app, <-Hs, join_split_char).
  rewrite Hk. unfold slice_to. rewrite length_app_str, str_drop_app, str_take_app.
  destruct (Nat.ltb_spec (String.length (join "." pre) + String.length ("." ++ join "." post)) (String.length (join "." pre)));
    [lia|done].
Qed.

Section facts.
Context `{RS : RustStd} `{FS : FileSystem} `{TL : TomlLib}.

(** The value a key leads to is below something that is not a table. *)
Definition blocked (vals : gmap string CV) (ks pre : list string) (v : CV) : Prop :=
  pre ≠ [] ∧ (∃ post, post ≠ [] ∧ ks = (pre ++ post)%list) ∧
  get (CTable vals ".") pre = Some v ∧ class_of v ≠ Table.

Definition blocked_error (pre : list string) (v : CV) : string :=
  "expected table for configuration key `" ++ join "." pre ++ "`, but found "
  ++ desc v ++ " in " ++ definition_path v.

Lemma get_app v ks ks' : get v (ks ++ ks')%list = get v ks ≫= λ w, get w ks'.
Proof.
  revert v. induction ks as [|k ks IH]; intros v; simpl; [done|].
  destruct v as [| | |t p|]; try done. by destruct (t !! k).
Qed.

Lemma longer_prefix {A} (l1 l2 m1 m2 : list A) :
  (l1 ++ l2 = m1 ++ m2)%list → (length l1 ≤ length m1)%nat → ∃ mid, m1 = (l1 ++ mid)%list.
Proof.
  intros Heq Hle. destruct (app_eq_app _ _ _ _ Heq) as (mid & [[-> _]|[-> _]]); [|by exists mid].
  exists []. rewrite length_app in Hle. destruct mid; [by rewrite !app_nil_r|simpl in Hle; lia].
Qed.

(** Nothing on the way from [pre] on is in the way. *)
Lemma not_blocked_here vals ks pre v pre' v' t p parts :
  ks = (pre ++ parts)%list → get (CTable vals ".") pre = Some v → v = CTable t p →
  (length pre ≤ length pre')%nat → blocked vals ks pre' v' → (S (length pre) ≤ length pre')%nat ∧
  ∃ part mid, head parts = Some part ∧ pre' = (pre ++ part :: mid)%list.
Proof.
  intros -> Hv -> Hlen (_ & (post & Hpost & Heq) & Hget & Hclass).
  destruct (longer_prefix _ _ _ _ Heq Hlen) as [[|part mid] ->].
  - rewrite app_nil_r, Hv in Hget. by simplify_eq.
  - rewrite length_app. simpl. split; [lia|]. rewrite <-app_assoc in Heq. apply app_inv_head in Heq as ->.
    by exists part, mid.
Qed.

Lemma get_cv_loop_spec key vals pre v parts :
  split_char "." key = (pre ++ parts)%list → pre ≠ [] → get (CTable vals ".") pre = Some v →
  (∃ pre' v', blocked vals (split_char "." key) pre' v' ∧
              get_cv_loop key (length pre) v parts = Err (blocked_error pre' v'))
  ∨ ((∀ pre' v', (length pre ≤ length pre')%nat → ¬ blocked vals (split_char "." key) pre' v') ∧
     get_cv_loop key (length pre) v parts = Ok (get (CTable vals ".") (split_char "." key))).
Proof.
  revert pre v. induction parts as [|part parts IH]; intros pre v Hs Hpre Hv.
  - right. split; [|by rewrite Hs, app_nil_r, Hv].
    intros pre' v' Hlen (_ & (post & Hpost & Heq) & _). rewrite Hs, app_nil_r in Heq.
    apply (f_equal length) in Heq. rewrite length_app in Heq. destruct post; [done|simpl in *; lia].
  - destruct (decide (class_of v = Table)) as [Ht|Ht].
    + destruct v as [| | |t p|] eqn:Hvt; try done. rewrite <-Hvt in Hv. cbn [get_cv_loop].
      assert (Hget : get (CTable vals ".") (pre ++ [part])%list = t !! part).
      { rewrite get_app, Hv, Hvt. simpl. by destruct (t !! part). }
      destruct (t !! part) as [w|] eqn:Hw.
      * specialize (IH (pre ++ [part])%list w). rewrite length_app, Nat.add_comm in IH.
        destruct IH as [IH|[IH1 IH2]]; [by rewrite <-app_assoc|by destruct pre|done|by left|right].
        split; [|done]. intros pre' v' Hlen Hb. eapply IH1; [|done].
        by destruct (not_blocked_here _ _ _ _ _ _ _ _ _ Hs Hv Hvt Hlen Hb) as [? _].
      * right. split; [|by rewrite Hs, get_app, Hv, Hvt; simpl; rewrite Hw].
        intros pre' v' Hlen Hb. pose proof Hb as (_ & _ & Hg & _).
        destruct (not_blocked_here _ _ _ _ _ _ _ _ _ Hs Hv Hvt Hlen Hb) as (_ & q & mid & Hq & ->).
        injection Hq as ->.
        change (q :: mid) with ([q] ++ mid)%list in Hg.
        by rewrite app_assoc, get_app, Hget in Hg.
    + left. exists pre, v. split.
      * split; [done|]. split; [by exists (part :: parts)|done].
      * pose proof (slice_key_so_far (E:=string) key pre (part :: parts) Hs Hpre ltac:(done)) as Hsl.
        destruct v; try done; cbn [get_cv_loop]; rewrite Hsl; done.
Qed.

(** Reading a dotted key walks down the tables: the answer is the value at the path the key spells, or
    nothing; when the path goes through something that is not a table, it is an error that names the
    part of the key read so far and the file of the value found there.  It never panics. *)
Theorem get_cv_spec c key vals : values c = Ok vals →
  (∃ pre v, blocked vals (split_char "." key) pre v ∧ get_cv c key = Err (blocked_error pre v))
  ∨ ((∀ pre v, ¬ blocked vals (split_char "." key) pre v) ∧
     get_cv c key = Ok (get (CTable vals ".") (split_char "." key))).
Proof.
  intros Hvals. unfold get_cv. rewrite Hvals. cbn [mbind res_mbind res_bind].
  destruct (split_char_cons "." key) as (first & parts & Hs). rewrite Hs.
  destruct (vals !! first) as [v|] eqn:Hv.
  - assert (Hget : get (CTable vals ".") [first] = Some v) by (simpl; by rewrite Hv).
    destruct (get_cv_loop_spec key vals [first] v parts Hs ltac:(done) Hget) as [Hl|[Hb Hl]].
    + left. by rewrite <-Hs.
    + right. rewrite <-Hs. split; [|done]. intros pre w Hbl. apply (Hb pre w); [|done].
      destruct Hbl as [Hpre _]. destruct pre; [done|simpl; lia].
  - right. split; [|by simpl; rewrite Hv].
    intros pre v (Hpre & (post & _ & Heq) & Hg & _). destruct pre as [|k pre]; [done|].
    injection Heq as <- _. simpl in Hg. by rewrite Hv in Hg.
Qed.
(** ** Which files are read, and who wins *)

(** The configuration files for a directory, nearest first, and last the one
    of the home directory unless it was already met on the way. *)
Definition config_files (stop : option path) (pwd home : path) : list path :=
  let near := List.filter fs_exists (config_in <$> ancestors stop pwd) in
  let last := path_join home "config" in
  (near ++ (if negb (existsb (path_eqb last) near) && fs_exists last then [last] else []))%list.

Lemma walk_dirs_spec {S} (walk : S → path → cresult S) s stash dirs :
  foldM (walk_dir walk) (s, stash) dirs
  = s' ← foldM walk s (List.filter fs_exists (config_in <$> dirs));
    Ok (s', rev (List.filter fs_exists (config_in <$> dirs)) ++ stash)%list.
Proof.
  revert s stash. induction dirs as [|d dirs IH]; intros s stash; [done|].
  cbn [foldM walk_dir fmap list_fmap List.filter]. destruct (fs_exists (config_in d)); simpl; [|apply IH].
  destruct (walk s (config_in d)) as [s'| |]; simpl; [|done..]. rewrite IH.
  destruct (foldM walk s' _); simpl; [|done..]. by rewrite <-app_assoc.
Qed.

Lemma existsb_rev {A} (f : A → bool) l : existsb f (rev l) = existsb f l.
Proof.
  induction l as [|x l IH]; simpl; [done|]. rewrite existsb_app, IH. simpl. by destruct (f x), (existsb f l).
Qed.

Lemma walk_tree_spec {S} stop pwd home (walk : S → path → cresult S) s :
  walk_tree stop pwd home walk s = foldM walk s (config_files stop pwd home).
Proof.
  unfold walk_tree, config_files. rewrite walk_dirs_spec, foldM_app.
  destruct (foldM walk s _) as [s'| |]; simpl; [|done..].
  rewrite app_nil_r, existsb_rev. destruct (negb _ && _); simpl; [|done]. by destruct (walk s' _).
Qed.

Lemma top_top a : top (top a) = top a.
Proof. by destruct a. Qed.
Lemma join_top_top a b : join_top (top a) b = join_top a b.
Proof. by destruct a, b. Qed.
Lemma overlay_top a b : overlay (top <$> a) b = overlay a b.
Proof. destruct a, b; simpl; by rewrite ?join_top_top, ?top_top. Qed.
Lemma overlay_top_r a b : overlay a (top <$> b) = overlay a b.
Proof. destruct a as [x|], b as [y|]; simpl; f_equal; [by destruct x, y|apply top_top]. Qed.
Lemma top_overlay a b : top <$> overlay a b = overlay a b.
Proof. destruct a as [x|], b as [y|]; simpl; f_equal; [by destruct x, y|apply top_top..]. Qed.

(** What the files say about a path of keys, nearest file first. *)
Definition overlays (l : list (option CV)) : option CV := fold_left overlay l None.

Lemma overlay_fold_top a l : fold_left overlay l (top <$> a) = top <$> fold_left overlay l a.
Proof.
  revert a. induction l as [|x l IH]; intros a; [done|]. simpl. by rewrite overlay_top, <-IH, top_overlay.
Qed.

Lemma load_files_spec files cfg warned cfg' warned' :
  foldM load_file (cfg, warned) files = Ok (cfg', warned') →
  ∃ vs, Forall2 (λ f v, fst <$> read_value f = Ok v) files vs ∧
  ∀ ks, top <$> get cfg' ks = top <$> fold_left overlay ((λ v, get v ks) <$> vs) (get cfg ks).
Proof.
  revert cfg warned. induction files as [|f files IH]; intros cfg warned; simpl.
  - intros [= <- <-]. exists []. split; [constructor|done].
  - destruct (read_value f) as [[value warnings]| |] eqn:Hr; simpl; try done.
    destruct (merge cfg value) as [c1| |] eqn:Hm; simpl; try done.
    intros (vs & Hvs & Hget)%IH. exists (value :: vs). split; [by constructor; [rewrite Hr|]|].
    intros ks. rewrite Hget. simpl. by rewrite <-!overlay_fold_top, top_overlay, (merge_get _ _ _ Hm).
Qed.

(** The credentials file as it is merged, an empty table when there is none. *)
Definition credentials_file (c : Config) : path := path_join (home_path c) "credentials".
Definition credentials_value (c : Config) (v : CV) : Prop :=
  if fs_exists (credentials_file c)
  then ∃ t p, fst <$> read_value (credentials_file c) = Ok (CTable t p) ∧ v = CTable (move_token t) p
  else v = CTable ∅ ".".

(** C36. What loading gives for a key: the value of the credentials file, else of the nearest
    [.cargo/config] above the directory that has the key, the file of the home directory coming last
    and being read once; lists are the concatenation of the lists found, in that order. *)
Theorem load_values_spec c p vals warned : load_values_from c p = Ok (vals, warned) →
  ∃ cred vs, credentials_value c cred ∧
    Forall2 (λ f v, fst <$> read_value f = Ok v) (config_files (test_root c) p (home_path c)) vs ∧
    ∀ k ks, top <$> get (CTable vals ".") (k :: ks)
            = overlay (get cred (k :: ks)) (overlays ((λ v, get v (k :: ks)) <$> vs)).
Proof.
  unfold load_values_from. rewrite walk_tree_spec.
  destruct (foldM load_file _ _) as [[cfg w]| |] eqn:Hload; simpl; try done.
  apply load_files_spec in Hload as (vs & Hvs & Hget).
  unfold credentials_value, credentials_file.
  destruct (fs_exists (path_join (home_path c) "credentials")) eqn:He; simpl.
  - destruct (read_value _) as [[[| | |t q|] w']| |] eqn:Hr; simpl; try done.
    destruct (merge _ cfg) as [m| |] eqn:Hm; simpl; try done.
    pose proof (merge_get _ _ _ Hm) as Hmg. destruct m as [| | |m q'|]; try done.
    intros [= <- <-]. exists (CTable (move_token t) q), vs. split; [by eauto|]. split; [done|].
    intros k ks. transitivity (top <$> get (CTable m q') (k :: ks)); [done|].
    by rewrite Hmg, <-overlay_top_r, Hget, overlay_top_r.
  - destruct cfg as [| | |m q|]; try done. intros [= <- <-]. exists (CTable ∅ "."), vs.
    split; [done|]. split; [done|]. intros k ks.
    transitivity (top <$> get (CTable m q) (k :: ks)); [done|]. by rewrite Hget.
Qed.
Definition reads_as (τ : cty) (f : path) : Prop :=
  ∃ v warnings, read_value f = Ok (v, warnings) ∧ typed τ v.

Lemma load_files_typed τ files cfg warned : Forall (reads_as τ) files → typed τ cfg →
  ∃ cfg' warned', foldM load_file (cfg, warned) files = Ok (cfg', warned') ∧ typed τ cfg'.
Proof.
  intros Hfiles. revert cfg warned. induction Hfiles as [|f files (v & w & Hr & Hv) Hfiles IH];
    intros cfg warned Hcfg; [by exists cfg, warned|]. simpl.
  destruct (merge_typed τ cfg v Hcfg Hv) as (c1 & Hm & Hc1). rewrite Hr. simpl. rewrite Hm. simpl.
  by apply IH.
Qed.

(** C37. Type safety of loading: if every configuration file can be read and follows one schema of
    tables, lists and scalars, and so do the credentials once an old token has been moved, then
    loading succeeds and the merged configuration follows the schema. *)
Theorem load_values_typed c p fields :
  Forall (reads_as (TyTable fields)) (config_files (test_root c) p (home_path c)) →
  (fs_exists (credentials_file c) = true →
     ∃ t q warnings, read_value (credentials_file c) = Ok (CTable t q, warnings) ∧
                     typed (TyTable fields) (CTable (move_token t) q)) →
  ∃ vals warned, load_values_from c p = Ok (vals, warned) ∧ typed (TyTable fields) (CTable vals ".").
Proof.
  intros Hfiles Hcred. unfold load_values_from. rewrite walk_tree_spec.
  destruct (load_files_typed (TyTable fields) _ (CTable ∅ ".") [] Hfiles) as (cfg & w & -> & Hcfg).
  { by intros k x. }
  cbn [chain_err map_err mbind res_mbind res_bind load_credentials].
  destruct cfg as [| | |m q|]; try done. unfold credentials_file in *.
  destruct (fs_exists (path_join (home_path c) "credentials")) eqn:He; cbn [negb]; [|by exists m, w].
  destruct (Hcred eq_refl) as (t & q' & w' & Hr & Ht). rewrite Hr.
  cbn [mbind res_mbind res_bind].
  destruct (merge_typed (TyTable fields) _ (CTable m q) Ht Hcfg) as (r & Hm & Hr').
  rewrite Hm. destruct r as [| | |r q''|]; try done. by exists r, (w ++ w')%list.
Qed.
End facts.

(** ** Integers of the environment *)

(** The number a string of digits spells. *)
Fixpoint spelled (acc : Z) (s : string) : option Z :=
  match s with
  | EmptyString => Some acc
  | String c s => match digit_val c with
                  | Some x => spelled (acc * 10 + x) s
                  | None => None
                  end
  end.

Lemma digit_val_range c x : digit_val c = Some x → (0 <= x <= 9)%Z.
Proof.
  unfold digit_val, in_range. destruct (_ && _) eqn:Hc; [|done]. intros [= <-].
  apply andb_prop in Hc as [H0 H9]. apply Nat.leb_le in H0, H9.
  unfold byte_val.
  change (nat_of_ascii "0") with 48%nat in H0. change (nat_of_ascii "9") with 57%nat in H9.
  unfold nat_of_ascii in H0, H9. lia.
Qed.

Lemma spelled_grows acc s z : (0 <= acc)%Z → spelled acc s = Some z → (acc <= z)%Z.
Proof.
  revert acc. induction s as [|c s IH]; intros acc Hacc; simpl; [by intros [= ->]|].
  destruct (digit_val c) as [x|] eqn:Hx; [|done]. apply digit_val_range in Hx.
  intros Hz. apply IH in Hz; lia.
Qed.

Lemma in_i64_true z : in_i64 z = true ↔ (i64_min <= z <= i64_max)%Z.
Proof. unfold in_i64. rewrite andb_true_iff, !Z.leb_le. done. Qed.

Lemma parse_digits_spec (negative : bool) acc s z : (0 <= acc)%Z →
  let signed := λ n : Z, (if negative then - n else n)%Z in
  in_i64 (signed acc) = true →
  parse_digits negative (signed acc) s = Ok z ↔
  ∃ n, spelled acc s = Some n ∧ z = signed n ∧ in_i64 z = true.
Proof.
  intros Hacc signed. revert acc Hacc. induction s as [|c s IH]; intros acc Hacc Hin; simpl.
  - split; [intros [= <-]; eauto|by intros (n & [= ->] & -> & _)].
  - destruct (digit_val c) as [x|] eqn:Hx; [|split; [done|by intros (n & ? & _)]].
    apply digit_val_range in Hx.
    assert (Hstep : (if negative then signed acc * 10 - x else signed acc * 10 + x)%Z = signed (acc * 10 + x)%Z)
      by (unfold signed; destruct negative; lia).
    rewrite Hstep.
    assert (Hout : ∀ m, (0 <= m <= acc * 10 + x)%Z → in_i64 (signed m) = false →
      (∃ n, spelled (acc * 10 + x) s = Some n ∧ z = signed n ∧ in_i64 z = true) → False).
    { intros m Hm Hf (n & Hn & -> & Hi). apply spelled_grows in Hn; [|lia].
      apply in_i64_true in Hi. apply not_true_iff_false in Hf. apply Hf, in_i64_true.
      unfold signed in *. change i64_min with (-9223372036854775808)%Z in *.
      change i64_max with 9223372036854775807%Z in *. destruct negative; lia. }
    destruct (in_i64 (signed acc * 10)%Z) eqn:H1; simpl.
    + destruct (in_i64 (signed (acc * 10 + x)%Z)) eqn:H2; simpl; [apply IH; [lia|done]|].
      split; [done|]. intros He. exfalso. by eapply (Hout (acc * 10 + x)%Z); [lia|..].
    + split; [done|]. intros He. exfalso. apply (Hout (acc * 10)%Z); [lia| |done].
      rewrite <-H1. f_equal. unfold signed. destruct negative; lia.
Qed.

(** The sign and the digits of the text of an integer. *)
Definition sign_digits (s : string) : bool * string :=
  match s with
  | String c rest => if Ascii.eqb c "+" then (false, rest)
                     else if Ascii.eqb c "-" then (true, rest) else (false, s)
  | EmptyString => (false, s)
  end.

(** An integer of the environment is accepted exactly when it is a non-empty run of digits behind an
    optional sign and the number it spells fits in 64 bits; nothing wraps around, and the bounds
    themselves are accepted. *)
Theorem parse_i64_spec s z :
  parse_i64 s = Ok z ↔
  ∃ n, (sign_digits s).2 ≠ "" ∧ spelled 0 (sign_digits s).2 = Some n ∧
       z = (if (sign_digits s).1 then - n else n)%Z ∧ (i64_min <= z <= i64_max)%Z.
Proof.
  destruct s as [|c rest]; [split; [done|by intros (n & ? & _)]|].
  unfold parse_i64. change (sign_digits (String c rest)) with
    (if Ascii.eqb c "+" then (false, rest) else if Ascii.eqb c "-" then (true, rest) else (false, String c rest)).
  set (sd := if Ascii.eqb c "+" then _ else _). destruct sd as [negative digits]. simpl.
  destruct digits as [|d digits]; [split; [done|by intros (n & ? & _)]|].
  cbn [is_empty]. pose proof (parse_digits_spec negative 0 (String d digits) z ltac:(done)) as Hp.
  cbv zeta beta in Hp. change (- 0)%Z with 0%Z in Hp.
  assert (H0 : (if negative then 0 else 0)%Z = 0%Z) by (by destruct negative). rewrite H0 in Hp.
  rewrite Hp by done. apply exist_proper. intros n. rewrite in_i64_true. intuition discriminate.
Qed.

Example parse_i64_bounds :
  parse_i64 "9223372036854775807" = Ok i64_max ∧ parse_i64 "-9223372036854775808" = Ok i64_min
  ∧ parse_i64 "9223372036854775808" = Err "number too large to fit in target type"
  ∧ parse_i64 "+07" = Ok 7%Z ∧ parse_i64 "1_0" = Err "invalid digit found in string".
Proof. split_and!; vm_eq. Qed.

(** ** Optional values *)
Section option.
Context `{RS : RustStd} `{FS : FileSystem} `{TL : TomlLib} `{UC : UnicodeCase} (c : Config).

(** The visitor of [Option<T>] for a [T] that is deserialized by [d]; every
    other kind of value is an error of the visitor, [reject]. *)
Definition option_visitor {V} (reject : ConfigError) (d : ConfigKey → de V) : Visitor (option V) :=
  let no {A} (_ : A) : de (option V) := de_lift (Err reject) in
  mkVisitor (option V) no no no (de_lift (Ok None)) (λ key, let+ v := d key in de_lift (Ok (Some v)))
    no no no no.

Definition plain_visitor {V} (reject : ConfigError) (f : string → V) : Visitor V :=
  let no {A} (_ : A) : de V := de_lift (Err reject) in
  mkVisitor V no no (λ s, de_lift (Ok (f s))) (de_lift (Err reject)) no no no no no.

(** [config.get::<Option<String>>(key)] *)
Definition get_option_string (reject : ConfigError) (key : string) : de (option string) :=
  deserialize_option c (option_visitor reject (deserialize_string c (plain_visitor reject id)))
    (key_from_str key).

Lemma has_key_env_prefix key other v : env c !! key_to_env key = None →
  env c !! other = Some v → starts_with (key_to_env key ++ "_") other = true →
  has_key c key = Ok true.
Proof.
  intros Hnone Hother Hpre. unfold has_key. rewrite bool_decide_eq_false_2 by (by rewrite Hnone; intros []).
  assert (existsb (starts_with (key_to_env key ++ "_")) (hm_iter (env c)).*1 = true) as ->; [|done].
  apply existsb_exists. exists other. split; [|done]. apply list_elem_of_In, list_elem_of_fmap.
  exists (other, v). split; [done|]. by apply elem_of_hm_iter.
Qed.

(** Reading an optional string gives the string of the environment or of the files, and nothing
    when neither has the key, except that a variable of the environment whose name merely continues
    the one of the key (as CARGO_BUILD_TARGET_DIR continues CARGO_BUILD_TARGET) turns the
    answer for an absent key into an error. *)
Theorem get_option_string_spec reject key : 
  let k := key_from_str key in
  get_cv c (key_to_config k) = Ok None →
  (get_option_string reject key).2 =
    match env c !! key_to_env k with
    | Some v => Ok (Some v)
    | None => if existsb (starts_with (key_to_env k ++ "_")) (hm_iter (env c)).*1
              then Err (ce_missing (key_to_config k))
              else Ok None
    end.
Proof.
  intros k Hcv. unfold get_option_string, deserialize_option, deserialize_string, deserialize_method.
  fold k. clearbody k. unfold has_key, get_string_priv, get_env. destruct (env c !! key_to_env k) as [v|] eqn:Hv.
  - rewrite bool_decide_eq_true_2 by eauto. cbn -[key_to_env key_to_config]. by rewrite Hv.
  - rewrite bool_decide_eq_false_2 by (by intros []).
    rewrite Hcv. destruct (existsb _ _); cbn -[key_to_env key_to_config]; [|done].
    rewrite Hv. cbn -[key_to_env key_to_config]. by rewrite Hcv.
Qed.
End option.

(** ** Credentials *)
Section credentials_facts.
Context `{TL : TomlLib}.

(** Logging in keeps every other entry of the credentials file, moves an old token to the table of
    the default registry, and stores the new token where it is looked up: under the default registry,
    or under the named one, whose table then becomes the only one of all named registries. *)
Theorem save_credentials_spec file contents token registry t :
  toml_from_str contents = Ok (TTable t) →
  ∃ t', save_credentials file contents token registry = Ok (toml_to_string (TTable t')) ∧
    t' !! "token" = None ∧
    (∀ k, k ≠ "token" → k ≠ "registry" → k ≠ "registries" → t' !! k = t !! k) ∧
    match registry with
    | None => t' !! "registry" = Some (TTable {["token" := TString token]}) ∧
              t' !! "registries" = t !! "registries"
    | Some r =>
        t' !! "registry" = match t !! "token" with
                           | Some old => Some (TTable {["token" := old]})
                           | None => t !! "registry"
                           end ∧
        t' !! "registries" = Some (TTable {[r := TTable {["token" := TString token]}]})
    end.
Proof.
  intros Hparse. unfold save_credentials, token_entry, parse_toml. rewrite Hparse.
  assert (Htok : into_toml (CTable {["token" := CString token file]} file)
                 = TTable {["token" := TString token]}).
  { simpl. by rewrite map_fmap_singleton. }
  assert (Hold : ∀ k, move_old_token t !! k =
    match t !! "token" with
    | Some old => if decide (k = "registry") then Some (TTable {["token" := old]})
                  else if decide (k = "token") then None else t !! k
    | None => t !! k
    end).
  { intros k. unfold move_old_token. destruct (t !! "token"); [|done].
    destruct (decide (k = "registry")) as [->|]; [by rewrite lookup_insert_eq|].
    rewrite lookup_insert_ne by done. destruct (decide (k = "token")) as [->|];
      [by rewrite lookup_delete_eq|by rewrite lookup_delete_ne]. }
  destruct registry as [r|]; simpl; eexists; (split; [done|]).
  - split; [|split; [|split]].
    + rewrite lookup_insert_ne, Hold by done. by destruct (t !! "token") eqn:Ht.
    + intros k H1 H2 H3. rewrite lookup_insert_ne, Hold by done.
      destruct (t !! "token"); [|done]. by rewrite !decide_False by done.
    + rewrite lookup_insert_ne, Hold by done. done.
    + by rewrite lookup_insert_eq, map_fmap_singleton, Htok.
  - split; [|split; [|split]].
    + rewrite lookup_insert_ne, Hold by done. by destruct (t !! "token") eqn:Ht.
    + intros k H1 H2 H3. rewrite lookup_insert_ne, Hold by done.
      destruct (t !! "token"); [|done]. by rewrite !decide_False by done.
    + by rewrite lookup_insert_eq, <-Htok.
    + rewrite lookup_insert_ne, Hold by done. by destruct (t !! "token").
Qed.
End credentials_facts.

(** * Concrete runs *)
Section runs.

(** Files given by a list, a reader of lines [a.b = v] without blanks, where a
    value in brackets is a list, and the ASCII upper case. *)
Definition listed_files (l : list (path * string)) : FileSystem := {|
  fs_exists p := existsb (λ x, path_eqb p x.1) l;
  fs_open p := match List.find (λ x, path_eqb p x.1) l with
               | Some x => Ok (Ok x.2)
               | None => Err "No such file or directory"
               end;
|}.
Fixpoint put (ks : list string) (v : toml) (t : gmap string toml) : gmap string toml :=
  match ks with
  | [] => t
  | [k] => <[k := v]> t
  | k :: ks => <[k := TTable (put ks v (match t !! k with Some (TTable u) => u | _ => ∅ end))]> t
  end.
Definition line_value (v : string) : toml :=
  if starts_with "[" v
  then TArray (TString <$> split_char "," (str_take (String.length v - 2) (str_drop 1 v)))
  else match parse_i64 v with Ok i => TInteger i | _ => TString v end.
Definition read_line (t : gmap string toml) (line : string) : gmap string toml :=
  match split_once "=" line with
  | (k, Some v) => put (split_char "." k) (line_value v) t
  | _ => t
  end.
Definition line_toml : TomlLib := {|
  toml_from_str s := Ok (TTable (fold_left read_line (split_char (ch 10) s) ∅));
  toml_from_str_legacy s := Err "unsupported";
  toml_to_string v := "";
|}.
Definition upper_char (c : ascii) : ascii :=
  if in_range "a" "z" c then ascii_of_nat (nat_of_ascii c - 32) else c.
Fixpoint upper (s : string) : string :=
  match s with EmptyString => EmptyString | String c s => String (upper_char c) (upper s) end.
Definition ascii_case : UnicodeCase := {| to_uppercase := upper |}.

Local Existing Instance std_order.
Local Existing Instance line_toml.
Local Existing Instance ascii_case.

Definition lines (l : list string) : string := join (String (ch 10) "") l.
Definition sample_files : FileSystem := listed_files [
  ("/w/p/.cargo/config", lines ["build.jobs=1"; "paths=[a]"]);
  ("/w/.cargo/config", lines ["build.jobs=2"; "build.target=x"; "paths=[b,c]"]);
  ("/h/config", "term.color=always");
  ("/h/credentials", "token=secret")].
Definition sample_config (e : gmap string string) : Config :=
  mkConfig "/h" (mkShell Normal (Some ColorAuto)) None "/w/p/q" false false false cli_default None e ∅.

Definition loaded (r : cresult (gmap string CV * list string)) : gmap string CV :=
  match r with Ok (vals, _) => vals | _ => ∅ end.
Definition read_at (r : cresult (gmap string CV * list string)) (ks : list string) : option CV :=
  get (CTable (loaded r) ".") ks.

Local Existing Instance sample_files.
Definition sample_load := load_values (sample_config ∅).
Definition warned_of (r : cresult (gmap string CV * list string)) : list string :=
  match r with Ok (_, w) => w | _ => [] end.

Example sample_values :
  read_at sample_load ["build"; "jobs"] = Some (CInteger 1 "/w/p/.cargo/config")
  ∧ read_at sample_load ["build"; "target"] = Some (CString "x" "/w/.cargo/config")
  ∧ read_at sample_load ["paths"]
    = Some (CList [("a", "/w/p/.cargo/config"); ("b", "/w/.cargo/config"); ("c", "/w/.cargo/config")]
              "/w/p/.cargo/config")
  ∧ read_at sample_load ["registry"; "token"] = Some (CString "secret" "/h/credentials").
Proof. split_and!; vm_eq. Qed.

Lemma loaded_spec r : is_ok r = true → r = Ok (loaded r, warned_of r).
Proof. by destruct r as [[vals w]| |]. Qed.

Lemma load_values_spec_witness :
  load_values_from (sample_config ∅) "/w/p/q" = Ok (loaded sample_load, warned_of sample_load) ∧
  ∃ cred vs, credentials_value (sample_config ∅) cred ∧
    Forall2 (λ f v, fst <$> read_value f = Ok v) (config_files None "/w/p/q" "/h") vs ∧
    ∀ k ks, top <$> get (CTable (loaded sample_load) ".") (k :: ks)
            = overlay (get cred (k :: ks)) (overlays ((λ v, get v (k :: ks)) <$> vs)).
Proof.
  assert (H : load_values_from (sample_config ∅) "/w/p/q"
              = Ok (loaded sample_load, warned_of sample_load)) by (apply loaded_spec; vm_eq).
  split; [exact H|]. exact (load_values_spec (sample_config ∅) "/w/p/q" _ _ H).
Defined.

(** The schema of the sample files. *)
Definition one (k : string) (τ : cty) (f : string → option cty) (k' : string) : option cty :=
  if String.eqb k k' then Some τ else f k'.
Definition nothing (_ : string) : option cty := None.
Definition sample_fields : string → option cty :=
  one "build" (TyTable (one "jobs" TyScalar (one "target" TyScalar nothing)))
    (one "paths" TyList (one "term" (TyTable (one "color" TyScalar nothing))
      (one "registry" (TyTable (one "token" TyScalar nothing)) nothing))).

Definition reads_asb (τ : cty) (f : path) : bool :=
  match read_value f with Ok (v, _) => typedb τ v | _ => false end.
Lemma reads_asb_true τ f : reads_asb τ f = true → reads_as τ f.
Proof.
  unfold reads_asb, reads_as. destruct (read_value f) as [[v w]| |]; try done.
  intros Hv. exists v, w. split; [done|]. by apply typedb_typed.
Qed.
Lemma all_read_as τ l : forallb (reads_asb τ) l = true → Forall (reads_as τ) l.
Proof.
  rewrite forallb_forall, Forall_forall. intros Hl f Hf. apply reads_asb_true, Hl. by apply list_elem_of_In.
Qed.
Definition credentials_as (τ : cty) (f : path) : bool :=
  match read_value f with Ok (CTable t q, _) => typedb τ (CTable (move_token t) q) | _ => false end.
Lemma credentials_as_true τ f : credentials_as τ f = true →
  ∃ t q w, read_value f = Ok (CTable t q, w) ∧ typed τ (CTable (move_token t) q).
Proof.
  unfold credentials_as. destruct (read_value f) as [[[| | |t q|] w]| |]; try done.
  intros Hv. exists t, q, w. split; [done|]. by apply typedb_typed.
Qed.

Lemma load_values_typed_witness :
  Forall (reads_as (TyTable sample_fields)) (config_files None "/w/p/q" "/h") ∧
  ∃ vals warned, load_values_from (sample_config ∅) "/w/p/q" = Ok (vals, warned) ∧
                 typed (TyTable sample_fields) (CTable vals ".").
Proof.
  assert (H : Forall (reads_as (TyTable sample_fields)) (config_files None "/w/p/q" "/h"))
    by (apply all_read_as; vm_eq).
  split; [exact H|]. apply (load_values_typed (sample_config ∅) "/w/p/q" sample_fields).
  - exact H.
  - intros _. apply credentials_as_true. vm_eq.
Defined.

Definition one_value : Config :=
  mkConfig "/h" (mkShell Normal None) (Some {["a" := CInteger 1 "/h/config"]}) "/w" false false false
    cli_default None ∅ ∅.

Lemma get_cv_spec_witness :
  values one_value = Ok {["a" := CInteger 1 "/h/config"]} ∧
  ((∃ pre v, blocked {["a" := CInteger 1 "/h/config"]} ["a"; "b"] pre v ∧
             get_cv one_value "a.b" = Err (blocked_error pre v))
   ∨ ((∀ pre v, ¬ blocked {["a" := CInteger 1 "/h/config"]} ["a"; "b"] pre v) ∧
      get_cv one_value "a.b" = Ok (get (CTable {["a" := CInteger 1 "/h/config"]} ".") ["a"; "b"]))).
Proof.
  split; [reflexivity|].
  exact (get_cv_spec one_value "a.b" {["a" := CInteger 1 "/h/config"]} eq_refl).
Defined.

Example get_cv_blocked : get_cv one_value "a.b"
  = Err "expected table for configuration key `a`, but found integer in /h/config".
Proof. vm_eq. Qed.

(** CARGO_BUILD_TARGET_DIR alone makes [build.target] an error. *)
Definition only_target_dir : Config :=
  mkConfig "/h" (mkShell Normal None) (Some ∅) "/w" false false false
    cli_default None {["CARGO_BUILD_TARGET_DIR" := "t"]} ∅.
Lemma get_option_string_witness :
  get_cv only_target_dir "build.target" = Ok None ∧
  (get_option_string only_target_dir (ce_custom "") "build.target").2
  = Err (ce_missing "build.target").
Proof.
  split; [vm_eq|].
  assert (H : get_cv only_target_dir (key_to_config (key_from_str "build.target")) = Ok None) by vm_eq.
  rewrite (get_option_string_spec only_target_dir (ce_custom "") "build.target" H). vm_eq.
Defined.

Lemma save_credentials_witness :
  toml_from_str "token=old" = Ok (TTable {["token" := TString "old"]}) ∧
  ∃ t', save_credentials "/h/credentials" "token=old" "new" (Some "mine")
        = Ok (toml_to_string (TTable t')) ∧
    t' !! "token" = None ∧
    (∀ k, k ≠ "token" → k ≠ "registry" → k ≠ "registries" →
          t' !! k = ({["token" := TString "old"]} : gmap string toml) !! k) ∧
    t' !! "registry" = Some (TTable {["token" := TString "old"]}) ∧
    t' !! "registries" = Some (TTable {["mine" := TTable {["token" := TString "new"]}]}).
Proof.
  assert (H : toml_from_str "token=old" = Ok (TTable {["token" := TString "old"]})) by reflexivity.
  split; [exact H|].
  exact (save_credentials_spec "/h/credentials" "token=old" "new" (Some "mine") _ H).
Defined.
End runs.
