(* ===== verification/SourceConfig.v ===== *)
(** The [source.*] tables of the configuration, [src/cargo/sources/config.rs]:
    which sources they name, and [load], which follows [replace-with] from a
    source to the one that stands for it.  The sources it makes are those of
    [SourceId::load] in [src/cargo/core/source/source_id.rs]. *)
From Stdlib Require Import ListDec.
From S2P Require Import Prelude Str Extern Path SourceId ConfigValue Config.

Local Open Scope string_scope.

Section source_config.
Context `{UL : UrlLib} `{RS : RustStd} `{FS : FileSystem} `{TL : TomlLib} `{UC : UnicodeCase}.
(** [short_hash], a hash of the standard library printed in hexadecimal, and
    the two questions [get_registry_index] asks of a URL. *)
Context (short_hash : Url → string) (url_username : Url → string) (url_password : Url → option string).

(** * Sources by kind *)
Inductive LoadedSource :=
| GitSource (id : SourceId) (ident : string) (reference : GitReference)
| PathSource (id : SourceId) (p : path)
| RegistrySource (id : SourceId)
| LocalRegistrySource (id : SourceId) (p : path)
| DirectorySource (id : SourceId) (p : path)
| ReplacedSource (to_replace replace_with : SourceId) (inner : LoadedSource).

Fixpoint supports_checksums (s : LoadedSource) : bool :=
  match s with
  | GitSource _ _ _ => false
  | PathSource _ _ => false
  | RegistrySource _ | LocalRegistrySource _ _ => true
  | DirectorySource _ _ => true
  | ReplacedSource _ _ inner => supports_checksums inner
  end.
Fixpoint requires_precise (s : LoadedSource) : bool :=
  match s with
  | GitSource _ _ _ => true
  | PathSource _ _ => false
  | RegistrySource _ | LocalRegistrySource _ _ => false
  | DirectorySource _ _ => true
  | ReplacedSource _ _ inner => requires_precise inner
  end.
Definition loaded_source_id (s : LoadedSource) : SourceId :=
  match s with
  | GitSource id _ _ | PathSource id _ | RegistrySource id
  | LocalRegistrySource id _ | DirectorySource id _ => id
  | ReplacedSource to_replace _ _ => to_replace
  end.
Definition replaced_source_id (s : LoadedSource) : SourceId :=
  match s with
  | ReplacedSource _ replace_with _ => replace_with
  | s => loaded_source_id s
  end.

(** [ident] and [GitSource::new] of [src/cargo/sources/git/source.rs] *)
Definition ident (url : Url) : cresult string :=
  url ← canonicalize_url url;
  let ident := default "" (url_path_segments url ≫= last) in
  let ident := if is_empty ident then "_empty" else ident in
  Ok (ident ++ "-" ++ short_hash url).
Definition git_source_new (id : SourceId) (reference : GitReference) : cresult LoadedSource :=
  ident ← ident (sid_url id);
  Ok (GitSource id ident (match sid_precise id with Some s => Rev s | None => reference end)).

(** [SourceId::load] *)
Definition local_path (id : SourceId) : cresult path :=
  match url_to_file_path (sid_url id) with
  | Some p => Ok p
  | None => Panic "path sources cannot be remote"
  end.
Definition source_load (id : SourceId) : cresult LoadedSource :=
  match sid_kind id with
  | Git reference => git_source_new id reference
  | Path => p ← local_path id; Ok (PathSource id p)
  | Registry => Ok (RegistrySource id)
  | LocalRegistry => p ← local_path id; Ok (LocalRegistrySource id p)
  | Directory => p ← local_path id; Ok (DirectorySource id p)
  end.

(** * Registries of the configuration *)

(** [Config::get_registry_index] *)
Definition get_registry_index (c : Config) (registry : string) : cresult Url :=
  index ← get_string c ("registries." ++ registry ++ ".index");
  match index with
  | Some index =>
      url ← str_to_url (val index);
      if negb (String.eqb (url_username url) "") || bool_decide (is_Some (url_password url))
      then Err "Registry URLs may not contain credentials"
      else Ok url
  | None => Err ("No index found for registry: `" ++ registry ++ "`")
  end.

(** [registry_configuration] of [src/cargo/ops/registry.rs] *)
Record RegistryConfig := mkRegistryConfig { index : option string; token : option string }.
Definition registry_configuration (c : Config) (registry : option string) : cresult RegistryConfig :=
  match registry with
  | Some registry =>
      url ← get_registry_index c registry;
      token ← get_string c ("registries." ++ registry ++ ".token");
      Ok (mkRegistryConfig (Some (url_as_str url)) (val <$> token))
  | None =>
      index ← get_string c "registry.index";
      token ← get_string c "registry.token";
      Ok (mkRegistryConfig (val <$> index) (val <$> token))
  end.

(** [SourceId::crates_io]; the warning about [registry.index] is left out. *)
Definition crates_io (c : Config) : cresult SourceId :=
  cfg ← registry_configuration c None;
  url ← str_to_url (default CRATES_IO_INDEX (index cfg));
  for_registry url.

(** * [SourceConfigMap] *)
Record SourceConfig := mkSourceConfig {
  sc_id : SourceId;
  replace_with : option (string * path);
}.
Record SourceConfigMap := mkSourceConfigMap {
  cfgs : gmap string SourceConfig;
  id2name : hashmap SourceId string;
}.
Definition CRATES_IO_REGISTRY : string := "crates-io".

Definition add (m : SourceConfigMap) (name : string) (cfg : SourceConfig) : SourceConfigMap :=
  mkSourceConfigMap (<[name := cfg]> (cfgs m)) (hinsert (sc_id cfg) name (id2name m)).

Definition empty_map (c : Config) : cresult SourceConfigMap :=
  id ← crates_io c;
  Ok (add (mkSourceConfigMap ∅ ∅) CRATES_IO_REGISTRY (mkSourceConfig id None)).

(** [url], the inner function of [add_config] *)
Definition cfg_url (cfg : CV) (key : string) : cresult Url :=
  '(url, p) ← cv_string cfg key;
  chain_err ("configuration key `" ++ key ++ "` specified an invalid URL (in " ++ p ++ ")")
    (str_to_url url).

(** A relative path of a local source starts where [.cargo] is. *)
Definition local_source (v : CV) (key : string) : cresult path :=
  '(s, p) ← cv_string v key;
  Ok (path_join (path_pop (path_pop p)) s).

(** The closure [try], and the reference of a git source. *)
Definition try_key (table : gmap string CV) (name s : string) : cresult (option string) :=
  match table !! s with
  | None => Ok None
  | Some v => '(b, _) ← cv_string v ("source." ++ name ++ "." ++ s); Ok (Some b)
  end.
Definition cfg_reference (table : gmap string CV) (name : string) : cresult GitReference :=
  branch ← try_key table name "branch";
  match branch with
  | Some b => Ok (Branch b)
  | None =>
      tag ← try_key table name "tag";
      match tag with
      | Some b => Ok (Tag b)
      | None =>
          rev ← try_key table name "rev";
          match rev with
          | Some b => Ok (Rev b)
          | None => Ok (Branch "master")
          end
      end
  end.

(** The sources a table specifies, in the order they are pushed. *)
Definition when_key (table : gmap string CV) (key : string) (f : CV → cresult SourceId)
    (srcs : list SourceId) : cresult (list SourceId) :=
  match table !! key with
  | Some v => id ← f v; Ok (srcs ++ [id])%list
  | None => Ok srcs
  end.
Definition cfg_sources (c : Config) (name : string) (table : gmap string CV) : cresult (list SourceId) :=
  let key (s : string) := "source." ++ name ++ "." ++ s in
  srcs ← when_key table "registry" (λ v, url ← cfg_url v (key "registry"); for_registry url) [];
  srcs ← when_key table "local-registry"
           (λ v, p ← local_source v (key "local-registry"); for_local_registry p) srcs;
  srcs ← when_key table "directory" (λ v, p ← local_source v (key "directory"); for_directory p) srcs;
  srcs ← when_key table "git"
           (λ v, url ← cfg_url v (key "git"); reference ← cfg_reference table name; for_git url reference)
           srcs;
  if String.eqb name "crates-io" && bool_decide (length srcs = 0)
  then id ← crates_io c; Ok [id] else Ok srcs.

Definition add_config (c : Config) (m : SourceConfigMap) (name : string) (cfg : CV)
    : cresult SourceConfigMap :=
  '(table, _) ← cv_table cfg ("source." ++ name);
  srcs ← cfg_sources c name table;
  match srcs with
  | [] => Err ("no source URL specified for `source." ++ name
               ++ "`, need either `registry` or `local-registry` defined")
  | _ :: _ :: _ => Err ("more than one source URL specified for `source." ++ name ++ "`")
  | [src] =>
      replace_with ← match table !! "replace-with" with
                     | Some v =>
                         '(s, p) ← cv_string v ("source." ++ name ++ ".replace-with");
                         Ok (Some (s, p))
                     | None => Ok None
                     end;
      Ok (add m name (mkSourceConfig src replace_with))
  end.

Definition new_map (c : Config) : cresult SourceConfigMap :=
  base ← empty_map c;
  table ← get_table c "source";
  match table with
  | Some table => foldM (λ m '(key, v), add_config c m key v) base (hm_iter (val table))
  | None => Ok base
  end.

(** * [load] *)
Inductive Replacement := Same | Replaced (new_id : SourceId).

Definition not_configured (name orig_name : string) (p : path) : string :=
  "could not find a configured source with the name `" ++ name ++ "` when attempting to lookup `"
  ++ orig_name ++ "` (configuration in `" ++ p ++ "`)".
Definition cycle_message (name : string) (p : path) : string :=
  "detected a cycle of `replace-with` sources, the source `" ++ name
  ++ "` is eventually replaced with itself (configuration in `" ++ p ++ "`)".

(** The [loop]: each turn looks up the current name; with a [replace-with] it
    goes on from that name, which must not be the one it started from. *)
Fixpoint follow (fuel : nat) (m : SourceConfigMap) (id : SourceId) (orig_name name : string) (p : path)
    : option (cresult (Replacement * string)) :=
  match fuel with
  | O => None
  | S fuel =>
      match cfgs m !! name with
      | None => Some (Err (not_configured name orig_name p))
      | Some cfg =>
          match replace_with cfg with
          | Some (s, q) =>
              if String.eqb s orig_name then Some (Err (cycle_message s q))
              else follow fuel m id orig_name s q
          | None =>
              if source_id_eq id (sc_id cfg) then Some (Ok (Same, name))
              else Some (Ok (Replaced (with_precise (sc_id cfg) (sid_precise id)), name))
          end
      end
  end.

Definition checksum_message (orig name : string) : string :=
  "cannot replace `" ++ orig ++ "` with `" ++ name ++ "`, the source `" ++ orig
  ++ "` supports checksums, but `" ++ name ++ "` does not" ++ nl ++ nl
  ++ "a lock file compatible with `" ++ orig ++ "` cannot be generated in this situation" ++ nl.
Definition precise_message (orig : string) : string :=
  "the source " ++ orig ++ " requires a lock file to be present first before it can be" ++ nl
  ++ "used against vendored source code" ++ nl ++ nl
  ++ "remove the source replacement configuration, generate a lock file, and then" ++ nl
  ++ "restore the source replacement configuration to continue the build" ++ nl.

(** What follows the loop. *)
Definition replace (id : SourceId) (orig_name name : string) (r : Replacement) : cresult LoadedSource :=
  match r with
  | Same => source_load id
  | Replaced new_id =>
      new_src ← source_load new_id;
      old_src ← source_load id;
      if negb (supports_checksums new_src) && supports_checksums old_src
      then Err (checksum_message orig_name name)
      else if requires_precise old_src && bool_decide (sid_precise id = None)
      then Err (precise_message orig_name)
      else Ok (ReplacedSource id new_id new_src)
  end.

Definition load (fuel : nat) (m : SourceConfigMap) (id : SourceId) : option (cresult LoadedSource) :=
  match hget (id2name m) id with
  | None => Some (source_load id)
  | Some orig_name =>
      let* (r, name) := follow fuel m id orig_name orig_name "/" in
      Some (replace id orig_name name r)
  end.

(** * Facts *)

(** The name behind a [replace-with], and the name [n] of them away. *)
Definition replaced_by (m : SourceConfigMap) (name : string) : option string :=
  match cfgs m !! name with Some cfg => fst <$> replace_with cfg | None => None end.
Fixpoint steps (m : SourceConfigMap) (n : nat) (name : string) : option string :=
  match n with
  | O => Some name
  | S n => match replaced_by m name with Some s => steps m n s | None => None end
  end.

Lemma steps_add m i j name :
  steps m (i + j) name = match steps m i name with Some s => steps m j s | None => None end.
Proof.
  revert name. induction i as [|i IH]; intros name; [done|]. simpl.
  by destruct (replaced_by m name).
Qed.

Lemma steps_prefix m i j name : (i ≤ j)%nat → is_Some (steps m j name) → is_Some (steps m i name).
Proof.
  intros Hle. replace j with (i + (j - i))%nat by lia. rewrite steps_add.
  destruct (steps m i name); [by eauto|by intros []].
Qed.

(** The loop runs out of fuel when every turn finds a next name, never the first one. *)
Lemma follow_none m id orig fuel name p :
  follow fuel m id orig name p = None ↔
  ∀ i, (i < fuel)%nat → ∃ s, steps m (S i) name = Some s ∧ s ≠ orig.
Proof.
  revert name p. induction fuel as [|fuel IH]; intros name p; [split; [lia|done]|].
  cbn [follow].
  assert (Hend : replaced_by m name = None →
    ¬ ∀ i, (i < S fuel)%nat → ∃ s, steps m (S i) name = Some s ∧ s ≠ orig).
  { intros Hn Hall. destruct (Hall 0 ltac:(lia)) as (s & Hs & _). simpl in Hs. by rewrite Hn in Hs. }
  destruct (cfgs m !! name) as [cfg|] eqn:Hcfg.
  2: { split; [done|]. intros Hall. destruct Hend; [|done]. unfold replaced_by. by rewrite Hcfg. }
  destruct (replace_with cfg) as [[s q]|] eqn:Hr.
  2: { split; [by destruct (source_id_eq id (sc_id cfg))|]. intros Hall. destruct Hend; [|done].
       unfold replaced_by. by rewrite Hcfg, Hr. }
  assert (Hnext : ∀ i, steps m (S i) name = steps m i s).
  { intros i. simpl. unfold replaced_by. by rewrite Hcfg, Hr. }
  destruct (String.eqb_spec s orig) as [->|Hne].
  - split; [done|]. intros Hall. destruct (Hall 0 ltac:(lia)) as (s & Hs & Hso).
    rewrite Hnext in Hs. simpl in Hs. congruence.
  - rewrite IH. split.
    + intros Hall [|i] Hi; rewrite Hnext; [by exists s|]. apply Hall. lia.
    + intros Hall i Hi. rewrite <-Hnext. apply Hall. lia.
Qed.

(** More names than a set has members repeat. *)
Lemma pigeonhole `{Countable A} (l : list A) (s : gset A) :
  (∀ x, x ∈ l → x ∈ s) → (size s < length l)%nat →
  ∃ i j x, (i < j)%nat ∧ l !! i = Some x ∧ l !! j = Some x.
Proof.
  intros Hsub Hlt. assert (Hdup : ¬ List.NoDup l).
  { rewrite <-NoDup_ListNoDup. intros Hnd. pose proof (size_list_to_set (C:=gset A) l Hnd) as Hsz.
    assert (Hss : (list_to_set l : gset A) ⊆ s) by (intros x Hx%elem_of_list_to_set; by apply Hsub).
    apply subseteq_size in Hss. lia. }
  assert (Hdec : ListDec.decidable_eq A) by (intros x y; unfold Decidable.decidable; destruct (decide (x = y)); auto).
  destruct (not_NoDup Hdec Hdup) as (a & l1 & l2 & l3 & ->).
  exists (length l1), (length l1 + S (length l2))%nat, a. split; [lia|]. split.
  - by rewrite lookup_app_r, Nat.sub_diag by lia.
  - rewrite lookup_app_r by lia. replace (_ - _)%nat with (S (length l2)) by lia.
    simpl. by rewrite lookup_app_r, Nat.sub_diag by lia.
Qed.

(** A chain of [replace-with] that enters a cycle without its origin. *)
Definition lasso (m : SourceConfigMap) (orig : string) : Prop :=
  ∃ i k x, steps m (S i) orig = Some x ∧ steps m (S k) x = Some x ∧ ∀ n, steps m (S n) orig ≠ Some orig.

Lemma lasso_forever m id orig p fuel : lasso m orig → follow fuel m id orig orig p = None.
Proof.
  intros (i & k & x & Hx & Hk & Hno). apply follow_none. intros j _.
  assert (Hloop : ∀ n, steps m (n * S k) x = Some x).
  { induction n as [|n IH]; [done|]. change (S n * S k)%nat with (S k + n * S k)%nat.
    by rewrite steps_add, Hk. }
  assert (Hsome : is_Some (steps m (S i + S j * S k) orig)).
  { rewrite steps_add, Hx, Hloop. eauto. }
  apply (steps_prefix m (S j)) in Hsome as [s Hs]; [|lia].
  exists s. split; [done|]. intros ->. by apply (Hno j).
Qed.

Lemma many_steps_lasso m id orig p :
  follow (S (size (cfgs m))) m id orig orig p = None → lasso m orig.
Proof.
  intros Hf. rewrite follow_none in Hf. set (N := size (cfgs m)) in *.
  assert (Hnames : ∀ i, (i ≤ N)%nat → ∃ x, steps m i orig = Some x ∧ x ∈ dom (cfgs m)).
  { intros i Hi. destruct (Hf i ltac:(lia)) as (s & Hs & _). replace (S i) with (i + 1)%nat in Hs by lia.
    rewrite steps_add in Hs. destruct (steps m i orig) as [x|]; [|done]. exists x. split; [done|].
    simpl in Hs. unfold replaced_by in Hs. destruct (cfgs m !! x) eqn:Hx; [|done]. by eapply elem_of_dom_2. }
  set (l := omap (λ i, steps m i orig) (seq 0 (S N))).
  assert (Hl : ∀ n, (n ≤ S N)%nat → (λ i, steps m i orig) <$> seq 0 n = Some <$> omap (λ i, steps m i orig) (seq 0 n)).
  { induction n as [|n IH]; intros Hn; [done|]. rewrite seq_S, fmap_app, omap_app, fmap_app, IH by lia.
    f_equal. simpl. destruct (Hnames n ltac:(lia)) as (x & -> & _). done. }
  specialize (Hl (S N) ltac:(done)). fold l in Hl.
  assert (Hlen : length l = S N).
  { apply (f_equal length) in Hl. by rewrite !length_fmap, length_seq in Hl. }
  assert (Hat : ∀ i x, l !! i = Some x → steps m i orig = Some x ∧ (i ≤ N)%nat).
  { intros i x Hi. pose proof (lookup_lt_Some _ _ _ Hi) as Hlt.
    apply (f_equal (lookup i)) in Hl. rewrite !list_lookup_fmap, Hi, lookup_seq_lt in Hl by lia.
    simpl in Hl. split; [congruence|lia]. }
  destruct (pigeonhole l (dom (cfgs m))) as (i & j & x & Hij & [Hi _]%Hat & [Hj Hjn]%Hat).
  { intros x [i [Hi Hle]%Hat]%list_elem_of_lookup. destruct (Hnames i Hle) as (y & Hy & Hd). congruence. }
  { rewrite size_dom, Hlen. unfold N. lia. }
  assert (Hno : ∀ n, (n ≤ N)%nat → steps m (S n) orig ≠ Some orig).
  { intros n Hn Ho. destruct (Hf n ltac:(lia)) as (s & Hs & Hne). congruence. }
  destruct i as [|i].
  { simpl in Hi. simplify_eq. destruct j as [|j]; [lia|]. exfalso. apply (Hno j); [lia|done]. }
  assert (Hk : steps m (S (j - S (S i))) x = Some x).
  { replace j with (S i + S (j - S (S i)))%nat in Hj by lia. by rewrite steps_add, Hi in Hj. }
  assert (Hback : ∀ n, (S n ≤ N)%nat ∨ ∃ n', (n' < S n)%nat ∧ (S i ≤ n')%nat ∧ steps m n' orig = steps m (S n) orig).
  { intros n. destruct (decide (S n ≤ N)%nat) as [|Hn]; [by left|right].
    exists (S n - S (j - S (S i)))%nat. split; [lia|]. split; [lia|].
    replace (S n) with (S i + (S (j - S (S i)) + (S n - S i - S (j - S (S i)))))%nat at 2 by lia.
    replace (S n - S (j - S (S i)))%nat with (S i + (S n - S i - S (j - S (S i))))%nat at 1 by lia.
    by rewrite !steps_add, Hi, steps_add, Hk. }
  exists i, (j - S (S i))%nat, x. split; [done|]. split; [done|]. intros n.
  induction (lt_wf n) as [n _ IHn]. destruct (Hback n) as [Hn|(n' & Hlt & Hge & <-)]; [apply Hno; lia|].
  destruct n' as [|n']; [lia|]. apply IHn. lia.
Qed.

(** C38. Following [replace-with] from a source returns within as many turns as there are configured
    sources, and one more, unless the chain enters a cycle that its origin is not part of; then no
    number of turns suffices, because only a return to the origin is noticed. *)
Theorem load_returns m id orig : hget (id2name m) id = Some orig →
  ((∃ r, load (S (size (cfgs m))) m id = Some r) ↔ ¬ lasso m orig) ∧
  (lasso m orig → ∀ fuel, load fuel m id = None).
Proof.
  intros Horig.
  assert (Hnone : ∀ fuel, load fuel m id = None ↔ follow fuel m id orig orig "/" = None).
  { intros fuel. unfold load. rewrite Horig. by destruct (follow _ _ _ _ _ _) as [[[] | |]|]. }
  split; [|intros Hl fuel; by apply Hnone, lasso_forever]. split.
  - intros [r Hr] Hl. apply (lasso_forever m id orig "/" (S (size (cfgs m)))), Hnone in Hl. congruence.
  - intros Hl. destruct (load _ m id) eqn:Hr; [eauto|]. apply Hnone, many_steps_lasso in Hr. done.
Qed.

(** What the loop finds when it stops. *)
Inductive outcome (m : SourceConfigMap) (id : SourceId) (orig : string)
    : cresult (Replacement * string) → Prop :=
| out_missing n name p :
    steps m n orig = Some name → cfgs m !! name = None →
    outcome m id orig (Err (not_configured name orig p))
| out_cycle n p : steps m (S n) orig = Some orig → outcome m id orig (Err (cycle_message orig p))
| out_end n name cfg :
    steps m n orig = Some name → cfgs m !! name = Some cfg → replace_with cfg = None →
    outcome m id orig
      (Ok (if source_id_eq id (sc_id cfg) then Same
           else Replaced (with_precise (sc_id cfg) (sid_precise id)), name)).

Lemma follow_outcome m id orig fuel n name p r :
  steps m n orig = Some name → follow fuel m id orig name p = Some r → outcome m id orig r.
Proof.
  revert n name p. induction fuel as [|fuel IH]; intros n name p Hn; [done|]. cbn [follow].
  destruct (cfgs m !! name) as [cfg|] eqn:Hcfg; [|intros [= <-]; by eapply out_missing].
  destruct (replace_with cfg) as [[s q]|] eqn:Hr.
  - assert (Hs : steps m (n + 1) orig = Some s).
    { rewrite steps_add, Hn. simpl. unfold replaced_by. by rewrite Hcfg, Hr. }
    destruct (String.eqb_spec s orig) as [->|Hne]; [|by apply (IH (n + 1)%nat)].
    intros [= <-]. apply (out_cycle m id orig n). by rewrite Nat.add_comm in Hs.
  - intros Hf. assert (Ho : r = Ok (if source_id_eq id (sc_id cfg) then Same
      else Replaced (with_precise (sc_id cfg) (sid_precise id)), name)).
    { by destruct (source_id_eq id (sc_id cfg)); simplify_eq. }
    subst r. by eapply out_end.
Qed.

Lemma source_load_id id s : source_load id = Ok s →
  loaded_source_id s = id ∧ replaced_source_id s = id.
Proof.
  unfold source_load, git_source_new. destruct (sid_kind id); intros Hs;
    try (apply bind_Ok_inv in Hs as (x & _ & [= <-]); done). by injection Hs as <-.
Qed.

(** C39. What [load] gives when it returns: a source nothing is configured for is loaded as it is; else
    the chain of [replace-with] from its name is followed to its end, a missing name and a return to
    the origin being errors.  A source that is given answers for the one asked for, keeps its locked
    revision, and never replaces a source with checksums by one without. *)
Theorem load_spec fuel m id r : load fuel m id = Some r →
  match hget (id2name m) id with
  | None => r = source_load id
  | Some orig => ∃ out, outcome m id orig out ∧
                        r = ('(rep, name) ← out; replace id orig name rep)
  end ∧
  ∀ s, r = Ok s →
    loaded_source_id s = id ∧ sid_precise (replaced_source_id s) = sid_precise id ∧
    ∀ old, source_load id = Ok old →
      (supports_checksums old = true → supports_checksums s = true) ∧
      (requires_precise old = true → s = old ∨ is_Some (sid_precise id)).
Proof.
  intros Hload.
  assert (Hfirst : match hget (id2name m) id with
    | None => r = source_load id
    | Some orig => ∃ out, outcome m id orig out ∧ r = ('(rep, name) ← out; replace id orig name rep)
    end).
  { unfold load in Hload. destruct (hget (id2name m) id) as [orig|]; [|by simplify_eq].
    destruct (follow fuel m id orig orig "/") as [out|] eqn:Hf; [|done].
    exists out. split; [by apply (follow_outcome m id orig fuel 0 orig "/")|].
    destruct out as [[rep name]| |]; by simplify_eq/=. }
  split; [done|]. intros s ->. clear Hload.
  assert (Hcase : source_load id = Ok s ∨ ∃ orig name new_id new_src old_src,
    source_load new_id = Ok new_src ∧ source_load id = Ok old_src ∧
    sid_precise new_id = sid_precise id ∧ s = ReplacedSource id new_id new_src ∧
    replace id orig name (Replaced new_id) = Ok s).
  { destruct (hget (id2name m) id) as [orig|]; [|by left].
    destruct Hfirst as (out & Hout & Hs). destruct Hout as [| |n name cfg Hn Hcfg Hend]; try done.
    cbn in Hs. destruct (source_id_eq id (sc_id cfg)); [by left|right]. symmetry in Hs.
    pose proof Hs as Hrep. unfold replace in Hs.
    apply bind_Ok_inv in Hs as (new_src & Hnew & (old_src & Hold & Hs)%bind_Ok_inv).
    exists orig, name, (with_precise (sc_id cfg) (sid_precise id)), new_src, old_src.
    split; [done|]. split; [done|]. split; [done|]. split; [|done]. repeat case_match; by simplify_eq. }
  destruct Hcase as [Hs|(orig & name & new_id & new_src & old_src & Hnew & Hold & Hp & -> & Hrep)].
  - pose proof (source_load_id id s Hs) as [H1 H2]. rewrite H1, H2. split; [done|]. split; [done|].
    intros old Hold. split; [|left]; congruence.
  - split; [done|]. split; [done|]. intros old Ho. simplify_eq.
    unfold replace in Hrep. rewrite Hnew, Ho in Hrep. cbn [mbind res_mbind res_bind] in Hrep.
    change (supports_checksums (ReplacedSource id new_id new_src)) with (supports_checksums new_src).
    split.
    + intros Hc. rewrite Hc, andb_true_r in Hrep. by destruct (supports_checksums new_src).
    + intros Hq. right. rewrite Hq in Hrep. destruct (sid_precise id); [by eauto|].
      by destruct (negb _ && _).
Qed.
End source_config.

(** * Concrete runs *)
Section runs.
Local Existing Instance std_order.
Local Existing Instance hier_lib.
Local Existing Instance line_toml.
Local Existing Instance ascii_case.
Local Existing Instance sample_files.

Definition no_hash (_ : Url) : string := "0".
(** A configuration whose [source] table is the one given. *)
Definition with_sources (t : gmap string CV) : Config :=
  mkConfig "/h" (mkShell Normal None) (Some {["source" := CTable t "/h/config"]}) "/w" false false false
    Features.cli_default None ∅ ∅.
Definition str (s : string) : CV := CString s "/h/config".
Definition tab (l : list (string * CV)) : CV := CTable (list_to_map l) "/h/config".

Definition the_map (r : cresult (SourceConfigMap (UL:=hier_lib))) : SourceConfigMap (UL:=hier_lib) :=
  match r with Ok m => m | _ => mkSourceConfigMap ∅ ∅ end.
Definition crates_io_sid : SourceId (UL:=hier_lib) :=
  mkSourceId ("https", "github.com", ["rust-lang"; "crates.io-index"], None, None)
    ("https", "github.com", ["rust-lang"; "crates.io-index"], None, None) Registry None None.

(** crates-io is replaced by [a], [a] by [b] and [b] by [a]. *)
Definition swapped : Config := with_sources (list_to_map [
  ("crates-io", tab [("replace-with", str "a")]);
  ("a", tab [("directory", str "/a"); ("replace-with", str "b")]);
  ("b", tab [("directory", str "/b"); ("replace-with", str "a")])]).
Definition swapped_map := the_map (new_map (fun _ => "") (fun _ => None) swapped).

Lemma swapped_steps n :
  (steps swapped_map n "a" = Some "a" ∨ steps swapped_map n "a" = Some "b") ∧
  (steps swapped_map n "b" = Some "a" ∨ steps swapped_map n "b" = Some "b").
Proof.
  assert (Ha : replaced_by swapped_map "a" = Some "b") by vm_eq.
  assert (Hb : replaced_by swapped_map "b" = Some "a") by vm_eq.
  induction n as [|n [IHa IHb]]; [split; [by left|by right]|].
  cbn [steps]. rewrite Ha, Hb. by split.
Qed.

Lemma swapped_lasso : lasso swapped_map "crates-io".
Proof.
  assert (Hc : replaced_by swapped_map "crates-io" = Some "a") by vm_eq.
  exists 0, 1, "a". split; [vm_eq|]. split; [vm_eq|]. intros n. cbn [steps]. rewrite Hc.
  by destruct (swapped_steps n) as [[-> | ->] _].
Qed.

Lemma load_returns_witness :
  hget (id2name swapped_map) crates_io_sid = Some "crates-io" ∧
  ((∃ r, load no_hash (S (size (cfgs swapped_map))) swapped_map crates_io_sid = Some r)
   ↔ ¬ lasso swapped_map "crates-io") ∧
  (lasso swapped_map "crates-io" → ∀ fuel, load no_hash fuel swapped_map crates_io_sid = None).
Proof.
  split; [vm_eq|]. apply (load_returns no_hash swapped_map crates_io_sid "crates-io"). vm_eq.
Defined.

(** The loop on this configuration, which no error message ever ends. *)
Example swapped_forever fuel : load no_hash fuel swapped_map crates_io_sid = None.
Proof. apply load_returns_witness, swapped_lasso. Qed.

(** crates-io replaced by a vendored directory. *)
Definition vendored : Config := with_sources (list_to_map [
  ("crates-io", tab [("replace-with", str "vendored-sources")]);
  ("vendored-sources", tab [("directory", str "vendor")])]).
Definition vendored_map := the_map (new_map (fun _ => "") (fun _ => None) vendored).
Definition vendor_sid : SourceId (UL:=hier_lib) :=
  mkSourceId ("file", "", ["vendor"], None, None) ("file", "", ["vendor"], None, None) Directory None None.

Lemma load_spec_witness :
  load no_hash 3 vendored_map crates_io_sid
  = Some (Ok (ReplacedSource crates_io_sid vendor_sid (DirectorySource vendor_sid "/vendor"))) ∧
  sid_precise (UL:=hier_lib) vendor_sid = None.
Proof.
  assert (H : load no_hash 3 vendored_map crates_io_sid
    = Some (Ok (ReplacedSource crates_io_sid vendor_sid (DirectorySource vendor_sid "/vendor")))) by vm_eq.
  split; [exact H|].
  destruct (load_spec no_hash 3 vendored_map crates_io_sid _ H) as [_ Hs].
  exact (proj1 (proj2 (Hs _ eq_refl))).
Defined.
End runs.
