(* ===== verification/BuildScript.v ===== *)
(** The output of a build script, [src/cargo/core/compiler/custom_build.rs]:
    the lines [cargo:key=value] it prints, and what they ask for. *)
From S2P Require Import Prelude Str Path Utf8.

Local Open Scope string_scope.

(** [struct BuildOutput] *)
Record BuildOutput := mkOutput {
  library_paths : list path;
  library_links : list string;
  cfgs : list string;
  env_vars : list (string * string);
  metadata : list (string * string);
  rerun_if_changed : list path;
  rerun_if_env_changed : list string;
  warnings : list string;
}.
Definition no_output : BuildOutput := mkOutput [] [] [] [] [] [] [] [].

(** One after the other: each vector is extended. *)
Definition extend (a b : BuildOutput) : BuildOutput :=
  mkOutput (library_paths a ++ library_paths b) (library_links a ++ library_links b)
    (cfgs a ++ cfgs b) (env_vars a ++ env_vars b) (metadata a ++ metadata b)
    (rerun_if_changed a ++ rerun_if_changed b)
    (rerun_if_env_changed a ++ rerun_if_env_changed b) (warnings a ++ warnings b).

(** [BuildOutput::parse_rustc_flags]: the flags come with their values. *)
Fixpoint flag_pairs (whence value : string) (ws : list string) (paths : list path) (links : list string)
    : cresult (list path * list string) :=
  match ws with
  | [] => Ok (paths, links)
  | flag :: ws =>
      if negb (String.eqb flag "-l") && negb (String.eqb flag "-L") then
        Err ("Only `-l` and `-L` flags are allowed in " ++ whence ++ ": `" ++ value ++ "`")
      else match ws with
           | [] => Err ("Flag in rustc-flags has no value in " ++ whence ++ ": `" ++ value ++ "`")
           | v :: ws =>
               if String.eqb flag "-l" then flag_pairs whence value ws paths (links ++ [v])%list
               else flag_pairs whence value ws (paths ++ [v])%list links
           end
  end.
Definition parse_rustc_flags (value whence : string) : cresult (list path * list string) :=
  let value := trim value in
  flag_pairs whence value (words value) [] [].

(** [BuildOutput::parse_rustc_env] *)
Definition parse_rustc_env (value whence : string) : cresult (string * string) :=
  match split_once "=" value with
  | (n, Some v) => Ok (n, v)
  | _ => Err ("Variable rustc-env has no value in " ++ whence ++ ": " ++ value)
  end.

(** The closure [path]: a path below the directory the output was written for
    is moved to the directory in use. *)
Definition rebase (root_output_when_generated root_output : path) (p : path) : path :=
  match strip_prefix p root_output_when_generated with
  | Some rest => path_join root_output rest
  | None => p
  end.

Section parse.
Context (whence : string) (when_generated root_output : path).

(** What one directive adds. *)
Definition directive (key value : string) (out : BuildOutput) : cresult BuildOutput :=
  let '(mkOutput paths links cfgs env metadata changed env_changed warnings) := out in
  let path := rebase when_generated root_output in
  if String.eqb key "rustc-flags" then
    '(ps, ls) ← parse_rustc_flags value whence;
    Ok (mkOutput (paths ++ ps) (links ++ ls) cfgs env metadata changed env_changed warnings)
  else if String.eqb key "rustc-link-lib" then
    Ok (mkOutput paths (links ++ [value]) cfgs env metadata changed env_changed warnings)
  else if String.eqb key "rustc-link-search" then
    Ok (mkOutput (paths ++ [path value]) links cfgs env metadata changed env_changed warnings)
  else if String.eqb key "rustc-cfg" then
    Ok (mkOutput paths links (cfgs ++ [value]) env metadata changed env_changed warnings)
  else if String.eqb key "rustc-env" then
    e ← parse_rustc_env value whence;
    Ok (mkOutput paths links cfgs (env ++ [e]) metadata changed env_changed warnings)
  else if String.eqb key "warning" then
    Ok (mkOutput paths links cfgs env metadata changed env_changed (warnings ++ [value]))
  else if String.eqb key "rerun-if-changed" then
    Ok (mkOutput paths links cfgs env metadata (changed ++ [path value]) env_changed warnings)
  else if String.eqb key "rerun-if-env-changed" then
    Ok (mkOutput paths links cfgs env metadata changed (env_changed ++ [value]) warnings)
  else Ok (mkOutput paths links cfgs env (metadata ++ [(key, value)]) changed env_changed warnings).

(** The body of the loop over the lines. *)
Definition parse_line (out : BuildOutput) (line : string) : cresult BuildOutput :=
  if negb (valid_utf8 line) then Ok out
  else
    let line := trim line in
    match split_once ":" line with
    | (first, Some data) =>
        if negb (String.eqb first "cargo") then Ok out
        else match split_once "=" data with
             | (key, Some value) => directive key (trim_right value) out
             | (_, None) => Err ("Wrong output in " ++ whence ++ ": `" ++ line ++ "`")
             end
    | (_, None) => Ok out
    end.
End parse.

(** [BuildOutput::parse]; the input is bytes. *)
Definition parse (input pkg_name : string) (root_output_when_generated root_output : path)
    : cresult BuildOutput :=
  foldM (parse_line ("build script of `" ++ pkg_name ++ "`") root_output_when_generated root_output)
    no_output (split_char (ch 10) input).

(** [BuildDeps::new] *)
Record BuildDeps := mkBuildDeps {
  build_script_output : path;
  deps_rerun_if_changed : list path;
  deps_rerun_if_env_changed : list string;
}.
Definition build_deps_new (output_file : path) (output : option BuildOutput) : BuildDeps :=
  mkBuildDeps output_file (default [] (rerun_if_changed <$> output))
    (default [] (rerun_if_env_changed <$> output)).

Example parse_1 :
  parse (join (String (ch 10) "")
    ["hello"; "cargo:rustc-link-search=/old/x "; "cargo:rustc-flags=-l foo -L /y"; "  cargo:root=/r=1"])
    "p" "/old" "/new"
  = Ok (mkOutput ["/new/x"; "/y"] ["foo"] [] [] [("root", "/r=1")] [] [] []).
Proof. vm_eq. Qed.
Example parse_2 : parse "cargo:root" "p" "/" "/"
  = Err "Wrong output in build script of `p`: `cargo:root`".
Proof. vm_eq. Qed.

(** * Facts *)

Lemma extend_assoc a b c : extend a (extend b c) = extend (extend a b) c.
Proof. unfold extend. simpl. by rewrite !app_assoc. Qed.
Lemma extend_nil_l a : extend no_output a = a.
Proof. by destruct a. Qed.
Lemma extend_nil_r a : extend a no_output = a.
Proof. destruct a. unfold extend. simpl. by rewrite !app_nil_r. Qed.

Section facts.
Context (whence : string) (when_generated root_output : path).

(** A directive only appends. *)
Lemma directive_extend key value a b :
  directive whence when_generated root_output key value (extend a b)
  = extend a <$> directive whence when_generated root_output key value b.
Proof.
  destruct a as [a1 a2 a3 a4 a5 a6 a7 a8], b as [b1 b2 b3 b4 b5 b6 b7 b8]. unfold directive, extend. simpl.
  repeat match goal with |- context [String.eqb key ?s] => destruct (String.eqb key s); simpl end;
    rewrite ?app_assoc; try done.
  - destruct (parse_rustc_flags value whence) as [[ps ls]| |]; simpl; by rewrite ?app_assoc.
  - destruct (parse_rustc_env value whence); simpl; by rewrite ?app_assoc.
Qed.

Lemma parse_line_extend a b line :
  parse_line whence when_generated root_output (extend a b) line
  = extend a <$> parse_line whence when_generated root_output b line.
Proof.
  unfold parse_line. destruct (negb (valid_utf8 line)); [done|].
  destruct (split_once ":" (trim line)) as [first [data|]]; [|done].
  destruct (negb (String.eqb first "cargo")); [done|].
  destruct (split_once "=" data) as [key [value|]]; [apply directive_extend|done].
Qed.

Lemma parse_lines_extend a b lines :
  foldM (parse_line whence when_generated root_output) (extend a b) lines
  = extend a <$> foldM (parse_line whence when_generated root_output) b lines.
Proof.
  revert b. induction lines as [|line lines IH]; intros b; [done|]. cbn [foldM].
  rewrite parse_line_extend. destruct (parse_line _ _ _ b line); simpl; [apply IH|done..].
Qed.
End facts.

Lemma split_char_app c x y :
  split_char c (x ++ String c y) = (split_char c x ++ split_char c y)%list.
Proof.
  induction x as [|d x IH]; simpl; [by rewrite Ascii.eqb_refl|].
  rewrite IH. destruct (Ascii.eqb c d); [done|].
  destruct (split_char_cons c x) as (z & l & ->). done.
Qed.

Lemma split_char_none c s : contains_char c s = false → split_char c s = [s].
Proof.
  induction s as [|d s IH]; [done|]. simpl. destruct (Ascii.eqb c d); [done|].
  simpl. intros Hs. by rewrite (IH Hs).
Qed.

(** The output of a build script means what its lines mean, in order: the output of two pieces is
    that of the first extended by that of the second, the first error deciding; a line that is not
    UTF-8, or has no [cargo:] in front, says nothing; one that has adds what its key and value ask
    for; and one without an equals sign behind it is an error. *)
Theorem parse_spec pkg gen root :
  (∀ x y, parse (x ++ String (ch 10) y) pkg gen root
          = a ← parse x pkg gen root; b ← parse y pkg gen root; Ok (extend a b)) ∧
  (∀ line, contains_char (ch 10) line = false →
     let whence := "build script of `" ++ pkg ++ "`" in
     parse line pkg gen root =
       if negb (valid_utf8 line) then Ok no_output
       else match split_once ":" (trim line) with
            | (first, Some data) =>
                if String.eqb first "cargo"
                then match split_once "=" data with
                     | (key, Some value) => directive whence gen root key (trim_right value) no_output
                     | (_, None) => Err ("Wrong output in " ++ whence ++ ": `" ++ trim line ++ "`")
                     end
                else Ok no_output
            | (_, None) => Ok no_output
            end).
Proof.
  split.
  - intros x y. unfold parse. rewrite split_char_app, foldM_app.
    destruct (foldM _ _ (split_char (ch 10) x)) as [a| |]; simpl; [|done..].
    rewrite <-(extend_nil_r a) at 1. rewrite parse_lines_extend. by destruct (foldM _ _ _).
  - intros line Hline whence. unfold parse. rewrite split_char_none by done. cbn [foldM].
    fold whence. unfold parse_line. destruct (negb (valid_utf8 line)); [done|].
    destruct (split_once ":" (trim line)) as [first [data|]]; [|done].
    destruct (String.eqb first "cargo"); cbn [negb]; [|done].
    destruct (split_once "=" data) as [key [value|]]; [|done].
    by destruct (directive _ _ _ _ _ _).
Qed.

Lemma parse_spec_witness :
  contains_char (ch 10) "cargo:root=/r" = false ∧
  parse "cargo:root=/r" "p" "/" "/" = Ok (mkOutput [] [] [] [] [("root", "/r")] [] [] []).
Proof.
  assert (H : contains_char (ch 10) "cargo:root=/r" = false) by vm_eq.
  split; [exact H|].
  rewrite (proj2 (parse_spec "p" "/" "/") "cargo:root=/r" H). vm_eq.
Defined.
