(* ===== verification/Target.v ===== *)
(** What is compiled: the targets of a package ([src/cargo/core/manifest.rs]),
    the mode and platform they are compiled for
    ([src/cargo/core/compiler/build_config.rs], [compiler/mod.rs]). *)
From S2P Require Import Prelude Str Features.

Local Open Scope string_scope.

(** * Crate types *)

(** [enum LibKind] *)
Inductive LibKind := LibLib | LibRlib | LibDylib | LibProcMacro | LibOther (s : string).
#[global] Instance LibKind_eq_dec : EqDecision LibKind.
Proof. solve_decision. Defined.

Definition crate_type (k : LibKind) : string :=
  match k with
  | LibLib => "lib"
  | LibRlib => "rlib"
  | LibDylib => "dylib"
  | LibProcMacro => "proc-macro"
  | LibOther s => s
  end.
Definition kind_linkable (k : LibKind) : bool :=
  match k with LibOther _ => false | _ => true end.
(** [From<&String> for LibKind] *)
Definition lib_kind_from (s : string) : LibKind :=
  if String.eqb s "lib" then LibLib
  else if String.eqb s "rlib" then LibRlib
  else if String.eqb s "dylib" then LibDylib
  else if String.eqb s "proc-macro" then LibProcMacro
  else LibOther s.

(** [enum TargetKind] *)
Inductive TargetKind :=
| TLib (kinds : list LibKind) | TBin | TTest | TBench | TExampleLib (kinds : list LibKind) | TExampleBin | TCustomBuild.
#[global] Instance TargetKind_eq_dec : EqDecision TargetKind.
Proof. solve_decision. Defined.

(** [Serialize for TargetKind] *)
Definition kind_strings (k : TargetKind) : list string :=
  match k with
  | TLib kinds => crate_type <$> kinds
  | TBin => ["bin"]
  | TExampleBin | TExampleLib _ => ["example"]
  | TTest => ["test"]
  | TCustomBuild => ["custom-build"]
  | TBench => ["bench"]
  end.

(** * Targets *)

(** [enum TargetSourcePath] *)
Inductive TargetSourcePath := SrcPath (p : string) | SrcMetabuild.
#[global] Instance TargetSourcePath_eq_dec : EqDecision TargetSourcePath.
Proof. solve_decision. Defined.

Definition src_path_path (p : TargetSourcePath) : cresult string :=
  match p with SrcPath p => Ok p | SrcMetabuild => Panic "metabuild not expected" end.
Definition src_path_is_path (p : TargetSourcePath) : bool :=
  match p with SrcPath _ => true | SrcMetabuild => false end.
(** [From<PathBuf>]; on Unix a path is absolute when it starts with a slash. *)
Definition src_path_from (p : string) : cresult TargetSourcePath :=
  if starts_with "/" p then Ok (SrcPath p) else Panic ("`" ++ p ++ "` is not absolute").

(** [struct Target] *)
Record Target := mkTarget {
  tgt_kind : TargetKind;
  tgt_name : string;
  src_path : TargetSourcePath;
  required_features : option (list string);
  tested : bool;
  benched : bool;
  documented : bool;     (* [doc] *)
  doctested : bool;      (* [doctest] *)
  harness : bool;
  for_host : bool;
  tgt_edition : Edition;
}.
#[global] Instance Target_eq_dec : EqDecision Target.
Proof. solve_decision. Defined.

(** ** Construction *)
Definition target_new (p : TargetSourcePath) (e : Edition) : Target :=
  mkTarget TBin EmptyString p None true true false false true false e.
Definition with_path (p : string) (e : Edition) : cresult Target :=
  p ← src_path_from p; Ok (target_new p e).
Definition lib_target (name : string) (crate_targets : list LibKind) (p : string) (e : Edition) : cresult Target :=
  t ← with_path p e;
  Ok (mkTarget (TLib crate_targets) name (src_path t) (required_features t) (tested t) (benched t) true true
               (harness t) (for_host t) (tgt_edition t)).
Definition bin_target (name p : string) (rf : option (list string)) (e : Edition) : cresult Target :=
  t ← with_path p e;
  Ok (mkTarget TBin name (src_path t) rf (tested t) (benched t) true (doctested t) (harness t) (for_host t) (tgt_edition t)).
Definition custom_build_target (name p : string) (e : Edition) : cresult Target :=
  t ← with_path p e;
  Ok (mkTarget TCustomBuild name (src_path t) (required_features t) false false (documented t) (doctested t)
               (harness t) true (tgt_edition t)).
Definition metabuild_target (name : string) : Target :=
  let t := target_new SrcMetabuild Edition2015 in
  mkTarget TCustomBuild name (src_path t) (required_features t) false false (documented t) (doctested t)
           (harness t) true (tgt_edition t).
Definition example_target (name : string) (crate_targets : list LibKind) (p : string) (rf : option (list string))
    (e : Edition) : cresult Target :=
  let kind := match crate_targets with [] => TExampleBin | _ => TExampleLib crate_targets end in
  t ← with_path p e;
  Ok (mkTarget kind name (src_path t) rf false false (documented t) (doctested t) (harness t) (for_host t) (tgt_edition t)).
Definition test_target (name p : string) (rf : option (list string)) (e : Edition) : cresult Target :=
  t ← with_path p e;
  Ok (mkTarget TTest name (src_path t) rf (tested t) false (documented t) (doctested t) (harness t) (for_host t) (tgt_edition t)).
Definition bench_target (name p : string) (rf : option (list string)) (e : Edition) : cresult Target :=
  t ← with_path p e;
  Ok (mkTarget TBench name (src_path t) rf false (benched t) (documented t) (doctested t) (harness t) (for_host t) (tgt_edition t)).

(** ** Queries *)
Definition crate_name (t : Target) : string := replace_char "-" "_" (tgt_name t).
Definition doctestable (t : Target) : bool :=
  match tgt_kind t with
  | TLib kinds => existsb (λ k, bool_decide (k = LibRlib) || bool_decide (k = LibLib) || bool_decide (k = LibProcMacro)) kinds
  | _ => false
  end.
Definition is_lib (t : Target) : bool := match tgt_kind t with TLib _ => true | _ => false end.
Definition is_dylib (t : Target) : bool :=
  match tgt_kind t with TLib libs => existsb (λ l, bool_decide (l = LibDylib)) libs | _ => false end.
Definition is_cdylib (t : Target) : bool :=
  match tgt_kind t with
  | TLib libs => existsb (λ l, match l with LibOther s => String.eqb s "cdylib" | _ => false end) libs
  | _ => false
  end.
Definition linkable (t : Target) : bool :=
  match tgt_kind t with TLib kinds => existsb kind_linkable kinds | _ => false end.
Definition is_bin (t : Target) : bool := bool_decide (tgt_kind t = TBin).
Definition is_example (t : Target) : bool :=
  match tgt_kind t with TExampleBin | TExampleLib _ => true | _ => false end.
Definition is_bin_example (t : Target) : bool := match tgt_kind t with TExampleBin => true | _ => false end.
Definition is_test (t : Target) : bool := bool_decide (tgt_kind t = TTest).
Definition is_bench (t : Target) : bool := bool_decide (tgt_kind t = TBench).
Definition is_custom_build (t : Target) : bool := bool_decide (tgt_kind t = TCustomBuild).
Definition allows_underscores (t : Target) : bool := is_bin t || is_example t || is_custom_build t.

Definition rustc_crate_types (t : Target) : list string :=
  match tgt_kind t with
  | TLib kinds | TExampleLib kinds => crate_type <$> kinds
  | TCustomBuild | TBench | TTest | TExampleBin | TBin => ["bin"]
  end.
Definition can_lto (t : Target) : bool :=
  match tgt_kind t with
  | TLib v => negb (bool_decide (LibRlib ∈ v)) && negb (bool_decide (LibDylib ∈ v)) && negb (bool_decide (LibLib ∈ v))
  | _ => true
  end.

(** [Display for Target] *)
Definition target_display (t : Target) : string :=
  match tgt_kind t with
  | TLib _ => "Target(lib)"
  | TBin => "Target(bin: " ++ tgt_name t ++ ")"
  | TTest => "Target(test: " ++ tgt_name t ++ ")"
  | TBench => "Target(bench: " ++ tgt_name t ++ ")"
  | TExampleBin | TExampleLib _ => "Target(example: " ++ tgt_name t ++ ")"
  | TCustomBuild => "Target(script)"
  end.

(** [SerializedTarget] *)
Record SerializedTarget := mkSerializedTarget {
  ser_kind : list string;
  ser_crate_types : list string;
  ser_name : string;
  ser_src_path : string;
  ser_edition : string;
  ser_required_features : option (list string);
}.
Definition serialize_target (t : Target) : cresult SerializedTarget :=
  p ← src_path_path (src_path t);
  Ok (mkSerializedTarget (kind_strings (tgt_kind t)) (rustc_crate_types t) (tgt_name t) p
                         (edition_display (tgt_edition t)) (required_features t)).

(** ** Setters *)
Definition set_src_path (t : Target) p :=
  mkTarget (tgt_kind t) (tgt_name t) p (required_features t) (tested t) (benched t) (documented t) (doctested t) (harness t) (for_host t) (tgt_edition t).
Definition set_tested (t : Target) b :=
  mkTarget (tgt_kind t) (tgt_name t) (src_path t) (required_features t) b (benched t) (documented t) (doctested t) (harness t) (for_host t) (tgt_edition t).
Definition set_benched (t : Target) b :=
  mkTarget (tgt_kind t) (tgt_name t) (src_path t) (required_features t) (tested t) b (documented t) (doctested t) (harness t) (for_host t) (tgt_edition t).
Definition set_doc (t : Target) b :=
  mkTarget (tgt_kind t) (tgt_name t) (src_path t) (required_features t) (tested t) (benched t) b (doctested t) (harness t) (for_host t) (tgt_edition t).
Definition set_doctest (t : Target) b :=
  mkTarget (tgt_kind t) (tgt_name t) (src_path t) (required_features t) (tested t) (benched t) (documented t) b (harness t) (for_host t) (tgt_edition t).
Definition set_harness (t : Target) b :=
  mkTarget (tgt_kind t) (tgt_name t) (src_path t) (required_features t) (tested t) (benched t) (documented t) (doctested t) b (for_host t) (tgt_edition t).
Definition set_for_host (t : Target) b :=
  mkTarget (tgt_kind t) (tgt_name t) (src_path t) (required_features t) (tested t) (benched t) (documented t) (doctested t) (harness t) b (tgt_edition t).
Definition set_edition (t : Target) e :=
  mkTarget (tgt_kind t) (tgt_name t) (src_path t) (required_features t) (tested t) (benched t) (documented t) (doctested t) (harness t) (for_host t) e.

(** * Modes and platforms *)

(** [enum CompileMode] *)
Inductive CompileMode :=
| MTest | MBuild | MCheck (test : bool) | MBench | MDoc (deps : bool) | MDoctest | MRunCustomBuild.
#[global] Instance CompileMode_eq_dec : EqDecision CompileMode.
Proof. solve_decision. Defined.

Definition mode_is_check (m : CompileMode) : bool := match m with MCheck _ => true | _ => false end.
Definition mode_is_doc (m : CompileMode) : bool := match m with MDoc _ | MDoctest => true | _ => false end.
Definition mode_is_any_test (m : CompileMode) : bool :=
  match m with MTest | MBench | MCheck true | MDoctest => true | _ => false end.
Definition mode_is_run_custom_build (m : CompileMode) : bool := bool_decide (m = MRunCustomBuild).
Definition all_modes : list CompileMode :=
  [MTest; MBuild; MCheck true; MCheck false; MBench; MDoc true; MDoc false; MDoctest; MRunCustomBuild].

(** [compiler::Kind] *)
Inductive PlatformKind := KHost | KTarget.
#[global] Instance PlatformKind_eq_dec : EqDecision PlatformKind.
Proof. solve_decision. Defined.
(** [Kind::for_target] *)
Definition kind_for_target (k : PlatformKind) (t : Target) : PlatformKind :=
  match k with KHost => KHost | KTarget => if for_host t then KHost else KTarget end.

(** * Keys *)
#[global] Instance LibKind_countable : Countable LibKind.
Proof.
  refine (inj_countable'
    (λ k, match k with LibLib => inl 0 | LibRlib => inl 1 | LibDylib => inl 2 | LibProcMacro => inl 3 | LibOther s => inr s end)
    (λ o, match o with inl 0 => LibLib | inl 1 => LibRlib | inl 2 => LibDylib | inl _ => LibProcMacro | inr s => LibOther s end) _).
  by intros [].
Defined.
#[global] Instance TargetKind_countable : Countable TargetKind.
Proof.
  refine (inj_countable'
    (λ k, match k with
          | TBin => inl 0 | TTest => inl 1 | TBench => inl 2 | TExampleBin => inl 3 | TCustomBuild => inl 4
          | TLib l => inr (inl l) | TExampleLib l => inr (inr l)
          end)
    (λ o, match o with
          | inl 0 => TBin | inl 1 => TTest | inl 2 => TBench | inl 3 => TExampleBin | inl _ => TCustomBuild
          | inr (inl l) => TLib l | inr (inr l) => TExampleLib l
          end) _).
  by intros [].
Defined.
#[global] Instance TargetSourcePath_countable : Countable TargetSourcePath.
Proof.
  refine (inj_countable' (λ p, match p with SrcPath p => Some p | SrcMetabuild => None end)
                         (λ o, match o with Some p => SrcPath p | None => SrcMetabuild end) _).
  by intros [].
Defined.
#[global] Instance Edition_countable : Countable Edition.
Proof.
  refine (inj_countable' (λ e, match e with Edition2015 => false | Edition2018 => true end)
                         (λ b, if b : bool then Edition2018 else Edition2015) _).
  by intros [].
Defined.
#[global] Instance Target_countable : Countable Target.
Proof.
  refine (inj_countable'
    (λ t, ((tgt_kind t, tgt_name t, src_path t), (required_features t, tested t, benched t),
           ((documented t, doctested t), (harness t, for_host t, tgt_edition t))))
    (λ p, mkTarget p.1.1.1.1 p.1.1.1.2 p.1.1.2 p.1.2.1.1 p.1.2.1.2 p.1.2.2 p.2.1.1 p.2.1.2 p.2.2.1.1 p.2.2.1.2 p.2.2.2) _).
  by intros [].
Defined.
#[global] Instance Target_key : HashKey Target := leibniz_key Target.
#[global] Instance CompileMode_countable : Countable CompileMode.
Proof.
  refine (inj_countable'
    (λ m, match m with
          | MTest => inl 0 | MBuild => inl 1 | MBench => inl 2 | MDoctest => inl 3 | MRunCustomBuild => inl 4
          | MCheck b => inr (inl b) | MDoc b => inr (inr b)
          end)
    (λ o, match o with
          | inl 0 => MTest | inl 1 => MBuild | inl 2 => MBench | inl 3 => MDoctest | inl _ => MRunCustomBuild
          | inr (inl b) => MCheck b | inr (inr b) => MDoc b
          end) _).
  by intros [].
Defined.
#[global] Instance CompileMode_key : HashKey CompileMode := leibniz_key CompileMode.
#[global] Instance PlatformKind_countable : Countable PlatformKind.
Proof.
  refine (inj_countable' (λ k, match k with KHost => false | KTarget => true end)
                         (λ b, if b : bool then KTarget else KHost) _).
  by intros [].
Defined.
#[global] Instance PlatformKind_key : HashKey PlatformKind := leibniz_key PlatformKind.

(** * Facts *)
Lemma lib_kind_roundtrip k : lib_kind_from (crate_type k) = k ↔
  ∀ s, k = LibOther s → s ≠ "lib" ∧ s ≠ "rlib" ∧ s ≠ "dylib" ∧ s ≠ "proc-macro".
Proof.
  destruct k as [| | | |s]; [split; [discriminate|done]..|]. unfold lib_kind_from, crate_type. split.
  - intros H x [= ->]. split_and!; intros ->; discriminate H.
  - intros H. destruct (H s eq_refl) as (H1 & H2 & H3 & H4).
    by rewrite (proj2 (String.eqb_neq _ _) H1), (proj2 (String.eqb_neq _ _) H2), (proj2 (String.eqb_neq _ _) H3),
      (proj2 (String.eqb_neq _ _) H4).
Qed.

Lemma linkable_is_lib t : linkable t = true → is_lib t = true.
Proof. unfold linkable, is_lib. by destruct (tgt_kind t). Qed.
Lemma custom_build_not_lib t : is_custom_build t = true → is_lib t = false.
Proof. unfold is_custom_build, is_lib. by intros ->%bool_decide_eq_true. Qed.
