(* ===== verification/Lev.v ===== *)
(** The edit distance of [src/cargo/util/lev_distance.rs], used to suggest
    names; its one-row table, and its agreement with shortest edit scripts. *)
From S2P Require Import Prelude.

Section lev.
(** A [&str] is the list of its scalar values; [len_utf8] is the number of
    bytes of each, so that [str.len()] is [byte_len]. *)
Definition len_utf8 (c : N) : nat :=
  if (c <? 128)%N then 1
  else if (c <? 2048)%N then 2
  else if (c <? 65536)%N then 3 else 4.
Definition byte_len (s : list N) : nat := foldr (λ c n, len_utf8 c + n) 0 s.

Definition index_panic : string := "index out of bounds".

(** The loop over the characters of [t]: [j] is the column, [current] the
    value the cell to the upper left had. *)
Fixpoint lev_inner (sc : N) (t : list N) (j current t_last : nat) (dcol : list nat)
    : res Empty_set (list nat * nat) :=
  match t with
  | [] => Ok (dcol, t_last)
  | tc :: t =>
      match dcol !! (j + 1) with
      | None => Panic index_panic
      | Some next =>
          if (sc =? tc)%N
          then lev_inner sc t (j + 1) next j (<[j + 1 := current]> dcol)
          else match dcol !! j with
               | None => Panic index_panic
               | Some prev =>
                   lev_inner sc t (j + 1) next j
                     (<[j + 1 := Nat.min (Nat.min current next) prev + 1]> dcol)
               end
      end
  end.

(** The loop over the characters of [me]. *)
Fixpoint lev_outer (me t : list N) (i t_last : nat) (dcol : list nat)
    : res Empty_set (list nat * nat) :=
  match me with
  | [] => Ok (dcol, t_last)
  | sc :: me =>
      match dcol with
      | [] => Panic index_panic
      | _ :: dcol' =>
          match lev_inner sc t 0 i t_last ((i + 1) :: dcol') with
          | Ok (dcol, t_last) => lev_outer me t (i + 1) t_last dcol
          | Err e => match e with end
          | Panic p => Panic p
          end
      end
  end.

Definition lev_distance (me t : list N) : res Empty_set nat :=
  match me, t with
  | [], _ => Ok (length t)
  | _, [] => Ok (length me)
  | _, _ =>
      match lev_outer me t 0 0 (seq 0 (byte_len t + 1)) with
      | Ok (dcol, t_last) =>
          match dcol !! (t_last + 1) with
          | Some d => Ok d
          | None => Panic index_panic
          end
      | Err e => match e with end
      | Panic p => Panic p
      end
  end.

(** * Edit scripts *)

(** [edit a b n]: [n] insertions, deletions and substitutions turn [a] into [b]. *)
Inductive edit : list N → list N → nat → Prop :=
| edit_nil : edit [] [] 0
| edit_keep c a b n : edit a b n → edit (c :: a) (c :: b) n
| edit_substitute c d a b n : edit a b n → edit (c :: a) (d :: b) (S n)
| edit_delete c a b n : edit a b n → edit (c :: a) b (S n)
| edit_insert d a b n : edit a b n → edit a (d :: b) (S n).

(** The recursion the table computes, on reversed prefixes. *)
Fixpoint lev (a : list N) : list N → nat :=
  match a with
  | [] => λ b, length b
  | x :: a' =>
      fix go (b : list N) : nat :=
        match b with
        | [] => length a
        | y :: b' =>
            if (x =? y)%N then lev a' b'
            else Nat.min (Nat.min (lev a' b') (lev a' b)) (go b') + 1
        end
  end.

Lemma lev_nil_r a : lev a [] = length a.
Proof. by destruct a. Qed.

Lemma lev_cons x a y b :
  lev (x :: a) (y :: b) =
    if (x =? y)%N then lev a b
    else Nat.min (Nat.min (lev a b) (lev a (y :: b))) (lev (x :: a) b) + 1.
Proof. done. Qed.

(** One more character changes the distance by at most one. *)
Lemma lev_neighbours n a b : length a + length b ≤ n →
  (∀ x, lev (x :: a) b ≤ S (lev a b) ∧ lev a b ≤ S (lev (x :: a) b)) ∧
  (∀ y, lev a (y :: b) ≤ S (lev a b) ∧ lev a b ≤ S (lev a (y :: b))).
Proof.
  revert a b. induction n as [|n IH]; intros a b Hn.
  - destruct a, b; simpl in *; try lia. split; intros; lia.
  - split.
    + intros x. destruct b as [|y b]; [rewrite !lev_nil_r; simpl; lia|].
      simpl in Hn. destruct (IH a b ltac:(lia)) as [H1 H2].
      specialize (H1 x). specialize (H2 y). rewrite lev_cons.
      destruct (x =? y)%N; lia.
    + intros y. destruct a as [|x a]; [simpl; lia|].
      simpl in Hn. destruct (IH a b ltac:(lia)) as [H1 H2].
      specialize (H1 x). specialize (H2 y). rewrite lev_cons.
      destruct (x =? y)%N; lia.
Qed.

Lemma lev_edit a b : edit a b (lev a b).
Proof.
  revert b. induction a as [|x a IHa]; intros b.
  - induction b as [|y b IHb]; [constructor|]. by apply edit_insert.
  - induction b as [|y b IHb].
    + specialize (IHa []). rewrite lev_nil_r in *. by apply edit_delete.
    + rewrite lev_cons. destruct (N.eqb_spec x y) as [->|]; [by apply edit_keep|].
      rewrite Nat.add_1_r.
      destruct (Nat.min_spec (Nat.min (lev a b) (lev a (y :: b))) (lev (x :: a) b))
        as [[_ ->]|[_ ->]]; [|by apply edit_insert].
      destruct (Nat.min_spec (lev a b) (lev a (y :: b))) as [[_ ->]|[_ ->]];
        [by apply edit_substitute|by apply edit_delete].
Qed.

Lemma lev_least a b n : edit a b n → lev a b ≤ n.
Proof.
  induction 1 as [|c a b n _ IH|c d a b n _ IH|c a b n _ IH|d a b n _ IH].
  - done.
  - rewrite lev_cons, N.eqb_refl. done.
  - rewrite lev_cons. destruct (c =? d)%N; lia.
  - destruct (lev_neighbours _ a b (le_n _)) as [H _]. specialize (H c). lia.
  - destruct (lev_neighbours _ a b (le_n _)) as [_ H]. specialize (H d). lia.
Qed.

Lemma edit_app a b n a' b' n' :
  edit a b n → edit a' b' n' → edit (a ++ a') (b ++ b') (n + n').
Proof. intros H H'. induction H; simpl; by try constructor. Qed.

Lemma edit_rev a b n : edit a b n → edit (rev a) (rev b) n.
Proof.
  induction 1 as [|c a b n _ IH|c d a b n _ IH|c a b n _ IH|d a b n _ IH]; simpl.
  - constructor.
  - rewrite <-(Nat.add_0_r n). apply edit_app; [done|]. by repeat constructor.
  - rewrite <-Nat.add_1_r. apply edit_app; [done|].
    apply (edit_substitute c d [] [] 0). constructor.
  - rewrite <-Nat.add_1_r, <-(app_nil_r (rev b)). apply edit_app; [done|].
    apply (edit_delete c [] [] 0). constructor.
  - rewrite <-Nat.add_1_r, <-(app_nil_r (rev a)). apply edit_app; [done|].
    apply (edit_insert d [] [] 0). constructor.
Qed.

(** * The table *)

(** Cell [j] of a row for the prefix with reversal [rp]. *)
Definition cell (rp t : list N) (j : nat) : nat := lev rp (rev (take j t)).

(** The row while column [j] is about to be computed: the first [j + 1] cells
    are those of the new row, the others those of the old one. *)
Definition row (sc : N) (rp t : list N) (j : nat) (dcol : list nat) : Prop :=
  ∀ k, k ≤ length t →
    dcol !! k = Some (if decide (k ≤ j) then cell (sc :: rp) t k else cell rp t k).

Lemma rev_take_S (t : list N) j c :
  t !! j = Some c → rev (take (S j) t) = c :: rev (take j t).
Proof. intros Hc. rewrite (take_S_r _ _ c) by done. by rewrite rev_app_distr. Qed.

Lemma row_step sc rp t j c dcol v :
  row sc rp t j dcol → t !! j = Some c → v = cell (sc :: rp) t (S j) →
  row sc rp t (S j) (<[S j := v]> dcol).
Proof.
  intros Hrow Hc -> k Hk. pose proof (lookup_lt_Some _ _ _ Hc).
  destruct (decide (k = S j)) as [->|Hne].
  - rewrite list_lookup_insert_eq by (eapply lookup_lt_Some, (Hrow (S j)); lia).
    by rewrite decide_True by lia.
  - rewrite list_lookup_insert_ne by lia. rewrite Hrow by done.
    repeat case_decide; done || lia.
Qed.

Lemma cell_step sc rp t j c :
  t !! j = Some c →
  cell (sc :: rp) t (S j) =
    if (sc =? c)%N then cell rp t j
    else Nat.min (Nat.min (cell rp t j) (cell rp t (S j))) (cell (sc :: rp) t j) + 1.
Proof. intros Hc. unfold cell. by rewrite (rev_take_S _ _ _ Hc), lev_cons. Qed.

Lemma drop_nil_ge (t : list N) j : drop j t = [] → length t ≤ j.
Proof. intros H. apply (f_equal length) in H. rewrite length_drop in H. simpl in H. lia. Qed.

Lemma lev_inner_spec sc rp t t2 j t_last dcol :
  drop j t = t2 → row sc rp t j dcol →
  ∃ dcol', lev_inner sc t2 j (cell rp t j) t_last dcol =
             Ok (dcol', if decide (t2 = []) then t_last else length t - 1) ∧
    row sc rp t (length t) dcol' ∧ length dcol' = length dcol.
Proof.
  revert j t_last dcol. induction t2 as [|c t2 IH]; intros j t_last dcol Hd Hrow.
  - exists dcol. split_and!; [done| |done].
    assert (length t ≤ j) by (by apply drop_nil_ge).
    intros k Hk. rewrite Hrow by done. by rewrite !decide_True by lia.
  - assert (Hc : t !! j = Some c) by (by rewrite <-(Nat.add_0_r j), <-lookup_drop, Hd).
    pose proof (lookup_lt_Some _ _ _ Hc) as Hlt.
    assert (Hd' : drop (S j) t = t2) by (by rewrite (drop_S _ c) in Hd by done; simplify_eq).
    cbn [lev_inner]. rewrite !Nat.add_1_r.
    rewrite (Hrow (S j)) by lia. rewrite decide_False by lia.
    rewrite (Hrow j) by lia. rewrite decide_True by lia.
    assert (Hlast : (if decide (t2 = []) then j else length t - 1) = length t - 1).
    { case_decide as He; [|done]. rewrite He in Hd'. apply drop_nil_ge in Hd'. lia. }
    pose proof (cell_step sc rp t j c Hc) as Hcell.
    destruct (sc =? c)%N.
    + destruct (IH (S j) j (<[S j := cell rp t j]> dcol) Hd') as (dcol' & -> & Hr & Hl).
      { by apply (row_step _ _ _ _ c). }
      exists dcol'. rewrite Hlast. rewrite length_insert in Hl. by rewrite decide_False.
    + destruct (IH (S j) j (<[S j := Nat.min (Nat.min (cell rp t j) (cell rp t (S j)))
          (cell (sc :: rp) t j) + 1]> dcol) Hd') as (dcol' & Heq & Hr & Hl).
      { by apply (row_step _ _ _ _ c). }
      rewrite Heq.
      exists dcol'. rewrite Hlast. rewrite length_insert in Hl. by rewrite decide_False.
Qed.

Lemma lev_outer_spec me pre t t_last dcol :
  t ≠ [] → (∀ k, k ≤ length t → dcol !! k = Some (cell (rev pre) t k)) →
  ∃ dcol', lev_outer me t (length pre) t_last dcol =
             Ok (dcol', if decide (me = []) then t_last else length t - 1) ∧
    ∀ k, k ≤ length t → dcol' !! k = Some (cell (rev (pre ++ me)) t k).
Proof.
  intros Ht. revert pre t_last dcol. induction me as [|sc me IH];
    intros pre t_last dcol Hrow.
  - exists dcol. by rewrite app_nil_r.
  - cbn [lev_outer]. destruct dcol as [|d0 dcol]; [by specialize (Hrow 0 ltac:(lia))|].
    destruct (lev_inner_spec sc (rev pre) t t 0 t_last ((length pre + 1) :: dcol))
      as (dcol1 & Heq & Hr & _); [done| |].
    { intros [|k] Hk; simpl.
      - unfold cell. simpl. by rewrite length_rev, Nat.add_1_r.
      - by rewrite <-(Hrow (S k)). }
    unfold cell in Heq. simpl in Heq. rewrite lev_nil_r, length_rev in Heq.
    rewrite Heq. rewrite decide_False by done.
    destruct (IH (pre ++ [sc]) (length t - 1) dcol1) as (dcol' & Heq' & Hr').
    { intros k Hk. rewrite (Hr k Hk). rewrite decide_True by lia.
      by rewrite rev_app_distr. }
    rewrite length_app in Heq'. simpl in Heq'. rewrite Heq'.
    exists dcol'. rewrite <-app_assoc in Hr'. split; [|done].
    by repeat case_decide.
Qed.

Lemma length_le_byte_len s : length s ≤ byte_len s.
Proof.
  induction s as [|c s IH]; simpl; [done|]. unfold len_utf8.
  repeat case_match; lia.
Qed.

(** [lev_distance] never panics: its row, sized by the byte length, has a
    cell for every character.  The number it returns is the length of a
    shortest script of insertions, deletions and substitutions from [me] to
    [t]. *)
Theorem lev_distance_spec me t :
  ∃ d, lev_distance me t = Ok d ∧ edit me t d ∧ ∀ n, edit me t n → d ≤ n.
Proof.
  assert (Hlev : ∀ a b d, d = lev (rev a) (rev b) → edit a b d ∧ ∀ n, edit a b n → d ≤ n).
  { intros a b d ->. split.
    - rewrite <-(rev_involutive a), <-(rev_involutive b) at 1. apply edit_rev, lev_edit.
    - intros n Hn. by apply lev_least, edit_rev. }
  destruct me as [|c me]; [exists (length t); split; [done|apply Hlev; simpl; by rewrite length_rev]|].
  destruct t as [|c' t].
  { exists (length (c :: me)). split; [done|]. apply Hlev.
    by rewrite lev_nil_r, length_rev. }
  destruct (lev_outer_spec (c :: me) [] (c' :: t) 0 (seq 0 (byte_len (c' :: t) + 1)))
    as (dcol & Heq & Hrow); [done| |].
  { intros k Hk. rewrite lookup_seq. pose proof (length_le_byte_len (c' :: t)).
    split_and?; [|lia]. unfold cell. simpl lev. rewrite length_rev, length_take. lia. }
  exists (lev (rev (c :: me)) (rev (c' :: t))). split; [|by apply Hlev].
  cbn [lev_distance]. cbn [length] in Heq. rewrite Heq. rewrite decide_False by done.
  replace (S (length t) - 1 + 1) with (length (c' :: t)) by (simpl; lia).
  rewrite (Hrow (length (c' :: t))) by done. unfold cell. by rewrite firstn_all.
Qed.
End lev.

(** The distances of the unit test's kind: one substitution, one deletion. *)
Example lev_distance_kitten :
  lev_distance [107; 105; 116; 116; 101; 110]%N [115; 105; 116; 116; 105; 110; 103]%N = Ok 3.
Proof. reflexivity. Qed.
