(* ===== verification/Profiles.v ===== *)
(** Build profiles, [src/cargo/core/profiles.rs], with the part of a manifest's
    [profile] tables they read ([TomlProfile], [src/cargo/util/toml/mod.rs]). *)
From S2P Require Import Prelude Str Extern SourceId PackageId Features Target Lev.

Local Open Scope string_scope.

(** * The tables of a manifest *)
Section toml.
Context `{SV : SemverLib} `{UL : UrlLib}.

Inductive U32OrBool := U32 (n : N) | UBool (b : bool).
Inductive StringOrBool := SString (s : string) | SBool (b : bool).
(** [enum ProfilePackageSpec] *)
Inductive ProfilePackageSpec := Spec (s : PackageIdSpec) | All.

(** [struct TomlProfile]; the override map is listed in key order. *)
Inductive TomlProfile := mkTomlProfile {
  t_opt_level : option string;
  t_lto : option StringOrBool;
  t_codegen_units : option N;
  t_debug : option U32OrBool;
  t_debug_assertions : option bool;
  t_rpath : option bool;
  t_panic : option string;
  t_overflow_checks : option bool;
  t_incremental : option bool;
  t_overrides : option (list (ProfilePackageSpec * TomlProfile));
  t_build_override : option TomlProfile;
}.
Record TomlProfiles := mkTomlProfiles {
  toml_test : option TomlProfile;
  toml_doc : option TomlProfile;
  toml_bench : option TomlProfile;
  toml_dev : option TomlProfile;
  toml_release : option TomlProfile;
}.
(** [struct ConfigProfiles] *)
Record ConfigProfiles := mkConfigProfiles { cfg_dev : option TomlProfile; cfg_release : option TomlProfile }.

(** ** Validation *)
Definition validate_override (p : TomlProfile) : cresult unit :=
  if bool_decide (is_Some (t_overrides p)) || bool_decide (is_Some (t_build_override p)) then
    Err "Profile overrides cannot be nested."
  else if bool_decide (is_Some (t_panic p)) then Err "`panic` may not be specified in a profile override."
  else if bool_decide (is_Some (t_lto p)) then Err "`lto` may not be specified in a profile override."
  else if bool_decide (is_Some (t_rpath p)) then Err "`rpath` may not be specified in a profile override."
  else Ok tt.

(** The gates of [validate]. *)
Definition validate_overrides (env : Env) (features : Features) (p : TomlProfile) : cresult unit :=
  _ ← match t_build_override p with
      | Some profile => _ ← require env features profile_overrides; validate_override profile
      | None => Ok tt
      end;
  match t_overrides p with
  | Some override_map =>
      _ ← require env features profile_overrides;
      foldM (λ _ kv, validate_override kv.2) tt override_map
  | None => Ok tt
  end.

(** [TomlProfile::validate] *)
Definition validate (env : Env) (features : Features) (p : TomlProfile) (name : string) (warnings : list string)
    : cresult unit * list string :=
  match validate_overrides env features p with
  | Ok _ =>
      if negb (String.eqb name "dev" || String.eqb name "release") &&
         (bool_decide (is_Some (t_overrides p)) || bool_decide (is_Some (t_build_override p))) then
        (Err ("Profile overrides may only be specified for `dev` or `release` profile, not `" ++ name ++ "`."), warnings)
      else if String.eqb name "doc" then
        (Ok tt, (warnings ++ ["profile `doc` is deprecated and has no effect"])%list)
      else if (String.eqb name "test" || String.eqb name "bench") && bool_decide (is_Some (t_panic p)) then
        (Ok tt, (warnings ++ [("`panic` setting is ignored for `" ++ name ++ "` profile")%string])%list)
      else (Ok tt, warnings)
  | e => (e, warnings)
  end.

Definition validate_opt (env : Env) (features : Features) (p : option TomlProfile) (name : string)
    (st : cresult unit * list string) : cresult unit * list string :=
  match st.1, p with
  | Ok _, Some p => validate env features p name st.2
  | _, _ => st
  end.
(** [TomlProfiles::validate] *)
Definition validate_all (env : Env) (features : Features) (p : TomlProfiles) (warnings : list string)
    : cresult unit * list string :=
  let v p name st := validate_opt env features p name st in
  v (toml_release p) "release" (v (toml_dev p) "dev" (v (toml_bench p) "bench"
    (v (toml_doc p) "doc" (v (toml_test p) "test" (Ok tt, warnings))))).

(** [ConfigProfiles::validate] *)
Definition validate_config (env : Env) (features : Features) (p : ConfigProfiles) (warnings : list string)
    : cresult unit * list string :=
  let '(r, warnings) :=
    match cfg_dev p with
    | Some profile => let '(r, w) := validate env features profile "dev" warnings in
                      (chain_err "config profile `profile.dev` is not valid" r, w)
    | None => (Ok tt, warnings)
    end in
  match r, cfg_release p with
  | Ok _, Some profile => let '(r, w) := validate env features profile "release" warnings in
                          (chain_err "config profile `profile.release` is not valid" r, w)
  | _, _ => (r, warnings)
  end.
End toml.
Arguments TomlProfile {SV UL}.
Arguments TomlProfiles {SV UL}.
Arguments ConfigProfiles {SV UL}.
Arguments ProfilePackageSpec {SV UL}.

(** * Profiles *)
Inductive Lto := LtoBool (b : bool) | LtoNamed (s : string).
#[global] Instance Lto_eq_dec : EqDecision Lto.
Proof. solve_decision. Defined.
#[global] Instance Lto_countable : Countable Lto.
Proof.
  refine (inj_countable' (λ l, match l with LtoBool b => inl b | LtoNamed s => inr s end)
                         (λ s, match s with inl b => LtoBool b | inr s => LtoNamed s end) _).
  by intros [].
Defined.

(** [struct Profile] *)
Record Profile := mkProfile {
  prof_name : string;
  opt_level : string;
  lto : Lto;
  codegen_units : option N;
  debuginfo : option N;
  debug_assertions : bool;
  overflow_checks : bool;
  rpath : bool;
  incremental : bool;
  panic : option string;
}.
#[global] Instance Profile_eq_dec : EqDecision Profile.
Proof. solve_decision. Defined.

(** [Profile::comparable]: [PartialEq] and [Hash] leave the name out. *)
#[global] Instance Profile_key : HashKey Profile := {|
  hkey := (string * Lto * option N) * (option N * bool * bool) * (bool * bool * option string);
  to_key p := ((opt_level p, lto p, codegen_units p), (debuginfo p, debug_assertions p, overflow_checks p),
               (rpath p, incremental p, panic p));
|}.

Lemma profile_key_eq (p q : Profile) :
  to_key p = to_key q → opt_level p = opt_level q ∧ lto p = lto q ∧ codegen_units p = codegen_units q ∧
    debuginfo p = debuginfo q ∧ debug_assertions p = debug_assertions q ∧ overflow_checks p = overflow_checks q ∧
    rpath p = rpath q ∧ incremental p = incremental q ∧ panic p = panic q.
Proof. unfold to_key. cbn. intros H. injection H. auto 10. Qed.

Definition profile_default : Profile := mkProfile EmptyString "0" (LtoBool false) None None false false false false None.
Definition default_dev : Profile := mkProfile "dev" "0" (LtoBool false) None (Some 2%N) true true false true None.
Definition default_release : Profile := mkProfile "release" "3" (LtoBool false) None None false false false false None.
Definition rename (name : string) (p : Profile) : Profile :=
  mkProfile name (opt_level p) (lto p) (codegen_units p) (debuginfo p) (debug_assertions p) (overflow_checks p)
            (rpath p) (incremental p) (panic p).
Definition default_test : Profile := rename "test" default_dev.
Definition default_bench : Profile := rename "bench" default_release.
Definition default_doc : Profile := rename "doc" default_dev.
Definition clear_panic (p : Profile) : Profile :=
  mkProfile (prof_name p) (opt_level p) (lto p) (codegen_units p) (debuginfo p) (debug_assertions p) (overflow_checks p)
            (rpath p) (incremental p) None.
Definition profile_display (p : Profile) : string := "Profile(" ++ prof_name p ++ ")".

(** [struct UnitFor] *)
Record UnitFor := mkUnitFor { custom_build : bool; panic_ok : bool }.
#[global] Instance UnitFor_eq_dec : EqDecision UnitFor.
Proof. solve_decision. Defined.
Definition new_normal : UnitFor := mkUnitFor false true.
Definition new_build : UnitFor := mkUnitFor true false.
Definition new_compiler : UnitFor := mkUnitFor false false.
Definition new_test : UnitFor := mkUnitFor false false.
Definition with_for_host (u : UnitFor) (for_host : bool) : UnitFor :=
  mkUnitFor (custom_build u) (panic_ok u && negb for_host).
Definition all_values : list UnitFor := [mkUnitFor false true; mkUnitFor true false; mkUnitFor false false].

Section profiles.
Context `{SV : SemverLib} `{UL : UrlLib}.

(** [merge_profile] *)
Definition merge_profile (p : Profile) (t : TomlProfile) : Profile :=
  mkProfile
    (prof_name p)
    (default (opt_level p) (t_opt_level t))
    (match t_lto t with Some (SBool b) => LtoBool b | Some (SString n) => LtoNamed n | None => lto p end)
    (match t_codegen_units t with Some n => Some n | None => codegen_units p end)
    (match t_debug t with
     | Some (U32 debug) => Some debug
     | Some (UBool true) => Some 2%N
     | Some (UBool false) => None
     | None => debuginfo p
     end)
    (default (debug_assertions p) (t_debug_assertions t))
    (default (overflow_checks p) (t_overflow_checks t))
    (default (rpath p) (t_rpath t))
    (default (incremental p) (t_incremental t))
    (match t_panic t with Some s => Some s | None => panic p end).

(** The named overrides that match a package, in key order. *)
Definition matching_specs (overrides : list (ProfilePackageSpec * TomlProfile)) (id : PackageId)
    : list (PackageIdSpec * TomlProfile) :=
  omap (λ kv, match kv.1 with
              | All => None
              | Spec s => if matches s id then Some (s, kv.2) else None
              end) overrides.
(** [overrides.get(&ProfilePackageSpec::All)] *)
Definition override_all (overrides : list (ProfilePackageSpec * TomlProfile)) : option TomlProfile :=
  head (omap (λ kv, match kv.1 with All => Some kv.2 | Spec _ => None end) overrides).

(** [merge_toml] *)
Definition merge_toml (pkg_id : option PackageId) (is_member : bool) (unit_for : UnitFor) (profile : Profile)
    (toml : TomlProfile) : cresult Profile :=
  let profile := merge_profile profile toml in
  let profile :=
    if custom_build unit_for then
      match t_build_override toml with Some o => merge_profile profile o | None => profile end
    else profile in
  match t_overrides toml with
  | None => Ok profile
  | Some overrides =>
      let profile :=
        if negb is_member then
          match override_all overrides with Some all => merge_profile profile all | None => profile end
        else profile in
      match pkg_id with
      | None => Ok profile
      | Some id =>
          match matching_specs overrides id with
          | [] => Ok profile
          | [(_, spec_profile)] => Ok (merge_profile profile spec_profile)
          | _ => text ← PackageId.display id; Panic ("package `" ++ text ++ "` matched multiple profile overrides")
          end
      end
  end.

(** [struct ProfileMaker] *)
Record ProfileMaker := mkMaker {
  pm_default : Profile;
  pm_toml : option TomlProfile;
  pm_config : option TomlProfile;
}.
Definition merge_opt (pkg_id : option PackageId) (is_member : bool) (unit_for : UnitFor) (profile : Profile)
    (toml : option TomlProfile) : cresult Profile :=
  match toml with Some toml => merge_toml pkg_id is_member unit_for profile toml | None => Ok profile end.
(** [ProfileMaker::get_profile] *)
Definition maker_get_profile (m : ProfileMaker) (pkg_id : option PackageId) (is_member : bool) (unit_for : UnitFor)
    : cresult Profile :=
  p ← merge_opt pkg_id is_member unit_for (pm_default m) (pm_toml m);
  merge_opt pkg_id is_member unit_for p (pm_config m).

(** [struct Profiles] *)
Record Profiles := mkProfiles {
  dev : ProfileMaker;
  release : ProfileMaker;
  test : ProfileMaker;
  bench : ProfileMaker;
  doc : ProfileMaker;
}.

(** [Profiles::new]; [config] is what [config.profiles()] returned. *)
Definition profiles_new (env : Env) (profiles : option TomlProfiles) (config : cresult ConfigProfiles)
    (features : Features) (warnings : list string) : cresult Profiles * list string :=
  let '(r, warnings) := match profiles with
                        | Some p => validate_all env features p warnings
                        | None => (Ok tt, warnings)
                        end in
  match r, config with
  | Err e, _ => (Err e, warnings)
  | Panic m, _ => (Panic m, warnings)
  | Ok _, Err e => (Err e, warnings)
  | Ok _, Panic m => (Panic m, warnings)
  | Ok _, Ok config =>
      let '(r, warnings) := validate_config env features config warnings in
      (_ ← r;
       Ok (mkProfiles (mkMaker default_dev (profiles ≫= toml_dev) (cfg_dev config))
                      (mkMaker default_release (profiles ≫= toml_release) (cfg_release config))
                      (mkMaker default_test (profiles ≫= toml_test) None)
                      (mkMaker default_bench (profiles ≫= toml_bench) None)
                      (mkMaker default_doc (profiles ≫= toml_doc) None)), warnings)
  end.

Definition select_maker (p : Profiles) (mode : CompileMode) (is_release : bool) : ProfileMaker :=
  match mode with
  | MTest => if is_release then bench p else test p
  | MBuild | MCheck _ | MDoctest | MRunCustomBuild => if is_release then release p else dev p
  | MBench => bench p
  | MDoc _ => doc p
  end.
(** [Profiles::get_profile] *)
Definition get_profile (p : Profiles) (pkg_id : PackageId) (is_member : bool) (unit_for : UnitFor)
    (mode : CompileMode) (is_release : bool) : cresult Profile :=
  profile ← maker_get_profile (select_maker p mode is_release) (Some pkg_id) is_member unit_for;
  Ok (if negb (panic_ok unit_for) || mode_is_any_test mode then clear_panic profile else profile).

(** [Profiles::get_profile_run_custom_build], [base_profile] *)
Definition get_profile_run_custom_build (for_unit_profile : Profile) : Profile :=
  let d := profile_default in
  mkProfile (prof_name d) (opt_level for_unit_profile) (lto d) (codegen_units d) (debuginfo for_unit_profile)
            (debug_assertions d) (overflow_checks d) (rpath d) (incremental d) (panic d).
Definition base_profile (p : Profiles) (is_release : bool) : cresult Profile :=
  if is_release then maker_get_profile (release p) None true new_normal
  else maker_get_profile (dev p) None true new_normal.

(** ** Overrides for packages that do not exist *)
#[global] Instance PackageIdSpec_key : HashKey PackageIdSpec := {|
  hkey := string * option (hkey Version) * option Url;
  to_key s := (spec_name s, to_key <$> spec_version s, spec_url s);
|}.
(** The specs of an override map. *)
Definition specs (overrides : list (ProfilePackageSpec * TomlProfile)) : list PackageIdSpec :=
  omap (λ kv, match kv.1 with All => None | Spec s => Some s end) overrides.
(** The smallest distance below four, the first package of several. *)
Fixpoint closest (name : string) (packages : list PackageId) (best : option (nat * string)) : cresult (option (nat * string)) :=
  match packages with
  | [] => Ok best
  | p :: packages =>
      match lev_distance (scalars name) (scalars (pid_name p)) with
      | Ok d =>
          closest name packages
            (if (d <? 4)%nat then
               match best with
               | Some (d', _) => if (d <? d')%nat then Some (d, pid_name p) else best
               | None => Some (d, pid_name p)
               end
             else best)
      | Err e => match e with end
      | Panic m => Panic m
      end
  end.

Definition check_package (profile_name : string) (overrides : list (ProfilePackageSpec * TomlProfile))
    (found : hashset PackageIdSpec) (pkg_id : PackageId) : cresult (hashset PackageIdSpec) :=
  match (matching_specs overrides pkg_id).*1 with
  | [] => Ok found
  | [spec] => Ok (hinsert spec tt found)
  | ss =>
      texts ← foldM (λ l s, t ← spec_display s; Ok (l ++ [t])%list) [] ss;
      text ← PackageId.display pkg_id;
      Err ("multiple profile overrides in profile `" ++ profile_name ++ "` match package `" ++ text ++ "`" ++ newline ++
           "found profile override specs: " ++ join ", " texts)
  end.
Definition unmatched_warning (packages : list PackageId) (spec : PackageIdSpec) : cresult string :=
  text ← spec_display spec;
  names ← foldM (λ l p, t ← PackageId.display p; Ok (l ++ [t])%list) []
                (filter (λ p, pid_name p = spec_name spec) packages);
  match names with
  | [] =>
      suggestion ← closest (spec_name spec) packages None;
      Ok ("profile override spec `" ++ text ++ "` did not match any packages" ++
          match suggestion with
          | Some (_, p) => newline ++ newline ++ "Did you mean `" ++ p ++ "`?"
          | None => EmptyString
          end)
  | _ => Ok ("version or URL in profile override spec `" ++ text ++ "` does not match any of the packages: " ++ join ", " names)
  end.

(** [validate_packages_toml], [validate_packages]; [packages] are the ids of
    the [PackageSet] in the order it lists them, the result what the shell is
    told. *)
Definition validate_packages_toml (profile_name : string) (packages : list PackageId) (toml : option TomlProfile)
    (warn_unmatched : bool) : cresult (list string) :=
  match toml ≫= t_overrides with
  | None => Ok []
  | Some overrides =>
      found ← foldM (check_package profile_name overrides) ∅ packages;
      if negb warn_unmatched then Ok []
      else foldM (λ l s, w ← unmatched_warning packages s; Ok (l ++ [w])%list) []
                 (filter (λ s, hcontains found s = false) (specs overrides))
  end.
Definition maker_validate_packages (m : ProfileMaker) (packages : list PackageId) : cresult (list string) :=
  a ← validate_packages_toml (prof_name (pm_default m)) packages (pm_toml m) true;
  b ← validate_packages_toml (prof_name (pm_default m)) packages (pm_config m) false;
  Ok (a ++ b)%list.
Definition validate_packages (p : Profiles) (packages : list PackageId) : cresult (list string) :=
  a ← maker_validate_packages (dev p) packages;
  b ← maker_validate_packages (release p) packages;
  c ← maker_validate_packages (test p) packages;
  d ← maker_validate_packages (bench p) packages;
  e ← maker_validate_packages (doc p) packages;
  Ok (a ++ b ++ c ++ d ++ e)%list.
End profiles.
Arguments ProfileMaker {SV UL}.
Arguments Profiles {SV UL}.

(** * Precedence *)
Section precedence.
Context `{SV : SemverLib} `{UL : UrlLib}.

(** The tables that apply to a package, the most general first. *)
Definition applied (pkg_id : option PackageId) (is_member : bool) (unit_for : UnitFor) (toml : TomlProfile)
    : list TomlProfile :=
  toml :: (if custom_build unit_for then option_list (t_build_override toml) else []) ++
  match t_overrides toml with
  | None => []
  | Some overrides =>
      (if is_member then [] else option_list (override_all overrides)) ++
      match pkg_id with Some id => (matching_specs overrides id).*2 | None => [] end
  end.
(** The precedence the code documents, the strongest first: the tables of the
    configuration, then those of the manifest; in each a named package, then
    ["*"], then [build-override], then the profile itself. *)
Definition layers (m : ProfileMaker) pkg_id is_member unit_for : list TomlProfile :=
  reverse (from_option (applied pkg_id is_member unit_for) [] (pm_toml m) ++
           from_option (applied pkg_id is_member unit_for) [] (pm_config m)).
(** The first table that sets a key. *)
Definition pick {A} (f : TomlProfile → option A) (l : list TomlProfile) (d : A) : A := default d (head (omap f l)).

Definition lto_of (s : StringOrBool) : Lto := match s with SBool b => LtoBool b | SString n => LtoNamed n end.
Definition debuginfo_of (d : U32OrBool) : option N :=
  match d with U32 n => Some n | UBool true => Some 2%N | UBool false => None end.

(** What a profile must be, key by key. *)
Record profile_of (d : Profile) (l : list TomlProfile) (p : Profile) : Prop := {
  of_name : prof_name p = prof_name d;
  of_opt_level : opt_level p = pick t_opt_level l (opt_level d);
  of_lto : lto p = pick (λ t, lto_of <$> t_lto t) l (lto d);
  of_codegen_units : codegen_units p = pick (λ t, Some <$> t_codegen_units t) l (codegen_units d);
  of_debuginfo : debuginfo p = pick (λ t, debuginfo_of <$> t_debug t) l (debuginfo d);
  of_debug_assertions : debug_assertions p = pick t_debug_assertions l (debug_assertions d);
  of_overflow_checks : overflow_checks p = pick t_overflow_checks l (overflow_checks d);
  of_rpath : rpath p = pick t_rpath l (rpath d);
  of_incremental : incremental p = pick t_incremental l (incremental d);
  of_panic : panic p = pick (λ t, Some <$> t_panic t) l (panic d);
}.

Lemma pick_snoc {A} (f : TomlProfile → option A) l t d : pick f (l ++ [t]) d = pick f l (default d (f t)).
Proof.
  unfold pick. rewrite omap_app. destruct (omap f l); [|done]. simpl. by destruct (f t).
Qed.

Lemma merge_layers l p : profile_of p (reverse l) (foldl merge_profile p l).
Proof.
  revert p. induction l as [|t l IH]; intros p; [by split|]. rewrite reverse_cons. simpl.
  destruct (IH (merge_profile p t)) as [H0 H1 H2 H3 H4 H5 H6 H7 H8 H9].
  split; rewrite ?pick_snoc; [done|..].
  - exact H1.
  - rewrite H2. simpl. by destruct (t_lto t) as [[]|].
  - rewrite H3. simpl. by destruct (t_codegen_units t).
  - rewrite H4. simpl. by destruct (t_debug t) as [[|[]]|].
  - exact H5.
  - exact H6.
  - exact H7.
  - exact H8.
  - rewrite H9. simpl. by destruct (t_panic t).
Qed.

(** No package matches two named overrides. *)
Definition one_spec (toml : option TomlProfile) (id : PackageId) : Prop :=
  ∀ overrides, toml ≫= t_overrides = Some overrides → (length (matching_specs overrides id) ≤ 1)%nat.

Lemma merge_toml_ok pkg_id is_member unit_for p toml :
  (∀ id, pkg_id = Some id → one_spec (Some toml) id) →
  merge_toml pkg_id is_member unit_for p toml = Ok (foldl merge_profile p (applied pkg_id is_member unit_for toml)).
Proof.
  intros Hone. unfold merge_toml, applied. cbn [foldl]. rewrite foldl_app.
  assert (Hb : (if custom_build unit_for then
      match t_build_override toml with Some o => merge_profile (merge_profile p toml) o | None => merge_profile p toml end
    else merge_profile p toml) =
    foldl merge_profile (merge_profile p toml) (if custom_build unit_for then option_list (t_build_override toml) else [])).
  { destruct (custom_build unit_for); [|done]. by destruct (t_build_override toml). }
  rewrite Hb. clear Hb. generalize (foldl merge_profile (merge_profile p toml)
    (if custom_build unit_for then option_list (t_build_override toml) else [])). intros q.
  destruct (t_overrides toml) as [o|] eqn:Ho; [|done]. rewrite foldl_app.
  assert (Ha : (if negb is_member then match override_all o with Some all => merge_profile q all | None => q end else q) =
    foldl merge_profile q (if is_member then [] else option_list (override_all o))).
  { destruct is_member; [done|]. by destruct (override_all o). }
  rewrite Ha. destruct pkg_id as [id|]; [|done]. specialize (Hone id eq_refl o Ho).
  destruct (matching_specs o id) as [|[s t] [|x l]]; [done|done|simpl in Hone; lia].
Qed.

(** The panic that [validate_packages] is there to exclude. *)
Lemma maker_get_profile_ok m pkg_id is_member unit_for :
  (∀ id, pkg_id = Some id → one_spec (pm_toml m) id ∧ one_spec (pm_config m) id) →
  maker_get_profile m pkg_id is_member unit_for =
    Ok (foldl merge_profile (pm_default m) (reverse (layers m pkg_id is_member unit_for))).
Proof.
  intros Hone. unfold maker_get_profile, layers. rewrite reverse_involutive, foldl_app.
  assert (Hopt : ∀ p t, (∀ id, pkg_id = Some id → one_spec t id) →
    merge_opt pkg_id is_member unit_for p t =
      Ok (foldl merge_profile p (from_option (applied pkg_id is_member unit_for) [] t))).
  { intros p [t|] Ht; [|done]. by apply merge_toml_ok. }
  rewrite Hopt by (intros id Hid; by apply Hone). simpl. by rewrite Hopt by (intros id Hid; by apply Hone).
Qed.

Lemma check_package_one name o found id found' :
  check_package name o found id = Ok found' → (length (matching_specs o id) ≤ 1)%nat.
Proof.
  unfold check_package. destruct (matching_specs o id) as [|[s t] [|x l]]; simpl; [lia|lia|].
  intros (texts & _ & H)%bind_Ok_inv. apply bind_Ok_inv in H as (text & _ & [=]).
Qed.

Lemma validated_one name packages toml w warned id :
  validate_packages_toml name packages toml w = Ok warned → id ∈ packages → one_spec toml id.
Proof.
  unfold validate_packages_toml. intros H Hid o Ho. rewrite Ho in H. apply bind_Ok_inv in H as (found & Hf & _).
  clear Ho. revert Hf. generalize (∅ : hashset PackageIdSpec). induction packages as [|x packages IH]; intros found0 Hf.
  { destruct (not_elem_of_nil _ Hid). }
  simpl in Hf. destruct (check_package name o found0 x) as [found1|e|m] eqn:Hx; [|discriminate Hf..].
  apply elem_of_cons in Hid as [->|Hid]; [by apply check_package_one in Hx|by apply (IH Hid found1)].
Qed.

Lemma validated_maker m packages warned id :
  maker_validate_packages m packages = Ok warned → id ∈ packages → one_spec (pm_toml m) id ∧ one_spec (pm_config m) id.
Proof.
  unfold maker_validate_packages. intros (a & Ha & H)%bind_Ok_inv Hid. apply bind_Ok_inv in H as (b & Hb & _).
  split; by eapply validated_one.
Qed.

Lemma validated_all p packages warned id mode is_release :
  validate_packages p packages = Ok warned → id ∈ packages →
  one_spec (pm_toml (select_maker p mode is_release)) id ∧ one_spec (pm_config (select_maker p mode is_release)) id.
Proof.
  unfold validate_packages. intros (a & Ha & H)%bind_Ok_inv Hid. apply bind_Ok_inv in H as (b & Hb & H).
  apply bind_Ok_inv in H as (c & Hc & H). apply bind_Ok_inv in H as (d & Hd & H). apply bind_Ok_inv in H as (e & He & _).
  unfold select_maker. destruct mode, is_release; by eapply validated_maker.
Qed.

(** Once [validate_packages] has accepted the profiles, every unit of the
    package set gets its profile without a panic, and that profile refines the
    documented precedence: each key has the value of the first table that sets
    it, the configuration's tables before the manifest's and, in each, the
    override for the package, the ["*"] override for packages outside the
    workspace, [build-override] for build scripts, the profile, and at last the
    built-in value.  Tests, benchmarks and what runs on the host get no
    [panic] setting. *)
Theorem get_profile_spec p packages warned id is_member unit_for mode is_release
    (Hv : validate_packages p packages = Ok warned) (Hid : id ∈ packages) :
  let m := select_maker p mode is_release in
  ∃ prof q, get_profile p id is_member unit_for mode is_release = Ok prof ∧
    profile_of (pm_default m) (layers m (Some id) is_member unit_for) q ∧
    prof = (if negb (panic_ok unit_for) || mode_is_any_test mode then clear_panic q else q).
Proof.
  intros m. unfold get_profile. fold m. rewrite maker_get_profile_ok.
  - eexists _, _. split; [done|]. split; [|done].
    rewrite <-(reverse_involutive (layers m (Some id) is_member unit_for)) at 1. apply merge_layers.
  - intros id' [= <-]. by eapply validated_all.
Qed.
End precedence.

(** * Concrete runs *)
Section runs.
Local Existing Instance sem_lib.
Local Existing Instance hier_lib.
Local Existing Instance ascii_letters.

Definition empty_toml : TomlProfile := mkTomlProfile None None None None None None None None None None None.
Definition with_level (level : string) : TomlProfile :=
  mkTomlProfile (Some level) None None None None None None None None None None.
(** [[profile.dev]] with overrides for [foo] and for everything else; the
    configuration turns debug information off. *)
Definition overridden : TomlProfile :=
  mkTomlProfile None None None (Some (UBool true)) None None (Some "abort") None None
    (Some [(Spec (mkSpec "foo" None None), with_level "3"); (All, with_level "2")]) (Some (with_level "1")).
Definition config_dev : TomlProfile :=
  mkTomlProfile None None None (Some (UBool false)) None None None None None None None.
Definition sample_profiles : Profiles :=
  mkProfiles (mkMaker default_dev (Some overridden) (Some config_dev)) (mkMaker default_release None None)
             (mkMaker default_test None None) (mkMaker default_bench None None) (mkMaker default_doc None None).
Definition bar (v : Version) : PackageId := mkPackageId "bar" v crates_io.

Lemma get_profile_spec_witness :
  validate_packages sample_profiles [foo (1, 0, 0); bar (1, 0, 0)] = Ok [] ∧
  (opt_level <$> get_profile sample_profiles (foo (1, 0, 0)) false new_build MBuild false) = Ok "3" ∧
  (opt_level <$> get_profile sample_profiles (bar (1, 0, 0)) true new_build MBuild false) = Ok "1" ∧
  ∃ prof, get_profile sample_profiles (bar (1, 0, 0)) false new_normal MBuild false = Ok prof ∧
    opt_level prof = "2" ∧ debuginfo prof = None ∧ panic prof = Some "abort".
Proof.
  assert (Hv : validate_packages sample_profiles [foo (1, 0, 0); bar (1, 0, 0)] = Ok []) by vm_eq.
  split_and!; [exact Hv|vm_eq|vm_eq|].
  destruct (get_profile_spec sample_profiles _ _ (bar (1, 0, 0)) false new_normal MBuild false Hv) as (prof & q & H1 & H2 & H3).
  { apply elem_of_cons. right. constructor. }
  cbn in H3. subst q. exists prof. split; [exact H1|].
  rewrite (of_opt_level _ _ _ H2), (of_debuginfo _ _ _ H2), (of_panic _ _ _ H2). split_and!; vm_eq.
Defined.
End runs.
