(* ===== verification/TomlManifest.v ===== *)
(** A parsed [Cargo.toml], [src/cargo/util/toml/mod.rs]: the tables as [serde]
    fills them in, what the hand-written visitors make of a value, and
    [prepare_for_publish], which rewrites a manifest for the registry. *)
From stdpp Require Import pretty.
From S2P Require Import Prelude Str Extern Path SourceId PackageId Features Profiles ConfigValue Config SourceConfig.

Local Open Scope string_scope.

(** * Values with a visitor of their own *)

(** [Visitor for U32OrBool]: the conversion [as u32] keeps the low 32 bits. *)
Definition as_u32 (z : Z) : N := Z.to_N (z mod 2 ^ 32).
Definition u32_or_bool_visit_i64 (u : Z) : U32OrBool := U32 (as_u32 u).
Definition u32_or_bool_visit_bool (b : bool) : U32OrBool := UBool b.

(** [i64::to_string] *)
Definition i64_to_string (z : Z) : string := pretty z.
(** [Visitor for TomlOptLevel] *)
Definition opt_level_visit_i64 (value : Z) : string := i64_to_string value.
Definition opt_level_visit_str (value : string) : cresult string :=
  if String.eqb value "s" || String.eqb value "z" then Ok value
  else Err ("must be an integer, `z`, or `s`, but found: " ++ value).

(** [struct StringOrVec], [enum VecStringOrBool] *)
Definition StringOrVec : Type := list string.
Definition string_or_vec_visit_str (s : string) : StringOrVec := [s].
Inductive VecStringOrBool := VecString (l : list string) | VBool (b : bool).

(** * Tables *)

(** [struct TomlTarget] *)
Record TomlTarget := mkTomlTarget {
  tt_name : option string;
  tt_crate_type : option (list string);
  tt_crate_type2 : option (list string);
  tt_path : option path;
  tt_test : option bool;
  tt_doctest : option bool;
  tt_bench : option bool;
  tt_doc : option bool;
  tt_plugin : option bool;
  tt_proc_macro : option bool;
  tt_proc_macro2 : option bool;
  tt_harness : option bool;
  tt_required_features : option (list string);
  tt_edition : option string;
}.
Definition toml_target_new : TomlTarget :=
  mkTomlTarget None None None None None None None None None None None None None None.
(** The struct updates [TomlTarget { name, ..t }] and [TomlTarget { name, path, ..TomlTarget::new() }]. *)
Definition set_target_name (t : TomlTarget) (name : option string) : TomlTarget :=
  let '(mkTomlTarget _ c c2 p te dt b d pl pm pm2 h r e) := t in
  mkTomlTarget name c c2 p te dt b d pl pm pm2 h r e.
Definition named_target (name : string) (p : path) : TomlTarget :=
  mkTomlTarget (Some name) None None (Some p) None None None None None None None None None None.

(** [TomlTarget::name], [proc_macro], [crate_types] *)
Definition toml_name (t : TomlTarget) : cresult string :=
  match tt_name t with Some name => Ok name | None => Panic "target name is required" end.
Definition option_or {A} (a b : option A) : option A := match a with Some _ => a | None => b end.
Definition toml_proc_macro (t : TomlTarget) : option bool := option_or (tt_proc_macro t) (tt_proc_macro2 t).
Definition toml_crate_types (t : TomlTarget) : option (list string) := option_or (tt_crate_type t) (tt_crate_type2 t).

(** [struct DetailedTomlDependency], [enum TomlDependency] *)
Record DetailedTomlDependency := mkDetailed {
  td_version : option string;
  td_registry : option string;
  td_registry_index : option string;
  td_path : option string;
  td_git : option string;
  td_branch : option string;
  td_tag : option string;
  td_rev : option string;
  td_features : option (list string);
  td_optional : option bool;
  td_default_features : option bool;
  td_default_features2 : option bool;
  td_package : option string;
}.
Inductive TomlDependency := Simple (version : string) | Detailed (d : DetailedTomlDependency).
(** [DetailedTomlDependency { version, ..Default::default() }] *)
Definition only_version (v : string) : DetailedTomlDependency :=
  mkDetailed (Some v) None None None None None None None None None None None None.

(** [struct TomlPlatform] *)
Record TomlPlatform := mkTomlPlatform {
  tp_dependencies : option (gmap string TomlDependency);
  tp_build_dependencies : option (gmap string TomlDependency);
  tp_build_dependencies2 : option (gmap string TomlDependency);
  tp_dev_dependencies : option (gmap string TomlDependency);
  tp_dev_dependencies2 : option (gmap string TomlDependency);
}.

(** [struct TomlWorkspace] *)
Record TomlWorkspace := mkTomlWorkspace {
  tw_members : option (list string);
  tw_default_members : option (list string);
  tw_exclude : option (list string);
}.

Section manifest.
Context `{SV : SemverLib} `{UL : UrlLib}.

(** [struct TomlProject]: the [package] or [project] table. *)
Record TomlProject := mkTomlProject {
  pj_edition : option string;
  pj_name : string;
  pj_version : Version;
  pj_authors : option (list string);
  pj_build : option StringOrBool;
  pj_metabuild : option StringOrVec;
  pj_links : option string;
  pj_exclude : option (list string);
  pj_include : option (list string);
  pj_publish : option VecStringOrBool;
  pj_publish_lockfile : option bool;
  pj_workspace : option string;
  pj_im_a_teapot : option bool;
  pj_autobins : option bool;
  pj_autoexamples : option bool;
  pj_autotests : option bool;
  pj_autobenches : option bool;
  pj_namespaced_features : option bool;
  pj_default_run : option string;
  pj_description : option string;
  pj_homepage : option string;
  pj_documentation : option string;
  pj_readme : option string;
  pj_keywords : option (list string);
  pj_categories : option (list string);
  pj_license : option string;
  pj_license_file : option string;
  pj_repository : option string;
  pj_metadata : option toml;
}.
(** [package.workspace = None] *)
Definition clear_workspace (p : TomlProject) : TomlProject :=
  let '(mkTomlProject ed n v au bu me li ex inc pu pl _ te ab ae at_ abe nf dr de ho do_ re ke ca lic lf rep meta) := p in
  mkTomlProject ed n v au bu me li ex inc pu pl None te ab ae at_ abe nf dr de ho do_ re ke ca lic lf rep meta.

(** [struct TomlManifest] *)
Record TomlManifest := mkTomlManifest {
  tm_cargo_features : option (list string);
  tm_package : option TomlProject;
  tm_project : option TomlProject;
  tm_profile : option TomlProfiles;
  tm_lib : option TomlTarget;
  tm_bin : option (list TomlTarget);
  tm_example : option (list TomlTarget);
  tm_test : option (list TomlTarget);
  tm_bench : option (list TomlTarget);
  tm_dependencies : option (gmap string TomlDependency);
  tm_dev_dependencies : option (gmap string TomlDependency);
  tm_dev_dependencies2 : option (gmap string TomlDependency);
  tm_build_dependencies : option (gmap string TomlDependency);
  tm_build_dependencies2 : option (gmap string TomlDependency);
  tm_features : option (gmap string (list string));
  tm_target : option (gmap string TomlPlatform);
  tm_replace : option (gmap string TomlDependency);
  tm_patch : option (gmap string (gmap string TomlDependency));
  tm_workspace : option TomlWorkspace;
  tm_badges : option (gmap string (gmap string string));
}.
Definition has_profiles (m : TomlManifest) : bool := bool_decide (is_Some (tm_profile m)).
(** [TomlProject::to_package_id]; the version is a [semver::Version] already. *)
Definition to_package_id (p : TomlProject) (source_id : SourceId) : PackageId :=
  mkPackageId (pj_name p) (pj_version p) source_id.

(** * [prepare_for_publish] *)
Context (alt_registry : string → cresult SourceId).

(** [map_dependency] *)
Definition map_dependency (dep : TomlDependency) : cresult TomlDependency :=
  match dep with
  | Detailed (mkDetailed v reg regi _ g b t r f o df df2 p) =>
      match reg with
      | Some registry =>
          src ← alt_registry registry;
          Ok (Detailed (mkDetailed v None (Some (url_as_str (sid_url src))) None g b t r f o df df2 p))
      | None => Ok (Detailed (mkDetailed v None regi None g b t r f o df df2 p))
      end
  | Simple s => Ok (Detailed (only_version s))
  end.

(** [iter().map(..).collect::<CargoResult<BTreeMap<_, _>>>()] *)
Definition try_map {A B} (f : A → cresult B) (m : gmap string A) : cresult (gmap string B) :=
  foldM (λ out kv, v ← f kv.2; Ok (<[kv.1 := v]> out)) ∅ (btree_iter m).
Definition try_option {A B} (f : A → cresult B) (o : option A) : cresult (option B) :=
  match o with Some a => b ← f a; Ok (Some b) | None => Ok None end.

(** [map_deps] *)
Definition map_deps (deps : option (gmap string TomlDependency)) : cresult (option (gmap string TomlDependency)) :=
  try_option (try_map map_dependency) deps.

Definition map_platform (v : TomlPlatform) : cresult TomlPlatform :=
  dependencies ← map_deps (tp_dependencies v);
  dev_dependencies ← map_deps (option_or (tp_dev_dependencies v) (tp_dev_dependencies2 v));
  build_dependencies ← map_deps (option_or (tp_build_dependencies v) (tp_build_dependencies2 v));
  Ok (mkTomlPlatform dependencies build_dependencies None dev_dependencies None).

Definition prepare_for_publish (m : TomlManifest) : cresult TomlManifest :=
  package ← unwrap (option_or (tm_package m) (tm_project m));
  dependencies ← map_deps (tm_dependencies m);
  dev_dependencies ← map_deps (option_or (tm_dev_dependencies m) (tm_dev_dependencies2 m));
  build_dependencies ← map_deps (option_or (tm_build_dependencies m) (tm_build_dependencies2 m));
  target ← try_option (try_map map_platform) (tm_target m);
  Ok (mkTomlManifest (tm_cargo_features m) (Some (clear_workspace package)) None (tm_profile m) (tm_lib m) (tm_bin m)
        (tm_example m) (tm_test m) (tm_bench m) dependencies dev_dependencies None build_dependencies None
        (tm_features m) target None None None (tm_badges m)).
End manifest.

Example debug_wraps : u32_or_bool_visit_i64 (-1) = U32 4294967295 ∧ u32_or_bool_visit_i64 4294967298 = U32 2.
Proof. split; vm_eq. Qed.
Example opt_level_text : opt_level_visit_i64 (-3) = "-3" ∧ opt_level_visit_i64 2 = "2".
Proof. split; vm_eq. Qed.

(** * Facts *)

(** A number a [u32] can hold is kept; any other one changes silently. *)
Lemma as_u32_spec z : Z.of_N (as_u32 z) = z ↔ (0 <= z < 2 ^ 32)%Z.
Proof.
  unfold as_u32. rewrite Z2N.id by (apply Z.mod_pos_bound; lia). split.
  - intros <-. apply Z.mod_pos_bound. lia.
  - intros H. by apply Z.mod_small.
Qed.

Section try_map.
Context {A B : Type} (f : A → cresult B).
Implicit Types (l : list (string * A)).

Lemma try_loop_spec l (acc : gmap string B) : NoDup l.*1 →
  match foldM (λ out kv, v ← f kv.2; Ok (<[kv.1 := v]> out)) acc l with
  | Ok out => ∀ k, match (list_to_map l : gmap string A) !! k with
                   | Some a => ∃ b, f a = Ok b ∧ out !! k = Some b
                   | None => out !! k = acc !! k
                   end
  | Err e => ∃ k a, (k, a) ∈ l ∧ f a = Err e
  | Panic p => ∃ k a, (k, a) ∈ l ∧ f a = Panic p
  end.
Proof.
  revert acc. induction l as [|[k0 a0] l IH]; intros acc Hnd; cbn [foldM]; [intros k; cbn [list_to_map foldr]; by rewrite lookup_empty|].
  cbn [fst snd]. apply NoDup_cons in Hnd as [Hk0 Hnd].
  destruct (f a0) as [b0|e|p] eqn:Hf; cbn [mbind res_mbind res_bind];
    [|exists k0, a0; split; [constructor|done]..].
  specialize (IH (<[k0 := b0]> acc) Hnd). destruct (foldM _ _ l) as [out|e|p].
  - intros k. specialize (IH k). rewrite list_to_map_cons. cbn [fst snd].
    destruct (decide (k = k0)) as [->|Hk].
    + rewrite lookup_insert_eq. exists b0. split; [done|].
      rewrite (not_elem_of_list_to_map_1 l k0 Hk0) in IH. by rewrite IH, lookup_insert_eq.
    + rewrite lookup_insert_ne by done. destruct (list_to_map l !! k); [done|]. by rewrite IH, lookup_insert_ne.
  - destruct IH as (k & a & Hin & ?). exists k, a. split; [by constructor|done].
  - destruct IH as (k & a & Hin & ?). exists k, a. split; [by constructor|done].
Qed.

Lemma btree_iter_map (m : gmap string A) : (list_to_map (btree_iter m) : gmap string A) = m.
Proof.
  apply map_eq. intros k. apply option_eq. intros a.
  etrans; [symmetry; apply elem_of_list_to_map, NoDup_btree_iter|apply elem_of_btree_iter].
Qed.

(** Collecting into a result: every value is converted, or the first failure is the result. *)
Lemma try_map_spec (m : gmap string A) :
  match try_map f m with
  | Ok out => ∀ k, match m !! k with
                   | Some a => ∃ b, f a = Ok b ∧ out !! k = Some b
                   | None => out !! k = None
                   end
  | Err e => ∃ k a, m !! k = Some a ∧ f a = Err e
  | Panic p => ∃ k a, m !! k = Some a ∧ f a = Panic p
  end.
Proof.
  pose proof (try_loop_spec (btree_iter m) ∅ (NoDup_btree_iter m)) as H. unfold try_map.
  destruct (foldM _ _ _) as [out|e|p].
  - intros k. specialize (H k). rewrite btree_iter_map in H.
    destruct (m !! k); [done|]. by rewrite lookup_empty in H.
  - destruct H as (k & a & Hin & ?). exists k, a. by rewrite <-elem_of_btree_iter.
  - destruct H as (k & a & Hin & ?). exists k, a. by rewrite <-elem_of_btree_iter.
Qed.
End try_map.

Lemma try_map_values {A B} (f : A → cresult B) m out k b :
  try_map f m = Ok out → out !! k = Some b → ∃ a, f a = Ok b.
Proof.
  intros H Hk. pose proof (try_map_spec f m) as Hs. rewrite H in Hs. specialize (Hs k).
  destruct (m !! k) as [a|]; [|congruence]. destruct Hs as (b' & Hf & Hb'). exists a. congruence.
Qed.

(** A conversion that fixes every value fixes the map. *)
Lemma try_map_id {A} (f : A → cresult A) m : (∀ k a, m !! k = Some a → f a = Ok a) → try_map f m = Ok m.
Proof.
  intros Hf. pose proof (try_map_spec f m) as Hs. destruct (try_map f m) as [out|e|p].
  - f_equal. apply map_eq. intros k. specialize (Hs k). destruct (m !! k) as [a|] eqn:Hk; [|done].
    destruct Hs as (b & Hb & ->). rewrite (Hf k a Hk) in Hb. congruence.
  - destruct Hs as (k & a & Hk & Ha). rewrite (Hf k a Hk) in Ha. done.
  - destruct Hs as (k & a & Hk & Ha). rewrite (Hf k a Hk) in Ha. done.
Qed.

Lemma try_option_inv {A B} (f : A → cresult B) o o' : try_option f o = Ok o' →
  match o' with Some b => ∃ a, o = Some a ∧ f a = Ok b | None => o = None end.
Proof.
  destruct o as [a|]; cbn; [|by intros [= <-]].
  intros (b & Hb & [= <-])%bind_Ok_inv. by exists a.
Qed.

(** Conversions whose results they fix. *)
Definition stable {A} (f : A → cresult A) : Prop := ∀ a b, f a = Ok b → f b = Ok b.
Lemma try_map_stable {A} (f : A → cresult A) : stable f → stable (try_map f).
Proof.
  intros Hf m out H. apply try_map_id. intros k b Hk.
  destruct (try_map_values f m out k b H Hk) as (a & Ha). by apply Hf in Ha.
Qed.
Lemma try_option_stable {A} (f : A → cresult A) : stable f → stable (try_option f).
Proof.
  intros Hf o o' H. apply try_option_inv in H. destruct o' as [b|]; [|done].
  destruct H as (a & _ & Ha). cbn. by rewrite (Hf a b Ha).
Qed.

Section publish.
Context `{SV : SemverLib} `{UL : UrlLib} (alt_registry : string → cresult SourceId).

(** What a registry accepts: a dependency without [path] and without the name of a registry. *)
Definition publishable (d : TomlDependency) : Prop :=
  match d with Detailed d => td_path d = None ∧ td_registry d = None | Simple _ => False end.
(** The dependency tables of a manifest, those of its platforms included. *)
Definition platform_tables (p : TomlPlatform) : list (option (gmap string TomlDependency)) :=
  [tp_dependencies p; tp_build_dependencies p; tp_build_dependencies2 p; tp_dev_dependencies p; tp_dev_dependencies2 p].
Definition own_tables (m : TomlManifest) : list (option (gmap string TomlDependency)) :=
  [tm_dependencies m; tm_dev_dependencies m; tm_dev_dependencies2 m; tm_build_dependencies m; tm_build_dependencies2 m].
Definition in_table (k : string) (d : TomlDependency) (t : option (gmap string TomlDependency)) : Prop :=
  ∃ m, t = Some m ∧ m !! k = Some d.
Definition depends (m : TomlManifest) (k : string) (d : TomlDependency) : Prop :=
  Exists (in_table k d) (own_tables m) ∨
  ∃ ts name p, tm_target m = Some ts ∧ ts !! name = Some p ∧ Exists (in_table k d) (platform_tables p).

Lemma map_dependency_publishable d d' : map_dependency alt_registry d = Ok d' → publishable d'.
Proof.
  destruct d as [s|[v [reg|] regi pa g b t r f o df df2 p]]; cbn.
  - by intros [= <-].
  - by intros (src & _ & [= <-])%bind_Ok_inv.
  - by intros [= <-].
Qed.
Lemma map_dependency_stable : stable (map_dependency alt_registry).
Proof.
  intros d d' H%map_dependency_publishable. destruct d' as [s|[v reg regi pa g b t r f o df df2 p]]; [done|].
  cbn in *. by destruct H as [-> ->].
Qed.
Lemma map_deps_stable : stable (map_deps alt_registry).
Proof. apply try_option_stable, try_map_stable, map_dependency_stable. Qed.
Lemma map_deps_publishable t t' k d : map_deps alt_registry t = Ok t' → in_table k d t' → publishable d.
Proof.
  intros Ht (m & -> & Hk). apply try_option_inv in Ht as (m0 & _ & Hm).
  destruct (try_map_values _ _ _ _ _ Hm Hk) as (a & Ha). by apply map_dependency_publishable in Ha.
Qed.

Lemma map_platform_inv v v' : map_platform alt_registry v = Ok v' →
  map_platform alt_registry v' = Ok v' ∧ ∀ k d, Exists (in_table k d) (platform_tables v') → publishable d.
Proof.
  unfold map_platform.
  intros (a & Ha & (b & Hb & (c & Hc & [= <-])%bind_Ok_inv)%bind_Ok_inv)%bind_Ok_inv. split.
  - cbn [tp_dependencies tp_dev_dependencies tp_dev_dependencies2 tp_build_dependencies tp_build_dependencies2].
    rewrite (map_deps_stable _ _ Ha). cbn [mbind res_mbind res_bind].
    assert (Hor : ∀ {X} (o : option X), option_or o None = o) by (by intros X []).
    by rewrite !Hor, (map_deps_stable _ _ Hb), (map_deps_stable _ _ Hc).
  - intros k d. unfold platform_tables. rewrite !Exists_cons, Exists_nil. cbn.
    assert (Hno : ∀ k d, ¬ in_table k d None) by (by intros ? ? (? & ? & _)).
    intros [H|[H|[H|[H|[H|H]]]]]; try (by apply Hno in H); try done;
      (eapply map_deps_publishable; [|exact H]; eassumption).
Qed.
Lemma map_platform_stable : stable (map_platform alt_registry).
Proof. intros v v' H. apply (map_platform_inv v v' H). Qed.

(** Publishing: the rewritten manifest keeps no dependency, of any table or
    platform, that has a [path] or the name of a registry, and neither the
    legacy tables nor [workspace], [replace], [patch] and [project]; rewriting
    it again changes nothing. *)
Theorem prepare_for_publish_spec (m m' : TomlManifest) (H : prepare_for_publish alt_registry m = Ok m') :
  (∀ k d, depends m' k d → publishable d) ∧
  (tm_project m' = None ∧ tm_workspace m' = None ∧ tm_replace m' = None ∧ tm_patch m' = None ∧
   tm_dev_dependencies2 m' = None ∧ tm_build_dependencies2 m' = None) ∧
  prepare_for_publish alt_registry m' = Ok m'.
Proof.
  unfold prepare_for_publish in H.
  apply bind_Ok_inv in H as (pkg & Hpkg & H). apply bind_Ok_inv in H as (a & Ha & H).
  apply bind_Ok_inv in H as (b & Hb & H). apply bind_Ok_inv in H as (c & Hc & H).
  apply bind_Ok_inv in H as (t & Ht & [= <-]).
  assert (Hor : ∀ {X} (o : option X), option_or o None = o) by (by intros X []).
  assert (Hno : ∀ k d, ¬ in_table k d None) by (by intros ? ? (? & ? & _)).
  split; [|split; [done|]].
  - intros k d [Hin|(ts & name & p & Hts & Hp & Hin)].
    + revert Hin. unfold own_tables. rewrite !Exists_cons, Exists_nil. cbn.
      intros [Hin|[Hin|[Hin|[Hin|[Hin|Hin]]]]]; try (by apply Hno in Hin); try done;
        (eapply map_deps_publishable; [|exact Hin]; eassumption).
    + cbn in Hts. subst t. apply try_option_inv in Ht as (ts0 & _ & Hts).
      destruct (try_map_values _ _ _ _ _ Hts Hp) as (v & Hv).
      exact (proj2 (map_platform_inv v p Hv) k d Hin).
  - unfold prepare_for_publish. cbn. rewrite !Hor.
    rewrite (map_deps_stable _ _ Ha), (map_deps_stable _ _ Hb), (map_deps_stable _ _ Hc).
    cbn [mbind res_mbind res_bind].
    rewrite (try_option_stable _ (try_map_stable _ map_platform_stable) _ _ Ht). cbn. by destruct pkg.
Qed.
End publish.

(** * A concrete run *)
Definition sample_detailed : DetailedTomlDependency :=
  mkDetailed (Some "1") (Some "alt") None (Some "../b") None None None None None None None None None.
Definition sample_platform : TomlPlatform :=
  mkTomlPlatform (Some {["b" := Detailed sample_detailed]}) None (Some {["c" := Simple "2"]}) None None.
Definition sample_project : TomlProject (SV:=sem_lib) :=
  @mkTomlProject sem_lib None "a" (1, 0, 0)%nat None None None None None None None None (Some "..") None None None None
    None None None None None None None None None None None None None.
Definition sample_manifest : TomlManifest (SV:=sem_lib) (UL:=hier_lib) :=
  @mkTomlManifest sem_lib hier_lib None None (Some sample_project) None None None None None None (Some {["b" := Detailed sample_detailed]})
    None (Some {["d" := Simple "3"]}) None None None (Some {["unix" := sample_platform]})
    None None (Some (mkTomlWorkspace None None None)) None.
Definition sample_registry (_ : string) : cresult (SourceId (UL:=hier_lib)) :=
  Ok (mkSourceId (UL:=hier_lib) github_https github_https Registry None None).
Definition published : TomlManifest (SV:=sem_lib) (UL:=hier_lib) :=
  match prepare_for_publish (SV:=sem_lib) (UL:=hier_lib) sample_registry sample_manifest with Ok m => m | _ => sample_manifest end.

Lemma prepare_for_publish_spec_witness :
  prepare_for_publish (SV:=sem_lib) (UL:=hier_lib) sample_registry sample_manifest = Ok published ∧
  depends (SV:=sem_lib) (UL:=hier_lib) published "d" (Detailed (only_version "3")) ∧
  prepare_for_publish (SV:=sem_lib) (UL:=hier_lib) sample_registry published = Ok published.
Proof.
  assert (H : prepare_for_publish (SV:=sem_lib) (UL:=hier_lib) sample_registry sample_manifest = Ok published).
  { assert (Hok : is_ok (prepare_for_publish (SV:=sem_lib) (UL:=hier_lib) sample_registry sample_manifest) = true) by vm_eq.
    unfold published. by destruct (prepare_for_publish _ _). }
  split; [done|]. split; [|apply (prepare_for_publish_spec (SV:=sem_lib) (UL:=hier_lib) sample_registry _ _ H)].
  left. apply Exists_cons. right. apply Exists_cons. left.
  exists {["d" := Detailed (only_version "3")]}. split; vm_eq.
Defined.
