(* ===== verification/TomlTargets.v ===== *)
(** The targets of a package, [src/cargo/util/toml/targets.rs]: those its
    [Cargo.toml] lists and those inferred from the layout of its directory. *)
From S2P Require Import Prelude Str Extern Path Utf8 Features Target Profiles ConfigValue Config TomlManifest.

Local Open Scope string_scope.

(** * Directories
    [fs::read_dir]: the entries in the order the system lists them; reading an
    entry, and asking for its type, may fail. *)
Record DirEntry := mkDirEntry { de_file_name : string; de_is_dir : option bool }.
Class DirSystem := {
  is_file : path → bool;                                  (* [metadata] succeeds, [is_file] *)
  read_dir : path → option (list (option DirEntry));
}.
Definition path_to_str (p : string) : option string := if valid_utf8 p then Some p else None.

(** * What reading a manifest collects on the way
    Warnings and errors for the manifest, the paths of dependencies, lines
    printed.  A computation that fails drops what is collected so far, as its
    caller does. *)
Record notes := mkNotes {
  nt_warnings : list string;
  nt_errors : list string;
  nt_nested_paths : list path;
  nt_printed : list string;          (* what is printed at once *)
}.
Definition reading (A : Type) : Type := notes → cresult (A * notes).
Definition rd_ret {A} (a : A) : reading A := λ n, Ok (a, n).
Definition rd_bind {A B} (m : reading A) (f : A → reading B) : reading B :=
  λ n, '(a, n) ← m n; f a n.
Definition rd_lift {A} (m : cresult A) : reading A := λ n, a ← m; Ok (a, n).
Definition rd_warn (w : string) : reading unit :=
  λ n, Ok (tt, mkNotes (nt_warnings n ++ [w])%list (nt_errors n) (nt_nested_paths n) (nt_printed n)).
Definition rd_error (e : string) : reading unit :=
  λ n, Ok (tt, mkNotes (nt_warnings n) (nt_errors n ++ [e])%list (nt_nested_paths n) (nt_printed n)).
Definition rd_nested (p : path) : reading unit :=
  λ n, Ok (tt, mkNotes (nt_warnings n) (nt_errors n) (nt_nested_paths n ++ [p])%list (nt_printed n)).
Definition rd_print (l : list string) : reading unit :=
  λ n, Ok (tt, mkNotes (nt_warnings n) (nt_errors n) (nt_nested_paths n) (nt_printed n ++ l)%list).
(** A closure that captures the vector of warnings. *)
Definition rd_warnings {A} (f : list string → cresult A * list string) : reading A :=
  λ n, let r := f (nt_warnings n) in a ← r.1; Ok (a, mkNotes r.2 (nt_errors n) (nt_nested_paths n) (nt_printed n)).
Notation "'let!' x ':=' m 'in' k" := (rd_bind m (λ x, k))
  (at level 10, x pattern, m at level 100, k at level 200) : stdpp_scope.
Fixpoint rd_map {A B} (f : A → reading B) (l : list A) : reading (list B) :=
  match l with
  | [] => rd_ret []
  | x :: l => let! y := f x in let! ys := rd_map f l in rd_ret (y :: ys)
  end.

Definition edition_before_2018 (e : Edition) : bool := bool_decide (e = Edition2015).
Definition nl : string := String (ch 10) "".

(** [is_bad_artifact_name], [src/cargo/core/compiler/layout.rs] *)
Definition is_bad_artifact_name (name : string) : bool :=
  existsb (String.eqb name) ["deps"; "examples"; "build"; "native"; "incremental"].

(** * Checks *)
Definition validate_has_name (target : TomlTarget) (target_kind_human target_kind : string) : cresult unit :=
  match tt_name target with
  | Some name => if is_empty (trim name) then Err (target_kind_human ++ " target names cannot be empty") else Ok tt
  | None => Err (target_kind_human ++ " target " ++ target_kind ++ ".name is required")
  end.

Definition duplicate_name (target_kind name : string) : string :=
  "found duplicate " ++ target_kind ++ " name " ++ name ++
  ", but all " ++ target_kind ++ " targets must have a unique name".
(** The loop over [targets.iter().map(|e| e.name())]. *)
Definition see_name (target_kind : string) (seen : gset string) (t : TomlTarget) : cresult (gset string) :=
  name ← toml_name t;
  if decide (name ∈ seen) then Err (duplicate_name target_kind name) else Ok ({[name]} ∪ seen).
Definition validate_unique_names (targets : list TomlTarget) (target_kind : string) : cresult unit :=
  _ ← foldM (see_name target_kind) ∅ targets; Ok tt.

(** * Inference *)
Section infer.
Context `{FS : FileSystem} `{DS : DirSystem}.

Definition inferred_lib (package_root : path) : option path :=
  let lib := path_join (path_join package_root "src") "lib.rs" in
  if fs_exists lib then Some lib else None.

Definition is_not_dotfile (entry : DirEntry) : bool :=
  bool_decide (starts_with "." <$> path_to_str (de_file_name entry) = Some false).
Definition entry_path (directory : path) (entry : DirEntry) : path := path_join directory (de_file_name entry).
Definition infer_file (directory : path) (entry : DirEntry) : option (string * path) :=
  let p := entry_path directory entry in
  s ← file_stem p; s ← path_to_str s; Some (s, p).
Definition infer_subdirectory (directory : path) (entry : DirEntry) : option (string * path) :=
  let p := entry_path directory entry in
  let main := path_join p "main.rs" in
  match file_name p ≫= path_to_str, fs_exists main with
  | Some name, true => Some (name, main)
  | _, _ => None
  end.
Definition infer_any (directory : path) (entry : DirEntry) : option (string * path) :=
  if bool_decide (extension (entry_path directory entry) ≫= path_to_str = Some "rs") then infer_file directory entry
  else if bool_decide (de_is_dir entry = Some true) then infer_subdirectory directory entry
  else None.
Definition infer_from_directory (directory : path) : list (string * path) :=
  match read_dir directory with
  | None => []
  | Some entries => omap (infer_any directory) (List.filter is_not_dotfile (omap id entries))
  end.
Definition inferred_bins (package_root : path) (package_name : string) : list (string * path) :=
  let main := path_join (path_join package_root "src") "main.rs" in
  ((if fs_exists main then [(package_name, main)] else [])
   ++ infer_from_directory (path_join (path_join package_root "src") "bin"))%list.

Definition inferred_to_toml_targets (inferred : list (string * path)) : list TomlTarget :=
  (λ np, named_target np.1 np.2) <$> inferred.

(** * The listed targets and the inferred ones *)
Definition joined_path (package_root : path) (t : TomlTarget) : option path := path_join package_root <$> tt_path t.
(** Equality of [Option<PathBuf>] *)
Definition same_path (a b : option path) : bool :=
  match a, b with Some a, Some b => path_eqb a b | None, None => true | _, _ => false end.
(** What inference adds to the listed targets: new names at new paths. *)
Definition rem_targets (package_root : path) (targets inferred_targets : list TomlTarget) : list TomlTarget :=
  List.filter
    (λ t, negb (bool_decide (tt_name t ∈ (tt_name <$> targets)))
          && negb (existsb (λ u, same_path (joined_path package_root t) (joined_path package_root u)) targets))
    inferred_targets.
Definition autodiscover_warning (human kind flag : string) (rem : list TomlTarget) : string :=
  "An explicit [[" ++ kind ++ "]] section is specified in Cargo.toml which currently" ++ nl ++
  "disables Cargo from automatically inferring other " ++ human ++ " targets." ++ nl ++
  "This inference behavior will change in the Rust 2018 edition and the following" ++ nl ++
  "files will be included as a " ++ human ++ " target:" ++ nl ++ nl ++
  join "" ((λ p, "* " ++ p ++ nl) <$> omap tt_path rem) ++ nl ++
  "This is likely to break cargo build or cargo test as these files may not be" ++ nl ++
  "ready to be compiled as a " ++ human ++ " target today. You can future-proof yourself" ++ nl ++
  "and disable this warning by adding `" ++ flag ++ " = false` to your [package]" ++ nl ++
  "section. You may also move the files to a location where Cargo would not" ++ nl ++
  "automatically infer them to be a target, such as in subfolders." ++ nl ++ nl ++
  "For more information on this warning you can consult" ++ nl ++
  "https://github.com/rust-lang/cargo/issues/5330".
Definition toml_targets_and_inferred (toml_targets : option (list TomlTarget)) (inferred : list (string * path))
    (package_root : path) (autodiscover : option bool) (edition : Edition)
    (human kind flag : string) : reading (list TomlTarget) :=
  let inferred_targets := inferred_to_toml_targets inferred in
  match toml_targets with
  | None => rd_ret inferred_targets
  | Some targets =>
      let rem := rem_targets package_root targets inferred_targets in
      let! autodiscover :=
        match autodiscover with
        | Some autodiscover => rd_ret autodiscover
        | None =>
            match edition with
            | Edition2018 => rd_ret true
            | Edition2015 =>
                let! _ := if bool_decide (rem = []) then rd_ret tt
                          else rd_warn (autodiscover_warning human kind flag rem) in
                rd_ret false
            end
        end in
      rd_ret (if autodiscover then targets ++ rem else targets)%list
  end.

(** [target_path]; the closure may add to the warnings it has captured. *)
Definition no_path (name kind : string) : string :=
  "can't find `" ++ name ++ "` " ++ kind ++ ", specify " ++ kind ++ ".path".
Definition target_path (target : TomlTarget) (inferred : list (string * path)) (kind : string) (package_root : path)
    (edition : Edition) (legacy_path : TomlTarget → list string → cresult (option path) * list string)
    (captured : list string) : cresult (res string path) * list string :=
  match tt_path target with
  | Some p => (Ok (Ok (path_join package_root p)), captured)
  | None =>
      match toml_name target with
      | Panic m => (Panic m, captured)
      | Err e => (Err e, captured)
      | Ok name =>
          match snd <$> List.filter (λ np, String.eqb np.1 name) inferred with
          | [p] => (Ok (Ok p), captured)
          | _ =>
              let r := if edition_before_2018 edition then legacy_path target captured else (Ok None, captured) in
              (legacy ← r.1;
               Ok match legacy with Some p => Ok p | None => Err (no_path name kind) end, r.2)
          end
      end
  end.

(** [configure] *)
Definition configure (env : Env) (features : Features) (toml : TomlTarget) (target : Target) : cresult Target :=
  let t2 := target in
  let target := set_tested target (default (tested t2) (tt_test toml)) in
  let target := set_doc target (default (documented t2) (tt_doc toml)) in
  let target := set_doctest target (default (doctested t2) (tt_doctest toml)) in
  let target := set_benched target (default (benched t2) (tt_bench toml)) in
  let target := set_harness target (default (harness t2) (tt_harness toml)) in
  let target := set_for_host target
    match tt_plugin toml, toml_proc_macro toml with
    | None, None => for_host t2
    | Some true, _ | _, Some true => true
    | Some false, _ | _, Some false => false
    end in
  match tt_edition toml with
  | Some e =>
      _ ← chain_err "editions are unstable" (require env features Features.edition);
      e ← chain_err "failed to parse the `edition` key" (edition_from_str e);
      Ok (set_edition target e)
  | None => Ok target
  end.
End infer.

(** * The targets of each kind *)
Section clean.
Context `{FS : FileSystem} `{DS : DirSystem} (env : Env) (features : Features).

(** [clean_lib] *)
Definition legacy_lib_warning (legacy_path : path) (name : string) : string :=
  "path `" ++ legacy_path ++ "` was erroneously implicitly accepted for library `" ++ name ++ "`," ++ nl ++
  "please rename the file to `src/lib.rs` or set lib.path in Cargo.toml".
Definition lib_of_toml (toml_lib : option TomlTarget) (inferred : option path) (package_name : string)
    : cresult (option TomlTarget) :=
  match toml_lib with
  | Some lib =>
      _ ← match tt_name lib with
          | Some name => if contains_char "-" name
                         then Err ("library target names cannot contain hyphens: " ++ name) else Ok tt
          | None => Ok tt
          end;
      Ok (Some (set_target_name lib (option_or (tt_name lib) (Some package_name))))
  | None => Ok ((λ lib, named_target package_name lib) <$> inferred)
  end.
Definition lib_path (lib : TomlTarget) (inferred : option path) (package_root : path) (edition : Edition)
    : reading path :=
  match tt_path lib, inferred with
  | Some p, _ => rd_ret (path_join package_root p)
  | None, Some p => rd_ret p
  | None, None =>
      let! name := rd_lift (toml_name lib) in
      let legacy_path := path_join (path_join package_root "src") (name ++ ".rs") in
      if edition_before_2018 edition && fs_exists legacy_path then
        let! _ := rd_warn (legacy_lib_warning legacy_path name) in rd_ret legacy_path
      else rd_lift (Err ("can't find library `" ++ name ++ "`, rename file to `src/lib.rs` or specify lib.path"))
  end.
Definition lib_crate_types (lib : TomlTarget) : cresult (list LibKind) :=
  match toml_crate_types lib, tt_plugin lib, toml_proc_macro lib with
  | _, Some true, Some true => Err "lib.plugin and lib.proc-macro cannot both be true"
  | Some kinds, _, _ => Ok (lib_kind_from <$> kinds)
  | None, Some true, _ => Ok [LibDylib]
  | None, _, Some true => Ok [LibProcMacro]
  | None, _, _ => Ok [LibLib]
  end.
Definition clean_lib (toml_lib : option TomlTarget) (package_root : path) (package_name : string) (edition : Edition)
    : reading (option Target) :=
  let inferred := inferred_lib package_root in
  let! lib := rd_lift (lib_of_toml toml_lib inferred package_name) in
  match lib with
  | None => rd_ret None
  | Some lib =>
      let! _ := rd_lift (validate_has_name lib "library" "lib") in
      let! p := lib_path lib inferred package_root edition in
      let! crate_types := rd_lift (lib_crate_types lib) in
      let! name := rd_lift (toml_name lib) in
      let! target := rd_lift (lib_target name crate_types p edition) in
      let! target := rd_lift (configure env features lib target) in
      rd_ret (Some target)
  end.

(** [clean_bins] *)
Definition legacy_bin_path (package_root : path) (name : string) (has_lib : bool) : option path :=
  let by_name := path_join (path_join package_root "src") (name ++ ".rs") in
  let main := path_join (path_join package_root "src") "main.rs" in
  let bin_main := path_join (path_join (path_join package_root "src") "bin") "main.rs" in
  if negb has_lib && fs_exists by_name then Some by_name
  else if fs_exists main then Some main
  else if fs_exists bin_main then Some bin_main
  else None.
Definition legacy_bin_warning (legacy_path : path) (name : string) : string :=
  "path `" ++ legacy_path ++ "` was erroneously implicitly accepted for binary `" ++ name ++ "`," ++ nl ++
  "please set bin.path in Cargo.toml".
(** The first loop: what a binary must not say. *)
Definition bin_crate_types_error (name : string) (crate_types : list string) : string :=
  "the target `" ++ name ++ "` is a binary and can't have any crate-types set (currently " ++ quote_str
  ++ join ", " crate_types ++ quote_str ++ ")".
Definition check_bin (bin : TomlTarget) : reading unit :=
  let! _ := rd_lift (validate_has_name bin "binary" "bin") in
  let! name := rd_lift (toml_name bin) in
  let! _ := match toml_crate_types bin with
            | Some crate_types =>
                if bool_decide (crate_types = []) then rd_ret tt
                else rd_error (bin_crate_types_error name crate_types)
            | None => rd_ret tt
            end in
  let! _ := if bool_decide (toml_proc_macro bin = Some true)
            then rd_error ("the target `" ++ name ++ "` is a binary and can't have `proc-macro` set `true`")
            else rd_ret tt in
  if is_bad_artifact_name name then rd_lift (Err ("the binary target name `" ++ name ++ "` is forbidden"))
  else rd_ret tt.
Definition bin_legacy (package_root : path) (has_lib : bool) (bin : TomlTarget) (warnings : list string)
    : cresult (option path) * list string :=
  match toml_name bin with
  | Ok name =>
      match legacy_bin_path package_root name has_lib with
      | Some legacy_path => (Ok (Some legacy_path), (warnings ++ [legacy_bin_warning legacy_path name])%list)
      | None => (Ok None, warnings)
      end
  | Err e => (Err e, warnings)
  | Panic m => (Panic m, warnings)
  end.
Definition clean_bin (inferred : list (string * path)) (package_root : path) (edition : Edition) (has_lib : bool)
    (bin : TomlTarget) : reading Target :=
  let! p := rd_warnings (target_path bin inferred "bin" package_root edition (bin_legacy package_root has_lib)) in
  let! p := rd_lift p in
  let! name := rd_lift (toml_name bin) in
  let! target := rd_lift (bin_target name p (tt_required_features bin) edition) in
  rd_lift (configure env features bin target).
Definition clean_bins (toml_bins : option (list TomlTarget)) (package_root : path) (package_name : string)
    (edition : Edition) (autodiscover : option bool) (has_lib : bool) : reading (list Target) :=
  let inferred := inferred_bins package_root package_name in
  let! bins := toml_targets_and_inferred toml_bins inferred package_root autodiscover edition "binary" "bin" "autobins" in
  let! _ := rd_map check_bin bins in
  let! _ := rd_lift (validate_unique_names bins "binary") in
  rd_map (clean_bin inferred package_root edition has_lib) bins.

(** [clean_targets_with_legacy_path]: a target without a path is reported, and left out.
    The closure adds to a vector of warnings it has captured. *)
Definition locate (inferred : list (string * path)) (kind : string) (package_root : path) (edition : Edition)
    (legacy_path : TomlTarget → list string → cresult (option path) * list string)
    (st : list string * list (path * TomlTarget)) (target : TomlTarget)
    : reading (list string * list (path * TomlTarget)) :=
  let r := target_path target inferred kind package_root edition legacy_path st.1 in
  let! p := rd_lift r.1 in
  match p with
  | Ok p => rd_ret (r.2, (st.2 ++ [(p, target)])%list)
  | Err e => let! _ := rd_error e in rd_ret (r.2, st.2)
  | Panic m => rd_lift (Panic m)
  end.
Fixpoint rd_fold {A B} (f : B → A → reading B) (b : B) (l : list A) : reading B :=
  match l with
  | [] => rd_ret b
  | x :: l => let! b := f b x in rd_fold f b l
  end.
Definition clean_targets_with_legacy_path (human kind : string) (toml_targets : option (list TomlTarget))
    (inferred : list (string * path)) (package_root : path) (edition : Edition) (autodiscover : option bool)
    (legacy_path : TomlTarget → list string → cresult (option path) * list string) (flag : string)
    : reading (list string * list (path * TomlTarget)) :=
  let! targets := toml_targets_and_inferred toml_targets inferred package_root autodiscover edition human kind flag in
  let! _ := rd_map (λ t, rd_lift (validate_has_name t human kind)) targets in
  let! _ := rd_lift (validate_unique_names targets kind) in
  rd_fold (locate inferred kind package_root edition legacy_path) ([], []) targets.
Definition clean_targets (human kind : string) (toml_targets : option (list TomlTarget))
    (inferred : list (string * path)) (package_root : path) (edition : Edition) (autodiscover : option bool)
    (flag : string) : reading (list (path * TomlTarget)) :=
  let! r := clean_targets_with_legacy_path human kind toml_targets inferred package_root edition autodiscover
              (λ _ w, (Ok None, w)) flag in
  rd_ret r.2.

(** [clean_examples], [clean_tests], [clean_benches] *)
Definition example_of (edition : Edition) (pt : path * TomlTarget) : reading Target :=
  let '(p, toml) := pt in
  let crate_types := match toml_crate_types toml with Some kinds => lib_kind_from <$> kinds | None => [] end in
  let! name := rd_lift (toml_name toml) in
  let! target := rd_lift (example_target name crate_types p (tt_required_features toml) edition) in
  rd_lift (configure env features toml target).
Definition clean_examples (toml_examples : option (list TomlTarget)) (package_root : path) (edition : Edition)
    (autodiscover : option bool) : reading (list Target) :=
  let inferred := infer_from_directory (path_join package_root "examples") in
  let! targets := clean_targets "example" "example" toml_examples inferred package_root edition autodiscover
                    "autoexamples" in
  rd_map (example_of edition) targets.
Definition test_of (edition : Edition) (pt : path * TomlTarget) : reading Target :=
  let '(p, toml) := pt in
  let! name := rd_lift (toml_name toml) in
  let! target := rd_lift (test_target name p (tt_required_features toml) edition) in
  rd_lift (configure env features toml target).
Definition clean_tests (toml_tests : option (list TomlTarget)) (package_root : path) (edition : Edition)
    (autodiscover : option bool) : reading (list Target) :=
  let inferred := infer_from_directory (path_join package_root "tests") in
  let! targets := clean_targets "test" "test" toml_tests inferred package_root edition autodiscover "autotests" in
  rd_map (test_of edition) targets.

Definition legacy_bench_warning (legacy_path : path) (name : string) : string :=
  "path `" ++ legacy_path ++ "` was erroneously implicitly accepted for benchmark `" ++ name ++ "`," ++ nl ++
  "please set bench.path in Cargo.toml".
Definition bench_legacy (package_root : path) (bench : TomlTarget) (legacy_warnings : list string)
    : cresult (option path) * list string :=
  let legacy_path := path_join (path_join package_root "src") "bench.rs" in
  match toml_name bench with
  | Ok name =>
      if String.eqb name "bench" && fs_exists legacy_path
      then (Ok (Some legacy_path), (legacy_warnings ++ [legacy_bench_warning legacy_path name])%list)
      else (Ok None, legacy_warnings)
  | Err e => (Err e, legacy_warnings)
  | Panic m => (Panic m, legacy_warnings)
  end.
Definition bench_of (edition : Edition) (pt : path * TomlTarget) : reading Target :=
  let '(p, toml) := pt in
  let! name := rd_lift (toml_name toml) in
  let! target := rd_lift (bench_target name p (tt_required_features toml) edition) in
  rd_lift (configure env features toml target).
Definition clean_benches (toml_benches : option (list TomlTarget)) (package_root : path) (edition : Edition)
    (autodiscover : option bool) : reading (list Target) :=
  let inferred := infer_from_directory (path_join package_root "benches") in
  let! r := clean_targets_with_legacy_path "benchmark" "bench" toml_benches inferred package_root edition autodiscover
              (bench_legacy package_root) "autobenches" in
  let! _ := rd_warnings (λ w, (Ok tt, (w ++ r.1)%list)) in
  rd_map (bench_of edition) r.2.
End clean.

(** * All targets *)
Section targets.
Context `{SV : SemverLib} `{UL : UrlLib} `{FS : FileSystem} `{DS : DirSystem} (env : Env) (features : Features).

(** [TomlManifest::maybe_custom_build] *)
Definition maybe_custom_build (build : option StringOrBool) (package_root : path) : option path :=
  let build_rs := path_join package_root "build.rs" in
  match build with
  | Some (SBool false) => None
  | Some (SBool true) => Some build_rs
  | Some (SString s) => Some s
  | None => if is_file build_rs then Some build_rs else None
  end.

Definition custom_build_of (custom_build : option path) (metabuild : option StringOrVec) (package_root : path)
    (edition : Edition) : cresult (list Target) :=
  match custom_build with
  | Some custom_build =>
      if bool_decide (is_Some metabuild) then Err "cannot specify both `metabuild` and `build`"
      else
        let name := "build-script-" ++ default "" (file_stem custom_build ≫= path_to_str) in
        t ← custom_build_target name (path_join package_root custom_build) edition;
        Ok [t]
  | None => Ok []
  end.
Definition metabuild_of (metabuild : option StringOrVec) (build_dependencies : option (gmap string TomlDependency))
    (package_name : string) : cresult (list Target) :=
  match metabuild with
  | Some names =>
      _ ← foldM (λ _ name,
            if bool_decide (is_Some (build_dependencies ≫= λ bd, bd !! name)) then Ok tt
            else Err ("metabuild package `" ++ name ++ "` must be specified in `build-dependencies`")) tt names;
      Ok [metabuild_target ("metabuild-" ++ package_name)]
  | None => Ok []
  end.

(** [targets] *)
Definition targets (manifest : TomlManifest) (package_name : string) (package_root : path) (edition : Edition)
    (custom_build : option StringOrBool) (metabuild : option StringOrVec) : reading (list Target) :=
  let! lib := clean_lib env features (tm_lib manifest) package_root package_name edition in
  let has_lib := bool_decide (is_Some lib) in
  let! package := rd_lift (match option_or (tm_package manifest) (tm_project manifest) with
                           | Some p => Ok p
                           | None => Err "manifest has no `package` (or `project`)"
                           end) in
  let! bins := clean_bins env features (tm_bin manifest) package_root package_name edition (pj_autobins package) has_lib in
  let! examples := clean_examples env features (tm_example manifest) package_root edition (pj_autoexamples package) in
  let! tests := clean_tests env features (tm_test manifest) package_root edition (pj_autotests package) in
  let! benches := clean_benches env features (tm_bench manifest) package_root edition (pj_autobenches package) in
  let! build := rd_lift (custom_build_of (maybe_custom_build custom_build package_root) metabuild package_root edition) in
  let! meta := rd_lift (metabuild_of metabuild (tm_build_dependencies manifest) (pj_name package)) in
  rd_ret (option_list lib ++ bins ++ examples ++ tests ++ benches ++ build ++ meta)%list.
End targets.

(** * Facts *)

(** What a reading can yield: it never panics, and a value it returns satisfies [P]. *)
Definition post {A} (r : cresult A) (P : A → Prop) : Prop :=
  match r with Ok a => P a | Err _ => True | Panic _ => False end.
Definition yields {A} (m : reading A) (P : A → Prop) : Prop := ∀ n, post (m n) (λ r, P r.1).

Section yields.
Context {A B : Type}.
Implicit Types (P : A → Prop) (Q : B → Prop).

Lemma post_weaken (r : cresult A) P P' : (∀ a, P a → P' a) → post r P → post r P'.
Proof. destruct r; cbn; auto. Qed.
Lemma post_bind (r : cresult A) (f : A → cresult B) P Q :
  post r P → (∀ a, P a → post (f a) Q) → post (r ≫= f) Q.
Proof. destruct r; cbn; auto. Qed.
Lemma yields_ret a P : P a → yields (rd_ret a) P.
Proof. by intros ? n. Qed.
Lemma yields_lift r P : post r P → yields (rd_lift r) P.
Proof. intros H n. unfold rd_lift. by destruct r. Qed.
Lemma yields_weaken (m : reading A) P P' : (∀ a, P a → P' a) → yields m P → yields m P'.
Proof. intros HP H n. specialize (H n). destruct (m n); cbn in *; auto. Qed.
Lemma yields_bind (m : reading A) (f : A → reading B) P Q :
  yields m P → (∀ a, P a → yields (f a) Q) → yields (rd_bind m f) Q.
Proof. intros Hm Hf n. unfold rd_bind. specialize (Hm n). destruct (m n) as [[a n']| |]; cbn in *; [by apply Hf|done..]. Qed.
End yields.
Lemma yields_map {A B} (f : A → reading B) (R : A → B → Prop) l :
  (∀ x, x ∈ l → yields (f x) (R x)) → yields (rd_map f l) (Forall2 R l).
Proof.
  induction l as [|x l IH]; intros Hf; cbn [rd_map]; [apply yields_ret; constructor|].
  eapply yields_bind; [apply Hf; constructor|]. intros y Hy.
  eapply yields_bind; [apply IH; intros z Hz; apply Hf; by constructor|]. intros ys Hys.
  apply yields_ret. by constructor.
Qed.
Lemma yields_fold {A B} (f : B → A → reading B) (R : list A → B → Prop) l : ∀ pre b,
  R pre b → (∀ pre x b, x ∈ l → R pre b → yields (f b x) (R (pre ++ [x])%list)) →
  yields (rd_fold f b l) (R (pre ++ l)%list).
Proof.
  induction l as [|x l IH]; intros pre b Hb Hf; cbn [rd_fold]; [apply yields_ret; by rewrite app_nil_r|].
  eapply yields_bind; [apply Hf; [constructor|done]|]. intros b' Hb'.
  replace (pre ++ x :: l)%list with ((pre ++ [x]) ++ l)%list by (by rewrite <-app_assoc).
  apply IH; [done|]. intros pre' y c Hy. apply Hf. by constructor.
Qed.
Lemma yields_warn w : yields (rd_warn w) (λ _, True).
Proof. by intros n. Qed.
Lemma yields_error w : yields (rd_error w) (λ _, True).
Proof. by intros n. Qed.
Lemma yields_warnings {A} (f : list string → cresult A * list string) P :
  (∀ w, post (f w).1 P) → yields (rd_warnings f) P.
Proof. intros H n. unfold rd_warnings. specialize (H (nt_warnings n)). by destruct (f _) as [[| |] w]. Qed.

(** ** Checks *)
Definition named (t : TomlTarget) : Prop := ∃ name, tt_name t = Some name ∧ is_empty (trim name) = false.
Lemma validate_has_name_spec t human kind : post (validate_has_name t human kind) (λ _, named t).
Proof.
  unfold validate_has_name, named. destruct (tt_name t) as [name|]; [|done].
  destruct (is_empty (trim name)) eqn:E; [done|]. by exists name.
Qed.
Lemma toml_name_spec t : named t → post (toml_name t) (λ name, tt_name t = Some name ∧ is_empty (trim name) = false).
Proof. intros (name & Ht & He). unfold toml_name. by rewrite Ht. Qed.

Lemma validate_unique_names_spec targets kind : Forall named targets →
  post (validate_unique_names targets kind) (λ _, NoDup (tt_name <$> targets)).
Proof.
  intros Hn. unfold validate_unique_names.
  assert (H : ∀ (seen : gset string), post (foldM (see_name kind) seen targets)
    (λ _, NoDup (tt_name <$> targets) ∧ ∀ name, name ∈ seen → Some name ∉ (tt_name <$> targets))).
  { induction Hn as [|t l (name & Ht & _) Hl IH]; intros seen; cbn [foldM]; [split; [constructor|set_solver]|].
    unfold see_name at 1. unfold toml_name. rewrite Ht. cbn [mbind res_mbind res_bind].
    destruct (decide (name ∈ seen)) as [|Hns]; [done|].
    specialize (IH ({[name]} ∪ seen)). destruct (foldM _ _ l); [|done..]. cbn in *.
    destruct IH as [Hnd Hout]. rewrite Ht. split.
    - constructor; [apply Hout; set_solver|done].
    - intros x Hx [[= ->]|Hin]%elem_of_cons; [done|]. by apply (Hout x); [set_solver|]. }
  eapply post_bind; [apply (H ∅)|]. by intros ? [??].
Qed.

(** ** Paths *)
Lemma join_absolute a b : is_absolute a = true → is_absolute (path_join a b) = true.
Proof.
  unfold is_absolute, path_join. intros Ha. destruct (is_absolute b) eqn:Hb; [done|].
  apply starts_with_spec in Ha as (r & ->).
  destruct (is_empty _ || _); rewrite app_assoc_str; apply starts_with_app.
Qed.

Definition absolute_paths (inferred : list (string * path)) : Prop := Forall (λ np, is_absolute np.2 = true) inferred.

Section facts.
Context `{FS : FileSystem} `{DS : DirSystem} (env : Env) (features : Features).
Context (root : path) (Hroot : is_absolute root = true).

Lemma infer_from_directory_absolute d : is_absolute d = true → absolute_paths (infer_from_directory d).
Proof.
  intros Hd. unfold infer_from_directory. destruct (read_dir d) as [es|]; [|constructor].
  apply Forall_forall. intros [name p] (e & _ & He)%list_elem_of_omap. unfold infer_any in He.
  repeat case_bool_decide; [| |done].
  - unfold infer_file in He. destruct (file_stem _) as [s|]; [|done]. cbn in He.
    destruct (path_to_str s); [|done]. simplify_eq/=. by apply join_absolute.
  - unfold infer_subdirectory in He. destruct (file_name _ ≫= _); [|done].
    destruct (fs_exists _); [|done]. simplify_eq/=. by do 2 apply join_absolute.
Qed.
Lemma inferred_bins_absolute name : absolute_paths (inferred_bins root name).
Proof.
  apply Forall_app. split; [|by apply infer_from_directory_absolute; do 2 apply join_absolute].
  destruct (fs_exists _); repeat constructor. by do 2 apply join_absolute.
Qed.

(** What a closure of [target_path] may answer. *)
Definition legacy_ok (legacy : TomlTarget → list string → cresult (option path) * list string) : Prop :=
  ∀ t w, named t → post (legacy t w).1 (λ o, ∀ p, o = Some p → is_absolute p = true).
Lemma bin_legacy_ok has_lib : legacy_ok (bin_legacy root has_lib).
Proof.
  intros t w (name & Ht & _). unfold bin_legacy, toml_name. rewrite Ht.
  destruct (legacy_bin_path root name has_lib) as [p|] eqn:Hp; [|done]. intros ? [= <-].
  unfold legacy_bin_path in Hp. repeat case_match; simplify_eq; by repeat apply join_absolute.
Qed.
Lemma bench_legacy_ok : legacy_ok (bench_legacy root).
Proof.
  intros t w (name & Ht & _). unfold bench_legacy, toml_name. rewrite Ht.
  destruct (_ && _); [|done]. intros ? [= <-].
  by repeat apply join_absolute.
Qed.
Lemma no_legacy_ok : legacy_ok (λ _ w, (Ok None, w)).
Proof. by intros t w _. Qed.

Lemma target_path_absolute t inferred kind edition legacy w :
  named t → absolute_paths inferred → legacy_ok legacy →
  post (target_path t inferred kind root edition legacy w).1
    (λ r, match r with Ok p => is_absolute p = true | Err _ => True | Panic _ => False end).
Proof.
  intros Hn Hinf Hleg. unfold target_path. destruct (tt_path t) as [p|]; [by apply join_absolute|].
  pose proof Hn as (name & Ht & _). unfold toml_name. rewrite Ht.
  destruct (snd <$> List.filter _ inferred) as [|p [|q l]] eqn:Hf; [|cbn|].
  2:{ assert (Hin : p ∈ (snd <$> List.filter (λ np, String.eqb np.1 name) inferred)) by (rewrite Hf; constructor).
      apply list_elem_of_fmap in Hin as (np & -> & Hin). apply list_elem_of_In, List.filter_In in Hin as [Hin _].
      unfold absolute_paths in Hinf. rewrite Forall_forall in Hinf. apply (Hinf np). by apply list_elem_of_In. }
  all: cbn; destruct (edition_before_2018 edition); [|done]; specialize (Hleg t w Hn);
    destruct (legacy t w) as [[o| |] w']; cbn in *; [|done..]; destruct o as [p'|]; [by apply Hleg|done].
Qed.

(** What becomes of a configured target. *)
Lemma configure_spec toml t : post (configure env features toml t)
  (λ t', tgt_kind t' = tgt_kind t ∧ tgt_name t' = tgt_name t ∧ src_path t' = src_path t).
Proof.
  unfold configure. destruct (tt_edition toml) as [e|]; [|done].
  unfold require. destruct (is_enabled features _); [|done]. cbn [chain_err map_err mbind res_mbind res_bind].
  unfold edition_from_str. by repeat case_match.
Qed.

Lemma src_path_from_absolute p : is_absolute p = true → src_path_from p = Ok (SrcPath p).
Proof. unfold src_path_from, is_absolute. by intros ->. Qed.

(** A target as its kind wants it: named, at an absolute path. *)
Definition fine (k : Target → bool) (t : Target) : Prop :=
  k t = true ∧ is_empty (trim (tgt_name t)) = false ∧ ∃ p, src_path t = SrcPath p ∧ is_absolute p = true.
Definition by_kind (k : Target → bool) : Prop :=
  ∀ t t', tgt_kind t' = tgt_kind t → k t' = k t.
Lemma configured k (toml : TomlTarget) (name : string) t p :
  by_kind k → k t = true → tgt_name t = name → is_empty (trim name) = false → src_path t = SrcPath p → is_absolute p = true →
  post (configure env features toml t) (λ t', fine k t' ∧ tgt_name t' = name).
Proof.
  intros Hk Ht Hname He Hp Habs. eapply post_weaken; [|apply configure_spec].
  intros t' (H1 & H2 & H3). unfold fine. rewrite (Hk t t' H1), H2, H3, Hname. by eauto 10.
Qed.

(** A target made by one of the constructors and then configured. *)
Lemma made k (toml : TomlTarget) (make : string → cresult Target) p {B} (g : Target → reading B) Q :
  by_kind k → named toml → is_absolute p = true →
  (∀ name, ∃ t, make name = Ok t ∧ k t = true ∧ tgt_name t = name ∧ src_path t = SrcPath p) →
  (∀ t, post (configure env features toml t) (λ t', fine k t' ∧ tt_name toml = Some (tgt_name t')) → yields (g t) Q) →
  yields (let! name := rd_lift (toml_name toml) in let! target := rd_lift (make name) in g target) Q.
Proof.
  intros Hk Hn Hp Hmake Hg. eapply yields_bind; [by apply yields_lift, toml_name_spec|]. intros name [Ht He].
  destruct (Hmake name) as (t & Hm & H1 & H2 & H3). rewrite Hm.
  eapply (yields_bind _ _ (λ x, x = t)); [by apply yields_lift|]. intros ? ->. apply Hg.
  eapply post_weaken; [|by apply (configured k toml name t p)]. cbn. intros a [Ha <-]. by rewrite Ht.
Qed.

(** ** Which targets *)
Definition discovers (autodiscover : option bool) (edition : Edition) : bool :=
  default (bool_decide (edition = Edition2018)) autodiscover.
(** The targets of a kind: the listed ones, then those inference adds when it is on. *)
Definition chosen (toml_targets : option (list TomlTarget)) (inferred : list (string * path))
    (autodiscover : option bool) (edition : Edition) : list TomlTarget :=
  let inferred := inferred_to_toml_targets inferred in
  match toml_targets with
  | None => inferred
  | Some l => (l ++ if discovers autodiscover edition then rem_targets root l inferred else [])%list
  end.
(** A package of the first edition that lists targets and says nothing of
    inference is told which files are left out. *)
Definition left_out (toml_targets : option (list TomlTarget)) (inferred : list (string * path))
    (autodiscover : option bool) (edition : Edition) : list TomlTarget :=
  match toml_targets, autodiscover, edition with
  | Some l, None, Edition2015 => rem_targets root l (inferred_to_toml_targets inferred)
  | _, _, _ => []
  end.
Lemma toml_targets_and_inferred_eq toml_targets inferred autodiscover edition human kind flag n :
  toml_targets_and_inferred toml_targets inferred root autodiscover edition human kind flag n
  = Ok (chosen toml_targets inferred autodiscover edition,
        mkNotes (nt_warnings n ++ match left_out toml_targets inferred autodiscover edition with
                                  | [] => []
                                  | rem => [autodiscover_warning human kind flag rem]
                                  end)%list (nt_errors n) (nt_nested_paths n) (nt_printed n)).
Proof.
  unfold toml_targets_and_inferred, chosen, left_out, discovers.
  destruct n as [w e ps pr]. destruct toml_targets as [l|]; [|cbn; by rewrite app_nil_r].
  destruct autodiscover as [[]|]; [cbn; by rewrite !app_nil_r..|].
  destruct edition; [|cbn; by rewrite app_nil_r].
  case_bool_decide as Hrem; [rewrite Hrem; cbn; by rewrite !app_nil_r|].
  destruct (rem_targets _ _ _) as [|t rem]; [done|]. cbn. by rewrite !app_nil_r.
Qed.
Lemma yields_chosen toml_targets inferred autodiscover edition human kind flag :
  yields (toml_targets_and_inferred toml_targets inferred root autodiscover edition human kind flag)
    (λ ts, ts = chosen toml_targets inferred autodiscover edition).
Proof. intros n. by rewrite toml_targets_and_inferred_eq. Qed.

(** The steps the kinds share: names are there, and differ. *)
Lemma yields_named targets human kind :
  yields (rd_map (λ t, rd_lift (validate_has_name t human kind)) targets) (λ _, Forall named targets).
Proof.
  eapply yields_weaken; [|apply (yields_map _ (λ t _, named t)); intros t _; apply yields_lift, validate_has_name_spec].
  cbn. intros us H. induction H; by constructor.
Qed.

(** ** The library *)
Lemma lib_path_yields lib edition : named lib →
  yields (lib_path lib (inferred_lib root) root edition) (λ p, is_absolute p = true).
Proof.
  intros Hn. unfold lib_path. destruct (tt_path lib) as [p|]; [by apply yields_ret, join_absolute|].
  unfold inferred_lib. destruct (fs_exists _); [by apply yields_ret; do 2 apply join_absolute|].
  eapply yields_bind; [by apply yields_lift, toml_name_spec|]. intros nm _.
  destruct (_ && _); [|by apply yields_lift].
  eapply yields_bind; [apply yields_warn|]. intros ? ?. by apply yields_ret; do 2 apply join_absolute.
Qed.
Lemma clean_lib_yields toml_lib name edition :
  yields (clean_lib env features toml_lib root name edition) (λ o, ∀ t, o = Some t → fine is_lib t).
Proof.
  unfold clean_lib. eapply (yields_bind _ _ (λ _, True)).
  { apply yields_lift. unfold lib_of_toml. destruct toml_lib as [lib|]; [|done].
    destruct (tt_name lib); [destruct (contains_char _ _)|]; done. }
  intros [lib|] _; [|by apply yields_ret].
  eapply yields_bind; [apply yields_lift, validate_has_name_spec|]. intros ? Hn.
  eapply yields_bind; [by apply lib_path_yields|]. intros p Hp.
  eapply (yields_bind _ _ (λ _, True)).
  { apply yields_lift. unfold lib_crate_types. by repeat case_match. }
  intros kinds _. apply (made is_lib lib (λ name, lib_target name kinds p edition) p); [|done..| |].
  - intros t t' H. unfold is_lib. by rewrite H.
  - intros n. unfold lib_target, with_path. rewrite src_path_from_absolute by done. by eexists.
  - intros t Ht. eapply yields_bind; [apply yields_lift, Ht|]. intros t' [Hf _]. apply yields_ret.
    by intros ? [= <-].
Qed.

(** ** The binaries *)
Definition good_bin (t : TomlTarget) : Prop :=
  named t ∧ ∀ name, tt_name t = Some name → is_bad_artifact_name name = false.
Lemma check_bin_yields bin : yields (check_bin bin) (λ _, good_bin bin).
Proof.
  unfold check_bin. eapply yields_bind; [apply yields_lift, validate_has_name_spec|]. intros ? Hn.
  eapply yields_bind; [by apply yields_lift, toml_name_spec|]. intros name [Ht _].
  eapply (yields_bind _ _ (λ _, True)).
  { destruct (toml_crate_types bin); [case_bool_decide|]; try (by apply yields_ret); apply yields_error. }
  intros ? ?. eapply (yields_bind _ _ (λ _, True)).
  { case_bool_decide; [apply yields_error|by apply yields_ret]. }
  intros ? ?. destruct (is_bad_artifact_name name) eqn:Hb; [by apply yields_lift|].
  apply yields_ret. split; [done|]. intros ? [= <-]%(eq_trans (eq_sym Ht)). done.
Qed.
Definition binary (t : Target) : Prop := fine is_bin t ∧ is_bad_artifact_name (tgt_name t) = false.
Lemma clean_bin_yields inferred edition has_lib bin : absolute_paths inferred → good_bin bin →
  yields (clean_bin env features inferred root edition has_lib bin) (λ t, binary t ∧ tt_name bin = Some (tgt_name t)).
Proof.
  intros Hinf [Hn Hb]. unfold clean_bin.
  eapply yields_bind; [apply yields_warnings; intros w; apply target_path_absolute; [done..|apply bin_legacy_ok]|].
  intros p Hp. eapply (yields_bind _ _ (λ p, is_absolute p = true)); [by apply yields_lift; destruct p|].
  clear p Hp. intros p Hp.
  apply (made is_bin bin (λ name, bin_target name p (tt_required_features bin) edition) p); [|done..| |].
  - intros t t' H. unfold is_bin. by rewrite H.
  - intros n. unfold bin_target, with_path. rewrite src_path_from_absolute by done. by eexists.
  - intros t Ht. apply yields_lift. eapply post_weaken; [|exact Ht]. intros t' [Hf Hname].
    split; [|done]. split; [done|]. by apply Hb.
Qed.
Lemma Forall2_names {A} (f : A → option string) (g : Target → string) l (ts : list Target) P :
  Forall2 (λ a t, P t ∧ f a = Some (g t)) l ts → Forall P ts ∧ Some ∘ g <$> ts = f <$> l.
Proof.
  induction 1 as [|a t l ts [HP Hf] _ [IH1 IH2]]; [by split|]. split; [by constructor|]. cbn. by rewrite Hf, <-IH2.
Qed.
Lemma clean_bins_yields toml_bins name edition autodiscover has_lib :
  yields (clean_bins env features toml_bins root name edition autodiscover has_lib)
    (λ ts, Forall binary ts ∧ NoDup (tgt_name <$> ts) ∧
           Some ∘ tgt_name <$> ts = tt_name <$> chosen toml_bins (inferred_bins root name) autodiscover edition).
Proof.
  unfold clean_bins. eapply yields_bind; [apply yields_chosen|]. intros bins ->. set (bins := chosen _ _ _ _).
  eapply (yields_bind _ _ (λ _, Forall good_bin bins)).
  { eapply yields_weaken; [|apply (yields_map check_bin (λ b _, good_bin b)); intros b _; apply check_bin_yields].
    cbn. intros us H. induction H; by constructor. }
  intros ? Hgood. eapply yields_bind.
  { apply yields_lift, validate_unique_names_spec. eapply Forall_impl; [exact Hgood|]. by intros ? []. }
  intros ? Hnd. eapply yields_weaken; [|apply (yields_map _ (λ b t, binary t ∧ tt_name b = Some (tgt_name t)))].
  - cbn. intros ts Hts%Forall2_names. destruct Hts as [H1 H2]. split; [done|]. split; [|done].
    apply (NoDup_fmap_1 Some). rewrite <-list_fmap_compose, H2. done.
  - intros b Hb. apply clean_bin_yields; [by apply inferred_bins_absolute|].
    rewrite Forall_forall in Hgood. by apply Hgood.
Qed.
(** ** Examples, tests and benchmarks *)
Definition located (targets : list TomlTarget) (l : list (path * TomlTarget)) : Prop :=
  Forall (λ pt, is_absolute pt.1 = true) l ∧ l.*2 `sublist_of` targets.
Lemma locate_yields inferred kind edition legacy targets :
  absolute_paths inferred → legacy_ok legacy → Forall named targets →
  yields (rd_fold (locate inferred kind root edition legacy) ([], []) targets) (λ st, located targets st.2).
Proof.
  intros Hinf Hleg Hn. apply (yields_fold _ (λ pre st, located pre st.2) targets []); [by split|].
  intros pre t [w l] Ht [Habs Hsub]. unfold locate. cbn [fst snd].
  rewrite Forall_forall in Hn. pose proof (target_path_absolute t inferred kind edition legacy w (Hn t Ht) Hinf Hleg) as Hp.
  eapply yields_bind; [by apply yields_lift, Hp|]. intros [p|e|m] Habs'; [|..|done].
  - apply yields_ret. split; cbn [fst snd]; [apply Forall_app; split; [done|by repeat constructor]|].
    rewrite fmap_app. by apply sublist_app.
  - eapply yields_bind; [apply yields_error|]. intros ? ?. apply yields_ret. split; [done|].
    cbn [snd]. by apply sublist_inserts_r.
Qed.
Lemma clean_targets_yields human kind toml_targets inferred edition autodiscover legacy flag :
  absolute_paths inferred → legacy_ok legacy →
  yields (clean_targets_with_legacy_path human kind toml_targets inferred root edition autodiscover legacy flag)
    (λ r, let ts := chosen toml_targets inferred autodiscover edition in
          Forall named ts ∧ NoDup (tt_name <$> ts) ∧ located ts r.2).
Proof.
  intros Hinf Hleg. unfold clean_targets_with_legacy_path.
  eapply yields_bind; [apply yields_chosen|]. intros ts ->. set (ts := chosen _ _ _ _).
  eapply yields_bind; [apply yields_named|]. intros ? Hn.
  eapply yields_bind; [by apply yields_lift, validate_unique_names_spec|]. intros ? Hnd.
  eapply yields_weaken; [|by apply locate_yields]. by intros r Hr.
Qed.
Lemma clean_targets_none_yields human kind toml_targets inferred edition autodiscover flag :
  absolute_paths inferred →
  yields (clean_targets human kind toml_targets inferred root edition autodiscover flag)
    (λ l, let ts := chosen toml_targets inferred autodiscover edition in
          Forall named ts ∧ NoDup (tt_name <$> ts) ∧ located ts l).
Proof.
  intros Hinf. unfold clean_targets. eapply yields_bind; [by apply clean_targets_yields; [|apply no_legacy_ok]|].
  intros r Hr. by apply yields_ret.
Qed.

(** The targets of a kind, made from those located. *)
Definition group (k : Target → bool) (ts : list Target) : Prop := Forall (fine k) ts ∧ NoDup (tgt_name <$> ts).
Lemma group_yields k (f : path * TomlTarget → reading Target) targets l :
  Forall named targets → NoDup (tt_name <$> targets) → located targets l →
  (∀ pt, named pt.2 → is_absolute pt.1 = true → yields (f pt) (λ t, fine k t ∧ tt_name pt.2 = Some (tgt_name t))) →
  yields (rd_map f l) (group k).
Proof.
  intros Hn Hnd [Habs Hsub] Hf.
  eapply yields_weaken; [|apply (yields_map f (λ pt t, fine k t ∧ tt_name pt.2 = Some (tgt_name t)))].
  - cbn. intros ts Hts. apply (Forall2_names (tt_name ∘ snd)) in Hts as [H1 H2]. split; [done|].
    apply (NoDup_fmap_1 Some). rewrite <-list_fmap_compose, H2, list_fmap_compose.
    eapply sublist_NoDup; [exact Hnd|]. by apply fmap_sublist.
  - intros pt Hpt. rewrite Forall_forall in Habs. apply Hf; [|by apply Habs].
    rewrite Forall_forall in Hn. apply Hn. eapply elem_of_sublist; [|exact Hsub].
    apply list_elem_of_fmap. by eexists.
Qed.

Lemma clean_examples_yields toml_examples edition autodiscover :
  yields (clean_examples env features toml_examples root edition autodiscover) (group is_example).
Proof.
  unfold clean_examples. eapply yields_bind.
  { by apply clean_targets_none_yields, infer_from_directory_absolute, join_absolute. }
  intros l (Hn & Hnd & Hl). eapply group_yields; [exact Hn|exact Hnd|exact Hl|]. intros [p toml] Ht Hp. cbn in Ht, Hp.
  apply (made is_example toml (λ name, example_target name _ p (tt_required_features toml) edition) p); [|done..| |].
  - intros t t' H. unfold is_example. by rewrite H.
  - intros n. unfold example_target, with_path. rewrite src_path_from_absolute by done. eexists.
    split; [done|]. split; [|done]. unfold is_example. cbn. by destruct (toml_crate_types toml) as [[]|].
  - intros t Ht'. by apply yields_lift.
Qed.
Lemma clean_tests_yields toml_tests edition autodiscover :
  yields (clean_tests env features toml_tests root edition autodiscover) (group is_test).
Proof.
  unfold clean_tests. eapply yields_bind.
  { by apply clean_targets_none_yields, infer_from_directory_absolute, join_absolute. }
  intros l (Hn & Hnd & Hl). eapply group_yields; [exact Hn|exact Hnd|exact Hl|]. intros [p toml] Ht Hp. cbn in Ht, Hp.
  apply (made is_test toml (λ name, test_target name p (tt_required_features toml) edition) p); [|done..| |].
  - intros t t' H. unfold is_test. by rewrite H.
  - intros n. unfold test_target, with_path. rewrite src_path_from_absolute by done. by eexists.
  - intros t Ht'. by apply yields_lift.
Qed.
Lemma clean_benches_yields toml_benches edition autodiscover :
  yields (clean_benches env features toml_benches root edition autodiscover) (group is_bench).
Proof.
  unfold clean_benches. eapply yields_bind.
  { apply clean_targets_yields; [by apply infer_from_directory_absolute, join_absolute|apply bench_legacy_ok]. }
  intros r (Hn & Hnd & Hl). eapply yields_bind; [by apply (yields_warnings _ (λ _, True))|]. intros ? ?.
  eapply group_yields; [exact Hn|exact Hnd|exact Hl|]. intros [p toml] Ht Hp. cbn in Ht, Hp.
  apply (made is_bench toml (λ name, bench_target name p (tt_required_features toml) edition) p); [|done..| |].
  - intros t t' H'. unfold is_bench. by rewrite H'.
  - intros n. unfold bench_target, with_path. rewrite src_path_from_absolute by done. by eexists.
  - intros t Ht'. by apply yields_lift.
Qed.
End facts.

(** * The targets of a package *)
Record well_formed (ts : list Target) : Prop := {
  wf_unique : ∀ k, k ∈ [is_bin; is_example; is_test; is_bench] → NoDup (tgt_name <$> List.filter k ts);
  wf_one_lib : (length (List.filter is_lib ts) <= 1)%nat;
  wf_one_script : (length (List.filter is_custom_build ts) <= 1)%nat;
  wf_named : ∀ t, t ∈ ts → is_custom_build t = false → is_empty (trim (tgt_name t)) = false;
  wf_bins : ∀ t, t ∈ ts → is_bin t = true → is_bad_artifact_name (tgt_name t) = false;
  wf_paths : ∀ t, t ∈ ts → match src_path t with
                           | SrcPath p => is_absolute p = true
                           | SrcMetabuild => is_custom_build t = true
                           end;
}.

(** The six kinds exclude each other. *)
Definition kind_no (t : Target) : nat :=
  match tgt_kind t with
  | TLib _ => 0 | TBin => 1 | TExampleLib _ | TExampleBin => 2 | TTest => 3 | TBench => 4 | TCustomBuild => 5
  end.
Definition numbered (k : Target → bool) (i : nat) : Prop := ∀ t, k t = Nat.eqb (kind_no t) i.
Lemma kind_numbers :
  numbered is_lib 0 ∧ numbered is_bin 1 ∧ numbered is_example 2 ∧ numbered is_test 3 ∧ numbered is_bench 4
  ∧ numbered is_custom_build 5.
Proof.
  split_and!; intros t; unfold is_lib, is_bin, is_example, is_test, is_bench, is_custom_build, kind_no;
    by destruct (tgt_kind t).
Qed.
Lemma filter_numbered k k' i j l : numbered k i → numbered k' j → Forall (λ t, k t = true) l →
  List.filter k' l = if Nat.eqb i j then l else [].
Proof.
  intros Hk Hk'. induction 1 as [|t l Ht _ IH]; cbn; [by destruct (Nat.eqb i j)|].
  rewrite Hk in Ht. apply Nat.eqb_eq in Ht. rewrite Hk', Ht, IH. by destruct (Nat.eqb i j).
Qed.

Section all.
Context `{SV : SemverLib} `{UL : UrlLib} `{FS : FileSystem} `{DS : DirSystem} (env : Env) (features : Features).
Context (root : path) (Hroot : is_absolute root = true).

(** A script, or the metabuild target. *)
Definition script (t : Target) : Prop :=
  is_custom_build t = true ∧
  match src_path t with SrcPath p => is_absolute p = true | SrcMetabuild => True end.
Lemma scripts_yields custom_build metabuild bdeps name edition :
  yields (let! build := rd_lift (custom_build_of custom_build metabuild root edition) in
          let! meta := rd_lift (metabuild_of metabuild bdeps name) in rd_ret (build ++ meta)%list)
    (λ l, Forall script l ∧ (length l <= 1)%nat).
Proof.
  eapply (yields_bind _ _ (λ l, Forall script l ∧ (length l <= (if bool_decide (is_Some metabuild) then 0 else 1))%nat)).
  { apply yields_lift. unfold custom_build_of. destruct custom_build as [p|]; [|by repeat constructor; case_bool_decide; cbn; lia].
    case_bool_decide; [done|]. unfold Target.custom_build_target, with_path.
    rewrite src_path_from_absolute by by apply join_absolute. cbn. split; [|lia].
    repeat constructor. cbn. by apply join_absolute. }
  intros build [Hb Hlen]. eapply (yields_bind _ _ (λ l, Forall script l ∧ (length l <= (if bool_decide (is_Some metabuild) then 1 else 0))%nat)).
  { apply yields_lift. unfold metabuild_of. destruct metabuild as [names|]; [|by repeat constructor].
    assert (H : post (foldM (λ _ n, if bool_decide (is_Some (bdeps ≫= λ bd, bd !! n)) then Ok tt
      else Err ("metabuild package `" ++ n ++ "` must be specified in `build-dependencies`")) tt names) (λ _, True)).
    { clear Hlen. induction names as [|n names IH]; cbn [foldM]; [done|].
      destruct (bool_decide _); [exact IH|done]. }
    eapply post_bind; [exact H|]. intros ? ?. cbn. split; [|lia]. by repeat constructor. }
  intros meta [Hm Hlen']. apply yields_ret. split; [by apply Forall_app|]. rewrite length_app. case_bool_decide; lia.
Qed.

(** The groups in the order [targets] puts them together. *)
Lemma groups_well_formed lib bins examples tests benches scripts :
  (∀ t, lib = Some t → fine is_lib t) → Forall binary bins → NoDup (tgt_name <$> bins) →
  group is_example examples → group is_test tests → group is_bench benches →
  Forall script scripts → (length scripts <= 1)%nat →
  well_formed (option_list lib ++ bins ++ examples ++ tests ++ benches ++ scripts).
Proof.
  intros Hlib Hbins Hndb [He Hnde] [Ht Hndt] [Hb Hndbe] Hs Hlen.
  destruct kind_numbers as (N0 & N1 & N2 & N3 & N4 & N5).
  assert (L : Forall (fine is_lib) (option_list lib)) by (destruct lib as [t|]; [apply Forall_singleton; by apply Hlib|constructor]).
  assert (Bf : Forall (fine is_bin) bins) by (eapply Forall_impl; [exact Hbins|]; by intros ? []).
  assert (W : ∀ k l, Forall (fine k) l → Forall (λ t, k t = true) l) by (intros k l H; eapply Forall_impl; [exact H|]; by intros ? []).
  assert (S' : Forall (λ t, is_custom_build t = true) scripts) by (eapply Forall_impl; [exact Hs|]; by intros ? []).
  assert (F : ∀ k j, numbered k j → List.filter k (option_list lib ++ bins ++ examples ++ tests ++ benches ++ scripts)
    = ((if Nat.eqb 0 j then option_list lib else []) ++ (if Nat.eqb 1 j then bins else []) ++
      (if Nat.eqb 2 j then examples else []) ++ (if Nat.eqb 3 j then tests else []) ++
      (if Nat.eqb 4 j then benches else []) ++ (if Nat.eqb 5 j then scripts else []))%list).
  { intros k j Hk. rewrite !List.filter_app.
    by rewrite (filter_numbered is_lib k 0 j), (filter_numbered is_bin k 1 j), (filter_numbered is_example k 2 j),
      (filter_numbered is_test k 3 j), (filter_numbered is_bench k 4 j), (filter_numbered is_custom_build k 5 j) by auto. }
  assert (A : ∀ t, t ∈ (option_list lib ++ bins ++ examples ++ tests ++ benches ++ scripts)%list →
    (∃ k, fine k t ∧ k ∈ [is_lib; is_example; is_test; is_bench]) ∨ binary t ∨ script t).
  { intros t. rewrite !elem_of_app. rewrite !Forall_forall in *.
    intros [?|[?|[?|[?|[?|?]]]]]; [left; exists is_lib|auto|left; exists is_example|left; exists is_test|left; exists is_bench|auto];
      (split; [auto|set_solver]). }
  split.
  - intros k. rewrite !elem_of_cons, elem_of_nil.
    intros [->|[->|[->|[->|[]]]]]; [rewrite (F _ _ N1)|rewrite (F _ _ N2)|rewrite (F _ _ N3)|rewrite (F _ _ N4)];
      cbn; by rewrite ?app_nil_r.
  - rewrite (F _ _ N0). cbn. rewrite !app_nil_r. destruct lib; cbn; lia.
  - rewrite (F _ _ N5). done.
  - intros t [(k & (_ & Hn & _) & _)|[((_ & Hn & _) & _)|[Hc _]]]%A Hcb; congruence.
  - intros t [(k & (Hk & _) & Hin)|[[_ Hbad]|[Hc _]]]%A Hbin; [|done|].
    + exfalso. revert Hin. rewrite !elem_of_cons, elem_of_nil. rewrite N1 in Hbin. apply Nat.eqb_eq in Hbin.
      intros [->|[->|[->|[->|[]]]]]; [rewrite N0 in Hk|rewrite N2 in Hk|rewrite N3 in Hk|rewrite N4 in Hk]; by rewrite Hbin in Hk.
    + exfalso. rewrite N1 in Hbin. rewrite N5 in Hc. apply Nat.eqb_eq in Hbin. by rewrite Hbin in Hc.
  - intros t [(k & (_ & _ & p & -> & Hp) & _)|[((_ & _ & p & -> & Hp) & _)|[Hc Hp]]]%A; [done..|].
    by destruct (src_path t).
Qed.
End all.

Lemma targets_yields `{SV : SemverLib} `{UL : UrlLib} `{FS : FileSystem} `{DS : DirSystem} (env : Env)
    (features : Features) (manifest : TomlManifest) (package_name : string) (package_root : path) (edition : Edition)
    (custom_build : option StringOrBool) (metabuild : option StringOrVec) :
  is_absolute package_root = true →
  yields (targets env features manifest package_name package_root edition custom_build metabuild) well_formed.
Proof.
  intros Hroot.
  unfold targets. eapply yields_bind; [by apply clean_lib_yields|]. intros lib Hlib.
  eapply (yields_bind _ _ (λ _, True)); [apply yields_lift; by destruct (option_or _ _)|]. intros package _.
  eapply yields_bind; [by apply clean_bins_yields|]. intros bins (Hbins & Hnd & _).
  eapply yields_bind; [by apply clean_examples_yields|]. intros examples He.
  eapply yields_bind; [by apply clean_tests_yields|]. intros tests Ht.
  eapply yields_bind; [by apply clean_benches_yields|]. intros benches Hb.
  intros n'. pose proof (scripts_yields package_root Hroot (maybe_custom_build custom_build package_root) metabuild
    (tm_build_dependencies manifest) (pj_name package) edition n') as Hs.
  unfold rd_bind, rd_lift, rd_ret in *.
  destruct (custom_build_of _ _ _ _) as [build| |]; cbn in *; [|done..].
  destruct (metabuild_of _ _ _) as [meta| |]; cbn in *; [|done..].
  destruct Hs as [Hs Hlen]. by apply (groups_well_formed package_root).
Qed.

(** C35. Reading the targets of a package whose directory is given by an
    absolute path never panics, and the targets it returns are well formed:
    one library and one build script at most; no two binaries, examples, tests
    or benchmarks of the same name; no blank name; no binary whose name would
    clash with a directory of the build; absolute source paths. *)
Theorem targets_well_formed `{SV : SemverLib} `{UL : UrlLib} `{FS : FileSystem} `{DS : DirSystem} (env : Env)
    (features : Features) (manifest : TomlManifest) (package_name : string) (package_root : path) (edition : Edition)
    (custom_build : option StringOrBool) (metabuild : option StringOrVec) (n : notes)
    (Hroot : is_absolute package_root = true) :
  match targets env features manifest package_name package_root edition custom_build metabuild n with
  | Ok (ts, _) => well_formed ts
  | Err _ => True
  | Panic _ => False
  end.
Proof.
  pose proof (targets_yields env features manifest package_name package_root edition custom_build metabuild Hroot n) as H.
  destruct (targets _ _ _ _ _ _ _ _ _) as [[ts n']| |]; done.
Qed.

Lemma elem_of_rem_targets root l inf t :
  t ∈ rem_targets root l (inferred_to_toml_targets inf) ↔
  ∃ name p, t = named_target name p ∧ (name, p) ∈ inf ∧
    ∀ u, u ∈ l → tt_name u ≠ Some name ∧
      ∀ q, tt_path u = Some q → path_eqb (path_join root p) (path_join root q) = false.
Proof.
  unfold rem_targets, inferred_to_toml_targets.
  rewrite list_elem_of_In, List.filter_In, <-list_elem_of_In, list_elem_of_fmap, andb_true_iff, !negb_true_iff.
  split.
  - intros (([name p] & -> & Hin) & Hn%bool_decide_eq_false & Hp). exists name, p. split; [done|]. split; [done|].
    intros u Hu. split.
    + intros Hname. apply Hn. apply list_elem_of_fmap. by exists u.
    + intros q Hq. destruct (path_eqb _ _) eqn:E; [|done]. rewrite <-Hp. symmetry. apply existsb_exists.
      exists u. split; [by apply list_elem_of_In|]. unfold joined_path. by rewrite Hq.
  - intros (name & p & -> & Hin & Hall). split; [by exists (name, p)|]. split.
    + apply bool_decide_eq_false. intros (u & Hu & Hl)%list_elem_of_fmap. by destruct (Hall u Hl) as [[] _].
    + apply not_true_is_false. intros (u & Hu & Hsame)%existsb_exists. apply list_elem_of_In in Hu.
      unfold joined_path in Hsame. cbn in Hsame. destruct (tt_path u) as [q|] eqn:Hq; [|done]. cbn in Hsame.
      destruct (Hall u Hu) as [_ Hp]. by rewrite (Hp q Hq) in Hsame.
Qed.

(** The binaries of a package are the listed ones and the inferred ones
    that are new: a file of the layout is left out only when the package lists
    binaries and either names that binary, or gives that path, or has inference
    switched off (as it is by default before the edition of 2018).  Their
    names differ. *)
Theorem bins_spec `{FS : FileSystem} `{DS : DirSystem} (env : Env) (features : Features)
    (toml_bins : option (list TomlTarget)) (package_root : path) (package_name : string) (edition : Edition)
    (autodiscover : option bool) (has_lib : bool) (n : notes) (Hroot : is_absolute package_root = true) :
  match clean_bins env features toml_bins package_root package_name edition autodiscover has_lib n with
  | Ok (ts, _) =>
      NoDup (tgt_name <$> ts) ∧
      ∀ name, name ∈ (tgt_name <$> ts) ↔
        (∃ t, t ∈ default [] toml_bins ∧ tt_name t = Some name) ∨
        (∃ p, (name, p) ∈ inferred_bins package_root package_name ∧
              ∀ l, toml_bins = Some l → discovers autodiscover edition = true ∧
                ∀ t, t ∈ l → tt_name t ≠ Some name ∧
                  ∀ q, tt_path t = Some q → path_eqb (path_join package_root p) (path_join package_root q) = false)
  | Err _ => True
  | Panic _ => False
  end.
Proof.
  pose proof (clean_bins_yields env features package_root Hroot toml_bins package_name edition autodiscover has_lib n) as H.
  destruct (clean_bins _ _ _ _ _ _ _ _ _) as [[ts n']| |]; [|done..]. cbn in H. destruct H as (_ & Hnd & Hnames).
  split; [done|]. intros name.
  assert (Hin : name ∈ (tgt_name <$> ts) ↔ Some name ∈ (Some ∘ tgt_name <$> ts)).
  { rewrite !list_elem_of_fmap. split; intros (t & Ht & ?); exists t; [by rewrite Ht|]. by injection Ht as ->. }
  rewrite Hin, Hnames. clear Hin Hnames. unfold chosen, inferred_to_toml_targets.
  set (inf := inferred_bins package_root package_name). destruct toml_bins as [l|]; cbn [default].
  2:{ rewrite <-list_fmap_compose, list_elem_of_fmap. split.
      - intros ([m p] & [= ->] & Hp). right. exists p. by split.
      - intros [(t & Ht%elem_of_nil & _)|(p & Hp & _)]; [done|]. by exists (name, p). }
  rewrite fmap_app, elem_of_app, list_elem_of_fmap. split.
  - intros [(t & Ht & Hl)|Hr]; [left; by exists t|right].
    destruct (discovers autodiscover edition); [|by apply elem_of_nil in Hr].
    apply list_elem_of_fmap in Hr as (t & Ht & (m & p & -> & Hp & Hall)%elem_of_rem_targets). injection Ht as ->.
    exists p. split; [done|]. by intros ? [= <-].
  - intros [(t & Hl & Ht)|(p & Hp & Hall)]; [left; by exists t|right].
    destruct (Hall l eq_refl) as [-> Hnew]. apply list_elem_of_fmap. exists (named_target name p). split; [done|].
    apply elem_of_rem_targets. by exists name, p.
Qed.

(** * A concrete run: a package with a library, two binaries and a test *)
Definition package_files : FileSystem := listed_files
  [("/w/p/src/lib.rs", ""); ("/w/p/src/main.rs", ""); ("/w/p/src/bin/x.rs", ""); ("/w/p/src/bin/y.rs", ""); ("/w/p/tests/t/main.rs", "")].
Definition package_dirs : DirSystem := {|
  is_file _ := false;
  read_dir d := if String.eqb d "/w/p/src/bin"
                then Some [Some (mkDirEntry "x.rs" (Some false)); None; Some (mkDirEntry "y.rs" (Some false));
                           Some (mkDirEntry ".z.rs" (Some false))]
                else if String.eqb d "/w/p/tests" then Some [Some (mkDirEntry "t" (Some true))]
                else None;
|}.
Definition listed_bin : TomlTarget := named_target "a" "src/bin/x.rs".
Definition no_notes : notes := mkNotes [] [] [] [].
Definition stable_env : Env := mkEnv None None None false false.
Definition sample_targets : cresult (list Target * notes) :=
  targets (SV:=sem_lib) (UL:=hier_lib) (FS:=package_files) (DS:=package_dirs) stable_env features_default
    sample_manifest "p" "/w/p" Edition2015 None None no_notes.
Definition targets_of {A} (r : cresult (list Target * A)) : list Target := match r with Ok (ts, _) => ts | _ => [] end.

Lemma targets_well_formed_witness :
  is_absolute "/w/p" = true ∧ is_ok sample_targets = true ∧
  (tgt_name <$> targets_of sample_targets) = ["p"; "p"; "x"; "y"; "t"] ∧ well_formed (targets_of sample_targets).
Proof.
  assert (Hok : is_ok sample_targets = true) by vm_eq.
  split; [vm_eq|]. split; [done|]. split; [vm_eq|].
  pose proof (targets_well_formed (SV:=sem_lib) (UL:=hier_lib) (FS:=package_files) (DS:=package_dirs) stable_env features_default
    sample_manifest "p" "/w/p" Edition2015 None None no_notes eq_refl) as H.
  change (targets _ _ _ _ _ _ _ _ no_notes) with sample_targets in H.
  destruct sample_targets as [[ts n]| |]; done.
Defined.

Definition sample_bins (edition : Edition) : cresult (list Target * notes) :=
  clean_bins (FS:=package_files) (DS:=package_dirs) stable_env features_default (Some [listed_bin]) "/w/p" "p" edition None true no_notes.
Lemma bins_spec_witness :
  is_ok (sample_bins Edition2018) = true ∧
  (tgt_name <$> targets_of (sample_bins Edition2015)) = ["a"] ∧
  (tgt_name <$> targets_of (sample_bins Edition2018)) = ["a"; "p"; "y"] ∧
  NoDup (tgt_name <$> targets_of (sample_bins Edition2018)).
Proof.
  split; [vm_eq|]. split; [vm_eq|]. split; [vm_eq|].
  pose proof (bins_spec (FS:=package_files) (DS:=package_dirs) stable_env features_default (Some [listed_bin]) "/w/p" "p"
    Edition2018 None true no_notes eq_refl) as H.
  change (clean_bins _ _ _ _ _ _ _ _ no_notes) with (sample_bins Edition2018) in H.
  destruct (sample_bins Edition2018) as [[ts n]| |]; [apply H|constructor..].
Defined.
