(* ===== verification/Cfg.v ===== *)
(** Platform configuration expressions, [src/cargo/util/cfg.rs]: the lazy
    tokenizer, the recursive-descent parser, [Display], and evaluation. *)
From S2P Require Import Prelude Str.

Local Open Scope string_scope.

(** [enum Cfg] and [enum CfgExpr] *)
Inductive Cfg :=
| Name (name : string)
| KeyPair (key value : string).

Inductive CfgExpr :=
| Not (e : CfgExpr)
| All (l : list CfgExpr)
| Any (l : list CfgExpr)
| Value (c : Cfg).

#[global] Instance Cfg_eq_dec : EqDecision Cfg.
Proof. solve_decision. Defined.

(** [enum Token]: slices of the input are strings. *)
Inductive Token :=
| LeftParen
| RightParen
| Ident (s : string)
| Comma
| Equals
| TString (s : string).

#[global] Instance Token_eq_dec : EqDecision Token.
Proof. solve_decision. Defined.

Definition is_ident_start (c : ascii) : bool :=
  Ascii.eqb c "_" || in_range "a" "z" c || in_range "A" "Z" c.

Definition is_ident_rest (c : ascii) : bool :=
  is_ident_start c || in_range "0" "9" c.

Definition classify (t : Token) : string :=
  match t with
  | LeftParen => "`(`"
  | RightParen => "`)`"
  | Ident _ => "an identifier"
  | Comma => "`,`"
  | Equals => "`=`"
  | TString _ => "a string"
  end.

(** [Tokenizer::next]; the state of the tokenizer is the unread input. *)
Fixpoint tokenizer_next (s : string) : option (cresult Token) * string :=
  match s with
  | EmptyString => (None, EmptyString)
  | String c s' =>
      if Ascii.eqb c " " then tokenizer_next s'
      else if Ascii.eqb c "(" then (Some (Ok LeftParen), s')
      else if Ascii.eqb c ")" then (Some (Ok RightParen), s')
      else if Ascii.eqb c "," then (Some (Ok Comma), s')
      else if Ascii.eqb c "=" then (Some (Ok Equals), s')
      else if Ascii.eqb c quote then
        match split_once quote s' with
        | (v, Some rest) => (Some (Ok (TString v)), rest)
        | (_, None) => (Some (Err "unterminated string in cfg"), EmptyString)
        end
      else if is_ident_start c then
        let '(id, rest) := span is_ident_rest s' in (Some (Ok (Ident (String c id))), rest)
      else
        (Some (Err ("unexpected character in cfg `" ++ str_take (char_len s) s ++
                    "`, expected parens, a comma, an identifier, or a string")),
         str_drop (char_len s) s)
  end.

(** [Peekable<Tokenizer>]: [peek] looks at the next item, [next] takes it. *)
Definition peek (s : string) : option (cresult Token) := (tokenizer_next s).1.
Definition next (s : string) : option (cresult Token) * string := tokenizer_next s.

Definition try (token : Token) (s : string) : bool * string :=
  match peek s with
  | Some (Ok t) => if decide (token = t) then (true, (next s).2) else (false, s)
  | _ => (false, s)
  end.

Definition eat (token : Token) (s : string) : cresult (unit * string) :=
  match next s with
  | (Some (Ok t), s') =>
      if decide (token = t) then Ok (tt, s')
      else Err ("expected " ++ classify token ++ ", found " ++ classify t)
  | (Some (Err e), _) => Err e
  | (Some (Panic p), _) => Panic p
  | (None, _) => Err ("expected " ++ classify token ++ ", but cfg expr ended")
  end.

(** [Parser::cfg] *)
Definition cfg (s : string) : cresult (Cfg * string) :=
  match next s with
  | (Some (Ok (Ident name)), s) =>
      match try Equals s with
      | (true, s) =>
          match next s with
          | (Some (Ok (TString v)), s) => Ok (KeyPair name v, s)
          | (Some (Ok t), _) => Err ("expected a string, found " ++ classify t)
          | (Some (Err e), _) => Err e
          | (Some (Panic p), _) => Panic p
          | (None, _) => Err "expected a string, found nothing"
          end
      | (false, s) => Ok (Name name, s)
      end
  | (Some (Ok t), _) => Err ("expected identifier, found " ++ classify t)
  | (Some (Err e), _) => Err e
  | (Some (Panic p), _) => Panic p
  | (None, _) => Err "expected identifier, found nothing"
  end.

(** [Parser::expr] and its [while] loop; [None] is fuel exhaustion. *)
Fixpoint expr (fuel : nat) (s : string) : option (cresult (CfgExpr * string)) :=
  match fuel with
  | O => None
  | S fuel =>
      match peek s with
      | Some (Ok (Ident op)) =>
          if String.eqb op "all" || String.eqb op "any" then
            let* (_, s) := Some (eat LeftParen (next s).2) in
            let* (e, s) := exprs fuel s in
            Some (Ok (if String.eqb op "all" then All e else Any e, s))
          else if String.eqb op "not" then
            let* (_, s) := Some (eat LeftParen (next s).2) in
            let* (e, s) := expr fuel s in
            let* (_, s) := Some (eat RightParen s) in
            Some (Ok (Not e, s))
          else let* (c, s) := Some (cfg s) in Some (Ok (Value c, s))
      | Some (Ok _) => let* (c, s) := Some (cfg s) in Some (Ok (Value c, s))
      | Some (Err e) => Some (Err e)
      | Some (Panic p) => Some (Panic p)
      | None => Some (Err "expected start of a cfg expression, found nothing")
      end
  end
with exprs (fuel : nat) (s : string) : option (cresult (list CfgExpr * string)) :=
  match fuel with
  | O => None
  | S fuel =>
      match try RightParen s with
      | (true, s) => Some (Ok ([], s))
      | (false, s) =>
          let* (e, s) := expr fuel s in
          match try Comma s with
          | (true, s) =>
              let* (es, s) := exprs fuel s in Some (Ok (e :: es, s))
          | (false, s) =>
              let* (_, s) := Some (eat RightParen s) in Some (Ok ([e], s))
          end
      end
  end.

(** A token takes at least one byte, and each token at most two calls. *)
Definition expr_fuel (s : string) : nat := 2 * String.length s + 2.

(** [<CfgExpr as FromStr>::from_str] *)
Definition from_str (s : string) : option (cresult CfgExpr) :=
  let* (e, rest) := expr (expr_fuel s) s in
  match next rest with
  | (Some _, _) => Some (Err "can only have one cfg-expression, consider using all() or any() explicitly")
  | (None, _) => Some (Ok e)
  end.

(** [<Cfg as FromStr>::from_str] *)
Definition cfg_from_str (s : string) : cresult Cfg :=
  '(e, rest) ← cfg s;
  match next rest with
  | (Some _, _) => Err ("malformed cfg value or key/value pair: `" ++ s ++ "`")
  | (None, _) => Ok e
  end.

(** [Display] *)
Definition display_cfg (c : Cfg) : string :=
  match c with
  | Name s => s
  | KeyPair k v => k ++ " = " ++ quote_str ++ v ++ quote_str
  end.

Fixpoint display (e : CfgExpr) : string :=
  match e with
  | Not e => "not(" ++ display e ++ ")"
  | All l => "all(" ++ join ", " (map display l) ++ ")"
  | Any l => "any(" ++ join ", " (map display l) ++ ")"
  | Value c => display_cfg c
  end.

(** [CfgExpr::matches] *)
Fixpoint matches (e : CfgExpr) (cfg : list Cfg) : bool :=
  match e with
  | Not e => negb (matches e cfg)
  | All l => forallb (λ e, matches e cfg) l
  | Any l => existsb (λ e, matches e cfg) l
  | Value c => bool_decide (c ∈ cfg)
  end.

(** [CfgExpr::matches_key] *)
Definition matches_key (key : string) (target_cfg : list Cfg) : option bool :=
  if starts_with "cfg(" key && ends_with_char ")" key then
    let cfg := str_take (String.length key - 1 - 4) (str_drop 4 key) in
    match from_str cfg with
    | Some (Ok ce) => Some (matches ce target_cfg)
    | Some _ => Some false
    | None => None
    end
  else Some false.

(** * The tokenizer *)
Local Open Scope nat_scope.
Abbreviation len := String.length.

Lemma length_str_drop n s : len (str_drop n s) = len s - n.
Proof. revert s. induction n as [|n IH]; intros [|c s]; simpl; auto. Qed.

(** Every item, token or error, takes at least one byte. *)
Lemma next_shorter s t r : next s = (Some t, r) → len r < len s.
Proof.
  unfold next. induction s as [|c s IH]; simpl; [done|].
  repeat (case_match; simplify_eq; intros; simplify_eq; try (simpl; lia)).
  - match goal with H : tokenizer_next s = _ |- _ => specialize (IH H) end. lia.
  - match goal with H : split_once _ _ = _ |- _ =>
      apply split_once_Some in H as [-> _] end.
    rewrite length_app_str. simpl. lia.
  - match goal with H : span _ _ = _ |- _ =>
      apply span_spec in H as (-> & _ & _) end.
    rewrite length_app_str. lia.
  - rewrite length_str_drop. lia.
Qed.

Lemma next_no_panic s p r : next s ≠ (Some (Panic p), r).
Proof.
  unfold next. induction s as [|c s IH]; simpl; [done|].
  repeat (case_match; simplify_eq; try done).
Qed.

Lemma eat_inv tok s s' : eat tok s = Ok (tt, s') → next s = (Some (Ok tok), s').
Proof.
  unfold eat. destruct (next s) as [[[t|e|p]|] s1]; try done.
  case_decide; [|done]. intros; by simplify_eq.
Qed.

Lemma eat_no_panic tok s p : eat tok s ≠ Panic p.
Proof.
  unfold eat. destruct (next s) as [[[t|e|q]|] s1] eqn:Hn; try done.
  - by case_decide.
  - by apply next_no_panic in Hn.
Qed.

Lemma try_true tok s s' : try tok s = (true, s') → next s = (Some (Ok tok), s').
Proof.
  unfold try, peek, next. destruct (tokenizer_next s) as [[[t| |]|] s1]; simpl; try done.
  case_decide; [|done]. intros; by simplify_eq.
Qed.

Lemma try_false tok s s' : try tok s = (false, s') → s' = s.
Proof.
  unfold try. destruct (peek s) as [[t| |]|]; try (intros; by simplify_eq).
  case_decide; intros; by simplify_eq.
Qed.

Lemma cfg_shorter s c s' : cfg s = Ok (c, s') → len s' < len s.
Proof.
  unfold cfg. destruct (next s) as [[[t| |]|] s1] eqn:Hn; try done.
  apply next_shorter in Hn. destruct t; try done.
  destruct (try Equals s1) as [[] s2] eqn:Ht.
  - apply try_true, next_shorter in Ht.
    destruct (next s2) as [[[t| |]|] s3] eqn:Hn2; try done.
    apply next_shorter in Hn2. destruct t; try done. intros; simplify_eq. lia.
  - apply try_false in Ht. intros; simplify_eq. lia.
Qed.

Lemma cfg_no_panic s p : cfg s ≠ Panic p.
Proof.
  unfold cfg. destruct (next s) as [[[t| |q]|] s1] eqn:Hn; try done;
    [|by apply next_no_panic in Hn].
  destruct t; try done. destruct (try Equals s1) as [[] s2]; try done.
  destruct (next s2) as [[[t| |q]|] s3] eqn:Hn2; try done; [by destruct t|].
  by apply next_no_panic in Hn2.
Qed.

(** * Termination

    A parse result that consumes input. *)
Definition parsed {A} (s : string) (m : option (cresult (A * string))) : Prop :=
  ∃ r, m = Some r ∧ is_panic r = false ∧ ∀ a s', r = Ok (a, s') → len s' < len s.

Lemma parsed_ok {A} s (a : A) s' : len s' < len s → parsed s (Some (Ok (a, s'))).
Proof. intros. eexists. split_and!; [done..|]. intros; by simplify_eq. Qed.
Lemma parsed_err {A} s e : @parsed A s (Some (Err e)).
Proof. by eexists. Qed.

Lemma parsed_bind {A B} s s1 (m : option (cresult (A * string))) f :
  parsed s1 m → len s1 ≤ len s →
  (∀ a s', len s' < len s1 → @parsed B s (f (a, s'))) →
  parsed s (fbind m f).
Proof.
  intros (r & -> & Hp & Hlen) Hs Hf. destruct r as [[a s']|e|p]; simpl; [|apply parsed_err|done].
  apply Hf. by eapply Hlen.
Qed.

Lemma parsed_eat tok s : parsed s (Some (eat tok s)).
Proof.
  eexists. split_and!; [done| |].
  - destruct (eat tok s) eqn:He; try done. by apply eat_no_panic in He.
  - intros [] s' He. by eapply next_shorter, eat_inv.
Qed.

Lemma parsed_cfg s : parsed s (Some (cfg s)).
Proof.
  eexists. split_and!; [done| |intros; by eapply cfg_shorter].
  destruct (cfg s) eqn:He; try done. by apply cfg_no_panic in He.
Qed.

Lemma expr_parsed fuel :
  (∀ s, 2 * len s + 2 ≤ fuel → parsed s (expr fuel s)) ∧
  (∀ s, 2 * len s + 3 ≤ fuel → parsed s (exprs fuel s)).
Proof.
  induction fuel as [|fuel [IHe IHl]]; [split; lia|].
  split; intros s Hf; cbn [expr exprs].
  - unfold peek. destruct (tokenizer_next s) as [[[t|e|p]|] s1] eqn:Hn; cbn [fst];
      try apply parsed_err; [|by apply next_no_panic in Hn].
    pose proof (next_shorter _ _ _ Hn). unfold next. rewrite Hn. cbn [snd].
    assert (Hcfg : parsed s (let* (c, s) := Some (cfg s) in Some (Ok (Value c, s)))).
    { eapply parsed_bind; [apply parsed_cfg|done|intros; by apply parsed_ok]. }
    destruct t as [| |op| | |]; try exact Hcfg.
    destruct (String.eqb op "all" || String.eqb op "any");
      [|destruct (String.eqb op "not"); [|exact Hcfg]].
    + eapply parsed_bind; [apply parsed_eat|lia|intros [] s2 ?].
      eapply parsed_bind; [apply IHl; lia|lia|intros es s3 ?]. apply parsed_ok. lia.
    + eapply parsed_bind; [apply parsed_eat|lia|intros [] s2 ?].
      eapply parsed_bind; [apply IHe; lia|lia|intros e s3 ?].
      eapply parsed_bind; [apply parsed_eat|lia|intros [] s4 ?]. apply parsed_ok. lia.
  - destruct (try RightParen s) as [[] s1] eqn:Ht.
    { apply try_true, next_shorter in Ht. by apply parsed_ok. }
    apply try_false in Ht. subst s1.
    eapply parsed_bind; [apply IHe; lia|done|intros e s2 ?].
    destruct (try Comma s2) as [[] s3] eqn:Ht.
    + apply try_true, next_shorter in Ht.
      eapply parsed_bind; [apply IHl; lia|lia|intros es s4 ?]. apply parsed_ok. lia.
    + apply try_false in Ht. subst s3.
      eapply parsed_bind; [apply parsed_eat|lia|intros [] s4 ?]. apply parsed_ok. lia.
Qed.

Lemma from_str_total s : ∃ r, from_str s = Some r ∧ is_panic r = false.
Proof.
  unfold from_str. destruct (proj1 (expr_parsed (expr_fuel s)) s (le_n _)) as (r & -> & Hp & _).
  destruct r as [[e rest]|e|p]; simpl; [|by eexists|done].
  destruct (next rest) as [[]]; by eexists.
Qed.

(** * Well-formed expressions

    Names and keys are identifiers, values hold no quote, and a name is not one
    of the operators. *)
Definition ident (s : string) : bool :=
  match s with
  | EmptyString => false
  | String c s => is_ident_start c && all_chars is_ident_rest s
  end.

Definition operator (s : string) : bool :=
  String.eqb s "all" || String.eqb s "any" || String.eqb s "not".

Definition wf_cfg (c : Cfg) : bool :=
  match c with
  | Name n => ident n
  | KeyPair k v => ident k && negb (contains_char quote v)
  end.

Definition cfg_key (c : Cfg) : string :=
  match c with Name n => n | KeyPair k _ => k end.

Fixpoint wf (e : CfgExpr) : bool :=
  match e with
  | Not e => wf e
  | All l => forallb wf l
  | Any l => forallb wf l
  | Value c => wf_cfg c && negb (operator (cfg_key c))
  end.

Section CfgExpr_induction.
Context (P : CfgExpr → Prop).
Context (HNot : ∀ e, P e → P (Not e)) (HAll : ∀ l, Forall P l → P (All l))
        (HAny : ∀ l, Forall P l → P (Any l)) (HValue : ∀ c, P (Value c)).

Fixpoint CfgExpr_nested_ind (e : CfgExpr) : P e :=
  let fix go (l : list CfgExpr) : Forall P l :=
    match l with
    | [] => @List.Forall_nil _ P
    | e :: l => @List.Forall_cons _ P e l (CfgExpr_nested_ind e) (go l)
    end in
  match e with
  | Not e => HNot e (CfgExpr_nested_ind e)
  | All l => HAll l (go l)
  | Any l => HAny l (go l)
  | Value c => HValue c
  end.
End CfgExpr_induction.

(** What may follow an expression: the end, a comma or a parenthesis. *)
Definition follow (s : string) : Prop :=
  match s with EmptyString => True | String c _ => c = ","%char ∨ c = ")"%char end.

Lemma ident_start_special c :
  is_ident_start c = true →
  Ascii.eqb c " " = false ∧ Ascii.eqb c "(" = false ∧ Ascii.eqb c ")" = false ∧
  Ascii.eqb c "," = false ∧ Ascii.eqb c "=" = false ∧ Ascii.eqb c quote = false.
Proof.
  destruct c as [[] [] [] [] [] [] [] []]; vm_compute; intros H; try discriminate H;
    repeat split; reflexivity.
Qed.

Definition stops (s : string) : Prop :=
  match s with EmptyString => True | String c _ => is_ident_rest c = false end.

Lemma follow_stops s : follow s → stops s.
Proof. destruct s as [|c s]; simpl; [done|]. by intros [->| ->]. Qed.

Lemma next_ident id rest :
  ident id = true → stops rest → next (id ++ rest)%string = (Some (Ok (Ident id)), rest).
Proof.
  unfold next. destruct id as [|c id]; [done|]. simpl.
  intros [Hc Hid]%andb_true_iff Hs.
  destruct (ident_start_special c Hc) as (-> & -> & -> & -> & -> & ->). rewrite Hc.
  by rewrite span_app.
Qed.

Lemma try_Equals_follow s : follow s → try Equals s = (false, s).
Proof. destruct s as [|c s]; [done|]. by intros [->| ->]. Qed.

Lemma next_quoted v s :
  contains_char quote v = false →
  next (String quote (v ++ String quote s))%string = (Some (Ok (TString v)), s).
Proof. intros Hv. unfold next. simpl. by rewrite split_once_app. Qed.

Lemma display_cfg_key c rest :
  wf_cfg c = true → follow rest →
  ∃ s, next (display_cfg c ++ rest)%string = (Some (Ok (Ident (cfg_key c))), s).
Proof.
  intros Hwf Hf. destruct c as [n|k v]; simpl in *.
  - rewrite next_ident by auto using follow_stops. eauto.
  - apply andb_true_iff in Hwf as [Hk _]. rewrite app_assoc_str, next_ident by done. eauto.
Qed.

Lemma cfg_display c rest :
  wf_cfg c = true → follow rest → cfg (display_cfg c ++ rest)%string = Ok (c, rest).
Proof.
  intros Hwf Hf. unfold cfg. destruct c as [n|k v]; simpl in Hwf; cbn [display_cfg].
  - rewrite next_ident by auto using follow_stops. by rewrite try_Equals_follow.
  - apply andb_true_iff in Hwf as [Hk Hv%negb_true_iff].
    rewrite !app_assoc_str. rewrite next_ident by done.
    assert (Ht : ∀ s, try Equals (" = " ++ s)%string = (true, String " " s)) by done.
    rewrite Ht. change (next (String " " (quote_str ++ v ++ quote_str ++ rest)%string))
      with (next (String quote (v ++ String quote rest))%string).
    by rewrite next_quoted.
Qed.

Lemma display_ident e rest :
  wf e = true → follow rest →
  ∃ id s, next (display e ++ rest)%string = (Some (Ok (Ident id)), s).
Proof.
  intros Hwf Hf. destruct e as [e|l|l|c]; cbn [display]; rewrite ?app_assoc_str.
  1-3: eexists _, _; reflexivity.
  simpl in Hwf. apply andb_true_iff in Hwf as [Hwf _].
  destruct (display_cfg_key c rest Hwf Hf) as [s ->]. eauto.
Qed.

Lemma expr_space fuel s : expr fuel (String " " s) = expr fuel s.
Proof. by destruct fuel. Qed.
Lemma exprs_space fuel s :
  (∀ s', try RightParen s ≠ (true, s')) → exprs fuel (String " " s) = exprs fuel s.
Proof.
  intros Ht. destruct fuel as [|fuel]; [done|]. cbn [exprs].
  assert (Hsp : try RightParen (String " " s) =
    match try RightParen s with (true, s') => (true, s') | _ => (false, String " " s) end).
  { unfold try, peek, next. simpl. repeat case_match; simplify_eq; done. }
  rewrite Hsp. destruct (try RightParen s) as [[] s1] eqn:E; [by destruct (Ht s1)|].
  apply try_false in E; subst. by rewrite expr_space.
Qed.

(** * Printing and parsing *)
Definition reparses (e : CfgExpr) : Prop :=
  wf e = true → ∀ rest fuel, follow rest →
  2 * len (display e ++ rest)%string + 2 ≤ fuel →
  expr fuel (display e ++ rest)%string = Some (Ok (e, rest)).

Lemma try_RightParen_display e rest :
  wf e = true → follow rest →
  try RightParen (display e ++ rest)%string = (false, (display e ++ rest)%string).
Proof.
  intros Hwf Hf. destruct (display_ident e rest Hwf Hf) as (id & s & Hn).
  unfold try, peek. unfold next in Hn. by rewrite Hn.
Qed.

Lemma exprs_display l :
  Forall reparses l → forallb wf l = true → ∀ rest fuel,
  2 * len (join ", " (map display l) ++ String ")" rest)%string + 3 ≤ fuel →
  exprs fuel (join ", " (map display l) ++ String ")" rest)%string = Some (Ok (l, rest)).
Proof.
  induction l as [|e l IH]; intros Hl Hwf rest fuel Hfuel; destruct fuel as [|fuel]; try lia.
  { done. }
  apply Forall_cons in Hl as [He Hl]. simpl in Hwf. apply andb_true_iff in Hwf as [Hwe Hwl].
  destruct l as [|e2 l].
  - cbn [map join] in *. cbn [exprs].
    rewrite try_RightParen_display by (done || by right).
    rewrite (He Hwe) by (lia || by right). cbn [fbind]. done.
  - assert (Hj : join ", " (map display (e :: e2 :: l))
      = (display e ++ ", " ++ join ", " (map display (e2 :: l)))%string) by done.
    rewrite Hj in *. clear Hj. set (tl := join ", " (map display (e2 :: l))) in *.
    rewrite !app_assoc_str in *. cbn [exprs].
    rewrite try_RightParen_display by (done || by left).
    rewrite (He Hwe) by (lia || by left). cbn [fbind].
    assert (Hc : try Comma (", " ++ tl ++ String ")" rest)%string
                 = (true, String " " (tl ++ String ")" rest)%string)) by done.
    rewrite Hc. rewrite exprs_space.
    + rewrite length_app_str in Hfuel. simpl in Hfuel. unfold tl in *.
      rewrite (IH Hl Hwl) by lia. done.
    + intros s'. unfold tl. simpl in Hwl. apply andb_true_iff in Hwl as [Hwe2 _].
      destruct l as [|e3 l]; cbn [map join];
        rewrite ?app_assoc_str, try_RightParen_display by (done || (by left) || (by right));
        done.
Qed.

Lemma expr_display e : reparses e.
Proof.
  induction e as [e IH|l IH|l IH|c] using CfgExpr_nested_ind; intros Hwf rest fuel Hf Hfuel;
    (destruct fuel as [|fuel]; [lia|]).
  - cbn [display] in *. rewrite !app_assoc_str in *.
    change (expr (S fuel) ("not(" ++ display e ++ ")" ++ rest)%string) with
      (let* (e, s) := expr fuel (display e ++ String ")" rest)%string in
       let* (_, s) := Some (eat RightParen s) in Some (@Ok string _ (Not e, s))).
    simpl in Hfuel. rewrite (IH Hwf) by (lia || by right). done.
  - cbn [display] in *. rewrite !app_assoc_str in *.
    change (expr (S fuel) ("all(" ++ join ", " (map display l) ++ ")" ++ rest)%string) with
      (let* (es, s) := exprs fuel (join ", " (map display l) ++ String ")" rest)%string in
       Some (@Ok string _ (All es, s))).
    simpl in Hfuel. rewrite exprs_display by (done || lia). done.
  - cbn [display] in *. rewrite !app_assoc_str in *.
    change (expr (S fuel) ("any(" ++ join ", " (map display l) ++ ")" ++ rest)%string) with
      (let* (es, s) := exprs fuel (join ", " (map display l) ++ String ")" rest)%string in
       Some (@Ok string _ (Any es, s))).
    simpl in Hfuel. rewrite exprs_display by (done || lia). done.
  - simpl in Hwf. apply andb_true_iff in Hwf as [Hwc Hop%negb_true_iff].
    cbn [display] in *. destruct (display_cfg_key c rest Hwc Hf) as [s Hn].
    cbn [expr]. unfold peek. unfold next in Hn. rewrite Hn. cbn [fst].
    unfold operator in Hop. apply orb_false_iff in Hop as [Hop1 Hop2].
    rewrite Hop1, Hop2, cfg_display by done. done.
Qed.

Lemma from_str_display e : wf e = true → from_str (display e) = Some (Ok e).
Proof.
  intros Hwf. unfold from_str.
  pose proof (expr_display e Hwf EmptyString (expr_fuel (display e)) I) as He.
  rewrite app_nil_r_str in He. by rewrite He.
Qed.

(** * What parsing returns *)
Definition wf_token (t : Token) : bool :=
  match t with
  | Ident s => ident s
  | TString v => negb (contains_char quote v)
  | _ => true
  end.

Lemma next_wf s t r : next s = (Some (Ok t), r) → wf_token t = true.
Proof.
  unfold next. induction s as [|c s IH]; simpl; [done|].
  repeat (case_match; simplify_eq; intros; simplify_eq; try done); [by apply IH|..].
  - match goal with H : split_once _ _ = _ |- _ =>
      apply split_once_Some in H as [_ Hv] end. simpl. by rewrite Hv.
  - match goal with H : span _ _ = _ |- _ =>
      apply span_spec in H as (_ & Hs & _) end. simpl. by apply andb_true_iff.
Qed.

Lemma cfg_wf s c s' :
  cfg s = Ok (c, s') → wf_cfg c = true ∧ peek s = Some (Ok (Ident (cfg_key c))).
Proof.
  unfold cfg, peek. destruct (next s) as [[[t| |]|] s1] eqn:Hn; try done.
  pose proof (next_wf _ _ _ Hn) as Hw. unfold next in Hn. rewrite Hn.
  destruct t as [| |id| | |]; try done. simpl in Hw.
  destruct (try Equals s1) as [[] s2]; [|by intros; simplify_eq].
  destruct (next s2) as [[[t| |]|] s3] eqn:Hn2; try done.
  apply next_wf in Hn2. destruct t; try done. intros; simplify_eq. simpl in *.
  by rewrite Hw.
Qed.

Lemma fbind_Ok {A B} (m : option (cresult A)) (f : A → option (cresult B)) b :
  fbind m f = Some (Ok b) → ∃ a, m = Some (Ok a) ∧ f a = Some (Ok b).
Proof. destruct m as [[a|e|p]|]; simpl; intros; try done. eauto. Qed.

Lemma expr_wf fuel :
  (∀ s e s', expr fuel s = Some (Ok (e, s')) → wf e = true) ∧
  (∀ s l s', exprs fuel s = Some (Ok (l, s')) → forallb wf l = true).
Proof.
  induction fuel as [|fuel [IHe IHl]]; [done|].
  split; intros s x s'; cbn [expr exprs].
  - destruct (peek s) as [[t|e|p]|] eqn:Hp; try done.
    assert (Hcfg : (∀ op, t = Ident op → operator op = false) →
      fbind (Some (cfg s)) (λ p, let '(c, s0) := p in Some (Ok (Value c, s0)))
        = Some (@Ok string _ (x, s')) → wf x = true).
    { intros Hop H. apply fbind_Ok in H as ([c s1] & Hc & H). simplify_eq.
      destruct (cfg_wf _ _ _ Hc) as [Hw Hpk]. simpl. rewrite Hw.
      rewrite Hp in Hpk. simplify_eq. simpl. by rewrite Hop. }
    destruct t as [| |op| | |]; try (apply Hcfg; done).
    destruct (String.eqb op "all" || String.eqb op "any") eqn:Hop1;
      [|destruct (String.eqb op "not") eqn:Hop2].
    + intros H. apply fbind_Ok in H as ([_ s1] & _ & H).
      apply fbind_Ok in H as ([es s2] & Hes & H). apply IHl in Hes.
      by destruct (String.eqb op "all"); simplify_eq.
    + intros H. apply fbind_Ok in H as ([_ s1] & _ & H).
      apply fbind_Ok in H as ([e1 s2] & He & H). apply IHe in He.
      apply fbind_Ok in H as ([_ s3] & _ & H). by simplify_eq.
    + apply Hcfg. intros op' Heq. simplify_eq. unfold operator. by rewrite Hop1, Hop2.
  - destruct (try RightParen s) as [[] s1]; [by intros; simplify_eq|].
    intros H. apply fbind_Ok in H as ([e1 s2] & He & H). apply IHe in He.
    destruct (try Comma s2) as [[] s3].
    + apply fbind_Ok in H as ([es s4] & Hes & H). apply IHl in Hes. simplify_eq.
      simpl. by rewrite He.
    + apply fbind_Ok in H as ([_ s4] & _ & H). simplify_eq. simpl. by rewrite He.
Qed.

Lemma from_str_wf s e : from_str s = Some (Ok e) → wf e = true.
Proof.
  intros H. unfold from_str in H. apply fbind_Ok in H as ([e' rest] & He & H).
  destruct (next rest) as [[]]; simplify_eq. by eapply expr_wf.
Qed.

(** Printing a well-formed expression and parsing the text gives the
    expression back, whatever its nesting. *)
Theorem from_str_roundtrip e (Hwf : wf e = true) : from_str (display e) = Some (Ok e).
Proof. by apply from_str_display. Qed.

Definition sample_expr : CfgExpr :=
  All [Value (Name "unix"); Not (Value (KeyPair "target_os" "mac os"));
       Any [Any []; Value (Name "_x1")]].

Lemma from_str_roundtrip_witness :
  wf sample_expr = true ∧ from_str (display sample_expr) = Some (Ok sample_expr).
Proof. split; [reflexivity|]. apply (from_str_roundtrip sample_expr). reflexivity. Defined.

(** The parser returns on every string, without exhausting its bound and
    without panicking; an expression it accepts is well formed, so that
    printing it gives a text that parses to the same expression. *)
Theorem from_str_returns s :
  ∃ r, from_str s = Some r ∧ is_panic r = false ∧
    ∀ e, r = Ok e → wf e = true ∧ from_str (display e) = Some (Ok e).
Proof.
  destruct (from_str_total s) as (r & Hr & Hp). exists r. split_and!; [done..|].
  intros e ->. apply from_str_wf in Hr. split; [done|]. by apply from_str_display.
Qed.

(** * Evaluation *)
Section meaning.
Context (active : Cfg → Prop).

(** What an expression says of a platform. *)
Fixpoint holds (e : CfgExpr) : Prop :=
  match e with
  | Not e => ¬ holds e
  | All l => foldr (λ e P, holds e ∧ P) True l
  | Any l => foldr (λ e P, holds e ∨ P) False l
  | Value c => active c
  end.
End meaning.

Lemma matches_holds cfgs e : matches e cfgs = true ↔ holds (λ c, c ∈ cfgs) e.
Proof.
  induction e as [e IH|l IH|l IH|c] using CfgExpr_nested_ind; simpl.
  - by rewrite negb_true_iff, <-not_true_iff_false, IH.
  - induction IH as [|e l He _ IH]; simpl; [done|]. by rewrite andb_true_iff, He, IH.
  - induction IH as [|e l He _ IH]; simpl; [done|]. by rewrite orb_true_iff, He, IH.
  - apply bool_decide_eq_true.
Qed.

Lemma matches_key_cfg inner cfgs :
  matches_key ("cfg(" ++ inner ++ ")")%string cfgs =
    match from_str inner with
    | Some (Ok e) => Some (matches e cfgs)
    | Some _ => Some false
    | None => None
    end.
Proof.
  unfold matches_key.
  assert (Hs : starts_with "cfg(" ("cfg(" ++ inner ++ ")")%string = true).
  { unfold starts_with. simpl. by destruct (inner ++ ")")%string. }
  assert (He : ends_with_char ")" ("cfg(" ++ inner ++ ")")%string = true).
  { apply (ends_with_char_snoc ")" ("cfg(" ++ inner)%string). }
  rewrite Hs, He. cbn [andb].
  assert (Ht : str_take (len ("cfg(" ++ inner ++ ")")%string - 1 - 4)
                 (str_drop 4 ("cfg(" ++ inner ++ ")")%string) = inner); [|by rewrite Ht].
  simpl. rewrite length_app_str. simpl.
  replace (len inner + 1 - 1) with (len inner) by lia.
  apply str_take_app.
Qed.

(** Testing a dependency's platform key always returns; it selects a target
    exactly when it has the form [cfg(..)], its inside parses, and the
    expression is true of the target's configuration. *)
Theorem matches_key_spec key cfgs :
  (∃ b, matches_key key cfgs = Some b) ∧
  (matches_key key cfgs = Some true ↔
   ∃ inner e, key = ("cfg(" ++ inner ++ ")")%string ∧ from_str inner = Some (Ok e) ∧
              holds (λ c, c ∈ cfgs) e).
Proof.
  split; [|split].
  - unfold matches_key. case_match; [|eauto]. case_match eqn:Hr; [case_match; eauto|].
    destruct (from_str_total (str_take (len key - 1 - 4) (str_drop 4 key))) as (r & Hs & _).
    congruence.
  - intros H. destruct (starts_with "cfg(" key) eqn:Hs; [|by unfold matches_key in H; rewrite Hs in H].
    destruct (ends_with_char ")" key) eqn:He; [|by unfold matches_key in H; rewrite Hs, He in H].
    assert (∃ inner, key = ("cfg(" ++ inner ++ ")")%string) as [inner ->].
    { apply ends_with_char_app in He as [a ->].
      unfold starts_with in Hs.
      destruct a as [|c0 [|c1 [|c2 [|c3 a]]]]; simpl in Hs;
        repeat (case_match; [|done]); simplify_eq. by exists a. }
    rewrite matches_key_cfg in H. destruct (from_str inner) as [[e| |]|] eqn:Hp; try done.
    exists inner, e. split_and!; [done..|]. apply matches_holds. by simplify_eq.
  - intros (inner & e & -> & Hp & Hh). rewrite matches_key_cfg, Hp.
    apply matches_holds in Hh. by rewrite Hh.
Qed.
