(* ===== verification/Dependency.v ===== *)
(** Dependencies of a package, [src/cargo/core/dependency.rs]: the record, its
    setters, the requests it matches, and platforms. *)
From S2P Require Import Prelude Str Extern SourceId PackageId Cfg.

Local Open Scope string_scope.

(** * Platforms *)
Inductive Platform := PName (s : string) | PCfg (e : CfgExpr).

(** The derived equality and hash of [CfgExpr], by an encoding as a tree. *)
#[global] Instance Cfg_countable : Countable Cfg.
Proof.
  refine (inj_countable'
    (λ c, match c with Name n => inl n | KeyPair k v => inr (k, v) end)
    (λ x, match x with inl n => Name n | inr (k, v) => KeyPair k v end) _).
  by intros [].
Defined.
Fixpoint encode_expr (e : CfgExpr) : gen_tree Cfg :=
  match e with
  | Not e => GenNode 0 [encode_expr e]
  | All l => GenNode 1 (map encode_expr l)
  | Any l => GenNode 2 (map encode_expr l)
  | Value c => GenLeaf c
  end.
Fixpoint decode_expr (t : gen_tree Cfg) : CfgExpr :=
  match t with
  | GenLeaf c => Value c
  | GenNode 0 [t] => Not (decode_expr t)
  | GenNode 1 l => All (map decode_expr l)
  | GenNode _ l => Any (map decode_expr l)
  end.
Lemma decode_encode_expr e : decode_expr (encode_expr e) = e.
Proof.
  induction e as [e IH|l IH|l IH|c] using CfgExpr_nested_ind; simpl; f_equal; try done.
  all: induction IH as [|x l Hx Hl IHl]; simpl; [done|by f_equal].
Qed.
#[global] Instance CfgExpr_eq_dec : EqDecision CfgExpr.
Proof.
  intros a b. destruct (decide (encode_expr a = encode_expr b)) as [He|He].
  - left. by rewrite <-(decode_encode_expr a), He, decode_encode_expr.
  - right. congruence.
Defined.
#[global] Instance CfgExpr_countable : Countable CfgExpr :=
  inj_countable' encode_expr decode_expr decode_encode_expr.
#[global] Instance Platform_eq_dec : EqDecision Platform.
Proof. solve_decision. Defined.
#[global] Instance Platform_countable : Countable Platform.
Proof.
  refine (inj_countable'
    (λ p, match p with PName s => inl s | PCfg e => inr e end)
    (λ x, match x with inl s => PName s | inr e => PCfg e end) _).
  by intros [].
Defined.

(** [Platform::matches] *)
Definition platform_matches (p : Platform) (name : string) (cfg : option (list Cfg)) : bool :=
  match p with
  | PName n => String.eqb n name
  | PCfg e => match cfg with Some cfg => Cfg.matches e cfg | None => false end
  end.

(** [<Platform as FromStr>::from_str] *)
Definition platform_from_str (s : string) : option (cresult Platform) :=
  if starts_with "cfg(" s && ends_with_char ")" s then
    let s := str_take (String.length s - 5) (str_drop 4 s) in
    r ← Cfg.from_str s;
    Some (p ← chain_err ("failed to parse `" ++ s ++ "` as a cfg expression") r; Ok (PCfg p))
  else Some (Ok (PName s)).

(** [<Platform as Display>::fmt] *)
Definition platform_display (p : Platform) : string :=
  match p with PName n => n | PCfg e => "cfg(" ++ Cfg.display e ++ ")" end.

(** * Kinds of dependencies *)
Inductive DepKind := Normal | Development | Build.
#[global] Instance DepKind_eq_dec : EqDecision DepKind.
Proof. solve_decision. Defined.
#[global] Instance DepKind_countable : Countable DepKind.
Proof.
  refine (inj_countable'
    (λ k, match k with Normal => 0 | Development => 1 | Build => 2 end)
    (λ n, match n with 0 => Normal | 1 => Development | _ => Build end) _).
  by intros [].
Defined.
Definition serialize_kind (k : DepKind) : option string :=
  match k with Normal => None | Development => Some "dev" | Build => Some "build" end.

Section dependency.
Context `{SV : SemverLib} `{UL : UrlLib}.

(** * [Dependency] *)
Record Dependency := mkDependency {
  dep_name : string;
  dep_source_id : SourceId;
  registry_id : option SourceId;
  dep_req : VersionReq;
  specified_req : bool;
  dep_kind : DepKind;
  only_match_name : bool;
  explicit_name_in_toml : option string;
  optional : bool;
  default_features : bool;
  dep_features : list string;
  platform : option Platform;
}.

(** The derived [PartialEq] and [Hash]. *)
#[global] Instance Dependency_key : HashKey Dependency := {|
  hkey := (string * hkey SourceId) * (hkey (option SourceId) * VersionReq) *
          ((bool * DepKind) * (bool * option string) * ((bool * bool) * (list string * option Platform)));
  to_key d := ((dep_name d, to_key (dep_source_id d)), (to_key (registry_id d), dep_req d),
               ((specified_req d, dep_kind d), (only_match_name d, explicit_name_in_toml d),
                ((optional d, default_features d), (dep_features d, platform d))));
|}.

Definition name_in_toml (d : Dependency) : string :=
  default (dep_name d) (explicit_name_in_toml d).

(** [Dependency::new_override] *)
Definition new_override (name : string) (source_id : SourceId) : cresult Dependency :=
  if String.eqb name EmptyString then Panic "assertion failed: !name.is_empty()"
  else Ok (mkDependency name source_id None req_any false Normal true None false true [] None).

(** The setters *)
Definition set_registry_id (d : Dependency) (id : SourceId) : Dependency :=
  let '(mkDependency n s _ r sr k o e op df fs p) := d in
  mkDependency n s (Some id) r sr k o e op df fs p.
Definition set_kind (d : Dependency) (kind : DepKind) : Dependency :=
  let '(mkDependency n s g r sr _ o e op df fs p) := d in
  mkDependency n s g r sr kind o e op df fs p.
Definition set_features (d : Dependency) (features : list string) : Dependency :=
  let '(mkDependency n s g r sr k o e op df _ p) := d in
  mkDependency n s g r sr k o e op df features p.
Definition set_default_features (d : Dependency) (b : bool) : Dependency :=
  let '(mkDependency n s g r sr k o e op _ fs p) := d in
  mkDependency n s g r sr k o e op b fs p.
Definition set_optional (d : Dependency) (b : bool) : Dependency :=
  let '(mkDependency n s g r sr k o e _ df fs p) := d in
  mkDependency n s g r sr k o e b df fs p.
Definition set_source_id (d : Dependency) (id : SourceId) : Dependency :=
  let '(mkDependency n _ g r sr k o e op df fs p) := d in
  mkDependency n id g r sr k o e op df fs p.
Definition set_version_req (d : Dependency) (req : VersionReq) : Dependency :=
  let '(mkDependency n s g _ sr k o e op df fs p) := d in
  mkDependency n s g req sr k o e op df fs p.
Definition set_platform (d : Dependency) (platform : option Platform) : Dependency :=
  let '(mkDependency n s g r sr k o e op df fs _) := d in
  mkDependency n s g r sr k o e op df fs platform.
Definition set_explicit_name_in_toml (d : Dependency) (name : string) : Dependency :=
  let '(mkDependency n s g r sr k o _ op df fs p) := d in
  mkDependency n s g r sr k o (Some name) op df fs p.

Definition newline : string := String (ch 10) EmptyString.

(** [parse_req_with_deprecated]; the second component is what is printed as a
    warning, printing itself being taken to succeed. *)
Definition deprecated_warning (req : string) (inside : PackageId) (requirement : VersionReq) : string :=
  "parsed version requirement `" ++ req ++ "` is no longer valid" ++ newline ++ newline ++
  "Previous versions of Cargo accepted this malformed requirement," ++ newline ++
  "but it is being deprecated. This was found when parsing the manifest" ++ newline ++
  "of " ++ pid_name inside ++ " " ++ version_to_string (pid_version inside) ++
  ", and the correct version requirement is `" ++ req_to_string requirement ++ "`." ++
  newline ++ newline ++
  "This will soon become a hard error, so it's either recommended to" ++ newline ++
  "update to a fixed version or contact the upstream maintainer about" ++ newline ++
  "this warning." ++ newline.

Definition parse_req_with_deprecated (name req : string) (extra : option PackageId)
    : cresult VersionReq * list string :=
  match req_parse req with
  | Ok v => (Ok v, [])
  | Err (e, Some requirement) =>
      match extra with
      | None => (Err e, [])
      | Some inside => (Ok requirement, [deprecated_warning req inside requirement])
      end
  | Err (e, None) =>
      (chain_err ("failed to parse the version requirement `" ++ req ++
                  "` for dependency `" ++ name ++ "`") (Err e), [])
  | Panic m => (Panic m, [])
  end.

(** [Dependency::parse]; [parse_no_deprecated] is the case [inside = None]. *)
Definition parse (name : string) (version : option string) (source_id : SourceId)
    (inside : option PackageId) : cresult Dependency * list string :=
  let '(req, warnings) :=
    match version with
    | Some v => let '(r, w) := parse_req_with_deprecated name v inside in
                (r ← r; Ok (true, r), w)
    | None => (Ok (false, req_any), [])
    end in
  (req ← req;
   ret ← new_override name source_id;
   let '(mkDependency n s g _ _ k _ e op df fs p) := (ret : Dependency) in
   Ok (mkDependency n s g req.2 req.1 k false e op df fs p), warnings).

(** * Matching *)
Definition is_locked (d : Dependency) : bool := starts_with "=" (req_to_string (dep_req d)).
Definition is_transitive (d : Dependency) : bool :=
  match dep_kind d with Normal | Build => true | Development => false end.
Definition is_build (d : Dependency) : bool :=
  match dep_kind d with Build => true | _ => false end.

Definition matches_ignoring_source (d : Dependency) (id : PackageId) : bool :=
  String.eqb (dep_name d) (pid_name id) && req_matches (dep_req d) (pid_version id).

Definition matches_id (d : Dependency) (id : PackageId) : bool :=
  String.eqb (dep_name d) (pid_name id) &&
  (only_match_name d ||
   (req_matches (dep_req d) (pid_version id) && (dep_source_id d ==? pid_source_id id))).

(** [Dependency::lock_to] *)
Definition lock_to (d : Dependency) (id : PackageId) : cresult Dependency :=
  if negb (dep_source_id d ==? pid_source_id id) then
    Panic "assertion failed: `(left == right)`"
  else if negb (req_matches (dep_req d) (pid_version id)) then
    Panic "assertion failed: self.inner.req.matches(id.version())"
  else Ok (set_source_id (set_version_req d (req_exact (pid_version id))) (pid_source_id id)).

Definition map_source (d : Dependency) (to_replace replace_with : SourceId) : Dependency :=
  if negb (dep_source_id d ==? to_replace) then d else set_source_id d replace_with.

(** * Facts *)
Lemma matches_id_key d a b :
  (∀ r v w, to_key v = to_key w → req_matches r v = req_matches r w) →
  to_key a = to_key b → matches_id d a = matches_id d b.
Proof.
  intros Hr (Hn & Hv & Hs)%package_id_key_eq. unfold matches_id, heqb.
  by rewrite Hn, (Hr _ _ _ Hv), Hs.
Qed.

Lemma matches_id_name d a : matches_id d a = true → dep_name d = pid_name a.
Proof. by intros [?%String.eqb_eq _]%andb_true_iff. Qed.

Lemma matches_id_source d a :
  only_match_name d = false → matches_id d a = true →
  to_key (dep_source_id d) = to_key (pid_source_id a).
Proof.
  unfold matches_id. intros ->. simpl. intros H.
  apply andb_true_iff in H as [_ H]. apply andb_true_iff in H as [_ H]. by apply heqb_true in H.
Qed.

(** Locking a dependency to a package it matches never panics; the result
    is recognised as locked, still matches that package, and matches only
    packages of its name and source whose version the exact requirement
    admits.  Locking to a package of another source, or whose version the
    requirement excludes, panics. *)
Theorem lock_to_spec `{!SemverLaws} d id :
  (matches_id d id = true → only_match_name d = false →
   ∃ d', lock_to d id = Ok d' ∧ is_locked d' = true ∧ matches_id d' id = true ∧
     (∀ id', matches_id d' id' = true ↔
        pid_name id' = pid_name id ∧ to_key (pid_source_id id') = to_key (pid_source_id id) ∧
        req_matches (req_exact (pid_version id)) (pid_version id') = true) ∧
     dep_kind d' = dep_kind d ∧ dep_features d' = dep_features d ∧
     name_in_toml d' = name_in_toml d) ∧
  (is_panic (lock_to d id) = true ↔
     to_key (dep_source_id d) ≠ to_key (pid_source_id id) ∨
     req_matches (dep_req d) (pid_version id) = false).
Proof.
  unfold lock_to. split.
  - intros Hm Ho. pose proof (matches_id_name _ _ Hm) as Hn.
    pose proof (matches_id_source _ _ Ho Hm) as Hs. unfold matches_id in Hm. rewrite Ho in Hm.
    simpl in Hm. apply andb_true_iff in Hm as [_ Hm].
    apply andb_true_iff in Hm as [Hr Hs']. rewrite Hs', Hr. simpl.
    eexists; split; [done|]. destruct d as [n s g r sr k o e op df fs p]; simpl in *. subst o.
    assert (Hall : ∀ id', matches_id (mkDependency n (pid_source_id id) g (req_exact (pid_version id))
        sr k false e op df fs p) id' = true ↔
      pid_name id' = pid_name id ∧ to_key (pid_source_id id') = to_key (pid_source_id id) ∧
        req_matches (req_exact (pid_version id)) (pid_version id') = true).
    { intros id'. unfold matches_id. simpl.
      rewrite !andb_true_iff, String.eqb_eq, heqb_true. split; intros (? & ? & ?); split_and!; congruence. }
    split_and!; try done.
    + unfold is_locked. simpl. apply req_exact_to_string.
    + apply Hall. split_and!; [done..|]. apply req_exact_matches.
  - rewrite <-heqb_false.
    destruct (dep_source_id d ==? pid_source_id id), (req_matches (dep_req d) (pid_version id));
      simpl; split; intros Hc; first [done|by left|by right|by destruct Hc].
Qed.
End dependency.
Arguments Dependency {SV UL}.

Lemma lock_to_spec_witness :
  let _ := sem_lib in let _ := hier_lib in
  let d := mkDependency "foo" PackageId.crates_io None (SemCaret (1, 0, 0)) true Normal false
             None false true [] None in
  matches_id d (PackageId.foo (1, 2, 0)) = true ∧
  ∃ d', lock_to d (PackageId.foo (1, 2, 0)) = Ok d' ∧ is_locked d' = true.
Proof.
  intros SV UL d. split; [by vm_compute|].
  destruct (proj1 (lock_to_spec (H:=sem_laws) d (PackageId.foo (1, 2, 0)))) as (d' & H1 & H2 & _);
    [by vm_compute..|].
  exists d'. split; [exact H1|exact H2].
Defined.

(** Platforms print and parse back: a [cfg(..)] expression whenever it is
    well formed, a target name whenever it is not itself of that shape; and
    the parser returns on every text, without a panic. *)
Theorem platform_roundtrip :
  (∀ e, Cfg.wf e = true → platform_from_str (platform_display (PCfg e)) = Some (Ok (PCfg e))) ∧
  (∀ n, starts_with "cfg(" n && ends_with_char ")" n = false →
     platform_from_str (platform_display (PName n)) = Some (Ok (PName n))) ∧
  ∀ s, ∃ r, platform_from_str s = Some r ∧ is_panic r = false ∧
    ∀ e, r = Ok (PCfg e) → Cfg.wf e = true.
Proof.
  split_and!.
  - intros e He. unfold platform_from_str, platform_display.
    pose proof (ends_with_char_snoc ")" ("cfg(" ++ Cfg.display e)) as Hends.
    pose proof (starts_with_app "cfg(" (Cfg.display e ++ ")")) as Hst.
    assert (Hlen : String.length ("cfg(" ++ Cfg.display e ++ ")") - 5 = String.length (Cfg.display e)).
    { simpl. rewrite length_app_str. simpl. lia. }
    change (("cfg(" ++ Cfg.display e) ++ ")") with ("cfg(" ++ Cfg.display e ++ ")") in Hends.
    rewrite Hst, Hends, Hlen. simpl str_drop. by rewrite str_take_app, from_str_display.
  - intros n Hn. unfold platform_from_str, platform_display. by rewrite Hn.
  - intros s. unfold platform_from_str. destruct (_ && _); [|by eexists].
    set (x := str_take _ _). destruct (from_str_total x) as (r & Hr & Hp). rewrite Hr. simpl.
    eexists. split; [done|]. destruct r as [e|e|m]; simpl; [|done..].
    split; [done|]. intros e' [= <-]. by apply from_str_wf in Hr.
Qed.
