(* ===== verification/Summary.v ===== *)
(** Package summaries, [src/cargo/core/summary.rs]: features, their values,
    and the checks that building a summary makes on them. *)
From S2P Require Import Prelude Str Extern SourceId PackageId Cfg Dependency.

Local Open Scope string_scope.

(** [enum FeatureValue] *)
Inductive FeatureValue :=
| Feature (f : string)
| Crate (c : string)
| CrateFeature (c f : string).
#[global] Instance FeatureValue_eq_dec : EqDecision FeatureValue.
Proof. solve_decision. Defined.

(** [type FeatureMap = BTreeMap<InternedString, Vec<FeatureValue>>] *)
Abbreviation FeatureMap := (gmap string (list FeatureValue)).

(** [FeatureValue::build] *)
Definition build (feature : string) (is_feature : string → bool) (namespaced : bool) : FeatureValue :=
  match split_once "/" feature with
  | (dep, Some dep_feat) => CrateFeature dep dep_feat
  | (_, None) =>
      if namespaced then
        if starts_with "crate:" feature then Crate (str_drop 6 feature) else Feature feature
      else if is_feature feature then Feature feature else Crate feature
  end.

Section summary.
Context `{SV : SemverLib} `{UL : UrlLib}.

(** [struct Summary] *)
Record Summary := mkSummary {
  sum_package_id : PackageId;
  sum_dependencies : list Dependency;
  sum_features : FeatureMap;
  sum_checksum : option string;
  sum_links : option string;
  sum_namespaced_features : bool;
}.

Definition nl : string := String (ch 10) EmptyString.

(** [build_feature_map]: the dependencies filed under their names. *)
Definition build_dep_map (dependencies : list Dependency) : gmap string (list Dependency) :=
  foldl (λ m dep, <[name_in_toml dep := (default [] (m !! name_in_toml dep) ++ [dep])%list]> m)
        ∅ dependencies.

Definition value_dep (v : FeatureValue) : string :=
  match v with Feature n | Crate n | CrateFeature n _ => n end.

Definition err_feature_undefined (feature feat : string) (dep_exists : bool) : string :=
  if dep_exists then
    "Feature `" ++ feature ++ "` includes `" ++ feat ++ "` which is not defined as a feature." ++ nl ++
    "A non-optional dependency of the same name is defined; consider adding `optional = true` to its definition"
  else "Feature `" ++ feature ++ "` includes `" ++ feat ++ "` which is not defined as a feature".
Definition err_not_optional (namespaced : bool) (feature dep : string) : string :=
  if namespaced then
    "Feature `" ++ feature ++ "` includes `crate:" ++ dep ++ "` which is not an optional dependency." ++ nl ++
    "Consider adding `optional = true` to the dependency"
  else
    "Feature `" ++ feature ++ "` depends on `" ++ dep ++ "` which is not an optional dependency." ++ nl ++
    "Consider adding `optional = true` to the dependency".
Definition err_unknown_dep (namespaced : bool) (feature dep : string) : string :=
  if namespaced then
    "Feature `" ++ feature ++ "` includes `crate:" ++ dep ++ "` which is not a known dependency"
  else "Feature `" ++ feature ++ "` includes `" ++ dep ++ "` which is neither a dependency nor another feature".
Definition err_unknown_crate_feature (feature dep : string) : string :=
  "Feature `" ++ feature ++ "` requires a feature of `" ++ dep ++ "` which is not a dependency".

(** The check of one value of [feature]; it returns the feature map, to which
    an implicit feature may have been added. *)
Definition check_value (features : gmap string (list string)) (dep_map : gmap string (list Dependency))
    (namespaced : bool) (feature : string) (map : FeatureMap) (val : FeatureValue)
    : cresult FeatureMap :=
  let dep_data := dep_map !! value_dep val in
  let dep_exists := bool_decide (is_Some dep_data) in
  let is_optional_dep := existsb optional (default [] dep_data) in
  match val with
  | Feature feat =>
      let undefined := namespaced && negb (bool_decide (is_Some (features !! feat))) in
      if is_optional_dep then
        if undefined then Ok (<[feat := [Crate feat]]> map) else Ok map
      else if undefined then Err (err_feature_undefined feature feat dep_exists) else Ok map
  | Crate dep =>
      if dep_exists then
        if is_optional_dep then Ok map else Err (err_not_optional namespaced feature dep)
      else Err (err_unknown_dep namespaced feature dep)
  | CrateFeature dep _ =>
      if dep_exists then Ok map else Err (err_unknown_crate_feature feature dep)
  end.

(** Whether the value is the dependency named like the feature. *)
Definition is_own_dep (feature : string) (val : FeatureValue) : bool :=
  match val with Crate dep => String.eqb feature dep | _ => false end.

Fixpoint check_values (features : gmap string (list string)) (dep_map : gmap string (list Dependency))
    (namespaced : bool) (feature : string) (l : list string)
    (map : FeatureMap) (values : list FeatureValue) (found : bool)
    : cresult (FeatureMap * list FeatureValue * bool) :=
  match l with
  | [] => Ok (map, values, found)
  | dep :: l =>
      let val := build dep (λ fs, bool_decide (is_Some (features !! fs))) namespaced in
      let found := found || is_own_dep feature val in
      map ← check_value features dep_map namespaced feature map val;
      check_values features dep_map namespaced feature l map (values ++ [val])%list found
  end.

(** One round of the loop over the features. *)
Definition check_feature (features : gmap string (list string)) (dep_map : gmap string (list Dependency))
    (namespaced : bool) (map : FeatureMap) (kv : string * list string) : cresult FeatureMap :=
  let '(feature, l) := kv in
  dependency_found ←
    (if namespaced then
       match dep_map !! feature with
       | Some dep_data =>
           if negb (existsb optional dep_data) then
             Err ("Feature `" ++ feature ++ "` includes the dependency of the same name, but this is left implicit in the features included by this feature." ++ nl ++
                  "Additionally, the dependency must be marked as optional to be included in the feature definition." ++ nl ++
                  "Consider adding `crate:" ++ feature ++ "` to this feature's requirements and marking the dependency as `optional = true`")
           else Ok false
       | None => Ok true
       end
     else Ok true);
  r ← check_values features dep_map namespaced feature l map [] dependency_found;
  let '(map, values, dependency_found) := (r : FeatureMap * list FeatureValue * bool) in
  if negb dependency_found then
    Err ("Feature `" ++ feature ++ "` includes the optional dependency of the same name, but this is left implicit in the features included by this feature." ++ nl ++
         "Consider adding `crate:" ++ feature ++ "` to this feature's requirements.")
  else Ok (<[feature := values]> map).

Definition build_feature_map (features : gmap string (list string)) (dependencies : list Dependency)
    (namespaced : bool) : cresult FeatureMap :=
  foldM (check_feature features (build_dep_map dependencies) namespaced) ∅ (btree_iter features).

(** [Summary::new] *)
Definition check_dependency (features : gmap string (list string)) (namespaced : bool)
    (u : unit) (dep : Dependency) : cresult unit :=
  let feature := name_in_toml dep in
  if negb namespaced && bool_decide (is_Some (features !! feature)) then
    Err ("Features and dependencies cannot have the same name: `" ++ feature ++ "`")
  else if optional dep && negb (is_transitive dep) then
    Err ("Dev-dependencies are not allowed to be optional: `" ++ feature ++ "`")
  else Ok tt.

Definition new (pkg_id : PackageId) (dependencies : list Dependency)
    (features : gmap string (list string)) (links : option string) (namespaced_features : bool)
    : cresult Summary :=
  _ ← foldM (check_dependency features namespaced_features) tt dependencies;
  feature_map ← build_feature_map features dependencies namespaced_features;
  Ok (mkSummary pkg_id dependencies feature_map None links namespaced_features).

Definition override_id (s : Summary) (id : PackageId) : Summary :=
  mkSummary id (sum_dependencies s) (sum_features s) (sum_checksum s) (sum_links s)
            (sum_namespaced_features s).
Definition set_checksum (s : Summary) (cksum : string) : Summary :=
  mkSummary (sum_package_id s) (sum_dependencies s) (sum_features s) (Some cksum) (sum_links s)
            (sum_namespaced_features s).
Definition map_dependencies (s : Summary) (f : Dependency → Dependency) : Summary :=
  mkSummary (sum_package_id s) (map f (sum_dependencies s)) (sum_features s) (sum_checksum s)
            (sum_links s) (sum_namespaced_features s).
Definition map_source (s : Summary) (to_replace replace_with : SourceId) : Summary :=
  let me := if pid_source_id (sum_package_id s) ==? to_replace
            then override_id s (with_source_id (sum_package_id s) replace_with) else s in
  map_dependencies me (λ dep, Dependency.map_source dep to_replace replace_with).

(** [PartialEq for Summary] *)
Definition summary_eq (a b : Summary) : bool := sum_package_id a ==? sum_package_id b.

(** [FeatureValue::new] and [FeatureValue::to_string] *)
Definition feature_value_new (feature : string) (s : Summary) : FeatureValue :=
  build feature (λ fs, bool_decide (is_Some (sum_features s !! fs))) (sum_namespaced_features s).
Definition feature_value_to_string (v : FeatureValue) (s : Summary) : string :=
  match v with
  | Feature f => f
  | Crate c => if sum_namespaced_features s then "crate:" ++ c else c
  | CrateFeature c f => c ++ "/" ++ f
  end.

(** * Which feature tables are accepted *)
Definition has_dep (deps : list Dependency) (n : string) : bool :=
  existsb (λ d, String.eqb (name_in_toml d) n) deps.
Definition has_optional (deps : list Dependency) (n : string) : bool :=
  existsb (λ d, String.eqb (name_in_toml d) n && optional d) deps.
Definition is_key {A} (m : gmap string A) (k : string) : bool := bool_decide (is_Some (m !! k)).

Section tables.
Context (features : gmap string (list string)) (deps : list Dependency) (ns : bool).

(** The values the strings of a feature stand for. *)
Definition values_of (l : list string) : list FeatureValue :=
  (λ x, build x (is_key features) ns) <$> l.

(** A value names a feature of the table (or, with namespaced features, an
    optional dependency), an optional dependency, or some dependency. *)
Definition valid_value (v : FeatureValue) : bool :=
  match v with
  | Feature f => negb ns || is_key features f || has_optional deps f
  | Crate c => has_optional deps c
  | CrateFeature c _ => has_dep deps c
  end.

(** A namespaced feature named like a dependency must list it explicitly, and
    the dependency must be optional. *)
Definition valid_feature (k : string) (l : list string) : bool :=
  forallb valid_value (values_of l) &&
  (negb (ns && has_dep deps k) ||
   (has_optional deps k && existsb (is_own_dep k) (values_of l))).

Definition valid_dep (d : Dependency) : bool :=
  (ns || negb (is_key features (name_in_toml d))) && (negb (optional d) || is_transitive d).

(** Optional dependencies named by a feature are features themselves. *)
Definition implicit (k : string) : Prop :=
  ns = true ∧ ∃ k' l, features !! k' = Some l ∧ Feature k ∈ values_of l.

Lemma build_dep_map_aux l (m : gmap string (list Dependency)) n :
  foldl (λ m dep, <[name_in_toml dep := (default [] (m !! name_in_toml dep) ++ [dep])%list]> m) m l !! n =
  if has_dep l n
  then Some (default [] (m !! n) ++ filter (λ d, name_in_toml d = n) l)%list else m !! n.
Proof.
  revert m. induction l as [|d l IH]; intros m; simpl; [done|].
  rewrite IH. rewrite lookup_insert, filter_cons.
  destruct (String.eqb_spec (name_in_toml d) n) as [Hn|Hn]; simpl.
  - rewrite decide_True, decide_True by done. simpl. rewrite Hn, <-app_assoc. simpl.
    destruct (has_dep l n) eqn:Hl; [done|].
    assert (Hnil : filter (λ d, name_in_toml d = n) l = []).
    { apply elem_of_nil_inv. intros x [Hx Hin]%list_elem_of_filter.
      assert (has_dep l n = true); [|congruence].
      apply existsb_exists. exists x. split; [by apply list_elem_of_In|by apply String.eqb_eq]. }
    by rewrite Hnil.
  - by rewrite decide_False, decide_False by done.
Qed.

Lemma build_dep_map_lookup n :
  build_dep_map deps !! n =
  if has_dep deps n then Some (filter (λ d, name_in_toml d = n) deps) else None.
Proof.
  unfold build_dep_map. rewrite build_dep_map_aux, lookup_empty. done.
Qed.

Lemma existsb_optional n :
  existsb optional (filter (λ d, name_in_toml d = n) deps) = has_optional deps n.
Proof.
  unfold has_optional. induction deps as [|d l IH]; simpl; [done|].
  rewrite filter_cons. destruct (String.eqb_spec (name_in_toml d) n) as [Hn|Hn].
  - rewrite decide_True by done. simpl. by rewrite IH.
  - by rewrite decide_False by done.
Qed.

Lemma has_optional_dep n : has_optional deps n = true → has_dep deps n = true.
Proof.
  unfold has_optional, has_dep. rewrite !existsb_exists.
  intros (d & Hd & [H1 H2]%andb_true_iff). eauto.
Qed.

(** What a valid value adds to the map. *)
Definition add_implicit (m : FeatureMap) (v : FeatureValue) : FeatureMap :=
  match v with
  | Feature f => if ns && negb (is_key features f) then <[f := [Crate f]]> m else m
  | _ => m
  end.

Lemma check_value_spec k m v :
  match check_value features (build_dep_map deps) ns k m v with
  | Ok m' => valid_value v = true ∧ m' = add_implicit m v
  | Err _ => valid_value v = false
  | Panic _ => False
  end.
Proof.
  unfold check_value, valid_value, add_implicit. rewrite build_dep_map_lookup. fold (@is_key (list string)).
  assert (Hopt : existsb optional (default [] (if has_dep deps (value_dep v)
      then Some (filter (λ d, name_in_toml d = value_dep v) deps) else None)) =
      has_optional deps (value_dep v)).
  { destruct (has_dep deps (value_dep v)) eqn:Hd; simpl; [apply existsb_optional|].
    destruct (has_optional deps (value_dep v)) eqn:Ho; [|done].
    apply has_optional_dep in Ho. congruence. }
  rewrite Hopt. pose proof (has_optional_dep (value_dep v)) as Himp.
  assert (Hex : bool_decide (is_Some (if has_dep deps (value_dep v)
      then Some (filter (λ d, name_in_toml d = value_dep v) deps) else None)) = has_dep deps (value_dep v)).
  { destruct (has_dep _ _); [by apply bool_decide_eq_true_2|].
    apply bool_decide_eq_false_2. by intros []. }
  rewrite Hex. destruct v as [f|c|c f]; simpl in *.
  - change (bool_decide (is_Some (features !! f))) with (is_key features f).
    by destruct ns, (is_key features f), (has_optional deps f).
  - destruct (has_dep deps c), (has_optional deps c); try done.
  - by destruct (has_dep deps c).
Qed.

Lemma check_values_spec k l m vs b :
  match check_values features (build_dep_map deps) ns k l m vs b with
  | Ok (m', vs', b') =>
      forallb valid_value (values_of l) = true ∧ vs' = (vs ++ values_of l)%list ∧
      b' = b || existsb (is_own_dep k) (values_of l) ∧ m' = foldl add_implicit m (values_of l)
  | Err _ => forallb valid_value (values_of l) = false
  | Panic _ => False
  end.
Proof.
  revert m vs b. induction l as [|x l IH]; intros m vs b; simpl.
  - by rewrite app_nil_r, orb_false_r.
  - set (v := build x _ ns). pose proof (check_value_spec k m v) as Hv.
    change (build x (is_key features) ns) with v.
    destruct (check_value _ _ _ _ m v) as [m1|e|p]; simpl; [| |done].
    + destruct Hv as [-> ->]. specialize (IH (add_implicit m v) (vs ++ [v])%list (b || is_own_dep k v)).
      destruct (check_values _ _ _ _ _ _ _ _) as [[[m2 vs2] b2]|e|p]; [|done|done].
      destruct IH as (H1 & H2 & H3 & H4). split_and!; [done| | |done].
      * by rewrite H2, <-app_assoc.
      * by rewrite H3, orb_assoc.
    + by rewrite Hv.
Qed.

Lemma foldl_add_implicit m vs k :
  foldl add_implicit m vs !! k =
  if decide (ns = true ∧ is_key features k = false ∧ Feature k ∈ vs)
  then Some [Crate k] else m !! k.
Proof.
  revert m. induction vs as [|v vs IH]; intros m; simpl.
  - rewrite decide_False; [done|]. intros (_ & _ & H). by apply elem_of_nil in H.
  - rewrite IH. unfold add_implicit. clear IH.
    destruct (decide (ns = true ∧ is_key features k = false ∧ Feature k ∈ vs)) as [(H1 & H2 & H3)|Hn].
    { rewrite decide_True; [done|]. split_and!; [done..|]. by constructor. }
    destruct (decide (v = Feature k)) as [->|Hv].
    + destruct ns, (is_key features k) eqn:Hk; simpl.
      * done.
      * rewrite lookup_insert_eq. rewrite decide_True; [done|]. split_and!; [done..|constructor].
      * done.
      * done.
    + rewrite (decide_False (P := ns = true ∧ is_key features k = false ∧ Feature k ∈ v :: vs)).
      2: { rewrite elem_of_cons. intros (? & ? & [?|?]); [congruence|tauto]. }
      destruct v as [f|c|c f]; try done. destruct (ns && negb (is_key features f)); [|done].
      rewrite lookup_insert_ne; [done|congruence].
Qed.

Lemma check_feature_spec m k l :
  match check_feature features (build_dep_map deps) ns m (k, l) with
  | Ok m' => valid_feature k l = true ∧ m' = <[k := values_of l]> (foldl add_implicit m (values_of l))
  | Err _ => valid_feature k l = false
  | Panic _ => False
  end.
Proof.
  unfold check_feature, valid_feature. rewrite build_dep_map_lookup.
  set (init := if ns then _ else _).
  assert (Hinit : match init with
    | Ok b => b = negb (ns && has_dep deps k) ∧ negb (ns && has_dep deps k) || has_optional deps k = true
    | Err _ => ns && has_dep deps k = true ∧ has_optional deps k = false
    | Panic _ => False end).
  { unfold init. destruct ns; [|done]. destruct (has_dep deps k); simpl; [|done].
    rewrite existsb_optional. by destruct (has_optional deps k). }
  destruct init as [b|e|p]; simpl; [| |done].
  2: { destruct Hinit as [-> ->]. by rewrite andb_false_r. }
  destruct Hinit as [-> Hb]. pose proof (check_values_spec k l m [] (negb (ns && has_dep deps k))) as Hc.
  destruct (check_values _ _ _ _ _ _ _ _) as [[[m' vs] b']|e|p]; simpl; [| |done].
  - destruct Hc as (-> & -> & -> & ->).
    destruct (ns && has_dep deps k), (has_optional deps k), (existsb _ _); simpl in *; done.
  - by rewrite Hc.
Qed.

Lemma check_features_spec L m :
  (∀ k l, (k, l) ∈ L → features !! k = Some l) →
  match foldM (check_feature features (build_dep_map deps) ns) m L with
  | Ok m' => (∀ k l, (k, l) ∈ L → valid_feature k l = true) ∧
      ∀ k, m' !! k =
        if decide (k ∈ L.*1) then values_of <$> features !! k
        else if decide (ns = true ∧ is_key features k = false ∧
                        Exists (λ p, Feature k ∈ values_of p.2) L)
             then Some [Crate k] else m !! k
  | Err _ => ∃ k l, (k, l) ∈ L ∧ valid_feature k l = false
  | Panic _ => False
  end.
Proof.
  revert m. induction L as [|[k l] L IH]; intros m HL; cbn [foldM].
  - split; [intros k l Hin; by apply elem_of_nil in Hin|]. intros k.
    rewrite decide_False by apply not_elem_of_nil.
    rewrite decide_False; [done|]. intros (_ & _ & He). by apply Exists_nil in He.
  - pose proof (check_feature_spec m k l) as Hf.
    destruct (check_feature _ _ _ m (k, l)) as [m1|e|p]; [| |done].
    2: { exists k, l. split; [constructor|done]. }
    destruct Hf as [Hvalid ->].
    specialize (IH (<[k:=values_of l]> (foldl add_implicit m (values_of l)))
      (λ k' l' Hin, HL k' l' (list_elem_of_further _ _ _ Hin))).
    destruct (foldM _ _ L) as [m'|e|p]; [| |done].
    2: { destruct IH as (k' & l' & Hin & Hv). exists k', l'. split; [by constructor|done]. }
    destruct IH as [IHv IHm]. split.
    { intros k' l' [[= -> ->]|Hin]%elem_of_cons; [done|by apply IHv]. }
    intros k'. rewrite IHm. clear IHm IHv. rewrite fmap_cons. simpl.
    destruct (decide (k' ∈ L.*1)) as [Hk|Hk].
    { rewrite decide_True; [done|]. by constructor. }
    destruct (decide (k' = k)) as [->|Hne].
    { rewrite (decide_True (P := k ∈ k :: L.*1)) by constructor.
      assert (Hkey : features !! k = Some l) by (apply HL; constructor).
      rewrite decide_False; [by rewrite lookup_insert_eq, Hkey|].
      unfold is_key. rewrite Hkey. intros (_ & Hb & _). apply bool_decide_eq_false in Hb. eauto. }
    rewrite (decide_False (P := k' ∈ k :: L.*1)) by (rewrite elem_of_cons; tauto).
    rewrite lookup_insert_ne, foldl_add_implicit by done.
    pose proof (Exists_cons (λ p, Feature k' ∈ values_of p.2) (k, l) L) as Hcons.
    simpl in Hcons. clear -Hcons.
    destruct (decide (ns = true ∧ is_key features k' = false ∧ Exists _ L)) as [H1|H1],
      (decide (ns = true ∧ is_key features k' = false ∧ Feature k' ∈ values_of l)) as [H2|H2],
      (decide (ns = true ∧ is_key features k' = false ∧ Exists _ ((k, l) :: L))) as [H3|H3];
      done || tauto.
Qed.

Definition valid_table : Prop :=
  (∀ d, d ∈ deps → valid_dep d = true) ∧
  ∀ k l, features !! k = Some l → valid_feature k l = true.

Lemma check_dependencies_spec l :
  match foldM (check_dependency features ns) tt l with
  | Ok _ => ∀ d, d ∈ l → valid_dep d = true
  | Err _ => ∃ d, d ∈ l ∧ valid_dep d = false
  | Panic _ => False
  end.
Proof.
  induction l as [|d l IH]; simpl.
  - intros d Hd. by apply elem_of_nil in Hd.
  - unfold check_dependency at 1. fold (@is_key (list string) features (name_in_toml d)).
    destruct (negb ns && is_key features (name_in_toml d)) eqn:H1.
    { exists d. split; [constructor|]. unfold valid_dep. by destruct ns, (is_key _ _). }
    destruct (optional d && negb (is_transitive d)) eqn:H2.
    { exists d. split; [constructor|]. unfold valid_dep.
      destruct ns, (is_key _ _), (optional d), (is_transitive d); done. }
    destruct (foldM _ tt l) as [u|e|p]; [| |done].
    + intros d' [->|Hd]%elem_of_cons; [|by apply IH]. unfold valid_dep.
      destruct ns, (is_key _ _), (optional d), (is_transitive d); done.
    + destruct IH as (d' & Hd & Hv). exists d'. split; [by constructor|done].
Qed.

(** The features of the summary: those of the table, and the implicit ones. *)
Definition table_features (m : FeatureMap) : Prop :=
  ∀ k, match features !! k with
       | Some l => m !! k = Some (values_of l)
       | None => (is_Some (m !! k) → m !! k = Some [Crate k]) ∧ (is_Some (m !! k) ↔ implicit k)
       end.

Lemma build_feature_map_spec :
  match build_feature_map features deps ns with
  | Ok m => (∀ k l, features !! k = Some l → valid_feature k l = true) ∧ table_features m
  | Err _ => ¬ ∀ k l, features !! k = Some l → valid_feature k l = true
  | Panic _ => False
  end.
Proof.
  unfold build_feature_map.
  pose proof (check_features_spec (btree_iter features) ∅
    (λ k l Hin, proj1 (elem_of_btree_iter _ _ _) Hin)) as Hs.
  destruct (foldM _ ∅ _) as [m|e|p]; [| |done].
  - destruct Hs as [Hv Hm]. split.
    { intros k l Hk. by apply Hv, elem_of_btree_iter. }
    intros k. specialize (Hm k). destruct (features !! k) as [l|] eqn:Hk.
    + rewrite decide_True in Hm; [done|]. apply list_elem_of_fmap. exists (k, l).
      split; [done|by apply elem_of_btree_iter].
    + rewrite decide_False in Hm.
      2: { intros ([k' l] & -> & Hin)%list_elem_of_fmap. apply elem_of_btree_iter in Hin. simpl in *.
           congruence. }
      assert (Hkey : is_key features k = false)
        by (apply bool_decide_eq_false_2; rewrite Hk; by intros []).
      assert (Himp : Exists (λ p, Feature k ∈ values_of p.2) (btree_iter features) ↔
                     ∃ k' l, features !! k' = Some l ∧ Feature k ∈ values_of l).
      { rewrite Exists_exists. split.
        - intros ([k' l] & Hin & Hf). apply elem_of_btree_iter in Hin. eauto.
        - intros (k' & l & Hin & Hf). exists (k', l). by rewrite elem_of_btree_iter. }
      unfold implicit. rewrite <-Himp. rewrite Hm, lookup_empty. clear -Hkey.
      case_decide as Hd.
      * split; [done|]. split; [tauto|eauto].
      * split; [intros Hx; by apply is_Some_None in Hx|].
        split; [intros Hx; by apply is_Some_None in Hx|tauto].
  - intros Hall. destruct Hs as (k & l & Hin & Hv). apply elem_of_btree_iter in Hin.
    rewrite (Hall _ _ Hin) in Hv. done.
Qed.

(** Every value of a feature refers to something that exists. *)
Definition closed (m : FeatureMap) : Prop :=
  ∀ k vs v, m !! k = Some vs → v ∈ vs →
    match v with
    | Feature f => is_Some (m !! f)
    | Crate c => ∃ d, d ∈ deps ∧ name_in_toml d = c ∧ optional d = true ∧ is_transitive d = true
    | CrateFeature c _ => ∃ d, d ∈ deps ∧ name_in_toml d = c
    end.

Lemma has_optional_true c :
  valid_table → has_optional deps c = true →
  ∃ d, d ∈ deps ∧ name_in_toml d = c ∧ optional d = true ∧ is_transitive d = true.
Proof.
  intros [Hd _] (d & Hin & [Hn%String.eqb_eq Ho]%andb_true_iff)%existsb_exists.
  apply list_elem_of_In in Hin. exists d. split_and!; try done.
  pose proof (Hd d Hin) as Hv. unfold valid_dep in Hv. rewrite Ho in Hv.
  by apply andb_true_iff in Hv as [_ Hv].
Qed.

Lemma build_Feature x f :
  build x (is_key features) ns = Feature f → f = x ∧ (ns = true ∨ is_key features x = true).
Proof.
  unfold build. destruct (split_once "/" x) as [a [b|]]; [done|].
  destruct ns; [destruct (starts_with _ _); [done|]|destruct (is_key _ _) eqn:Hk; [|done]];
    intros [= ->]; auto.
Qed.

Lemma valid_value_in k l v :
  valid_table → features !! k = Some l → v ∈ values_of l → valid_value v = true.
Proof.
  intros [_ Hv] Hk Hin. specialize (Hv k l Hk). unfold valid_feature in Hv.
  apply andb_true_iff in Hv as [Hv _]. rewrite forallb_forall in Hv.
  apply Hv. by apply list_elem_of_In.
Qed.

Lemma table_closed m : valid_table → table_features m → closed m.
Proof.
  intros Hvt Hm k vs v Hk Hv. pose proof (Hm k) as Hmk.
  destruct (features !! k) as [l|] eqn:Hfk.
  - assert (vs = values_of l) as -> by congruence.
    pose proof (valid_value_in k l v Hvt Hfk Hv) as Hval.
    destruct v as [f|c|c f]; simpl in Hval.
    + pose proof (Hm f) as Hmf. destruct (features !! f) as [lf|] eqn:Hf; [rewrite Hmf; eauto|].
      apply Hmf. pose proof Hv as Hv'. apply list_elem_of_fmap in Hv' as (x & Hx & _).
      symmetry in Hx. apply build_Feature in Hx as [-> [Hns|Hkey]].
      * split; [done|]. eauto.
      * unfold is_key in Hkey. rewrite Hf in Hkey. by apply bool_decide_eq_true in Hkey as [].
    + by apply has_optional_true.
    + apply existsb_exists in Hval as (d & Hin & Hn%String.eqb_eq).
      apply list_elem_of_In in Hin. eauto.
  - destruct Hmk as [Hmk Himp]. assert (Hs : is_Some (m !! k)) by (rewrite Hk; eauto).
    assert (vs = [Crate k]) as -> by (specialize (Hmk Hs); congruence).
    apply list_elem_of_singleton in Hv as ->. apply Himp in Hs as (Hns & k' & l & Hk' & Hin).
    pose proof (valid_value_in k' l _ Hvt Hk' Hin) as Hval. simpl in Hval.
    rewrite Hns in Hval. unfold is_key in Hval. rewrite Hfk in Hval.
    rewrite bool_decide_eq_false_2 in Hval by (by intros []). by apply has_optional_true.
Qed.
End tables.

Lemma new_cases pkg deps features links ns :
  match new pkg deps features links ns with
  | Ok s => valid_table features deps ns ∧ sum_package_id s = pkg ∧ sum_dependencies s = deps ∧
      sum_checksum s = None ∧ sum_links s = links ∧ sum_namespaced_features s = ns ∧
      table_features features ns (sum_features s) ∧ closed deps (sum_features s)
  | Err _ => ¬ valid_table features deps ns
  | Panic _ => False
  end.
Proof.
  unfold new. pose proof (check_dependencies_spec features ns deps) as Hd.
  destruct (foldM _ tt deps) as [u|e|p]; simpl; [| |done].
  2: { intros [Hv _]. destruct Hd as (d & Hin & Hf). rewrite (Hv d Hin) in Hf. done. }
  pose proof (build_feature_map_spec features deps ns) as Hb.
  destruct (build_feature_map features deps ns) as [m|e|p]; simpl; [| |done].
  - destruct Hb as [Hv Hm]. split_and!; try done. by apply (table_closed features deps ns).
  - intros [_ Hv]. by apply Hb.
Qed.

(** [Summary::new] succeeds exactly on the valid feature tables, and never
    panics.  It then records the table's features with their values, adds one
    feature for each optional dependency that a namespaced feature names, and
    the result is closed: every value refers to a feature of the summary, to
    an optional non-development dependency, or to a dependency. *)
Theorem new_spec pkg deps features links ns :
  match new pkg deps features links ns with
  | Ok s => valid_table features deps ns ∧ sum_package_id s = pkg ∧ sum_dependencies s = deps ∧
      sum_checksum s = None ∧ sum_links s = links ∧ sum_namespaced_features s = ns ∧
      table_features features ns (sum_features s) ∧ closed deps (sum_features s)
  | Err _ => ¬ valid_table features deps ns
  | Panic _ => False
  end.
Proof. apply new_cases. Qed.

Lemma build_string ns (features : gmap string (list string)) x (key : string → bool) :
  (ns = false → ∀ f, key f = is_key features f) →
  build (match build x (is_key features) ns with
         | Feature f => f
         | Crate c => if ns then "crate:" ++ c else c
         | CrateFeature c f => c ++ "/" ++ f
         end) key ns = build x (is_key features) ns.
Proof.
  intros Hkey. unfold build at 2 3. destruct (split_once "/" x) as [a [b|]] eqn:Hs.
  - apply split_once_Some in Hs as [_ Ha]. unfold build.
    change (a ++ "/" ++ b) with (a ++ String "/" b). by rewrite split_once_app.
  - destruct ns eqn:Hns.
    + destruct (starts_with "crate:" x) eqn:Hc.
      * apply starts_with_spec in Hc as [r ->]. change (str_drop 6 ("crate:" ++ r)) with r.
        unfold build. rewrite Hs, starts_with_app. done.
      * unfold build. by rewrite Hs, Hc.
    + unfold build. destruct (is_key features x) eqn:Hk; rewrite Hs, Hkey, Hk; done.
Qed.

(** For every value of a summary that [Summary::new] built, [to_string]
    gives a text that [FeatureValue::new] reads back as that value. *)
Theorem feature_value_roundtrip pkg deps features links ns s k vs v
    (Hnew : new pkg deps features links ns = Ok s)
    (Hk : sum_features s !! k = Some vs) (Hv : v ∈ vs) :
  feature_value_new (feature_value_to_string v s) s = v.
Proof.
  pose proof (new_cases pkg deps features links ns) as Hc. rewrite Hnew in Hc.
  destruct Hc as (_ & _ & _ & _ & _ & Hns & Hm & _).
  unfold feature_value_new, feature_value_to_string. rewrite Hns.
  pose proof (Hm k) as Hmk. destruct (features !! k) as [l|] eqn:Hfk.
  - assert (vs = values_of features ns l) as -> by congruence.
    apply list_elem_of_fmap in Hv as (x & -> & _). apply build_string.
    intros Hf f. unfold is_key. apply bool_decide_ext. specialize (Hm f).
    destruct (features !! f) as [lf|]; [rewrite Hm; split; eauto|].
    destruct Hm as [_ Hi]. rewrite Hi. unfold implicit. split; [|by intros Hx%is_Some_None].
    intros [Ht _]. congruence.
  - destruct Hmk as [Hmk Himp]. assert (Hs : is_Some (sum_features s !! k)) by (rewrite Hk; eauto).
    assert (vs = [Crate k]) as -> by (specialize (Hmk Hs); congruence).
    apply list_elem_of_singleton in Hv as ->. apply Himp in Hs as (-> & k' & l & _ & Hin).
    apply list_elem_of_fmap in Hin as (x & Hx & _). symmetry in Hx.
    unfold build in Hx. destruct (split_once "/" x) as [a [b|]] eqn:Hsx; [done|].
    destruct (starts_with "crate:" x); [done|]. injection Hx as ->.
    apply split_once_None in Hsx as [-> Hsl]. unfold build.
    rewrite split_once_none by done. by rewrite starts_with_app.
Qed.
End summary.

Section runs.
Local Existing Instance sem_lib.
Local Existing Instance hier_lib.

Definition opt_dep (name : string) : Dependency :=
  mkDependency name PackageId.crates_io None (SemCaret (1, 0, 0)) true Normal false None
               true true [] None.
Definition sample_features : gmap string (list string) :=
  {[ "default" := ["std"; "serde"]; "std" := ["log/std"] ]}.

Lemma feature_value_roundtrip_witness :
  ∃ s, new (PackageId.foo (1, 0, 0)) [opt_dep "serde"; opt_dep "log"] sample_features None true = Ok s ∧
    feature_value_new (feature_value_to_string (Crate "serde") s) s = Crate "serde".
Proof.
  destruct (new (PackageId.foo (1, 0, 0)) [opt_dep "serde"; opt_dep "log"] sample_features None true)
    as [s|e|m] eqn:Hnew.
  - exists s. split; [done|].
    refine (feature_value_roundtrip _ _ _ _ _ s "serde" [Crate "serde"] (Crate "serde") Hnew _ _).
    + assert (Hs : (match new (PackageId.foo (1, 0, 0)) [opt_dep "serde"; opt_dep "log"]
                            sample_features None true with
                    | Ok s => sum_features s !! "serde" | _ => None end) = Some [Crate "serde"]) by vm_eq.
      by rewrite Hnew in Hs.
    + constructor.
  - assert (Hok : is_ok (new (PackageId.foo (1, 0, 0)) [opt_dep "serde"; opt_dep "log"]
                            sample_features None true) = true) by vm_eq.
    by rewrite Hnew in Hok.
  - assert (Hok : is_ok (new (PackageId.foo (1, 0, 0)) [opt_dep "serde"; opt_dep "log"]
                            sample_features None true) = true) by vm_eq.
    by rewrite Hnew in Hok.
Defined.
End runs.
