(* ===== verification/ResTypes.v ===== *)
(** Data of the dependency resolver, [src/cargo/core/resolver/types.rs]:
    candidates, conflict reasons, the caching registry queryer, and the heap of
    dependencies that remain to be resolved. *)
From S2P Require Import Prelude Str Extern SourceId PackageId Dependency Summary.

Local Open Scope string_scope.

(** * Shared iterators *)

(** [RcVecIter<T>]: a shared vector and the range still to be visited. *)
Record RcVecIter (T : Type) := mkIter { vec : list T; rest : nat * nat }.
Arguments mkIter {T} vec rest.
Arguments vec {T} _.
Arguments rest {T} _.

Section rc_vec_iter.
Context {T : Type}.

Definition iter_new (v : list T) : RcVecIter T := mkIter v (0, length v).
Definition range_next (r : nat * nat) : option nat * (nat * nat) :=
  if (r.1 <? r.2)%nat then (Some r.1, (S r.1, r.2)) else (None, r).
Definition iter_peek (it : RcVecIter T) : option (nat * T) :=
  i ← (range_next (rest it)).1; val ← vec it !! i; Some (i, val).
Definition iter_next (it : RcVecIter T) : option (nat * T) * RcVecIter T :=
  let '(i, r) := range_next (rest it) in
  (i ← i; val ← vec it !! i; Some (i, val), mkIter (vec it) r).

(** What the iterator has not visited yet. *)
Definition iter_rest (it : RcVecIter T) : list T :=
  take ((rest it).2 - (rest it).1) (drop (rest it).1 (vec it)).
Definition iter_wf (it : RcVecIter T) : Prop :=
  ((rest it).1 ≤ (rest it).2 ∧ (rest it).2 ≤ length (vec it))%nat.

Lemma iter_new_wf v : iter_wf (iter_new v).
Proof. unfold iter_wf. simpl. lia. Qed.

Lemma iter_new_rest v : iter_rest (iter_new v) = v.
Proof. unfold iter_rest. simpl. by rewrite drop_0, Nat.sub_0_r, firstn_all. Qed.

Lemma iter_next_spec it :
  iter_wf it →
  match iter_next it with
  | (Some (i, x), it') => iter_rest it = x :: iter_rest it' ∧ iter_wf it' ∧ vec it' = vec it ∧
      (rest it').2 = (rest it).2 ∧ vec it !! i = Some x ∧ (rest it').1 = S i
  | (None, it') => iter_rest it = [] ∧ it' = it
  end.
Proof.
  destruct it as [v [a b]]. unfold iter_wf, iter_next, iter_rest, range_next. simpl. intros [Hab Hb].
  destruct (Nat.ltb_spec a b) as [Hlt|Hge]; simpl.
  - destruct (lookup_lt_is_Some_2 v a ltac:(lia)) as [x Hx]. rewrite Hx. simpl. split_and!; try done; try lia.
    rewrite (drop_S v x a) by done. replace (b - a) with (S (b - S a)) by lia. done.
  - replace (b - a) with 0 by lia. done.
Qed.

Lemma iter_peek_spec it : iter_wf it → snd <$> iter_peek it = head (iter_rest it).
Proof.
  intros Hwf. pose proof (iter_next_spec it Hwf) as Hn.
  assert (Hp : iter_peek it = (iter_next it).1).
  { unfold iter_peek, iter_next. by destruct (range_next (rest it)). }
  rewrite Hp. destruct (iter_next it) as [[[i x]|] it']; simpl.
  - by destruct Hn as [-> _].
  - by destruct Hn as [-> _].
Qed.
End rc_vec_iter.

(** * Conflicts *)

(** [enum ConflictReason] *)
Inductive ConflictReason :=
| Semver
| Links (link : string)
| MissingFeatures (features : string).
#[global] Instance ConflictReason_eq_dec : EqDecision ConflictReason.
Proof. solve_decision. Defined.
Definition is_links (r : ConflictReason) : bool := match r with Links _ => true | _ => false end.
Definition is_missing_features (r : ConflictReason) : bool :=
  match r with MissingFeatures _ => true | _ => false end.

Definition bool_cmp (a b : bool) : comparison :=
  match a, b with
  | false, true => Lt
  | true, false => Gt
  | _, _ => Eq
  end.

Section types.
Context `{SV : SemverLib} `{UL : UrlLib} `{RS : RustStd}.

(** [enum ActivateError]; a fatal error carries its message. *)
Inductive ActivateError :=
| Fatal (e : string)
| Conflict (id : PackageId) (reason : ConflictReason).

(** [enum Method] *)
Inductive Method :=
| Everything
| Required (dev_deps : bool) (features : list string) (all_features uses_default_features : bool).

(** [struct Candidate] *)
Record Candidate := mkCandidate { cand_summary : Summary; cand_replace : option Summary }.

(** [type DepInfo] *)
Abbreviation DepInfo := (Dependency * list Candidate * list string)%type.

(** [enum GraphNode] *)
Inductive GraphNode :=
| GAdd (p : PackageId)
| GLink (a b : PackageId) (d : Dependency).

(** * The registry *)

(** The [Registry] trait; the resolver relies on it to return the same results
    for the same query every time. *)
Class Registry := {
  registry_query : Dependency → bool → cresult (list Summary);  (* the flag is [fuzzy] *)
  describe_source : SourceId → string;
  is_replaced : SourceId → bool;
}.

(** [struct RegistryQueryer], without the registry itself. *)
Record RegistryQueryer := mkQueryer {
  replacements : list (PackageIdSpec * Dependency);
  try_to_use : hashset PackageId;
  cache : hashmap Dependency (list Candidate);
  minimal_versions : bool;
}.

Context `{RG : !Registry}.

(** [RegistryQueryer::new] *)
Definition queryer_new (replacements : list (PackageIdSpec * Dependency))
    (try_to_use : hashset PackageId) (minimal_versions : bool) : RegistryQueryer :=
  mkQueryer replacements try_to_use ∅ minimal_versions.

Definition nl : string := String (ch 10) EmptyString.

(** The override of one candidate: the first replacement whose specification
    matches it is looked up in the registry. *)
Definition override (repls : list (PackageIdSpec * Dependency)) (summary : Summary)
    : cresult (option Summary) :=
  match filter (λ r, matches r.1 (sum_package_id summary) = true) repls with
  | [] => Ok None
  | (spec, dep) :: potential_matches =>
      summaries ← registry_query dep false;
      match summaries with
      | [] =>
          spec ← spec_display spec; src ← SourceId.display (dep_source_id dep);
          Err ("no matching package for override `" ++ spec ++ "` found" ++ nl ++
               "location searched: " ++ src ++ nl ++
               "version required: " ++ req_to_string (dep_req dep))
      | s :: (_ :: _) as summaries =>
          spec ← spec_display spec; first ← PackageId.display (sum_package_id s);
          bullets ← foldM (λ l s, d ← PackageId.display (sum_package_id s);
                                  let bullet := "  * " ++ d in
                                  Ok (l ++ [bullet])%list) ([] : list string) (tail summaries);
          Err ("the replacement specification `" ++ spec ++ "` matched multiple packages:" ++ nl ++
               "  * " ++ first ++ nl ++ join nl bullets)
      | [s] =>
          if negb (pid_version (sum_package_id s) ==? pid_version (sum_package_id summary)) then
            Panic "assertion failed: `(left == right)`"
          else if negb (String.eqb (pid_name (sum_package_id s)) (pid_name (sum_package_id summary))) then
            Panic "assertion failed: `(left == right)`"
          else
            let replace := if pid_source_id (sum_package_id s) ==? pid_source_id (sum_package_id summary)
                           then None else Some s in
            match potential_matches with
            | (spec', _) :: _ =>
                spec ← spec_display spec; spec' ← spec_display spec';
                id ← PackageId.display (sum_package_id summary);
                Err ("overlapping replacement specifications found:" ++ nl ++ nl ++ "  * " ++ spec ++
                     nl ++ "  * " ++ spec' ++ nl ++ nl ++ "both specifications match: " ++ id)
            | [] => Ok replace
            end
      end
  end.

(** The order in which candidates are tried: those of the previous lock file
    first, then by version. *)
Definition candidate_cmp (q : RegistryQueryer) (a b : Candidate) : comparison :=
  let a_in_previous := hcontains (try_to_use q) (sum_package_id (cand_summary a)) in
  let b_in_previous := hcontains (try_to_use q) (sum_package_id (cand_summary b)) in
  match CompOpp (bool_cmp a_in_previous b_in_previous) with
  | Eq =>
      let cmp := version_cmp (pid_version (sum_package_id (cand_summary a)))
                             (pid_version (sum_package_id (cand_summary b))) in
      if minimal_versions q then cmp else CompOpp cmp
  | o => o
  end.

(** [RegistryQueryer::query] *)
Definition query_candidates (q : RegistryQueryer) (dep : Dependency) : cresult (list Candidate) :=
  summaries ← registry_query dep false;
  ret ← foldM (λ l s, r ← override (replacements q) s; Ok (l ++ [mkCandidate s r])%list) ([] : list Candidate) summaries;
  Ok (sort_unstable_by (candidate_cmp q) ret).

Definition query (q : RegistryQueryer) (dep : Dependency)
    : cresult (list Candidate) * RegistryQueryer :=
  match hget (cache q) dep with
  | Some out => (Ok out, q)
  | None =>
      match query_candidates q dep with
      | Ok out => (Ok out, mkQueryer (replacements q) (try_to_use q)
                                     (hinsert dep out (cache q)) (minimal_versions q))
      | Err e => (Err e, q)
      | Panic m => (Panic m, q)
      end
  end.

(** * Frames *)

(** [struct DepsFrame] *)
Record DepsFrame := mkFrame {
  frame_parent : Summary;
  just_for_error_messages : bool;
  remaining_siblings : RcVecIter DepInfo;
}.

Definition min_candidates (f : DepsFrame) : nat :=
  match iter_peek (remaining_siblings f) with
  | Some (_, (_, candidates, _)) => length candidates
  | None => 0
  end.

Definition flatten (f : DepsFrame) : list (PackageId * Dependency) :=
  (λ info : DepInfo, (sum_package_id (frame_parent f), info.1.1)) <$> iter_rest (remaining_siblings f).

(** [Ord for DepsFrame] *)
Definition frame_cmp (a b : DepsFrame) : comparison :=
  match bool_cmp (just_for_error_messages a) (just_for_error_messages b) with
  | Eq => CompOpp (Nat.compare (min_candidates a) (min_candidates b))
  | o => o
  end.

(** [struct RemainingDeps], a binary heap of frames. *)
Abbreviation RemainingDeps := (list DepsFrame).
Definition push (x : DepsFrame) (r : RemainingDeps) : RemainingDeps := heap_push frame_cmp x r.

(** [pop_most_constrained]; each round takes a frame out of the heap, so its
    size bounds the number of rounds. *)
Fixpoint pop_loop (fuel : nat) (r : RemainingDeps)
    : option (bool * (Summary * (nat * DepInfo))) * RemainingDeps :=
  match fuel with
  | O => (None, r)
  | S fuel =>
      match heap_pop frame_cmp r with
      | None => (None, r)
      | Some (f, r) =>
          match iter_next (remaining_siblings f) with
          | (Some sibling, it) =>
              (Some (just_for_error_messages f, (frame_parent f, sibling)),
               push (mkFrame (frame_parent f) (just_for_error_messages f) it) r)
          | (None, _) => pop_loop fuel r
          end
      end
  end.
Definition pop_most_constrained (r : RemainingDeps) := pop_loop (S (length r)) r.

(** [RemainingDeps::iter] *)
Definition remaining_iter (r : RemainingDeps) : list (PackageId * Dependency) := r ≫= flatten.

(** * Queries *)

(** The registry answers equal dependencies alike. *)
Definition registry_respects_eq : Prop :=
  ∀ d d' fuzzy, to_key d = to_key d' → registry_query d fuzzy = registry_query d' fuzzy.

(** Every cached answer is what the registry would give. *)
Definition cache_ok (q : RegistryQueryer) : Prop :=
  ∀ d l, hget (cache q) d = Some l → query_candidates q d = Ok l.

Lemma query_candidates_key q q' d d' :
  registry_respects_eq → to_key d = to_key d' →
  replacements q = replacements q' → try_to_use q = try_to_use q' →
  minimal_versions q = minimal_versions q' → query_candidates q d = query_candidates q' d'.
Proof.
  intros Hr Hk. destruct q, q'; simpl; intros -> -> ->. unfold query_candidates.
  by rewrite (Hr _ _ false Hk).
Qed.

Lemma collect_candidates_spec repls l acc out :
  foldM (λ l s, r ← override repls s; Ok (l ++ [mkCandidate s r])%list) acc l = Ok out →
  ∃ new, out = (acc ++ new)%list ∧ cand_summary <$> new = l ∧
    ∀ c, c ∈ new → override repls (cand_summary c) = Ok (cand_replace c).
Proof.
  revert acc. induction l as [|s l IH]; intros acc; simpl.
  - intros [= ->]. exists []. rewrite app_nil_r. split_and!; [done..|].
    intros c Hc. by apply elem_of_nil in Hc.
  - destruct (override repls s) as [r|e|m] eqn:Hr; simpl; [|done|done].
    intros (new & -> & Hl & Hnew)%IH. exists (mkCandidate s r :: new).
    split_and!; [by rewrite <-app_assoc|rewrite fmap_cons; by rewrite Hl|].
    intros c [->|Hc]%elem_of_cons; [done|by apply Hnew].
Qed.

Lemma query_candidates_summaries q d l :
  query_candidates q d = Ok l →
  ∃ summaries, registry_query d false = Ok summaries ∧ cand_summary <$> l ≡ₚ summaries ∧
    ∀ c, c ∈ l → override (replacements q) (cand_summary c) = Ok (cand_replace c).
Proof.
  unfold query_candidates. intros (summaries & Hs & (ret & Hret & [= <-])%bind_Ok_inv)%bind_Ok_inv.
  apply collect_candidates_spec in Hret as (new & -> & Hl & Hnew). simpl.
  exists summaries. split_and!; [done| |].
  - rewrite sort_unstable_perm. by rewrite Hl.
  - intros c Hc. apply Hnew. by rewrite <-sort_unstable_perm.
Qed.

Lemma query_frame q d :
  let q' := (query q d).2 in
  replacements q' = replacements q ∧ try_to_use q' = try_to_use q ∧
  minimal_versions q' = minimal_versions q.
Proof.
  unfold query. destruct (hget (cache q) d); [done|]. by destruct (query_candidates q d).
Qed.

Lemma query_cached q d :
  registry_respects_eq → cache_ok q →
  (query q d).1 = query_candidates q d ∧ cache_ok (query q d).2.
Proof.
  intros Hr Hc. unfold query. destruct (hget (cache q) d) as [l|] eqn:Hg.
  - by rewrite (Hc _ _ Hg).
  - destruct (query_candidates q d) as [l|e|m] eqn:Hq; simpl; [|done|done].
    split; [done|]. intros d' l'. simpl. rewrite hget_hinsert. case_decide as Hk.
    + intros [= <-]. by rewrite <-(query_candidates_key q _ d d').
    + intros Hg'. rewrite <-(Hc _ _ Hg'). by apply query_candidates_key.
Qed.

Lemma candidate_cmp_total `{!SemverLaws} q : cmp_total (candidate_cmp q).
Proof.
  pose proof version_cmp_total as [Htr Hop].
  set (b := λ c, hcontains (try_to_use q) (sum_package_id (cand_summary c))).
  set (v := λ c, pid_version (sum_package_id (cand_summary c))).
  assert (Hcmp : ∀ x y, candidate_cmp q x y =
    match CompOpp (bool_cmp (b x) (b y)) with
    | Eq => if minimal_versions q then version_cmp (v x) (v y) else CompOpp (version_cmp (v x) (v y))
    | o => o end) by done.
  split.
  - intros x y z. unfold cmp_le. rewrite !Hcmp.
    assert (Hle : ∀ x y z, version_cmp x y ≠ Gt → version_cmp y z ≠ Gt → version_cmp x z ≠ Gt) by exact Htr.
    specialize (Hle).
    destruct (b x), (b y), (b z); simpl; try done; destruct (minimal_versions q); try apply Hle;
      rewrite <-!Hop; intros H1 H2; by eapply Hle.
  - intros x y. rewrite !Hcmp. rewrite (Hop (v x) (v y)).
    by destruct (b x), (b y), (minimal_versions q), (version_cmp (v x) (v y)).
Qed.

(** A query answers the same whether it is cached or not, and keeps the
    cache right.  Its candidates are exactly the summaries the registry
    returns, those of the previous lock file first and then by version; each
    carries the replacement that the first matching override names. *)
Theorem cached_query_spec `{!SemverLaws} q d (Hreg : registry_respects_eq) (Hcache : cache_ok q) :
  (query q d).1 = query_candidates q d ∧ cache_ok (query q d).2 ∧
  (∀ l, (query q d).1 = Ok l →
     hget (cache (query q d).2) d = Some l ∧
     (∃ summaries, registry_query d false = Ok summaries ∧ cand_summary <$> l ≡ₚ summaries) ∧
     StronglySorted (cmp_le (candidate_cmp q)) l ∧
     ∀ c, c ∈ l → override (replacements q) (cand_summary c) = Ok (cand_replace c)).
Proof.
  destruct (query_cached q d Hreg Hcache) as [H1 H2]. split_and!; [done..|].
  intros l Hl. rewrite H1 in Hl.
  destruct (query_candidates_summaries _ _ _ Hl) as (ss & Hs & Hp & Ho).
  split_and!; [|by exists ss| |done].
  - unfold query. destruct (hget (cache q) d) as [l'|] eqn:Hg; simpl.
    + apply Hcache in Hg as Hg'. congruence.
    + rewrite Hl. simpl. rewrite hget_hinsert. by rewrite decide_True.
  - unfold query_candidates in Hl.
    apply bind_Ok_inv in Hl as (ss' & _ & Hl). apply bind_Ok_inv in Hl as (ret & _ & [= <-]).
    apply sort_unstable_sorted, candidate_cmp_total.
Qed.

(** * The heap of frames *)
Definition frames_wf (r : RemainingDeps) : Prop := ∀ f, f ∈ r → iter_wf (remaining_siblings f).

(** The dependencies that wait, with the package that wants them. *)
Definition frame_pending (f : DepsFrame) : list (Summary * DepInfo) :=
  (λ info, (frame_parent f, info)) <$> iter_rest (remaining_siblings f).
Definition pending (r : RemainingDeps) : list (Summary * DepInfo) := r ≫= frame_pending.

Lemma frame_cmp_total : cmp_total frame_cmp.
Proof.
  split.
  - intros x y z. unfold cmp_le, frame_cmp.
    destruct (just_for_error_messages x), (just_for_error_messages y), (just_for_error_messages z);
      simpl; try done;
      destruct (Nat.compare_spec (min_candidates x) (min_candidates y)),
        (Nat.compare_spec (min_candidates y) (min_candidates z)),
        (Nat.compare_spec (min_candidates x) (min_candidates z)); simpl; done || lia.
  - intros x y. unfold frame_cmp.
    rewrite (Nat.compare_antisym (min_candidates x) (min_candidates y)).
    by destruct (just_for_error_messages x), (just_for_error_messages y),
      (Nat.compare (min_candidates x) (min_candidates y)).
Qed.

Lemma pending_perm r r' : r ≡ₚ r' → pending r ≡ₚ pending r'.
Proof. intros H. unfold pending. by rewrite H. Qed.

Lemma pending_push f r : pending (push f r) ≡ₚ frame_pending f ++ pending r.
Proof. unfold push. rewrite (pending_perm _ _ (heap_push_perm _ _ _)). done. Qed.

Lemma frames_wf_push f r : iter_wf (remaining_siblings f) → frames_wf r → frames_wf (push f r).
Proof.
  intros Hf Hr g. unfold push. rewrite heap_push_perm. intros [->|Hg]%elem_of_cons; [done|by apply Hr].
Qed.

Lemma min_candidates_head f :
  iter_wf (remaining_siblings f) →
  min_candidates f = match iter_rest (remaining_siblings f) with
                     | info :: _ => length info.1.2 | [] => 0 end.
Proof.
  intros Hwf. unfold min_candidates. pose proof (iter_peek_spec _ Hwf) as Hp.
  destruct (iter_peek (remaining_siblings f)) as [[i [[d c] x]]|]; simpl in Hp.
  - destruct (iter_rest _); [done|]. simpl in Hp. simplify_eq. done.
  - by destruct (iter_rest _).
Qed.

(** A frame is chosen over all others that still have dependencies. *)
Definition chosen_over (just_here : bool) (info : DepInfo) (g : DepsFrame) : Prop :=
  iter_rest (remaining_siblings g) ≠ [] →
  (just_for_error_messages g = true → just_here = true) ∧
  (just_for_error_messages g = just_here → length info.1.2 ≤ min_candidates g)%nat.

Lemma pop_loop_spec fuel r :
  frames_wf r → (length r < fuel)%nat →
  match pop_loop fuel r with
  | (Some (just_here, (parent, (cur, info))), r') =>
      frames_wf r' ∧ pending r ≡ₚ (parent, info) :: pending r' ∧
      ∀ g, g ∈ r → chosen_over just_here info g
  | (None, r') => pending r = [] ∧ r' = []
  end.
Proof.
  revert r. induction fuel as [|fuel IH]; intros r Hwf Hlen; [lia|]. simpl.
  destruct (heap_pop frame_cmp r) as [[f r1]|] eqn:Hpop.
  2: { apply heap_pop_None in Hpop as ->. done. }
  pose proof (heap_pop_perm _ _ _ _ Hpop) as Hperm.
  pose proof (heap_pop_max _ _ _ _ frame_cmp_total Hpop) as Hmax.
  assert (Hwf1 : frames_wf r1) by (intros g Hg; apply Hwf; rewrite Hperm; by constructor).
  assert (Hf : iter_wf (remaining_siblings f)) by (apply Hwf; rewrite Hperm; constructor).
  pose proof (iter_next_spec _ Hf) as Hn. pose proof (min_candidates_head f Hf) as Hmin.
  destruct (iter_next (remaining_siblings f)) as [[[i info]|] it].
  - destruct Hn as (Hrest & Hit & _). rewrite Hrest in Hmin. split_and!.
    + apply frames_wf_push; [done|done].
    + rewrite (pending_perm _ _ Hperm), pending_push. unfold pending at 1. simpl.
      unfold frame_pending. simpl. rewrite Hrest. done.
    + intros g Hg _. specialize (Hmax g Hg). unfold cmp_le, frame_cmp in Hmax. rewrite Hmin in Hmax.
      destruct (just_for_error_messages g), (just_for_error_messages f); simpl in *; try done;
        (split; [done|intros _]);
        destruct (Nat.compare_spec (min_candidates g) (length info.1.2)); simpl in *; done || lia.
  - destruct Hn as [Hrest _].
    assert (Hpend : pending r ≡ₚ pending r1).
    { rewrite (pending_perm _ _ Hperm). unfold pending at 1. simpl. unfold frame_pending. by rewrite Hrest. }
    specialize (IH r1 Hwf1). rewrite Hperm in Hlen. simpl in Hlen. specialize (IH ltac:(lia)).
    destruct (pop_loop fuel r1) as [[[jh [parent [cur info]]]|] r2].
    + destruct IH as (H1 & H2 & H3). split_and!; [done|by rewrite Hpend|].
      intros g Hg. rewrite Hperm in Hg. apply elem_of_cons in Hg as [->|Hg]; [|by apply H3].
      intros Hne. by rewrite Hrest in Hne.
    + destruct IH as [H1 H2]. split; [|done]. apply Permutation_nil. by rewrite Hpend, H1.
Qed.

(** [pop_most_constrained] loses no dependency: it fails only when none is
    left in any frame, and otherwise takes exactly one away.  What it takes is
    from a frame kept for error messages if there is one with dependencies
    left, and has the fewest candidates among the heads of such frames. *)
Theorem pop_most_constrained_spec r (Hwf : frames_wf r) :
  match pop_most_constrained r with
  | (Some (just_here, (parent, (cur, info))), r') =>
      frames_wf r' ∧ pending r ≡ₚ (parent, info) :: pending r' ∧
      ∀ g, g ∈ r → chosen_over just_here info g
  | (None, r') => pending r = [] ∧ r' = []
  end.
Proof. apply pop_loop_spec; [done|lia]. Qed.
End types.
Abbreviation DepInfo := (Dependency * list Candidate * list string)%type.
Abbreviation RemainingDeps := (list DepsFrame).

(** * Concrete runs: a registry that is a list of summaries *)
Section runs.
Local Existing Instance sem_lib.
Local Existing Instance hier_lib.
Local Existing Instance std_order.

Definition listed (l : list Summary) : Registry := {|
  registry_query d fuzzy :=
    Ok (filter (λ s, matches_id d (sum_package_id s) && (dep_source_id d ==? pid_source_id (sum_package_id s)) = true) l);
  describe_source _ := "registry";
  is_replaced _ := false;
|}.

Lemma listed_respects_eq l : registry_respects_eq (RG:=listed l).
Proof.
  intros d d' fuzzy Hk. simpl. f_equal. unfold to_key at 1 2 in Hk. simpl in Hk.
  assert (dep_name d = dep_name d' ∧ to_key (dep_source_id d) = to_key (dep_source_id d') ∧
          dep_req d = dep_req d' ∧ only_match_name d = only_match_name d') as (H1 & H2 & H3 & H4)
    by (split_and!; congruence).
  apply list_filter_iff. intros s. unfold matches_id, heqb. by rewrite H1, H2, H3, H4.
Qed.

Definition pkg (name : string) (v : Version) : PackageId := mkPackageId name v PackageId.crates_io.
Definition dep (name : string) (v : Version) : Dependency :=
  mkDependency name PackageId.crates_io None (SemCaret v) true Normal false None false true [] None.
Definition sum (name : string) (v : Version) (deps : list Dependency) (links : option string) : Summary :=
  mkSummary (pkg name v) deps ∅ None links false.
Definition cand (name : string) (v : Version) : Candidate := mkCandidate (sum name v [] None) None.

Definition sample_packages : list Summary :=
  [sum "a" (1, 0, 0) [dep "c" (1, 0, 0)] None; sum "b" (1, 0, 0) [dep "c" (1, 1, 0)] (Some "z");
   sum "c" (1, 0, 0) [] None; sum "c" (1, 2, 0) [] None; sum "c" (2, 0, 0) [] None].
Definition fresh : RegistryQueryer := queryer_new [] (hinsert (pkg "c" (1, 0, 0)) tt ∅) false.

(** The version of the previous lock file comes first. *)
Lemma cached_query_spec_witness :
  let _ := listed sample_packages in
  (query fresh (dep "c" (1, 0, 0))).1 = Ok [cand "c" (1, 0, 0); cand "c" (1, 2, 0)] ∧
  hget (cache (query fresh (dep "c" (1, 0, 0))).2) (dep "c" (1, 0, 0)) =
    Some [cand "c" (1, 0, 0); cand "c" (1, 2, 0)].
Proof.
  intros R.
  assert (Hq : (query (RG:=listed sample_packages) fresh (dep "c" (1, 0, 0))).1 = Ok [cand "c" (1, 0, 0); cand "c" (1, 2, 0)]) by vm_eq.
  assert (Hc : cache_ok (RG:=listed sample_packages) fresh).
  { intros d l H. unfold fresh, queryer_new in H. cbn [cache] in H. rewrite hget_empty in H. discriminate H. }
  split; [exact Hq|].
  exact (proj1 (proj2 (proj2 (cached_query_spec (RG:=listed sample_packages) fresh (dep "c" (1, 0, 0))
    (listed_respects_eq _) Hc)) _ Hq)).
Defined.

Definition sample_frame (just : bool) (infos : list (Dependency * list Candidate * list string)) : DepsFrame :=
  mkFrame (sum "a" (1, 0, 0) [] None) just (iter_new infos).
Definition info_a : Dependency * list Candidate * list string :=
  (dep "a" (1, 0, 0), [cand "a" (1, 0, 0); cand "a" (1, 1, 0)], []).
Definition info_c : Dependency * list Candidate * list string := (dep "c" (1, 0, 0), [cand "c" (1, 0, 0)], []).
Definition sample_heap : list DepsFrame := [sample_frame false [info_a]; sample_frame false [info_c; info_a]].

Lemma pop_most_constrained_spec_witness :
  ∃ r, pop_most_constrained sample_heap = (Some (false, (sum "a" (1, 0, 0) [] None, (0, info_c))), r) ∧
       length (pending r) = 2.
Proof.
  assert (Hwf : frames_wf sample_heap).
  { intros f [->|[->|Hf]%elem_of_cons]%elem_of_cons; [apply iter_new_wf..|by apply elem_of_nil in Hf]. }
  pose proof (pop_most_constrained_spec sample_heap Hwf) as H.
  assert (Hrun : (pop_most_constrained sample_heap).1 = Some (false, (sum "a" (1, 0, 0) [] None, (0, info_c)))) by vm_eq.
  revert H Hrun. generalize (pop_most_constrained sample_heap). intros [o r] H Hrun.
  simpl in Hrun. subst o. exists r. split; [reflexivity|]. destruct H as (_ & Hp & _).
  apply Permutation_length in Hp. simpl in Hp. injection Hp as <-. reflexivity.
Defined.
End runs.
