(* ===== verification/PackageRegistry.v ===== *)
(** The registry the resolver queries, [src/cargo/core/registry.rs]: loaded
    sources, path overrides, [patch] sections, and the packages of the previous
    lock file.  Sources are objects of the [Source] trait. *)
From S2P Require Import Prelude Str Extern SourceId PackageId Dependency Summary ResTypes.

Local Open Scope string_scope.

Section registry.
Context `{SV : SemverLib} `{UL : UrlLib} `{RS : RustStd}.

(** The [Source] trait and the [SourceConfigMap] that makes sources; a method
    on [&mut self] returns the source as it leaves it. *)
Class SourceLib := {
  Source : Type;
  source_id_of : Source → SourceId;
  config_load : SourceId → cresult Source;
  source_update : Source → cresult unit * Source;
  source_query : Source → Dependency → bool → cresult (list Summary) * Source;  (* the flag is [fuzzy] *)
  source_describe : Source → string;
  source_is_replaced : Source → bool;
}.
Context `{SL : !SourceLib}.

(** [enum Kind] *)
Inductive RegKind := Override | Locked | RegNormal.
#[global] Instance RegKind_eq_dec : EqDecision RegKind.
Proof. solve_decision. Defined.

(** [type LockedMap] *)
Abbreviation LockedMap := (hashmap SourceId (gmap string (list (PackageId * list PackageId)))).

(** [struct PackageRegistry]; [warned] is what the shell was told. *)
Record PackageRegistry := mkRegistry {
  sources : hashmap SourceId Source;
  overrides : list SourceId;
  source_ids : hashmap SourceId (SourceId * RegKind);
  locked : LockedMap;
  patches : hashmap Url (list Summary);
  patches_locked : bool;
  patches_available : hashmap Url (list PackageId);
  warned : list string;
}.
Definition registry_new : PackageRegistry := mkRegistry ∅ [] ∅ ∅ ∅ false ∅ [].

Definition set_sources (r : PackageRegistry) s :=
  mkRegistry s (overrides r) (source_ids r) (locked r) (patches r) (patches_locked r) (patches_available r) (warned r).
Definition set_overrides (r : PackageRegistry) o :=
  mkRegistry (sources r) o (source_ids r) (locked r) (patches r) (patches_locked r) (patches_available r) (warned r).
Definition set_source_ids (r : PackageRegistry) i :=
  mkRegistry (sources r) (overrides r) i (locked r) (patches r) (patches_locked r) (patches_available r) (warned r).
Definition set_locked (r : PackageRegistry) l :=
  mkRegistry (sources r) (overrides r) (source_ids r) l (patches r) (patches_locked r) (patches_available r) (warned r).
Definition set_patches (r : PackageRegistry) p a :=
  mkRegistry (sources r) (overrides r) (source_ids r) (locked r) p (patches_locked r) a (warned r).
Definition set_patches_locked (r : PackageRegistry) p b :=
  mkRegistry (sources r) (overrides r) (source_ids r) (locked r) p b (patches_available r) (warned r).
Definition warn (r : PackageRegistry) w :=
  mkRegistry (sources r) (overrides r) (source_ids r) (locked r) (patches r) (patches_locked r) (patches_available r)
             (warned r ++ [w])%list.

(** * Sources *)

(** [add_source], [add_preloaded], [add_override] *)
Definition add_source (r : PackageRegistry) (source : Source) (kind : RegKind) : PackageRegistry :=
  let id := source_id_of source in
  let r := set_sources r (hinsert id source (sources r)) in
  set_source_ids r (hinsert id (id, kind) (source_ids r)).
Definition add_preloaded (r : PackageRegistry) (source : Source) : PackageRegistry := add_source r source Locked.
Definition add_override (r : PackageRegistry) (source : Source) : PackageRegistry :=
  add_source (set_overrides r (overrides r ++ [source_id_of source])%list) source Override.

(** A mutable call on a source of the map. *)
Definition with_source {A} (r : PackageRegistry) (id : SourceId) (source : Source)
    (m : cresult A * Source) : cresult A * PackageRegistry :=
  (m.1, set_sources r (hupdate (λ _, m.2) id (sources r))).

(** [load] *)
Definition load_source (r : PackageRegistry) (source_id : SourceId) (kind : RegKind) : cresult unit * PackageRegistry :=
  match config_load source_id with
  | Err e => (Err e, r)
  | Panic m => (Panic m, r)
  | Ok source =>
      if negb (source_id_of source ==? source_id) then (Panic "assertion failed: `(left == right)`", r)
      else
        let r := if decide (kind = Override) then set_overrides r (overrides r ++ [source_id])%list else r in
        let r := add_source r source kind in
        match hget (sources r) source_id with
        | None => (Panic "called `Option::unwrap()` on a `None` value", r)
        | Some source => with_source r source_id source (source_update source)
        end
  end.
Definition load (r : PackageRegistry) (source_id : SourceId) (kind : RegKind) : cresult unit * PackageRegistry :=
  let '(res, r) := load_source r source_id kind in
  (match res with
   | Err e => src ← SourceId.display source_id; chain_err ("Unable to update " ++ src) (Err e)
   | _ => res
   end, r).

(** [ensure_loaded], [add_sources] *)
Definition ensure_loaded (r : PackageRegistry) (namespace : SourceId) (kind : RegKind) : cresult unit * PackageRegistry :=
  match hget (source_ids r) namespace with
  | Some (_, Locked) => (Ok tt, r)
  | Some (previous, _) =>
      if bool_decide (sid_precise previous = None) then (Ok tt, r)
      else if bool_decide (sid_precise previous = sid_precise namespace) then (Ok tt, r)
      else load r namespace kind
  | None => load r namespace kind
  end.
Fixpoint add_sources (r : PackageRegistry) (ids : list SourceId) : cresult unit * PackageRegistry :=
  match ids with
  | [] => (Ok tt, r)
  | id :: ids =>
      match ensure_loaded r id Locked with
      | (Ok _, r) => add_sources r ids
      | (e, r) => (e, r)
      end
  end.

(** * The lock file *)

(** [register_lock] *)
Definition register_lock (r : PackageRegistry) (id : PackageId) (deps : list PackageId) : PackageRegistry :=
  set_locked r
    (hupdate (λ m, <[pid_name id := (default [] (m !! pid_name id) ++ [(id, deps)])%list]> m) (pid_source_id id)
             (hor_insert (pid_source_id id) ∅ (locked r))).

(** The locked packages with this name and source. *)
Definition locked_named (locked : LockedMap) (source : SourceId) (name : string) : list (PackageId * list PackageId) :=
  match hget locked source with Some m => default [] (m !! name) | None => [] end.

(** The body of the closure of [lock]: one dependency. *)
Definition lock_dep (locked : LockedMap) (available : hashmap Url (list PackageId))
    (pair : option (PackageId * list PackageId)) (dep : Dependency) : cresult Dependency :=
  match pair ≫= (λ p, List.find (λ id, matches_id dep id) p.2) with
  | Some id => lock_to dep id
  | None =>
      match List.find (λ p, matches_id dep p.1) (locked_named locked (dep_source_id dep) (dep_name dep)) with
      | Some (id, _) => lock_to dep id
      | None =>
          match filter (λ p, matches_ignoring_source dep p = true)
                       (default [] (hget available (sid_url (dep_source_id dep)))) with
          | [] => Ok dep
          | [patch_id] =>
              if existsb (λ p, p.1 ==? patch_id) (locked_named locked (pid_source_id patch_id) (pid_name patch_id))
              then Ok (set_version_req dep (req_exact (pid_version patch_id)))
              else Ok dep
          | _ => Panic "assertion failed: remaining.next().is_none()"
          end
      end
  end.

(** The entry of the lock file for a summary. *)
Definition lock_entry (locked : LockedMap) (summary : Summary) : option (PackageId * list PackageId) :=
  let id := sum_package_id summary in
  List.find (λ p, p.1 ==? id) (locked_named locked (pid_source_id id) (pid_name id)).

(** [lock] *)
Definition lock (locked : LockedMap) (available : hashmap Url (list PackageId)) (summary : Summary)
    : cresult Summary :=
  let pair := lock_entry locked summary in
  let summary := match pair with Some (precise, _) => override_id summary precise | None => summary end in
  deps ← foldM (λ l dep, d ← lock_dep locked available pair dep; Ok (l ++ [d])%list) ([] : list Dependency)
               (sum_dependencies summary);
  Ok (mkSummary (sum_package_id summary) deps (sum_features summary) (sum_checksum summary)
                (sum_links summary) (sum_namespaced_features summary)).

(** * Patches *)

(** [patch], one entry *)
Definition patch_one (url : Url) (r : PackageRegistry) (dep : Dependency) : cresult Summary * PackageRegistry :=
  match ensure_loaded r (dep_source_id dep) RegNormal with
  | (Err e, r) => (chain_err ("failed to load source for a dependency on `" ++ dep_name dep ++ "`") (Err e), r)
  | (Panic m, r) => (Panic m, r)
  | (Ok _, r) =>
      match hget (sources r) (dep_source_id dep) with
      | None => (Panic "loaded source not present", r)
      | Some source =>
          let '(res, r) := with_source r (dep_source_id dep) source (source_query source dep false) in
          (summaries ← res;
           match summaries with
           | [] => Err ("patch for `" ++ dep_name dep ++ "` in `" ++ url_as_str url ++
                        "` did not resolve to any crates. If this is unexpected, you may wish to consult: https://github.com/rust-lang/cargo/issues/4678")
           | _ :: _ :: _ => Err ("patch for `" ++ dep_name dep ++ "` in `" ++ url_as_str url ++
                                 "` resolved to more than one candidate")
           | [summary] =>
               if bool_decide (sid_url (pid_source_id (sum_package_id summary)) = url) then
                 Err ("patch for `" ++ dep_name dep ++ "` in `" ++ url_as_str url ++
                      "` points to the same source, but patches must point to different sources")
               else Ok summary
           end, r)
      end
  end.
Fixpoint patch_all (url : Url) (r : PackageRegistry) (deps : list Dependency) (acc : list Summary)
    : cresult (list Summary) * PackageRegistry :=
  match deps with
  | [] => (Ok acc, r)
  | dep :: deps =>
      match patch_one url r dep with
      | (Ok s, r) => patch_all url r deps (acc ++ [s])%list
      | (Err e, r) => (Err e, r)
      | (Panic m, r) => (Panic m, r)
      end
  end.
Definition patch (r : PackageRegistry) (url : Url) (deps : list Dependency) : cresult unit * PackageRegistry :=
  match patch_all url r deps [] with
  | (Err e, r) => (chain_err ("failed to resolve patches for `" ++ url_as_str url ++ "`") (Err e), r)
  | (Panic m, r) => (Panic m, r)
  | (Ok summaries, r) =>
      (Ok tt, set_patches r (hinsert url summaries (patches r))
                          (hinsert url (sum_package_id <$> summaries) (patches_available r)))
  end.

(** [lock_patches]; the values are independent of each other, so the order in
    which they are visited does not matter. *)
Definition lock_all (r : PackageRegistry) (l : list Summary) : cresult (list Summary) :=
  foldM (λ l s, s ← lock (locked r) (patches_available r) s; Ok (l ++ [s])%list) ([] : list Summary) l.
Definition lock_patches (r : PackageRegistry) : cresult PackageRegistry :=
  if patches_locked r then Panic "assertion failed: !self.patches_locked"
  else
    p ← foldM (λ (m : hashmap Url (list Summary)) kv, l ← lock_all r kv.2; Ok (hinsert kv.1 l m))
              (patches r) (hiter (patches r));
    Ok (set_patches_locked r p true).

(** * Queries *)

(** [query_overrides] *)
Fixpoint query_overrides (r : PackageRegistry) (dep : Dependency) (ids : list SourceId)
    : cresult (option Summary) * PackageRegistry :=
  match ids with
  | [] => (Ok None, r)
  | s :: ids =>
      match hget (sources r) s with
      | None => (Panic "called `Option::unwrap()` on a `None` value", r)
      | Some src =>
          match new_override (dep_name dep) s with
          | Ok d =>
              match with_source r s src (source_query src d false) with
              | (Ok [], r) => query_overrides r dep ids
              | (Ok (x :: _), r) => (Ok (Some x), r)
              | (Err e, r) => (Err e, r)
              | (Panic m, r) => (Panic m, r)
              end
          | Err e => (Err e, r)
          | Panic m => (Panic m, r)
          end
      end
  end.

(** [warn_bad_override] *)
Definition boilerplate : string :=
  "This is currently allowed but is known to produce buggy behavior with spurious" ++ nl ++
  "recompiles and changes to the crate graph. Path overrides unfortunately were" ++ nl ++
  "never intended to support this feature, so for now this message is just a" ++ nl ++
  "warning. In the future, however, this message will become a hard error." ++ nl ++ nl ++
  "To change the dependency graph via an override it's recommended to use the" ++ nl ++
  "`[replace]` feature of Cargo instead of the path override feature. This is" ++ nl ++
  "documented online at the url below for more information." ++ nl ++ nl ++
  "https://doc.rust-lang.org/cargo/reference/specifying-dependencies.html#overriding-dependencies" ++ nl.
Definition altered (name dep : string) : string :=
  "path override for crate `" ++ name ++ "` has altered the original list of" ++ nl ++
  "dependencies; the dependency on `" ++ dep ++ "` was either added or" ++ nl ++
  "modified to not match the previously resolved version" ++ nl ++ nl ++ boilerplate.
Definition removed (name dep : string) : string :=
  "path override for crate `" ++ name ++ "` has altered the original list of" ++ nl ++
  "                dependencies; the dependency on `" ++ dep ++ "` was removed" ++ nl ++ nl ++ nl ++
  "                " ++ boilerplate.

(** [position] and [remove] of the first equal dependency. *)
Fixpoint remove_dep (dep : Dependency) (l : list Dependency) : option (list Dependency) :=
  match l with
  | [] => None
  | d :: l => if dep ==? d then Some l else (λ l, d :: l) <$> remove_dep dep l
  end.
Fixpoint bad_override (name : string) (deps real_deps : list Dependency) : option string :=
  match deps with
  | [] => (λ d, removed name (dep_name d)) <$> head real_deps
  | dep :: deps =>
      match remove_dep dep real_deps with
      | Some real_deps => bad_override name deps real_deps
      | None => Some (altered name (dep_name dep))
      end
  end.
Definition warn_bad_override (r : PackageRegistry) (override_summary real_summary : Summary) : PackageRegistry :=
  match bad_override (pid_name (sum_package_id override_summary)) (sum_dependencies override_summary)
                     (sum_dependencies real_summary) with
  | Some w => warn r w
  | None => r
  end.

(** The end of [query] with a path override: what the real source returned is
    only used for warnings.  [self.lock] asserts [patches_locked], as [query]
    has done already. *)
Definition answer_override (r : PackageRegistry) (override_summary : Summary) (real : list Summary)
    : cresult (list Summary) * PackageRegistry :=
  match real with
  | _ :: _ :: _ => (Err "found an override with a non-locked list", r)
  | _ =>
      let r := match List.last (Some <$> real) None with
               | Some summary => warn_bad_override r override_summary summary
               | None => r
               end in
      (s ← lock (locked r) (patches_available r) override_summary; Ok [s], r)
  end.

(** The summaries of a source, without the versions that are patched. *)
Definition unpatched (patches : list Summary) (s : Summary) : bool :=
  negb (existsb (λ p, pid_version (sum_package_id s) ==? pid_version (sum_package_id p)) patches).

(** [query], when the source is asked; the callback's summaries are collected
    in order. *)
Definition query_source (r : PackageRegistry) (dep : Dependency) (fuzzy : bool) (override_summary : option Summary)
    (patches : list Summary) : cresult (list Summary) * PackageRegistry :=
  match ensure_loaded r (dep_source_id dep) RegNormal with
  | (Err e, r) =>
      (chain_err ("failed to load source for a dependency on `" ++ dep_name dep ++ "`") (Err e), r)
  | (Panic m, r) => (Panic m, r)
  | (Ok _, r) =>
      match override_summary, hget (sources r) (dep_source_id dep) with
      | Some _, None => (Err "override found but no real ones", r)
      | None, None => (Ok [], r)
      | None, Some source =>
          let '(res, r) := with_source r (dep_source_id dep) source (source_query source dep fuzzy) in
          (found ← res;
           found ← lock_all r (filter (λ s, unpatched patches s = true) found);
           Ok (patches ++ found)%list, r)
      | Some override_summary, Some source =>
          match patches with
          | _ :: _ => (Err "found patches and a path override", r)
          | [] =>
              let '(res, r) := with_source r (dep_source_id dep) source (source_query source dep fuzzy) in
              match res with
              | Ok real => answer_override r override_summary real
              | Err e => (Err e, r)
              | Panic m => (Panic m, r)
              end
          end
      end
  end.

(** The patches a dependency may use. *)
Definition patches_for (r : PackageRegistry) (dep : Dependency) : list Summary :=
  filter (λ s, matches_ignoring_source dep (sum_package_id s) = true)
         (default [] (hget (patches r) (sid_url (dep_source_id dep)))).

(** [<PackageRegistry as Registry>::query] *)
Definition query (r : PackageRegistry) (dep : Dependency) (fuzzy : bool) : cresult (list Summary) * PackageRegistry :=
  if negb (patches_locked r) then (Panic "assertion failed: self.patches_locked", r)
  else
    match query_overrides r dep (overrides r) with
    | (Err e, r) => (Err e, r)
    | (Panic m, r) => (Panic m, r)
    | (Ok override_summary, r) =>
        match patches_for r dep, is_locked dep with
        | [patch], true =>
            match override_summary with
            | Some summary => answer_override r summary [patch]
            | None => (Ok [patch], r)
            end
        | patches, _ => query_source r dep fuzzy override_summary patches
        end
    end.

(** [describe_source], [is_replaced] *)
Definition describe_source (r : PackageRegistry) (id : SourceId) : cresult string :=
  match hget (sources r) id with
  | Some src => Ok (source_describe src)
  | None => SourceId.display id
  end.
Definition is_replaced (r : PackageRegistry) (id : SourceId) : bool :=
  match hget (sources r) id with Some src => source_is_replaced src | None => false end.
End registry.

(** * Locking *)
Section lock.
Context `{SV : SemverLib} `{UL : UrlLib} `{RS : RustStd}.
Context (locked : hashmap SourceId (gmap string (list (PackageId * list PackageId))))
        (available : hashmap Url (list PackageId)).

(** The packages a dependency may be locked to, the best one first: what the
    package depended on in the previous lock file, then anything locked under
    the dependency's name and source. *)
Definition lock_candidates (pair : option (PackageId * list PackageId)) (dep : Dependency) : list PackageId :=
  from_option snd [] pair ++ (locked_named locked (dep_source_id dep) (dep_name dep)).*1.
Definition locked_to (dep : Dependency) (id : PackageId) : Dependency :=
  set_source_id (set_version_req dep (req_exact (pid_version id))) (pid_source_id id).
Definition matching_patches (dep : Dependency) : list PackageId :=
  filter (λ p, matches_ignoring_source dep p = true) (default [] (hget available (sid_url (dep_source_id dep)))).

(** What becomes of a dependency. *)
Definition relocked (pair : option (PackageId * list PackageId)) (d d' : Dependency) : Prop :=
  match List.find (matches_id d) (lock_candidates pair d) with
  | Some id => d' = locked_to d id ∧ matches_id d' id = true ∧ is_locked d' = true
  | None => d' = d ∨ ∃ p, matching_patches d = [p] ∧ d' = set_version_req d (req_exact (pid_version p)) ∧ is_locked d' = true
  end.

Lemma lock_to_ok d id : only_match_name d = false → matches_id d id = true → lock_to d id = Ok (locked_to d id).
Proof.
  intros Ho Hm. pose proof (matches_id_source _ _ Ho Hm) as Hs. unfold matches_id in Hm. rewrite Ho in Hm.
  simpl in Hm. apply andb_true_iff in Hm as [_ Hm]. apply andb_true_iff in Hm as [Hr Hh].
  unfold lock_to. by rewrite Hh, Hr.
Qed.

Lemma locked_to_spec `{!SemverLaws} d id :
  only_match_name d = false → matches_id d id = true →
  matches_id (locked_to d id) id = true ∧ is_locked (locked_to d id) = true.
Proof.
  intros Ho Hm. pose proof (matches_id_name _ _ Hm) as Hn. destruct d as [n s g r sr k o e op df fs p]. simpl in *. subst o n.
  split; [|apply req_exact_to_string]. unfold matches_id, locked_to. simpl.
  by rewrite String.eqb_refl, req_exact_matches, heqb_refl.
Qed.

Lemma find_app {A} (f : A → bool) l l' :
  List.find f (l ++ l') = match List.find f l with Some x => Some x | None => List.find f l' end.
Proof. induction l as [|x l IH]; simpl; [done|]. by destruct (f x). Qed.

Lemma find_fmap {A B} (f : B → bool) (g : A → B) l : List.find f (g <$> l) = g <$> List.find (λ x, f (g x)) l.
Proof. induction l as [|x l IH]; simpl; [done|]. by destruct (f (g x)). Qed.

Lemma lock_dep_spec `{!SemverLaws} pair d :
  only_match_name d = false →
  match lock_dep locked available pair d with
  | Ok d' => relocked pair d d'
  | Err _ => False
  | Panic _ => List.find (matches_id d) (lock_candidates pair d) = None ∧ (2 ≤ length (matching_patches d))%nat
  end.
Proof.
  intros Ho. unfold lock_dep, relocked, lock_candidates. rewrite find_app, find_fmap.
  assert (Hp : pair ≫= (λ p, List.find (λ id, matches_id d id) p.2) = List.find (matches_id d) (from_option snd [] pair)).
  { by destruct pair as [[x l]|]. }
  rewrite Hp. destruct (List.find (matches_id d) (from_option snd [] pair)) as [id|] eqn:H1.
  { apply find_some in H1 as [_ Hm]. rewrite (lock_to_ok _ _ Ho Hm). split; [done|by apply locked_to_spec]. }
  destruct (List.find (λ p, matches_id d p.1) _) as [[id l]|] eqn:H2; simpl.
  { apply find_some in H2 as [_ Hm]. simpl in Hm. rewrite (lock_to_ok _ _ Ho Hm). split; [done|by apply locked_to_spec]. }
  fold (matching_patches d). destruct (matching_patches d) as [|p [|p' l]] eqn:Hmp; [by left| |simpl; split; [done|lia]].
  destruct (existsb _ _); [|by left]. right. exists p. split_and!; [done..|].
  destruct d. apply req_exact_to_string.
Qed.

Lemma lock_effect `{!SemverLaws} s (Hdeps : ∀ d, d ∈ sum_dependencies s → only_match_name d = false) :
  match lock locked available s with
  | Ok s' =>
      to_key (sum_package_id s') = to_key (sum_package_id s) ∧
      (∀ p, lock_entry locked s = Some p → sum_package_id s' = p.1) ∧
      sum_features s' = sum_features s ∧ sum_checksum s' = sum_checksum s ∧ sum_links s' = sum_links s ∧
      Forall2 (relocked (lock_entry locked s)) (sum_dependencies s) (sum_dependencies s')
  | Err _ => False
  | Panic _ => ∃ d, d ∈ sum_dependencies s ∧
      List.find (matches_id d) (lock_candidates (lock_entry locked s) d) = None ∧
      (2 ≤ length (matching_patches d))%nat
  end.
Proof.
  unfold lock. set (pair := lock_entry locked s).
  set (s1 := match pair with Some _ => _ | None => _ end).
  assert (Hs1 : to_key (sum_package_id s1) = to_key (sum_package_id s) ∧
    (∀ p, pair = Some p → sum_package_id s1 = p.1) ∧ sum_features s1 = sum_features s ∧
    sum_checksum s1 = sum_checksum s ∧ sum_links s1 = sum_links s ∧ sum_dependencies s1 = sum_dependencies s).
  { unfold s1. destruct pair as [[id l]|] eqn:Hp; [|by split_and!].
    apply find_some in Hp as [_ Hk]. apply heqb_true in Hk. split_and!; [exact Hk| |done..]. by intros p [= <-]. }
  destruct Hs1 as (Hk & Hid & Hf & Hc & Hl & Hd). rewrite Hd.
  pose proof (foldM_collect (lock_dep locked available pair) [] (sum_dependencies s)) as Hloop.
  destruct (foldM _ [] _) as [out|e|m]; simpl.
  - destruct Hloop as (new & -> & Hnew). split_and!; [done..|]. simpl.
    clear Hd. induction Hnew as [|d d' l l' Hd' _ IH]; constructor; [|apply IH; intros x Hx; apply Hdeps; by constructor].
    pose proof (lock_dep_spec pair d (Hdeps d ltac:(constructor))) as H1. by rewrite Hd' in H1.
  - destruct Hloop as (d & Hin & Hd'). pose proof (lock_dep_spec pair d (Hdeps _ Hin)) as H1. by rewrite Hd' in H1.
  - destruct Hloop as (d & Hin & Hd'). pose proof (lock_dep_spec pair d (Hdeps _ Hin)) as H1. rewrite Hd' in H1.
    by exists d.
Qed.

(** Locking a summary to the previous lock file keeps the package and
    everything but its dependencies.  A dependency that matches a package the
    summary used before, or else any locked package, is locked to the first
    such package and matches it still; otherwise it is pinned to the only
    matching patch or left alone.  The only panic is that two patches match a
    dependency that is not locked. *)
Theorem lock_spec `{!SemverLaws} s (Hdeps : ∀ d, d ∈ sum_dependencies s → only_match_name d = false) :
  match lock locked available s with
  | Ok s' =>
      to_key (sum_package_id s') = to_key (sum_package_id s) ∧
      (∀ p, lock_entry locked s = Some p → sum_package_id s' = p.1) ∧
      sum_features s' = sum_features s ∧ sum_checksum s' = sum_checksum s ∧ sum_links s' = sum_links s ∧
      Forall2 (relocked (lock_entry locked s)) (sum_dependencies s) (sum_dependencies s')
  | Err _ => False
  | Panic _ => ∃ d, d ∈ sum_dependencies s ∧
      List.find (matches_id d) (lock_candidates (lock_entry locked s) d) = None ∧
      (2 ≤ length (matching_patches d))%nat
  end.
Proof. by apply lock_effect. Qed.
End lock.

(** * The invariant of the registry *)
Section invariant.
Context `{SV : SemverLib} `{UL : UrlLib} `{RS : RustStd} `{SL : !SourceLib}.
Implicit Types r : PackageRegistry.
Local Arguments hinsert : simpl never.
Local Arguments hupdate : simpl never.
Local Arguments hdom : simpl never.

Definition id_keys (l : list Summary) : list (hkey PackageId) := (λ s, to_key (sum_package_id s)) <$> l.

(** Every known source is loaded, overrides among them, and the patches that
    [lock] looks at are those that queries answer. *)
Record registry_ok r : Prop := {
  ok_sources : hdom (source_ids r) = hdom (sources r);
  ok_overrides : ∀ s, s ∈ overrides r → to_key s ∈ hdom (sources r);
  ok_patches_wf : hwf (patches r);
  ok_patches : ∀ u, fmap to_key <$> hget (patches_available r) u = id_keys <$> hget (patches r) u;
}.

(** Same keys, more sources. *)
Definition reg_grows r r' : Prop :=
  hdom (sources r) ⊆ hdom (sources r') ∧ patches r' = patches r ∧
  patches_available r' = patches_available r ∧ patches_locked r' = patches_locked r ∧ locked r' = locked r.

Lemma registry_new_ok : registry_ok registry_new.
Proof.
  split; cbn [registry_new source_ids sources overrides patches patches_available].
  - by rewrite !hdom_empty.
  - intros s Hs. destruct (not_elem_of_nil _ Hs).
  - apply hwf_empty.
  - intros u. by rewrite !hget_empty.
Qed.

#[global] Instance reg_grows_preorder : PreOrder reg_grows.
Proof.
  split; [intros r; by repeat split|].
  intros r1 r2 r3 (H1 & H2 & H3 & H4 & H5) (K1 & K2 & K3 & K4 & K5).
  split_and!; [by etransitivity|congruence..].
Qed.

Lemma hdom_hupdate `{HashKey K} {V} f (k : K) (m : hashmap K V) : hdom (hupdate f k m) = hdom m.
Proof. apply leibniz_equiv, dom_alter. Qed.

Lemma add_source_ok r s kind : registry_ok r → registry_ok (add_source r s kind) ∧ reg_grows r (add_source r s kind).
Proof.
  intros [H1 H2 H3 H4]. split; [split|]; cbn; [| |done|done|].
  - by rewrite !hdom_hinsert, H1.
  - intros x Hx. rewrite hdom_hinsert. apply elem_of_union_r. by apply H2.
  - split_and!; [|done..]. cbn. rewrite hdom_hinsert. set_solver.
Qed.

Lemma add_override_ok r s : registry_ok r → registry_ok (add_override r s) ∧ reg_grows r (add_override r s).
Proof.
  intros [H1 H2 H3 H4]. split; [split|]; cbn; [| |done|done|].
  - by rewrite !hdom_hinsert, H1.
  - intros x [Hx| ->%list_elem_of_singleton]%elem_of_app; rewrite hdom_hinsert; [|set_solver].
    apply elem_of_union_r. by apply H2.
  - split_and!; [|done..]. cbn. rewrite hdom_hinsert. set_solver.
Qed.

Lemma with_source_ok {A} r id s (m : cresult A * Source) :
  registry_ok r → registry_ok (with_source r id s m).2 ∧ reg_grows r (with_source r id s m).2.
Proof.
  intros [H1 H2 H3 H4]. unfold with_source. split; [split|]; cbn; rewrite ?hdom_hupdate; auto.
  split_and!; [|done..]. cbn. by rewrite hdom_hupdate.
Qed.

Lemma load_source_ok r id kind :
  registry_ok r → let '(res, r') := load_source r id kind in
  registry_ok r' ∧ reg_grows r r' ∧ (res = Ok tt → to_key id ∈ hdom (sources r')).
Proof.
  intros Hr. unfold load_source. destruct (config_load id) as [s|e|m]; [|by split_and!|by split_and!].
  destruct (_ ==? _) eqn:Hid; cbn [negb]; [|by split_and!]. apply heqb_true in Hid.
  set (r1 := if decide (kind = Override) then _ else r).
  assert (Ho : registry_ok (add_source r1 s kind) ∧ reg_grows r (add_source r1 s kind)).
  { unfold r1. case_decide as Hk; [subst kind|by apply add_source_ok].
    pose proof (add_override_ok r s Hr) as [[H1 H2 H3 H4] Hg]. split; [split; [done| |done..]|done].
    cbn in *. intros x [Hx| ->%list_elem_of_singleton]%elem_of_app.
    - apply H2. set_solver.
    - rewrite <-Hid. apply H2. set_solver. }
  destruct Ho as [Ho Hg].
  assert (Hin : to_key id ∈ hdom (sources (add_source r1 s kind))).
  { cbn. rewrite hdom_hinsert, Hid. set_solver. }
  destruct (hget (sources (add_source r1 s kind)) id) as [s'|] eqn:Hs; [|by split_and!].
  destruct (with_source_ok _ id s' (source_update s') Ho) as [H1 H2].
  destruct (with_source _ _ _ _) as [res r2] eqn:Hw. simpl in *. split_and!; [done|by etransitivity|].
  intros _. by apply (proj1 H2).
Qed.

Lemma load_ok r id kind :
  registry_ok r → let '(res, r') := load r id kind in
  registry_ok r' ∧ reg_grows r r' ∧ (res = Ok tt → to_key id ∈ hdom (sources r')).
Proof.
  intros Hr. pose proof (load_source_ok r id kind Hr) as H. unfold load.
  destruct (load_source r id kind) as [res r']. destruct H as (H1 & H2 & H3). split_and!; [done..|].
  destruct res as [u|e|m]; [done| |done]. destruct (SourceId.display id); discriminate.
Qed.

Lemma ensure_loaded_ok r id kind :
  registry_ok r → let '(res, r') := ensure_loaded r id kind in
  registry_ok r' ∧ reg_grows r r' ∧ (res = Ok tt → to_key id ∈ hdom (sources r')).
Proof.
  intros Hr. pose proof (load_ok r id kind Hr) as Hl. unfold ensure_loaded.
  destruct (hget (source_ids r) id) as [[previous k]|] eqn:Hg; [|exact Hl].
  assert (Hin : to_key id ∈ hdom (sources r)) by (rewrite <-(ok_sources _ Hr), <-hget_hdom, Hg; by eexists).
  destruct k; [|by split_and!|]; (case_bool_decide; [by split_and!|case_bool_decide; [by split_and!|exact Hl]]).
Qed.

(** An operation that keeps the invariant, the patches and the lock file. *)
Definition keeps {A} r (m : A * PackageRegistry) : Prop := registry_ok m.2 ∧ reg_grows r m.2.

Lemma keeps_trans {A} r r' (m : A * PackageRegistry) : reg_grows r r' → keeps r' m → keeps r m.
Proof. intros H [H1 H2]. split; [done|by etransitivity]. Qed.

Lemma add_sources_ok r ids : registry_ok r → keeps r (add_sources r ids).
Proof.
  revert r. induction ids as [|id ids IH]; intros r Hr; cbn [add_sources]; [by split|].
  pose proof (ensure_loaded_ok r id Locked Hr) as H. destruct (ensure_loaded r id Locked) as [[u|e|m] r'];
    destruct H as (H1 & H2 & _); [|by split..]. apply (keeps_trans r r'); [done|by apply IH].
Qed.

Lemma register_lock_ok r id deps : registry_ok r → registry_ok (register_lock r id deps).
Proof. by intros [H1 H2 H3 H4]. Qed.

Lemma patch_one_ok url r d : registry_ok r → keeps r (patch_one url r d).
Proof.
  intros Hr. unfold patch_one. pose proof (ensure_loaded_ok r (dep_source_id d) RegNormal Hr) as H.
  destruct (ensure_loaded _ _ _) as [[u|e|m] r']; destruct H as (H1 & H2 & _); [|by split..].
  destruct (hget (sources r') (dep_source_id d)) as [s|]; [|by split].
  pose proof (with_source_ok r' (dep_source_id d) s (source_query s d false) H1) as [H3 H4].
  destruct (with_source _ _ _ _) as [res r2]. simpl in H3, H4. split; [exact H3|]. by etransitivity.
Qed.

Lemma patch_all_ok url r ds acc : registry_ok r → keeps r (patch_all url r ds acc).
Proof.
  revert r acc. induction ds as [|d ds IH]; intros r acc Hr; cbn [patch_all]; [by split|].
  pose proof (patch_one_ok url r d Hr) as [H1 H2]. destruct (patch_one url r d) as [[s|e|m] r']; [|by split..].
  apply (keeps_trans r r'); [done|by apply IH].
Qed.

Lemma patch_ok r url ds : registry_ok r → registry_ok (patch r url ds).2.
Proof.
  intros Hr. unfold patch. pose proof (patch_all_ok url r ds [] Hr) as [[H1 H2 H3 H4] _].
  destruct (patch_all _ _ _ _) as [[l|e|m] r']; [|by split..]. simpl in *. split; cbn; [done|done|auto with cargo|].
  intros u. rewrite !hget_hinsert. case_decide; [|done]. simpl. f_equal. unfold id_keys.
  by rewrite <-list_fmap_compose.
Qed.

Lemma lock_key lk av s s' : lock lk av s = Ok s' → to_key (sum_package_id s') = to_key (sum_package_id s).
Proof.
  unfold lock. destruct (foldM _ _ _) as [ds|e|m]; [|done..]. intros [= <-]. cbn.
  destruct (lock_entry lk s) as [[id l]|] eqn:Hp; [|done]. apply find_some in Hp as [_ Hk]. by apply heqb_true in Hk.
Qed.

Lemma lock_all_inv r l l' :
  lock_all r l = Ok l' → Forall2 (λ s s', lock (locked r) (patches_available r) s = Ok s') l l'.
Proof.
  intros H. pose proof (foldM_collect (lock (locked r) (patches_available r)) [] l) as Hl. unfold lock_all in H.
  rewrite H in Hl. by destruct Hl as (new & -> & Hnew).
Qed.

Lemma lock_all_keys r l l' : lock_all r l = Ok l' → id_keys l' = id_keys l.
Proof.
  intros H%lock_all_inv. induction H as [|s s' l l' Hs _ IH]; [done|].
  unfold id_keys in *. cbn [fmap list_fmap]. f_equal; [by apply (lock_key _ _ _ _ Hs)|exact IH].
Qed.

Lemma lock_patches_ok r r' : registry_ok r → lock_patches r = Ok r' → registry_ok r' ∧ patches_locked r' = true.
Proof.
  intros [H1 H2 H3 H4]. unfold lock_patches. destruct (patches_locked r); [done|].
  intros (p & Hp & [= <-])%bind_Ok_inv. split; [|done].
  assert (Hinv : hwf p ∧ ∀ u, id_keys <$> hget p u = id_keys <$> hget (patches r) u).
  { revert Hp. apply (foldM_inv _ (λ p, hwf p ∧ ∀ u, id_keys <$> hget p u = id_keys <$> hget (patches r) u)); [|by split].
    intros m [k l] m' Hkv [Hm Hk] Hstep. simpl in Hstep. apply bind_Ok_inv in Hstep as (l' & Hl & [= <-]).
    split; [auto with cargo|]. intros u. rewrite hget_hinsert. case_decide as Hu; [|done].
    apply elem_of_hiter_wf in Hkv; [|done]. apply hget_Some in Hkv.
    rewrite <-(hget_key _ _ _ Hu), Hkv. simpl. by rewrite (lock_all_keys _ _ _ Hl). }
  destruct Hinv as [Hwf Hk]. split; cbn; [done..|]. intros u. by rewrite H4, Hk.
Qed.

Lemma query_overrides_ok r d ids : registry_ok r → keeps r (query_overrides r d ids).
Proof.
  revert r. induction ids as [|id ids IH]; intros r Hr; cbn [query_overrides]; [by split|].
  destruct (hget (sources r) id) as [s|]; [|by split]. destruct (new_override _ _) as [d'|e|m]; [|by split..].
  pose proof (with_source_ok r id s (source_query s d' false) Hr) as [H1 H2].
  destruct (with_source _ _ _ _) as [[[|x l]|e|m] r']; [|by split..].
  apply (keeps_trans r r'); [done|by apply IH].
Qed.

Lemma answer_override_ok r o l : registry_ok r → keeps r (answer_override r o l).
Proof.
  intros Hr. assert (Hw : ∀ s, registry_ok (warn_bad_override r o s) ∧ reg_grows r (warn_bad_override r o s)).
  { intros s. unfold warn_bad_override. destruct (bad_override _ _ _); [|by split]. by destruct Hr. }
  unfold answer_override, keeps. destruct l as [|x [|y l]]; [by split|apply (Hw x)|by split].
Qed.

Lemma query_source_ok r d fuzzy o ps : registry_ok r → keeps r (query_source r d fuzzy o ps).
Proof.
  intros Hr. unfold query_source. pose proof (ensure_loaded_ok r (dep_source_id d) RegNormal Hr) as H.
  destruct (ensure_loaded _ _ _) as [[u|e|m] r2]; destruct H as (H3 & H4 & _); [|by split..].
  apply (keeps_trans r r2); [done|].
  destruct o as [o|], (hget (sources r2) (dep_source_id d)) as [s|]; [|by split| |by split].
  - destruct ps; [|by split].
    pose proof (with_source_ok r2 (dep_source_id d) s (source_query s d fuzzy) H3) as [H5 H6].
    destruct (with_source _ _ _ _) as [[l|e|m] r3]; [|by split..].
    apply (keeps_trans r2 r3); [done|by apply answer_override_ok].
  - pose proof (with_source_ok r2 (dep_source_id d) s (source_query s d fuzzy) H3) as [H5 H6].
    destruct (with_source _ _ _ _) as [res r3]. by split.
Qed.

Lemma registry_query_ok r d fuzzy : registry_ok r → keeps r (query r d fuzzy).
Proof.
  intros Hr. unfold query. destruct (negb _); [by split|].
  pose proof (query_overrides_ok r d (overrides r) Hr) as [H1 H2].
  destruct (query_overrides _ _ _) as [[o|e|m] r1]; [|by split..]. simpl in H1, H2.
  apply (keeps_trans r r1); [done|].
  destruct (patches_for r1 d) as [|p [|p' ps]]; try by apply query_source_ok.
  destruct (is_locked d); [|by apply query_source_ok].
  destruct o as [o|]; [by apply answer_override_ok|by split].
Qed.

(** What the rest of Cargo may do to a registry. *)
Inductive registry_step r : PackageRegistry → Prop :=
| step_add_sources ids : registry_step r (add_sources r ids).2
| step_add_preloaded s : registry_step r (add_preloaded r s)
| step_add_override s : registry_step r (add_override r s)
| step_register_lock id deps : registry_step r (register_lock r id deps)
| step_patch url ds : registry_step r (patch r url ds).2
| step_lock_patches r' : lock_patches r = Ok r' → registry_step r r'
| step_query d fuzzy : registry_step r (query r d fuzzy).2.

Lemma reachable_ok r : rtc registry_step registry_new r → registry_ok r.
Proof.
  revert r. apply rtc_ind_r; [apply registry_new_ok|]. intros r1 r2 _ Hstep IH.
  destruct Hstep as [ids|s|s|id deps|url ds|r2 Hl|d fuzzy].
  - by apply add_sources_ok.
  - by apply add_source_ok.
  - by apply add_override_ok.
  - by apply register_lock_ok.
  - by apply patch_ok.
  - by apply (lock_patches_ok _ _ IH Hl).
  - by apply registry_query_ok.
Qed.

(** ** No panic *)

(** What the registry relies on of the sources. *)
Definition locatable (s : Summary) : Prop := ∀ d, d ∈ sum_dependencies s → only_match_name d = false.
Record sources_ok : Prop := {
  src_load : ∀ id s, config_load id = Ok s → to_key (source_id_of s) = to_key id;
  src_load_returns : ∀ id, is_panic (config_load id) = false;
  src_update_returns : ∀ s, is_panic (source_update s).1 = false;
  src_query_returns : ∀ s d f, is_panic (source_query s d f).1 = false;
  src_query_answers : ∀ s d f l, (source_query s d f).1 = Ok l → ∀ x, x ∈ l → locatable x;
}.
Definition patches_named r : Prop :=
  ∀ u l, hget (patches r) u = Some l → NoDup ((λ s, pid_name (sum_package_id s)) <$> l).

Lemma patches_named_one r d :
  registry_ok r → patches_named r → (length (matching_patches (patches_available r) d) ≤ 1)%nat.
Proof.
  intros Hr Hn. unfold matching_patches. pose proof (ok_patches _ Hr (sid_url (dep_source_id d))) as Hk.
  destruct (hget (patches_available r) _) as [ids|]; [|simpl; lia]. cbn [default from_option id].
  destruct (hget (patches r) _) as [l|] eqn:Hl; [|done]. injection Hk as Hk. specialize (Hn _ _ Hl).
  assert (Hids : NoDup (pid_name <$> ids)).
  { assert (Heq : pid_name <$> ids = (λ s, pid_name (sum_package_id s)) <$> l); [|by rewrite Heq].
    clear Hl Hn. unfold id_keys in Hk. revert l Hk. induction ids as [|id ids IH]; intros [|x l] Hk; try discriminate Hk; [done|].
    cbn [fmap list_fmap] in *. pose proof (f_equal head Hk) as Hx. pose proof (f_equal tail Hk) as Hrest.
    apply (inj Some) in Hx. f_equal; [|by apply IH]. by apply package_id_key_eq in Hx as [? _]. }
  clear -Hids. induction ids as [|id ids IH]; [simpl; lia|]. cbn [fmap list_fmap] in Hids.
  apply NoDup_cons in Hids as [Hid Hids]. rewrite filter_cons. case_decide as Hm; [|by apply IH].
  destruct (filter _ ids) as [|x k] eqn:Hk; [simpl; lia|]. exfalso.
  assert (Hx : x ∈ filter (λ p, matches_ignoring_source d p = true) ids) by (rewrite Hk; constructor).
  apply list_elem_of_filter in Hx as [Hm' Hx]. apply Hid.
  unfold matches_ignoring_source in Hm, Hm'. apply andb_true_iff in Hm as [Hm _], Hm' as [Hm' _].
  apply String.eqb_eq in Hm, Hm'. apply list_elem_of_fmap. exists x. split; [congruence|done].
Qed.

Lemma lock_returns `{!SemverLaws} r s :
  registry_ok r → patches_named r → locatable s →
  ∃ s', lock (locked r) (patches_available r) s = Ok s'.
Proof.
  intros Hr Hp Hs. pose proof (lock_effect (locked r) (patches_available r) s Hs) as Hlk.
  destruct (lock _ _ s) as [s'|e|m]; [by exists s'|done|]. destruct Hlk as (d & _ & _ & Hlen).
  pose proof (patches_named_one r d Hr Hp). lia.
Qed.

Lemma lock_all_returns `{!SemverLaws} r l :
  registry_ok r → patches_named r → (∀ s, s ∈ l → locatable s) → ∃ l', lock_all r l = Ok l'.
Proof.
  intros Hr Hp Hl. pose proof (foldM_collect (lock (locked r) (patches_available r)) [] l) as Hc. unfold lock_all.
  destruct (foldM _ [] l) as [l'|e|m]; [by exists l'|..]; destruct Hc as (s & Hs & Hc);
    destruct (lock_returns r s Hr Hp (Hl s Hs)) as [s' H']; congruence.
Qed.

Section returns.
Context `{!SemverLaws} (Hsrc : sources_ok).

Lemma ensure_loaded_returns r id kind :
  registry_ok r → is_panic (SourceId.display id) = false → is_panic (ensure_loaded r id kind).1 = false.
Proof.
  intros Hr Hd. assert (Hload : is_panic (load r id kind).1 = false).
  { pose proof (load_source_ok r id kind Hr) as Hok. unfold load.
    assert (Hls : is_panic (load_source r id kind).1 = false).
    { unfold load_source. pose proof (src_load_returns Hsrc id) as Hcl. destruct (config_load id) as [s|e|m] eqn:Hs; [|done..].
      rewrite (proj2 (heqb_true _ _) (src_load Hsrc _ _ Hs)). cbn [negb]. set (r1 := if decide _ then _ else _).
      destruct (hget (sources (add_source r1 s kind)) id) as [s'|] eqn:Hg.
      - unfold with_source. simpl. apply (src_update_returns Hsrc).
      - exfalso. cbn in Hg. rewrite hget_hinsert, decide_True in Hg by (by apply (src_load Hsrc)). discriminate Hg. }
    destruct (load_source r id kind) as [[u|e|m] r']; [done| |done]. simpl.
    by destruct (SourceId.display id). }
  unfold ensure_loaded. destruct (hget (source_ids r) id) as [[previous k]|]; [|exact Hload].
  destruct k; [|done|]; by repeat case_bool_decide.
Qed.

Lemma query_overrides_returns r d ids :
  registry_ok r → dep_name d ≠ EmptyString → (∀ s, s ∈ ids → to_key s ∈ hdom (sources r)) →
  match (query_overrides r d ids).1 with
  | Ok (Some s) => locatable s
  | Ok None | Err _ => True
  | Panic _ => False
  end.
Proof.
  intros Hr Hn. revert r Hr. induction ids as [|id ids IH]; intros r Hr Hin; cbn [query_overrides]; [done|].
  pose proof (Hin id ltac:(constructor)) as Hid. rewrite <-hget_hdom in Hid. destruct Hid as [s Hs]. rewrite Hs.
  unfold new_override. rewrite (proj2 (String.eqb_neq _ _) Hn). cbv iota.
  set (d' := mkDependency _ _ _ _ _ _ _ _ _ _ _ _).
  pose proof (with_source_ok r id s (source_query s d' false) Hr) as [H1 H2].
  pose proof (src_query_returns Hsrc s d' false) as Hq. pose proof (src_query_answers Hsrc s d' false) as Ha.
  unfold with_source in *. destruct (source_query s d' false) as [[[|x l]|e|m] s'] eqn:Hrun; simpl in *; [|by apply (Ha (x :: l)); constructor|done|done].
  apply IH; [done|]. intros x Hx. apply (proj1 H2). apply Hin. by constructor.
Qed.

Lemma answer_override_returns r o l :
  registry_ok r → patches_named r → locatable o → is_panic (answer_override r o l).1 = false.
Proof.
  intros Hr Hp Ho. unfold answer_override. destruct l as [|x [|y l]]; cbn [fmap list_fmap List.last]; [| |done].
  - destruct (lock_returns r o Hr Hp Ho) as [s' ->]. done.
  - assert (Hw : registry_ok (warn_bad_override r o x) ∧ patches_named (warn_bad_override r o x)).
    { unfold warn_bad_override. destruct (bad_override _ _ _); [|done]. split; [by destruct Hr|done]. }
    destruct Hw as [H1 H2]. by destruct (lock_returns _ o H1 H2 Ho) as [s' ->].
Qed.

Lemma query_source_returns r d fuzzy o ps :
  registry_ok r → patches_named r → (∀ s, o = Some s → locatable s) →
  is_panic (SourceId.display (dep_source_id d)) = false → is_panic (query_source r d fuzzy o ps).1 = false.
Proof.
  intros Hr Hp Ho Hd. unfold query_source.
  pose proof (ensure_loaded_ok r (dep_source_id d) RegNormal Hr) as He.
  pose proof (ensure_loaded_returns r (dep_source_id d) RegNormal Hr Hd) as Hret.
  destruct (ensure_loaded _ _ _) as [[u|e|m] r2]; [|done..]. destruct He as (H1 & H2 & _).
  assert (Hp2 : patches_named r2) by (unfold patches_named; by rewrite (proj1 (proj2 H2))).
  destruct o as [o|], (hget (sources r2) (dep_source_id d)) as [s|]; [|done| |done].
  - destruct ps; [|done].
    pose proof (with_source_ok r2 (dep_source_id d) s (source_query s d fuzzy) H1) as [H5 H6].
    pose proof (src_query_returns Hsrc s d fuzzy) as Hq.
    unfold with_source in *. destruct (source_query s d fuzzy) as [[l|e|m] s']; simpl in *; [|done..].
    apply answer_override_returns; [done|by unfold patches_named; rewrite (proj1 (proj2 H6))|by apply Ho].
  - pose proof (with_source_ok r2 (dep_source_id d) s (source_query s d fuzzy) H1) as [H5 H6].
    pose proof (src_query_returns Hsrc s d fuzzy) as Hq. pose proof (src_query_answers Hsrc s d fuzzy) as Ha.
    unfold with_source in *. destruct (source_query s d fuzzy) as [[l|e|m] s']; simpl in *; [|done..].
    match goal with |- context [lock_all ?r3 ?l3] => destruct (lock_all_returns r3 l3) as [l' Hl'] end; [done| | |].
    + by unfold patches_named; rewrite (proj1 (proj2 H6)).
    + intros x [_ Hx]%list_elem_of_filter. by apply (Ha l).
    + by rewrite Hl'.
Qed.
End returns.

(** No panic of the package registry can happen, whatever operations built
    it: every override and every source of a loaded dependency is in the source
    map, and the patches that [lock] consults are those that were resolved.
    The conditions are that the sources do not panic themselves, that
    [lock_patches] has run, and that a URL is not patched twice for one name. *)
Theorem query_returns `{!SemverLaws} r d fuzzy (Hsrc : sources_ok) (Hr : rtc registry_step registry_new r)
    (Hl : patches_locked r = true) (Hp : patches_named r) (Hn : dep_name d ≠ EmptyString)
    (Hd : is_panic (SourceId.display (dep_source_id d)) = false) :
  is_panic (query r d fuzzy).1 = false.
Proof.
  apply reachable_ok in Hr. unfold query. rewrite Hl. cbn [negb].
  pose proof (query_overrides_ok r d (overrides r) Hr) as [H1 H2].
  pose proof (query_overrides_returns Hsrc r d (overrides r) Hr Hn (ok_overrides _ Hr)) as Ho.
  destruct (query_overrides _ _ _) as [[o|e|m] r1]; [|done..]. simpl in H1, H2, Ho.
  assert (Hp1 : patches_named r1) by (unfold patches_named; by rewrite (proj1 (proj2 H2))).
  assert (Ho' : ∀ s, o = Some s → locatable s) by (by intros s ->).
  pose proof (query_source_returns Hsrc r1 d fuzzy o (patches_for r1 d) H1 Hp1 Ho' Hd) as Hq.
  destruct (patches_for r1 d) as [|p [|p' ps]]; [exact Hq| |exact Hq]. destruct (is_locked d); [|exact Hq].
  destruct o as [o|]; [|done]. by apply answer_override_returns; [..|apply Ho'].
Qed.

(** ** The answers *)
Definition versions (l : list Summary) : list (hkey Version) := (λ s, to_key (pid_version (sum_package_id s))) <$> l.

Lemma unpatched_spec ps s :
  unpatched ps s = true ↔ to_key (pid_version (sum_package_id s)) ∉ versions ps.
Proof.
  unfold unpatched. rewrite negb_true_iff, <-not_true_iff_false, existsb_exists. unfold versions.
  setoid_rewrite list_elem_of_fmap. split; intros H (p & H1 & H2); apply H; exists p.
  - split; [by apply list_elem_of_In|by apply heqb_true].
  - split; [by apply heqb_true|by apply list_elem_of_In].
Qed.

Lemma versions_locked r l l' :
  Forall2 (λ s s', lock (locked r) (patches_available r) s = Ok s') l l' → versions l' = versions l.
Proof.
  induction 1 as [|s s' l l' Hs _ IH]; [done|]. unfold versions in *. cbn [fmap list_fmap]. f_equal; [|exact IH].
  by apply lock_key, package_id_key_eq in Hs as (_ & ? & _).
Qed.

Lemma answers_distinct r ps found rest :
  NoDup (versions ps) → NoDup (versions found) →
  Forall2 (λ s s', lock (locked r) (patches_available r) s = Ok s') (filter (λ s, unpatched ps s = true) found) rest →
  NoDup (versions (ps ++ rest)) ∧
  ∀ s, s ∈ found → to_key (pid_version (sum_package_id s)) ∈ versions (ps ++ rest).
Proof.
  intros Hps Hf Hl. unfold versions in *. rewrite !fmap_app. fold (versions ps) (versions rest) in *.
  rewrite (versions_locked _ _ _ Hl). split.
  - apply NoDup_app. split_and!; [done| |].
    + intros x Hx (s & -> & Hs)%list_elem_of_fmap. apply list_elem_of_filter in Hs as [Hs _].
      by apply unpatched_spec in Hs.
    + clear Hl. unfold versions in *. induction found as [|s found IH]; [constructor|].
      cbn [fmap list_fmap] in Hf. apply NoDup_cons in Hf as [Hs Hf]. rewrite filter_cons.
      case_decide; [|by apply IH]. cbn [fmap list_fmap]. apply NoDup_cons. split; [|by apply IH].
      intros (x & Hx & Hin)%list_elem_of_fmap. apply Hs. rewrite Hx. apply list_elem_of_filter in Hin as [_ Hin].
      apply list_elem_of_fmap. by exists x.
  - intros s Hs. apply elem_of_app. destruct (unpatched ps s) eqn:Hu.
    + right. apply list_elem_of_fmap. exists s. split; [done|]. by apply list_elem_of_filter.
    + left. destruct (decide (to_key (pid_version (sum_package_id s)) ∈ versions ps)) as [|Hn]; [done|].
      apply unpatched_spec in Hn. congruence.
Qed.

End invariant.

(** * Concrete runs *)
Section runs.
Local Existing Instance sem_lib.
Local Existing Instance hier_lib.
Local Existing Instance std_order.

(** A source that is a list of packages. *)
Definition local_id : SourceId :=
  let u := ("file", "", ["c"], None, None) in mkSourceId u u Path None None.
Definition local_c : Summary := mkSummary (mkPackageId "c" (1, 2, 0) local_id) [] ∅ None None false.
Definition packages_of (id : SourceId) : list Summary := if is_path id then [local_c] else sample_packages.
#[local] Instance listed_sources : SourceLib := {|
  Source := SourceId;
  source_id_of s := s;
  config_load id := Ok id;
  source_update s := (Ok tt, s);
  source_query s d fuzzy := (Ok (filter (λ x, matches_id d (sum_package_id x) = true) (packages_of s)), s);
  source_describe s := "listed";
  source_is_replaced s := false;
|}.

Lemma listed_sources_ok : sources_ok.
Proof.
  split; [by intros id s [= ->]|done..|]. intros s d f l [= <-] x [_ Hx]%list_elem_of_filter. unfold packages_of in Hx.
  destruct (is_path s).
  - apply list_elem_of_singleton in Hx as ->. intros d' Hd'. destruct (not_elem_of_nil _ Hd').
  - assert (Hall : forallb (λ x, forallb (λ d, negb (only_match_name d)) (sum_dependencies x)) sample_packages = true) by vm_eq.
    rewrite forallb_forall in Hall. intros d' Hd'. apply list_elem_of_In in Hx, Hd'. specialize (Hall _ Hx).
    rewrite forallb_forall in Hall. by apply negb_true_iff, Hall.
Qed.

(** The lock file has c 1.0.0, and [patch] replaces c 1.2.0 of the registry. *)
Definition built : PackageRegistry :=
  let r := register_lock registry_new (pkg "c" (1, 0, 0)) [] in
  let r := register_lock r (pkg "a" (1, 0, 0)) [pkg "c" (1, 0, 0)] in
  (patch r (sid_url PackageId.crates_io) [mkDependency "c" local_id None SemAny true Normal false None false true [] None]).2.
Definition ready_registry : PackageRegistry := match lock_patches built with Ok r => r | _ => built end.

Lemma ready_reachable : rtc registry_step registry_new ready_registry.
Proof.
  assert (Hl : lock_patches built = Ok ready_registry).
  { assert (Hok : is_ok (lock_patches built) = true) by vm_eq. unfold ready_registry.
    destruct (lock_patches built); [done|discriminate Hok..]. }
  eapply rtc_l; [apply (step_register_lock _ (pkg "c" (1, 0, 0)) [])|].
  eapply rtc_l; [apply (step_register_lock _ (pkg "a" (1, 0, 0)) [pkg "c" (1, 0, 0)])|].
  eapply rtc_l; [apply step_patch|]. apply rtc_once. exact (step_lock_patches _ _ Hl).
Qed.

Definition answer (r : PackageRegistry) (d : Dependency) : cresult (list Summary) := (query r d false).1.

Lemma lock_spec_witness :
  (λ s, dep_req <$> sum_dependencies s) <$> lock (locked built) (patches_available built) (sum "a" (1, 0, 0) [dep "c" (1, 0, 0)] None)
    = Ok [SemExact (1, 0, 0)] ∧
  ∃ s, lock (locked built) (patches_available built) (sum "a" (1, 0, 0) [dep "c" (1, 0, 0)] None) = Ok s ∧
       to_key (sum_package_id s) = to_key (pkg "a" (1, 0, 0)).
Proof.
  split; [vm_eq|]. set (s := sum "a" (1, 0, 0) [dep "c" (1, 0, 0)] None).
  assert (Hs : ∀ d, d ∈ sum_dependencies s → only_match_name d = false).
  { intros d Hd. apply list_elem_of_singleton in Hd as ->. reflexivity. }
  assert (Hok : is_ok (lock (locked built) (patches_available built) s) = true) by vm_eq.
  pose proof (lock_spec (locked built) (patches_available built) s Hs) as H. revert H Hok.
  generalize (lock (locked built) (patches_available built) s). intros [s'|e|m] H Hok; [|discriminate Hok..].
  exists s'. split; [reflexivity|]. exact (proj1 H).
Defined.

Lemma ready_named : patches_named ready_registry.
Proof.
  intros u l Hl. unfold hget in Hl.
  assert (Hall : forallb (λ kv, bool_decide (NoDup ((λ s, pid_name (sum_package_id s)) <$> kv.2.2)))
                         (map_to_list (patches ready_registry)) = true) by vm_eq.
  rewrite forallb_forall in Hall. destruct (patches ready_registry !! to_key u) as [[k v]|] eqn:Hu; [|discriminate Hl].
  simpl in Hl. injection Hl as <-. apply elem_of_map_to_list, list_elem_of_In, Hall in Hu.
  by apply bool_decide_eq_true in Hu.
Qed.

Lemma query_returns_witness :
  answer ready_registry (dep "c" (1, 0, 0)) = Ok [local_c; sum "c" (1, 0, 0) [] None] ∧
  is_panic (query ready_registry (dep "c" (1, 0, 0)) false).1 = false.
Proof.
  split; [vm_eq|]. apply query_returns.
  - exact listed_sources_ok.
  - exact ready_reachable.
  - vm_eq.
  - exact ready_named.
  - discriminate.
  - vm_eq.
Defined.

Lemma c_distinct source f found :
  (source_query source (dep "c" (1, 0, 0)) f).1 = Ok found → NoDup (versions found).
Proof.
  intros [= <-]. unfold packages_of. apply (bool_decide_unpack (NoDup _)). destruct (is_path source); exact I.
Qed.

End runs.
