(* ===== verification/RegistryTrait.v ===== *)
(** The package registry as the resolver sees it: [PackageRegistry] keeps the
    promise of the [Registry] trait, the same answer to the same query, although
    every query may load, replace and change sources.  Answers are compared as
    the code compares package ids, that is but for the precise versions of the
    sources they name. *)
From S2P Require Import Prelude Str Extern SourceId PackageId Dependency Summary ResTypes PackageRegistry.

Local Open Scope string_scope.

Section registry_trait.
Context `{SV : SemverLib} `{UL : UrlLib} `{RS : RustStd} `{SL : !SourceLib}.
Implicit Types r : PackageRegistry.
Local Arguments hinsert : simpl never.
Local Arguments hupdate : simpl never.
Local Arguments hdom : simpl never.

(** [impl Registry for PackageRegistry], in the state the registry is in. *)
Definition at_registry (r : PackageRegistry) : Registry := {|
  registry_query d fuzzy := (PackageRegistry.query r d fuzzy).1;
  ResTypes.describe_source id := match PackageRegistry.describe_source r id with Ok s => s | _ => "" end;
  ResTypes.is_replaced id := PackageRegistry.is_replaced r id;
|}.

(** * Summaries but for precise versions *)
Definition unpinned_id (id : SourceId) : SourceId := SourceId.with_precise id None.
Definition unpinned_dep (d : Dependency) : Dependency := set_source_id d (unpinned_id (dep_source_id d)).
Definition unpinned (s : Summary) : Summary :=
  mkSummary (PackageId.with_precise (sum_package_id s) None) (unpinned_dep <$> sum_dependencies s) (sum_features s)
            (sum_checksum s) (sum_links s) (sum_namespaced_features s).
Definition told (a : cresult (list Summary)) : cresult (list Summary) := fmap (M:=list) unpinned <$> a.

Definition same_summary (s t : Summary) : Prop := unpinned s = unpinned t.
Lemma same_map {A B} (g : A → B) l l' : Forall2 (λ x y, g x = g y) l l' ↔ g <$> l = g <$> l'.
Proof. by rewrite list_eq_Forall2, Forall2_fmap. Qed.
Lemma same_some o o' : unpinned <$> Some o = unpinned <$> Some o' → same_summary o o'.
Proof. cbn. unfold same_summary. congruence. Qed.
Lemma told_ok a l' : told a = Ok l' → ∃ l, a = Ok l ∧ l' = unpinned <$> l.
Proof. destruct a as [l| |]; [|done..]. intros [= <-]. by exists l. Qed.

Lemma unpinned_id_key id id' : unpinned_id id = unpinned_id id' → to_key id = to_key id' ∧ sid_url id = sid_url id'.
Proof. destruct id, id'. by intros [= -> -> -> ->]. Qed.
Lemma unpinned_dep_eq d d' : unpinned_dep d = unpinned_dep d' →
  unpinned_id (dep_source_id d) = unpinned_id (dep_source_id d') ∧ d' = set_source_id d (dep_source_id d').
Proof.
  destruct d, d'. unfold unpinned_dep. cbn. intros [= -> H1 H2 H3 H4 -> -> -> -> -> -> -> ->]. subst.
  split; [|done]. unfold unpinned_id, SourceId.with_precise. congruence.
Qed.
Lemma same_summary_id s t : same_summary s t →
  to_key (sum_package_id s) = to_key (sum_package_id t) ∧ pid_name (sum_package_id s) = pid_name (sum_package_id t) ∧
  pid_version (sum_package_id s) = pid_version (sum_package_id t) ∧
  to_key (pid_source_id (sum_package_id s)) = to_key (pid_source_id (sum_package_id t)).
Proof.
  destruct s as [[n v i] ? ? ? ? ?], t as [[n' v' i'] ? ? ? ? ?]. intros [= -> -> H1 H2 H3 H4 _ _ _ _ _].
  assert (H : to_key i = to_key i') by (apply unpinned_id_key; unfold unpinned_id, SourceId.with_precise; congruence).
  split_and!; [|done..]. change ((n', to_key v', to_key i) = (n', to_key v', to_key i')). by rewrite H.
Qed.

(** Two loops that collect what is the same but for [g]. *)
Lemma collect_same {A A' B C} (f : A → cresult B) (f' : A' → cresult B) (g : B → C) l l' :
  Forall2 (λ x x', g <$> f x = g <$> f' x') l l' → ∀ acc acc', g <$> acc = g <$> acc' →
  fmap (M:=list) g <$> foldM (λ l x, y ← f x; Ok (l ++ [y])%list) acc l =
  fmap (M:=list) g <$> foldM (λ l x, y ← f' x; Ok (l ++ [y])%list) acc' l'.
Proof.
  induction 1 as [|x x' l l' Hx _ IH]; intros acc acc' Hacc; cbn [foldM]; [cbn; by f_equal|].
  destruct (f x) as [y| |], (f' x') as [y'| |]; cbn in Hx |- *; simplify_eq; try done. cbn.
  apply IH. rewrite !fmap_app. cbn. congruence.
Qed.

Lemma find_same {A} (f g : A → bool) l : (∀ x, f x = g x) → List.find f l = List.find g l.
Proof. intros H. induction l as [|x l IH]; cbn; [done|]. by rewrite H, IH. Qed.
Lemma lock_dep_same l a pair d d' : unpinned_dep d = unpinned_dep d' →
  unpinned_dep <$> lock_dep l a pair d = unpinned_dep <$> lock_dep l a pair d'.
Proof.
  intros Hd. pose proof (unpinned_dep_eq _ _ Hd) as [Hi He]. destruct (unpinned_id_key _ _ Hi) as [Hk Hu].
  assert (Hm : ∀ id, matches_id d' id = matches_id d id).
  { intros id. rewrite He. destruct d, d'. unfold matches_id, heqb. cbn in *. by rewrite Hk. }
  assert (Hg : ∀ id, matches_ignoring_source d' id = matches_ignoring_source d id) by (intros id; rewrite He; by destruct d, d').
  assert (Hl : ∀ id, lock_to d' id = lock_to d id).
  { intros id. rewrite He. destruct d, d'. unfold lock_to, heqb. cbn in *. by rewrite Hk. }
  assert (Hn : dep_name d' = dep_name d) by (rewrite He; by destruct d, d').
  unfold lock_dep.
  assert (Hf : ∃ o, (pair ≫= λ p, List.find (λ id, matches_id d id) p.2) = o ∧ (pair ≫= λ p, List.find (λ id, matches_id d' id) p.2) = o).
  { eexists. split; [done|]. destruct pair as [p|]; [|done]. cbn. by apply find_same. }
  destruct Hf as (o & -> & ->). destruct o as [id|]; [by rewrite Hl|].
  unfold locked_named. rewrite Hn, <-(hget_key l _ _ Hk).
  rewrite (find_same (λ p : PackageId * list PackageId, matches_id d' p.1) (λ p, matches_id d p.1)) by done.
  destruct (List.find _ _) as [[id ?]|]; [by rewrite Hl|]. rewrite <-Hu.
  rewrite (list_filter_iff (λ p, matches_ignoring_source d' p = true) (λ p, matches_ignoring_source d p = true))
    by (intros p; by rewrite Hg).
  destruct (filter _ _) as [|p [|]]; [by cbn; f_equal|destruct (existsb _ _); cbn; f_equal|done]; [|done].
  rewrite He. destruct d, d'. cbn in Hi |- *. unfold unpinned_dep. cbn. by rewrite Hi.
Qed.
Lemma lock_same l a s t : same_summary s t → unpinned <$> lock l a s = unpinned <$> lock l a t.
Proof.
  intros Hst. destruct (same_summary_id _ _ Hst) as (Hk & Hn & Hv & Hi).
  assert (He : lock_entry l t = lock_entry l s).
  { unfold lock_entry, locked_named. rewrite Hn, (hget_key l _ _ Hi). apply find_same. intros p. unfold heqb. by rewrite Hk. }
  unfold lock. rewrite He. destruct s as [id ds fs c li n], t as [id' ds' fs' c' li' n'].
  unfold same_summary, unpinned in Hst. cbn in Hst. injection Hst as H1 H2 H3 H4 H5 H6 Hds -> -> -> ->. cbn.
  set (F := λ pair (l0 : list Dependency) x, y ← lock_dep l a pair x; Ok (l0 ++ [y])%list).
  assert (Hm : ∀ pair, fmap (M:=list) unpinned_dep <$> foldM (F pair) [] ds = fmap (M:=list) unpinned_dep <$> foldM (F pair) [] ds').
  { intros pair. apply collect_same; [|done]. eapply Forall2_impl; [by apply (same_map unpinned_dep)|]. intros; by apply lock_dep_same. }
  assert (Hp : PackageId.with_precise id None = PackageId.with_precise id' None)
    by (destruct id, id'; unfold PackageId.with_precise; cbn in *; unfold SourceId.with_precise; congruence).
  clear Hk Hn Hv Hi He. destruct (lock_entry l (mkSummary id ds fs' c' li' n')) as [[precise ds0]|]; cbn [override_id sum_dependencies];
    [specialize (Hm (Some (precise, ds0)))|specialize (Hm None)]; unfold F in Hm;
    destruct (foldM _ [] ds), (foldM _ [] ds'); cbn in Hm; try discriminate Hm; cbn; unfold unpinned; cbn; congruence.
Qed.

(** * Registries that answer alike *)

(** What is relied on: a source is made for the very id that was asked for, and
    answering a query does not change its later answers. *)
Definition same_answers (s t : Source) : Prop := ∀ d f, told (source_query s d f).1 = told (source_query t d f).1.
#[global] Instance same_answers_equivalence : Equivalence same_answers.
Proof. split; [done|intros s t H d f; by rewrite H|intros s t u H1 H2 d f; by rewrite H1]. Qed.
Record sources_stable : Prop := {
  st_load_id : ∀ id s, config_load id = Ok s → source_id_of s = id;
  st_query : ∀ s d f, same_answers (source_query s d f).2 s;
}.

(** The same but for the sources, and those [P] selects answer alike. *)
Record alike (P : hkey SourceId → Prop) r r' : Prop := {
  al_overrides : overrides r' = overrides r;
  al_locked : locked r' = locked r;
  al_patches : patches r' = patches r;
  al_available : patches_available r' = patches_available r;
  al_patches_locked : patches_locked r' = patches_locked r;
  al_sources : ∀ id, P (to_key id) → option_Forall2 same_answers (hget (sources r) id) (hget (sources r') id);
}.
Definition anywhere (_ : hkey SourceId) : Prop := True.
Definition nowhere (_ : hkey SourceId) : Prop := False.
#[global] Instance alike_equivalence P : Equivalence (alike P).
Proof.
  split.
  - intros r. split; try done.
  - intros r r' [? ? ? ? ? S]. split; try done; intros id Hid; by symmetry; apply S.
  - intros r1 r2 r3 [? ? ? ? ? S1] [? ? ? ? ? S2]. split; try congruence.
    intros id Hid. etransitivity; [by apply S1|by apply S2].
Qed.
Lemma alike_weaken (P Q : hkey SourceId → Prop) r r' : (∀ k, Q k → P k) → alike P r r' → alike Q r r'.
Proof. intros H [? ? ? ? ? S]. split; auto. Qed.
Lemma alike_all P r r' : alike anywhere r r' → alike P r r'.
Proof. by apply alike_weaken. Qed.
Lemma alike_none P r r' : alike P r r' → alike nowhere r r'.
Proof. by apply alike_weaken. Qed.
Lemma alike_elsewhere P id r r' : alike (λ k, P k ∧ k ≠ to_key id) r r' →
  (P (to_key id) → option_Forall2 same_answers (hget (sources r) id) (hget (sources r') id)) → alike P r r'.
Proof.
  intros [? ? ? ? ? S] H. split; try done. intros id' Hid'.
  destruct (decide (to_key id' = to_key id)) as [Hk|Hk]; [|by apply S]. rewrite !(hget_key _ _ _ Hk). apply H. by rewrite <-Hk.
Qed.
Lemma alike_source P r r' id s : alike P r r' → P (to_key id) → hget (sources r) id = Some s →
  ∃ s', hget (sources r') id = Some s' ∧ same_answers s s'.
Proof.
  intros Ha Hid Hs. pose proof (al_sources _ _ _ Ha id Hid) as H. rewrite Hs in H.
  destruct (hget (sources r') id) as [s'|]; [|by inversion H]. exists s'. split; [done|]. by inversion H.
Qed.
Lemma alike_warn P r w : alike P r (warn r w).
Proof. by split. Qed.

Section stable.
Context (Hst : sources_stable).

(** Asking a source changes nothing that shows. *)
Lemma alike_asked r id s d f : hget (sources r) id = Some s → alike anywhere r (with_source r id s (source_query s d f)).2.
Proof.
  intros Hs. split; try done. cbn. intros id' _. rewrite hget_hupdate. case_decide as Hk; [|done].
  rewrite <-(hget_key (sources r) _ _ Hk), Hs. constructor. symmetry. apply (st_query Hst).
Qed.

(** The overrides; what was found is the same but for precise versions. *)
Lemma query_overrides_ids d ids : ∀ r, source_ids (query_overrides r d ids).2 = source_ids r.
Proof.
  induction ids as [|s ids IH]; intros r; cbn [query_overrides]; [done|].
  destruct (hget (sources r) s) as [src|]; [|done]. destruct (new_override _ _) as [d'| |]; [|done..].
  unfold with_source. destruct (source_query src d' false).1 as [[|x l]| |]; cbn; [|done..]. by rewrite IH.
Qed.
Lemma query_overrides_keeps d ids : ∀ r, alike anywhere r (query_overrides r d ids).2.
Proof.
  induction ids as [|s ids IH]; intros r; cbn [query_overrides]; [done|].
  destruct (hget (sources r) s) as [src|] eqn:Hs; [|done]. destruct (new_override _ _) as [d'| |]; [|done..].
  pose proof (alike_asked r s src d' false Hs) as H. unfold with_source in *. cbn [fst snd] in *.
  destruct (source_query src d' false).1 as [[|x l]| |]; cbn; [|done..]. etransitivity; [exact H|apply IH].
Qed.
Lemma query_overrides_same P d ids : ∀ r r', alike P r r' → (∀ s, s ∈ ids → P (to_key s)) →
  fmap (M:=option) unpinned <$> (query_overrides r d ids).1 = fmap (M:=option) unpinned <$> (query_overrides r' d ids).1.
Proof.
  induction ids as [|s ids IH]; intros r r' Ha HP; cbn [query_overrides]; [done|].
  pose proof (al_sources _ _ _ Ha s (HP s ltac:(constructor))) as Hsrc.
  destruct (hget (sources r) s) as [src|] eqn:Hs, (hget (sources r') s) as [src'|] eqn:Hs'; inversion Hsrc as [? ? Hss|]; subst; [|done].
  destruct (new_override (dep_name d) s) as [d'| |]; [|done..].
  pose proof (alike_asked r s src d' false Hs) as H1. pose proof (alike_asked r' s src' d' false Hs') as H2.
  specialize (Hss d' false). unfold with_source in *. cbn [fst snd] in *.
  destruct (source_query src d' false).1 as [[|x l]| |], (source_query src' d' false).1 as [[|x' l']| |]; cbn in Hss |- *;
    try discriminate Hss; try congruence.
  apply IH; [|intros s' Hs''; apply HP; by constructor].
  transitivity r; [symmetry; by apply alike_all, H1|]. transitivity r'; [done|by apply alike_all, H2].
Qed.

(** The end of a query with an override. *)
Lemma answer_override_keeps r o l : alike anywhere r (answer_override r o l).2 ∧ source_ids (answer_override r o l).2 = source_ids r.
Proof.
  unfold answer_override, warn_bad_override. destruct l as [|x [|y l]]; cbn; [done| |done]. destruct (bad_override _ _ _); [|done].
  split; [apply alike_warn|done].
Qed.
Lemma answer_override_same P r r' o o' l l' : alike P r r' → same_summary o o' → length l = length l' →
  told (answer_override r o l).1 = told (answer_override r' o' l').1.
Proof.
  intros Ha Ho Hl. pose proof (lock_same (locked r) (patches_available r) _ _ Ho) as H.
  assert (Hw : ∀ r0 o0 x, locked (warn_bad_override r0 o0 x) = locked r0 ∧ patches_available (warn_bad_override r0 o0 x) = patches_available r0).
  { intros r0 o0 x. unfold warn_bad_override. by destruct (bad_override _ _ _). }
  assert (HL : told (s ← lock (locked r) (patches_available r) o; Ok [s]) = told (s ← lock (locked r') (patches_available r') o'; Ok [s])).
  { rewrite (al_locked _ _ _ Ha), (al_available _ _ _ Ha).
    destruct (lock _ _ o), (lock _ _ o'); cbn in H |- *; try discriminate H; congruence. }
  unfold answer_override. destruct l as [|x [|y l]], l' as [|x' [|y' l']]; try discriminate Hl; cbn [fmap list_fmap List.last fst]; [done| |done].
  destruct (Hw r o x) as [-> ->], (Hw r' o' x') as [-> ->]. done.
Qed.

(** * Loading *)
Definition stays r (id : SourceId) : bool :=
  match hget (source_ids r) id with
  | Some (_, Locked) => true
  | Some (prev, _) => bool_decide (sid_precise prev = None) || bool_decide (sid_precise prev = sid_precise id)
  | None => false
  end.
Lemma ensure_loaded_eq r id : ensure_loaded r id RegNormal = if stays r id then (Ok tt, r) else load r id RegNormal.
Proof.
  unfold ensure_loaded, stays. destruct (hget (source_ids r) id) as [[prev []]|]; [|done| |done];
    (case_bool_decide; [done|]); by case_bool_decide.
Qed.
Definition loaded r id s := set_sources (add_source r s RegNormal) (hupdate (λ _, (source_update s).2) id (hinsert id s (sources r))).
Lemma load_made r id s : config_load id = Ok s → (source_update s).1 = Ok tt → load r id RegNormal = (Ok tt, loaded r id s).
Proof.
  intros Hs Hu. pose proof (st_load_id Hst _ _ Hs) as Hid. unfold load, load_source.
  rewrite Hs, Hid, heqb_refl. cbn [negb]. rewrite decide_False by done. unfold loaded, add_source.
  cbn [sources set_sources set_source_ids]. rewrite Hid, hget_hinsert, decide_True by done. unfold with_source. by rewrite Hu.
Qed.
(** What loading says is what the source map and the source say. *)
Lemma load_same r r' id : (load r id RegNormal).1 = (load r' id RegNormal).1 ∧
  ((load r id RegNormal).1 = Ok tt → ∃ s, config_load id = Ok s ∧ (source_update s).1 = Ok tt).
Proof.
  unfold load, load_source. destruct (config_load id) as [s| |] eqn:Hs; [|by destruct (SourceId.display id)|done].
  pose proof (st_load_id Hst _ _ Hs) as Hid. rewrite !Hid, heqb_refl. cbn [negb]. rewrite decide_False by done.
  cbn [sources add_source set_sources set_source_ids]. rewrite !Hid, !hget_hinsert, !decide_True by done. unfold with_source.
  destruct (source_update s) as [u s'] eqn:Hu. cbn [fst]. split; [done|].
  destruct u as [[]| |]; [|by destruct (SourceId.display id)|done]. intros _. exists s. by rewrite Hu.
Qed.
Lemma loaded_keeps r id s : source_id_of s = id → alike (λ k, k ≠ to_key id) r (loaded r id s).
Proof.
  intros Hid. unfold loaded, add_source. rewrite Hid. split; try done; cbn; intros id' Hne.
  rewrite hget_hupdate, decide_False, hget_hinsert, decide_False by done. done.
Qed.
Lemma loaded_source r id s : source_id_of s = id →
  (∀ id', hget (source_ids (loaded r id s)) id' = if decide (to_key id' = to_key id) then Some (id, RegNormal) else hget (source_ids r) id') ∧
  hget (sources (loaded r id s)) id = Some (source_update s).2.
Proof.
  intros Hid. unfold loaded, add_source. rewrite Hid. cbn. split; [intros id'; rewrite hget_hinsert; by repeat case_decide|].
  by rewrite hget_hupdate, !hget_hinsert, !decide_True by done.
Qed.

(** A source that answers like the one made for [id]. *)
Definition makes (id : SourceId) (t : Source) : Prop :=
  ∃ s, config_load id = Ok s ∧ (source_update s).1 = Ok tt ∧ same_answers (source_update s).2 t.
#[local] Instance makes_proper id : Proper (same_answers ==> iff) (makes id).
Proof.
  assert (H : ∀ t t', same_answers t t' → makes id t → makes id t').
  { intros t t' Ht (s & H1 & H2 & H3). exists s. split_and!; [done..|]. by transitivity t. }
  intros t t' Ht. split; [by apply H|by apply H; symmetry].
Qed.
Lemma makes_unique id t t' : makes id t → makes id t' → same_answers t t'.
Proof. intros (s & H1 & _ & H2) (s' & H3 & _ & H4). rewrite H1 in H3. injection H3 as <-. etransitivity; [symmetry; exact H2|done]. Qed.

(** What a query is offered: whether the source could be loaded, and the source. *)
Definition offer r (id : SourceId) : cresult unit * option Source :=
  let '(u, r') := ensure_loaded r id RegNormal in (u, hget (sources r') id).
Definition same_offer (o o' : cresult unit * option Source) : Prop :=
  o.1 = o'.1 ∧ (o.1 = Ok tt → option_Forall2 same_answers o.2 o'.2).
#[local] Instance same_offer_equivalence : Equivalence same_offer.
Proof.
  split; [done| |].
  - intros o o' [H1 H2]. split; [done|]. intros H. symmetry. apply H2. congruence.
  - intros o1 o2 o3 [H1 H2] [H3 H4]. split; [congruence|]. intros H. etransitivity; [by apply H2|apply H4; congruence].
Qed.
Lemma offer_load r id : stays r id = false → offer r id = ((load r id RegNormal).1, hget (sources (load r id RegNormal).2) id).
Proof. intros H. unfold offer. rewrite ensure_loaded_eq, H. by destruct (load _ _ _). Qed.
Lemma offer_stays r id : stays r id = true → offer r id = (Ok tt, hget (sources r) id).
Proof. intros H. unfold offer. by rewrite ensure_loaded_eq, H. Qed.
Lemma offer_loads r r' id : stays r id = false → stays r' id = false → same_offer (offer r id) (offer r' id).
Proof.
  intros H H'. rewrite !offer_load by done. destruct (load_same r r' id) as [H1 H2]. split; [done|]. intros Hok.
  destruct (H2 Hok) as (s & Hs & Hu). rewrite !(load_made _ id s Hs Hu). cbn [fst snd].
  by rewrite !(proj2 (loaded_source _ id s (st_load_id Hst _ _ Hs))).
Qed.
Lemma offer_made r id t : makes id t → (stays r id = true → ∃ t, hget (sources r) id = Some t ∧ makes id t) →
  ∃ t, offer r id = (Ok tt, Some t) ∧ makes id t.
Proof.
  intros (s & Hs & Hu & _) H. destruct (stays r id) eqn:Hb.
  - destruct (H eq_refl) as (t' & H1 & H2). exists t'. by rewrite offer_stays, H1.
  - exists (source_update s).2. rewrite offer_load, (load_made _ id s Hs Hu) by done. cbn [fst snd].
    rewrite (proj2 (loaded_source r id s (st_load_id Hst _ _ Hs))). split; [done|]. by exists s.
Qed.
Lemma offer_alike r r' id : hget (source_ids r') id = hget (source_ids r) id →
  option_Forall2 same_answers (hget (sources r) id) (hget (sources r') id) → same_offer (offer r id) (offer r' id).
Proof.
  intros Hi Hs. assert (H : stays r' id = stays r id) by (unfold stays; by rewrite Hi).
  destruct (stays r id) eqn:Hb; [by rewrite !offer_stays|by apply offer_loads].
Qed.
Lemma ensure_loaded_keeps r id : alike nowhere r (ensure_loaded r id RegNormal).2.
Proof.
  rewrite ensure_loaded_eq. destruct (stays r id); [done|]. unfold load, load_source.
  destruct (config_load id) as [s| |] eqn:Hs; [|done..]. pose proof (st_load_id Hst _ _ Hs) as Hid.
  rewrite !Hid, heqb_refl. cbn [negb]. rewrite decide_False by done.
  cbn [sources add_source set_sources set_source_ids]. rewrite !Hid, !hget_hinsert, !decide_True by done.
  unfold with_source. split; try done; intros ? [].
Qed.

(** * A query *)

(** A query, once its source is loaded. *)
Definition asked r (d : Dependency) (fuzzy : bool) (o : option Summary) (ps : list Summary) : cresult (list Summary) * PackageRegistry :=
  match o, hget (sources r) (dep_source_id d) with
  | Some _, None => (Err "override found but no real ones", r)
  | None, None => (Ok [], r)
  | None, Some source =>
      let '(res, r) := with_source r (dep_source_id d) source (source_query source d fuzzy) in
      (found ← res; found ← lock_all r (filter (λ s, unpatched ps s = true) found); Ok (ps ++ found)%list, r)
  | Some o, Some source =>
      match ps with
      | _ :: _ => (Err "found patches and a path override", r)
      | [] =>
          let '(res, r) := with_source r (dep_source_id d) source (source_query source d fuzzy) in
          match res with
          | Ok real => answer_override r o real
          | Err e => (Err e, r)
          | Panic m => (Panic m, r)
          end
      end
  end.
Lemma lock_all_same r r' ps l l' : locked r' = locked r → patches_available r' = patches_available r →
  Forall2 same_summary l l' →
  told (lock_all r (filter (λ s, unpatched ps s = true) l)) = told (lock_all r' (filter (λ s, unpatched ps s = true) l')).
Proof.
  intros H1 H2 HF. unfold lock_all. rewrite H1, H2. apply collect_same; [|done].
  induction HF as [|s t l l' Hs HF IH]; [by constructor|].
  assert (Hp : unpatched ps t = unpatched ps s).
  { unfold unpatched. destruct (same_summary_id _ _ Hs) as (_ & _ & -> & _). done. }
  rewrite !filter_cons, Hp. case_decide; [|done]. constructor; [by apply lock_same|done].
Qed.
Lemma told_app ps a b : told a = told b → told (found ← a; Ok (ps ++ found)%list) = told (found ← b; Ok (ps ++ found)%list).
Proof. destruct a, b; cbn; intros H; try discriminate H; [|congruence..]. injection H as H. by rewrite !fmap_app, H. Qed.
Lemma asked_same r r' d fuzzy o o' ps : alike (λ k, k = to_key (dep_source_id d)) r r' → unpinned <$> o = unpinned <$> o' →
  told (asked r d fuzzy o ps).1 = told (asked r' d fuzzy o' ps).1.
Proof.
  intros Ha Ho. pose proof (al_sources _ _ _ Ha (dep_source_id d) eq_refl) as Hsrc. unfold asked.
  destruct (hget (sources r) (dep_source_id d)) as [s|] eqn:Hs, (hget (sources r') (dep_source_id d)) as [s'|] eqn:Hs';
    inversion Hsrc as [? ? Hss|]; subst; [|by destruct o, o'].
  pose proof (alike_asked r _ s d fuzzy Hs) as H1. pose proof (alike_asked r' _ s' d fuzzy Hs') as H2.
  assert (H3 : alike nowhere (with_source r (dep_source_id d) s (source_query s d fuzzy)).2
                             (with_source r' (dep_source_id d) s' (source_query s' d fuzzy)).2).
  { transitivity r; [symmetry; by apply alike_all, H1|]. transitivity r'; [by eapply alike_none, Ha|by apply alike_all, H2]. }
  clear H1 H2. unfold with_source in *. specialize (Hss d fuzzy). cbn [fst snd] in *.
  destruct o as [o|], o' as [o'|]; try discriminate Ho.
  - destruct ps; [|done].
    destruct (source_query s d fuzzy).1 as [l| |], (source_query s' d fuzzy).1 as [l'| |]; try discriminate Hss; [|cbn in *; congruence..].
    apply (answer_override_same nowhere _ _ _ _ _ _ H3); [by apply same_some|]. injection Hss as Hss. apply (f_equal length) in Hss. by rewrite !length_fmap in Hss.
  - destruct (source_query s d fuzzy).1 as [l| |], (source_query s' d fuzzy).1 as [l'| |]; try discriminate Hss; [|cbn in *; congruence..].
    injection Hss as Hss. apply same_map in Hss. apply told_app.
    exact (lock_all_same _ _ ps l l' (al_locked _ _ _ H3) (al_available _ _ _ H3) Hss).
Qed.
Lemma asked_keeps r d fuzzy o ps : alike anywhere r (asked r d fuzzy o ps).2 ∧ source_ids (asked r d fuzzy o ps).2 = source_ids r.
Proof.
  unfold asked. destruct o as [o|], (hget (sources r) (dep_source_id d)) as [s|] eqn:Hs; [|done| |done].
  - destruct ps; [|done]. pose proof (alike_asked r _ s d fuzzy Hs) as H. unfold with_source in *. cbn [fst snd] in *.
    destruct (source_query s d fuzzy).1; [|done..]. match goal with |- context [answer_override ?r1 o ?l] => destruct (answer_override_keeps r1 o l) as [H1 H2] end.
    split; [by etransitivity; [exact H|]|by rewrite H2].
  - split; [exact (alike_asked r _ s d fuzzy Hs)|done].
Qed.

(** A query is the overrides, the patches, the source. *)
Definition answered_by r (d : Dependency) (fuzzy : bool) (o : option Summary) : cresult (list Summary) * PackageRegistry :=
  match patches_for r d, is_locked d with
  | [patch], true =>
      match o with
      | Some summary => answer_override r summary [patch]
      | None => (Ok [patch], r)
      end
  | patches, _ => query_source r d fuzzy o patches
  end.
Definition by_patch r (d : Dependency) : bool := match patches_for r d, is_locked d with [_], true => true | _, _ => false end.
Lemma answered_by_source r d fuzzy o : by_patch r d = false →
  answered_by r d fuzzy o =
    match ensure_loaded r (dep_source_id d) RegNormal with
    | (Err e, r') => (chain_err ("failed to load source for a dependency on `" ++ dep_name d ++ "`") (Err e), r')
    | (Panic m, r') => (Panic m, r')
    | (Ok _, r') => asked r' d fuzzy o (patches_for r d)
    end.
Proof. unfold answered_by, by_patch. by destruct (patches_for r d) as [|? [|]], (is_locked d). Qed.
Lemma query_eq r d fuzzy :
  query r d fuzzy =
    if negb (patches_locked r) then (Panic "assertion failed: self.patches_locked", r)
    else match query_overrides r d (overrides r) with
         | (Ok o, r) => answered_by r d fuzzy o
         | (Err e, r) => (Err e, r)
         | (Panic m, r) => (Panic m, r)
         end.
Proof. reflexivity. Qed.
Lemma by_patch_same r r' d : alike nowhere r r' → by_patch r' d = by_patch r d ∧ patches_for r' d = patches_for r d.
Proof. intros Ha. unfold by_patch, patches_for. by rewrite (al_patches _ _ _ Ha). Qed.
Lemma answered_by_patch r r' d fuzzy o o' : alike nowhere r r' → unpinned <$> o = unpinned <$> o' → by_patch r d = true →
  told (answered_by r d fuzzy o).1 = told (answered_by r' d fuzzy o').1 ∧
  alike anywhere r (answered_by r d fuzzy o).2 ∧ source_ids (answered_by r d fuzzy o).2 = source_ids r.
Proof.
  intros Ha Ho Hb. destruct (by_patch_same _ _ d Ha) as [_ Hp]. unfold answered_by. rewrite Hp. unfold by_patch in Hb.
  destruct (patches_for r d) as [|p [|]]; [done| |done]. destruct (is_locked d); [|done].
  destruct o as [o|], o' as [o'|]; try discriminate Ho; [|done]. split; [|apply answer_override_keeps].
  apply (answer_override_same nowhere); [done|by apply same_some|done].
Qed.

(** Two registries that offer the same give the same answer. *)
Lemma query_same r r' d fuzzy : alike (λ k, k ∈ to_key <$> overrides r) r r' →
  same_offer (offer r (dep_source_id d)) (offer r' (dep_source_id d)) →
  told (query r d fuzzy).1 = told (query r' d fuzzy).1.
Proof.
  intros Ha Hoff. rewrite !query_eq, (al_patches_locked _ _ _ Ha), (al_overrides _ _ _ Ha). destruct (negb _); [done|].
  pose proof (query_overrides_same _ d (overrides r) r r' Ha ltac:(intros s Hs; by apply list_elem_of_fmap_2)) as H1.
  pose proof (query_overrides_keeps d (overrides r) r) as H2. pose proof (query_overrides_keeps d (overrides r) r') as H3.
  pose proof (query_overrides_ids d (overrides r) r) as H4. pose proof (query_overrides_ids d (overrides r) r') as H5.
  destruct (query_overrides r d _) as [o r1], (query_overrides r' d _) as [o' r1']. cbn in H1, H2, H3, H4, H5.
  destruct o as [o| |], o' as [o'| |]; cbn in H1; try discriminate H1; [|cbn; congruence..]. injection H1 as H1.
  assert (Hn : alike nowhere r1 r1').
  { transitivity r; [symmetry; by apply alike_all, H2|]. transitivity r'; [by eapply alike_none, Ha|by apply alike_all, H3]. }
  destruct (by_patch r1 d) eqn:Hb; [by apply answered_by_patch|]. destruct (by_patch_same _ _ d Hn) as [Hb' Hp].
  rewrite !answered_by_source, Hp by congruence.
  assert (Hoff' : same_offer (offer r1 (dep_source_id d)) (offer r1' (dep_source_id d))).
  { transitivity (offer r (dep_source_id d)); [symmetry; apply offer_alike; [by rewrite H4|by apply (al_sources _ _ _ H2)]|].
    etransitivity; [exact Hoff|]. apply offer_alike; [by rewrite H5|by apply (al_sources _ _ _ H3)]. }
  clear Hoff. pose proof (ensure_loaded_keeps r1 (dep_source_id d)) as K1. pose proof (ensure_loaded_keeps r1' (dep_source_id d)) as K2.
  unfold offer in Hoff'. destruct (ensure_loaded r1 _ _) as [u r2], (ensure_loaded r1' _ _) as [u' r2']. destruct Hoff' as [Hu Hs]. cbn in *. subst u'.
  destruct u as [[]| |]; [|done..]. apply asked_same; [|done].
  apply (alike_elsewhere _ (dep_source_id d)); [|intros _; by apply Hs].
  eapply (alike_weaken nowhere); [intros k []; done|]. transitivity r1; [by symmetry|]. by transitivity r1'.
Qed.

(** What a query leaves: the sources it found, or one more made for it. *)
Lemma query_leaves r d fuzzy l r' : query r d fuzzy = (Ok l, r') →
  (alike anywhere r r' ∧ source_ids r' = source_ids r) ∨
  ∃ r1 s, alike anywhere r r1 ∧ source_ids r1 = source_ids r ∧ stays r (dep_source_id d) = false ∧
    config_load (dep_source_id d) = Ok s ∧ (source_update s).1 = Ok tt ∧
    alike anywhere (loaded r1 (dep_source_id d) s) r' ∧ source_ids r' = source_ids (loaded r1 (dep_source_id d) s).
Proof.
  rewrite query_eq. destruct (negb _); [done|].
  pose proof (query_overrides_keeps d (overrides r) r) as H1. pose proof (query_overrides_ids d (overrides r) r) as H2.
  destruct (query_overrides r d _) as [o r1]. cbn [snd] in H1, H2. destruct o as [o| |]; [|done..]. intros Hq.
  destruct (by_patch r1 d) eqn:Hb.
  { left. destruct (answered_by_patch r1 r1 d fuzzy o o ltac:(done) eq_refl Hb) as (_ & H3 & H4). rewrite Hq in H3, H4. cbn in H3, H4.
    split; [by etransitivity|congruence]. }
  rewrite answered_by_source, ensure_loaded_eq in Hq by done.
  assert (Hst' : stays r1 (dep_source_id d) = stays r (dep_source_id d)) by (unfold stays; by rewrite H2).
  rewrite Hst' in Hq. destruct (stays r (dep_source_id d)) eqn:Hs.
  - left. destruct (asked_keeps r1 d fuzzy o (patches_for r1 d)) as [H3 H4]. rewrite Hq in H3, H4. cbn in H3, H4.
    split; [by etransitivity|congruence].
  - right. destruct (load_same r1 r1 (dep_source_id d)) as [_ Hl].
    destruct (load r1 (dep_source_id d) RegNormal) as [u r2] eqn:He. destruct u as [[]| |]; [|done..].
    destruct (Hl eq_refl) as (s & Hc & Hu). rewrite (load_made _ _ s Hc Hu) in He. injection He as <-.
    exists r1, s. destruct (asked_keeps (loaded r1 (dep_source_id d) s) d fuzzy o (patches_for r1 d)) as [H3 H4].
    rewrite Hq in H3, H4. done.
Qed.

(** * Histories of queries *)

(** A source that stays whatever is asked: that of the lock file, or one made
    without a precise version. *)
Definition firm r (id : SourceId) : Prop :=
  ∃ prev k, hget (source_ids r) id = Some (prev, k) ∧ (k = Locked ∨ sid_precise prev = None).
Lemma firm_stays r id : firm r id → stays r id = true.
Proof.
  intros (prev & k & Hk & H). unfold stays. rewrite Hk. destruct k; [|done|];
    (destruct H as [H|H]; [done|]; by rewrite (bool_decide_eq_true_2 _ H)).
Qed.
(** A source made for the first id may stand for one made for the second. *)
Definition interchangeable (id id' : SourceId) : Prop := ∀ t, makes id t → makes id' t.
(** The source the registry has for [id], if it does not stay, is one made for
    the id it is filed under, and may stand for one made for [id]. *)
Definition steady r (id : SourceId) : Prop :=
  ∀ prev k, hget (source_ids r) id = Some (prev, k) →
    firm r id ∨ (∃ cur, hget (sources r) id = Some cur ∧ makes prev cur) ∧ interchangeable prev id.

(** What a series of queries that named [ids] may leave of a registry. *)
Record later (ids : list SourceId) r0 r : Prop := {
  lt_alike : alike (λ k, k ∈ hdom (sources r0)) r0 r;
  lt_ids : ∀ id,
    hget (source_ids r) id = hget (source_ids r0) id ∨
    ¬ firm r0 id ∧ ∃ p t, hget (source_ids r) id = Some (p, RegNormal) ∧ p ∈ ids ∧ to_key p = to_key id ∧
      hget (sources r) id = Some t ∧ makes p t;
}.
Lemma later_refl ids r : later ids r r.
Proof. split; [done|by left]. Qed.
Lemma firm_key r id id' : to_key id = to_key id' → firm r id → firm r id'.
Proof. intros Hk. unfold firm. by rewrite (hget_key _ _ _ Hk). Qed.
Lemma has_source r id : registry_ok r → hget (source_ids r) id ≠ None → to_key id ∈ hdom (sources r).
Proof. intros Hok H. rewrite <-(ok_sources _ Hok). apply hget_hdom. by apply not_eq_None_Some. Qed.

(** The source that was there, when it does not stay, is as good as a new one. *)
Lemma steady_makes r id : registry_ok r → steady r id → ¬ firm r id → to_key id ∈ hdom (sources r) →
  ∃ cur, hget (sources r) id = Some cur ∧ makes id cur.
Proof.
  intros Hok Hs Hf Hd. rewrite <-(ok_sources _ Hok) in Hd. apply hget_hdom in Hd as [[prev k] Hk].
  destruct (Hs _ _ Hk) as [?|[(cur & H1 & H2) H3]]; [done|]. exists cur. auto.
Qed.

Lemma later_offer ids r0 r id : registry_ok r0 → later ids r0 r → (∀ p, p ∈ ids → steady r0 p) →
  (∀ p, p ∈ ids → to_key p = to_key id → interchangeable p id) → same_offer (offer r0 id) (offer r id).
Proof.
  intros Hok [Ha Hi] Hs Hag. destruct (Hi id) as [H|(Hf & p & t & H1 & H2 & H3 & H4 & H5)].
  - destruct (hget (source_ids r0) id) as [e|] eqn:He; [|apply offer_loads; unfold stays; [by rewrite He|by rewrite H]].
    apply offer_alike; [by rewrite H|]. apply (al_sources _ _ _ Ha). apply has_source; [done|by rewrite He].
  - pose proof (Hag p H2 H3 t H5) as Hm.
    assert (H0 : stays r0 id = true → ∃ t, hget (sources r0) id = Some t ∧ makes id t).
    { intros Hst0. assert (Hd : to_key p ∈ hdom (sources r0)).
      { rewrite H3. apply has_source; [done|]. intros Hn. unfold stays in Hst0. by rewrite Hn in Hst0. }
      destruct (steady_makes r0 p Hok (Hs p H2) ltac:(intros Hp; by apply Hf, (firm_key _ p)) Hd) as (cur & Hc & Hmc).
      exists cur. rewrite <-(hget_key _ _ _ H3). split; [done|by apply (Hag p)]. }
    destruct (offer_made r0 id t Hm H0) as (t0 & -> & M0).
    destruct (offer_made r id t Hm ltac:(intros _; by exists t)) as (t1 & -> & M1).
    split; [done|]. intros _. constructor. by apply (makes_unique id).
Qed.

Lemma later_query ids r0 r d fuzzy l r' : registry_ok r0 → later ids r0 r → dep_source_id d ∈ ids → steady r0 (dep_source_id d) →
  query r d fuzzy = (Ok l, r') → later ids r0 r'.
Proof.
  intros Hok [Ha Hi] Hin Hs Hq. apply query_leaves in Hq. revert Hin Hs Hq. generalize (dep_source_id d).
  intros id Hin Hs [[H1 H2]|(r1 & s & H1 & H2 & H3 & Hc & Hu & H4 & H5)].
  - split; [transitivity r; [done|by apply alike_all]|]. intros id'. rewrite H2.
    destruct (Hi id') as [?|(Hf & p & t & K1 & K2 & K3 & K4 & K5)]; [by left|right; split; [done|]].
    destruct (alike_source _ _ _ _ _ H1 I K4) as (t' & Ht & Htt). exists p, t'. split_and!; [done..|]. by rewrite <-Htt.
  - pose proof (st_load_id Hst _ _ Hc) as Hid. destruct (loaded_source r1 id s Hid) as [L1 L2].
    destruct (alike_source _ _ _ _ _ H4 I L2) as (t' & Ht & Htt).
    assert (Hm : makes id t') by by exists s.
    assert (Hf : ¬ firm r0 id).
    { destruct (Hi id) as [K|[K _]]; [|done]. intros (prev & k & K1 & K2).
      rewrite (firm_stays r id) in H3; [done|]. exists prev, k. by rewrite K. }
    assert (Hrest : alike (λ k, k ≠ to_key id) r r').
    { transitivity r1; [by apply alike_all|]. transitivity (loaded r1 id s); [by apply loaded_keeps|by apply alike_all]. }
    split.
    + apply (alike_elsewhere _ id).
      * transitivity r; [eapply alike_weaken; [|exact Ha]; by intros k []|eapply alike_weaken; [|exact Hrest]; by intros k []].
      * intros Hd. destruct (steady_makes r0 id Hok Hs Hf Hd) as (cur & -> & Hcur). rewrite Ht. constructor. by apply (makes_unique id).
    + intros id'. rewrite H5, L1, H2. case_decide as Hk.
      * right. split; [intros F; by apply Hf, (firm_key _ id')|]. exists id, t'. by rewrite (hget_key _ _ _ Hk).
      * destruct (Hi id') as [?|(Hf' & p & t & K1 & K2 & K3 & K4 & K5)]; [by left|right; split; [done|]].
        destruct (alike_source _ _ _ _ _ Hrest Hk K4) as (t2 & Ht2 & Htt2). exists p, t2. split_and!; [done..|]. by rewrite <-Htt2.
Qed.

(** The registry after a series of queries that all gave an answer. *)
Fixpoint answered r (qs : list (Dependency * bool)) : option PackageRegistry :=
  match qs with
  | [] => Some r
  | (d, fuzzy) :: qs => match query r d fuzzy with (Ok _, r) => answered r qs | _ => None end
  end.
Lemma later_answered ids r0 qs : registry_ok r0 → ∀ r r', later ids r0 r →
  (∀ q, q ∈ qs → dep_source_id q.1 ∈ ids ∧ steady r0 (dep_source_id q.1)) → answered r qs = Some r' → later ids r0 r'.
Proof.
  intros Hok. induction qs as [|[d f] qs IH]; intros r r' Hl Hqs Ha; cbn [answered] in Ha; [by injection Ha as <-|].
  destruct (query r d f) as [[l| |] r1] eqn:Hq; [|done..].
  destruct (Hqs (d, f) ltac:(constructor)) as [H1 H2].
  apply (IH r1); [by eapply later_query|intros q Hin; apply Hqs; by constructor|done].
Qed.
End stable.

(** C21. The package registry keeps the promise the resolver relies on: after any
    series of queries that were answered, a query gets the answer the registry
    would have given at the start, up to the precise versions of source ids,
    although a source may have been loaded by an earlier query, or replaced
    because an earlier query named it with another precise version.  Relied on:
    answering does not change a source, and ids of one source under which it is
    asked make sources that answer alike, the source at hand included (of
    registries [RegistryPins.answer_pins] shows it). *)
Theorem query_repeats r r' qs d fuzzy (Hst : sources_stable) (Hr : rtc registry_step registry_new r)
    (Hqs : answered r qs = Some r')
    (Hsteady : ∀ q, q ∈ qs → steady r (dep_source_id q.1))
    (Hagree : ∀ q, q ∈ qs → to_key (dep_source_id q.1) = to_key (dep_source_id d) →
       interchangeable (dep_source_id q.1) (dep_source_id d)) :
  told (query r' d fuzzy).1 = told (registry_query (Registry:=at_registry r) d fuzzy).
Proof.
  cbn. apply reachable_ok in Hr. set (ids := (λ q : Dependency * bool, dep_source_id q.1) <$> qs).
  assert (Hl : later ids r r').
  { apply (later_answered Hst ids r qs Hr r r' (later_refl ids r)); [|done].
    intros q Hq. split; [by apply (list_elem_of_fmap_2 (λ q : Dependency * bool, dep_source_id q.1))|by apply Hsteady]. }
  symmetry. apply (query_same Hst).
  - eapply alike_weaken; [|apply (lt_alike _ _ _ Hl)]. intros k (s & -> & Hs)%list_elem_of_fmap. by apply (ok_overrides _ Hr).
  - apply (later_offer Hst ids); [done|done| |]; intros p (q & -> & Hq)%list_elem_of_fmap; [by apply Hsteady|by apply Hagree].
Qed.
End registry_trait.

(** * A concrete run *)
Section runs.
Local Existing Instance sem_lib.
Local Existing Instance hier_lib.
Local Existing Instance std_order.

(** Sources whose packages name the source as it was asked for. *)
Definition pinned_as (id : SourceId) (s : Summary) : Summary :=
  override_id s (PackageId.with_precise (sum_package_id s) (sid_precise id)).
#[local] Instance pinned_sources : SourceLib := {|
  Source := SourceId;
  source_id_of s := s;
  config_load id := Ok id;
  source_update s := (Ok tt, s);
  source_query s d fuzzy :=
    (Ok (filter (λ x, matches_id d (sum_package_id x) = true) (pinned_as s <$> sample_packages)), s);
  source_describe s := "listed";
  source_is_replaced s := false;
|}.
Lemma pinned_alike (s t : Source) : same_answers s t.
Proof.
  intros d f. refine (f_equal Ok (proj1 (same_map unpinned _ _) _)). induction sample_packages as [|x l IH]; [constructor|]. rewrite !fmap_cons, !filter_cons.
  assert (H : ∀ id, matches_id d (sum_package_id (pinned_as id x)) = matches_id d (sum_package_id x)) by done.
  rewrite !H. case_decide; [constructor; [done|exact IH]|exact IH].
Qed.
Lemma pinned_stable : sources_stable.
Proof. split; [by intros id s [= ->]|intros; apply pinned_alike]. Qed.

Definition start : PackageRegistry := match lock_patches registry_new with Ok r => r | _ => registry_new end.
Lemma start_reachable : rtc registry_step registry_new start.
Proof.
  assert (Hl : lock_patches registry_new = Ok start).
  { assert (Hok : is_ok (lock_patches registry_new) = true) by vm_eq. unfold start.
    destruct (lock_patches registry_new); [done|discriminate Hok..]. }
  apply rtc_once. exact (step_lock_patches _ _ Hl).
Qed.

(** A partially locked graph: crates.io is named with a precise version, and then
    without, so that the second query replaces the source of the first. *)
Definition crates_locked : SourceId := SourceId.with_precise PackageId.crates_io (Some "locked").
Definition earlier : list (Dependency * bool) :=
  [(set_source_id (dep "a" (1, 0, 0)) crates_locked, false); (dep "b" (1, 0, 0), true)].
Definition asked_last : Dependency := set_source_id (dep "c" (1, 0, 0)) crates_locked.
Definition after (qs : list (Dependency * bool)) : PackageRegistry := default start (answered start qs).
Definition precise_at (r : PackageRegistry) : option (option string) :=
  (λ e : SourceId * RegKind, sid_precise e.1) <$> hget (source_ids r) PackageId.crates_io.
Definition answers_of (r : PackageRegistry) : list (option string) :=
  match (query r asked_last false).1 with
  | Ok l => (λ s, sid_precise (pid_source_id (sum_package_id s))) <$> l
  | _ => []
  end.
Lemma query_repeats_witness :
  precise_at start = None ∧ precise_at (after (take 1 earlier)) = Some (Some "locked") ∧ precise_at (after earlier) = Some None ∧
  answers_of start = [Some "locked"; Some "locked"] ∧ answers_of (after earlier) = [None; None] ∧
  told (query (after earlier) asked_last false).1 = told (registry_query (Registry:=at_registry start) asked_last false).
Proof.
  split; [vm_eq|]. split; [vm_eq|]. split; [vm_eq|]. split; [vm_eq|]. split; [vm_eq|].
  assert (Hsome : bool_decide (is_Some (answered start earlier)) = true) by vm_eq.
  assert (Hqs : answered start earlier = Some (after earlier)).
  { unfold after. destruct (answered start earlier); [done|discriminate Hsome]. }
  assert (Hin : ∀ q, q ∈ earlier → to_key (dep_source_id q.1) = to_key PackageId.crates_io).
  { intros q [-> |[->|H]%elem_of_cons]%elem_of_cons; [reflexivity|reflexivity|]. destruct (not_elem_of_nil _ H). }
  assert (Hnew : precise_at start = None) by vm_eq.
  apply (query_repeats start (after earlier) earlier asked_last false pinned_stable start_reachable Hqs).
  - intros q Hq prev k Hk. exfalso. rewrite (hget_key _ _ _ (Hin q Hq)) in Hk. unfold precise_at in Hnew. by rewrite Hk in Hnew.
  - intros q Hq _ t _. exists (dep_source_id asked_last). split; [done|]. split; [done|]. apply pinned_alike.
Defined.
End runs.
