(* ===== verification/ResContext.v ===== *)
(** The resolver's context, [src/cargo/core/resolver/context.rs]: activated
    packages, [links], features, and the requirements of one package. *)
From S2P Require Import Prelude Str Extern SourceId PackageId Graph Dependency Summary ResTypes.

Local Open Scope string_scope.

Section context.
Context `{SV : SemverLib} `{UL : UrlLib} `{RS : RustStd}.

(** [type Activations], [struct Context]; an [RcList] is a list whose head was
    pushed last. *)
Abbreviation Activations := (hashmap (string * SourceId) (list Summary)).
Record Context := mkContext {
  activations : Activations;
  resolve_features : hashmap PackageId (gset string);
  links : gmap string PackageId;
  resolve_graph : list GraphNode;
  resolve_replacements : list (PackageId * PackageId);
  warnings : list string;
}.

(** [Context::new] *)
Definition context_new : Context := mkContext ∅ ∅ ∅ [] [] [].

(** Assignments to single fields *)
Definition set_activations (cx : Context) a :=
  mkContext a (resolve_features cx) (links cx) (resolve_graph cx) (resolve_replacements cx) (warnings cx).
Definition set_resolve_features (cx : Context) f :=
  mkContext (activations cx) f (links cx) (resolve_graph cx) (resolve_replacements cx) (warnings cx).
Definition set_links (cx : Context) l :=
  mkContext (activations cx) (resolve_features cx) l (resolve_graph cx) (resolve_replacements cx) (warnings cx).
Definition push_graph (cx : Context) (n : GraphNode) :=
  mkContext (activations cx) (resolve_features cx) (links cx) (n :: resolve_graph cx)
            (resolve_replacements cx) (warnings cx).
Definition push_replacement (cx : Context) (r : PackageId * PackageId) :=
  mkContext (activations cx) (resolve_features cx) (links cx) (resolve_graph cx)
            (r :: resolve_replacements cx) (warnings cx).
Definition push_warning (cx : Context) (w : string) :=
  mkContext (activations cx) (resolve_features cx) (links cx) (resolve_graph cx)
            (resolve_replacements cx) (w :: warnings cx).

Definition activation_key (id : PackageId) : string * SourceId := (pid_name id, pid_source_id id).

(** [Context::flag_activated]; the context is changed on errors too. *)
Definition flag_activated (cx : Context) (summary : Summary) (method : Method)
    : cresult bool * Context :=
  let id := sum_package_id summary in
  let key := activation_key id in
  let cx := set_activations cx (hor_insert key [] (activations cx)) in
  let prev := default [] (hget (activations cx) key) in
  if negb (existsb (λ c, summary_eq c summary) prev) then
    let cx := push_graph cx (GAdd id) in
    let pushed cx := set_activations cx (hupdate (λ prev, prev ++ [summary])%list key (activations cx)) in
    match sum_links summary with
    | None => (Ok false, pushed cx)
    | Some link =>
        let old := links cx !! link in
        let cx := set_links cx (<[link := id]> (links cx)) in
        match old with
        | Some _ =>
            (Err ("Attempting to resolve a with more then one crate with the links=" ++ link ++ ". " ++ nl ++
                  "This will not build as is. Consider rebuilding the .lock file."), cx)
        | None => (Ok false, pushed cx)
        end
    end
  else
    match method with
    | Everything => (Ok false, cx)
    | Required _ _ true _ => (Ok false, cx)
    | Required _ features false use_default =>
        let has_default_feature := is_key (sum_features summary) "default" in
        (Ok (match hget (resolve_features cx) id with
             | Some prev =>
                 forallb (λ f, bool_decide (f ∈ prev)) features &&
                 (negb use_default || bool_decide ("default" ∈ prev) || negb has_default_feature)
             | None => bool_decide (features = []) && (negb use_default || negb has_default_feature)
             end), cx)
    end.

(** [prev_active], [is_active], [is_conflicting] *)
Definition prev_active (cx : Context) (dep : Dependency) : list Summary :=
  default [] (hget (activations cx) (dep_name dep, dep_source_id dep)).
Definition is_active (cx : Context) (id : PackageId) : bool :=
  match hget (activations cx) (activation_key id) with
  | Some v => existsb (λ s, sum_package_id s ==? id) v
  | None => false
  end.
Definition is_conflicting (cx : Context) (parent : option PackageId)
    (conflicting_activations : hashmap PackageId ConflictReason) : bool :=
  forallb (is_active cx) (hkeys conflicting_activations) &&
  match parent with Some id => is_active cx id | None => true end.

(** * Requirements of one package *)

(** [struct Requirements]; the summary is an argument of the operations. *)
Record Requirements := mkReqs {
  reqs_deps : hashmap string (bool * list string);
  reqs_used : gset string;
  reqs_visited : gset string;
}.
Definition reqs_new : Requirements := mkReqs ∅ ∅ ∅.

Definition require_crate_feature (r : Requirements) (package feat : string) : Requirements :=
  mkReqs (hupdate (λ p : bool * list string, (p.1, (p.2 ++ [feat])%list)) package
                  (hor_insert package (false, []) (reqs_deps r)))
         ({[package]} ∪ reqs_used r) (reqs_visited r).

Definition seen (r : Requirements) (feat : string) : bool * Requirements :=
  if bool_decide (feat ∈ reqs_visited r) then (true, r)
  else (false, mkReqs (reqs_deps r) ({[feat]} ∪ reqs_used r) ({[feat]} ∪ reqs_visited r)).

Definition require_dependency (r : Requirements) (pkg : string) : Requirements :=
  match seen r pkg with
  | (true, r) => r
  | (false, r) =>
      mkReqs (hupdate (λ p : bool * list string, (true, p.2)) pkg
                      (hor_insert pkg (false, []) (reqs_deps r)))
             (reqs_used r) (reqs_visited r)
  end.

Definition is_self (feat : string) (fv : FeatureValue) : bool :=
  match fv with Feature dep_feat => String.eqb dep_feat feat | _ => false end.

(** [require_feature] and [require_value]; every nested call marks one more
    feature of the summary, so their number bounds the depth. *)
Fixpoint require_feature (fuel : nat) (s : Summary) (feat : string) (r : Requirements)
    : option (cresult Requirements) :=
  if String.eqb feat EmptyString then Some (Ok r)
  else
    match seen r feat with
    | (true, r) => Some (Ok r)
    | (false, r) =>
        match fuel with
        | O => None
        | S fuel =>
            match sum_features s !! feat with
            | None => Some (Panic "must be a valid feature")
            | Some fvs =>
                (fix values (fvs : list FeatureValue) (r : Requirements) :=
                   match fvs with
                   | [] => Some (Ok r)
                   | fv :: fvs =>
                       if is_self feat fv then
                         Some (Err ("Cyclic feature dependency: feature `" ++ feat ++ "` depends on itself"))
                       else
                         let* r := match fv with
                                   | Feature feat => require_feature fuel s feat r
                                   | Crate dep => Some (Ok (require_dependency r dep))
                                   | CrateFeature dep dep_feat =>
                                       Some (Ok (require_crate_feature r dep dep_feat))
                                   end in
                         values fvs r
                   end) fvs r
            end
        end
    end.

Definition features_fuel (s : Summary) : nat := S (size (sum_features s)).

Definition require_value (s : Summary) (fv : FeatureValue) (r : Requirements)
    : option (cresult Requirements) :=
  match fv with
  | Feature feat => require_feature (features_fuel s) s feat r
  | Crate dep => Some (Ok (require_dependency r dep))
  | CrateFeature dep dep_feat => Some (Ok (require_crate_feature r dep dep_feat))
  end.

Fixpoint require_all {A} (f : A → Requirements → option (cresult Requirements)) (l : list A)
    (r : Requirements) : option (cresult Requirements) :=
  match l with
  | [] => Some (Ok r)
  | x :: l => let* r := f x r in require_all f l r
  end.

(** [build_requirements] *)
Definition build_requirements (s : Summary) (method : Method) : option (cresult Requirements) :=
  let everything :=
    let* r := require_all (require_feature (features_fuel s) s) (btree_iter (sum_features s)).*1 reqs_new in
    Some (Ok (foldl (λ r d, require_dependency r (name_in_toml d)) r
                    (filter (λ d, optional d = true) (sum_dependencies s)))) in
  let default_features r :=
    if is_key (sum_features s) "default" then require_feature (features_fuel s) s "default" r
    else Some (Ok r) in
  match method with
  | Everything => let* r := everything in default_features r
  | Required _ requested all_features uses_default_features =>
      let* r := if all_features then everything
                else require_all (λ f r, require_value s (feature_value_new f s) r) requested reqs_new in
      if uses_default_features then default_features r else Some (Ok r)
  end.

(** * [Context::resolve_features] and [Context::build_deps] *)

Definition required_warning (id name : string) : string :=
  "Package `" ++ id ++ "` does not have feature `" ++ name ++
  "`. It has a required dependency with that name, but only optional dependencies can be used as features. This is currently a warning to ease the transition, but it will become an error in the future.".

(** The loop over the dependencies; it collects the enabled ones with their
    features, and the names that were used, and pushes warnings. *)
Fixpoint collect_deps (s : Summary) (reqs : Requirements) (deps : list Dependency)
    (ret : list (Dependency * list string)) (used_features : gset string) (cx : Context)
    : res ActivateError (list (Dependency * list string) * gset string) * Context :=
  match deps with
  | [] => (Ok (ret, used_features), cx)
  | dep :: deps =>
      if optional dep && negb (hcontains (reqs_deps reqs) (name_in_toml dep)) then
        collect_deps s reqs deps ret used_features cx
      else
        let base := default (false, []) (hget (reqs_deps reqs) (name_in_toml dep)) in
        let used_features := {[name_in_toml dep]} ∪ used_features in
        let always_required :=
          negb (optional dep) &&
          negb (existsb (λ d, optional d && String.eqb (name_in_toml d) (name_in_toml dep))
                        (sum_dependencies s)) in
        let warned :=
          if always_required && base.1 then
            match PackageId.display (sum_package_id s) with
            | Ok id => Ok (push_warning cx (required_warning id (name_in_toml dep)))
            | Err e => Err (Fatal e)
            | Panic m => Panic m
            end
          else Ok cx in
        match warned with
        | Ok cx =>
            let base := (base.2 ++ dep_features dep)%list in
            match List.find (contains_char "/") base with
            | Some feature =>
                (Err (Fatal ("feature names may not contain slashes: `" ++ feature ++ "`")), cx)
            | None => collect_deps s reqs deps (ret ++ [(dep, base)])%list used_features cx
            end
        | Err e => (Err e, cx)
        | Panic m => (Panic m, cx)
        end
  end.

Definition dev_deps_of (method : Method) : bool :=
  match method with Everything => true | Required dev_deps _ _ _ => dev_deps end.

(** Requested names that are neither features nor dependencies. *)
Definition missing (reqs : Requirements) (used_features : gset string) : list string :=
  filter (λ k, k ∉ used_features) (hkeys (reqs_deps reqs)).

Definition resolve_features_of (cx : Context) (parent : option Summary) (s : Summary) (method : Method)
    : option (res ActivateError (list (Dependency * list string)) * Context) :=
  let deps := filter (λ d, is_transitive d || dev_deps_of method = true) (sum_dependencies s) in
  match build_requirements s method with
  | None => None
  | Some (Err e) => Some (Err (Fatal e), cx)
  | Some (Panic m) => Some (Panic m, cx)
  | Some (Ok reqs) =>
      Some
        match collect_deps s reqs deps [] ∅ cx with
        | (Err e, cx) => (Err e, cx)
        | (Panic m, cx) => (Panic m, cx)
        | (Ok (ret, used_features), cx) =>
            match missing reqs used_features with
            | [] =>
                if bool_decide (reqs_used reqs = ∅) then (Ok ret, cx)
                else
                  let id := sum_package_id s in
                  (Ok ret, set_resolve_features cx
                     (hupdate (λ set, set ∪ reqs_used reqs) id
                              (hor_insert id ∅ (resolve_features cx))))
            | remaining =>
                let features := join ", " remaining in
                match parent with
                | None =>
                    match PackageId.display (sum_package_id s) with
                    | Ok id => (Err (Fatal ("Package `" ++ id ++ "` does not have these features: `" ++
                                            features ++ "`")), cx)
                    | Err e => (Err (Fatal e), cx)
                    | Panic m => (Panic m, cx)
                    end
                | Some p => (Err (Conflict (sum_package_id p) (MissingFeatures features)), cx)
                end
            end
        end
  end.

Context `{RG : !Registry}.

(** The candidates of each dependency; the queryer keeps what was cached
    before an error. *)
Fixpoint query_all (q : RegistryQueryer) (deps : list (Dependency * list string)) (acc : list DepInfo)
    : cresult (list DepInfo) * RegistryQueryer :=
  match deps with
  | [] => (Ok acc, q)
  | (dep, features) :: deps =>
      match ResTypes.query q dep with
      | (Ok candidates, q) => query_all q deps (acc ++ [(dep, candidates, features)])%list
      | (Err e, q) => (Err e, q)
      | (Panic m, q) => (Panic m, q)
      end
  end.

Definition build_deps (cx : Context) (q : RegistryQueryer) (parent : option Summary)
    (candidate : Summary) (method : Method)
    : option (res ActivateError (list DepInfo) * Context * RegistryQueryer) :=
  match resolve_features_of cx parent candidate method with
  | None => None
  | Some (Err e, cx) => Some (Err e, cx, q)
  | Some (Panic m, cx) => Some (Panic m, cx, q)
  | Some (Ok deps, cx) =>
      match query_all q deps [] with
      | (Ok deps, q) =>
          Some (Ok (sort_by (λ a b : DepInfo, Nat.compare (length a.1.2) (length b.1.2)) deps), cx, q)
      | (Err e, q) => Some (Err (Fatal e), cx, q)
      | (Panic m, q) => Some (Panic m, cx, q)
      end
  end.

(** * What is built from the lists at the end *)

(** [Context::resolve_replacements] *)
Definition replacements_of (cx : Context) : hashmap PackageId PackageId :=
  foldl (λ m kv, hinsert kv.1 kv.2 m) ∅ (resolve_replacements cx).

(** [Context::graph] *)
Definition graph_of (cx : Context) : Graph PackageId (list Dependency) :=
  foldl (λ g n, match n with
                | GAdd p => Graph.add g p
                | GLink a b dep => Graph.link g a b [] (λ deps, deps ++ [dep])%list
                end) Graph.new (resolve_graph cx).
End context.
