(* ===== verification/ResFeatures.v ===== *)
(** The features of one package in a resolution: what [build_requirements] of
    [src/cargo/core/resolver/context.rs] computes is the set of everything that
    can be reached from what is requested. *)
From S2P Require Import Prelude Str Extern SourceId PackageId Cfg Dependency Summary ResTypes ResContext.

Local Open Scope string_scope.

Section requirements.
Context `{SV : SemverLib} `{UL : UrlLib} `{RS : RustStd}.
Context (s : Summary).
Implicit Types (r : Requirements) (v : FeatureValue).

(** What is reached from [root] through the features of the summary; the empty
    name stands for no feature. *)
Inductive reach (root : FeatureValue) : FeatureValue → Prop :=
| reach_root : reach root root
| reach_step f vs v : reach root (Feature f) → f ≠ EmptyString →
    sum_features s !! f = Some vs → v ∈ vs → reach root v.

(** What the requirements have recorded. *)
Definition has r v : Prop :=
  match v with
  | Feature f => f ∈ reqs_visited r ∧ is_key (sum_features s) f = true
  | Crate c => ∃ l, hget (reqs_deps r) c = Some (true, l)
  | CrateFeature c g => ∃ b l, hget (reqs_deps r) c = Some (b, l) ∧ g ∈ l
  end.
Definition sat r v : Prop := v = Feature EmptyString ∨ has r v.

(** No dependency is named like a feature, and features refer to features. *)
Definition separate : Prop :=
  ∀ k vs v, sum_features s !! k = Some vs → v ∈ vs →
    match v with
    | Feature f => is_key (sum_features s) f = true
    | Crate c => is_key (sum_features s) c = false
    | CrateFeature _ _ => True
    end.

(** Marks that are no features are dependencies, and what is used is what is
    marked or has a feature requested. *)
Definition reqs_ok r : Prop :=
  (∀ c, c ∈ reqs_visited r → is_key (sum_features s) c = false → has r (Crate c)) ∧
  (∀ c, c ∈ reqs_used r ↔ c ∈ reqs_visited r ∨ ∃ g, has r (CrateFeature c g)) ∧
  (∀ c l, hget (reqs_deps r) c = Some (true, l) → c ∈ reqs_visited r) ∧
  (∀ c, hget (reqs_deps r) c = Some (false, []) → False).

(** Everything asked for by features marked since [r] is recorded in [r']. *)
Definition closed_since r r' : Prop :=
  ∀ f vs v, f ∈ reqs_visited r' → (f ∉ reqs_visited r) → sum_features s !! f = Some vs →
    v ∈ vs → sat r' v ∧ is_self f v = false.

Definition grows r r' : Prop :=
  reqs_visited r ⊆ reqs_visited r' ∧ ∀ v, has r v → has r' v.

(** A feature that lists itself. *)
Definition self_cycle (root : FeatureValue) : Prop :=
  ∃ f vs, reach root (Feature f) ∧ f ≠ EmptyString ∧ sum_features s !! f = Some vs ∧ Feature f ∈ vs.

Definition post (root : FeatureValue) r (m : option (cresult Requirements)) : Prop :=
  match m with
  | Some (Ok r') => grows r r' ∧ reqs_ok r' ∧ closed_since r r' ∧ sat r' root ∧
      ∀ v, has r' v → has r v ∨ reach root v
  | Some (Err _) => self_cycle root
  | _ => False
  end.

Lemma grows_refl r : grows r r.
Proof. done. Qed.
Lemma grows_trans r1 r2 r3 : grows r1 r2 → grows r2 r3 → grows r1 r3.
Proof. intros [H1 H2] [H3 H4]. split; [set_solver|auto]. Qed.
Lemma sat_grows r r' v : grows r r' → sat r v → sat r' v.
Proof. intros [_ Hg] [?|?]; [by left|right; auto]. Qed.
Lemma closed_since_trans r1 r2 r3 :
  grows r2 r3 → closed_since r1 r2 → closed_since r2 r3 → closed_since r1 r3.
Proof.
  intros Hg H1 H2 f vs v Hf Hn Hfs Hv. destruct (decide (f ∈ reqs_visited r2)) as [Hf2|Hf2].
  - destruct (H1 f vs v Hf2 Hn Hfs Hv) as [Hs Hself]. split; [|done]. by eapply sat_grows.
  - by eapply H2.
Qed.
Lemma reach_trans a b v : reach a b → reach b v → reach a v.
Proof. intros Ha. induction 1; [done|econstructor; eauto]. Qed.

(** ** The operations *)
Lemma require_crate_feature_post r c g :
  reqs_ok r → post (CrateFeature c g) r (Some (Ok (require_crate_feature r c g))).
Proof.
  intros (H1 & H2 & H3 & H4). set (r' := require_crate_feature r c g).
  assert (Hget : ∀ n, hget (reqs_deps r') n =
    if decide (c = n) then Some (prod_map id (λ l, l ++ [g])%list (default (false, []) (hget (reqs_deps r) n)))
    else hget (reqs_deps r) n).
  { intros n. simpl. autorewrite with cargo. change (to_key c) with c. change (to_key n) with n.
    repeat case_decide; by subst. }
  assert (Hhas : ∀ v, has r' v ↔ has r v ∨ v = CrateFeature c g).
  { intros [f|n|n h]; simpl; rewrite ?Hget.
    - split; [by left|intros [?|?]; done].
    - case_decide as Hd; [subst n|split; [by left|by intros [?|?]]].
      destruct (hget (reqs_deps r) c) as [[b l]|]; simpl; naive_solver.
    - case_decide as Hd; [subst n|].
      + destruct (hget (reqs_deps r) c) as [[b l]|]; simpl; split.
        * intros (b' & l' & [= <- <-] & [Hin|Hin%list_elem_of_singleton]%elem_of_app); [by eauto|right; by subst].
        * intros [(b' & l' & [= <- <-] & Hin)|[= ->]]; eexists _, _; (split; [done|]);
            apply elem_of_app; [by left|right; constructor].
        * intros (b' & l' & [= <- <-] & ->%list_elem_of_singleton). by right.
        * intros [(b' & l' & ? & _)|[= ->]]; [done|]. eexists _, _. split; [done|constructor].
      + split; [by left|]. intros [?|[= -> ->]]; done. }
  split_and!.
  - split; [done|]. intros v Hv. apply Hhas. by left.
  - split_and!.
    + intros n Hn Hk. apply Hhas. left. by apply H1.
    + intros n. change (reqs_used r') with ({[c]} ∪ reqs_used r).
      change (reqs_visited r') with (reqs_visited r).
      rewrite elem_of_union, elem_of_singleton, H2. setoid_rewrite Hhas. naive_solver.
    + intros n l. rewrite Hget. case_decide as Hd; [subst n|by apply H3].
      destruct (hget (reqs_deps r) c) as [[b l']|] eqn:Hc; simpl; intros [= -> _].
      by apply (H3 c l').
    + intros n. rewrite Hget. case_decide as Hd; [|apply H4].
      destruct (hget (reqs_deps r) n) as [[b l']|]; simpl; [|done]. intros [= _ Hl].
      by destruct l'.
  - intros f vs v Hf Hn. done.
  - right. apply Hhas. by right.
  - intros v [Hv | ->]%Hhas; [by left|right; constructor].
Qed.

Lemma require_dependency_post r c :
  reqs_ok r → is_key (sum_features s) c = false →
  post (Crate c) r (Some (Ok (require_dependency r c))).
Proof.
  intros (H1 & H2 & H3 & H4) Hc. unfold require_dependency, seen.
  case_bool_decide as Hv.
  { split_and!; [done|done| |right; by apply H1|by left].
    intros f vs v Hf Hn. done. }
  set (r' := mkReqs _ _ _).
  assert (Hget : ∀ n, hget (reqs_deps r') n =
    if decide (c = n) then Some (true, (default (false, []) (hget (reqs_deps r) n)).2)
    else hget (reqs_deps r) n).
  { intros n. simpl. autorewrite with cargo. change (to_key c) with c. change (to_key n) with n.
    repeat case_decide; by subst. }
  assert (Hhas : ∀ v, has r' v ↔ has r v ∨ v = Crate c).
  { intros [f|n|n h].
    - simpl. rewrite elem_of_union, elem_of_singleton. split; [|by intros [[]|]; auto].
      intros [[->|?] ?]; [congruence|by left].
    - unfold has. rewrite Hget. case_decide as Hd; [subst n|].
      + split; [by right|eauto].
      + split; [by left|]. intros [?|[= ->]]; done.
    - unfold has. rewrite Hget. case_decide as Hd; [subst n|split; [by left|intros [?|?]; done]].
      destruct (hget (reqs_deps r) c) as [[b l]|]; simpl; split.
      + intros (b' & l' & [= <- <-] & Hin). left. eauto.
      + intros [(b' & l' & [= <- <-] & Hin)|?]; [eauto|done].
      + intros (b' & l' & [= <- <-] & Hin). by apply elem_of_nil in Hin.
      + intros [(b' & l' & ? & _)|?]; done. }
  split_and!.
  - split; [simpl; set_solver|]. intros v Hr. apply Hhas. by left.
  - split_and!.
    + intros n Hn Hk. apply Hhas. simpl in Hn. apply elem_of_union in Hn as [->%elem_of_singleton|Hn]; [by right|].
      left. by apply H1.
    + intros n. change (reqs_used r') with ({[c]} ∪ reqs_used r).
      change (reqs_visited r') with ({[c]} ∪ reqs_visited r).
      rewrite !elem_of_union, !elem_of_singleton, H2. setoid_rewrite Hhas. naive_solver.
    + intros n l. rewrite Hget. simpl. rewrite elem_of_union, elem_of_singleton.
      case_decide as Hd; [by left|]. right. by apply (H3 n l).
    + intros n. rewrite Hget. case_decide as Hd; [done|apply H4].
  - intros f vs v Hf Hn Hfs. simpl in Hf. apply elem_of_union in Hf as [->%elem_of_singleton|Hf]; [|done].
    unfold is_key in Hc. rewrite Hfs in Hc. apply bool_decide_eq_false in Hc. destruct Hc. eauto.
  - right. apply Hhas. by right.
  - intros v [Hr | ->]%Hhas; [by left|right; constructor].
Qed.

(** ** The recursion *)
Context (Hsep : separate).

(** Sequences of requirements, one [post] after the other. *)
Lemma post_seq root1 root2 root r m1 m2 :
  reach root root1 → reach root root2 →
  post root1 r m1 → (∀ r', m1 = Some (Ok r') → post root2 r' (m2 r')) →
  match fbind m1 m2 with
  | Some (Ok r') => grows r r' ∧ reqs_ok r' ∧ closed_since r r' ∧ sat r' root1 ∧ sat r' root2 ∧
      ∀ v, has r' v → has r v ∨ reach root v
  | Some (Err _) => self_cycle root
  | _ => False
  end.
Proof.
  intros Hr1 Hr2 Hp1 Hp2. unfold fbind. destruct m1 as [[r1|e|p]|]; [|simpl in Hp1|done|done].
  2: { destruct Hp1 as (f & vs & Hr & Hrest). exists f, vs. split; [eauto using reach_trans|done]. }
  destruct Hp1 as (Hg1 & Hok1 & Hc1 & Hs1 & Hh1). specialize (Hp2 r1 eq_refl).
  destruct (m2 r1) as [[r2|e|p]|]; [|simpl in Hp2|done|done].
  - destruct Hp2 as (Hg2 & Hok2 & Hc2 & Hs2 & Hh2). split_and!; try done.
    + by eapply grows_trans.
    + by eapply closed_since_trans.
    + by eapply sat_grows.
    + intros v [Hv|Hv]%Hh2; [destruct (Hh1 v Hv)|]; eauto using reach_trans.
  - destruct Hp2 as (f & vs & Hr & Hrest). exists f, vs. split; [eauto using reach_trans|done].
Qed.

(** The loop over the values of a feature, with the recursive call abstract. *)
Definition values_loop (rf : string → Requirements → option (cresult Requirements)) (feat : string)
    : list FeatureValue → Requirements → option (cresult Requirements) :=
  fix values (fvs : list FeatureValue) (r : Requirements) :=
    match fvs with
    | [] => Some (Ok r)
    | fv :: fvs =>
        if is_self feat fv then
          Some (Err ("Cyclic feature dependency: feature `" ++ feat ++ "` depends on itself"))
        else
          let* r := match fv with
                    | Feature feat => rf feat r
                    | Crate dep => Some (Ok (require_dependency r dep))
                    | CrateFeature dep dep_feat => Some (Ok (require_crate_feature r dep dep_feat))
                    end in
          values fvs r
    end.

Lemma require_feature_S fuel feat r :
  require_feature (S fuel) s feat r =
  if String.eqb feat EmptyString then Some (Ok r)
  else match seen r feat with
       | (true, r) => Some (Ok r)
       | (false, r) =>
           match sum_features s !! feat with
           | None => Some (Panic "must be a valid feature")
           | Some fvs => values_loop (require_feature fuel s) feat fvs r
           end
       end.
Proof. reflexivity. Qed.

(** Features that are not marked yet. *)
Definition unmarked r : gset string := dom (sum_features s) ∖ reqs_visited r.

Lemma unmarked_grows r r' : grows r r' → (size (unmarked r') ≤ size (unmarked r))%nat.
Proof. intros [Hv _]. apply subseteq_size. unfold unmarked. set_solver. Qed.

Lemma is_key_dom f : is_key (sum_features s) f = true ↔ f ∈ dom (sum_features s).
Proof. unfold is_key. by rewrite bool_decide_eq_true, elem_of_dom. Qed.

Definition rf_ok (fuel : nat) (rf : string → Requirements → option (cresult Requirements)) : Prop :=
  ∀ f r, reqs_ok r → (f = EmptyString ∨ is_key (sum_features s) f = true) →
    (size (unmarked r) < fuel)%nat → post (Feature f) r (rf f r).

Lemma values_loop_spec fuel rf feat root all fvs r :
  rf_ok fuel rf → sum_features s !! feat = Some all → (∀ v, v ∈ fvs → v ∈ all) →
  reach root (Feature feat) → feat ≠ EmptyString → reqs_ok r →
  (size (unmarked r) < fuel)%nat →
  match values_loop rf feat fvs r with
  | Some (Ok r') => grows r r' ∧ reqs_ok r' ∧ closed_since r r' ∧
      (∀ v, v ∈ fvs → sat r' v ∧ is_self feat v = false) ∧
      ∀ v, has r' v → has r v ∨ reach root v
  | Some (Err _) => self_cycle root
  | _ => False
  end.
Proof.
  intros Hrf Hall Hsub Hroot Hne. revert r. induction fvs as [|fv fvs IH]; intros r Hok Hfuel; simpl.
  { split_and!; try done; [|by left].
    intros v Hv. by apply elem_of_nil in Hv. }
  assert (Hfv : fv ∈ all) by (apply Hsub; constructor).
  assert (Hreach : reach root fv) by (by eapply reach_step).
  destruct (is_self feat fv) eqn:Hself.
  { destruct fv as [f|c|c f]; try done. apply String.eqb_eq in Hself as ->. by exists feat, all. }
  set (m := match fv with Feature f => rf f r | Crate _ => _ | CrateFeature _ _ => _ end).
  assert (Hm : post fv r m).
  { pose proof (Hsep _ _ _ Hall Hfv) as Hs. unfold m. destruct fv as [f|c|c f].
    - apply Hrf; [done|by right|done].
    - by apply require_dependency_post.
    - by apply require_crate_feature_post. }
  destruct m as [[r1|e|p]|]; [|simpl in Hm|done|done].
  2: { destruct Hm as (f & vs & Hr & Hrest). exists f, vs. split; [eauto using reach_trans|done]. }
  destruct Hm as (Hg1 & Hok1 & Hc1 & Hs1 & Hh1).
  pose proof (unmarked_grows _ _ Hg1) as Hle.
  specialize (IH (λ v Hv, Hsub v (list_elem_of_further _ _ _ Hv)) r1 Hok1 ltac:(lia)).
  simpl. destruct (values_loop rf feat fvs r1) as [[r2|e|p]|].
  - destruct IH as (Hg2 & Hok2 & Hc2 & Hall2 & Hh2). split_and!; try done.
    + by eapply grows_trans.
    + by eapply closed_since_trans.
    + intros v [->|Hv]%elem_of_cons; [|by apply Hall2]. split; [|done]. by eapply sat_grows.
    + intros v [Hv|Hv]%Hh2; [destruct (Hh1 v Hv)|]; eauto using reach_trans.
  - done.
  - done.
  - done.
Qed.

Definition mark r f : Requirements :=
  mkReqs (reqs_deps r) ({[f]} ∪ reqs_used r) ({[f]} ∪ reqs_visited r).

Lemma has_mark r f v :
  is_key (sum_features s) f = true → has (mark r f) v ↔ has r v ∨ v = Feature f.
Proof.
  intros Hk. destruct v as [g|c|c g]; simpl; [|naive_solver..].
  rewrite elem_of_union, elem_of_singleton. naive_solver.
Qed.

Lemma mark_ok r f : is_key (sum_features s) f = true → reqs_ok r → reqs_ok (mark r f).
Proof.
  intros Hk (H1 & H2 & H3 & H4). split_and!.
  - intros c Hc Hck. simpl in Hc. apply elem_of_union in Hc as [->%elem_of_singleton|Hc]; [congruence|].
    apply H1 in Hc; [|done]. exact Hc.
  - intros c. change (reqs_used (mark r f)) with ({[f]} ∪ reqs_used r).
    change (reqs_visited (mark r f)) with ({[f]} ∪ reqs_visited r).
    rewrite !elem_of_union, H2. setoid_rewrite has_mark; [|done..]. naive_solver.
  - intros c l Hc. simpl. apply elem_of_union. right. by apply (H3 c l).
  - exact H4.
Qed.

Lemma require_feature_spec fuel : rf_ok fuel (require_feature fuel s).
Proof.
  induction fuel as [|fuel IH]; intros f r Hok Hf Hfuel; [lia|].
  rewrite require_feature_S. destruct (String.eqb_spec f EmptyString) as [->|Hne].
  { split_and!; try done; [by left|by left]. }
  destruct Hf as [?|Hk]; [done|]. unfold seen. case_bool_decide as Hv.
  { split_and!; try done; [by right|by left]. }
  pose proof Hk as Hk'. unfold is_key in Hk'. apply bool_decide_eq_true in Hk' as [all Hall].
  rewrite Hall. change (mkReqs _ _ _) with (mark r f).
  assert (Hlt : (size (unmarked (mark r f)) < size (unmarked r))%nat).
  { apply subset_size. unfold unmarked. simpl. split; [set_solver|].
    intros Hs. assert (Hfd : f ∈ dom (sum_features s) ∖ reqs_visited r)
      by (apply elem_of_difference; split; [by apply is_key_dom|done]).
    apply Hs in Hfd. apply elem_of_difference in Hfd as [_ Hfd]. apply Hfd.
    apply elem_of_union. left. by apply elem_of_singleton. }
  pose proof (values_loop_spec fuel (require_feature fuel s) f (Feature f) all all (mark r f) IH Hall
    (λ v Hv, Hv) (reach_root _) Hne (mark_ok r f Hk Hok) ltac:(lia)) as Hl.
  destruct (values_loop _ f all (mark r f)) as [[r'|e|p]|]; [|exact Hl|done|done].
  destruct Hl as (Hg & Hok' & Hc & Hall' & Hh).
  assert (Hgm : grows r (mark r f)).
  { split; [simpl; set_solver|]. intros v Hhv. apply has_mark; [done|by left]. }
  split_and!.
  - by eapply grows_trans.
  - done.
  - intros g vs v Hgv Hgn Hgs Hin. destruct (decide (g = f)) as [->|Hgf].
    + assert (vs = all) as -> by congruence. by apply Hall'.
    + eapply Hc; eauto. simpl. rewrite elem_of_union, elem_of_singleton. tauto.
  - right. destruct Hg as [_ Hg]. apply Hg, has_mark; [done|by right].
  - intros v [Hv'|Hv']%Hh; [|by right]. apply has_mark in Hv' as [?| ->]; [by left|right; constructor|done].
Qed.

(** ** Several requests *)
Definition post_all (roots : list FeatureValue) r (m : option (cresult Requirements)) : Prop :=
  match m with
  | Some (Ok r') => grows r r' ∧ reqs_ok r' ∧ closed_since r r' ∧
      (∀ root, root ∈ roots → sat r' root) ∧
      ∀ v, has r' v → has r v ∨ ∃ root, root ∈ roots ∧ reach root v
  | Some (Err _) => ∃ root, root ∈ roots ∧ self_cycle root
  | _ => False
  end.

Lemma post_all_nil r : reqs_ok r → post_all [] r (Some (Ok r)).
Proof.
  intros Hok. split_and!; [done..| | |by left].
  - intros f vs v Hf Hn. done.
  - intros root Hr. by apply elem_of_nil in Hr.
Qed.

Lemma post_all_app roots1 roots2 r m1 m2 :
  post_all roots1 r m1 → (∀ r', m1 = Some (Ok r') → post_all roots2 r' (m2 r')) →
  post_all (roots1 ++ roots2) r (fbind m1 m2).
Proof.
  intros Hp1 Hp2. unfold fbind. destruct m1 as [[r1|e|p]|]; [|simpl in Hp1|done|done].
  2: { destruct Hp1 as (root & Hr & Hc). exists root. split; [apply elem_of_app; by left|done]. }
  destruct Hp1 as (Hg1 & Hok1 & Hc1 & Hs1 & Hh1). specialize (Hp2 r1 eq_refl).
  destruct (m2 r1) as [[r2|e|p]|]; [|simpl in Hp2|done|done].
  - destruct Hp2 as (Hg2 & Hok2 & Hc2 & Hs2 & Hh2). split_and!; try done.
    + by eapply grows_trans.
    + by eapply closed_since_trans.
    + intros root [Hr|Hr]%elem_of_app; [|by apply Hs2]. eapply sat_grows; eauto.
    + setoid_rewrite elem_of_app. intros v [Hv|Hv]%Hh2; [destruct (Hh1 v Hv)|]; naive_solver.
  - destruct Hp2 as (root & Hr & Hc). exists root. split; [apply elem_of_app; by right|done].
Qed.

Lemma post_all_one root r m : post root r m → post_all [root] r m.
Proof.
  unfold post, post_all. destruct m as [[r'|e|p]|]; try done.
  - intros (H1 & H2 & H3 & H4 & H5). split_and!; try done.
    + by intros root' ->%list_elem_of_singleton.
    + intros v [?|?]%H5; [by left|right]. exists root. split; [constructor|done].
  - intros H. exists root. split; [constructor|done].
Qed.

Lemma require_all_post {A} (f : A → Requirements → option (cresult Requirements))
    (root_of : A → FeatureValue) l r :
  (∀ x r, x ∈ l → reqs_ok r → post (root_of x) r (f x r)) → reqs_ok r →
  post_all (root_of <$> l) r (require_all f l r).
Proof.
  revert r. induction l as [|x l IH]; intros r Hf Hok; simpl; [by apply post_all_nil|].
  apply (post_all_app [root_of x] (root_of <$> l)).
  - apply post_all_one, Hf; [constructor|done].
  - intros r' Hr'. apply IH; [intros y r2 Hy; apply Hf; by constructor|].
    pose proof (Hf x r ltac:(constructor) Hok) as Hp. rewrite Hr' in Hp. apply Hp.
Qed.

Lemma post_all_ok roots r m r' : post_all roots r m → m = Some (Ok r') → reqs_ok r'.
Proof. intros Hp ->. apply Hp. Qed.

Lemma fuel_enough r : (size (unmarked r) < features_fuel s)%nat.
Proof.
  unfold features_fuel. assert (H : (size (unmarked r) ≤ size (dom (sum_features s)))%nat)
    by (apply subseteq_size; unfold unmarked; set_solver).
  rewrite size_dom in H. lia.
Qed.

Lemma require_feature_post f r :
  reqs_ok r → f = EmptyString ∨ is_key (sum_features s) f = true →
  post (Feature f) r (require_feature (features_fuel s) s f r).
Proof. intros Hok Hf. apply require_feature_spec; [done|done|apply fuel_enough]. Qed.

(** What a method requests. *)
Definition everything_roots : list FeatureValue :=
  (Feature <$> (btree_iter (sum_features s)).*1) ++
  ((λ d, Crate (name_in_toml d)) <$> filter (λ d, optional d = true) (sum_dependencies s)).
Definition default_roots : list FeatureValue :=
  if is_key (sum_features s) "default" then [Feature "default"] else [].
Definition roots (method : Method) : list FeatureValue :=
  match method with
  | Everything => everything_roots ++ default_roots
  | Required _ requested all_features uses_default_features =>
      (if all_features then everything_roots
       else (λ f, feature_value_new f s) <$> requested) ++
      (if uses_default_features then default_roots else [])
  end.

Context (Hns : sum_namespaced_features s = false).
Context (Hopt : ∀ d, d ∈ sum_dependencies s → is_key (sum_features s) (name_in_toml d) = false).

Lemma default_post r :
  reqs_ok r →
  post_all default_roots r
    (if is_key (sum_features s) "default" then require_feature (features_fuel s) s "default" r
     else Some (Ok r)).
Proof.
  intros Hok. unfold default_roots. destruct (is_key _ "default") eqn:Hk; [|by apply post_all_nil].
  apply post_all_one, require_feature_post; [done|by right].
Qed.

Lemma optional_post l r :
  reqs_ok r → (∀ d, d ∈ l → is_key (sum_features s) (name_in_toml d) = false) →
  post_all ((λ d, Crate (name_in_toml d)) <$> l) r
    (Some (Ok (foldl (λ r d, require_dependency r (name_in_toml d)) r l))).
Proof.
  revert r. induction l as [|d l IH]; intros r Hok Hl; simpl; [by apply post_all_nil|].
  pose proof (require_dependency_post r (name_in_toml d) Hok (Hl d ltac:(constructor))) as Hp.
  pose proof (post_all_app [Crate (name_in_toml d)] ((λ d, Crate (name_in_toml d)) <$> l) r
    (Some (Ok (require_dependency r (name_in_toml d))))
    (λ r, Some (Ok (foldl (λ r d, require_dependency r (name_in_toml d)) r l)))) as Ha.
  apply Ha; [by apply post_all_one|]. intros r' [= <-]. apply IH; [apply Hp|].
  intros d' Hd'. apply Hl. by constructor.
Qed.

Lemma everything_post r :
  reqs_ok r →
  post_all everything_roots r
    (let* r := require_all (require_feature (features_fuel s) s) (btree_iter (sum_features s)).*1 r in
     Some (Ok (foldl (λ r d, require_dependency r (name_in_toml d)) r
                     (filter (λ d, optional d = true) (sum_dependencies s))))).
Proof.
  intros Hok.
  assert (Hkeys : post_all (Feature <$> (btree_iter (sum_features s)).*1) r
    (require_all (require_feature (features_fuel s) s) (btree_iter (sum_features s)).*1 r)).
  { apply require_all_post; [|done]. intros f r1 Hf Hok1. apply require_feature_post; [done|right].
    apply list_elem_of_fmap in Hf as ([k vs] & -> & Hin). apply elem_of_btree_iter in Hin.
    apply bool_decide_eq_true. simpl. eauto. }
  apply post_all_app; [done|]. intros r' Hr'. apply optional_post; [by eapply post_all_ok|].
  intros d [_ Hd]%list_elem_of_filter. by apply Hopt.
Qed.

Lemma requested_post requested r :
  reqs_ok r →
  post_all ((λ f, feature_value_new f s) <$> requested) r
    (require_all (λ f r, require_value s (feature_value_new f s) r) requested r).
Proof.
  intros Hok. apply require_all_post; [|done]. intros f r1 _ Hok1.
  unfold feature_value_new. rewrite Hns. unfold Summary.build.
  destruct (split_once "/" f) as [a [b|]]; simpl; [by apply require_crate_feature_post|].
  destruct (bool_decide (is_Some (sum_features s !! f))) eqn:Hk; simpl.
  - apply require_feature_post; [done|by right].
  - by apply require_dependency_post.
Qed.

Lemma reqs_new_deps c : hget (reqs_deps reqs_new) c = None.
Proof. apply (hget_empty (V:=bool * list string) c). Qed.

Lemma has_new v : ¬ has reqs_new v.
Proof.
  destruct v as [f|c|c g]; unfold has; rewrite ?reqs_new_deps.
  - by intros [Hf%elem_of_empty _].
  - by intros [l Hl].
  - by intros (b & l & Hl & _).
Qed.

Lemma reqs_new_ok : reqs_ok reqs_new.
Proof.
  split_and!.
  - intros c Hc. by apply elem_of_empty in Hc.
  - intros c. split; [intros Hc; by apply elem_of_empty in Hc|].
    intros [Hc|[g Hc]]; [by apply elem_of_empty in Hc|by apply has_new in Hc].
  - intros c l. by rewrite reqs_new_deps.
  - intros c. by rewrite reqs_new_deps.
Qed.

Lemma build_requirements_post method :
  post_all (roots method) reqs_new (build_requirements s method).
Proof.
  pose proof reqs_new_ok as Hnew. unfold build_requirements, roots.
  destruct method as [|dev requested all_features use_default].
  - apply post_all_app; [by apply everything_post|]. intros r' Hr'. apply default_post.
    by eapply post_all_ok; [apply everything_post|].
  - apply post_all_app.
    + destruct all_features; [by apply everything_post|by apply requested_post].
    + intros r' Hr'. assert (Hok : reqs_ok r').
      { destruct all_features.
        - eapply post_all_ok; [|exact Hr']. by apply everything_post.
        - eapply post_all_ok; [|exact Hr']. by apply requested_post. }
      destruct use_default; [by apply default_post|by apply post_all_nil].
Qed.

(** The recorded requirements are everything that the requests reach. *)
Lemma post_all_reach rs r :
  post_all rs reqs_new (Some (Ok r)) →
  (∀ v, v ≠ Feature EmptyString → has r v ↔ ∃ root, root ∈ rs ∧ reach root v) ∧
  (∀ root, root ∈ rs → ¬ self_cycle root).
Proof.
  intros (_ & _ & Hc & Hs & Hh).
  assert (Hsat : ∀ root v, root ∈ rs → reach root v → sat r v).
  { intros root v Hr. induction 1 as [|f vs v Hreach IH Hf Hfs Hv]; [by apply Hs|].
    destruct IH as [[= ->]|[Hf1 _]]; [done|].
    apply (Hc f vs v Hf1 (not_elem_of_empty _) Hfs Hv). }
  split.
  - intros v Hv. split.
    + intros [H|H]%Hh; [by apply has_new in H|done].
    + intros (root & Hr & Hreach). by destruct (Hsat root v Hr Hreach).
  - intros root Hr (f & vs & Hreach & Hf & Hfs & Hin).
    destruct (Hsat root _ Hr Hreach) as [[= ->]|[Hf1 _]]; [done|].
    destruct (Hc f vs (Feature f) Hf1 (not_elem_of_empty _) Hfs Hin) as [_ Hself].
    simpl in Hself. by rewrite String.eqb_refl in Hself.
Qed.
End requirements.

Section theorems.
Context `{SV : SemverLib} `{UL : UrlLib} `{RS : RustStd}.

(** Summaries without namespaced features keep features and dependencies
    apart. *)
Lemma new_separate pkg deps features links s :
  Summary.new pkg deps features links false = Ok s →
  separate s ∧ sum_namespaced_features s = false ∧
  ∀ d, d ∈ sum_dependencies s → is_key (sum_features s) (name_in_toml d) = false.
Proof.
  intros Hnew. pose proof (Summary.new_cases pkg deps features links false) as Hc. rewrite Hnew in Hc.
  destruct Hc as (Hv & _ & Hdeps & _ & _ & Hns & Hm & Hcl).
  assert (Hkey : ∀ k, is_key (sum_features s) k = is_key features k).
  { intros k. unfold is_key. apply bool_decide_ext. specialize (Hm k).
    destruct (features !! k) as [l|]; [rewrite Hm; split; eauto|].
    destruct Hm as [_ Hi]. rewrite Hi. split; [by intros [? _]|by intros Hx%is_Some_None]. }
  assert (Hd : ∀ d, d ∈ sum_dependencies s → is_key (sum_features s) (name_in_toml d) = false).
  { intros d Hin. rewrite Hkey. rewrite Hdeps in Hin. destruct Hv as [Hv _]. specialize (Hv d Hin).
    unfold valid_dep in Hv. simpl in Hv. apply andb_true_iff in Hv as [Hv _].
    by apply negb_true_iff in Hv. }
  split_and!; [|done|done]. intros k vs v Hk Hin. pose proof (Hcl k vs v Hk Hin) as Hval.
  destruct v as [f|c|c f]; [by apply bool_decide_eq_true| |done].
  destruct Hval as (d & Hin' & <- & _). apply Hd. by rewrite Hdeps.
Qed.

(** For a summary without namespaced features, [build_requirements] always
    returns and does not panic.  If some feature that the request reaches lists
    itself, it reports the cycle.  Otherwise it records exactly what the request
    reaches: the features, the optional dependencies, and the features of
    dependencies; and it marks as used the reached features, dependencies and
    packages of such features. *)
Theorem build_requirements_spec pkg deps features links s method
    (Hnew : Summary.new pkg deps features links false = Ok s) :
  ∃ m, build_requirements s method = Some m ∧
    match m with
    | Ok r =>
        (∀ v, v ≠ Feature EmptyString → has s r v ↔ ∃ root, root ∈ roots s method ∧ reach s root v) ∧
        (∀ root, root ∈ roots s method → ¬ self_cycle s root) ∧
        (∀ c, c ∈ reqs_used r ↔
           has s r (Feature c) ∨ has s r (Crate c) ∨ ∃ g, has s r (CrateFeature c g))
    | Err _ => ∃ root, root ∈ roots s method ∧ self_cycle s root
    | Panic _ => False
    end.
Proof.
  destruct (new_separate _ _ _ _ _ Hnew) as (Hsep & Hns & Hopt).
  pose proof (build_requirements_post s Hsep Hns Hopt method) as Hp.
  destruct (build_requirements s method) as [[r|e|p]|]; [|by exists (Err e)|done|done].
  exists (Ok r). split; [done|]. destruct (post_all_reach s _ r Hp) as [H1 H2].
  split_and!; [exact H1|exact H2|]. destruct Hp as (_ & (Hv & Hu & Ht & _) & _).
  intros c. rewrite Hu. split.
  - intros [Hc|Hc]; [|by right; right]. destruct (is_key (sum_features s) c) eqn:Hk; [by left|].
    right. left. by apply Hv.
  - intros [[Hc _]|[[l Hc]|Hc]]; [by left|left; by apply (Ht c l)|by right].
Qed.
End theorems.

(** * Concrete runs *)
Section runs.
Local Existing Instance sem_lib.
Local Existing Instance hier_lib.
Local Existing Instance std_order.

Definition made (deps : list Dependency) (features : gmap string (list string)) (ns : bool) : option Summary :=
  match Summary.new (PackageId.foo (1, 0, 0)) deps features None ns with Ok s => Some s | _ => None end.

Definition plain_features : gmap string (list string) :=
  {[ "default" := ["std"]; "std" := ["log"; "serde/std"] ]}.

Lemma build_requirements_spec_witness :
  ∃ s, Summary.new (PackageId.foo (1, 0, 0)) [opt_dep "log"; opt_dep "serde"] plain_features None false = Ok s ∧
    ∃ r, build_requirements s (Required false [] false true) = Some (Ok r) ∧ has s r (Crate "log").
Proof.
  assert (Hrun : (match made [opt_dep "log"; opt_dep "serde"] plain_features false with
                  | Some s => match build_requirements s (Required false [] false true) with
                              | Some (Ok r) => Some (hget (reqs_deps r) "log")
                              | _ => None end
                  | None => None end) = Some (Some (true, []))) by vm_eq.
  unfold made in Hrun.
  destruct (Summary.new (PackageId.foo (1, 0, 0)) [opt_dep "log"; opt_dep "serde"] plain_features None false)
    as [s|e|m] eqn:Hnew; [|discriminate Hrun|discriminate Hrun].
  exists s. split; [reflexivity|].
  destruct (build_requirements_spec _ _ _ _ s (Required false [] false true) Hnew) as (m & Hm & Hspec).
  rewrite Hm in Hrun. destruct m as [r|e|m]; [|discriminate Hrun|discriminate Hrun].
  exists r. split; [exact Hm|]. exists []. by injection Hrun.
Defined.

(** A summary with namespaced features, where the feature [x] enables the
    optional dependency [x]. *)
Definition namespaced : option Summary := made [opt_dep "x"] {[ "x" := ["crate:x"] ]} true.

(** With namespaced features, asking for a feature named like the optional
    dependency it enables does not enable the dependency: the mark set for the
    feature makes [require_dependency] return early.  Asking for a feature the
    package does not have makes the resolver panic. *)
Theorem namespaced_features_lost :
  ∃ s r, Summary.new (PackageId.foo (1, 0, 0)) [opt_dep "x"] {[ "x" := ["crate:x"] ]} None true = Ok s ∧
    build_requirements s (Required false ["x"] false false) = Some (Ok r) ∧
    reach s (Feature "x") (Crate "x") ∧ hget (reqs_deps r) "x" = None ∧
    build_requirements s (Required false ["y"] false false) = Some (Panic "must be a valid feature").
Proof.
  assert (Hrun : (match namespaced with
                  | Some s =>
                      match build_requirements s (Required false ["x"] false false) with
                      | Some (Ok r) => Some (hget (reqs_deps r) "x", sum_features s !! "x",
                          build_requirements s (Required false ["y"] false false))
                      | _ => None end
                  | None => None end)
    = Some (None, Some [Crate "x"], Some (Panic "must be a valid feature"))) by vm_eq.
  unfold namespaced, made in Hrun.
  destruct (Summary.new _ _ _ _ _) as [s|e|m] eqn:Hs; [|discriminate Hrun|discriminate Hrun].
  destruct (build_requirements s (Required false ["x"] false false)) as [[r|e|m]|] eqn:Hx;
    [|discriminate Hrun|discriminate Hrun|discriminate Hrun].
  injection Hrun as H1 H2 H3. exists s, r. split_and!; [reflexivity|exact Hx| |exact H1|exact H3].
  apply (reach_step s (Feature "x") "x" [Crate "x"]); [constructor|done|exact H2|constructor].
Qed.
End runs.
