(* ===== verification/ResErrors.v ===== *)
(** The conflict cache and the error messages of the resolver,
    [src/cargo/core/resolver/conflict_cache.rs] and [errors.rs]. *)
From S2P Require Import Prelude Str Extern SourceId PackageId Graph Lev Dependency Summary ResTypes ResContext.

Local Open Scope string_scope.

Section errors.
Context `{SV : SemverLib} `{UL : UrlLib} `{RS : RustStd}.

Abbreviation Conflicts := (hashmap PackageId ConflictReason).

(** * [struct ConflictCache] *)
Record ConflictCache := mkCache {
  con_from_dep : hashmap Dependency (list Conflicts);
  dep_from_pid : hashmap PackageId (hashset Dependency);
}.

Definition cache_new : ConflictCache := mkCache ∅ ∅.

(** [PartialEq for HashMap]: the same keys with equal values. *)
Definition conflicts_eq (a b : Conflicts) : bool := bool_decide (snd <$> a = snd <$> b).

Definition find_conflicting (c : ConflictCache) (cx : Context) (dep : Dependency)
    (flt : Conflicts → bool) : option Conflicts :=
  past ← hget (con_from_dep c) dep;
  List.find (λ conflicting, is_conflicting cx None conflicting)
            (filter (λ con, flt con = true) past).

Definition conflicting (c : ConflictCache) (cx : Context) (dep : Dependency) : option Conflicts :=
  find_conflicting c cx dep (λ _, true).

(** [ConflictCache::insert] *)
Definition cache_insert (c : ConflictCache) (dep : Dependency) (con : Conflicts) : ConflictCache :=
  let cfd := hor_insert dep [] (con_from_dep c) in
  let past := default [] (hget cfd dep) in
  if negb (existsb (conflicts_eq con) past) then
    mkCache (hupdate (λ past, (past ++ [con])%list) dep cfd)
            (foldl (λ m c, hupdate (hinsert dep tt) c (hor_insert c ∅ m)) (dep_from_pid c) (hkeys con))
  else mkCache cfd (dep_from_pid c).

Definition dependencies_conflicting_with (c : ConflictCache) (pid : PackageId)
    : option (hashset Dependency) := hget (dep_from_pid c) pid.

(** * Messages *)

(** [describe_path] *)
Definition describe_path (path : list PackageId) : cresult string :=
  match path with
  | [] => Panic "index out of bounds"
  | p :: path =>
      first ← PackageId.display p;
      foldM (λ text dep, d ← PackageId.display dep;
                         Ok (text ++ nl ++ "    ... which is depended on by `" ++ d ++ "`"))
            ("package `" ++ first ++ "`") path
  end.

(** Results that may also run out of the bound of [path_to_top]. *)
Definition path_text (cx : Context) (p : PackageId) : option (cresult string) :=
  describe_path <$> Graph.path_to_top (graph_of cx) p.

Definition reason_cmp (a b : ConflictReason) : comparison :=
  match a, b with
  | Semver, Semver => Eq
  | Semver, _ => Lt
  | Links _, Semver => Gt
  | Links a, Links b => String.compare a b
  | Links _, MissingFeatures _ => Lt
  | MissingFeatures a, MissingFeatures b => String.compare a b
  | MissingFeatures _, _ => Gt
  end.
Definition conflict_cmp (a b : PackageId * ConflictReason) : comparison :=
  match package_id_cmp a.1 b.1 with Eq => reason_cmp a.2 b.2 | o => o end.

Fixpoint append_all {A} (f : A → option (cresult string)) (l : list A) (msg : string)
    : option (cresult string) :=
  match l with
  | [] => Some (Ok msg)
  | x :: l => let* t := f x in append_all f l (msg ++ t)
  end.

(** The message when candidates exist but all of them conflict. *)
Definition conflict_message (cx : Context) (parent : Summary) (dep : Dependency)
    (conflicting_activations : Conflicts) (candidates : list Candidate) : option (cresult string) :=
  let name := dep_name dep in
  let* path := path_text cx (sum_package_id parent) in
  let versions := join ", " ((λ v, version_to_string (pid_version (sum_package_id (cand_summary v))))
                             <$> candidates) in
  let msg := "failed to select a version for `" ++ name ++ "`." ++ nl ++
             "    ... required by " ++ path ++ nl ++
             "versions that meet the requirements `" ++ req_to_string (dep_req dep) ++
             "` are: " ++ versions in
  let sorted := rev (sort_unstable_by conflict_cmp (hiter conflicting_activations)) in
  let links_errors := filter (λ c, is_links c.2 = true) sorted in
  let other_errors := filter (λ c, is_links c.2 = false) sorted in
  let* msg := append_all (λ c : PackageId * ConflictReason,
      let* path := path_text cx c.1 in
      Some (Ok (match c.2 with
                | Links link =>
                    nl ++ nl ++ "the package `" ++ name ++ "` links to the native library `" ++ link ++
                    "`, but it conflicts with a previous package which links to `" ++ link ++
                    "` as well:" ++ nl
                | _ => EmptyString
                end ++ path))) links_errors msg in
  let features_errors := filter (λ c, is_missing_features c.2 = true) other_errors in
  let other_errors := filter (λ c, is_missing_features c.2 = false) other_errors in
  let* msg := append_all (λ c : PackageId * ConflictReason,
      Some (Ok (match c.2 with
                | MissingFeatures features =>
                    nl ++ nl ++ "the package `" ++ pid_name c.1 ++ "` depends on `" ++ name ++
                    "`, with features: `" ++ features ++ "` but `" ++ name ++
                    "` does not have these features." ++ nl
                | _ => EmptyString
                end))) features_errors msg in
  let msg := match other_errors with
             | [] => msg
             | _ => msg ++ nl ++ nl ++ "all possible versions conflict with previously selected packages."
             end in
  let* msg := append_all (λ c : PackageId * ConflictReason,
      let* path := path_text cx c.1 in
      Some (Ok (nl ++ nl ++ "  previously selected " ++ path))) other_errors msg in
  Some (Ok (msg ++ nl ++ nl ++ "failed to select a version for `" ++ name ++
            "` which could resolve this conflict")).

Context `{RG : !Registry}.

(** The first three of a list, and an ellipsis when there are more. *)
Definition first_three (l : list string) : string :=
  join ", " (take 3 l ++ if (3 <? length l)%nat then ["..."] else [])%list.

Fixpoint dedup (l : list string) : list string :=
  match l with
  | a :: ((b :: _) as l') => if String.eqb a b then dedup l' else a :: dedup l'
  | _ => l
  end.

(** Versions that the registry has, although none matched. *)
Definition mismatch_message (cx : Context) (parent : Summary) (dep : Dependency)
    (candidates : list Summary) : option (cresult string) :=
  let* path := path_text cx (sum_package_id parent) in
  let msg := "failed to select a version for the requirement `" ++ dep_name dep ++ " = " ++
             quote_str ++ req_to_string (dep_req dep) ++ quote_str ++ "`" ++ nl ++
             "  candidate versions found which didn't match: " ++
             first_three ((λ c, version_to_string (pid_version (sum_package_id c))) <$> candidates) ++ nl ++
             "  location searched: " ++ describe_source (dep_source_id dep) ++ nl ++
             "required by " ++ path in
  let msg := if is_path (dep_source_id dep) && is_locked dep
             then msg ++ nl ++ "consider running `cargo update` to update a path dependency's locked version"
             else msg in
  Some (Ok (if is_replaced (dep_source_id dep)
            then msg ++ nl ++ "perhaps a crate was updated and forgotten to be re-vendored?" else msg)).

(** No version at all: similar names are suggested. *)
Definition similar_names (name : string) (found : list string) : cresult (list string) :=
  let names := dedup (sort_unstable_by String.compare found) in
  scored ← foldM (λ l n, match lev_distance (scalars name) (scalars n) with
                         | Ok d => Ok (l ++ [(d, n)])%list
                         | Panic m => Panic m
                         | Err e => match e with end
                         end) ([] : list (nat * string)) names;
  Ok (sort_by (λ a b : nat * string, Nat.compare a.1 b.1) (filter (λ c, (c.1 < 4)%nat) scored)).*2.

Definition unknown_message (cx : Context) (parent : Summary) (dep : Dependency)
    (candidates : list string) : option (cresult string) :=
  let* path := path_text cx (sum_package_id parent) in
  let* src := Some (SourceId.display (dep_source_id dep)) in
  Some (Ok ("no matching package named `" ++ dep_name dep ++ "` found" ++ nl ++
            "location searched: " ++ src ++ nl ++
            match candidates with
            | [] => EmptyString
            | _ => "did you mean: " ++ first_three candidates ++ nl
            end ++
            "required by " ++ path)).

(** [activation_error]; the path of packages that accompanies the message is
    left out.  [offline] is the [-Z offline] flag of the configuration. *)
Definition activation_error (cx : Context) (parent : Summary) (dep : Dependency)
    (conflicting_activations : Conflicts) (candidates : list Candidate) (offline : bool)
    : option (cresult string) :=
  match candidates with
  | _ :: _ => conflict_message cx parent dep conflicting_activations candidates
  | [] =>
      match req_parse "*" with
      | Panic m => Some (Panic m)
      | Err _ => Some (Panic "called `Result::unwrap()` on an `Err` value")
      | Ok all_req =>
          let new_dep := set_version_req dep all_req in
          match registry_query new_dep false with
          | Panic m => Some (Panic m)
          | Err e => Some (Ok e)
          | Ok found =>
              let found := sort_unstable_by (λ a b, version_cmp (pid_version (sum_package_id b))
                                                               (pid_version (sum_package_id a))) found in
              let message :=
                match found with
                | _ :: _ => mismatch_message cx parent dep found
                | [] =>
                    match registry_query new_dep true with
                    | Panic m => Some (Panic m)
                    | Err e => Some (Err e)
                    | Ok similar =>
                        let* names := Some (similar_names (dep_name new_dep)
                                             ((λ s, pid_name (sum_package_id s)) <$> similar)) in
                        unknown_message cx parent dep names
                    end
                end in
              match message with
              | Some (Ok msg) =>
                  Some (Ok (if offline then
                    msg ++ nl ++ "As a reminder, you're using offline mode (-Z offline) which can sometimes cause surprising resolution failures, if this error is too confusing you may with to retry without the offline flag."
                    else msg))
              | Some (Err e) => Some (Ok e)      (* a failed query is returned as it is *)
              | m => m
              end
          end
      end
  end.
End errors.
Abbreviation Conflicts := (hashmap PackageId ConflictReason).
