(* ===== verification/Resolve.v ===== *)
(** A resolved dependency graph, [src/cargo/core/resolver/resolve.rs]. *)
From S2P Require Import Prelude Str Extern SourceId PackageId Graph Dependency Summary ResTypes ResContext.

Local Open Scope string_scope.

Section resolve.
Context `{SV : SemverLib} `{UL : UrlLib} `{RS : RustStd}.

(** [struct Resolve]; [empty_features] is the empty set. *)
Record Resolve := mkResolve {
  graph : Graph PackageId (list Dependency);
  replacements : hashmap PackageId PackageId;
  reverse_replacements : hashmap PackageId PackageId;
  features : hashmap PackageId (gset string);
  checksums : hashmap PackageId (option string);
  metadata : gmap string string;
  unused_patches : list PackageId;
}.

(** [Resolve::new] *)
Definition new (graph : Graph PackageId (list Dependency)) (replacements : hashmap PackageId PackageId)
    (features : hashmap PackageId (gset string)) (checksums : hashmap PackageId (option string))
    (metadata : gmap string string) (unused_patches : list PackageId) : Resolve :=
  let reverse_replacements :=
    foldl (λ m p, hinsert p.2 p.1 m) (∅ : hashmap PackageId PackageId) (hiter replacements) in
  mkResolve graph replacements reverse_replacements features checksums metadata unused_patches.

Definition path_to_top (r : Resolve) (pkg : PackageId) : option (list PackageId) :=
  Graph.path_to_top (graph r) pkg.
Definition contains (r : Resolve) (k : PackageId) : bool := Graph.contains (graph r) k.
Definition iter (r : Resolve) : list PackageId := Graph.iter (graph r).
Definition replacement (r : Resolve) (pkg : PackageId) : option PackageId := hget (replacements r) pkg.
Definition deps_not_replaced (r : Resolve) (pkg : PackageId) : list PackageId :=
  (Graph.edges (graph r) pkg).*1.
Definition deps (r : Resolve) (pkg : PackageId) : list (PackageId * list Dependency) :=
  (λ e, (default e.1 (replacement r e.1), e.2)) <$> Graph.edges (graph r) pkg.

(** [register_used_patches] *)
Definition register_used_patches (r : Resolve) (patches : hashmap Url (list Summary)) : Resolve :=
  foldl (λ r summary,
    if existsb (λ id, id ==? sum_package_id summary) (iter r) then r
    else mkResolve (graph r) (replacements r) (reverse_replacements r) (features r) (checksums r)
                   (metadata r) (unused_patches r ++ [sum_package_id summary])%list)
    r (concat (hvalues patches)).

(** [merge_from] *)
Definition not_calculated (id src : string) : string :=
  "checksum for `" ++ id ++ "` was not previously calculated, but a checksum could now be calculated" ++ nl ++ nl ++
  "this could be indicative of a few possible situations:" ++ nl ++ nl ++
  "    * the source `" ++ src ++ "` did not previously support checksums," ++ nl ++
  "      but was replaced with one that does" ++ nl ++
  "    * newer Cargo implementations know how to checksum this source, but this" ++ nl ++
  "      older implementation does not" ++ nl ++
  "    * the lock file is corrupt" ++ nl.
Definition not_computable (id src : string) : string :=
  "checksum for `" ++ id ++ "` could not be calculated, but a checksum is listed in the existing lock file" ++ nl ++ nl ++
  "this could be indicative of a few possible situations:" ++ nl ++ nl ++
  "    * the source `" ++ src ++ "` supports checksums," ++ nl ++
  "      but was replaced with one that doesn't" ++ nl ++
  "    * the lock file is corrupt" ++ nl ++ nl ++
  "unable to verify that `" ++ id ++ "` is the same as when the lockfile was generated" ++ nl.
Definition changed_checksum (id : string) : string :=
  "checksum for `" ++ id ++ "` changed between lock files" ++ nl ++ nl ++
  "this could be indicative of a few possible errors:" ++ nl ++ nl ++
  "    * the lock file is corrupt" ++ nl ++
  "    * a replacement source in use (e.g. a mirror) returned a different checksum" ++ nl ++
  "    * the source itself may be corrupt in one way or another" ++ nl ++ nl ++
  "unable to verify that `" ++ id ++ "` is the same as when the lockfile was generated" ++ nl.

Definition merge_checksum (mine_map : hashmap PackageId (option string)) (u : unit)
    (entry : PackageId * option string) : cresult unit :=
  let '(id, cksum) := entry in
  match hget mine_map id with
  | None => Ok tt
  | Some mine =>
      if bool_decide (mine = cksum) then Ok tt
      else
        name ← PackageId.display id;
        match cksum, mine with
        | None, _ => src ← SourceId.display (pid_source_id id); Err (not_calculated name src)
        | _, None => src ← SourceId.display (pid_source_id id); Err (not_computable name src)
        | _, _ => Err (changed_checksum name)
        end
  end.

Definition merge_from (r previous : Resolve) : cresult Resolve :=
  _ ← foldM (merge_checksum (checksums r)) tt (hiter (checksums previous));
  Ok (mkResolve (graph r) (replacements r) (reverse_replacements r) (features r) (checksums r)
                (metadata previous) (unused_patches r)).

Definition features_of (r : Resolve) (pkg : PackageId) : gset string :=
  default ∅ (hget (features r) pkg).
Definition features_sorted (r : Resolve) (pkg : PackageId) : list string :=
  sort_unstable_by String.compare (hs_iter (features_of r pkg)).

(** [dependencies_listed] and [extern_crate_name]; the latter takes the name
    of the crate the target builds. *)
Definition dependencies_listed (r : Resolve) (from to : PackageId) : cresult (list Dependency) :=
  let direct :=
    match Graph.edge (graph r) from to with
    | Some ret => Ok ret
    | None => from ← PackageId.display from; to ← PackageId.display to;
              Panic ("no Dependency listed for `" ++ from ++ "` => `" ++ to ++ "`")
    end in
  match hget (reverse_replacements r) to with
  | Some replace =>
      match Graph.edge (graph r) from replace with
      | Some deps => Ok deps
      | None => direct
      end
  | None => direct
  end.

Definition extern_crate_name (r : Resolve) (from to : PackageId) (crate_name : string) : cresult string :=
  deps ← (if from ==? to then Ok [] else dependencies_listed r from to);
  let names := (λ d, match explicit_name_in_toml d with
                     | Some s => replace_char "-" "_" s
                     | None => crate_name
                     end) <$> deps in
  match names with
  | [] => Ok crate_name
  | name :: names =>
      if forallb (λ n, String.eqb n name) names then Ok name
      else to ← PackageId.display to;
           Err ("multiple dependencies listed for the same crate must all have the same name, but the dependency on `" ++
                to ++ "` is listed as having different names")
  end.

Context `{UC : UnicodeStd}.
Definition query (r : Resolve) (spec : string) : cresult PackageId := query_str spec (iter r).

(** * Facts *)

(** Printing an identifier panics only when it slices a revision badly. *)
Definition displayable (id : PackageId) : Prop :=
  (∃ t, PackageId.display id = Ok t) ∧ ∃ t, SourceId.display (pid_source_id id) = Ok t.

Lemma merge_checksum_spec (mine : hashmap PackageId (option string)) u e :
  displayable e.1 →
  match merge_checksum mine u e with
  | Ok _ => ∀ m, hget mine e.1 = Some m → m = e.2
  | Err _ => ∃ m, hget mine e.1 = Some m ∧ m ≠ e.2
  | Panic _ => False
  end.
Proof.
  destruct e as [id c]. intros [[t Ht] [t' Ht']]. simpl in *.
  destruct (hget mine id) as [m|]; [|intros; done].
  case_bool_decide as Hm; [by intros m' [= <-]|].
  rewrite Ht. simpl. destruct c, m; simpl; rewrite ?Ht'; simpl; eauto.
Qed.

(** [merge_from] succeeds exactly when the two resolves agree on the
    checksum, known or unknown, of every package both have; it then takes the
    metadata of the previous one and changes nothing else.  It does not panic. *)
Theorem merge_from_spec r previous (Hwf : hwf (checksums previous))
    (Hdisp : ∀ id c, (id, c) ∈ hiter (checksums previous) → displayable id) :
  match merge_from r previous with
  | Ok r' => (∀ id c m, hget (checksums previous) id = Some c → hget (checksums r) id = Some m → m = c) ∧
      graph r' = graph r ∧ replacements r' = replacements r ∧ features r' = features r ∧
      checksums r' = checksums r ∧ unused_patches r' = unused_patches r ∧
      metadata r' = metadata previous
  | Err _ => ∃ id c m, hget (checksums previous) id = Some c ∧ hget (checksums r) id = Some m ∧ m ≠ c
  | Panic _ => False
  end.
Proof.
  assert (Hl : ∀ l, (∀ e, e ∈ l → displayable e.1) →
    match foldM (merge_checksum (checksums r)) tt l with
    | Ok _ => ∀ e m, e ∈ l → hget (checksums r) e.1 = Some m → m = e.2
    | Err _ => ∃ e m, e ∈ l ∧ hget (checksums r) e.1 = Some m ∧ m ≠ e.2
    | Panic _ => False
    end).
  { induction l as [|e l IH]; intros Hd; simpl; [intros e m He; by apply elem_of_nil in He|].
    pose proof (merge_checksum_spec (checksums r) tt e (Hd e ltac:(constructor))) as He.
    destruct (merge_checksum _ tt e) as [[]|x|x]; [| |done].
    - specialize (IH (λ e' He', Hd e' (list_elem_of_further _ _ _ He'))).
      destruct (foldM _ tt l); [| |done].
      + intros e' m [->|Hin]%elem_of_cons; [apply He|by apply IH].
      + destruct IH as (e' & m & Hin & Hm). exists e', m. split; [by constructor|done].
    - destruct He as (m & Hm). exists e, m. split; [constructor|done]. }
  unfold merge_from. specialize (Hl (hiter (checksums previous))).
  destruct (foldM _ tt _) as [[]|x|x]; simpl.
  - split_and!; try done. intros id c m Hid Hm.
    destruct (hget_Some_inv _ _ _ Hid) as [id' Hid'].
    assert (Hk : to_key id' = to_key id) by (by apply Hwf in Hid').
    rewrite (hget_key _ _ _ (eq_sym Hk)) in Hm.
    refine (Hl _ (id', c) m _ Hm); [intros [i x] He; by apply (Hdisp i x)|].
    apply elem_of_hiter. eauto.
  - destruct Hl as ([id c] & m & Hin & Hm & Hne); [intros [i y] He; by apply (Hdisp i y)|].
    exists id, c, m. split_and!; [|done..]. apply elem_of_hiter_wf in Hin; [|done].
    by apply hget_Some in Hin.
  - apply Hl. intros [i y] He. by apply (Hdisp i y).
Qed.
End resolve.

(** * A concrete run *)
Section runs.
Local Existing Instance sem_lib.
Local Existing Instance hier_lib.
Local Existing Instance std_order.

Definition with_checksum (c : option string) : Resolve :=
  let id := PackageId.foo (1, 0, 0) in
  new (Graph.add Graph.new id) ∅ ∅ (hinsert id c ∅) {[ "key" := "value" ]} [].

Lemma merge_from_spec_witness :
  (∃ r', merge_from (with_checksum (Some "abc")) (with_checksum (Some "abc")) = Ok r' ∧
         metadata r' = {[ "key" := "value" ]}) ∧
  ∃ id c m, hget (checksums (with_checksum None)) id = Some c ∧
            hget (checksums (with_checksum (Some "abc"))) id = Some m ∧ m ≠ c.
Proof.
  assert (Hwf : ∀ c, hwf (checksums (with_checksum c))).
  { intros c. apply hwf_hinsert, hwf_empty. }
  assert (Hd : ∀ c, ∀ id x, (id, x) ∈ hiter (checksums (with_checksum c)) → displayable id).
  { intros c id x Hin. apply hiter_one in Hin as [-> ->]. split; [exists "foo v1.0.0"; vm_eq|].
    exists "registry `https://github.com/rust-lang/crates.io-index`". vm_eq. }
  split.
  - pose proof (merge_from_spec (with_checksum (Some "abc")) _ (Hwf (Some "abc")) (Hd (Some "abc"))) as H.
    assert (Hok : is_ok (merge_from (with_checksum (Some "abc")) (with_checksum (Some "abc"))) = true)
      by vm_eq.
    revert H Hok.
    generalize (merge_from (with_checksum (Some "abc")) (with_checksum (Some "abc"))).
    intros [r'|e|m] H Hok; [|discriminate Hok|discriminate Hok].
    exists r'. split; [reflexivity|]. apply H.
  - pose proof (merge_from_spec (with_checksum (Some "abc")) _ (Hwf None) (Hd None)) as H.
    assert (Hbad : is_ok (merge_from (with_checksum (Some "abc")) (with_checksum None)) = false) by vm_eq.
    revert H Hbad. generalize (merge_from (with_checksum (Some "abc")) (with_checksum None)).
    intros [r'|e|m] H Hbad; [discriminate Hbad|exact H|destruct H].
Defined.
End runs.
