(* ===== verification/Package.v ===== *)
(** Manifests and packages ([src/cargo/core/manifest.rs],
    [src/cargo/core/package.rs]) and the units of compilation
    ([src/cargo/core/compiler/context/mod.rs]). *)
From S2P Require Import Prelude Str Extern SourceId PackageId Features Target Lev Dependency Summary Profiles Graph Resolve.

Local Open Scope string_scope.

(** * Manifests *)

(** [struct DelayedWarning], [struct Warnings] *)
Record DelayedWarning := mkWarning { message : string; is_critical : bool }.
Definition add_warning (w : list DelayedWarning) (s : string) : list DelayedWarning := (w ++ [mkWarning s false])%list.
Definition add_critical_warning (w : list DelayedWarning) (s : string) : list DelayedWarning := (w ++ [mkWarning s true])%list.

Section package.
Context `{SV : SemverLib} `{UL : UrlLib} `{RS : RustStd}.

(** [struct Manifest], without what is only carried along for the registry and
    the workspace: [metadata], [custom_metadata], [workspace] and [original]. *)
Record Manifest := mkManifest {
  man_summary : Summary;
  man_targets : list Target;
  man_links : option string;
  man_warnings : list DelayedWarning;
  man_exclude : list string;
  man_include : list string;
  man_profiles : Profiles;
  man_publish : option (list string);
  man_publish_lockfile : bool;
  man_replace : list (PackageIdSpec * Dependency);
  man_patch : hashmap Url (list Dependency);
  man_features : Features;
  man_edition : Edition;
  man_im_a_teapot : option bool;
  man_default_run : option string;
  man_metabuild : option (list string);
}.

Definition set_summary (m : Manifest) (s : Summary) : Manifest :=
  mkManifest s (man_targets m) (man_links m) (man_warnings m) (man_exclude m) (man_include m) (man_profiles m)
    (man_publish m) (man_publish_lockfile m) (man_replace m) (man_patch m) (man_features m) (man_edition m)
    (man_im_a_teapot m) (man_default_run m) (man_metabuild m).
Definition manifest_map_source (m : Manifest) (to_replace replace_with : SourceId) : Manifest :=
  set_summary m (Summary.map_source (man_summary m) to_replace replace_with).
(** [Manifest::feature_gate] *)
Definition feature_gate (env : Env) (m : Manifest) : cresult unit :=
  _ ← match man_im_a_teapot m with
      | Some _ => chain_err "the `im-a-teapot` manifest key is unstable and may not work properly in England"
                            (require env (man_features m) test_dummy_unstable)
      | None => Ok tt
      end;
  match man_default_run m with
  | Some _ => chain_err "the `default-run` manifest key is unstable" (require env (man_features m) default_run)
  | None => Ok tt
  end.

(** * Packages *)

(** [struct Package] *)
Record Package := mkPackage { manifest : Manifest; manifest_path : string }.
Definition pkg_summary (p : Package) : Summary := man_summary (manifest p).
Definition package_id (p : Package) : PackageId := sum_package_id (pkg_summary p).
Definition targets (p : Package) : list Target := man_targets (manifest p).
Definition links (p : Package) : option string := man_links (manifest p).
(** [PartialEq] and [Hash]: a package is its id. *)
#[global] Instance Package_key : HashKey Package := {| hkey := hkey PackageId; to_key p := to_key (package_id p) |}.

Definition has_custom_build (p : Package) : bool := existsb is_custom_build (targets p).
Definition package_map_source (p : Package) (to_replace replace_with : SourceId) : Package :=
  mkPackage (manifest_map_source (manifest p) to_replace replace_with) (manifest_path p).

(** [find_closest_target]: among the targets of the expected kind, the nearest
    name less than four edits away, the first one of several. *)
Fixpoint closest_target (target : string) (ts : list Target) (best : option (nat * Target)) : cresult (option (nat * Target)) :=
  match ts with
  | [] => Ok best
  | t :: ts =>
      match lev_distance (scalars target) (scalars (tgt_name t)) with
      | Ok d =>
          closest_target target ts
            (if (d <? 4)%nat then
               match best with
               | Some (d', _) => if (d <? d')%nat then Some (d, t) else best
               | None => Some (d, t)
               end
             else best)
      | Err e => match e with end
      | Panic m => Panic m
      end
  end.
Definition find_closest_target (p : Package) (target : string) (is_expected_kind : Target → bool) : cresult (option Target) :=
  b ← closest_target target (filter (λ t, is_expected_kind t = true) (targets p)) None; Ok (option_map snd b).

(** * Units *)

(** [struct Unit] *)
Record CUnit := mkUnit {
  unit_pkg : Package;
  unit_target : Target;
  unit_profile : Profile;
  unit_kind : PlatformKind;
  unit_mode : CompileMode;
}.
#[global] Instance CUnit_key : HashKey CUnit := {|
  hkey := (hkey PackageId * Target) * (hkey Profile * (PlatformKind * CompileMode));
  to_key u := ((to_key (package_id (unit_pkg u)), unit_target u), (to_key (unit_profile u), (unit_kind u, unit_mode u)));
|}.

Lemma unit_key_eq (a b : CUnit) :
  to_key a = to_key b ↔
  to_key (package_id (unit_pkg a)) = to_key (package_id (unit_pkg b)) ∧ unit_target a = unit_target b ∧
  to_key (unit_profile a) = to_key (unit_profile b) ∧ unit_kind a = unit_kind b ∧ unit_mode a = unit_mode b.
Proof.
  unfold to_key at 1 2. cbn. split; [|by intros (-> & -> & -> & -> & ->)]. intros H.
  set (T := ((hkey PackageId * Target) * (hkey Profile * (PlatformKind * CompileMode)))%type) in *.
  split_and!; [exact (f_equal (λ k : T, k.1.1) H)|exact (f_equal (λ k : T, k.1.2) H)|exact (f_equal (λ k : T, k.2.1) H)
              |exact (f_equal (λ k : T, k.2.2.1) H)|exact (f_equal (λ k : T, k.2.2.2) H)].
Qed.

(** * Native libraries *)

(** [struct Links] of the compilation context *)
Record Links := mkLinks { validated : hashset PackageId; linked : gmap string PackageId }.
Definition links_new : Links := mkLinks ∅ ∅.

(** [describe_path] of [Links::validate] *)
Definition describe_path (r : Resolve) (pkgid : PackageId) : option (cresult string) :=
  let* path := Ok <$> Resolve.path_to_top r pkgid in
  Some match path with
       | [] => Panic "index out of bounds"
       | top :: rest =>
           s ← PackageId.display top;
           foldM (λ s dep, d ← PackageId.display dep; Ok (s ++ nl ++ "    ... which is depended on by `" ++ d ++ "`"))
                 ("package `" ++ s ++ "`") rest
       end.
(** [Links::validate] *)
Definition validate_links (l : Links) (r : Resolve) (u : CUnit) : option (cresult Links) :=
  let id := package_id (unit_pkg u) in
  if hcontains (validated l) id then Some (Ok l)
  else
    let l := mkLinks (hinsert id tt (validated l)) (linked l) in
    match links (unit_pkg u) with
    | None => Some (Ok l)
    | Some lib =>
        match linked l !! lib with
        | Some prev =>
            let* p := describe_path r prev in
            let* q := describe_path r id in
            Some (Err ("multiple packages link to native library `" ++ lib ++
                       "`, but a native library can be linked only once" ++ nl ++ nl ++
                       p ++ nl ++ "links to native library `" ++ lib ++ "`" ++ nl ++ nl ++
                       q ++ nl ++ "also links to native library `" ++ lib ++ "`"))
        | None =>
            if negb (has_custom_build (unit_pkg u)) then
              Some (text ← PackageId.display id;
                    Err ("package `" ++ text ++ "` specifies that it links to `" ++ lib ++
                         "` but does not have a custom build script"))
            else Some (Ok (mkLinks (validated l) (<[lib := id]> (linked l))))
        end
    end.
End package.
Arguments Manifest {SV UL}.
Arguments Package {SV UL}.
Arguments CUnit {SV UL}.
Arguments Links {SV UL}.
