(* ===== verification/ReadManifest.v ===== *)
(** From a parsed [Cargo.toml] to a manifest, [src/cargo/util/toml/mod.rs]:
    the dependency tables, [replace] and [patch], the checks on names and
    sources, and the virtual manifest of a workspace. *)
From stdpp Require Import pretty.
From S2P Require Import Prelude Str Extern Path Utf8 SourceId PackageId Features Target Profiles ConfigValue Config SourceConfig.
From S2P Require Import Cfg Dependency Summary TomlManifest TomlTargets Package.

Local Open Scope string_scope.

(** [serde_ignored::Path], the position of a key no field asked for. *)
Inductive IgnoredPath :=
| IgnoredRoot
| IgnoredSeq (parent : IgnoredPath) (index : N)
| IgnoredMap (parent : IgnoredPath) (key : string)
| IgnoredSome (parent : IgnoredPath)
| IgnoredNewtypeVariant (parent : IgnoredPath)
| IgnoredNewtypeStruct (parent : IgnoredPath).
(** [stringify] *)
Definition dotted (dst part : string) : string := (if is_empty dst then dst else dst ++ ".") ++ part.
Fixpoint stringify (p : IgnoredPath) : string :=
  match p with
  | IgnoredRoot => ""
  | IgnoredSeq parent index => dotted (stringify parent) (pretty index)
  | IgnoredMap parent key => dotted (stringify parent) key
  | IgnoredSome parent | IgnoredNewtypeVariant parent | IgnoredNewtypeStruct parent => stringify parent
  end.

(** [WorkspaceRootConfig], [WorkspaceConfig] of [src/cargo/core/workspace.rs] *)
Record WorkspaceRootConfig := mkWorkspaceRoot {
  root_dir : path;
  members : option (list string);
  default_members : option (list string);
  exclude : list string;
}.
Inductive WorkspaceConfig := WorkspaceRoot (c : WorkspaceRootConfig) | WorkspaceMember (root : option string).
Definition workspace_root_new (root : path) (w : TomlWorkspace) : WorkspaceRootConfig :=
  mkWorkspaceRoot root (tw_members w) (tw_default_members w) (default [] (tw_exclude w)).

(** [struct ManifestMetadata] *)
Record ManifestMetadata := mkMetadata {
  md_authors : list string;
  md_keywords : list string;
  md_categories : list string;
  md_license : option string;
  md_license_file : option string;
  md_description : option string;
  md_readme : option string;
  md_homepage : option string;
  md_repository : option string;
  md_documentation : option string;
  md_badges : gmap string (gmap string string);
  md_links : option string;
}.

Section read.
Context `{SV : SemverLib} `{UL : UrlLib} `{RS : RustStd} `{US : UnicodeStd} `{FS : FileSystem} `{DS : DirSystem}
  `{TL : TomlLib} `{UC : UnicodeCase}.
(** What [SourceConfig] asks of a URL, the configuration, the settings that
    decide about features, and what [Config::profiles] returned. *)
Context (url_username : Url → string) (url_password : Url → option string).
Context (config : Config) (env : Env) (config_profiles : cresult ConfigProfiles).

(** A [Manifest] together with the parts [Package.Manifest] leaves out. *)
Record RealManifest := mkRealManifest {
  rm_manifest : Manifest;
  rm_metadata : ManifestMetadata;
  rm_custom_metadata : option toml;
  rm_workspace : WorkspaceConfig;
  rm_original : TomlManifest;
}.
(** [struct VirtualManifest], [enum EitherManifest] *)
Record VirtualManifest := mkVirtualManifest {
  vm_replace : list (PackageIdSpec * Dependency);
  vm_patch : hashmap Url (list Dependency);
  vm_workspace : WorkspaceConfig;
  vm_profiles : Profiles;
  vm_warnings : list DelayedWarning;
}.
Inductive EitherManifest := Real (m : RealManifest) | Virtual (m : VirtualManifest).

(** * Dependencies *)

(** [struct Context], the part that is only read. *)
Record Context_ := mkContext {
  cx_pkgid : option PackageId;
  cx_source_id : SourceId;
  cx_platform : option Platform;
  cx_root : path;
  cx_features : Features;
}.
Definition set_platform (cx : Context_) (p : option Platform) : Context_ :=
  mkContext (cx_pkgid cx) (cx_source_id cx) p (cx_root cx) (cx_features cx).

Definition alt_registry (registry : string) : cresult SourceId :=
  SourceId.alt_registry (get_registry_index url_username url_password config) registry.

Definition crates_io : cresult SourceId := SourceConfig.crates_io url_username url_password config.

Definition rd_unless (b : bool) (m : reading unit) : reading unit := if b then rd_ret tt else m.
Definition is_none {A} (o : option A) : bool := match o with None => true | Some _ => false end.
Definition no_source_warning (name : string) : string :=
  "dependency (" ++ name ++ ") specified without providing a local path, Git repository, or version to use. " ++
  "This will be considered an error in future versions".
Definition ignored_key_warning (key name : string) : string :=
  "key `" ++ key ++ "` is ignored for dependency (" ++ name ++ "). This will be considered an error in future versions".
Definition ambiguous (name only : string) : string :=
  "dependency (" ++ name ++ ") specification is ambiguous. Only one of " ++ only.
Definition future_error : string := " This will be considered an error in future versions".

(** The warnings before the source is looked at. *)
Definition warn_keys (d : DetailedTomlDependency) (name : string) : reading unit :=
  let! _ := rd_unless (negb (is_none (td_version d) && is_none (td_path d) && is_none (td_git d)))
              (rd_warn (no_source_warning name)) in
  if is_none (td_git d) then
    let! _ := rd_map (λ kk, rd_unless (is_none kk.1) (rd_warn (ignored_key_warning kk.2 name)))
                [(td_branch d, "branch"); (td_tag d, "tag"); (td_rev d, "rev")] in
    rd_ret tt
  else rd_ret tt.

(** The git reference: the branch, or else the tag, or else the revision. *)
Definition dep_reference (d : DetailedTomlDependency) : GitReference :=
  match td_branch d, td_tag d, td_rev d with
  | Some b, _, _ => Branch b
  | None, Some t, _ => Tag t
  | None, None, Some r => Rev r
  | None, None, None => Branch "master"
  end.
Definition n_details (d : DetailedTomlDependency) : nat :=
  length (List.filter (λ o, negb (is_none o)) [td_branch d; td_tag d; td_rev d]).

Definition registry_id_of (cx : Context_) (d : DetailedTomlDependency) : cresult SourceId :=
  match td_registry d with
  | Some registry => _ ← require env (cx_features cx) alternative_registries; alt_registry registry
  | None => crates_io
  end.

(** [new_source_id] *)
Definition dep_source (cx : Context_) (d : DetailedTomlDependency) (name : string) : reading SourceId :=
  match td_git d, td_path d, td_registry d, td_registry_index d with
  | Some _, _, Some _, _ | Some _, _, _, Some _ =>
      rd_lift (Err (ambiguous name "`git` or `registry` is allowed."))
  | _, _, Some _, Some _ => rd_lift (Err (ambiguous name "`registry` or `registry-index` is allowed."))
  | Some git, maybe_path, _, _ =>
      let! _ := rd_unless (is_none maybe_path)
                  (rd_warn (ambiguous name "`git` or `path` is allowed." ++ future_error)) in
      let! _ := rd_unless (n_details d <=? 1)%nat
                  (rd_warn (ambiguous name "`branch`, `tag` or `rev` is allowed." ++ future_error)) in
      let! loc := rd_lift (str_to_url git) in
      rd_lift (for_git loc (dep_reference d))
  | None, Some p, _, _ =>
      let! _ := rd_nested p in
      if is_path (cx_source_id cx)
      then rd_lift (for_path (normalize_path (path_join (cx_root cx) p)))
      else rd_ret (cx_source_id cx)
  | None, None, Some registry, None => rd_lift (alt_registry registry)
  | None, None, None, Some registry_index => rd_lift (url ← str_to_url registry_index; for_registry url)
  | None, None, None, None => rd_lift crates_io
  end.

(** [Dependency::parse], or [parse_no_deprecated] outside of a package. *)
Definition parse_dep (cx : Context_) (pkg_name : string) (version : option string) (source : SourceId) : reading Dependency :=
  let r := Dependency.parse pkg_name version source (cx_pkgid cx) in
  let! _ := rd_print r.2 in rd_lift r.1.

(** [DetailedTomlDependency::to_dependency] *)
Definition detailed_to_dependency (d : DetailedTomlDependency) (name : string) (cx : Context_) (kind : option DepKind)
    : reading Dependency :=
  let! _ := warn_keys d name in
  let! registry_id := rd_lift (registry_id_of cx d) in
  let! new_source_id := dep_source cx d name in
  let pkg_name := default name (td_package d) in
  let! dep := parse_dep cx pkg_name (td_version d) new_source_id in
  let dep := set_features dep (default [] (td_features d)) in
  let dep := set_default_features dep (default true (option_or (td_default_features d) (td_default_features2 d))) in
  let dep := set_optional dep (default false (td_optional d)) in
  let dep := Dependency.set_platform dep (cx_platform cx) in
  let dep := set_registry_id dep registry_id in
  let dep := match kind with Some kind => set_kind dep kind | None => dep end in
  match td_package d with
  | Some _ =>
      let! _ := rd_lift (require env (cx_features cx) rename_dependency) in
      rd_ret (set_explicit_name_in_toml dep name)
  | None => rd_ret dep
  end.
(** [TomlDependency::to_dependency] *)
Definition detailed (t : TomlDependency) : DetailedTomlDependency :=
  match t with Simple version => only_version version | Detailed d => d end.
Definition to_dependency (t : TomlDependency) (name : string) (cx : Context_) (kind : option DepKind) : reading Dependency :=
  match t with
  | Simple version => detailed_to_dependency (only_version version) name cx kind
  | Detailed d => detailed_to_dependency d name cx kind
  end.

(** [process_dependencies] *)
Definition process_dependencies (cx : Context_) (new_deps : option (gmap string TomlDependency)) (kind : option DepKind)
    : reading (list Dependency) :=
  match new_deps with
  | Some dependencies => rd_map (λ nv, to_dependency nv.2 nv.1 cx kind) (btree_iter dependencies)
  | None => rd_ret []
  end.
Definition platform_parse (name : string) : cresult Platform :=
  match platform_from_str name with Some r => r | None => Panic "unreachable" end.
(** The loop over [target] changes the context and leaves it changed. *)
Definition process_platform (st : Context_ * list Dependency) (np : string * TomlPlatform) : reading (Context_ * list Dependency) :=
  let '(name, p) := np in
  let! parsed := rd_lift (platform_parse name) in
  let cx := set_platform st.1 (Some parsed) in
  let! normal := process_dependencies cx (tp_dependencies p) None in
  let! build := process_dependencies cx (option_or (tp_build_dependencies p) (tp_build_dependencies2 p)) (Some Build) in
  let! dev := process_dependencies cx (option_or (tp_dev_dependencies p) (tp_dev_dependencies2 p)) (Some Development) in
  rd_ret (cx, st.2 ++ normal ++ build ++ dev)%list.
(** "Collect the deps" *)
Definition collect_deps (cx : Context_) (me : TomlManifest) : reading (Context_ * list Dependency) :=
  let! normal := process_dependencies cx (tm_dependencies me) None in
  let! dev := process_dependencies cx (option_or (tm_dev_dependencies me) (tm_dev_dependencies2 me)) (Some Development) in
  let! build := process_dependencies cx (option_or (tm_build_dependencies me) (tm_build_dependencies2 me)) (Some Build) in
  rd_fold process_platform (cx, normal ++ dev ++ build)%list (btree_iter (default ∅ (tm_target me))).

(** * [replace] and [patch] *)
Definition crates_io_url : cresult Url :=
  match url_parse CRATES_IO_INDEX with
  | Ok u => Ok u
  | Err _ => Panic "called `Result::unwrap()` on an `Err` value"
  | Panic m => Panic m
  end.
Definition version_specified (t : TomlDependency) : bool :=
  match t with Detailed d => negb (is_none (td_version d)) | Simple _ => true end.
Definition replace_one (cx : Context_) (sr : string * TomlDependency) : reading (PackageIdSpec * Dependency) :=
  let '(text, replacement) := sr in
  let! spec := rd_lift (chain_err ("replacements must specify a valid semver version to replace, but `" ++ text ++ "` does not")
                          (PackageId.parse text)) in
  let! spec := rd_lift match spec_url spec with
                       | None => url ← crates_io_url; Ok (set_url spec url)
                       | Some _ => Ok spec
                       end in
  let! _ := if version_specified replacement then
              rd_lift (s ← spec_display spec;
                       Err ("replacements cannot specify a version requirement, but found one for `" ++ s ++ "`"))
            else rd_ret tt in
  let! dep := to_dependency replacement (spec_name spec) cx None in
  let! version := rd_lift match spec_version spec with
                          | Some v => Ok v
                          | None => s ← spec_display spec;
                                    Err ("replacements must specify a version to replace, but `" ++ s ++ "` does not")
                          end in
  rd_ret (spec, set_version_req dep (req_exact version)).
Definition replace (cx : Context_) (me : TomlManifest) : reading (list (PackageIdSpec * Dependency)) :=
  if negb (is_none (tm_patch me)) && negb (is_none (tm_replace me))
  then rd_lift (Err "cannot specify both [replace] and [patch]")
  else rd_map (replace_one cx) (btree_iter (default ∅ (tm_replace me))).

Definition patch_one (cx : Context_) (acc : hashmap Url (list Dependency)) (ud : string * gmap string TomlDependency)
    : reading (hashmap Url (list Dependency)) :=
  let! url := rd_lift (if String.eqb ud.1 CRATES_IO_REGISTRY then crates_io_url else str_to_url ud.1) in
  let! deps := rd_map (λ nd, to_dependency nd.2 nd.1 cx None) (btree_iter ud.2) in
  rd_ret (hinsert url deps acc).
Definition patch (cx : Context_) (me : TomlManifest) : reading (hashmap Url (list Dependency)) :=
  rd_fold (patch_one cx) ∅ (btree_iter (default ∅ (tm_patch me))).

(** * The manifest of a package *)
Definition check_package_name (package_name : string) : cresult unit :=
  if is_empty package_name then Err "package name cannot be an empty string"
  else match List.find (λ c, negb (char_is_alphanumeric c || String.eqb c "_" || String.eqb c "-")) (chars package_name) with
       | Some c => Err ("Invalid character `" ++ c ++ "` in package name: `" ++ package_name ++ "`")
       | None => Ok tt
       end.
Definition package_edition (features : Features) (project : TomlProject) : cresult Edition :=
  match pj_edition project with
  | Some e =>
      _ ← chain_err "editions are unstable" (require env features edition);
      chain_err "failed to parse the `edition` key" (edition_from_str e)
  | None => Ok Edition2015
  end.

(** [unique_build_targets]: the first source file that is met again. *)
Fixpoint repeated_source (seen : list path) (targets : list Target) (package_root : path) : option path :=
  match targets with
  | [] => None
  | t :: ts =>
      match src_path t with
      | SrcPath p =>
          let full := path_join package_root p in
          if existsb (path_eqb full) seen then Some full else repeated_source (full :: seen) ts package_root
      | SrcMetabuild => repeated_source seen ts package_root
      end
  end.
Definition unique_build_targets (targets : list Target) (package_root : path) : res string unit :=
  match repeated_source [] targets package_root with Some full => Err full | None => Ok tt end.

(** "Each dependency must have a single canonical source path" *)
Definition two_sources (name : string) : string :=
  "Dependency '" ++ name ++ "' has different source paths depending on the build target. " ++
  "Each dependency must have a single canonical source path irrespective of build target.".
Definition name_source (names_sources : gmap string SourceId) (dep : Dependency) : cresult (gmap string SourceId) :=
  let name := name_in_toml dep in
  match names_sources !! name with
  | Some prev => if prev ==? dep_source_id dep then Ok (<[name := dep_source_id dep]> names_sources) else Err (two_sources name)
  | None => Ok (<[name := dep_source_id dep]> names_sources)
  end.

Definition workspace_config (me : TomlManifest) (project : TomlProject) (package_root : path) : cresult WorkspaceConfig :=
  match tm_workspace me, pj_workspace project with
  | Some w, None => Ok (WorkspaceRoot (workspace_root_new package_root w))
  | None, root => Ok (WorkspaceMember root)
  | Some _, Some _ => Err "cannot configure both `package.workspace` and `[workspace]`, only one can be specified"
  end.
Definition publish_of (features : Features) (project : TomlProject) : cresult (option (list string)) :=
  match pj_publish project with
  | Some (VecString l) =>
      _ ← chain_err "the `publish` manifest key is unstable for anything other than a value of true or false"
            (require env features alternative_registries);
      Ok (Some l)
  | Some (VBool false) => Ok (Some [])
  | None | Some (VBool true) => Ok None
  end.
Definition publish_lockfile_of (features : Features) (project : TomlProject) : cresult bool :=
  match pj_publish_lockfile project with
  | Some b => _ ← require env features publish_lockfile; Ok b
  | None => Ok false
  end.
Definition metadata_of (me : TomlManifest) (project : TomlProject) : ManifestMetadata :=
  mkMetadata (default [] (pj_authors project)) (default [] (pj_keywords project)) (default [] (pj_categories project))
    (pj_license project) (pj_license_file project) (pj_description project) (pj_readme project) (pj_homepage project)
    (pj_repository project) (pj_documentation project) (default ∅ (tm_badges me)) (pj_links project).

(** The warnings of a manifest: about the licence, those collected, then the errors. *)
Definition delayed (project : TomlProject) (n : notes) : list DelayedWarning :=
  let w := if negb (is_none (pj_license_file project)) && negb (is_none (pj_license project))
           then add_warning [] "only one of `license` or `license-file` is necessary" else [] in
  fold_left add_critical_warning (nt_errors n) (fold_left add_warning (nt_warnings n) w).
Definition rd_notes : reading notes := λ n, Ok (n, n).

(** The dependencies, the replacements and the patches of a package: the last
    two are read in the context the loop over [target] has left. *)
Definition read_deps (me : TomlManifest) (cx : Context_)
    : reading (list Dependency * list (PackageIdSpec * Dependency) * hashmap Url (list Dependency)) :=
  let! st := collect_deps cx me in
  let! r := replace st.1 me in
  let! p := patch st.1 me in
  let! _ := rd_lift (_ ← foldM name_source ∅ st.2; Ok tt) in
  rd_ret (st.2, r, p).

(** [TomlManifest::to_real_manifest] *)
Definition to_real_manifest (me : TomlManifest) (source_id : SourceId) (package_root : path) : reading RealManifest :=
  let! features := rd_warnings (Features.new env (default [] (tm_cargo_features me))) in
  let! project := rd_lift match option_or (tm_project me) (tm_package me) with
                          | Some p => Ok p
                          | None => Err "no `package` section found"
                          end in
  let package_name := trim (pj_name project) in
  let! _ := rd_lift (check_package_name package_name) in
  let pkgid := to_package_id project source_id in
  let! ed := rd_lift (package_edition features project) in
  let! _ := rd_lift (if is_none (pj_metabuild project) then Ok tt else require env features metabuild) in
  let! targets := TomlTargets.targets env features me package_name package_root ed (pj_build project) (pj_metabuild project) in
  let! _ := match unique_build_targets targets package_root with
            | Err e => rd_warn ("file found to be present in multiple build targets: " ++ e)
            | _ => rd_ret tt
            end in
  let! all := read_deps me (mkContext (Some pkgid) source_id None package_root features) in
  let! _ := rd_lift (if is_none (pj_namespaced_features project) then Ok tt else require env features namespaced_features) in
  let! summary := rd_lift (Summary.new pkgid all.1.1 (default ∅ (tm_features me)) (pj_links project)
                             (default false (pj_namespaced_features project))) in
  let! workspace := rd_lift (workspace_config me project package_root) in
  let! profiles := rd_warnings (profiles_new env (tm_profile me) config_profiles features) in
  let! publish := rd_lift (publish_of features project) in
  let! lockfile := rd_lift (publish_lockfile_of features project) in
  let! n := rd_notes in
  let manifest := mkManifest summary targets (pj_links project) (delayed project n) (default [] (pj_exclude project))
    (default [] (pj_include project)) profiles publish lockfile all.1.2 all.2 features ed
    (pj_im_a_teapot project) (pj_default_run project) (pj_metabuild project) in
  let! _ := rd_lift (feature_gate env manifest) in
  rd_ret (mkRealManifest manifest (metadata_of me project) (pj_metadata project) workspace me).

(** * The manifest of a workspace alone *)
Definition no_section {A} (o : option A) (msg : string) (k : cresult unit) : cresult unit :=
  if is_none o then k else Err msg.
Definition to_virtual_manifest (me : TomlManifest) (source_id : SourceId) (root : path) : reading VirtualManifest :=
  let! _ := rd_lift
    (no_section (tm_project me) "virtual manifests do not define [project]"
    (no_section (tm_package me) "virtual manifests do not define [package]"
    (no_section (tm_lib me) "virtual manifests do not specify [lib]"
    (no_section (tm_bin me) "virtual manifests do not specify [[bin]]"
    (no_section (tm_example me) "virtual manifests do not specify [[example]]"
    (no_section (tm_test me) "virtual manifests do not specify [[test]]"
    (no_section (tm_bench me) "virtual manifests do not specify [[bench]]" (Ok tt)))))))) in
  let! features := rd_warnings (Features.new env (default [] (tm_cargo_features me))) in
  let cx := mkContext None source_id None root features in
  let! r := replace cx me in
  let! p := patch cx me in
  let! profiles := rd_warnings (profiles_new env (tm_profile me) config_profiles features) in
  let! workspace := rd_lift match tm_workspace me with
                            | Some w => Ok (WorkspaceRoot (workspace_root_new root w))
                            | None => Err "virtual manifests must be configured with [workspace]"
                            end in
  rd_ret (mkVirtualManifest r p workspace profiles []).

(** * Reading a file
    [serde], as [serde_ignored] drives it, and the fields it found no use for. *)
Context (deserialize_manifest : toml → cresult (TomlManifest * list IgnoredPath)).

Definition unused_warnings (unused : list IgnoredPath) : list string :=
  ((btree_iter (list_to_map ((λ p, (stringify p, tt)) <$> unused) : gmap string unit)).*1 ≫= λ key,
    ("unused manifest key: " ++ key)%string
    :: (if String.eqb key "profile.debug" || String.eqb key "profiles.debug"
        then ["use `[profile.dev]` to configure debug builds"] else []))%list.
Definition add_warnings (w : list DelayedWarning) (l : list string) : list DelayedWarning := fold_left add_warning l w.
Definition set_warnings (m : Manifest) (w : list DelayedWarning) : Manifest :=
  mkManifest (man_summary m) (man_targets m) (man_links m) w (man_exclude m) (man_include m) (man_profiles m)
    (man_publish m) (man_publish_lockfile m) (man_replace m) (man_patch m) (man_features m) (man_edition m)
    (man_im_a_teapot m) (man_default_run m) (man_metabuild m).
Definition no_targets : string :=
  "no targets specified in the manifest" ++ TomlTargets.nl ++
  "  either src/lib.rs, src/main.rs, a [lib] section, or [[bin]] section must be present".

(** [do_read_manifest]; the paths of dependencies and what is printed come in the notes. *)
Definition do_read_manifest (contents : string) (manifest_file : path) (source_id : SourceId) : cresult (EitherManifest * notes) :=
  package_root ← unwrap (parent manifest_file);
  let pretty_filename := default manifest_file (without_prefix manifest_file (cwd config)) in
  '(toml, printed) ← parse_toml contents pretty_filename;
  '(manifest, unused) ← deserialize_manifest toml;
  let start := mkNotes [] [] [] printed in
  if negb (is_none (tm_project manifest)) || negb (is_none (tm_package manifest)) then
    '(m, n) ← to_real_manifest manifest source_id package_root start;
    let man := rm_manifest m in
    let man := set_warnings man (add_warnings (man_warnings man) (unused_warnings unused)) in
    if existsb (λ t, negb (is_custom_build t)) (man_targets man) then
      Ok (Real (mkRealManifest man (rm_metadata m) (rm_custom_metadata m) (rm_workspace m) (rm_original m)), n)
    else Err no_targets
  else
    '(m, n) ← to_virtual_manifest manifest source_id package_root start;
    Ok (Virtual (mkVirtualManifest (vm_replace m) (vm_patch m) (vm_workspace m) (vm_profiles m)
                   (add_warnings (vm_warnings m) (unused_warnings unused))), n).

(** [read_manifest]; a [ManifestError] is the error and the path. *)
Definition read_utf8 (p : path) : cresult string :=
  contents ← chain_err ("failed to read `" ++ p ++ "`") (contents ← fs_open p; contents);
  if valid_utf8 contents then Ok contents else Err ("path at `" ++ p ++ "` was not valid utf-8").
Definition read_manifest (p : path) (source_id : SourceId) : res (string * path) (EitherManifest * notes) :=
  map_err (λ e, (e, p))
    (contents ← read_utf8 p;
     chain_err ("failed to parse manifest at `" ++ p ++ "`") (do_read_manifest contents p source_id)).
End read.

(** * Facts *)
Lemma rd_bind_inv {A B} (m : reading A) (f : A → reading B) n b n2 :
  rd_bind m f n = Ok (b, n2) → ∃ a n1, m n = Ok (a, n1) ∧ f a n1 = Ok (b, n2).
Proof. unfold rd_bind. intros ([a n1] & H1 & H2)%bind_Ok_inv. by exists a, n1. Qed.
Lemma rd_lift_inv {A} (m : cresult A) n a n' : rd_lift m n = Ok (a, n') → m = Ok a ∧ n' = n.
Proof. unfold rd_lift. intros (x & Hx & [= <- <-])%bind_Ok_inv. done. Qed.
Lemma rd_map_inv {A B} (f : A → reading B) l : ∀ n ys n', rd_map f l n = Ok (ys, n') →
  Forall2 (λ x y, ∃ n1 n2, f x n1 = Ok (y, n2)) l ys.
Proof.
  induction l as [|x l IH]; intros n ys n'; cbn [rd_map].
  - intros [= <- _]. constructor.
  - intros (y & n1 & Hy & H)%rd_bind_inv. apply rd_bind_inv in H as (l' & n2 & Hl & [= <- _]).
    constructor; [by exists n, n1|]. by apply (IH n1 l' n2).
Qed.
Lemma rd_unless_nested b m n u n' : (∀ n0 v n0', m n0 = Ok (v, n0') → nt_nested_paths n0' = nt_nested_paths n0) →
  rd_unless b m n = Ok (u, n') → nt_nested_paths n' = nt_nested_paths n.
Proof. intros Hm. unfold rd_unless. destruct b; [by intros [= _ <-]|]. apply Hm. Qed.

(** Tactics that open a successful reading step by step. *)
Ltac rd_step H x n Hx := apply rd_bind_inv in H as (x & n & Hx & H).
Ltac rd_lifted H := apply rd_lift_inv in H as [H ->].

Section facts.
Context `{SV : SemverLib} `{UL : UrlLib} `{RS : RustStd} `{US : UnicodeStd} `{FS : FileSystem} `{DS : DirSystem}
  `{TL : TomlLib} `{UC : UnicodeCase}.
Context (url_username : Url → string) (url_password : Url → option string).
Context (config : Config) (env : Env) (config_profiles : cresult ConfigProfiles).
Abbreviation alt_registry := (alt_registry url_username url_password config).
Abbreviation crates_io := (crates_io url_username url_password config).
Abbreviation dep_source := (dep_source url_username url_password config).
Abbreviation detailed_to_dependency := (detailed_to_dependency url_username url_password config env).

(** Where the package of a dependency comes from: [git], or else [path], or
    else the registry; never two of them. *)
Definition source_spec (cx : Context_) (d : DetailedTomlDependency) (src : SourceId) : Prop :=
  (is_Some (td_git d) → td_registry d = None ∧ td_registry_index d = None) ∧
  (td_registry d = None ∨ td_registry_index d = None) ∧
  match td_git d, td_path d with
  | Some git, _ => ∃ loc, str_to_url git = Ok loc ∧ for_git loc (dep_reference d) = Ok src
  | None, Some p =>
      if is_path (cx_source_id cx)
      then for_path (normalize_path (path_join (cx_root cx) p)) = Ok src
      else src = cx_source_id cx
  | None, None =>
      match td_registry d, td_registry_index d with
      | Some registry, _ => alt_registry registry = Ok src
      | None, Some index => ∃ url, str_to_url index = Ok url ∧ for_registry url = Ok src
      | None, None => crates_io = Ok src
      end
  end.
Lemma dep_source_spec cx d name n src n' : dep_source cx d name n = Ok (src, n') → source_spec cx d src.
Proof.
  unfold ReadManifest.dep_source, source_spec.
  destruct (td_git d) as [git|], (td_path d) as [p|], (td_registry d) as [reg|], (td_registry_index d) as [idx|];
    intros H; try discriminate H; (split; [by intros []|]); (split; [by auto|]);
    try (rd_step H u1 n1 H1; rd_step H u2 n2 H2; rd_step H loc n3 H3; rd_lifted H3; rd_lifted H; by exists loc).
  - rd_step H u1 n1 H1. destruct (is_path _); [by rd_lifted H|]. by injection H.
  - rd_step H u1 n1 H1. destruct (is_path _); [by rd_lifted H|]. by injection H.
  - rd_step H u1 n1 H1. destruct (is_path _); [by rd_lifted H|]. by injection H.
  - by rd_lifted H.
  - rd_lifted H. by apply bind_Ok_inv in H.
  - by rd_lifted H.
Qed.

(** The requirement of a dependency: what its version says, or any version. *)
Definition req_spec (name : string) (version : option string) (inside : option PackageId) (dep : Dependency) : Prop :=
  specified_req dep = negb (is_none version) ∧
  match version with
  | Some v => (parse_req_with_deprecated name v inside).1 = Ok (dep_req dep)
  | None => dep_req dep = req_any
  end.
Lemma parse_inv name version source inside dep :
  (Dependency.parse name version source inside).1 = Ok dep →
  name ≠ "" ∧ req_spec name version inside dep ∧ dep_name dep = name ∧ dep_source_id dep = source ∧
  dep_kind dep = Normal ∧ explicit_name_in_toml dep = None ∧ only_match_name dep = false.
Proof.
  unfold Dependency.parse, req_spec, new_override. destruct version as [v|].
  - destruct (parse_req_with_deprecated name v inside) as [r w]. cbn [fst].
    destruct r as [r| |]; cbn [mbind res_mbind res_bind]; [|done..].
    destruct (String.eqb_spec name ""); [done|]. cbn. by intros [= <-].
  - cbn. destruct (String.eqb_spec name ""); [done|]. cbn. by intros [= <-].
Qed.

(** The dependency an entry of a table stands for. *)
Record entry_spec (cx : Context_) (d : DetailedTomlDependency) (name : string) (kind : option DepKind) (dep : Dependency)
    : Prop := {
  es_name : dep_name dep = default name (td_package d) ∧ name_in_toml dep = name ∧ dep_name dep ≠ "";
  es_source : source_spec cx d (dep_source_id dep);
  es_registry : ∃ id, registry_id_of url_username url_password config env cx d = Ok id ∧ registry_id dep = Some id;
  es_req : req_spec (default name (td_package d)) (td_version d) (cx_pkgid cx) dep;
  es_kind : dep_kind dep = default Normal kind;
  es_platform : platform dep = cx_platform cx;
  es_optional : optional dep = default false (td_optional d);
  es_default_features : default_features dep = default true (option_or (td_default_features d) (td_default_features2 d));
  es_features : dep_features dep = default [] (td_features d);
  es_renamed : is_Some (td_package d) → require env (cx_features cx) rename_dependency = Ok tt;
}.

Lemma detailed_spec d name cx kind n dep n' : detailed_to_dependency d name cx kind n = Ok (dep, n') →
  entry_spec cx d name kind dep.
Proof.
  unfold ReadManifest.detailed_to_dependency. intros H.
  rd_step H u n1 H1. rd_step H rid n2 H2. rd_lifted H2. rd_step H src n3 H3. apply dep_source_spec in H3.
  rd_step H dep0 n4 H4. unfold parse_dep in H4. rd_step H4 u4 n5 H5. rd_lifted H4.
  apply parse_inv in H4 as (Hne & [Hsp Hreq] & Hname & Hsrc & Hkind & Hexp & Hom).
  destruct dep0 as [nm s g r sr k o e op df fs p]. cbn in Hsp, Hreq, Hname, Hsrc, Hkind, Hexp, Hom. subst nm s k o e.
  assert (G : ∀ k0 e0, (is_Some (td_package d) → require env (cx_features cx) rename_dependency = Ok tt) →
     k0 = default Normal kind → default (default name (td_package d)) e0 = name →
     entry_spec cx d name kind (mkDependency (default name (td_package d)) src (Some rid) r sr k0 false e0
        (default false (td_optional d)) (default true (option_or (td_default_features d) (td_default_features2 d)))
        (default [] (td_features d)) (cx_platform cx))).
  { intros k0 e0 Hren -> He0. constructor; cbn; first [done | by exists rid | exact (conj Hsp Hreq) | by split; [|split]]. }
  destruct (td_package d) as [pk|] eqn:Hpk.
  - rd_step H u6 n6 H6. rd_lifted H6. destruct u6. injection H as <- _.
    destruct kind; by apply G.
  - injection H as <- _. destruct kind; by apply G; [intros []| |].
Qed.

Lemma to_dependency_spec t name cx kind n dep n' :
  to_dependency url_username url_password config env t name cx kind n = Ok (dep, n') →
  entry_spec cx (detailed t) name kind dep.
Proof. destruct t; apply detailed_spec. Qed.

(** ** All entries *)
Record entry := mkEntry { en_name : string; en_dep : TomlDependency; en_kind : option DepKind; en_platform : option string }.
Definition table_entries (t : option (gmap string TomlDependency)) (kind : option DepKind) (platform : option string) : list entry :=
  (λ kd, mkEntry kd.1 kd.2 kind platform) <$> btree_iter (default ∅ t).
Definition platform_entries (np : string * TomlPlatform) : list entry :=
  let '(name, p) := np in
  (table_entries (tp_dependencies p) None (Some name) ++
   table_entries (option_or (tp_build_dependencies p) (tp_build_dependencies2 p)) (Some Build) (Some name) ++
   table_entries (option_or (tp_dev_dependencies p) (tp_dev_dependencies2 p)) (Some Development) (Some name))%list.
Definition entries (me : TomlManifest) : list entry :=
  (table_entries (tm_dependencies me) None None ++
   table_entries (option_or (tm_dev_dependencies me) (tm_dev_dependencies2 me)) (Some Development) None ++
   table_entries (option_or (tm_build_dependencies me) (tm_build_dependencies2 me)) (Some Build) None ++
   concat (platform_entries <$> btree_iter (default ∅ (tm_target me))))%list.

(** What an entry becomes in a package. *)
Definition stands_for (cx : Context_) (e : entry) (dep : Dependency) : Prop :=
  ∃ p, match en_platform e with Some key => ∃ q, platform_parse key = Ok q ∧ p = Some q | None => p = None end ∧
       entry_spec (set_platform cx p) (detailed (en_dep e)) (en_name e) (en_kind e) dep.

Lemma process_dependencies_spec cx t kind key n deps n' :
  process_dependencies url_username url_password config env cx t kind n = Ok (deps, n') →
  match key with Some key => ∃ q, platform_parse key = Ok q ∧ cx_platform cx = Some q | None => cx_platform cx = None end →
  Forall2 (stands_for cx) (table_entries t kind key) deps.
Proof.
  intros H Hkey. unfold process_dependencies in H. unfold table_entries.
  destruct t as [m|]; cbn [default from_option id].
  2:{ injection H as <- _. replace (btree_iter (∅ : gmap string TomlDependency)) with (@nil (string * TomlDependency)) by vm_eq.
      constructor. }
  apply rd_map_inv in H. apply Forall2_fmap_l. eapply Forall2_impl; [exact H|]. cbn.
  intros [name t] dep (n1 & n2 & Hd%to_dependency_spec). exists (cx_platform cx). split.
  - cbn. destruct key; [|done]. destruct Hkey as (q & ? & ->). by exists q.
  - by destruct cx.
Qed.

Lemma process_platform_spec st np n st' n' :
  process_platform url_username url_password config env st np n = Ok (st', n') →
  (∃ q, platform_parse np.1 = Ok q ∧ st'.1 = set_platform st.1 (Some q)) ∧
  ∃ deps, st'.2 = (st.2 ++ deps)%list ∧ Forall2 (stands_for st.1) (platform_entries np) deps.
Proof.
  destruct np as [name p]. cbn [process_platform platform_entries]. intros H.
  rd_step H q n1 Hq. rd_lifted Hq. rd_step H l1 n2 H1. rd_step H l2 n3 H2. rd_step H l3 n4 H3. injection H as <- _.
  assert (G : ∀ t kind m l m',
    process_dependencies url_username url_password config env (set_platform st.1 (Some q)) t kind m = Ok (l, m') →
    Forall2 (stands_for st.1) (table_entries t kind (Some name)) l).
  { intros t kind m l m' Hl. eapply Forall2_impl; [eapply (process_dependencies_spec _ _ _ (Some name)); [exact Hl|by exists q]|].
    intros e dep (pl & Hpl & He). exists pl. by destruct st. }
  split; [by exists q|]. exists (l1 ++ l2 ++ l3)%list. split; [done|].
  apply Forall2_app; [by eapply G|]. apply Forall2_app; by eapply G.
Qed.

(** The platform the loop over [target] leaves behind: that of the last table. *)
Definition platform_left (me : TomlManifest) (p : option Platform) : Prop :=
  match last (btree_iter (default ∅ (tm_target me))) with
  | Some np => ∃ q, platform_parse np.1 = Ok q ∧ p = Some q
  | None => p = None
  end.
Lemma process_platforms_spec l : ∀ st n st' n',
  rd_fold (process_platform url_username url_password config env) st l n = Ok (st', n') →
  (∃ p, st'.1 = set_platform st.1 p ∧
     match last l with Some np => ∃ q, platform_parse np.1 = Ok q ∧ p = Some q | None => p = cx_platform st.1 end) ∧
  ∃ deps, st'.2 = (st.2 ++ deps)%list ∧ Forall2 (stands_for st.1) (concat (platform_entries <$> l)) deps.
Proof.
  induction l as [|np l IH]; intros st n st' n'; cbn [rd_fold].
  - intros [= <- _]. split; [exists (cx_platform st.1); by destruct st as [[] ?]|]. exists []. rewrite app_nil_r. by split; [|constructor].
  - intros H. rd_step H st1 n1 H1. apply process_platform_spec in H1 as ((q & Hq & Hc) & d1 & Hd1 & Hs1).
    apply IH in H as ((p & Hp & Hl) & d2 & Hd2 & Hs2). rewrite Hc in Hp, Hs2, Hl. split.
    + exists p. split; [exact Hp|]. rewrite last_cons. destruct (last l); [done|]. exists q. split; [done|]. exact Hl.
    + exists (d1 ++ d2)%list. rewrite Hd2, Hd1, app_assoc. split; [done|]. cbn. apply Forall2_app; [done|].
      eapply Forall2_impl; [exact Hs2|]. intros e dep (pl & Hpl & He). by exists pl.
Qed.

Lemma collected_spec cx me n st n' : cx_platform cx = None →
  collect_deps url_username url_password config env cx me n = Ok (st, n') →
  Forall2 (stands_for cx) (entries me) st.2 ∧ platform_left me (cx_platform st.1).
Proof.
  intros Hcx H. unfold collect_deps in H.
  rd_step H l1 n1 H1. rd_step H l2 n2 H2. rd_step H l3 n3 H3.
  apply process_platforms_spec in H as ((p & -> & Hp) & ds & -> & Hs). split.
  - unfold entries. cbn [fst snd]. rewrite <-!app_assoc. repeat apply Forall2_app; try done; by eapply (process_dependencies_spec _ _ _ None); [eassumption|].
  - unfold platform_left. cbn. destruct (last _); [done|]. by rewrite Hp.
Qed.

(** ** Replacements and patches *)
Lemma replace_platform cx me n l n' : replace url_username url_password config env cx me n = Ok (l, n') →
  ∀ sd, sd ∈ l → platform sd.2 = cx_platform cx.
Proof.
  unfold replace. destruct (_ && _); [done|]. intros H%rd_map_inv sd (i & Hi)%list_elem_of_lookup.
  destruct (Forall2_lookup_r _ _ _ _ _ H Hi) as ([text t] & _ & n1 & n2 & Hr). cbn in Hr.
  rd_step Hr sp n3 H3. rd_step Hr sp' n4 H4. rd_step Hr u n5 H5. rd_step Hr dep n6 H6. rd_step Hr v n7 H7. injection Hr as <- _.
  apply to_dependency_spec in H6. destruct dep. exact (es_platform _ _ _ _ _ H6).
Qed.
Lemma patch_platform cx me n m n' : patch url_username url_password config env cx me n = Ok (m, n') →
  ∀ url deps dep, hget m url = Some deps → dep ∈ deps → platform dep = cx_platform cx.
Proof.
  unfold patch. generalize (btree_iter (default ∅ (tm_patch me))) as l. intros l.
  assert (G : ∀ (acc : hashmap Url (list Dependency)) k, (∀ url deps dep, hget acc url = Some deps → dep ∈ deps → platform dep = cx_platform cx) →
    rd_fold (patch_one url_username url_password config env cx) acc l k = Ok (m, n') →
    ∀ url deps dep, hget m url = Some deps → dep ∈ deps → platform dep = cx_platform cx).
  { induction l as [|ud l IH]; intros acc k Hacc; cbn [rd_fold]; [by intros [= <- _]|].
    intros H. rd_step H acc' n1 H1. eapply IH; [|exact H]. clear IH H. unfold patch_one in H1.
    rd_step H1 u n2 H2. rd_step H1 ds n3 H3. injection H1 as <- _. intros url deps dep. rewrite hget_hinsert.
    case_decide; [|by apply Hacc]. intros [= <-] (i & Hi)%list_elem_of_lookup. apply rd_map_inv in H3.
    destruct (Forall2_lookup_r _ _ _ _ _ H3 Hi) as (nd & _ & n4 & n5 & Hd%to_dependency_spec). exact (es_platform _ _ _ _ _ Hd). }
  apply G. intros url deps dep. by rewrite hget_empty.
Qed.

(** ** One source per name *)
Lemma name_source_spec deps : ∀ m m', foldM name_source m deps = Ok m' →
  (∀ k s, m !! k = Some s → ∃ s', m' !! k = Some s' ∧ to_key s' = to_key s) ∧
  ∀ d, d ∈ deps → ∃ s, m' !! name_in_toml d = Some s ∧ to_key s = to_key (dep_source_id d).
Proof.
  induction deps as [|d deps IH]; intros m m'; cbn [foldM].
  - intros [= ->]. split; [eauto|]. by intros d ?%elem_of_nil.
  - unfold name_source at 1. intros H.
    assert (K : ∃ m1, foldM name_source m1 deps = Ok m' ∧ m1 = <[name_in_toml d := dep_source_id d]> m ∧
                ∀ s, m !! name_in_toml d = Some s → to_key s = to_key (dep_source_id d)).
    { destruct (m !! name_in_toml d) as [prev|]; [|by eexists].
      destruct (prev ==? dep_source_id d) eqn:E; [|done]. eexists. split; [exact H|]. split; [done|].
      intros s [= <-]. by apply bool_decide_eq_true in E. }
    destruct K as (m1 & Hf & -> & Hold). destruct (IH _ _ Hf) as [Hk Hd].
    destruct (Hk (name_in_toml d) (dep_source_id d)) as (s1 & Hs1 & Hs1k); [by rewrite lookup_insert_eq|].
    split.
    + intros k s Hs. destruct (decide (k = name_in_toml d)) as [->|Hne].
      * exists s1. split; [done|]. by rewrite Hs1k, (Hold s Hs).
      * apply Hk. by rewrite lookup_insert_ne.
    + intros d' [->|Hin]%elem_of_cons; [by exists s1|by apply Hd].
Qed.

(** ** Keys that need a feature *)
Definition needs {A} (features : Features) (o : option A) (f : Features.Feature) : Prop := is_Some o → require env features f = Ok tt.
Lemma needs_inv {A} (features : Features) (o : option A) f n u n' :
  rd_lift (if is_none o then Ok tt else require env features f) n = Ok (u, n') → needs features o f.
Proof. intros [H _]%rd_lift_inv [x Hx]. subst o. cbn in H. by destruct u. Qed.
Lemma chain_err_ok {A} ctx (m : cresult A) a : chain_err ctx m = Ok a → m = Ok a.
Proof. by destruct m. Qed.
Lemma package_edition_needs features project e : package_edition env features project = Ok e →
  needs features (pj_edition project) edition.
Proof.
  unfold package_edition. intros H [x Hx]. rewrite Hx in H.
  apply bind_Ok_inv in H as ([] & H%chain_err_ok & _). done.
Qed.
Lemma feature_gate_needs m : feature_gate env m = Ok tt →
  needs (man_features m) (man_im_a_teapot m) test_dummy_unstable ∧ needs (man_features m) (man_default_run m) default_run.
Proof.
  unfold feature_gate, needs. intros ([] & H1 & H2)%bind_Ok_inv.
  split; intros [x Hx]; rewrite Hx in *; by apply chain_err_ok in H1 || apply chain_err_ok in H2.
Qed.

Definition names_agree (deps : list Dependency) : Prop :=
  ∀ d1 d2, d1 ∈ deps → d2 ∈ deps → name_in_toml d1 = name_in_toml d2 →
    to_key (dep_source_id d1) = to_key (dep_source_id d2).
Lemma read_deps_spec me cx n all n' : cx_platform cx = None →
  read_deps url_username url_password config env me cx n = Ok (all, n') →
  (Forall2 (stands_for cx) (entries me) all.1.1 ∧ names_agree all.1.1) ∧
  ∃ p, platform_left me p ∧ (∀ sd, sd ∈ all.1.2 → platform sd.2 = p) ∧
    ∀ url deps dep, hget all.2 url = Some deps → dep ∈ deps → platform dep = p.
Proof.
  intros Hcx H. unfold read_deps in H.
  rd_step H st n1 H1. rd_step H r n2 H2. rd_step H p n3 H3. rd_step H u n4 H4. injection H as <- _. cbn.
  apply collected_spec in H1 as [Hs Hp]; [|done]. split.
  - split; [done|]. rd_lifted H4. apply bind_Ok_inv in H4 as (m & Hm & _). destruct (name_source_spec _ _ _ Hm) as [_ Hd].
    intros d1 d2 Hd1 Hd2 Heq. destruct (Hd d1 Hd1) as (s1 & Hs1 & <-), (Hd d2 Hd2) as (s2 & Hs2 & <-).
    rewrite Heq in Hs1. congruence.
  - exists (cx_platform st.1). split; [done|]. split; [by eapply replace_platform|by eapply patch_platform].
Qed.

Record sound_manifest (me : TomlManifest) (source_id : SourceId) (root : path) (project : TomlProject) (m : RealManifest)
    : Prop := {
  sm_id : sum_package_id (man_summary (rm_manifest m)) = mkPackageId (pj_name project) (pj_version project) source_id;
  sm_name : check_package_name (trim (pj_name project)) = Ok tt;
  sm_deps : Forall2 (stands_for (mkContext (Some (sum_package_id (man_summary (rm_manifest m)))) source_id None root
                                   (man_features (rm_manifest m))))
              (entries me) (sum_dependencies (man_summary (rm_manifest m)));
  sm_names : names_agree (sum_dependencies (man_summary (rm_manifest m)));
  sm_features : let deps := sum_dependencies (man_summary (rm_manifest m)) in
    let table := default ∅ (tm_features me) in
    let ns := default false (pj_namespaced_features project) in
    valid_table table deps ns ∧ table_features table ns (sum_features (man_summary (rm_manifest m)));
  sm_targets : is_absolute root = true → well_formed (man_targets (rm_manifest m));
  sm_gates : let fs := man_features (rm_manifest m) in
    needs fs (pj_edition project) edition ∧ needs fs (pj_metabuild project) metabuild ∧
    needs fs (pj_namespaced_features project) namespaced_features ∧
    needs fs (pj_publish_lockfile project) publish_lockfile ∧
    needs fs (pj_im_a_teapot project) test_dummy_unstable ∧ needs fs (pj_default_run project) default_run;
  sm_overrides : ∃ p, platform_left me p ∧ (∀ sd, sd ∈ man_replace (rm_manifest m) → platform sd.2 = p) ∧
    ∀ url deps dep, hget (man_patch (rm_manifest m)) url = Some deps → dep ∈ deps → platform dep = p;
}.
End facts.

(** C34. A manifest that is read is sound: the package keeps the name the file
    gives, whose trimmed form is a valid name; its dependencies are the entries
    of all tables in order, each with the name, kind, platform, source, version
    requirement, features and registry its entry asks for; two entries of the
    same name have the same source; the table of features is closed over the
    dependencies; the targets are well formed; every unstable key comes
    with its feature; and replacements and patches, which no [target] table
    holds, have the platform of the last [target] table all the same. *)
Theorem to_real_manifest_spec `{SV : SemverLib} `{UL : UrlLib} `{RS : RustStd} `{US : UnicodeStd} `{FS : FileSystem}
    `{DS : DirSystem} `{TL : TomlLib} `{UC : UnicodeCase} (url_username : Url → string) (url_password : Url → option string)
    (config : Config) (env : Env) (config_profiles : cresult ConfigProfiles)
    (me : TomlManifest) (source_id : SourceId) (root : path) (n : notes) (m : RealManifest) (n' : notes)
    (H : to_real_manifest url_username url_password config env config_profiles me source_id root n = Ok (m, n')) :
  ∃ project, option_or (tm_project me) (tm_package me) = Some project ∧
    sound_manifest url_username url_password config env me source_id root project m.
Proof.
  unfold to_real_manifest in H.
  rd_step H features n1 H1. rd_step H project n2 H2. rd_lifted H2.
  destruct (option_or (tm_project me) (tm_package me)) as [pj|]; [|done]. injection H2 as ->. exists project. split; [done|].
  rd_step H u n3 H3. rd_lifted H3. destruct u. rd_step H ed n4 H4. rd_lifted H4.
  rd_step H u n5 H5. apply needs_inv in H5. rd_step H ts n6 H6. rd_step H u1 n7 H7.
  rd_step H deps n8 H8. apply read_deps_spec in H8 as [[Hdeps Hnames] Hover]; [|done].
  rd_step H u2 n9 H9. apply needs_inv in H9. rd_step H summary n10 H10. rd_lifted H10.
  match type of H10 with Summary.new ?a ?b ?c ?d ?e = _ => pose proof (new_cases a b c d e) as Hs end. rewrite H10 in Hs.
  destruct Hs as (Hvalid & Hid & Hd & _ & _ & _ & Htable & _).
  rd_step H ws n11 H11. rd_step H profiles n12 H12. rd_step H pub n13 H13. rd_step H lock n14 H14. rd_lifted H14.
  rd_step H nts n15 H15. rd_step H u3 n16 H16. rd_lifted H16. destruct u3. apply feature_gate_needs in H16 as [G1 G2].
  injection H as <- _. constructor; cbn [rm_manifest man_summary man_targets man_features].
  - exact Hid.
  - exact H3.
  - rewrite Hid, Hd. exact Hdeps.
  - rewrite Hd. exact Hnames.
  - rewrite Hd. by split.
  - intros Hroot. pose proof (targets_yields env features me (trim (pj_name project)) root ed (pj_build project)
      (pj_metabuild project) Hroot) as Hy. match type of H6 with _ ?n = _ => specialize (Hy n) end. by rewrite H6 in Hy.
  - cbn in G1, G2. split; [by eapply package_edition_needs|]. split; [exact H5|]. split; [exact H9|]. split; [|by split].
    intros [b Hb]. unfold publish_lockfile_of in H14. rewrite Hb in H14. by apply bind_Ok_inv in H14 as ([] & ? & _).
  - exact Hover.
Qed.

(** * A concrete run *)
Section run.
Local Existing Instance sem_lib.
Local Existing Instance hier_lib.
Local Existing Instance std_order.
Local Existing Instance package_files.
Local Existing Instance package_dirs.
Local Existing Instance line_toml.
Local Existing Instance ascii_case.
Local Existing Instance ascii_letters.
Definition no_profiles : cresult ConfigProfiles := Ok (mkConfigProfiles None None).
Definition padded_project : TomlProject :=
  @mkTomlProject sem_lib None " p " (1, 0, 0)%nat None None None None None None None None None None None None None None
    None None None None None None None None None None None None.
Definition path_dep : DetailedTomlDependency :=
  mkDetailed None None None (Some "../d") None None None None None None None None None.
Definition padded_manifest : TomlManifest :=
  mkTomlManifest None None (Some padded_project) None None None None None None (Some {["b" := Simple "1.0.0"]})
    (Some {["d" := Detailed path_dep]}) None None None None
    (Some {["unix" := mkTomlPlatform (Some {["c" := Simple "2.0.0"]}) None None None None]}) None None None None.
Definition package_source : SourceId := mkSourceId (UL:=hier_lib) ("file", "", ["w"; "p"], None, None) ("file", "", ["w"; "p"], None, None) Path None None.
Definition padded_run : cresult (RealManifest * notes) :=
  to_real_manifest (λ _, "") (λ _, None) (sample_config ∅) stable_env no_profiles padded_manifest package_source "/w/p" no_notes.

(** The name is checked without the white space around it, and kept with it. *)
Definition run_name (r : cresult (RealManifest * notes)) : option string :=
  match r with Ok (m, _) => Some (pid_name (sum_package_id (man_summary (rm_manifest m)))) | _ => None end.
Example padded_name : run_name padded_run = Some " p ".
Proof. vm_eq. Qed.

(** A patch gets the platform of a table that has nothing to do with it. *)
Definition patched_manifest : TomlManifest :=
  mkTomlManifest None None (Some padded_project) None None None None None None None None None None None None
    (Some {["unix" := mkTomlPlatform None None None None None]}) None (Some {["crates-io" := {["d" := Detailed path_dep]}]}) None None.
Example patch_platform_leaks :
  match to_real_manifest (λ _, "") (λ _, None) (sample_config ∅) stable_env no_profiles patched_manifest package_source "/w/p" no_notes with
  | Ok (m, _) => List.map (λ d, (dep_name d, platform d)) (concat (hiter (man_patch (rm_manifest m))).*2)
  | _ => []
  end = [("d", Some (PName "unix"))].
Proof. vm_eq. Qed.

(** An entry without a name, or with an empty [package] key, stops Cargo. *)
Definition sample_cx : Context_ := mkContext None package_source None "/w/p" features_default.
Example empty_name_panics :
  is_panic (to_dependency (λ _, "") (λ _, None) (sample_config ∅) stable_env (Simple "1.0.0") "" sample_cx None no_notes) = true.
Proof. vm_eq. Qed.

Definition run_deps (r : cresult (RealManifest * notes)) : list string :=
  match r with Ok (m, _) => name_in_toml <$> sum_dependencies (man_summary (rm_manifest m)) | _ => [] end.
Lemma to_real_manifest_spec_witness :
  run_deps padded_run = ["b"; "d"; "c"] ∧
  ∃ m n, padded_run = Ok (m, n) ∧ ∃ project, option_or (tm_project padded_manifest) (tm_package padded_manifest) = Some project ∧
    sound_manifest (λ _, "") (λ _, None) (sample_config ∅) stable_env padded_manifest package_source "/w/p" project m.
Proof.
  split; [vm_eq|]. assert (Hok : is_ok padded_run = true) by vm_eq.
  destruct padded_run as [[m n]| |] eqn:E; [|discriminate Hok..]. exists m, n. split; [done|].
  exact (to_real_manifest_spec (λ _, "") (λ _, None) (sample_config ∅) stable_env no_profiles padded_manifest package_source
    "/w/p" no_notes m n E).
Defined.
End run.
