(* ===== verification/Workspace.v ===== *)
(** Workspaces, [src/cargo/core/workspace.rs]: the search for the root, the
    members reached through globs and path dependencies, and the checks that
    make them one workspace. *)
From S2P Require Import Prelude Str Extern Path Utf8 SourceId PackageId Features Target Profiles ConfigValue Config SourceConfig.
From S2P Require Import Cfg Dependency Summary TomlManifest TomlTargets Package ReadManifest.

Local Open Scope string_scope.

(** [Path::starts_with], [Path::ends_with] *)
Definition path_starts_with (p base : path) : bool := bool_decide (is_Some (strip_components (components p) (components base))).
Definition path_ends_with (p suffix : path) : bool :=
  bool_decide (is_Some (strip_components (rev (components p)) (rev (components suffix)))).

(** [opt(l)]: a loop over a list whose body takes fuel. *)
Fixpoint fold_fuel {S A} (f : S → A → option (cresult S)) (s : S) (l : list A) : option (cresult S) :=
  match l with
  | [] => Some (Ok s)
  | x :: l => let* s := f s x in fold_fuel f s l
  end.

(** * [WorkspaceRootConfig] *)
Section root_config.
Context (glob : string → cresult (list (cresult path))).

Definition is_excluded (c : WorkspaceRootConfig) (manifest_path : path) : bool :=
  let below s := path_starts_with manifest_path (path_join (root_dir c) s) in
  let excluded := existsb below (exclude c) in
  let explicit_member := match members c with Some members => existsb below members | None => false end in
  negb explicit_member && excluded.
Definition has_members_list (c : WorkspaceRootConfig) : bool := negb (is_none (members c)).

(** [expand_member_path]; [glob] is the crate of that name. *)
Definition expand_member_path (p : path) : cresult (list path) :=
  match path_to_str p with
  | None => Ok []
  | Some p =>
      res ← chain_err ("could not parse pattern `" ++ p ++ "`") (glob p);
      foldM (λ out r, q ← chain_err ("unable to match path to pattern `" ++ p ++ "`") r; Ok (out ++ [q])%list) [] res
  end.
Definition members_paths (c : WorkspaceRootConfig) (globs : list string) : cresult (list path) :=
  foldM (λ expanded g,
    let pathbuf := path_join (root_dir c) g in
    expanded_paths ← expand_member_path pathbuf;
    Ok (expanded ++ match expanded_paths with [] => [pathbuf] | l => l end)%list) [] globs.
End root_config.

Section workspace.
Context `{SV : SemverLib} `{UL : UrlLib} `{RS : RustStd} `{FS : FileSystem} `{TL : TomlLib} `{UC : UnicodeCase}.
Context (config : Config) (glob : string → cresult (list (cresult path))).

(** * [MaybePackage], [Packages] *)
Inductive MaybePackage := MPackage (m : RealManifest) (manifest_path : path) | MVirtual (vm : VirtualManifest).
Definition maybe_workspace_config (p : MaybePackage) : WorkspaceConfig :=
  match p with MPackage m _ => rm_workspace m | MVirtual vm => vm_workspace vm end.
Definition as_package (p : MaybePackage) : option Package :=
  match p with MPackage m p => Some (mkPackage (rm_manifest m) p) | MVirtual _ => None end.

(** Reading the manifest at a path, as [Packages::load] does: its source is the directory. *)
Context (read : path → cresult MaybePackage).

(** Packages by directory; a [PathBuf] is compared by its components, and kept as it was spelled. *)
Abbreviation Packages := (gmap (list Component) (path * MaybePackage)).
Definition maybe_get (ps : Packages) (manifest_path : path) : cresult (option MaybePackage) :=
  key ← unwrap (parent manifest_path); Ok (snd <$> ps !! components key).
Definition get (ps : Packages) (manifest_path : path) : cresult MaybePackage :=
  p ← maybe_get ps manifest_path; unwrap p.
Definition load (ps : Packages) (manifest_path : path) : cresult (MaybePackage * Packages) :=
  key ← unwrap (parent manifest_path);
  match ps !! components key with
  | Some (_, p) => Ok (p, ps)
  | None => p ← read manifest_path; Ok (p, <[components key := (key, p)]> ps)
  end.

(** * [find_root] *)
Definition read_root_pointer (member_manifest root_link : path) : cresult path :=
  dir ← unwrap (parent member_manifest);
  Ok (normalize_path (path_join (path_join dir root_link) "Cargo.toml")).
(** The walk over the directories above that of the manifest. *)
Fixpoint root_above (ps : Packages) (manifest_path : path) (above : list path) : cresult (option path * Packages) :=
  match above with
  | [] => Ok (None, ps)
  | dir :: above =>
      if path_ends_with dir "target/package" then Ok (None, ps)
      else
        let ances_manifest_path := path_join dir "Cargo.toml" in
        let on ps := if path_eqb (home_path config) dir then Ok (None, ps) else root_above ps manifest_path above in
        if fs_exists ances_manifest_path then
          '(p, ps) ← load ps ances_manifest_path;
          match maybe_workspace_config p with
          | WorkspaceRoot c => if is_excluded c manifest_path then on ps else Ok (Some ances_manifest_path, ps)
          | WorkspaceMember (Some path_to_root) =>
              root ← read_root_pointer ances_manifest_path path_to_root; Ok (Some root, ps)
          | WorkspaceMember None => on ps
          end
        else on ps
  end.
Definition find_root (ps : Packages) (manifest_path : path) : cresult (option path * Packages) :=
  '(current, ps) ← load ps manifest_path;
  match maybe_workspace_config current with
  | WorkspaceRoot _ => Ok (Some manifest_path, ps)
  | WorkspaceMember (Some path_to_root) => root ← read_root_pointer manifest_path path_to_root; Ok (Some root, ps)
  | WorkspaceMember None => root_above ps manifest_path (drop 2 (ancestors (test_root config) manifest_path))
  end.

(** * [Workspace] *)
Record Workspace := mkWorkspace {
  current_manifest : path;
  packages : Packages;
  root_manifest : option path;
  ws_target_dir : option path;
  ws_members : list path;
  ws_default_members : list path;
  is_ephemeral : bool;
  require_optional_deps : bool;
  loaded_packages : gmap (list Component) Package;
}.
Definition set_packages (ws : Workspace) (ps : Packages) : Workspace :=
  mkWorkspace (current_manifest ws) ps (root_manifest ws) (ws_target_dir ws) (ws_members ws) (ws_default_members ws)
    (is_ephemeral ws) (require_optional_deps ws) (loaded_packages ws).
Definition set_root (ws : Workspace) (root : option path) : Workspace :=
  mkWorkspace (current_manifest ws) (packages ws) root (ws_target_dir ws) (ws_members ws) (ws_default_members ws)
    (is_ephemeral ws) (require_optional_deps ws) (loaded_packages ws).
Definition set_members (ws : Workspace) (l : list path) : Workspace :=
  mkWorkspace (current_manifest ws) (packages ws) (root_manifest ws) (ws_target_dir ws) l (ws_default_members ws)
    (is_ephemeral ws) (require_optional_deps ws) (loaded_packages ws).
Definition set_default_members (ws : Workspace) (l : list path) : Workspace :=
  mkWorkspace (current_manifest ws) (packages ws) (root_manifest ws) (ws_target_dir ws) (ws_members ws) l
    (is_ephemeral ws) (require_optional_deps ws) (loaded_packages ws).

(** [members.contains(path)] *)
Definition contains_path (l : list path) (p : path) : bool := existsb (path_eqb p) l.
Definition root_path (ws : Workspace) : path := default (current_manifest ws) (root_manifest ws).
(** [Workspace::root] *)
Definition root (ws : Workspace) : cresult path := unwrap (parent (root_path ws)).
Definition is_virtual (ws : Workspace) : cresult bool :=
  p ← get (packages ws) (current_manifest ws); Ok (match p with MPackage _ _ => false | MVirtual _ => true end).

(** ** [find_members] *)
Definition path_dependencies (m : RealManifest) : list path :=
  omap (λ d, if is_path (dep_source_id d)
             then (λ p, path_join p "Cargo.toml") <$> url_to_file_path (sid_url (dep_source_id d))
             else None)
    (sum_dependencies (man_summary (rm_manifest m))).
(** A path dependency outside of the directory of the root whose own root is another one. *)
Definition outside (ws : Workspace) (manifest_path : path) (is_path_dep : bool) : cresult (bool * Workspace) :=
  if is_path_dep then
    dir ← unwrap (parent manifest_path);
    r ← root ws;
    if path_starts_with dir r then Ok (false, ws)
    else '(found, ps) ← find_root (packages ws) manifest_path;
         Ok (negb (same_path found (root_manifest ws)), set_packages ws ps)
  else Ok (false, ws).
Fixpoint find_path_deps (fuel : nat) (ws : Workspace) (manifest_path root_manifest : path) (is_path_dep : bool)
    : option (cresult Workspace) :=
  match fuel with
  | O => None
  | S fuel =>
      let manifest_path := normalize_path manifest_path in
      if contains_path (ws_members ws) manifest_path then Some (Ok ws)
      else
        let* (out, ws) := Some (outside ws manifest_path is_path_dep) in
        if (out : bool) then Some (Ok ws)
        else
          let* (r, ps) := Some (load (packages ws) root_manifest) in
          let ws := set_packages ws ps in
          if match maybe_workspace_config r with WorkspaceRoot c => is_excluded c manifest_path | _ => false end
          then Some (Ok ws)
          else
            let ws := set_members ws (ws_members ws ++ [manifest_path]) in
            let* (p, ps) := Some (load (packages ws) manifest_path) in
            let ws := set_packages ws ps in
            match p with
            | MVirtual _ => Some (Ok ws)
            | MPackage m _ => fold_fuel (λ ws candidate, find_path_deps fuel ws candidate root_manifest true) ws (path_dependencies m)
            end
  end.

Definition not_default_member (p : path) : string :=
  "package `" ++ p ++ "` is listed in workspace’s default-members but is not a member.".
Definition add_default (ws : Workspace) (p : path) : cresult Workspace :=
  let manifest_path := normalize_path (path_join p "Cargo.toml") in
  if contains_path (ws_members ws) manifest_path
  then Ok (set_default_members ws (ws_default_members ws ++ [manifest_path])%list)
  else Err (not_default_member p).
(** The members and default members the root asks for. *)
Definition configured_members (c : WorkspaceRootConfig) : cresult (list path * option (list path)) :=
  members ← members_paths glob c (default [] (members c));
  match default_members c with
  | Some l => defaults ← members_paths glob c l; Ok (members, Some defaults)
  | None => Ok (members, None)
  end.
Definition find_members (fuel : nat) (ws : Workspace) : option (cresult Workspace) :=
  match root_manifest ws with
  | None =>
      Some (Ok (set_default_members (set_members ws (ws_members ws ++ [current_manifest ws]))
                  (ws_default_members ws ++ [current_manifest ws])))
  | Some root_manifest_path =>
      let* (root_package, ps) := Some (load (packages ws) root_manifest_path) in
      let ws := set_packages ws ps in
      let* (members, defaults) := Some match maybe_workspace_config root_package with
                                       | WorkspaceRoot c => configured_members c
                                       | _ => Err ("root of a workspace inferred but wasn't a root: " ++ root_manifest_path)
                                       end in
      let* ws := fold_fuel (λ ws p, find_path_deps fuel ws (path_join p "Cargo.toml") root_manifest_path false) ws members in
      let* ws := Some match defaults with
                      | Some l => foldM add_default ws l
                      | None =>
                          v ← is_virtual ws;
                          Ok (set_default_members ws
                                (if (v : bool) then ws_members ws else ws_default_members ws ++ [current_manifest ws])%list)
                      end in
      find_path_deps fuel ws root_manifest_path root_manifest_path false
  end.

(** ** [validate] *)
Definition package_name (p : Package) : string := pid_name (package_id p).
Definition is_root (p : MaybePackage) : bool := match maybe_workspace_config p with WorkspaceRoot _ => true | _ => false end.
Definition two_packages (name : string) (prev member : path) : string :=
  "two packages named `" ++ name ++ "` in this workspace:" ++ TomlTargets.nl ++ "- " ++ prev ++ TomlTargets.nl ++ "- " ++ member.
(** The first loop: the directories of roots, and the names of the packages. *)
Definition see_member (ps : Packages) (st : list path * gmap string path) (member : path)
    : cresult (list path * gmap string path) :=
  let '(roots, names) := st in
  package ← get ps member;
  roots ← (if is_root package then dir ← unwrap (parent member); Ok (roots ++ [dir])%list else Ok roots);
  match as_package package with
  | None => Ok (roots, names)
  | Some p =>
      match names !! package_name p with
      | Some prev => Err (two_packages (package_name p) prev member)
      | None => Ok (roots, <[package_name p := member]> names)
      end
  end.
Definition no_root (current root : path) : string :=
  "`package.workspace` configuration points to a crate which is not configured with [workspace]: " ++ TomlTargets.nl ++
  "configuration at: " ++ current ++ TomlTargets.nl ++ "points to: " ++ root.
Definition many_roots (roots : list path) : string :=
  "multiple workspace roots found in the same workspace:" ++ TomlTargets.nl ++
  join TomlTargets.nl ((λ r, "  " ++ r) <$> roots).
Definition wrong_workspace (member expected actual : path) : string :=
  "package `" ++ member ++ "` is a member of the wrong workspace" ++ TomlTargets.nl ++
  "expected: " ++ expected ++ TomlTargets.nl ++ "actual:   " ++ actual.
Definition not_below (member root : path) : string :=
  "workspace member `" ++ member ++ "` is not hierarchically below the workspace root `" ++ root ++ "`".
(** The second loop: every member has the same root. *)
Definition check_member (root_manifest : path) (ps : Packages) (member : path) : cresult Packages :=
  '(found, ps) ← find_root ps member;
  match found with
  | Some r => if path_eqb r root_manifest then Ok ps else Err (wrong_workspace member root_manifest r)
  | None => Err (not_below member root_manifest)
  end.
Definition not_a_member (current root extra : string) : string :=
  "current package believes it's in a workspace when it's not:" ++ TomlTargets.nl ++
  "current:   " ++ current ++ TomlTargets.nl ++ "workspace: " ++ root ++ TomlTargets.nl ++ TomlTargets.nl ++ extra.
(** The advice given when the current package is no member. *)
Definition members_advice (ws : Workspace) (root_manifest : path) : cresult string :=
  root_dir ← unwrap (parent root_manifest);
  current_dir ← unwrap (parent (current_manifest ws));
  root_pkg ← get (packages ws) root_manifest;
  let members_msg := match strip_prefix current_dir root_dir with
                     | Some rel => "this may be fixable by adding `" ++ rel ++ "` to the `workspace.members` array of the manifest located at: " ++ root_manifest
                     | None => "this may be fixable by adding a member to the `workspace.members` array of the manifest located at: " ++ root_manifest
                     end in
  match root_pkg with
  | MVirtual _ => Ok members_msg
  | MPackage m _ =>
      match rm_workspace m with
      | WorkspaceRoot c =>
          Ok (if has_members_list c then members_msg
              else "this may be fixable by ensuring that this crate is depended on by the workspace root: " ++ root_manifest)
      | WorkspaceMember _ => Panic "internal error: entered unreachable code"
      end
  end.
Definition ignored_profiles (package root : path) : string :=
  "profiles for the non root package will be ignored, specify profiles at the workspace root:" ++ TomlTargets.nl ++
  "package:   " ++ package ++ TomlTargets.nl ++ "workspace: " ++ root.
(** The packages a list of manifests names, virtual ones left out ([Members]). *)
Definition members_of (ps : Packages) (l : list path) : cresult (list (RealManifest * path)) :=
  foldM (λ out p, q ← get ps p; Ok match q with MPackage m mp => (out ++ [(m, mp)])%list | MVirtual _ => out end) [] l.
Definition profile_warnings (root_manifest : path) (pkgs : list (RealManifest * path)) : list string :=
  omap (λ mp, if negb (path_eqb mp.2 root_manifest) && has_profiles (rm_original mp.1)
              then Some (ignored_profiles mp.2 root_manifest) else None) pkgs.
Definition one_root (current root : path) (roots : list path) : cresult unit :=
  match roots with
  | [] => Err (no_root current root)
  | [_] => Ok tt
  | _ => Err (many_roots roots)
  end.
Definition current_is_member (ws : Workspace) (root_manifest : path) : cresult unit :=
  if contains_path (ws_members ws) (current_manifest ws) then Ok tt
  else extra ← members_advice ws root_manifest; Err (not_a_member (current_manifest ws) root_manifest extra).
(** The result, with the warnings printed. *)
Definition validate (ws : Workspace) : cresult (Workspace * list string) :=
  match root_manifest ws with
  | None => Ok (ws, [])
  | Some root_manifest =>
      seen ← (foldM (see_member (packages ws)) ([], ∅) (ws_members ws) : cresult _);
      _ ← one_root (current_manifest ws) root_manifest seen.1;
      ps ← foldM (check_member root_manifest) (packages ws) (ws_members ws);
      let ws := set_packages ws ps in
      _ ← current_is_member ws root_manifest;
      pkgs ← members_of (packages ws) (ws_members ws);
      Ok (ws, profile_warnings root_manifest pkgs)
  end.

(** ** Construction *)
Definition start (manifest_path : path) (dir : option path) : Workspace :=
  mkWorkspace manifest_path ∅ None dir [] [] false true ∅.
(** [Workspace::new] *)
Definition new (fuel : nat) (manifest_path : path) : option (cresult (Workspace * list string)) :=
  let* dir := Some (target_dir config) in
  let* (found, ps) := Some (find_root ∅ manifest_path) in
  let ws := set_root (set_packages (start manifest_path dir) ps) found in
  let* ws := find_members fuel ws in
  Some (validate ws).
(** [Workspace::ephemeral] *)
Definition ephemeral (m : RealManifest) (manifest_path : path) (dir : option path) (require_optional_deps : bool)
    : cresult Workspace :=
  key ← unwrap (parent manifest_path);
  dir ← match dir with Some d => Ok (Some d) | None => target_dir config end;
  Ok (mkWorkspace manifest_path {[components key := (key, MPackage m manifest_path)]} None dir [manifest_path] [manifest_path]
        true require_optional_deps ∅).

(** ** Queries *)
Definition current_opt (ws : Workspace) : cresult (option Package) :=
  p ← get (packages ws) (current_manifest ws); Ok (as_package p).
Definition current (ws : Workspace) : cresult Package :=
  p ← current_opt ws;
  match p with
  | Some p => Ok p
  | None => Err ("manifest path `" ++ current_manifest ws ++
                 "` is a virtual manifest, but this command requires running against an actual package in this workspace")
  end.
Definition of_root {A} (ws : Workspace) (f : Manifest → A) (g : VirtualManifest → A) : cresult A :=
  p ← get (packages ws) (root_path ws);
  Ok match p with MPackage m _ => f (rm_manifest m) | MVirtual vm => g vm end.
Definition ws_profiles (ws : Workspace) : cresult Profiles := of_root ws man_profiles vm_profiles.
Definition root_replace (ws : Workspace) : cresult (list (PackageIdSpec * Dependency)) := of_root ws man_replace vm_replace.
Definition root_patch (ws : Workspace) : cresult (hashmap Url (list Dependency)) := of_root ws man_patch vm_patch.
Definition ws_target (ws : Workspace) : cresult path :=
  match ws_target_dir ws with Some d => Ok d | None => r ← root ws; Ok (path_join r "target") end.
Definition member_packages (ws : Workspace) : cresult (list Package) :=
  l ← members_of (packages ws) (ws_members ws); Ok (List.map (λ mp, mkPackage (rm_manifest mp.1) mp.2) l).
Definition default_packages (ws : Workspace) : cresult (list Package) :=
  l ← members_of (packages ws) (ws_default_members ws); Ok (List.map (λ mp, mkPackage (rm_manifest mp.1) mp.2) l).
Definition is_member (ws : Workspace) (pkg : Package) : cresult bool :=
  l ← member_packages ws; Ok (existsb (λ p, p ==? pkg) l).

(** [Workspace::load]; [read_local] below is the reading. *)
Definition ws_load (read_local : path → cresult Package) (ws : Workspace) (manifest_path : path)
    : cresult (Package * Workspace) :=
  found ← maybe_get (packages ws) manifest_path;
  match found with
  | Some (MPackage m p) => Ok (mkPackage (rm_manifest m) p, ws)
  | Some (MVirtual _) => Err "cannot load workspace root"
  | None =>
      match loaded_packages ws !! components manifest_path with
      | Some p => Ok (p, ws)
      | None =>
          p ← read_local manifest_path;
          Ok (p, mkWorkspace (current_manifest ws) (packages ws) (root_manifest ws) (ws_target_dir ws) (ws_members ws)
                   (ws_default_members ws) (is_ephemeral ws) (require_optional_deps ws)
                   (<[components manifest_path := p]> (loaded_packages ws)))
      end
  end.

(** [emit_warnings]: what is printed, up to the first critical warning. *)
Definition warnings_of (p : MaybePackage) : list DelayedWarning :=
  match p with MPackage m _ => man_warnings (rm_manifest m) | MVirtual vm => vm_warnings vm end.
Definition emit_warning (dir : string) (printed : list string) (w : DelayedWarning) : res (string * list string) (list string) :=
  if is_critical w
  then Err (("failed to parse manifest at `" ++ dir ++ "`" ++ TomlTargets.nl ++ "Caused by: " ++ message w)%string, printed)
  else Ok (printed ++ [message w])%list.
Definition emit_warnings (ws : Workspace) : res (string * list string) (list string) :=
  foldM (λ printed dp, foldM (emit_warning dp.2.1) printed (warnings_of dp.2.2)) [] (hm_iter (packages ws)).
End workspace.

(** Reading a manifest, the part of [Packages::load] that goes to the disk: what
    the reader warns of on its way is printed, and not kept. *)
Section reader.
Context `{SV : SemverLib} `{UL : UrlLib} `{RS : RustStd} `{US : UnicodeStd} `{FS : FileSystem} `{DS : TomlTargets.DirSystem}
  `{TL : TomlLib} `{UC : UnicodeCase}.
Context (url_username : Url → string) (url_password : Url → option string).
Context (config : Config) (env : Env) (config_profiles : cresult ConfigProfiles).
Context (deserialize_manifest : toml → cresult (TomlManifest * list IgnoredPath)).
Definition read_maybe (manifest_path : path) : cresult MaybePackage :=
  key ← unwrap (parent manifest_path);
  source_id ← SourceId.for_path key;
  '(m, _) ← map_err fst (read_manifest url_username url_password config env config_profiles deserialize_manifest
                           manifest_path source_id);
  Ok match m with Real m => MPackage m manifest_path | Virtual vm => MVirtual vm end.

(** [ops::read_package], with the paths of the dependencies. *)
Definition read_package (p : path) (source_id : SourceId) : cresult (Package * list path) :=
  '(m, n) ← map_err fst (read_manifest url_username url_password config env config_profiles deserialize_manifest p source_id);
  match m with
  | Real m => Ok (mkPackage (rm_manifest m) p, TomlTargets.nt_nested_paths n)
  | Virtual _ => Err ("found a virtual manifest at `" ++ p ++ "` instead of a package manifest")
  end.
(** The package at a path, as [Workspace::load] reads it. *)
Definition read_local (manifest_path : path) : cresult Package :=
  key ← unwrap (parent manifest_path);
  source_id ← SourceId.for_path key;
  '(p, _) ← read_package manifest_path source_id; Ok p.
End reader.

(** * Facts *)
Section facts.
Context `{SV : SemverLib} `{UL : UrlLib} `{RS : RustStd} `{FS : FileSystem} `{TL : TomlLib} `{UC : UnicodeCase}.
Context (config : Config) (glob : string → cresult (list (cresult path))) (read : path → cresult MaybePackage).
Abbreviation Packages := (gmap (list Component) (path * MaybePackage)).
Abbreviation load := (load read).
Abbreviation find_root := (find_root config read).
Abbreviation root_above := (root_above config read).
Abbreviation find_path_deps := (find_path_deps config read).
Abbreviation find_members := (find_members config glob read).

(** ** The cache of manifests
    A function of the cache is settled when the cache only grows and, with all
    that it loaded at hand, gives the same answer and loads nothing more. *)
Definition settled {A : Type} (f : Packages → cresult (A * Packages)) : Prop :=
  ∀ ps a ps', f ps = Ok (a, ps') → ps ⊆ ps' ∧ ∀ q, ps' ⊆ q → f q = Ok (a, q).
Lemma settled_ret {A : Type} (a : A) : settled (λ ps, Ok (a, ps)).
Proof. intros ps b ps' [= -> ->]. by split. Qed.
Lemma settled_err {A : Type} e : settled (A:=A) (λ _, Err e).
Proof. done. Qed.
Lemma settled_bind {A B : Type} (f : Packages → cresult (A * Packages)) (g : A → Packages → cresult (B * Packages)) :
  settled f → (∀ a, settled (g a)) → settled (λ ps, '(a, ps) ← f ps; g a ps).
Proof.
  intros Hf Hg ps b ps' ([a ps1] & H1 & H2)%bind_Ok_inv.
  destruct (Hf _ _ _ H1) as [Hs1 Hq1], (Hg a _ _ _ H2) as [Hs2 Hq2].
  split; [by etrans|]. intros q Hq. rewrite (Hq1 q) by (by etrans). by apply Hq2.
Qed.
Lemma settled_lift {A B : Type} (m : cresult A) (h : A → B) : settled (λ ps, a ← m; Ok (h a, ps)).
Proof. intros ps a ps' (x & Hx & [= <- <-])%bind_Ok_inv. split; [done|]. intros q _. by rewrite Hx. Qed.

Lemma load_settled p : settled (λ ps, load ps p).
Proof.
  intros ps m ps' (key & Hk & H)%bind_Ok_inv. unfold Workspace.load. rewrite Hk. cbn [mbind res_mbind res_bind].
  destruct (ps !! components key) as [[k0 p0]|] eqn:Hps.
  - injection H as -> ->. split; [done|]. intros q Hq. by rewrite (lookup_weaken _ _ _ _ Hps Hq).
  - apply bind_Ok_inv in H as (x & Hx & [= -> <-]). split; [by apply insert_subseteq|].
    intros q Hq. by rewrite (lookup_weaken _ _ (components key) (key, m) (lookup_insert_eq _ _ _) Hq).
Qed.
Lemma load_get ps p m ps' : load ps p = Ok (m, ps') → get ps' p = Ok m.
Proof.
  intros (key & Hk & H)%bind_Ok_inv. unfold get, maybe_get. rewrite Hk. cbn [mbind res_mbind res_bind].
  destruct (ps !! components key) as [[k0 p0]|] eqn:Hps.
  - injection H as -> <-. by rewrite Hps.
  - apply bind_Ok_inv in H as (x & Hx & [= -> <-]). by rewrite lookup_insert_eq.
Qed.
Lemma get_weaken ps q p m : ps ⊆ q → get ps p = Ok m → get q p = Ok m.
Proof.
  intros Hq. unfold get, maybe_get. destruct (parent p) as [key|]; [|done]. cbn.
  destruct (ps !! components key) as [x|] eqn:Hps; [|done]. by rewrite (lookup_weaken _ _ _ _ Hps Hq).
Qed.

Lemma root_above_settled mp l : settled (λ ps, root_above ps mp l).
Proof.
  induction l as [|dir l IH]; cbn [Workspace.root_above]; [apply settled_ret|].
  destruct (path_ends_with dir "target/package"); [apply settled_ret|].
  assert (Hon : settled (λ ps, if path_eqb (home_path config) dir then Ok (None, ps) else root_above ps mp l))
    by (destruct (path_eqb _ dir); [apply settled_ret|exact IH]).
  destruct (fs_exists _); [|exact Hon].
  apply (settled_bind (λ ps, load ps (path_join dir "Cargo.toml"))); [apply load_settled|].
  intros p. destruct (maybe_workspace_config p) as [c|[link|]]; [|apply (settled_lift (read_root_pointer _ link) Some)|exact Hon].
  destruct (is_excluded c mp); [exact Hon|apply settled_ret].
Qed.
Lemma find_root_settled mp : settled (λ ps, find_root ps mp).
Proof.
  unfold Workspace.find_root. apply (settled_bind (λ ps, load ps mp)); [apply load_settled|].
  intros p. destruct (maybe_workspace_config p) as [c|[link|]];
    [apply settled_ret|apply (settled_lift (read_root_pointer mp link) Some)|apply root_above_settled].
Qed.

(** ** Members
    Two spellings of a path count as one member. *)
Definition member (l : list path) (p : path) : Prop := components p ∈ (components <$> l).
Lemma contains_path_spec l p : contains_path l p = true ↔ member l p.
Proof.
  unfold contains_path, member. rewrite existsb_exists, list_elem_of_fmap. unfold path_eqb.
  split; intros (x & H1 & H2); exists x.
  - split; [by apply bool_decide_eq_true in H2|by apply list_elem_of_In].
  - split; [by apply list_elem_of_In|by apply bool_decide_eq_true].
Qed.

(** What a path dependency of a member becomes: a member, unless the root
    excludes it or it lies outside and has another root. *)
Definition excluded (ws : Workspace) (root p : path) : Prop :=
  ∃ r c, get (packages ws) root = Ok r ∧ maybe_workspace_config r = WorkspaceRoot c ∧ is_excluded c p = true.
Definition elsewhere (ws : Workspace) (p : path) : Prop :=
  ∃ dir rdir found, parent p = Some dir ∧ root ws = Ok rdir ∧ path_starts_with dir rdir = false ∧
    find_root (packages ws) p = Ok (found, packages ws) ∧ same_path found (root_manifest ws) = false.
Definition accounted (ws : Workspace) (root p : path) : Prop :=
  member (ws_members ws) p ∨ excluded ws root p ∨ elsewhere ws p.
(** A member is read, and its path dependencies are accounted for. *)
Definition followed (ws : Workspace) (root p : path) : Prop :=
  ∃ x, get (packages ws) p = Ok x ∧
    ∀ m mp, x = MPackage m mp → ∀ c, c ∈ path_dependencies m → accounted ws root (normalize_path c).

(** How the search moves on: members and manifests are only added. *)
Record grows (ws ws' : Workspace) : Prop := {
  gr_current : current_manifest ws' = current_manifest ws;
  gr_root : root_manifest ws' = root_manifest ws;
  gr_packages : packages ws ⊆ packages ws';
  gr_members : ∃ l, ws_members ws' = (ws_members ws ++ l)%list;
}.
Lemma ws_grows_refl ws : grows ws ws.
Proof. split; try done. exists []. by rewrite app_nil_r. Qed.
Lemma ws_grows_trans a b c : grows a b → grows b c → grows a c.
Proof.
  intros [? ? ? [l1 H1]] [? ? ? [l2 H2]]. split; try congruence; [by etrans|].
  exists (l1 ++ l2)%list. by rewrite H2, H1, app_assoc.
Qed.
Lemma grows_packages ws ps : packages ws ⊆ ps → grows ws (set_packages ws ps).
Proof. intros H. split; try done. exists []. by rewrite app_nil_r. Qed.

Lemma member_grows ws ws' p : grows ws ws' → member (ws_members ws) p → member (ws_members ws') p.
Proof. intros [_ _ _ [l Hl]]. unfold member. rewrite Hl, fmap_app, elem_of_app. tauto. Qed.
Lemma root_grows ws ws' : grows ws ws' → root ws' = root ws.
Proof. intros [H1 H2 _ _]. unfold root, root_path. by rewrite H1, H2. Qed.
Lemma accounted_grows ws ws' root p : grows ws ws' → accounted ws root p → accounted ws' root p.
Proof.
  intros Hg [Hm|[(r & c & Hr & Hc & He)|(dir & rdir & found & Hd & Hrd & Hst & Hf & Hne)]].
  - left. by eapply member_grows.
  - right; left. exists r, c. split; [|done]. eapply get_weaken; [apply Hg|done].
  - right; right. exists dir, rdir, found. rewrite (root_grows ws ws' Hg), (gr_root _ _ Hg). split; [done|]. split; [done|].
    split; [done|]. split; [|done]. apply (find_root_settled p _ _ _ Hf), Hg.
Qed.
Lemma followed_grows ws ws' root p : grows ws ws' → followed ws root p → followed ws' root p.
Proof.
  intros Hg (x & Hx & Hc). exists x. split; [by eapply get_weaken; [apply Hg|]|].
  intros m mp Hm c Hin. eapply accounted_grows; [done|]. by eapply Hc.
Qed.

(** What a search does: new members differ from the old ones, and are followed. *)
Record searched (root : path) (ws ws' : Workspace) : Prop := {
  se_grows : grows ws ws';
  se_defaults : ws_default_members ws' = ws_default_members ws;
  se_nodup : NoDup (components <$> ws_members ws) → NoDup (components <$> ws_members ws');
  se_new : ∀ m, m ∈ ws_members ws' → m ∈ ws_members ws ∨ followed ws' root m;
}.
Lemma searched_refl root ws : searched root ws ws.
Proof. split; [apply ws_grows_refl|done|done|by left]. Qed.
Lemma searched_trans root a b c : searched root a b → searched root b c → searched root a c.
Proof.
  intros [G1 D1 N1 F1] [G2 D2 N2 F2]. split; [by eapply ws_grows_trans|congruence|by auto|].
  intros m [Hm|Hm]%F2; [|by right]. destruct (F1 m Hm) as [?|Hf]; [by left|right]. by eapply followed_grows.
Qed.
Lemma fold_searched {A : Type} root (f : Workspace → A → option (cresult Workspace)) (g : A → path) l : ∀ ws ws',
  (∀ ws x ws', x ∈ l → f ws x = Some (Ok ws') → searched root ws ws' ∧ accounted ws' root (g x)) →
  fold_fuel f ws l = Some (Ok ws') →
  searched root ws ws' ∧ ∀ x, x ∈ l → accounted ws' root (g x).
Proof.
  induction l as [|x l IH]; intros ws ws' Hf H; cbn [fold_fuel] in H.
  - injection H as <-. split; [apply searched_refl|]. by intros x ?%elem_of_nil.
  - destruct (f ws x) as [[ws1| |]|] eqn:Hx; try done. cbn [fbind] in H.
    destruct (Hf ws x ws1 ltac:(constructor) Hx) as [H1 Ha].
    destruct (IH ws1 ws') as [H2 Hl]; [intros; apply (Hf ws0); [by constructor|done]|done|].
    split; [by eapply searched_trans|]. intros y [->|Hy]%elem_of_cons; [|by apply Hl].
    eapply accounted_grows; [apply H2|done].
Qed.
Lemma outside_spec ws p dep b ws' : outside config read ws p dep = Ok (b, ws') →
  grows ws ws' ∧ (ws_members ws' = ws_members ws ∧ ws_default_members ws' = ws_default_members ws) ∧ (b = true → elsewhere ws' p).
Proof.
  unfold outside. destruct dep; [|by intros [= <- <-]; split; [apply ws_grows_refl|]].
  intros (dir & Hd & (r & Hr & H)%bind_Ok_inv)%bind_Ok_inv.
  destruct (path_starts_with dir r) eqn:Hst; [by injection H as <- <-; split; [apply ws_grows_refl|]|].
  apply bind_Ok_inv in H as ([found ps] & Hf & [= <- <-]). pose proof (find_root_settled p _ _ _ Hf) as [Hs Hq].
  split; [by apply grows_packages|]. split; [done|]. intros Hne%negb_true_iff.
  destruct (parent p) as [d|] eqn:Hp; [|done]. injection Hd as ->.
  exists dir, r, found. split; [done|]. split; [done|]. split; [done|]. split; [by apply Hq|done].
Qed.

Lemma find_path_deps_spec fuel : ∀ ws p root dep ws', find_path_deps fuel ws p root dep = Some (Ok ws') →
  searched root ws ws' ∧ accounted ws' root (normalize_path p).
Proof.
  induction fuel as [|fuel IH]; intros ws p root dep ws'; cbn [Workspace.find_path_deps]; [done|].
  set (mp := normalize_path p). destruct (contains_path (ws_members ws) mp) eqn:Hc.
  { intros [= <-]. split; [apply searched_refl|]. left. by apply contains_path_spec. }
  destruct (outside config read ws mp dep) as [[out ws1]| |] eqn:Ho; cbn [fbind]; [|done..].
  destruct (outside_spec _ _ _ _ _ Ho) as (Hg1 & [Hm1 Hd1] & Hout).
  assert (S1 : searched root ws ws1) by (split; [done|done|by rewrite Hm1|intros m; rewrite Hm1; by left]).
  destruct out; [intros [= <-]; split; [done|]; right; right; by apply Hout|].
  destruct (load (packages ws1) root) as [[r ps]| |] eqn:Hr; cbn [fbind]; [|done..].
  destruct (load_settled root _ _ _ Hr) as [Hps _]. pose proof (load_get _ _ _ _ Hr) as Hgr.
  set (ws2 := set_packages ws1 ps). assert (S2 : searched root ws ws2).
  { eapply searched_trans; [exact S1|]. split; [by apply grows_packages|done|done|by left]. }
  destruct (match maybe_workspace_config r with WorkspaceRoot c => is_excluded c mp | _ => false end) eqn:Hex.
  { intros [= <-]. split; [done|]. right; left. destruct (maybe_workspace_config r) as [c|] eqn:Hc'; [|done]. by exists r, c. }
  set (ws3 := set_members ws2 (ws_members ws2 ++ [mp])).
  destruct (load (packages ws3) mp) as [[x ps']| |] eqn:Hx; cbn [fbind]; [|done..].
  destruct (load_settled mp _ _ _ Hx) as [Hps' _]. pose proof (load_get _ _ _ _ Hx) as Hgx.
  set (ws4 := set_packages ws3 ps').
  assert (G4 : grows ws2 ws4) by (split; [done..|exact Hps'|by exists [mp]]).
  assert (N4 : NoDup (components <$> ws_members ws) → NoDup (components <$> ws_members ws4)).
  { intros Hnd. cbn. rewrite fmap_app. apply NoDup_app. rewrite Hm1. split; [done|]. split; [|apply NoDup_singleton].
    intros k Hk ->%list_elem_of_singleton. apply contains_path_spec in Hk. by rewrite Hk in Hc. }
  assert (M4 : ∀ m, m ∈ ws_members ws4 → m ∈ ws_members ws ∨ m = mp)
    by (intros m; cbn; rewrite Hm1, elem_of_app, list_elem_of_singleton; tauto).
  assert (Hin4 : member (ws_members ws4) mp) by (unfold member; cbn; rewrite fmap_app, elem_of_app; right; constructor).
  assert (Hend : ∀ ws5, searched root ws4 ws5 → followed ws5 root mp →
    searched root ws ws5 ∧ accounted ws5 root mp).
  { intros ws5 [G5 D5 N5 F5] Hf. split.
    - split; [eapply ws_grows_trans; [apply S2|]; by eapply ws_grows_trans|by rewrite D5|by auto|].
      intros m [Hm|Hm]%F5; [|by right]. destruct (M4 m Hm) as [?| ->]; [by left|by right].
    - left. by eapply member_grows. }
  destruct x as [m q|vm].
  - intros H. destruct (fold_searched root (λ ws c, find_path_deps fuel ws c root true) normalize_path (path_dependencies m) ws4 ws') as [S5 Ha];
      [intros wa c wb _ Hc'; by eapply IH|exact H|].
    apply Hend; [done|]. exists (MPackage m q). split; [eapply get_weaken; [apply S5|exact Hgx]|].
    by intros m' mp' [= <- <-].
  - intros [= <-]. apply Hend; [apply searched_refl|]. exists (MVirtual vm). by split; [exact Hgx|].
Qed.

(** The default members are members. *)
Lemma add_default_spec l : ∀ ws ws', foldM add_default ws l = Ok ws' →
  ws' = set_default_members ws (ws_default_members ws') ∧
  ∀ m, m ∈ ws_default_members ws' → m ∈ ws_default_members ws ∨ member (ws_members ws) m.
Proof.
  induction l as [|p l IH]; intros ws ws'; cbn [foldM].
  - intros [= <-]. split; [by destruct ws|by left].
  - unfold add_default at 1. set (mp := normalize_path _). destruct (contains_path (ws_members ws) mp) eqn:Hc; [|done].
    intros H. destruct (IH _ _ H) as [H1 H2]. split; [exact H1|]. intros m [Hm|Hm]%H2; [|by right].
    cbn in Hm. apply elem_of_app in Hm as [?| ->%list_elem_of_singleton]; [by left|right]. by apply contains_path_spec.
Qed.

(** What holds of the members that are found. *)
Record collected (root : path) (ws : Workspace) : Prop := {
  co_root : root_manifest ws = Some root;
  co_nodup : NoDup (components <$> ws_members ws);
  co_followed : ∀ m, m ∈ ws_members ws → followed ws root m;
  co_default : ∀ m, m ∈ ws_default_members ws → member (ws_members ws) m ∨ m = current_manifest ws;
  co_accounted : accounted ws root (normalize_path root);
}.
Lemma find_members_spec fuel ws ws' root : root_manifest ws = Some root → ws_members ws = [] → ws_default_members ws = [] →
  find_members fuel ws = Some (Ok ws') → collected root ws' ∧ current_manifest ws' = current_manifest ws.
Proof.
  intros Hroot Hm Hd. unfold Workspace.find_members. rewrite Hroot.
  destruct (load (packages ws) root) as [[rp ps]| |] eqn:Hr; cbn [fbind]; [|done..].
  set (ws1 := set_packages ws ps).
  destruct (match maybe_workspace_config rp with WorkspaceRoot c => configured_members glob c | _ => _ end) as [[l ds]| |];
    cbn [fbind]; [|done..].
  destruct (fold_fuel _ ws1 l) as [[ws2| |]|] eqn:H2; cbn [fbind]; try done.
  apply (fold_searched root _ (λ p, normalize_path (path_join p "Cargo.toml"))) in H2 as [S2 _];
    [|intros wa p wb _ H; by eapply find_path_deps_spec].
  destruct (match ds with Some l0 => foldM add_default ws2 l0 | None => _ end) as [ws3| |] eqn:H3; cbn [fbind]; [|done..].
  intros H4. apply find_path_deps_spec in H4 as [S4 Ha].
  assert (E3 : ws3 = set_default_members ws2 (ws_default_members ws3) ∧
    ∀ m, m ∈ ws_default_members ws3 → member (ws_members ws2) m ∨ m = current_manifest ws2).
  { assert (Hd2 : ws_default_members ws2 = []) by (rewrite (se_defaults _ _ _ S2); exact Hd).
    destruct ds as [dl|].
    - apply add_default_spec in H3 as [H31 H32]. split; [done|]. intros m [Hm'|Hm']%H32; [|by left].
      rewrite Hd2 in Hm'. by apply elem_of_nil in Hm'.
    - apply bind_Ok_inv in H3 as (v & _ & [= <-]). split; [done|]. cbn. rewrite Hd2. intros m. destruct v.
      + intros Hin. left. unfold member. apply list_elem_of_fmap. by exists m.
      + intros ->%list_elem_of_singleton. by right. }
  destruct E3 as [E3 Hdm]. assert (Hm3 : ws_members ws3 = ws_members ws2) by by rewrite E3.
  assert (Hr4 : root_manifest ws' = Some root).
  { rewrite (gr_root _ _ (se_grows _ _ _ S4)), E3. cbn. by rewrite (gr_root _ _ (se_grows _ _ _ S2)). }
  assert (Hc4 : current_manifest ws' = current_manifest ws).
  { rewrite (gr_current _ _ (se_grows _ _ _ S4)), E3. cbn. by rewrite (gr_current _ _ (se_grows _ _ _ S2)). }
  assert (F2 : ∀ m, m ∈ ws_members ws2 → followed ws3 root m).
  { intros m [Hin|Hf]%(se_new _ _ _ S2); [cbn in Hin; rewrite Hm in Hin; by apply elem_of_nil in Hin|]. by rewrite E3. }
  split; [|done]. split; [done|..].
  - apply (se_nodup _ _ _ S4). rewrite Hm3. apply (se_nodup _ _ _ S2). cbn. rewrite Hm. constructor.
  - intros m [Hin|Hf]%(se_new _ _ _ S4); [|done]. rewrite Hm3 in Hin. eapply followed_grows; [apply S4|]. by apply F2.
  - intros m. rewrite (se_defaults _ _ _ S4). intros [Hmem|Hcur]%Hdm.
    + left. eapply member_grows; [apply S4|]. by rewrite Hm3.
    + right. rewrite Hcur, Hc4. by rewrite (gr_current _ _ (se_grows _ _ _ S2)).
  - done.
Qed.

(** ** Validation *)
Definition root_at (ps : Packages) (m : path) : bool := match get ps m with Ok x => is_root x | _ => false end.
Definition name_at (ps : Packages) (m : path) : option string :=
  match get ps m with Ok x => package_name <$> as_package x | _ => None end.
Lemma see_members_spec ps l : ∀ roots names roots' names',
  foldM (see_member ps) (roots, names) l = Ok (roots', names') →
  (∀ m, m ∈ l → ∃ x, get ps m = Ok x) ∧
  length roots' = (length roots + length (List.filter (root_at ps) l))%nat ∧
  NoDup (omap (name_at ps) l) ∧ ∀ name, is_Some (names !! name) → name ∉ omap (name_at ps) l.
Proof.
  induction l as [|m l IH]; intros roots names roots' names'; cbn [foldM].
  - intros [= <- <-]. split; [by intros m ?%elem_of_nil|]. cbn. split; [lia|]. split; [constructor|]. by intros ? _ ?%elem_of_nil.
  - unfold see_member at 1. destruct (get ps m) as [x| |] eqn:Hx; cbn [mbind res_mbind res_bind]; [|done..].
    assert (Hr : root_at ps m = is_root x) by (unfold root_at; by rewrite Hx).
    assert (Hn : name_at ps m = package_name <$> as_package x) by (unfold name_at; by rewrite Hx).
    destruct (if is_root x then _ else _) as [rs| |] eqn:Hrs; cbn [mbind res_mbind res_bind]; [|done..].
    assert (Hlen : length rs = (length roots + if is_root x then 1 else 0)%nat).
    { destruct (is_root x); [|injection Hrs as <-; lia]. apply bind_Ok_inv in Hrs as (d & _ & [= <-]). by rewrite length_app. }
    change (omap (name_at ps) (m :: l)) with
      (match name_at ps m with Some y => y :: omap (name_at ps) l | None => omap (name_at ps) l end).
    cbn [List.filter]. rewrite Hr, Hn. destruct (as_package x) as [p|] eqn:Hp; cbn [fmap option_fmap option_map].
    + destruct (names !! package_name p) eqn:Hnm; [done|]. intros H. destruct (IH _ _ _ _ H) as (H1 & H2 & H3 & H4).
      split; [|split; [|split]].
      * intros m' [->|Hin]%elem_of_cons; [by exists x|by apply H1].
      * rewrite H2, Hlen. destruct (is_root x); cbn; lia.
      * constructor; [|done]. apply H4. rewrite lookup_insert_eq. by eexists.
      * intros name Hname [->|Hin]%elem_of_cons; [rewrite Hnm in Hname; by destruct Hname|].
        apply (H4 name); [|done]. destruct (decide (name = package_name p)) as [->|]; [rewrite lookup_insert_eq|rewrite lookup_insert_ne by done]; by eauto.
    + intros H. destruct (IH _ _ _ _ H) as (H1 & H2 & H3 & H4). split; [|split; [|split; done]].
      * intros m' [->|Hin]%elem_of_cons; [by exists x|by apply H1].
      * rewrite H2, Hlen. destruct (is_root x); cbn; lia.
Qed.

Definition agrees (root : path) (ps : Packages) (m : path) : Prop :=
  ∃ r, find_root ps m = Ok (Some r, ps) ∧ path_eqb r root = true.
Lemma check_members_spec root l : ∀ ps ps', foldM (check_member config read root) ps l = Ok ps' →
  ps ⊆ ps' ∧ ∀ m, m ∈ l → agrees root ps' m.
Proof.
  induction l as [|m l IH]; intros ps ps'; cbn [foldM].
  - intros [= ->]. split; [done|]. by intros m ?%elem_of_nil.
  - unfold check_member at 1. destruct (find_root ps m) as [[found ps1]| |] eqn:Hf; cbn [mbind res_mbind res_bind]; [|done..].
    destruct (find_root_settled m _ _ _ Hf) as [Hs Hq]. destruct found as [r|]; [|done].
    destruct (path_eqb r root) eqn:Hr; [|done]. intros H. destruct (IH _ _ H) as [H1 H2]. split; [by etrans|].
    intros m' [->|Hin]%elem_of_cons; [|by apply H2]. exists r. by split; [apply Hq|].
Qed.
Lemma agrees_root root ps m : agrees root ps m → root_at ps m = true → path_eqb m root = true.
Proof.
  unfold agrees, root_at. intros (r & Hf & Hr) Hroot. unfold Workspace.find_root in Hf.
  destruct (load ps m) as [[x ps1]| |] eqn:Hl; [|done..]. apply load_get in Hl as Hg. cbn [mbind res_mbind res_bind] in Hf.
  assert (ps1 = ps) as ->.
  { unfold Workspace.load in Hl. unfold get, maybe_get in Hroot. destruct (parent m) as [key|]; [|done]. cbn in Hl, Hroot.
    destruct (ps !! components key) as [[]|]; [|done]. by injection Hl. }
  rewrite Hg in Hroot. unfold is_root in Hroot. destruct (maybe_workspace_config x); [|done]. by injection Hf as ->.
Qed.

(** ** A workspace *)
Record is_workspace (root : path) (ws : Workspace) : Prop := {
  iw_root : ∃ m, List.filter (root_at (packages ws)) (ws_members ws) = [m] ∧ path_eqb m root = true;
  iw_agree : ∀ m, m ∈ ws_members ws → agrees root (packages ws) m;
  iw_current : member (ws_members ws) (current_manifest ws);
  iw_names : NoDup (omap (name_at (packages ws)) (ws_members ws));
  iw_distinct : NoDup (components <$> ws_members ws);
  iw_followed : ∀ m, m ∈ ws_members ws → followed ws root m;
  iw_default : ∀ m, m ∈ ws_default_members ws → member (ws_members ws) m;
}.
Lemma filter_agree (ps ps' : Packages) l : ps ⊆ ps' → (∀ m, m ∈ l → ∃ x, get ps m = Ok x) →
  List.filter (root_at ps') l = List.filter (root_at ps) l ∧ omap (name_at ps') l = omap (name_at ps) l.
Proof.
  intros Hs. induction l as [|m l IH]; intros Hl; [done|].
  destruct (Hl m ltac:(constructor)) as (x & Hx). pose proof (get_weaken _ _ _ _ Hs Hx) as Hx'.
  destruct IH as [IH1 IH2]; [intros; apply Hl; by constructor|].
  assert (H1 : root_at ps' m = root_at ps m) by (unfold root_at; by rewrite Hx, Hx').
  assert (H2 : name_at ps' m = name_at ps m) by (unfold name_at; by rewrite Hx, Hx').
  split; [cbn; by rewrite H1, IH1|]. cbn. by rewrite H2, IH2.
Qed.
Lemma validate_spec root ws ws' printed : collected root ws → validate config read ws = Ok (ws', printed) →
  is_workspace root ws' ∧ current_manifest ws' = current_manifest ws ∧ root_manifest ws' = Some root.
Proof.
  intros [Hroot Hnd Hfol Hdef _]. unfold validate. rewrite Hroot.
  destruct (foldM (see_member (packages ws)) _ _) as [[roots names]| |] eqn:Hsee; cbn [mbind res_mbind res_bind]; [|done..].
  destruct (see_members_spec _ _ _ _ _ _ Hsee) as (Hget & Hlen & Hnames & _). cbn [fst].
  intros (u & Hone & H)%bind_Ok_inv. apply bind_Ok_inv in H as (ps & Hps & H).
  apply bind_Ok_inv in H as (u' & Hcur & H). apply bind_Ok_inv in H as (pkgs & _ & [= <- _]).
  destruct (check_members_spec _ _ _ _ Hps) as [Hsub Hag].
  destruct (filter_agree _ _ _ Hsub Hget) as [Hf Hn]. pose proof (grows_packages ws ps Hsub) as Hg.
  assert (Hc : member (ws_members ws) (current_manifest ws)).
  { apply contains_path_spec. unfold current_is_member in Hcur.
    cbn [ws_members current_manifest set_packages] in Hcur.
    destruct (contains_path _ _); [done|]. by apply bind_Ok_inv in Hcur as (? & _ & ?). }
  split; [|done]. split; cbn [packages ws_members ws_default_members current_manifest set_packages]; try done.
  - assert (Hl : length (List.filter (root_at ps) (ws_members ws)) = 1%nat).
    { rewrite Hf. destruct roots as [|? [|]]; [done| |done]. cbn in Hlen. lia. }
    destruct (List.filter (root_at ps) (ws_members ws)) as [|m [|]] eqn:Hm; [done| |done]. exists m. split; [done|].
    assert (Hin : In m (List.filter (root_at ps) (ws_members ws))) by (rewrite Hm; by left).
    apply List.filter_In in Hin as [Hin Hr]. eapply agrees_root; [|exact Hr]. by apply Hag, list_elem_of_In.
  - by rewrite Hn.
  - intros m Hm. eapply followed_grows; [exact Hg|]. by apply Hfol.
  - intros m [Hm|Hm]%Hdef; [done|]. by rewrite Hm.
Qed.
(** C32. A workspace that is made is one: exactly one of its members carries a
    [workspace] table, and it is the root; every member, asked for its root,
    names that one, without a further look at the disk; the current package is
    a member, and so are the default members; no manifest is listed twice, no
    two packages have one name; and every path dependency of a member is a
    member, unless the root excludes it or it lies elsewhere under another
    root.  Without a root, the current package is the only member. *)
Theorem new_is_workspace fuel p ws printed (H : new config glob read fuel p = Some (Ok (ws, printed))) :
  current_manifest ws = p ∧
  match root_manifest ws with
  | Some root => is_workspace root ws
  | None => ws_members ws = [p] ∧ ws_default_members ws = [p]
  end.
Proof.
  revert H. unfold new. destruct (target_dir config) as [dir| |]; cbn [fbind]; [|done..].
  destruct (find_root ∅ p) as [[found ps]| |]; cbn [fbind]; [|done..].
  set (ws0 := set_root (set_packages (start p dir) ps) found).
  destruct (find_members fuel ws0) as [[ws1| |]|] eqn:Hm; cbn [fbind]; try done. intros [= Hv].
  destruct found as [root|].
  - destruct (find_members_spec _ ws0 _ root eq_refl eq_refl eq_refl Hm) as [Hc Hcur].
    destruct (validate_spec _ _ _ _ Hc Hv) as (Hw & Hc' & Hr). rewrite Hr. split; [|done]. by rewrite Hc', Hcur.
  - cbn in Hm. injection Hm as <-. cbn in Hv. by injection Hv as <- _.
Qed.

(** ** Termination
    On a disk whose readable manifests lie in finitely many directories the
    search for members ends. *)
Section disk.
Context (dirs : list path).
Context (Hdisk : ∀ q key, parent q = Some key → is_ok (read q) = true → member dirs key).
Definition cached (ps : Packages) : Prop := ∀ k x, ps !! k = Some x → k ∈ (components <$> dirs).
Lemma load_cached ps p m ps' : cached ps → load ps p = Ok (m, ps') →
  cached ps' ∧ ∃ key, parent p = Some key ∧ member dirs key.
Proof.
  intros Hc (key & Hk & H)%bind_Ok_inv. destruct (parent p) as [k|] eqn:Hp; [|done]. injection Hk as ->.
  destruct (ps !! components key) as [[k0 p0]|] eqn:Hps.
  - injection H as _ <-. split; [done|]. exists key. split; [done|]. by eapply Hc.
  - apply bind_Ok_inv in H as (x & Hx & [= _ <-]).
    assert (Hm : member dirs key) by (eapply Hdisk; [exact Hp|by rewrite Hx]).
    split; [|by exists key]. intros k1 x1. destruct (decide (k1 = components key)) as [->|Hne]; [done|].
    rewrite lookup_insert_ne by done. apply Hc.
Qed.
Lemma root_above_cached mp l : ∀ ps r ps', cached ps → root_above ps mp l = Ok (r, ps') → cached ps'.
Proof.
  induction l as [|dir l IH]; intros ps r ps' Hc; cbn [Workspace.root_above]; [by intros [= _ <-]|].
  destruct (path_ends_with dir "target/package"); [by intros [= _ <-]|].
  assert (Hon : ∀ ps0, cached ps0 → (if path_eqb (home_path config) dir then Ok (None, ps0) else root_above ps0 mp l) = Ok (r, ps') → cached ps').
  { intros ps0 H0. destruct (path_eqb _ dir); [by intros [= _ <-]|by apply IH]. }
  destruct (fs_exists _); [|by apply Hon].
  intros ([p ps1] & Hl & H)%bind_Ok_inv. destruct (load_cached _ _ _ _ Hc Hl) as [Hc1 _].
  destruct (maybe_workspace_config p) as [c|[link|]]; [|by apply bind_Ok_inv in H as (? & _ & [= _ <-])|by apply (Hon ps1)].
  destruct (is_excluded c mp); [by apply (Hon ps1)|by injection H as _ <-].
Qed.
Lemma find_root_cached ps p r ps' : cached ps → find_root ps p = Ok (r, ps') → cached ps'.
Proof.
  intros Hc ([x ps1] & Hl & H)%bind_Ok_inv. destruct (load_cached _ _ _ _ Hc Hl) as [Hc1 _].
  destruct (maybe_workspace_config x) as [c|[link|]];
    [by injection H as _ <-|by apply bind_Ok_inv in H as (? & _ & [= _ <-])|by eapply root_above_cached].
Qed.

(** The manifests that can become members. *)
Context (root : path).
Definition asked (y : path) : Prop := (∃ d, y = path_join d "Cargo.toml") ∨ y = root.
Definition possible : list path := normalize_path root :: ((λ d, path_join d "Cargo.toml") <$> dirs).
Lemma cargo_toml_plain : plain "Cargo.toml".
Proof. done. Qed.
Lemma asked_possible ps y m ps' : cached ps → asked y → load ps (normalize_path y) = Ok (m, ps') →
  member possible (normalize_path y).
Proof.
  intros Hc [[d ->]| ->] Hl; [|by left]. unfold member, possible. right.
  destruct (load_cached _ _ _ _ Hc Hl) as (_ & key & Hp & Hm).
  assert (Hx : ∃ X, normalize_path (path_join d "Cargo.toml") = path_join X "Cargo.toml").
  { unfold normalize_path. rewrite (components_join d _ cargo_toml_plain), fold_left_app. by eexists. }
  destruct Hx as [X Hx]. rewrite Hx in *. destruct (parent_components _ _ Hp) as [c Hc'].
  rewrite (components_join X _ cargo_toml_plain) in *. apply app_inj_tail in Hc' as [Hk _].
  apply list_elem_of_fmap in Hm as (d' & Hd & Hin). apply list_elem_of_fmap. exists (path_join d' "Cargo.toml").
  split; [by rewrite (components_join d' _ cargo_toml_plain), Hk, Hd|]. apply list_elem_of_fmap. by exists d'.
Qed.

(** How many of them are not members yet. *)
Definition left_over (l : list path) : nat := length (List.filter (λ u, negb (contains_path l u)) possible).
Lemma left_over_le l l' : (∀ u, member l u → member l' u) → (left_over l' <= left_over l)%nat.
Proof.
  intros H. unfold left_over. induction possible as [|u us IH]; cbn; [lia|].
  destruct (contains_path l u) eqn:E.
  - apply contains_path_spec, H, contains_path_spec in E. rewrite E. cbn. lia.
  - destruct (contains_path l' u); cbn; lia.
Qed.
Lemma left_over_lt l x : member possible x → contains_path l x = false → (left_over (l ++ [x]) < left_over l)%nat.
Proof.
  intros Hx Hl. unfold left_over. apply list_elem_of_fmap in Hx as (u & Hu & Hin).
  apply list_elem_of_split in Hin as (l1 & l2 & ->). rewrite !List.filter_app, !length_app. cbn [List.filter].
  assert (Hu1 : contains_path l u = false) by (unfold contains_path, path_eqb in *; by rewrite <-Hu).
  assert (Hu2 : contains_path (l ++ [x]) u = true).
  { apply contains_path_spec. unfold member. rewrite fmap_app, elem_of_app, <-Hu. right. constructor. }
  rewrite Hu1, Hu2. cbn [negb length].
  assert (Hle : ∀ us, (length (List.filter (λ u, negb (contains_path (l ++ [x]) u)) us) <= length (List.filter (λ u, negb (contains_path l u)) us))%nat).
  { induction us as [|v us IH]; cbn; [lia|]. destruct (contains_path l v) eqn:E.
    - assert (E' : contains_path (l ++ [x]) v = true)
        by (apply contains_path_spec; unfold member; rewrite fmap_app, elem_of_app; left; by apply contains_path_spec).
      rewrite E'. cbn. lia.
    - destruct (contains_path (l ++ [x]) v); cbn; lia. }
  pose proof (Hle l1). pose proof (Hle l2). lia.
Qed.

(** A search that may go on: it returns, and leaves no more to find. *)
Definition returns (ws : Workspace) (m : option (cresult Workspace)) : Prop :=
  ∃ r, m = Some r ∧ ∀ ws', r = Ok ws' →
    cached (packages ws') ∧ (left_over (ws_members ws') <= left_over (ws_members ws))%nat.
Lemma returns_err ws e : returns ws (Some (Err e)).
Proof. by eexists. Qed.
Lemma returns_panic ws e : returns ws (Some (Panic e)).
Proof. by eexists. Qed.
Lemma returns_ok ws ws' : cached (packages ws') → ws_members ws' = ws_members ws → returns ws (Some (Ok ws')).
Proof. intros Hc Hm. eexists. split; [done|]. intros ? [= <-]. by rewrite Hm. Qed.
Hint Resolve returns_err returns_panic : core.
Lemma fold_returns {A : Type} n (f : Workspace → A → option (cresult Workspace)) l :
  (∀ ws x, x ∈ l → cached (packages ws) → (left_over (ws_members ws) < n)%nat → returns ws (f ws x)) →
  ∀ ws, cached (packages ws) → (left_over (ws_members ws) < n)%nat → returns ws (fold_fuel f ws l).
Proof.
  induction l as [|x l IH]; intros Hf ws Hc Hl; cbn [fold_fuel]; [by apply returns_ok|].
  destruct (Hf ws x ltac:(constructor) Hc Hl) as (r & -> & Hr).
  destruct r as [ws1| |]; cbn [fbind]; [|done..].
  destruct (Hr _ eq_refl) as [Hc1 Hl1].
  destruct (IH (λ ws0 x0 H, Hf ws0 x0 ltac:(by constructor)) ws1 Hc1 ltac:(lia)) as (r2 & -> & Hr2).
  exists r2. split; [done|]. intros ws' H. destruct (Hr2 ws' H). split; [done|lia].
Qed.
Lemma outside_cached ws p dep b ws' : cached (packages ws) → outside config read ws p dep = Ok (b, ws') → cached (packages ws').
Proof.
  intros Hc. unfold outside. destruct dep; [|by intros [= _ <-]].
  intros (dir & Hd & (r & Hr & H)%bind_Ok_inv)%bind_Ok_inv.
  destruct (path_starts_with dir r); [by injection H as _ <-|].
  apply bind_Ok_inv in H as ([found ps] & Hf & [= _ <-]). by eapply find_root_cached.
Qed.
Lemma path_dependencies_asked m c : c ∈ path_dependencies m → asked c.
Proof.
  intros (d & Hd & Hc)%list_elem_of_omap. destruct (is_path _); [|done].
  destruct (url_to_file_path _) as [q|]; [|done]. injection Hc as <-. left. by eexists.
Qed.
Lemma find_path_deps_returns fuel : ∀ ws y dep, cached (packages ws) → asked y →
  (left_over (ws_members ws) < fuel)%nat → returns ws (find_path_deps fuel ws y root dep).
Proof.
  induction fuel as [|fuel IH]; intros ws y dep Hc Hy Hl; [lia|]. cbn [Workspace.find_path_deps].
  set (mp := normalize_path y). destruct (contains_path (ws_members ws) mp) eqn:Hin; [by apply returns_ok|].
  destruct (outside config read ws mp dep) as [[out ws1]| |] eqn:Ho; cbn [fbind]; [|done..].
  pose proof (outside_cached _ _ _ _ _ Hc Ho) as Hc1. destruct (outside_spec _ _ _ _ _ Ho) as (_ & [Hm1 _] & _).
  destruct out; [by apply returns_ok|].
  destruct (load (packages ws1) root) as [[r ps]| |] eqn:Hr; cbn [fbind]; [|done..].
  destruct (load_cached _ _ _ _ Hc1 Hr) as [Hc2 _].
  destruct (match maybe_workspace_config r with WorkspaceRoot c => is_excluded c mp | _ => false end);
    [by apply returns_ok|].
  destruct (load (packages (set_members _ _)) mp) as [[x ps']| |] eqn:Hx; cbn [fbind]; [|done..].
  cbn [packages set_members set_packages] in Hx. destruct (load_cached _ _ _ _ Hc2 Hx) as [Hc3 _].
  assert (Hlt : (left_over (ws_members ws1 ++ [mp]) < left_over (ws_members ws))%nat)
    by (rewrite Hm1; apply left_over_lt; [exact (asked_possible _ _ _ _ Hc2 Hy Hx)|done]).
  set (ws4 := set_packages _ ps').
  assert (Hlt4 : (left_over (ws_members ws4) < left_over (ws_members ws))%nat) by exact Hlt.
  assert (H4 : ∀ m, returns ws4 m → returns ws m).
  { intros m (r0 & -> & H0). exists r0. split; [done|]. intros ws' H. destruct (H0 ws' H) as [? H5]. split; [done|lia]. }
  apply H4. destruct x as [m q|vm]; [|by apply returns_ok].
  apply (fold_returns fuel); [|done|lia].
  intros ws0 c Hcin Hc0 Hl0. apply IH; [done|by eapply path_dependencies_asked|done].
Qed.

Lemma add_default_packages l ws ws' : foldM add_default ws l = Ok ws' → packages ws' = packages ws ∧ ws_members ws' = ws_members ws.
Proof. intros [-> _]%add_default_spec. done. Qed.
Lemma find_members_returns fuel ws : cached (packages ws) → root_manifest ws = Some root →
  (left_over (ws_members ws) < fuel)%nat → is_Some (find_members fuel ws).
Proof.
  intros Hc Hroot Hl. unfold Workspace.find_members. rewrite Hroot.
  destruct (load (packages ws) root) as [[rp ps]| |] eqn:Hr; cbn [fbind]; [|by eexists..].
  destruct (load_cached _ _ _ _ Hc Hr) as [Hc1 _].
  destruct (match maybe_workspace_config rp with WorkspaceRoot c => configured_members glob c | _ => _ end) as [[l ds]| |];
    cbn [fbind]; [|by eexists..].
  destruct (fold_returns fuel (λ ws p, find_path_deps fuel ws (path_join p "Cargo.toml") root false) l) with (ws := set_packages ws ps)
    as (r & -> & Hr2); [|done|done|].
  { intros ws0 x _ Hc0 Hl0. apply find_path_deps_returns; [done| |done]. left. by eexists. }
  destruct r as [ws2| |]; cbn [fbind]; [|by eexists..]. destruct (Hr2 _ eq_refl) as [Hc2 Hl2].
  assert (Hsame : ∀ ws3, (match ds with Some l => foldM add_default ws2 l | None => v ← is_virtual ws2;
      Ok (set_default_members ws2 (if v : bool then ws_members ws2 else ws_default_members ws2 ++ [current_manifest ws2])%list) end)
      = Ok ws3 → packages ws3 = packages ws2 ∧ ws_members ws3 = ws_members ws2).
  { intros ws3. destruct ds; [apply add_default_packages|]. by intros (v & _ & [= <-])%bind_Ok_inv. }
  destruct (match ds with Some l => foldM add_default ws2 l | None => _ end) as [ws3| |]; cbn [fbind]; [|by eexists..].
  destruct (Hsame _ eq_refl) as [Hp3 Hm3].
  destruct (find_path_deps_returns fuel ws3 root false) as (r & -> & _); [by rewrite Hp3|by right| |by eexists].
  rewrite Hm3. change (ws_members (set_packages ws ps)) with (ws_members ws) in Hl2. lia.
Qed.
End disk.

(** C33. The search for the members of a workspace ends: when the manifests that
    can be read lie in finitely many directories, a fuel above their number by
    two is enough for [Workspace::new] to give a workspace, an error or a
    panic, whatever cycles the path dependencies form. *)
Theorem new_returns (dirs : list path) fuel p
    (Hdisk : ∀ q key, parent q = Some key → is_ok (read q) = true → member dirs key)
    (Hfuel : (S (length dirs) < fuel)%nat) :
  ∃ r, new config glob read fuel p = Some r.
Proof.
  unfold new. destruct (target_dir config) as [dir| |]; cbn [fbind]; [|by eexists..].
  destruct (find_root ∅ p) as [[found ps]| |] eqn:Hf; cbn [fbind]; [|by eexists..].
  assert (Hc : cached dirs ps) by (eapply find_root_cached; [done| |exact Hf]; by intros ? ? ?).
  set (ws0 := set_root (set_packages (start p dir) ps) found).
  assert (Hs : is_Some (find_members fuel ws0)); [|destruct Hs as [[ws| |] ->]; cbn [fbind]; by eexists].
  destruct found as [root|]; [|by eexists].
  apply (find_members_returns dirs Hdisk root); [done..|].
  eapply Nat.le_lt_trans; [apply List.filter_length_le|]. cbn. by rewrite length_fmap.
Qed.
End facts.

(** * Concrete runs *)
Section run.
Local Existing Instance sem_lib.
Local Existing Instance hier_lib.
Local Existing Instance std_order.
Local Existing Instance TomlTargets.package_dirs.
Local Existing Instance line_toml.
Local Existing Instance ascii_case.
Local Existing Instance ascii_letters.
(** A root with a member and a path dependency; two members that depend on each other. *)
Definition sample_dirs : list path := ["/w"; "/w/a"; "/w/b"; "/w/d"].
Definition disk_files : FileSystem :=
  listed_files ((λ d, (path_join d "Cargo.toml", "")) <$> sample_dirs).
Local Existing Instance disk_files.
Definition dep_at (p : path) : TomlDependency := Detailed (mkDetailed None None None (Some p) None None None None None None None None None).
Definition package_at (name : string) (deps : list (string * path)) (w : option TomlWorkspace) : TomlManifest :=
  mkTomlManifest None None
    (Some (@mkTomlProject sem_lib None name (1, 0, 0)%nat None None None None None None None None None None None None None None
             None None None None None None None None None None None None)) None None None None None None
    (Some (list_to_map (prod_map id dep_at <$> deps))) None None None None None None None None w None.
Definition no_printing : TomlTargets.notes := TomlTargets.no_notes.
Definition sample_workspace (defaults : option (list string)) : TomlWorkspace := mkTomlWorkspace (Some ["a"]) defaults None.
Definition disk (defaults : option (list string)) : gmap string TomlManifest := list_to_map [
  ("/w", package_at "w" [("d", "d")] (Some (sample_workspace defaults)));
  ("/w/a", package_at "a" [("b", "../b")] None);
  ("/w/b", package_at "b" [("a", "../a")] None);
  ("/w/d", package_at "d" [] None)].
Definition sample_read (defaults : option (list string)) (p : path) : cresult MaybePackage :=
  key ← unwrap (parent p);
  match disk defaults !! key with
  | Some me =>
      source_id ← SourceId.for_path key;
      '(m, _) ← to_real_manifest (λ _, "") (λ _, None) (sample_config ∅) stable_env no_profiles me source_id key no_printing;
      Ok (MPackage m p)
  | None => Err "no such file"
  end.
Definition no_glob (p : string) : cresult (list (cresult path)) := Ok [].
Definition sample_new (defaults : option (list string)) (fuel : nat) (p : path) :=
  new (sample_config ∅) no_glob (sample_read defaults) fuel p.

Definition shown (r : option (cresult (Workspace * list string))) : list path * list path :=
  match r with Some (Ok (ws, _)) => (ws_members ws, ws_default_members ws) | _ => ([], []) end.
Definition refused (r : option (cresult (Workspace * list string))) : option string :=
  match r with Some (Err e) => Some e | _ => None end.
Definition found_ok (r : option (cresult (Workspace * list string))) : bool := match r with Some (Ok _) => true | _ => false end.

(** A path dependency of the root is a member; as a default member it is refused,
    and so is the root, because the members are only complete after the default
    members were looked up. *)
Example default_too_early :
  shown (sample_new None 10 "/w/Cargo.toml") =
    (["/w/a/Cargo.toml"; "/w/b/Cargo.toml"; "/w/Cargo.toml"; "/w/d/Cargo.toml"], ["/w/Cargo.toml"]) ∧
  refused (sample_new (Some ["d"]) 10 "/w/Cargo.toml") = Some (not_default_member "/w/d") ∧
  refused (sample_new (Some ["."]) 10 "/w/Cargo.toml") = Some (not_default_member "/w/.").
Proof. split_and!; vm_eq. Qed.

(** The explicit members of a workspace are never excluded. *)
Example members_not_excluded :
  is_excluded (mkWorkspaceRoot "/w" (Some ["x/a"]) None ["x"]) "/w/x/a/Cargo.toml" = false ∧
  is_excluded (mkWorkspaceRoot "/w" None None ["x"]) "/w/x/a/Cargo.toml" = true.
Proof. split; vm_eq. Qed.

Lemma new_is_workspace_witness :
  ∃ ws printed, sample_new (Some ["b"]) 10 "/w/b/Cargo.toml" = Some (Ok (ws, printed)) ∧
  current_manifest ws = "/w/b/Cargo.toml" ∧
  match root_manifest ws with
  | Some root => is_workspace (sample_config ∅) (sample_read (Some ["b"])) root ws
  | None => ws_members ws = ["/w/b/Cargo.toml"] ∧ ws_default_members ws = ["/w/b/Cargo.toml"]
  end.
Proof.
  assert (Hok : found_ok (sample_new (Some ["b"]) 10 "/w/b/Cargo.toml") = true) by vm_eq.
  destruct (sample_new (Some ["b"]) 10 "/w/b/Cargo.toml") as [[[ws printed]| |]|] eqn:E; [|discriminate Hok..].
  exists ws, printed. split; [done|].
  exact (new_is_workspace (sample_config ∅) no_glob (sample_read (Some ["b"])) 10 "/w/b/Cargo.toml" ws printed E).
Defined.

Lemma sample_disk defaults q key : parent q = Some key → is_ok (sample_read defaults q) = true → member sample_dirs key.
Proof.
  unfold sample_read. intros ->. cbn [unwrap mbind res_mbind res_bind].
  destruct (disk defaults !! key) as [me|] eqn:E; [|done]. intros _. apply elem_of_list_to_map_2 in E.
  apply list_elem_of_fmap. exists key. split; [done|]. by apply (list_elem_of_fmap_2 fst) in E.
Qed.
Lemma new_returns_witness : ∃ r, sample_new None 6 "/w/a/Cargo.toml" = Some r.
Proof. refine (new_returns (sample_config ∅) no_glob (sample_read None) sample_dirs 6 "/w/a/Cargo.toml" (sample_disk None) _). cbn. lia. Defined.
End run.
