(* ===== verification/PreviousLocks.v ===== *)
(** Which packages of the previous lock file are locked again,
    [register_previous_locks] of [src/cargo/ops/resolve.rs]. *)
From S2P Require Import Prelude Str Extern Path SourceId PackageId Graph Config Dependency Summary ResTypes PackageRegistry Resolve Package.
From S2P Require Import SourceConfig ConfigValue TomlManifest ReadManifest Workspace.

Local Open Scope string_scope.

(** A loop over a list whose body takes fuel. *)
Fixpoint fold_some {S A} (f : S → A → option S) (s : S) (l : list A) : option S :=
  match l with [] => Some s | x :: l => s ← f s x; fold_some f s l end.

Section locks.
Context `{SV : SemverLib} `{UL : UrlLib} `{RS : RustStd} `{SL : !SourceLib}.
Context (read_local : path → cresult Package).

(** [add_deps]: a node and all that it depends on. *)
Fixpoint add_deps (fuel : nat) (r : Resolve) (set : hashset PackageId) (node : PackageId) : option (hashset PackageId) :=
  match fuel with
  | O => None
  | S fuel => if hcontains set node then Some set
              else fold_some (add_deps fuel r) (hinsert node tt set) (deps_not_replaced r node)
  end.
(** All the children of nodes; a fuel above their number is enough. *)
Definition all_children (r : Resolve) : list PackageId := hvalues (nodes (graph r)) ≫= λ adj, (hiter adj).*1.
Definition enough (r : Resolve) : nat := S (S (length (all_children r))).

(** The closure [path_pkg] *)
Definition path_pkg (ws : Workspace) (id : SourceId) : cresult (option Package * Workspace) :=
  if negb (is_path id) then Ok (None, ws)
  else match url_to_file_path (sid_url id) with
       | None => Ok (None, ws)
       | Some p => match ws_load read_local ws (path_join p "Cargo.toml") with
                   | Ok (pkg, ws) => Ok (Some pkg, ws)
                   | Err _ => Ok (None, ws)
                   | Panic m => Panic m
                   end
       end.

(** The state of the loops: the workspace, which caches what it loads, and [avoid_locking]. *)
Abbreviation Avoid := (Workspace * hashset PackageId)%type.
Definition lift_some {A} (o : option A) : option (cresult A) := Ok <$> o.
Definition avoid_node (r : Resolve) (keep : PackageId → bool) (st : Avoid) (node : PackageId) : option (cresult Avoid) :=
  let '(ws, avoid) := st in
  if negb (keep node) then let* avoid := lift_some (add_deps (enough r) r avoid node) in Some (Ok (ws, avoid))
  else
    let* (pkg, ws) := Some (path_pkg ws (pid_source_id node)) in
    Some (Ok (ws, match pkg with
                  | Some pkg => if package_id pkg ==? node then avoid else hinsert node tt avoid
                  | None => avoid
                  end)).

(** A dependency of a package on the worklist. *)
Definition is_member_id (members : list Package) (p : Package) : bool :=
  existsb (λ pkg, package_id pkg ==? package_id p) members.
Definition skipped (members : list Package) (p : Package) (dep : Dependency) : bool :=
  negb (is_member_id members p) && (optional dep || negb (is_transitive dep)).
Definition of_source (r : Resolve) (id : SourceId) : list PackageId :=
  filter (λ n, (pid_source_id n ==? id) = true) (Resolve.iter r).
Definition in_lock (r : Resolve) (dep : Dependency) : bool := existsb (matches_ignoring_source dep) (Resolve.iter r).
Definition visit_dep (r : Resolve) (members : list Package) (member : Package)
    (st : Avoid * list Package) (dep : Dependency) : option (cresult (Avoid * list Package)) :=
  let '((ws, avoid), path_deps) := st in
  if skipped members member dep then Some (Ok st)
  else
    let* (pkg, ws) := Some (path_pkg ws (dep_source_id dep)) in
    match pkg with
    | Some pkg => Some (Ok ((ws, avoid), pkg :: path_deps))
    | None =>
        if in_lock r dep then Some (Ok ((ws, avoid), path_deps))
        else
          let* avoid := lift_some (fold_some (add_deps (enough r) r) avoid (of_source r (dep_source_id dep))) in
          Some (Ok ((ws, avoid), path_deps))
    end.
(** The worklist is a vector, its last element first here. *)
Fixpoint visit_paths (fuel : nat) (r : Resolve) (members : list Package) (st : Avoid) (path_deps : list Package)
    (visited : hashset PackageId) : option (cresult Avoid) :=
  match fuel with
  | O => None
  | S fuel =>
      match path_deps with
      | [] => Some (Ok st)
      | member :: path_deps =>
          if hcontains visited (package_id member) then visit_paths fuel r members st path_deps visited
          else
            let* (st, path_deps) := fold_fuel (visit_dep r members member) (st, path_deps) (sum_dependencies (pkg_summary member)) in
            visit_paths fuel r members st path_deps (hinsert (package_id member) tt visited)
      end
  end.

(** [register_previous_locks] *)
Definition avoid_locking (fuel : nat) (ws : Workspace) (r : Resolve) (keep : PackageId → bool) : option (cresult Avoid) :=
  let* st := fold_fuel (avoid_node r keep) (ws, ∅) (Resolve.iter r) in
  let* members := Some (member_packages ws) in
  visit_paths fuel r members st (rev members) ∅.
Definition kept (keep : PackageId → bool) (avoid : hashset PackageId) (id : PackageId) : bool := keep id && negb (hcontains avoid id).
Definition locks (r : Resolve) (kept : PackageId → bool) : list (PackageId * list PackageId) :=
  (λ node, (node, filter (λ d, kept d = true) (deps_not_replaced r node))) <$>
    filter (λ node, kept node = true) (Resolve.iter r).
Definition register_previous_locks (fuel : nat) (ws : Workspace) (registry : PackageRegistry) (r : Resolve)
    (keep : PackageId → bool) : option (cresult (Workspace * PackageRegistry)) :=
  let* (ws, avoid) := avoid_locking fuel ws r keep in
  Some (Ok (ws, foldl (λ registry l, register_lock registry l.1 l.2) registry (locks r (kept keep avoid)))).
End locks.

(** * Facts *)
Lemma elem_of_rev {A} (x : A) l : x ∈ rev l ↔ x ∈ l.
Proof. by rewrite !list_elem_of_In, <-in_rev. Qed.
Lemma size_set_of_list `{Countable K} (l : list K) : (size (list_to_set l : gset K) ≤ length l)%nat.
Proof.
  induction l as [|x l IH]; cbn [list_to_set length]; [by rewrite size_empty|]. rewrite size_union_alt, size_singleton.
  assert (size ((list_to_set l : gset K) ∖ {[x]}) ≤ size (list_to_set l : gset K))%nat by (apply subseteq_size; set_solver). lia.
Qed.

Section graph_facts.
Context `{SV : SemverLib} `{UL : UrlLib} `{RS : RustStd} (r : Resolve).
Local Arguments hinsert : simpl never.

Definition linked (a b : PackageId) : Prop := to_key b ∈ (to_key <$> deps_not_replaced r a).
(** [b], up to equality of identifiers, is reached from [a]. *)
Definition reaches (a b : PackageId) : Prop := ∃ c, rtc linked a c ∧ to_key c = to_key b.
Lemma deps_of_key a a' : to_key a = to_key a' → deps_not_replaced r a = deps_not_replaced r a'.
Proof. intros H. unfold deps_not_replaced, Graph.edges. by rewrite (hget_key _ _ _ H). Qed.
Lemma lock_linked_key a a' b b' : to_key a = to_key a' → to_key b = to_key b' → linked a b → linked a' b'.
Proof. intros Ha Hb. unfold linked. by rewrite (deps_of_key _ _ Ha), Hb. Qed.
Lemma reaches_refl a b : to_key a = to_key b → reaches a b.
Proof. exists a. by split; [apply rtc_refl|]. Qed.
Lemma reaches_step a d b : d ∈ deps_not_replaced r a → reaches d b → reaches a b.
Proof. intros Hd (c & Hc & Hk). exists c. split; [|done]. eapply rtc_l; [|exact Hc]. unfold linked. by apply list_elem_of_fmap_2. Qed.

(** What a search adds to a set: the nodes it starts from, only what they reach,
    and all that the new elements are linked to. *)
Record added (l : list PackageId) (s s' : hashset PackageId) : Prop := {
  ad_grows : hdom s ⊆ hdom s';
  ad_in : ∀ n, n ∈ l → to_key n ∈ hdom s';
  ad_only : ∀ x, to_key x ∈ hdom s' → to_key x ∈ hdom s ∨ ∃ n, n ∈ l ∧ reaches n x;
  ad_closed : ∀ x d, to_key x ∈ hdom s' → to_key x ∉ hdom s → linked x d → to_key d ∈ hdom s';
}.
Lemma fold_added (f : hashset PackageId → PackageId → option (hashset PackageId)) l :
  (∀ s n s', n ∈ l → f s n = Some s' → added [n] s s') → ∀ s s', fold_some f s l = Some s' → added l s s'.
Proof.
  induction l as [|n l IH]; intros Hf s s'; cbn [fold_some].
  - intros [= <-]. split; [done| |by left|done]. by intros n ?%elem_of_nil.
  - intros (s1 & H1 & H2)%bind_Some. apply Hf in H1 as [G1 I1 O1 C1]; [|constructor].
    apply IH in H2 as [G2 I2 O2 C2]; [|intros; apply Hf; [by constructor|done]]. split.
    + by etransitivity.
    + intros m [->|Hm]%elem_of_cons; [apply G2, I1; constructor|by apply I2].
    + intros x [Hx|(m & Hm & Hr)]%O2; [|right; exists m; split; [by constructor|done]].
      apply O1 in Hx as [?|(m & ->%list_elem_of_singleton & Hr)]; [by left|right; exists n; split; [constructor|done]].
    + intros x d Hx Hn Hd. destruct (decide (to_key x ∈ hdom s1)) as [H|H]; [by eapply G2, C1|by eapply C2].
Qed.
Lemma add_deps_spec fuel : ∀ s n s', add_deps fuel r s n = Some s' → added [n] s s'.
Proof.
  induction fuel as [|fuel IH]; intros s n s'; cbn [add_deps]; [done|].
  destruct (hcontains s n) eqn:Hc.
  { intros [= <-]. rewrite hcontains_hdom in Hc. apply bool_decide_eq_true in Hc. split; [done| |by left|done].
    by intros m ->%list_elem_of_singleton. }
  intros H. apply fold_added in H as [G I O C]; [|intros; by apply IH]. rewrite hdom_hinsert in *. split.
  - set_solver.
  - intros m ->%list_elem_of_singleton. set_solver.
  - intros x Hx. apply O in Hx as [Hx|(d & Hd & Hr)].
    + apply elem_of_union in Hx as [Hx%elem_of_singleton|]; [|by left]. right. exists n. split; [constructor|]. by apply reaches_refl.
    + right. exists n. split; [constructor|]. by eapply reaches_step.
  - intros x d Hx Hn Hd. destruct (decide (to_key x = to_key n)) as [Hk|Hk].
    + unfold linked in Hd. rewrite (deps_of_key _ _ Hk) in Hd. apply list_elem_of_fmap in Hd as (d' & -> & Hd'). by apply I.
    + eapply C; [exact Hx| |exact Hd]. set_solver.
Qed.

(** The search ends. *)
Definition universe : keyset PackageId := list_to_set (to_key <$> all_children r).
Lemma children_universe a d : d ∈ deps_not_replaced r a → to_key d ∈ universe.
Proof.
  unfold deps_not_replaced, Graph.edges, universe, all_children. destruct (hget (nodes (graph r)) a) as [adj|] eqn:Ha; [|by intros ?%elem_of_nil].
  intros Hd. apply elem_of_list_to_set, list_elem_of_fmap_2. apply list_elem_of_bind. exists adj. split; [done|].
  apply hget_Some_inv in Ha as (k & Ha). apply list_elem_of_fmap. exists (k, adj). split; [done|]. apply elem_of_hiter. by eexists.
Qed.
Lemma fold_some_returns {A} (P : hashset PackageId → Prop) (f : hashset PackageId → A → option (hashset PackageId)) l :
  (∀ s n, n ∈ l → P s → ∃ s', f s n = Some s' ∧ P s') → ∀ s, P s → ∃ s', fold_some f s l = Some s' ∧ P s'.
Proof.
  induction l as [|n l IH]; intros Hf s Hs; cbn [fold_some]; [by exists s|].
  destruct (Hf s n ltac:(constructor) Hs) as (s1 & -> & H1). cbn. apply IH; [|done]. intros; apply Hf; [by constructor|done].
Qed.
Lemma add_deps_returns fuel : ∀ s n, (size (universe ∖ hdom s) < fuel)%nat → to_key n ∈ universe → is_Some (add_deps fuel r s n).
Proof.
  induction fuel as [|fuel IH]; intros s n Hf Hn; [lia|]. cbn [add_deps]. destruct (hcontains s n) eqn:Hc; [by eexists|].
  rewrite hcontains_hdom in Hc. apply bool_decide_eq_false in Hc. pose proof (size_left_mark _ _ _ Hn Hc) as Hlt.
  destruct (fold_some_returns (λ s', hdom (hinsert n tt s) ⊆ hdom s') (add_deps fuel r) (deps_not_replaced r n)) with (s := hinsert n tt s)
    as (s' & -> & _); [|done|by eexists].
  intros s1 d Hd H1. destruct (IH s1 d) as [s2 H2].
  - pose proof (size_left_mono universe _ _ H1) as Hle. rewrite hdom_hinsert in Hle. lia.
  - by eapply children_universe.
  - exists s2. split; [done|]. etransitivity; [exact H1|]. by apply (add_deps_spec fuel _ d).
Qed.
Lemma add_deps_enough s n : is_Some (add_deps (enough r) r s n).
Proof.
  unfold enough. cbn [add_deps]. destruct (hcontains s n); [by eexists|].
  destruct (fold_some_returns (λ _, True) (add_deps (S (length (all_children r))) r) (deps_not_replaced r n)) with (s := hinsert n tt s)
    as (s' & H & _); [|done|].
  - intros s1 d Hd _. destruct (add_deps_returns (S (length (all_children r))) s1 d) as [s2 H2]; [|by eapply children_universe|by exists s2].
    assert (Hsub : (size (universe ∖ hdom s1) <= size universe)%nat) by (apply subseteq_size; set_solver).
    assert (Hl : (size universe <= length (all_children r))%nat).
    { unfold universe. rewrite <-(length_fmap to_key (all_children r)). apply size_set_of_list. }
    lia.
  - exact (ex_intro _ s' H).
Qed.
End graph_facts.

(** ** What the workspace has loaded *)
Section loaded.
Context `{SV : SemverLib} `{UL : UrlLib} `{RS : RustStd}.
Context (read_local : path → cresult Package).
Abbreviation ws_load := (ws_load read_local).
Abbreviation path_pkg := (path_pkg read_local).

Definition set_loaded (ws : Workspace) (l : gmap (list Component) Package) : Workspace :=
  mkWorkspace (current_manifest ws) (packages ws) (root_manifest ws) (ws_target_dir ws) (ws_members ws) (ws_default_members ws)
    (is_ephemeral ws) (require_optional_deps ws) l.
(** The same workspace, with more packages at hand. *)
Definition more (ws ws' : Workspace) : Prop := ∃ l, loaded_packages ws ⊆ l ∧ ws' = set_loaded ws l.
#[global] Instance more_preorder : PreOrder more.
Proof.
  split.
  - intros ws. exists (loaded_packages ws). split; [done|by destruct ws].
  - intros ws1 ws2 ws3 (l & Hl & ->) (l' & Hl' & ->). exists l'. split; [by etrans|done].
Qed.
Lemma ws_load_more ws p pkg ws' : ws_load ws p = Ok (pkg, ws') →
  more ws ws' ∧ ∀ ws2, more ws' ws2 → ws_load ws2 p = Ok (pkg, ws2).
Proof.
  intros (found & Hf & H)%bind_Ok_inv. destruct found as [[m mp|vm]|] eqn:E; [..|done|].
  - injection H as <- <-. split; [done|]. intros ws2 (l & _ & ->). unfold Workspace.ws_load. cbn [packages set_loaded]. by rewrite Hf.
  - destruct (loaded_packages ws !! components p) as [q|] eqn:Hl.
    + injection H as <- <-. split; [done|]. intros ws2 (l & Hs & ->). unfold Workspace.ws_load. cbn [packages loaded_packages set_loaded].
      rewrite Hf. cbn [mbind res_mbind res_bind]. by rewrite (lookup_weaken _ _ _ _ Hl Hs).
    + apply bind_Ok_inv in H as (q & Hq & [= <- <-]). split.
      * exists (<[components p := q]> (loaded_packages ws)). split; [by apply insert_subseteq|done].
      * intros ws2 (l & Hs & ->). unfold Workspace.ws_load. cbn [packages loaded_packages set_loaded] in *. rewrite Hf.
        cbn [mbind res_mbind res_bind]. by rewrite (lookup_weaken _ _ _ _ (lookup_insert_eq _ _ _) Hs).
Qed.

(** The package at the path of a source, and the lack of one when it was looked for. *)
Definition found_at (ws : Workspace) (id : SourceId) (pkg : Package) : Prop := path_pkg ws id = Ok (Some pkg, ws).
Definition not_found (ws : Workspace) (id : SourceId) : Prop := ∃ ws0, more ws0 ws ∧ path_pkg ws0 id = Ok (None, ws0).
Lemma path_pkg_more ws id o ws' : path_pkg ws id = Ok (o, ws') →
  more ws ws' ∧ match o with Some pkg => ∀ ws2, more ws' ws2 → found_at ws2 id pkg | None => ∀ ws2, more ws' ws2 → not_found ws2 id end.
Proof.
  assert (Hnone : path_pkg ws id = Ok (None, ws) → ∀ ws2, more ws ws2 → not_found ws2 id) by (intros H ws2 H2; by exists ws).
  unfold found_at. intros Hp. assert (Hp0 := Hp). unfold PreviousLocks.path_pkg in Hp |- *.
  destruct (negb (is_path id)) eqn:Hi; [injection Hp as <- <-; split; [done|by apply Hnone]|].
  destruct (url_to_file_path (sid_url id)) as [q|] eqn:Hu; [|injection Hp as <- <-; split; [done|by apply Hnone]].
  destruct (ws_load ws (path_join q "Cargo.toml")) as [[pkg ws1]| |] eqn:Hl; [| |done].
  - injection Hp as <- <-. apply ws_load_more in Hl as [H1 H2]. split; [done|]. intros ws2 Hm. by rewrite (H2 ws2 Hm).
  - injection Hp as <- <-. split; [done|by apply Hnone].
Qed.
Lemma found_more ws ws' id pkg : more ws ws' → found_at ws id pkg → found_at ws' id pkg.
Proof. intros Hm H. apply path_pkg_more in H as [_ H]. by apply H. Qed.
Lemma not_found_more ws ws' id : more ws ws' → not_found ws id → not_found ws' id.
Proof. intros Hm (ws0 & H0 & H). exists ws0. split; [by etrans|done]. Qed.
Lemma member_packages_more ws ws' : more ws ws' → member_packages ws' = member_packages ws.
Proof. by intros (l & _ & ->). Qed.
End loaded.

(** ** The packages whose locks are given up *)
Section avoided.
Context `{SV : SemverLib} `{UL : UrlLib} `{RS : RustStd}.
Context (read_local : path → cresult Package) (r : Resolve) (keep : PackageId → bool) (members : list Package).
Abbreviation path_pkg := (path_pkg read_local).
Abbreviation found_at := (found_at read_local).
Abbreviation not_found := (not_found read_local).
Local Arguments hinsert : simpl never.

(** What a step adds: all that is reached from [roots], and [lone] nodes by themselves. *)
Record spread (roots lone : PackageId → Prop) (s s' : hashset PackageId) : Prop := {
  sp_grows : hdom s ⊆ hdom s';
  sp_only : ∀ x, to_key x ∈ hdom s' →
    to_key x ∈ hdom s ∨ (∃ n, roots n ∧ reaches r n x) ∨ ∃ n, lone n ∧ to_key n = to_key x;
  sp_closed : ∀ x d, to_key x ∈ hdom s' → to_key x ∉ hdom s → linked r x d →
    to_key d ∈ hdom s' ∨ ∃ n, lone n ∧ to_key n = to_key x;
}.
Lemma spread_refl R L s : spread R L s s.
Proof. split; [done|by left|done]. Qed.
Lemma spread_trans R L s1 s2 s3 : spread R L s1 s2 → spread R L s2 s3 → spread R L s1 s3.
Proof.
  intros [G1 O1 C1] [G2 O2 C2]. split; [by etransitivity| |].
  - intros x [Hx|Hx]%O2; [by apply O1|by right].
  - intros x d Hx Hn Hd. destruct (decide (to_key x ∈ hdom s2)) as [H|H]; [|by eapply C2].
    destruct (C1 x d H Hn Hd) as [?|?]; [left; by apply G2|by right].
Qed.
Lemma spread_weaken (R R' L L' : PackageId → Prop) s s' : (∀ n, R n → R' n) → (∀ n, L n → L' n) → spread R L s s' → spread R' L' s s'.
Proof.
  intros HR HL [G O C]. split; [done| |].
  - intros x [?|[(n & ? & ?)|(n & ? & ?)]]%O; [by left|right; left; exists n; auto|right; right; exists n; auto].
  - intros x d H1 H2 H3. destruct (C x d H1 H2 H3) as [?|(n & ? & ?)]; [by left|right; exists n; auto].
Qed.
Lemma added_spread (R L : PackageId → Prop) l s s' : (∀ n, n ∈ l → R n) → added r l s s' → spread R L s s'.
Proof.
  intros HR [G _ O C]. split; [done| |].
  - intros x [?|(n & Hn & Hr)]%O; [by left|right; left; exists n; auto].
  - intros x d H1 H2 H3. left. by eapply C.
Qed.
Lemma lone_spread (R L : PackageId → Prop) n s : L n → spread R L s (hinsert n tt s).
Proof.
  intros HL. split; rewrite ?hdom_hinsert; [set_solver| |].
  - intros x [Hx%elem_of_singleton|?]%elem_of_union; [right; right; by exists n|by left].
  - intros x d Hx Hn _. apply elem_of_union in Hx as [Hx%elem_of_singleton|]; [right; by exists n|done].
Qed.

(** A node whose package on disk has another identifier by now. *)
Definition moved (ws : Workspace) (n : PackageId) : Prop :=
  keep n = true ∧ ∃ pkg, found_at ws (pid_source_id n) pkg ∧ to_key (package_id pkg) ≠ to_key n.
Definition unmoved (ws : Workspace) (n : PackageId) : Prop :=
  not_found ws (pid_source_id n) ∨ ∃ pkg, found_at ws (pid_source_id n) pkg ∧ to_key (package_id pkg) = to_key n.
Lemma moved_more ws ws' n : more ws ws' → moved ws n → moved ws' n.
Proof. intros Hm (Hk & pkg & Hf & Hne). split; [done|]. exists pkg. split; [by eapply found_more|done]. Qed.
Lemma unmoved_more ws ws' n : more ws ws' → unmoved ws n → unmoved ws' n.
Proof.
  intros Hm [H|(pkg & Hf & He)]; [left; by eapply not_found_more|right]. exists pkg. split; [by eapply found_more|done].
Qed.
Definition dropped (n : PackageId) : Prop := n ∈ Resolve.iter r ∧ keep n = false.
Definition lone (ws : Workspace) (n : PackageId) : Prop := n ∈ Resolve.iter r ∧ moved ws n.

Lemma avoid_node_spec ws s n ws' s' : n ∈ Resolve.iter r → avoid_node read_local r keep (ws, s) n = Some (Ok (ws', s')) →
  more ws ws' ∧ spread dropped (lone ws') s s' ∧ (to_key n ∈ hdom s' ∨ keep n = true ∧ unmoved ws' n).
Proof.
  intros Hn. unfold avoid_node. destruct (keep n) eqn:Hk; cbn [negb].
  - destruct (path_pkg ws (pid_source_id n)) as [[o ws1]| |] eqn:Hp; cbn [fbind]; [|done..]. intros [= <- <-].
    apply path_pkg_more in Hp as [Hm Hp]. split; [done|]. destruct o as [pkg|].
    + destruct (package_id pkg ==? n) eqn:He.
      * split; [apply spread_refl|]. right. split; [done|]. right. exists pkg. split; [by apply Hp|by apply heqb_true].
      * apply heqb_false in He. split; [|left; rewrite hdom_hinsert; set_solver]. apply lone_spread. split; [done|].
        split; [done|]. exists pkg. split; [by apply Hp|done].
    + split; [apply spread_refl|]. right. split; [done|]. left. by apply Hp.
  - unfold lift_some. destruct (add_deps (enough r) r s n) as [s1|] eqn:Hs; cbn; [|done]. intros [= <- <-].
    split; [done|]. apply add_deps_spec in Hs. split; [|left; apply (ad_in _ _ _ _ Hs); constructor].
    eapply added_spread, Hs. intros m ->%list_elem_of_singleton. by split.
Qed.
Lemma avoid_nodes_spec l : ∀ ws s ws' s', (∀ n, n ∈ l → n ∈ Resolve.iter r) →
  fold_fuel (avoid_node read_local r keep) (ws, s) l = Some (Ok (ws', s')) →
  more ws ws' ∧ spread dropped (lone ws') s s' ∧ ∀ n, n ∈ l → to_key n ∈ hdom s' ∨ keep n = true ∧ unmoved ws' n.
Proof.
  induction l as [|n l IH]; intros ws s ws' s' Hl; cbn [fold_fuel].
  - intros [= <- <-]. split; [done|]. split; [apply spread_refl|]. by intros n ?%elem_of_nil.
  - destruct (avoid_node _ _ _ _ n) as [[[ws1 s1]| |]|] eqn:H1; cbn [fbind]; [|done..]. intros H2.
    apply avoid_node_spec in H1 as (M1 & S1 & N1); [|apply Hl; constructor].
    apply IH in H2 as (M2 & S2 & N2); [|intros; apply Hl; by constructor].
    assert (HL : ∀ m, lone ws1 m → lone ws' m) by (intros m [? ?]; split; [done|by eapply moved_more]).
    split; [by etransitivity|]. split; [eapply spread_trans; [|exact S2]; by eapply spread_weaken, S1|].
    intros m [->|Hm]%elem_of_cons; [|by apply N2]. destruct N1 as [?|[? ?]]; [left; by apply (sp_grows _ _ _ _ S2)|right].
    split; [done|by eapply unmoved_more].
Qed.

(** The packages whose manifests are examined: the members, and what their
    path dependencies, followed from package to package, lead to. *)
Abbreviation deps_of p := (sum_dependencies (pkg_summary p)).
Inductive examined (ws : Workspace) : Package → Prop :=
| examined_member p : p ∈ members → examined ws p
| examined_dep p d q : examined ws p → d ∈ deps_of p → skipped members p d = false →
    found_at ws (dep_source_id d) q → examined ws q.
Lemma examined_more ws ws' p : more ws ws' → examined ws p → examined ws' p.
Proof.
  intros Hm. induction 1 as [p Hp|p d q Hp IH Hd Hs Hf]; [by constructor|].
  eapply examined_dep; [exact IH|exact Hd|exact Hs|by eapply found_more].
Qed.
(** A dependency of such a package that nothing in the lock file matches gives up its source. *)
Definition unmet (ws : Workspace) (id : SourceId) : Prop :=
  ∃ p d, examined ws p ∧ d ∈ deps_of p ∧ skipped members p d = false ∧ not_found ws (dep_source_id d) ∧
    in_lock r d = false ∧ to_key id = to_key (dep_source_id d).
Lemma unmet_more ws ws' id : more ws ws' → unmet ws id → unmet ws' id.
Proof.
  intros Hm (p & d & Hp & Hd & Hs & Hn & Hi & Hk). exists p, d.
  split; [by eapply examined_more|]. split; [done|]. split; [done|]. split; [by eapply not_found_more|done].
Qed.
Definition poisoned (ws : Workspace) (n : PackageId) : Prop := n ∈ Resolve.iter r ∧ unmet ws (pid_source_id n).
Definition never (_ : PackageId) : Prop := False.

(** What is settled of a dependency: its package is listed, or the lock file
    has what it needs, or its source is given up. *)
Definition dep_settled (ws : Workspace) (s : hashset PackageId) (listed : Package → Prop) (p : Package) (d : Dependency) : Prop :=
  skipped members p d = false →
    (∃ q, found_at ws (dep_source_id d) q ∧ listed q) ∨
    not_found ws (dep_source_id d) ∧
      (in_lock r d = true ∨ ∀ n, n ∈ Resolve.iter r → to_key (pid_source_id n) = to_key (dep_source_id d) → to_key n ∈ hdom s).
Lemma dep_settled_weaken ws ws' s s' (listed listed' : Package → Prop) p d : more ws ws' → hdom s ⊆ hdom s' →
  (∀ q, listed q → listed' q) → dep_settled ws s listed p d → dep_settled ws' s' listed' p d.
Proof.
  intros Hm Hs Hl H Hsk. destruct (H Hsk) as [(q & Hq & Hi)|[Hn [Hi|Hi]]].
  - left. exists q. split; [by eapply found_more|by apply Hl].
  - right. split; [by eapply not_found_more|by left].
  - right. split; [by eapply not_found_more|right]. intros n H1 H2. by apply Hs, Hi.
Qed.

Lemma visit_dep_spec p ws s stack d ws' s' stack' :
  examined ws p → d ∈ deps_of p →
  visit_dep read_local r members p ((ws, s), stack) d = Some (Ok ((ws', s'), stack')) →
  more ws ws' ∧ spread (poisoned ws') never s s' ∧ dep_settled ws' s' (λ q, q ∈ stack') p d ∧
  ∃ new, stack' = (new ++ stack)%list ∧ ∀ q, q ∈ new → examined ws' q.
Proof.
  intros Hp Hd. unfold visit_dep. destruct (skipped members p d) eqn:Hsk.
  { intros [= <- <- <-]. split; [done|]. split; [apply spread_refl|]. split; [by intros ?; congruence|].
    exists []. split; [done|]. by intros q ?%elem_of_nil. }
  destruct (path_pkg ws (dep_source_id d)) as [[o ws1]| |] eqn:Hpk; cbn [fbind]; [|done..].
  apply path_pkg_more in Hpk as [Hm Hf]. destruct o as [q|].
  - intros [= <- <- <-]. split; [done|]. split; [apply spread_refl|].
    assert (Hq : found_at ws1 (dep_source_id d) q) by by apply Hf. split.
    + intros _. left. exists q. split; [done|constructor].
    + exists [q]. split; [done|]. intros x ->%list_elem_of_singleton.
      eapply examined_dep; [by eapply examined_more|exact Hd|exact Hsk|exact Hq].
  - assert (Hn : not_found ws1 (dep_source_id d)) by by apply Hf. destruct (in_lock r d) eqn:Hi.
    + intros [= <- <- <-]. split; [done|]. split; [apply spread_refl|]. split; [intros _; right; by split; [|left]|].
      exists []. split; [done|]. by intros x ?%elem_of_nil.
    + unfold lift_some. destruct (fold_some _ s _) as [s1|] eqn:Hs; cbn; [|done]. intros [= <- <- <-].
      apply (fold_added r) in Hs; [|intros; by eapply add_deps_spec]. split; [done|]. split; [|split].
      * eapply added_spread, Hs. intros n [Hk Hin]%list_elem_of_filter. split; [done|]. exists p, d.
        split; [by eapply examined_more|]. split_and!; [done..|]. by apply heqb_true.
      * intros _. right. split; [done|right]. intros n Hin Hk. apply (ad_in _ _ _ _ Hs), list_elem_of_filter.
        split; [by apply heqb_true|done].
      * exists []. split; [done|]. by intros x ?%elem_of_nil.
Qed.
Lemma visit_deps_spec p l : ∀ ws s stack ws' s' stack', examined ws p → (∀ d, d ∈ l → d ∈ deps_of p) →
  fold_fuel (visit_dep read_local r members p) ((ws, s), stack) l = Some (Ok ((ws', s'), stack')) →
  more ws ws' ∧ spread (poisoned ws') never s s' ∧ (∀ d, d ∈ l → dep_settled ws' s' (λ q, q ∈ stack') p d) ∧
  ∃ new, stack' = (new ++ stack)%list ∧ ∀ q, q ∈ new → examined ws' q.
Proof.
  induction l as [|d l IH]; intros ws s stack ws' s' stack' Hp Hl; cbn [fold_fuel].
  - intros [= <- <- <-]. split; [done|]. split; [apply spread_refl|]. split; [by intros d ?%elem_of_nil|].
    exists []. split; [done|]. by intros q ?%elem_of_nil.
  - destruct (visit_dep _ _ _ _ _ d) as [[[[ws1 s1] stack1]| |]|] eqn:H1; cbn [fbind]; [|done..]. intros H2.
    apply visit_dep_spec in H1 as (M1 & S1 & D1 & new1 & -> & E1); [|done|apply Hl; constructor].
    apply IH in H2 as (M2 & S2 & D2 & new2 & -> & E2); [|by eapply examined_more|intros; apply Hl; by constructor].
    assert (HP : ∀ n, poisoned ws1 n → poisoned ws' n) by (intros n [? ?]; split; [done|by eapply unmet_more]).
    split; [by etransitivity|]. split; [eapply spread_trans; [|exact S2]; by eapply spread_weaken, S1|]. split.
    + intros d' [->|Hd']%elem_of_cons; [|by apply D2].
      eapply dep_settled_weaken, D1; [done|apply S2|]. intros q Hq. apply elem_of_app. by right.
    + exists (new2 ++ new1)%list. split; [by rewrite app_assoc|]. intros q [Hq|Hq]%elem_of_app; [by apply E2|].
      eapply examined_more; [done|]. by apply E1.
Qed.

Definition listed_in (L : list Package) (q : Package) : Prop := ∃ q', q' ∈ L ∧ to_key (package_id q') = to_key (package_id q).
Lemma visit_paths_spec fuel : ∀ ws s stack visited ws' s', (∀ p, p ∈ stack → examined ws p) →
  visit_paths read_local fuel r members (ws, s) stack visited = Some (Ok (ws', s')) →
  more ws ws' ∧ spread (poisoned ws') never s s' ∧
  ∃ L, (∀ p, p ∈ stack → to_key (package_id p) ∈ hdom visited ∨ listed_in L p) ∧
    ∀ p, p ∈ L → examined ws' p ∧
      ∀ d, d ∈ deps_of p → dep_settled ws' s' (λ q, to_key (package_id q) ∈ hdom visited ∨ listed_in L q) p d.
Proof.
  induction fuel as [|fuel IH]; intros ws s stack visited ws' s' Hst; cbn [visit_paths]; [done|].
  destruct stack as [|p stack].
  { intros [= <- <-]. split; [done|]. split; [apply spread_refl|]. exists []. split; by intros p ?%elem_of_nil. }
  assert (Hp : examined ws p) by (apply Hst; constructor).
  destruct (hcontains visited (package_id p)) eqn:Hv.
  { intros H. apply IH in H as (H1 & H2 & L & H3 & H4); [|intros; apply Hst; by constructor].
    split; [done|]. split; [done|]. exists L. split; [|done]. rewrite hcontains_hdom in Hv. apply bool_decide_eq_true in Hv.
    intros q [->|Hq]%elem_of_cons; [by left|by apply H3]. }
  destruct (fold_fuel _ _ _) as [[[[ws1 s1] stack1]| |]|] eqn:Hf; cbn [fbind]; [|done..]. intros H.
  apply visit_deps_spec in Hf as (M1 & S1 & D1 & new & -> & E1); [|done..].
  apply IH in H as (M2 & S2 & L & H3 & H4).
  2:{ intros q [Hq|Hq]%elem_of_app; [by apply E1|]. eapply examined_more; [done|]. apply Hst. by constructor. }
  assert (HP : ∀ n, poisoned ws1 n → poisoned ws' n) by (intros n [? ?]; split; [done|by eapply unmet_more]).
  split; [by etransitivity|]. split; [eapply spread_trans; [|exact S2]; by eapply spread_weaken, S1|].
  assert (Hl : ∀ q, (to_key (package_id q) ∈ hdom (hinsert (package_id p) tt visited) ∨ listed_in L q) →
    to_key (package_id q) ∈ hdom visited ∨ listed_in (p :: L) q).
  { intros q [Hq|(q' & Hq' & Hk)]; [|right; exists q'; split; [by constructor|done]]. rewrite hdom_hinsert in Hq.
    apply elem_of_union in Hq as [Hq%elem_of_singleton|]; [|by left]. right. exists p. split; [constructor|done]. }
  exists (p :: L). split.
  - intros q [->|Hq]%elem_of_cons; [right; exists p; split; [constructor|done]|]. apply Hl, H3, elem_of_app. by right.
  - intros q [->|Hq]%elem_of_cons.
    + split; [by eapply examined_more, examined_more|]. intros d Hd. eapply dep_settled_weaken, D1; [done|apply S2| |done].
      intros q Hq. by apply Hl, H3.
    + destruct (H4 q Hq) as [H5 H6]. split; [done|]. intros d Hd. eapply dep_settled_weaken, H6; [done|done|exact Hl|done].
Qed.

(** What is given up, all in all. *)
Record given_up (ws : Workspace) (avoid : hashset PackageId) : Prop := {
  gu_dropped : ∀ n, n ∈ Resolve.iter r → keep n = false → to_key n ∈ hdom avoid;
  gu_moved : ∀ n, n ∈ Resolve.iter r → to_key n ∈ hdom avoid ∨ keep n = true ∧ unmoved ws n;
  gu_closed : ∀ x d, to_key x ∈ hdom avoid → linked r x d →
    to_key d ∈ hdom avoid ∨ ∃ n, lone ws n ∧ to_key n = to_key x;
  gu_only : ∀ x, to_key x ∈ hdom avoid →
    (∃ n, (dropped n ∨ poisoned ws n) ∧ reaches r n x) ∨ ∃ n, lone ws n ∧ to_key n = to_key x;
  gu_examined : ∃ L, (∀ p, p ∈ members → listed_in L p) ∧
    ∀ p, p ∈ L → examined ws p ∧ ∀ d, d ∈ deps_of p → dep_settled ws avoid (listed_in L) p d;
}.
Lemma given_up_spec fuel ws ws1 s1 ws' avoid :
  fold_fuel (avoid_node read_local r keep) (ws, ∅) (Resolve.iter r) = Some (Ok (ws1, s1)) →
  visit_paths read_local fuel r members (ws1, s1) (rev members) ∅ = Some (Ok (ws', avoid)) →
  more ws ws' ∧ given_up ws' avoid.
Proof.
  intros H1 H2. apply avoid_nodes_spec in H1 as (M1 & S1 & N1); [|done].
  apply visit_paths_spec in H2 as (M2 & S2 & L & H3 & H4).
  2:{ intros p Hp. constructor. by apply elem_of_rev. }
  assert (HL : ∀ n, lone ws1 n → lone ws' n) by (intros m [? ?]; split; [done|by eapply moved_more]).
  assert (HS : spread (λ n, dropped n ∨ poisoned ws' n) (lone ws') ∅ avoid).
  { eapply spread_trans; [eapply spread_weaken, S1|eapply spread_weaken, S2]; auto. by intros ? []. }
  assert (Hno : ∀ k : hkey PackageId, k ∈ hdom (∅ : hashset PackageId) → False) by (intros k; rewrite hdom_empty; set_solver).
  split; [by etransitivity|]. split.
  - intros n Hn Hk. destruct (N1 n Hn) as [?|[? _]]; [by apply (sp_grows _ _ _ _ S2)|congruence].
  - intros n Hn. destruct (N1 n Hn) as [?|[? ?]]; [left; by apply (sp_grows _ _ _ _ S2)|right]. split; [done|by eapply unmoved_more].
  - intros x d Hx Hd. eapply (sp_closed _ _ _ _ HS); [done| |done]. intros ?%Hno. done.
  - intros x Hx. destruct (sp_only _ _ _ _ HS x Hx) as [?%Hno|[?|?]]; [done|by left|by right].
  - exists L. split.
    + intros p Hp. destruct (H3 p) as [?%Hno|?]; [by apply elem_of_rev|done|done].
    + intros p Hp. destruct (H4 p Hp) as [H5 H6]. split; [done|]. intros d Hd.
      eapply dep_settled_weaken, H6; [done|done| |done]. intros q [?%Hno|?]; done.
Qed.
End avoided.

(** ** The locks that are registered *)
Section registered.
Context `{SV : SemverLib} `{UL : UrlLib} `{RS : RustStd} `{SL : !SourceLib}.
Context (read_local : path → cresult Package).
Local Arguments hinsert : simpl never.
Local Arguments hupdate : simpl never.
Local Arguments hor_insert : simpl never.

Definition named_at (src : SourceId) (name : string) (l : PackageId * list PackageId) : bool :=
  bool_decide (to_key (pid_source_id l.1) = to_key src) && String.eqb (pid_name l.1) name.
Lemma locked_named_register registry n deps src name :
  locked_named (locked (register_lock registry n deps)) src name =
    (locked_named (locked registry) src name ++ filter (λ l, named_at src name l = true) [(n, deps)])%list.
Proof.
  unfold locked_named, register_lock. cbn [locked set_locked]. rewrite hget_hupdate, hget_hor_insert, filter_cons, filter_nil.
  unfold named_at. cbn [fst]. case_decide as Hk.
  - rewrite bool_decide_true by done. cbn [andb fmap option_fmap option_map default].
    rewrite (hget_key (locked registry) _ _ Hk). destruct (hget (locked registry) src) as [m|]; cbn [default from_option id].
    + destruct (String.eqb_spec (pid_name n) name) as [->|Hn]; [rewrite decide_True by done; by rewrite lookup_insert_eq|].
      rewrite decide_False, lookup_insert_ne, app_nil_r by done. done.
    + destruct (String.eqb_spec (pid_name n) name) as [->|Hn]; [rewrite decide_True by done; by rewrite lookup_insert_eq|].
      rewrite decide_False, lookup_insert_ne by done. by rewrite lookup_empty.
  - rewrite bool_decide_false by done. cbn [andb]. rewrite decide_False by done. by rewrite app_nil_r.
Qed.
Definition register_all (registry : PackageRegistry) (l : list (PackageId * list PackageId)) : PackageRegistry :=
  foldl (λ registry l, register_lock registry l.1 l.2) registry l.
Lemma register_all_spec l : ∀ registry,
  register_all registry l = set_locked registry (locked (register_all registry l)) ∧
  ∀ src name, locked_named (locked (register_all registry l)) src name =
    (locked_named (locked registry) src name ++ filter (λ l, named_at src name l = true) l)%list.
Proof.
  induction l as [|[id deps] l IH]; intros registry; cbn [register_all foldl].
  - split; [by destruct registry|]. intros src name. by rewrite filter_nil, app_nil_r.
  - destruct (IH (register_lock registry id deps)) as [H1 H2]. unfold register_all in H1, H2. split.
    + rewrite H1 at 1. done.
    + intros src name. rewrite H2, locked_named_register, <-app_assoc. f_equal. rewrite !filter_cons, filter_nil.
      cbn [fst snd]. by case_decide.
Qed.

(** C27. What [register_previous_locks] locks.  A package of the previous lock
    file is locked again, to those of its dependencies that are locked too,
    unless the caller drops it or it is given up: given up is all that is
    reached from a dropped package or from a package of a source that some
    examined manifest needs something new of, and a path package that has
    another version on disk.  The manifests examined are those of the members and
    of what their path dependencies lead to. *)
Theorem register_previous_locks_spec fuel ws registry r keep ws' registry'
    (H : register_previous_locks read_local fuel ws registry r keep = Some (Ok (ws', registry'))) :
  ∃ members avoid, member_packages ws = Ok members ∧ more ws ws' ∧
    given_up read_local r keep members ws' avoid ∧
    registry' = set_locked registry (locked registry') ∧
    ∀ src name, locked_named (locked registry') src name =
      (locked_named (locked registry) src name ++
         filter (λ l, named_at src name l = true) (locks r (kept keep avoid)))%list.
Proof.
  revert H. unfold register_previous_locks, avoid_locking.
  destruct (fold_fuel _ _ _) as [[[ws1 s1]| |]|] eqn:H1; cbn [fbind]; [|done..].
  destruct (member_packages ws) as [members| |] eqn:Hm; cbn [fbind]; [|done..].
  destruct (visit_paths _ _ _ _ _ _ _) as [[[ws2 avoid]| |]|] eqn:H2; cbn [fbind]; [|done..]. intros [= <- <-].
  destruct (given_up_spec read_local r keep members fuel _ _ _ _ _ H1 H2) as [Hw Hg].
  destruct (register_all_spec (locks r (kept keep avoid)) registry) as [H3 H4].
  exists members, avoid. split; [done|]. split; [done|]. split; [done|]. by split.
Qed.

(** *** It ends *)
Section ends.
Context (r : Resolve) (keep : PackageId → bool) (members : list Package) (ws0 : Workspace) (ids : keyset PackageId).
Definition loads (ws ws' : Workspace) : Prop := ∃ id o, path_pkg read_local ws id = Ok (o, ws').
Definition loads_within : Prop :=
  ∀ ws id pkg ws1, rtc loads ws0 ws → path_pkg read_local ws id = Ok (Some pkg, ws1) → to_key (package_id pkg) ∈ ids.
Context (Hids : loads_within).
Definition halts_at {A} (f : nat → option A) : Prop := ∃ n, ∀ n', (n ≤ n')%nat → is_Some (f n').

Lemma add_all_enough s l : is_Some (fold_some (add_deps (enough r) r) s l).
Proof.
  destruct (fold_some_returns (λ _, True) (add_deps (enough r) r) l) with (s := s) as (s' & H & _); [|done|by eexists].
  intros s1 n _ _. destruct (add_deps_enough r s1 n) as [s2 H2]. by exists s2.
Qed.
Lemma fold_fuel_some {S A} (f : S → A → option (cresult S)) l :
  (∀ s x, x ∈ l → is_Some (f s x)) → ∀ s, is_Some (fold_fuel f s l).
Proof.
  induction l as [|x l IH]; intros Hf s; cbn [fold_fuel]; [by eexists|].
  destruct (Hf s x ltac:(constructor)) as [[s1| |] ->]; cbn [fbind]; [|by eexists..]. apply IH. intros; apply Hf. by constructor.
Qed.
Lemma avoid_node_some st n : is_Some (avoid_node read_local r keep st n).
Proof.
  destruct st as [ws s]. unfold avoid_node. destruct (negb (keep n)).
  - destruct (add_deps_enough r s n) as [s1 ->]. by eexists.
  - destruct (path_pkg read_local ws _) as [[o ws1]| |]; by eexists.
Qed.
Lemma visit_dep_some p st d : is_Some (visit_dep read_local r members p st d).
Proof.
  destruct st as [[ws s] stack]. unfold visit_dep. destruct (skipped members p d); [by eexists|].
  destruct (path_pkg read_local ws _) as [[o ws1]| |]; [|by eexists..]. cbn [fbind]. destruct o; [by eexists|].
  destruct (in_lock r d); [by eexists|]. unfold lift_some.
  destruct (add_all_enough s (of_source r (dep_source_id d))) as [s1 ->]. by eexists.
Qed.
(** The packages pushed are of the known ones. *)
Lemma visit_deps_within p l : ∀ ws s stack ws' s' stack', rtc loads ws0 ws →
  (∀ q, q ∈ stack → to_key (package_id q) ∈ ids) →
  fold_fuel (visit_dep read_local r members p) ((ws, s), stack) l = Some (Ok ((ws', s'), stack')) →
  rtc loads ws0 ws' ∧ ∀ q, q ∈ stack' → to_key (package_id q) ∈ ids.
Proof.
  induction l as [|d l IH]; intros ws s stack ws' s' stack' Hm Hst; cbn [fold_fuel]; [by intros [= <- _ <-]|].
  destruct (visit_dep _ _ _ _ _ d) as [[[[ws1 s1] stack1]| |]|] eqn:H1; cbn [fbind]; [|done..]. apply IH.
  - revert H1. unfold visit_dep. destruct (skipped members p d); [by intros [= <- _ _]|].
    destruct (path_pkg read_local ws _) as [[o ws2]| |] eqn:Hp; cbn [fbind]; [|done..].
    intros H1. assert (ws1 = ws2) as ->; [|eapply rtc_r; [exact Hm|by eexists _, _]].
    destruct o; [by injection H1|]. destruct (in_lock r d); [by injection H1|].
    unfold lift_some in H1. destruct (fold_some _ s _); [by injection H1|done].
  - revert H1. unfold visit_dep. destruct (skipped members p d); [by intros [= _ _ <-]|].
    destruct (path_pkg read_local ws _) as [[o ws2]| |] eqn:Hp; cbn [fbind]; [|done..]. destruct o as [q|].
    + intros [= _ _ <-] x [->|Hx]%elem_of_cons; [by eapply Hids|by apply Hst].
    + destruct (in_lock r d); [by intros [= _ _ <-]|]. unfold lift_some. destruct (fold_some _ s _); [by intros [= _ _ <-]|done].
Qed.
Lemma visit_paths_halts m : ∀ stack ws s visited, rtc loads ws0 ws → (∀ q, q ∈ stack → to_key (package_id q) ∈ ids) →
  (size (ids ∖ hdom visited) ≤ m)%nat → halts_at (λ fuel, visit_paths read_local fuel r members (ws, s) stack visited).
Proof.
  induction m as [m IHm] using lt_wf_ind. induction stack as [|p stack IH]; intros ws s visited Hm Hst Hsz.
  { exists 1%nat. intros [|n'] Hn; [lia|]. by eexists. }
  assert (Hp : to_key (package_id p) ∈ ids) by (apply Hst; constructor).
  destruct (hcontains visited (package_id p)) eqn:Hv.
  { destruct (IH ws s visited Hm ltac:(intros; apply Hst; by constructor) Hsz) as [n Hn]. exists (S n).
    intros [|n'] Hn'; [lia|]. cbn [visit_paths]. rewrite Hv. apply Hn. lia. }
  rewrite hcontains_hdom in Hv. pose proof Hv as Hv'. apply bool_decide_eq_false in Hv'.
  pose proof (size_left_mark _ _ _ Hp Hv') as Hlt.
  destruct (fold_fuel_some (visit_dep read_local r members p) (sum_dependencies (pkg_summary p))
    ltac:(intros; apply visit_dep_some) ((ws, s), stack)) as [res Hres].
  destruct res as [[[ws1 s1] stack1]|e|e].
  - destruct (visit_deps_within p _ _ _ _ _ _ _ Hm ltac:(intros; apply Hst; by constructor) Hres) as [Hm1 Hst1].
    destruct (IHm (size (ids ∖ hdom (hinsert (package_id p) tt visited)))
      ltac:(rewrite hdom_hinsert; lia) stack1 ws1 s1 _ Hm1 Hst1 ltac:(done)) as [n Hn].
    exists (S n). intros [|n'] Hn'; [lia|]. cbn [visit_paths]. rewrite hcontains_hdom, Hv, Hres. cbn [fbind]. apply Hn. lia.
  - exists 1%nat. intros [|n'] Hn'; [lia|]. cbn [visit_paths]. rewrite hcontains_hdom, Hv, Hres. by eexists.
  - exists 1%nat. intros [|n'] Hn'; [lia|]. cbn [visit_paths]. rewrite hcontains_hdom, Hv, Hres. by eexists.
Qed.
Lemma avoid_nodes_loads l : ∀ ws s ws' s', fold_fuel (avoid_node read_local r keep) (ws, s) l = Some (Ok (ws', s')) → rtc loads ws ws'.
Proof.
  induction l as [|n l IH]; intros ws s ws' s'; cbn [fold_fuel]; [by intros [= <- _]|].
  destruct (avoid_node _ _ _ _ n) as [[[ws1 s1]| |]|] eqn:H1; cbn [fbind]; [|done..]. intros H2%IH.
  revert H1. unfold avoid_node. destruct (negb (keep n)).
  - unfold lift_some. destruct (add_deps _ r s n); [|done]. by intros [= <- _].
  - destruct (path_pkg read_local ws _) as [[o ws2]| |] eqn:Hp; cbn [fbind]; [|done..]. intros [= -> _].
    eapply rtc_l; [|exact H2]. by eexists _, _.
Qed.
End ends.
(** It is enough to know the packages at hand and those that can be read. *)
Lemma loads_within_intro ws ids :
  (∀ k x m p, packages ws !! k = Some (x, MPackage m p) → to_key (package_id (mkPackage (rm_manifest m) p)) ∈ ids) →
  (∀ k p, loaded_packages ws !! k = Some p → to_key (package_id p) ∈ ids) →
  (∀ q p, read_local q = Ok p → to_key (package_id p) ∈ ids) → loads_within ws ids.
Proof.
  intros Hp Hl Hr ws1 id pkg ws2 Hws. 
  assert (Hstep : ∀ wa ia oa wb, packages wa = packages ws → (∀ k p, loaded_packages wa !! k = Some p → to_key (package_id p) ∈ ids) →
    path_pkg read_local wa ia = Ok (oa, wb) →
    packages wb = packages ws ∧ (∀ k p, loaded_packages wb !! k = Some p → to_key (package_id p) ∈ ids) ∧
    ∀ q, oa = Some q → to_key (package_id q) ∈ ids).
  { intros wa ia oa wb H1 H2. unfold path_pkg. destruct (negb _); [by intros [= <- <-]|].
    destruct (url_to_file_path _) as [y|]; [|by intros [= <- <-]].
    destruct (Workspace.ws_load read_local wa _) as [[q wc]| |] eqn:Hload; [|by intros [= <- <-]|done]. intros [= <- <-].
    revert Hload. unfold Workspace.ws_load, maybe_get. rewrite H1. destruct (parent _) as [key|]; [|done]. cbn [unwrap mbind res_mbind res_bind].
    destruct (packages ws !! components key) as [[x [m mp|vm]]|] eqn:Hx; cbn [fmap option_fmap option_map snd]; [..|done|].
    - intros [= <- <-]. split; [done|]. split; [done|]. intros q' [= <-]. by eapply Hp.
    - destruct (loaded_packages wa !! _) as [p'|] eqn:Hy.
      + intros [= <- <-]. split; [done|]. split; [done|]. intros q' [= <-]. by eapply H2.
      + intros (p' & Hq & [= <- <-])%bind_Ok_inv. split; [done|]. split; [|intros q' [= <-]; by eapply Hr].
        cbn. intros k p0. rewrite lookup_insert_Some. intros [[_ <-]|[_ H]]; [by eapply Hr|by eapply H2]. }
  intros Hpk. assert (Hinv : packages ws1 = packages ws ∧ ∀ k p, loaded_packages ws1 !! k = Some p → to_key (package_id p) ∈ ids).
  { clear Hpk. assert (Hws' : ∀ wa wb, rtc loads wa wb →
      packages wa = packages ws ∧ (∀ k p, loaded_packages wa !! k = Some p → to_key (package_id p) ∈ ids) →
      packages wb = packages ws ∧ (∀ k p, loaded_packages wb !! k = Some p → to_key (package_id p) ∈ ids)); [|by eapply Hws'].
    induction 1 as [|wa wb wc (ia & oa & Hab) _ IH]; [done|]. intros [H1 H2]. apply IH.
    destruct (Hstep _ _ _ _ H1 H2 Hab) as (H3 & H4 & _). done. }
  destruct Hinv as [H1 H2]. by apply (Hstep _ _ _ _ H1 H2 Hpk).
Qed.

(** The search for what to lock again ends, whatever cycles the lock file
    and the path dependencies form, when the packages that can be loaded have
    finitely many identifiers. *)
Theorem register_previous_locks_returns ws registry r keep (ids : keyset PackageId)
    (Hids : loads_within ws ids)
    (Hmembers : ∀ members p, member_packages ws = Ok members → p ∈ members → to_key (package_id p) ∈ ids) :
  ∃ n, ∀ fuel, (n ≤ fuel)%nat → is_Some (register_previous_locks read_local fuel ws registry r keep).
Proof.
  unfold register_previous_locks, avoid_locking.
  destruct (fold_fuel_some (avoid_node read_local r keep) (Resolve.iter r) ltac:(intros; apply avoid_node_some) (ws, ∅)) as [res Hres].
  rewrite Hres. destruct res as [[ws1 s1]| |]; cbn [fbind]; [|exists 0%nat; intros; by eexists..].
  destruct (member_packages ws) as [members| |] eqn:Hm; cbn [fbind]; [|exists 0%nat; intros; by eexists..].
  apply avoid_nodes_loads in Hres as Hw.
  destruct (visit_paths_halts r members ws ids Hids (size (ids ∖ hdom (∅ : hashset PackageId))) (rev members) ws1 s1 ∅ Hw) as [n Hn].
  - intros q Hq. apply (proj1 (elem_of_rev _ _)) in Hq. exact (Hmembers members q eq_refl Hq).
  - done.
  - exists n. intros fuel Hf. destruct (Hn fuel Hf) as [[[ws2 s2]| |] ->]; cbn [fbind]; by eexists.
Qed.
End registered.

(** * Concrete runs *)
Section runs.
Local Existing Instance sem_lib.
Local Existing Instance hier_lib.
Local Existing Instance std_order.
Local Existing Instance TomlTargets.package_dirs.
Local Existing Instance line_toml.
Local Existing Instance ascii_case.
Local Existing Instance ascii_letters.
Local Existing Instance disk_files.
Local Existing Instance listed_sources.
(** One package [w] that depends on [serde], which depends on [log]. *)
Definition wants (v : string) : TomlManifest :=
  mkTomlManifest None None
    (Some (@mkTomlProject sem_lib None "w" (1, 0, 0)%nat None None None None None None None None None None None None None None
             None None None None None None None None None None None None)) None None None None None None
    (Some {["serde" := TomlManifest.Simple v]}) None None None None None None None None None None.
Definition disk_of (v p : string) : option TomlManifest := if String.eqb p "/w" then Some (wants v) else None.
Definition load_key (disk : string → option TomlManifest) (key : path) : cresult RealManifest :=
  match disk key with
  | Some me =>
      source_id ← SourceId.for_path key;
      '(m, _) ← to_real_manifest (λ _, "") (λ _, None) (sample_config ∅) TomlTargets.stable_env no_profiles me source_id key TomlTargets.no_notes;
      Ok m
  | None => Err "no such file"
  end.
Definition load_from (disk : string → option TomlManifest) (p : path) : cresult RealManifest :=
  key ← unwrap (parent p); load_key disk key.
Definition maybe_from (disk : string → option TomlManifest) (p : path) : cresult MaybePackage :=
  m ← load_from disk p; Ok (MPackage m p).
Definition local_from (disk : string → option TomlManifest) (p : path) : cresult Package :=
  m ← load_from disk p; Ok (mkPackage (rm_manifest m) p).
Definition empty_workspace : Workspace := mkWorkspace "/w/Cargo.toml" ∅ None None [] [] false true ∅.
Definition workspace_of (v : string) : Workspace :=
  match new (sample_config ∅) no_glob (maybe_from (disk_of v)) 5 "/w/Cargo.toml" with Some (Ok (ws, _)) => ws | _ => empty_workspace end.
Definition path_id (name : string) (v : Version) : PackageId :=
  mkPackageId name v (mkSourceId (UL:=hier_lib) ("file", "", [name], None, None) ("file", "", [name], None, None) Path None None).
Definition edge_to (g : Graph PackageId (list Dependency)) (a b : PackageId) := link (Graph.add (Graph.add g a) b) a b [] (λ l, l).
Definition lock_of (edges : list (PackageId * PackageId)) : Resolve :=
  Resolve.new (foldl (λ g e, edge_to g e.1 e.2) Graph.new edges) ∅ ∅ ∅ ∅ [].
Definition three : Resolve :=
  lock_of [(path_id "w" (1, 0, 0), pkg "serde" (1, 0, 0)); (pkg "serde" (1, 0, 0), pkg "log" (1, 0, 0))].
Definition relock (v : string) := register_previous_locks (local_from (disk_of v)) 5 (workspace_of v) registry_new three (λ _, true).
Definition locked_names (o : option (cresult (Workspace * PackageRegistry))) : list (string * list string) :=
  match o with
  | Some (Ok (_, r)) => List.map (λ l, (pid_name l.1, List.map pid_name l.2)) (concat (List.map (λ m, concat (List.map snd (map_to_list m))) (hvalues (locked r))))
  | _ => []
  end.

(** When the manifest asks for what the lock file has, all is locked; when it
    asks for another version, nothing of the registry is. *)
Example all_locked : locked_names (relock "1.0.0") = [("w", ["serde"]); ("serde", ["log"]); ("log", [])].
Proof. vm_eq. Qed.
Example unlocked : locked_names (relock "2.0.0") = [("w", [])].
Proof. vm_eq. Qed.

Lemma register_previous_locks_spec_witness :
  ∃ ws' registry', relock "2.0.0" = Some (Ok (ws', registry')) ∧
    ∃ members avoid, member_packages (workspace_of "2.0.0") = Ok members ∧ more (workspace_of "2.0.0") ws' ∧
      given_up (local_from (disk_of "2.0.0")) three (λ _, true) members ws' avoid.
Proof.
  assert (Hok : match relock "2.0.0" with Some (Ok _) => true | _ => false end = true) by vm_eq.
  destruct (relock "2.0.0") as [[[ws' registry']| |]|] eqn:E; [|discriminate Hok..]. exists ws', registry'. split; [reflexivity|].
  destruct (register_previous_locks_spec (local_from (disk_of "2.0.0")) 5 (workspace_of "2.0.0") registry_new three (λ _, true) ws' registry' E)
    as (members & avoid & H1 & H2 & H3 & _).
  exists members, avoid. split; [exact H1|]. split; [exact H2|exact H3].
Defined.

Definition is_w (id : PackageId) : bool := bool_decide (to_key id = to_key (path_id "w" (1, 0, 0))).
Lemma is_w_in id : is_w id = true → to_key id ∈ ({[to_key (path_id "w" (1, 0, 0))]} : keyset PackageId).
Proof. intros ->%bool_decide_eq_true. set_solver. Qed.
Lemma w_loads v :
  forallb (λ kv, match kv.2.2 with MPackage m _ => is_w (sum_package_id (man_summary (rm_manifest m))) | MVirtual _ => true end)
    (map_to_list (packages (workspace_of v))) = true →
  match map_to_list (loaded_packages (workspace_of v)) with [] => true | _ => false end = true →
  match load_key (disk_of v) "/w" with Ok m => is_w (sum_package_id (man_summary (rm_manifest m))) | _ => false end = true →
  loads_within (local_from (disk_of v)) (workspace_of v) {[to_key (path_id "w" (1, 0, 0))]}.
Proof.
  intros H1 H2 H3. apply loads_within_intro.
  - intros k x m p Hk. apply is_w_in. rewrite forallb_forall in H1. apply elem_of_map_to_list, list_elem_of_In in Hk.
    exact (H1 _ Hk).
  - intros k p Hk. apply elem_of_map_to_list in Hk. destruct (map_to_list (loaded_packages _)); [|discriminate H2].
    destruct (not_elem_of_nil _ Hk).
  - intros q p Hq. apply bind_Ok_inv in Hq as (m & Hm & [= <-]). apply bind_Ok_inv in Hm as (key & _ & Hm).
    assert (Hkey : key = "/w").
    { unfold load_key, disk_of in Hm. destruct (String.eqb_spec key "/w"); [done|discriminate Hm]. }
    rewrite Hkey in Hm. rewrite Hm in H3. by apply is_w_in.
Qed.
Lemma w_members v : match member_packages (workspace_of v) with Ok l => forallb (λ p, is_w (package_id p)) l | _ => true end = true →
  ∀ members p, member_packages (workspace_of v) = Ok members → p ∈ members →
  to_key (package_id p) ∈ ({[to_key (path_id "w" (1, 0, 0))]} : keyset PackageId).
Proof.
  intros H members p Hm Hp. rewrite Hm in H. rewrite forallb_forall in H. by apply is_w_in, H, list_elem_of_In.
Qed.
Lemma register_previous_locks_returns_witness :
  ∃ n, ∀ fuel, (n ≤ fuel)%nat →
    is_Some (register_previous_locks (local_from (disk_of "1.0.0")) fuel (workspace_of "1.0.0") registry_new three (λ _, true)).
Proof.
  apply (register_previous_locks_returns (local_from (disk_of "1.0.0")) (workspace_of "1.0.0") registry_new three (λ _, true)
    {[to_key (path_id "w" (1, 0, 0))]}).
  - refine (w_loads "1.0.0" _ _ _); vm_eq.
  - refine (w_members "1.0.0" _); vm_eq.
Defined.

(** A package to update, [x], depends on a path package [p] that has another
    version on disk; whether the dependencies of [p] are given up too depends on
    the order in which the lock file's graph is listed. *)
Definition bumped (key : path) : option TomlManifest :=
  if String.eqb key "/p" then
    Some (mkTomlManifest None None
      (Some (@mkTomlProject sem_lib None "p" (2, 0, 0)%nat None None None None None None None None None None None None None None
               None None None None None None None None None None None None)) None None None None None None
      None None None None None None None None None None None)
  else None.
Definition chain (x p : PackageId) : Resolve := lock_of [(x, p); (p, pkg "log" (1, 0, 0))].
Lemma rev_perm {K} `{Countable K} {A} (m : gmap K A) : rev (map_to_list m) ≡ₚ map_to_list m.
Proof. symmetry. apply Permutation_rev. Qed.
Definition rev_order : RustStd := {|
  hm_iter K _ _ A m := rev (map_to_list m);
  hm_iter_perm K _ _ A m := rev_perm m;
  hs_iter := @hs_iter std_order; hs_iter_perm := @hs_iter_perm std_order;
  sort_unstable_by := @sort_unstable_by std_order; sort_unstable_perm := @sort_unstable_perm std_order;
  sort_unstable_sorted := @sort_unstable_sorted std_order;
  heap_push := @heap_push std_order; heap_push_perm := @heap_push_perm std_order;
  heap_pop := @heap_pop std_order; heap_pop_None := @heap_pop_None std_order; heap_pop_perm := @heap_pop_perm std_order;
  heap_pop_max := @heap_pop_max std_order;
|}.
Definition given_up_names (order : RustStd) (drop : string) : list string :=
  match avoid_locking (RS:=order) (local_from bumped) 5 empty_workspace (chain (path_id "x" (1, 0, 0)) (path_id "p" (1, 0, 0)))
          (λ n, negb (String.eqb (pid_name n) drop)) with
  | Some (Ok (_, avoid)) => List.map pid_name (hkeys avoid)
  | _ => []
  end.
Example order_matters : given_up_names std_order "x" = ["x"; "p"; "log"] ∧ given_up_names rev_order "x" = ["p"; "x"].
Proof. split; vm_eq. Qed.
End runs.
