(* ===== verification/UnitDeps.v ===== *)
(** The graph of compilation units,
    [src/cargo/core/compiler/context/unit_dependencies.rs]. *)
From S2P Require Import Prelude Str Extern SourceId PackageId Features Target Cfg Dependency Summary Profiles Graph Resolve Package.

Local Open Scope string_scope.

Section model.
Context `{SV : SemverLib} `{UL : UrlLib} `{RS : RustStd}.

(** What is read of the [BuildContext]. *)
Record BuildContext := mkContext {
  bcx_resolve : Resolve;
  bcx_profiles : Profiles;
  ws_members : list Package;
  build_release : bool;
  build_mode : CompileMode;
  host_triple : string;
  target_triple : string;
  host_cfg : option (list Cfg);
  target_cfg : option (list Cfg);
}.
(** [Workspace::is_member], [BuildConfig::test] *)
Definition is_member (bcx : BuildContext) (pkg : Package) : bool := existsb (λ p, p ==? pkg) (ws_members bcx).
Definition config_test (m : CompileMode) : bool := bool_decide (m = MTest) || bool_decide (m = MBench).
(** [BuildContext::dep_platform_activated] *)
Definition dep_platform_activated (bcx : BuildContext) (d : Dependency) (k : PlatformKind) : bool :=
  match platform d with
  | None => true
  | Some p => match k with
              | KHost => platform_matches p (host_triple bcx) (host_cfg bcx)
              | KTarget => platform_matches p (target_triple bcx) (target_cfg bcx)
              end
  end.

(** [core::package::Downloads]: starting a download gives the package when it
    is there already; waiting gives one of those started. *)
Class DownloadLib := {
  Downloads : Type;
  dl_start : PackageId → Downloads → cresult (option Package) * Downloads;
  dl_wait : Downloads → cresult Package * Downloads;
  dl_remaining : Downloads → nat;
}.
Context `{DL : !DownloadLib} (bcx : BuildContext).

(** [struct State]; an error abandons it. *)
Record State := mkState {
  deps : hashmap CUnit (list CUnit);
  pkgs : hashmap PackageId Package;
  waiting_on_download : hashset PackageId;
  downloads : Downloads;
}.
Definition set_deps (st : State) d := mkState d (pkgs st) (waiting_on_download st) (downloads st).

(** [State::get] *)
Definition get (st : State) (id : PackageId) : cresult (option Package * State) :=
  match hget (pkgs st) id with
  | Some pkg => Ok (Some pkg, st)
  | None =>
      if hcontains (waiting_on_download st) id then Ok (None, st)
      else
        let '(r, d) := dl_start id (downloads st) in
        r ← r;
        match r with
        | Some pkg => Ok (Some pkg, mkState (deps st) (hinsert id pkg (pkgs st))
                                            (hremove id (hinsert id tt (waiting_on_download st))) d)
        | None => Ok (None, mkState (deps st) (pkgs st) (hinsert id tt (waiting_on_download st)) d)
        end
  end.

(** * Units *)

(** [check_or_build_mode] *)
Definition check_or_build_mode (mode : CompileMode) (target : Target) : CompileMode :=
  match mode with
  | MCheck _ | MDoc _ => if for_host target then MBuild else MCheck false
  | _ => MBuild
  end.
(** [new_unit] *)
Definition new_unit (pkg : Package) (target : Target) (unit_for : UnitFor) (kind : PlatformKind) (mode : CompileMode)
    : cresult CUnit :=
  profile ← get_profile (bcx_profiles bcx) (package_id pkg) (is_member bcx pkg) unit_for mode (build_release bcx);
  Ok (mkUnit pkg target profile kind mode).
(** [dep_build_script] *)
Definition dep_build_script (u : CUnit) : option (CUnit * UnitFor) :=
  t ← List.find is_custom_build (targets (unit_pkg u));
  Some (mkUnit (unit_pkg u) t (get_profile_run_custom_build (unit_profile u)) (unit_kind u) MRunCustomBuild, new_build).
(** [maybe_lib] *)
Definition maybe_lib (u : CUnit) (unit_for : UnitFor) : cresult (list (CUnit * UnitFor)) :=
  match List.find linkable (targets (unit_pkg u)) with
  | None => Ok []
  | Some t =>
      v ← new_unit (unit_pkg u) t unit_for (kind_for_target (unit_kind u) t) (check_or_build_mode (unit_mode u) t);
      Ok [(v, unit_for)]
  end.

(** A loop that adds dependencies. *)
Definition Found : Type := list (CUnit * UnitFor).
Fixpoint collect {A} (body : A → State → cresult (Found * State)) (l : list A) (st : State) : cresult (Found * State) :=
  match l with
  | [] => Ok ([], st)
  | x :: l =>
      '(a, st) ← body x st;
      '(b, st) ← collect body l st;
      Ok ((a ++ b)%list, st)
  end.

(** * Dependencies of a unit *)

(** [compute_deps], the closure of [any]. *)
Definition dep_applies (u : CUnit) (d : Dependency) : bool :=
  if negb (Bool.eqb (is_custom_build (unit_target u)) (is_build d)) then false
  else if negb (is_transitive d) && negb (is_test (unit_target u)) && negb (is_example (unit_target u)) &&
          negb (mode_is_any_test (unit_mode u)) then false
  else if negb (dep_platform_activated bcx d (unit_kind u)) then false
  else if optional d && negb (bool_decide (name_in_toml d ∈ features_of (bcx_resolve bcx) (package_id (unit_pkg u)))) then false
  else true.
(** [compute_deps], the body of the loop over packages. *)
Definition dep_lib (u : CUnit) (unit_for : UnitFor) (x : PackageId * list Dependency) (st : State) : cresult (Found * State) :=
  let '(id, ds) := x in
  if bool_decide (ds = []) then Panic "assertion failed: !deps.is_empty()"
  else if negb (existsb (dep_applies u) ds) then Ok ([], st)
  else
    '(pkg, st) ← get st id;
    match pkg with
    | None => Ok ([], st)
    | Some pkg =>
        match List.find is_lib (targets pkg) with
        | None => Ok ([], st)
        | Some lib =>
            let dep_unit_for := with_for_host unit_for (for_host lib) in
            v ← new_unit pkg lib dep_unit_for (kind_for_target (unit_kind u) lib) (check_or_build_mode (unit_mode u) lib);
            Ok ([(v, dep_unit_for)], st)
        end
    end.
(** The binaries an integration test may run. *)
Definition bin_selected (u : CUnit) (t : Target) : bool :=
  is_bin t &&
  forallb (λ f, bool_decide (f ∈ features_of (bcx_resolve bcx) (package_id (unit_pkg u)))) (default [] (required_features t)).
Definition test_bins (u : CUnit) : cresult Found :=
  foldM (λ l t, v ← new_unit (unit_pkg u) t new_normal (kind_for_target (unit_kind u) t) MBuild;
                Ok (l ++ [(v, new_normal)])%list) []
        (filter (λ t, bin_selected u t = true) (targets (unit_pkg u))).

(** [compute_deps_custom_build] *)
Definition compute_deps_custom_build (u : CUnit) : cresult Found :=
  v ← new_unit (unit_pkg u) (unit_target u) new_build KHost MBuild; Ok [(v, new_build)].

(** [compute_deps_doc] *)
Definition doc_lib (u : CUnit) (x : PackageId * list Dependency) (st : State) : cresult (Found * State) :=
  let '(id, ds) := x in
  if negb (existsb (λ d, bool_decide (dep_kind d = Normal) && dep_platform_activated bcx d (unit_kind u)) ds)
  then Ok ([], st)
  else
    '(pkg, st) ← get st id;
    match pkg with
    | None => Ok ([], st)
    | Some pkg =>
        match List.find is_lib (targets pkg) with
        | None => Ok ([], st)
        | Some lib =>
            let dep_unit_for := with_for_host new_normal (for_host lib) in
            let kind := kind_for_target (unit_kind u) lib in
            v ← new_unit pkg lib dep_unit_for kind (check_or_build_mode (unit_mode u) lib);
            match unit_mode u with
            | MDoc true => w ← new_unit pkg lib dep_unit_for kind (unit_mode u);
                           Ok ([(v, dep_unit_for); (w, dep_unit_for)], st)
            | _ => Ok ([(v, dep_unit_for)], st)
            end
        end
    end.
Definition compute_deps_doc (u : CUnit) (st : State) : cresult (Found * State) :=
  '(ret, st) ← collect (doc_lib u) (Resolve.deps (bcx_resolve bcx) (package_id (unit_pkg u))) st;
  let ret := (ret ++ option_list (dep_build_script u))%list in
  if is_bin (unit_target u) then l ← maybe_lib u new_normal; Ok ((ret ++ l)%list, st) else Ok (ret, st).

(** [compute_deps] *)
Definition compute_deps (u : CUnit) (unit_for : UnitFor) (st : State) : cresult (Found * State) :=
  if mode_is_run_custom_build (unit_mode u) then l ← compute_deps_custom_build u; Ok (l, st)
  else if mode_is_doc (unit_mode u) && negb (mode_is_any_test (unit_mode u)) then compute_deps_doc u st
  else
    '(ret, st) ← collect (dep_lib u unit_for) (Resolve.deps (bcx_resolve bcx) (package_id (unit_pkg u))) st;
    if is_custom_build (unit_target u) then Ok (ret, st)
    else
      let ret := (ret ++ option_list (dep_build_script u))%list in
      if is_lib (unit_target u) && negb (bool_decide (unit_mode u = MDoctest)) then Ok (ret, st)
      else
        l ← maybe_lib u unit_for;
        let ret := (ret ++ l)%list in
        if negb (mode_is_check (unit_mode u)) && mode_is_any_test (unit_mode u) &&
           (is_test (unit_target u) || is_bench (unit_target u))
        then b ← test_bins u; Ok ((ret ++ b)%list, st)
        else Ok (ret, st).

(** * The graph *)
Fixpoint deps_all (visit : CUnit → UnitFor → State → option (cresult State)) (l : Found) (st : State)
    : option (cresult State) :=
  match l with
  | [] => Some (Ok st)
  | (u, unit_for) :: l => let* st := visit u unit_for st in deps_all visit l st
  end.
(** [deps_of] *)
Fixpoint deps_of (fuel : nat) (u : CUnit) (unit_for : UnitFor) (st : State) : option (cresult State) :=
  if hcontains (deps st) u then Some (Ok st)
  else
    match fuel with
    | O => None
    | S fuel =>
        let* x := Some (compute_deps u unit_for st) in
        let '(unit_deps, st) := (x : Found * State) in
        deps_all (deps_of fuel) unit_deps (set_deps st (hinsert u unit_deps.*1 (deps st)))
    end.

(** [connect_run_custom_build_deps] *)
Definition is_run (u : CUnit) : bool := bool_decide (unit_mode u = MRunCustomBuild).
Definition add_parents (rev : hashmap CUnit (hashset CUnit)) (x : CUnit * list CUnit) : hashmap CUnit (hashset CUnit) :=
  foldl (λ rev d, if is_run d then hupdate (hinsert x.1 tt) d (hor_insert d ∅ rev) else rev) rev x.2.
Definition reverse_deps (st : State) : hashmap CUnit (hashset CUnit) := foldl add_parents ∅ (hiter (deps st)).
Definition script_of (u other : CUnit) : option CUnit :=
  if negb (unit_pkg other ==? unit_pkg u) && linkable (unit_target other) &&
     bool_decide (is_Some (links (unit_pkg other)))
  then fst <$> dep_build_script other else None.
Definition index_deps (st : State) (u : CUnit) : cresult (list CUnit) :=
  match hget (deps st) u with Some l => Ok l | None => Panic "no entry found for key" end.
Definition scripts_to_add (st : State) (rev : hashmap CUnit (hashset CUnit)) (u : CUnit) : cresult (hashset CUnit) :=
  match hget rev u with
  | None => Ok ∅
  | Some parents =>
      others ← foldM (λ l p, d ← index_deps st p; Ok (l ++ d)%list) [] (hkeys parents);
      Ok (foldl (λ s v, hinsert v tt s) ∅ (omap (script_of u) others))
  end.
Definition connect_run_custom_build_deps (st : State) : cresult State :=
  let rev := reverse_deps st in
  new_deps ← foldM (λ l u, s ← scripts_to_add st rev u;
                           Ok (if bool_decide (hkeys s = []) then l else (l ++ [(u, s)])%list)) []
                   (filter (λ u, is_run u = true) (hkeys (deps st)));
  d ← foldM (λ d us, match hget d us.1 with
                     | Some l => Ok (hinsert us.1 (l ++ hkeys us.2)%list d)
                     | None => Panic "called `Option::unwrap()` on a `None` value"
                     end) (deps st) new_deps;
  Ok (set_deps st d).

(** The purpose of a unit the user asked for. *)
Definition root_unit_for (u : CUnit) : UnitFor :=
  if mode_is_any_test (unit_mode u) || config_test (build_mode bcx) then new_test
  else if is_custom_build (unit_target u) then new_build
  else if for_host (unit_target u) then new_compiler
  else new_normal.
Fixpoint visit_roots (fuel : nat) (roots : list CUnit) (st : State) : option (cresult State) :=
  match roots with
  | [] => Some (Ok st)
  | u :: roots =>
      let* x := Some (get st (package_id (unit_pkg u))) in
      let* st := deps_of fuel u (root_unit_for u) (x : option Package * State).2 in
      visit_roots fuel roots st
  end.
(** [State::finish_some_downloads] *)
Fixpoint wait_some (fuel : nat) (st : State) : option (cresult State) :=
  match fuel with
  | O => None
  | S fuel =>
      let '(r, d) := dl_wait (downloads st) in
      let* pkg := Some r in
      let st := mkState (deps st) (hinsert (package_id pkg) pkg (pkgs st))
                        (hremove (package_id pkg) (waiting_on_download st)) d in
      if (dl_remaining d <? 5)%nat then Some (Ok st) else wait_some fuel st
  end.
Definition finish_some_downloads (fuel : nat) (st : State) : option (cresult State) :=
  if (0 <? dl_remaining (downloads st))%nat then wait_some fuel st
  else Some (Panic "assertion failed: self.downloads.remaining() > 0").
(** [build_unit_dependencies]: a pass over the roots, repeated after some
    downloads while packages are missing. *)
Fixpoint passes (depth waits rounds : nat) (roots : list CUnit) (st : State) : option (cresult State) :=
  match rounds with
  | O => None
  | S rounds =>
      let* st := visit_roots depth roots st in
      if bool_decide (hkeys (waiting_on_download st) = []) then Some (Ok st)
      else
        let* st := finish_some_downloads waits st in
        passes depth waits rounds roots (set_deps st ∅)
  end.
Definition build_unit_dependencies (depth waits rounds : nat) (roots : list CUnit)
    (pkgs : hashmap PackageId Package) (d : Downloads) : option (cresult State) :=
  let* st := passes depth waits rounds roots (mkState ∅ pkgs ∅ d) in
  Some (connect_run_custom_build_deps st).
End model.
