(* ===== verification/UnitGraph.v ===== *)
(** The unit graph is built in finitely many steps, whatever is downloaded on
    the way, and is complete: what a unit depends on is in it. *)
From S2P Require Import Prelude Str Extern SourceId PackageId Features Target Cfg Dependency Summary Profiles Graph Resolve Package UnitDeps.

Section graph.
Context `{SV : SemverLib} `{UL : UrlLib} `{RS : RustStd} `{DL : !DownloadLib} (bcx : BuildContext).
Local Arguments hinsert : simpl never.
Local Arguments hremove : simpl never.
Local Arguments hdom : simpl never.

(** What the code relies on of downloads: [pending] are those that were started
    and not yet waited for; [ps] are the packages there are. *)
Record downloads_ok (ps : list Package) (pending : Downloads → gset (hkey PackageId)) : Prop := {
  start_spec : ∀ id d, match dl_start id d with
    | (Ok (Some p), d') => p ∈ ps ∧ to_key (package_id p) = to_key id ∧ pending d' = pending d
    | (Ok None, d') => to_key id ∈ to_key <$> (package_id <$> ps) ∧ pending d' = {[to_key id]} ∪ pending d
    | _ => True
    end;
  wait_spec : ∀ d, pending d ≠ ∅ → match dl_wait d with
    | (Ok p, d') => p ∈ ps ∧ to_key (package_id p) ∈ pending d ∧ pending d' = pending d ∖ {[to_key (package_id p)]}
    | _ => True
    end;
  remaining_spec : ∀ d, dl_remaining d = size (pending d);
}.
Context (ps : list Package) (pending : Downloads → gset (hkey PackageId)) (Hdl : downloads_ok ps pending).
Context (roots : list CUnit).
(** A target of a package; a build script is run as such. *)
Definition root_wf (u : CUnit) : Prop :=
  unit_pkg u ∈ ps ∧ unit_target u ∈ targets (unit_pkg u) ∧ (is_run u = true → is_custom_build (unit_target u) = true).
Context (Hroots : ∀ u, u ∈ roots → root_wf u).

(** * The units that can occur *)
Definition all_unit_for : list UnitFor := [mkUnitFor true true; mkUnitFor true false; mkUnitFor false true; mkUnitFor false false].
Definition profiles_made : list Profile :=
  p ← ps; uf ← all_unit_for; m ← all_modes;
  match get_profile (bcx_profiles bcx) (package_id p) (is_member bcx p) uf m (build_release bcx) with
  | Ok prof => [prof]
  | _ => []
  end.
Definition base_profiles : list Profile := (unit_profile <$> roots) ++ profiles_made.
Definition unit_profiles : list Profile := base_profiles ++ (get_profile_run_custom_build <$> base_profiles).
Definition units : list CUnit :=
  p ← ps; t ← targets p; prof ← unit_profiles; k ← [KHost; KTarget]; m ← all_modes; [mkUnit p t prof k m].
Definition universe : gset (hkey CUnit) := list_to_set (to_key <$> units).

Definition unit_ok (u : CUnit) : Prop := root_wf u ∧ unit_profile u ∈ unit_profiles.

Lemma elem_of_all_modes m : m ∈ all_modes.
Proof. apply (bool_decide_unpack (m ∈ all_modes)). by destruct m as [| |[]| |[]| |]. Qed.
Lemma elem_of_all_unit_for uf : uf ∈ all_unit_for.
Proof. apply (bool_decide_unpack (uf ∈ all_unit_for)). by destruct uf as [[] []]. Qed.

Lemma unit_ok_universe u : unit_ok u → to_key u ∈ universe.
Proof.
  intros ((Hp & Ht & _) & Hprof). apply elem_of_list_to_set, list_elem_of_fmap. exists u. split; [done|].
  unfold units. apply list_elem_of_bind. exists (unit_pkg u). split; [|done].
  apply list_elem_of_bind. exists (unit_target u). split; [|done].
  apply list_elem_of_bind. exists (unit_profile u). split; [|done].
  apply list_elem_of_bind. exists (unit_kind u). split; [|destruct (unit_kind u); set_solver].
  apply list_elem_of_bind. exists (unit_mode u). split; [|apply elem_of_all_modes].
  apply list_elem_of_singleton. by destruct u.
Qed.

Lemma root_ok u : u ∈ roots → unit_ok u.
Proof.
  intros Hu. split; [by apply Hroots|].
  apply elem_of_app. left. apply elem_of_app. left. apply list_elem_of_fmap. by exists u.
Qed.

Lemma new_unit_ok p t uf k m v :
  p ∈ ps → t ∈ targets p → m ≠ MRunCustomBuild → new_unit bcx p t uf k m = Ok v →
  unit_ok v ∧ v = mkUnit p t (unit_profile v) k m.
Proof.
  intros Hp Ht Hm (prof & Hprof & [= <-])%bind_Ok_inv. split; [|done]. split.
  { split_and!; [done..|]. unfold is_run. simpl. by rewrite bool_decide_eq_false_2. }
  simpl.
  apply elem_of_app. left. apply elem_of_app. right. apply list_elem_of_bind. exists p. split; [|done].
  apply list_elem_of_bind. exists uf. split; [|apply elem_of_all_unit_for].
  apply list_elem_of_bind. exists m. split; [|apply elem_of_all_modes]. rewrite Hprof. by apply list_elem_of_singleton.
Qed.

Lemma check_or_build_mode_not_run m t : check_or_build_mode m t ≠ MRunCustomBuild.
Proof. unfold check_or_build_mode. destruct m; by destruct (for_host t). Qed.

Lemma run_profile_ok prof : prof ∈ unit_profiles → get_profile_run_custom_build prof ∈ unit_profiles.
Proof.
  intros [H|H]%elem_of_app; apply elem_of_app; right; apply list_elem_of_fmap.
  - by exists prof.
  - apply list_elem_of_fmap in H as (p & -> & Hp). by exists p.
Qed.

Lemma find_elem {A} (f : A → bool) l x : List.find f l = Some x → x ∈ l ∧ f x = true.
Proof. intros [H1 H2]%find_some. by rewrite list_elem_of_In. Qed.

Lemma build_script_ok u v uf : unit_ok u → dep_build_script u = Some (v, uf) → unit_ok v ∧ is_run v = true.
Proof.
  intros ((Hp & Ht & _) & Hprof) H. unfold dep_build_script in H.
  destruct (List.find _ _) as [t|] eqn:Hf; [|discriminate H]. injection H as <- <-. apply find_elem in Hf as [Hf Hc].
  split; [|done]. split; [by split_and!|by apply run_profile_ok].
Qed.

Lemma maybe_lib_ok u uf l : unit_ok u → maybe_lib bcx u uf = Ok l → ∀ v, v ∈ l.*1 → unit_ok v.
Proof.
  intros ((Hp & Ht & _) & _) H v Hv. unfold maybe_lib in H. destruct (List.find _ _) as [t|] eqn:Hf.
  - apply bind_Ok_inv in H as (w & Hw & [= <-]). apply list_elem_of_singleton in Hv as ->.
    apply find_elem in Hf as [Hf _]. by apply new_unit_ok in Hw as [? _]; [..|apply check_or_build_mode_not_run].
  - injection H as <-. destruct (not_elem_of_nil _ Hv).
Qed.

Lemma test_bins_ok u l : unit_ok u → test_bins bcx u = Ok l → ∀ v, v ∈ l.*1 → unit_ok v.
Proof.
  intros ((Hp & Ht & _) & _). unfold test_bins.
  apply (foldM_inv _ (λ l, ∀ v, v ∈ l.*1 → unit_ok v)).
  - intros b t b' [_ Hin]%list_elem_of_filter Hb H v Hv. apply bind_Ok_inv in H as (w & Hw & [= <-]).
    rewrite fmap_app in Hv. apply elem_of_app in Hv as [Hv|Hv]; [by apply Hb|].
    apply list_elem_of_singleton in Hv as ->. by apply new_unit_ok in Hw as [? _].
  - intros v Hv. destruct (not_elem_of_nil _ Hv).
Qed.

(** * Packages and downloads *)
Record state_ok (st : State) : Prop := {
  st_pkgs : ∀ i k p, pkgs st !! i = Some (k, p) → p ∈ ps ∧ to_key (package_id p) = i;
  st_waiting : hdom (waiting_on_download st) = pending (downloads st);
  st_waiting_ids : hdom (waiting_on_download st) ⊆ list_to_set (to_key <$> (package_id <$> ps));
  st_missing : hdom (waiting_on_download st) ## hdom (pkgs st);
}.
(** Nothing is lost between two states. *)
Definition keeps_state (st st' : State) : Prop :=
  deps st' = deps st ∧ hdom (pkgs st) ⊆ hdom (pkgs st').

Lemma get_ok st id o st' :
  state_ok st → get st id = Ok (o, st') →
  state_ok st' ∧ keeps_state st st' ∧ (∀ p, o = Some p → p ∈ ps).
Proof.
  intros Hst. unfold get. destruct (hget (pkgs st) id) as [p|] eqn:Hp.
  { intros [= <- <-]. apply hget_Some_inv in Hp as [k Hp]. split_and!; [done|done|].
    intros p' [= <-]. by apply (st_pkgs _ Hst _ _ _ Hp). }
  rewrite hcontains_hdom. case_bool_decide as Hw.
  { intros [= <- <-]. by split_and!. }
  pose proof (start_spec _ _ Hdl id (downloads st)) as Hs. destruct (dl_start id (downloads st)) as [r d].
  assert (Hid : to_key id ∉ hdom (pkgs st)).
  { rewrite <-hget_hdom, Hp. by intros [? ?]. }
  destruct r as [[p|]|e|m]; simpl; [| |discriminate..]; intros [= <- <-].
  - destruct Hs as (H1 & H2 & H3). destruct Hst as [S1 S2 S3 S4]. split_and!.
    + split; simpl.
      * intros i k q. unfold hinsert. destruct (pkgs st !! to_key id) as [[k0 ?]|]; rewrite lookup_insert;
          case_decide as Hi; [subst i; by intros [= <- <-]|apply S1|subst i; by intros [= <- <-]|apply S1].
      * rewrite hdom_hremove, hdom_hinsert, H3, S2. rewrite S2 in Hw. set_solver.
      * rewrite hdom_hremove, hdom_hinsert. set_solver.
      * rewrite hdom_hremove, !hdom_hinsert. set_solver.
    + split; simpl; [done|]. rewrite hdom_hinsert. set_solver.
    + by intros q [= <-].
  - destruct Hs as (H1 & H2). destruct Hst as [S1 S2 S3 S4]. split_and!; [|done|done].
    split; simpl; [done|by rewrite hdom_hinsert, S2, H2| |].
    + rewrite hdom_hinsert. apply union_subseteq. split; [|done]. apply singleton_subseteq_l.
      by apply elem_of_list_to_set.
    + rewrite hdom_hinsert. set_solver.
Qed.

#[global] Instance keeps_state_preorder : PreOrder keeps_state.
Proof.
  split; [by intros st|]. intros a b c [H1 H2] [K1 K2]. split; [congruence|by etransitivity].
Qed.

Lemma collect_ok {A} (body : A → State → cresult (Found * State)) l st out st' :
  (∀ x st out st', x ∈ l → state_ok st → body x st = Ok (out, st') →
     state_ok st' ∧ keeps_state st st' ∧ ∀ v, v ∈ out.*1 → unit_ok v) →
  state_ok st → collect body l st = Ok (out, st') →
  state_ok st' ∧ keeps_state st st' ∧ ∀ v, v ∈ out.*1 → unit_ok v.
Proof.
  intros Hbody. revert st out. induction l as [|x l IH]; intros st out Hst H; simpl in H.
  { injection H as <- <-. split_and!; [done|done|]. intros v Hv. destruct (not_elem_of_nil _ Hv). }
  apply bind_Ok_inv in H as ([a st1] & Ha & H). apply bind_Ok_inv in H as ([b st2] & Hb & [= <- <-]).
  destruct (Hbody _ _ _ _ ltac:(constructor) Hst Ha) as (H1 & H2 & H3).
  destruct (IH (λ y s o s' Hy, Hbody y s o s' (list_elem_of_further _ _ _ Hy)) st1 b H1 Hb) as (H4 & H5 & H6).
  split_and!; [done|by etransitivity|]. intros v Hv. rewrite fmap_app in Hv.
  apply elem_of_app in Hv as [Hv|Hv]; [by apply H3|by apply H6].
Qed.

Lemma lib_unit_ok u pkg lib uf m v :
  pkg ∈ ps → List.find is_lib (targets pkg) = Some lib → m ≠ MRunCustomBuild →
  new_unit bcx pkg lib uf (kind_for_target (unit_kind u) lib) m = Ok v → unit_ok v.
Proof. intros Hp [Hin _]%find_elem Hm H. by apply new_unit_ok in H as [? _]. Qed.

Lemma dep_lib_ok u uf x st out st' :
  state_ok st → dep_lib bcx u uf x st = Ok (out, st') →
  state_ok st' ∧ keeps_state st st' ∧ ∀ v, v ∈ out.*1 → unit_ok v.
Proof.
  intros Hst H. unfold dep_lib in H. destruct x as [id ds]. case_bool_decide; [discriminate H|].
  assert (Hnone : ∀ v : CUnit, v ∈ ([] : Found).*1 → unit_ok v) by (intros v Hv; destruct (not_elem_of_nil _ Hv)).
  destruct (negb _); [injection H as <- <-; by split_and!|].
  apply bind_Ok_inv in H as ([o st1] & Hg & H). destruct (get_ok _ _ _ _ Hst Hg) as (H1 & H2 & H3).
  destruct o as [pkg|]; [|injection H as <- <-; by split_and!].
  destruct (List.find is_lib (targets pkg)) as [lib|] eqn:Hf; [|injection H as <- <-; by split_and!].
  apply bind_Ok_inv in H as (v & Hv & [= <- <-]). split_and!; [done|done|].
  intros w ->%list_elem_of_singleton. by apply (lib_unit_ok _ _ _ _ _ _ (H3 _ eq_refl) Hf (check_or_build_mode_not_run _ _) Hv).
Qed.

Lemma doc_lib_ok u x st out st' :
  state_ok st → doc_lib bcx u x st = Ok (out, st') →
  state_ok st' ∧ keeps_state st st' ∧ ∀ v, v ∈ out.*1 → unit_ok v.
Proof.
  intros Hst H. unfold doc_lib in H. destruct x as [id ds].
  assert (Hnone : ∀ v : CUnit, v ∈ ([] : Found).*1 → unit_ok v) by (intros v Hv; destruct (not_elem_of_nil _ Hv)).
  destruct (negb _); [injection H as <- <-; by split_and!|].
  apply bind_Ok_inv in H as ([o st1] & Hg & H). destruct (get_ok _ _ _ _ Hst Hg) as (H1 & H2 & H3).
  destruct o as [pkg|]; [|injection H as <- <-; by split_and!].
  destruct (List.find is_lib (targets pkg)) as [lib|] eqn:Hf; [|injection H as <- <-; by split_and!].
  apply bind_Ok_inv in H as (v & Hv & H). pose proof (lib_unit_ok _ _ _ _ _ _ (H3 _ eq_refl) Hf (check_or_build_mode_not_run _ _) Hv) as Hvok.
  assert (Hone : ∀ w : CUnit, w ∈ ([(v, with_for_host new_normal (for_host lib))] : Found).*1 → unit_ok w).
  { by intros w ->%list_elem_of_singleton. }
  destruct (unit_mode u) as [| | | |[]| |]; try (injection H as <- <-; by split_and!).
  apply bind_Ok_inv in H as (w & Hw & [= <- <-]). split_and!; [done|done|].
  intros x [-> |Hx]%elem_of_cons; [done|]. apply list_elem_of_singleton in Hx as ->.
  apply (lib_unit_ok u _ _ _ _ _ (H3 _ eq_refl) Hf) in Hw; [exact Hw|discriminate].
Qed.

Lemma script_list_ok u : unit_ok u → ∀ v, v ∈ (option_list (dep_build_script u)).*1 → unit_ok v.
Proof.
  intros Hu v Hv. destruct (dep_build_script u) as [[w uf]|] eqn:Hs; [|destruct (not_elem_of_nil _ Hv)].
  apply list_elem_of_singleton in Hv as ->. by apply (build_script_ok _ _ _ Hu Hs).
Qed.

Lemma found_app (a b : Found) (P : CUnit → Prop) :
  (∀ v, v ∈ a.*1 → P v) → (∀ v, v ∈ b.*1 → P v) → ∀ v, v ∈ (a ++ b).*1 → P v.
Proof. intros Ha Hb v Hv. rewrite fmap_app in Hv. apply elem_of_app in Hv as [?|?]; auto. Qed.

Lemma compute_deps_ok u uf st out st' :
  unit_ok u → state_ok st → compute_deps bcx u uf st = Ok (out, st') →
  state_ok st' ∧ keeps_state st st' ∧ ∀ v, v ∈ out.*1 → unit_ok v.
Proof.
  intros Hu Hst H. unfold compute_deps in H. destruct (mode_is_run_custom_build _).
  { apply bind_Ok_inv in H as (l & Hl & [= <- <-]). split_and!; [done|done|].
    apply bind_Ok_inv in Hl as (w & Hw & [= <-]). intros v ->%list_elem_of_singleton.
    destruct Hu as ((Hp & Ht & _) & _). by apply new_unit_ok in Hw as [? _]. }
  destruct (mode_is_doc _ && _).
  { apply bind_Ok_inv in H as ([ret st1] & Hc & H).
    destruct (collect_ok (doc_lib bcx u) _ _ _ _ (λ x s o s' _, doc_lib_ok u x s o s') Hst Hc) as (H1 & H2 & H3).
    pose proof (found_app _ _ _ H3 (script_list_ok u Hu)) as H4. destruct (is_bin _).
    - apply bind_Ok_inv in H as (l & Hl & [= <- <-]). split_and!; [done|done|].
      apply found_app; [done|]. by apply (maybe_lib_ok _ _ _ Hu Hl).
    - injection H as <- <-. by split_and!. }
  apply bind_Ok_inv in H as ([ret st1] & Hc & H).
  destruct (collect_ok (dep_lib bcx u uf) _ _ _ _ (λ x s o s' _, dep_lib_ok u uf x s o s') Hst Hc) as (H1 & H2 & H3).
  destruct (is_custom_build _); [injection H as <- <-; by split_and!|].
  pose proof (found_app _ _ _ H3 (script_list_ok u Hu)) as H4.
  destruct (is_lib _ && _); [injection H as <- <-; by split_and!|].
  apply bind_Ok_inv in H as (l & Hl & H).
  pose proof (found_app _ _ _ H4 (maybe_lib_ok _ _ _ Hu Hl)) as H5.
  destruct (negb _ && _ && _); [|injection H as <- <-; by split_and!].
  apply bind_Ok_inv in H as (b & Hb & [= <- <-]). split_and!; [done|done|].
  apply found_app; [done|]. by apply (test_bins_ok _ _ Hu Hb).
Qed.

(** * The recursion *)

(** An entry of the graph: the unit's computed dependencies, all entered. *)
Definition entry_ok (d : hashmap CUnit (list CUnit)) (u : CUnit) (l : list CUnit) : Prop :=
  (∀ v, v ∈ l → to_key v ∈ hdom d) ∧
  (∀ v, v ∈ l → unit_ok v) ∧ unit_ok u ∧
  ∃ uf st0 st1 found, compute_deps bcx u uf st0 = Ok (found, st1) ∧ l = found.*1.
(** The graph grows by entries that are complete. *)
Definition grows_ok (d d' : hashmap CUnit (list CUnit)) : Prop :=
  (∀ i u l, d !! i = Some (u, l) → d' !! i = Some (u, l)) ∧
  ∀ i u l, d' !! i = Some (u, l) → d !! i = Some (u, l) ∨ (to_key u = i ∧ entry_ok d' u l).

Lemma grows_dom d d' : grows_ok d d' → hdom d ⊆ hdom d'.
Proof.
  intros [H _] i Hi. unfold hdom in *. apply elem_of_dom in Hi as [[u l] Hi].
  apply elem_of_dom. exists (u, l). by apply H.
Qed.

Lemma entry_ok_mono d d' u l : hdom d ⊆ hdom d' → entry_ok d u l → entry_ok d' u l.
Proof. intros H [H1 H2]. split; [|done]. intros v Hv. by apply H, H1. Qed.

Lemma grows_ok_trans d1 d2 d3 : grows_ok d1 d2 → grows_ok d2 d3 → grows_ok d1 d3.
Proof.
  intros [H1 H2] H3. pose proof (grows_dom _ _ H3) as Hdom. destruct H3 as [H3 H4]. split.
  - intros i u l H. by apply H3, H1.
  - intros i u l [H|H]%H4; [|by right]. apply H2 in H as [H|[Hk He]]; [by left|right].
    split; [done|]. by apply (entry_ok_mono d2).
Qed.

Lemma grows_ok_refl d : grows_ok d d.
Proof. split; [done|]. intros i u l H. by left. Qed.

Definition left (st : State) : nat := size (universe ∖ hdom (deps st)).

Definition returns_ok (st : State) (us : list CUnit) (r : option (cresult State)) : Prop :=
  ∃ res, r = Some res ∧ ∀ st', res = Ok st' →
    state_ok st' ∧ hdom (pkgs st) ⊆ hdom (pkgs st') ∧ grows_ok (deps st) (deps st') ∧
    ∀ u, u ∈ us → to_key u ∈ hdom (deps st').

Lemma deps_all_ok visit l st n :
  (∀ u uf st, unit_ok u → state_ok st → (left st ≤ n)%nat → returns_ok st [u] (visit u uf st)) →
  state_ok st → (left st ≤ n)%nat → (∀ v, v ∈ l.*1 → unit_ok v) →
  returns_ok st l.*1 (deps_all visit l st).
Proof.
  intros Hvisit. revert st. induction l as [|[u uf] l IH]; intros st Hst Hn Hl; cbn [deps_all].
  { eexists. split; [done|]. intros st' [= <-]. split_and!; [done|done|apply grows_ok_refl|].
    intros u Hu. destruct (not_elem_of_nil _ Hu). }
  destruct (Hvisit u uf st (Hl u ltac:(constructor)) Hst Hn) as (res & -> & Hres).
  destruct res as [st1|e|m]; simpl; [|by eexists..].
  destruct (Hres st1 eq_refl) as (H1 & H2 & H3 & H4).
  assert (Hn1 : (left st1 ≤ n)%nat).
  { etransitivity; [|exact Hn]. apply size_left_mono, grows_dom, H3. }
  destruct (IH st1 H1 Hn1 (λ v Hv, Hl v (list_elem_of_further _ _ _ Hv))) as (res & -> & Hres').
  exists res. split; [done|]. intros st' ->. destruct (Hres' st' eq_refl) as (H5 & H6 & H7 & H8).
  split_and!; [done|by etransitivity|by eapply grows_ok_trans|].
  intros v [-> |Hv]%elem_of_cons; [|by apply H8]. apply (grows_dom _ _ H7). apply H4. constructor.
Qed.

Lemma none_left u st : unit_ok u → left st = 0 → to_key u ∈ hdom (deps st).
Proof.
  intros Hu H. unfold left in H. destruct (decide (to_key u ∈ hdom (deps st))) as [|Hn]; [done|exfalso].
  apply size_empty_iff in H. apply (not_elem_of_empty (C:=keyset CUnit) (to_key u)), H, elem_of_difference. split; [by apply unit_ok_universe|done].
Qed.

Lemma deps_of_ok fuel u uf st :
  unit_ok u → state_ok st → (left st ≤ fuel)%nat → returns_ok st [u] (deps_of bcx fuel u uf st).
Proof.
  revert u uf st. induction fuel as [|fuel IH]; intros u uf st Hu Hst Hn; cbn [deps_of].
  - rewrite hcontains_hdom, bool_decide_eq_true_2 by (apply none_left; [done|lia]).
    eexists. split; [done|]. intros st' [= <-]. split_and!; [done|done|apply grows_ok_refl|].
    intros v ->%list_elem_of_singleton. apply none_left; [done|lia].
  - rewrite hcontains_hdom. case_bool_decide as Hin.
    { eexists. split; [done|]. intros st' [= <-]. split_and!; [done|done|apply grows_ok_refl|].
      by intros v ->%list_elem_of_singleton. }
    destruct (compute_deps bcx u uf st) as [[found st1]|e|m] eqn:Hc; simpl; [|by eexists..].
    destruct (compute_deps_ok _ _ _ _ _ Hu Hst Hc) as (H1 & [H2 H2'] & H3).
    set (st2 := set_deps st1 (hinsert u found.*1 (deps st1))).
    assert (Hst2 : state_ok st2) by (by destruct H1).
    assert (Hdom2 : hdom (deps st2) = {[to_key u]} ∪ hdom (deps st)) by (simpl; by rewrite hdom_hinsert, H2).
    assert (Hn2 : (left st2 ≤ fuel)%nat).
    { unfold left in *. rewrite Hdom2. pose proof (size_left_mark universe (hdom (deps st)) (to_key u)
        (unit_ok_universe u Hu) Hin). lia. }
    destruct (deps_all_ok (deps_of bcx fuel) found st2 fuel IH Hst2 Hn2 H3) as (res & -> & Hres).
    exists res. split; [done|]. intros st' ->. destruct (Hres st' eq_refl) as (H4 & H5 & H6 & H7).
    assert (Hnone : deps st !! to_key u = None) by (by apply not_elem_of_dom).
    assert (Hlook : deps st2 !! to_key u = Some (u, found.*1)).
    { simpl. unfold hinsert. by rewrite H2, Hnone, lookup_insert_eq. }
    split_and!; [done|by etransitivity| |].
    + destruct H6 as [G1 G2]. split.
      * intros i v l Hi. apply G1. simpl. unfold hinsert. rewrite H2, Hnone. rewrite lookup_insert_ne; [done|]. congruence.
      * intros i v l Hi. destruct (G2 i v l Hi) as [Hi2|?]; [|by right]. simpl in Hi2. unfold hinsert in Hi2.
        rewrite H2, Hnone in Hi2. apply lookup_insert_Some in Hi2 as [[<- [= <- <-]]|[_ Hi2]]; [right|by left].
        split; [done|]. split; [done|]. split_and!; [done..|]. by exists uf, st, st1, found.
    + intros v ->%list_elem_of_singleton. unfold hdom. apply elem_of_dom. exists (u, found.*1). by apply H6.
Qed.

(** * Passes over the roots *)
Definition ids : gset (hkey PackageId) := list_to_set (to_key <$> (package_id <$> ps)).
Definition missing (st : State) : nat := size (ids ∖ hdom (pkgs st)).

Lemma visit_roots_ok fuel l st :
  (∀ u, u ∈ l → u ∈ roots) → state_ok st → (left st ≤ fuel)%nat → returns_ok st l (visit_roots bcx fuel l st).
Proof.
  revert st. induction l as [|u l IH]; intros st Hl Hst Hn; cbn [visit_roots].
  { eexists. split; [done|]. intros st' [= <-]. split_and!; [done|done|apply grows_ok_refl|].
    intros u Hu. destruct (not_elem_of_nil _ Hu). }
  destruct (get st (package_id (unit_pkg u))) as [[o st1]|e|m] eqn:Hg; cbn [fbind]; [|by eexists..].
  destruct (get_ok _ _ _ _ Hst Hg) as (H1 & [H2 H2'] & _). cbn [snd].
  assert (Hn1 : (left st1 ≤ fuel)%nat) by (unfold left in *; by rewrite H2).
  destruct (deps_of_ok fuel u (root_unit_for bcx u) st1 (root_ok u (Hl u ltac:(constructor))) H1 Hn1) as (res & -> & Hres).
  destruct res as [st2|e|m]; cbn [fbind]; [|by eexists..].
  destruct (Hres st2 eq_refl) as (H3 & H4 & H5 & H6).
  assert (Hn2 : (left st2 ≤ fuel)%nat).
  { etransitivity; [|exact Hn1]. apply size_left_mono, grows_dom, H5. }
  destruct (IH st2 (λ v Hv, Hl v (list_elem_of_further _ _ _ Hv)) H3 Hn2) as (res & -> & Hres').
  exists res. split; [done|]. intros st' ->. destruct (Hres' st' eq_refl) as (K1 & K2 & K3 & K4).
  rewrite H2 in H5. split_and!; [done|by do 2 (etransitivity; [|done])|by eapply grows_ok_trans|].
  intros v [-> |Hv]%elem_of_cons; [|by apply K4]. apply (grows_dom _ _ K3). apply H6. constructor.
Qed.

(** Waiting brings in at least one package. *)
Definition waited (st st' : State) : Prop :=
  state_ok st' ∧ deps st' = deps st ∧ (S (missing st') ≤ missing st)%nat.

Lemma wait_some_ok fuel st :
  state_ok st → pending (downloads st) ≠ ∅ → (size (pending (downloads st)) ≤ fuel)%nat →
  ∃ res, wait_some fuel st = Some res ∧ ∀ st', res = Ok st' → waited st st'.
Proof.
  revert st. induction fuel as [|fuel IH]; intros st Hst Hp Hn.
  { exfalso. apply Hp. apply leibniz_equiv, size_empty_iff. lia. }
  cbn [wait_some]. pose proof (wait_spec _ _ Hdl (downloads st) Hp) as Hw.
  destruct (dl_wait (downloads st)) as [[pkg|e|m] d]; cbn [fbind]; [|by eexists..].
  destruct Hw as (Hin & Hpend & Hd). destruct Hst as [S1 S2 S3 S4].
  set (st1 := mkState _ _ _ _).
  assert (Hst1 : state_ok st1).
  { split; cbn.
    - intros i k q. unfold hinsert. destruct (pkgs st !! to_key (package_id pkg)) as [[k0 ?]|]; rewrite lookup_insert;
        case_decide as Hi; [subst i; by intros [= <- <-]|apply S1|subst i; by intros [= <- <-]|apply S1].
    - by rewrite hdom_hremove, S2, Hd.
    - rewrite hdom_hremove. set_solver.
    - rewrite hdom_hremove, hdom_hinsert. set_solver. }
  assert (Hmiss : (S (missing st1) ≤ missing st)%nat).
  { unfold missing. cbn. rewrite hdom_hinsert. apply size_left_mark; [|set_solver].
    apply elem_of_list_to_set, list_elem_of_fmap. exists (package_id pkg). split; [done|]. apply list_elem_of_fmap. by exists pkg. }
  destruct (dl_remaining d <? 5)%nat eqn:Hr.
  { eexists. split; [done|]. by intros st' [= <-]. }
  apply Nat.ltb_ge in Hr. rewrite (remaining_spec _ _ Hdl) in Hr.
  destruct (IH st1) as (res & -> & Hres); [done| |cbn; rewrite Hd, size_difference by set_solver; rewrite size_singleton; lia|].
  { cbn. intros He. rewrite He, size_empty in Hr. lia. }
  exists res. split; [done|]. intros st' ->. destruct (Hres st' eq_refl) as (K1 & K2 & K3). split_and!; [done|done|lia].
Qed.

Lemma hkeys_nil {K} `{HashKey K} {V} (m : hashmap K V) : hkeys m = [] ↔ hdom m = ∅.
Proof.
  unfold hkeys, hiter, hdom. split.
  - intros Hk. apply fmap_nil_inv, fmap_nil_inv in Hk.
    assert (Hp : map_to_list m ≡ₚ []) by (by rewrite <-Hk, hm_iter_perm).
    apply Permutation_nil_r, map_to_list_empty_iff in Hp. rewrite Hp. apply dom_empty_L.
  - intros ->%dom_empty_inv_L. assert (Hp : hm_iter (∅ : hashmap K V) ≡ₚ []) by (by rewrite hm_iter_perm, map_to_list_empty).
    apply Permutation_nil_r in Hp. by rewrite Hp.
Qed.

Definition pass_ok (st : State) : Prop :=
  grows_ok ∅ (deps st) ∧ ∀ u, u ∈ roots → to_key u ∈ hdom (deps st).

Lemma passes_ok depth waits rounds st :
  state_ok st → deps st = ∅ → (size universe ≤ depth)%nat → (size ids ≤ waits)%nat → (missing st < rounds)%nat →
  ∃ res, passes bcx depth waits rounds roots st = Some res ∧ ∀ st', res = Ok st' → pass_ok st'.
Proof.
  intros Hst Hd Hdepth Hwaits. revert st Hst Hd. induction rounds as [|rounds IH]; intros st Hst Hd Hr; [lia|].
  cbn [passes]. destruct (visit_roots_ok depth roots st ltac:(done) Hst) as (res & -> & Hres).
  { etransitivity; [|exact Hdepth]. unfold left. apply subseteq_size. set_solver. }
  destruct res as [st1|e|m]; cbn [fbind]; [|by eexists..].
  destruct (Hres st1 eq_refl) as (H1 & H2 & H3 & H4). case_bool_decide as Hw.
  { eexists. split; [done|]. intros st' [= <-]. split; [by rewrite Hd in H3|done]. }
  rewrite hkeys_nil, (st_waiting _ H1) in Hw. unfold finish_some_downloads.
  rewrite (remaining_spec _ _ Hdl). destruct (0 <? _)%nat eqn:Hpos; [|by eexists].
  assert (Hsize : (size (pending (downloads st1)) ≤ waits)%nat).
  { etransitivity; [|exact Hwaits]. apply subseteq_size. rewrite <-(st_waiting _ H1). apply (st_waiting_ids _ H1). }
  destruct (wait_some_ok waits st1 H1 Hw Hsize) as (res & -> & Hres').
  destruct res as [st2|e|m]; cbn [fbind]; [|by eexists..].
  destruct (Hres' st2 eq_refl) as (K1 & K2 & K3).
  apply IH; [by destruct K1|done|].
  assert ((missing st1 ≤ missing st)%nat) by (by apply size_left_mono). cbn. unfold missing in *. cbn. lia.
Qed.

(** * What an entry holds *)

(** Running a build script needs it compiled for the host; any other unit of
    its package, but the script itself, needs it run; what is not a library
    needs the library of its package. *)
Record needs_met (u : CUnit) (l : list CUnit) : Prop := {
  needs_compile : is_run u = true →
    ∃ prof, mkUnit (unit_pkg u) (unit_target u) prof KHost MBuild ∈ l;
  needs_script : is_run u = false → is_custom_build (unit_target u) = false →
    ∀ s, fst <$> dep_build_script u = Some s → s ∈ l;
  needs_lib : is_run u = false → is_custom_build (unit_target u) = false → is_lib (unit_target u) = false →
    (∀ deps, unit_mode u ≠ MDoc deps) → ∀ t, List.find linkable (targets (unit_pkg u)) = Some t →
    ∃ v, v ∈ l ∧ unit_pkg v = unit_pkg u ∧ unit_target v = t;
}.

Lemma needs_met_mono u l l' : needs_met u l → needs_met u (l ++ l').
Proof.
  intros [H1 H2 H3]. split.
  - intros Hr. destruct (H1 Hr) as [prof Hp]. exists prof. apply elem_of_app. by left.
  - intros Hr Hc s Hs. apply elem_of_app. left. by apply (H2 Hr Hc).
  - intros Hr Hc Hl Hd t Ht. destruct (H3 Hr Hc Hl Hd t Ht) as (v & Hv & ?). exists v.
    split; [|done]. apply elem_of_app. by left.
Qed.

Lemma script_in_list u s (ret : Found) :
  fst <$> dep_build_script u = Some s → s ∈ (ret ++ option_list (dep_build_script u))%list.*1.
Proof.
  destruct (dep_build_script u) as [[v uf]|]; [|discriminate]. intros [= <-].
  rewrite fmap_app. apply elem_of_app. right. by apply list_elem_of_singleton.
Qed.

Lemma maybe_lib_elem u uf l t :
  maybe_lib bcx u uf = Ok l → List.find linkable (targets (unit_pkg u)) = Some t →
  ∃ v, v ∈ l.*1 ∧ unit_pkg v = unit_pkg u ∧ unit_target v = t.
Proof.
  unfold maybe_lib. intros H Ht. rewrite Ht in H. apply bind_Ok_inv in H as (v & Hv & [= <-]).
  apply bind_Ok_inv in Hv as (prof & _ & [= <-]). eexists. split; [by apply list_elem_of_singleton|done].
Qed.

Lemma compute_needs u uf st0 st1 found :
  compute_deps bcx u uf st0 = Ok (found, st1) → needs_met u found.*1.
Proof.
  intros H. unfold compute_deps in H. unfold mode_is_run_custom_build in H. fold (is_run u) in H.
  destruct (is_run u) eqn:Hrun.
  { apply bind_Ok_inv in H as (l & Hl & [= <- <-]). apply bind_Ok_inv in Hl as (v & Hv & [= <-]).
    apply bind_Ok_inv in Hv as (prof & _ & [= <-]). split; [|by rewrite Hrun..].
    intros _. exists prof. by apply list_elem_of_singleton. }
  destruct (mode_is_doc _ && _) eqn:Hdoc.
  { assert (Hm : ∃ deps, unit_mode u = MDoc deps).
    { destruct (unit_mode u) as [| | | |dd| |]; try discriminate Hdoc. by exists dd. }
    apply bind_Ok_inv in H as ([ret st2] & _ & H). split; [by rewrite Hrun| |].
    - intros _ _ s Hs. pose proof (script_in_list u s ret Hs) as Hin.
      destruct (is_bin _); [|by injection H as <- <-]. apply bind_Ok_inv in H as (l & _ & [= <- <-]).
      rewrite fmap_app. apply elem_of_app. by left.
    - intros _ _ _ Hno. destruct Hm as [dd Hm]. by destruct (Hno dd). }
  apply bind_Ok_inv in H as ([ret st2] & _ & H). split; [by rewrite Hrun| |].
  - intros _ Hc s Hs. pose proof (script_in_list u s ret Hs) as Hin. rewrite Hc in H.
    destruct (is_lib _ && _); [by injection H as <- <-|]. apply bind_Ok_inv in H as (l & _ & H).
    destruct (negb _ && _ && _); [apply bind_Ok_inv in H as (b & _ & [= <- <-])|injection H as <- <-];
      rewrite !fmap_app in *; rewrite !elem_of_app in *; tauto.
  - intros _ Hc Hl _ t Ht. rewrite Hc, Hl in H. simpl in H. apply bind_Ok_inv in H as (l & Hlib & H).
    destruct (maybe_lib_elem _ _ _ _ Hlib Ht) as (v & Hv & Hpt). exists v. split; [|done].
    destruct (negb _ && _ && _); [apply bind_Ok_inv in H as (b & _ & [= <- <-])|injection H as <- <-];
      rewrite !fmap_app, !elem_of_app; auto.
Qed.

(** * Links between build scripts *)
Section connect.
Context (D : hashmap CUnit (list CUnit)).
Context (Hwf : ∀ i u l, D !! i = Some (u, l) → to_key u = i).

(** [p] is registered under [j] as a parent of the unit with key [i]. *)
Definition registered (rev : hashmap CUnit (hashset CUnit)) (i : hkey CUnit) (j : hkey CUnit) (p : CUnit) : Prop :=
  ∃ k s, rev !! i = Some (k, s) ∧ s !! j = Some (p, tt).
Definition parent (l : list CUnit) (i : hkey CUnit) : Prop := ∃ d, d ∈ l ∧ is_run d = true ∧ to_key d = i.

Lemma registered_add rev u d i j p :
  (∀ i q, registered rev i (to_key u) q → q = u) →
  registered (hupdate (hinsert u tt) d (hor_insert d ∅ rev)) i j p ↔
  registered rev i j p ∨ (to_key d = i ∧ to_key u = j ∧ p = u).
Proof.
  intros Hu. unfold registered, hupdate, hor_insert.
  assert (Hins : ∀ s : hashset CUnit, (∀ q, s !! to_key u = Some (q, tt) → q = u) →
    hinsert u tt s !! j = Some (p, tt) ↔ s !! j = Some (p, tt) ∨ (to_key u = j ∧ p = u)).
  { intros s Hs. unfold hinsert. destruct (s !! to_key u) as [[q []]|] eqn:Hq.
    - pose proof (Hs q eq_refl) as ->. rewrite lookup_insert. case_decide as Hj; [subst j; rewrite Hq|].
      + split; [intros [= <-]; by right|]. by intros [[= <-]|[_ ->]].
      + split; [by left|]. by intros [?|[? _]].
    - rewrite lookup_insert. case_decide as Hj; [subst j; rewrite Hq|].
      + split; [intros [= <-]; by right|]. by intros [?|[_ ->]].
      + split; [by left|]. by intros [?|[? _]]. }
  destruct (rev !! to_key d) as [[k0 s0]|] eqn:Hd.
  - setoid_rewrite lookup_alter. case_decide as Hi; [subst i; rewrite Hd; simpl|].
    + assert (Hs0 : ∀ q, s0 !! to_key u = Some (q, tt) → q = u).
      { intros q Hq. apply (Hu (to_key d) q). by exists k0, s0. }
      split.
      * intros (k & s & [= <- <-] & H). apply (Hins s0 Hs0) in H as [H|[H ->]]; [left; by exists k0, s0|by right].
      * intros [(k & s & [= <- <-] & H)|(_ & H & ->)]; exists k0, (hinsert u tt s0);
          (split; [done|]); apply (Hins s0 Hs0); auto.
    + split; [by left|]. by intros [?|[? _]].
  - setoid_rewrite lookup_alter. case_decide as Hi; [subst i; rewrite lookup_insert_eq, Hd; simpl|].
    + assert (Hs0 : ∀ q, (∅ : hashset CUnit) !! to_key u = Some (q, tt) → q = u) by (intros q; by rewrite lookup_empty).
      split.
      * intros (k & s & [= <- <-] & H). apply (Hins ∅ Hs0) in H as [H|[H ->]]; [by rewrite lookup_empty in H|by right].
      * intros [(k & s & H & _)|(_ & H & ->)]; [discriminate H|]. exists d, (hinsert u tt ∅).
        split; [done|]. apply (Hins ∅ Hs0). auto.
    + rewrite lookup_insert_ne by done. split; [by left|]. by intros [?|[? _]].
Qed.

Lemma add_parents_spec rev u l i j p :
  (∀ i q, registered rev i (to_key u) q → q = u) →
  registered (add_parents rev (u, l)) i j p ↔
  registered rev i j p ∨ (parent l i ∧ to_key u = j ∧ p = u).
Proof.
  unfold add_parents. cbn [fst snd]. revert rev. induction l as [|d l IH]; intros rev Hu; cbn [foldl].
  { split; [by left|]. intros [?|[(d & Hd & _) _]]; [done|]. destruct (not_elem_of_nil _ Hd). }
  destruct (is_run d) eqn:Hd.
  - rewrite IH; [|intros i' q [H|(_ & _ & H)]%registered_add; [by apply (Hu i')|done|done]].
    rewrite registered_add by done. split.
    + intros [[H|(H1 & H2 & H3)]|((e & He & H) & H2 & H3)]; [by left|right|right]; (split; [|done]).
      * exists d. split_and!; [constructor|done..].
      * exists e. split; [by constructor|done].
    + intros [H|((e & [-> |He]%elem_of_cons & Hr & Hk) & H2 & H3)]; [by left; left|left; by right|right].
      split; [by exists e|done].
  - rewrite IH by done. split; (intros [H|((e & He & Hr & Hk) & H)]; [by left|right; split; [|done]]).
    + exists e. split_and!; [by constructor|done..].
    + apply elem_of_cons in He as [-> |He]; [congruence|]. by exists e.
Qed.

Lemma parents_spec xs rev i j p :
  (∀ u l, (u, l) ∈ xs → D !! to_key u = Some (u, l)) →
  (∀ i j q, registered rev i j q → to_key q = j ∧ ∃ l, D !! j = Some (q, l)) →
  registered (foldl add_parents rev xs) i j p ↔
  registered rev i j p ∨ ∃ l, (p, l) ∈ xs ∧ parent l i ∧ to_key p = j.
Proof.
  revert rev. induction xs as [|[u l] xs IH]; intros rev Hxs Hrev; cbn [foldl].
  { split; [by left|]. intros [?|(l & Hl & _)]; [done|]. destruct (not_elem_of_nil _ Hl). }
  assert (Hu : ∀ i q, registered rev i (to_key u) q → q = u).
  { intros i' q (_ & l' & Hq)%Hrev. pose proof (Hxs u l ltac:(constructor)). congruence. }
  rewrite IH; [|intros v k Hv; apply Hxs; by constructor|].
  - rewrite add_parents_spec by done. split.
    + intros [[H|(H1 & H2 & ->)]|(l' & H1 & H2 & H3)]; [by left|right|right].
      * exists l. split; [constructor|done].
      * exists l'. split; [by constructor|done].
    + intros [H|(l' & [[= -> ->]|H1]%elem_of_cons & H2 & H3)]; [by left; left|left; by right|right]. by exists l'.
  - intros i' j' q [H|(_ & <- & ->)]%add_parents_spec; [by apply Hrev in H| |done].
    split; [done|]. exists l. apply Hxs. constructor.
Qed.
End connect.

Section connected.
Context (st : State) (Hpass : pass_ok st).
Context (Hps : ∀ p q, p ∈ ps → q ∈ ps → to_key (package_id p) = to_key (package_id q) → p = q).
Local Abbreviation D := (deps st).

Lemma entry i u l : D !! i = Some (u, l) → to_key u = i ∧ entry_ok D u l.
Proof. destruct Hpass as [[_ H] _]. intros Hi. destruct (H _ _ _ Hi) as [H'|H']; [by rewrite lookup_empty in H'|done]. Qed.
Lemma D_wf : hwf D.
Proof. intros i u l Hi. by apply entry in Hi as [? _]. Qed.
Lemma entry_needs i u l : D !! i = Some (u, l) → needs_met u l.
Proof. intros (_ & _ & _ & _ & uf & st0 & st1 & found & Hc & ->)%entry. by eapply compute_needs. Qed.

Lemma reverse_deps_spec i j p :
  registered (reverse_deps st) i j p ↔ ∃ l, D !! j = Some (p, l) ∧ parent l i.
Proof.
  unfold reverse_deps. rewrite (parents_spec D).
  - split.
    + intros [(k & s & H & _)|(l & H1 & H2 & <-)]; [by rewrite lookup_empty in H|].
      exists l. split; [|done]. by apply elem_of_hiter_wf, H1; apply D_wf.
    + intros (l & H1 & H2). right. exists l. destruct (entry _ _ _ H1) as [<- _]. split_and!; [|done|done].
      by apply elem_of_hiter_wf; [apply D_wf|].
  - intros u l H. by apply elem_of_hiter_wf in H; [|apply D_wf].
  - intros i' j' q (k & s & H & _). by rewrite lookup_empty in H.
Qed.

Lemma others_ok parents :
  (∀ p, p ∈ parents → ∃ l, D !! to_key p = Some (p, l)) →
  ∃ others, foldM (λ l p, d ← index_deps st p; Ok (l ++ d)%list) [] parents = Ok others ∧
    ∀ o, o ∈ others ↔ ∃ p l, p ∈ parents ∧ D !! to_key p = Some (p, l) ∧ o ∈ l.
Proof.
  intros Hp. assert (Hgen : ∀ acc, ∃ others,
    foldM (λ l p, d ← index_deps st p; Ok (l ++ d)%list) acc parents = Ok others ∧
    ∀ o, o ∈ others ↔ o ∈ acc ∨ ∃ p l, p ∈ parents ∧ D !! to_key p = Some (p, l) ∧ o ∈ l).
  { induction parents as [|p parents IH]; intros acc; simpl.
    { exists acc. split; [done|]. intros o. split; [by left|]. intros [?|(p & l & H & _)]; [done|].
      destruct (not_elem_of_nil _ H). }
    destruct (Hp p ltac:(constructor)) as [l Hl]. unfold index_deps at 1. rewrite (hget_Some _ _ _ _ Hl). simpl.
    destruct (IH (λ q Hq, Hp q (list_elem_of_further _ _ _ Hq)) (acc ++ l)) as (others & -> & Ho).
    exists others. split; [done|]. intros o. rewrite Ho, elem_of_app. setoid_rewrite elem_of_cons. split.
    - intros [[H|H]|(q & l' & H1 & H2)]; [by left|right; exists p, l; auto|right; exists q, l'; auto].
    - intros [H|(q & l' & [-> |H1] & H2 & H3)]; [by left; left|left; right; congruence|right; by exists q, l']. }
  destruct (Hgen []) as (others & H1 & H2). exists others. split; [done|]. intros o. rewrite H2.
  split; [intros [H|H]; [destruct (not_elem_of_nil _ H)|done]|by right].
Qed.

Lemma elem_of_set_of (l : list CUnit) (s : hashset CUnit) v :
  v ∈ hkeys (foldl (λ s v, hinsert v tt s) s l) → v ∈ hkeys s ∨ v ∈ l.
Proof.
  revert s. induction l as [|x l IH]; intros s; cbn [foldl]; [by left|].
  intros [H|H]%IH; [|right; by constructor].
  unfold hkeys in *. apply list_elem_of_fmap in H as ([k []] & -> & [i H]%elem_of_hiter).
  assert (H' : s !! i = Some (k, tt) ∨ k = x).
  { unfold hinsert in H. destruct (s !! to_key x) as [[x0 []]|] eqn:Hx;
      apply lookup_insert_Some in H as [[<- [= <-]]|[_ H]]; auto. }
  destruct H' as [H'| ->]; [left|right; constructor]. apply list_elem_of_fmap. exists (k, tt). split; [done|].
  apply elem_of_hiter. by exists i.
Qed.

Lemma set_of_dom (l : list CUnit) (s : hashset CUnit) :
  hdom (foldl (λ s v, hinsert v tt s) s l) = list_to_set (to_key <$> l) ∪ hdom s.
Proof.
  revert s. induction l as [|x l IH]; intros s; cbn [foldl fmap list_fmap list_to_set]; [set_solver|].
  rewrite IH, hdom_hinsert. set_solver.
Qed.

(** A script that [u] must wait for. *)
Definition linked_script (u s : CUnit) : Prop :=
  ∃ j p l other, D !! j = Some (p, l) ∧ parent l (to_key u) ∧ other ∈ l ∧ script_of u other = Some s.

Lemma set_wf (l : list CUnit) (s : hashset CUnit) : hwf s → hwf (foldl (λ s v, hinsert v tt s) s l).
Proof. revert s. induction l as [|x l IH]; intros s Hs; cbn [foldl]; [done|]. apply IH. by apply hwf_hinsert. Qed.

Lemma scripts_to_add_ok u :
  ∃ set, scripts_to_add st (reverse_deps st) u = Ok set ∧
    (∀ s, s ∈ hkeys set → linked_script u s) ∧
    (∀ s, linked_script u s → to_key s ∈ to_key <$> hkeys set).
Proof.
  unfold scripts_to_add. destruct (hget (reverse_deps st) u) as [parents|] eqn:Hu.
  - apply hget_Some_inv in Hu as [k Hu].
    assert (Hpar : ∀ p, p ∈ hkeys parents ↔ ∃ l, D !! to_key p = Some (p, l) ∧ parent l (to_key u)).
    { intros p. unfold hkeys. rewrite list_elem_of_fmap. split.
      - intros ([q []] & -> & [j Hj]%elem_of_hiter). destruct (proj1 (reverse_deps_spec (to_key u) j q)) as (l & H1 & H2).
        { by exists k, parents. }
        exists l. cbn [fst]. destruct (entry _ _ _ H1) as [-> _]. done.
      - intros (l & H1 & H2). destruct (proj2 (reverse_deps_spec (to_key u) (to_key p) p)) as (k' & s' & H3 & H4).
        { by exists l. }
        rewrite Hu in H3. injection H3 as <- <-. exists (p, tt). split; [done|]. apply elem_of_hiter. by eexists. }
    destruct (others_ok (hkeys parents)) as (others & Ho & Hin).
    { intros p (l & Hl & _)%Hpar. by exists l. }
    rewrite Ho. cbn [mbind res_mbind res_bind]. eexists. split; [done|].
    assert (Hlink : ∀ s, s ∈ omap (script_of u) others ↔ linked_script u s).
    { intros s. rewrite list_elem_of_omap. setoid_rewrite Hin. split.
      - intros (o & (p & l & H1 & H2 & H3) & H4). apply Hpar in H1 as (l' & H1 & H5).
        assert (l' = l) as -> by congruence. by exists (to_key p), p, l, o.
      - intros (j & p & l & o & H1 & H2 & H3 & H4). exists o. split; [|done].
        destruct (entry _ _ _ H1) as [<- _]. exists p, l. split_and!; [|done|done]. apply Hpar. by exists l. }
    split.
    + intros s [H|H]%elem_of_set_of; [|by apply Hlink].
      rewrite (proj2 (hkeys_nil ∅)) in H by apply hdom_empty. destruct (not_elem_of_nil _ H).
    + intros s Hs. apply Hlink in Hs.
      assert (Hd : to_key s ∈ hdom (foldl (λ s v, hinsert v tt s) (∅ : hashset CUnit) (omap (script_of u) others))).
      { rewrite set_of_dom. apply elem_of_union_l, elem_of_list_to_set, list_elem_of_fmap. by exists s. }
      rewrite <-hget_hdom in Hd. destruct Hd as [[] Hd].
      destruct (hget_elem_of_hkeys _ _ _ (set_wf _ _ hwf_empty) Hd) as (k' & H1 & H2).
      apply list_elem_of_fmap. by exists k'.
  - exists ∅. split; [done|]. split.
    + intros s H. rewrite (proj2 (hkeys_nil ∅)) in H by apply hdom_empty. destruct (not_elem_of_nil _ H).
    + intros s (j & p & l & o & H1 & H2 & _ & _). exfalso.
      destruct (proj2 (reverse_deps_spec (to_key u) j p)) as (k & s' & H3 & _); [by exists l|].
      apply hget_Some in H3. congruence.
Qed.

(** Such a script is a unit of the graph. *)
Lemma linked_script_in u s : linked_script u s → to_key s ∈ hdom D.
Proof.
  intros (j & p & l & other & H1 & _ & Hin & Hs). destruct (entry _ _ _ H1) as (_ & Hclosed & Hok & _).
  unfold script_of in Hs. destruct (negb _ && linkable _ && _) eqn:Hc; [|discriminate Hs].
  apply andb_true_iff in Hc as [Hc _]. apply andb_true_iff in Hc as [_ Hlink].
  pose proof (Hclosed _ Hin) as Hother. unfold hdom in Hother. apply elem_of_dom in Hother as [[o lo] Ho].
  destruct (entry _ _ _ Ho) as (Hk & Hclo & _ & Hoo & _).
  pose proof (Hok _ Hin) as Hotok.
  apply unit_key_eq in Hk as (K1 & K2 & K3 & K4 & K5). apply profile_key_eq in K3.
  assert (Hpkg : unit_pkg o = unit_pkg other) by (apply Hps; [apply Hoo|apply Hotok|exact K1]).
  assert (Hscript : fst <$> dep_build_script o = fst <$> dep_build_script other).
  { unfold dep_build_script. rewrite Hpkg. destruct (List.find _ _); [|done]. simpl. do 2 f_equal; [|exact K4].
    unfold get_profile_run_custom_build. f_equal; apply K3. }
  rewrite <-Hscript in Hs. apply Hclo. apply (needs_script o lo (entry_needs _ _ _ Ho)); [| |exact Hs].
  - apply not_true_iff_false. intros Hrun. pose proof (proj2 (proj2 (proj1 Hoo)) Hrun) as Hcb. rewrite K2 in Hcb.
    apply custom_build_not_lib in Hcb. apply linkable_is_lib in Hlink. congruence.
  - rewrite K2. apply not_true_iff_false. intros Hcb. apply custom_build_not_lib in Hcb. apply linkable_is_lib in Hlink. congruence.
Qed.

(** Adding the scripts. *)
Definition add_script_deps (d : hashmap CUnit (list CUnit)) (us : CUnit * hashset CUnit) : cresult (hashmap CUnit (list CUnit)) :=
  match hget d us.1 with
  | Some l => Ok (hinsert us.1 (l ++ hkeys us.2) d)
  | None => Panic "called `Option::unwrap()` on a `None` value"
  end.

Lemma add_scripts_ok (news : list (CUnit * hashset CUnit)) (d : hashmap CUnit (list CUnit)) :
  NoDup ((λ us, to_key us.1) <$> news) → (∀ us, us ∈ news → to_key us.1 ∈ hdom d) →
  ∃ d', foldM add_script_deps d news = Ok d' ∧ hdom d' = hdom d ∧
    ∀ i u l, d !! i = Some (u, l) → ∃ extra, d' !! i = Some (u, l ++ extra) ∧
      (∀ us, us ∈ news → to_key us.1 = i → extra = hkeys us.2) ∧
      ((∀ us, us ∈ news → to_key us.1 ≠ i) → extra = []).
Proof.
  revert d. induction news as [|[x set] news IH]; intros d Hnd Hin; cbn [foldM].
  { exists d. split_and!; [done|done|]. intros i u l Hi. exists []. rewrite app_nil_r. split_and!; [done| |done].
    intros us Hus. destruct (not_elem_of_nil _ Hus). }
  cbn [fmap list_fmap fst] in Hnd. apply NoDup_cons in Hnd as [Hx Hnd].
  pose proof (Hin (x, set) ltac:(constructor)) as Hdx. cbn [fst] in Hdx. unfold hdom in Hdx.
  apply elem_of_dom in Hdx as [[x0 lx] Hdx]. unfold add_script_deps at 1. cbn [fst snd].
  rewrite (hget_Some _ _ _ _ Hdx).
  destruct (IH (hinsert x (lx ++ hkeys set) d) Hnd) as (d' & -> & Hdom & Hspec).
  { intros us Hus. rewrite hdom_hinsert. apply elem_of_union_r. apply Hin. by constructor. }
  exists d'. split; [done|]. split.
  { rewrite Hdom, hdom_hinsert. apply leibniz_equiv. assert (to_key x ∈ hdom d); [|set_solver].
    unfold hdom. apply elem_of_dom. by eexists. }
  intros i u l Hi. destruct (decide (to_key x = i)) as [<-|Hne].
  - rewrite Hdx in Hi. injection Hi as -> ->.
    destruct (Hspec (to_key x) u (l ++ hkeys set)) as (extra & H1 & _ & H3).
    { unfold hinsert. by rewrite Hdx, lookup_insert_eq. }
    rewrite H3, app_nil_r in H1.
    + exists (hkeys set). split_and!; [done| |].
      * intros us [-> |Hus]%elem_of_cons Hk; [done|]. exfalso. apply Hx. apply list_elem_of_fmap. by exists us.
      * intros H. by destruct (H (x, set) ltac:(constructor)).
    + intros us Hus Hk. apply Hx. apply list_elem_of_fmap. by exists us.
  - destruct (Hspec i u l) as (extra & H1 & H2 & H3).
    { unfold hinsert. rewrite Hdx. by rewrite lookup_insert_ne. }
    exists extra. split_and!; [done| |].
    + intros us [-> |Hus]%elem_of_cons Hk; [done|by apply H2].
    + intros H. apply H3. intros us Hus. apply H. by constructor.
Qed.

Lemma new_scripts_ok us :
  ∃ news, foldM (λ l u, s ← scripts_to_add st (reverse_deps st) u;
                        Ok (if bool_decide (hkeys s = []) then l else (l ++ [(u, s)])%list)) [] us = Ok news ∧
    sublist (news.*1) us ∧
    (∀ u s, (u, s) ∈ news → ∀ v, v ∈ hkeys s → linked_script u v) ∧
    (∀ u v, u ∈ us → linked_script u v → ∃ s, (u, s) ∈ news ∧ to_key v ∈ to_key <$> hkeys s).
Proof.
  assert (Hgen : ∀ acc, ∃ news, foldM (λ l u, s ← scripts_to_add st (reverse_deps st) u;
      Ok (if bool_decide (hkeys s = []) then l else (l ++ [(u, s)])%list)) acc us = Ok (acc ++ news) ∧
    sublist (news.*1) us ∧
    (∀ u s, (u, s) ∈ news → ∀ v, v ∈ hkeys s → linked_script u v) ∧
    (∀ u v, u ∈ us → linked_script u v → ∃ s, (u, s) ∈ news ∧ to_key v ∈ to_key <$> hkeys s)).
  { induction us as [|u us IH]; intros acc; cbn [foldM].
    { exists []. rewrite app_nil_r. split_and!; [done|constructor| |]; intros u s Hu; destruct (not_elem_of_nil _ Hu). }
    destruct (scripts_to_add_ok u) as (set & Hset & H1 & H2). rewrite Hset. cbn [mbind res_mbind res_bind].
    case_bool_decide as He.
    - destruct (IH acc) as (news & -> & K1 & K2 & K3). exists news. split_and!; [done|by constructor|done|].
      intros w v [-> |Hw]%elem_of_cons Hl; [|by apply K3]. apply H2 in Hl. rewrite He in Hl. destruct (not_elem_of_nil _ Hl).
    - destruct (IH (acc ++ [(u, set)])) as (news & -> & K1 & K2 & K3). exists ((u, set) :: news).
      rewrite <-app_assoc. split_and!; [done|by constructor| |].
      + intros w s [[= -> ->]|Hw]%elem_of_cons; [exact H1|by apply K2].
      + intros w v [-> |Hw]%elem_of_cons Hl.
        * exists set. split; [constructor|by apply H2].
        * destruct (K3 w v Hw Hl) as (s & Hs & ?). exists s. split; [by constructor|done]. }
  apply (Hgen []).
Qed.

Lemma connect_ok :
  ∃ st', connect_run_custom_build_deps st = Ok st' ∧ hdom (deps st') = hdom D ∧
    ∀ i u l, D !! i = Some (u, l) → ∃ extra, deps st' !! i = Some (u, l ++ extra) ∧
      (∀ v, v ∈ extra → linked_script u v) ∧
      (is_run u = true → ∀ v, linked_script u v → to_key v ∈ to_key <$> extra).
Proof.
  unfold connect_run_custom_build_deps. cbv zeta.
  set (us := filter (λ u, is_run u = true) (hkeys D)).
  destruct (new_scripts_ok us) as (news & -> & Hsub & H1 & H2). cbn [mbind res_mbind res_bind].
  assert (Hus : ∀ u, u ∈ us ↔ is_run u = true ∧ ∃ l, D !! to_key u = Some (u, l)).
  { intros u. unfold us. rewrite list_elem_of_filter. unfold hkeys. rewrite list_elem_of_fmap. split; intros [Hr H]; (split; [done|]).
    - destruct H as ([u' l] & -> & H). exists l. by apply elem_of_hiter_wf in H; [|apply D_wf].
    - destruct H as [l H]. exists (u, l). split; [done|]. by apply elem_of_hiter_wf; [apply D_wf|]. }
  assert (Hnews : ∀ x, x ∈ news → x.1 ∈ us).
  { intros x Hx. apply (elem_of_sublist _ _ _ (list_elem_of_fmap_2 fst _ _ Hx) Hsub). }
  destruct (add_scripts_ok news D) as (d & Hd & Hdom & Hspec).
  - change ((λ x : CUnit * hashset CUnit, to_key x.1) <$> news) with ((to_key ∘ fst) <$> news).
    rewrite list_fmap_compose. apply (sublist_NoDup _ (to_key <$> hkeys D)); [apply (NoDup_hkeys D D_wf)|].
    apply fmap_sublist. etransitivity; [exact Hsub|apply sublist_filter].
  - intros x Hx. apply Hnews, Hus in Hx as [_ [l Hx]]. unfold hdom. apply elem_of_dom. by eexists.
  - change (foldM _ D news) with (foldM add_script_deps D news). rewrite Hd. cbn [mbind res_mbind res_bind].
    exists (set_deps st d). split_and!; [done|exact Hdom|]. intros i u l Hi.
    destruct (entry _ _ _ Hi) as [<- _].
    destruct (Hspec _ _ _ Hi) as (extra & K1 & K2 & K3). exists extra. split; [exact K1|].
    assert (Huniq : ∀ x, x ∈ news → to_key x.1 = to_key u → x.1 = u).
    { intros x Hx Hk. apply Hnews, Hus in Hx as [_ [l' Hx]]. rewrite Hk in Hx. congruence. }
    assert (Hextra : extra = [] ∨ ∃ set, (u, set) ∈ news ∧ extra = hkeys set).
    { destruct (decide (to_key u ∈ (λ x : CUnit * hashset CUnit, to_key x.1) <$> news)) as [Hin|Hno].
      - apply list_elem_of_fmap in Hin as (x & Hk & Hx). right. exists x.2. split; [|by apply (K2 x Hx)].
        pose proof (Huniq x Hx (eq_sym Hk)) as Hu. by destruct x; simpl in Hu; subst.
      - left. apply K3. intros x Hx Hk. apply Hno. apply list_elem_of_fmap. by exists x. }
    split.
    + intros v Hv. destruct Hextra as [-> |(set & Hset & ->)]; [destruct (not_elem_of_nil _ Hv)|]. by apply (H1 _ _ Hset).
    + intros Hr v Hl. destruct (H2 u v) as (set & Hset & Hv); [apply Hus; split; [done|by exists l]|done|].
      by rewrite (K2 _ Hset eq_refl).
Qed.
End connected.

Lemma start_ok pkgs0 d0 :
  (∀ i k p, pkgs0 !! i = Some (k, p) → p ∈ ps ∧ to_key (package_id p) = i) → pending d0 = ∅ →
  state_ok (mkState ∅ pkgs0 ∅ d0).
Proof.
  intros Hp Hd. split; cbn; [done|by rewrite Hd, hdom_empty|rewrite hdom_empty; set_solver|rewrite hdom_empty; set_solver].
Qed.

Lemma linked_run st u v : linked_script st u v → is_run u = true.
Proof.
  intros (j & p & l & other & _ & (d & _ & Hd & Hk) & _). apply unit_key_eq in Hk as (_ & _ & _ & _ & Hk).
  unfold is_run in *. by rewrite <-Hk.
Qed.

(** C7. The unit graph.  Whatever packages have to be downloaded on the way,
    [build_unit_dependencies] comes to an end, within bounds given by the
    number of packages and of possible units.  Its graph holds every root and
    is closed: what a unit depends on is a unit of it.  To run a build script,
    the script is compiled for the host first; every other unit of the package
    waits for that run, and a unit that is not a library for the package's
    library.  The run itself waits for the build scripts of those packages with
    [links] that a unit waiting for it depends on. *)
Theorem build_unit_dependencies_spec depth waits rounds pkgs0 d0
    (Hps : ∀ p q, p ∈ ps → q ∈ ps → to_key (package_id p) = to_key (package_id q) → p = q)
    (Hpkgs : ∀ i k p, pkgs0 !! i = Some (k, p) → p ∈ ps ∧ to_key (package_id p) = i)
    (Hd0 : pending d0 = ∅)
    (Hdepth : (size universe ≤ depth)%nat) (Hwaits : (size ids ≤ waits)%nat) (Hrounds : (size ids < rounds)%nat) :
  ∃ res, build_unit_dependencies bcx depth waits rounds roots pkgs0 d0 = Some res ∧
    ∀ st, res = Ok st →
      (∀ u, u ∈ roots → to_key u ∈ hdom (deps st)) ∧
      (∀ i u l, deps st !! i = Some (u, l) →
         to_key u = i ∧ needs_met u l ∧ ∀ v, v ∈ l → to_key v ∈ hdom (deps st)) ∧
      (∀ i u l j p lp other s, deps st !! i = Some (u, l) → deps st !! j = Some (p, lp) →
         is_run p = false → parent lp i → other ∈ lp → script_of u other = Some s →
         to_key s ∈ to_key <$> l).
Proof.
  unfold build_unit_dependencies.
  destruct (passes_ok depth waits rounds (mkState ∅ pkgs0 ∅ d0)) as (res & -> & Hres);
    [by apply start_ok|done|done|done| |].
  { eapply Nat.le_lt_trans; [|exact Hrounds]. unfold missing. apply subseteq_size. set_solver. }
  destruct res as [st0|e|m]; cbn [fbind]; [|by eexists..].
  pose proof (Hres st0 eq_refl) as Hpass. destruct (connect_ok st0 Hpass Hps) as (st & -> & Hdom & Hst).
  eexists. split; [done|]. intros st' [= <-].
  assert (Hback : ∀ i u l, deps st !! i = Some (u, l) → ∃ l0 extra, deps st0 !! i = Some (u, l0) ∧ l = l0 ++ extra ∧
    (∀ v, v ∈ extra → linked_script st0 u v) ∧
    (is_run u = true → ∀ v, linked_script st0 u v → to_key v ∈ to_key <$> extra)).
  { intros i u l Hi. assert (Hin : i ∈ hdom (deps st0)) by (rewrite <-Hdom; unfold hdom; apply elem_of_dom; by eexists).
    unfold hdom in Hin. apply elem_of_dom in Hin as [[u0 l0] Hi0]. destruct (Hst _ _ _ Hi0) as (extra & H1 & H2 & H3).
    rewrite Hi in H1. injection H1 as -> ->. by exists l0, extra. }
  split_and!.
  - intros u Hu. rewrite Hdom. by apply Hpass.
  - intros i u l Hi. destruct (Hback _ _ _ Hi) as (l0 & extra & Hi0 & -> & Hex & _).
    destruct (entry st0 Hpass _ _ _ Hi0) as (Hk & Hclosed & _). split_and!; [done| |].
    + apply needs_met_mono. by apply (entry_needs st0 Hpass i).
    + intros v [Hv|Hv]%elem_of_app; rewrite Hdom; [by apply Hclosed|].
      by apply (linked_script_in st0 Hpass Hps u), Hex.
  - intros i u l j p lp other s Hi Hj Hrun Hpar Hother Hs.
    destruct (Hback _ _ _ Hi) as (l0 & extra & Hi0 & -> & _ & Hex).
    destruct (Hback _ _ _ Hj) as (lp0 & extrap & Hj0 & -> & Hexp & _).
    assert (extrap = []) as ->.
    { destruct extrap as [|v extrap]; [done|]. pose proof (Hexp v ltac:(constructor)) as Hl.
      apply linked_run in Hl. congruence. }
    rewrite app_nil_r in *. destruct (entry st0 Hpass _ _ _ Hi0) as (<- & _).
    assert (Hl : linked_script st0 u s) by (by exists j, p, lp0, other).
    rewrite fmap_app. apply elem_of_app. right. apply Hex; [by eapply linked_run|exact Hl].
Qed.
End graph.

(** * Concrete runs *)
Section runs.
Local Existing Instance sem_lib.
Local Existing Instance hier_lib.
Local Existing Instance std_order.
Local Open Scope string_scope.

Definition tgt (kind : TargetKind) (name : string) (host : bool) : Target :=
  mkTarget kind name (SrcPath ("/" ++ name ++ ".rs")) None true true true true true host Edition2018.
Definition sample_manifest (id : PackageId) (ts : list Target) (lk : option string) : Manifest :=
  mkManifest (mkSummary id [] ∅ None lk false) ts lk [] [] [] sample_profiles None false [] ∅ features_default
             Edition2018 None None None.
Definition here : SourceId :=
  let u := ("f", "", ["w"], None, None) in mkSourceId u u SourceId.Path None None.
Definition id_a : PackageId := mkPackageId "a" (1, 0, 0) here.
Definition id_z : PackageId := mkPackageId "z" (1, 0, 0) here.
(** A binary with a library and a build script, and a native library. *)
Definition pkg_a : Package :=
  mkPackage (sample_manifest id_a [tgt (TLib [LibLib]) "a" false; tgt TBin "a" false; tgt TCustomBuild "s" true] None) "/a/Cargo.toml".
Definition pkg_z : Package :=
  mkPackage (sample_manifest id_z [tgt (TLib [LibLib]) "z" false; tgt TCustomBuild "s" true] (Some "z")) "/z/Cargo.toml".
Definition sample_resolve : Resolve :=
  Resolve.new (Graph.link (Graph.add (Graph.add Graph.new id_a) id_z) id_a id_z []
                 (λ _, [mkDependency "z" here None SemAny true Normal false None false true [] None])) ∅ ∅ ∅ ∅ [].
Definition sample_context : BuildContext :=
  mkContext sample_resolve sample_profiles [pkg_a] false MBuild "host" "target" None None.

(** Downloads: the set of those under way. *)
Definition find_pkg (k : hkey PackageId) : option Package :=
  List.find (λ p, bool_decide (to_key (package_id p) = k)) [pkg_a; pkg_z].
Definition sample_start (id : PackageId) (d : keyset PackageId) : cresult (option Package) * keyset PackageId :=
  match find_pkg (to_key id) with Some _ => (Ok None, {[to_key id]} ∪ d) | None => (Err "no such package", d) end.
Definition sample_wait (d : keyset PackageId) : cresult Package * keyset PackageId :=
  match elements d with
  | k :: _ => match find_pkg k with Some p => (Ok p, d ∖ {[k]}) | None => (Err "no such package", d) end
  | [] => (Err "nothing to wait for", d)
  end.
#[local] Instance sample_downloads : DownloadLib := {|
  Downloads := keyset PackageId;
  dl_start := sample_start;
  dl_wait := sample_wait;
  dl_remaining d := size d;
|}.

Definition pending_of : Downloads → keyset PackageId := λ d, d.

Lemma find_pkg_Some k p : find_pkg k = Some p → p ∈ [pkg_a; pkg_z] ∧ to_key (package_id p) = k.
Proof. intros [H1 H2]%find_some. split; [exact (proj2 (list_elem_of_In _ _) H1)|]. by apply bool_decide_eq_true in H2. Qed.

Lemma sample_wait_ok (d : keyset PackageId) : d ≠ ∅ → match sample_wait d with
  | (Ok p, d') => p ∈ [pkg_a; pkg_z] ∧ to_key (package_id p) ∈ d ∧ d' = d ∖ {[to_key (package_id p)]}
  | _ => True
  end.
Proof.
  intros Hd. unfold sample_wait. destruct (elements d) as [|k l] eqn:Hel; [exact I|].
  destruct (find_pkg k) as [p|] eqn:Hp; [|exact I]. apply find_pkg_Some in Hp as [Hin Hk]. subst k.
  split_and!; [exact Hin| |reflexivity]. apply elem_of_elements. rewrite Hel. constructor.
Qed.

Lemma sample_downloads_ok : downloads_ok [pkg_a; pkg_z] pending_of.
Proof.
  split.
  - intros id d. change (dl_start id d) with (sample_start id d). unfold sample_start. destruct (find_pkg (to_key id)) as [p|] eqn:Hp; [|done].
    apply find_pkg_Some in Hp as [Hin Hk]. split; [|done]. rewrite <-Hk.
    apply list_elem_of_fmap. exists (package_id p). split; [done|]. apply list_elem_of_fmap. by exists p.
  - intros d Hd. exact (sample_wait_ok d Hd).
  - done.
Qed.

Definition bin_unit : CUnit := mkUnit pkg_a (tgt TBin "a" false) default_dev KTarget MBuild.
Definition sample_roots : list CUnit := [bin_unit].
Definition sample_run (depth : nat) : option (cresult State) :=
  build_unit_dependencies sample_context depth 10 10 sample_roots ∅ (∅ : keyset PackageId).
(** Target and mode of every unit, with what it depends on. *)
Definition shape (r : option (cresult State)) (u : CUnit) : option (list (string * CompileMode)) :=
  match r with
  | Some (Ok st) => map (λ v, (pid_name (package_id (unit_pkg v)), unit_mode v)) <$> hget (deps st) u
  | _ => None
  end.
Definition run_unit : CUnit :=
  mkUnit pkg_a (tgt TCustomBuild "s" true) (get_profile_run_custom_build default_dev) KTarget MRunCustomBuild.

Lemma sample_root_wf : ∀ u, u ∈ sample_roots → root_wf [pkg_a; pkg_z] u.
Proof. intros u ->%list_elem_of_singleton. split_and!; [apply list_elem_of_here|do 2 constructor|done]. Qed.

Lemma sample_unique : ∀ p q, p ∈ [pkg_a; pkg_z] → q ∈ [pkg_a; pkg_z] →
  to_key (package_id p) = to_key (package_id q) → p = q.
Proof.
  intros p q [-> |Hp]%elem_of_cons [-> |Hq]%elem_of_cons Hk; try (apply list_elem_of_singleton in Hp as ->);
    try (apply list_elem_of_singleton in Hq as ->); [done| | |done]; apply package_id_key_eq in Hk as [Hk _]; discriminate Hk.
Qed.

Definition shapes (r : option (cresult State)) := (shape r bin_unit, shape r run_unit).
Definition bound : nat := S (size (ids [pkg_a; pkg_z])).

Lemma build_unit_dependencies_spec_witness :
  shapes (sample_run 20) = (Some [("z", MBuild); ("a", MRunCustomBuild); ("a", MBuild)],
                            Some [("a", MBuild); ("z", MRunCustomBuild)]) ∧
  ∃ res, build_unit_dependencies sample_context (size (universe sample_context [pkg_a; pkg_z] sample_roots)) bound bound
           sample_roots ∅ (∅ : keyset PackageId) = Some res ∧
    ∀ st, res = Ok st → to_key bin_unit ∈ hdom (deps st).
Proof.
  split; [vm_eq|].
  destruct (build_unit_dependencies_spec sample_context [pkg_a; pkg_z] pending_of sample_downloads_ok sample_roots
    sample_root_wf (size (universe sample_context [pkg_a; pkg_z] sample_roots)) bound bound ∅ ∅ sample_unique) as (res & H1 & H2).
  - intros i k p Hi. rewrite lookup_empty in Hi. discriminate Hi.
  - reflexivity.
  - apply le_n.
  - apply le_S, le_n.
  - apply le_n.
  - exists res. split; [exact H1|]. intros st Hst. apply (proj1 (H2 st Hst)). constructor.
Defined.
End runs.
