(* ===== verification/BuildMap.v ===== *)
(** Which build scripts each unit of compilation depends on: [build_map] of
    [src/cargo/core/compiler/custom_build.rs], the [dep_targets] it walks
    along ([src/cargo/core/compiler/context/mod.rs]), and what the outputs of
    these scripts add to a call of the compiler
    ([src/cargo/core/compiler/mod.rs]). *)
From S2P Require Import Prelude Str Extern Path SourceId PackageId Features Target Cfg Dependency Summary Profiles Graph Resolve Package UnitDeps UnitGraph BuildScript.

Local Open Scope string_scope.

#[global] Instance PlatformKind_key : HashKey PlatformKind := leibniz_key PlatformKind.

Section model.
Context `{SV : SemverLib} `{UL : UrlLib} `{RS : RustStd}.

(** [BTreeSet::insert] for an element type with its [Ord]. *)
Definition btree_insert {A} (cmp : A → A → comparison) (x : A) (s : list A) : list A :=
  if existsb (λ y, bool_decide (cmp x y = Eq)) s then s else insert_by cmp x s.

(** A build script that has run, for one platform. *)
Abbreviation ScriptKey := (PackageId * PlatformKind)%type.

(** [struct BuildScripts] *)
Record BuildScripts := mkScripts {
  to_link : list ScriptKey;
  seen_to_link : hashset ScriptKey;
  plugins : list PackageId;
}.
Definition no_scripts : BuildScripts := mkScripts [] ∅ [].

(** [struct BuildState] and [BuildState::new] *)
Abbreviation BuildOutputs := (hashmap ScriptKey BuildOutput).
Definition overrides_new (host_overrides target_overrides : gmap string BuildOutput)
    : gmap (string * PlatformKind) BuildOutput :=
  foldl (λ m e, let '(kind, (name, output)) := e in <[(name, kind) := output]> m) ∅
    (((λ e, (KHost, e)) <$> hm_iter host_overrides) ++ ((λ e, (KTarget, e)) <$> hm_iter target_overrides))%list.

(** [unit_cmp] is the order the compiler derives for units; [unit_dependencies]
    is the graph of the context. *)
Context (unit_cmp : CUnit → CUnit → comparison).
Context (unit_dependencies : hashmap CUnit (list CUnit)).
Context (overrides : gmap (string * PlatformKind) BuildOutput).

(** What [build] changes: its memo, the overridden scripts of the context, and
    the outputs. *)
Record MapState := mkMapState {
  out : hashmap CUnit BuildScripts;
  build_script_overridden : hashset ScriptKey;
  outputs : BuildOutputs;
}.

(** [Context::dep_targets] *)
Definition dep_targets (overridden : hashset ScriptKey) (u : CUnit) : cresult (list CUnit) :=
  if is_custom_build (unit_target u) && hcontains overridden (package_id (unit_pkg u), unit_kind u) then Ok []
  else match hget unit_dependencies u with
       | Some deps => Ok (sort_by unit_cmp deps)
       | None => Panic "no entry found for key"
       end.

Definition add_to_link (scripts : BuildScripts) (key : ScriptKey) : BuildScripts :=
  if hcontains (seen_to_link scripts) key then scripts
  else mkScripts (to_link scripts ++ [key])%list (hinsert key tt (seen_to_link scripts)) (plugins scripts).

(** The script of a [links] key that the configuration overrides. *)
Definition apply_override (st : MapState) (u : CUnit) : MapState :=
  match links (unit_pkg u) with
  | None => st
  | Some l =>
      match overrides !! (l, unit_kind u) with
      | None => st
      | Some output =>
          let key := (package_id (unit_pkg u), unit_kind u) in
          mkMapState (out st) (hinsert key tt (build_script_overridden st)) (hinsert key output (outputs st))
      end
  end.

(** The body of the loop over the dependencies, on what [build] gave. *)
Definition take_scripts (ret : BuildScripts) (dep : CUnit) (dep_scripts : BuildScripts) : BuildScripts :=
  if for_host (unit_target dep) then
    mkScripts (to_link ret) (seen_to_link ret)
      (foldl (λ s p, btree_insert package_id_cmp p s) (plugins ret) (to_link dep_scripts).*1)
  else if linkable (unit_target dep) then foldl add_to_link ret (to_link dep_scripts)
  else ret.

Fixpoint build_deps (visit : MapState → CUnit → option (cresult MapState)) (targets : list CUnit)
    (st : MapState) (ret : BuildScripts) : option (cresult (MapState * BuildScripts)) :=
  match targets with
  | [] => Some (Ok (st, ret))
  | dep :: targets =>
      let* st := visit st dep in
      match hget (out st) dep with
      | Some dep_scripts => build_deps visit targets st (take_scripts ret dep dep_scripts)
      | None => Some (Panic "no entry found for key")
      end
  end.

Definition own_scripts (u : CUnit) : BuildScripts :=
  if negb (is_custom_build (unit_target u)) && has_custom_build (unit_pkg u)
  then add_to_link no_scripts (package_id (unit_pkg u), unit_kind u) else no_scripts.

(** The inner function [build] *)
Fixpoint build (fuel : nat) (st : MapState) (u : CUnit) : option (cresult MapState) :=
  if hcontains (out st) u then Some (Ok st)
  else match fuel with
  | O => None
  | S fuel =>
      let st := apply_override st u in
      let* targets := Some (dep_targets (build_script_overridden st) u) in
      let targets := sort_by (λ a b, package_id_cmp (package_id (unit_pkg a)) (package_id (unit_pkg b))) targets in
      let* (st, ret) := build_deps (build fuel) targets st (own_scripts u) in
      if hcontains (out st) u then Some (Panic "cyclic dependencies in `build_map`")
      else Some (Ok (mkMapState (hinsert u ret (out st)) (build_script_overridden st) (outputs st)))
  end.

(** [build_map] *)
Fixpoint build_map (fuel : nat) (st : MapState) (units : list CUnit) : option (cresult MapState) :=
  match units with
  | [] => Some (Ok st)
  | u :: units => let* st := build fuel st u in build_map fuel st units
  end.

(** * What the outputs add to a command *)

(** The values of [Path::starts_with] *)
Definition path_starts_with (p base : path) : bool :=
  bool_decide (is_Some (strip_components (components p) (components base))).

Definition missing_state {A} (key : ScriptKey) : cresult A :=
  id ← PackageId.display (key.1);
  Err ("couldn't find build state for " ++ id ++ "/" ++ (match key.2 with KHost => "Host" | KTarget => "Target" end)).

(** [add_native_deps]: the arguments it appends. *)
Definition native_args (current_id : PackageId) (pass_l_flag : bool) (key : ScriptKey) (o : BuildOutput)
    : list string :=
  (flat_map (λ p, ["-L"; p]) (library_paths o) ++
   (if key.1 ==? current_id then
      flat_map (λ c, ["--cfg"; c]) (cfgs o) ++
      (if pass_l_flag then flat_map (λ n, ["-l"; n]) (library_links o) else [])
    else []))%list.
Definition add_native_deps (build_state : BuildOutputs) (scripts : BuildScripts) (pass_l_flag : bool)
    (current_id : PackageId) : cresult (list string) :=
  foldM (λ args key,
           match hget build_state key with
           | Some output => Ok (args ++ native_args current_id pass_l_flag key output)%list
           | None => missing_state key
           end) [] (to_link scripts).

(** [add_custom_env] *)
Definition add_custom_env (build_state : BuildOutputs) (current_id : PackageId) (kind : PlatformKind)
    (env : gmap string string) : gmap string string :=
  match hget build_state (current_id, kind) with
  | Some output => foldl (λ env kv, <[kv.1 := kv.2]> env) env (env_vars output)
  | None => env
  end.

(** [filter_dynamic_search_path] *)
Definition search_dir (dir : path) : path :=
  match split_once "=" dir with
  | (kind, Some p) =>
      if existsb (String.eqb kind) ["native"; "crate"; "dependency"; "framework"; "all"] then p else dir
  | _ => dir
  end.
Definition filter_dynamic_search_path (paths : list path) (root_output : path) : list path :=
  List.filter (λ dir, path_starts_with dir root_output) (search_dir <$> paths).

(** [add_plugin_deps]: the directories added to the search path. *)
Definition add_plugin_deps (build_state : BuildOutputs) (scripts : BuildScripts) (root_output : path)
    (search_path : list path) : cresult (list path) :=
  foldM (λ search_path id,
           match hget build_state (id, KHost) with
           | Some output => Ok (search_path ++ filter_dynamic_search_path (library_paths output) root_output)%list
           | None => id ← PackageId.display id; Err ("couldn't find libs for plugin dep " ++ id)
           end) search_path (plugins scripts).

(** The [CARGO_CFG_*] variables of [build_work]: the values of one key are
    collected, and a bare name makes the variable empty. *)
Definition cfg_entry (m : gmap string (option (list string))) (c : Cfg) : gmap string (option (list string)) :=
  match c with
  | Cfg.Name n => <[n := None]> m
  | Cfg.KeyPair k v => match m !! k with
                   | Some (Some values) => <[k := Some (values ++ [v])%list]> m
                   | Some None => m
                   | None => <[k := Some [v]]> m
                   end
  end.
Definition cfg_value (v : option (list string)) : string :=
  match v with Some l => join "," l | None => "" end.
Definition cfg_map (cs : list Cfg) : gmap string string := cfg_value <$> foldl cfg_entry ∅ cs.

(** * Facts *)
Local Arguments hinsert : simpl never.
Local Arguments hdom : simpl never.

Definition keys_of (s : BuildScripts) : list (hkey ScriptKey) := to_key <$> to_link s.

(** The set of scripts seen is that of the list, which has none twice. *)
Record scripts_wf (s : BuildScripts) : Prop := {
  wf_seen : hdom (seen_to_link s) = list_to_set (keys_of s);
  wf_nodup : NoDup (keys_of s);
}.

Lemma no_scripts_wf : scripts_wf no_scripts.
Proof. split; [done|constructor]. Qed.

Lemma add_to_link_spec s key : scripts_wf s →
  scripts_wf (add_to_link s key) ∧ plugins (add_to_link s key) = plugins s ∧
  ∀ k, k ∈ keys_of (add_to_link s key) ↔ k ∈ keys_of s ∨ k = to_key key.
Proof.
  intros [Hseen Hnd]. unfold add_to_link. rewrite hcontains_hdom. case_bool_decide as Hin.
  - split; [done|]. split; [done|]. intros k. rewrite Hseen, elem_of_list_to_set in Hin.
    split; [by left|]. by intros [?| ->].
  - rewrite Hseen, elem_of_list_to_set in Hin. split; [split|split; [done|]].
    + cbn [seen_to_link]. rewrite hdom_hinsert, Hseen. unfold keys_of. cbn [to_link].
      rewrite fmap_app, list_to_set_app_L. set_solver.
    + unfold keys_of in *. simpl. rewrite fmap_app. apply NoDup_app. split; [done|]. split; [|apply NoDup_singleton].
      intros k Hk Hk'%list_elem_of_singleton. by subst.
    + intros k. unfold keys_of. simpl. rewrite fmap_app, elem_of_app. simpl. by rewrite list_elem_of_singleton.
Qed.

Lemma link_all_spec l s : scripts_wf s →
  scripts_wf (foldl add_to_link s l) ∧ plugins (foldl add_to_link s l) = plugins s ∧
  ∀ k, k ∈ keys_of (foldl add_to_link s l) ↔ k ∈ keys_of s ∨ k ∈ to_key <$> l.
Proof.
  revert s. induction l as [|key l IH]; intros s Hs; simpl.
  - split; [done|]. split; [done|]. intros k. rewrite elem_of_nil. tauto.
  - destruct (add_to_link_spec s key Hs) as (H1 & H2 & H3). destruct (IH _ H1) as (H4 & H5 & H6).
    split; [done|]. split; [congruence|]. intros k. rewrite H6, H3. rewrite elem_of_cons. tauto.
Qed.

Lemma elem_of_btree_insert {A} (cmp : A → A → comparison) x y s :
  y ∈ btree_insert cmp x s → y = x ∨ y ∈ s.
Proof.
  unfold btree_insert. destruct (existsb _ s); [by right|]. rewrite insert_by_perm.
  by intros [->|?]%elem_of_cons; [left|right].
Qed.

Lemma elem_of_btree_inserts l s (y : PackageId) :
  y ∈ foldl (λ s p, btree_insert package_id_cmp p s) s l → y ∈ s ∨ y ∈ l.
Proof.
  revert s. induction l as [|x l IH]; intros s; simpl; [by left|].
  intros [[->|Hy]%elem_of_btree_insert|Hy]%IH; [right; left|by left|right; by right].
Qed.

(** When every script has run, the command gets the paths of all of them, in
    the order of the list, and the flags of the package's own. *)
Lemma add_native_deps_ok build_state s flag id :
  (∀ key, key ∈ to_link s → is_Some (hget build_state key)) →
  add_native_deps build_state s flag id
  = Ok (flat_map (λ key, default [] (native_args id flag key <$> hget build_state key)) (to_link s)).
Proof.
  unfold add_native_deps. intros Hall. set (f := λ key, default [] _).
  assert (Hacc : ∀ args, foldM (λ args key,
      match hget build_state key with
      | Some output => Ok (args ++ native_args id flag key output)%list
      | None => missing_state key
      end) args (to_link s) = Ok (args ++ flat_map f (to_link s))%list); [|apply Hacc].
  revert Hall. induction (to_link s) as [|key l IH]; intros Hall args; cbn [foldM flat_map];
    [by rewrite app_nil_r|].
  destruct (Hall key ltac:(by left)) as [o Ho]. unfold f at 1. rewrite Ho, IH, <-app_assoc; [done|].
  intros k Hk. apply Hall. by right.
Qed.

(** ** The scripts a unit links *)

(** Those of the packages that have one, along dependencies that can be
    linked and are not for the host. *)
Inductive linked (k : hkey ScriptKey) (u : CUnit) : Prop :=
| linked_own :
    is_custom_build (unit_target u) = false → has_custom_build (unit_pkg u) = true →
    k = to_key (package_id (unit_pkg u), unit_kind u) → linked k u
| linked_dep l v :
    hget unit_dependencies u = Some l → v ∈ l →
    for_host (unit_target v) = false → linkable (unit_target v) = true → linked k v → linked k u.

Context (rank : hkey CUnit → nat) (roots : list CUnit).
Definition known (u : CUnit) : Prop :=
  u ∈ roots ∨ ∃ w l, hget unit_dependencies w = Some l ∧ u ∈ l.

(** The graph [build_unit_dependencies] makes: every unit has its entry, there
    is no cycle, and packages with one id are one package. *)
Record graph_ok : Prop := {
  graph_closed : ∀ u, known u → is_Some (hget unit_dependencies u);
  graph_acyclic : ∀ u l v, hget unit_dependencies u = Some l → v ∈ l →
    (rank (to_key v) < rank (to_key u))%nat;
  graph_packages : ∀ u v, known u → known v → to_key u = to_key v →
    has_custom_build (unit_pkg u) = has_custom_build (unit_pkg v);
}.
Context (Hgraph : graph_ok).

Lemma linked_key k u v : known u → known v → to_key u = to_key v → linked k u → linked k v.
Proof.
  intros Hu Hv Hk Hl. pose proof Hk as (Hid & Ht & _ & Hkind & _)%unit_key_eq.
  destruct Hl as [Hc Hb ->|l w Hget Hw Hh Hln Hl].
  - apply linked_own; [by rewrite <-Ht|by rewrite <-(graph_packages Hgraph u v)|].
    unfold to_key. simpl. f_equal; [exact Hid|by rewrite Hkind].
  - eapply linked_dep; [|done..]. by rewrite <-(hget_key _ u v).
Qed.

Definition entry_ok (u : CUnit) (s : BuildScripts) : Prop :=
  scripts_wf s ∧
  (∀ k, k ∈ keys_of s → linked k u) ∧
  (is_custom_build (unit_target u) = false → ∀ k, linked k u → k ∈ keys_of s) ∧
  (∀ p, p ∈ plugins s → ∃ l v kind, hget unit_dependencies u = Some l ∧ v ∈ l ∧
     for_host (unit_target v) = true ∧ linked (to_key (p, kind)) v).

Definition state_inv (st : MapState) : Prop :=
  ∀ i u s, out st !! i = Some (u, s) → known u ∧ to_key u = i ∧ entry_ok u s.

Definition grows (n : nat) (st st' : MapState) : Prop :=
  (∀ i x, out st !! i = Some x → out st' !! i = Some x) ∧
  (∀ i, is_Some (out st' !! i) → is_Some (out st !! i) ∨ (rank i < n)%nat).

Lemma map_grows_trans n a b c : grows n a b → grows n b c → grows n a c.
Proof.
  intros [Ha1 Ha2] [Hb1 Hb2]. split; [by eauto|]. intros i Hi. destruct (Hb2 i Hi) as [Hi'|]; [by apply Ha2|by right].
Qed.
Lemma grows_weaken n m a b : (n ≤ m)%nat → grows n a b → grows m a b.
Proof. intros Hle [H1 H2]. split; [done|]. intros i Hi. destruct (H2 i Hi); [by left|right; lia]. Qed.
Lemma map_grows_refl n a : grows n a a.
Proof. split; [done|by left]. Qed.

Definition visited (n : nat) (st : MapState) (u : CUnit) (r : option (cresult MapState)) : Prop :=
  ∃ st', r = Some (Ok st') ∧ state_inv st' ∧ grows n st st' ∧ is_Some (hget (out st') u).

(** What a list of dependencies contributes. *)
Definition from_deps (targets : list CUnit) (k : hkey ScriptKey) : Prop :=
  ∃ v, v ∈ targets ∧ for_host (unit_target v) = false ∧ linkable (unit_target v) = true ∧ linked k v.
Definition plugins_from (targets : list CUnit) (p : PackageId) : Prop :=
  ∃ v kind, v ∈ targets ∧ for_host (unit_target v) = true ∧ linked (to_key (p, kind)) v.

Lemma take_scripts_spec ret dep s u : scripts_wf ret → entry_ok u s → known u → known dep →
  to_key u = to_key dep →
  scripts_wf (take_scripts ret dep s) ∧
  (∀ k, k ∈ keys_of (take_scripts ret dep s) ↔ k ∈ keys_of ret ∨ from_deps [dep] k) ∧
  (∀ p, p ∈ plugins (take_scripts ret dep s) → p ∈ plugins ret ∨ plugins_from [dep] p).
Proof.
  intros Hret (Hs & Hsound & Hcomplete & _) Hu Hdep Hk.
  pose proof Hk as (_ & Ht & _)%unit_key_eq.
  unfold take_scripts. destruct (for_host (unit_target dep)) eqn:Hh; [|destruct (linkable (unit_target dep)) eqn:Hl].
  - split; [by destruct Hret|]. split.
    + intros k. split; [by left|]. intros [Hk'|(v & ->%list_elem_of_singleton & ? & _)]; [done|congruence].
    + intros p [Hp|Hp]%elem_of_btree_inserts; [by left|right].
      apply list_elem_of_fmap in Hp as ([q kind] & -> & Hq). exists dep, kind.
      split; [by apply list_elem_of_singleton|]. split; [done|]. apply (linked_key _ u dep); [done..|].
      apply Hsound, list_elem_of_fmap. by exists (q, kind).
  - destruct (link_all_spec (to_link s) ret Hret) as (H1 & H2 & H3). split; [done|]. split.
    + intros k. rewrite H3. split; (intros [Hin|Hin]; [by left|right]).
      * exists dep. split; [by apply list_elem_of_singleton|]. split; [done|]. split; [done|].
        apply (linked_key k u dep); [done..|]. by apply Hsound.
      * destruct Hin as (v & ->%list_elem_of_singleton & _ & _ & Hlv). apply Hcomplete.
        { rewrite Ht. destruct (is_custom_build (unit_target dep)) eqn:Hc; [|done].
          apply custom_build_not_lib in Hc. apply linkable_is_lib in Hl. congruence. }
        by apply (linked_key k dep u).
    + rewrite H2. by left.
  - split; [done|]. split; [|by left]. intros k. split; [by left|].
    intros [?|(v & ->%list_elem_of_singleton & _ & ? & _)]; [done|congruence].
Qed.

Lemma walk_deps_ok visit n targets st ret :
  (∀ v st, known v → (rank (to_key v) < n)%nat → state_inv st → visited n st v (visit st v)) →
  (∀ v, v ∈ targets → known v ∧ (rank (to_key v) < n)%nat) →
  state_inv st → scripts_wf ret →
  ∃ st' ret', build_deps visit targets st ret = Some (Ok (st', ret')) ∧ state_inv st' ∧ grows n st st' ∧
    scripts_wf ret' ∧
    (∀ k, k ∈ keys_of ret' ↔ k ∈ keys_of ret ∨ from_deps targets k) ∧
    (∀ p, p ∈ plugins ret' → p ∈ plugins ret ∨ plugins_from targets p).
Proof.
  intros Hvisit. revert st ret. induction targets as [|dep targets IH]; intros st ret Hts Hst Hret.
  - exists st, ret. split; [done|]. split; [done|]. split; [apply map_grows_refl|]. split; [done|].
    split; [|by left]. intros k. split; [by left|]. intros [?|(v & Hv & _)]; [done|by apply elem_of_nil in Hv].
  - destruct (Hts dep ltac:(by left)) as [Hknown Hrank]. cbn [build_deps].
    destruct (Hvisit dep st Hknown Hrank Hst) as (st1 & -> & Hst1 & Hg1 & [s Hs]). cbn [fbind]. rewrite Hs.
    pose proof (hget_Some_inv _ _ _ Hs) as [u Hu]. destruct (Hst1 _ _ _ Hu) as (Hku & Hkey & Hentry).
    destruct (take_scripts_spec ret dep s u Hret Hentry Hku Hknown Hkey) as (H1 & H2 & H3).
    destruct (IH st1 (take_scripts ret dep s)) as (st2 & ret2 & -> & H4 & H5 & H6 & H7 & H8).
    { intros v Hv. apply Hts. by right. } { done. } { done. }
    exists st2, ret2. split; [done|]. split; [done|]. split; [by eapply map_grows_trans|]. split; [done|]. split.
    + intros k. rewrite H7, H2. unfold from_deps. setoid_rewrite elem_of_cons. 
      setoid_rewrite elem_of_nil. split; [intros [[?|(v & [->|[]] & ?)]|(v & ? & ?)]; eauto|].
      intros [?|(v & [->|?] & ?)]; eauto 6.
    + intros p Hp. apply H8 in Hp as [[Hp|(v & kind & ->%list_elem_of_singleton & ?)]%H3|(v & kind & ? & ?)];
        [by left|right; exists dep, kind; split; [by left|done]|right; exists v, kind; split; [by right|done]].
Qed.

Lemma apply_override_out st u : out (apply_override st u) = out st.
Proof. unfold apply_override. destruct (links (unit_pkg u)); [|done]. by destruct (overrides !! _). Qed.

Lemma own_scripts_spec u :
  scripts_wf (own_scripts u) ∧ plugins (own_scripts u) = [] ∧
  ∀ k, k ∈ keys_of (own_scripts u) ↔
    is_custom_build (unit_target u) = false ∧ has_custom_build (unit_pkg u) = true ∧
    k = to_key (package_id (unit_pkg u), unit_kind u).
Proof.
  unfold own_scripts. destruct (is_custom_build (unit_target u)), (has_custom_build (unit_pkg u)); simpl;
    try (split; [apply no_scripts_wf|split; [done|]]; intros k; split; [by intros ?%elem_of_nil|by intros (? & ? & _)]).
  destruct (add_to_link_spec no_scripts (package_id (unit_pkg u), unit_kind u) no_scripts_wf) as (H1 & H2 & H3).
  split; [done|]. split; [done|]. intros k. rewrite H3. split; [by intros [?%elem_of_nil|?]|by right; naive_solver].
Qed.

(** The dependencies that are walked: those of the graph, unless the script of
    a build-script target is overridden. *)
Lemma dep_targets_spec ov u l : hget unit_dependencies u = Some l →
  ∃ ts, dep_targets ov u = Ok ts ∧ (∀ v, v ∈ ts → v ∈ l) ∧
        (is_custom_build (unit_target u) = false → ∀ v, v ∈ l → v ∈ ts).
Proof.
  intros Hl. unfold dep_targets. destruct (_ && _) eqn:Hc.
  - exists []. split; [done|]. split; [by intros v ?%elem_of_nil|].
    apply andb_prop in Hc as [-> _]. done.
  - rewrite Hl. exists (sort_by unit_cmp l). split; [done|]. by setoid_rewrite sort_by_perm.
Qed.

Lemma build_ok fuel n u st : known u → (rank (to_key u) < n)%nat → (rank (to_key u) < fuel)%nat →
  state_inv st → visited n st u (build fuel st u).
Proof.
  revert n u st. induction fuel as [|fuel IH]; intros n u st Hu Hn Hf Hst; [lia|]. cbn [build].
  destruct (hcontains (out st) u) eqn:Hin.
  { apply hcontains_true in Hin as [s Hs]. exists st. split; [done|]. split; [done|].
    split; [apply map_grows_refl|by eauto]. }
  set (st0 := apply_override st u).
  assert (Hst0 : state_inv st0) by (unfold state_inv, st0; by rewrite apply_override_out).
  destruct (graph_closed Hgraph u Hu) as [l Hl].
  destruct (dep_targets_spec (build_script_overridden st0) u l Hl) as (ts & -> & Hts1 & Hts2). cbn [fbind].
  set (targets := sort_by _ ts).
  assert (Htargets : ∀ v, v ∈ targets ↔ v ∈ ts) by (intros v; unfold targets; by rewrite sort_by_perm).
  destruct (own_scripts_spec u) as (Hw & Hpl & Hown).
  destruct (walk_deps_ok (build fuel) (rank (to_key u)) targets st0 (own_scripts u))
    as (st1 & ret & -> & Hst1 & [Hg1 Hg2] & Hret & Hkeys & Hplug); [|  |done|done|].
  { intros v st' Hv Hr Hst'. apply IH; [done|done|lia|done]. }
  { intros v Hv%Htargets%Hts1. split; [right; by eauto|]. by eapply graph_acyclic. }
  cbn [fbind]. unfold st0 in Hg1, Hg2. rewrite apply_override_out in Hg1, Hg2.
  assert (Hnot : out st1 !! to_key u = None).
  { destruct (out st1 !! to_key u) eqn:Ho; [|done]. exfalso.
    destruct (Hg2 (to_key u)) as [[x Hx]|]; [by eauto| |lia].
    apply not_true_iff_false in Hin. apply Hin, hcontains_true. unfold hget. rewrite Hx. by eexists. }
  assert (hcontains (out st1) u = false) as ->.
  { apply not_true_iff_false. rewrite hcontains_true. intros [x Hx]. unfold hget in Hx. by rewrite Hnot in Hx. }
  eexists. split; [done|]. cbn [out].
  assert (Hlook : ∀ i, hinsert u ret (out st1) !! i
    = if decide (i = to_key u) then Some (u, ret) else out st1 !! i).
  { intros i. unfold hinsert. rewrite Hnot. case_decide as Hi; [by rewrite Hi, lookup_insert_eq|].
    by rewrite lookup_insert_ne. }
  split; [|split].
  - intros i v s. cbn [out]. rewrite Hlook. case_decide as Hi; [|by apply Hst1]. intros [= <- <-].
    split; [done|]. split; [done|]. split; [done|]. split; [|split].
    + intros k [(Hc & Hb & ->)%Hown|(w & Hw1%Htargets & Hw2 & Hw3 & Hw4)]%Hkeys; [by apply linked_own|].
      eapply linked_dep; [done|by apply Hts1|done..].
    + intros Hc k Hlk. apply Hkeys. destruct Hlk as [_ Hb Hk|l' w Hl' Hw1 Hw2 Hw3 Hw4]; [left; by apply Hown|right].
      assert (l' = l) as -> by congruence. exists w. split; [|done]. by apply Htargets, Hts2.
    + intros p Hp. apply Hplug in Hp. rewrite Hpl in Hp. destruct Hp as [?%elem_of_nil|(w & kind & Hw1 & ? & ?)]; [done|].
      exists l, w, kind. split; [done|]. split; [by apply Hts1, Htargets|done].
  - split.
    + intros i x Hx. cbn [out]. rewrite Hlook. case_decide as Hi; [|by apply Hg1].
      subst i. apply Hg1 in Hx. congruence.
    + intros i [x Hx]. cbn [out] in Hx. rewrite Hlook in Hx. case_decide as Hi; [right; by subst|].
      destruct (Hg2 i) as [|]; [by eauto|by left|right; lia].
  - unfold hget. rewrite Hlook. rewrite decide_True by done. by eauto.
Qed.

Lemma build_map_ok fuel n us st : (∀ u, u ∈ us → known u ∧ (rank (to_key u) < n)%nat) → (n ≤ fuel)%nat →
  state_inv st → ∃ st', build_map fuel st us = Some (Ok st') ∧ state_inv st' ∧
    grows n st st' ∧ ∀ u, u ∈ us → is_Some (hget (out st') u).
Proof.
  revert st. induction us as [|u us IH]; intros st Hus Hle Hst.
  - exists st. split; [done|]. split; [done|]. split; [apply map_grows_refl|]. by intros u ?%elem_of_nil.
  - destruct (Hus u ltac:(by left)) as [Hu Hr]. cbn [build_map].
    destruct (build_ok fuel n u st Hu Hr ltac:(lia) Hst) as (st1 & -> & Hst1 & Hg1 & [s Hs]). cbn [fbind].
    destruct (IH st1) as (st2 & -> & Hst2 & Hg2 & Hall); [intros v Hv; apply Hus; by right|done|done|].
    exists st2. split; [done|]. split; [done|]. split; [by eapply map_grows_trans|].
    intros v [->|Hv]%elem_of_cons; [|by apply Hall].
    apply hget_Some_inv in Hs as [w Hw]. apply Hg2 in Hw. unfold hget. rewrite Hw. by eauto.
Qed.

Lemma known_root u : u ∈ roots → known u.
Proof. by left. Qed.
End model.

(** C8. On a finite graph of units without cycles, with as much fuel as the graph is deep, [build_map]
    returns and panics nowhere, and every unit to be built gets its entry: each build script once, and
    for a unit that is not itself a build script exactly the scripts of its own package and of the
    packages it reaches along dependencies that can be linked into it; the plugins are scripts that
    dependencies for the host link. *)
Theorem build_map_spec `{SV : SemverLib} `{UL : UrlLib} `{RS : RustStd}
    (unit_cmp : CUnit → CUnit → comparison) (D : hashmap CUnit (list CUnit))
    (overrides : gmap (string * PlatformKind) BuildOutput) (rank : hkey CUnit → nat) (roots : list CUnit)
    (depth : nat) (scripts0 : hashset (PackageId * PlatformKind)) (outputs0 : hashmap (PackageId * PlatformKind) BuildOutput) :
  graph_ok D rank roots → (∀ u, u ∈ roots → (rank (to_key u) < depth)%nat) →
  ∃ st, build_map unit_cmp D overrides depth (mkMapState ∅ scripts0 outputs0) roots = Some (Ok st) ∧
    ∀ u, u ∈ roots → ∃ s, hget (out st) u = Some s ∧ NoDup (keys_of s) ∧
      (is_custom_build (unit_target u) = false → ∀ k, k ∈ keys_of s ↔ linked D k u) ∧
      (∀ p, p ∈ plugins s → ∃ l v kind, hget D u = Some l ∧ v ∈ l ∧
         for_host (unit_target v) = true ∧ linked D (to_key (p, kind)) v).
Proof.
  intros Hg Hdepth.
  destruct (build_map_ok unit_cmp D overrides rank roots Hg depth depth roots (mkMapState ∅ scripts0 outputs0))
    as (st & Hrun & Hst & _ & Hall).
  { intros u Hu. split; [by left|by apply Hdepth]. } { done. } { by intros i u s Hi. }
  exists st. split; [done|]. intros u Hu. destruct (Hall u Hu) as [s Hs]. exists s. split; [done|].
  apply hget_Some_inv in Hs as [v Hv]. destruct (Hst _ _ _ Hv) as (Hkv & Hkey & Hwf & Hsound & Hcomplete & Hplug).
  assert (Hku : known D roots u) by by left. pose proof Hkey as (_ & Ht & _)%unit_key_eq.
  split; [by apply wf_nodup|]. split.
  - intros Hc k. split; intros Hk.
    + apply (linked_key D rank roots Hg k v u); [done..|by apply Hsound].
    + apply Hcomplete; [by rewrite Ht|]. by apply (linked_key D rank roots Hg k u v).
  - intros p Hp. destruct (Hplug p Hp) as (l & w & kind & Hl & Hw). exists l, w, kind.
    split; [|done]. by rewrite <-(hget_key _ v u).
Qed.

(** * Concrete runs *)
Section runs.
Local Existing Instance sem_lib.
Local Existing Instance hier_lib.
Local Existing Instance std_order.

(** A binary and the library of another package, which has a build script. *)
Definition lib_z : CUnit := mkUnit pkg_z (tgt (TLib [LibLib]) "z" false) default_dev KTarget MBuild.
Definition small_graph : hashmap CUnit (list CUnit) := hinsert bin_unit [lib_z] (hinsert lib_z [] ∅).
Definition small_rank (k : hkey CUnit) : nat := if decide (k = to_key bin_unit) then 1 else 0.
Definition any_order (_ _ : CUnit) : comparison := Eq.

Lemma lib_z_key : to_key bin_unit ≠ to_key lib_z.
Proof. intros (_ & Ht & _)%unit_key_eq. discriminate Ht. Qed.

Lemma small_graph_get u l : hget small_graph u = Some l →
  to_key u = to_key bin_unit ∧ l = [lib_z] ∨ to_key u = to_key lib_z ∧ l = [].
Proof.
  unfold small_graph. rewrite !hget_hinsert. case_decide as H1; [intros [= <-]; by left|].
  case_decide as H2; [intros [= <-]; by right|]. by rewrite hget_empty.
Qed.

Lemma small_known u : known small_graph [bin_unit] u → u = bin_unit ∨ u = lib_z.
Proof.
  intros [->%list_elem_of_singleton|(w & l & Hw & Hu)]; [by left|right].
  apply small_graph_get in Hw as [[_ ->]|[_ ->]]; [by apply list_elem_of_singleton|by apply elem_of_nil in Hu].
Qed.

Lemma small_graph_ok : graph_ok small_graph small_rank [bin_unit].
Proof.
  split.
  - intros u [->| ->]%small_known; unfold small_graph; rewrite !hget_hinsert.
    + rewrite decide_True by done. by eauto.
    + rewrite decide_False by apply lib_z_key. rewrite decide_True by done. by eauto.
  - intros u l v [[Hk ->]|[_ ->]]%small_graph_get Hv; [|by apply elem_of_nil in Hv].
    apply list_elem_of_singleton in Hv as ->. unfold small_rank. rewrite Hk.
    rewrite decide_False by (intros Hz; by apply lib_z_key). rewrite decide_True by done. lia.
  - intros u v [->| ->]%small_known [->| ->]%small_known Hk; try done; exfalso; by apply lib_z_key.
Qed.

Definition small_map : option (cresult MapState) :=
  build_map any_order small_graph ∅ 2 (mkMapState ∅ ∅ ∅) [bin_unit].
Definition linked_names (r : option (cresult MapState)) (u : CUnit) : option (list string) :=
  match r with Some (Ok st) => (λ s, pid_name ∘ fst <$> to_link s) <$> hget (out st) u | _ => None end.

Lemma build_map_spec_witness :
  linked_names small_map bin_unit = Some ["a"; "z"] ∧
  graph_ok small_graph small_rank [bin_unit] ∧
  ∃ st, small_map = Some (Ok st) ∧
    ∀ u, u ∈ [bin_unit] → ∃ s, hget (out st) u = Some s ∧ NoDup (keys_of s) ∧
      (is_custom_build (unit_target u) = false → ∀ k, k ∈ keys_of s ↔ linked small_graph k u) ∧
      (∀ p, p ∈ plugins s → ∃ l v kind, hget small_graph u = Some l ∧ v ∈ l ∧
         for_host (unit_target v) = true ∧ linked small_graph (to_key (p, kind)) v).
Proof.
  split; [vm_eq|]. split; [exact small_graph_ok|].
  apply (build_map_spec any_order small_graph ∅ small_rank [bin_unit] 2 ∅ ∅ small_graph_ok).
  intros u ->%list_elem_of_singleton. apply Nat.ltb_lt. vm_eq.
Defined.
End runs.
