(* ===== verification/JobQueue.v ===== *)
(** The job queue, [src/cargo/core/compiler/job_queue.rs]: the loop that starts
    jobs as their dependencies finish and as the jobserver gives tokens. *)
From S2P Require Import Prelude Str Extern SourceId PackageId DepQueue Target Profiles Package.

Local Open Scope string_scope.

(** * Keys *)
Section keys.
Context `{SV : SemverLib} `{UL : UrlLib}.

(** [struct Key], as its equality sees it: the package's id, the target, the
    profile up to its name, the platform and the mode. *)
Definition JobKey : Type := (hkey PackageId * Target) * (hkey Profile * (PlatformKind * CompileMode)).
#[global] Instance JobKey_eq_dec : EqDecision JobKey.
Proof. unfold JobKey. apply _. Defined.
#[global] Instance JobKey_countable : Countable JobKey.
Proof. unfold JobKey. apply _. Defined.
Definition key_pkg (k : JobKey) : hkey PackageId := k.1.1.
Definition key_target (k : JobKey) : Target := k.1.2.
Definition key_kind (k : JobKey) : PlatformKind := k.2.2.1.
Definition key_mode (k : JobKey) : CompileMode := k.2.2.2.
(** [Key::new] *)
Definition key_new (u : CUnit) : JobKey :=
  ((to_key (package_id (unit_pkg u)), unit_target u), (to_key (unit_profile u), (unit_kind u, unit_mode u))).
(** [Key::dependencies], on what [dep_targets] returned: a test does not need
    the binaries of its package to be compiled. *)
Definition key_dependencies (k : JobKey) (dep_targets : list CUnit) : list JobKey :=
  omap (λ u, if is_test (key_target k) && is_bin (unit_target u) then None else Some (key_new u)) dep_targets.
(** [Key::name_for_progress] *)
Definition name_for_progress (k : JobKey) : string :=
  let pkg_name := (key_pkg k).1.1 in
  let annotated a := tgt_name (key_target k) ++ "(" ++ a ++ ")" in
  match key_mode k with
  | MDoc _ => pkg_name ++ "(doc)"
  | MRunCustomBuild => pkg_name ++ "(build)"
  | _ =>
      match tgt_kind (key_target k) with
      | TLib _ => pkg_name
      | TCustomBuild => pkg_name ++ "(build.rs)"
      | TBin => annotated "bin"
      | TTest => annotated "test"
      | TBench => annotated "bench"
      | TExampleBin | TExampleLib _ => annotated "example"
      end
  end.
End keys.

(** * State *)
Section state.
Context `{SV : SemverLib} `{UL : UrlLib} `{RS : RustStd}.
(** A job, its two closures left abstract, and the build plan. *)
Context {Job Plan : Type} (plan_update : string → string → list string → Plan → cresult Plan).
(** What is read of the context: the output of build scripts, whose warnings
    are shown, and whether a build plan is made. *)
Context (script_warnings : hkey PackageId → PlatformKind → option (list string))
        (show_warnings : hkey PackageId → bool) (build_plan : bool).

(** [struct PendingBuild] *)
Record PendingBuild := mkPending { amt : nat; fresh : Freshness }.

(** [struct JobQueue], without the channel. *)
Record JobQueue := mkJobQueue {
  queue : DependencyQueue JobKey (list (Job * Freshness));
  active : list JobKey;
  jobs_pending : gmap JobKey PendingBuild;
  compiled : gset (hkey PackageId);
  documented : gset (hkey PackageId);
  counts : gmap (hkey PackageId) nat;
}.
Definition jobqueue_new : JobQueue := mkJobQueue DepQueue.new [] ∅ ∅ ∅ ∅.

(** [enqueue] *)
Definition enqueue (j : JobQueue) (u : CUnit) (dep_targets : list CUnit) (job : Job) (fresh : Freshness) : JobQueue :=
  let key := key_new u in
  mkJobQueue (DepQueue.queue Fresh key [] (key_dependencies key dep_targets) (λ v, (v ++ [(job, fresh)])%list) (queue j))
             (active j) (jobs_pending j) (compiled j) (documented j)
             (<[key_pkg key := S (default 0%nat (counts j !! key_pkg key))]> (counts j)).

(** What the shell shows. *)
Inductive Printed :=
| Warned (s : string) | Line (s : string) | Status (verb : string) (pkg : hkey PackageId) | VerboseStatus (verb : string) (pkg : hkey PackageId).

(** The local variables of [drain_the_queue], with what was requested of the
    jobserver and printed. *)
Record Drain := mkDrain {
  jq : JobQueue;
  tokens : nat;
  waiting : list (JobKey * Job * Freshness);   (* [queue] *)
  error : option string;
  plan : Plan;
  requested : nat;
  printed : list Printed;
}.
Definition print (d : Drain) (p : list Printed) : Drain :=
  mkDrain (jq d) (tokens d) (waiting d) (error d) (plan d) (requested d) (printed d ++ p)%list.

(** [enum Message] *)
Inductive Message :=
| MsgRun (cmd : string)
| MsgBuildPlan (module_name cmd : string) (filenames : list string)
| MsgStdout (s : string)
| MsgStderr (s : string)
| MsgFixDiagnostic (s : string)
| MsgToken (r : cresult unit)
| MsgFinish (key : JobKey) (result : cresult unit).

(** * Starting jobs *)

(** [dequeue], once: every job of the package joins the local queue.  A token
    is requested for each, since the local queue is not empty then. *)
Definition total_fresh (fresh : Freshness) (jobs : list (Job * Freshness)) : Freshness :=
  foldl (λ fr jf, combine jf.2 fr) fresh jobs.
Definition push_job (key : JobKey) (fresh : Freshness) (d : Drain) (jf : Job * Freshness) : Drain :=
  let w := (waiting d ++ [(key, jf.1, combine jf.2 fresh)])%list in
  mkDrain (jq d) (tokens d) w (error d) (plan d)
          (if negb (bool_decide (active (jq d) = [])) || negb (bool_decide (length w = 0%nat))
           then S (requested d) else requested d) (printed d).
Definition set_queue (d : Drain) q pend : Drain :=
  let j := jq d in
  mkDrain (mkJobQueue q (active j) pend (compiled j) (documented j) (counts j))
          (tokens d) (waiting d) (error d) (plan d) (requested d) (printed d).
Fixpoint dequeue_all (fuel : nat) (d : Drain) : option (cresult Drain) :=
  match dequeue (queue (jq d)) with
  | Err e => match e with end
  | Panic m => Some (Panic m)
  | Ok (None, q) => Some (Ok (set_queue d q (jobs_pending (jq d))))
  | Ok (Some (fr, key, jobs), q) =>
      match fuel with
      | O => None
      | S fuel =>
          let d := set_queue d q (<[key := mkPending (length jobs) (total_fresh fr jobs)]> (jobs_pending (jq d))) in
          dequeue_all fuel (foldl (push_job key fr) d jobs)
      end
  end.

(** [note_working_on] *)
Definition mark (d : Drain) (comp docu : gset (hkey PackageId)) (p : list Printed) : Drain :=
  let j := jq d in
  print (mkDrain (mkJobQueue (queue j) (active j) (jobs_pending j) comp docu (counts j))
                 (tokens d) (waiting d) (error d) (plan d) (requested d) (printed d)) p.
Definition note_working_on (d : Drain) (key : JobKey) (fr : Freshness) : cresult Drain :=
  let j := jq d in
  let pkg := key_pkg key in
  let is_doc := mode_is_doc (key_mode key) in
  if (bool_decide (pkg ∈ compiled j) && negb is_doc) || (bool_decide (pkg ∈ documented j) && is_doc) then Ok d
  else
    match fr with
    | Dirty =>
        if is_doc then
          if negb (mode_is_any_test (key_mode key))
          then Ok (mark d (compiled j) ({[pkg]} ∪ documented j) [Status "Documenting" pkg]) else Ok d
        else Ok (mark d ({[pkg]} ∪ compiled j) (documented j)
                      [Status (if mode_is_check (key_mode key) then "Checking" else "Compiling") pkg])
    | Fresh =>
        match counts j !! pkg with
        | None => Panic "no entry found for key"
        | Some n =>
            if (n =? 0)%nat && negb (bool_decide (key_mode key = MDoctest) && bool_decide (pkg ∈ compiled j))
            then Ok (mark d ({[pkg]} ∪ compiled j) (documented j) [VerboseStatus "Fresh" pkg]) else Ok d
        end
    end.

(** [run]: a fresh job runs at once, a dirty one in a thread; both report with
    a [Finish] message. *)
Definition run (d : Drain) (key : JobKey) (fr : Freshness) (job : Job) : cresult Drain :=
  let j := jq d in
  match counts j !! key_pkg key with
  | None => Panic "called `Option::unwrap()` on a `None` value"
  | Some O => Panic "attempt to subtract with overflow"
  | Some (S n) =>
      let d := mkDrain (mkJobQueue (queue j) (active j ++ [key])%list (jobs_pending j) (compiled j) (documented j)
                                   (<[key_pkg key := n]> (counts j)))
                       (tokens d) (waiting d) (error d) (plan d) (requested d) (printed d) in
      if negb build_plan then note_working_on d key fr else Ok d
  end.
Definition set_waiting (d : Drain) w : Drain :=
  mkDrain (jq d) (tokens d) w (error d) (plan d) (requested d) (printed d).
(** The loop that spawns work while there are tokens. *)
Fixpoint spawn (fuel : nat) (d : Drain) : option (cresult Drain) :=
  if bool_decide (error d = None) && (length (active (jq d)) <? tokens d + 1)%nat then
    match waiting d with
    | [] => Some (Ok d)
    | (key, job, fr) :: w =>
        match fuel with
        | O => None
        | S fuel => let* d := Some (run (set_waiting d w) key fr job) in spawn fuel d
        end
    end
  else Some (Ok d).
Definition schedule (d : Drain) : option (cresult Drain) :=
  let* d := dequeue_all (size (dep_map (queue (jq d)))) d in
  spawn (length (waiting d)) d.

(** * Messages *)

(** [emit_warnings] *)
Definition emit_warnings (msg : option string) (key : JobKey) (d : Drain) : Drain :=
  match script_warnings (key_pkg key) (key_kind key) with
  | None => d
  | Some ws =>
      let shown := bool_decide (ws ≠ []) && bool_decide (is_Some msg) in
      print d ((if shown then [Line (default EmptyString msg ++ PackageId.newline)] else []) ++ (Warned <$> ws) ++
               (if shown then [Line EmptyString] else []))%list
  end.
(** [JobQueue::finish] *)
Definition finish_job (d : Drain) (key : JobKey) : cresult Drain :=
  let d := if mode_is_run_custom_build (key_mode key) && show_warnings (key_pkg key)
           then emit_warnings None key d else d in
  match jobs_pending (jq d) !! key with
  | None => Panic "called `Option::unwrap()` on a `None` value"
  | Some (mkPending O _) => Panic "attempt to subtract with overflow"
  | Some (mkPending (S n) fr) =>
      let pend := <[key := mkPending n fr]> (jobs_pending (jq d)) in
      if (n =? 0)%nat then
        match finish key fr (queue (jq d)) with
        | Ok q => Ok (set_queue d q pend)
        | Err e => match e with end
        | Panic m => Panic m
        end
      else Ok (set_queue d (queue (jq d)) pend)
  end.
(** [position] and [remove] *)
Fixpoint remove_first (key : JobKey) (l : list JobKey) : option (list JobKey) :=
  match l with
  | [] => None
  | k :: l => if bool_decide (k = key) then Some l else (λ l, k :: l) <$> remove_first key l
  end.
Definition set_active (d : Drain) l t : Drain :=
  let j := jq d in
  mkDrain (mkJobQueue (queue j) l (jobs_pending j) (compiled j) (documented j) (counts j))
          t (waiting d) (error d) (plan d) (requested d) (printed d).
Definition set_error (d : Drain) e : Drain :=
  mkDrain (jq d) (tokens d) (waiting d) (Some e) (plan d) (requested d) (printed d).
Definition warnings_emitted : string := "The following warnings were emitted during compilation:".
(** The [match] on an event. *)
Definition handle (m : Message) (d : Drain) : cresult Drain :=
  match m with
  | MsgRun cmd => Ok (print d [Line ("Running " ++ cmd)])
  | MsgBuildPlan module_name cmd filenames =>
      p ← plan_update module_name cmd filenames (plan d);
      Ok (mkDrain (jq d) (tokens d) (waiting d) (error d) p (requested d) (printed d))
  | MsgStdout s | MsgStderr s | MsgFixDiagnostic s => Ok (print d [Line s])
  | MsgToken r =>
      _ ← chain_err "failed to acquire jobserver token" r;
      Ok (mkDrain (jq d) (S (tokens d)) (waiting d) (error d) (plan d) (requested d) (printed d))
  | MsgFinish key result =>
      match remove_first key (active (jq d)) with
      | None => Panic "an unrecorded package has finished compiling"
      | Some rest =>
          d ← (match rest with
               | [] => Ok (set_active d rest (tokens d))
               | _ => match tokens d with
                      | O => Panic "assertion failed: !tokens.is_empty()"
                      | S t => Ok (set_active d rest t)
                      end
               end : cresult Drain);
          match result with
          | Ok _ => finish_job d key
          | Err e =>
              let d := emit_warnings (Some warnings_emitted) key d in
              Ok (match rest with
                  | [] => set_error d e
                  | _ => print (set_error d "build failed")
                               [Line e; Warned "build failed, waiting for other jobs to finish..."]
                  end)
          | Panic p => Panic p
          end
      end
  end.

(** * The loop *)

(** Excess tokens are given back before the next event is waited for. *)
Definition truncate (d : Drain) : Drain :=
  mkDrain (jq d) (Nat.min (tokens d) (length (active (jq d)) - 1)) (waiting d) (error d) (plan d) (requested d) (printed d).
Definition build_result (d : Drain) : cresult unit :=
  if is_empty (queue (jq d)) then Ok tt
  else match error d with
       | Some e => Err e
       | None => Err "finished with jobs still left in the queue"
       end.
(** [drain_the_queue] on the events of the channel: the result of the build, or
    the state in which it waits for the next event. *)
Inductive Outcome := Built (r : cresult unit) (d : Drain) | Blocked (d : Drain).
Fixpoint drain (events : list Message) (d : Drain) : option (cresult Outcome) :=
  let* d := schedule d in
  if bool_decide (active (jq d) = []) then Some (Ok (Built (build_result d) d))
  else
    let d := truncate d in
    match events with
    | [] => Some (Ok (Blocked d))
    | m :: events => let* d := Some (handle m d) in drain events d
    end.
(** [execute] *)
Definition drain_start (j : JobQueue) (p : Plan) : Drain := mkDrain j 0 [] None p 0 [].
Definition execute (events : list Message) (j : JobQueue) (p : Plan) : option (cresult Outcome) :=
  match queue_finished (queue j) with
  | Some (Ok q) =>
      drain events (drain_start (mkJobQueue q (active j) (jobs_pending j) (compiled j) (documented j) (counts j)) p)
  | Some (Err e) => match e with end
  | Some (Panic m) => Some (Panic m)
  | None => None
  end.
End state.
