(* ===== verification/JobRun.v ===== *)
(** The job queue runs every job once its dependencies are built, within the
    tokens it has, and succeeds exactly when no job fails. *)
From S2P Require Import Prelude Str Extern SourceId PackageId DepQueue Target Profiles Package UnitDeps UnitGraph JobQueue.

Section run.
Context `{SV : SemverLib} `{UL : UrlLib} `{RS : RustStd}.
Context {Job Plan : Type} (plan_update : string → string → list string → Plan → cresult Plan).
Context (script_warnings : hkey PackageId → PlatformKind → option (list string))
        (show_warnings : hkey PackageId → bool) (build_plan : bool).
Local Abbreviation DQ := (DependencyQueue JobKey (list (Job * Freshness))).
Local Abbreviation Drain := (@Drain SV UL Job Plan).
Local Abbreviation schedule := (@schedule SV UL RS Job Plan build_plan).
Local Abbreviation handle := (@handle SV UL RS Job Plan plan_update script_warnings show_warnings).
Local Abbreviation run := (@run SV UL Job Plan build_plan).
Local Abbreviation spawn := (@spawn SV UL Job Plan build_plan).
Implicit Types (k : JobKey) (d : Drain).

(** * Counting jobs *)
Definition cnt k (l : list JobKey) : nat := length (filter (λ x, x = k) l).
Definition pcnt (p : hkey PackageId) (l : list JobKey) : nat := length (filter (λ x, key_pkg x = p) l).
Definition wkeys d : list JobKey := (λ x, x.1.1) <$> waiting d.
(** The jobs of the queue that have not been handed out. *)
Definition queued (q : DQ) : list JobKey := map_to_list (snd <$> dep_map q) ≫= λ x, replicate (length x.2) x.1.
Definition outstanding d : list JobKey := wkeys d ++ queued (queue (jq d)).

Lemma cnt_app k l l' : cnt k (l ++ l') = (cnt k l + cnt k l')%nat.
Proof. unfold cnt. by rewrite filter_app, length_app. Qed.
Lemma cnt_cons k x l : cnt k (x :: l) = ((if decide (x = k) then 1 else 0) + cnt k l)%nat.
Proof. unfold cnt. rewrite filter_cons. by case_decide. Qed.
Lemma cnt_zero k l : cnt k l = 0 → k ∉ l.
Proof.
  unfold cnt. intros H Hin. assert (Hf : k ∈ filter (λ x, x = k) l) by (by apply list_elem_of_filter).
  apply length_zero_iff_nil in H. rewrite H in Hf. destruct (not_elem_of_nil _ Hf).
Qed.
Lemma cnt_pos k l : k ∈ l → (1 ≤ cnt k l)%nat.
Proof. intros Hk. destruct (cnt k l) eqn:H; [|lia]. by apply cnt_zero in H. Qed.
Lemma cnt_replicate k x n : cnt k (replicate n x) = if decide (x = k) then n else 0.
Proof.
  induction n as [|n IH]; [by case_decide|]. cbn [replicate]. rewrite cnt_cons, IH. by case_decide.
Qed.
Lemma pcnt_perm p l l' : l ≡ₚ l' → pcnt p l = pcnt p l'.
Proof. intros H. unfold pcnt. by rewrite H. Qed.
Lemma pcnt_cons p x l : pcnt p (x :: l) = ((if decide (key_pkg x = p) then 1 else 0) + pcnt p l)%nat.
Proof. unfold pcnt. rewrite filter_cons. by case_decide. Qed.

Lemma remove_first_spec k l :
  match remove_first k l with
  | Some l' => l ≡ₚ k :: l'
  | None => k ∉ l
  end.
Proof.
  induction l as [|x l IH]; cbn [remove_first]; [apply not_elem_of_nil|]. case_bool_decide as Hx; [by subst|].
  destruct (remove_first k l) as [l'|]; simpl.
  - rewrite IH. constructor.
  - apply not_elem_of_cons. split; [congruence|done].
Qed.
Lemma cnt_perm k l l' : l ≡ₚ l' → cnt k l = cnt k l'.
Proof. intros H. unfold cnt. by rewrite H. Qed.

(** * The invariant *)

(** Keys whose job failed. *)
Definition failed_of (ms : list Message) : list JobKey :=
  omap (λ m, match m with MsgFinish k (Err _) => Some k | _ => None end) ms.

Record drain_ok (D : gmap JobKey (gset JobKey)) (ms : list Message) (F : gmap JobKey Freshness) d : Prop := {
  dk_inv : queue_inv D ∅ F (queue (jq d));
  dk_depth : depth_ok (queue (jq d));
  dk_jobs : ∀ k s jobs, dep_map (queue (jq d)) !! k = Some (s, jobs) → jobs ≠ [];
  dk_pending : ∀ k, k ∈ pending (queue (jq d)) → ∃ n fr, jobs_pending (jq d) !! k = Some (mkPending n fr) ∧
    n ≠ 0 ∧ n = (cnt k (active (jq d)) + cnt k (wkeys d) + cnt k (failed_of ms))%nat;
  dk_started : ∀ k, k ∈ active (jq d) ∨ k ∈ wkeys d ∨ k ∈ failed_of ms → k ∈ pending (queue (jq d));
  dk_counts : ∀ p, default 0 (counts (jq d) !! p) = pcnt p (outstanding d);
  dk_error : error d = None ↔ failed_of ms = [];
  dk_tokens : (length (active (jq d)) ≤ tokens d + 1)%nat;
  dk_built : ∀ k, k ∈ dom F → MsgFinish k (Ok tt) ∈ ms;
}.

(** What the invariant reads; nothing else of the state matters. *)
Definition same_view d d' : Prop :=
  queue (jq d) = queue (jq d') ∧ active (jq d) = active (jq d') ∧ jobs_pending (jq d) = jobs_pending (jq d') ∧
  counts (jq d) = counts (jq d') ∧ tokens d = tokens d' ∧ waiting d = waiting d' ∧ (error d = None ↔ error d' = None).

Lemma drain_ok_view D ms F d d' : same_view d d' → drain_ok D ms F d → drain_ok D ms F d'.
Proof.
  intros (H1 & H2 & H3 & H4 & H5 & H6 & H7) [K1 K2 K3 K4 K5 K6 K7 K8 K9].
  unfold outstanding, wkeys in *. split; unfold outstanding, wkeys; rewrite <-?H1, <-?H2, <-?H3, <-?H4, <-?H5, <-?H6; try done.
  by rewrite <-H7.
Qed.

Lemma same_view_print d p : same_view d (print d p).
Proof. by split_and!. Qed.

(** * Scheduling *)
Lemma push_jobs key fr jobs d :
  let d' := foldl (push_job key fr) d jobs in
  jq d' = jq d ∧ tokens d' = tokens d ∧ error d' = error d ∧
  waiting d' = (waiting d ++ ((λ jf, (key, jf.1, combine jf.2 fr)) <$> jobs))%list ∧
  requested d' = (requested d + length jobs)%nat.
Proof.
  revert d. induction jobs as [|jf jobs IH]; intros d; cbn [foldl].
  { cbn. rewrite app_nil_r. split_and!; [done..|lia]. }
  destruct (IH (push_job key fr d jf)) as (H1 & H2 & H3 & H4 & H5). unfold push_job in *. cbn in *.
  rewrite H1, H2, H3, H4, H5. split_and!; [done..| |].
  - by rewrite <-app_assoc.
  - rewrite (bool_decide_eq_false_2 (length _ = 0)) by (rewrite length_app; simpl; lia).
    cbn. rewrite orb_true_r. lia.
Qed.

Lemma wkeys_jobs key fr (jobs : list (Job * Freshness)) :
  (λ x : JobKey * Job * Freshness, x.1.1) <$> ((λ jf, (key, jf.1, combine jf.2 fr)) <$> jobs) = replicate (length jobs) key.
Proof. induction jobs as [|jf jobs IH]; [done|]. cbn. f_equal. exact IH. Qed.

Lemma queued_delete (q : DQ) k s jobs rdm dirt pend dep :
  dep_map q !! k = Some (s, jobs) →
  queued q ≡ₚ replicate (length jobs) k ++ queued (mkQueue (delete k (dep_map q)) rdm dirt pend dep).
Proof.
  intros Hk. unfold queued. cbn [dep_map]. rewrite fmap_delete.
  assert (Hk' : (snd <$> dep_map q) !! k = Some jobs) by (by rewrite lookup_fmap, Hk).
  rewrite <-(map_to_list_delete _ _ _ Hk'). done.
Qed.

Lemma dequeue_mutates (q : DQ) fr k v q' :
  dequeue q = Ok (Some (fr, k, v), q') →
  q' = mkQueue (delete k (dep_map q)) (reverse_dep_map q) (dirty q) ({[k]} ∪ pending q) (depth q).
Proof.
  unfold dequeue. destruct (forallb _ _); [|discriminate]. destruct (max_by_key _ _) as [key|]; [|discriminate].
  destruct (dep_map q !! key) as [[s x]|]; [|discriminate]. by intros [= _ <- _ <-].
Qed.

Lemma dequeue_one D ms F d fr k jobs q :
  drain_ok D ms F d → dequeue (queue (jq d)) = Ok (Some (fr, k, jobs), q) →
  let d' := foldl (push_job k fr)
    (set_queue d q (<[k := mkPending (length jobs) (total_fresh fr jobs)]> (jobs_pending (jq d)))) jobs in
  drain_ok D ms F d' ∧ active (jq d') = active (jq d) ∧ tokens d' = tokens d ∧ error d' = error d ∧
  (S (size (dep_map (queue (jq d')))) ≤ size (dep_map (queue (jq d))))%nat.
Proof.
  intros [K1 K2 K3 K4 K5 K6 K7 K8 K9] Hdq. pose proof (dequeue_cases _ _ _ _ K1 K2) as Hc. rewrite Hdq in Hc.
  destruct Hc as (ds & Hds & Hsub & Hk & _ & _ & Hinv & Hdep & Hpend & Hdom).
  set (d0 := set_queue _ _ _). pose proof (push_jobs k fr jobs d0) as (H1 & H2 & H3 & H4 & _).
  set (d' := foldl _ _ _) in *. cbv zeta. rewrite H1. cbn [d0 set_queue jq queue active counts jobs_pending].
  assert (Hknot : k ∉ pending (queue (jq d))) by (by apply (qi_waiting _ _ _ _ K1 _ _ _ Hk)).
  assert (Hw : wkeys d' = (wkeys d ++ replicate (length jobs) k)%list).
  { unfold wkeys. rewrite H4, fmap_app. f_equal. apply wkeys_jobs. }
  split_and!; [|done|by rewrite H2|by rewrite H3|].
  - split; rewrite ?H1; cbn [d0 set_queue jq queue active counts jobs_pending]; try done.
    + intros x s js Hx. apply (K3 x s). rewrite (dequeue_mutates _ _ _ _ _ Hdq) in Hx. cbn in Hx.
      by apply lookup_delete_Some in Hx as [_ Hx].
    + intros x Hx. rewrite Hw, cnt_app, cnt_replicate. destruct (decide (k = x)) as [<-|Hne].
      * exists (length jobs), (total_fresh fr jobs). rewrite lookup_insert_eq. split_and!; [done| |].
        -- pose proof (K3 _ _ _ Hk) as Hne. by destruct jobs.
        -- assert (Hz : ∀ l, (k ∈ l → k ∈ pending (queue (jq d))) → cnt k l = 0%nat).
           { intros l Hl. destruct (cnt k l) eqn:Hcnt; [done|]. exfalso. apply Hknot, Hl.
             destruct (decide (k ∈ l)) as [|Hn]; [done|]. exfalso. clear -Hcnt Hn. unfold cnt in Hcnt.
             induction l as [|y l IH]; [done|]. rewrite filter_cons in Hcnt. apply not_elem_of_cons in Hn as [? Hn].
             rewrite decide_False in Hcnt by congruence. by apply IH. }
           rewrite !Hz; [lia|intros ?; apply K5; auto..].
      * rewrite Hpend in Hx. apply elem_of_union in Hx as [->%elem_of_singleton|Hx]; [done|].
        destruct (K4 x Hx) as (n & f & Hn & Hnz & Hsum). exists n, f. rewrite lookup_insert_ne by done.
        split_and!; [done|done|lia].
    + intros x Hx. rewrite Hpend. apply elem_of_union. rewrite Hw, elem_of_app in Hx.
      destruct Hx as [Hx|[[Hx|Hx]|Hx]]; try (right; apply K5; by auto).
      left. apply elem_of_singleton. by apply elem_of_replicate in Hx as [-> _].
    + intros p. rewrite K6. apply pcnt_perm. unfold outstanding. rewrite Hw, H1. cbn [d0 set_queue jq queue].
      rewrite (queued_delete _ _ _ _ (reverse_dep_map (queue (jq d))) (dirty (queue (jq d))) ({[k]} ∪ pending (queue (jq d)))
        (depth (queue (jq d))) Hk), <-(dequeue_mutates _ _ _ _ _ Hdq). by rewrite app_assoc.
    + by rewrite H3.
    + by rewrite H2.
  - rewrite <-!size_dom, Hdom. assert (k ∈ dom (dep_map (queue (jq d)))) by (apply elem_of_dom; by eexists).
    rewrite size_difference by set_solver. rewrite size_singleton.
    assert (size (dom (dep_map (queue (jq d)))) ≠ 0); [|lia]. intros Hz%size_empty_inv. set_solver.
Qed.

Lemma dequeue_all_ok D ms F fuel d :
  drain_ok D ms F d → (size (dep_map (queue (jq d))) ≤ fuel)%nat →
  ∃ d', dequeue_all fuel d = Some (Ok d') ∧ drain_ok D ms F d' ∧
    active (jq d') = active (jq d) ∧ tokens d' = tokens d ∧ error d' = error d ∧
    dequeue (queue (jq d')) = Ok (None, queue (jq d')).
Proof.
  revert d. induction fuel as [|fuel IH]; intros d Hok Hn; cbn [dequeue_all];
    pose proof (dequeue_cases _ _ _ _ (dk_inv _ _ _ _ Hok) (dk_depth _ _ _ _ Hok)) as Hc;
    destruct (dequeue (queue (jq d))) as [[[[[fr k] jobs]|] q]|[]|m] eqn:Hdq; try (exfalso; exact Hc).
  - destruct (dequeue_one _ _ _ _ _ _ _ _ Hok Hdq) as (_ & _ & _ & _ & Hlt). lia.
  - destruct Hc as [-> _]. eexists. split; [done|]. split; [apply (drain_ok_view _ _ _ d); [by split_and!|done]|by split_and!].
  - destruct (dequeue_one _ _ _ _ _ _ _ _ Hok Hdq) as (H1 & H2 & H3 & H4 & Hlt).
    destruct (IH _ H1) as (d' & H5 & H6 & H7 & H8 & H9 & H10); [lia|].
    exists d'. split; [exact H5|]. split_and!; [done|by rewrite H7|by rewrite H8|by rewrite H9|done].
  - destruct Hc as [-> _]. eexists. split; [done|]. split; [apply (drain_ok_view _ _ _ d); [by split_and!|done]|by split_and!].
Qed.

(** ** Spawning *)
Lemma note_working_on_view d k fr n :
  counts (jq d) !! key_pkg k = Some n → ∃ d', note_working_on d k fr = Ok d' ∧ same_view d d'.
Proof.
  intros Hn. unfold note_working_on. rewrite Hn.
  destruct (_ || _); [by exists d|]. destruct fr.
  - destruct (_ && _); eexists; (split; [done|by split_and!]).
  - destruct (mode_is_doc _); [destruct (negb _)|]; eexists; (split; [done|by split_and!]).
Qed.

Lemma start_job_ok D ms F d k job fr w :
  drain_ok D ms F d → waiting d = (k, job, fr) :: w → (length (active (jq d)) < tokens d + 1)%nat →
  ∃ d', run (set_waiting d w) k fr job = Ok d' ∧ drain_ok D ms F d' ∧
    active (jq d') = (active (jq d) ++ [k])%list ∧ tokens d' = tokens d ∧ error d' = error d ∧
    waiting d' = w ∧ queue (jq d') = queue (jq d).
Proof.
  intros [K1 K2 K3 K4 K5 K6 K7 K8 K9] Hw Ht.
  assert (Hwk : wkeys d = k :: ((λ x, x.1.1) <$> w)) by (unfold wkeys; by rewrite Hw).
  pose proof (K6 (key_pkg k)) as Hc. unfold outstanding in Hc. rewrite Hwk in Hc.
  cbn [app] in Hc. rewrite pcnt_cons, decide_True in Hc by done.
  destruct (counts (jq d) !! key_pkg k) as [[|n]|] eqn:Hn; [simpl in Hc; lia| |simpl in Hc; lia].
  unfold JobQueue.run. cbn [set_waiting jq queue active jobs_pending compiled documented counts tokens waiting error plan requested printed].
  rewrite Hn. set (d1 := mkDrain _ _ _ _ _ _ _).
  assert (Hok : drain_ok D ms F d1).
  { split; unfold outstanding, wkeys; cbn [d1 jq queue active jobs_pending counts tokens waiting error]; try done.
    - intros x Hx. destruct (K4 x Hx) as (m & f & Hm & Hnz & Hsum). exists m, f. split_and!; [done|done|].
      rewrite Hwk in Hsum. rewrite cnt_app. rewrite !cnt_cons in *. unfold cnt at 2. cbn [filter list_filter length]. lia.
    - intros x Hx. apply K5. rewrite Hwk. rewrite elem_of_cons. rewrite elem_of_app, list_elem_of_singleton in Hx. tauto.
    - intros p. destruct (decide (key_pkg k = p)) as [<-|Hne].
      + rewrite lookup_insert_eq. simpl in Hc |- *. unfold outstanding in *. injection Hc as ->. done.
      + rewrite lookup_insert_ne by done. rewrite K6. unfold outstanding. rewrite Hwk. cbn [app].
        by rewrite pcnt_cons, decide_False.
    - rewrite length_app. simpl. lia. }
  destruct (negb build_plan).
  - destruct (note_working_on_view d1 k fr n) as (d' & Hd' & Hv).
    { cbn [d1 jq counts]. by rewrite lookup_insert_eq. }
    exists d'. split; [exact Hd'|]. split; [by apply (drain_ok_view _ _ _ d1)|].
    assert (Hfields : tokens d' = tokens d1 ∧ error d' = error d1 ∧ waiting d' = waiting d1 ∧
      active (jq d') = active (jq d1) ∧ queue (jq d') = queue (jq d1)).
    { destruct Hv as (V1 & V2 & V3 & V4 & V5 & V6 & _). split_and!; try congruence.
      revert Hd'. unfold note_working_on. destruct (_ || _); [by intros [= <-]|].
      destruct fr; [destruct (counts (jq d1) !! _); [|discriminate]; destruct (_ && _); by intros [= <-]|].
      destruct (mode_is_doc _); [destruct (negb _)|]; by intros [= <-]. }
    destruct Hfields as (-> & -> & -> & -> & ->). by split_and!.
  - exists d1. by split_and!.
Qed.

(** The loop stops because of an error, for want of tokens or of work. *)
Definition spawned d : Prop :=
  error d ≠ None ∨ (tokens d + 1 ≤ length (active (jq d)))%nat ∨ waiting d = [].

Lemma spawn_ok D ms F fuel d :
  drain_ok D ms F d → (length (waiting d) ≤ fuel)%nat →
  ∃ d', spawn fuel d = Some (Ok d') ∧ drain_ok D ms F d' ∧ spawned d' ∧
    tokens d' = tokens d ∧ error d' = error d ∧ queue (jq d') = queue (jq d) ∧
    (length (active (jq d)) ≤ length (active (jq d')))%nat.
Proof.
  revert d. induction fuel as [|fuel IH]; intros d Hok Hn; cbn [JobQueue.spawn].
  - destruct (waiting d) as [|x w] eqn:Hw; [|simpl in Hn; lia].
    assert (Hres : ∃ d', (if bool_decide (error d = None) && (length (active (jq d)) <? tokens d + 1)%nat
      then Some (Ok d) else Some (Ok d)) = Some (Ok d' : cresult Drain) ∧ d' = d) by (destruct (_ && _); by eexists).
    destruct Hres as (d' & -> & ->). exists d. split_and!; [done|done| |done..]. unfold spawned. auto.
  - destruct (bool_decide (error d = None)) eqn:He; cbn [andb].
    2: { apply bool_decide_eq_false in He. exists d. split_and!; [done|done| |done..]. by left. }
    destruct (length (active (jq d)) <? tokens d + 1)%nat eqn:Ht.
    2: { apply Nat.ltb_ge in Ht. exists d. split_and!; [done|done| |done..]. right. by left. }
    apply Nat.ltb_lt in Ht. destruct (waiting d) as [|[[k job] fr] w] eqn:Hw.
    { exists d. split_and!; [done|done| |done..]. right. by right. }
    destruct (start_job_ok _ _ _ _ _ _ _ _ Hok Hw Ht) as (d1 & H1 & H2 & H3 & H4 & H5 & H6 & H7). rewrite H1. cbn [fbind].
    destruct (IH d1 H2) as (d2 & K1 & K2 & K3 & K4 & K5 & K6 & K7); [rewrite H6; simpl in Hn; lia|].
    exists d2. split; [exact K1|]. split_and!; [done|done|congruence|congruence|congruence|].
    rewrite H3, length_app in K7. simpl in K7. lia.
Qed.

(** After scheduling, as much as possible runs. *)
Definition scheduled d : Prop := spawned d ∧ dequeue (queue (jq d)) = Ok (None, queue (jq d)).

Lemma schedule_ok D ms F d :
  drain_ok D ms F d → ∃ d', schedule d = Some (Ok d') ∧ drain_ok D ms F d' ∧ scheduled d' ∧ error d' = error d.
Proof.
  intros Hok. unfold JobQueue.schedule. destruct (dequeue_all_ok _ _ _ _ _ Hok (le_n _)) as (d1 & -> & H1 & _ & _ & H4 & H5).
  cbn [fbind]. destruct (spawn_ok _ _ _ _ _ H1 (le_n _)) as (d2 & -> & K1 & K2 & _ & K4 & K5 & _).
  exists d2. split_and!; [done|done| |congruence]. split; [done|]. by rewrite K5.
Qed.

Lemma truncate_ok D ms F d :
  drain_ok D ms F d → drain_ok D ms F (truncate d) ∧
  (active (jq d) ≠ [] → (tokens (truncate d) + 1 = length (active (jq d)))%nat).
Proof.
  intros [K1 K2 K3 K4 K5 K6 K7 K8 K9]. split.
  - split; try done. cbn. lia.
  - intros Ha. cbn. destruct (active (jq d)); [done|]. simpl in *. lia.
Qed.

(** * Messages *)

(** What the channel can deliver: a job that runs finishes. *)
Definition receivable d (m : Message) : Prop :=
  match m with
  | MsgFinish k r => k ∈ active (jq d) ∧ is_panic r = false
  | MsgToken r => is_panic r = false
  | MsgBuildPlan a b c => ∀ p, is_panic (plan_update a b c p) = false
  | _ => True
  end.

Lemma failed_of_app ms ms' : failed_of (ms ++ ms') = failed_of ms ++ failed_of ms'.
Proof. apply omap_app. Qed.

Lemma emit_warnings_view msg k d : same_view d (emit_warnings script_warnings msg k d).
Proof. unfold emit_warnings. destruct (script_warnings _ _); by split_and!. Qed.

(** Messages that finish nothing. *)
Lemma drain_ok_message D ms F d m :
  (∀ k r, m ≠ MsgFinish k r) → drain_ok D ms F d → drain_ok D (ms ++ [m]) F d.
Proof.
  intros Hm [K1 K2 K3 K4 K5 K6 K7 K8 K9].
  assert (Hf : failed_of (ms ++ [m]) = failed_of ms).
  { rewrite failed_of_app. destruct m; try apply app_nil_r. by destruct (Hm key result). }
  split; rewrite ?Hf; try done. intros k Hk. apply elem_of_app. left. by apply K9.
Qed.

(** Finishing leaves the jobs of the waiting packages alone. *)
Lemma finish_jobs_same k fr (q q' : DQ) : finish k fr q = Ok q' → snd <$> dep_map q' = snd <$> dep_map q.
Proof.
  unfold finish. case_decide; [|discriminate]. destruct (reverse_dep_map q !! k) as [deps|]; [|by intros [= <-]].
  destruct (foldM (finish_dep k fr) (dep_map q, dirty q) (hs_iter deps)) as [[dm dirt]|[]|m] eqn:Hf; [|discriminate].
  intros [= <-]. cbn [dep_map].
  apply (foldM_inv _ (λ st : gmap JobKey (gset JobKey * list (Job * Freshness)) * gset JobKey, snd <$> st.1 = snd <$> dep_map q)) in Hf; [done| |done].
  intros [dm1 dirt1] x st' _ Hst Hstep. unfold finish_dep in Hstep. cbn [fst] in *.
  destruct (dm1 !! x) as [[s v]|] eqn:Hx; [|discriminate]. case_decide; [|discriminate]. injection Hstep as <-. cbn [fst].
  rewrite fmap_insert. cbn [snd]. rewrite <-Hst. apply insert_id. by rewrite lookup_fmap, Hx.
Qed.

(** The state once a job has left [active]. *)
Lemma set_active_tokens d k rest :
  active (jq d) ≡ₚ k :: rest → (tokens d + 1 = length (active (jq d)))%nat →
  ∃ t, (match rest with
        | [] => Ok (set_active d rest (tokens d))
        | _ => match tokens d with O => Panic "assertion failed: !tokens.is_empty()" | S t => Ok (set_active d rest t) end
        end : cresult Drain) = Ok (set_active d rest t) ∧ (length rest ≤ t + 1)%nat.
Proof.
  intros Hp Ht. apply Permutation_length in Hp. simpl in Hp. destruct rest as [|x rest].
  - exists (tokens d). split; [done|simpl; lia].
  - destruct (tokens d) as [|t]; simpl in *; [lia|]. exists t. split; [done|lia].
Qed.

Section finish.
Context (D : gmap JobKey (gset JobKey)) (ms : list Message) (F : gmap JobKey Freshness) (d : Drain).
Context (k : JobKey) (rest : list JobKey) (t : nat).
Context (Hok : drain_ok D ms F d) (Hp : active (jq d) ≡ₚ k :: rest) (Ht : (length rest ≤ t + 1)%nat).

Lemma cnt_rest x : cnt x (active (jq d)) = ((if decide (k = x) then 1 else 0) + cnt x rest)%nat.
Proof. by rewrite (cnt_perm _ _ _ Hp), cnt_cons. Qed.

Lemma k_active : k ∈ active (jq d).
Proof. rewrite Hp. constructor. Qed.

Lemma rest_active x : x ∈ rest → x ∈ active (jq d).
Proof. intros Hx. rewrite Hp. by constructor. Qed.

Lemma job_failed e :
  drain_ok D (ms ++ [MsgFinish k (Err e)]) F
    (match rest with
     | [] => set_error (emit_warnings script_warnings (Some warnings_emitted) k (set_active d rest t)) e
     | _ => print (set_error (emit_warnings script_warnings (Some warnings_emitted) k (set_active d rest t)) "build failed")
                  [Line e; Warned "build failed, waiting for other jobs to finish..."]
     end).
Proof.
  assert (Hgen : ∀ e', drain_ok D (ms ++ [MsgFinish k (Err e)]) F (set_error (set_active d rest t) e')).
  { intros e'. destruct Hok as [K1 K2 K3 K4 K5 K6 K7 K8 K9].
    assert (Hf : failed_of (ms ++ [MsgFinish k (Err e)]) = failed_of ms ++ [k]) by (by rewrite failed_of_app).
    split; rewrite ?Hf; unfold outstanding, wkeys in *; cbn [set_error set_active jq queue active jobs_pending counts tokens waiting error]; try done.
    - intros x Hx. destruct (K4 x Hx) as (n & f & Hn & Hnz & Hsum). exists n, f. split_and!; [done|done|].
      rewrite cnt_rest in Hsum. rewrite cnt_app, cnt_cons. change (cnt x []) with 0%nat. lia.
    - intros x Hx. rewrite elem_of_app, list_elem_of_singleton in Hx.
      destruct Hx as [Hx|[Hx|[Hx| ->]]]; apply K5; [left; by apply rest_active|by right; left|by right; right|left; apply k_active].
    - split; [discriminate|]. intros H. apply (f_equal length) in H. rewrite length_app in H. simpl in H. lia.
    - intros x Hx. apply elem_of_app. left. by apply K9. }
  assert (Hemit : ∀ e', same_view (set_error (set_active d rest t) e')
      (set_error (emit_warnings script_warnings (Some warnings_emitted) k (set_active d rest t)) e')).
  { intros e'. destruct (emit_warnings_view (Some warnings_emitted) k (set_active d rest t)) as (V1 & V2 & V3 & V4 & V5 & V6 & _).
    by split_and!. }
  destruct rest as [|x r].
  - apply (drain_ok_view _ _ _ _ _ (Hemit e)), Hgen.
  - apply (drain_ok_view _ _ _ (set_error (emit_warnings script_warnings (Some warnings_emitted) k (set_active d (x :: r) t)) "build failed"));
      [by split_and!|]. apply (drain_ok_view _ _ _ _ _ (Hemit "build failed"%string)), Hgen.
Qed.

Lemma job_done :
  ∃ d' F', finish_job script_warnings show_warnings (set_active d rest t) k = Ok d' ∧
    drain_ok D (ms ++ [MsgFinish k (Ok tt)]) F' d'.
Proof.
  destruct Hok as [K1 K2 K3 K4 K5 K6 K7 K8 K9].
  assert (Hf : failed_of (ms ++ [MsgFinish k (Ok tt)]) = failed_of ms) by (rewrite failed_of_app; apply app_nil_r).
  assert (Hkp : k ∈ pending (queue (jq d))) by (apply K5; left; apply k_active).
  destruct (K4 k Hkp) as (n & fr & Hn & Hnz & Hsum). rewrite cnt_rest, decide_True in Hsum by done.
  unfold finish_job. set (d1 := if _ && _ then _ else _).
  assert (Hv : same_view (set_active d rest t) d1).
  { unfold d1. destruct (_ && _); [apply emit_warnings_view|by split_and!]. }
  assert (Hn1 : jobs_pending (jq d1) !! k = Some (mkPending n fr)).
  { destruct Hv as (_ & _ & <- & _). done. }
  rewrite Hn1. destruct n as [|n]; [done|].
  set (dd := λ q : DQ, mkDrain (mkJobQueue q rest (<[k := mkPending n fr]> (jobs_pending (jq d))) (compiled (jq d1)) (documented (jq d1)) (counts (jq d)))
                       t (waiting d) (error d1) (plan d1) (requested d1) (printed d1)).
  assert (Hset : ∀ q, set_queue d1 q (<[k := mkPending n fr]> (jobs_pending (jq d1))) = dd q).
  { intros q. destruct Hv as (V1 & V2 & V3 & V4 & V5 & V6 & _). unfold set_queue, dd.
    rewrite <-V2, <-V3, <-V4, <-V5, <-V6. done. }
  assert (Herr : error d1 = None ↔ failed_of ms = []).
  { destruct Hv as (_ & _ & _ & _ & _ & _ & V7). rewrite <-V7. exact K7. }
  assert (Hbuilt : ∀ x, x ∈ dom F → MsgFinish x (Ok tt) ∈ ms ++ [MsgFinish k (Ok tt)]) by (intros x Hx; apply elem_of_app; left; by apply K9).
  destruct (n =? 0)%nat eqn:Hz.
  - apply Nat.eqb_eq in Hz. subst n.
    assert (Hq1 : queue (jq d1) = queue (jq d)) by (by destruct Hv as (<- & _)).
    rewrite Hq1. destruct (finish_ok _ _ _ _ k fr K1 K2 Hkp) as (q' & Hfin & F1 & F2 & F3 & F4). rewrite Hfin.
    exists (dd q'), (<[k := fr]> F). split; [by rewrite Hset|].
    pose proof (finish_jobs_same _ _ _ _ Hfin) as Hsame.
    split; rewrite ?Hf; unfold outstanding, wkeys in *; cbn [dd jq queue active jobs_pending counts tokens waiting error]; try done.
    + intros x s jobs Hx. assert (Hx' : (snd <$> dep_map q') !! x = Some jobs) by (by rewrite lookup_fmap, Hx).
      rewrite Hsame, lookup_fmap in Hx'. destruct (dep_map (queue (jq d)) !! x) as [[s0 j0]|] eqn:Hx0; [|discriminate Hx'].
      injection Hx' as <-. by apply (K3 x s0).
    + intros x Hx. rewrite F3 in Hx. apply elem_of_difference in Hx as [Hx Hxk]. rewrite elem_of_singleton in Hxk.
      destruct (K4 x Hx) as (m & f & Hm & Hmz & Hms). exists m, f. rewrite lookup_insert_ne by congruence.
      split_and!; [done|done|]. rewrite cnt_rest, decide_False in Hms by congruence. lia.
    + intros x Hx. rewrite F3. apply elem_of_difference. split.
      * apply K5. destruct Hx as [Hx|Hx]; [left; by apply rest_active|by right].
      * intros ->%elem_of_singleton.
        destruct Hx as [Hx%cnt_pos|[Hx%cnt_pos|Hx%cnt_pos]]; lia.
    + intros p. rewrite K6. unfold queued. by rewrite Hsame.
    + intros x Hx. rewrite dom_insert in Hx. apply elem_of_union in Hx as [->%elem_of_singleton|Hx]; [|by apply Hbuilt].
      apply elem_of_app. right. by apply list_elem_of_singleton.
  - apply Nat.eqb_neq in Hz. exists (dd (queue (jq d))), F.
    assert (Hq1 : queue (jq d1) = queue (jq d)) by (by destruct Hv as (<- & _)).
    split; [by rewrite Hset, Hq1|].
    split; rewrite ?Hf; unfold outstanding, wkeys in *; cbn [dd jq queue active jobs_pending counts tokens waiting error]; try done.
    + intros x Hx. destruct (decide (k = x)) as [<-|Hne].
      * exists n, fr. rewrite lookup_insert_eq. split_and!; [done|done|lia].
      * destruct (K4 x Hx) as (m & f & Hm & Hmz & Hms). exists m, f. rewrite lookup_insert_ne by done.
        split_and!; [done|done|]. rewrite cnt_rest, decide_False in Hms by done. lia.
    + intros x [Hx|Hx]; apply K5; [left; by apply rest_active|by right].
Qed.
End finish.

Lemma handle_ok D ms F d m :
  drain_ok D ms F d → (tokens d + 1 = length (active (jq d)))%nat → receivable d m →
  match handle m d with
  | Ok d' => ∃ F', drain_ok D (ms ++ [m]) F' d'
  | Err _ => True
  | Panic _ => False
  end.
Proof.
  intros Hok Ht Hm. destruct m as [s|a b c|s|s|s|r|k r]; cbn [JobQueue.handle].
  - exists F. apply drain_ok_message; [done|]. apply (drain_ok_view _ _ _ d); [by split_and!|done].
  - pose proof (Hm (plan d)) as Hp. destruct (plan_update a b c (plan d)) as [p|e|p]; [|done|discriminate Hp].
    exists F. apply drain_ok_message; [done|]. apply (drain_ok_view _ _ _ d); [by split_and!|done].
  - exists F. apply drain_ok_message; [done|]. apply (drain_ok_view _ _ _ d); [by split_and!|done].
  - exists F. apply drain_ok_message; [done|]. apply (drain_ok_view _ _ _ d); [by split_and!|done].
  - exists F. apply drain_ok_message; [done|]. apply (drain_ok_view _ _ _ d); [by split_and!|done].
  - destruct r as [u|e|p]; [|done|discriminate Hm]. exists F. apply drain_ok_message; [done|].
    destruct Hok as [K1 K2 K3 K4 K5 K6 K7 K8 K9]. split; try done. cbn. lia.
  - destruct Hm as [Hk Hr]. pose proof (remove_first_spec k (active (jq d))) as Hrem.
    destruct (remove_first k (active (jq d))) as [rest|]; [|done].
    destruct (set_active_tokens d k rest Hrem Ht) as (t & -> & Hlen). cbn [mbind res_mbind res_bind].
    destruct r as [[]|e|p]; [|exists F; by apply job_failed|discriminate Hr].
    destruct (job_done _ _ _ _ _ _ _ Hok Hrem Hlen) as (d' & F' & -> & Hd'). by exists F'.
Qed.

(** * Whole runs *)

(** The events a run can receive from a state: each is something the channel
    can deliver when the loop waits for it. *)
Fixpoint deliverable (events : list Message) d : Prop :=
  match events with
  | [] => True
  | m :: events => ∀ d', schedule d = Some (Ok d') → active (jq d') ≠ [] →
      receivable (truncate d') m ∧ ∀ d2, handle m (truncate d') = Ok d2 → deliverable events d2
  end.
Local Abbreviation drain := (@drain SV UL RS Job Plan plan_update script_warnings show_warnings build_plan).
Local Abbreviation execute := (@execute SV UL RS Job Plan plan_update script_warnings show_warnings build_plan).

(** What a run ends in, after the messages [ms] and some of [events]. *)
Definition outcome_ok D ms events (out : cresult Outcome) : Prop :=
  match out with
  | Ok (Blocked d) => ∃ F, drain_ok D (ms ++ events) F d ∧ spawned d ∧ (tokens d + 1 = length (active (jq d)))%nat
  | Ok (Built r d) => ∃ ms' F, ms' `prefix_of` events ∧ drain_ok D (ms ++ ms') F d ∧ scheduled d ∧
      active (jq d) = [] ∧ r = build_result d
  | Err _ => ∃ m, m ∈ events ∧ ∀ k r, m ≠ MsgFinish k r
  | Panic _ => False
  end.

Lemma handle_err m d e : handle m d = Err e → receivable d m → ∀ k r, m ≠ MsgFinish k r.
Proof.
  intros He Hm k r ->. cbn [JobQueue.handle receivable] in *. destruct Hm as [Hk Hr].
  destruct (remove_first k (active (jq d))) as [rest|]; [|discriminate].
  destruct rest as [|x rest]; [|destruct (tokens d); [discriminate|]]; cbn [mbind res_mbind res_bind] in He;
    (destruct r; [|discriminate..]); unfold finish_job in He; revert He;
    (destruct (jobs_pending _ !! k) as [[[|m] f]|]; [discriminate| |discriminate]);
    (destruct (m =? 0)%nat; [|discriminate]); destruct (finish _ _ _) as [?|[]|?]; discriminate.
Qed.

Lemma spawned_truncate d : active (jq d) ≠ [] → spawned d → spawned (truncate d).
Proof.
  intros Ha _. right. left. cbn. destruct (active (jq d)); [done|]. simpl. lia.
Qed.

Lemma drain_outcome D events ms F d :
  drain_ok D ms F d → deliverable events d → ∃ out, drain events d = Some out ∧ outcome_ok D ms events out.
Proof.
  revert ms F d. induction events as [|m events IH]; intros ms F d Hok Hdel; cbn [JobQueue.drain];
    destruct (schedule_ok _ _ _ _ Hok) as (d1 & Hs & H1 & Hsch & _); rewrite Hs; cbn [fbind];
    (case_bool_decide as Ha; [eexists; split; [done|]; exists [], F; rewrite app_nil_r; split_and!; [apply prefix_nil|done..]|]);
    destruct (truncate_ok _ _ _ _ H1) as [H2 Ht]; specialize (Ht Ha).
  - eexists. split; [done|]. exists F. rewrite app_nil_r. split_and!; [done| |done].
    apply spawned_truncate; [done|apply Hsch].
  - destruct (Hdel _ Hs Ha) as [Hrec Hnext]. pose proof (handle_ok _ _ _ _ _ H2 Ht Hrec) as Hh.
    destruct (handle m (truncate d1)) as [d2|e|p] eqn:Hm; cbn [fbind]; [|eexists; split; [done|]|done].
    + destruct Hh as [F' HF]. destruct (IH _ _ _ HF (Hnext _ eq_refl)) as (out & Hout & Hok').
      exists out. split; [exact Hout|]. destruct out as [[r d3|d3]|e|p]; [..|done].
      * destruct Hok' as (ms' & F3 & Hpre & Hdr & Hrest). exists (m :: ms'), F3.
        split; [by apply prefix_cons|]. by rewrite <-app_assoc in Hdr.
      * destruct Hok' as (F3 & Hdr & Hrest). exists F3. by rewrite <-app_assoc in Hdr.
      * destruct Hok' as (m' & Hin & Hne). exists m'. split; [by constructor|done].
    + exists m. split; [constructor|]. intros k r. by eapply handle_err.
Qed.

(** With nothing running, the build is over: it failed or all is built. *)
Lemma run_over D ms F d :
  closed D → drain_ok D ms F d → scheduled d → active (jq d) = [] →
  (build_result d = Ok tt ↔ failed_of ms = []) ∧
  (failed_of ms = [] → ∀ k, k ∈ dom D → MsgFinish k (Ok tt) ∈ ms).
Proof.
  intros Hcl Hok [Hsp Hdq] Ha. destruct (decide (failed_of ms = [])) as [Hf|Hf].
  - assert (He : error d = None) by (by apply (dk_error _ _ _ _ Hok)).
    assert (Hw : waiting d = []).
    { destruct Hsp as [H|[H|H]]; [done| |done]. rewrite Ha in H. simpl in H. lia. }
    assert (Hp : pending (queue (jq d)) = ∅).
    { apply set_eq. intros k. split; [|by intros ?%not_elem_of_empty]. intros Hk.
      destruct (dk_pending _ _ _ _ Hok k Hk) as (n & f & _ & Hnz & Hn). unfold wkeys in Hn. rewrite Ha, Hw, Hf in Hn.
      by change (n = 0%nat) in Hn. }
    assert (Hd : dep_map (queue (jq d)) = ∅).
    { destruct (decide (dep_map (queue (jq d)) = ∅)) as [|Hne]; [done|].
      destruct (dequeue_progress _ _ _ _ (dk_inv _ _ _ _ Hok) Hcl (dk_depth _ _ _ _ Hok) Hp Hne) as (x & q & Hq).
      by rewrite Hdq in Hq. }
    split.
    + split; [done|]. intros _. unfold build_result, is_empty. by rewrite Hd, Hp, !bool_decide_true.
    + intros _ k Hk. apply (dk_built _ _ _ _ Hok).
      destruct (qi_all _ _ _ _ (dk_inv _ _ _ _ Hok) k Hk) as [H|[H|H]]; [..|done].
      * rewrite Hd, dom_empty in H. by apply not_elem_of_empty in H.
      * rewrite Hp in H. by apply not_elem_of_empty in H.
  - split; [|done]. split; [|done]. intros Hr. exfalso.
    destruct (error d) as [e|] eqn:He; [|by apply Hf, (dk_error _ _ _ _ Hok)].
    destruct (failed_of ms) as [|k l] eqn:Hl; [done|].
    assert (Hk : k ∈ pending (queue (jq d))).
    { apply (dk_started _ _ _ _ Hok). rewrite Hl. right. right. constructor. }
    unfold build_result, is_empty in Hr. rewrite (bool_decide_false (pending _ = ∅)) in Hr by set_solver.
    rewrite andb_false_r, He in Hr. discriminate.
Qed.

(** * Filling the queue *)

(** The units of the build in order, with the units each depends on, and their
    jobs. *)
Definition Entry : Type := CUnit * list CUnit * Job * Freshness.
Definition entry_key (e : Entry) : JobKey := key_new e.1.1.1.
Definition entry_deps (e : Entry) : gset JobKey := list_to_set (key_dependencies (entry_key e) e.1.1.2).
Definition enqueue_all (es : list Entry) : @JobQueue SV UL Job :=
  foldl (λ j e, enqueue j e.1.1.1 e.1.1.2 e.1.2 e.2) jobqueue_new es.
(** What each key waits for: the first entry of a key counts. *)
Definition add_entry (D : gmap JobKey (gset JobKey)) (e : Entry) : gmap JobKey (gset JobKey) :=
  if decide (entry_key e ∈ dom D) then D else <[entry_key e := entry_deps e]> D.
Definition deps_of_entries (es : list Entry) : gmap JobKey (gset JobKey) := foldl add_entry ∅ es.

Record enqueued D (j : @JobQueue SV UL Job) : Prop := {
  en_inv : queue_inv D ∅ ∅ (queue j);
  en_new : pending (queue j) = ∅ ∧ depth (queue j) = ∅ ∧ active j = [];
  en_jobs : ∀ k s jobs, dep_map (queue j) !! k = Some (s, jobs) → jobs ≠ [];
  en_counts : ∀ p, default 0 (counts j !! p) = pcnt p (queued (queue j));
}.

Lemma enqueued_new : enqueued ∅ jobqueue_new.
Proof.
  split; [apply inv_new|done|by intros k s jobs H|].
  intros p. cbn. unfold queued. cbn. by rewrite fmap_empty, map_to_list_empty.
Qed.

Lemma queued_insert (q : DQ) k s jobs dm rdm dirt pend dep :
  delete k (dep_map q) = delete k dm → dm !! k = Some (s, jobs) →
  queued (mkQueue dm rdm dirt pend dep) ≡ₚ replicate (length jobs) k ++ queued (mkQueue (delete k (dep_map q)) rdm dirt pend dep).
Proof. intros -> Hk. exact (queued_delete (mkQueue dm rdm dirt pend dep) k s jobs rdm dirt pend dep Hk). Qed.

Lemma queued_same_map (q q' : DQ) : dep_map q = dep_map q' → queued q = queued q'.
Proof. intros H. unfold queued. by rewrite H. Qed.

Lemma queue_counts (q : DQ) key deps (jf : Job * Freshness) :
  (queued (DepQueue.queue Fresh key [] deps (λ v, (v ++ [jf])%list) q) ≡ₚ key :: queued q) ∧
  (∀ k s jobs, dep_map (DepQueue.queue Fresh key [] deps (λ v, (v ++ [jf])%list) q) !! k = Some (s, jobs) →
     jobs ≠ [] ∨ dep_map q !! k = Some (s, jobs)).
Proof.
  unfold DepQueue.queue. destruct (dep_map q !! key) as [[ds v]|] eqn:Hk.
  - split.
    + rewrite (queued_insert q key ds (v ++ [jf])); [|cbn; by rewrite delete_insert_eq|apply lookup_insert_eq].
      rewrite (queued_delete q key ds v (reverse_dep_map q) (dirty q) (pending q) (depth q) Hk), length_app.
      simpl. rewrite Nat.add_1_r. done.
    + intros k s jobs H. cbn in H. rewrite lookup_insert in H. case_decide as He; [|by right].
      injection H as _ <-. left. by destruct v.
  - cbn -[foldl]. split.
    + erewrite (queued_insert q key _ [jf]); [|by rewrite delete_insert_eq|apply lookup_insert_eq].
      simpl. constructor. erewrite (queued_same_map _ q); [done|]. cbn. by apply delete_id.
    + intros k s jobs H. rewrite lookup_insert in H. case_decide as He; [|by right].
      injection H as _ <-. by left.
Qed.

Lemma enqueue_ok D j (e : Entry) :
  enqueued D j →
  enqueued (add_entry D e) (enqueue j e.1.1.1 e.1.1.2 e.1.2 e.2).
Proof.
  intros [K1 (P1 & P2 & P3) K3 K4]. unfold enqueue. fold (entry_key e).
  set (deps := key_dependencies (entry_key e) e.1.1.2).
  destruct (queue_counts (queue j) (entry_key e) deps (e.1.2, e.2)) as [Hq Hj].
  pose proof (inv_queue D ∅ (queue j) Fresh (entry_key e) [] deps (λ v, (v ++ [(e.1.2, e.2)])%list) K1 P1) as Hinv.
  rewrite (decide_False (P := _ ∧ Fresh = Dirty)) in Hinv by (by intros [_ ?]).
  set (q := DepQueue.queue _ _ _ _ _ _) in *. split; cbn [queue active counts].
  - exact Hinv.
  - unfold q, DepQueue.queue. by destruct (dep_map (queue j) !! entry_key e) as [[]|].
  - intros k s jobs H. destruct (Hj k s jobs H) as [|H']; [done|by apply (K3 k s)].
  - intros p. rewrite (pcnt_perm _ _ _ Hq), pcnt_cons, lookup_insert.
    destruct (decide (key_pkg (entry_key e) = p)) as [<-|Hp].
    + by rewrite K4.
    + by rewrite K4.
Qed.

Lemma enqueue_all_ok es : enqueued (deps_of_entries es) (enqueue_all es).
Proof.
  unfold enqueue_all, deps_of_entries. generalize enqueued_new.
  generalize (∅ : gmap JobKey (gset JobKey)), (@jobqueue_new SV UL Job).
  induction es as [|e es IH]; intros D j Hj; [exact Hj|]. cbn [foldl]. apply IH. by apply enqueue_ok.
Qed.

(** What the entries must be for the queue to accept them. *)
Record buildable (es : list Entry) : Prop := {
  bu_small : (N.of_nat (size (all_keys (queue (enqueue_all es)))) < IN_PROGRESS)%N;
  bu_acyclic : acyclic (queue (enqueue_all es));
  bu_closed : closed (deps_of_entries es);
}.

(** The state [drain_the_queue] starts from. *)
Definition started (es : list Entry) (p : Plan) d : Prop :=
  ∃ q, queue_finished (queue (enqueue_all es)) = Some (Ok q) ∧
       let j := enqueue_all es in
       d = drain_start (mkJobQueue q (active j) (jobs_pending j) (compiled j) (documented j) (counts j)) p.

Lemma execute_start es p events :
  buildable es → ∃ d, started es p d ∧ drain_ok (deps_of_entries es) [] ∅ d ∧
    execute events (enqueue_all es) p = drain events d.
Proof.
  intros [Hs Ha Hcl]. destruct (enqueue_all_ok es) as [K1 (P1 & P2 & P3) K3 K4].
  pose proof (queue_finished_cases _ P2 Hs) as Hq. unfold started, JobQueue.execute.
  destruct (queue_finished _) as [[q|[]|m]|]; [|done..]. destruct Hq as (dep & -> & Hdep).
  eexists. split; [by eexists|]. split; [|done].
  destruct K1 as [W1 W2 W3 W4 W5 W6].
  split; unfold outstanding, wkeys; cbn [drain_start jq queue active jobs_pending counts tokens waiting error]; try done.
  - cbn. rewrite P1. intros k Hk. by apply not_elem_of_empty in Hk.
  - rewrite P3. intros k [Hk|[Hk|Hk]]; by apply not_elem_of_nil in Hk.
  - rewrite P3. simpl. lia.
Qed.

(** * The results *)
Lemma failed_of_nil ms : failed_of ms = [] ↔ ∀ k e, MsgFinish k (Err e) ∉ ms.
Proof.
  split.
  - intros Hf k e Hin. apply (not_elem_of_nil k). rewrite <-Hf. apply list_elem_of_omap. by eexists.
  - intros H. destruct (failed_of ms) as [|k l] eqn:Hf; [done|]. exfalso.
    assert (Hk : k ∈ failed_of ms) by (rewrite Hf; constructor).
    apply list_elem_of_omap in Hk as (m & Hm & Hk). destruct m; try discriminate. destruct result; try discriminate.
    by apply (H _ _ Hm).
Qed.

Lemma elem_of_deps_of_entries es e : e ∈ es → entry_key e ∈ dom (deps_of_entries es).
Proof.
  intros He. unfold deps_of_entries.
  assert (Hgen : ∀ D, entry_key e ∈ dom D ∨ e ∈ es → entry_key e ∈ dom (foldl add_entry D es)).
  { clear He. induction es as [|x es IH]; intros D H; cbn [foldl].
    - destruct H as [H|H]; [done|by apply not_elem_of_nil in H].
    - apply IH. destruct H as [H|[->|H]%elem_of_cons]; [left..|by right]; unfold add_entry.
      + case_decide; [done|]. rewrite dom_insert. by apply elem_of_union_r.
      + case_decide; [done|]. rewrite dom_insert. by apply elem_of_union_l, elem_of_singleton. }
  apply Hgen. by right.
Qed.

(** C11. The job queue respects its limits and its order: whatever messages the
    channel delivers, draining the queue never panics, so no assertion about
    tokens fails, no count underflows and no package is finished that was not
    started; and when it waits for the next message, it holds exactly one
    token less than there are jobs running, and everything a running job
    depends on has reported success and no failure. *)
Theorem execute_bounds es p events out
    (Hes : buildable es) (Hev : ∀ d, started es p d → deliverable events d)
    (Hout : execute events (enqueue_all es) p = Some out) :
  is_panic out = false ∧
  ∀ d, out = Ok (Blocked d) →
    length (active (jq d)) = S (tokens d) ∧
    ∀ k dep, k ∈ active (jq d) →
      (∃ ds, deps_of_entries es !! k = Some ds ∧ dep ∈ ds) →
      MsgFinish dep (Ok tt) ∈ events ∧ ∀ e, MsgFinish dep (Err e) ∉ events.
Proof.
  destruct (execute_start es p events Hes) as (d0 & Hst & Hok & Hex). rewrite Hex in Hout.
  destruct (drain_outcome _ events _ _ _ Hok (Hev _ Hst)) as (out' & Hd & Hoc). rewrite Hd in Hout. injection Hout as ->.
  destruct out as [[r d|d]|e|m]; (split; [done|]); try done; intros d' [= <-].
  destruct Hoc as (F & Hok' & _ & Ht). split; [lia|]. intros k dep Hk (ds & Hds & Hin).
  assert (Hkp : k ∈ pending (queue (jq d))) by (apply (dk_started _ _ _ _ Hok'); by left).
  destruct (qi_started _ _ _ _ (dk_inv _ _ _ _ Hok') k (or_introl Hkp)) as (ds' & Hds' & Hsub).
  rewrite Hds in Hds'. injection Hds' as <-. apply Hsub in Hin. split; [by apply (dk_built _ _ _ _ Hok')|].
  intros e He. apply (qi_disjoint _ _ _ _ (dk_inv _ _ _ _ Hok') dep); [|exact Hin].
  apply (dk_started _ _ _ _ Hok'). right. right. apply list_elem_of_omap. eexists. split; [exact He|done].
Qed.

(** C10. The result of a build is what its jobs report: [execute] answers on
    every stream of messages, and when it ends, it has succeeded exactly if no
    job it was told of failed, in which case every package queued has reported
    success; otherwise it ends with an error. *)
Theorem execute_result es p events
    (Hes : buildable es) (Hev : ∀ d, started es p d → deliverable events d) :
  ∃ out, execute events (enqueue_all es) p = Some out ∧
    match out with
    | Ok (Built r d) => ∃ ms, ms `prefix_of` events ∧
        (r = Ok tt ↔ ∀ k e, MsgFinish k (Err e) ∉ ms) ∧
        (r = Ok tt → ∀ e, e ∈ es → MsgFinish (entry_key e) (Ok tt) ∈ ms)
    | Ok (Blocked d) => active (jq d) ≠ []
    | Err _ => ∃ m, m ∈ events ∧ ∀ k r, m ≠ MsgFinish k r
    | Panic _ => False
    end.
Proof.
  destruct (execute_start es p events Hes) as (d0 & Hst & Hok & Hex). rewrite Hex.
  destruct (drain_outcome _ events _ _ _ Hok (Hev _ Hst)) as (out & Hd & Hoc). exists out. split; [exact Hd|].
  destruct out as [[r d|d]|e|m]; [..|done|done].
  - destruct Hoc as (ms & F & Hpre & Hok' & Hsch & Ha & ->). exists ms. split; [done|].
    destruct (run_over _ _ _ _ (bu_closed _ Hes) Hok' Hsch Ha) as [Hr Hall]. cbn [app] in *.
    rewrite Hr, failed_of_nil. split; [done|]. intros Hf e He. apply Hall; [by apply failed_of_nil|].
    by apply elem_of_deps_of_entries.
  - destruct Hoc as (F & _ & _ & Ht). intros Ha. rewrite Ha in Ht. simpl in Ht. lia.
Qed.
End run.

(** * A concrete build: a library, then the binary that needs it *)
Section build.
Local Existing Instance sem_lib.
Local Existing Instance hier_lib.
Local Existing Instance std_order.
Local Open Scope string_scope.

Definition no_update (_ _ : string) (_ : list string) (p : unit) : cresult unit := Ok p.
Definition no_warnings (_ : hkey PackageId) (_ : PlatformKind) : option (list string) := None.
Definition hidden (_ : hkey PackageId) : bool := false.
Definition lib_unit : CUnit := mkUnit pkg_a (tgt (TLib [LibLib]) "a" false) default_dev KTarget MBuild.
Definition entries : list (@Entry sem_lib hier_lib string) := [(lib_unit, [], "lib", Dirty); (bin_unit, [lib_unit], "bin", Dirty)].
Definition lib_done : Message := MsgFinish (key_new lib_unit) (Ok tt).
Definition bin_done : Message := MsgFinish (key_new bin_unit) (Ok tt).
Definition run_build (events : list Message) :=
  execute no_update no_warnings hidden false events (enqueue_all entries) tt.

(** Deliverability, evaluated. *)
Definition receivable_b (d : @Drain sem_lib hier_lib string unit) (m : Message) : bool :=
  match m with
  | MsgFinish k r => bool_decide (k ∈ active (jq d)) && negb (is_panic r)
  | MsgToken r => negb (is_panic r)
  | MsgBuildPlan _ _ _ => false
  | _ => true
  end.
Fixpoint deliverable_b (events : list Message) (d : @Drain sem_lib hier_lib string unit) : bool :=
  match events with
  | [] => true
  | m :: events =>
      match schedule false d with
      | Some (Ok d') =>
          bool_decide (active (jq d') = []) ||
          (receivable_b (truncate d') m &&
           match handle no_update no_warnings hidden m (truncate d') with Ok d2 => deliverable_b events d2 | _ => true end)
      | _ => true
      end
  end.

Lemma deliverable_b_ok events d : deliverable_b events d = true → deliverable no_update no_warnings hidden false events d.
Proof.
  revert d. induction events as [|m events IH]; intros d; cbn [deliverable_b deliverable]; [done|].
  intros H d' Hs Ha. rewrite Hs, bool_decide_eq_false_2 in H by done. apply andb_prop in H as [Hr H]. split.
  - destruct m; try done; cbn [receivable_b] in Hr.
    + by apply negb_true_iff in Hr.
    + apply andb_prop in Hr as [Hk Hr]. apply bool_decide_eq_true in Hk. by apply negb_true_iff in Hr.
  - intros d2 Hd2. rewrite Hd2 in H. by apply IH.
Qed.

Definition prepared_b (events : list Message) : bool :=
  match queue_finished (queue (enqueue_all entries)) with
  | Some (Ok q) =>
      let j := enqueue_all entries in
      deliverable_b events (drain_start (mkJobQueue q (active j) (jobs_pending j) (compiled j) (documented j) (counts j)) tt)
  | _ => false
  end.

Lemma entries_deliverable events : prepared_b events = true →
  ∀ d, started entries tt d → deliverable no_update no_warnings hidden false events d.
Proof.
  unfold prepared_b. intros Hb d (q & Hq & ->). rewrite Hq in Hb. exact (deliverable_b_ok _ _ Hb).
Qed.

Definition closed_b : bool :=
  bool_decide (map_Forall (λ _ ds, ds ⊆ dom (deps_of_entries entries)) (deps_of_entries entries)).
Definition small_b : bool := (N.of_nat (size (all_keys (queue (enqueue_all entries)))) <? IN_PROGRESS)%N.

Lemma entries_buildable : buildable entries.
Proof.
  assert (Hs : (N.of_nat (size (all_keys (queue (enqueue_all entries)))) < IN_PROGRESS)%N).
  { apply N.ltb_lt. change (small_b = true). vm_eq. }
  assert (Hc : closed_b = true) by vm_eq. assert (Hf : prepared_b [] = true) by vm_eq. split.
  - exact Hs.
  - destruct (enqueue_all_ok entries) as [_ (_ & Hd & _) _ _].
    pose proof (queue_finished_cases _ Hd Hs) as Hq. unfold prepared_b in Hf.
    destruct (queue_finished _) as [[q|[]|m]|]; [|discriminate Hf..]. destruct Hq as (dep & _ & Hl).
    intros k x Hk. destruct (Hl k Hk) as (n & _ & Hn). by eapply longest_no_cycle.
  - unfold closed_b in Hc. apply bool_decide_eq_true in Hc. intros k ds d Hk Hd. exact (Hc k ds Hk d Hd).
Qed.

Definition running (out : option (cresult (@Outcome sem_lib hier_lib string unit))) : list TargetKind :=
  match out with
  | Some (Ok (Blocked d)) => map (λ k, tgt_kind (key_target k)) (active (jq d))
  | _ => []
  end.
Definition printed_by (out : option (cresult (@Outcome sem_lib hier_lib string unit))) : option (cresult unit * nat) :=
  match out with
  | Some (Ok (Built r d)) => Some (r, length (printed d))
  | _ => None
  end.

Lemma lib_before_bin : ∃ ds, deps_of_entries entries !! key_new bin_unit = Some ds ∧ key_new lib_unit ∈ ds.
Proof.
  assert (H : bool_decide (key_new lib_unit ∈ default ∅ (deps_of_entries entries !! key_new bin_unit)) = true) by vm_eq.
  apply bool_decide_eq_true in H. destruct (deps_of_entries entries !! key_new bin_unit) as [ds|]; [by exists ds|].
  by apply not_elem_of_empty in H.
Qed.

Lemma execute_bounds_witness :
  running (run_build [lib_done]) = [TBin] ∧
  ∀ out, run_build [lib_done] = Some out → ∀ d, out = Ok (Blocked d) →
    length (active (jq d)) = S (tokens d) ∧
    (key_new bin_unit ∈ active (jq d) → MsgFinish (key_new lib_unit) (Ok tt) ∈ [lib_done]).
Proof.
  split; [vm_eq|]. intros out Hout d Hd.
  destruct (execute_bounds no_update no_warnings hidden false entries tt [lib_done] out entries_buildable
    (entries_deliverable [lib_done] ltac:(vm_eq)) Hout) as [_ H].
  destruct (H d Hd) as [H1 H2]. split; [exact H1|]. intros Hk. exact (proj1 (H2 _ _ Hk lib_before_bin)).
Defined.

Lemma execute_result_witness :
  printed_by (run_build [lib_done; bin_done]) = Some (Ok tt, 1) ∧
  ∃ out, run_build [lib_done; bin_done] = Some out ∧
    match out with
    | Ok (Built r d) => r = Ok tt → ∃ ms, ms `prefix_of` [lib_done; bin_done] ∧ MsgFinish (key_new bin_unit) (Ok tt) ∈ ms
    | _ => True
    end.
Proof.
  split; [vm_eq|].
  destruct (execute_result no_update no_warnings hidden false entries tt [lib_done; bin_done] entries_buildable
    (entries_deliverable [lib_done; bin_done] ltac:(vm_eq))) as (out & Hrun & Hout).
  exists out. split; [exact Hrun|]. destruct out as [[r d|d]|e|m]; [|exact I..]. intros Hr.
  destruct Hout as (ms & Hpre & _ & Hall). exists ms. split; [exact Hpre|].
  exact (Hall Hr (bin_unit, [lib_unit], "bin", Dirty) ltac:(do 2 constructor)).
Defined.
End build.
