(* ===== verification/Encode.v ===== *)
(** The lock file, [src/cargo/core/resolver/encode.rs]: its data, and the
    conversions from and to a [Resolve]. *)
From S2P Require Import Prelude Str Extern SourceId PackageId Graph Dependency Summary ResTypes ResContext Resolve.

Local Open Scope string_scope.

Section encode.
Context `{SV : SemverLib} `{UL : UrlLib} `{RS : RustStd}.

(** [struct EncodablePackageId], [EncodableDependency], [EncodableResolve]
    with its [patch.unused] *)
Record EncodablePackageId := mkEncId {
  enc_name : string;
  enc_version : string;
  enc_source : option SourceId;
}.
Record EncodableDependency := mkEncDep {
  encd_name : string;
  encd_version : string;
  encd_source : option SourceId;
  encd_dependencies : option (list EncodablePackageId);
  encd_replace : option EncodablePackageId;
}.
Record EncodableResolve := mkEncResolve {
  encr_package : option (list EncodableDependency);
  encr_root : option EncodableDependency;
  encr_metadata : option (gmap string string);
  encr_unused : list EncodableDependency;
}.

#[global] Instance EncodablePackageId_key : HashKey EncodablePackageId := {|
  hkey := string * string * hkey (option SourceId);
  to_key e := (enc_name e, enc_version e, to_key (enc_source e));
|}.

Definition option_source_cmp (a b : option SourceId) : comparison :=
  match a, b with
  | None, None => Eq
  | None, Some _ => Lt
  | Some _, None => Gt
  | Some a, Some b => source_id_cmp a b
  end.
Definition enc_id_cmp (a b : EncodablePackageId) : comparison :=
  match String.compare (enc_name a) (enc_name b) with
  | Eq => match String.compare (enc_version a) (enc_version b) with
          | Eq => option_source_cmp (enc_source a) (enc_source b)
          | o => o
          end
  | o => o
  end.

(** [Display] and [FromStr] of [EncodablePackageId] *)
Definition enc_display (e : EncodablePackageId) : string :=
  enc_name e ++ " " ++ enc_version e ++
  match enc_source e with Some s => " (" ++ to_url s ++ ")" | None => EmptyString end.

Definition enc_from_str (s : string) : cresult EncodablePackageId :=
  let '(name, rest) := split_once " " s in
  match rest with
  | None => Err "invalid serialized PackageId"
  | Some rest =>
      let '(version, src) := split_once " " rest in
      source_id ← match src return cresult (option SourceId) with
                  | Some s =>
                      if starts_with "(" s && ends_with_char ")" s then
                        id ← from_url (str_take (String.length s - 2) (str_drop 1 s)); Ok (Some id)
                      else Err "invalid serialized PackageId"
                  | None => Ok None
                  end;
      Ok (mkEncId name version source_id)
  end.

(** [encode_source], [encodable_package_id], [encodable_resolve_node] *)
Definition encode_source (id : SourceId) : option SourceId := if is_path id then None else Some id.
Definition encodable_package_id (id : PackageId) : EncodablePackageId :=
  mkEncId (pid_name id) (version_to_string (pid_version id))
          ((λ s, SourceId.with_precise s None) <$> encode_source (pid_source_id id)).

Definition encodable_resolve_node (r : Resolve) (id : PackageId) : EncodableDependency :=
  let '(replace, deps) :=
    match replacement r id with
    | Some id => (Some (encodable_package_id id), None)
    | None => (None, Some (sort_by enc_id_cmp (encodable_package_id <$> deps_not_replaced r id)))
    end in
  mkEncDep (pid_name id) (version_to_string (pid_version id)) (encode_source (pid_source_id id))
           deps replace.

(** [Serialize for WorkspaceResolve]: what is handed to the serialiser. *)
Definition encode_checksum (r : Resolve) (metadata : gmap string string) (id : PackageId)
    : cresult (gmap string string) :=
  match hget (checksums r) id with
  | None => Panic "no entry found for key"
  | Some checksum =>
      Ok (<["checksum " ++ enc_display (encodable_package_id id) := default "<none>" checksum]> metadata)
  end.

Definition encode_unused (id : PackageId) : EncodableDependency :=
  mkEncDep (pid_name id) (version_to_string (pid_version id)) (encode_source (pid_source_id id)) None None.

Definition encode_resolve (r : Resolve) : cresult EncodableResolve :=
  let ids := sort_by package_id_cmp (iter r) in
  let encodable := encodable_resolve_node r <$> ids in
  meta ← foldM (encode_checksum r) (metadata r)
               (filter (λ id, is_path (pid_source_id id) = false) ids);
  Ok (mkEncResolve (Some encodable) None (if bool_decide (meta = ∅) then None else Some meta)
                   (encode_unused <$> unused_patches r)).

(** * [EncodableResolve::into_resolve] *)

(** [path_deps] is what [build_path_deps] finds in the workspace: the sources
    of its path packages by name. *)
Abbreviation LivePkgs := (hashmap EncodablePackageId (PackageId * EncodableDependency)).

Definition enc_id_of (pkg : EncodableDependency) : EncodablePackageId :=
  mkEncId (encd_name pkg) (encd_version pkg) (encd_source pkg).
Definition source_of (path_deps : hashmap string SourceId) (pkg : EncodableDependency) : option SourceId :=
  match encd_source pkg with
  | Some s => Some s
  | None => hget path_deps (encd_name pkg)
  end.

Definition add_live (path_deps : hashmap string SourceId)
    (st : LivePkgs * hashset EncodablePackageId) (pkg : EncodableDependency)
    : cresult (LivePkgs * hashset EncodablePackageId) :=
  let '(live_pkgs, all_pkgs) := st in
  let enc_id := enc_id_of pkg in
  if hcontains all_pkgs enc_id then
    Err ("package `" ++ encd_name pkg ++ "` is specified twice in the lockfile")
  else
    let all_pkgs := hinsert enc_id tt all_pkgs in
    match source_of path_deps pkg with
    | None => Ok (live_pkgs, all_pkgs)
    | Some source =>
        id ← PackageId.new (encd_name pkg) (encd_version pkg) source;
        if hcontains live_pkgs enc_id then
          Panic "assertion failed: live_pkgs.insert(enc_id, (id, pkg)).is_none()"
        else Ok (hinsert enc_id (id, pkg) live_pkgs, all_pkgs)
    end.

Definition lookup_id (live_pkgs : LivePkgs) (e : EncodablePackageId) : option PackageId :=
  fst <$> hget live_pkgs e.

Definition link_deps (live_pkgs : LivePkgs) (g : Graph PackageId (list Dependency))
    (entry : PackageId * EncodableDependency) : Graph PackageId (list Dependency) :=
  let '(id, pkg) := entry in
  foldl (λ g edge, match lookup_id live_pkgs edge with
                   | Some to_depend_on => Graph.link g id to_depend_on [] (λ deps, deps)
                   | None => g
                   end) g (default [] (encd_dependencies pkg)).

Definition build_graph (live_pkgs : LivePkgs) : Graph PackageId (list Dependency) :=
  let entries := hvalues live_pkgs in
  foldl (link_deps live_pkgs) (foldl (λ g e, Graph.add g e.1) Graph.new entries) entries.

Definition add_replacement (live_pkgs : LivePkgs) (m : hashmap PackageId PackageId)
    (entry : PackageId * EncodableDependency) : cresult (hashmap PackageId PackageId) :=
  let '(id, pkg) := entry in
  match encd_replace pkg with
  | None => Ok m
  | Some replace =>
      match encd_dependencies pkg with
      | Some _ => Panic "assertion failed: pkg.dependencies.is_none()"
      | None => match lookup_id live_pkgs replace with
                | Some replace_id => Ok (hinsert id replace_id m)
                | None => Ok m
                end
      end
  end.

(** The checksums recorded in the metadata. *)
Definition read_checksum (live_pkgs : LivePkgs) (m : hashmap PackageId (option string))
    (kv : string * string) : cresult (hashmap PackageId (option string)) :=
  let '(k, v) := kv in
  enc_id ← chain_err "invalid encoding of checksum in lockfile" (enc_from_str (str_drop 9 k));
  match lookup_id live_pkgs enc_id with
  | None => Ok m
  | Some id => Ok (hinsert id (if String.eqb v "<none>" then None else Some v) m)
  end.

Definition add_unused (path_deps : hashmap string SourceId) (l : list PackageId)
    (pkg : EncodableDependency) : cresult (list PackageId) :=
  match source_of path_deps pkg with
  | Some src => id ← PackageId.new (encd_name pkg) (encd_version pkg) src; Ok (l ++ [id])%list
  | None => Ok l
  end.

Definition is_checksum (kv : string * string) : bool := starts_with "checksum " kv.1.

Definition into_resolve (path_deps : hashmap string SourceId) (e : EncodableResolve) : cresult Resolve :=
  let packages := match encr_root e with
                  | Some root => root :: default [] (encr_package e)
                  | None => default [] (encr_package e)
                  end in
  st ← foldM (add_live path_deps) (∅, ∅) packages;
  let live_pkgs := (st : LivePkgs * hashset EncodablePackageId).1 in
  let g := build_graph live_pkgs in
  replacements ← foldM (add_replacement live_pkgs) ∅ (hvalues live_pkgs);
  let metadata := default ∅ (encr_metadata e) in
  let entries := filter (λ kv, is_checksum kv = true) (btree_iter metadata) in
  checksums ← foldM (read_checksum live_pkgs) ∅ entries;
  let metadata := foldl (λ m k, delete k m) metadata entries.*1 in
  unused_patches ← foldM (add_unused path_deps) [] (encr_unused e);
  Ok (Resolve.new g replacements ∅ checksums metadata unused_patches).
End encode.
