(* ===== verification/LockFile.v ===== *)
(** The lock file keeps the resolve: reading back, with [into_resolve], what
    [encode_resolve] hands to the serialiser gives the same packages, edges,
    overrides, checksums and metadata. *)
From S2P Require Import Prelude Str Extern SourceId PackageId Graph Dependency Summary ResTypes ResContext Resolve Encode.

Section lockfile.
Context `{SV : SemverLib} `{UL : UrlLib} `{RS : RustStd}.
Context (path_deps : hashmap string SourceId) (r : Resolve).

Local Abbreviation enc := encodable_package_id.
Local Abbreviation LivePkgs := (hashmap EncodablePackageId (PackageId * EncodableDependency)).
Local Abbreviation node := (encodable_resolve_node r).

(** A package whose name, version and source can be read back; the source of a
    path package is what the workspace says. *)
Definition readable (a : PackageId) : Prop :=
  PackageId.new (pid_name a) (version_to_string (pid_version a)) (pid_source_id a) = Ok a ∧
  (is_path (pid_source_id a) = true → hget path_deps (pid_name a) = Some (pid_source_id a)).
Definition not_path (a : PackageId) : Prop := is_path (pid_source_id a) = false.

(** The resolves that the lock file can hold. *)
Record lockable : Prop := {
  lk_wf : wf (graph r);
  lk_readable : ∀ a, a ∈ Resolve.iter r ∨ a ∈ unused_patches r → readable a;
  lk_distinct : ∀ a b, a ∈ Resolve.iter r → b ∈ Resolve.iter r → to_key (enc a) = to_key (enc b) → a = b;
  lk_deps : ∀ a b, a ∈ Resolve.iter r → b ∈ deps_not_replaced r a → b ∈ Resolve.iter r;
  lk_replaced : ∀ a b, replacement r a = Some b →
    b ∈ Resolve.iter r ∧ Resolve.contains r a = true ∧ deps_not_replaced r a = [];
  lk_metadata : ∀ k v, metadata r !! k = Some v → is_checksum (k, v) = false;
  lk_checksum : ∀ a, a ∈ Resolve.iter r → not_path a →
    ∃ c, hget (checksums r) a = Some c ∧ c ≠ Some "<none>"%string;
  lk_printed : ∀ a, a ∈ Resolve.iter r → not_path a →
    ∃ e, enc_from_str (enc_display (enc a)) = Ok e ∧ to_key e = to_key (enc a);
}.
Context (Hlk : lockable).

(** * The packages *)
Lemma source_of_node a : readable a → source_of path_deps (node a) = Some (pid_source_id a).
Proof.
  intros [_ Hp]. unfold source_of, node, encodable_resolve_node.
  destruct (replacement r a); simpl; unfold encode_source; destruct (is_path _); simpl; auto.
Qed.

Lemma enc_id_of_node a : to_key (enc_id_of (node a)) = to_key (enc a).
Proof.
  unfold enc_id_of, node, encodable_resolve_node, enc.
  destruct (replacement r a); simpl; unfold encode_source; destruct (is_path _); done.
Qed.

Lemma node_name a : encd_name (node a) = pid_name a ∧ encd_version (node a) = version_to_string (pid_version a).
Proof. unfold node, encodable_resolve_node. by destruct (replacement r a). Qed.

(** [live_pkgs] once these packages are read. *)
Definition live_ok (live : LivePkgs) (done : list PackageId) : Prop :=
  hwf live ∧
  (∀ a, a ∈ done → hget live (enc a) = Some (a, node a)) ∧
  (∀ e x, hget live e = Some x → ∃ a, a ∈ done ∧ x = (a, node a) ∧ to_key (enc a) = to_key e).

Definition all_ok (all : hashset EncodablePackageId) (done : list PackageId) : Prop :=
  ∀ e, hcontains all e = true → ∃ a, a ∈ done ∧ to_key (enc a) = to_key e.

Lemma add_live_all ids :
  NoDup ids → (∀ a, a ∈ ids → a ∈ Resolve.iter r) →
  ∃ st, foldM (add_live path_deps) (∅, ∅) (node <$> ids) = Ok st ∧ live_ok st.1 ids.
Proof.
  intros Hnd Hin.
  destruct (foldM_ok (add_live path_deps)
    (λ st l, ∃ done rest, ids = done ++ rest ∧ l = node <$> rest ∧ live_ok st.1 done ∧ all_ok st.2 done)
    (node <$> ids) (∅, ∅)) as (st & Hst & done & rest & Hids & Hrest & Hl & _).
  3: { exists st. split; [done|]. destruct rest; [|done]. rewrite app_nil_r in Hids. by subst. }
  - intros [live all] x l' (done & rest & Hids & Hx & (Hwf & Hget & Hinv) & Hall). simpl in *.
    destruct rest as [|a rest]; [done|]. simpl in Hx. injection Hx as -> ->.
    assert (Ha : a ∈ Resolve.iter r) by (apply Hin; rewrite Hids; set_solver).
    assert (Hnew : ∀ b, b ∈ done → to_key (enc b) ≠ to_key (enc a)).
    { intros b Hb Hk. assert (b = a) as ->.
      { apply (lk_distinct Hlk); [apply Hin; rewrite Hids; set_solver|done..]. }
      rewrite Hids in Hnd. apply NoDup_app in Hnd as (_ & Hnd & _). apply (Hnd a Hb). constructor. }
    assert (Hall' : hcontains all (enc_id_of (node a)) = false).
    { apply not_true_iff_false. intros (b & Hb & Hk)%Hall. rewrite enc_id_of_node in Hk. by apply (Hnew b). }
    assert (Hlive' : hcontains live (enc_id_of (node a)) = false).
    { apply not_true_iff_false. intros (x & Hx)%hcontains_true. destruct (Hinv _ _ Hx) as (b & Hb & _ & Hk).
      rewrite enc_id_of_node in Hk. by apply (Hnew b). }
    rewrite Hall'. pose proof (lk_readable Hlk a (or_introl Ha)) as Hread.
    rewrite (source_of_node a Hread). destruct (node_name a) as [-> ->].
    rewrite (proj1 Hread). simpl. rewrite Hlive'. eexists. split; [done|].
    exists (done ++ [a]), rest. split_and!; [by rewrite <-app_assoc|done| |].
    + simpl. split_and!; [by apply hwf_hinsert| |].
      * intros b [Hb| ->%list_elem_of_singleton]%elem_of_app; rewrite hget_hinsert, enc_id_of_node.
        -- rewrite decide_False; [by apply Hget|]. intros Hk. by apply (Hnew b).
        -- by rewrite decide_True.
      * intros e x. rewrite hget_hinsert, enc_id_of_node. case_decide as Hk.
        -- intros [= <-]. exists a. split_and!; [set_solver|done|done].
        -- intros (b & Hb & ? & ?)%Hinv. exists b. split_and!; [set_solver|done|done].
    + simpl. intros e He%hcontains_true. setoid_rewrite hget_hinsert in He. destruct He as [v He].
      rewrite enc_id_of_node in He. case_decide as Hk.
      * exists a. split; [set_solver|done].
      * destruct (Hall e) as (b & Hb & Hkb); [apply hcontains_true; by exists v|]. exists b. split; [set_solver|done].
  - exists [], ids. split_and!; [done|done| |].
    + split_and!; [apply hwf_empty|intros a Ha; by apply elem_of_nil in Ha|].
      intros e x Hx. change (hget (∅ : LivePkgs) e = Some x) in Hx. rewrite hget_empty in Hx. discriminate Hx.
    + intros e He%hcontains_true. destruct He as [v He].
      change (hget (∅ : hashset EncodablePackageId) e = Some v) in He. rewrite hget_empty in He. discriminate He.
Qed.

Section live.
Context (live : LivePkgs) (ids : list PackageId).
Context (Hlive : live_ok live ids) (Hids : ∀ a, a ∈ ids ↔ a ∈ Resolve.iter r).

Lemma elem_of_entries x : x ∈ hvalues live ↔ ∃ a, a ∈ ids ∧ x = (a, node a).
Proof.
  destruct Hlive as (Hwf & Hget & Hinv). unfold hvalues. rewrite list_elem_of_fmap. split.
  - intros ([e y] & -> & Hin). apply elem_of_hiter_wf in Hin; [|done]. apply hget_Some in Hin.
    destruct (Hinv _ _ Hin) as (a & Ha & -> & _). by exists a.
  - intros (a & Ha & ->). destruct (hget_Some_inv _ _ _ (Hget a Ha)) as [e He].
    exists (e, (a, node a)). split; [done|]. apply elem_of_hiter. eauto.
Qed.

Lemma lookup_enc e a : a ∈ ids → to_key e = to_key (enc a) → lookup_id live e = Some a.
Proof.
  intros Ha Hk. destruct Hlive as (_ & Hget & _). unfold lookup_id.
  by rewrite (hget_key _ _ _ Hk), (Hget a Ha).
Qed.

(** ** The graph *)
Lemma depends_on_link (g : Graph PackageId (list Dependency)) a b d f x y :
  depends_on (Graph.link g a b d f) x y ↔ depends_on g x y ∨ (to_key a = to_key x ∧ to_key b = to_key y).
Proof.
  unfold depends_on. setoid_rewrite edge_link. case_decide as Hk.
  - split; [by right|]. intros _. by eexists.
  - split; [by left|]. by intros [|].
Qed.

Lemma depends_on_link_deps l (g : Graph PackageId (list Dependency)) a x y :
  depends_on (foldl (λ g e, match lookup_id live e with
                            | Some b => Graph.link g a b [] (λ deps, deps)
                            | None => g end) g l) x y ↔
  depends_on g x y ∨ (to_key a = to_key x ∧ ∃ e b, e ∈ l ∧ lookup_id live e = Some b ∧ to_key b = to_key y).
Proof.
  revert g. induction l as [|e l IH]; intros g; simpl.
  { split; [by left|]. intros [|(_ & e & b & He & _)]; [done|by apply elem_of_nil in He]. }
  rewrite IH. setoid_rewrite elem_of_cons. destruct (lookup_id live e) as [b|] eqn:He.
  - rewrite depends_on_link. split.
    + intros [[H|[Ha Hb]]|(Ha & e' & b' & H & H')]; [by left|right|right].
      * split; [done|]. exists e, b. auto.
      * split; [done|]. exists e', b'. auto.
    + intros [H|(Ha & e' & b' & [->|H] & H' & H'')]; [by left; left|left; right|right].
      * split; [done|congruence].
      * split; [done|]. by exists e', b'.
  - split.
    + intros [H|(Ha & e' & b' & H & H')]; [by left|right]. split; [done|]. exists e', b'. auto.
    + intros [H|(Ha & e' & b' & [->|H] & H' & H'')]; [by left|congruence|right]. split; [done|]. by exists e', b'.
Qed.

Lemma depends_on_fold l (g : Graph PackageId (list Dependency)) x y :
  depends_on (foldl (link_deps live) g l) x y ↔
  depends_on g x y ∨ ∃ a n e b, (a, n) ∈ l ∧ to_key a = to_key x ∧ e ∈ default [] (encd_dependencies n) ∧
    lookup_id live e = Some b ∧ to_key b = to_key y.
Proof.
  revert g. induction l as [|[a n] l IH]; intros g; simpl.
  { split; [by left|]. intros [|(? & ? & ? & ? & H & _)]; [done|by apply elem_of_nil in H]. }
  rewrite IH. rewrite depends_on_link_deps. setoid_rewrite elem_of_cons. split.
  - intros [[H|(Ha & e & b & H & H')]|(a' & n' & e & b & H & H')]; [by left|right|right].
    + exists a, n, e, b. auto.
    + exists a', n', e, b. auto.
  - intros [H|(a' & n' & e & b & [[= -> ->]|H] & Ha & H' & H'')]; [by left; left|left; right|right].
    + split; [done|]. by exists e, b.
    + by exists a', n', e, b.
Qed.

Lemma contains_add_all l (g : Graph PackageId (list Dependency)) x :
  Graph.contains (foldl (λ g (e : PackageId * EncodableDependency), Graph.add g e.1) g l) x = true ↔
  Graph.contains g x = true ∨ ∃ e, e ∈ l ∧ to_key e.1 = to_key x.
Proof.
  revert g. induction l as [|e l IH]; intros g; simpl.
  { split; [by left|]. intros [|(? & H & _)]; [done|by apply elem_of_nil in H]. }
  rewrite IH. setoid_rewrite elem_of_cons.
  assert (Ha : Graph.contains (Graph.add g e.1) x = true ↔ Graph.contains g x = true ∨ to_key e.1 = to_key x).
  { unfold Graph.contains, Graph.add. simpl. rewrite !hcontains_true. setoid_rewrite hget_hor_insert.
    case_decide; split; [by right|by eauto|by left|]. by intros [|]. }
  rewrite Ha. split.
  - intros [[H|H]|(e' & H & Hk)]; [by left|right; by exists e; auto|right; exists e'; auto].
  - intros [H|(e' & [->|H] & Hk)]; [by left; left|by left; right|right; by exists e'].
Qed.

Lemma contains_link_deps l (g : Graph PackageId (list Dependency)) x :
  (∀ a n, (a, n) ∈ l → Graph.contains g a = true) →
  Graph.contains (foldl (link_deps live) g l) x = Graph.contains g x.
Proof.
  revert g. induction l as [|[a n] l IH]; intros g Hin; [done|]. cbn [foldl link_deps].
  assert (Hone : ∀ es (g : Graph PackageId (list Dependency)), Graph.contains g a = true → ∀ x, Graph.contains (foldl (λ (g : Graph PackageId (list Dependency)) e, match lookup_id live e with
                            | Some b => Graph.link g a b [] (λ deps, deps)
                            | None => g end) g es) x = Graph.contains g x).
  { clear IH Hin l. induction es as [|e es IH]; intros g1 Ha x1; simpl; [done|].
    destruct (lookup_id live e) as [b|]; [|by apply IH].
    assert (Hl : ∀ x, Graph.contains (Graph.link g1 a b [] (λ deps, deps)) x = Graph.contains g1 x).
    { intros y. rewrite contains_link. destruct (a ==? y) eqn:Hy; [|by rewrite orb_false_r].
      apply heqb_true in Hy. rewrite orb_true_r. symmetry. unfold Graph.contains in *.
      apply hcontains_true in Ha as [v Ha]. apply hcontains_true. exists v. by rewrite <-(hget_key _ _ _ Hy). }
    rewrite IH by (by rewrite Hl). apply Hl. }
  rewrite IH; [apply Hone; apply (Hin a n); constructor|].
  intros a' n' H'. rewrite Hone; [apply (Hin a' n'); by constructor|apply (Hin a n); constructor].
Qed.

Lemma elem_of_node_deps a e :
  e ∈ default [] (encd_dependencies (node a)) ↔ ∃ b, b ∈ deps_not_replaced r a ∧ e = enc b.
Proof.
  unfold node, encodable_resolve_node. destruct (replacement r a) as [b|] eqn:Hr; simpl.
  - destruct (lk_replaced Hlk a b Hr) as (_ & _ & Hn). rewrite Hn. split; [intros H; by apply elem_of_nil in H|].
    intros (x & H & _). by apply elem_of_nil in H.
  - rewrite sort_by_perm, list_elem_of_fmap. split; intros (b & H1 & H2); by exists b.
Qed.

Lemma depends_on_deps x y :
  depends_on (graph r) x y ↔
  ∃ a b, a ∈ Resolve.iter r ∧ to_key a = to_key x ∧ b ∈ deps_not_replaced r a ∧ to_key b = to_key y.
Proof.
  destruct (lk_wf Hlk) as [Hn Ha]. unfold depends_on, Graph.edge, deps_not_replaced, Graph.edges. split.
  - intros [e He]. destruct (hget (nodes (graph r)) x) as [adj|] eqn:Hx; [|done]. simpl in He.
    destruct (hget_elem_of_hkeys _ _ _ Hn Hx) as (a & Hin & Hka). exists a.
    rewrite (hget_key _ _ _ Hka), Hx. destruct (hget_Some_inv _ _ _ Hx) as [k Hk].
    destruct (hget_elem_of_hkeys _ _ _ (Ha _ _ _ Hk) He) as (b & Hb & Hkb). by exists b.
  - intros (a & b & _ & Hka & Hb & Hkb). rewrite (hget_key _ _ _ Hka) in Hb.
    destruct (hget (nodes (graph r)) x) as [adj|] eqn:Hx; [|by apply elem_of_nil in Hb]. simpl.
    destruct (hget_Some_inv _ _ _ Hx) as [k Hk].
    destruct (elem_of_hkeys_get adj b (Ha _ _ _ Hk) Hb) as [v Hv]. exists v. by rewrite <-(hget_key _ _ _ Hkb).
Qed.

Lemma contains_iter x : Resolve.contains r x = true ↔ ∃ a, a ∈ Resolve.iter r ∧ to_key a = to_key x.
Proof.
  destruct (lk_wf Hlk) as [Hn _]. unfold Resolve.contains, Graph.contains, Resolve.iter, Graph.iter.
  rewrite hcontains_true. split.
  - intros [v Hv]. destruct (hget_elem_of_hkeys _ _ _ Hn Hv) as (a & Ha & Hk). by exists a.
  - intros (a & Ha & Hk). apply elem_of_hkeys_get in Ha as [v Hv]; [|done]. exists v. by rewrite <-(hget_key _ _ _ Hk).
Qed.

Lemma build_graph_ok :
  (∀ x, Graph.contains (build_graph live) x = Resolve.contains r x) ∧
  (∀ x y, depends_on (build_graph live) x y ↔ depends_on (graph r) x y).
Proof.
  unfold build_graph.
  assert (Hc : ∀ x, Graph.contains (foldl (λ g (e : PackageId * EncodableDependency), Graph.add g e.1)
    (Graph.new : Graph PackageId (list Dependency)) (hvalues live)) x = Resolve.contains r x).
  { intros x. apply Bool.eq_true_iff_eq. rewrite contains_add_all, contains_iter. split.
    - intros [H|(e & He & Hk)].
      + unfold Graph.contains in H. apply hcontains_true in H as [v H]. unfold Graph.new in H. cbn [nodes] in H.
        rewrite hget_empty in H. discriminate H.
      + apply elem_of_entries in He as (a & Ha & ->). exists a. split; [by apply Hids|done].
    - intros (a & Ha & Hk). right. exists (a, node a). split; [|done]. apply elem_of_entries. exists a.
      split; [by apply Hids|done]. }
  assert (Hno : ∀ x y, ¬ depends_on (foldl (λ g (e : PackageId * EncodableDependency), Graph.add g e.1)
    (Graph.new : Graph PackageId (list Dependency)) (hvalues live)) x y).
  { intros x y [e He]. revert He.
    assert (Hl : ∀ l (g : Graph PackageId (list Dependency)),
      Graph.edge (foldl (λ g (e : PackageId * EncodableDependency), Graph.add g e.1) g l) x y = Graph.edge g x y).
    { induction l as [|z l IH]; intros g; simpl; [done|]. by rewrite IH, edge_add. }
    rewrite Hl. unfold Graph.edge, Graph.new. cbn [nodes]. rewrite hget_empty. done. }
  split.
  - intros x. rewrite contains_link_deps; [apply Hc|]. intros a n Hin. rewrite Hc. apply contains_iter.
    apply elem_of_entries in Hin as (b & Hb & [= -> ->]). exists b. split; [by apply Hids|done].
  - intros x y. rewrite depends_on_fold, depends_on_deps. split.
    + intros [H|(a & n & e & b & Hin & Hka & He & Hb & Hkb)]; [by apply Hno in H|].
      apply elem_of_entries in Hin as (a' & Ha & [= -> ->]). apply elem_of_node_deps in He as (b' & Hb' & ->).
      apply Hids in Ha. exists a', b'. split_and!; [done..|].
      rewrite (lookup_enc (enc b') b') in Hb; [by injection Hb as ->|apply Hids; by eapply (lk_deps Hlk)|done].
    + intros (a & b & Ha & Hka & Hb & Hkb). right. exists a, (node a), (enc b), b. split_and!; [|done| | |done].
      * apply elem_of_entries. exists a. split; [by apply Hids|done].
      * apply elem_of_node_deps. by exists b.
      * apply lookup_enc; [|done]. apply Hids. by eapply (lk_deps Hlk).
Qed.

(** ** Overrides *)
Lemma node_replace a :
  encd_replace (node a) = enc <$> replacement r a ∧
  (is_Some (replacement r a) → encd_dependencies (node a) = None).
Proof. unfold node, encodable_resolve_node. destruct (replacement r a); simpl; [done|]. by split; [|intros []]. Qed.

Lemma replacement_key a b : to_key a = to_key b → replacement r a = replacement r b.
Proof. apply hget_key. Qed.

Lemma replacements_read :
  ∃ m, foldM (add_replacement live) ∅ (hvalues live) = Ok m ∧ ∀ a, hget m a = replacement r a.
Proof.
  destruct (foldM_ok (add_replacement live)
    (λ m l, (∀ x, x ∈ l → ∃ a, a ∈ ids ∧ x = (a, node a)) ∧
            (∀ a, a ∈ ids → (a, node a) ∈ l ∨ hget m a = replacement r a) ∧
            (∀ a b, hget m a = Some b → replacement r a = Some b))
    (hvalues live) ∅) as (m & Hm & _ & Hall & Hsome).
  - intros m [a n] l' (Hl & Hall & Hsome). destruct (Hl (a, n)) as (a' & Ha & [= -> ->]); [constructor|].
    destruct (node_replace a') as [Hrep Hdeps]. unfold add_replacement. rewrite Hrep.
    assert (Hkeep : replacement r a' = None → ∀ x, x ∈ ids → (x, node x) ∈ l' ∨ hget m x = replacement r x).
    { intros Hn x Hx. destruct (Hall x Hx) as [[H|H]%elem_of_cons|H]; [|by left|by right].
      injection H as -> _. right. rewrite Hn. destruct (hget m a') as [b|] eqn:Hb; [|done]. apply Hsome in Hb. congruence. }
    destruct (replacement r a') as [b|] eqn:Hra; simpl.
    2: { exists m. split; [done|]. split_and!; [intros x Hx; apply Hl; by constructor| |done]. by apply Hkeep. }
    rewrite Hdeps by done.
    assert (Hb : b ∈ ids) by (apply Hids; by eapply (lk_replaced Hlk)).
    rewrite (lookup_enc (enc b) b Hb eq_refl). eexists. split; [done|]. split_and!.
    + intros x Hx. apply Hl. by constructor.
    + intros x Hx. rewrite hget_hinsert. case_decide as Hk.
      * right. by rewrite <-(replacement_key _ _ Hk).
      * destruct (Hall x Hx) as [[H|H]%elem_of_cons|H]; [|by left|by right]. by injection H as -> _.
    + intros x y. rewrite hget_hinsert. case_decide as Hk; [|apply Hsome].
      intros [= <-]. by rewrite <-(replacement_key _ _ Hk).
  - split_and!.
    + intros x Hx. by apply elem_of_entries.
    + intros a Ha. left. apply elem_of_entries. by exists a.
    + intros a b H. change (hget (∅ : hashmap PackageId PackageId) a = Some b) in H.
      rewrite hget_empty in H. discriminate H.
  - exists m. split; [done|]. intros a. destruct (replacement r a) as [b|] eqn:Hr.
    + destruct (lk_replaced Hlk a b Hr) as (_ & Hc & _). apply contains_iter in Hc as (a' & Ha' & Hk).
      destruct (Hall a') as [H|H]; [by apply Hids|by apply elem_of_nil in H|].
      rewrite <-(hget_key _ _ _ Hk), H, (replacement_key _ _ Hk). done.
    + destruct (hget m a) as [b|] eqn:Hb; [|done]. apply Hsome in Hb. congruence.
Qed.
End live.

(** * Checksums *)
Definition checksum_of (a : PackageId) : option string := default None (hget (checksums r) a).
Definition key_of (a : PackageId) : string := ("checksum " ++ enc_display (enc a))%string.
Definition val_of (a : PackageId) : string := default "<none>"%string (checksum_of a).

Section checksums.
Context (np : list PackageId) (Hnp : ∀ a, a ∈ np ↔ a ∈ Resolve.iter r ∧ not_path a).

Lemma key_of_inj a b : a ∈ np → b ∈ np → key_of a = key_of b → a = b.
Proof.
  intros [Ha Hpa]%Hnp [Hb Hpb]%Hnp Hk. unfold key_of in Hk.
  assert (Hd : enc_display (enc a) = enc_display (enc b)).
  { rewrite <-(str_drop_app "checksum " (enc_display (enc a))), Hk. by rewrite str_drop_app. }
  destruct (lk_printed Hlk a Ha Hpa) as (e & He & Hka), (lk_printed Hlk b Hb Hpb) as (e' & He' & Hkb).
  rewrite Hd in He. apply (lk_distinct Hlk); [done..|]. rewrite <-Hka, <-Hkb. congruence.
Qed.

Lemma metadata_written :
  ∃ meta, foldM (encode_checksum r) (metadata r) np = Ok meta ∧
    (∀ a, a ∈ np → meta !! key_of a = Some (val_of a)) ∧
    (∀ k, (∀ a, a ∈ np → k ≠ key_of a) → meta !! k = metadata r !! k).
Proof.
  destruct (foldM_ok (encode_checksum r)
    (λ b l, (∀ a, a ∈ np → a ∈ l ∨ b !! key_of a = Some (val_of a)) ∧ (∀ a, a ∈ l → a ∈ np) ∧
            (∀ k, (∀ a, a ∈ np → k ≠ key_of a) → b !! k = metadata r !! k)) np (metadata r))
    as (meta & Hm & H1 & _ & H3).
  - intros b x l (H1 & H2 & H3). assert (Hx : x ∈ np) by (apply H2; constructor).
    destruct (lk_checksum Hlk x) as (c & Hc & _); [by apply Hnp..|]. unfold encode_checksum. rewrite Hc.
    eexists. split; [done|]. fold (key_of x).
    assert (Hv : default "<none>"%string c = val_of x) by (unfold val_of, checksum_of; by rewrite Hc). rewrite Hv.
    split_and!.
    + intros a Ha. destruct (decide (key_of x = key_of a)) as [Hk|Hk].
      * right. apply key_of_inj in Hk as ->; [|done..]. by rewrite lookup_insert_eq.
      * rewrite lookup_insert_ne by done. destruct (H1 a Ha) as [[->|H]%elem_of_cons|H]; [done|by left|by right].
    + intros a Ha. apply H2. by constructor.
    + intros k Hk. rewrite lookup_insert_ne; [by apply H3|]. intros <-. by apply (Hk x).
  - split_and!; auto.
  - exists meta. split_and!; [done| |done]. intros a Ha. destruct (H1 a Ha) as [H|H]; [by apply elem_of_nil in H|done].
Qed.

Section read.
Context (meta : gmap string string).
Context (Hset : ∀ a, a ∈ np → meta !! key_of a = Some (val_of a))
        (Hold : ∀ k, (∀ a, a ∈ np → k ≠ key_of a) → meta !! k = metadata r !! k).
Local Abbreviation entries := (filter (λ kv, is_checksum kv = true) (btree_iter meta)).

Lemma elem_of_checksums kv : kv ∈ entries ↔ ∃ a, a ∈ np ∧ kv = (key_of a, val_of a).
Proof.
  destruct kv as [k v]. rewrite list_elem_of_filter, elem_of_btree_iter. split.
  - intros [Hc Hk]. destruct (decide (Exists (λ a, k = key_of a) np)) as [Hex|Hno].
    + apply Exists_exists in Hex as (a & Ha & ->). exists a. split; [done|]. rewrite (Hset a Ha) in Hk. by injection Hk as ->.
    + rewrite Hold in Hk; [by rewrite (lk_metadata Hlk k v Hk) in Hc|].
      intros a Ha ->. apply Hno, Exists_exists. by exists a.
  - intros (a & Ha & [= -> ->]). split; [apply starts_with_app|by apply Hset].
Qed.

Lemma metadata_read : foldl (λ m k, delete k m) meta entries.*1 = metadata r.
Proof.
  assert (Hdel : ∀ l (m : gmap string string) k,
    foldl (λ m k, delete k m) m l !! k = if decide (k ∈ l) then None else m !! k).
  { induction l as [|x l IH]; intros m k; simpl; [done|]. rewrite IH. destruct (decide (k ∈ l)) as [H|H].
    - rewrite decide_True; [done|]. by constructor.
    - destruct (decide (k = x)) as [->|Hne].
      + rewrite lookup_delete_eq, decide_True; [done|]. constructor.
      + rewrite lookup_delete_ne by done. rewrite decide_False; [done|]. by intros [|]%elem_of_cons. }
  apply map_eq. intros k. rewrite Hdel. case_decide as Hk.
  - apply list_elem_of_fmap in Hk as ([k' v] & -> & (a & Ha & [= -> ->])%elem_of_checksums). simpl.
    destruct (metadata r !! key_of a) as [v|] eqn:Hm; [|done]. apply (lk_metadata Hlk) in Hm.
    unfold is_checksum, key_of in Hm. cbn [fst] in Hm. by rewrite starts_with_app in Hm.
  - apply Hold. intros a Ha ->. apply Hk, list_elem_of_fmap. exists (key_of a, val_of a). split; [done|].
    apply elem_of_checksums. by exists a.
Qed.

Lemma checksums_read live ids :
  live_ok live ids → (∀ a, a ∈ ids ↔ a ∈ Resolve.iter r) →
  ∃ m, foldM (read_checksum live) ∅ entries = Ok m ∧
    (∀ a, a ∈ np → hget m a = hget (checksums r) a) ∧
    (∀ a c, hget m a = Some c → ∃ b, b ∈ np ∧ to_key b = to_key a).
Proof.
  intros Hlive Hids.
  destruct (foldM_ok (read_checksum live)
    (λ m l, (∀ kv, kv ∈ l → ∃ a, a ∈ np ∧ kv = (key_of a, val_of a)) ∧
            (∀ a, a ∈ np → (key_of a, val_of a) ∈ l ∨ hget m a = hget (checksums r) a) ∧
            (∀ a c, hget m a = Some c → ∃ b, b ∈ np ∧ to_key b = to_key a))
    entries ∅) as (m & Hm & _ & H2 & H3).
  - intros m kv l (H1 & H2 & H3). destruct (H1 kv) as (a & Ha & ->); [constructor|].
    pose proof (proj1 (Hnp a) Ha) as [Hi Hp]. destruct (lk_printed Hlk a Hi Hp) as (e & He & Hk).
    destruct (lk_checksum Hlk a Hi Hp) as (c & Hc & Hne).
    unfold read_checksum, key_of. change 9 with (String.length "checksum "). rewrite str_drop_app, He. simpl.
    rewrite (lookup_enc live ids Hlive e a) by (done || by apply Hids).
    assert (Hv : (if String.eqb (val_of a) "<none>" then None else Some (val_of a)) = c).
    { unfold val_of, checksum_of. rewrite Hc. simpl. destruct c as [c|]; simpl; [|done].
      destruct (String.eqb_spec c "<none>"); [by subst|done]. }
    rewrite Hv. eexists. split; [done|]. split_and!.
    + intros kv' H. apply H1. by constructor.
    + intros b Hb. rewrite hget_hinsert. case_decide as Hab.
      * right. by rewrite <-(hget_key _ _ _ Hab), Hc.
      * destruct (H2 b Hb) as [[H|H]%elem_of_cons|H]; [|by left|by right].
        assert (Hkk : key_of a = key_of b) by (symmetry; exact (f_equal fst H)).
        exfalso. apply Hab. by rewrite (key_of_inj a b Ha Hb Hkk).
    + intros b x. rewrite hget_hinsert. case_decide as Hab; [|apply H3]. intros _. by exists a.
  - split_and!.
    + intros kv. apply elem_of_checksums.
    + intros a Ha. left. apply elem_of_checksums. by exists a.
    + intros a c H. change (hget (∅ : hashmap PackageId (option string)) a = Some c) in H.
      rewrite hget_empty in H. discriminate H.
  - exists m. split_and!; [done| |done]. intros a Ha. destruct (H2 a Ha) as [H|H]; [by apply elem_of_nil in H|done].
Qed.
End read.
End checksums.

(** * Unused patches *)
Lemma unused_read : foldM (add_unused path_deps) [] (encode_unused <$> unused_patches r) = Ok (unused_patches r).
Proof.
  assert (Hl : ∀ l acc, (∀ a, a ∈ l → readable a) →
    foldM (add_unused path_deps) acc (encode_unused <$> l) = Ok (acc ++ l)).
  { induction l as [|a l IH]; intros acc Hr; simpl; [by rewrite app_nil_r|].
    destruct (Hr a) as [Hn Hp]; [constructor|].
    assert (Hs : source_of path_deps (encode_unused a) = Some (pid_source_id a)).
    { unfold source_of, encode_unused. simpl. unfold encode_source. destruct (is_path _); simpl; auto. }
    unfold add_unused. rewrite Hs. unfold encode_unused at 1 2. simpl. rewrite Hn. simpl.
    rewrite IH; [by rewrite <-app_assoc|]. intros b Hb. apply Hr. by constructor. }
  apply Hl. intros a Ha. apply (lk_readable Hlk). by right.
Qed.

(** The same packages, edges, overrides, checksums of the packages that have
    one, metadata and unused patches. *)
Record same_resolve (r' : Resolve) : Prop := {
  same_packages : ∀ x, Resolve.contains r' x = Resolve.contains r x;
  same_edges : ∀ x y, depends_on (graph r') x y ↔ depends_on (graph r) x y;
  same_replacements : ∀ x, replacement r' x = replacement r x;
  same_checksums : ∀ a, a ∈ Resolve.iter r → not_path a → hget (checksums r') a = hget (checksums r) a;
  same_metadata : metadata r' = metadata r;
  same_unused : unused_patches r' = unused_patches r;
}.
End lockfile.

Section roundtrip.
Context `{SV : SemverLib} `{UL : UrlLib} `{RS : RustStd}.

(** C6. The lock file loses nothing: a resolve whose packages can be told
    apart and read back is written without error, and what is read back from
    it has the same packages, edges, overrides, checksums, metadata and unused
    patches. *)
Theorem into_resolve_encode path_deps r (Hlk : lockable path_deps r) (Hnd : NoDup (Resolve.iter r)) :
  ∃ e r', encode_resolve r = Ok e ∧ into_resolve path_deps e = Ok r' ∧ same_resolve r r'.
Proof.
  set (ids := sort_by package_id_cmp (Resolve.iter r)).
  set (np := filter (λ id, is_path (pid_source_id id) = false) ids).
  assert (Hids : ∀ a, a ∈ ids ↔ a ∈ Resolve.iter r) by (intros a; unfold ids; by rewrite sort_by_perm).
  assert (Hnp : ∀ a, a ∈ np ↔ a ∈ Resolve.iter r ∧ not_path a).
  { intros a. unfold np. rewrite list_elem_of_filter, Hids. unfold not_path. tauto. }
  destruct (metadata_written path_deps r Hlk np Hnp) as (meta & Hmeta & Hset & Hold).
  destruct (add_live_all path_deps r Hlk ids) as (st & Hst & Hlive).
  { unfold ids. by rewrite sort_by_perm. }
  { intros a. apply Hids. }
  destruct (build_graph_ok path_deps r Hlk st.1 ids Hlive Hids) as [Hc Hd].
  destruct (replacements_read path_deps r Hlk st.1 ids Hlive Hids) as (reps & Hreps & Hrep).
  destruct (checksums_read path_deps r Hlk np Hnp meta Hset Hold st.1 ids Hlive Hids) as (cks & Hcks & Hck & _).
  pose proof (metadata_read path_deps r Hlk np meta Hset Hold) as Hmd.
  unfold encode_resolve. fold ids. fold np. rewrite Hmeta. simpl. eexists _, _. split; [done|].
  assert (Hm : default ∅ (if bool_decide (meta = ∅) then None else Some meta) = meta) by (case_bool_decide as He; [by rewrite He|done]).
  unfold into_resolve. cbn [encr_package encr_root encr_metadata encr_unused]. cbn [default from_option id].
  rewrite Hst. simpl. rewrite Hreps. simpl. rewrite Hm, Hcks. simpl. rewrite (unused_read path_deps r Hlk). simpl.
  split; [done|]. split; simpl; try done. intros a Ha Hp. apply Hck. by apply Hnp.
Qed.
End roundtrip.

(** * A concrete run: two packages, one of them from a git repository *)
Section runs.
Local Existing Instance sem_lib.
Local Existing Instance hier_lib.
Local Existing Instance std_order.
Local Open Scope string_scope.

Definition pkg_a : PackageId := mkPackageId "a" (1, 0, 0) (tagged github_git).
Definition pkg_b : PackageId := mkPackageId "b" (0, 2, 1) PackageId.crates_io.
Definition sample_lock : Resolve :=
  Resolve.new (Graph.link (Graph.add (Graph.add Graph.new pkg_a) pkg_b) pkg_a pkg_b [] id) ∅ ∅
    (hinsert pkg_a None (hinsert pkg_b (Some "c0ffee") ∅)) {[ "key" := "value" ]} [pkg_b].

Lemma sample_iter : Resolve.iter sample_lock = [pkg_a; pkg_b].
Proof. vm_eq. Qed.

Lemma two_elements {A} (x y z : A) : z ∈ [x; y] → z = x ∨ z = y.
Proof. intros [->|[->|Hz]%elem_of_cons]%elem_of_cons; [by left|by right|by apply elem_of_nil in Hz]. Qed.

Lemma sample_lockable : lockable ∅ sample_lock.
Proof.
  assert (Hno : ∀ a, replacement sample_lock a = None).
  { intros a. unfold replacement. change (hget (∅ : hashmap PackageId PackageId) a = None). apply hget_empty. }
  split; rewrite ?sample_iter.
  - apply wf_link, wf_add, wf_add, wf_new.
  - intros a Ha. assert (Hin : a ∈ [pkg_a; pkg_b]).
    { destruct Ha as [Ha|Ha]; [exact Ha|]. apply elem_of_cons. right. exact Ha. }
    destruct (two_elements _ _ _ Hin) as [-> | ->]; (split; [vm_eq|intros H; discriminate H]).
  - intros a b [-> | ->]%two_elements [-> | ->]%two_elements Hk; [reflexivity| | |reflexivity];
      discriminate (f_equal (λ k, k.1.1) Hk).
  - assert (Ha : deps_not_replaced sample_lock pkg_a = [pkg_b]) by vm_eq.
    assert (Hb : deps_not_replaced sample_lock pkg_b = []) by vm_eq.
    intros a b [-> | ->]%two_elements; rewrite ?Ha, ?Hb; intros Hin.
    + apply elem_of_cons. right. exact Hin.
    + destruct (not_elem_of_nil _ Hin).
  - intros a b H. rewrite Hno in H. discriminate H.
  - intros k v H. change (({[ "key" := "value" ]} : gmap string string) !! k = Some v) in H.
    apply lookup_singleton_Some in H as [<- <-]. reflexivity.
  - intros a [-> | ->]%two_elements _; [exists None|exists (Some "c0ffee")]; (split; [vm_eq|discriminate]).
  - assert (Hread : ∀ a, (match enc_from_str (enc_display (encodable_package_id a)) with
                          | Ok e => bool_decide (to_key e = to_key (encodable_package_id a))
                          | _ => false end) = true →
        ∃ e, enc_from_str (enc_display (encodable_package_id a)) = Ok e ∧ to_key e = to_key (encodable_package_id a)).
    { intros a H. destruct (enc_from_str _) as [e|e|m]; [|discriminate H|discriminate H].
      exists e. split; [reflexivity|]. by apply bool_decide_eq_true in H. }
    intros a [-> | ->]%two_elements _; apply Hread; vm_eq.
Qed.

Lemma into_resolve_encode_witness :
  ∃ e r', encode_resolve sample_lock = Ok e ∧ into_resolve ∅ e = Ok r' ∧
    depends_on (graph r') pkg_a pkg_b ∧ hget (checksums r') pkg_b = Some (Some "c0ffee") ∧
    metadata r' = {[ "key" := "value" ]}.
Proof.
  assert (Hnd : NoDup (Resolve.iter sample_lock)).
  { rewrite sample_iter. apply NoDup_cons. split; [|apply NoDup_singleton].
    intros H%list_elem_of_singleton. discriminate (f_equal pid_name H). }
  destruct (into_resolve_encode ∅ sample_lock sample_lockable Hnd) as (e & r' & He & Hr & Hsame).
  exists e, r'. split; [exact He|]. split; [exact Hr|]. split; [|split].
  - apply Hsame. exists []. vm_eq.
  - rewrite (same_checksums _ _ Hsame); [vm_eq| |reflexivity]. rewrite sample_iter. right. constructor.
  - exact (same_metadata _ _ Hsame).
Defined.
End runs.
