(* ===== verification/LockFileOps.v ===== *)
(** Reading and writing [Cargo.lock], [src/cargo/ops/lockfile.rs], with the
    sources of path packages that [build_path_deps] of
    [src/cargo/core/resolver/encode.rs] finds in the workspace. *)
From S2P Require Import Prelude Str BuildScript.
From S2P Require Import Extern Path Utf8 SourceId PackageId Graph ConfigValue Config Dependency Summary ResTypes Resolve Package.
From S2P Require Import Encode LockFile TomlManifest ReadManifest Workspace PreviousLocks.

Local Open Scope string_scope.

(** * Text *)
Definition lf : ascii := ch 10.
Definition cr : ascii := ch 13.
Definition nl : string := String lf "".
(** [str::lines]: the line ends are taken off, with a carriage return before them. *)
Fixpoint strip_cr (s : string) : string :=
  match s with
  | EmptyString => EmptyString
  | String c EmptyString => if Ascii.eqb c cr then EmptyString else s
  | String c s => String c (strip_cr s)
  end.
Fixpoint drop_last_empty (l : list string) : list string :=
  match l with
  | [] => []
  | [x] => if is_empty x then [] else [x]
  | x :: l => x :: drop_last_empty l
  end.
Definition str_lines (s : string) : list string := List.map strip_cr (drop_last_empty (split_char lf s)).
Fixpoint take_while {A} (f : A → bool) (l : list A) : list A :=
  match l with [] => [] | x :: l => if f x then x :: take_while f l else [] end.
(** [s.replace("\r\n", "\n")] *)
Fixpoint replace_crlf (s : string) : string :=
  match s with
  | EmptyString => EmptyString
  | String c s' =>
      match s' with
      | String d _ => if Ascii.eqb c cr && Ascii.eqb d lf then replace_crlf s' else String c (replace_crlf s')
      | EmptyString => s
      end
  end.
Definition has_crlf_line_endings (s : string) : bool :=
  match split_once lf s with (first, Some _) => ends_with_char cr first | (_, None) => false end.

(** * Equality of resolved graphs
    Maps are compared by keys, with the equality of their values. *)
Section equality.
Context `{HK : HashKey K} {V : Type} (veq : V → V → bool).
Definition hm_eqb (m n : hashmap K V) : bool :=
  bool_decide (hdom m = hdom n) &&
  forallb (λ kv, match n !! kv.1 with Some (_, w) => veq kv.2.2 w | None => false end) (map_to_list m).
End equality.
Definition resolve_eqb `{SV : SemverLib} `{UL : UrlLib} (a b : Resolve) : bool :=
  hm_eqb (hm_eqb (λ x y, x ==? y)) (nodes (graph a)) (nodes (graph b)) &&
  hm_eqb (λ x y, x ==? y) (replacements a) (replacements b) &&
  hm_eqb (λ x y, x ==? y) (reverse_replacements a) (reverse_replacements b) &&
  hm_eqb (λ x y, bool_decide (x = y)) (features a) (features b) &&
  hm_eqb (λ x y, bool_decide (x = y)) (checksums a) (checksums b) &&
  bool_decide (metadata a = metadata b) && (unused_patches a ==? unused_patches b).

Section lockfile_ops.
Context `{SV : SemverLib} `{UL : UrlLib} `{RS : RustStd} `{FS : FileSystem} `{TL : TomlLib}.
Context (config : Config) (read_local : path → cresult Package).
(** [serde]'s reading of an [EncodableResolve], and the [toml] crate's display of strings and tables. *)
Context (deserialize_lock : toml → cresult EncodableResolve).
Context (show_string : string → string) (show_table : gmap string string → string).

(** * [build_path_deps] *)
Record PathDeps := mkPathDeps { pd_ws : Workspace; pd_ret : hashmap string SourceId; pd_visited : hashset SourceId }.
Definition note_package (st : PathDeps) (ws : Workspace) (pkg : Package) : PathDeps :=
  mkPathDeps ws (hinsert (pid_name (package_id pkg)) (pid_source_id (package_id pkg)) (pd_ret st))
    (hinsert (pid_source_id (package_id pkg)) tt (pd_visited st)).
Fixpoint build_dep (fuel : nat) (st : PathDeps) (dep : Dependency) : option (cresult PathDeps) :=
  match fuel with
  | O => None
  | S fuel =>
      let id := dep_source_id dep in
      if hcontains (pd_visited st) id || negb (is_path id) then Some (Ok st)
      else match url_to_file_path (sid_url id) with
           | None => Some (Ok st)
           | Some p =>
               match ws_load read_local (pd_ws st) (path_join p "Cargo.toml") with
               | Err _ => Some (Ok st)
               | Panic m => Some (Panic m)
               | Ok (pkg, ws) => fold_fuel (build_dep fuel) (note_package st ws pkg) (sum_dependencies (pkg_summary pkg))
               end
           end
  end.
Definition build_pkg (fuel : nat) (st : PathDeps) (pkg : Package) : option (cresult PathDeps) :=
  fold_fuel (build_dep fuel) st (sum_dependencies (pkg_summary pkg)).
Definition build_path_deps (fuel : nat) (ws : Workspace) : option (cresult PathDeps) :=
  let* members := Some (member_packages ws) in
  let members := List.filter (λ p, is_path (pid_source_id (package_id p))) members in
  let st := foldl (λ st p, note_package st ws p) (mkPathDeps ws ∅ ∅) members in
  let* st := fold_fuel (build_pkg fuel) st members in
  let* patch := Some (root_patch ws) in
  let* st := fold_fuel (fold_fuel (build_dep fuel)) st (hvalues patch) in
  let* replace := Some (root_replace ws) in
  fold_fuel (λ st r, build_dep fuel st r.2) st replace.

(** * [load_pkg_lockfile] *)
Definition chain_fuel {A} (ctx : string) (m : option (cresult A)) : option (cresult A) := chain_err ctx <$> m.
Definition lock_path (ws : Workspace) : cresult path := r ← root ws; Ok (path_join r "Cargo.lock").
Definition read_to_string (contents : cresult string) : cresult string :=
  s ← contents; if valid_utf8 s then Ok s else Err "stream did not contain valid UTF-8".
Definition parse_lock (fuel : nat) (ws : Workspace) (s : string) (file : path)
    : option (cresult (Resolve * Workspace * list string)) :=
  let* (t, printed) := Some (parse_toml s file) in
  let* v := Some (deserialize_lock t) in
  let* deps := build_path_deps fuel ws in
  let* r := Some (into_resolve (pd_ret deps) v) in
  Some (Ok (r, pd_ws deps, printed)).
Definition load_pkg_lockfile (fuel : nat) (ws : Workspace) : option (cresult (option Resolve * Workspace * list string)) :=
  let* file := Some (lock_path ws) in
  if negb (fs_exists file) then Some (Ok (None, ws, []))
  else
    let* contents := Some (chain_err ("failed to open: " ++ file) (fs_open file)) in
    let* s := Some (chain_err ("failed to read file: " ++ file) (read_to_string contents)) in
    let* (r, ws, printed) := chain_fuel ("failed to parse lock file at: " ++ file) (parse_lock fuel ws s file) in
    Some (Ok (Some r, ws, printed)).

(** * [write_pkg_lockfile] *)
Definition emit_package (dep : EncodableDependency) : string :=
  "name = " ++ show_string (encd_name dep) ++ nl ++
  "version = " ++ show_string (encd_version dep) ++ nl ++
  match encd_source dep with Some s => "source = " ++ show_string (to_url s) ++ nl | None => "" end ++
  match encd_dependencies dep with
  | Some deps =>
      match deps with
      | [] => ""
      | _ => "dependencies = [" ++ nl ++ String.concat "" (List.map (λ d, " " ++ show_string (enc_display d) ++ "," ++ nl) deps) ++ "]" ++ nl
      end ++ nl
  | None => match encd_replace dep with
            | Some r => "replace = " ++ show_string (enc_display r) ++ nl ++ nl
            | None => ""
            end
  end.
(** What follows the comments. *)
Definition emit_lock (e : EncodableResolve) : string :=
  String.concat "" (List.map (λ d, "[[package]]" ++ nl ++ emit_package d) (default [] (encr_package e))) ++
  String.concat "" (List.map (λ d, "[[patch.unused]]" ++ nl ++ emit_package d ++ nl) (encr_unused e)) ++
  match encr_metadata e with Some m => "[metadata]" ++ nl ++ show_table m | None => "" end.
Definition comments (orig : string) : list string := take_while (starts_with "#") (str_lines orig).
Definition lock_text (orig : option string) (e : EncodableResolve) : string :=
  match orig with
  | Some orig => String.concat "" (List.map (λ line, line ++ nl) (comments orig))
  | None => ""
  end ++ emit_lock e.

(** [are_equal_lockfiles]; [toml::from_str] reads the text of a lock file. *)
Definition from_str (s : string) : cresult EncodableResolve := t ← toml_from_str s; deserialize_lock t.
Definition same_lock (fuel : nat) (ws : Workspace) (orig current : string) : option (cresult bool) :=
  let* old := Some (from_str orig) in
  let* new := Some (from_str current) in
  let* d1 := build_path_deps fuel ws in
  let* a := Some (into_resolve (pd_ret d1) old) in
  let* d2 := build_path_deps fuel (pd_ws d1) in
  let* b := Some (into_resolve (pd_ret d2) new) in
  Some (Ok (resolve_eqb a b)).
Definition are_equal_lockfiles (fuel : nat) (ws : Workspace) (orig current : string) : option (cresult bool) :=
  let orig := if has_crlf_line_endings orig then replace_crlf orig else orig in
  let textual := String.eqb current orig in
  if negb (lock_update_allowed config) then
    match same_lock fuel ws orig current with
    | None => None
    | Some (Panic m) => Some (Panic m)
    | Some (Ok true) => Some (Ok true)
    | _ => Some (Ok textual)
    end
  else Some (Ok textual).

(** What is written, if anything. *)
Definition needs_update (file : path) : string :=
  "the lock file " ++ file ++ " needs to be updated but " ++
  (if network_allowed config then "--locked" else "--frozen") ++ " was passed to prevent this".
Definition write_allowed (file : path) (out : string) : cresult (option string) :=
  if negb (lock_update_allowed config) then
    if Features.offline (cli_flags config) then Err "can't update in the offline mode" else Err (needs_update file)
  else Ok (Some out).
Definition write_pkg_lockfile (fuel : nat) (ws : Workspace) (r : Resolve) : option (cresult (option string)) :=
  let* file := Some (lock_path ws) in
  let orig := match (contents ← fs_open file; read_to_string contents) with Ok s => Some s | _ => None end in
  let* e := Some (encode_resolve r) in
  let out := lock_text orig e in
  match orig with
  | Some orig =>
      let* same := are_equal_lockfiles fuel ws orig out in
      if (same : bool) then Some (Ok None) else Some (write_allowed file out)
  | None => Some (write_allowed file out)
  end.
End lockfile_ops.

(** * Facts *)
Definition no_line_end (s : string) : Prop := contains_char lf s = false.
Definition no_return (s : string) : Prop := contains_char cr s = false.
Lemma strip_cr_none s : no_return s → strip_cr s = s.
Proof.
  unfold no_return. induction s as [|c s IH]; [done|]. cbn [contains_char strip_cr]. destruct (Ascii.eqb_spec cr c) as [|Hc]; [done|].
  cbn [orb]. intros H. destruct s as [|d s]; [|by rewrite IH]. by rewrite (proj2 (Ascii.eqb_neq c cr)).
Qed.
Lemma ends_with_none s : no_return s → ends_with_char cr s = false.
Proof.
  unfold no_return. induction s as [|c s IH]; [done|]. cbn [contains_char ends_with_char].
  destruct (Ascii.eqb cr c); [done|]. intros H. destruct s; [done|by apply IH].
Qed.
Lemma split_once_first c d s : contains_char d s = false → contains_char d (split_once c s).1 = false.
Proof.
  induction s as [|a s IH]; [done|]. cbn [contains_char split_once]. destruct (Ascii.eqb d a) eqn:Hd; [done|].
  cbn [orb]. intros H. destruct (Ascii.eqb c a); [done|]. destruct (split_once c s) as [x y]. cbn in *. rewrite Hd. by apply IH.
Qed.
Lemma no_crlf s : no_return s → has_crlf_line_endings s = false.
Proof.
  intros H. unfold has_crlf_line_endings. pose proof (split_once_first lf cr s H) as Hf.
  destruct (split_once lf s) as [first [rest|]]; [|done]. by apply ends_with_none.
Qed.

Lemma str_lines_cons l s : no_line_end l → str_lines (l ++ nl ++ s) = strip_cr l :: str_lines s.
Proof.
  intros Hl. unfold str_lines. change (l ++ nl ++ s) with (l ++ String lf s). rewrite split_char_app, split_char_none by done.
  destruct (split_char_cons lf s) as (x & r & ->). done.
Qed.
Lemma lines_no_line_end s l : l ∈ str_lines s → no_line_end l.
Proof.
  assert (Hd : ∀ ls x, x ∈ drop_last_empty ls → x ∈ ls).
  { induction ls as [|y ls IH]; intros x; [done|]. cbn [drop_last_empty]. destruct ls as [|z ls].
    - destruct (is_empty y); [by intros ?%elem_of_nil|done].
    - intros [->|Hx]%elem_of_cons; [constructor|]. constructor. by apply IH. }
  assert (Hs : ∀ x, no_line_end x → no_line_end (strip_cr x)).
  { unfold no_line_end. induction x as [|c x IH]; [done|]. cbn [contains_char strip_cr]. intros H.
    destruct x as [|d x]; [destruct (Ascii.eqb c cr); [done|exact H]|].
    apply orb_false_iff in H as [H1 H2]. cbn [contains_char]. rewrite H1. by apply IH. }
  unfold str_lines. intros (x & <- & Hx)%list_elem_of_In%in_map_iff. apply list_elem_of_In, Hd, split_char_no in Hx. by apply Hs.
Qed.
Lemma take_while_sub {A} (f : A → bool) l x : x ∈ take_while f l → x ∈ l ∧ f x = true.
Proof.
  induction l as [|y l IH]; cbn [take_while]; [by intros ?%elem_of_nil|]. destruct (f y) eqn:Hy; [|by intros ?%elem_of_nil].
  intros [->|Hx]%elem_of_cons; [split; [constructor|done]|]. destruct (IH Hx). split; [by constructor|done].
Qed.
(** The comments of a text that begins with lines of comments. *)
Definition begins_bare (body : string) : Prop := ∀ l, head (str_lines body) = Some l → starts_with "#" l = false.
Lemma comments_text ls body : (∀ l, l ∈ ls → no_line_end l ∧ no_return l ∧ starts_with "#" l = true) → begins_bare body →
  comments (String.concat "" (List.map (λ l, l ++ nl) ls) ++ body) = ls.
Proof.
  unfold comments. induction ls as [|l ls IH]; intros Hls Hb.
  - change (String.concat "" (List.map (λ l, l ++ nl) []) ++ body) with body.
    unfold begins_bare in Hb. destruct (str_lines body) as [|x r]; [done|]. cbn [take_while]. by rewrite (Hb x eq_refl).
  - destruct (Hls l ltac:(constructor)) as (H1 & H2 & H3). cbn [List.map].
    assert (Heq : String.concat "" ((l ++ nl) :: List.map (λ l, l ++ nl) ls) ++ body =
      l ++ nl ++ (String.concat "" (List.map (λ l, l ++ nl) ls) ++ body)).
    { destruct ls as [|y ls]; cbn [List.map String.concat]; [by rewrite app_assoc_str|].
      change ("" ++ ?z) with z. by rewrite !app_assoc_str. }
    rewrite Heq, str_lines_cons, strip_cr_none by done. cbn [take_while]. rewrite H3. f_equal.
    apply IH; [|done]. intros. apply Hls. by constructor.
Qed.

Lemma bracket_bare s : begins_bare (String "[" s).
Proof.
  intros l. unfold str_lines. cbn [split_char]. change (Ascii.eqb lf "[") with false. cbv iota.
  destruct (split_char lf s) as [|x r]; [by intros [= <-]|]. destruct r as [|y r].
  - cbn [drop_last_empty is_empty List.map head]. intros [= <-]. by destruct x.
  - change (drop_last_empty (String "[" x :: y :: r)) with (String "[" x :: drop_last_empty (y :: r)). cbn [List.map head].
    intros [= <-]. by destruct x.
Qed.
Lemma empty_bare : begins_bare "".
Proof. done. Qed.
Lemma concat_cons x l : String.concat "" (x :: l) = x ++ String.concat "" l.
Proof. destruct l; cbn; [|done]. by induction x as [|c x IH]; [|cbn; rewrite <-IH]. Qed.

Section lock_facts.
Context `{SV : SemverLib} `{UL : UrlLib} `{RS : RustStd} `{TL : TomlLib}.
Context (config : Config) (read_local : path → cresult Package).
Context (deserialize_lock : toml → cresult EncodableResolve).
Context (show_string : string → string) (show_table : gmap string string → string).

Lemma emit_bare e : begins_bare (emit_lock show_string show_table e).
Proof.
  unfold emit_lock. destruct (default [] (encr_package e)) as [|d l]; cbn [List.map]; [|rewrite concat_cons, app_assoc_str; apply bracket_bare].
  change (String.concat "" [] ++ ?z) with z. destruct (encr_unused e) as [|d l]; cbn [List.map]; [|rewrite concat_cons, app_assoc_str; apply bracket_bare].
  change (String.concat "" [] ++ ?z) with z. destruct (encr_metadata e); [apply bracket_bare|apply empty_bare].
Qed.
Lemma comments_spec orig l : l ∈ comments orig → no_line_end l ∧ starts_with "#" l = true.
Proof. intros [H1 H2]%take_while_sub. split; [by eapply lines_no_line_end|done]. Qed.
Lemma contains_concat c l : contains_char c (String.concat "" l) = existsb (contains_char c) l.
Proof. induction l as [|x l IH]; [done|]. rewrite concat_cons, contains_char_app, IH. done. Qed.
(** The text that is written keeps its own comments. *)
Lemma lock_text_again orig e : no_return (lock_text show_string show_table orig e) →
  lock_text show_string show_table (Some (lock_text show_string show_table orig e)) e = lock_text show_string show_table orig e.
Proof.
  intros Hr. unfold lock_text at 1. f_equal. unfold lock_text in *. destruct orig as [orig|].
  - rewrite comments_text; [done| |apply emit_bare]. intros l Hl. destruct (comments_spec orig l Hl) as [H1 H2].
    split; [done|]. split; [|done]. unfold no_return in *. rewrite contains_char_app, contains_concat in Hr.
    apply orb_false_iff in Hr as [Hr _]. apply not_true_iff_false. intros Hc. apply not_true_iff_false in Hr. apply Hr.
    apply existsb_exists. exists (l ++ nl). split; [by apply (in_map (λ l, l ++ nl)), list_elem_of_In|].
    by rewrite contains_char_app, Hc.
  - change ("" ++ ?z) with z.
    assert (Hc : comments (emit_lock show_string show_table e) = []).
    { apply (comments_text []); [|apply emit_bare]. by intros l ?%elem_of_nil. }
    by rewrite Hc.
Qed.

(** C30. A lock file that was just written is left alone: with the file as it was
    written at hand, writing the same graph again changes nothing, the comments
    at the top included. *)
Theorem write_pkg_lockfile_stable (before after : FileSystem) fuel ws r out file
    (Hw : write_pkg_lockfile (FS:=before) config read_local deserialize_lock show_string show_table fuel ws r = Some (Ok (Some out)))
    (Hfile : lock_path ws = Ok file)
    (Hread : fs_open (FileSystem:=after) file = Ok (Ok out)) (Hutf8 : valid_utf8 out = true) (Hr : no_return out) :
  write_pkg_lockfile (FS:=after) config read_local deserialize_lock show_string show_table fuel ws r = Some (Ok None).
Proof.
  unfold write_pkg_lockfile in *. rewrite Hfile in *. cbn [fbind] in *. rewrite Hread.
  set (orig := match (contents ← _; _) with Ok s => Some s | _ => None end) in Hw.
  cbn [mbind res_mbind res_bind]. unfold read_to_string. cbn [mbind res_mbind res_bind]. rewrite Hutf8.
  destruct (encode_resolve r) as [e| |]; cbn [fbind] in *; [|done..].
  assert (Hout : lock_update_allowed config = true ∧ out = lock_text show_string show_table orig e).
  { assert (H : write_allowed config file (lock_text show_string show_table orig e) = Ok (Some out)).
    { destruct orig as [orig|]; [|by injection Hw].
      destruct (are_equal_lockfiles _ _ _ _ _ _ _) as [[[]| |]|]; cbn [fbind] in Hw; [done|by injection Hw|done..]. }
    unfold write_allowed in H. destruct (lock_update_allowed config); cbn [negb] in H; [by injection H|].
    by destruct (Features.offline _). }
  destruct Hout as [Hup Hout]. rewrite Hout in Hr |- *. rewrite lock_text_again by done.
  unfold are_equal_lockfiles. rewrite Hup, no_crlf, String.eqb_refl by done. done.
Qed.
End lock_facts.

(** * A concrete run *)
Section runs.
Local Existing Instance sem_lib.
Local Existing Instance hier_lib.
Local Existing Instance std_order.
Local Existing Instance line_toml.
Definition quoted (s : string) : string := quote_str ++ s ++ quote_str.
Definition table_lines (m : gmap string string) : string :=
  String.concat "" (List.map (λ kv, quoted kv.1 ++ " = " ++ quoted kv.2 ++ nl) (map_to_list m)).
Definition old_text : string := "# top" ++ nl ++ "# of the file" ++ nl ++ "[root]" ++ nl.
Definition before : FileSystem := listed_files [("/w/Cargo.lock", old_text)].
Definition write_in (FS : FileSystem) : option (cresult (option string)) :=
  write_pkg_lockfile (FS:=FS) (sample_config ∅) (λ _, Err "") (λ _, Err "") quoted table_lines 5 empty_workspace sample_lock.
Definition written : string := match write_in before with Some (Ok (Some out)) => out | _ => "" end.
Definition after : FileSystem := listed_files [("/w/Cargo.lock", written)].
Lemma write_pkg_lockfile_stable_witness :
  String.prefix ("# top" ++ nl ++ "# of the file" ++ nl ++ "[[package]]" ++ nl ++ "name = ") written = true ∧
  write_in before = Some (Ok (Some written)) ∧ write_in after = Some (Ok None).
Proof.
  split; [vm_eq|]. assert (Hok : match write_in before with Some (Ok (Some _)) => true | _ => false end = true) by vm_eq.
  assert (Hw : write_in before = Some (Ok (Some written))).
  { unfold written. destruct (write_in before) as [[[out|]| |]|]; [reflexivity|discriminate Hok..]. }
  split; [exact Hw|].
  apply (write_pkg_lockfile_stable (sample_config ∅) (λ _, Err "") (λ _, Err "") quoted table_lines before after 5 empty_workspace
    sample_lock written "/w/Cargo.lock" Hw); [reflexivity|reflexivity|vm_eq|unfold no_return; vm_eq].
Defined.
End runs.
