(* ===== verification/Resolver.v ===== *)
(** The dependency resolver, [src/cargo/core/resolver/mod.rs]: activation,
    the iterator over remaining candidates, backtracking, and the loop, as a
    machine with one step for each iteration of the code's inner loop. *)
From S2P Require Import Prelude Str Extern SourceId PackageId Graph Dependency Summary ResTypes ResContext ResErrors Resolve Encode.

Local Open Scope string_scope.

Section resolver.
Context `{SV : SemverLib} `{UL : UrlLib} `{RS : RustStd}.

(** [compatible]: the left-most non-zero digit is the same. *)
Definition compatible (a b : Version) : bool :=
  if negb (version_major a =? version_major b)%N then false
  else if negb (version_major a =? 0)%N then true
  else if negb (version_minor a =? version_minor b)%N then false
  else if negb (version_minor a =? 0)%N then true
  else (version_patch a =? version_patch b)%N.

Definition sum_version (s : Summary) : Version := pid_version (sum_package_id s).

(** * [struct RemainingCandidates] *)
Record RemainingCandidates := mkRemaining {
  remaining : RcVecIter Candidate;
  has_another : option Candidate;
}.
Definition remaining_new (candidates : list Candidate) : RemainingCandidates :=
  mkRemaining (iter_new candidates) None.

(** Why a candidate cannot be activated in a context: the package it conflicts
    with, and the reason. *)
Definition candidate_conflict (cx : Context) (prev : list Summary) (b : Candidate)
    : option (PackageId * ConflictReason) :=
  let semver :=
    match List.find (λ a, compatible (sum_version a) (sum_version (cand_summary b))) prev with
    | Some a => if negb (summary_eq a (cand_summary b)) then Some (sum_package_id a, Semver) else None
    | None => None
    end in
  match sum_links (cand_summary b) with
  | Some link =>
      match links cx !! link with
      | Some a => if negb (a ==? sum_package_id (cand_summary b)) then Some (a, Links link) else semver
      | None => semver
      end
  | None => semver
  end.

(** [RemainingCandidates::next]; each round advances the iterator. *)
Fixpoint next_loop (fuel : nat) (cx : Context) (prev : list Summary) (it : RcVecIter Candidate)
    (another : option Candidate) (con : Conflicts)
    : option (Candidate * bool) * RemainingCandidates * Conflicts :=
  match fuel with
  | O => ((λ r, (r, false)) <$> another, mkRemaining it None, con)
  | S fuel =>
      match iter_next it with
      | (None, it) => ((λ r, (r, false)) <$> another, mkRemaining it None, con)
      | (Some (_, b), it) =>
          match candidate_conflict cx prev b with
          | Some (a, reason) => next_loop fuel cx prev it another (hor_insert a reason con)
          | None =>
              match another with
              | Some r => (Some (r, true), mkRemaining it (Some b), con)
              | None => next_loop fuel cx prev it (Some b) con
              end
          end
      end
  end.
Definition remaining_next (r : RemainingCandidates) (con : Conflicts) (cx : Context) (dep : Dependency)
    : option (Candidate * bool) * RemainingCandidates * Conflicts :=
  next_loop (S (length (iter_rest (remaining r)))) cx (prev_active cx dep) (remaining r) (has_another r) con.

(** * Backtracking *)

(** [struct BacktrackFrame]; the stack is a list whose head is its top. *)
Record BacktrackFrame := mkBacktrack {
  bf_cur : nat;
  bf_context : Context;
  bf_remaining_deps : RemainingDeps;
  bf_remaining_candidates : RemainingCandidates;
  bf_parent : Summary;
  bf_dep : Dependency;
  bf_features : list string;
  bf_conflicting : Conflicts;
}.

(** [find_candidate] *)
Fixpoint find_candidate (stack : list BacktrackFrame) (parent : Summary) (backtracked : bool)
    (con : Conflicts) : option (Candidate * bool * BacktrackFrame) * list BacktrackFrame :=
  match stack with
  | [] => (None, [])
  | frame :: stack =>
      let '(next, rc, fcon) :=
        remaining_next (bf_remaining_candidates frame) (bf_conflicting frame) (bf_context frame) (bf_dep frame) in
      let frame := mkBacktrack (bf_cur frame) (bf_context frame) (bf_remaining_deps frame) rc
                               (bf_parent frame) (bf_dep frame) (bf_features frame) fcon in
      match next with
      | None => find_candidate stack parent backtracked con
      | Some (candidate, another) =>
          if negb backtracked && is_conflicting (bf_context frame) (Some (sum_package_id parent)) con
          then find_candidate stack parent backtracked con
          else (Some (candidate, another, frame), stack)
      end
  end.

Context `{RG : !Registry}.

(** * [activate] *)

(** [CargoResult] within an [ActivateResult]. *)
Definition fatal {A} (m : cresult A) : res ActivateError A := map_err Fatal m.

(** The rest of [activate], once the package to build has been chosen. *)
Definition activate_deps (cx : Context) (q : RegistryQueryer) (parent : option Summary)
    (candidate : Summary) (method : Method)
    : option (res ActivateError (option DepsFrame) * Context * RegistryQueryer) :=
  match build_deps cx q parent candidate method with
  | None => None
  | Some (Ok deps, cx, q) => Some (Ok (Some (mkFrame candidate false (iter_new deps))), cx, q)
  | Some (Err e, cx, q) => Some (Err e, cx, q)
  | Some (Panic m, cx, q) => Some (Panic m, cx, q)
  end.

Definition activate (cx : Context) (q : RegistryQueryer) (parent : option (Summary * Dependency))
    (candidate : Candidate) (method : Method)
    : option (res ActivateError (option DepsFrame) * Context * RegistryQueryer) :=
  let cx := match parent with
            | Some (parent, dep) =>
                push_graph cx (GLink (sum_package_id parent) (sum_package_id (cand_summary candidate)) dep)
            | None => cx
            end in
  match flag_activated cx (cand_summary candidate) method with
  | (Err e, cx) => Some (Err (Fatal e), cx, q)
  | (Panic m, cx) => Some (Panic m, cx, q)
  | (Ok activated, cx) =>
      match cand_replace candidate with
      | Some replace =>
          let cx := push_replacement cx (sum_package_id (cand_summary candidate), sum_package_id replace) in
          match flag_activated cx replace method with
          | (Err e, cx) => Some (Err (Fatal e), cx, q)
          | (Panic m, cx) => Some (Panic m, cx, q)
          | (Ok replace_activated, cx) =>
              if replace_activated && activated then Some (Ok None, cx, q)
              else activate_deps cx q (fst <$> parent) replace method
          end
      | None =>
          if activated then Some (Ok None, cx, q)
          else activate_deps cx q (fst <$> parent) (cand_summary candidate) method
      end
  end.

(** * [activate_deps_loop] *)

(** The variables of the outer loop, and those of the inner loop. *)
Record Outer := mkOuter {
  o_cx : Context;
  o_queryer : RegistryQueryer;
  o_remaining_deps : RemainingDeps;
  o_stack : list BacktrackFrame;
  o_cache : ConflictCache;
}.
Record Inner := mkInner {
  i_outer : Outer;
  i_parent : Summary;
  i_cur : nat;
  i_dep : Dependency;
  i_candidates : list Candidate;
  i_features : list string;
  i_just_here : bool;
  i_remaining : RemainingCandidates;
  i_conflicting : Conflicts;
  i_backtracked : bool;
}.
Inductive State := SOuter (o : Outer) | SInner (i : Inner) | SDone (cx : Context).

(** One round of the outer loop up to the inner one. *)
Definition start_dep (o : Outer) : State :=
  match pop_most_constrained (o_remaining_deps o) with
  | (None, _) => SDone (o_cx o)
  | (Some (just_here, (parent, (cur, (dep, candidates, features)))), remaining_deps) =>
      let just_here := just_here && bool_decide (is_Some (conflicting (o_cache o) (o_cx o) dep)) in
      SInner (mkInner (mkOuter (o_cx o) (o_queryer o) remaining_deps (o_stack o) (o_cache o))
                      parent cur dep candidates features just_here (remaining_new candidates) ∅ false)
  end.

(** The next candidate, from this dependency or from a frame of the stack; the
    error that ends the resolution when there is none. *)
Definition next_candidate (offline : bool) (i : Inner)
    : option (cresult (Candidate * bool * Inner)) :=
  let o := i_outer i in
  let '(next, rc, con) := remaining_next (i_remaining i) (i_conflicting i) (o_cx o) (i_dep i) in
  match next with
  | Some (candidate, another) =>
      Some (Ok (candidate, another,
                mkInner o (i_parent i) (i_cur i) (i_dep i) (i_candidates i) (i_features i) (i_just_here i)
                        rc con (i_backtracked i)))
  | None =>
      let cache := if negb (i_just_here i) && negb (i_backtracked i)
                   then cache_insert (o_cache o) (i_dep i) con else o_cache o in
      match find_candidate (o_stack o) (i_parent i) (i_backtracked i) con with
      | (Some (candidate, another, frame), stack) =>
          Some (Ok (candidate, another,
                mkInner (mkOuter (bf_context frame) (o_queryer o) (bf_remaining_deps frame) stack cache)
                        (bf_parent frame) (bf_cur frame) (bf_dep frame) (i_candidates i) (bf_features frame)
                        (i_just_here i) (bf_remaining_candidates frame) (bf_conflicting frame) true))
      | (None, _) =>
          let* e := activation_error (o_cx o) (i_parent i) (i_dep i) con (i_candidates i) offline in
          Some (Err e)
      end
  end.

(** [conflicting_activations.extend(..)] with another set, the candidate left out. *)
Definition extend_conflicts (con other : Conflicts) (pid : PackageId) : Conflicts :=
  foldl (λ con pr, hinsert pr.1 pr.2 con) con (filter (λ pr, pr.1 ==? pid = false) (hiter other)).

(** The first dependency of the new frame that is known to be unresolvable. *)
Definition past_conflicting_dep (cache : ConflictCache) (cx : Context) (frame : DepsFrame) : option Conflicts :=
  head (omap (λ info : DepInfo, conflicting cache cx info.1.1) (iter_rest (remaining_siblings frame))).

(** The first remaining dependency known to be unresolvable with the candidate
    active, with its parent and the conflict. *)
Definition past_conflicting_remaining (cache : ConflictCache) (cx : Context) (pid : PackageId)
    (remaining_deps : RemainingDeps) : option (PackageId * Conflicts) :=
  known_related_bad_deps ← dependencies_conflicting_with cache pid;
  head (omap (λ pd : PackageId * Dependency,
                con ← find_conflicting cache cx pd.2 (λ con, hcontains con pid); Some (pd.1, con))
             (filter (λ pd, hcontains known_related_bad_deps pd.2 = true) (remaining_iter remaining_deps))).

(** The conflicts after the checks against past conflicts, and whether one of
    them applies. *)
Definition check_past (i : Inner) (cx : Context) (frame : DepsFrame) (pid : PackageId)
    : cresult (bool * Conflicts) :=
  let o := i_outer i in
  let con := i_conflicting i in
  if i_just_here i then Ok (true, con)
  else
    match past_conflicting_dep (o_cache o) cx frame with
    | Some other => Ok (true, extend_conflicts con other pid)
    | None =>
        match past_conflicting_remaining (o_cache o) cx pid (o_remaining_deps o) with
        | None => Ok (false, con)
        | Some (other_parent, conflict) =>
            rel ← unwrap (hget conflict pid);
            Ok (true, hinsert other_parent rel (extend_conflicts con conflict pid))
        end
    end.

(** One round of the inner loop, once its candidate is known. *)
Definition attempt (candidate : Candidate) (another : bool) (i : Inner) : option (cresult State) :=
  if i_just_here i && negb (i_backtracked i) && another then Some (Ok (SInner i))
  else
    let o := i_outer i in
    let backtrack :=
      if another then
        Some (mkBacktrack (i_cur i) (o_cx o) (o_remaining_deps o) (i_remaining i) (i_parent i)
                          (i_dep i) (i_features i) (i_conflicting i))
      else None in
    let pid := sum_package_id (cand_summary candidate) in
    let method := Required false (i_features i) false (default_features (i_dep i)) in
    let succeed cx q remaining_deps stack :=
      Some (Ok (SOuter (mkOuter cx q remaining_deps (from_option (λ b, b :: stack) stack backtrack)
                                (o_cache o)))) in
    let fail cx q con :=
      Some (Ok (SInner (mkInner (mkOuter (from_option bf_context cx backtrack) q (o_remaining_deps o)
                                         (o_stack o) (o_cache o))
                                (i_parent i) (i_cur i) (i_dep i) (i_candidates i) (i_features i)
                                (i_just_here i) (i_remaining i) con (i_backtracked i)))) in
    match activate (o_cx o) (o_queryer o) (Some (i_parent i, i_dep i)) candidate method with
    | None => None
    | Some (Panic m, _, _) => Some (Panic m)
    | Some (Err (Fatal e), _, _) => Some (Err e)
    | Some (Err (Conflict id reason), cx, q) => fail cx q (hinsert id reason (i_conflicting i))
    | Some (Ok None, cx, q) => succeed cx q (o_remaining_deps o) (o_stack o)
    | Some (Ok (Some frame), cx, q) =>
        let* (has_past_conflicting_dep, con) := Some (check_past i cx frame pid) in
        let activate_for_error_message :=
          has_past_conflicting_dep && negb another &&
          (i_just_here i ||
           negb (bool_decide (is_Some (find_candidate (o_stack o) (i_parent i) (i_backtracked i) con).1))) in
        let stack := if activate_for_error_message then [] else o_stack o in
        if negb has_past_conflicting_dep || activate_for_error_message then
          let frame := mkFrame (frame_parent frame) has_past_conflicting_dep (remaining_siblings frame) in
          succeed cx q (push frame (o_remaining_deps o)) stack
        else fail cx q con
    end.
Definition try_candidate (offline : bool) (i : Inner) : option (cresult State) :=
  let* (candidate, another, i) := next_candidate offline i in attempt candidate another i.

(** One step; a final state stays as it is. *)
Definition step (offline : bool) (st : State) : option (cresult State) :=
  match st with
  | SOuter o => Some (Ok (start_dep o))
  | SInner i => try_candidate offline i
  | SDone cx => Some (Ok (SDone cx))
  end.

Fixpoint run (offline : bool) (fuel : nat) (st : State) : option (cresult Context) :=
  match st with
  | SDone cx => Some (Ok cx)
  | _ =>
      match fuel with
      | O => None
      | S fuel => let* st := step offline st in run offline fuel st
      end
  end.

(** The activation of the initial summaries. *)
Fixpoint activate_initial (summaries : list (Summary * Method)) (cx : Context) (q : RegistryQueryer)
    (remaining_deps : RemainingDeps) : option (cresult Outer) :=
  match summaries with
  | [] => Some (Ok (mkOuter cx q remaining_deps [] cache_new))
  | (summary, method) :: summaries =>
      match activate cx q None (mkCandidate summary None) method with
      | None => None
      | Some (Ok (Some frame), cx, q) => activate_initial summaries cx q (push frame remaining_deps)
      | Some (Ok None, cx, q) => activate_initial summaries cx q remaining_deps
      | Some (Err (Fatal e), _, _) => Some (Err e)
      | Some (Err (Conflict _ _), _, _) => Some (Panic "bad error from activate")
      | Some (Panic m, _, _) => Some (Panic m)
      end
  end.

Definition activate_deps_loop (offline : bool) (fuel : nat) (cx : Context) (q : RegistryQueryer)
    (summaries : list (Summary * Method)) : option (cresult Context) :=
  let* o := activate_initial summaries cx q [] in
  run offline fuel (SOuter o).

(** * [check_cycles] *)

(** The activated summaries by package. *)
Definition summaries_of (a : hashmap (string * SourceId) (list Summary)) : hashmap PackageId Summary :=
  foldl (λ m s, hinsert (sum_package_id s) s m) ∅ (concat (hvalues a)).

Definition transitive_dep (summary : Summary) (dep : PackageId) : bool :=
  existsb (λ d, matches_id d dep && is_transitive d) (sum_dependencies summary).

Definition cycle_error (r : Resolve) (id : PackageId) : option (cresult unit) :=
  let* name := Some (PackageId.display id) in
  let* path := describe_path <$> Resolve.path_to_top r id in
  Some (Err ("cyclic package dependency: package `" ++ name ++ "` depends on itself. Cycle:" ++ nl ++ path)).

(** [visit]: [visited] are the packages on the current path, [checked] those
    already examined; both are returned. *)
Fixpoint visit (fuel : nat) (r : Resolve) (summaries : hashmap PackageId Summary) (id : PackageId)
    (visited checked : hashset PackageId)
    : option (cresult (hashset PackageId * hashset PackageId)) :=
  match fuel with
  | O => None
  | S fuel =>
      if hcontains visited id then
        let* _ := cycle_error r id in Some (Ok (visited, checked))
      else
        let visited := hinsert id tt visited in
        let* (visited, checked) :=
          if hcontains checked id then Some (Ok (visited, checked))
          else
            let checked := hinsert id tt checked in
            match hget summaries id with
            | None => Some (Panic "no entry found for key")
            | Some summary =>
                (fix deps (l : list PackageId) (visited checked : hashset PackageId) :=
                   match l with
                   | [] => Some (Ok (visited, checked))
                   | dep :: l =>
                       let is_transitive := transitive_dep summary dep in
                       let* (inner, checked) :=
                         visit fuel r summaries dep (if is_transitive then visited else ∅) checked in
                       let* (inner, checked) :=
                         match replacement r dep with
                         | Some id => visit fuel r summaries id inner checked
                         | None => Some (Ok (inner, checked))
                         end in
                       deps l (if is_transitive then inner else visited) checked
                   end) (deps_not_replaced r id) visited checked
            end in
        Some (Ok (hremove id visited, checked))
  end.

Fixpoint check_all (fuel : nat) (r : Resolve) (summaries : hashmap PackageId Summary)
    (pkgs : list PackageId) (checked : hashset PackageId) : option (cresult unit) :=
  match pkgs with
  | [] => Some (Ok tt)
  | pkg :: pkgs =>
      if hcontains checked pkg then check_all fuel r summaries pkgs checked
      else let* (_, checked) := visit fuel r summaries pkg ∅ checked in
           check_all fuel r summaries pkgs checked
  end.

(** Every call that recurses marks one more package of the summaries. *)
Definition check_cycles (r : Resolve) (a : hashmap (string * SourceId) (list Summary))
    : option (cresult unit) :=
  let summaries := summaries_of a in
  check_all (2 + size summaries) r summaries (sort_unstable_by package_id_cmp (iter r)) ∅.

(** [check_duplicate_pkgs_in_lockfile] *)
Definition check_duplicate (m : hashmap EncodablePackageId PackageId) (pkg_id : PackageId)
    : cresult (hashmap EncodablePackageId PackageId) :=
  let e := encodable_package_id pkg_id in
  match hget m e with
  | Some prev_pkg_id =>
      prev ← PackageId.display prev_pkg_id; this ← PackageId.display pkg_id;
      Err ("package collision in the lockfile: packages " ++ prev ++ " and " ++ this ++
           " are different, but only one can be written to lockfile unambiguously")
  | None => Ok (hinsert e pkg_id m)
  end.
Definition check_duplicate_pkgs_in_lockfile (r : Resolve) : cresult unit :=
  _ ← foldM check_duplicate ∅ (iter r); Ok tt.

(** * [resolve]; the warnings of the context are what is printed. *)
Definition checksums_of (cx : Context) : hashmap PackageId (option string) :=
  foldl (λ m s, hinsert (sum_package_id s) (sum_checksum s) m) ∅ (concat (hvalues (activations cx))).

Definition resolve_of (cx : Context) : Resolve :=
  Resolve.new (graph_of cx) (replacements_of cx) (resolve_features cx) (checksums_of cx) ∅ [].

Definition resolve (offline : bool) (fuel : nat) (summaries : list (Summary * Method))
    (replacements : list (PackageIdSpec * Dependency)) (try_to_use : hashset PackageId)
    (minimal_versions : bool) : option (cresult (Resolve * list string)) :=
  let q := queryer_new replacements try_to_use minimal_versions in
  let* cx := activate_deps_loop offline fuel context_new q summaries in
  let r := resolve_of cx in
  let* _ := check_cycles r (activations cx) in
  let* _ := Some (check_duplicate_pkgs_in_lockfile r) in
  Some (Ok (r, warnings cx)).
End resolver.
