(* ===== verification/ResInvariant.v ===== *)
(** Invariants of the resolution loop: a property of a context and of the
    dependencies that wait, kept by the activation of a valid candidate, holds
    whenever the loop of [Resolver] returns. *)
From S2P Require Import Prelude Str Extern SourceId PackageId Graph Dependency Summary ResTypes ResContext ResErrors Resolve Encode Resolver.

Section invariant.
Context `{SV : SemverLib} `{UL : UrlLib} `{RS : RustStd} `{RG : !Registry}.

(** Dependencies that wait, with the packages that want them. *)
Abbreviation Waiting := (list (Summary * Dependency)).
Definition waiting_of (l : list (Summary * DepInfo)) : Waiting := (λ x, (x.1, x.2.1.1)) <$> l.
Definition frame_waiting (f : option DepsFrame) : Waiting :=
  match f with Some f => waiting_of (frame_pending f) | None => [] end.

(** The invariant, the candidates it is about, and the queryers that only
    produce such candidates. *)
Context (I : Context → Waiting → Prop) (cand_ok : Dependency → Candidate → Prop)
        (Q : RegistryQueryer → Prop).
Context (I_perm : ∀ cx l l', l ≡ₚ l' → I cx l → I cx l').
Context (cand_ok_key : ∀ d d' c, to_key d = to_key d' → cand_ok d c → cand_ok d' c).
Context (Q_frame : ∀ q q' : RegistryQueryer, ResTypes.replacements q' = ResTypes.replacements q → try_to_use q' = try_to_use q →
           minimal_versions q' = minimal_versions q → Q q → Q q').
Context (Q_query : ∀ q d l, Q q → query_candidates q d = Ok l → ∀ c, c ∈ l → cand_ok d c).
Context (I_activate : ∀ cx q parent dep c method rem f cx' q',
           I cx ((parent, dep) :: rem) → Q q → cand_ok dep c →
           candidate_conflict cx (prev_active cx dep) c = None →
           activate cx q (Some (parent, dep)) c method = Some (Ok f, cx', q') →
           I cx' (frame_waiting f ++ rem)).

(** * The queryer *)
Definition q_ok (q : RegistryQueryer) : Prop :=
  Q q ∧ ∀ d l, hget (cache q) d = Some l → ∀ c, c ∈ l → cand_ok d c.
Definition info_ok (info : DepInfo) : Prop := ∀ c, c ∈ info.1.2 → cand_ok info.1.1 c.

Lemma query_ok q d :
  q_ok q → q_ok (ResTypes.query q d).2 ∧
           ∀ l, (ResTypes.query q d).1 = Ok l → ∀ c, c ∈ l → cand_ok d c.
Proof.
  intros [HQ Hc]. unfold ResTypes.query. destruct (hget (cache q) d) as [l|] eqn:Hg; simpl.
  { split; [done|]. intros l' [= <-]. by apply Hc. }
  destruct (query_candidates q d) as [l|e|m] eqn:Hq; simpl; [|done..].
  assert (Hl : ∀ c, c ∈ l → cand_ok d c) by (by apply (Q_query q)).
  split; [|by intros l' [= <-]]. split; [by apply (Q_frame q)|].
  intros d' l'. simpl. rewrite hget_hinsert. case_decide as Hk; [|apply Hc].
  intros [= <-] c Hin. eapply cand_ok_key; [exact Hk|by apply Hl].
Qed.

Lemma query_all_ok q deps acc r q' :
  q_ok q → (∀ info, info ∈ acc → info_ok info) → query_all q deps acc = (r, q') →
  q_ok q' ∧ ∀ l, r = Ok l → ∀ info, info ∈ l → info_ok info.
Proof.
  revert q acc. induction deps as [|[d fs] deps IH]; intros q acc Hq Hacc; simpl.
  { intros [= <- <-]. split; [done|]. by intros l [= <-]. }
  pose proof (query_ok q d Hq) as [Hq1 Hl].
  destruct (ResTypes.query q d) as [[l|e|m] q1]; simpl in *.
  - intros Hr. apply (IH q1 _ Hq1) in Hr; [done|].
    intros info [Hi|Hi%list_elem_of_singleton]%elem_of_app; [by apply Hacc|].
    subst info. intros c. by apply Hl.
  - by intros [= <- <-].
  - by intros [= <- <-].
Qed.

Lemma build_deps_ok cx q parent s method r cx' q' :
  q_ok q → build_deps cx q parent s method = Some (r, cx', q') →
  q_ok q' ∧ ∀ l, r = Ok l → ∀ info, info ∈ l → info_ok info.
Proof.
  intros Hq. unfold build_deps.
  destruct (resolve_features_of cx parent s method) as [[[deps|e|m] cx1]|]; [| | |done].
  2, 3: intros [= <- <- <-]; done.
  destruct (query_all q deps []) as [r1 q1] eqn:Hqa.
  apply query_all_ok in Hqa as [Hq1 Hl]; [|done|intros info Hi; by apply elem_of_nil in Hi].
  destruct r1 as [l|e|m]; intros [= <- <- <-]; [|done..]. split; [done|].
  intros l' [= <-] info. rewrite sort_by_perm. by apply Hl.
Qed.

(** A frame as [activate] makes it. *)
Definition frame_ok (f : DepsFrame) : Prop :=
  iter_wf (remaining_siblings f) ∧ ∀ info, info ∈ iter_rest (remaining_siblings f) → info_ok info.

Lemma activate_deps_ok cx q parent s method r cx' q' :
  q_ok q → activate_deps cx q parent s method = Some (r, cx', q') →
  q_ok q' ∧ ∀ f, r = Ok (Some f) → frame_ok f.
Proof.
  intros Hq. unfold activate_deps.
  destruct (build_deps cx q parent s method) as [[[r1 cx1] q1]|] eqn:Hb; [|done].
  apply build_deps_ok in Hb as [Hq1 Hl]; [|done].
  destruct r1 as [l|e|m]; intros [= <- <- <-]; [|done..]. split; [done|].
  intros f [= <-]. split; simpl; [apply iter_new_wf|]. rewrite iter_new_rest. by apply Hl.
Qed.

Lemma activate_ok cx q parent c method r cx' q' :
  q_ok q → activate cx q parent c method = Some (r, cx', q') →
  q_ok q' ∧ ∀ f, r = Ok (Some f) → frame_ok f.
Proof.
  intros Hq. unfold activate. set (cx0 := match parent with Some _ => _ | None => _ end).
  destruct (flag_activated cx0 (cand_summary c) method) as [[b|e|m] cx1]; [|by intros [= <- <- <-]..].
  destruct (cand_replace c) as [rep|].
  - destruct (flag_activated _ rep method) as [[b'|e|m] cx2]; [|by intros [= <- <- <-]..].
    destruct (b' && b); [by intros [= <- <- <-]|by apply activate_deps_ok].
  - destruct b; [by intros [= <- <- <-]|by apply activate_deps_ok].
Qed.

(** * Candidates *)
Definition exhausted (rc : RemainingCandidates) : Prop :=
  iter_rest (remaining rc) = [] ∧ has_another rc = None.
Definition rc_wf (dep : Dependency) (rc : RemainingCandidates) : Prop :=
  iter_wf (remaining rc) ∧ (∀ c, c ∈ iter_rest (remaining rc) → cand_ok dep c).
(** The stashed candidate was found valid in this context. *)
Definition rc_ok (cx : Context) (dep : Dependency) (rc : RemainingCandidates) : Prop :=
  rc_wf dep rc ∧ ∀ b, has_another rc = Some b →
    cand_ok dep b ∧ candidate_conflict cx (prev_active cx dep) b = None.

Lemma rc_ok_exhausted cx dep rc : rc_wf dep rc → exhausted rc → rc_ok cx dep rc.
Proof. intros Hwf [_ Hn]. split; [done|]. rewrite Hn. done. Qed.

Lemma next_loop_ok fuel cx dep it another con :
  rc_ok cx dep (mkRemaining it another) → (length (iter_rest it) < fuel)%nat →
  match next_loop fuel cx (prev_active cx dep) it another con with
  | (Some (c, more), rc, _) =>
      rc_ok cx dep rc ∧ cand_ok dep c ∧ candidate_conflict cx (prev_active cx dep) c = None ∧
      (more = false → exhausted rc)
  | (None, rc, _) => rc_wf dep rc ∧ exhausted rc ∧ another = None
  end.
Proof.
  revert it another con. induction fuel as [|fuel IH]; intros it another con [[Hwf Hc] Ha] Hlen; [lia|].
  simpl. pose proof (iter_next_spec it Hwf) as Hn.
  destruct (iter_next it) as [[[i b]|] it'].
  2: { destruct Hn as [Hrest ->]. simpl in *. destruct another as [r|]; simpl.
       - destruct (Ha r eq_refl) as [H1 H2]. split_and!; try done.
       - done. }
  destruct Hn as (Hrest & Hwf' & _). simpl in *. rewrite Hrest in Hlen. simpl in Hlen.
  assert (Hb : cand_ok dep b) by (apply Hc; rewrite Hrest; constructor).
  assert (Hc' : ∀ c, c ∈ iter_rest it' → cand_ok dep c)
    by (intros c Hin; apply Hc; rewrite Hrest; by constructor).
  destruct (candidate_conflict cx (prev_active cx dep) b) as [[a reason]|] eqn:Hconf.
  { apply IH; [done|lia]. }
  destruct another as [r|].
  - destruct (Ha r eq_refl) as [H1 H2]. split_and!; try done. split; [by split|]. by intros x [= <-].
  - specialize (IH it' (Some b) con). destruct (next_loop fuel cx _ it' (Some b) con) as [[[[c more]|] rc] con'].
    + apply IH; [|lia]. split; [done|]. by intros x [= <-].
    + destruct IH as (_ & _ & ?); [|lia|done]. split; [done|]. by intros x [= <-].
Qed.

Lemma remaining_next_ok cx dep rc con :
  rc_ok cx dep rc →
  match remaining_next rc con cx dep with
  | (Some (c, more), rc', _) =>
      rc_ok cx dep rc' ∧ cand_ok dep c ∧ candidate_conflict cx (prev_active cx dep) c = None ∧
      (more = false → exhausted rc') ∧ ¬ exhausted rc
  | (None, rc', _) => rc_wf dep rc' ∧ exhausted rc'
  end.
Proof.
  intros Hok. unfold remaining_next.
  pose proof (next_loop_ok (S (length (iter_rest (remaining rc)))) cx dep (remaining rc) (has_another rc) con) as Hl.
  specialize (Hl ltac:(by destruct rc) ltac:(lia)).
  destruct (next_loop _ cx _ _ _ con) as [[[[c more]|] rc'] con'] eqn:Hnl.
  - destruct Hl as (H1 & H2 & H3 & H4). split_and!; try done. intros [He Hn].
    rewrite He, Hn in Hnl. simpl in Hnl. destruct Hok as [[Hwf _] _].
    pose proof (iter_next_spec _ Hwf) as Hin. destruct (iter_next (remaining rc)) as [[[i b]|] it'].
    + destruct Hin as [Hin _]. congruence.
    + done.
  - by destruct Hl as (H1 & H2 & _).
Qed.

(** * States *)
Definition waiting (r : RemainingDeps) : Waiting := waiting_of (pending r).
Definition remaining_ok (r : RemainingDeps) : Prop := ∀ f, f ∈ r → frame_ok f.

Definition bf_ok (b : BacktrackFrame) : Prop :=
  I (bf_context b) ((bf_parent b, bf_dep b) :: waiting (bf_remaining_deps b)) ∧
  remaining_ok (bf_remaining_deps b) ∧ rc_ok (bf_context b) (bf_dep b) (bf_remaining_candidates b).

Definition rest_ok (o : Outer) : Prop :=
  q_ok (o_queryer o) ∧ remaining_ok (o_remaining_deps o) ∧ ∀ b, b ∈ o_stack o → bf_ok b.

Definition outer_ok (o : Outer) : Prop :=
  rest_ok o ∧ I (o_cx o) (waiting (o_remaining_deps o)).

(** The context of the inner loop may be spoilt once no candidate is left. *)
Definition inner_ok (i : Inner) : Prop :=
  rest_ok (i_outer i) ∧ rc_wf (i_dep i) (i_remaining i) ∧
  (exhausted (i_remaining i) ∨
   rc_ok (o_cx (i_outer i)) (i_dep i) (i_remaining i) ∧
   I (o_cx (i_outer i)) ((i_parent i, i_dep i) :: waiting (o_remaining_deps (i_outer i)))).

Definition state_ok (st : State) : Prop :=
  match st with
  | SOuter o => outer_ok o
  | SInner i => inner_ok i
  | SDone cx => I cx []
  end.

Lemma remaining_ok_wf r : remaining_ok r → frames_wf r.
Proof. intros H f Hf. by apply H. Qed.

Lemma remaining_ok_push f r : frame_ok f → remaining_ok r → remaining_ok (push f r).
Proof.
  intros Hf Hr g. unfold push. rewrite heap_push_perm. intros [->|Hg]%elem_of_cons; [done|by apply Hr].
Qed.

Lemma pop_loop_remaining fuel r :
  remaining_ok r →
  match pop_loop fuel r with
  | (Some (_, (_, (_, info))), r') => remaining_ok r' ∧ info_ok info
  | (None, _) => True
  end.
Proof.
  revert r. induction fuel as [|fuel IH]; intros r Hr; simpl; [done|].
  destruct (heap_pop frame_cmp r) as [[f r1]|] eqn:Hpop; [|done].
  apply heap_pop_perm in Hpop as Hperm.
  assert (Hf : frame_ok f) by (apply Hr; rewrite Hperm; constructor).
  assert (Hr1 : remaining_ok r1) by (intros g Hg; apply Hr; rewrite Hperm; by constructor).
  destruct Hf as [Hwf Hinfo]. pose proof (iter_next_spec _ Hwf) as Hn.
  destruct (iter_next (remaining_siblings f)) as [[[i info]|] it]; [|by apply IH].
  destruct Hn as (Hrest & Hit & _). rewrite Hrest in Hinfo. split; [|apply Hinfo; constructor].
  apply remaining_ok_push; [|done]. split; [done|]. simpl. intros x Hx. apply Hinfo. by constructor.
Qed.

Lemma start_dep_ok o : outer_ok o → state_ok (start_dep o).
Proof.
  intros [(Hq & Hr & Hs) HI]. unfold start_dep, pop_most_constrained.
  pose proof (pop_loop_spec (S (length (o_remaining_deps o))) (o_remaining_deps o)
    (remaining_ok_wf _ Hr) ltac:(lia)) as Hp.
  pose proof (pop_loop_remaining (S (length (o_remaining_deps o))) (o_remaining_deps o) Hr) as Hp'.
  destruct (pop_loop _ _) as [[[jh [parent [cur [[dep cands] fs]]]]|] r'].
  - destruct Hp as (_ & Hperm & _). destruct Hp' as [Hr' Hinfo]. simpl.
    assert (Hwf : rc_wf dep (remaining_new cands)).
    { split; simpl; [apply iter_new_wf|]. rewrite iter_new_rest. exact Hinfo. }
    split_and!; [done|exact Hwf|]. right. simpl. split.
    + split; [exact Hwf|done].
    + eapply I_perm; [|exact HI]. unfold waiting, waiting_of. by rewrite Hperm.
  - destruct Hp as [Hp _]. simpl. unfold waiting in HI. by rewrite Hp in HI.
Qed.

Lemma find_candidate_ok stack parent bt con :
  (∀ b, b ∈ stack → bf_ok b) →
  match find_candidate stack parent bt con with
  | (Some (c, more, b), stack') =>
      (∀ b, b ∈ stack' → bf_ok b) ∧ bf_ok b ∧ cand_ok (bf_dep b) c ∧
      candidate_conflict (bf_context b) (prev_active (bf_context b) (bf_dep b)) c = None ∧
      (more = false → exhausted (bf_remaining_candidates b))
  | (None, stack') => stack' = []
  end.
Proof.
  induction stack as [|b stack IH]; intros Hs; simpl; [done|].
  destruct (Hs b ltac:(constructor)) as (HI & Hr & Hrc).
  specialize (IH (λ b' Hb, Hs b' (list_elem_of_further _ _ _ Hb))).
  pose proof (remaining_next_ok _ _ _ (bf_conflicting b) Hrc) as Hn.
  destruct (remaining_next _ _ _ _) as [[[[c more]|] rc] fcon]; [|exact IH].
  destruct Hn as (H1 & H2 & H3 & H4 & _).
  destruct (negb bt && is_conflicting _ _ con); [exact IH|].
  split_and!; try done. intros b' Hb. apply Hs. by constructor.
Qed.

Lemma next_candidate_ok offline i :
  inner_ok i →
  match next_candidate offline i with
  | Some (Ok (c, more, i')) =>
      rest_ok (i_outer i') ∧ rc_ok (o_cx (i_outer i')) (i_dep i') (i_remaining i') ∧
      I (o_cx (i_outer i')) ((i_parent i', i_dep i') :: waiting (o_remaining_deps (i_outer i'))) ∧
      cand_ok (i_dep i') c ∧
      candidate_conflict (o_cx (i_outer i')) (prev_active (o_cx (i_outer i')) (i_dep i')) c = None ∧
      (more = false → exhausted (i_remaining i'))
  | _ => True
  end.
Proof.
  intros (Hrest & Hwf & Hex). unfold next_candidate.
  assert (Hrc : rc_ok (o_cx (i_outer i)) (i_dep i) (i_remaining i)).
  { destruct Hex as [He|[Hrc _]]; [by apply rc_ok_exhausted|done]. }
  pose proof (remaining_next_ok _ _ _ (i_conflicting i) Hrc) as Hn.
  destruct (remaining_next _ _ _ _) as [[[[c more]|] rc] con].
  - destruct Hn as (H1 & H2 & H3 & H4 & Hne). destruct Hex as [He|[_ HI]]; [done|]. simpl.
    split_and!; try done.
  - destruct Hrest as (Hq & Hr & Hs).
    pose proof (find_candidate_ok (o_stack (i_outer i)) (i_parent i) (i_backtracked i) con Hs) as Hf.
    destruct (find_candidate _ _ _ con) as [[[[c more] b]|] stack].
    + destruct Hf as (Hs' & (HI & Hr' & Hrc') & H1 & H2 & H3). simpl. split_and!; try done.
    + by destruct (activation_error _ _ _ _ _ _) as [[]|].
Qed.

Lemma frame_waiting_flag p b b' it :
  frame_waiting (Some (mkFrame p b it)) = frame_waiting (Some (mkFrame p b' it)).
Proof. done. Qed.

Lemma waiting_push f r : waiting (push f r) ≡ₚ frame_waiting (Some f) ++ waiting r.
Proof. unfold waiting, waiting_of. rewrite pending_push, fmap_app. done. Qed.

Lemma try_candidate_ok offline i st :
  inner_ok i → try_candidate offline i = Some (Ok st) → state_ok st.
Proof.
  intros Hi. unfold try_candidate, attempt. pose proof (next_candidate_ok offline i Hi) as Hn.
  destruct (next_candidate offline i) as [[[[c more] i']|e|m]|]; simpl; [|done..].
  destruct Hn as (Hrest & Hrc & HI & Hc & Hconf & Hmore). clear Hi i.
  destruct (_ && _ && more).
  { intros [= <-]. simpl. split_and!; [done|apply Hrc|by right]. }
  set (bt := if more then Some _ else None).
  assert (Hbt : ∀ b, bt = Some b → bf_ok b ∧ bf_context b = o_cx (i_outer i')).
  { unfold bt. destruct more; [|done]. intros b [= <-]. split; [|done].
    split; [exact HI|]. split; [exact (proj1 (proj2 Hrest))|exact Hrc]. }
  assert (Hstack : ∀ st, (∀ b, b ∈ st → bf_ok b) → ∀ b, b ∈ from_option (λ b, b :: st) st bt → bf_ok b).
  { intros st0 Hst0 b. destruct bt as [b0|]; simpl; [|by apply Hst0].
    intros [->|Hb]%elem_of_cons; [by apply Hbt|by apply Hst0]. }
  destruct Hrest as (Hq & Hr & Hs).
  destruct (activate _ _ _ c _) as [[[r cx'] q']|] eqn:Hact; [|done].
  pose proof (activate_ok _ _ _ _ _ _ _ _ Hq Hact) as [Hq' Hf].
  assert (Hfail : ∀ con, state_ok (SInner
    (mkInner (mkOuter (from_option bf_context cx' bt) q' (o_remaining_deps (i_outer i'))
                      (o_stack (i_outer i')) (o_cache (i_outer i')))
             (i_parent i') (i_cur i') (i_dep i') (i_candidates i') (i_features i') (i_just_here i')
             (i_remaining i') con (i_backtracked i')))).
  { intros con. simpl. split_and!; [done|apply Hrc|]. simpl. unfold bt. destruct more; simpl.
    - right. done.
    - left. by apply Hmore. }
  destruct r as [[f|]|[e|id reason]|m]; [| |done| |done].
  - pose proof (I_activate _ _ _ _ _ _ _ _ _ _ HI (proj1 Hq) Hc Hconf Hact) as HI'.
    destruct (check_past _ _ _ _) as [[past con]|e|m]; simpl; [|done..].
    set (afe := past && negb more && _).
    destruct (negb past || afe).
    + intros [= <-]. simpl. split; [split; [exact Hq'|split]|]; simpl.
      * apply remaining_ok_push; [|done]. exact (Hf f eq_refl).
      * apply Hstack. destruct afe; [|done]. intros b Hb. by apply elem_of_nil in Hb.
      * eapply I_perm; [|exact HI']. rewrite waiting_push. by destruct f.
    + intros [= <-]. apply Hfail.
  - pose proof (I_activate _ _ _ _ _ _ _ _ _ _ HI (proj1 Hq) Hc Hconf Hact) as HI'.
    intros [= <-]. simpl. split; [split; [exact Hq'|split; [exact Hr|by apply Hstack]]|exact HI'].
  - intros [= <-]. apply Hfail.
Qed.

Lemma step_ok offline st st' : state_ok st → step offline st = Some (Ok st') → state_ok st'.
Proof.
  destruct st as [o|i|cx]; simpl.
  - intros Ho [= <-]. by apply start_dep_ok.
  - apply try_candidate_ok.
  - by intros H [= <-].
Qed.

Lemma run_ok offline fuel st cx : state_ok st → run offline fuel st = Some (Ok cx) → I cx [].
Proof.
  revert st. induction fuel as [|fuel IH]; intros st Hst; simpl.
  - destruct st; [done|done|]. by intros [= <-].
  - destruct st as [o|i|cx0]; [| |by intros [= <-]].
    + simpl. apply IH. by apply start_dep_ok.
    + simpl. destruct (try_candidate offline i) as [[st'|e|m]|] eqn:Ht; simpl; [|done..].
      apply IH. by eapply try_candidate_ok.
Qed.

(** * The initial activations *)
Context (I0 : list (Summary * Method) → Context → Waiting → Prop).
Context (I0_perm : ∀ l cx w w', w ≡ₚ w' → I0 l cx w → I0 l cx w').
Context (I0_activate : ∀ s m l cx q w f cx' q',
           I0 ((s, m) :: l) cx w → Q q →
           activate cx q None (mkCandidate s None) m = Some (Ok f, cx', q') →
           I0 l cx' (frame_waiting f ++ w)).
Context (I0_done : ∀ cx w, I0 [] cx w → I cx w).

Lemma activate_initial_ok l cx q r o :
  I0 l cx (waiting r) → q_ok q → remaining_ok r →
  activate_initial l cx q r = Some (Ok o) → outer_ok o.
Proof.
  revert cx q r. induction l as [|[s m] l IH]; intros cx q r HI Hq Hr; simpl.
  { intros [= <-]. split; [|by apply I0_done]. split_and!; [done..|].
    intros b Hb. by apply elem_of_nil in Hb. }
  destruct (activate cx q None (mkCandidate s None) m) as [[[res cx'] q']|] eqn:Hact; [|done].
  pose proof (activate_ok _ _ _ _ _ _ _ _ Hq Hact) as [Hq' Hf].
  destruct res as [[f|]|[e|id reason]|msg]; [| |done..].
  - apply IH; [|done|by apply remaining_ok_push; [apply Hf|]].
    eapply I0_perm; [|by eapply I0_activate; [| apply Hq|]]. by rewrite waiting_push.
  - apply IH; [|done..]. by apply (I0_activate _ _ _ _ _ _ _ _ _ HI (proj1 Hq) Hact).
Qed.

(** Whatever [activate_deps_loop] returns satisfies the invariant, with nothing
    left to wait for. *)
Lemma activate_deps_loop_ok offline fuel cx0 q summaries cx :
  I0 summaries cx0 [] → Q q → cache q = ∅ →
  activate_deps_loop offline fuel cx0 q summaries = Some (Ok cx) → I cx [].
Proof.
  intros HI HQ Hcache. unfold activate_deps_loop.
  destruct (activate_initial summaries cx0 q []) as [[o|e|m]|] eqn:Hi; simpl; [|done..].
  apply activate_initial_ok in Hi; [by apply run_ok|done| |].
  - split; [done|]. intros d l. rewrite Hcache. by rewrite hget_empty.
  - intros f Hf. by apply elem_of_nil in Hf.
Qed.
End invariant.
Abbreviation Waiting := (list (Summary * Dependency)).
