(* ===== verification/ResFacts.v ===== *)
(** What one activation of [Resolver] does to the context, and the shape of
    the contexts that activations build. *)
From S2P Require Import Prelude Str Extern SourceId PackageId Graph Dependency Summary ResTypes ResContext Resolver ResInvariant.

Section facts.
Context `{SV : SemverLib} `{UL : UrlLib} `{RS : RustStd} `{RG : !Registry}.

(** The activated packages that share a name and a source. *)
Definition bucket (cx : Context) (id : PackageId) : list Summary :=
  default [] (hget (activations cx) (activation_key id)).
Definition active (cx : Context) (s : Summary) : Prop := s ∈ bucket cx (sum_package_id s).
Definition same_bucket (a b : PackageId) : Prop :=
  to_key (activation_key a) = to_key (activation_key b).
#[global] Instance same_bucket_dec a b : Decision (same_bucket a b) := decide (_ = _).

Lemma bucket_same cx a b : same_bucket a b → bucket cx a = bucket cx b.
Proof. intros H. unfold bucket. by rewrite (hget_key _ _ _ H). Qed.

Lemma summary_eq_true a b : summary_eq a b = true ↔ to_key (sum_package_id a) = to_key (sum_package_id b).
Proof. apply heqb_true. Qed.

Lemma same_id_bucket a b : to_key a = to_key b → same_bucket a b.
Proof.
  intros H. change ((pid_name a, to_key (pid_version a), to_key (pid_source_id a)) =
                    (pid_name b, to_key (pid_version b), to_key (pid_source_id b))) in H.
  change ((pid_name a, to_key (pid_source_id a)) = (pid_name b, to_key (pid_source_id b))). congruence.
Qed.

Lemma prev_active_bucket cx dep id :
  to_key (dep_name dep, dep_source_id dep) = to_key (activation_key id) → prev_active cx dep = bucket cx id.
Proof. intros H. unfold prev_active, bucket. by rewrite (hget_key _ _ _ H). Qed.

Lemma is_active_true cx id :
  is_active cx id = true ↔ ∃ s, s ∈ bucket cx id ∧ to_key (sum_package_id s) = to_key id.
Proof.
  unfold is_active, bucket. destruct (hget _ _) as [v|]; simpl.
  - rewrite existsb_exists. setoid_rewrite list_elem_of_In. by setoid_rewrite heqb_true.
  - split; [done|]. intros (s & Hs & _). by apply elem_of_nil in Hs.
Qed.

(** Activations only grow. *)
Definition grows (cx cx' : Context) : Prop := ∀ id s, s ∈ bucket cx id → s ∈ bucket cx' id.

Lemma is_active_grows cx cx' id : grows cx cx' → is_active cx id = true → is_active cx' id = true.
Proof. intros Hg. rewrite !is_active_true. intros (s & Hs & Hk). exists s. split; [by apply Hg|done]. Qed.

(** * [flag_activated] *)
Definition same_but_activations (cx cx' : Context) : Prop :=
  resolve_replacements cx' = resolve_replacements cx ∧ resolve_features cx' = resolve_features cx ∧
  warnings cx' = warnings cx ∧ (hwf (activations cx) → hwf (activations cx')).

Lemma bucket_or_insert cx k id :
  bucket (set_activations cx (hor_insert k [] (activations cx))) id = bucket cx id.
Proof.
  unfold bucket. simpl. rewrite hget_hor_insert. case_decide as H; [|done].
  rewrite <-(hget_key _ _ _ H). by destruct (hget (activations cx) k).
Qed.

Lemma flag_activated_cases cx s m b cx' :
  flag_activated cx s m = (Ok b, cx') →
  same_but_activations cx cx' ∧
  ((∃ s0, s0 ∈ bucket cx (sum_package_id s) ∧ summary_eq s0 s = true ∧
     (∀ id, bucket cx' id = bucket cx id) ∧ links cx' = links cx ∧ resolve_graph cx' = resolve_graph cx) ∨
   (b = false ∧ (∀ s0, s0 ∈ bucket cx (sum_package_id s) → summary_eq s0 s = false) ∧
     (∀ id, bucket cx' id = if decide (same_bucket (sum_package_id s) id) then bucket cx id ++ [s] else bucket cx id) ∧
     resolve_graph cx' = GAdd (sum_package_id s) :: resolve_graph cx ∧
     match sum_links s with
     | None => links cx' = links cx
     | Some l => links cx !! l = None ∧ links cx' = <[l := sum_package_id s]> (links cx)
     end)).
Proof.
  unfold flag_activated. set (k := activation_key (sum_package_id s)).
  set (cx0 := set_activations cx (hor_insert k [] (activations cx))).
  assert (Hb0 : ∀ id, bucket cx0 id = bucket cx id) by (intros id; apply bucket_or_insert).
  assert (Hprev : default [] (hget (activations cx0) k) = bucket cx (sum_package_id s)) by (apply (Hb0 (sum_package_id s))).
  rewrite Hprev. destruct (existsb _ _) eqn:He; simpl.
  - intros Hf. apply existsb_exists in He as (s0 & Hs0 & Heq). apply list_elem_of_In in Hs0.
    assert (cx' = cx0) as ->.
    { destruct m as [|dd fs [] df]; simpl in Hf; congruence. }
    split; [split_and!; try done; intros; by apply hwf_hor_insert|]. left. exists s0. done.
  - assert (Hne : ∀ s0, s0 ∈ bucket cx (sum_package_id s) → summary_eq s0 s = false).
    { intros s0 Hs0. apply not_true_iff_false. intros Ht. apply not_true_iff_false in He. apply He.
      apply existsb_exists. exists s0. by rewrite <-list_elem_of_In. }
    assert (Hpush : ∀ cx2 id, activations cx2 = activations cx0 →
      bucket (set_activations cx2 (hupdate (λ prev, prev ++ [s])%list k (activations cx2))) id =
      if decide (same_bucket (sum_package_id s) id) then bucket cx id ++ [s] else bucket cx id).
    { intros cx2 id Ha. unfold bucket at 1. simpl. rewrite Ha, hget_hupdate.
      destruct (decide (same_bucket _ _)) as [Hk|Hk].
      - rewrite decide_True by exact Hk. rewrite <-(Hb0 id). unfold bucket.
        rewrite <-(hget_key _ _ _ Hk). fold k. unfold cx0. simpl. rewrite hget_hor_insert, decide_True by done. done.
      - rewrite decide_False by exact Hk. by rewrite <-Hb0. }
    destruct (sum_links s) as [l|] eqn:Hl; [destruct (links cx !! l) eqn:Hlk; [done|]|];
      intros [= <- <-]; (split; [split_and!; try done; intros; by apply hwf_hupdate, hwf_hor_insert|]);
      right; (split_and!; [done|exact Hne|intros id; by apply Hpush|done..]).
Qed.

Lemma flag_activated_grows cx s m b cx' : flag_activated cx s m = (Ok b, cx') → grows cx cx'.
Proof.
  intros [_ [(_ & _ & _ & Hb & _)|(_ & _ & Hb & _)]]%flag_activated_cases id s0; rewrite Hb; [done|].
  case_decide; [|done]. intros. apply elem_of_app. by left.
Qed.

Lemma flag_activated_active cx s m b cx' :
  flag_activated cx s m = (Ok b, cx') → is_active cx' (sum_package_id s) = true.
Proof.
  intros [_ [(s0 & Hs0 & Heq & Hb & _)|(_ & _ & Hb & _)]]%flag_activated_cases; apply is_active_true.
  - exists s0. rewrite Hb. split; [done|by apply summary_eq_true].
  - exists s. rewrite Hb, decide_True by done. split; [|done]. apply elem_of_app. right. by constructor.
Qed.

(** * The dependencies of an activated package *)
Definition same_packages (cx cx' : Context) : Prop :=
  activations cx' = activations cx ∧ links cx' = links cx ∧ resolve_graph cx' = resolve_graph cx ∧
  resolve_replacements cx' = resolve_replacements cx.

Lemma same_packages_bucket cx cx' id : same_packages cx cx' → bucket cx' id = bucket cx id.
Proof. intros (H & _). unfold bucket. by rewrite H. Qed.

Lemma collect_deps_spec s reqs deps ret used cx out used' cx' :
  collect_deps s reqs deps ret used cx = (Ok (out, used'), cx') →
  same_packages cx cx' ∧ (∀ x, x ∈ ret → x ∈ out) ∧
  (∀ x, x ∈ out → x ∈ ret ∨ x.1 ∈ deps) ∧
  (∀ d, d ∈ deps → optional d = false → ∃ fs, (d, fs) ∈ out).
Proof.
  revert ret used cx. induction deps as [|d deps IH]; intros ret used cx; simpl.
  { intros [= <- <- <-]. split_and!; [done..|auto|]. intros d Hd. by apply elem_of_nil in Hd. }
  destruct (optional d && negb _) eqn:Hskip.
  { intros (H1 & H2 & H3 & H4)%IH. split_and!; [done..| |].
    - intros x Hx. destruct (H3 x Hx); [by left|right; by constructor].
    - intros d' [->|Hd']%elem_of_cons Ho; [by rewrite Ho in Hskip|by apply H4]. }
  set (base := default _ _). set (w := if _ && base.1 then _ else Ok cx).
  destruct w as [cx1|e|m] eqn:Hw; [|done..].
  assert (Hsame : same_packages cx cx1).
  { unfold w in Hw. destruct (_ && base.1); [|by injection Hw as <-].
    destruct (PackageId.display _); [|done..]. by injection Hw as <-. }
  destruct (List.find _ _); [done|]. set (fs := base.2 ++ dep_features d).
  intros (H1 & H2 & H3 & H4)%IH. split_and!.
  - destruct H1 as (Ha & Hb & Hc & Hd), Hsame as (Ha' & Hb' & Hc' & Hd'). repeat split; congruence.
  - intros x Hx. apply H2, elem_of_app. by left.
  - intros x Hx. destruct (H3 x Hx) as [[Hr|Hr%list_elem_of_singleton]%elem_of_app|Hr]; [by left| |right; by constructor].
    subst x. right. constructor.
  - intros d' [->|Hd']%elem_of_cons Ho; [|by apply H4]. exists fs. apply H2, elem_of_app. right. by constructor.
Qed.

Lemma resolve_features_of_spec cx parent s m out cx' :
  resolve_features_of cx parent s m = Some (Ok out, cx') →
  same_packages cx cx' ∧ (∀ x, x ∈ out → x.1 ∈ sum_dependencies s) ∧
  (∀ d, d ∈ sum_dependencies s → is_transitive d = true → optional d = false → ∃ fs, (d, fs) ∈ out).
Proof.
  unfold resolve_features_of. destruct (build_requirements s m) as [[reqs|e|msg]|]; [|done..].
  destruct (collect_deps _ _ _ _ _ _) as [[[ret used]|e|msg] cx1] eqn:Hc; [|done..].
  apply collect_deps_spec in Hc as (Hs & _ & Hin & Hall).
  assert (Hgoal : ∀ cx', same_packages cx1 cx' →
    same_packages cx cx' ∧ (∀ x, x ∈ ret → x.1 ∈ sum_dependencies s) ∧
    (∀ d, d ∈ sum_dependencies s → is_transitive d = true → optional d = false → ∃ fs, (d, fs) ∈ ret)).
  { intros cx2 (Ha & Hb & Hc & Hd). destruct Hs as (Ha' & Hb' & Hc' & Hd'). split_and!.
    - repeat split; congruence.
    - intros x [Hx|[_ Hx]%list_elem_of_filter]%Hin; [by apply elem_of_nil in Hx|done].
    - intros d Hd1 Ht Ho. apply Hall; [|done]. apply list_elem_of_filter. by rewrite Ht. }
  destruct (missing reqs used).
  - destruct (bool_decide _); intros [= <- <-]; by apply Hgoal.
  - destruct parent; [done|]. by destruct (PackageId.display _).
Qed.

Lemma query_all_deps q deps acc l q' :
  query_all q deps acc = (Ok l, q') →
  (λ i : DepInfo, (i.1.1, i.2)) <$> l = ((λ i : DepInfo, (i.1.1, i.2)) <$> acc) ++ deps.
Proof.
  revert q acc. induction deps as [|[d fs] deps IH]; intros q acc; simpl.
  { intros [= <- <-]. by rewrite app_nil_r. }
  destruct (ResTypes.query q d) as [[c|e|m] q1]; [|done..].
  intros ->%IH. by rewrite fmap_app, <-app_assoc.
Qed.

Lemma build_deps_spec cx q parent s m l cx' q' :
  build_deps cx q parent s m = Some (Ok l, cx', q') →
  same_packages cx cx' ∧ (∀ i, i ∈ l → i.1.1 ∈ sum_dependencies s) ∧
  (∀ d, d ∈ sum_dependencies s → is_transitive d = true → optional d = false → ∃ i, i ∈ l ∧ i.1.1 = d).
Proof.
  unfold build_deps. destruct (resolve_features_of cx parent s m) as [[[deps|e|msg] cx1]|] eqn:Hr; [|done..].
  apply resolve_features_of_spec in Hr as (Hs & Hin & Hall).
  destruct (query_all q deps []) as [[l0|e|msg] q1] eqn:Hq; [|done..]. intros [= <- <- <-].
  apply query_all_deps in Hq. simpl in Hq. split_and!; [done| |].
  - intros i. rewrite sort_by_perm. intros Hi. apply (Hin (i.1.1, i.2)). rewrite <-Hq.
    apply list_elem_of_fmap. by exists i.
  - intros d Hd Ht Ho. destruct (Hall d Hd Ht Ho) as [fs Hfs]. rewrite <-Hq in Hfs.
    apply list_elem_of_fmap in Hfs as (i & [= -> ->] & Hi). exists i. by rewrite sort_by_perm.
Qed.

(** * [activate] *)
Definition linked (cx : Context) (parent : option (Summary * Dependency)) (c : Candidate) : Context :=
  match parent with
  | Some (p, d) => push_graph cx (GLink (sum_package_id p) (sum_package_id (cand_summary c)) d)
  | None => cx
  end.
(** The package that is built for a candidate. *)
Definition target (c : Candidate) : Summary := default (cand_summary c) (cand_replace c).

(** The frame holds the dependencies of the package. *)
Definition frame_of (s : Summary) (f : DepsFrame) : Prop :=
  (∀ p d, (p, d) ∈ frame_waiting (Some f) → p = s ∧ d ∈ sum_dependencies s) ∧
  (∀ d, d ∈ sum_dependencies s → is_transitive d = true → optional d = false →
        (s, d) ∈ frame_waiting (Some f)).

Lemma activate_deps_cases cx q parent s m f cx' q' :
  activate_deps cx q parent s m = Some (Ok f, cx', q') →
  same_packages cx cx' ∧ ∃ fr, f = Some fr ∧ frame_of s fr.
Proof.
  unfold activate_deps. destruct (build_deps cx q parent s m) as [[[[l|e|msg] cx1] q1]|] eqn:Hb; [|done..].
  apply build_deps_spec in Hb as (Hs & Hin & Hall). intros [= <- <- <-]. split; [done|].
  eexists. split; [done|].
  assert (Hw : frame_waiting (Some (mkFrame s false (iter_new l))) = (λ i : DepInfo, (s, i.1.1)) <$> l).
  { simpl. unfold waiting_of, frame_pending. simpl. rewrite iter_new_rest, <-list_fmap_compose. done. }
  split; rewrite Hw.
  - intros p d (i & [= -> ->] & Hi)%list_elem_of_fmap. split; [done|by apply Hin].
  - intros d Hd Ht Ho. destruct (Hall d Hd Ht Ho) as (i & Hi & <-). apply list_elem_of_fmap. by exists i.
Qed.

Lemma activate_cases cx q parent c m f cx' q' :
  activate cx q parent c m = Some (Ok f, cx', q') →
  ∃ b cx1, flag_activated (linked cx parent c) (cand_summary c) m = (Ok b, cx1) ∧
  ∃ b2 cx2,
    match cand_replace c with
    | None => b2 = b ∧ cx2 = cx1
    | Some r => ∃ b1, flag_activated (push_replacement cx1 (sum_package_id (cand_summary c), sum_package_id r)) r m =
                  (Ok b1, cx2) ∧ b2 = b1 && b
    end ∧
    if b2 then f = None ∧ cx' = cx2
    else same_packages cx2 cx' ∧ ∃ fr, f = Some fr ∧ frame_of (target c) fr.
Proof.
  unfold activate, target. fold (linked cx parent c).
  destruct (flag_activated _ (cand_summary c) m) as [[b|e|msg] cx1] eqn:H1; [|done..].
  destruct (cand_replace c) as [r|]; simpl.
  - destruct (flag_activated _ r m) as [[b1|e|msg] cx2] eqn:H2; [|done..].
    intros H. exists b, cx1. split; [done|]. exists (b1 && b), cx2. split; [by exists b1|].
    destruct (b1 && b); [by injection H as <- <- <-|by apply activate_deps_cases in H].
  - intros H. exists b, cx1. split; [done|]. exists b, cx1. split; [done|].
    destruct b; [by injection H as <- <- <-|by apply activate_deps_cases in H].
Qed.
End facts.
