(* ===== verification/ResCorrect.v ===== *)
(** What the resolver's answer promises: no two packages link the same library,
    semver-compatible versions of a package are unified, every dependency has
    its edge, and nothing is built that nothing asked for. *)
From S2P Require Import Prelude Str Extern SourceId PackageId Graph Dependency Summary ResTypes ResContext ResErrors Resolve Encode Resolver ResInvariant ResFacts.

Section effect.
Context `{SV : SemverLib} `{UL : UrlLib} `{RS : RustStd} `{RG : !Registry}.

(** A property of the activated packages and of [links] that
    [flag_activated] keeps. *)
Lemma activate_packages (J : Context → Prop) cx q parent c m f cx' q' :
  (∀ cx cx', activations cx' = activations cx → links cx' = links cx → J cx → J cx') →
  (∀ cx s m b cx', flag_activated cx s m = (Ok b, cx') → J cx → J cx') →
  activate cx q parent c m = Some (Ok f, cx', q') → J cx → J cx'.
Proof.
  intros J_same J_flag Hact HJ. apply activate_cases in Hact as (b & cx1 & H1 & b2 & cx2 & H2 & H3).
  assert (HJ1 : J cx1).
  { eapply J_flag; [exact H1|]. eapply J_same; [| |exact HJ]; by destruct parent as [[]|]. }
  assert (HJ2 : J cx2).
  { destruct (cand_replace c) as [r|].
    - destruct H2 as (b1 & H2 & _). eapply J_flag; [exact H2|]. by eapply J_same; [| |exact HJ1].
    - by destruct H2 as [_ ->]. }
  destruct b2; [by destruct H3 as [_ ->]|]. destruct H3 as [(Ha & Hl & _) _]. by eapply J_same.
Qed.

(** * What one activation changes *)

(** The graph grows by some edges and by nodes for activated packages. *)
Definition graph_grows (links : GraphNode → Prop) (cx cx' : Context) : Prop :=
  (∀ n, n ∈ resolve_graph cx ∨ links n → n ∈ resolve_graph cx') ∧
  (∀ n, n ∈ resolve_graph cx' →
     n ∈ resolve_graph cx ∨ links n ∨ ∃ s, n = GAdd (sum_package_id s) ∧ active cx' s) ∧
  (∀ s, active cx' s → active cx s ∨ GAdd (sum_package_id s) ∈ resolve_graph cx').

Lemma ctx_grows_refl cx : grows cx cx.
Proof. by intros id. Qed.
Lemma ctx_grows_trans cx cx1 cx2 : grows cx cx1 → grows cx1 cx2 → grows cx cx2.
Proof. unfold grows. auto. Qed.
Lemma grows_active cx cx' s : grows cx cx' → active cx s → active cx' s.
Proof. intros Hg. apply Hg. Qed.

Lemma graph_grows_trans l cx cx1 cx2 :
  grows cx1 cx2 → graph_grows l cx cx1 → graph_grows (λ _, False) cx1 cx2 → graph_grows l cx cx2.
Proof.
  intros Hg (A1 & B1 & C1) (A2 & B2 & C2). split_and!.
  - intros n Hn. apply A2. left. by apply A1.
  - intros n [Hn|[[]|Hn]]%B2; [|by right; right]. destruct (B1 n Hn) as [|[|(s & -> & Hs)]]; [by left|by right; left|].
    right; right. exists s. split; [done|by eapply grows_active].
  - intros s [Hs|Hs]%C2; [|by right]. destruct (C1 s Hs); [by left|right]. apply A2. by left.
Qed.

Lemma flag_effect cx s m b cx' :
  flag_activated cx s m = (Ok b, cx') →
  grows cx cx' ∧ (∀ s', active cx' s' → active cx s' ∨ s' = s ∧ b = false) ∧
  is_active cx' (sum_package_id s) = true ∧ graph_grows (λ _, False) cx cx' ∧
  resolve_replacements cx' = resolve_replacements cx.
Proof.
  intros Hf. pose proof (flag_activated_grows _ _ _ _ _ Hf) as Hg.
  pose proof (flag_activated_active _ _ _ _ _ Hf) as Ha.
  apply flag_activated_cases in Hf as [(Hr & _) [(s0 & _ & _ & Hb & _ & Hgr)|(Hbf & Hne & Hb & Hgr & _)]].
  - assert (Hact : ∀ s', active cx' s' → active cx s') by (intros s'; unfold active; by rewrite Hb).
    split_and!; [done|by left; apply Hact|done| |done]. unfold graph_grows. rewrite Hgr. split_and!.
    + by intros n [|[]].
    + by left.
    + intros s' Hs'. left. by apply Hact.
  - assert (Hnew : ∀ s', active cx' s' → active cx s' ∨ s' = s).
    { intros s'. unfold active. rewrite Hb. case_decide; [|by left].
      intros [?|?%list_elem_of_singleton]%elem_of_app; auto. }
    assert (Hs : active cx' s).
    { unfold active. rewrite Hb, decide_True by done. apply elem_of_app. right. by constructor. }
    split_and!; [done| |done| |done].
    + intros s' Hs'. destruct (Hnew s' Hs'); [by left|by right].
    + unfold graph_grows. rewrite Hgr. split_and!.
      * intros n [Hn|[]]. by right.
      * intros n [->|Hn]%elem_of_cons; [|by left]. right; right. by exists s.
      * intros s' Hs'. destruct (Hnew s' Hs') as [| ->]; [by left|right]. constructor.
Qed.

Lemma same_packages_active cx cx' s : same_packages cx cx' → active cx' s ↔ active cx s.
Proof. intros H. unfold active. by rewrite (same_packages_bucket _ _ _ H). Qed.

(** The summaries that activating a candidate may add, the edge it adds, and
    the replacement it notes. *)
Definition cand_sums (c : Candidate) : list Summary :=
  cand_summary c :: from_option (λ r, [r]) [] (cand_replace c).
Definition parent_link (parent : option (Summary * Dependency)) (c : Candidate) (n : GraphNode) : Prop :=
  ∃ p d, parent = Some (p, d) ∧ n = GLink (sum_package_id p) (sum_package_id (cand_summary c)) d.
Definition cand_replacements (c : Candidate) : list (PackageId * PackageId) :=
  from_option (λ r, [(sum_package_id (cand_summary c), sum_package_id r)]) [] (cand_replace c).

Record effect (cx cx' : Context) (parent : option (Summary * Dependency)) (c : Candidate)
    (f : option DepsFrame) : Prop := {
  eff_grows : grows cx cx';
  eff_new : ∀ s, active cx' s → active cx s ∨ s ∈ cand_sums c;
  eff_active : ∀ s, s ∈ cand_sums c → is_active cx' (sum_package_id s) = true;
  eff_graph : graph_grows (parent_link parent c) cx cx';
  eff_replacements : resolve_replacements cx' = cand_replacements c ++ resolve_replacements cx;
  eff_frame : match f with
              | None => ∀ s, active cx' s → active cx s
              | Some fr => frame_of (target c) fr
              end;
}.

Lemma linked_effect cx parent c :
  graph_grows (parent_link parent c) cx (linked cx parent c).
Proof.
  unfold graph_grows, parent_link. destruct parent as [[p d]|]; simpl; split_and!.
  - intros n [Hn|(p' & d' & [= <- <-] & ->)]; [by right|constructor].
  - intros n [->|Hn]%elem_of_cons; [right; left; by exists p, d|by left].
  - intros s Hs. by left.
  - by intros n [|(? & ? & ? & _)].
  - by left.
  - by left.
Qed.

Lemma activate_effect cx q parent c m f cx' q' :
  activate cx q parent c m = Some (Ok f, cx', q') → effect cx cx' parent c f.
Proof.
  intros Hact. apply activate_cases in Hact as (b & cx1 & H1 & b2 & cx2 & H2 & H3).
  pose proof (linked_effect cx parent c) as Hl. set (cx0 := linked cx parent c) in *.
  assert (Hb0 : ∀ id, bucket cx0 id = bucket cx id) by (by destruct parent as [[]|]).
  assert (Hr0 : resolve_replacements cx0 = resolve_replacements cx) by (by destruct parent as [[]|]).
  apply flag_effect in H1 as (G1 & N1 & A1 & E1 & R1). rewrite Hr0 in R1.
  assert (Hmid : grows cx1 cx2 ∧
    (∀ s, active cx2 s → active cx1 s ∨ (s ∈ cand_sums c ∧ b2 = false)) ∧
    (∀ s, s ∈ cand_sums c → is_active cx2 (sum_package_id s) = true) ∧
    graph_grows (λ _, False) cx1 cx2 ∧
    resolve_replacements cx2 = cand_replacements c ++ resolve_replacements cx ∧ (b2 = true → b = true)).
  { unfold cand_sums, cand_replacements. destruct (cand_replace c) as [r|]; simpl.
    - destruct H2 as (b1 & H2 & ->). apply flag_effect in H2 as (G2 & N2 & A2 & E2 & R2).
      split_and!; [done| | |done| |by intros []%andb_prop].
      + intros s Hs. destruct (N2 s Hs) as [|[-> ->]]; [by left|right]. split; [|done]. right. constructor.
      + intros s [->|[->|Hs]%elem_of_cons]%elem_of_cons; [|done|by apply elem_of_nil in Hs].
        by eapply is_active_grows.
      + rewrite R2. simpl. by rewrite R1.
    - destruct H2 as [-> ->]. split_and!; [apply ctx_grows_refl|by intros s; left| | |done|done].
      + by intros s ->%list_elem_of_singleton.
      + split_and!; [by intros n [|[]]|by left|by left]. }
  destruct Hmid as (G2 & N2 & A2 & E2 & R2 & Hb).
  assert (Hsame : same_packages cx2 cx').
  { destruct b2; [by destruct H3 as [_ ->]|by destruct H3]. }
  assert (Ha : ∀ s, active cx' s ↔ active cx2 s) by (intros s; by apply same_packages_active).
  assert (Hall : ∀ s, active cx' s → active cx s ∨ (s ∈ cand_sums c ∧ b2 = false)).
  { intros s Hs%Ha. destruct (N2 s Hs) as [Hs1|[Hs1 Hf]]; [|by right].
    destruct (N1 s Hs1) as [Hs0|[-> Hf]]; [left; unfold active in *; by rewrite Hb0 in Hs0|].
    right. split; [constructor|]. destruct b2; [by rewrite Hb in Hf|done]. }
  assert (G3 : grows cx2 cx') by (intros id s; by rewrite (same_packages_bucket _ _ _ Hsame)).
  assert (E3 : graph_grows (λ _, False) cx2 cx').
  { destruct Hsame as (_ & _ & Hgr & _). unfold graph_grows. rewrite Hgr.
    split_and!; [by intros n [|[]]|by left|intros s Hs; left; by apply Ha]. }
  split.
  - intros id s Hs. apply G3, G2, G1. by rewrite Hb0.
  - intros s Hs%Hall. tauto.
  - intros s Hs%A2. by eapply is_active_grows.
  - eapply graph_grows_trans; [exact G3| |exact E3]. eapply graph_grows_trans; [exact G2| |exact E2].
    by eapply graph_grows_trans; [exact G1| |exact E1].
  - destruct Hsame as (_ & _ & _ & Hr). by rewrite Hr.
  - destruct b2; [|by destruct H3 as (_ & fr & -> & Hfr)]. destruct H3 as [-> _].
    intros s Hs%Hall. by destruct Hs as [|[]].
Qed.
End effect.

(** * The answer of [resolve] *)
Section answer.
Context `{SV : SemverLib} `{UL : UrlLib} `{RS : RustStd} `{RG : !Registry}.

(** The context the loop ends with, whose [resolve_of] is the answer. *)
Definition answer (offline : bool) (fuel : nat) (summaries : list (Summary * Method))
    (replacements : list (PackageIdSpec * Dependency)) (try_to_use : hashset PackageId)
    (minimal_versions : bool) (cx : Context) : Prop :=
  activate_deps_loop offline fuel context_new (queryer_new replacements try_to_use minimal_versions)
    summaries = Some (Ok cx).

Lemma resolve_answer offline fuel summaries repls try_to_use minimal r ws :
  resolve offline fuel summaries repls try_to_use minimal = Some (Ok (r, ws)) →
  ∃ cx, answer offline fuel summaries repls try_to_use minimal cx ∧ r = resolve_of cx ∧ ws = warnings cx ∧
        check_cycles r (activations cx) = Some (Ok tt) ∧ is_ok (check_duplicate_pkgs_in_lockfile r) = true.
Proof.
  unfold resolve, answer. destruct (activate_deps_loop _ _ _ _ _) as [[cx|e|m]|]; simpl; [|done..].
  destruct (check_cycles _ _) as [[[]|e|m]|] eqn:Hc; simpl; [|done..].
  destruct (check_duplicate_pkgs_in_lockfile _) as [u|e|m] eqn:Hd; simpl; [|done..].
  intros [= <- <-]. exists cx. by rewrite Hd.
Qed.

(** ** [links] *)

(** Packages are filed under their name and source, once each, and [links]
    holds every active package that links a library. *)
Record links_ok (cx : Context) : Prop := {
  lo_hwf : hwf (activations cx);
  lo_bucket : ∀ id s, s ∈ bucket cx id → same_bucket (sum_package_id s) id;
  lo_nodup : ∀ id, NoDup ((λ s, to_key (sum_package_id s)) <$> bucket cx id);
  lo_links : ∀ id s l, s ∈ bucket cx id → sum_links s = Some l → links cx !! l = Some (sum_package_id s);
}.

Lemma links_ok_new : links_ok context_new.
Proof.
  assert (Hb : ∀ id, bucket context_new id = []) by (intros id; unfold bucket, context_new; cbn [activations]; by rewrite hget_empty).
  split; [apply hwf_empty|intros id; rewrite Hb..].
  - intros s Hs. by apply elem_of_nil in Hs.
  - constructor.
  - intros s l Hs. by apply elem_of_nil in Hs.
Qed.

Lemma links_ok_same cx cx' :
  activations cx' = activations cx → links cx' = links cx → links_ok cx → links_ok cx'.
Proof.
  intros Ha Hl [H1 H2 H3 H4]. assert (Hb : ∀ id, bucket cx' id = bucket cx id) by (intros id; unfold bucket; by rewrite Ha).
  split; [by rewrite Ha|intros id; rewrite Hb; auto..]. rewrite Hl. apply H4.
Qed.

Lemma links_ok_flag cx s m b cx' : flag_activated cx s m = (Ok b, cx') → links_ok cx → links_ok cx'.
Proof.
  intros [(_ & _ & _ & Hwf) Hc]%flag_activated_cases [H1 H2 H3 H4].
  destruct Hc as [(s0 & _ & _ & Hb & Hl & _)|(_ & Hne & Hb & _ & Hl)].
  { split; [auto|intros id; rewrite Hb; auto..]. rewrite Hl. apply H4. }
  split; [auto|intros id; rewrite Hb; case_decide as Hs; auto..].
  - intros s' [?| ->%list_elem_of_singleton]%elem_of_app; auto.
  - rewrite fmap_app. apply NoDup_app. split_and!; [done| |apply NoDup_singleton].
    intros k (s' & -> & Hs')%list_elem_of_fmap Hk%list_elem_of_singleton.
    rewrite <-(bucket_same cx _ _ Hs) in Hs'. apply Hne in Hs'. apply not_true_iff_false in Hs'.
    apply Hs'. by apply summary_eq_true.
  - intros s' l [Hs'| ->%list_elem_of_singleton]%elem_of_app Hl'.
    + pose proof (H4 _ _ _ Hs' Hl') as Hlk. destruct (sum_links s) as [l0|]; [|by rewrite Hl].
      destruct Hl as [Hn ->]. rewrite lookup_insert_ne by congruence. done.
    + rewrite Hl' in Hl. destruct Hl as [_ ->]. by rewrite lookup_insert_eq.
  - intros s' l Hs' Hl'. pose proof (H4 _ _ _ Hs' Hl') as Hlk. destruct (sum_links s) as [l0|]; [|by rewrite Hl].
    destruct Hl as [Hn ->]. rewrite lookup_insert_ne by congruence. done.
Qed.

Lemma answer_links_ok offline fuel summaries repls try_to_use minimal cx :
  answer offline fuel summaries repls try_to_use minimal cx → links_ok cx.
Proof.
  apply (activate_deps_loop_ok (λ cx _, links_ok cx) (λ _ _, True) (λ _, True)) with (I0 := λ _ cx _, links_ok cx);
    try done.
  - intros cx0 q p d c m rem f cx' q' HI _ _ _ Ha. revert HI.
    by eapply activate_packages; [apply links_ok_same|apply links_ok_flag|exact Ha].
  - intros s m l cx0 q w f cx' q' HI _ Ha. revert HI.
    by eapply activate_packages; [apply links_ok_same|apply links_ok_flag|exact Ha].
  - apply links_ok_new.
Qed.

(** C3. Of the packages the resolver activates, no two are the same package and
    no two declare the same [links] library, whatever the registry, the
    overrides and the previous lock file. *)
Theorem resolve_links_unique offline fuel summaries repls try_to_use minimal r ws
    (Hr : resolve offline fuel summaries repls try_to_use minimal = Some (Ok (r, ws))) :
  ∃ cx, answer offline fuel summaries repls try_to_use minimal cx ∧ r = resolve_of cx ∧
    ∀ s1 s2, active cx s1 → active cx s2 →
      (to_key (sum_package_id s1) = to_key (sum_package_id s2) → s1 = s2) ∧
      (∀ l, sum_links s1 = Some l → sum_links s2 = Some l → s1 = s2).
Proof.
  apply resolve_answer in Hr as (cx & Ha & -> & _). exists cx. split_and!; [done..|].
  pose proof (answer_links_ok _ _ _ _ _ _ _ Ha) as [_ _ Hnd Hl]. intros s1 s2 H1 H2.
  assert (Hid : to_key (sum_package_id s1) = to_key (sum_package_id s2) → s1 = s2).
  { intros Hk. unfold active in H2. rewrite <-(bucket_same cx _ _ (same_id_bucket _ _ Hk)) in H2.
    apply list_elem_of_lookup in H1 as [i Hi], H2 as [j Hj].
    assert (i = j) as ->; [|congruence].
    eapply (NoDup_lookup _ _ _ _ (Hnd (sum_package_id s1))); rewrite list_lookup_fmap.
    - by rewrite Hi.
    - rewrite Hj. simpl. by rewrite Hk. }
  split; [exact Hid|]. intros l Hl1 Hl2. apply Hid.
  pose proof (Hl _ _ _ H1 Hl1). pose proof (Hl _ _ _ H2 Hl2). congruence.
Qed.
(** ** Edges *)
Section edges.
Context (repls : list (PackageIdSpec * Dependency)) (try_to_use : hashset PackageId) (minimal : bool).
Context (Hreg : registry_respects_eq).

(** What the registry and the overrides offer for a dependency. *)
Definition offered (d : Dependency) (c : Candidate) : Prop :=
  ∃ l, query_candidates (queryer_new repls try_to_use minimal) d = Ok l ∧ c ∈ l.

Definition same_settings (q : RegistryQueryer) : Prop :=
  ResTypes.replacements q = repls ∧ ResTypes.try_to_use q = try_to_use ∧ minimal_versions q = minimal.

Lemma offered_key d d' c : to_key d = to_key d' → offered d c → offered d' c.
Proof.
  intros Hk (l & Hl & Hc). exists l. split; [|done]. rewrite <-Hl. by apply query_candidates_key.
Qed.

Lemma offered_query q d l :
  same_settings q → query_candidates q d = Ok l → ∀ c, c ∈ l → offered d c.
Proof.
  intros (H1 & H2 & H3) Hl c Hc. exists l. split; [|done]. rewrite <-Hl. by apply query_candidates_key.
Qed.

(** Why a package is in the answer: it was asked for, a package in the answer
    has a dependency it is offered for, or it overrides such a package. *)
Inductive wanted (roots : list Summary) (cx : Context) : Summary → Prop :=
| wanted_root s : s ∈ roots → wanted roots cx s
| wanted_dep p d c s : wanted roots cx p → d ∈ sum_dependencies p → offered d c →
    GLink (sum_package_id p) (sum_package_id (cand_summary c)) d ∈ resolve_graph cx →
    s ∈ cand_sums c → wanted roots cx s.

(** The dependency has its edge to an active package that is offered for it. *)
Definition has_edge (cx : Context) (s : Summary) (d : Dependency) : Prop :=
  ∃ c, offered d c ∧ is_active cx (sum_package_id (cand_summary c)) = true ∧
       GLink (sum_package_id s) (sum_package_id (cand_summary c)) d ∈ resolve_graph cx.
Definition overridden (cx : Context) (s : Summary) : Prop :=
  ∃ r, (sum_package_id s, sum_package_id r) ∈ resolve_replacements cx ∧
       is_active cx (sum_package_id r) = true.
(** The edge was asked for by a package of the answer. *)
Definition edge_wanted (roots : list Summary) (cx : Context) (a b : PackageId) (d : Dependency) : Prop :=
  is_active cx a = true ∧ is_active cx b = true ∧
  ∃ p c, wanted roots cx p ∧ sum_package_id p = a ∧ d ∈ sum_dependencies p ∧
         offered d c ∧ sum_package_id (cand_summary c) = b.

Record edges_ok (roots : list Summary) (cx : Context) (w : list (Summary * Dependency)) : Prop := {
  eo_complete : ∀ s, active cx s → overridden cx s ∨
    ∀ d, d ∈ sum_dependencies s → is_transitive d = true → optional d = false →
         has_edge cx s d ∨ (s, d) ∈ w;
  eo_waiting : ∀ p d, (p, d) ∈ w →
    wanted roots cx p ∧ is_active cx (sum_package_id p) = true ∧ d ∈ sum_dependencies p;
  eo_wanted : ∀ s, active cx s → wanted roots cx s;
  eo_edges : ∀ a b d, GLink a b d ∈ resolve_graph cx → edge_wanted roots cx a b d;
  eo_nodes : ∀ a, GAdd a ∈ resolve_graph cx → is_active cx a = true;
  eo_added : ∀ s, active cx s → GAdd (sum_package_id s) ∈ resolve_graph cx;
}.

Lemma wanted_grows roots cx cx' s :
  (∀ n, n ∈ resolve_graph cx → n ∈ resolve_graph cx') → wanted roots cx s → wanted roots cx' s.
Proof. intros Hg. induction 1; [by apply wanted_root|eapply wanted_dep; eauto]. Qed.

Lemma has_edge_grows cx cx' s d :
  grows cx cx' → (∀ n, n ∈ resolve_graph cx → n ∈ resolve_graph cx') → has_edge cx s d → has_edge cx' s d.
Proof.
  intros Hg Hgr (c & Ho & Ha & Hl). exists c. split_and!; [done|by eapply is_active_grows|by apply Hgr].
Qed.

(** One activation, of a candidate for a waiting dependency or of a root. *)
Lemma edges_ok_activate roots cx parent c f cx' w :
  effect cx cx' parent c f →
  edges_ok roots cx (from_option (λ pd, [pd]) [] parent ++ w) →
  (match parent with Some (_, d) => offered d c | None => cand_summary c ∈ roots ∧ cand_replace c = None end) →
  edges_ok roots cx' (frame_waiting f ++ w).
Proof.
  intros [Hg Hnew Hact (Hgr1 & Hgr2 & Hgr3) Hrep Hfr] [Hcomp Hwait Hwant Hedge Hnode Hadd] Hparent.
  assert (Hgr : ∀ n, n ∈ resolve_graph cx → n ∈ resolve_graph cx') by (intros; apply Hgr1; by left).
  assert (Hw : ∀ s, s ∈ cand_sums c → wanted roots cx' s).
  { intros s Hs. destruct parent as [[p d]|].
    - destruct (Hwait p d) as (Hp & _ & Hd); [constructor|].
      eapply wanted_dep; [by eapply wanted_grows|exact Hd|exact Hparent| |exact Hs].
      apply Hgr1. right. by exists p, d.
    - destruct Hparent as [Hr Hn]. unfold cand_sums in Hs. rewrite Hn in Hs. simpl in Hs.
      apply list_elem_of_singleton in Hs as ->. by apply wanted_root. }
  assert (Hpop : ∀ s d, has_edge cx s d ∨ (s, d) ∈ from_option (λ pd, [pd]) [] parent ++ w →
                        has_edge cx' s d ∨ (s, d) ∈ frame_waiting f ++ w).
  { intros s d [He|[Hin|Hin]%elem_of_app]; [left; by eapply has_edge_grows| |right; apply elem_of_app; by right].
    destruct parent as [[p d0]|]; [|by apply elem_of_nil in Hin].
    apply list_elem_of_singleton in Hin as [= -> ->]. left. exists c.
    split_and!; [done|apply Hact; constructor|]. apply Hgr1. right. by exists p, d0. }
  assert (Hold : ∀ s, active cx s → overridden cx' s ∨
    ∀ d, d ∈ sum_dependencies s → is_transitive d = true → optional d = false →
         has_edge cx' s d ∨ (s, d) ∈ frame_waiting f ++ w).
  { intros s Hs. destruct (Hcomp s Hs) as [(r & Hr & Ha)|Hd].
    - left. exists r. split; [rewrite Hrep; apply elem_of_app; by right|by eapply is_active_grows].
    - right. intros d H1 H2 H3. apply Hpop. by apply Hd. }
  assert (Htarget : target c ∈ cand_sums c).
  { unfold target, cand_sums. destruct (cand_replace c); simpl; [right|]; constructor. }
  assert (Hfw : ∀ p d, (p, d) ∈ frame_waiting f → p = target c ∧ d ∈ sum_dependencies p).
  { intros p d Hpd. destruct f as [fr|]; [|by apply elem_of_nil in Hpd].
    destruct Hfr as [Hfr _]. by destruct (Hfr p d Hpd) as [-> ?]. }
  split.
  - intros s Hs. destruct f as [fr|]; [|apply Hold; by apply Hfr].
    destruct (Hnew s Hs) as [|Hc]; [by apply Hold|].
    assert (s = target c ∨ overridden cx' s) as [->|Ho].
    { unfold cand_sums in Hc. unfold target, overridden. apply elem_of_cons in Hc as [->|Hc].
      - destruct (cand_replace c) as [r|] eqn:Hr; [right|by left]. exists r. split.
        + rewrite Hrep. unfold cand_replacements. rewrite Hr. simpl. constructor.
        + apply Hact. unfold cand_sums. rewrite Hr. right. constructor.
      - left. destruct (cand_replace c); simpl in *; [by apply list_elem_of_singleton in Hc|by apply elem_of_nil in Hc]. }
    + right. intros d H1 H2 H3. right. apply elem_of_app. left. by apply Hfr.
    + by left.
  - intros p d [[-> Hd]%Hfw|Hpd]%elem_of_app.
    + split_and!; [by apply Hw|by apply Hact|done].
    + destruct (Hwait p d) as (H1 & H2 & H3); [apply elem_of_app; by right|].
      split_and!; [by eapply wanted_grows|by eapply is_active_grows|done].
  - intros s Hs. destruct (Hnew s Hs) as [Hs'|Hs']; [|by apply Hw].
    eapply wanted_grows; [exact Hgr|by apply Hwant].
  - intros a b d [Hin|[(p & d' & -> & [= -> -> <-])|(? & ? & _)]]%Hgr2; [| |done].
    + destruct (Hedge a b d Hin) as (Ha & Hb & p & c' & H1 & H2 & H3 & H4 & H5).
      split_and!; [by eapply is_active_grows..|]. exists p, c'. split_and!; [by eapply wanted_grows|done..].
    + destruct (Hwait p d) as (H1 & H2 & H3); [constructor|].
      split_and!; [by eapply is_active_grows|apply Hact; constructor|]. exists p, c.
      split_and!; [by eapply wanted_grows|done..].
  - intros a [Hin|[(? & ? & _ & ?)|(s & [= ->] & Hs)]]%Hgr2; [by eapply is_active_grows, Hnode|done|].
    apply is_active_true. by exists s.
  - intros s [Hs|Hs]%Hgr3; [by apply Hgr, Hadd|done].
Qed.

Lemma answer_edges_ok offline fuel summaries cx :
  answer offline fuel summaries repls try_to_use minimal cx → edges_ok summaries.*1 cx [].
Proof.
  set (roots := summaries.*1).
  apply (activate_deps_loop_ok (edges_ok roots) offered same_settings)
    with (I0 := λ l cx w, edges_ok roots cx w ∧ ∀ x, x ∈ l → x.1 ∈ roots).
  - intros cx0 l l' Hp [H1 H2 H3 H4 H5 H6]. split; try done; setoid_rewrite <-Hp; done.
  - intros d d' c. apply offered_key.
  - intros q q' H1 H2 H3 (? & ? & ?). unfold same_settings. split_and!; congruence.
  - apply offered_query.
  - intros cx0 q p d c m rem f cx' q' HI _ Ho _ Ha%activate_effect. by apply (edges_ok_activate _ _ _ _ _ _ _ Ha).
  - intros l cx0 w w' Hp [[H1 H2 H3 H4 H5 H6] Hl]. split; [|done]. split; try done; setoid_rewrite <-Hp; done.
  - intros s m l cx0 q w f cx' q' [HI Hl] _ Ha%activate_effect. split.
    + apply (edges_ok_activate _ _ _ _ _ _ _ Ha); [done|]. split; [|done]. apply (Hl (s, m)). constructor.
    + intros x Hx. apply Hl. by constructor.
  - by intros cx0 w [? _].
  - split.
    + assert (Hb : ∀ s, ¬ active context_new s).
      { intros s. unfold active, bucket, context_new. cbn [activations]. rewrite hget_empty. apply not_elem_of_nil. }
      split; try (by intros s Hs%Hb).
      * intros p d Hin. by apply elem_of_nil in Hin.
      * intros a b d Hin. by apply elem_of_nil in Hin.
      * intros a Hin. by apply elem_of_nil in Hin.
    + intros x Hx. apply list_elem_of_fmap. by exists x.
  - done.
  - done.
Qed.
End edges.

(** ** The graph that is built from the activations *)
Lemma is_active_key cx a b : to_key a = to_key b → is_active cx a = is_active cx b.
Proof.
  intros Hk. apply Bool.eq_true_iff_eq. rewrite !is_active_true.
  rewrite (bucket_same cx a b) by (by apply same_id_bucket). by setoid_rewrite Hk.
Qed.

Definition graph_step (g : Graph PackageId (list Dependency)) (n : GraphNode) :=
  match n with
  | GAdd p => Graph.add g p
  | GLink a b dep => Graph.link g a b [] (λ deps, deps ++ [dep])
  end.

(** The dependencies on the edge between two packages. *)
Definition edge_deps (g : Graph PackageId (list Dependency)) (a b : PackageId) : list Dependency :=
  default [] (Graph.edge g a b).

Lemma edge_deps_fold l g a b d :
  d ∈ edge_deps (foldl graph_step g l) a b ↔
  d ∈ edge_deps g a b ∨ ∃ a' b', GLink a' b' d ∈ l ∧ to_key a' = to_key a ∧ to_key b' = to_key b.
Proof.
  revert g. induction l as [|n l IH]; intros g; simpl.
  { split; [by left|]. intros [|(? & ? & H & _)]; [done|by apply elem_of_nil in H]. }
  rewrite IH. setoid_rewrite elem_of_cons.
  assert (Hn : d ∈ edge_deps (graph_step g n) a b ↔ d ∈ edge_deps g a b ∨
    ∃ a' b', GLink a' b' d = n ∧ to_key a' = to_key a ∧ to_key b' = to_key b).
  { destruct n as [p|x y dep]; unfold edge_deps; simpl.
    - rewrite edge_add. split; [by left|]. by intros [|(? & ? & ? & _)].
    - rewrite edge_link. case_decide as Hk; simpl.
      + rewrite elem_of_app, list_elem_of_singleton.
        assert (He : default [] (Graph.edge g x y) = default [] (Graph.edge g a b)).
        { unfold Graph.edge. destruct Hk as [Hx Hy]. rewrite (hget_key _ _ _ Hx).
          destruct (hget _ a) as [adj|]; simpl; [|done]. by rewrite (hget_key _ _ _ Hy). }
        rewrite He. split; (intros [?|?]; [by left|right]).
        * subst d. by exists x, y.
        * destruct H as (a' & b' & [= -> -> ->] & _). done.
      + split; [by left|]. intros [|(a' & b' & [= -> -> ->] & Hk')]; [done|]. by destruct Hk. }
  rewrite Hn. split.
  - intros [[H|(a' & b' & H & Hk)]|(a' & b' & H & Hk)]; [by left|right; exists a', b'; auto..].
  - intros [H|(a' & b' & [H|H] & Hk)]; [by left; left|left; right|right]; by exists a', b'.
Qed.

Lemma edge_deps_graph_of cx a b d :
  d ∈ edge_deps (graph_of cx) a b ↔
  ∃ a' b', GLink a' b' d ∈ resolve_graph cx ∧ to_key a' = to_key a ∧ to_key b' = to_key b.
Proof.
  unfold graph_of. rewrite (edge_deps_fold (resolve_graph cx) Graph.new). split; [|by right]. intros [H|H]; [|done].
  unfold edge_deps, Graph.edge in H. unfold Graph.new in H. cbn [nodes] in H. rewrite hget_empty in H. by apply elem_of_nil in H.
Qed.

Definition node_of (n : GraphNode) : PackageId := match n with GAdd p | GLink p _ _ => p end.

Lemma contains_step g n a :
  Graph.contains (graph_step g n) a = true ↔ Graph.contains g a = true ∨ to_key (node_of n) = to_key a.
Proof.
  destruct n as [p|p y dep]; simpl; [|by rewrite contains_link, orb_true_iff, heqb_true].
  unfold Graph.contains, Graph.add. simpl. rewrite !hcontains_true. setoid_rewrite hget_hor_insert.
  case_decide as Hk; split; [by right|by eauto|by left|]. by intros [|].
Qed.

Lemma contains_fold l (g : Graph PackageId (list Dependency)) a :
  Graph.contains (foldl graph_step g l) a = true ↔
  Graph.contains g a = true ∨ ∃ n, n ∈ l ∧ to_key (node_of n) = to_key a.
Proof.
  revert g. induction l as [|n l IH]; intros g; simpl.
  { split; [by left|]. intros [|(? & H & _)]; [done|by apply elem_of_nil in H]. }
  rewrite IH, contains_step. setoid_rewrite elem_of_cons. split.
  - intros [[H|H]|(n' & H & Hk)]; [by left|right; by exists n; auto|right; exists n'; auto].
  - intros [H|(n' & [-> |H] & Hk)]; [by left; left|by left; right|right; by exists n'].
Qed.

Lemma contains_graph_of cx a :
  Graph.contains (graph_of cx) a = true ↔ ∃ n, n ∈ resolve_graph cx ∧ to_key (node_of n) = to_key a.
Proof.
  unfold graph_of. rewrite (contains_fold (resolve_graph cx) Graph.new). split; [|by right]. intros [H|H]; [|done].
  unfold Graph.contains in H. apply hcontains_true in H as [v H].
  unfold Graph.new in H. cbn [nodes] in H. rewrite hget_empty in H. discriminate H.
Qed.

Lemma wf_graph_of cx : wf (graph_of cx).
Proof.
  assert (Hl : ∀ l (g : Graph PackageId (list Dependency)), wf g → wf (foldl graph_step g l)).
  { induction l as [|n l IH]; intros g Hg; simpl; [done|].
    apply IH. destruct n; simpl; [by apply wf_add|by apply wf_link]. }
  apply (Hl (resolve_graph cx)), wf_new.
Qed.

(** The packages that were asked for are in the answer. *)
Lemma answer_roots offline fuel summaries repls try_to_use minimal cx s :
  answer offline fuel summaries repls try_to_use minimal cx → s ∈ summaries.*1 →
  Resolve.contains (resolve_of cx) (sum_package_id s) = true.
Proof.
  intros Ha Hs. set (added := λ cx, ∀ s, active cx s → GAdd (sum_package_id s) ∈ resolve_graph cx).
  set (asked := λ cx s, is_active cx (sum_package_id s) = true).
  assert (Hcx : added cx ∧ ∀ s, s ∈ summaries.*1 → asked cx s).
  { revert Ha. apply (activate_deps_loop_ok (λ cx _, added cx ∧ ∀ s, s ∈ summaries.*1 → asked cx s) (λ _ _, True) (λ _, True))
      with (I0 := λ l cx _, added cx ∧ ∀ s, s ∈ summaries.*1 → asked cx s ∨ s ∈ l.*1); try done.
    - intros cx0 q p d c m rem f cx' q' [H1 H2] _ _ _ [Hg _ _ (Hg1 & _ & Hg3) _ _]%activate_effect. split.
      + intros x [Hx|Hx]%Hg3; [apply Hg1; left; by apply H1|done].
      + intros x Hx. eapply is_active_grows; [exact Hg|by apply H2].
    - intros x m l cx0 q w f cx' q' [H1 H2] _ [Hg _ Hact (Hg1 & _ & Hg3) _ _]%activate_effect. split.
      + intros y [Hy|Hy]%Hg3; [apply Hg1; left; by apply H1|done].
      + intros y Hy. destruct (H2 y Hy) as [Hy'|[->|Hy']%elem_of_cons]; [|left; apply Hact; constructor|by right].
        left. by eapply is_active_grows.
    - intros cx0 w [H1 H2]. split; [done|]. intros x Hx. destruct (H2 x Hx) as [|Hn]; [done|by apply elem_of_nil in Hn].
    - split; [|by right]. intros x Hx. unfold active, bucket, context_new in Hx. cbn [activations] in Hx. rewrite hget_empty in Hx.
      by apply elem_of_nil in Hx. }
  destruct Hcx as [Hadd Hall]. apply Hall, is_active_true in Hs as (x & Hx & Hk).
  unfold Resolve.contains, resolve_of. simpl. apply contains_graph_of. exists (GAdd (sum_package_id x)). split; [|done].
  apply Hadd. unfold active. by rewrite (bucket_same cx _ _ (same_id_bucket _ _ Hk)).
Qed.

(** C1. The resolved graph is complete: its nodes are the activated packages,
    and each activated package is overridden by another one or has, for every
    dependency that is neither optional nor a development dependency, an edge
    labelled with it to a package of the graph that the registry offers for
    it. *)
Theorem resolve_complete offline fuel summaries repls try_to_use minimal r ws
    (Hreg : registry_respects_eq)
    (Hr : resolve offline fuel summaries repls try_to_use minimal = Some (Ok (r, ws))) :
  ∃ cx, answer offline fuel summaries repls try_to_use minimal cx ∧ r = resolve_of cx ∧
    (∀ id, Resolve.contains r id = true ↔ is_active cx id = true) ∧
    ∀ s, active cx s → overridden cx s ∨
      ∀ d, d ∈ sum_dependencies s → is_transitive d = true → optional d = false →
        ∃ c, offered repls try_to_use minimal d c ∧
             Resolve.contains r (sum_package_id (cand_summary c)) = true ∧
             d ∈ edge_deps (graph r) (sum_package_id s) (sum_package_id (cand_summary c)).
Proof.
  apply resolve_answer in Hr as (cx & Ha & -> & _). exists cx.
  destruct (answer_edges_ok _ _ _ Hreg _ _ _ _ Ha) as [Hc _ _ He Hn Hadd].
  assert (Hnodes : ∀ id, Resolve.contains (resolve_of cx) id = true ↔ is_active cx id = true).
  { intros id. unfold Resolve.contains, resolve_of. simpl. rewrite contains_graph_of. split.
    - intros (n & Ho & Hk). rewrite <-(is_active_key _ _ _ Hk).
      destruct n as [a|a b d]; [by apply Hn|by apply (He a b d)].
    - intros (s & Hs & Hk)%is_active_true. exists (GAdd (sum_package_id s)). split; [|done]. apply Hadd.
      unfold active. by rewrite (bucket_same _ _ _ (same_id_bucket _ _ Hk)). }
  split_and!; [done..|]. intros s Hs. destruct (Hc s Hs) as [|Hd]; [by left|right].
  intros d H1 H2 H3. destruct (Hd d H1 H2 H3) as [(c & Hoc & Hac & Hl)|Hl]; [|by apply elem_of_nil in Hl].
  exists c. split_and!; [done|by apply Hnodes|]. apply edge_deps_graph_of. by eexists _, _.
Qed.

(** C5. Nothing is in the resolved graph without a reason: each activated
    package was asked for, is offered for a dependency of a package of the
    answer, or overrides such a package; and each label of an edge is a
    dependency of a package of the answer for which the registry offers the
    package at the other end. *)
Theorem resolve_wanted offline fuel summaries repls try_to_use minimal r ws
    (Hreg : registry_respects_eq)
    (Hr : resolve offline fuel summaries repls try_to_use minimal = Some (Ok (r, ws))) :
  ∃ cx, answer offline fuel summaries repls try_to_use minimal cx ∧ r = resolve_of cx ∧
    (∀ s, active cx s → wanted repls try_to_use minimal summaries.*1 cx s) ∧
    ∀ a b d, d ∈ edge_deps (graph r) a b →
      Resolve.contains r a = true ∧ is_active cx b = true ∧
      ∃ p c, wanted repls try_to_use minimal summaries.*1 cx p ∧ to_key (sum_package_id p) = to_key a ∧
        d ∈ sum_dependencies p ∧ offered repls try_to_use minimal d c ∧
        to_key (sum_package_id (cand_summary c)) = to_key b.
Proof.
  apply resolve_answer in Hr as (cx & Ha & -> & _). exists cx.
  destruct (answer_edges_ok _ _ _ Hreg _ _ _ _ Ha) as [_ _ Hw He _ _].
  split_and!; [done..|]. intros a b d (a' & b' & Hin & Hka & Hkb)%edge_deps_graph_of.
  destruct (He a' b' d Hin) as (_ & Hb & p & c & H1 & H2 & H3 & H4 & H5). split_and!.
  - unfold Resolve.contains, resolve_of. simpl. apply contains_graph_of. by exists (GLink a' b' d).
  - by rewrite <-(is_active_key _ _ _ Hkb).
  - exists p, c. split_and!; [done|by rewrite H2|done|done|by rewrite H5].
Qed.

(** ** Semver *)
Lemma compatible_spec a b :
  compatible a b = true ↔
  version_major a = version_major b ∧
  (version_major a = 0%N → version_minor a = version_minor b ∧
     (version_minor a = 0%N → version_patch a = version_patch b)).
Proof.
  unfold compatible.
  destruct (N.eqb_spec (version_major a) (version_major b)) as [H1|H1]; simpl; [|by split; [|intros [? _]]].
  destruct (N.eqb_spec (version_major a) 0) as [H2|H2]; simpl; [|done].
  destruct (N.eqb_spec (version_minor a) (version_minor b)) as [H3|H3]; simpl.
  2: { split; [done|]. intros [_ H]. by destruct (H H2). }
  destruct (N.eqb_spec (version_minor a) 0) as [H4|H4]; simpl; [|done].
  rewrite N.eqb_eq. split; [done|]. intros [_ H]. destruct (H H2) as [_ H']. by apply H'.
Qed.

Lemma compatible_sym a b : compatible a b = true → compatible b a = true.
Proof.
  rewrite !compatible_spec. intros (H1 & H2). split; [done|]. intros H0.
  destruct H2 as [H2 H3]; [congruence|]. split; [done|]. intros H4. symmetry. apply H3. congruence.
Qed.

(** The packages with the name and the source of [id] have no compatible versions. *)
Definition semver_ok (id : PackageId) (cx : Context) : Prop :=
  ∀ s1 s2, s1 ∈ bucket cx id → s2 ∈ bucket cx id →
    compatible (sum_version s1) (sum_version s2) = true → summary_eq s1 s2 = true.

(** No version among these is compatible with the summary. *)
Definition no_compatible (l : list Summary) (s : Summary) : Prop :=
  ∀ s0, s0 ∈ l → compatible (sum_version s0) (sum_version s) = false.
Definition none_equal (l : list Summary) (s : Summary) : Prop :=
  ∀ s0, s0 ∈ l → summary_eq s0 s = false.

(** A package of that name and source is only added if it fits. *)
Definition fits (id : PackageId) (cx : Context) (s : Summary) : Prop :=
  same_bucket (sum_package_id s) id → none_equal (bucket cx (sum_package_id s)) s → no_compatible (bucket cx (sum_package_id s)) s.

Lemma semver_ok_flag id cx s m b cx' : fits id cx s →
  flag_activated cx s m = (Ok b, cx') → semver_ok id cx → semver_ok id cx'.
Proof.
  intros Hs [_ [(_ & _ & _ & Hb & _)|(_ & Hne & Hb & _)]]%flag_activated_cases Hok s1 s2; rewrite Hb.
  { apply Hok. }
  case_decide as Hk; [|apply Hok].
  assert (Hno : ∀ s0, s0 ∈ bucket cx id → compatible (sum_version s0) (sum_version s) ≠ true).
  { intros s0 Hs0. rewrite <-(bucket_same cx _ _ Hk) in Hs0. apply not_true_iff_false. by apply Hs. }
  intros [H1|H1%list_elem_of_singleton]%elem_of_app [H2|H2%list_elem_of_singleton]%elem_of_app Hc.
  - by eapply Hok.
  - subst s2. by apply Hno in Hc.
  - subst s1. by apply compatible_sym, Hno in Hc.
  - subst. by apply summary_eq_true.
Qed.

Lemma semver_ok_same id cx cx' : (∀ id, bucket cx' id = bucket cx id) → semver_ok id cx → semver_ok id cx'.
Proof. intros Hb Hok s1 s2. rewrite Hb. apply Hok. Qed.

(** A candidate found valid is not compatible with another active version. *)
Lemma conflict_compatible cx prev c :
  candidate_conflict cx prev c = None → none_equal prev (cand_summary c) → no_compatible prev (cand_summary c).
Proof.
  intros Hc Hne s0 H0. apply not_true_iff_false. intros Hcomp. unfold candidate_conflict in Hc.
  set (semver := match List.find _ _ with Some a => _ | None => None end) in Hc.
  assert (Hsem : semver = None).
  { destruct (sum_links (cand_summary c)) as [l|]; [|done]. destruct (links cx !! l) as [a|]; [|done].
    by destruct (negb _). }
  unfold semver in Hsem. destruct (List.find _ prev) as [a|] eqn:Hf.
  - apply find_some in Hf as [Ha _]. apply list_elem_of_In in Ha. by rewrite (Hne a Ha) in Hsem.
  - assert (Hin : In s0 prev) by (by apply list_elem_of_In). pose proof (find_none _ _ Hf _ Hin) as Hn.
    simpl in Hn. congruence.
Qed.

Lemma activate_bucket cx q parent c m f cx' q' :
  cand_replace c = None → activate cx q parent c m = Some (Ok f, cx', q') →
  ∃ b cx0 cx1, flag_activated cx0 (cand_summary c) m = (Ok b, cx1) ∧
    (∀ id, bucket cx0 id = bucket cx id) ∧ (∀ id, bucket cx' id = bucket cx1 id).
Proof.
  intros Hn (b & cx1 & H1 & b2 & cx2 & H2 & H3)%activate_cases. rewrite Hn in H2. destruct H2 as [_ ->].
  exists b, (linked cx parent c), cx1. split_and!; [done|by destruct parent as [[]|]|].
  intros id. destruct b2; [by destruct H3 as [_ ->]|]. destruct H3 as [H3 _]. by apply same_packages_bucket.
Qed.

Lemma semver_ok_activate id cx q parent c m f cx' q' :
  cand_replace c = None → fits id cx (cand_summary c) →
  activate cx q parent c m = Some (Ok f, cx', q') → semver_ok id cx → semver_ok id cx'.
Proof.
  intros Hn Hs (b & cx0 & cx1 & H1 & H2 & H3)%activate_bucket Hok; [|done].
  eapply semver_ok_same; [done|]. eapply semver_ok_flag; [|exact H1|]; [unfold fits; by rewrite H2|].
  by eapply semver_ok_same.
Qed.

(** The registry answers with packages of the name and source of [id] only when
    these are asked for: no patch leads to them from elsewhere. *)
Definition asked_by_name (id : PackageId) : Prop :=
  ∀ d l s, registry_query d false = Ok l → s ∈ l → same_bucket (sum_package_id s) id →
    to_key (dep_name d, dep_source_id d) = to_key (activation_key (sum_package_id s)).

(** C4. Semver-compatible versions are unified: two activated packages with the
    same name and source whose versions agree up to the left-most non-zero
    number are the same package.  This holds without [replace], for packages
    asked for that differ in name or source, and for a name and source that
    the registry answers with only when they are asked for; a patch breaks the
    last condition, and then the code lets two compatible versions in. *)
Theorem resolve_semver_unique offline fuel summaries try_to_use minimal r ws s1 s2
    (Hloc : asked_by_name (sum_package_id s1))
    (Hroots : NoDup ((λ s, to_key (activation_key (sum_package_id s))) <$> summaries.*1))
    (Hr : resolve offline fuel summaries [] try_to_use minimal = Some (Ok (r, ws))) :
  ∃ cx, answer offline fuel summaries [] try_to_use minimal cx ∧ r = resolve_of cx ∧
    (active cx s1 → active cx s2 → same_bucket (sum_package_id s1) (sum_package_id s2) →
     compatible (sum_version s1) (sum_version s2) = true →
     to_key (sum_package_id s1) = to_key (sum_package_id s2)).
Proof.
  apply resolve_answer in Hr as (cx & Ha & -> & _). exists cx. split_and!; [done..|].
  assert (Hok : semver_ok (sum_package_id s1) cx).
  { revert Ha. set (id0 := sum_package_id s1) in *.
    apply (activate_deps_loop_ok (λ cx _, semver_ok id0 cx)
      (λ d c, (same_bucket (sum_package_id (cand_summary c)) id0 →
               to_key (dep_name d, dep_source_id d) = to_key (activation_key (sum_package_id (cand_summary c)))) ∧
              cand_replace c = None)
      (λ q, ResTypes.replacements q = []))
      with (I0 := λ l cx _, semver_ok id0 cx ∧ NoDup ((λ s, to_key (activation_key (sum_package_id s))) <$> l.*1) ∧
                            ∀ x, x ∈ l → bucket cx (sum_package_id x.1) = []); try done.
    - intros d d' c Hk [Hc Hn]. split; [|done]. intros Hb. rewrite <-(Hc Hb).
      change ((dep_name d', to_key (dep_source_id d')) = (dep_name d, to_key (dep_source_id d))).
      unfold to_key at 1 2 in Hk. simpl in Hk. congruence.
    - by intros q q' -> _ _.
    - intros q d l Hq (ss & Hss & Hp & Ho)%query_candidates_summaries c Hc. split.
      + eapply Hloc; [exact Hss|]. rewrite <-Hp. apply list_elem_of_fmap. by exists c.
      + specialize (Ho c Hc). rewrite Hq in Ho. by injection Ho.
    - intros cx0 q p d c m rem f cx' q' HI _ [Hk Hn] Hconf Hact.
      eapply semver_ok_activate; [exact Hn| |exact Hact|exact HI]. intros Hb.
      rewrite <-(prev_active_bucket cx0 _ _ (Hk Hb)). by apply (conflict_compatible cx0).
    - intros s m l cx0 q w f cx' q' (HI & Hnd & Hemp) _ Hact. simpl in Hnd. apply NoDup_cons in Hnd as [Hnin Hnd].
      split_and!; [|done|].
      + eapply (semver_ok_activate _ _ _ _ (mkCandidate s None)); [done| |exact Hact|exact HI]. intros _ _ s0 Hs0. simpl in Hs0.
        pose proof (Hemp (s, m) ltac:(constructor)) as He. simpl in He. rewrite He in Hs0. by apply elem_of_nil in Hs0.
      + intros x Hx. apply activate_bucket in Hact as (b & cx1 & cx2 & H1 & H2 & H3); [|done].
        rewrite H3. rewrite <-(Hemp x) by (by constructor). rewrite <-H2.
        apply flag_activated_cases in H1 as [_ [(_ & _ & _ & Hb & _)|(_ & _ & Hb & _)]]; rewrite Hb; [done|].
        rewrite decide_False; [done|]. intros Hsame. apply Hnin. simpl in Hsame. unfold same_bucket in Hsame.
        rewrite Hsame. apply list_elem_of_fmap. exists x.1. split; [done|]. apply list_elem_of_fmap. by exists x.
    - by intros cx0 w [? _].
    - assert (Hb : ∀ id, bucket context_new id = []).
      { intros id. unfold bucket, context_new. cbn [activations]. by rewrite hget_empty. }
      split_and!; [|done|by intros x _]. intros s s'. rewrite Hb. intros Hs. by apply elem_of_nil in Hs. }
  intros H1 H2 Hsame Hc. apply summary_eq_true. eapply Hok; [exact H1| |exact Hc].
  by rewrite (bucket_same _ _ _ Hsame).
Qed.
End answer.

(** * A concrete run: [root] wants [a] and [b], which want [c] *)
Section runs.
Local Existing Instance sem_lib.
Local Existing Instance hier_lib.
Local Existing Instance std_order.

Definition root_package : Summary := sum "root" (0, 1, 0) [dep "a" (1, 0, 0); dep "b" (1, 0, 0)] None.
Definition run_sample : option (cresult (Resolve * list string)) :=
  resolve (RG:=listed sample_packages) false 20 [(root_package, Everything)] [] ∅ false.

(** The answer: [c] is unified to 1.2.0. *)
Definition answer_nodes (o : option (cresult (Resolve * list string))) : option (list (PackageId * list PackageId)) :=
  match o with
  | Some (Ok (r, _)) => Some ((λ id, (id, deps_not_replaced r id)) <$> Resolve.iter r)
  | _ => None
  end.
Definition sample_answer : option (list (PackageId * list PackageId)) := answer_nodes run_sample.

Example sample_answer_nodes : (length <$> sample_answer) = Some 4.
Proof. vm_eq. Qed.

Lemma resolve_links_unique_witness :
  ∃ r ws, run_sample = Some (Ok (r, ws)) ∧
    ∃ cx, answer (RG:=listed sample_packages) false 20 [(root_package, Everything)] [] ∅ false cx ∧ r = resolve_of cx ∧
    ∀ s1 s2, active cx s1 → active cx s2 → sum_links s1 = Some "z" → sum_links s2 = Some "z" → s1 = s2.
Proof.
  assert (Hok : bool_decide (is_Some sample_answer) = true) by vm_eq.
  unfold sample_answer in Hok. destruct run_sample as [[[r ws]|e|m]|] eqn:Hrun;
    [|discriminate Hok|discriminate Hok|discriminate Hok].
  exists r, ws. split; [reflexivity|].
  destruct (resolve_links_unique (RG:=listed sample_packages) _ _ _ _ _ _ _ _ Hrun) as (cx & Ha & Hr & Hu).
  exists cx. split; [exact Ha|]. split; [exact Hr|]. intros s1 s2 H1 H2. exact (proj2 (Hu s1 s2 H1 H2) "z").
Defined.

Lemma resolve_complete_witness :
  ∃ r ws, run_sample = Some (Ok (r, ws)) ∧
    ∃ c, Resolve.contains r (sum_package_id (cand_summary c)) = true ∧
         dep "a" (1, 0, 0) ∈ edge_deps (graph r) (sum_package_id root_package) (sum_package_id (cand_summary c)).
Proof.
  assert (Hok : bool_decide (is_Some sample_answer) = true) by vm_eq.
  assert (Hact : (match activate_deps_loop (RG:=listed sample_packages) false 20 context_new
                          (queryer_new [] ∅ false) [(root_package, Everything)] with
                  | Some (Ok cx) => Some (bucket cx (sum_package_id root_package), resolve_replacements cx)
                  | _ => None end) = Some ([root_package], [])) by vm_eq.
  unfold sample_answer in Hok. destruct run_sample as [[[r ws]|e|m]|] eqn:Hrun;
    [|discriminate Hok|discriminate Hok|discriminate Hok].
  exists r, ws. split; [reflexivity|].
  destruct (resolve_complete (RG:=listed sample_packages) _ _ _ _ _ _ _ _ (listed_respects_eq _) Hrun)
    as (cx & Ha & Hr & _ & Hc).
  unfold answer in Ha. rewrite Ha in Hact.
  assert (Hb : bucket cx (sum_package_id root_package) = [root_package]) by congruence.
  assert (Hrep : resolve_replacements cx = []) by congruence. clear Hact.
  assert (Hroot : active cx root_package).
  { unfold active. rewrite Hb. constructor. }
  destruct (Hc root_package Hroot) as [(x & Hx & _)|Hd].
  { rewrite Hrep in Hx. destruct (not_elem_of_nil _ Hx). }
  destruct (Hd (dep "a" (1, 0, 0))) as (c & _ & H1 & H2); [constructor|reflexivity|reflexivity|].
  exists c. split; [exact H1|exact H2].
Defined.

Lemma resolve_wanted_witness :
  ∃ r ws, run_sample = Some (Ok (r, ws)) ∧
    ∀ a b d, d ∈ edge_deps (graph r) a b → Resolve.contains r a = true.
Proof.
  assert (Hok : bool_decide (is_Some sample_answer) = true) by vm_eq.
  unfold sample_answer in Hok. destruct run_sample as [[[r ws]|e|m]|] eqn:Hrun;
    [|discriminate Hok|discriminate Hok|discriminate Hok].
  exists r, ws. split; [reflexivity|].
  destruct (resolve_wanted (RG:=listed sample_packages) _ _ _ _ _ _ _ _ (listed_respects_eq _) Hrun)
    as (cx & _ & _ & _ & He).
  intros a b d Hd. exact (proj1 (He a b d Hd)).
Defined.

Lemma listed_local l id : asked_by_name (RG:=listed l) id.
Proof.
  intros d l' s [= <-] [Hm _]%list_elem_of_filter _. apply andb_true_iff in Hm as [Hm Hs].
  apply matches_id_name in Hm. apply heqb_true in Hs. unfold activation_key. change ((dep_name d, to_key (dep_source_id d)) = (pid_name (sum_package_id s), to_key (pid_source_id (sum_package_id s)))).
  by rewrite Hm, Hs.
Qed.

(** A patch lets two compatible versions in: [a] asks for [c] of its own source,
    where a patch answers with a version of another source, from which [b]
    takes another version. *)
Definition fork : SourceId := mkSourceId (UL:=hier_lib) ("file", "", ["fork"], None, None) ("file", "", ["fork"], None, None) Path None None.
Definition forked (v : Version) : Summary :=
  let s := sum "c" v [] None in mkSummary (mkPackageId "c" v fork) (sum_dependencies s) (sum_features s) (sum_checksum s) None (sum_namespaced_features s).
Definition fork_dep : Dependency :=
  let d := dep "c" (1, 0, 0) in mkDependency (dep_name d) fork (registry_id d) (dep_req d) (specified_req d) (dep_kind d) (only_match_name d)
    (explicit_name_in_toml d) (optional d) (default_features d) (dep_features d) (platform d).
Definition patched_c : Registry := {|
  registry_query d fuzzy :=
    match registry_query (Registry:=listed [sum "a" (1, 0, 0) [dep "c" (1, 0, 0)] None; sum "b" (1, 0, 0) [fork_dep] None; forked (1, 0, 0)]) d fuzzy with
    | Ok [] => Ok [forked (1, 2, 0)]
    | r => r
    end;
  describe_source _ := "registry";
  is_replaced _ := false;
|}.
Example patch_not_unified :
  (λ l, List.map (λ n, (pid_name n.1, pid_version n.1)) (List.filter (λ n, pid_source_id n.1 ==? fork) l)) <$>
   answer_nodes (resolve (RG:=patched_c) false 20 [(root_package, Everything)] [] ∅ false)
  = Some [("c", (1, 2, 0)); ("c", (1, 0, 0))].
Proof. vm_eq. Qed.

(** Of the two compatible versions of [c], only one is activated. *)
Lemma resolve_semver_unique_witness :
  ∃ r ws, run_sample = Some (Ok (r, ws)) ∧
    ∃ cx, answer (RG:=listed sample_packages) false 20 [(root_package, Everything)] [] ∅ false cx ∧
      (active cx (sum "c" (1, 0, 0) [] None) → active cx (sum "c" (1, 2, 0) [] None) → False).
Proof.
  assert (Hok : bool_decide (is_Some sample_answer) = true) by vm_eq.
  unfold sample_answer in Hok. destruct run_sample as [[[r ws]|e|m]|] eqn:Hrun;
    [|discriminate Hok|discriminate Hok|discriminate Hok].
  exists r, ws. split; [reflexivity|].
  assert (Hnd : NoDup ((λ s, to_key (activation_key (sum_package_id s))) <$> [(root_package, Everything)].*1))
    by exact (NoDup_singleton _).
  destruct (resolve_semver_unique (RG:=listed sample_packages) _ _ _ _ _ _ _
    (sum "c" (1, 0, 0) [] None) (sum "c" (1, 2, 0) [] None) (listed_local _ _) Hnd Hrun) as (cx & Ha & _ & Hu).
  exists cx. split; [exact Ha|]. intros H1 H2. specialize (Hu H1 H2 eq_refl eq_refl). discriminate Hu.
Defined.
End runs.
