(* ===== verification/ResCycles.v ===== *)
(** The search for dependency cycles, [check_cycles] of [Resolver]: it always
    returns, what it reports is a cycle, and without development dependencies
    it misses none. *)
From S2P Require Import Prelude Str Extern SourceId PackageId Graph Dependency Summary ResTypes ResContext ResErrors Resolve Encode Resolver ResInvariant ResFacts ResCorrect.

Section cycles.
Context `{SV : SemverLib} `{UL : UrlLib} `{RS : RustStd}.
Context (r : Resolve) (summaries : hashmap PackageId Summary).

(** The packages that [visit] calls itself on from a package: its dependencies
    and what overrides them. *)
Definition calls (dep : PackageId) : list PackageId := dep :: from_option (λ x, [x]) [] (replacement r dep).
Definition leads_to (a b : PackageId) : Prop :=
  ∃ dep b', dep ∈ deps_not_replaced r a ∧ b' ∈ calls dep ∧ to_key b' = to_key b.
(** The same, over dependencies that are not for development only. *)
Definition builds_on (a b : PackageId) : Prop :=
  ∃ s dep b', hget summaries a = Some s ∧ dep ∈ deps_not_replaced r a ∧ transitive_dep s dep = true ∧
              b' ∈ calls dep ∧ to_key b' = to_key b.
Definition no_dev_edges : Prop :=
  ∀ a s dep, hget summaries a = Some s → dep ∈ deps_not_replaced r a → transitive_dep s dep = true.

Lemma deps_not_replaced_key a a' : to_key a = to_key a' → deps_not_replaced r a = deps_not_replaced r a'.
Proof. intros Hk. unfold deps_not_replaced, Graph.edges. by rewrite (hget_key _ _ _ Hk). Qed.

Lemma builds_on_key a a' b b' : to_key a = to_key a' → to_key b = to_key b' → builds_on a b → builds_on a' b'.
Proof.
  intros Ha Hb (s & dep & x & H1 & H2 & H3 & H4 & H5). exists s, dep, x.
  rewrite <-(hget_key _ _ _ Ha), <-(deps_not_replaced_key _ _ Ha). split_and!; [done..|congruence].
Qed.

Lemma tc_builds_on_key a a' b b' :
  to_key a = to_key a' → to_key b = to_key b' → tc builds_on a b → tc builds_on a' b'.
Proof.
  intros Ha Hb Ht. revert a' Ha. induction Ht as [x y Hxy|x y z Hxy _ IH]; intros a' Ha.
  - apply tc_once. by eapply builds_on_key.
  - eapply tc_l; [by eapply builds_on_key; [exact Ha| |exact Hxy]|]. by apply IH.
Qed.

(** * The order in which packages are finished *)

(** The head was finished last; what a package leads to is finished before. *)
Fixpoint finished (l : list (hkey PackageId)) : Prop :=
  match l with
  | [] => True
  | k :: l => finished l ∧ (k ∉ l) ∧ ∀ a b, to_key a = k → leads_to a b → to_key b ∈ l
  end.

Lemma finished_leads l a b : finished l → to_key a ∈ l → tc leads_to a b → to_key b ∈ l ∧ to_key a ≠ to_key b.
Proof.
  revert a. induction l as [|k l IH]; intros a Hf Ha Ht; [by apply elem_of_nil in Ha|].
  destruct Hf as (Hf & Hk & Hl). apply elem_of_cons in Ha as [Ha|Ha].
  - assert (Hb : to_key b ∈ l).
    { destruct Ht as [x y Hxy|x y z Hxy Hyz]; [by eapply Hl|]. by eapply (IH y); [done|eapply Hl|]. }
    split; [by constructor|]. rewrite Ha. intros Hkb. apply Hk. by rewrite Hkb.
  - destruct (IH a Hf Ha Ht) as [H1 H2]. split; [by constructor|done].
Qed.

Lemma finished_acyclic l a : finished l → to_key a ∈ l → ¬ tc leads_to a a.
Proof. intros Hf Ha Ht. by destruct (finished_leads l a a Hf Ha Ht) as [_ ?]. Qed.

(** * One visit *)
Abbreviation keys := (keyset PackageId).

(** The packages examined, less those on the path, are finished. *)
Definition settled (v c : keys) : Prop :=
  no_dev_edges → v ⊆ c ∧ ∃ l, finished l ∧ ∀ k, k ∈ l ↔ k ∈ c ∧ k ∉ v.

Definition on_path (v : keys) (id : PackageId) : Prop := ∀ a, to_key a ∈ v → tc builds_on a id.

Definition unchecked (c : keys) : nat := size (hdom summaries ∖ c).

Definition visited_ok (ids : list PackageId) (v c : keys)
    (m : option (cresult (hashset PackageId * hashset PackageId))) : Prop :=
  match m with
  | None => False
  | Some (Ok (visited, checked)) =>
      hdom visited = v ∧ c ⊆ hdom checked ∧ settled v (hdom checked) ∧
      (no_dev_edges → ∀ id, id ∈ ids → to_key id ∈ hdom checked ∧ to_key id ∉ v)
  | Some (Err _) => ∃ a, tc builds_on a a
  | Some (Panic _) => False
  end.

(** Every package that can be visited has a summary, and can be printed. *)
Context (Hwf : wf (graph r)).
Context (Hnodes : ∀ a, Graph.contains (graph r) a = true → is_Some (hget summaries a)).
Context (Hsum : ∀ a b, leads_to a b → is_Some (hget summaries b)).
Context (Hdisp : ∀ id, is_Some (hget summaries id) → ∃ t, PackageId.display id = Ok t).

Definition visit_one_ok (fuel : nat)
    (vis : PackageId → hashset PackageId → hashset PackageId → option (cresult (hashset PackageId * hashset PackageId))) : Prop :=
  ∀ id visited checked,
    is_Some (hget summaries id) → (unchecked (hdom checked) < fuel)%nat →
    settled (hdom visited) (hdom checked) → on_path (hdom visited) id →
    visited_ok [id] (hdom visited) (hdom checked) (vis id visited checked).

(** The loop over the dependencies of a package. *)
Definition deps_loop (vis : PackageId → hashset PackageId → hashset PackageId → option (cresult (hashset PackageId * hashset PackageId)))
    (summary : Summary) : list PackageId → hashset PackageId → hashset PackageId → option (cresult (hashset PackageId * hashset PackageId)) :=
  fix deps (l : list PackageId) (visited checked : hashset PackageId) :=
    match l with
    | [] => Some (Ok (visited, checked))
    | dep :: l =>
        let is_transitive := transitive_dep summary dep in
        let* (inner, checked) := vis dep (if is_transitive then visited else ∅) checked in
        let* (inner, checked) :=
          match replacement r dep with
          | Some id => vis id inner checked
          | None => Some (Ok (inner, checked))
          end in
        deps l (if is_transitive then inner else visited) checked
    end.

Lemma visit_S fuel id visited checked :
  visit (S fuel) r summaries id visited checked =
  if hcontains visited id then
    let* _ := cycle_error r id in Some (Ok (visited, checked))
  else
    let visited := hinsert id tt visited in
    let* (visited, checked) :=
      if hcontains checked id then Some (Ok (visited, checked))
      else
        let checked := hinsert id tt checked in
        match hget summaries id with
        | None => Some (Panic "no entry found for key")
        | Some summary => deps_loop (visit fuel r summaries) summary (deps_not_replaced r id) visited checked
        end in
    Some (Ok (hremove id visited, checked)).
Proof. reflexivity. Qed.

Lemma upward_contains l x : upward (graph r) l → x ∈ tail l → Graph.contains (graph r) x = true.
Proof.
  destruct l as [|y l]; simpl; [intros _ H; by apply elem_of_nil in H|].
  revert y. induction l as [|z l IH]; intros y Hu Hx; [by apply elem_of_nil in Hx|].
  destruct Hu as [[e He] Hu]. apply elem_of_cons in Hx as [->|Hx]; [|by eapply IH].
  unfold Graph.edge in He. apply hcontains_true. destruct (hget _ z) as [adj|]; [by exists adj|done].
Qed.

Lemma cycle_error_Err id : is_Some (hget summaries id) → ∃ e, cycle_error r id = Some (Err e).
Proof.
  intros Hid. unfold cycle_error. destruct (Hdisp id Hid) as [t Ht]. rewrite Ht. simpl.
  destruct (path_to_top_spec (graph r) id Hwf) as (ext & Hp & Hup & _). unfold Resolve.path_to_top. rewrite Hp. simpl.
  rewrite Ht. simpl.
  assert (Hext : ∀ x, x ∈ ext → ∃ t, PackageId.display x = Ok t).
  { intros x Hx. apply Hdisp, Hnodes. by eapply upward_contains. }
  match goal with |- context [foldM ?f ?b ext] => assert (Hf : ∃ x, foldM f b ext = Ok x) end.
  { match goal with |- ∃ x, foldM ?f ?b ext = Ok x =>
      destruct (foldM_ok f (λ _ l, ∀ x, x ∈ l → ∃ t, PackageId.display x = Ok t) ext b) as (x & Hx & _) end;
      [|done|by exists x].
    intros b x l Hl. destruct (Hl x) as [tx Htx]; [constructor|]. rewrite Htx. simpl. eexists. split; [done|].
    intros y Hy. apply Hl. by constructor. }
  destruct Hf as [x Hx]. rewrite Hx. simpl. eauto.
Qed.

(** One visit after another, with the same path. *)
Lemma visited_seq ids1 ids2 v c m f :
  visited_ok ids1 v c m →
  (∀ visited checked, hdom visited = v → c ⊆ hdom checked → settled v (hdom checked) →
     visited_ok ids2 v (hdom checked) (f (visited, checked))) →
  visited_ok (ids1 ++ ids2) v c (fbind m f).
Proof.
  intros Hm Hf. destruct m as [[[visited checked]|e|msg]|]; simpl in *; [|done..].
  destruct Hm as (Hv & Hc & Hs & Hids). specialize (Hf visited checked Hv Hc Hs).
  destruct (f (visited, checked)) as [[[visited' checked']|e|msg]|]; simpl in *; [|done..].
  destruct Hf as (Hv' & Hc' & Hs' & Hids'). split_and!; [done|set_solver|done|].
  intros Hnd id [Hin|Hin]%elem_of_app; [|by apply Hids'].
  destruct (Hids Hnd id Hin). split; [set_solver|done].
Qed.

Lemma calls_ok fuel vis dep inner checked :
  visit_one_ok fuel vis → (unchecked (hdom checked) < fuel)%nat → settled (hdom inner) (hdom checked) →
  (∀ b, b ∈ calls dep → is_Some (hget summaries b) ∧ on_path (hdom inner) b) →
  visited_ok (calls dep) (hdom inner) (hdom checked)
    (let* (inner, checked) := vis dep inner checked in
     match replacement r dep with
     | Some id => vis id inner checked
     | None => Some (Ok (inner, checked))
     end).
Proof.
  intros Hvis Hlt Hset Hcalls. unfold calls in *. destruct (Hcalls dep) as [Hs Hp]; [constructor|].
  apply (visited_seq [dep] (from_option _ _ _)); [by apply Hvis|].
  intros visited' checked' Hv Hc Hs'. destruct (replacement r dep) as [id|].
  - simpl. rewrite <-Hv. destruct (Hcalls id) as [Hsi Hpi]; [right; constructor|].
    apply Hvis; [done| |by rewrite Hv|by rewrite Hv].
    pose proof (size_left_mono (hdom summaries) _ _ Hc). unfold unchecked in *. lia.
  - simpl. split_and!; [done..|]. intros _ id Hid. by apply elem_of_nil in Hid.
Qed.

Lemma deps_loop_ok fuel vis id summary l visited checked :
  visit_one_ok fuel vis → hget summaries id = Some summary →
  (∀ d, d ∈ l → d ∈ deps_not_replaced r id) →
  (∀ b, builds_on id b → on_path (hdom visited) b) →
  (unchecked (hdom checked) < fuel)%nat → settled (hdom visited) (hdom checked) →
  visited_ok (l ≫= calls) (hdom visited) (hdom checked) (deps_loop vis summary l visited checked).
Proof.
  intros Hvis Hsm. revert visited checked.
  induction l as [|dep l IH]; intros visited checked Hl Hpath Hlt Hset.
  { simpl. split_and!; [done..|]. intros _ b Hb. by apply elem_of_nil in Hb. }
  cbn [deps_loop]. fold (deps_loop vis summary).
  set (inner := if transitive_dep summary dep then visited else ∅).
  assert (Hcalls : ∀ b, b ∈ calls dep → is_Some (hget summaries b) ∧ on_path (hdom inner) b).
  { intros b Hb. split; [apply (Hsum id); exists dep, b; split_and!; [apply Hl; constructor|done..]|].
    unfold inner. destruct (transitive_dep summary dep) eqn:Ht.
    - apply Hpath. exists summary, dep, b. split_and!; [done|apply Hl; constructor|done..].
    - intros a Ha. rewrite hdom_empty in Ha. set_solver. }
  assert (Hset' : settled (hdom inner) (hdom checked)).
  { intros Hnd. unfold inner. rewrite (Hnd id summary dep Hsm) by (apply Hl; constructor). by apply Hset. }
  pose proof (calls_ok fuel vis dep inner checked Hvis Hlt Hset' Hcalls) as Hc.
  match goal with |- visited_ok _ _ _ (fbind ?m ?k) =>
    assert (Hk : fbind m k = fbind (let* (inner, checked) := m in
       match replacement r dep with Some id => vis id inner checked | None => Some (Ok (inner, checked)) end)
      (λ '(inner, checked), deps_loop vis summary l (if transitive_dep summary dep then inner else visited) checked)) end.
  { destruct (vis dep inner checked) as [[[i1 c1]|?|?]|]; simpl; [|done..].
    by destruct (match replacement r dep with Some _ => _ | None => _ end) as [[[]|?|?]|]. }
  rewrite Hk. rewrite bind_cons.
  destruct (fbind (vis dep inner checked) _) as [[[inner' checked']|e|msg]|]; simpl in Hc |- *; [|done..].
  destruct Hc as (Hv & Hcc & Hs & Hids). set (next := if transitive_dep summary dep then inner' else visited).
  assert (Hnext : hdom next = hdom visited).
  { unfold next, inner in *. destruct (transitive_dep summary dep); [done|done]. }
  assert (Hset2 : settled (hdom next) (hdom checked')).
  { intros Hnd. rewrite Hnext. pose proof (Hs Hnd) as Hs'. unfold inner in Hs'.
    by rewrite (Hnd id summary dep Hsm) in Hs' by (apply Hl; constructor). }
  assert (Hlt2 : (unchecked (hdom checked') < fuel)%nat).
  { pose proof (size_left_mono (hdom summaries) _ _ Hcc). unfold unchecked in *. lia. }
  specialize (IH next checked' (λ d Hd, Hl d (list_elem_of_further _ _ _ Hd))).
  rewrite Hnext in IH. rewrite Hnext in Hset2. specialize (IH Hpath Hlt2 Hset2).
  change (visited_ok (calls dep ++ (l ≫= calls)) (hdom visited) (hdom checked) (deps_loop vis summary l next checked')).
  clear Hk Hcalls. revert Hids IH. generalize (calls dep) (l ≫= calls). intros ids ids' Hids IH.
  destruct (deps_loop vis summary l next checked') as [[[v2 c2]|e|msg]|]; simpl in *; [|done..].
  destruct IH as (Hv2 & Hc2 & Hs2 & Hids2). split_and!; [done|set_solver|done|].
  intros Hnd b [Hb|Hb]%elem_of_app; [|by apply Hids2]. destruct (Hids Hnd b Hb) as [H1 H2].
  split; [set_solver|]. intros Hin. apply H2. unfold inner.
  by rewrite (Hnd id summary dep Hsm) by (apply Hl; constructor).
Qed.

(** Marking a package opens it; closing it finishes it. *)
Lemma settled_open k v c : k ∉ v → k ∉ c → settled v c → settled ({[k]} ∪ v) ({[k]} ∪ c).
Proof.
  intros Hv Hc Hs Hnd. destruct (Hs Hnd) as (Hsub & l & Hl & Hin). split; [set_solver|].
  exists l. split; [done|]. intros k'. rewrite Hin. destruct (decide (k' = k)) as [->|]; set_solver.
Qed.

Lemma settled_close id v c :
  to_key id ∉ v → to_key id ∈ c → settled ({[to_key id]} ∪ v) c →
  (no_dev_edges → ∀ b, leads_to id b → to_key b ∈ c ∧ to_key b ∉ {[to_key id]} ∪ v) → settled v c.
Proof.
  intros Hv Hc Hs Hb Hnd. destruct (Hs Hnd) as (Hsub & l & Hl & Hin). split; [set_solver|].
  exists (to_key id :: l). split.
  - split_and!; [done|rewrite Hin; set_solver|]. intros a b Ha (dep & b' & H1 & H2 & H3).
    apply Hin. apply (Hb Hnd). exists dep, b'. by rewrite <-(deps_not_replaced_key _ _ Ha).
  - intros k. rewrite elem_of_cons, Hin. destruct (decide (k = to_key id)) as [->|]; set_solver.
Qed.

Lemma visit_ok fuel : visit_one_ok fuel (visit fuel r summaries).
Proof.
  induction fuel as [|fuel IH]; intros id visited checked Hsome Hlt Hset Hpath; [lia|].
  rewrite visit_S, !hcontains_hdom. case_bool_decide as Hv.
  { destruct (cycle_error_Err id Hsome) as [e ->]. simpl. exists id. by apply Hpath. }
  cbn zeta.
  assert (Hrest : ∀ v' : hashset PackageId, hdom v' = {[to_key id]} ∪ hdom visited → hdom (hremove id v') = hdom visited).
  { intros v' Hv'. rewrite hdom_hremove, Hv'. set_solver. }
  case_bool_decide as Hc.
  { simpl. split_and!; [apply Hrest, hdom_hinsert|done|done|]. by intros _ x ->%list_elem_of_singleton. }
  destruct Hsome as [summary Hsm]. rewrite Hsm.
  assert (Hk : to_key id ∈ hdom summaries) by (apply hget_hdom; by exists summary).
  pose proof (deps_loop_ok fuel (visit fuel r summaries) id summary (deps_not_replaced r id)
    (hinsert id tt visited) (hinsert id tt checked) IH Hsm (λ _ H, H)) as Hloop.
  rewrite !hdom_hinsert in Hloop.
  assert (H1 : ∀ b, builds_on id b → on_path ({[to_key id]} ∪ hdom visited) b).
  { intros b Hb a [Ha%elem_of_singleton|Ha]%elem_of_union.
    - apply tc_once. by eapply builds_on_key; [symmetry; exact Ha| |exact Hb].
    - eapply tc_r; [by apply Hpath|exact Hb]. }
  assert (H2 : (unchecked ({[to_key id]} ∪ hdom checked) < fuel)%nat).
  { pose proof (size_left_mark _ _ _ Hk Hc). unfold unchecked in *. lia. }
  specialize (Hloop H1 H2 (settled_open _ _ _ Hv Hc Hset)).
  destruct (deps_loop _ _ _ _ _) as [[[v' c']|e|msg]|]; simpl in Hloop |- *; [|done..].
  destruct Hloop as (Hv' & Hc' & Hs' & Hids). split_and!; [by apply Hrest|set_solver| |].
  - apply (settled_close id); [done|set_solver|done|]. intros Hnd b (dep & b' & Hd & Hb & Hkb).
    rewrite <-Hkb. apply (Hids Hnd). apply list_elem_of_bind. by exists dep.
  - intros _ x ->%list_elem_of_singleton. split; [set_solver|done].
Qed.

Lemma check_all_ok fuel pkgs checked :
  (size (hdom summaries) < fuel)%nat →
  (∀ p, p ∈ pkgs → is_Some (hget summaries p)) → settled ∅ (hdom checked) →
  match check_all fuel r summaries pkgs checked with
  | None => False
  | Some (Ok _) => no_dev_edges → ∃ l, finished l ∧ (∀ k, k ∈ hdom checked → k ∈ l) ∧ ∀ p, p ∈ pkgs → to_key p ∈ l
  | Some (Err _) => ∃ a, tc builds_on a a
  | Some (Panic _) => False
  end.
Proof.
  intros Hfuel. revert checked. induction pkgs as [|p pkgs IH]; intros checked Hs Hset; simpl.
  { intros Hnd. destruct (Hset Hnd) as (_ & l & Hl & Hin). exists l. split_and!; [done| |].
    - intros k Hk. apply Hin. set_solver.
    - intros p Hp. by apply elem_of_nil in Hp. }
  assert (Hs' : ∀ x, x ∈ pkgs → is_Some (hget summaries x)) by (intros x Hx; apply Hs; by constructor).
  rewrite hcontains_hdom. case_bool_decide as Hc.
  - specialize (IH checked Hs' Hset). destruct (check_all _ _ _ pkgs checked) as [[u|e|m]|]; [|done..].
    intros Hnd. destruct (IH Hnd) as (l & Hl & H1 & H2). exists l. split_and!; [done..|].
    intros x [->|Hx]%elem_of_cons; [by apply H1|by apply H2].
  - assert (Hp : is_Some (hget summaries p)) by (apply Hs; constructor).
    assert (Hlt : (unchecked (hdom checked) < fuel)%nat).
    { eapply Nat.le_lt_trans; [|exact Hfuel]. unfold unchecked. apply subseteq_size. set_solver. }
    match goal with |- context [visit fuel r summaries p ?e checked] =>
      pose proof (visit_ok fuel p e checked Hp Hlt) as Hv;
      assert (He : hdom e = ∅) by apply (hdom_empty (V:=unit)); rewrite He in Hv end.
    specialize (Hv Hset ltac:(intros a Ha; set_solver)).
    destruct (visit fuel r summaries p _ checked) as [[[v c]|e|m]|]; simpl in *; [|done..].
    destruct Hv as (_ & Hsub & Hset' & Hids). specialize (IH c Hs' Hset').
    destruct (check_all fuel r summaries pkgs c) as [[u|e|m]|]; [|done..].
    intros Hnd. destruct (IH Hnd) as (l & Hl & H1 & H2). exists l. split_and!; [done|by intros k Hk; apply H1, Hsub|].
    intros x [->|Hx]%elem_of_cons; [|by apply H2]. apply H1, (Hids Hnd). constructor.
Qed.
End cycles.
Section check.
Context `{SV : SemverLib} `{UL : UrlLib} `{RS : RustStd}.

(** C19. [check_cycles] always returns, within its bound on the depth.  An error
    is only reported when some package is needed to build itself; and when no
    edge is for development only, every package that leads to itself is found.
    It panics on no graph whose packages all have a summary. *)
Theorem check_cycles_spec (r : Resolve) (a : hashmap (string * SourceId) (list Summary))
    (Hwf : wf (graph r))
    (Hnodes : ∀ p, Resolve.contains r p = true → is_Some (hget (summaries_of a) p))
    (Hsum : ∀ p q, leads_to r p q → is_Some (hget (summaries_of a) q))
    (Hdisp : ∀ id, is_Some (hget (summaries_of a) id) → ∃ t, PackageId.display id = Ok t) :
  match check_cycles r a with
  | Some (Ok _) => no_dev_edges r (summaries_of a) → ∀ p, ¬ tc (leads_to r) p p
  | Some (Err _) => ∃ p, tc (builds_on r (summaries_of a)) p p
  | Some (Panic _) | None => False
  end.
Proof.
  unfold check_cycles. set (s := summaries_of a) in *.
  match goal with |- context [check_all ?f r s ?l ?e] =>
    pose proof (check_all_ok r s Hwf Hnodes Hsum Hdisp f l e) as H end.
  assert (Hlt : (size (hdom s) < 2 + size s)%nat) by (unfold hdom; rewrite size_dom; lia).
  specialize (H Hlt). assert (He : hdom (∅ : hashset PackageId) = ∅) by apply (hdom_empty (V:=unit)).
  specialize (H ltac:(intros p Hp; rewrite sort_unstable_perm in Hp; apply Hnodes; by apply elem_of_iter)).
  destruct (check_all _ _ _ _ _) as [[u|e|m]|].
  - intros Hnd p Hp. destruct H as (l & Hl & _ & Hin); [|done|].
    { intros _. split; [rewrite He; set_solver|]. exists []. split; [done|]. intros k. rewrite He. set_solver. }
    apply (finished_acyclic r l p Hl); [|done].
    assert (Hq : ∃ q, leads_to r p q) by (inversion Hp; eauto). destruct Hq as (q & dep & b & Hd & _).
    unfold deps_not_replaced, Graph.edges in Hd.
    destruct (hget (nodes (graph r)) p) as [adj|] eqn:Hg; [|by apply elem_of_nil in Hd].
    destruct (hget_elem_of_hkeys _ _ _ (proj1 Hwf) Hg) as (p' & Hp' & Hk). rewrite <-Hk. apply Hin.
    by rewrite sort_unstable_perm.
  - apply H. intros _. split; [rewrite He; set_solver|]. exists []. split; [done|]. intros k. rewrite He. set_solver.
  - apply H. intros _. split; [rewrite He; set_solver|]. exists []. split; [done|]. intros k. rewrite He. set_solver.
  - apply H. intros _. split; [rewrite He; set_solver|]. exists []. split; [done|]. intros k. rewrite He. set_solver.
Qed.
End check.

(** * Concrete runs *)
Section runs.
Local Open Scope string_scope.
Local Existing Instance sem_lib.
Local Existing Instance hier_lib.
Local Existing Instance std_order.

Definition v1 : Version := (1, 0, 0).
Definition dev_dep (name : string) (v : Version) : Dependency := set_kind (dep name v) Development.

(** [root] needs [mid], which needs [root]; for its tests [root] also needs
    [dev], which needs [mid]. *)
Definition cyclic_root (dev : string) : Summary :=
  sum "a" v1 [dep "mid" v1; dev_dep dev v1] None.
Definition cyclic_packages (dev : string) : list Summary :=
  [cyclic_root dev; sum "mid" v1 [dep "a" v1] None; sum dev v1 [dep "mid" v1] None].
Definition cyclic_run (dev : string) : option (cresult (Resolve * list string)) :=
  resolve (RG:=listed (cyclic_packages dev)) false 20 [(cyclic_root dev, Everything)] [] ∅ false.

(** The edges between two packages in both directions. *)
Definition both_edges (o : option (cresult (Resolve * list string))) (a b : PackageId)
    : option (list Dependency * list Dependency) :=
  match o with
  | Some (Ok (r, _)) => Some (edge_deps (graph r) a b, edge_deps (graph r) b a)
  | _ => None
  end.

(** With a development dependency in the way, a cycle can be missed: here
    [resolve] succeeds although [a] and [mid] are ordinary dependencies of each
    other.  The visit that starts at the development dependency forgets the
    path but not what was examined, so [mid] counts as examined when it is
    reached from [a]. *)
Theorem check_cycles_misses_cycle :
  ∃ r ws, cyclic_run "k" = Some (Ok (r, ws)) ∧
    edge_deps (graph r) (pkg "a" v1) (pkg "mid" v1) = [dep "mid" v1] ∧
    edge_deps (graph r) (pkg "mid" v1) (pkg "a" v1) = [dep "a" v1] ∧
    is_transitive (dep "mid" v1) = true ∧ is_transitive (dep "a" v1) = true.
Proof.
  assert (Hrun : both_edges (cyclic_run "k") (pkg "a" v1) (pkg "mid" v1) = Some ([dep "mid" v1], [dep "a" v1])) by vm_eq.
  destruct (cyclic_run "k") as [[[r ws]|e|m]|]; [|discriminate Hrun..].
  exists r, ws. simpl in Hrun.
  assert (H1 : edge_deps (graph r) (pkg "a" v1) (pkg "mid" v1) = [dep "mid" v1]) by congruence.
  assert (H2 : edge_deps (graph r) (pkg "mid" v1) (pkg "a" v1) = [dep "a" v1]) by congruence.
  split; [reflexivity|]. split; [exact H1|]. split; [exact H2|]. split; reflexivity.
Qed.

(** What [check_cycles] is given when the development dependency has another
    name, and the packages it can be asked about. *)
Definition cyclic_context (dev : string) : Context :=
  match activate_deps_loop (RG:=listed (cyclic_packages dev)) false 20 context_new (queryer_new [] ∅ false)
          [(cyclic_root dev, Everything)] with
  | Some (Ok cx) => cx
  | _ => context_new
  end.
Definition all_summaries (r : Resolve) (s : hashmap PackageId Summary) : bool :=
  forallb (λ n, hcontains s n && forallb (λ d, forallb (hcontains s) (calls r d)) (deps_not_replaced r n))
          (Resolve.iter r) &&
  forallb (λ k : hkey PackageId, bool_decide (k.2.1 = SourceId.Registry)) (elements (hdom s)).

Lemma all_summaries_ok r s :
  wf (graph r) → all_summaries r s = true →
  (∀ p, Resolve.contains r p = true → is_Some (hget s p)) ∧
  (∀ p q, leads_to r p q → is_Some (hget s q)) ∧
  (∀ id, is_Some (hget s id) → ∃ t, PackageId.display id = Ok t).
Proof.
  intros Hwf [Ha Hk]%andb_true_iff. rewrite forallb_forall in Ha, Hk.
  assert (Hin : ∀ p adj, hget (nodes (graph r)) p = Some adj → ∃ n, n ∈ Resolve.iter r ∧ to_key n = to_key p).
  { intros p adj. apply hget_elem_of_hkeys, Hwf. }
  split_and!.
  - intros p Hp. unfold Resolve.contains, Graph.contains in Hp. apply hcontains_true in Hp as [adj Hp].
    destruct (Hin p adj Hp) as (n & Hn & Hkn). rewrite <-(hget_key _ _ _ Hkn).
    apply list_elem_of_In, Ha, andb_true_iff in Hn as [Hn _]. by apply hcontains_true in Hn as [v ->].
  - intros p q (dep & b & Hd & Hb & Hkb). rewrite <-(hget_key _ _ _ Hkb).
    assert (Hp : ∃ adj, hget (nodes (graph r)) p = Some adj).
    { unfold deps_not_replaced, Graph.edges in Hd. destruct (hget _ p) as [adj|]; [by exists adj|by apply elem_of_nil in Hd]. }
    destruct Hp as [adj Hp]. destruct (Hin p adj Hp) as (n & Hn & Hkn).
    rewrite <-(deps_not_replaced_key _ _ _ Hkn) in Hd.
    apply list_elem_of_In, Ha, andb_true_iff in Hn as [_ Hn]. rewrite forallb_forall in Hn.
    apply list_elem_of_In, Hn in Hd. rewrite forallb_forall in Hd. apply list_elem_of_In, Hd in Hb.
    by apply hcontains_true in Hb as [v ->].
  - intros id Hid%hget_hdom%elem_of_elements%list_elem_of_In%Hk. apply bool_decide_eq_true in Hid.
    change (sid_kind (pid_source_id id) = SourceId.Registry) in Hid.
    unfold PackageId.display. destruct (is_default_registry _); simpl; [by eexists|].
    unfold SourceId.display. rewrite Hid. by eexists.
Qed.

(** The same cycle is found when [mid] is reached from [a] first. *)
Lemma check_cycles_spec_witness :
  let r := resolve_of (cyclic_context "z") in
  let s := summaries_of (activations (cyclic_context "z")) in
  (match check_cycles r (activations (cyclic_context "z")) with Some (Err _) => true | _ => false end) = true ∧
  ∃ p, tc (builds_on r s) p p.
Proof.
  intros r s.
  assert (Hwf : wf (graph r)) by (exact (wf_graph_of (cyclic_context "z"))).
  assert (Hall : all_summaries r s = true) by vm_eq.
  destruct (all_summaries_ok r s Hwf Hall) as (H1 & H2 & H3).
  assert (Hrun : (match check_cycles r (activations (cyclic_context "z")) with Some (Err _) => true | _ => false end) = true) by vm_eq.
  split; [exact Hrun|].
  pose proof (check_cycles_spec r (activations (cyclic_context "z")) Hwf H1 H2 H3) as H.
  revert H Hrun. generalize (check_cycles r (activations (cyclic_context "z"))).
  intros [[u|e|m]|] H Hrun; [discriminate Hrun|exact H|destruct H|destruct H].
Defined.
End runs.
