(* ===== verification/ResTermination.v ===== *)
(** The resolver returns: on a finite registry the search of [Resolver] ends,
    whatever it finds. *)
From S2P Require Import Prelude Str Extern SourceId PackageId Graph Dependency Summary ResTypes ResContext ResFeatures ResErrors Resolve Encode Resolver ResInvariant ResFacts ResCorrect ResCycles.

Local Open Scope string_scope.

(** * Counting *)
Section counting.
Context {A : Type}.
Implicit Types (p q : A → bool).
Definition count p (l : list A) : nat := length (filter (λ x, p x = true) l).

Lemma count_cons p x l : count p (x :: l) = ((if p x then 1 else 0) + count p l)%nat.
Proof. unfold count. rewrite filter_cons. destruct (p x); [by rewrite decide_True|by rewrite decide_False]. Qed.

Lemma count_mono p q l : (∀ x, q x = true → p x = true) → (count q l ≤ count p l)%nat.
Proof.
  intros H. induction l as [|x l IH]; [done|]. rewrite !count_cons. specialize (H x).
  destruct (q x); [rewrite H by done|destruct (p x)]; lia.
Qed.

Lemma count_lt p q l x :
  (∀ y, q y = true → p y = true) → x ∈ l → p x = true → q x = false → (count q l < count p l)%nat.
Proof.
  intros H Hx Hp Hq. induction l as [|y l IH]; [by apply elem_of_nil in Hx|].
  rewrite !count_cons. apply elem_of_cons in Hx as [<-|Hx]; [|specialize (IH Hx)].
  - rewrite Hp, Hq. pose proof (count_mono p q l H). lia.
  - specialize (H y). destruct (q y); [rewrite H by done|destruct (p y)]; lia.
Qed.
End counting.

Section termination.
Context `{SV : SemverLib} `{UL : UrlLib} `{RS : RustStd} `{RG : !Registry}.

(** * The bounded recursions around the search *)
Lemma path_text_some cx p : ∃ t, path_text cx p = Some t.
Proof.
  unfold path_text. destruct (path_to_top_spec (graph_of cx) p (wf_graph_of cx)) as (ext & -> & _). by eexists.
Qed.

Lemma fbind_some {A B} (m : option (cresult A)) (f : A → option (cresult B)) :
  (∃ x, m = Some x) → (∀ a, ∃ y, f a = Some y) → ∃ y, fbind m f = Some y.
Proof. intros [[a|e|msg] ->] Hf; simpl; [apply Hf|by eexists..]. Qed.

Lemma append_all_some {A} (f : A → option (cresult string)) l msg :
  (∀ x, ∃ t, f x = Some t) → ∃ t, append_all f l msg = Some t.
Proof.
  intros Hf. revert msg. induction l as [|x l IH]; intros msg; simpl; [by eexists|].
  apply fbind_some; [apply Hf|intros t; apply IH].
Qed.

Lemma activation_error_some cx parent dep con cands offline :
  ∃ e, activation_error cx parent dep con cands offline = Some e.
Proof.
  unfold activation_error. destruct cands as [|c cands].
  - destruct (req_parse "*") as [r|e|m]; [|by eexists..].
    destruct (registry_query _ false) as [found|e|m]; [|by eexists..].
    match goal with |- ∃ e, match ?m with _ => _ end = _ => assert (Hm : ∃ t, m = Some t) end.
    { destruct (sort_unstable_by _ found).
      - destruct (registry_query _ true) as [sim|e|m]; [|by eexists..].
        apply fbind_some; [by eexists|]. intros names. unfold unknown_message.
        apply fbind_some; [apply path_text_some|]. intros path.
        apply fbind_some; [by eexists|]. intros src. by eexists.
      - unfold mismatch_message. apply fbind_some; [apply path_text_some|]. intros path. by eexists. }
    destruct Hm as [[t|e|m] ->]; by eexists.
  - unfold conflict_message. apply fbind_some; [apply path_text_some|]. intros path.
    apply fbind_some; [apply append_all_some; intros x; apply fbind_some; [apply path_text_some|by eexists]|]. intros m1.
    apply fbind_some; [apply append_all_some; intros x; by eexists|]. intros m2.
    apply fbind_some; [apply append_all_some; intros x; apply fbind_some; [apply path_text_some|by eexists]|].
    intros m3. by eexists.
Qed.

(** ** [check_cycles] *)
Definition visit_total (r : Resolve) (summaries : hashmap PackageId Summary) (c : keyset PackageId)
    (m : option (cresult (hashset PackageId * hashset PackageId))) : Prop :=
  match m with
  | None => False
  | Some (Ok (_, checked)) => c ⊆ hdom checked
  | _ => True
  end.

Lemma cycle_error_some r id : wf (graph r) → ∃ e, cycle_error r id = Some e.
Proof.
  intros Hwf. unfold cycle_error. apply fbind_some; [by eexists|]. intros name. apply fbind_some.
  - unfold Resolve.path_to_top. destruct (path_to_top_spec (graph r) id Hwf) as (ext & -> & _). by eexists.
  - intros path. by eexists.
Qed.

Lemma deps_loop_total r summaries fuel vis s l visited checked :
  (∀ id v c, (unchecked summaries (hdom c) < fuel)%nat → visit_total r summaries (hdom c) (vis id v c)) →
  (unchecked summaries (hdom checked) < fuel)%nat →
  visit_total r summaries (hdom checked) (deps_loop r vis s l visited checked).
Proof.
  intros Hvis. revert visited checked. induction l as [|dep l IH]; intros visited checked Hlt; simpl; [done|].
  assert (Hless : ∀ c c' : hashset PackageId, hdom c ⊆ hdom c' → (unchecked summaries (hdom c) < fuel)%nat →
    (unchecked summaries (hdom c') < fuel)%nat).
  { intros c c' Hc Hc'. pose proof (size_left_mono (hdom summaries) _ _ Hc). unfold unchecked in *. lia. }
  match goal with |- context [vis dep ?v checked] => pose proof (Hvis dep v checked Hlt) as H1; destruct (vis dep v checked) as [[[v1 c1]|e|m]|] end;
    [|done..].
  simpl in *. pose proof (Hless _ _ H1 Hlt) as Hlt1.
  assert (H2 : visit_total r summaries (hdom c1) (match replacement r dep with
    | Some id => vis id v1 c1 | None => Some (Ok (v1, c1)) end)).
  { destruct (replacement r dep); [by apply Hvis|by simpl]. }
  destruct (match replacement r dep with Some id => vis id v1 c1 | None => Some (Ok (v1, c1)) end) as [[[v2 c2]|e|m]|]; [|done..].
  simpl in *. pose proof (Hless _ _ H2 Hlt1) as Hlt2. specialize (IH (if transitive_dep s dep then v2 else visited) c2 Hlt2).
  destruct (deps_loop _ _ _ _ _ _) as [[[v3 c3]|e|m]|]; simpl in *; [set_solver|done..].
Qed.

Lemma visit_returns r summaries fuel id visited checked :
  wf (graph r) → (unchecked summaries (hdom checked) < fuel)%nat →
  visit_total r summaries (hdom checked) (visit fuel r summaries id visited checked).
Proof.
  intros Hwf. revert id visited checked. induction fuel as [|fuel IH]; intros id visited checked Hlt; [lia|].
  rewrite visit_S. destruct (hcontains visited id).
  { destruct (cycle_error_some r id Hwf) as [[u|e|m] ->]; by simpl. }
  cbv zeta. destruct (hcontains checked id) eqn:Hc; [simpl; done|].
  destruct (hget summaries id) as [s|] eqn:Hs; [|done].
  rewrite hcontains_hdom in Hc. apply bool_decide_eq_false in Hc.
  assert (Hk : to_key id ∈ hdom summaries) by (apply hget_hdom; by rewrite Hs).
  assert (Hlt' : (unchecked summaries (hdom (hinsert id tt checked)) < fuel)%nat).
  { rewrite hdom_hinsert. pose proof (size_left_mark _ _ _ Hk Hc). unfold unchecked in *. lia. }
  pose proof (deps_loop_total r summaries fuel (visit fuel r summaries) s (deps_not_replaced r id) (hinsert id tt visited)
    (hinsert id tt checked) IH Hlt') as H.
  destruct (deps_loop _ _ _ _ _ _) as [[[v c]|e|m]|]; simpl in *; [|done..].
  rewrite hdom_hinsert in H. set_solver.
Qed.

Lemma check_cycles_returns r a : wf (graph r) → ∃ res, check_cycles r a = Some res.
Proof.
  intros Hwf. unfold check_cycles. set (s := summaries_of a). generalize (∅ : hashset PackageId).
  assert (Hlt : ∀ c : hashset PackageId, (unchecked s (hdom c) < 2 + size s)%nat).
  { intros c. assert (H : (unchecked s (hdom c) ≤ size (hdom s))%nat) by (apply subseteq_size; set_solver).
    unfold hdom in H at 2. rewrite size_dom in H. lia. }
  revert Hlt. generalize (2 + size s). intros fuel Hlt.
  induction (sort_unstable_by package_id_cmp (iter r)) as [|p l IH]; intros c; simpl; [by eexists|].
  destruct (hcontains c p); [apply IH|].
  match goal with |- context [visit fuel r s p ?e c] =>
    pose proof (visit_returns r s fuel p e c Hwf (Hlt c)) as Hv; destruct (visit fuel r s p e c) as [[[v c']|e'|m]|] end;
    simpl in *; [apply IH|by eexists..|done].
Qed.

(** * What activation records *)

(** A summary whose features and dependencies do not share names, and with no
    nameless feature: what [Summary::new] makes of a manifest that does not use
    the unstable [namespaced-features]. *)
Record plain (s : Summary) : Prop := {
  pl_separate : separate s;
  pl_namespaced : sum_namespaced_features s = false;
  pl_names : ∀ d, d ∈ sum_dependencies s → is_key (sum_features s) (name_in_toml d) = false;
  pl_nameless : is_key (sum_features s) EmptyString = false;
}.
Definition no_slash (f : string) : Prop := contains_char "/" f = false.

Lemma feature_value_plain f s :
  plain s → feature_value_new f s =
    match split_once "/" f with
    | (a, Some b) => CrateFeature a b
    | (_, None) => if is_key (sum_features s) f then Feature f else Crate f
    end.
Proof.
  intros Hp. unfold feature_value_new. rewrite (pl_namespaced _ Hp). unfold Summary.build, is_key.
  destruct (split_once "/" f) as [a [b|]]; [done|]. by destruct (bool_decide _).
Qed.

Lemma build_requirements_plain s m :
  plain s → ∃ res, build_requirements s m = Some res ∧
    ∀ r, res = Ok r → post_all s (ResFeatures.roots s m) reqs_new (Some (Ok r)).
Proof.
  intros [H1 H2 H3 _]. pose proof (build_requirements_post s H1 H2 H3 m) as Hp.
  destruct (build_requirements s m) as [[r|e|msg]|]; [|by eexists|done..]. exists (Ok r). split; [done|]. by intros r' [= <-].
Qed.

(** What was asked for is used. *)
Lemma requested_used s dev fs def r f :
  plain s → build_requirements s (Required dev fs false def) = Some (Ok r) →
  (f ∈ fs ∧ no_slash f) ∨ (f = "default" ∧ def = true ∧ is_key (sum_features s) f = true) → f ∈ reqs_used r.
Proof.
  intros Hp Hb Hf. destruct (build_requirements_plain s (Required dev fs false def) Hp) as (res & Hb' & Hpost).
  rewrite Hb in Hb'. injection Hb' as <-. destruct (Hpost r eq_refl) as (_ & (Hv & Hu & Ht & _) & _ & Hs & _).
  assert (Hroot : (if is_key (sum_features s) f then Feature f else Crate f) ∈ ResFeatures.roots s (Required dev fs false def)).
  { cbn [ResFeatures.roots]. apply elem_of_app. destruct Hf as [[Hin Hn]|(-> & -> & Hk)].
    - left. apply list_elem_of_fmap. exists f. split; [|done]. rewrite (feature_value_plain _ _ Hp).
      by rewrite (split_once_none _ _ Hn).
    - right. rewrite Hk. unfold default_roots. rewrite Hk. constructor. }
  specialize (Hs _ Hroot). apply Hu. left. destruct (is_key (sum_features s) f) eqn:Hk.
  - destruct Hs as [[= ->]|[Hs _]]; [|done]. by rewrite (pl_nameless _ Hp) in Hk.
  - destruct Hs as [?|[l Hl]]; [done|]. by apply (Ht f l).
Qed.

(** The features that dependencies can be asked for. *)
Definition crate_feature (v : FeatureValue) : option string := match v with CrateFeature _ g => Some g | _ => None end.
Definition feature_names (s : Summary) : list string :=
  (sum_dependencies s ≫= dep_features) ++ (map_to_list (sum_features s) ≫= λ kv, omap crate_feature kv.2).
Definition requested_names (m : Method) : list string :=
  match m with Required _ fs _ _ => omap (λ f, (split_once "/" f).2) fs | Everything => [] end.

Lemma crate_features_named s m r c b l g :
  plain s → build_requirements s m = Some (Ok r) → hget (reqs_deps r) c = Some (b, l) → g ∈ l →
  g ∈ feature_names s ∨ g ∈ requested_names m.
Proof.
  intros Hp Hb Hc Hg. destruct (build_requirements_plain s m Hp) as (res & Hb' & Hpost).
  rewrite Hb in Hb'. injection Hb' as <-. destruct (Hpost r eq_refl) as (_ & _ & _ & _ & Hh).
  destruct (Hh (CrateFeature c g)) as [Hh'|(root & Hr & Hreach)]; [by exists b, l|by apply has_new in Hh'|].
  assert (Hlast : root = CrateFeature c g ∨ ∃ f vs, sum_features s !! f = Some vs ∧ CrateFeature c g ∈ vs).
  { inversion Hreach as [|f vs v Hr' Hf Hvs Hv]; subst; [by left|right; by exists f, vs]. }
  destruct Hlast as [->|(f & vs & Hvs & Hin)].
  - right. destruct m as [|dev fs all def]; cbn [ResFeatures.roots requested_names] in *.
    + unfold everything_roots, default_roots in Hr. rewrite !elem_of_app, !list_elem_of_fmap in Hr.
      destruct Hr as [[(? & ? & _)|(? & ? & _)]|Hr]; [done..|]. destruct (is_key _ _); [by apply list_elem_of_singleton in Hr|by apply elem_of_nil in Hr].
    + apply elem_of_app in Hr as [Hr|Hr].
      2: { destruct def; [|by apply elem_of_nil in Hr]. unfold default_roots in Hr.
           destruct (is_key _ _); [by apply list_elem_of_singleton in Hr|by apply elem_of_nil in Hr]. }
      destruct all.
      * unfold everything_roots in Hr. rewrite !elem_of_app, !list_elem_of_fmap in Hr. by destruct Hr as [(? & ? & _)|(? & ? & _)].
      * apply list_elem_of_fmap in Hr as (f & Hf & Hin). rewrite (feature_value_plain _ _ Hp) in Hf.
        destruct (split_once "/" f) as [a [b'|]] eqn:Hs; [|by destruct (is_key _ _)]. injection Hf as -> ->.
        apply list_elem_of_omap. exists f. by rewrite Hs.
  - left. unfold feature_names. apply elem_of_app. right. apply list_elem_of_bind. exists (f, vs). split.
    + simpl. apply list_elem_of_omap. by exists (CrateFeature c g).
    + by apply elem_of_map_to_list.
Qed.

Lemma collect_deps_features s reqs deps ret used cx r cx' :
  collect_deps s reqs deps ret used cx = (r, cx') → resolve_features cx' = resolve_features cx.
Proof.
  revert ret used cx. induction deps as [|d deps IH]; intros ret used cx; simpl; [by intros [= _ <-]|].
  destruct (optional d && negb _); [apply IH|].
  set (base := default _ _). set (w := if _ && base.1 then _ else Ok cx).
  assert (Hw : ∀ cx1, w = Ok cx1 → resolve_features cx1 = resolve_features cx).
  { intros cx1. unfold w. destruct (_ && base.1); [|by intros [= <-]].
    destruct (PackageId.display _); [|done..]. by intros [= <-]. }
  destruct w as [cx1|e|m]; [|by intros [= _ <-]..].
  rewrite <-(Hw cx1 eq_refl). destruct (List.find _ _); [by intros [= _ <-]|apply IH].
Qed.

(** The features that go with each dependency that is kept. *)
Lemma collect_deps_names s reqs deps ret used cx out used' cx' x :
  collect_deps s reqs deps ret used cx = (Ok (out, used'), cx') → x ∈ out →
  x ∈ ret ∨ (x.1 ∈ deps ∧ ∀ f, f ∈ x.2 → no_slash f ∧
    (f ∈ dep_features x.1 ∨ ∃ c b l, hget (reqs_deps reqs) c = Some (b, l) ∧ f ∈ l)).
Proof.
  revert ret used cx. induction deps as [|d deps IH]; intros ret used cx; simpl.
  { intros [= <- _ _]. by left. }
  destruct (optional d && negb _).
  { intros H Hx. destruct (IH _ _ _ H Hx) as [|[H1 H2]]; [by left|right; split; [by constructor|done]]. }
  set (base := default _ _). destruct (if _ && base.1 then _ else Ok cx) as [cx1|e|m]; [|done..].
  destruct (List.find _ _) eqn:Hfind; [done|]. intros H Hx.
  destruct (IH _ _ _ H Hx) as [Hr|[H1 H2]]; [|right; split; [by constructor|done]].
  apply elem_of_app in Hr as [Hr|Hr%list_elem_of_singleton]; [by left|right].
  subst x. split; [constructor|]. cbn [fst snd].
  intros f Hf. split.
  { apply list_elem_of_In in Hf. by apply (find_none _ _ Hfind). }
  apply elem_of_app in Hf as [Hf|Hf]; [right|by left].
  exists (name_in_toml d). unfold base in Hf. destruct (hget (reqs_deps reqs) (name_in_toml d)) as [[b l]|]; [by exists b, l|].
  by apply elem_of_nil in Hf.
Qed.

(** The features recorded for a package. *)
Definition feats (cx : Context) (s : Summary) : gset string := default ∅ (hget (resolve_features cx) (sum_package_id s)).

Lemma resolve_features_of_recorded cx parent s m r cx' :
  plain s → resolve_features_of cx parent s m = Some (r, cx') →
  (∀ s', feats cx s' ⊆ feats cx' s') ∧
  ∀ out, r = Ok out →
    (∀ f, (∃ dev fs def, m = Required dev fs false def ∧
           ((f ∈ fs ∧ no_slash f) ∨ (f = "default" ∧ def = true ∧ is_key (sum_features s) f = true))) → f ∈ feats cx' s) ∧
    ∀ x, x ∈ out → ∀ f, f ∈ x.2 → no_slash f ∧ (f ∈ feature_names s ∨ f ∈ requested_names m).
Proof.
  intros Hp. unfold resolve_features_of. destruct (build_requirements s m) as [[reqs|e|msg]|] eqn:Hb; [| | |done].
  2,3: intros [= <- <-]; by split.
  destruct (collect_deps _ _ _ _ _ _) as [[[ret used]|e|msg] cx1] eqn:Hc.
  2,3: intros [= <- <-]; (split; [|done]); intros s'; unfold feats; by rewrite (collect_deps_features _ _ _ _ _ _ _ _ Hc).
  assert (Hnames : ∀ x, x ∈ ret → ∀ f, f ∈ x.2 → no_slash f ∧ (f ∈ feature_names s ∨ f ∈ requested_names m)).
  { intros x Hx f Hf. destruct (collect_deps_names _ _ _ _ _ _ _ _ _ x Hc Hx) as [Hn|[Hd Hn]]; [by apply elem_of_nil in Hn|].
    destruct (Hn f Hf) as [H1 [H2|(c & b & l & Hl & Hin)]]; (split; [done|]).
    - left. unfold feature_names. apply elem_of_app. left. apply list_elem_of_bind. exists x.1. split; [done|].
      by apply list_elem_of_filter in Hd as [_ Hd].
    - by eapply crate_features_named. }
  assert (Hsame : resolve_features cx1 = resolve_features cx) by exact (collect_deps_features _ _ _ _ _ _ _ _ Hc).
  destruct (missing reqs used).
  2: { intros H. assert (cx1 = cx' ∧ is_ok r = false) as [-> Hr].
       { destruct parent; [by injection H as <- <-|]. by destruct (PackageId.display _); injection H as <- <-. }
       split; [unfold feats; by rewrite Hsame|]. by intros out ->. }
  destruct (bool_decide (reqs_used reqs = ∅)) eqn:He; intros [= <- <-].
  - apply bool_decide_eq_true in He. split; [unfold feats; by rewrite Hsame|]. intros out [= <-]. split; [|done].
    intros f (dev & fs & def & -> & Hf). pose proof (requested_used _ _ _ _ _ _ Hp Hb Hf) as Hu. set_solver.
  - assert (Hg : ∀ s', feats (set_resolve_features cx1 (hupdate (λ set, set ∪ reqs_used reqs) (sum_package_id s)
        (hor_insert (sum_package_id s) ∅ (resolve_features cx1)))) s' =
      if decide (to_key (sum_package_id s) = to_key (sum_package_id s')) then feats cx s' ∪ reqs_used reqs else feats cx s').
    { intros s'. unfold feats. cbn [set_resolve_features resolve_features]. rewrite hget_hupdate, hget_hor_insert, Hsame.
      destruct (decide _) as [Hk|Hk]; [|done]. rewrite (hget_key _ _ _ Hk). by destruct (hget (resolve_features cx) (sum_package_id s')). }
    split; [intros s'; intros x Hx; rewrite Hg; destruct (decide _); [apply elem_of_union; by left|exact Hx]|]. intros out [= <-]. split; [|done].
    intros f (dev & fs & def & -> & Hf). rewrite Hg, decide_True by done. apply elem_of_union. right.
    by eapply requested_used.
Qed.

(** * The search on a finite registry *)
Section search.
Context (L : list Summary) (F : list string).
Context (Hplain : ∀ s, s ∈ L → plain s).
Context (Hnames : ∀ s f, s ∈ L → f ∈ feature_names s → f ∈ F) (Hdefault : "default" ∈ F).
Context (Hfinite : ∀ d l s, registry_query d false = Ok l → s ∈ l → s ∈ L).

Definition asks_ok (fs : list string) : Prop := ∀ f, f ∈ fs → f ∈ F ∧ no_slash f.
Definition cand_fin (c : Candidate) : Prop := cand_summary c ∈ L ∧ cand_replace c = None.
Definition info_fin (i : DepInfo) : Prop := (∀ c, c ∈ i.1.2 → cand_fin c) ∧ asks_ok i.2.

(** The packages that are not active, and the features that are not recorded. *)
Definition lacks (cx : Context) (sf : Summary * string) : bool := bool_decide (sf.2 ∉ feats cx sf.1).
Definition potential (cx : Context) : nat :=
  (count (λ s, negb (is_active cx (sum_package_id s))) L + count (lacks cx) (list_prod L F))%nat.

Lemma potential_le cx cx' :
  grows cx cx' → (∀ s, feats cx s ⊆ feats cx' s) → (potential cx' ≤ potential cx)%nat.
Proof.
  intros Hg Hf. unfold potential. apply Nat.add_le_mono; apply count_mono.
  - intros s. rewrite !negb_true_iff, <-!not_true_iff_false. intros Hn Ha. by eapply Hn, is_active_grows.
  - intros [s f]. unfold lacks. rewrite !bool_decide_eq_true. simpl. intros Hn Hin. apply Hn. by apply Hf.
Qed.

Lemma potential_lt_active cx cx' s :
  grows cx cx' → (∀ s, feats cx s ⊆ feats cx' s) → s ∈ L →
  is_active cx (sum_package_id s) = false → is_active cx' (sum_package_id s) = true → (potential cx' < potential cx)%nat.
Proof.
  intros Hg Hf Hs Ha Ha'. unfold potential. apply Nat.add_lt_le_mono.
  - apply (count_lt _ _ _ s); [|done|by rewrite Ha|by rewrite Ha'].
    intros x. rewrite !negb_true_iff, <-!not_true_iff_false. intros Hn Hx. by eapply Hn, is_active_grows.
  - apply count_mono. intros [x f]. unfold lacks. rewrite !bool_decide_eq_true. simpl. intros Hn Hin. apply Hn. by apply Hf.
Qed.

Lemma potential_lt_feature cx cx' s f :
  grows cx cx' → (∀ s, feats cx s ⊆ feats cx' s) → s ∈ L → f ∈ F →
  f ∉ feats cx s → f ∈ feats cx' s → (potential cx' < potential cx)%nat.
Proof.
  intros Hg Hf Hs HfF Hn Hin. unfold potential. apply Nat.add_le_lt_mono.
  - apply count_mono. intros x. rewrite !negb_true_iff, <-!not_true_iff_false. intros Hx Ha. by eapply Hx, is_active_grows.
  - apply (count_lt _ _ _ (s, f)).
    + intros [x g]. unfold lacks. rewrite !bool_decide_eq_true. simpl. intros Hx Hg'. apply Hx. by apply Hf.
    + apply list_elem_of_In, in_prod; by apply list_elem_of_In.
    + by apply bool_decide_eq_true.
    + apply bool_decide_eq_false. simpl. tauto.
Qed.

(** ** Activation *)
Lemma flag_activated_lacks cx s dev fs def cx1 :
  flag_activated cx s (Required dev fs false def) = (Ok false, cx1) → is_active cx (sum_package_id s) = true →
  ∃ f, (f ∉ feats cx s) ∧ (f ∈ fs ∨ (f = "default" ∧ def = true ∧ is_key (sum_features s) f = true)).
Proof.
  intros Hf Ha. pose proof Hf as Hcases. apply flag_activated_cases in Hcases as [_ [Hc|(_ & Hno & _)]].
  2: { apply is_active_true in Ha as (s0 & Hs0 & Hk). apply summary_eq_true in Hk. by rewrite (Hno _ Hs0) in Hk. }
  destruct Hc as (s0 & Hs0 & Heq & _). unfold flag_activated in Hf.
  set (cx0 := set_activations cx _) in Hf.
  assert (Hprev : default [] (hget (activations cx0) (activation_key (sum_package_id s))) = bucket cx (sum_package_id s))
    by (apply bucket_or_insert).
  rewrite Hprev in Hf.
  assert (Hex : existsb (λ c, summary_eq c s) (bucket cx (sum_package_id s)) = true).
  { apply existsb_exists. exists s0. by rewrite <-list_elem_of_In. }
  rewrite Hex in Hf. cbn [negb] in Hf. injection Hf as Hb _. unfold feats. cbn [cx0 set_activations resolve_features] in Hb.
  assert (Hdef : ∀ prev : gset string, (negb def || bool_decide ("default" ∈ prev) || negb (is_key (sum_features s) "default")) = false →
    ("default" ∉ prev) ∧ def = true ∧ is_key (sum_features s) "default" = true).
  { intros prev [[H1 H2]%orb_false_iff H3]%orb_false_iff. apply negb_false_iff in H1, H3. apply bool_decide_eq_false in H2. done. }
  destruct (hget (resolve_features cx) (sum_package_id s)) as [prev|]; simpl in *.
  - destruct (List.find (λ f, negb (bool_decide (f ∈ prev))) fs) as [f|] eqn:Hfind.
    + apply find_some in Hfind as [Hin Hn]. apply list_elem_of_In in Hin. apply negb_true_iff, bool_decide_eq_false in Hn.
      exists f. by split; [|left].
    + exists "default". destruct (Hdef prev) as (H1 & H2 & H3); [|by split; [|right]].
      apply andb_false_iff in Hb as [Hb|Hb]; [|done]. exfalso. apply not_true_iff_false in Hb. apply Hb.
      apply forallb_forall. intros f Hin. pose proof (find_none _ _ Hfind f Hin) as Hn. by apply negb_false_iff in Hn.
  - apply andb_false_iff in Hb as [Hb|Hb].
    + apply bool_decide_eq_false in Hb. destruct fs as [|f fs]; [done|]. exists f. split; [apply not_elem_of_empty|left; constructor].
    + exists "default". destruct (Hdef ∅) as (H1 & H2 & H3); [|by split; [|right]].
      rewrite (bool_decide_eq_false_2 ("default" ∈ ∅)) by apply not_elem_of_empty. by rewrite orb_false_r.
Qed.

Lemma activate_fin cx q parent c m :
  cand_fin c → (∀ f, f ∈ requested_names m → f ∈ F) →
  ∃ r cx' q', activate cx q parent c m = Some (r, cx', q') ∧
    match r with
    | Ok None => (potential cx' ≤ potential cx)%nat
    | Ok (Some fr) =>
        iter_wf (remaining_siblings fr) ∧ (∀ i, i ∈ iter_rest (remaining_siblings fr) → asks_ok i.2) ∧
        ∀ fs def, m = Required false fs false def → asks_ok fs → (potential cx' < potential cx)%nat
    | _ => True
    end.
Proof.
  intros [Hc Hn] Hm. unfold activate. rewrite Hn. fold (linked cx parent c). set (s := cand_summary c) in *.
  assert (Hlinked : (∀ id, bucket (linked cx parent c) id = bucket cx id) ∧ ∀ x, feats (linked cx parent c) x = feats cx x).
  { destruct parent as [[p d]|]; done. }
  destruct Hlinked as [Hlb Hlf].
  destruct (flag_activated (linked cx parent c) s m) as [[b|e|msg] cx1] eqn:Hflag; [|by eexists _, _, _..].
  assert (Hg1 : grows cx cx1) by (intros id x Hx; apply (flag_activated_grows _ _ _ _ _ Hflag); by rewrite Hlb).
  assert (Hf1 : ∀ x, feats cx1 x = feats cx x).
  { intros x. rewrite <-Hlf. apply flag_activated_cases in Hflag as [(_ & Hrf & _) _]. unfold feats. by rewrite Hrf. }
  destruct b.
  { eexists _, _, _. split; [done|]. apply potential_le; [exact Hg1|]. intros x. by rewrite Hf1. }
  unfold activate_deps, build_deps.
  destruct (build_requirements_plain s m (Hplain s Hc)) as (res & Hbr & _).
  destruct (resolve_features_of cx1 (fst <$> parent) s m) as [[r cx2]|] eqn:Hrf.
  2: { unfold resolve_features_of in Hrf. rewrite Hbr in Hrf. by destruct res. }
  pose proof (resolve_features_of_recorded _ _ _ _ _ _ (Hplain s Hc) Hrf) as [Hf2 Hout].
  destruct r as [deps|e|msg]; [|by eexists _, _, _..]. destruct (Hout deps eq_refl) as [Hrec Hdeps].
  apply resolve_features_of_spec in Hrf as [Hsame _].
  destruct (query_all q deps []) as [[l|e|msg] q2] eqn:Hq; [|by eexists _, _, _..].
  eexists _, _, _. split; [done|]. cbn [remaining_siblings]. split_and!.
  - apply iter_new_wf.
  - rewrite iter_new_rest. intros i Hi f Hf. rewrite sort_by_perm in Hi. apply query_all_deps in Hq. simpl in Hq.
    assert (Hin : (i.1.1, i.2) ∈ deps) by (rewrite <-Hq; apply list_elem_of_fmap; by exists i).
    destruct (Hdeps _ Hin f Hf) as [H1 [H2|H2]]; split; try done; [by eapply Hnames|by apply Hm].
  - intros fs def -> Hfs.
    assert (Hg2 : grows cx cx2) by (intros id x Hx; rewrite (same_packages_bucket _ _ _ Hsame); by apply Hg1).
    assert (Hfe : ∀ x, feats cx x ⊆ feats cx2 x) by (intros x; rewrite <-Hf1; apply Hf2).
    destruct (is_active cx (sum_package_id s)) eqn:Ha.
    + assert (Ha' : is_active (linked cx parent c) (sum_package_id s) = true).
      { apply is_active_true in Ha as (s0 & H1 & H2). apply is_active_true. exists s0. by rewrite Hlb. }
      destruct (flag_activated_lacks _ _ _ _ _ _ Hflag Ha') as (f & Hnf & Hwhy). rewrite Hlf in Hnf.
      assert (Hwhy' : (f ∈ fs ∧ no_slash f) ∨ (f = "default" ∧ def = true ∧ is_key (sum_features s) f = true)).
      { destruct Hwhy as [H|H]; [left|by right]. split; [done|by apply Hfs]. }
      eapply (potential_lt_feature cx cx2 s f); [done..| |done|].
      * destruct Hwhy as [H|[-> _]]; [by apply Hfs|done].
      * apply Hrec. by exists false, fs, def.
    + apply (potential_lt_active cx cx2 s); [done..|].
      apply (is_active_grows cx1); [intros id x Hx; by rewrite (same_packages_bucket _ _ _ Hsame)|].
      by eapply flag_activated_active.
Qed.

(** ** States *)
Definition remaining_fin (r : RemainingDeps) : Prop := frames_wf r ∧ ∀ x, x ∈ pending r → info_fin x.2.
Definition rc_fin (rc : RemainingCandidates) : Prop :=
  iter_wf (remaining rc) ∧ (∀ c, c ∈ iter_rest (remaining rc) → cand_fin c) ∧
  ∀ b, has_another rc = Some b → cand_fin b.
(** Without overrides the queryer answers with packages of the registry. *)
Abbreviation no_overrides := (λ q : RegistryQueryer, ResTypes.replacements q = []).
Abbreviation q_fin := (q_ok (λ _ : Dependency, cand_fin) no_overrides).

Definition tries (rc : RemainingCandidates) : nat :=
  (length (iter_rest (remaining rc)) + match has_another rc with Some _ => 1 | None => 0 end)%nat.

Lemma query_fin (q : RegistryQueryer) d l :
  no_overrides q → query_candidates q d = Ok l → ∀ c, c ∈ l → cand_fin c.
Proof.
  intros Hq (ss & Hss & Hp & Ho)%query_candidates_summaries c Hc. split.
  - eapply Hfinite; [exact Hss|]. rewrite <-Hp. apply list_elem_of_fmap. by exists c.
  - specialize (Ho c Hc). rewrite Hq in Ho. by injection Ho.
Qed.

Lemma activate_keeps cx q parent c m r cx' q' :
  q_fin q → activate cx q parent c m = Some (r, cx', q') →
  q_fin q' ∧ ∀ f, r = Ok (Some f) → frame_ok (λ _ : Dependency, cand_fin) f.
Proof.
  apply activate_ok; [done| |apply query_fin]. intros q1 q2 H _ _ Hq. by rewrite H.
Qed.

Lemma remaining_push fr r :
  iter_wf (remaining_siblings fr) → (∀ i, i ∈ iter_rest (remaining_siblings fr) → info_fin i) →
  remaining_fin r → remaining_fin (push fr r).
Proof.
  intros H1 H2 [H3 H4]. split; [by apply frames_wf_push|]. intros x. rewrite pending_push.
  intros [Hx|Hx]%elem_of_app; [|by apply H4]. unfold frame_pending in Hx.
  apply list_elem_of_fmap in Hx as (i & -> & Hi). by apply H2.
Qed.

Lemma next_loop_fin fuel cx prev it another con :
  rc_fin (mkRemaining it another) → (length (iter_rest it) < fuel)%nat →
  match next_loop fuel cx prev it another con with
  | (Some (c, more), rc, _) =>
      rc_fin rc ∧ cand_fin c ∧ (tries rc < tries (mkRemaining it another))%nat ∧ (more = false → exhausted rc)
  | _ => True
  end.
Proof.
  revert it another con. induction fuel as [|fuel IH]; intros it another con (Hwf & Hc & Ha) Hlen; [lia|].
  simpl in *. pose proof (iter_next_spec it Hwf) as Hn. destruct (iter_next it) as [[[i b]|] it'].
  2: { destruct Hn as [Hrest ->]. destruct another as [r|]; [|done]. unfold tries. simpl. rewrite Hrest. simpl.
       split; [split_and!; [done|intros c Hc0; simpl in Hc0; rewrite Hrest in Hc0; by apply elem_of_nil in Hc0|done]|].
       split; [by apply Ha|]. split; [lia|done]. }
  destruct Hn as (Hrest & Hwf' & _). rewrite Hrest in Hlen, Hc. simpl in Hlen.
  assert (Hb : cand_fin b) by (apply Hc; constructor).
  assert (Hc' : ∀ c, c ∈ iter_rest it' → cand_fin c) by (intros c Hin; apply Hc; by constructor).
  assert (Ht : tries (mkRemaining it another) = S (tries (mkRemaining it' another))) by (unfold tries; simpl; by rewrite Hrest).
  destruct (candidate_conflict cx prev b) as [[a reason]|].
  { specialize (IH it' another (hor_insert a reason con) ltac:(by split) ltac:(lia)).
    destruct (next_loop _ _ _ it' another _) as [[[[c more]|] rc] con']; [|done].
    destruct IH as (H1 & H2 & H3 & H4). split; [exact H1|]. split; [exact H2|]. split; [lia|exact H4]. }
  destruct another as [r|].
  - split; [split; [done|split; [done|by intros x [= <-]]]|].
    split; [by apply Ha|]. split; [|done]. rewrite Ht. unfold tries. simpl. lia.
  - specialize (IH it' (Some b) con ltac:(split; [done|split; [done|by intros x [= <-]]]) ltac:(lia)).
    destruct (next_loop _ _ _ it' (Some b) con) as [[[[c more]|] rc] con']; [|done].
    destruct IH as (H1 & H2 & H3 & H4). split; [exact H1|]. split; [exact H2|]. split; [|exact H4].
    rewrite Ht. unfold tries in *. simpl in *. lia.
Qed.

Lemma remaining_next_fin rc con cx dep c more rc' con' :
  rc_fin rc → remaining_next rc con cx dep = (Some (c, more), rc', con') →
  rc_fin rc' ∧ cand_fin c ∧ (tries rc' < tries rc)%nat ∧ (more = false → exhausted rc').
Proof.
  intros Hrc Hn. unfold remaining_next in Hn.
  pose proof (next_loop_fin (S (length (iter_rest (remaining rc)))) cx (prev_active cx dep) (remaining rc) (has_another rc) con) as H.
  rewrite Hn in H. destruct rc as [it an]. apply H; [done|]. simpl. lia.
Qed.

Lemma exhausted_next rc con cx dep :
  rc_fin rc → exhausted rc → ∃ rc' con', remaining_next rc con cx dep = (None, rc', con').
Proof.
  intros Hrc [He Ha]. destruct (remaining_next rc con cx dep) as [[[[c more]|] rc'] con'] eqn:Hn; [|by eexists _, _].
  destruct (remaining_next_fin _ _ _ _ _ _ _ _ Hrc Hn) as (_ & _ & Ht & _). unfold tries in Ht at 2. rewrite He, Ha in Ht. simpl in Ht. lia.
Qed.

(** ** Halting *)
Context (offline : bool).
Definition halts (st : State) : Prop := ∃ fuel res, run offline fuel st = Some res.
Definition halts_after (m : option (cresult State)) : Prop :=
  match m with None => False | Some (Ok st) => halts st | Some _ => True end.

Lemma halts_done cx : halts (SDone cx).
Proof. exists 0, (Ok cx). done. Qed.

Lemma halts_outer o : halts (start_dep o) → halts (SOuter o).
Proof. intros (fuel & res & H). exists (S fuel), res. exact H. Qed.

Lemma halts_inner i : halts_after (try_candidate offline i) → halts (SInner i).
Proof.
  unfold halts_after. destruct (try_candidate offline i) as [[st|e|m]|] eqn:Ht; [| | |done].
  - intros (fuel & res & H). exists (S fuel), res. cbn [run step]. by rewrite Ht.
  - exists 1, (Err e). cbn [run step]. by rewrite Ht.
  - exists 1, (Panic m). cbn [run step]. by rewrite Ht.
Qed.

Definition inner_fin (i : Inner) : Prop :=
  q_fin (o_queryer (i_outer i)) ∧ remaining_fin (o_remaining_deps (i_outer i)) ∧ rc_fin (i_remaining i) ∧ asks_ok (i_features i).
(** The frame's dependency is attempted with whatever candidate is next. *)
Definition resume (b : BacktrackFrame) (q : RegistryQueryer) (stack : list BacktrackFrame) (cache : ConflictCache)
    (cands : list Candidate) (jh : bool) (rc : RemainingCandidates) (con : Conflicts) : Inner :=
  mkInner (mkOuter (bf_context b) q (bf_remaining_deps b) stack cache)
          (bf_parent b) (bf_cur b) (bf_dep b) cands (bf_features b) jh rc con true.
Fixpoint stack_halts (stack : list BacktrackFrame) : Prop :=
  match stack with
  | [] => True
  | b :: stack =>
      stack_halts stack ∧
      ∀ q cache cands jh c more rc con,
        q_fin q → remaining_next (bf_remaining_candidates b) (bf_conflicting b) (bf_context b) (bf_dep b) = (Some (c, more), rc, con) →
        halts_after (attempt c more (resume b q stack cache cands jh rc con))
  end.

Lemma find_candidate_halts stack parent bt con c more b stack' :
  stack_halts stack → find_candidate stack parent bt con = (Some (c, more, b), stack') →
  ∀ q cache cands jh, q_fin q →
    halts_after (attempt c more (resume b q stack' cache cands jh (bf_remaining_candidates b) (bf_conflicting b))).
Proof.
  revert c more b stack'. induction stack as [|f stack IH]; intros c more b stack'; simpl; [done|].
  intros [Hs Hf]. destruct (remaining_next _ _ _ _) as [[[[c1 more1]|] rc] fcon] eqn:Hn; [|by apply IH].
  destruct (_ && is_conflicting _ _ _); [by apply IH|].
  intros [= -> -> <- ->] q cache cands jh Hq. exact (Hf q cache cands jh _ _ _ _ Hq eq_refl).
Qed.

(** When this dependency has no candidate left, the stack decides. *)
Lemma no_candidate_halts i :
  q_fin (o_queryer (i_outer i)) → stack_halts (o_stack (i_outer i)) →
  (∀ c more rc con, remaining_next (i_remaining i) (i_conflicting i) (o_cx (i_outer i)) (i_dep i) = (Some (c, more), rc, con) →
     halts_after (attempt c more (mkInner (i_outer i) (i_parent i) (i_cur i) (i_dep i) (i_candidates i) (i_features i)
                                          (i_just_here i) rc con (i_backtracked i)))) →
  halts (SInner i).
Proof.
  intros Hq Hs Hnext. apply halts_inner. unfold try_candidate, next_candidate.
  destruct (remaining_next _ _ _ _) as [[[[c more]|] rc] con] eqn:Hn; [simpl; by eapply Hnext|].
  destruct (find_candidate _ _ _ _) as [[[[c more] b]|] stack] eqn:Hfind.
  - cbn [fbind]. by apply (find_candidate_halts _ _ _ _ _ _ _ _ Hs Hfind).
  - destruct (activation_error_some (o_cx (i_outer i)) (i_parent i) (i_dep i) con (i_candidates i) offline) as [[e|e|m] ->]; done.
Qed.

(** ** The search *)
Definition attempts_halt (M W T : nat) : Prop := ∀ i c more,
  (potential (o_cx (i_outer i)) ≤ M)%nat → (length (pending (o_remaining_deps (i_outer i))) ≤ W)%nat →
  (tries (i_remaining i) ≤ T)%nat → inner_fin i → stack_halts (o_stack (i_outer i)) → cand_fin c →
  (more = false → exhausted (i_remaining i)) → halts_after (attempt c more i).

Lemma inner_halts M W T i :
  (∀ T', (T' < T)%nat → attempts_halt M W T') →
  (potential (o_cx (i_outer i)) ≤ M)%nat → (length (pending (o_remaining_deps (i_outer i))) ≤ W)%nat →
  (tries (i_remaining i) ≤ T)%nat → inner_fin i → stack_halts (o_stack (i_outer i)) → halts (SInner i).
Proof.
  intros IH HM HW HT (H1 & H2 & H3 & H4) Hs. apply no_candidate_halts; [done..|].
  intros c more rc con Hn. destruct (remaining_next_fin _ _ _ _ _ _ _ _ H3 Hn) as (K1 & K2 & K3 & K4).
  apply (IH (tries rc)); simpl; [lia|done|done|lia|exact (conj H1 (conj H2 (conj K1 H4)))|done..].
Qed.

Lemma exhausted_halts i :
  inner_fin i → stack_halts (o_stack (i_outer i)) → exhausted (i_remaining i) → halts (SInner i).
Proof.
  intros (H1 & _ & H3 & _) Hs He. apply no_candidate_halts; [done..|]. intros c more rc con Hn.
  destruct (exhausted_next _ (i_conflicting i) (o_cx (i_outer i)) (i_dep i) H3 He) as (rc' & con' & Hn'). congruence.
Qed.

Lemma outer_halts o :
  (∀ W T M, potential (o_cx o) = M → (W < length (pending (o_remaining_deps o)))%nat → attempts_halt M W T) →
  q_fin (o_queryer o) → remaining_fin (o_remaining_deps o) → stack_halts (o_stack o) → halts (SOuter o).
Proof.
  intros IH Hq [Hw Hr] Hs. apply halts_outer. unfold start_dep, pop_most_constrained.
  pose proof (pop_loop_spec (S (length (o_remaining_deps o))) (o_remaining_deps o) Hw ltac:(lia)) as Hp.
  destruct (pop_loop _ _) as [[[jh [parent [cur [[dep cands] fs]]]]|] r']; [|apply halts_done].
  destruct Hp as (Hw' & Hperm & _). pose proof (Permutation_length Hperm) as Hlen. simpl in Hlen.
  destruct (Hr (parent, (dep, cands, fs))) as [Hc Hfs]; [rewrite Hperm; constructor|]. simpl in Hc, Hfs.
  set (i := mkInner _ _ _ _ _ _ _ _ _ _).
  assert (Hi : inner_fin i).
  { split; [done|]. split; [split; [done|]; intros x Hx; apply Hr; rewrite Hperm; by constructor|]. split; [|done].
    split; [apply iter_new_wf|]. split; [|done]. simpl. by rewrite iter_new_rest. }
  apply (inner_halts (potential (o_cx o)) (length (pending r')) (tries (i_remaining i))); [|done..].
  intros T' _. apply IH; [done|lia].
Qed.

(** The frame that is left on the stack when there are more candidates. *)
Definition backtrack_of (more : bool) (i : Inner) : option BacktrackFrame :=
  if more then Some (mkBacktrack (i_cur i) (o_cx (i_outer i)) (o_remaining_deps (i_outer i)) (i_remaining i) (i_parent i)
                                 (i_dep i) (i_features i) (i_conflicting i)) else None.

Lemma backtrack_halts M W T i more stack :
  (∀ T', (T' < T)%nat → attempts_halt M W T') →
  (potential (o_cx (i_outer i)) ≤ M)%nat → (length (pending (o_remaining_deps (i_outer i))) ≤ W)%nat →
  (tries (i_remaining i) ≤ T)%nat → inner_fin i → stack_halts stack →
  stack_halts (from_option (λ b, b :: stack) stack (backtrack_of more i)).
Proof.
  intros IH HM HW HT (H1 & H2 & H3 & H4) Hs. destruct more; [|done]. split; [done|].
  intros q cache cands jh c more rc con Hq Hn. cbn [bf_remaining_candidates bf_conflicting bf_context bf_dep] in Hn.
  destruct (remaining_next_fin _ _ _ _ _ _ _ _ H3 Hn) as (K1 & K2 & K3 & K4).
  apply (IH (tries rc)); simpl; [lia|done|done|lia|exact (conj Hq (conj H2 (conj K1 H4)))|done..].
Qed.

Lemma asks_ok_plain fs def f : asks_ok fs → f ∈ requested_names (Required false fs false def) → f ∈ F.
Proof.
  intros Hfs Hf. apply list_elem_of_omap in Hf as (g & Hg & Hs). destruct (Hfs g Hg) as [_ Hn].
  by rewrite (split_once_none _ _ Hn) in Hs.
Qed.

Lemma attempts_halt_all M W T : attempts_halt M W T.
Proof.
  revert W T. induction M as [M IHM] using lt_wf_ind. intros W. induction W as [W IHW] using lt_wf_ind.
  intros T. induction T as [T IHT] using lt_wf_ind. intros i c more HM HW HT Hi Hs Hc Hmore.
  unfold attempt. fold (backtrack_of more i). destruct (i_just_here i && negb (i_backtracked i) && more).
  { by apply (inner_halts M W T). }
  destruct Hi as (Hq & Hr & Hrc & Hfs).
  set (m := Required false (i_features i) false (default_features (i_dep i))).
  destruct (activate_fin (o_cx (i_outer i)) (o_queryer (i_outer i)) (Some (i_parent i, i_dep i)) c m Hc) as (r & cx' & q' & Hact & Hpot).
  { intros f. by apply asks_ok_plain. }
  destruct (activate_keeps _ _ _ _ _ _ _ _ Hq Hact) as [Hq' Hframe].
  rewrite Hact. pose proof (backtrack_halts M W T i more) as Hbt.
  assert (Hfail : ∀ con, halts (SInner (mkInner (mkOuter (from_option bf_context cx' (backtrack_of more i)) q'
      (o_remaining_deps (i_outer i)) (o_stack (i_outer i)) (o_cache (i_outer i)))
      (i_parent i) (i_cur i) (i_dep i) (i_candidates i) (i_features i) (i_just_here i) (i_remaining i) con (i_backtracked i)))).
  { intros con. destruct more; [apply (inner_halts M W T)|apply exhausted_halts]; simpl; try done.
    by apply Hmore. }
  destruct r as [[fr|]|[e|id reason]|msg]; [| |done|exact (Hfail _)|done].
  - destruct Hpot as (Hwf & Hasks & Hlt). specialize (Hlt _ _ eq_refl Hfs).
    destruct (check_past _ _ _ _) as [[past con]|e|msg]; [|done..]. cbn [fbind]. cbv zeta.
    destruct (negb past || _); [|exact (Hfail _)]. apply outer_halts; cbn [o_cx o_queryer o_remaining_deps o_stack].
    + intros W' T' M' <- _. apply IHM. lia.
    + exact Hq'.
    + apply remaining_push; [done| |done]. intros x Hx. split; [|by apply Hasks].
      destruct (Hframe fr eq_refl) as [_ Hinfo]. by apply Hinfo.
    + apply Hbt; try done. by destruct (past && _ && _).
  - apply outer_halts; cbn [o_cx o_queryer o_remaining_deps o_stack].
    + intros W' T' M' HM' HW'. destruct (decide (M' < M)%nat) as [Hlt|Hge]; [by apply IHM|].
      assert (M' = M) as -> by lia. apply IHW. lia.
    + exact Hq'.
    + exact Hr.
    + by apply Hbt.
Qed.

Lemma search_halts o :
  q_fin (o_queryer o) → remaining_fin (o_remaining_deps o) → o_stack o = [] → halts (SOuter o).
Proof. intros Hq Hr Hs. apply outer_halts; [intros; apply attempts_halt_all|done..|by rewrite Hs]. Qed.

(** ** The initial activations *)
Lemma activate_initial_halts summaries cx q r :
  q_fin q → remaining_fin r → (∀ s m, (s, m) ∈ summaries → s ∈ L ∧ ∀ f, f ∈ requested_names m → f ∈ F) →
  ∃ res, activate_initial summaries cx q r = Some res ∧
    ∀ o, res = Ok o → q_fin (o_queryer o) ∧ remaining_fin (o_remaining_deps o) ∧ o_stack o = [].
Proof.
  revert cx q r. induction summaries as [|[s m] l IH]; intros cx q r Hq Hr Hl; simpl.
  { eexists. split; [done|]. by intros o [= <-]. }
  destruct (Hl s m) as [Hs Hm]; [constructor|].
  destruct (activate_fin cx q None (mkCandidate s None) m) as (res & cx' & q' & Hact & Hpot); [done..|].
  destruct (activate_keeps _ _ _ _ _ _ _ _ Hq Hact) as [Hq' Hframe].
  assert (Hl' : ∀ s m, (s, m) ∈ l → s ∈ L ∧ ∀ f, f ∈ requested_names m → f ∈ F) by (intros s' m' Hin; apply Hl; by constructor).
  rewrite Hact. destruct res as [[fr|]|[e|id reason]|msg]; [| |by eexists..].
  - apply IH; [done| |done]. destruct Hpot as (Hwf & Hasks & _). apply remaining_push; [done| |done].
    intros x Hx. split; [|by apply Hasks]. destruct (Hframe fr eq_refl) as [_ Hinfo]. by apply Hinfo.
  - by apply IH.
Qed.
End search.

Lemma run_more offline fuel n st res : run offline fuel st = Some res → run offline (fuel + n) st = Some res.
Proof.
  revert st. induction fuel as [|fuel IH]; intros st.
  - destruct st; [done|done|]. by destruct n.
  - destruct st as [o|i|cx]; [| |done]; cbn [run Nat.add]; (destruct (step offline _) as [[st|e|m]|]; cbn [fbind]; [apply IH|done..]).
Qed.

(** C2. The resolver always comes to an answer.  Over a registry with finitely
    many packages, none of them with namespaced features or a nameless feature,
    and without overrides, there is a number of steps after which the search
    has ended, in success or in error, and the checks that follow it return:
    no sequence of backtracking goes on forever. *)
Theorem resolve_returns offline (L : list Summary) summaries try_to_use minimal
    (Hfinite : ∀ d l s, registry_query d false = Ok l → s ∈ l → s ∈ L)
    (Hplain : ∀ s, s ∈ L → plain s) (Hroots : ∀ s, s ∈ summaries.*1 → s ∈ L) :
  ∃ fuel res, ∀ n, resolve offline (fuel + n) summaries [] try_to_use minimal = Some res.
Proof.
  set (F := "default" :: (L ≫= feature_names) ++ (summaries ≫= λ sm, requested_names sm.2)).
  assert (HF : ∀ s f, s ∈ L → f ∈ feature_names s → f ∈ F).
  { intros s f Hs Hf. right. apply elem_of_app. left. apply list_elem_of_bind. by exists s. }
  set (q := queryer_new [] try_to_use minimal).
  destruct (activate_initial_halts L F Hplain HF ltac:(constructor) Hfinite summaries context_new q []) as (res & Hinit & Hok).
  - split; [done|]. intros d l. unfold q. cbn. by rewrite hget_empty.
  - split; [intros f Hf|intros x Hx]; by apply elem_of_nil in Hx || by apply elem_of_nil in Hf.
  - intros s m Hin. split; [apply Hroots, list_elem_of_fmap; by exists (s, m)|]. intros f Hf. right.
    apply elem_of_app. right. apply list_elem_of_bind. by exists (s, m).
  - unfold resolve, activate_deps_loop. fold q. rewrite Hinit. destruct res as [o|e|msg]; [|by exists 0; eexists..].
    destruct (Hok o eq_refl) as (H1 & H2 & H3).
    destruct (search_halts L F Hplain HF ltac:(constructor) Hfinite offline o H1 H2 H3) as (fuel & res & Hrun).
    cbn [fbind]. destruct res as [cx|e|msg].
    + assert (Hrest : ∃ res, fbind (check_cycles (resolve_of cx) (activations cx)) (λ _,
        let* _ := Some (check_duplicate_pkgs_in_lockfile (resolve_of cx)) in Some (Ok (resolve_of cx, warnings cx))) = Some res).
      { apply fbind_some; [apply check_cycles_returns, wf_graph_of|]. intros _. apply fbind_some; by eexists. }
      destruct Hrest as [res Hrest]. exists fuel, res. intros n. by rewrite (run_more _ _ n _ _ Hrun).
    + exists fuel, (Err e). intros n. by rewrite (run_more _ _ n _ _ Hrun).
    + exists fuel, (Panic msg). intros n. by rewrite (run_more _ _ n _ _ Hrun).
Qed.
End termination.

(** * A concrete registry *)
Section runs.
Local Existing Instance sem_lib.
Local Existing Instance hier_lib.
Local Existing Instance std_order.

(** The packages of the sample, without features, with the root. *)
Lemma no_features_plain s : sum_features s = ∅ → sum_namespaced_features s = false → plain s.
Proof.
  intros Hf Hn. assert (Hk : ∀ k, is_key (sum_features s) k = false).
  { intros k. rewrite Hf. unfold is_key. by rewrite lookup_empty. }
  split; [|done|intros d _; apply Hk|apply Hk]. intros k vs v Hv. by rewrite Hf, lookup_empty in Hv.
Qed.

Lemma sample_plain s : s ∈ root_package :: sample_packages → plain s.
Proof.
  assert (H : Forall (λ s, sum_features s = ∅ ∧ sum_namespaced_features s = false) (root_package :: sample_packages))
    by (repeat constructor).
  intros Hs. pose proof (proj1 (Forall_forall _ _) H s Hs) as [Hf Hn]. by apply no_features_plain.
Qed.

Lemma resolve_returns_witness :
  (length <$> sample_answer) = Some 4 ∧
  ∃ fuel res, ∀ n, resolve (RG:=listed sample_packages) false (fuel + n) [(root_package, Everything)] [] ∅ false = Some res.
Proof.
  split; [vm_eq|].
  apply (resolve_returns (RG:=listed sample_packages) false (root_package :: sample_packages)).
  - intros d l s [= <-] [_ Hs]%list_elem_of_filter. by apply list_elem_of_further.
  - exact sample_plain.
  - intros s Hs. apply list_elem_of_singleton in Hs as ->. constructor.
Defined.

(** * An override that depends on what it overrides *)
Definition path_source (name : string) : SourceId :=
  let u := ("f", "", [name], None, None) in mkSourceId u u SourceId.Path None None.
Definition any_b (src : SourceId) : Dependency := mkDependency "b" src None SemAny true Normal false None false true [] None.
Definition default_feature : FeatureMap := {[ "default" := [] ]}.
Definition original_b : Summary := mkSummary (mkPackageId "b" (1, 0, 0) (path_source "w")) [] default_feature None None false.
Definition override_b : Summary :=
  mkSummary (mkPackageId "b" (1, 0, 0) (path_source "o")) [any_b (path_source "w")] default_feature None None false.
Definition wants_b : Summary :=
  mkSummary (mkPackageId "r" (1, 0, 0) (path_source "w")) [any_b (path_source "w")] ∅ None None false.
Definition two_b : Registry := listed [original_b; override_b].
Definition override_table : list (PackageIdSpec * Dependency) :=
  [(mkSpec "b" None (Some (sid_url (path_source "w"))), any_b (path_source "o"))].

(** Evidence that an override can keep the search going: when the package that
    overrides [b] depends on [b] itself, and [b] has default features, the
    override is activated again for each dependency on [b], and a hundred steps
    do not suffice for three packages.  Without the override they do. *)
Definition two_b_run (overrides : list (PackageIdSpec * Dependency)) : bool :=
  match resolve (RG:=two_b) false 100 [(wants_b, Everything)] overrides ∅ false with Some (Ok _) => true | _ => false end.
Definition two_b_finished : bool :=
  bool_decide (is_Some (resolve (RG:=two_b) false 100 [(wants_b, Everything)] override_table ∅ false)).
Example override_repeats : (two_b_finished, two_b_run []) = (false, true).
Proof. vm_eq. Qed.
End runs.
