(* ===== verification/ResolveOps.v ===== *)
(** Resolving a workspace, [src/cargo/ops/resolve.rs]: what the previous lock
    file, the patches, the replacements and the members of the workspace become
    for the registry and the resolver. *)
From S2P Require Import Prelude Str Extern Path Utf8 SourceId PackageId Graph ConfigValue Config Features Dependency Summary.
From S2P Require Import ResTypes PackageRegistry RegistryTrait Resolve Package TomlManifest ReadManifest Workspace PreviousLocks.
From S2P Require Import Encode LockFileOps ResContext Resolver ResCorrect.

Local Open Scope string_scope.

Section resolve_ops.
Context `{SV : SemverLib} `{UL : UrlLib} `{RS : RustStd} `{SL : !SourceLib} `{FS : FileSystem} `{TL : TomlLib} `{UC : UnicodeCase}.
Context (config : Config) (read_local : path → cresult Package).
Context (deserialize_lock : toml → cresult EncodableResolve).
Context (show_string : string → string) (show_table : gmap string string → string).
(** The [PathSource] of a package that is read already, and of all packages below a directory. *)
Context (preloaded_source : Package → Source) (recursive_source : path → SourceId → Source).

(** The state that is threaded: the workspace with its cache, the registry, and
    the lines printed. *)
Record Resolving := mkResolving { rv_ws : Workspace; rv_registry : PackageRegistry; rv_printed : list string }.
Definition set_registry (st : Resolving) (r : PackageRegistry) : Resolving := mkResolving (rv_ws st) r (rv_printed st).
Definition print_all (st : Resolving) (l : list string) : Resolving := mkResolving (rv_ws st) (rv_registry st) (rv_printed st ++ l)%list.
(** A call on the registry whose error ends the operation. *)
Definition on_registry {A} (m : cresult A * PackageRegistry) : cresult (A * PackageRegistry) := a ← m.1; Ok (a, m.2).
(** [PackageRegistry::lock] *)
Definition registry_lock (r : PackageRegistry) (s : Summary) : cresult Summary :=
  if patches_locked r then PackageRegistry.lock (PackageRegistry.locked r) (patches_available r) s else Panic "assertion failed: self.patches_locked".

(** * What is kept of the previous graph *)
Definition mem_id (l : list PackageId) (p : PackageId) : bool := hmem p l.
Definition avoided_sources (to_avoid : option (list PackageId)) : list SourceId :=
  List.filter (λ s, negb (is_registry s)) (List.map pid_source_id (default [] to_avoid)).
Definition keep_id (to_avoid : option (list PackageId)) (p : PackageId) : bool :=
  negb (hmem (pid_source_id p) (avoided_sources to_avoid)) &&
  match to_avoid with Some set => negb (mem_id set p) | None => true end.
Definition prefer (keep : PackageId → bool) (previous : option Resolve) : hashset PackageId :=
  match previous with
  | Some r => foldl (λ s n, hinsert n tt s) ∅ (List.filter keep (Resolve.iter r))
  | None => ∅
  end.

(** * Patches *)
Definition lock_patch (keep : PackageId → bool) (previous : Resolve) (dep : Dependency) : cresult Dependency :=
  match List.find (matches_id dep) (List.filter keep (Resolve.iter previous ++ unused_patches previous)) with
  | Some id => lock_to dep id
  | None => Ok dep
  end.
Definition collect {A B} (f : A → cresult B) (l : list A) : cresult (list B) :=
  foldM (λ out x, y ← f x; Ok (out ++ [y])%list) [] l.
Definition add_patch (keep : PackageId → bool) (previous : option Resolve) (r : PackageRegistry) (up : Url * list Dependency)
    : cresult PackageRegistry :=
  patches ← match previous with Some prev => collect (lock_patch keep prev) up.2 | None => Ok up.2 end;
  '(_, r) ← on_registry (PackageRegistry.patch r up.1 patches); Ok r.
Definition add_patches (keep : PackageId → bool) (previous : option Resolve) (ws : Workspace) (r : PackageRegistry) : cresult PackageRegistry :=
  patches ← root_patch ws;
  r ← foldM (add_patch keep previous) r (hiter patches);
  lock_patches r.

(** * The packages to resolve *)
Definition matches_any (specs : list PackageIdSpec) (id : PackageId) : bool := existsb (λ spec, matches spec id) specs.
(** Without [-Z package-features] *)
Definition member_method (current : option Package) (specs : list PackageIdSpec) (method : Method) (member : Package) : option Method :=
  match method with
  | Everything => Some Everything
  | Required dev_deps _ all_features _ =>
      let others := if matches_any specs (package_id member) then Some (Required dev_deps [] all_features true) else None in
      match current with
      | Some current => if package_id member ==? package_id current then Some method else others
      | None => others
      end
  end.
(** With [-Z package-features] *)
Definition selected_members (members : list Package) (specs : list PackageIdSpec) (method : Method) : cresult (list Package) :=
  match method with
  | Everything => Ok members
  | Required _ features all_features uses_default_features =>
      if (1 <? length specs)%nat && negb (bool_decide (features = []))
      then Err "cannot specify features for more than one package"
      else
        match List.filter (λ m, matches_any specs (package_id m)) members with
        | [] =>
            if bool_decide (features = []) && negb all_features && uses_default_features then Ok members
            else Err "cannot specify features for packages outside of workspace"
        | l => Ok l
        end
  end.
Definition roots (ws : Workspace) (specs : list PackageIdSpec) (method : Method) : cresult (list (Package * Method)) :=
  members ← member_packages ws;
  if package_features (cli_flags config) then
    l ← selected_members members specs method; Ok (List.map (λ m, (m, method)) l)
  else
    match method with
    | Everything => Ok (List.map (λ m, (m, Everything)) members)
    | _ =>
        current ← current_opt ws;
        Ok (omap (λ m, (λ method, (m, method)) <$> member_method current specs method m) members)
    end.
Definition locked_summaries (r : PackageRegistry) (l : list (Package * Method)) : cresult (list (Summary * Method)) :=
  collect (λ pm, s ← registry_lock r (pkg_summary pm.1); Ok (s, pm.2)) l.

(** * Replacements *)
Definition lock_replace (keep : PackageId → bool) (previous : Resolve) (spec_dep : PackageIdSpec * Dependency)
    : cresult (PackageIdSpec * Dependency) :=
  let '(spec, dep) := spec_dep in
  match List.find (λ kv, matches spec kv.1 && matches_id dep kv.2 && keep kv.2) (hiter (replacements previous)) with
  | Some (_, val) => dep ← lock_to dep val; Ok (spec, dep)
  | None => Ok (spec, dep)
  end.
Definition locked_replace (keep : PackageId → bool) (previous : option Resolve) (ws : Workspace)
    : cresult (list (PackageIdSpec * Dependency)) :=
  root_replace ← root_replace ws;
  match previous with
  | Some r => collect (lock_replace keep r) root_replace
  | None => Ok root_replace
  end.

(** * [resolve_with_previous] *)
(** [Workspace::preload] *)
Definition preload (ws : Workspace) (r : PackageRegistry) : PackageRegistry :=
  if is_ephemeral ws then r
  else foldl (λ r kv, match kv.2.2 with
                      | MPackage m p => add_preloaded r (preloaded_source (mkPackage (rm_manifest m) p))
                      | MVirtual _ => r
                      end) r (hm_iter (packages ws)).
Definition add_member_sources (r : PackageRegistry) (members : list Package) : cresult PackageRegistry :=
  foldM (λ r m, '(_, r) ← on_registry (add_sources r [pid_source_id (package_id m)]); Ok r) r members.
Definition register_locks (fuel : nat) (st : Resolving) (previous : option Resolve) (keep : PackageId → bool)
    : option (cresult Resolving) :=
  match previous with
  | Some r =>
      let* (ws, registry) := register_previous_locks read_local fuel (rv_ws st) (rv_registry st) r keep in
      Some (Ok (mkResolving ws registry (rv_printed st)))
  | None => Some (Ok st)
  end.
(** What the resolver is given. *)
Record Question := mkQuestion {
  q_registry : PackageRegistry;
  q_summaries : list (Summary * Method);
  q_replace : list (PackageIdSpec * Dependency);
  q_try_to_use : hashset PackageId;
}.
Definition question (ws : Workspace) (registry : PackageRegistry) (method : Method) (previous : option Resolve)
    (keep : PackageId → bool) (specs : list PackageIdSpec) (register_patches : bool) : cresult Question :=
  registry ← if register_patches then add_patches keep previous ws registry else Ok registry;
  members ← member_packages ws;
  registry ← add_member_sources registry members;
  l ← roots ws specs method;
  summaries ← locked_summaries registry l;
  replace ← locked_replace keep previous ws;
  Ok (mkQuestion (preload ws registry) summaries replace (prefer keep previous)).
Definition ask (fuel : nat) (q : Question) : option (cresult (Resolve * list string)) :=
  Resolver.resolve (RG:=at_registry (q_registry q)) (offline (cli_flags config)) fuel (q_summaries q) (q_replace q) (q_try_to_use q)
    (Features.minimal_versions (cli_flags config)).
(** [registry] is left as the resolver got it: its answers do not depend on what was asked before. *)
Definition resolve_with_previous (fuel : nat) (st : Resolving) (method : Method) (previous : option Resolve)
    (to_avoid : option (list PackageId)) (specs : list PackageIdSpec) (register_patches warn : bool)
    : option (cresult (Resolve * Resolving)) :=
  let keep := keep_id to_avoid in
  let* st := register_locks fuel st previous keep in
  let* q := Some (question (rv_ws st) (rv_registry st) method previous keep specs register_patches) in
  let* (resolved, warnings) := ask fuel q in
  let resolved := register_used_patches resolved (patches (q_registry q)) in
  let* resolved := Some (match previous with Some previous => merge_from resolved previous | None => Ok resolved end) in
  Some (Ok (resolved, print_all (set_registry st (q_registry q)) (if warn then warnings else []))).

(** * The callers *)
Definition resolve_with_registry (fuel : nat) (st : Resolving) (warn : bool)
    : option (cresult (Resolve * Resolving * option string)) :=
  let* (prev, ws, printed) := load_pkg_lockfile read_local deserialize_lock fuel (rv_ws st) in
  let* (resolved, st) := resolve_with_previous fuel (print_all (mkResolving ws (rv_registry st) (rv_printed st)) printed) Everything
                           prev None [] true warn in
  if is_ephemeral (rv_ws st) then Some (Ok (resolved, st, None))
  else
    let* written := write_pkg_lockfile config read_local deserialize_lock show_string show_table fuel (rv_ws st) resolved in
    Some (Ok (resolved, st, written)).
Definition resolve_ws (fuel : nat) (ws : Workspace) : option (cresult (Resolve * Resolving * option string)) :=
  resolve_with_registry fuel (mkResolving ws registry_new []) true.

(** [add_overrides]: a path is relative to the directory that holds [.cargo]. *)
Definition add_path_override (r : PackageRegistry) (sp : string * path) : cresult PackageRegistry :=
  let '(s, p) := sp in
  dir ← unwrap (parent p);
  dir ← unwrap (parent dir);
  let path := path_join dir s in
  id ← SourceId.for_path path;
  let '(res, source) := source_update (recursive_source path id) in
  _ ← chain_err ("failed to update path override `" ++ path ++ "` (defined in `" ++ p ++ "`)") res;
  Ok (add_override r source).
Definition add_overrides (r : PackageRegistry) : cresult PackageRegistry :=
  paths ← get_list config "paths";
  match paths with
  | None => Ok r
  | Some v => foldM add_path_override r (val v)
  end.
Definition unused_replace (r : Resolve) (spec_dep : PackageIdSpec * Dependency) : cresult (list string) :=
  if existsb (λ id, matches spec_dep.1 id && negb (matches_id spec_dep.2 id)) (Resolve.iter r) then Ok []
  else spec ← spec_display spec_dep.1; Ok ["package replacement is not used: " ++ spec].
Definition first_resolve (fuel : nat) (st : Resolving) : option (cresult (Resolve * Resolving)) :=
  let* (resolved, st, _) := resolve_with_registry fuel st false in
  let* registry := Some (add_overrides (rv_registry st)) in
  let* replace := Some (root_replace (rv_ws st)) in
  let* unused := Some (collect (unused_replace resolved) replace) in
  Some (Ok (resolved, print_all (set_registry st registry) (concat unused))).
Definition resolve_ws_with_method (fuel : nat) (ws : Workspace) (source : option Source) (method : Method)
    (specs : list PackageIdSpec) : option (cresult (Resolve * Resolving)) :=
  let registry := match source with Some source => add_preloaded registry_new source | None => registry_new end in
  let st := mkResolving ws registry [] in
  let* (resolve, st, add_patches) :=
    if require_optional_deps ws then
      let* (resolved, st) := first_resolve fuel st in Some (Ok (Some resolved, st, false))
    else
      let* (prev, ws, printed) := load_pkg_lockfile read_local deserialize_lock fuel ws in
      Some (Ok (prev, print_all (mkResolving ws registry []) printed, true)) in
  resolve_with_previous fuel st method resolve None specs add_patches true.

(** [Method::split_features] *)
Definition split_features (features : list string) : list string :=
  List.filter (λ s, negb (is_empty s)) (concat (List.map (split_char ",") (concat (List.map words features)))).
Definition resolve_ws_precisely (fuel : nat) (ws : Workspace) (source : option Source) (features : list string)
    (all_features no_default_features : bool) (specs : list PackageIdSpec) : option (cresult (Resolve * Resolving)) :=
  let method := if all_features then Everything
                else Required true (split_features features) false (negb no_default_features) in
  resolve_ws_with_method fuel ws source method specs.

(** * What is kept and what is used *)
Lemma prefer_spec keep previous id :
  hcontains (prefer keep previous) id = true ↔
  ∃ r id', previous = Some r ∧ id' ∈ Resolve.iter r ∧ keep id' = true ∧ to_key id' = to_key id.
Proof.
  assert (Hl : ∀ l (s : hashset PackageId), hcontains (foldl (λ s n, hinsert n tt s) s l) id = true ↔
               hcontains s id = true ∨ ∃ id', id' ∈ l ∧ to_key id' = to_key id).
  { intros l. induction l as [|x l IH]; intros s; cbn [foldl].
    { split; [by left|]. intros [|(? & H & _)]; [done|by apply elem_of_nil in H]. }
    rewrite IH, !hcontains_hdom, !bool_decide_eq_true, hdom_hinsert, elem_of_union, elem_of_singleton. split.
    - intros [[Hk|H]|(y & Hy & Hk)]; [right; exists x; split; [constructor|by symmetry]|by left|right; exists y; split; [by constructor|done]].
    - intros [H|(y & [-> |Hy]%elem_of_cons & Hk)]; [by left; right|left; left; by symmetry|right; by exists y]. }
  destruct previous as [r|]; cbn [prefer]; [|rewrite hcontains_true; setoid_rewrite hget_empty].
  - rewrite Hl, hcontains_true. setoid_rewrite hget_empty. setoid_rewrite list_elem_of_In. setoid_rewrite List.filter_In. split.
    + intros [[]|(id' & [H1 H2] & Hk)]; [done|]. by exists r, id'.
    + intros (r' & id' & [= <-] & H1 & H2 & Hk). right. by exists id'.
  - split; [by intros []|by intros (? & ? & ? & _)].
Qed.

Lemma collect_inv {A B} (f : A → cresult B) l l' : collect f l = Ok l' → Forall2 (λ x y, f x = Ok y) l l'.
Proof.
  unfold collect. intros H. pose proof (foldM_collect f [] l) as Hl. rewrite H in Hl. by destruct Hl as (new & -> & Hn).
Qed.
Lemma locked_summaries_keys r l l' pm :
  locked_summaries r l = Ok l' → pm ∈ l →
  ∃ s, s ∈ l'.*1 ∧ to_key (sum_package_id s) = to_key (package_id pm.1).
Proof.
  intros H%collect_inv Hin. apply list_elem_of_lookup in Hin as [i Hi].
  destruct (Forall2_lookup_l _ _ _ _ _ H Hi) as ([s m] & Hs & Hl). exists s. split.
  - apply list_elem_of_fmap. exists (s, m). split; [done|]. by eapply list_elem_of_lookup_2.
  - apply bind_Ok_inv in Hl as (s' & Hl & [= -> _]). unfold registry_lock in Hl. destruct (patches_locked r); [|done].
    by apply lock_key in Hl.
Qed.

(** The patches the graph does not use are noted, in the order they are listed. *)
Lemma register_used_patches_spec r ps :
  graph (register_used_patches r ps) = graph r ∧ checksums (register_used_patches r ps) = checksums r ∧
  unused_patches (register_used_patches r ps) =
    (unused_patches r ++ List.filter (λ id, negb (hmem id (Resolve.iter r))) (List.map sum_package_id (concat (hvalues ps))))%list.
Proof.
  unfold register_used_patches. revert r. induction (concat (hvalues ps)) as [|s l IH]; intros r; cbn [foldl List.map List.filter].
  { by rewrite app_nil_r. }
  match goal with |- context [foldl _ ?x l] => set (r1 := x) end.
  assert (H : hmem (sum_package_id s) (Resolve.iter r) = existsb (λ id, id ==? sum_package_id s) (Resolve.iter r)).
  { unfold hmem. induction (Resolve.iter r) as [|y ys IHy]; cbn [existsb]; [done|]. rewrite IHy. f_equal. apply bool_decide_ext. split; intros He; symmetry; exact He. }
  assert (H1 : graph r1 = graph r ∧ checksums r1 = checksums r ∧
    unused_patches r1 = (unused_patches r ++ if hmem (sum_package_id s) (Resolve.iter r) then [] else [sum_package_id s])%list).
  { unfold r1. rewrite H. destruct (existsb _ _); cbn; [by rewrite app_nil_r|done]. }
  destruct H1 as (Hg & Hc & Hu), (IH r1) as (-> & -> & ->). unfold Resolve.iter in *. rewrite Hg, Hc, Hu. split_and!; [done..|].
  destruct (hmem _ _); cbn [negb]; [by rewrite app_nil_r|by rewrite <-app_assoc].
Qed.

Lemma merge_checksums_agree (mine : hashmap PackageId (option string)) l :
  foldM (merge_checksum mine) tt l = Ok tt →
  ∀ id c m, (id, c) ∈ l → hget mine id = Some m → m = c.
Proof.
  induction l as [|[id0 c0] l IH]; intros H id c m Hin Hm; [by apply elem_of_nil in Hin|].
  apply bind_Ok_inv in H as ([] & H1 & H2). apply elem_of_cons in Hin as [[= -> ->]|Hin]; [|by eapply IH].
  unfold merge_checksum in H1. rewrite Hm in H1. case_bool_decide; [done|].
  apply bind_Ok_inv in H1 as (name & _ & H1). destruct c0, m; try discriminate H1; by apply bind_Ok_inv in H1 as (? & _ & ?).
Qed.

(** What the graph is asked for: all members, or those the method selects. *)
Lemma roots_everything ws specs l members :
  member_packages ws = Ok members → roots ws specs Everything = Ok l → l = List.map (λ m, (m, Everything)) members.
Proof.
  unfold roots. intros ->. cbn [mbind res_mbind res_bind]. destruct (package_features _); cbn; congruence.
Qed.

Lemma contains_key r a b : to_key a = to_key b → Resolve.contains r a = Resolve.contains r b.
Proof. intros Hk. unfold Resolve.contains, Graph.contains. by rewrite !hcontains_hdom, Hk. Qed.

(** C20. What resolving with a previous lock file gives.  The graph is the one the
    resolver answers for the question made of the workspace, it has every
    package that is asked for, all members when everything is asked for, and it
    is told to prefer exactly the packages of the previous graph that are not
    to be avoided.  The patches the graph does not use are noted.  A previous lock
    file leaves its metadata and contradicts no checksum of the answer. *)
Theorem resolve_with_previous_spec fuel st method previous to_avoid specs register_patches warn r st'
    (H : resolve_with_previous fuel st method previous to_avoid specs register_patches warn = Some (Ok (r, st'))) :
  ∃ st1 q l resolved warnings,
    register_locks fuel st previous (keep_id to_avoid) = Some (Ok st1) ∧
    question (rv_ws st1) (rv_registry st1) method previous (keep_id to_avoid) specs register_patches = Ok q ∧
    ask fuel q = Some (Ok (resolved, warnings)) ∧ graph r = graph resolved ∧
    roots (rv_ws st1) specs method = Ok l ∧
    (∀ pm, pm ∈ l → Resolve.contains r (package_id pm.1) = true) ∧
    (∀ id, hcontains (q_try_to_use q) id = true ↔
       ∃ prev id', previous = Some prev ∧ id' ∈ Resolve.iter prev ∧ keep_id to_avoid id' = true ∧ to_key id' = to_key id) ∧
    unused_patches r = List.filter (λ id, negb (hmem id (Resolve.iter r)))
                         (List.map sum_package_id (concat (hvalues (patches (q_registry q))))) ∧
    (∀ prev, previous = Some prev → Resolve.metadata r = Resolve.metadata prev ∧
       ∀ id c m, (id, c) ∈ hiter (checksums prev) → hget (checksums r) id = Some m → m = c).
Proof.
  revert H. unfold resolve_with_previous.
  destruct (register_locks _ _ _ _) as [[st1| |]|] eqn:H1; cbn [fbind]; [|done..].
  destruct (question _ _ _ _ _ _ _) as [q| |] eqn:H2; cbn [fbind]; [|done..].
  destruct (ask fuel q) as [[[resolved warnings]| |]|] eqn:H3; cbn [fbind]; [|done..].
  destruct (register_used_patches_spec resolved (patches (q_registry q))) as (Hg & Hc & Hu).
  set (r1 := register_used_patches resolved _) in *. intros H.
  assert (Hr : graph r = graph r1 ∧ unused_patches r = unused_patches r1 ∧
    ∀ prev, previous = Some prev → Resolve.metadata r = Resolve.metadata prev ∧
       ∀ id c m, (id, c) ∈ hiter (checksums prev) → hget (checksums r) id = Some m → m = c).
  { destruct previous as [prev|]; [|by injection H as <- _].
    destruct (merge_from r1 prev) as [r2| |] eqn:Hm; cbn [fbind] in H; [|done..]. injection H as <- _.
    apply bind_Ok_inv in Hm as ([] & Hm & [= <-]). cbn. split_and!; [done..|]. intros prev' [= <-]. split; [done|].
    exact (merge_checksums_agree _ _ Hm). }
  clear H. destruct Hr as (Hgr & Hur & Hprev).
  pose proof (resolve_answer (RG:=at_registry (q_registry q)) _ _ _ _ _ _ _ _ H3) as (cx & Ha & -> & _).
  pose proof H2 as Hq. unfold question in Hq.
  apply bind_Ok_inv in Hq as (reg1 & _ & Hq). apply bind_Ok_inv in Hq as (members & _ & Hq).
  apply bind_Ok_inv in Hq as (reg2 & _ & Hq). apply bind_Ok_inv in Hq as (l & Hl & Hq).
  apply bind_Ok_inv in Hq as (summaries & Hs & Hq). apply bind_Ok_inv in Hq as (replace & _ & [= Hq]).
  exists st1, q, l, (resolve_of cx), warnings. split; [done|]. split; [done|]. split; [done|]. split; [congruence|]. split; [done|].
  split_and!.
  - intros pm Hpm. destruct (locked_summaries_keys _ _ _ _ Hs Hpm) as (s & Hin & Hk).
    rewrite <-(contains_key _ _ _ Hk). unfold Resolve.contains. rewrite Hgr, Hg.
    apply (answer_roots (RG:=at_registry (q_registry q)) _ _ _ _ _ _ _ _ Ha). by rewrite <-Hq.
  - intros id. rewrite <-Hq. apply prefer_spec.
  - rewrite Hur, Hu. unfold Resolve.iter. rewrite Hgr, Hg. done.
  - exact Hprev.
Qed.
End resolve_ops.

(** * A concrete run: the member [w] wants [c], of which 1.0.0 was locked *)
Section runs.
Local Existing Instance sem_lib.
Local Existing Instance hier_lib.
Local Existing Instance std_order.
Local Existing Instance TomlTargets.package_dirs.
Local Existing Instance line_toml.
Local Existing Instance ascii_case.
Local Existing Instance ascii_letters.
Local Existing Instance disk_files.
Local Existing Instance listed_sources.
Definition wants_c : TomlManifest :=
  mkTomlManifest None None
    (Some (@mkTomlProject sem_lib None "w" (1, 0, 0)%nat None None None None None None None None None None None None None None
             None None None None None None None None None None None None)) None None None None None None
    (Some {["c" := TomlManifest.Simple "1.0.0"]}) None None None None None None None None None None.
Definition w_disk (p : string) : option TomlManifest := if String.eqb p "/w" then Some wants_c else None.
Definition w_workspace : Workspace :=
  match Workspace.new (sample_config ∅) no_glob (maybe_from w_disk) 5 "/w/Cargo.toml" with Some (Ok (ws, _)) => ws | _ => empty_workspace end.
Definition locked_c : Resolve := lock_of [(path_id "w" (1, 0, 0), pkg "c" (1, 0, 0))].
Definition run_with (previous : option Resolve) (to_avoid : option (list PackageId)) :=
  resolve_with_previous (sample_config ∅) (local_from w_disk) (λ p, pid_source_id (package_id p)) 20
    (mkResolving w_workspace registry_new []) Everything previous to_avoid [] true true.
Definition answer_ids (o : option (cresult (Resolve * Resolving))) : list (string * Version) :=
  match o with Some (Ok (r, _)) => List.map (λ id, (pid_name id, pid_version id)) (Resolve.iter r) | _ => [] end.

(** What the lock file has is kept, unless it is to be updated. *)
Example newest_c : answer_ids (run_with None None) = [("w", (1, 0, 0)); ("c", (1, 2, 0))].
Proof. vm_eq. Qed.
Example kept_c : answer_ids (run_with (Some locked_c) None) = [("w", (1, 0, 0)); ("c", (1, 0, 0))].
Proof. vm_eq. Qed.
Example updated_c :
  answer_ids (run_with (Some locked_c) (Some [pkg "c" (1, 0, 0)])) = [("w", (1, 0, 0)); ("c", (1, 2, 0))].
Proof. vm_eq. Qed.

Lemma resolve_with_previous_spec_witness :
  ∃ r st', run_with (Some locked_c) None = Some (Ok (r, st')) ∧ Resolve.metadata r = Resolve.metadata locked_c ∧
    ∃ l : list (Package * Method), (∀ pm, pm ∈ l → Resolve.contains r (package_id pm.1) = true).
Proof.
  assert (Hok : match run_with (Some locked_c) None with Some (Ok _) => true | _ => false end = true) by vm_eq.
  destruct (run_with (Some locked_c) None) as [[[r st']| |]|] eqn:E; [|discriminate Hok..]. exists r, st'. split; [reflexivity|].
  destruct (resolve_with_previous_spec (SL:=listed_sources) (sample_config ∅) (local_from w_disk) (λ p, pid_source_id (package_id p)) 20
    (mkResolving w_workspace registry_new []) Everything (Some locked_c) None [] true true r st' E)
    as (st1 & q & l & resolved & warnings & _ & _ & _ & _ & _ & Hl & _ & _ & Hm).
  split; [exact (proj1 (Hm locked_c eq_refl))|]. exists l. exact Hl.
Defined.
End runs.
