(* ===== verification/UpdateLock.v ===== *)
(** Updating the lock file, [src/cargo/ops/cargo_generate_lockfile.rs]: which
    packages are given free, what is resolved then, and what is reported as
    removed, added and updated. *)
From S2P Require Import Prelude Str Extern Path Utf8 SourceId PackageId Graph ConfigValue Config Features Dependency Summary.
From S2P Require Import ResTypes PackageRegistry RegistryTrait Resolve Package TomlManifest ReadManifest Workspace PreviousLocks.
From S2P Require Import Encode LockFileOps ResContext Resolver ResolveOps.

Local Open Scope string_scope.

(** * [BTreeMap] by an order: the entries in ascending order *)
Section btree.
Context {K V : Type} (cmp : K → K → comparison).
(** [*map.entry(k).or_insert(d)] changed by [f]. *)
Fixpoint entry_or_insert (k : K) (d : V) (f : V → V) (m : list (K * V)) : list (K * V) :=
  match m with
  | [] => [(k, f d)]
  | (k', v) :: m' => match cmp k k' with
                     | Lt => (k, f d) :: m
                     | Eq => (k', f v) :: m'
                     | Gt => (k', v) :: entry_or_insert k d f m'
                     end
  end.
(** Strictly ascending keys. *)
Definition ascending (m : list (K * V)) : Prop := StronglySorted (λ a b, cmp a.1 b.1 = Lt) m.

Context (Htot : cmp_total cmp).
Lemma entry_or_insert_elem k d f m x :
  x ∈ entry_or_insert k d f m →
  x ∈ m ∨ (cmp k x.1 = Eq ∧ x.2 = f d) ∨ ∃ v, (x.1, v) ∈ m ∧ cmp k x.1 = Eq ∧ x.2 = f v.
Proof.
  induction m as [|[k' v] m IH]; cbn [entry_or_insert].
  { intros ->%list_elem_of_singleton. right; left. split; [apply (cmp_eq_refl _ Htot)|done]. }
  destruct (cmp k k') eqn:Hk.
  - intros [->|Hx]%elem_of_cons; [|left; by constructor]. right; right. exists v. split; [constructor|done].
  - intros [->|Hx]%elem_of_cons; [|by left]. right; left. split; [apply (cmp_eq_refl _ Htot)|done].
  - intros [->|Hx]%elem_of_cons; [left; constructor|]. destruct (IH Hx) as [?|[?|(v' & ? & ?)]]; [left; by constructor|by right; left|].
    right; right. exists v'. split; [by constructor|done].
Qed.
Lemma entry_or_insert_ascending k d f m : ascending m → ascending (entry_or_insert k d f m).
Proof.
  unfold ascending. induction 1 as [|[k' v] m Hs IH Hall]; cbn [entry_or_insert]; [by repeat constructor|].
  rewrite Forall_forall in Hall. cbn [fst] in Hall. destruct (cmp k k') eqn:Hk.
  - constructor; [done|]. apply Forall_forall. exact Hall.
  - constructor; [by constructor; [|apply Forall_forall]|]. apply Forall_forall. intros x [->|Hx]%elem_of_cons; [done|]. cbn.
    apply (cmp_lt_le_trans _ Htot _ k'); [done|]. unfold cmp_le. by rewrite Hall.
  - constructor; [done|]. apply Forall_forall. intros x [Hx|[[Hx _]|(v' & Hin & _)]]%entry_or_insert_elem; cbn.
    + by apply Hall.
    + rewrite <-(cmp_eq_r _ Htot _ _ k' Hx). by rewrite (cmp_opp _ Htot k k'), Hk.
    + exact (Hall _ Hin).
Qed.
(** In an ascending map keys that the order identifies have one entry. *)
Lemma ascending_unique m x y : ascending m → x ∈ m → y ∈ m → cmp x.1 y.1 = Eq → x = y.
Proof.
  induction 1 as [|z m Hs IH Hall]; [by intros ?%elem_of_nil|]. rewrite Forall_forall in Hall.
  intros [->|Hx]%elem_of_cons [->|Hy]%elem_of_cons Hc; [done| | |by apply IH].
  - by rewrite (Hall _ Hy) in Hc.
  - apply (cmp_eq_sym _ Htot) in Hc. by rewrite (Hall _ Hx) in Hc.
Qed.
(** The elements of all entries, when an update adds one. *)
Lemma entry_or_insert_values {A} (g : V → list A) x k d f m :
  g d = [] → (∀ v, g (f v) ≡ₚ x ++ g v) → concat (List.map (λ e, g e.2) (entry_or_insert k d f m)) ≡ₚ x ++ concat (List.map (λ e, g e.2) m).
Proof.
  intros Hd Hf. induction m as [|[k' v] m IH]; cbn [entry_or_insert List.map concat snd].
  { by rewrite Hf, Hd, !app_nil_r. }
  destruct (cmp k k'); cbn [List.map concat snd]; [by rewrite Hf, app_assoc|by rewrite Hf, Hd, app_nil_r|].
  rewrite IH. solve_Permutation.
Qed.
End btree.

Abbreviation Changes := (list ((string * SourceId) * (list PackageId * list PackageId))).

Section update.
Context `{SV : SemverLib} `{UL : UrlLib} `{RS : RustStd} `{US : UnicodeStd} `{SL : !SourceLib} `{FS : FileSystem} `{TL : TomlLib} `{UC : UnicodeCase}.

(** * What changed *)
(** [key] with its derived order. *)
Definition dep_key (dep : PackageId) : string * SourceId := (pid_name dep, pid_source_id dep).
Definition dep_key_cmp (a b : string * SourceId) : comparison := cmp_then (String.compare a.1 b.1) (source_id_cmp a.2 b.2).

(** [slice.binary_search] in a sorted slice, as the slice from the element that
    is found on; of several equal elements this takes the first. *)
Fixpoint search_from {A} (cmp : A → A → comparison) (x : A) (l : list A) : option (list A) :=
  match l with
  | [] => None
  | y :: l' => match cmp y x with Eq => Some l | _ => search_from cmp x l' end
  end.
Definition subtracted (b : list PackageId) (a : PackageId) : bool :=
  match search_from package_id_cmp a b with
  | None => true
  | Some bs =>
      if is_registry (pid_source_id a) then false
      else forallb (λ b, negb (bool_decide (sid_precise (pid_source_id a) = sid_precise (pid_source_id b))))
             (take_while (λ b, a ==? b) bs)
  end.
Definition vec_subtract (a b : list PackageId) : list PackageId := List.filter (subtracted b) a.

Definition note_old (changes : Changes) (dep : PackageId) : Changes :=
  entry_or_insert dep_key_cmp (dep_key dep) ([], []) (λ v, (v.1 ++ [dep], v.2)%list) changes.
Definition note_new (changes : Changes) (dep : PackageId) : Changes :=
  entry_or_insert dep_key_cmp (dep_key dep) ([], []) (λ v, (v.1, v.2 ++ [dep])%list) changes.
Definition subtract_both (v : list PackageId * list PackageId) : list PackageId * list PackageId :=
  let old := sort_by package_id_cmp v.1 in
  let new := sort_by package_id_cmp v.2 in
  (vec_subtract old new, vec_subtract new old).
Definition grouped (previous resolve : Resolve) : Changes :=
  foldl note_new (foldl note_old [] (Resolve.iter previous)) (Resolve.iter resolve).
Definition compare_dependency_graphs (previous resolve : Resolve) : list (list PackageId * list PackageId) :=
  List.map (λ kv, subtract_both kv.2) (grouped previous resolve).

(** The statuses printed, each with its message. *)
Definition change_lines (change : list PackageId * list PackageId) : cresult (list (string * string)) :=
  match change with
  | ([removed], [added]) =>
      name ← PackageId.display removed;
      if is_git (pid_source_id removed) then
        precise ← unwrap (sid_precise (pid_source_id added));
        short ← slice_to 8 precise;
        Ok [("Updating", name ++ " -> #" ++ short)]
      else Ok [("Updating", name ++ " -> v" ++ version_to_string (pid_version added))]
  | (removed, added) =>
      r ← collect (λ p, name ← PackageId.display p; Ok ("Removing", name)) removed;
      a ← collect (λ p, name ← PackageId.display p; Ok ("Adding", name)) added;
      Ok (r ++ a)%list
  end.

(** * What is given free *)
(** [struct UpdateOptions], without the configuration *)
Record UpdateOptions := mkUpdateOptions { to_update : list string; uo_precise : option string; aggressive : bool }.
(** A set that grows, and the nodes visited. *)
Fixpoint fill_with_deps (fuel : nat) (r : Resolve) (st : hashset PackageId * hashset PackageId) (dep : PackageId)
    : option (hashset PackageId * hashset PackageId) :=
  match fuel with
  | O => None
  | S fuel => let '(set, visited) := st in
      if hcontains visited dep then Some st
      else fold_some (fill_with_deps fuel r) (hinsert dep tt set, hinsert dep tt visited) (deps_not_replaced r dep)
  end.
Definition precise_source (opts : UpdateOptions) (dep : PackageId) : SourceId :=
  match uo_precise opts with
  | Some precise =>
      let precise := if is_registry (pid_source_id dep)
                     then pid_name dep ++ "=" ++ version_to_string (pid_version dep) ++ "->" ++ precise else precise in
      SourceId.with_precise (pid_source_id dep) (Some precise)
  | None => SourceId.with_precise (pid_source_id dep) None
  end.
Definition free_package (previous : Resolve) (opts : UpdateOptions) (st : hashset PackageId * list SourceId) (name : string)
    : option (cresult (hashset PackageId * list SourceId)) :=
  let '(to_avoid, sources) := st in
  let* dep := Some (Resolve.query previous name) in
  if aggressive opts then
    let* (to_avoid, _) := lift_some (fill_with_deps (enough previous) previous (to_avoid, ∅) dep) in
    Some (Ok (to_avoid, sources))
  else Some (Ok (hinsert dep tt to_avoid, sources ++ [precise_source opts dep])%list).
(** [to_avoid] and [sources]. *)
Definition freed (previous : Resolve) (opts : UpdateOptions) : option (cresult (hashset PackageId * list SourceId)) :=
  match to_update opts with
  | [] => Some (Ok (foldl (λ s p, hinsert p tt s) ∅ (Resolve.iter previous), []))
  | names => fold_fuel (free_package previous opts) (∅, []) names
  end.

(** * The operations *)
Context (config : Config) (read_local : path → cresult Package).
Context (deserialize_lock : toml → cresult EncodableResolve).
Context (show_string : string → string) (show_table : gmap string string → string).
Context (preloaded_source : Package → Source).

(** The answer, what is written, and the statuses. *)
Definition Updated : Type := Resolve * Resolving * option string * list (string * string).
Definition generate_lockfile (fuel : nat) (ws : Workspace) : option (cresult Updated) :=
  let* (resolve, st) := resolve_with_previous config read_local preloaded_source fuel (mkResolving ws registry_new []) Everything
                          None None [] true true in
  let* written := write_pkg_lockfile config read_local deserialize_lock show_string show_table fuel (rv_ws st) resolve in
  Some (Ok (resolve, st, written, [])).
Definition register_sources (r : PackageRegistry) (opts : UpdateOptions) (sources : list SourceId) : cresult PackageRegistry :=
  match to_update opts with
  | [] => Ok r
  | _ => '(_, r) ← on_registry (add_sources r sources); Ok r
  end.
Definition update_lockfile (fuel : nat) (ws : Workspace) (opts : UpdateOptions) : option (cresult Updated) :=
  if aggressive opts && bool_decide (is_Some (uo_precise opts))
  then Some (Err "cannot specify both aggressive and precise simultaneously")
  else
    let* members := Some (member_packages ws) in
    if (length members =? 0)%nat then Some (Err "you can't generate a lockfile for an empty workspace.")
    else if offline (cli_flags config) then Some (Err "you can't update in the offline mode")
    else
      let* (prev, ws, printed) := load_pkg_lockfile read_local deserialize_lock fuel ws in
      match prev with
      | None => generate_lockfile fuel ws
      | Some previous =>
          let* (to_avoid, sources) := freed previous opts in
          let* registry := Some (register_sources registry_new opts sources) in
          let* (resolve, st) := resolve_with_previous config read_local preloaded_source fuel (mkResolving ws registry printed)
                                  Everything (Some previous) (Some (hkeys to_avoid)) [] true true in
          let* lines := Some (collect change_lines (compare_dependency_graphs previous resolve)) in
          let* written := write_pkg_lockfile config read_local deserialize_lock show_string show_table fuel (rv_ws st) resolve in
          Some (Ok (resolve, st, written, concat lines))
      end.
End update.

(** * Facts *)
Lemma filter_bool_perm {A} (f : A → bool) l l' : l ≡ₚ l' → List.filter f l ≡ₚ List.filter f l'.
Proof.
  induction 1 as [|x l l' Hl IH|x y l|l l' l'' _ IH1 _ IH2]; cbn [List.filter]; [done| | |by etransitivity].
  - destruct (f x); by rewrite IH.
  - destruct (f x), (f y); try done. by constructor.
Qed.
Lemma filter_concat {A B} (f : A → bool) (g : B → list A) l :
  List.filter f (concat (List.map g l)) = concat (List.map (λ x, List.filter f (g x)) l).
Proof. induction l as [|x l IH]; cbn [List.map concat]; [done|]. by rewrite List.filter_app, IH. Qed.
Lemma NoDup_concat_elem {A B K} (f : A → K) (g : B → list A) l x :
  NoDup (f <$> concat (List.map g l)) → x ∈ l → NoDup (f <$> g x).
Proof.
  induction l as [|y l IH]; cbn [List.map concat]; [by intros _ ?%elem_of_nil|]. rewrite fmap_app, NoDup_app.
  intros (H1 & _ & H2) [->|Hx]%elem_of_cons; auto.
Qed.
Lemma concat_map_perm {A B} (f g : B → list A) l :
  (∀ x, x ∈ l → f x ≡ₚ g x) → concat (List.map f l) ≡ₚ concat (List.map g l).
Proof.
  induction l as [|x l IH]; intros H; cbn [List.map concat]; [done|]. rewrite (H x), IH; [done| |constructor].
  intros y Hy. apply H. by constructor.
Qed.
Lemma elem_of_concat_map {A B} (f : B → list A) l a : a ∈ concat (List.map f l) ↔ ∃ x, x ∈ l ∧ a ∈ f x.
Proof.
  induction l as [|y l IH]; cbn [List.map concat].
  - split; [by intros ?%elem_of_nil|by intros (x & ?%elem_of_nil & _)].
  - rewrite elem_of_app, IH. setoid_rewrite elem_of_cons. naive_solver.
Qed.

Section facts.
Context `{SV : SemverLib} `{UL : UrlLib} `{!SemverLaws} `{!UrlLaws}.

Lemma dep_key_cmp_total : cmp_total dep_key_cmp.
Proof.
  apply cmp_total_then; [exact (cmp_total_on fst _ string_cmp_total)|exact (cmp_total_on snd _ source_id_cmp_total)].
Qed.
Lemma package_id_cmp_dep_key p q : package_id_cmp p q = Eq → dep_key_cmp (dep_key p) (dep_key q) = Eq.
Proof.
  intros (_ & Hn & Hs)%package_id_cmp_eq. unfold dep_key_cmp, dep_key. cbn [fst snd].
  by rewrite Hn, (cmp_eq_refl _ string_cmp_total), Hs.
Qed.

(** A package of the other graph is the same package: for a source that is no
    registry it also has the same precise version. *)
Definition same_package (p q : PackageId) : bool :=
  match package_id_cmp p q with Eq => true | _ => false end &&
  (is_registry (pid_source_id p) || bool_decide (sid_precise (pid_source_id p) = sid_precise (pid_source_id q))).
Definition survives (l : list PackageId) (p : PackageId) : bool := existsb (same_package p) l.
Lemma survives_true l p : survives l p = true ↔ ∃ q, q ∈ l ∧ same_package p q = true.
Proof. unfold survives. rewrite existsb_exists. by setoid_rewrite list_elem_of_In. Qed.

Lemma search_from_spec {A} (cmp : A → A → comparison) x l :
  match search_from cmp x l with
  | None => ∀ y, y ∈ l → cmp y x ≠ Eq
  | Some bs => ∃ pre y post, l = (pre ++ y :: post)%list ∧ bs = y :: post ∧ cmp y x = Eq
  end.
Proof.
  induction l as [|y l IH]; cbn [search_from]; [by intros y ?%elem_of_nil|].
  destruct (cmp y x) eqn:Hy; [exists [], y, l; by split_and!|..];
    (destruct (search_from cmp x l) as [bs|]; [destruct IH as (pre & z & post & -> & -> & Hz); by exists (y :: pre), z, post|];
     intros z [->|Hz]%elem_of_cons; [congruence|by apply IH]).
Qed.
(** What [vec_subtract] takes away from a slice without repetitions. *)
Lemma subtracted_spec b a : NoDup (to_key <$> b) → subtracted b a = negb (survives b a).
Proof.
  intros Hnd. unfold subtracted. pose proof (search_from_spec package_id_cmp a b) as Hs.
  destruct (search_from package_id_cmp a b) as [bs|].
  - destruct Hs as (pre & y & post & -> & -> & Hy). apply (cmp_eq_sym _ package_id_cmp_total) in Hy.
    apply package_id_cmp_eq in Hy as Hk. destruct Hk as (Hk & _).
    assert (Hother : ∀ q, q ∈ (pre ++ post)%list → to_key q ≠ to_key a).
    { intros q Hq Hqk. rewrite fmap_app, fmap_cons in Hnd. rewrite <-Permutation_middle in Hnd.
      apply NoDup_cons in Hnd as [Hn _]. apply Hn. rewrite <-fmap_app, <-Hk, <-Hqk. by apply list_elem_of_fmap_2. }
    assert (Hsv : survives (pre ++ y :: post) a = is_registry (pid_source_id a) || bool_decide (sid_precise (pid_source_id a) = sid_precise (pid_source_id y))).
    { apply eq_true_iff_eq. rewrite survives_true. split.
      - intros (q & Hq & Hsame). unfold same_package in Hsame. destruct (package_id_cmp a q) eqn:Hc; [|done..].
        apply package_id_cmp_eq in Hc as (Hc & _). apply elem_of_app in Hq as [Hq|[->|Hq]%elem_of_cons]; [|done|].
        + destruct (Hother q); [apply elem_of_app; by left|done].
        + destruct (Hother q); [apply elem_of_app; by right|done].
      - intros Ho. exists y. split; [apply elem_of_app; right; constructor|]. unfold same_package. by rewrite Hy. }
    rewrite Hsv. destruct (is_registry _); [done|]. cbn [orb take_while]. rewrite (proj2 (heqb_true a y)) by done.
    assert (Ht : take_while (λ b, a ==? b) post = []).
    { destruct post as [|z post]; [done|]. cbn [take_while]. rewrite (proj2 (heqb_false a z)); [done|]. intros Hz.
      apply (Hother z); [apply elem_of_app; right; constructor|by symmetry]. }
    rewrite Ht. cbn [forallb]. by rewrite andb_true_r.
  - symmetry. apply negb_true_iff, not_true_iff_false. intros (q & Hq & Hsame)%survives_true. unfold same_package in Hsame.
    destruct (package_id_cmp a q) eqn:Hc; [|done..]. apply (cmp_eq_sym _ package_id_cmp_total) in Hc. by destruct (Hs q Hq).
Qed.

Lemma survives_perm l l' p : l ≡ₚ l' → survives l p = survives l' p.
Proof. intros Hp. apply eq_true_iff_eq. rewrite !survives_true. by setoid_rewrite Hp. Qed.
Lemma vec_subtract_spec a b :
  NoDup (to_key <$> b) →
  vec_subtract (sort_by package_id_cmp a) (sort_by package_id_cmp b) ≡ₚ List.filter (λ p, negb (survives b p)) a.
Proof.
  intros Hnd. unfold vec_subtract. rewrite (filter_ext (subtracted (sort_by package_id_cmp b)) (λ p, negb (survives b p))).
  - apply filter_bool_perm, sort_by_perm.
  - intros p. rewrite subtracted_spec; [|by rewrite sort_by_perm]. f_equal. apply survives_perm, sort_by_perm.
Qed.

(** The groups hold the packages of both graphs, each with its name and source. *)
Record grouping (old new : list PackageId) (g : Changes) : Prop := {
  gr_ascending : ascending dep_key_cmp g;
  gr_old : concat (List.map (λ e, e.2.1) g) ≡ₚ old;
  gr_new : concat (List.map (λ e, e.2.2) g) ≡ₚ new;
  gr_keyed : ∀ e p, e ∈ g → p ∈ (e.2.1 ++ e.2.2)%list → dep_key_cmp (dep_key p) e.1 = Eq;
}.
Lemma grouping_note old new g p f x y :
  grouping old new g →
  (∀ v, (f v).1 ≡ₚ x ++ v.1) → (∀ v, (f v).2 ≡ₚ y ++ v.2) → (∀ q, q ∈ (x ++ y)%list → q = p) →
  grouping (x ++ old) (y ++ new) (entry_or_insert dep_key_cmp (dep_key p) ([], []) f g).
Proof.
  intros [Ha Ho Hn Hk] Hf1 Hf2 Hxy. split.
  - by apply entry_or_insert_ascending; [apply dep_key_cmp_total|].
  - rewrite (entry_or_insert_values _ fst x); [by rewrite Ho|done|done].
  - rewrite (entry_or_insert_values _ snd y); [by rewrite Hn|done|done].
  - assert (Hcase : ∀ v q, q ∈ ((f v).1 ++ (f v).2)%list → q = p ∨ q ∈ (v.1 ++ v.2)%list).
    { intros v q. rewrite (Hf1 v), (Hf2 v), !elem_of_app. setoid_rewrite elem_of_app in Hxy. naive_solver. }
    intros e q [He|[[He Hv]|(v & Hin & He & Hv)]]%(entry_or_insert_elem _ dep_key_cmp_total) Hq; [by apply (Hk e)|..];
      rewrite Hv in Hq; destruct (Hcase _ _ Hq) as [->|Hq']; [done|by apply elem_of_nil in Hq'|done|].
    exact (Hk _ _ Hin Hq').
Qed.
Lemma grouped_spec `{RustStd} previous resolve : grouping (Resolve.iter previous) (Resolve.iter resolve) (grouped previous resolve).
Proof.
  unfold grouped.
  assert (Hnil : grouping [] [] []) by (split; [constructor|done|done|by intros e p ?%elem_of_nil]).
  assert (Hold : ∀ l old new g, grouping old new g → grouping (l ++ old) new (foldl note_old g l)).
  { induction l as [|d l IH]; intros old new g Hg; cbn [foldl app]; [done|].
    destruct (IH ([d] ++ old)%list ([] ++ new)%list (note_old g d)) as [A1 A2 A3 A4].
    - apply grouping_note; [done|intros v; cbn; by rewrite Permutation_app_comm|done|by intros q ->%list_elem_of_singleton].
    - split; [done|rewrite A2; solve_Permutation|done|done]. }
  assert (Hnew : ∀ l old new g, grouping old new g → grouping old (l ++ new) (foldl note_new g l)).
  { induction l as [|d l IH]; intros old new g Hg; cbn [foldl app]; [done|].
    destruct (IH ([] ++ old)%list ([d] ++ new)%list (note_new g d)) as [A1 A2 A3 A4].
    - apply grouping_note; [done|done|intros v; cbn; by rewrite Permutation_app_comm|by intros q ->%list_elem_of_singleton].
    - split; [done|done|rewrite A3; solve_Permutation|done]. }
  pose proof (Hnew (Resolve.iter resolve) _ _ _ (Hold (Resolve.iter previous) _ _ _ Hnil)) as Hg. by rewrite !app_nil_r in Hg.
Qed.

(** Whether a package survives is decided in its group. *)
Lemma survives_group (a b : list PackageId * list PackageId → list PackageId) old new g e p l :
  grouping old new g → (∀ v q, q ∈ a v → q ∈ (v.1 ++ v.2)%list) → (∀ v q, q ∈ b v → q ∈ (v.1 ++ v.2)%list) →
  concat (List.map (λ e, b e.2) g) ≡ₚ l → e ∈ g → p ∈ a e.2 → survives (b e.2) p = survives l p.
Proof.
  intros [Hasc _ _ Hk] Ha Hb Hl He Hp. apply eq_true_iff_eq. rewrite !survives_true. split.
  - intros (q & Hq & Hs). exists q. split; [|done]. rewrite <-Hl. apply elem_of_concat_map. by exists e.
  - intros (q & Hq & Hs). exists q. split; [|done]. rewrite <-Hl in Hq. apply elem_of_concat_map in Hq as (e' & He' & Hq).
    enough (e' = e) as -> by done. apply (ascending_unique _ dep_key_cmp_total g); [done..|].
    unfold same_package in Hs. destruct (package_id_cmp p q) eqn:Hc; [|done..]. apply package_id_cmp_dep_key in Hc.
    pose proof dep_key_cmp_total as Ht. pose proof (Hk _ _ He (Ha _ _ Hp)) as Kp. pose proof (Hk _ _ He' (Hb _ _ Hq)) as Kq.
    rewrite <-(cmp_eq_l _ Ht _ _ _ Kq), <-(cmp_eq_r _ Ht _ _ _ Kp). by apply (cmp_eq_sym _ Ht).
Qed.
Lemma subtract_groups (a b : list PackageId * list PackageId → list PackageId) old new g la lb :
  grouping old new g → (∀ v q, q ∈ a v → q ∈ (v.1 ++ v.2)%list) → (∀ v q, q ∈ b v → q ∈ (v.1 ++ v.2)%list) →
  concat (List.map (λ e, a e.2) g) ≡ₚ la → concat (List.map (λ e, b e.2) g) ≡ₚ lb → NoDup (to_key <$> lb) →
  concat (List.map (λ e, vec_subtract (sort_by package_id_cmp (a e.2)) (sort_by package_id_cmp (b e.2))) g) ≡ₚ
    List.filter (λ p, negb (survives lb p)) la.
Proof.
  intros Hg Ha Hb Hla Hlb Hnd. rewrite <-(filter_bool_perm _ _ _ Hla), filter_concat. apply concat_map_perm. intros e He.
  rewrite vec_subtract_spec.
  - assert (Hext : ∀ l, (∀ p, p ∈ l → p ∈ a e.2) →
      List.filter (λ p, negb (survives (b e.2) p)) l = List.filter (λ p, negb (survives lb p)) l); [|by rewrite Hext].
    induction l as [|p l IH]; intros Hin; cbn [List.filter]; [done|].
    rewrite (survives_group a b old new g e p lb) by (done || (apply Hin; constructor)).
    rewrite IH; [done|]. intros q Hq. apply Hin. by constructor.
  - eapply (NoDup_concat_elem to_key (λ e, b e.2) g); [by rewrite Hlb|done].
Qed.

Lemma iter_nodup `{RustStd} r : wf (graph r) → NoDup (to_key <$> Resolve.iter r).
Proof. intros [Hwf _]. unfold Resolve.iter, Graph.iter. by apply NoDup_hkeys. Qed.
Lemma dep_key_same p q :
  dep_key_cmp (dep_key p) (dep_key q) = Eq → pid_name p = pid_name q ∧ to_key (pid_source_id p) = to_key (pid_source_id q).
Proof.
  unfold dep_key_cmp, dep_key. cbn [fst snd]. destruct (String.compare _ _) eqn:Hn; [|done..]. apply String.compare_eq_iff in Hn.
  cbn [cmp_then]. intros Hs. split; [done|by apply source_id_cmp_key].
Qed.
Lemma subtract_both_elem v p : p ∈ ((subtract_both v).1 ++ (subtract_both v).2)%list → p ∈ (v.1 ++ v.2)%list.
Proof.
  assert (Hs : ∀ f l, p ∈ List.filter f (sort_by package_id_cmp l) → p ∈ l).
  { intros f l [H3 _]%list_elem_of_In%List.filter_In. apply list_elem_of_In in H3. by rewrite sort_by_perm in H3. }
  unfold subtract_both, vec_subtract. cbn [fst snd]. rewrite !elem_of_app. intros [H3|H3]; [left|right]; exact (Hs _ _ H3).
Qed.

(** C28. What an update reports.  Over all changes, removed are exactly the
    packages of the previous graph that the new one does not have, and added
    those of the new graph that the previous one does not have; a package whose
    source is no registry counts as the same only at the same precise version.
    The packages of one change have one name and one source. *)
Theorem compare_dependency_graphs_spec `{RustStd} previous resolve
    (Hp : wf (graph previous)) (Hr : wf (graph resolve)) :
  let changes := compare_dependency_graphs previous resolve in
  concat (List.map fst changes) ≡ₚ List.filter (λ p, negb (survives (Resolve.iter resolve) p)) (Resolve.iter previous) ∧
  concat (List.map snd changes) ≡ₚ List.filter (λ p, negb (survives (Resolve.iter previous) p)) (Resolve.iter resolve) ∧
  ∀ removed added p q, (removed, added) ∈ changes → p ∈ (removed ++ added)%list → q ∈ (removed ++ added)%list →
    pid_name p = pid_name q ∧ to_key (pid_source_id p) = to_key (pid_source_id q).
Proof.
  intros changes. pose proof (grouped_spec previous resolve) as Hg. pose proof Hg as [_ Ho Hn Hk].
  assert (Hl : ∀ (v : list PackageId * list PackageId) q, q ∈ v.1 → q ∈ (v.1 ++ v.2)%list) by (intros; apply elem_of_app; by left).
  assert (Hr' : ∀ (v : list PackageId * list PackageId) q, q ∈ v.2 → q ∈ (v.1 ++ v.2)%list) by (intros; apply elem_of_app; by right).
  unfold changes, compare_dependency_graphs. rewrite !List.map_map. split_and!.
  - exact (subtract_groups fst snd _ _ _ _ _ Hg Hl Hr' Ho Hn (iter_nodup _ Hr)).
  - exact (subtract_groups snd fst _ _ _ _ _ Hg Hr' Hl Hn Ho (iter_nodup _ Hp)).
  - intros removed added p q Hin Hpin Hqin. apply list_elem_of_In, in_map_iff in Hin as (e & He & Hin).
    apply list_elem_of_In in Hin. injection He as <- <-. apply dep_key_same.
    apply subtract_both_elem in Hpin, Hqin. pose proof dep_key_cmp_total as Ht.
    rewrite (cmp_eq_l _ Ht _ _ _ (Hk e p Hin Hpin)). by apply (cmp_eq_sym _ Ht), Hk.
Qed.
End facts.

(** * What is given free *)
Section free.
Context `{SV : SemverLib} `{UL : UrlLib} `{RS : RustStd} `{US : UnicodeStd} (previous : Resolve).
Local Arguments hinsert : simpl never.

(** The search is [add_deps] over the visited nodes, which are added to the set. *)
Definition fills (st st' : hashset PackageId * hashset PackageId) : Prop :=
  hdom st.2 ⊆ hdom st'.2 ∧ hdom st'.1 = hdom st.1 ∪ (hdom st'.2 ∖ hdom st.2).
Lemma fills_trans st1 st2 st3 : fills st1 st2 → fills st2 st3 → fills st1 st3.
Proof.
  intros [G1 H1] [G2 H2]. split; [by etransitivity|]. rewrite H2, H1. apply set_eq. intros x.
  rewrite !elem_of_union, !elem_of_difference. destruct (decide (x ∈ hdom st2.2)); set_solver.
Qed.
Lemma fold_fills fuel l :
  (∀ st d, snd <$> fill_with_deps fuel previous st d = add_deps fuel previous st.2 d ∧
           ∀ st', fill_with_deps fuel previous st d = Some st' → fills st st') →
  ∀ st, snd <$> fold_some (fill_with_deps fuel previous) st l = fold_some (add_deps fuel previous) st.2 l ∧
        ∀ st', fold_some (fill_with_deps fuel previous) st l = Some st' → fills st st'.
Proof.
  intros Hf. induction l as [|d l IH]; intros st; cbn [fold_some].
  - split; [done|]. intros st' [= <-]. split; set_solver.
  - destruct (Hf st d) as [He Hfill]. rewrite <-He. destruct (fill_with_deps fuel previous st d) as [st1|]; cbn; [|done].
    destruct (IH st1) as [H1 H2]. split; [exact H1|]. intros st' H3. eapply fills_trans; [by apply Hfill|by apply H2].
Qed.
Lemma fill_with_deps_fills fuel : ∀ st d,
  snd <$> fill_with_deps fuel previous st d = add_deps fuel previous st.2 d ∧
  ∀ st', fill_with_deps fuel previous st d = Some st' → fills st st'.
Proof.
  induction fuel as [|fuel IH]; intros [set visited] d; cbn [fill_with_deps add_deps snd]; [done|].
  destruct (hcontains visited d) eqn:Hc.
  { split; [done|]. intros st' [= <-]. split; set_solver. }
  destruct (fold_fills fuel (deps_not_replaced previous d) IH (hinsert d tt set, hinsert d tt visited)) as [H1 H2].
  split; [exact H1|]. intros st' H. apply H2 in H as [G F]. rewrite hcontains_hdom in Hc. apply bool_decide_eq_false in Hc.
  unfold fills. cbn [fst snd] in *. rewrite !hdom_hinsert in *. split; [set_solver|]. rewrite F. apply set_eq. intros x.
  destruct (decide (x = to_key d)); set_solver.
Qed.
(** From an empty visited set: the node and all it depends on. *)
Lemma fill_with_deps_spec set d :
  ∃ set' visited, fill_with_deps (enough previous) previous (set, ∅) d = Some (set', visited) ∧
    ∀ x, to_key x ∈ hdom set' ↔ to_key x ∈ hdom set ∨ reaches previous d x.
Proof.
  destruct (fill_with_deps_fills (enough previous) (set, ∅) d) as [H1 H2]. destruct (add_deps_enough previous ∅ d) as [v Hv].
  cbn [snd] in H1. rewrite Hv in H1. destruct (fill_with_deps _ _ _ _) as [[set' visited]|]; [|done]. injection H1 as ->.
  exists set', v. split; [done|]. destruct (H2 _ eq_refl) as [_ He]. cbn [fst snd] in He. apply add_deps_spec in Hv as Ha.
  assert (Hempty : hdom (∅ : hashset PackageId) = ∅) by (unfold hdom; apply dom_empty_L).
  intros x. rewrite He, Hempty, difference_empty_L, elem_of_union. split; (intros [?|Hx]; [by left|]).
  - destruct (ad_only _ _ _ _ Ha x Hx) as [Hx'|(n & ->%list_elem_of_singleton & Hr)]; [by rewrite Hempty in Hx'|by right].
  - right. destruct Hx as (c & Hc & Hk). rewrite <-Hk. assert (Hin : to_key d ∈ hdom v) by (apply (ad_in _ _ _ _ Ha); constructor).
    assert (Hclosed : ∀ a b, to_key a ∈ hdom v → linked previous a b → to_key b ∈ hdom v).
    { intros a b Hav Hl. apply (ad_closed _ _ _ _ Ha a); [done|by rewrite Hempty|done]. }
    clear - Hc Hin Hclosed. induction Hc as [c|c c' c'' Hstep _ IH]; [done|]. by eapply IH, Hclosed.
Qed.

Lemma insert_all_dom l (s : hashset PackageId) k :
  k ∈ hdom (foldl (λ s p, hinsert p tt s) s l) ↔ k ∈ hdom s ∨ k ∈ (to_key <$> l).
Proof.
  revert s. induction l as [|p l IH]; intros s; cbn [foldl]; [set_solver|].
  rewrite IH, hdom_hinsert, fmap_cons, elem_of_cons, elem_of_union, elem_of_singleton. tauto.
Qed.
Lemma ok_exists {A} (x : A) (P : A → Prop) : (∃ y, Ok (E:=string) x = Ok y ∧ P y) ↔ P x.
Proof. split; [by intros (y & [= ->] & Hp)|by exists x]. Qed.
(** The packages one name gives free. *)
Definition frees (opts : UpdateOptions) (name : string) (id : PackageId) : Prop :=
  ∃ dep, Resolve.query previous name = Ok dep ∧
    if aggressive opts then reaches previous dep id else to_key dep = to_key id.
Definition named_source (opts : UpdateOptions) (name : string) : list SourceId :=
  if aggressive opts then []
  else match Resolve.query previous name with Ok dep => [precise_source opts dep] | _ => [] end.
Lemma free_names_spec opts names st :
  match fold_fuel (free_package previous opts) st names with
  | Some (Ok (to_avoid, sources)) =>
      (∀ id, to_key id ∈ hdom to_avoid ↔ to_key id ∈ hdom st.1 ∨ ∃ name, name ∈ names ∧ frees opts name id) ∧
      sources = (st.2 ++ concat (List.map (named_source opts) names))%list
  | Some (Err e) => ∃ name, name ∈ names ∧ Resolve.query previous name = Err e
  | Some (Panic m) => ∃ name, name ∈ names ∧ Resolve.query previous name = Panic m
  | None => False
  end.
Proof.
  revert st. induction names as [|name names IH]; intros [set sources]; cbn [fold_fuel].
  { split; [|cbn; by rewrite app_nil_r]. intros id. split; [by left|]. by intros [|(? & ?%elem_of_nil & _)]. }
  unfold free_package at 1. destruct (Resolve.query previous name) as [dep|e|m] eqn:Hq; cbn [fbind];
    [|by exists name; split; [constructor|]..].
  assert (Hstep : ∃ set', (∀ id, to_key id ∈ hdom set' ↔ to_key id ∈ hdom set ∨ frees opts name id) ∧
    (if aggressive opts then let* (to_avoid, _) := lift_some (fill_with_deps (enough previous) previous (set, ∅) dep) in
       Some (Ok (to_avoid, sources))
     else Some (Ok (hinsert dep tt set, sources ++ [precise_source opts dep])%list)) =
      Some (Ok (set', sources ++ named_source opts name)%list)).
  { unfold frees, named_source. rewrite Hq. setoid_rewrite ok_exists. destruct (aggressive opts).
    - destruct (fill_with_deps_spec set dep) as (set' & v & -> & Hs). exists set'. split; [|cbn; by rewrite app_nil_r].
      exact Hs.
    - exists (hinsert dep tt set). split; [|done]. intros id. rewrite hdom_hinsert, elem_of_union, elem_of_singleton. split; (intros [?|?]; [by right|by left]). }
  destruct Hstep as (set' & Hset & ->). cbn [fbind]. specialize (IH (set', sources ++ named_source opts name)%list).
  destruct (fold_fuel _ _ _) as [[[to_avoid l]|e|m]|]; [|destruct IH as (x & ? & ?); exists x; by split; [constructor|]..|done].
  destruct IH as [H1 H2]. cbn [fst snd List.map concat] in *. split; [|by rewrite H2, <-app_assoc].
  intros id. rewrite H1, Hset. setoid_rewrite elem_of_cons. naive_solver.
Qed.

(** What an update gives free.  Without names that is every package of the
    lock file; otherwise each name, which has to stand for one package, gives
    that package free, and with [aggressive] exactly all that the lock file
    reaches from it.  The search always ends.  The sources to be locked anew
    are those of the named packages at the version asked for. *)
Theorem freed_spec opts :
  match freed previous opts with
  | Some (Ok (to_avoid, sources)) =>
      (∀ id, hcontains to_avoid id = true ↔
         (to_update opts = [] ∧ to_key id ∈ (to_key <$> Resolve.iter previous)) ∨
         ∃ name, name ∈ to_update opts ∧ frees opts name id) ∧
      sources = concat (List.map (named_source opts) (to_update opts))
  | Some (Err e) => ∃ name, name ∈ to_update opts ∧ Resolve.query previous name = Err e
  | Some (Panic m) => ∃ name, name ∈ to_update opts ∧ Resolve.query previous name = Panic m
  | None => False
  end.
Proof.
  assert (Hempty : ∀ k, k ∉ hdom (∅ : hashset PackageId)) by (intros k; unfold hdom; rewrite dom_empty_L; apply not_elem_of_empty).
  unfold freed. destruct (to_update opts) as [|name names]; cbn [List.map concat].
  - split; [|done]. intros id. rewrite hcontains_hdom, bool_decide_eq_true, insert_all_dom. split.
    + intros [[]%Hempty|Hin]. by left.
    + by intros [[_ Hin]|(? & ?%elem_of_nil & _)]; [right|].
  - pose proof (free_names_spec opts (name :: names) (∅, [])) as H.
    destruct (fold_fuel _ _ _) as [[[to_avoid sources]|e|m]|]; [|done..]. destruct H as [H1 H2]. split; [|exact H2].
    intros id. rewrite hcontains_hdom, bool_decide_eq_true, H1. split.
    + intros [[]%Hempty|Hin]. by right.
    + by intros [[? _]|Hin]; [|right].
Qed.
End free.

(** * Concrete runs *)
Section runs.
Local Existing Instance sem_lib.
Local Existing Instance hier_lib.
Local Existing Instance std_order.
Local Existing Instance ascii_letters.

Lemma lock_of_wf edges : wf (graph (lock_of edges)).
Proof.
  unfold lock_of. cbn [graph Resolve.new].
  assert (Hg : ∀ g : Graph PackageId (list Dependency), wf g → wf (foldl (λ g e, edge_to g e.1 e.2) g edges)); [|apply Hg, wf_new].
  induction edges as [|e l IH]; intros g H; cbn [foldl]; [done|]. apply IH. by apply wf_link, wf_add, wf_add.
Qed.

(** [serde] moves to 1.2.0 and drops [log] for [itoa]; a git package moves to
    another commit of the same version. *)
Definition git_at (precise : string) : PackageId :=
  mkPackageId "g" (1, 0, 0) (mkSourceId (UL:=hier_lib) ("https", "h", ["g"], None, None) ("https", "h", ["g"], None, None)
                                        (Git (Branch "master")) (Some precise) None).
Definition before : Resolve :=
  lock_of [(path_id "w" (1, 0, 0), pkg "serde" (1, 0, 0)); (path_id "w" (1, 0, 0), git_at "0123456789");
           (pkg "serde" (1, 0, 0), pkg "log" (1, 0, 0))].
Definition afterwards : Resolve :=
  lock_of [(path_id "w" (1, 0, 0), pkg "serde" (1, 2, 0)); (path_id "w" (1, 0, 0), git_at "abcdefabcd");
           (pkg "serde" (1, 2, 0), pkg "itoa" (1, 0, 0))].
Definition reported : cresult (list (string * string)) :=
  lines ← collect change_lines (compare_dependency_graphs before afterwards); Ok (concat lines).
Example update_reported :
  reported = Ok [("Updating", "g v1.0.0 (https://h/g#01234567) -> #abcdefab"); ("Adding", "itoa v1.0.0");
                 ("Removing", "log v1.0.0"); ("Updating", "serde v1.0.0 -> v1.2.0")].
Proof. vm_eq. Qed.

(** The groups are made by the order of sources, which is finer than their
    equality: a git package whose URL is written differently, though [==]
    identifies the two, is reported as removed and added. *)
Definition written_git (url : string) : PackageId :=
  mkPackageId "g" (1, 0, 0) (mkSourceId (UL:=hier_lib) ("https", "h", [url], None, None) ("https", "h", ["g"], None, None)
                                        (Git (Branch "master")) (Some "0123456789") None).
Definition git_lock (url : string) : Resolve := lock_of [(path_id "w" (1, 0, 0), written_git url)].
Example same_source_reported :
  (written_git "g" ==? written_git "g.git") = true ∧
  List.map (λ c, (length c.1, length c.2)) (compare_dependency_graphs (git_lock "g") (git_lock "g.git")) = [(1, 0); (0, 1); (0, 0)]%nat.
Proof. split; vm_eq. Qed.

Lemma compare_dependency_graphs_spec_witness :
  concat (List.map fst (compare_dependency_graphs before afterwards)) ≡ₚ
    List.filter (λ p, negb (survives (Resolve.iter afterwards) p)) (Resolve.iter before) ∧
  bool_decide (length (List.filter (λ p, negb (survives (Resolve.iter afterwards) p)) (Resolve.iter before)) = 3)%nat = true.
Proof.
  split; [|vm_eq].
  exact (proj1 (compare_dependency_graphs_spec before afterwards (lock_of_wf _) (lock_of_wf _))).
Defined.
End runs.
