(* ===== verification/CompileFilter.v ===== *)
(** What [cargo build] and its relatives compile,
    [src/cargo/ops/cargo_compile.rs]: the packages and targets that are selected
    and the units made of them. *)
From S2P Require Import Prelude Str Extern SourceId PackageId Features Target Cfg Dependency Summary Lev Profiles Graph.
From S2P Require Import Resolve Package UnitDeps ConfigValue Config TomlManifest ReadManifest Workspace.

Local Open Scope string_scope.

(** * Filters *)

(** [enum FilterRule] *)
Inductive FilterRule := RuleAll | Just (names : list string).
Definition rule_new (targets : list string) (all : bool) : FilterRule := if all then RuleAll else Just targets.
Definition rule_matches (r : FilterRule) (t : Target) : bool :=
  match r with RuleAll => true | Just targets => existsb (λ x, String.eqb x (tgt_name t)) targets end.
Definition rule_is_specific (r : FilterRule) : bool :=
  match r with RuleAll => true | Just targets => negb (bool_decide (targets = [])) end.
Definition try_collect (r : FilterRule) : option (list string) :=
  match r with RuleAll => None | Just targets => Some targets end.

(** [enum CompileFilter] *)
Inductive CompileFilter :=
| FilterDefault (required_features_filterable : bool)
| FilterOnly (all_targets lib : bool) (bins examples tests benches : FilterRule).

(** [CompileFilter::new] *)
Definition filter_new (lib_only : bool) (bins : list string) (all_bins : bool) (tsts : list string) (all_tsts : bool)
    (exms : list string) (all_exms : bool) (bens : list string) (all_bens all_targets : bool) : CompileFilter :=
  let rule_bins := rule_new bins all_bins in
  let rule_tsts := rule_new tsts all_tsts in
  let rule_exms := rule_new exms all_exms in
  let rule_bens := rule_new bens all_bens in
  if all_targets then FilterOnly true true RuleAll RuleAll RuleAll RuleAll
  else if lib_only || rule_is_specific rule_bins || rule_is_specific rule_tsts || rule_is_specific rule_exms ||
          rule_is_specific rule_bens
  then FilterOnly false lib_only rule_bins rule_exms rule_tsts rule_bens
  else FilterDefault true.
Definition need_dev_deps (f : CompileFilter) (mode : CompileMode) : cresult bool :=
  match mode with
  | MTest | MDoctest | MBench => Ok true
  | MBuild | MDoc _ | MCheck _ =>
      match f with
      | FilterDefault _ => Ok false
      | FilterOnly _ _ _ examples tests benches =>
          Ok (rule_is_specific examples || rule_is_specific tests || rule_is_specific benches)
      end
  | MRunCustomBuild => Panic "Invalid mode"
  end.
Definition target_run (f : CompileFilter) (t : Target) : bool :=
  match f with
  | FilterDefault _ => true
  | FilterOnly _ lib bins examples tests benches =>
      match tgt_kind t with
      | TBin => rule_matches bins t
      | TTest => rule_matches tests t
      | TBench => rule_matches benches t
      | TExampleBin | TExampleLib _ => rule_matches examples t
      | TLib _ => lib
      | TCustomBuild => false
      end
  end.
Definition filter_is_specific (f : CompileFilter) : bool := match f with FilterDefault _ => false | FilterOnly _ _ _ _ _ _ => true end.

(** [filter_default_targets] *)
Definition filter_default_targets (ts : list Target) (mode : CompileMode) : cresult (list Target) :=
  match mode with
  | MBench => Ok (List.filter benched ts)
  | MTest => Ok (List.filter (λ t, tested t || is_example t) ts)
  | MBuild | MCheck _ => Ok (List.filter (λ t, is_bin t || is_lib t) ts)
  | MDoc _ =>
      Ok (List.filter (λ t, documented t &&
                            (negb (is_bin t) || negb (existsb (λ l, is_lib l && String.eqb (tgt_name l) (tgt_name t)) ts))) ts)
  | MDoctest => Panic "Invalid mode Doctest"
  | MRunCustomBuild => Panic "Invalid mode RunCustomBuild"
  end.

Section targets.
Context `{SV : SemverLib} `{UL : UrlLib} `{RS : RustStd} `{FS : FileSystem}.

(** * Packages *)

(** [enum Packages] *)
Inductive PackageSelection := SelDefault | SelAll | SelOptOut (l : list string) | SelPackages (l : list string).
Definition from_flags (all : bool) (exclude package : list string) : cresult PackageSelection :=
  match all, exclude, package with
  | false, [], [] => Ok SelDefault
  | false, [], _ => Ok (SelPackages package)
  | false, _, _ => Err "--exclude can only be used together with --all"
  | true, [], _ => Ok SelAll
  | true, _, _ => Ok (SelOptOut exclude)
  end.
Definition spec_of (p : Package) : PackageIdSpec := from_package_id (package_id p).
Definition to_package_id_specs `{UnicodeStd} (sel : PackageSelection) (ws : Workspace) : cresult (list PackageIdSpec) :=
  specs ←
    match sel with
    | SelAll => members ← member_packages ws; Ok (List.map spec_of members)
    | SelOptOut opt_out =>
        members ← member_packages ws;
        Ok (List.filter (λ p, negb (existsb (String.eqb (spec_name p)) opt_out)) (List.map spec_of members))
    | SelPackages [] => p ← Workspace.current ws; Ok [spec_of p]
    | SelPackages packages => foldM (λ l p, s ← PackageId.parse p; Ok (l ++ [s])%list) [] packages
    | SelDefault => members ← default_packages ws; Ok (List.map spec_of members)
    end;
  match specs with
  | [] =>
      virtual ← Workspace.is_virtual ws;
      if (virtual : bool) then
        r ← root ws;
        Err ("manifest path `" ++ r ++ "` contains no package: The manifest is virtual, and the workspace has no members.")
      else Err "no packages to compile"
  | _ => Ok specs
  end.
Definition get_packages (sel : PackageSelection) (ws : Workspace) : cresult (list Package) :=
  match sel with
  | SelDefault => default_packages ws
  | SelAll => member_packages ws
  | SelOptOut opt_out =>
      members ← member_packages ws; Ok (List.filter (λ p, negb (existsb (String.eqb (pid_name (package_id p))) opt_out)) members)
  | SelPackages pkgs =>
      members ← member_packages ws;
      foldM (λ l name, match List.find (λ p, String.eqb (pid_name (package_id p)) name) members with
                       | Some p => Ok (l ++ [p])%list
                       | None => Err ("package `" ++ name ++ "` is not a member of the workspace")
                       end) [] pkgs
  end.

(** * Targets *)

(** [struct Proposal] *)
Record Proposal := mkProposal { prop_pkg : Package; prop_target : Target; requires_features : bool; prop_mode : CompileMode }.

(** What the nearest target is, over all packages. *)
Definition suggested (packages : list Package) (target_name : string) (is_expected_kind : Target → bool) : cresult (option Target) :=
  b ← closest_target target_name (concat (List.map (λ pkg, List.filter is_expected_kind (targets pkg)) packages)) None;
  Ok (option_map snd b).
Definition named_targets (packages : list Package) (target_name : string) (is_expected_kind : Target → bool) (mode : CompileMode)
    : list Proposal :=
  concat (List.map (λ pkg, List.map (λ t, mkProposal pkg t true mode)
                             (List.filter (λ t, String.eqb (tgt_name t) target_name && is_expected_kind t) (targets pkg))) packages).
Definition find_named_targets (packages : list Package) (target_name target_desc : string) (is_expected_kind : Target → bool)
    (mode : CompileMode) : cresult (list Proposal) :=
  match named_targets packages target_name is_expected_kind mode with
  | [] =>
      suggestion ← suggested packages target_name is_expected_kind;
      match suggestion with
      | Some s => Err ("no " ++ target_desc ++ " target named `" ++ target_name ++ "`" ++ nl ++ nl ++
                       "Did you mean `" ++ tgt_name s ++ "`?")
      | None => Err ("no " ++ target_desc ++ " target named `" ++ target_name ++ "`")
      end
  | result => Ok result
  end.
Definition list_rule_targets (packages : list Package) (rule : FilterRule) (target_desc : string)
    (is_expected_kind : Target → bool) (mode : CompileMode) : cresult (list Proposal) :=
  match rule with
  | RuleAll =>
      Ok (concat (List.map (λ pkg, List.map (λ t, mkProposal pkg t false mode) (List.filter is_expected_kind (targets pkg))) packages))
  | Just names =>
      foldM (λ result name, l ← find_named_targets packages name target_desc is_expected_kind mode; Ok (result ++ l)%list) [] names
  end.

(** [resolve_all_features] *)
Definition resolve_all_features (r : Resolve) (id : PackageId) : gset string :=
  features_of r id ∪ list_to_set (concat (List.map (λ d : PackageId * list Dependency,
    List.map (λ feature, pid_name d.1 ++ "/" ++ feature) (elements (features_of r d.1))) (Resolve.deps r id))).

(** ** [generate_targets] *)
Section generate.
Context (bcx : BuildContext) (filter : CompileFilter) (default_arch_kind : PlatformKind).

(** The closure [new_unit] *)
Definition requested_for (t : Target) : UnitFor :=
  if mode_is_any_test (build_mode bcx) then new_test else if for_host t then new_compiler else new_normal.
Definition unit_mode_of (t : Target) (mode : CompileMode) : CompileMode :=
  match mode with
  | MTest => if is_example t && negb (filter_is_specific filter) && negb (tested t) then MBuild else MTest
  | MBuild => match tgt_kind t with TTest => MTest | TBench => MBench | _ => MBuild end
  | _ => mode
  end.
Definition final_mode (mode : CompileMode) : CompileMode := match mode with MBench => MTest | _ => mode end.
Definition requested_unit (pkg : Package) (t : Target) (mode : CompileMode) : cresult CUnit :=
  if is_custom_build t then Panic "assertion failed: !target.is_custom_build()"
  else
    let mode := unit_mode_of t mode in
    let kind := if for_host t then KHost else default_arch_kind in
    profile ← get_profile (bcx_profiles bcx) (package_id pkg) (UnitDeps.is_member bcx pkg) (requested_for t) mode (build_release bcx);
    Ok (mkUnit pkg t profile kind (final_mode mode)).

(** Without flags that name targets *)
Definition doctested_lib (t : Target) : bool := is_lib t && doctested t && doctestable t.
Definition default_proposals (filterable : bool) (pkg : Package) : cresult (list Proposal) :=
  default ← filter_default_targets (targets pkg) (build_mode bcx);
  let proposals := List.map (λ t, mkProposal pkg t (negb filterable) (build_mode bcx)) default in
  match build_mode bcx with
  | MTest => match List.find doctested_lib (targets pkg) with
             | Some t => Ok (proposals ++ [mkProposal pkg t false MDoctest])%list
             | None => Ok proposals
             end
  | _ => Ok proposals
  end.

(** [--lib]; the second component is what the shell is told. *)
Definition no_doctests (pkg : Package) (t : Target) : bool := bool_decide (build_mode bcx = MDoctest) && negb (doctestable t).
Definition doctest_warning (pkg : Package) (t : Target) : string :=
  "doc tests are not supported for crate type(s) `" ++ join ", " (rustc_crate_types t) ++ "` in package `" ++ pid_name (package_id pkg) ++ "`".
Definition libs_of (packages : list Package) : list (Package * Target) :=
  concat (List.map (λ pkg, List.map (λ t, (pkg, t)) (List.filter is_lib (targets pkg))) packages).
Definition lib_proposals (packages : list Package) (all_targets : bool) : cresult (list Proposal * list string) :=
  let warnings := List.map (λ pt, doctest_warning pt.1 pt.2) (List.filter (λ pt, no_doctests pt.1 pt.2) (libs_of packages)) in
  let libs := List.map (λ pt, mkProposal pt.1 pt.2 false (build_mode bcx))
                (List.filter (λ pt, negb (no_doctests pt.1 pt.2)) (libs_of packages)) in
  if negb all_targets && bool_decide (length libs = 0%nat) then
    match List.map (λ p, pid_name (package_id p)) packages with
    | [name] => Err ("no library targets found in package `" ++ name ++ "`")
    | names => Err ("no library targets found in packages: " ++ join ", " names)
    end
  else Ok (libs, warnings).
Definition test_filter (r : FilterRule) : Target → bool := match r with RuleAll => tested | Just _ => is_test end.
Definition bench_filter (r : FilterRule) : Target → bool := match r with RuleAll => benched | Just _ => is_bench end.
Definition test_mode : CompileMode := match build_mode bcx with MBuild => MTest | MCheck _ => MCheck true | m => m end.
Definition bench_mode : CompileMode := match build_mode bcx with MBuild => MBench | MCheck _ => MCheck true | m => m end.
Definition proposals (packages : list Package) : cresult (list Proposal * list string) :=
  match filter with
  | FilterDefault filterable =>
      l ← foldM (λ l pkg, p ← default_proposals filterable pkg; Ok (l ++ p)%list) [] packages; Ok (l, [])
  | FilterOnly all_targets lib bins examples tests benches =>
      '(libs, warnings) ← (if lib then lib_proposals packages all_targets else Ok ([], []));
      b ← list_rule_targets packages bins "bin" is_bin (build_mode bcx);
      e ← list_rule_targets packages examples "example" is_example (build_mode bcx);
      t ← list_rule_targets packages tests "test" (test_filter tests) test_mode;
      n ← list_rule_targets packages benches "bench" (bench_filter benches) bench_mode;
      Ok (libs ++ b ++ e ++ t ++ n, warnings)%list
  end.

(** Which proposals become units. *)
Definition unavailable_features (p : Proposal) : list string :=
  match required_features (prop_target p) with
  | Some rf => List.filter (λ f, negb (bool_decide (f ∈ resolve_all_features (bcx_resolve bcx) (package_id (prop_pkg p))))) rf
  | None => []
  end.
Definition available (p : Proposal) : bool := is_lib (prop_target p) || bool_decide (unavailable_features p = []).
Definition missing_features (p : Proposal) : string :=
  let rf := default [] (required_features (prop_target p)) in
  "target `" ++ tgt_name (prop_target p) ++ "` in package `" ++ pid_name (package_id (prop_pkg p)) ++ "` requires the features: " ++
  join ", " (List.map (λ s, "`" ++ s ++ "`") rf) ++ nl ++
  "Consider enabling them by passing e.g. `--features=" ++ quote_str ++ join " " rf ++ quote_str ++ "`".
Definition add_proposal (units : hashset CUnit) (p : Proposal) : cresult (hashset CUnit) :=
  if available p then u ← requested_unit (prop_pkg p) (prop_target p) (prop_mode p); Ok (hinsert u tt units)
  else if requires_features p then Err (missing_features p)
  else Ok units.
(** The units, in the arbitrary order of a hash set, and the warnings. *)
Definition generate_targets (packages : list Package) : cresult (list CUnit * list string) :=
  '(l, warnings) ← proposals packages;
  units ← foldM add_proposal ∅ l;
  Ok (hkeys units, warnings).
End generate.
End targets.

(** * Facts *)
Lemma foldM_gather {X Y} (f : X → cresult (list Y)) l acc :
  match foldM (λ out x, y ← f x; Ok (out ++ y)%list) acc l with
  | Ok out => (∀ a, a ∈ out ↔ a ∈ acc ∨ ∃ x y, x ∈ l ∧ f x = Ok y ∧ a ∈ y) ∧ ∀ x, x ∈ l → ∃ y, f x = Ok y
  | Err e => ∃ x, x ∈ l ∧ f x = Err e
  | Panic m => ∃ x, x ∈ l ∧ f x = Panic m
  end.
Proof.
  revert acc. induction l as [|x l IH]; intros acc; cbn [foldM].
  { split; [|by intros x ?%elem_of_nil]. intros a. split; [by left|]. by intros [|(x & y & ?%elem_of_nil & _)]. }
  destruct (f x) as [y|e|m] eqn:Hx; cbn [mbind res_mbind res_bind]; [|exists x; split; [constructor|done]..].
  specialize (IH (acc ++ y)%list). destruct (foldM _ _ _) as [out|e|m].
  - destruct IH as [H1 H2]. split.
    + intros a. rewrite H1, elem_of_app. split.
      * intros [[?|?]|(x' & y' & ? & ? & ?)]; [by left|right; exists x, y; by repeat constructor|right; exists x', y'; by repeat constructor].
      * intros [?|(x' & y' & [->|?]%elem_of_cons & Hx' & ?)]; [by left; left|left; right; congruence|right; by exists x', y'].
    + intros x' [->|Hx']%elem_of_cons; [by exists y|by apply H2].
  - destruct IH as (x' & ? & ?). exists x'. by split; [constructor|].
  - destruct IH as (x' & ? & ?). exists x'. by split; [constructor|].
Qed.

Lemma hkeys_hdom `{HK : HashKey K} {V} `{RustStd} (m : hashmap K V) k : hwf m → k ∈ (to_key <$> hkeys m) ↔ k ∈ hdom m.
Proof.
  intros Hwf. unfold hdom. rewrite list_elem_of_fmap. setoid_rewrite list_elem_of_fmap. rewrite elem_of_dom. split.
  - intros (x & -> & [y v] & -> & Hin). apply elem_of_hiter in Hin as [i Hi]. pose proof (Hwf _ _ _ Hi) as Hk. cbn in *. rewrite Hk. by eexists.
  - intros [[x v] Hx]. exists x. split; [by rewrite (Hwf _ _ _ Hx)|]. exists (x, v). split; [done|]. apply elem_of_hiter. by eexists.
Qed.

Section facts.
Context `{SV : SemverLib} `{UL : UrlLib} `{RS : RustStd}.

(** ** What the command line selects *)
Definition of_packages (packages : list Package) (p : Proposal) : Prop :=
  prop_pkg p ∈ packages ∧ prop_target p ∈ targets (prop_pkg p).
Definition by_rule (r : FilterRule) (kind : Target → bool) (mode : CompileMode) (p : Proposal) : Prop :=
  kind (prop_target p) = true ∧ prop_mode p = mode ∧
  match r with
  | RuleAll => requires_features p = false
  | Just names => tgt_name (prop_target p) ∈ names ∧ requires_features p = true
  end.
(** Every name of a rule names a target. *)
Definition names_found (packages : list Package) (r : FilterRule) (kind : Target → bool) : Prop :=
  match r with
  | RuleAll => True
  | Just names => ∀ name, name ∈ names → ∃ pkg t, pkg ∈ packages ∧ t ∈ targets pkg ∧ kind t = true ∧ tgt_name t = name
  end.

Lemma named_targets_elem packages name kind mode p :
  p ∈ named_targets packages name kind mode ↔
  of_packages packages p ∧ tgt_name (prop_target p) = name ∧ kind (prop_target p) = true ∧ requires_features p = true ∧ prop_mode p = mode.
Proof.
  unfold named_targets, of_packages. rewrite elem_of_concat_bind. setoid_rewrite elem_of_list_map. setoid_rewrite elem_of_filter_bool.
  split.
  - intros (pkg & Hpkg & t & [Ht Hk] & ->). cbn. apply andb_true_iff in Hk as [Hn%String.eqb_eq Hk]. by split_and!.
  - intros ([H1 H2] & H3 & H4 & H5 & H6). exists (prop_pkg p). split; [done|]. exists (prop_target p).
    split; [|by destruct p; cbn in *; subst]. split; [done|]. by rewrite H4, (proj2 (String.eqb_eq _ _) H3).
Qed.
Lemma closest_target_no_panic name ts best m : closest_target name ts best ≠ Panic m.
Proof.
  revert best. induction ts as [|t ts IH]; intros best; cbn [closest_target]; [done|].
  destruct (lev_distance_spec (scalars name) (scalars (tgt_name t))) as (d & -> & _). apply IH.
Qed.
Lemma find_named_targets_spec packages name desc kind mode :
  match find_named_targets packages name desc kind mode with
  | Ok l => l = named_targets packages name kind mode ∧ l ≠ []
  | Err _ => named_targets packages name kind mode = []
  | Panic _ => False
  end.
Proof.
  unfold find_named_targets. destruct (named_targets _ _ _ _) as [|p l] eqn:Hn; [|done].
  unfold suggested. destruct (closest_target _ _ _) as [b|e|m] eqn:Hc; [|done|by apply closest_target_no_panic in Hc].
  cbn [mbind res_mbind res_bind]. by destruct (option_map _ _).
Qed.
Lemma list_rule_targets_spec packages r desc kind mode :
  match list_rule_targets packages r desc kind mode with
  | Ok l => (∀ p, p ∈ l ↔ of_packages packages p ∧ by_rule r kind mode p) ∧ names_found packages r kind
  | Err _ => ¬ names_found packages r kind
  | Panic _ => False
  end.
Proof.
  unfold list_rule_targets. destruct r as [|names]; cbn [names_found].
  - split; [|done]. intros p. unfold of_packages, by_rule. rewrite elem_of_concat_bind. setoid_rewrite elem_of_list_map.
    setoid_rewrite elem_of_filter_bool. split.
    + intros (pkg & Hpkg & t & [Ht Hk] & ->). by split_and!.
    + intros ([H1 H2] & H3 & H4 & H5). exists (prop_pkg p). split; [done|]. exists (prop_target p).
      split; [done|by destruct p; cbn in *; subst].
  - pose proof (foldM_gather (λ name, find_named_targets packages name desc kind mode) names []) as H.
    destruct (foldM _ _ _) as [l|e|m].
    + destruct H as [H1 H2]. split.
      * intros p. rewrite H1. unfold by_rule. split.
        -- intros [?%elem_of_nil|(name & l' & Hname & Hf & Hp)]; [done|]. pose proof (find_named_targets_spec packages name desc kind mode) as Hs.
           rewrite Hf in Hs. destruct Hs as [-> _]. apply named_targets_elem in Hp as (? & <- & ? & ? & ?). by split_and!.
        -- intros (Hof & Hk & Hm & Hn & Hr). right. destruct (H2 _ Hn) as [l' Hl']. exists (tgt_name (prop_target p)), l'.
           split; [done|]. split; [done|]. pose proof (find_named_targets_spec packages (tgt_name (prop_target p)) desc kind mode) as Hs.
           rewrite Hl' in Hs. destruct Hs as [-> _]. by apply named_targets_elem.
      * intros name Hname. destruct (H2 _ Hname) as [l' Hl']. pose proof (find_named_targets_spec packages name desc kind mode) as Hs.
        rewrite Hl' in Hs. destruct Hs as [-> Hne]. destruct (named_targets packages name kind mode) as [|p l0] eqn:Hn; [done|].
        assert (Hp : p ∈ named_targets packages name kind mode) by (rewrite Hn; constructor).
        apply named_targets_elem in Hp as ([? ?] & ? & ? & _). by exists (prop_pkg p), (prop_target p).
    + destruct H as (name & Hname & Hf). pose proof (find_named_targets_spec packages name desc kind mode) as Hs. rewrite Hf in Hs.
      intros Hall. destruct (Hall name Hname) as (pkg & t & H1 & H2 & H3 & H4).
      apply (not_elem_of_nil (mkProposal pkg t true mode)). rewrite <-Hs. apply named_targets_elem. by split_and!.
    + destruct H as (name & Hname & Hf). pose proof (find_named_targets_spec packages name desc kind mode) as Hs. by rewrite Hf in Hs.
Qed.

(** ** The proposals *)
Section proposed.
Context (bcx : BuildContext) (filter : CompileFilter).

(** The targets a command takes when none are named. *)
Definition default_target (ts : list Target) (t : Target) : Prop :=
  match build_mode bcx with
  | MBench => benched t = true
  | MTest => tested t = true ∨ is_example t = true
  | MBuild | MCheck _ => is_bin t = true ∨ is_lib t = true
  | MDoc _ => documented t = true ∧ (is_bin t = true → ∀ l, l ∈ ts → is_lib l = true → tgt_name l ≠ tgt_name t)
  | MDoctest | MRunCustomBuild => False
  end.
Lemma filter_default_targets_spec ts :
  match filter_default_targets ts (build_mode bcx) with
  | Ok l => ∀ t, t ∈ l ↔ t ∈ ts ∧ default_target ts t
  | Err _ => False
  | Panic _ => build_mode bcx = MDoctest ∨ build_mode bcx = MRunCustomBuild
  end.
Proof.
  unfold filter_default_targets, default_target. destruct (build_mode bcx); [..|by left|by right]; intros t;
    rewrite elem_of_filter_bool, ?orb_true_iff, ?andb_true_iff, ?orb_true_iff; try done.
  split; (intros (Ht & Hd & Hb); split; [done|]; split; [done|]).
  - intros Hbin l Hl Hlib Hname. destruct Hb as [Hb|Hb]; [by rewrite Hbin in Hb|]. apply negb_true_iff, not_true_iff_false in Hb.
    apply Hb. apply existsb_exists. exists l. rewrite Hlib, Hname, String.eqb_refl. by rewrite <-list_elem_of_In.
  - destruct (is_bin t); [right|by left]. apply negb_true_iff, not_true_iff_false. intros (l & Hl & Hx)%existsb_exists.
    apply andb_true_iff in Hx as [Hlib Hname%String.eqb_eq]. apply list_elem_of_In in Hl. by destruct (Hb eq_refl l Hl Hlib).
Qed.

(** [cargo test] also tests the documentation of the first library that allows it. *)
Definition doctest_proposal (p : Proposal) : Prop :=
  build_mode bcx = MTest ∧ List.find doctested_lib (targets (prop_pkg p)) = Some (prop_target p) ∧
  prop_mode p = MDoctest ∧ requires_features p = false.
Definition lib_proposal (p : Proposal) : Prop :=
  is_lib (prop_target p) = true ∧ no_doctests bcx (prop_pkg p) (prop_target p) = false ∧
  prop_mode p = build_mode bcx ∧ requires_features p = false.
(** What is selected, by the flags. *)
Definition selected (packages : list Package) (p : Proposal) : Prop :=
  of_packages packages p ∧
  match filter with
  | FilterDefault filterable =>
      (default_target (targets (prop_pkg p)) (prop_target p) ∧ prop_mode p = build_mode bcx ∧ requires_features p = negb filterable) ∨
      doctest_proposal p
  | FilterOnly _ lib bins examples tests benches =>
      (lib = true ∧ lib_proposal p) ∨
      by_rule bins is_bin (build_mode bcx) p ∨ by_rule examples is_example (build_mode bcx) p ∨
      by_rule tests (test_filter tests) (test_mode bcx) p ∨ by_rule benches (bench_filter benches) (bench_mode bcx) p
  end.
(** When the flags name something that is not there. *)
Definition unsatisfied (packages : list Package) : Prop :=
  match filter with
  | FilterDefault _ => False
  | FilterOnly all_targets lib bins examples tests benches =>
      (lib = true ∧ all_targets = false ∧ ∀ p, of_packages packages p → ¬ lib_proposal p) ∨
      ¬ names_found packages bins is_bin ∨ ¬ names_found packages examples is_example ∨
      ¬ names_found packages tests (test_filter tests) ∨ ¬ names_found packages benches (bench_filter benches)
  end.
(** [cargo test --doc] and nothing else makes sense of the mode for doctests. *)
Definition mode_fits : Prop :=
  match filter with
  | FilterDefault _ => build_mode bcx ≠ MDoctest ∧ build_mode bcx ≠ MRunCustomBuild
  | FilterOnly _ _ _ _ _ _ => True
  end.

Lemma default_proposals_spec filterable pkg :
  match default_proposals bcx filterable pkg with
  | Ok l => ∀ p, p ∈ l ↔ prop_pkg p = pkg ∧ prop_target p ∈ targets pkg ∧
      ((default_target (targets pkg) (prop_target p) ∧ prop_mode p = build_mode bcx ∧ requires_features p = negb filterable) ∨ doctest_proposal p)
  | Err _ => False
  | Panic _ => build_mode bcx = MDoctest ∨ build_mode bcx = MRunCustomBuild
  end.
Proof.
  unfold default_proposals. pose proof (filter_default_targets_spec (targets pkg)) as H.
  destruct (filter_default_targets _ _) as [default|e|m]; cbn [mbind res_mbind res_bind]; [|done..].
  assert (Hd : ∀ p, p ∈ List.map (λ t, mkProposal pkg t (negb filterable) (build_mode bcx)) default ↔
    prop_pkg p = pkg ∧ prop_target p ∈ targets pkg ∧ default_target (targets pkg) (prop_target p) ∧
    prop_mode p = build_mode bcx ∧ requires_features p = negb filterable).
  { intros p. rewrite elem_of_list_map. setoid_rewrite H. split; [intros (t & [? ?] & ->); by split_and!|].
    intros (? & ? & ? & ? & ?). exists (prop_target p). split; [done|]. destruct p; cbn in *; by subst. }
  unfold doctest_proposal. destruct (build_mode bcx) eqn:Hm; try (intros p; rewrite Hd; naive_solver).
  destruct (List.find doctested_lib (targets pkg)) as [t|] eqn:Hf.
  - intros p. rewrite elem_of_app, list_elem_of_singleton, Hd. apply find_some in Hf as Ht. destruct Ht as [Ht%list_elem_of_In _]. split.
    + intros [(? & ? & ? & ? & ?)| ->]; [split; [done|]; split; [done|]; by left|]. cbn. split_and!; [done..|]. right. by split_and!.
    + intros (Hp & ? & [(? & ? & ?)|(_ & Hf' & ? & ?)]); [left; by split_and!|right]. rewrite Hp in Hf'.
      destruct p; cbn in *; congruence.
  - intros p. rewrite Hd. split; [intros (? & ? & ? & ? & ?); split; [done|]; split; [done|]; by left|].
    intros (Hp & ? & [(? & ? & ?)|(_ & Hf' & _)]); [done|]. congruence.
Qed.
Lemma libs_of_elem packages pkg t : (pkg, t) ∈ libs_of packages ↔ pkg ∈ packages ∧ t ∈ targets pkg ∧ is_lib t = true.
Proof.
  unfold libs_of. rewrite elem_of_concat_bind. setoid_rewrite elem_of_list_map. setoid_rewrite elem_of_filter_bool. split.
  - intros (pkg' & Hp & t' & [? ?] & [= -> ->]). done.
  - intros (? & ? & ?). exists pkg. split; [done|]. by exists t.
Qed.
Lemma lib_proposals_spec packages all_targets :
  match lib_proposals bcx packages all_targets with
  | Ok (l, _) => (∀ p, p ∈ l ↔ of_packages packages p ∧ lib_proposal p) ∧
                 (all_targets = true ∨ ∃ p, of_packages packages p ∧ lib_proposal p)
  | Err _ => all_targets = false ∧ ∀ p, of_packages packages p → ¬ lib_proposal p
  | Panic _ => False
  end.
Proof.
  unfold lib_proposals. set (libs := List.map _ (List.filter (λ pt, negb _) _)).
  assert (Hl : ∀ p, p ∈ libs ↔ of_packages packages p ∧ lib_proposal p).
  { intros p. unfold libs, of_packages, lib_proposal. rewrite elem_of_list_map. setoid_rewrite elem_of_filter_bool. split.
    - intros ([pkg t] & [(? & ? & ?)%libs_of_elem ?%negb_true_iff] & ->). by split_and!.
    - intros ([? ?] & ? & Hn & ? & ?). exists (prop_pkg p, prop_target p). rewrite libs_of_elem. cbn [fst snd].
      rewrite Hn. split_and!; try done. destruct p; cbn in *; by subst. }
  destruct all_targets; cbn [negb andb]; [split; [exact Hl|by left]|].
  destruct libs as [|p l]; cbn [length bool_decide].
  - assert (H : ∀ p, of_packages packages p → ¬ lib_proposal p).
    { intros p Hof Hp. apply (not_elem_of_nil p). by apply Hl. }
    rewrite bool_decide_eq_true_2 by done. by destruct (List.map _ _) as [|n [|n' l]].
  - rewrite bool_decide_eq_false_2 by done. split; [exact Hl|]. right. exists p. apply Hl. constructor.
Qed.

Ltac rule_step packages r desc kind mode H :=
  pose proof (list_rule_targets_spec packages r desc kind mode) as H;
  destruct (list_rule_targets packages r desc kind mode); cbn [mbind res_mbind res_bind]; [destruct H as [H ?]| |done].
Lemma proposals_spec packages :
  match proposals bcx filter packages with
  | Ok (l, _) => (∀ p, p ∈ l ↔ selected packages p) ∧ ¬ unsatisfied packages
  | Err _ => unsatisfied packages
  | Panic _ => ¬ mode_fits
  end.
Proof.
  unfold proposals, selected, unsatisfied, mode_fits. destruct filter as [filterable|all_targets lib bins examples tests benches].
  - pose proof (foldM_gather (default_proposals bcx filterable) packages []) as H.
    destruct (foldM _ _ _) as [l|e|m]; cbn [mbind res_mbind res_bind].
    + destruct H as [H H']. split; [|tauto]. intros p. rewrite H. unfold of_packages. split.
      * intros [?%elem_of_nil|(pkg & l' & Hpkg & Hl & Hp)]; [done|]. pose proof (default_proposals_spec filterable pkg) as Hs.
        rewrite Hl in Hs. apply Hs in Hp as (-> & ? & ?). done.
      * intros ([Hpkg Ht] & Hp). right. destruct (H' _ Hpkg) as [l' Hl]. exists (prop_pkg p), l'. split; [done|]. split; [done|].
        pose proof (default_proposals_spec filterable (prop_pkg p)) as Hs. rewrite Hl in Hs. by apply Hs.
    + destruct H as (pkg & _ & Hp). pose proof (default_proposals_spec filterable pkg) as Hs. by rewrite Hp in Hs.
    + destruct H as (pkg & _ & Hp). pose proof (default_proposals_spec filterable pkg) as Hs. rewrite Hp in Hs. tauto.
  - assert (Hlib : match (if lib then lib_proposals bcx packages all_targets else Ok ([], [])) with
      | Ok (l, _) => (∀ p, p ∈ l ↔ of_packages packages p ∧ lib = true ∧ lib_proposal p) ∧
                     ¬ (lib = true ∧ all_targets = false ∧ ∀ p, of_packages packages p → ¬ lib_proposal p)
      | Err _ => lib = true ∧ all_targets = false ∧ ∀ p, of_packages packages p → ¬ lib_proposal p
      | Panic _ => False
      end).
    { destruct lib; [|split; [intros p; split; [by intros ?%elem_of_nil|by intros (_ & ? & _)]|by intros (? & _)]].
      pose proof (lib_proposals_spec packages all_targets) as H. destruct (lib_proposals _ _ _) as [[l w]|e|m]; [|done..].
      destruct H as [H1 H2]. split; [intros p; rewrite H1; tauto|]. intros (_ & -> & Hno). destruct H2 as [?|(p & ? & ?)]; [done|by eapply Hno]. }
    destruct (if lib then _ else _) as [[libs w]|e|m]; cbn [mbind res_mbind res_bind]; [destruct Hlib as [Hlib Hyes]|by left|done].
    rule_step packages bins "bin" is_bin (build_mode bcx) Hb; [|by right; left].
    rule_step packages examples "example" is_example (build_mode bcx) He; [|by right; right; left].
    rule_step packages tests "test" (test_filter tests) (test_mode bcx) Ht; [|by right; right; right; left].
    rule_step packages benches "bench" (bench_filter benches) (bench_mode bcx) Hn; [|by right; right; right; right].
    split; [|tauto]. intros p. rewrite !elem_of_app, Hlib, Hb, He, Ht, Hn. tauto.
Qed.
End proposed.

(** ** The units *)
Section units.
Context (bcx : BuildContext) (filter : CompileFilter) (kind : PlatformKind) (packages : list Package).
Abbreviation unit_of p := (requested_unit bcx filter kind (prop_pkg p) (prop_target p) (prop_mode p)).

Lemma collect_units_spec l units :
  match foldM (add_proposal bcx filter kind) units l with
  | Ok units' =>
      (∀ k, k ∈ hdom units' ↔ k ∈ hdom units ∨ ∃ p v, p ∈ l ∧ available bcx p = true ∧ unit_of p = Ok v ∧ to_key v = k) ∧
      (hwf units → hwf units') ∧ ∀ p, p ∈ l → available bcx p = true ∨ requires_features p = false
  | Err _ => ∃ p, p ∈ l ∧ ((available bcx p = false ∧ requires_features p = true) ∨ ∃ e, unit_of p = Err e)
  | Panic _ => ∃ p m, p ∈ l ∧ unit_of p = Panic m
  end.
Proof.
  revert units. induction l as [|p l IH]; intros units; cbn [foldM].
  { split_and!; [|done|by intros p ?%elem_of_nil]. intros k. split; [by left|]. by intros [|(p & v & ?%elem_of_nil & _)]. }
  unfold add_proposal at 1. destruct (available bcx p) eqn:Ha.
  - destruct (unit_of p) as [u|e|m] eqn:Hu; cbn [mbind res_mbind res_bind].
    + specialize (IH (hinsert u tt units)). destruct (foldM _ _ _) as [units'|e|m].
      * destruct IH as (H1 & H2 & H3). split_and!.
        -- intros k. rewrite H1, hdom_hinsert, elem_of_union, elem_of_singleton. setoid_rewrite elem_of_cons. split.
           ++ intros [[->|?]|(q & v & ? & ? & ? & ?)]; [right; exists p, u; by split_and!; [left| | |]|by left|right; exists q, v; by split_and!; [right| | |]].
           ++ intros [?|(q & v & [->|?] & ? & Hv & <-)]; [by left; right|left; left; congruence|right; by exists q, v].
        -- intros Hwf. by apply H2, hwf_hinsert.
        -- intros q [->|Hq]%elem_of_cons; [by left|by apply H3].
      * destruct IH as (q & ? & ?). exists q. by split; [constructor|].
      * destruct IH as (q & m' & ? & ?). exists q, m'. by split; [constructor|].
    + exists p. split; [constructor|]. right. by exists e.
    + exists p, m. by split; [constructor|].
  - destruct (requires_features p) eqn:Hr; cbn [mbind res_mbind res_bind]; [exists p; split; [constructor|by left]|].
    specialize (IH units). destruct (foldM _ _ _) as [units'|e|m].
    + destruct IH as (H1 & H2 & H3). split_and!; [|done|].
      * intros k. rewrite H1. setoid_rewrite elem_of_cons. split.
        -- intros [?|(q & v & ? & ?)]; [by left|right; exists q, v; split; [by right|done]].
        -- intros [?|(q & v & [->|?] & Hq & ?)]; [by left|congruence|right; by exists q, v].
      * intros q [->|Hq]%elem_of_cons; [by right|by apply H3].
    + destruct IH as (q & ? & ?). exists q. by split; [constructor|].
    + destruct IH as (q & m' & ? & ?). exists q, m'. by split; [constructor|].
Qed.

(** Build scripts are neither tested nor documented, as manifests are read. *)
Definition scripts_unselected : Prop :=
  ∀ pkg t, pkg ∈ packages → t ∈ targets pkg → is_custom_build t = true → tested t = false ∧ benched t = false ∧ documented t = false.
Lemma kind_not_script t : is_custom_build t = true → is_bin t = false ∧ is_lib t = false ∧ is_example t = false ∧ is_test t = false ∧ is_bench t = false.
Proof.
  unfold is_custom_build, is_bin, is_lib, is_example, is_test, is_bench. intros ->%bool_decide_eq_true. done.
Qed.
Lemma selected_not_script p : scripts_unselected → selected bcx filter packages p → is_custom_build (prop_target p) = false.
Proof.
  intros Hs [[Hpkg Ht] Hsel]. apply not_true_iff_false. intros Hc. destruct (Hs _ _ Hpkg Ht Hc) as (H1 & H2 & H3).
  destruct (kind_not_script _ Hc) as (K1 & K2 & K3 & K4 & K5). unfold default_target, doctest_proposal, lib_proposal, by_rule in Hsel.
  destruct filter as [filterable|all_targets lib bins examples tests benches].
  - destruct Hsel as [[Hd _]|(_ & (_ & Hf)%find_some & _)]; [|unfold doctested_lib in Hf; by rewrite K2 in Hf].
    destruct (build_mode bcx); intuition congruence.
  - destruct Hsel as [(_ & Hl & _)|[(Hb & _)|[(Hb & _)|[(Hb & _)|(Hb & _)]]]]; [congruence..| |];
      [destruct tests|destruct benches]; cbn [test_filter bench_filter] in Hb; congruence.
Qed.
Lemma requested_unit_ok p all warned :
  validate_packages (bcx_profiles bcx) all = Ok warned → package_id (prop_pkg p) ∈ all → is_custom_build (prop_target p) = false →
  ∃ profile, unit_of p = Ok (mkUnit (prop_pkg p) (prop_target p) profile (if for_host (prop_target p) then KHost else kind)
                               (final_mode (unit_mode_of filter (prop_target p) (prop_mode p)))).
Proof.
  intros Hv Hin Hc. unfold requested_unit. rewrite Hc. unfold get_profile. rewrite maker_get_profile_ok.
  - by eexists.
  - intros id [= <-]. by eapply validated_all.
Qed.

Lemma generate_targets_split :
  match generate_targets bcx filter kind packages with
  | Ok (units, _) =>
      NoDup (to_key <$> units) ∧ ¬ unsatisfied bcx filter packages ∧
      (∀ k, k ∈ (to_key <$> units) ↔ ∃ p v, selected bcx filter packages p ∧ available bcx p = true ∧ unit_of p = Ok v ∧ to_key v = k) ∧
      ∀ p, selected bcx filter packages p → available bcx p = true ∨ requires_features p = false
  | Err _ => unsatisfied bcx filter packages ∨
      ∃ p, selected bcx filter packages p ∧ ((available bcx p = false ∧ requires_features p = true) ∨ ∃ e, unit_of p = Err e)
  | Panic _ => ¬ mode_fits bcx filter ∨ ∃ p m, selected bcx filter packages p ∧ unit_of p = Panic m
  end.
Proof.
  unfold generate_targets. pose proof (proposals_spec bcx filter packages) as Hp.
  destruct (proposals bcx filter packages) as [[l warnings]|e|m]; cbn [mbind res_mbind res_bind]; [|by left..].
  destruct Hp as [Hl Hsat]. pose proof (collect_units_spec l ∅) as Hu.
  assert (Hempty : ∀ k, k ∉ hdom (∅ : hashset CUnit)) by (intros k; unfold hdom; rewrite dom_empty_L; apply not_elem_of_empty).
  destruct (foldM _ _ _) as [units|e|m]; cbn [mbind res_mbind res_bind].
  - destruct Hu as (H1 & H2 & H3). assert (Hwf : hwf units) by apply H2, hwf_empty.
    split_and!; [by apply NoDup_hkeys|done| |intros p Hs; by apply H3, Hl].
    intros k. rewrite hkeys_hdom by done. rewrite H1. setoid_rewrite Hl. split; [|by right]. by intros [[]%Hempty|].
  - right. destruct Hu as (p & Hp & ?). exists p. split; [by apply Hl|done].
  - right. destruct Hu as (p & m' & Hp & ?). exists p, m'. split; [by apply Hl|done].
Qed.

(** C29. What a command compiles.  Once the profiles are validated and build scripts
    are neither tested nor documented, the selection never panics.  Its units are,
    without repetition, those of the targets the flags select: by the command's
    default, by name and by kind; a target whose required features are not on
    is left out when nobody named it, and refused otherwise.  The only other error is a
    name, or [--lib], that no package satisfies. *)
Theorem generate_targets_spec all warned (Hv : validate_packages (bcx_profiles bcx) all = Ok warned)
    (Hall : ∀ pkg, pkg ∈ packages → package_id pkg ∈ all) (Hscripts : scripts_unselected)
    (Hmode : mode_fits bcx filter) :
  match generate_targets bcx filter kind packages with
  | Ok (units, _) =>
      NoDup (to_key <$> units) ∧ ¬ unsatisfied bcx filter packages ∧
      (∀ k, k ∈ (to_key <$> units) ↔
         ∃ p v, selected bcx filter packages p ∧ available bcx p = true ∧ unit_of p = Ok v ∧ to_key v = k) ∧
      (∀ p, selected bcx filter packages p → available bcx p = true →
         ∃ u, u ∈ units ∧ package_id (unit_pkg u) ==? package_id (prop_pkg p) = true ∧ unit_target u = prop_target p ∧
              unit_mode u = final_mode (unit_mode_of filter (prop_target p) (prop_mode p))) ∧
      ∀ p, selected bcx filter packages p → available bcx p = false → requires_features p = false
  | Err _ => unsatisfied bcx filter packages ∨
      ∃ p, selected bcx filter packages p ∧ available bcx p = false ∧ requires_features p = true
  | Panic _ => False
  end.
Proof.
  assert (Hunit : ∀ p, selected bcx filter packages p → ∃ profile, unit_of p =
    Ok (mkUnit (prop_pkg p) (prop_target p) profile (if for_host (prop_target p) then KHost else kind)
               (final_mode (unit_mode_of filter (prop_target p) (prop_mode p))))).
  { intros p Hp. apply (requested_unit_ok p all warned Hv); [apply Hall, Hp|by apply selected_not_script]. }
  pose proof generate_targets_split as H. destruct (generate_targets _ _ _ _) as [[units w]|e|m].
  - destruct H as (H1 & H2 & H3 & H4). split_and!; [done..| |].
    + intros p Hp Ha. destruct (Hunit p Hp) as [profile Hu].
      pose proof (proj2 (H3 _) (ex_intro _ p (ex_intro _ _ (conj Hp (conj Ha (conj Hu eq_refl)))))) as Hin.
      apply list_elem_of_fmap in Hin as (u & Hk & Hin). apply unit_key_eq in Hk as (K1 & K2 & _ & _ & K5). cbn in K1, K2, K5.
      exists u. split; [done|]. split; [by apply heqb_true|by split].
    + intros p Hp Ha. destruct (H4 p Hp) as [Hy|]; [congruence|done].
  - destruct H as [H|(p & Hp & [H|(e' & He)])]; [by left|right; by exists p|].
    destruct (Hunit p Hp) as [profile Hu]. congruence.
  - destruct H as [H|(p & m' & Hp & Hm)]; [done|]. destruct (Hunit p Hp) as [profile Hu]. congruence.
Qed.

(** ** Development dependencies *)
Lemma dev_deps_unit p :
  need_dev_deps filter (build_mode bcx) = Ok false → build_mode bcx ≠ MCheck true →
  (documented (prop_target p) = true → is_lib (prop_target p) = true ∨ is_bin (prop_target p) = true) →
  selected bcx filter packages p →
  (is_lib (prop_target p) = true ∨ is_bin (prop_target p) = true) ∧ prop_mode p = build_mode bcx.
Proof.
  intros Hdev Hcheck Hdoc [_ Hsel]. unfold default_target, doctest_proposal, lib_proposal, by_rule in Hsel.
  destruct filter as [filterable|all_targets lib bins examples tests benches]; cbn [need_dev_deps] in Hdev.
  - destruct Hsel as [(Hd & Hm & _)|(Hm & _)]; [|by rewrite Hm in Hdev].
    split; [|done]. destruct (build_mode bcx); try discriminate Hdev; [tauto..|]. apply Hdoc, Hd.
  - assert (Hnone : ∀ r k m, rule_is_specific r = false → ¬ by_rule r k m p).
    { intros [|[|n l]] k m Hr; [done| |done]. by intros (_ & _ & ?%elem_of_nil & _). }
    assert (Hs : rule_is_specific examples = false ∧ rule_is_specific tests = false ∧ rule_is_specific benches = false).
    { destruct (build_mode bcx); try discriminate Hdev;
        injection Hdev as [[? ?]%orb_false_iff ?]%orb_false_iff; done. }
    destruct Hs as (He & Ht & Hb). destruct Hsel as [(_ & Hl & _ & Hm & _)|[(Hk & Hm & _)|[H|[H|H]]]].
    + by split; [left|].
    + by split; [right|].
    + by destruct (Hnone _ _ _ He H).
    + by destruct (Hnone _ _ _ Ht H).
    + by destruct (Hnone _ _ _ Hb H).
Qed.

(** When a command does not ask the resolver for development dependencies, no
    unit it makes follows one.  Left out are [check --profile test], and targets
    beside the library and the binaries whose documentation is turned on. *)
Lemma need_dev_deps_sound units warnings u d
    (Hdev : need_dev_deps filter (build_mode bcx) = Ok false) (Hcheck : build_mode bcx ≠ MCheck true)
    (Hdoc : ∀ pkg t, pkg ∈ packages → t ∈ targets pkg → documented t = true → is_lib t = true ∨ is_bin t = true)
    (Hok : generate_targets bcx filter kind packages = Ok (units, warnings)) (Hu : u ∈ units)
    (Hd : is_transitive d = false) :
  dep_applies bcx u d = false.
Proof.
  pose proof generate_targets_split as H. rewrite Hok in H. destruct H as (_ & _ & Hunits & _).
  destruct (proj1 (Hunits (to_key u)) (list_elem_of_fmap_2 _ _ _ Hu)) as (p & v & Hp & _ & Hv & Hk).
  apply unit_key_eq in Hk as (_ & Ht & _ & _ & Hm). unfold requested_unit in Hv.
  destruct (is_custom_build (prop_target p)); [done|]. apply bind_Ok_inv in Hv as (profile & _ & [= <-]). cbn in Ht, Hm.
  pose proof (proj1 Hp) as [Hpkg Hin].
  destruct (dev_deps_unit p Hdev Hcheck (Hdoc _ _ Hpkg Hin) Hp) as [Hkind Hmode]. rewrite Hmode in Hm.
  assert (Ht' : is_test (unit_target u) = false ∧ is_example (unit_target u) = false).
  { rewrite <-Ht. unfold is_lib, is_bin, is_test, is_example in *. rewrite bool_decide_eq_true in Hkind.
    destruct (tgt_kind (prop_target p)); intuition (done || congruence). }
  assert (Hany : mode_is_any_test (unit_mode u) = false).
  { rewrite <-Hm. unfold unit_mode_of, is_lib, is_bin in *. rewrite bool_decide_eq_true in Hkind.
    destruct (build_mode bcx) as [| |[]| | | |]; try done; destruct (tgt_kind (prop_target p)); intuition done. }
  destruct Ht' as [H1 H2]. unfold dep_applies. rewrite Hd, H1, H2, Hany. by destruct (negb (Bool.eqb _ _)).
Qed.
End units.
End facts.

(** * Concrete runs *)
Section runs.
Local Existing Instance sem_lib.
Local Existing Instance hier_lib.
Local Existing Instance std_order.
Local Existing Instance ascii_letters.

Definition built (kind : TargetKind) (name : string) (rf : option (list string)) (t b d : bool) : Target :=
  mkTarget kind name (SrcPath ("/" ++ name ++ ".rs")) rf t b d true true false Edition2018.
Definition app_targets : list Target :=
  [built (TLib [LibLib]) "app" None true true true; built TBin "tool" None true false true; built TTest "it" None true false false;
   built TExampleBin "demo" (Some ["fancy"]) false false false; built TCustomBuild "build" None false false false].
Definition app_source : SourceId := let u := ("f", "", ["app"], None, None) in mkSourceId u u SourceId.Path None None.
Definition app_id : PackageId := mkPackageId "app" (1, 0, 0) app_source.
Definition dev_only : Dependency := mkDependency "d" app_source None SemAny true Development false None false true [] None.
Definition plain_profiles : Profiles :=
  mkProfiles (mkMaker default_dev None None) (mkMaker default_release None None) (mkMaker default_test None None)
             (mkMaker default_bench None None) (mkMaker default_doc None None).
Definition app : Package :=
  mkPackage (mkManifest (mkSummary app_id [dev_only] ∅ None None false) app_targets None [] [] [] plain_profiles None false [] ∅
               features_default Edition2018 None None None) "/app/Cargo.toml".
Definition app_resolve (features : gset string) : Resolve :=
  Resolve.new (Graph.add Graph.new app_id) ∅ (hinsert app_id features ∅) ∅ ∅ [].
Definition app_context (mode : CompileMode) (features : gset string) : BuildContext :=
  UnitDeps.mkContext (app_resolve features) plain_profiles [app] false mode "host" "target" None None.
Definition built_targets (mode : CompileMode) (features : gset string) (f : CompileFilter) : cresult (list (string * CompileMode)) :=
  '(units, _) ← generate_targets (app_context mode features) f KHost [app];
  Ok (List.map (λ u, (tgt_name (unit_target u), unit_mode u)) units).
Definition named (examples : list string) : CompileFilter := filter_new false [] false [] false examples false [] false false.

(** [cargo build] makes the library and the binary; [--example demo] needs its feature, [--examples] leaves it out. *)
Example default_build : (l ← built_targets MBuild ∅ (FilterDefault true); Ok (length l)) = Ok 2%nat.
Proof. vm_eq. Qed.
Example example_on : built_targets MBuild {["fancy"]} (named ["demo"]) = Ok [("demo", MBuild)].
Proof. vm_eq. Qed.
Example example_off : is_ok (built_targets MBuild ∅ (named ["demo"])) = false.
Proof. vm_eq. Qed.
Example examples_skipped : built_targets MBuild ∅ (filter_new false [] false [] false [] true [] false false) = Ok [].
Proof. vm_eq. Qed.
Example misspelt : built_targets MBuild ∅ (named ["demi"]) =
  Err ("no example target named `demi`" ++ nl ++ nl ++ "Did you mean `demo`?").
Proof. vm_eq. Qed.

(** [cargo check --profile test] builds the library with its tests, which follow
    development dependencies, but does not ask for them. *)
Example check_test_asks_nothing :
  need_dev_deps (FilterDefault true) (MCheck true) = Ok false ∧
  (let bcx := app_context (MCheck true) ∅ in
   '(units, _) ← generate_targets bcx (FilterDefault true) KHost [app];
   Ok (existsb (λ u, dep_applies bcx u dev_only) units)) = Ok true.
Proof. split; vm_eq. Qed.

Lemma generate_targets_spec_witness :
  match generate_targets (app_context MBuild ∅) (FilterDefault true) KHost [app] with
  | Ok (units, _) => ∀ p, selected (app_context MBuild ∅) (FilterDefault true) [app] p → available (app_context MBuild ∅) p = true →
      ∃ u, u ∈ units ∧ unit_target u = prop_target p
  | _ => False
  end.
Proof.
  assert (Hok : is_ok (generate_targets (app_context MBuild ∅) (FilterDefault true) KHost [app]) = true) by vm_eq.
  assert (Hv : validate_packages (bcx_profiles (app_context MBuild ∅)) [app_id] = Ok []) by vm_eq.
  pose proof (generate_targets_spec (app_context MBuild ∅) (FilterDefault true) KHost [app] [app_id] [] Hv) as H.
  destruct (generate_targets _ _ _ _) as [[units w]|e|m]; [|discriminate Hok..].
  destruct H as (_ & _ & _ & H & _).
  - intros pkg ->%list_elem_of_singleton. constructor.
  - intros pkg t ->%list_elem_of_singleton Ht Hc.
    assert (Hall : forallb (λ t, negb (is_custom_build t) || (negb (tested t) && negb (benched t) && negb (documented t))) app_targets = true) by vm_eq.
    rewrite forallb_forall in Hall. apply list_elem_of_In, Hall in Ht. rewrite Hc in Ht. cbn in Ht.
    apply andb_true_iff in Ht as [[H1 H2]%andb_true_iff H3]. by rewrite negb_true_iff in H1, H2, H3.
  - split; discriminate.
  - intros p Hp Ha. destruct (H p Hp Ha) as (u & H1 & _ & H2 & _). exists u. split; [exact H1|exact H2].
Defined.

End runs.
