(* ===== verification/CompileOps.v ===== *)
(** What a compiling command does before anything is compiled, [compile_ws] of
    [src/cargo/ops/cargo_compile.rs]: from the flags to the units and their extra
    arguments. *)
From S2P Require Import Prelude Str Extern Path Utf8 SourceId PackageId Graph ConfigValue Config Features Dependency Summary Profiles Target.
From S2P Require Import ResTypes PackageRegistry Resolve Package TomlManifest ReadManifest Workspace PreviousLocks UnitDeps.
From S2P Require Import Encode LockFileOps ResolveOps CompileFilter.

Local Open Scope string_scope.

Section compile.
Context `{SV : SemverLib} `{UL : UrlLib} `{RS : RustStd} `{US : UnicodeStd} `{SL : !SourceLib} `{FS : FileSystem} `{TL : TomlLib} `{UC : UnicodeCase}.
Context (config : Config) (read_local : path → cresult Package).
Context (deserialize_lock : toml → cresult EncodableResolve).
Context (show_string : string → string) (show_table : gmap string string → string).
Context (preloaded_source : Package → Source) (recursive_source : path → SourceId → Source).
(** The packages of the resolved graph, downloaded where they have to be, in any order. *)
Context (get_many : Resolve → list PackageId → cresult (list Package)).
Context (host target : string) (host_cfg target_cfg : option (list Cfg.Cfg)).

(** [struct CompileOptions], and what is read of its [BuildConfig] *)
Record CompileOptions := mkCompileOptions {
  co_mode : CompileMode;
  co_release : bool;
  co_requested_target : option string;
  co_features : list string;
  co_all_features : bool;
  co_no_default_features : bool;
  co_spec : PackageSelection;
  co_filter : CompileFilter;
  co_target_rustdoc_args : option (list string);
  co_target_rustc_args : option (list string);
  co_local_rustdoc_args : option (list string);
}.
(** The units, the arguments beside the usual ones, and the lines printed. *)
Record Plan := mkPlan {
  pl_packages : list Package;
  pl_units : list CUnit;
  pl_args : hashmap CUnit (list string);
  pl_resolve : Resolve;
  pl_printed : list string;
}.

Definition compile_method (ws : Workspace) (o : CompileOptions) : cresult Method :=
  dev_deps ← (if require_optional_deps ws then Ok true else need_dev_deps (co_filter o) (co_mode o));
  Ok (Required dev_deps (split_features (co_features o)) (co_all_features o) (negb (co_no_default_features o))).
Definition arch_kind (o : CompileOptions) : PlatformKind := match co_requested_target o with Some _ => KTarget | None => KHost end.
(** [Manifest::print_teapot] *)
Definition print_teapot (pkg : Package) : list string :=
  match man_im_a_teapot (manifest pkg) with
  | Some teapot => if print_im_a_teapot (cli_flags config) then ["im-a-teapot = " ++ (if (teapot : bool) then "true" else "false")] else []
  | None => []
  end.
(** A foreign package cannot be tested when it has development dependencies. *)
Definition has_dev_deps (pkg : Package) : bool := existsb (λ d, negb (is_transitive d)) (sum_dependencies (pkg_summary pkg)).
Definition check_testable (ws : Workspace) (o : CompileOptions) (printed : list string) (pkg : Package) : cresult (list string) :=
  let printed := (printed ++ print_teapot pkg)%list in
  member ← Workspace.is_member ws pkg;
  if mode_is_any_test (co_mode o) && negb member && has_dev_deps pkg then
    Err ("package `" ++ pid_name (package_id pkg) ++
         "` cannot be tested because it requires dev-dependencies and is not a member of the workspace")
  else Ok printed.
Definition extra_args (o : CompileOptions) : option (list string * string) :=
  match co_target_rustc_args o, co_target_rustdoc_args o with
  | Some args, _ => Some (args, "rustc")
  | None, Some args => Some (args, "rustdoc")
  | None, None => None
  end.
Definition one_unit_only (name : string) : string :=
  "extra arguments to `" ++ name ++ "` can only be passed to one target, consider filtering" ++ nl ++
  "the package by passing e.g. `--lib` or `--bin NAME` to specify a single target".
Definition unit_args (o : CompileOptions) (units : list CUnit) : cresult (hashmap CUnit (list string)) :=
  args ← match extra_args o with
         | Some (args, name) => match units with
                                | [u] => Ok (hinsert u args ∅)
                                | _ => Err (one_unit_only name)
                                end
         | None => Ok ∅
         end;
  Ok match co_local_rustdoc_args o with
     | Some local => foldl (λ m u, hinsert u local m) args (List.filter (λ u, mode_is_doc (unit_mode u)) units)
     | None => args
     end.
Definition compile_context (ws : Workspace) (members : list Package) (o : CompileOptions) (r : Resolve) (profiles : Profiles) : BuildContext :=
  UnitDeps.mkContext r profiles members (co_release o) (co_mode o) host target host_cfg target_cfg.
(** From the resolved graph on *)
Definition plan_units (ws : Workspace) (o : CompileOptions) (specs : list PackageIdSpec) (r : Resolve) (printed : list string) : cresult Plan :=
  ids ← foldM (λ l s, id ← PackageId.query s (Resolve.iter r); Ok (l ++ [id])%list) [] specs;
  packages ← get_many r ids;
  let to_builds := sort_by (λ a b, package_id_cmp (package_id a) (package_id b)) packages in
  printed ← foldM (check_testable ws o) printed to_builds;
  _ ← match extra_args o with
      | Some (_, name) => if (length to_builds =? 1)%nat then Ok tt else Panic ("`" ++ name ++ "` should not accept multiple `-p` flags")
      | None => Ok tt
      end;
  profiles ← ws_profiles ws;
  warned ← validate_packages profiles (Resolve.iter r);
  members ← member_packages ws;
  '(units, warnings) ← generate_targets (compile_context ws members o r profiles) (co_filter o) (arch_kind o) to_builds;
  args ← unit_args o units;
  Ok (mkPlan to_builds units args r (printed ++ warned ++ warnings)%list).
(** [compile_ws], up to the compilation *)
Definition compile_plan (fuel : nat) (ws : Workspace) (source : option Source) (o : CompileOptions) : option (cresult Plan) :=
  let* specs := Some (to_package_id_specs (co_spec o) ws) in
  let* method := Some (compile_method ws o) in
  let* (r, st) := resolve_ws_with_method config read_local deserialize_lock show_string show_table preloaded_source recursive_source
                    fuel ws source method specs in
  Some (plan_units (rv_ws st) o specs r (rv_printed st)).

(** * Facts *)
Lemma check_testable_all ws o members l printed printed' :
  member_packages ws = Ok members → foldM (check_testable ws o) printed l = Ok printed' →
  mode_is_any_test (co_mode o) = true → ∀ p, p ∈ l → existsb (λ q, q ==? p) members = true ∨ has_dev_deps p = false.
Proof.
  intros Hm. revert printed. induction l as [|q l IH]; intros printed H Ht p Hp; [by apply elem_of_nil in Hp|].
  apply bind_Ok_inv in H as (printed1 & H1 & H2). apply elem_of_cons in Hp as [->|Hp]; [|by eapply IH].
  unfold check_testable, Workspace.is_member in H1. rewrite Hm in H1. cbn [mbind res_mbind res_bind] in H1. rewrite Ht in H1.
  destruct (existsb _ members); [by left|right]. by destruct (has_dev_deps q).
Qed.
Lemma unit_args_extra o units args extra name :
  unit_args o units = Ok args → extra_args o = Some (extra, name) →
  ∃ u, units = [u] ∧ (co_local_rustdoc_args o = None → hget args u = Some extra).
Proof.
  unfold unit_args. intros H He. rewrite He in H. destruct units as [|u [|v l]]; [done| |done]. exists u. split; [done|].
  intros Hn. rewrite Hn in H. injection H as <-. by rewrite hget_hinsert, decide_True.
Qed.

(** What a compiling command decides before it compiles.  What it asks of the
    resolver and what it builds agree: when it leaves development dependencies out,
    no unit follows one (but see [need_dev_deps_sound] for what is exempt).
    Arguments beside the usual ones go to the only unit there is, and no package
    outside the workspace is tested that has development dependencies. *)
Theorem compile_plan_spec fuel ws source o plan (H : compile_plan fuel ws source o = Some (Ok plan)) :
  ∃ specs dev_deps features r st members profiles,
    to_package_id_specs (co_spec o) ws = Ok specs ∧
    resolve_ws_with_method config read_local deserialize_lock show_string show_table preloaded_source recursive_source fuel ws source
      (Required dev_deps features (co_all_features o) (negb (co_no_default_features o))) specs = Some (Ok (r, st)) ∧
    pl_resolve plan = r ∧ member_packages (rv_ws st) = Ok members ∧
    (dev_deps = false → co_mode o ≠ MCheck true →
       (∀ pkg t, pkg ∈ pl_packages plan → t ∈ targets pkg → documented t = true → is_lib t = true ∨ is_bin t = true) →
       ∀ u d, u ∈ pl_units plan → is_transitive d = false →
         dep_applies (compile_context (rv_ws st) members o r profiles) u d = false) ∧
    (mode_is_any_test (co_mode o) = true →
       ∀ p, p ∈ pl_packages plan → existsb (λ q, q ==? p) members = true ∨ has_dev_deps p = false) ∧
    (∀ extra name, extra_args o = Some (extra, name) →
       ∃ u p, pl_units plan = [u] ∧ pl_packages plan = [p] ∧ (co_local_rustdoc_args o = None → hget (pl_args plan) u = Some extra)).
Proof.
  unfold compile_plan in H. destruct (to_package_id_specs _ _) as [specs|e|m] eqn:Hspecs; cbn [fbind] in H; [|done..].
  destruct (compile_method ws o) as [method|e|m] eqn:Hmethod; cbn [fbind] in H; [|done..].
  destruct (resolve_ws_with_method _ _ _ _ _ _ _ _ _ _ _ _) as [[[r st]|e|m]|] eqn:Hres; cbn [fbind] in H; [|done..]. injection H as H.
  apply bind_Ok_inv in Hmethod as (dev_deps & Hdev & [= <-]).
  unfold plan_units in H. apply bind_Ok_inv in H as (ids & _ & H). apply bind_Ok_inv in H as (packages & _ & H).
  set (to_builds := sort_by _ packages) in H. apply bind_Ok_inv in H as (printed & Htest & H).
  apply bind_Ok_inv in H as ([] & Hone & H). apply bind_Ok_inv in H as (profiles & _ & H).
  apply bind_Ok_inv in H as (warned & _ & H). apply bind_Ok_inv in H as (members & Hm & H).
  apply bind_Ok_inv in H as ([units warnings] & Hg & H). apply bind_Ok_inv in H as (args & Hargs & [= <-]).
  exists specs, dev_deps, (split_features (co_features o)), r, st, members, profiles. cbn [pl_resolve pl_packages pl_units pl_args].
  split_and!; [done..| | |].
  - intros -> Hmode Hdoc u d Hu Hd. destruct (require_optional_deps ws); [done|].
    by apply (need_dev_deps_sound _ (co_filter o) (arch_kind o) to_builds units warnings).
  - intros Ht. by eapply check_testable_all.
  - intros extra name He. destruct (unit_args_extra _ _ _ _ _ Hargs He) as (u & -> & Hu). rewrite He in Hone.
    destruct (Nat.eqb_spec (length to_builds) 1) as [Hlen|]; [|done]. destruct to_builds as [|p [|q l]] eqn:Hb; [done| |done].
    by exists u, p.
Qed.
End compile.

(** * A concrete run: [cargo rustc -- -v] for the member [w], a library *)
Section runs.
Local Existing Instance sem_lib.
Local Existing Instance hier_lib.
Local Existing Instance std_order.
Local Existing Instance TomlTargets.package_dirs.
Local Existing Instance line_toml.
Local Existing Instance ascii_case.
Local Existing Instance ascii_letters.
Local Existing Instance disk_files.
Local Existing Instance listed_sources.
Definition w_lib : TomlManifest :=
  mkTomlManifest None None
    (Some (@mkTomlProject sem_lib None "w" (1, 0, 0)%nat None None None None None None None None None None None None None None
             None None None None None None None None None None None None)) None
    (Some (mkTomlTarget None None None (Some "w.rs") None None None None None None None None None None)) None None None None
    (Some {["c" := TomlManifest.Simple "1.0.0"]}) None None None None None None None None None None.
Definition lib_disk (p : string) : option TomlManifest := if String.eqb p "/w" then Some w_lib else None.
Definition lib_workspace : Workspace :=
  match Workspace.new (sample_config ∅) no_glob (maybe_from lib_disk) 5 "/w/Cargo.toml" with Some (Ok (ws, _)) => ws | _ => empty_workspace end.
Definition build_options (args : option (list string)) : CompileOptions :=
  mkCompileOptions MBuild false None [] false false SelDefault (FilterDefault true) None args None.
(** The members; nothing is downloaded. *)
Definition fetched (r : Resolve) (ids : list PackageId) : cresult (list Package) :=
  l ← member_packages lib_workspace; Ok (List.filter (λ p, hmem (package_id p) ids) l).
Definition planned (o : CompileOptions) : option (cresult Plan) :=
  compile_plan (sample_config ∅) (local_from lib_disk) (λ _, Err "no lock file") (λ s, s) (λ _, "") (λ p, pid_source_id (package_id p))
    (λ _ id, id) fetched "host" "target" None None 20 lib_workspace None o.

Lemma compile_plan_spec_witness :
  ∃ plan u, planned (build_options (Some ["-v"])) = Some (Ok plan) ∧ pl_units plan = [u] ∧ hget (pl_args plan) u = Some ["-v"].
Proof.
  assert (Hok : match planned (build_options (Some ["-v"])) with Some (Ok _) => true | _ => false end = true) by vm_eq.
  destruct (planned (build_options (Some ["-v"]))) as [[plan|e|m]|] eqn:E; [|discriminate Hok..].
  destruct (compile_plan_spec (SL:=listed_sources) (sample_config ∅) (local_from lib_disk) (λ _, Err "no lock file") (λ s, s) (λ _, "")
    (λ p, pid_source_id (package_id p)) (λ _ id, id) fetched "host" "target" None None 20 lib_workspace None
    (build_options (Some ["-v"])) plan E) as (specs & dev & features & r & st & members & profiles & _ & _ & _ & _ & _ & _ & Ha).
  destruct (Ha ["-v"] "rustc" eq_refl) as (u & p & Hu & _ & Hargs). exists plan, u.
  split; [reflexivity|]. split; [exact Hu|exact (Hargs eq_refl)].
Defined.
End runs.
