(* ===== verification/IndexNames.v ===== *)
(** Where a registry's index keeps a crate, [src/cargo/sources/registry/index.rs]:
    the path made from the name, and [UncanonicalizedIter], the spellings of that
    path that are tried, hyphens and underscores being interchangeable. *)
From Stdlib Require Import NArith.
From S2P Require Import Prelude Str.

Local Open Scope string_scope.

(** [char::to_lowercase] by the Unicode tables, for characters beyond ASCII. *)
Class UnicodeLower := { char_to_lowercase : string → string }.

(** * The path of a crate *)
Definition lower_of `{UnicodeLower} (c : string) : string :=
  match c with
  | String a EmptyString => String (lower_char a) EmptyString
  | c => char_to_lowercase c
  end.
Definition fs_name `{UnicodeLower} (name : string) : string := join "" (lower_of <$> chars name).
(** [&s[a..b]] *)
Definition slice (a b : nat) (s : string) : cresult string :=
  s ← slice_to b s; _ ← slice_to a s; Ok (str_drop a s).
Definition raw_path (fs_name : string) : cresult string :=
  match String.length fs_name with
  | 1 => Ok ("1/" ++ fs_name)
  | 2 => Ok ("2/" ++ fs_name)
  | 3 => a ← slice_to 1 fs_name; Ok ("3/" ++ a ++ "/" ++ fs_name)
  | _ => a ← slice 0 2 fs_name; b ← slice 2 4 fs_name; Ok (a ++ "/" ++ b ++ "/" ++ fs_name)
  end.

(** * [UncanonicalizedIter] *)
Definition is_sep (c : ascii) : bool := Ascii.eqb c "_" || Ascii.eqb c "-".
(** [input.chars().filter(..).count()]; hyphen and underscore are single bytes,
    which are no part of any other character. *)
Fixpoint count_sep (s : string) : nat :=
  match s with
  | EmptyString => 0
  | String c s => (if is_sep c then 1 else 0) + count_sep s
  end.
Record UncanonicalizedIter := mkIter {
  input : string;
  num_hyphen_underscore : N;      (* u32 *)
  hyphen_combination_num : N;     (* u16 *)
}.
Definition iter_new (input : string) : UncanonicalizedIter := mkIter input (N.of_nat (count_sep input) mod 2 ^ 32) 0.

(** [u16::trailing_zeros] *)
Fixpoint pos_trailing_zeros (p : positive) : N :=
  match p with xO p => N.succ (pos_trailing_zeros p) | _ => 0 end.
Definition trailing_zeros (n : N) : N := match n with N0 => 16 | Npos p => pos_trailing_zeros p end.
(** One character of the scan, whose state counts separators. *)
Definition switched (num state : N) (c : ascii) : ascii :=
  let switch := (0 <? N.land num (N.shiftl 1 state))%N in
  if xorb (Ascii.eqb c "_") switch then "_"%char else "-"%char.
Fixpoint respell (num state : N) (s : string) : string :=
  match s with
  | EmptyString => EmptyString
  | String c s =>
      if is_sep c && (state <=? 15)%N then String (switched num state c) (respell num (state + 1) s)
      else String c (respell num state s)
  end.
(** [next]; the increment of the [u16] wraps around. *)
Definition iter_next (it : UncanonicalizedIter) : option (string * UncanonicalizedIter) :=
  let num := hyphen_combination_num it in
  if (0 <? num)%N && (num_hyphen_underscore it <=? trailing_zeros num)%N then None
  else Some (respell num 0 (input it), mkIter (input it) (num_hyphen_underscore it) ((num + 1) mod 2 ^ 16)).
(** [take(n)] *)
Fixpoint iter_take (n : nat) (it : UncanonicalizedIter) : list string :=
  match n with
  | O => []
  | S n => match iter_next it with None => [] | Some (x, it) => x :: iter_take n it end
  end.
Definition tried (raw_path : string) : list string := iter_take 1024 (iter_new raw_path).

(** The unit tests of the file. *)
Example no_hyphen : iter_take 1024 (iter_new "test") = ["test"].
Proof. vm_eq. Qed.
Example two_hyphen : tried "te-_st" = ["te-_st"; "te__st"; "te--st"; "te_-st"].
Proof. vm_eq. Qed.
Example overflow_hyphen : length (iter_take 100 (iter_new "te-_-_-_-_-_-_-_-_-st")) = 100.
Proof. vm_eq. Qed.

(** A name of three bytes whose first character has two is sliced inside it. *)
Definition e_acute : string := String (ch 195) (String (ch 169) "").
Example raw_path_panics : is_panic (raw_path (e_acute ++ "a")) = true ∧ is_panic (raw_path ("a" ++ e_acute ++ "b")) = true.
Proof. split; vm_eq. Qed.

(** * Facts *)

(** Strings that differ at most in which of the two separators they use. *)
Fixpoint respelled (s x : string) : Prop :=
  match s, x with
  | EmptyString, EmptyString => True
  | String a s, String b x => (a = b ∨ (is_sep a = true ∧ is_sep b = true)) ∧ respelled s x
  | _, _ => False
  end.

(** Paths of ASCII characters are never sliced inside a character. *)
Definition is_ascii (c : ascii) : bool := (nat_of_ascii c <? 128)%nat.
Lemma is_ascii_start c : is_ascii c = true → is_continuation c = false.
Proof. unfold is_ascii, is_continuation. intros H%Nat.ltb_lt. apply andb_false_iff. left. apply Nat.leb_gt. lia. Qed.
Lemma slice_to_ascii {E} n s : (n <= String.length s)%nat → all_chars is_ascii s = true → slice_to (E:=E) n s = Ok (str_take n s).
Proof.
  intros Hn Hs. unfold slice_to. rewrite (proj2 (Nat.ltb_ge _ _) Hn). revert s Hn Hs.
  induction n as [|n IH]; intros [|c s] Hn Hs; cbn in *; try done; try lia.
  - apply andb_true_iff in Hs as [Hc _]. by rewrite is_ascii_start.
  - apply andb_true_iff in Hs as [_ Hs]. specialize (IH s ltac:(lia) Hs).
    destruct (str_drop n s) as [|d t]; [congruence|]. destruct (is_continuation d); congruence.
Qed.
Lemma raw_path_ok s : s ≠ "" → all_chars is_ascii s = true → is_ok (raw_path s) = true.
Proof.
  intros Hne Hs. unfold raw_path, slice.
  destruct s as [|a [|b [|c [|d s]]]]; [done..| |]; cbn [String.length].
  { by rewrite slice_to_ascii by (cbn; lia || done). }
  rewrite (slice_to_ascii 2), (slice_to_ascii 4) by (cbn in *; lia || done). cbn [mbind res_mbind res_bind].
  rewrite !slice_to_ascii; try done; cbn in *; try lia; repeat (apply andb_true_iff in Hs as [? Hs]); by repeat (apply andb_true_iff; split).
Qed.

Section facts.
Local Open Scope N_scope.

Lemma switch_bit num state : (0 <? N.land num (N.shiftl 1 state)) = N.testbit num state.
Proof.
  destruct (N.testbit num state) eqn:Hb.
  - apply N.ltb_lt, N.neq_0_lt_0. intros H. apply (f_equal (λ n, N.testbit n state)) in H.
    rewrite N.land_spec, N.shiftl_spec_high', N.sub_diag, Hb in H by lia. by rewrite N.bits_0 in H.
  - apply N.ltb_ge, N.le_0_r, N.bits_inj. intros i. rewrite N.land_spec, N.bits_0.
    destruct (decide (i = state)) as [->|Hne]; [by rewrite Hb|].
    destruct (decide (i < state)) as [Hlt|Hge]; [by rewrite N.shiftl_spec_low, andb_false_r|].
    rewrite N.shiftl_spec_high' by lia. replace (N.testbit 1 (i - state)) with false; [by rewrite andb_false_r|].
    symmetry. apply (N.bits_above_log2 1). simpl. lia.
Qed.
Lemma switched_bit num state c : switched num state c = if xorb (Ascii.eqb c "_") (N.testbit num state) then "_"%char else "-"%char.
Proof. unfold switched. by rewrite switch_bit. Qed.
Lemma switched_sep num state c : is_sep (switched num state c) = true.
Proof. rewrite switched_bit. by destruct (xorb _ _). Qed.
Lemma switched_inj n m state c : switched n state c = switched m state c → N.testbit n state = N.testbit m state.
Proof. rewrite !switched_bit. by destruct (Ascii.eqb c "_"), (N.testbit n state), (N.testbit m state). Qed.

Lemma is_sep_cases c : is_sep c = true → c = "_"%char ∨ c = "-"%char.
Proof. unfold is_sep. intros [?%Ascii.eqb_eq|?%Ascii.eqb_eq]%orb_true_iff; auto. Qed.
Lemma switched_reach num state c b : is_sep c = true → is_sep b = true → N.testbit num state = negb (Ascii.eqb c b) →
  switched num state c = b.
Proof. rewrite switched_bit. intros Hc Hb ->. by destruct (is_sep_cases c Hc) as [-> | ->], (is_sep_cases b Hb) as [-> | ->]. Qed.

(** Only the bits from the state on matter. *)
Lemma respell_ext n m s : ∀ state, (∀ i, state <= i → N.testbit n i = N.testbit m i) → respell n state s = respell m state s.
Proof.
  induction s as [|c s IH]; intros state H; [done|]. cbn [respell]. destruct (is_sep c && (state <=? 15)).
  - rewrite !switched_bit, (H state), (IH (state + 1)); [done| |lia]. intros i Hi. apply H. lia.
  - by rewrite (IH state).
Qed.
Lemma respell_zero s : ∀ state, respell 0 state s = s.
Proof.
  induction s as [|c s IH]; intros state; [done|]. cbn [respell]. rewrite !IH. destruct (is_sep c) eqn:Hc; [|done].
  rewrite switched_reach with (b := c); [by destruct (_ <=? _)|done..|]. by rewrite Ascii.eqb_refl, N.bits_0.
Qed.
Lemma respell_respelled n s : ∀ state, respelled s (respell n state s).
Proof.
  induction s as [|c s IH]; intros state; [done|]. cbn [respell]. destruct (is_sep c) eqn:Hc; cbn [andb].
  - destruct (state <=? 15); cbn [respelled]; [|by split; [left|]]. split; [right; by rewrite switched_sep|apply IH].
  - split; [by left|apply IH].
Qed.
(** Different bits give different spellings. *)
Lemma respell_inj n m s : ∀ state, respell n state s = respell m state s →
  ∀ i, state <= i → i < state + N.of_nat (count_sep s) → i <= 15 → N.testbit n i = N.testbit m i.
Proof.
  induction s as [|c s IH]; intros state; cbn [respell count_sep]; [lia|].
  destruct (is_sep c) eqn:Hc; cbn [andb].
  - destruct (N.leb_spec state 15); intros Heq i Hi Hlt H15; [|lia]. destruct (String_inj _ _ _ _ Heq) as [H1 H2].
    destruct (decide (i = state)) as [->|]; [by eapply switched_inj|]. apply (IH (state + 1)); [done|lia..].
  - intros [_ H]%String_inj i Hi Hlt H15. apply (IH state); [done|lia..].
Qed.
(** Every spelling is that of some number. *)
Lemma respell_reach s : ∀ x state, respelled s x → state + N.of_nat (count_sep s) <= 16 →
  ∃ n, n < 2 ^ N.of_nat (count_sep s) ∧ respell (N.shiftl n state) state s = x.
Proof.
  induction s as [|c s IH]; intros [|b x] state Hr Hle; try done; [by exists 0|].
  destruct Hr as [Hcb Hr]. cbn [count_sep respell] in *. destruct (is_sep c) eqn:Hc; cbn [andb].
  - rewrite (proj2 (N.leb_le state 15)) by lia.
    destruct (IH x (state + 1) Hr ltac:(lia)) as (n & Hn & Hx).
    assert (Hb : is_sep b = true) by (destruct Hcb as [<-|[_ ?]]; done).
    exists (2 * n + N.b2n (negb (Ascii.eqb c b))). split.
    + rewrite Nat2N.inj_add, N.pow_add_r. change (2 ^ N.of_nat 1) with 2. destruct (negb (Ascii.eqb c b)); cbn [N.b2n]; lia.
    + f_equal.
      * apply switched_reach; [done..|]. by rewrite N.shiftl_spec_high', N.sub_diag, N.testbit_0_r by lia.
      * rewrite <-Hx. apply respell_ext. intros i Hi. rewrite !N.shiftl_spec_high' by lia.
        replace (i - state) with (N.succ (i - (state + 1))) by lia. by rewrite N.testbit_succ_r.
  - destruct (IH x state Hr ltac:(lia)) as (n & Hn & Hx). exists n. split; [done|]. destruct Hcb as [<-|[]]; [by f_equal|done].
Qed.

(** ** The numbers the iterator goes through *)
Lemma trailing_zeros_small p k : Npos p < 2 ^ k → pos_trailing_zeros p < k.
Proof.
  revert k. induction p as [p IH|p IH|]; intros k H; cbn [pos_trailing_zeros].
  - destruct (decide (k = 0)) as [->|]; [simpl in H; lia|lia].
  - destruct (decide (k = 0)) as [->|]; [simpl in H; lia|].
    assert (pos_trailing_zeros p < k - 1); [|lia]. apply IH.
    replace k with (N.succ (k - 1)) in H by lia. rewrite N.pow_succ_r' in H. lia.
  - destruct (decide (k = 0)) as [->|]; [simpl in H; lia|lia].
Qed.
Lemma trailing_zeros_pow k : trailing_zeros (2 ^ N.of_nat k) = N.of_nat k.
Proof.
  induction k as [|k IH]; [done|]. rewrite Nat2N.inj_succ, N.pow_succ_r'.
  destruct (2 ^ N.of_nat k) as [|p] eqn:Hp; [by apply N.pow_nonzero in Hp|].
  change (N.succ (trailing_zeros (N.pos p)) = N.succ (N.of_nat k)). by rewrite IH.
Qed.

Definition combinations (s : string) : N := 2 ^ N.of_nat (count_sep s).
(** From [num] on, [n] more names: the numbers up to that of the combinations. *)
Lemma iter_take_from n : ∀ s num, num + N.of_nat n <= 2 ^ 16 - 1 → N.of_nat (count_sep s) < 2 ^ 32 → num <= combinations s →
  iter_take n (mkIter s (N.of_nat (count_sep s)) num) =
  (λ i, respell (num + N.of_nat i) 0 s) <$> seq 0 (n `min` (if decide (num = 0) then N.to_nat (combinations s) else N.to_nat (combinations s - num))).
Proof.
  induction n as [|n IH]; intros s num Hmax H32 Hle; [done|]. cbn [iter_take]. unfold iter_next. cbn [hyphen_combination_num num_hyphen_underscore input].
  assert (Hpos : 0 < combinations s) by (apply N.neq_0_lt_0, N.pow_nonzero; lia).
  destruct (decide (num = combinations s)) as [Heq|Hne].
  - subst num. rewrite (proj2 (N.ltb_lt _ _) Hpos). unfold combinations at 1. rewrite trailing_zeros_pow, N.leb_refl. cbn [andb].
    rewrite decide_False by lia. by rewrite N.sub_diag, Nat.min_0_r.
  - assert (Hnext : (0 <? num) && (N.of_nat (count_sep s) <=? trailing_zeros num) = false).
    { destruct num as [|p]; [done|]. cbn [andb N.ltb]. apply andb_false_iff. right. apply N.leb_gt.
      apply trailing_zeros_small. fold (combinations s). lia. }
    rewrite Hnext, N.mod_small, IH by lia.
    rewrite decide_False by lia.
    destruct (if decide (num = 0) then _ else _) as [|k] eqn:Hk; [case_decide; lia|].
    cbn [Nat.min seq fmap list_fmap]. rewrite N.add_0_r. f_equal.
    assert (N.to_nat (combinations s - (num + 1)) = k) as -> by (case_decide; lia).
    rewrite <-fmap_S_seq, <-list_fmap_compose. apply list_fmap_ext. intros _ i _. cbn. f_equal. lia.
Qed.
Lemma tried_eq s : N.of_nat (count_sep s) < 2 ^ 32 →
  tried s = (λ i, respell (N.of_nat i) 0 s) <$> seq 0 (1024 `min` N.to_nat (combinations s)).
Proof.
  intros H32. unfold tried, iter_new. rewrite N.mod_small by done. rewrite iter_take_from; [|done|done|].
  - rewrite decide_True by done. apply list_fmap_ext. intros _ i _. f_equal; lia.
  - lia.
Qed.
End facts.

(** [UncanonicalizedIter] as the index uses it: of a path with [k] hyphens and
    underscores it tries the path as given first, then other spellings, never one
    twice, [2 ^ k] of them but 1024 at most; and if there are at most ten
    separators every spelling is tried. *)
Theorem tried_spec s : (N.of_nat (count_sep s) < 2 ^ 32)%N →
  head (tried s) = Some s ∧ NoDup (tried s) ∧ (∀ x, x ∈ tried s → respelled s x) ∧
  N.of_nat (length (tried s)) = N.min 1024 (2 ^ N.of_nat (count_sep s)) ∧
  ((count_sep s ≤ 10)%nat → ∀ x, respelled s x → x ∈ tried s).
Proof.
  intros H32. rewrite (tried_eq s H32). assert (Hpos : (0 < combinations s)%N) by (apply N.neq_0_lt_0, N.pow_nonzero; lia).
  split_and!.
  - destruct (1024 `min` N.to_nat (combinations s)) eqn:Hm; [lia|]. cbn. by rewrite respell_zero.
  - apply NoDup_fmap_2_strong; [|apply NoDup_seq]. intros i j Hi%elem_of_seq Hj%elem_of_seq Heq.
    enough (N.of_nat i = N.of_nat j) by lia. apply N.bits_inj. intros b.
    assert (Hbig : ∀ m, (m < 2 ^ 10)%N → (m < combinations s)%N → (10 <= b ∨ N.of_nat (count_sep s) <= b)%N → N.testbit m b = false).
    { intros m H1 H2 Hb. destruct (decide (m = 0%N)) as [->|]; [apply N.bits_0|]. apply N.bits_above_log2.
      destruct Hb as [Hb|Hb]; (eapply N.lt_le_trans; [|exact Hb]); (apply N.log2_lt_pow2; [lia|done]). }
    destruct (decide (10 <= b ∨ N.of_nat (count_sep s) <= b)%N) as [Hb|Hb].
    + change (2 ^ 10)%N with 1024%N in Hbig. rewrite !Hbig by (done || lia). done.
    + eapply respell_inj; [exact Heq|lia..].
  - intros x (i & -> & _)%list_elem_of_fmap. apply respell_respelled.
  - rewrite length_fmap, length_seq. fold (combinations s). lia.
  - intros Hk x Hx. destruct (respell_reach s x 0 Hx ltac:(lia)) as (n & Hn & <-). rewrite N.shiftl_0_r.
    apply list_elem_of_fmap. exists (N.to_nat n). split; [by rewrite N2Nat.id|]. apply elem_of_seq. fold (combinations s) in Hn.
    assert (combinations s <= 2 ^ 10)%N by (apply N.pow_le_mono_r; lia). change (2 ^ 10)%N with 1024%N in *. lia.
Qed.
Lemma tried_spec_witness : "se/rd/serde-json_x" ∈ tried "se/rd/serde_json-x".
Proof.
  destruct (tried_spec "se/rd/serde_json-x" ltac:(vm_compute; reflexivity)) as (_ & _ & _ & _ & H).
  apply H; [vm_compute; lia|].  repeat (split; [first [left; reflexivity | right; split; reflexivity]|]). exact I.
Defined.
(** With eleven separators some spelling is not tried. *)
Definition eleven : string := "a-b-c-d-e-f-g-h-i-j-k-l".
Definition all_but_last : string := "a-b-c-d-e-f-g-h-i-j-k_l".
Example not_all_tried : respelled eleven all_but_last ∧ existsb (String.eqb all_but_last) (tried eleven) = false.
Proof. split; [|vm_eq]. repeat (split; [first [left; reflexivity | right; split; reflexivity]|]). exact I. Qed.
