(* ===== verification/RegistryIndex.v ===== *)
(** The index of a registry, [src/cargo/sources/registry/index.rs] with the data
    it is read from ([mod.rs]): the lines of a crate's file, the cache of what was
    read, the checksums, and what a query is answered from. *)
From S2P Require Import Prelude Str Extern Path Utf8 Features SourceId PackageId Dependency Summary LockFileOps IndexNames.

Local Open Scope string_scope.

(** [filter] with a test that may panic. *)
Fixpoint filter_res {A} (f : A → cresult bool) (l : list A) : cresult (list A) :=
  match l with
  | [] => Ok []
  | x :: l => b ← f x; r ← filter_res f l; Ok (if (b : bool) then x :: r else r)
  end.

Section index.
Context `{SV : SemverLib} `{UL : UrlLib} `{RS : RustStd} `{LO : UnicodeLower}.

(** * The lines of the index *)
Record RegistryDependency := mkRegistryDependency {
  rd_name : string;
  rd_req : string;
  rd_features : list string;
  rd_optional : bool;
  rd_default_features : bool;
  rd_target : option string;
  rd_kind : option string;
  rd_registry : option string;
  rd_package : option string;
}.
Record RegistryPackage := mkRegistryPackage {
  rp_name : string;
  rp_vers : Version;
  rp_deps : list RegistryDependency;
  rp_features : gmap string (list string);
  rp_cksum : string;
  rp_yanked : option bool;
  rp_links : option string;
}.
(** [serde_json::from_str] at this type. *)
Class IndexJson := { json_package : string → cresult RegistryPackage }.
Context `{IJ : !IndexJson}.

(** [RegistryDependency::into_dep] *)
Definition dep_kind_of (kind : option string) : DepKind :=
  let k := default "" kind in
  if String.eqb k "dev" then Development else if String.eqb k "build" then Build else Normal.
Definition parse_target (target : option string) : cresult (option Platform) :=
  match target with
  | Some target => match platform_from_str target with
                   | Some p => p ← p; Ok (Some p)
                   | None => Panic "unreachable"
                   end
  | None => Ok None
  end.
Definition into_dep (rd : RegistryDependency) (dflt : SourceId) : cresult Dependency :=
  id ← match rd_registry rd with
       | Some registry => url ← str_to_url registry; for_registry url
       | None => Ok dflt
       end;
  dep ← (Dependency.parse (default (rd_name rd) (rd_package rd)) (Some (rd_req rd)) id None).1;
  let dep := match rd_package rd with Some _ => set_explicit_name_in_toml dep (rd_name rd) | None => dep end in
  platform ← parse_target (rd_target rd);
  let features := List.filter (λ s, negb (is_empty s)) (rd_features rd) in
  Ok (set_kind (set_platform (set_features (set_default_features (set_optional dep (rd_optional rd)) (rd_default_features rd))
                                           features) platform) (dep_kind_of (rd_kind rd))).

(** * The data of a registry: [trait RegistryData].  A method returns the data as
    it leaves them; [load] stands for the call with its closure: what the closure
    is given, or the error of a lookup that never ran it. *)
Class RegistryData := {
  Ops : Type;
  prepare : Ops → cresult unit * Ops;
  index_path : Ops → path;
  load : Ops → path → path → cresult string * Ops;
  update_index : Ops → cresult unit * Ops;
  is_crate_downloaded : Ops → PackageId → bool;
}.
Context `{RD : !RegistryData}.
(** [Filesystem::open_ro] of the lock file: the path of the lock. *)
Context (open_ro : path → cresult path).

(** * [RegistryIndex] *)
Abbreviation Entry := (Summary * bool)%type.     (* the flag is [yanked] *)
Record RegistryIndex := mkIndex {
  ri_source_id : SourceId;
  ri_path : path;
  ri_cache : gmap string (list Entry);
  ri_hashes : gmap string (hashmap Version string);
  ri_config : CliUnstable;
  ri_locked : bool;
}.
Definition index_new (id : SourceId) (p : path) (config : CliUnstable) (locked : bool) : RegistryIndex :=
  mkIndex id p ∅ ∅ config locked.
Definition set_cache (idx : RegistryIndex) c : RegistryIndex :=
  mkIndex (ri_source_id idx) (ri_path idx) c (ri_hashes idx) (ri_config idx) (ri_locked idx).
Definition set_hashes (idx : RegistryIndex) h : RegistryIndex :=
  mkIndex (ri_source_id idx) (ri_path idx) (ri_cache idx) h (ri_config idx) (ri_locked idx).

(** [parse_registry_package] *)
Definition parse_registry_package (idx : RegistryIndex) (line : string) : cresult (Entry * RegistryIndex) :=
  p ← json_package line;
  let pkgid := mkPackageId (rp_name p) (rp_vers p) (ri_source_id idx) in
  deps ← foldM (λ deps d, d ← into_dep d (ri_source_id idx); Ok (deps ++ [d])%list) [] (rp_deps p);
  summary ← Summary.new pkgid deps (rp_features p) (rp_links p) false;
  let summary := Summary.set_checksum summary (rp_cksum p) in
  let hashes := <[rp_name p := hinsert (rp_vers p) (rp_cksum p) (default ∅ (ri_hashes idx !! rp_name p))]> (ri_hashes idx) in
  Ok ((summary, default false (rp_yanked p)), set_hashes idx hashes).

(** The closure of [load_summaries]: lines that cannot be read are skipped. *)
Definition read_line (o : Ops) (st : list Entry * RegistryIndex) (line : string) : cresult (list Entry * RegistryIndex) :=
  match parse_registry_package st.2 line with
  | Panic m => Panic m
  | Err _ => Ok st
  | Ok ((summary, yanked), idx) =>
      if negb (offline (ri_config idx)) || is_crate_downloaded o (sum_package_id summary)
      then Ok ((st.1 ++ [(summary, yanked)])%list, idx) else Ok (st.1, idx)
  end.
Definition index_lines (contents : string) : list string :=
  List.filter (λ l, negb (is_empty l)) (List.map trim (str_lines contents)).
Definition read_contents (o : Ops) (idx : RegistryIndex) (contents : string) : cresult (list Entry * RegistryIndex) :=
  if valid_utf8 contents then foldM (read_line o) ([], idx) (index_lines contents)
  else Err "registry index file was not valid utf-8".

Fixpoint try_paths (idx : RegistryIndex) (o : Ops) (root : path) (paths : list path) : cresult (list Entry * RegistryIndex) * Ops :=
  match paths with
  | [] => (Ok ([], idx), o)
  | p :: paths =>
      match load o root p with
      | (Err _, o) => try_paths idx o root paths
      | (Panic m, o) => (Panic m, o)
      | (Ok contents, o) => (read_contents o idx contents, o)
      end
  end.

(** [load_summaries] *)
Definition lock_root (idx : RegistryIndex) : option (cresult path) :=
  if ri_locked idx then
    match open_ro (ri_path idx) with
    | Ok l => Some (unwrap (parent l))
    | Err _ => None
    | Panic m => Some (Panic m)
    end
  else Some (Ok (ri_path idx)).
Definition load_summaries (idx : RegistryIndex) (name : string) (o : Ops) : cresult (list Entry * RegistryIndex) * Ops :=
  match prepare o with
  | (Err e, o) => (Err e, o)
  | (Panic m, o) => (Panic m, o)
  | (Ok _, o) =>
      match lock_root idx with
      | None => (Ok ([], idx), o)
      | Some root =>
          match (root ← root; raw ← raw_path (fs_name name); Ok (root, raw)) with
          | Ok (root, raw) => try_paths idx o root (tried raw)
          | Err e => (Err e, o)
          | Panic m => (Panic m, o)
          end
      end
  end.

(** [summaries]; nothing is cached after an error. *)
Definition summaries (idx : RegistryIndex) (name : string) (o : Ops) : cresult (list Entry) * (RegistryIndex * Ops) :=
  match ri_cache idx !! name with
  | Some l => (Ok l, (idx, o))
  | None =>
      match load_summaries idx name o with
      | (Ok (l, idx), o) => (Ok l, (set_cache idx (<[name := l]> (ri_cache idx)), o))
      | (Err e, o) => (Err e, (idx, o))
      | (Panic m, o) => (Panic m, (idx, o))
      end
  end.

(** [hash] *)
Definition known_hash (idx : RegistryIndex) (pkg : PackageId) : option string :=
  ri_hashes idx !! pid_name pkg ≫= λ v, hget v (pid_version pkg).
Definition hash (idx : RegistryIndex) (pkg : PackageId) (o : Ops) : cresult string * (RegistryIndex * Ops) :=
  match known_hash idx pkg with
  | Some s => (Ok s, (idx, o))
  | None =>
      let '(l, (idx, o)) := summaries idx (pid_name pkg) o in
      (_ ← l;
       match known_hash idx pkg with
       | Some s => Ok s
       | None => p ← PackageId.display pkg; Err ("no hash listed for " ++ p)
       end, (idx, o))
  end.

(** [query_inner]: a version that [cargo update --precise] asks for. *)
Definition precise_for (precise : option string) (name : string) : option string :=
  match precise with
  | Some p => if starts_with name p && starts_with "=" (str_drop (String.length name) p)
              then Some (str_drop (String.length name + 1) p) else None
  | None => None
  end.
Definition precise_keeps (precise : option string) (d : Dependency) (s : Summary) : cresult bool :=
  match precise_for precise (dep_name d) with
  | Some p =>
      let '(from, to) := split_str "->" p in
      match version_parse from with
      | Ok from => if req_matches (dep_req d) from
                   then to ← unwrap to; Ok (String.eqb to (version_to_string (pid_version (sum_package_id s))))
                   else Ok true
      | Err _ => Panic "called `Result::unwrap()` on an `Err` value"
      | Panic m => Panic m
      end
  | None => Ok true
  end.
Definition not_yanked (d : Dependency) (e : Entry) : bool := bool_decide (is_Some (sid_precise (dep_source_id d))) || negb e.2.
Definition visible (sid : SourceId) (d : Dependency) (l : list Entry) : cresult (list Summary) :=
  filter_res (precise_keeps (sid_precise sid) d) (List.map fst (List.filter (not_yanked d) l)).
Definition query_inner (idx : RegistryIndex) (d : Dependency) (o : Ops) : cresult (list Summary) * (RegistryIndex * Ops) :=
  let '(l, st) := summaries idx (dep_name d) o in
  (l ← l; visible (ri_source_id idx) d l, st).

(** * What the index relies on: a registry's data answer alike until they are
    updated.  [alike o o] says that [o] is in order. *)
Class RegistryDataLaws := {
  alike : relation Ops;
  #[global] alike_sym :: Symmetric alike;
  #[global] alike_trans :: Transitive alike;
  alike_prepare o o' : alike o o' → (prepare o).1 = (prepare o').1;
  prepare_alike o : alike o o → alike o (prepare o).2;
  alike_load o o' r p : alike o o' → (load o r p).1 = (load o' r p).1;
  load_alike o r p : alike o o → alike o (load o r p).2;
  alike_path o o' : alike o o' → index_path o = index_path o';
  alike_downloaded o o' : alike o o' → is_crate_downloaded o = is_crate_downloaded o';
  alike_update o o' : alike o o' → (update_index o).1 = (update_index o').1 ∧ alike (update_index o).2 (update_index o').2;
}.
Context `{RL : !RegistryDataLaws}.

Lemma alike_left o o' : alike o o' → alike o o.
Proof. intros H. by etransitivity. Qed.
Lemma alike_right o o' : alike o o' → alike o' o'.
Proof. intros H. by etransitivity. Qed.

(** * Reference: an entry, a file, a lookup *)
Definition parse_entry (sid : SourceId) (line : string) : cresult Entry :=
  fst <$> parse_registry_package (index_new sid "" cli_default false) line.
Definition kept (config : CliUnstable) (o : Ops) (e : Entry) : bool :=
  negb (offline config) || is_crate_downloaded o (sum_package_id e.1).
Fixpoint file_entries (sid : SourceId) (config : CliUnstable) (o : Ops) (lines : list string) : cresult (list Entry) :=
  match lines with
  | [] => Ok []
  | line :: lines =>
      match parse_entry sid line with
      | Panic m => Panic m
      | Err _ => file_entries sid config o lines
      | Ok e => l ← file_entries sid config o lines; Ok (if kept config o e then e :: l else l)
      end
  end.
Fixpoint first_file (o : Ops) (root : path) (paths : list path) : cresult (option string) :=
  match paths with
  | [] => Ok None
  | p :: paths => match (load o root p).1 with
                  | Err _ => first_file o root paths
                  | Panic m => Panic m
                  | Ok contents => Ok (Some contents)
                  end
  end.
(** What the index lists for a crate, read from the data as they are. *)
Definition listed (idx : RegistryIndex) (name : string) (o : Ops) : cresult (list Entry) :=
  _ ← (prepare o).1;
  match lock_root idx with
  | None => Ok []
  | Some root =>
      root ← root; raw ← raw_path (fs_name name);
      contents ← first_file o root (tried raw);
      match contents with
      | None => Ok []
      | Some c => if valid_utf8 c then file_entries (ri_source_id idx) (ri_config idx) o (index_lines c)
                  else Err "registry index file was not valid utf-8"
      end
  end.

(** Indices over the same registry. *)
Record same_index (idx idx' : RegistryIndex) : Prop := {
  si_source_id : ri_source_id idx' = ri_source_id idx;
  si_path : ri_path idx' = ri_path idx;
  si_config : ri_config idx' = ri_config idx;
  si_locked : ri_locked idx' = ri_locked idx;
}.
#[global] Instance same_index_equiv : Equivalence same_index.
Proof. split; [by split|intros ?? []; by split|intros ??? [] []; split; congruence]. Qed.

Lemma parse_registry_package_entry idx line :
  match parse_registry_package idx line with
  | Ok (e, idx') => parse_entry (ri_source_id idx) line = Ok e ∧ same_index idx idx' ∧ ri_cache idx' = ri_cache idx
  | Err e => parse_entry (ri_source_id idx) line = Err e
  | Panic m => parse_entry (ri_source_id idx) line = Panic m
  end.
Proof.
  unfold parse_entry, parse_registry_package. destruct (json_package line) as [p| |]; cbn [mbind res_mbind res_bind fmap res_fmap]; [|done..].
  cbn [ri_source_id index_new]. destruct (foldM _ [] (rp_deps p)); cbn [mbind res_mbind res_bind]; [|done..].
  destruct (Summary.new _ _ _ _ _); cbn [mbind res_mbind res_bind]; [|done..]. by split_and!.
Qed.

(** Reading a file is its entries, whatever the index knows already. *)
Lemma read_lines_entries o lines : ∀ acc idx,
  match foldM (read_line o) (acc, idx) lines with
  | Ok (l, idx') => ∃ l', file_entries (ri_source_id idx) (ri_config idx) o lines = Ok l' ∧ l = (acc ++ l')%list ∧
                    same_index idx idx' ∧ ri_cache idx' = ri_cache idx
  | Err _ => False
  | Panic m => file_entries (ri_source_id idx) (ri_config idx) o lines = Panic m
  end.
Proof.
  induction lines as [|line lines IH]; intros acc idx; cbn [foldM].
  { exists []. by rewrite app_nil_r. }
  pose proof (parse_registry_package_entry idx line) as Hp. unfold read_line. cbn [fst snd file_entries].
  destruct (parse_registry_package idx line) as [[[s y] idx1]|e|m]; cbn [mbind res_mbind res_bind].
  - destruct Hp as (He & Hsame & Hc). rewrite He. unfold kept. cbn [fst]. rewrite (si_config _ _ Hsame).
    destruct (negb (offline (ri_config idx)) || is_crate_downloaded o (sum_package_id s)); cbn [mbind res_mbind res_bind].
    + specialize (IH (acc ++ [(s, y)])%list idx1). rewrite (si_config _ _ Hsame), (si_source_id _ _ Hsame) in IH.
      destruct (foldM _ _ lines) as [[l idx']| |]; [|done|by rewrite IH].
      destruct IH as (l' & -> & -> & H & ->). exists ((s, y) :: l'). rewrite <-app_assoc. split_and!; [done..|by etransitivity|done].
    + specialize (IH acc idx1). rewrite (si_config _ _ Hsame), (si_source_id _ _ Hsame) in IH.
      destruct (foldM _ _ lines) as [[l idx']| |]; [|done|by rewrite IH].
      destruct IH as (l' & -> & -> & H & ->). exists l'. split_and!; [done..|by etransitivity|done].
  - rewrite Hp. apply (IH acc idx).
  - by rewrite Hp.
Qed.
Lemma file_entries_alike sid config o o' lines : alike o o' → file_entries sid config o lines = file_entries sid config o' lines.
Proof.
  intros Ha. induction lines as [|line lines IH]; cbn [file_entries]; [done|]. unfold kept. by rewrite (alike_downloaded _ _ Ha), IH.
Qed.
Lemma first_file_alike o o' root paths : alike o o' → first_file o root paths = first_file o' root paths.
Proof. intros Ha. induction paths as [|p paths IH]; cbn [first_file]; [done|]. by rewrite (alike_load _ _ root p Ha), IH. Qed.
Lemma listed_same idx idx' name o o' : same_index idx idx' → alike o o' → listed idx name o = listed idx' name o'.
Proof.
  intros [Hs Hp Hc Hl] Ha. unfold listed, lock_root. rewrite (alike_prepare _ _ Ha), Hs, Hp, Hc, Hl.
  destruct (prepare o').1; [|done..]. cbn [mbind res_mbind res_bind]. destruct (if ri_locked idx then _ else _) as [root|]; [|done].
  destruct root as [root| |]; [|done..]. cbn [mbind res_mbind res_bind]. destruct (raw_path _) as [raw| |]; [|done..]. cbn [mbind res_mbind res_bind].
  rewrite (first_file_alike _ _ _ _ Ha). destruct (first_file _ _ _) as [[c|]| |]; [|done..]. cbn [mbind res_mbind res_bind].
  by rewrite (file_entries_alike _ _ _ _ _ Ha).
Qed.

(** Data that read alike; which packages are downloaded may differ, and shows
    offline only. *)
Record same_reads (o o' : Ops) : Prop := {
  sr_prepare : (prepare o).1 = (prepare o').1;
  sr_load r p : (load o r p).1 = (load o' r p).1;
  sr_path : index_path o = index_path o';
}.
Lemma first_file_reads o o' root paths : same_reads o o' → first_file o root paths = first_file o' root paths.
Proof. intros Ha. induction paths as [|p paths IH]; cbn [first_file]; [done|]. by rewrite (sr_load _ _ Ha root p), IH. Qed.
Lemma listed_reads idx name o o' : same_reads o o' → offline (ri_config idx) = false → listed idx name o = listed idx name o'.
Proof.
  intros Ha Ho. assert (Hf : ∀ lines, file_entries (ri_source_id idx) (ri_config idx) o lines = file_entries (ri_source_id idx) (ri_config idx) o' lines).
  { induction lines as [|line lines IH]; cbn [file_entries]; [done|]. unfold kept. by rewrite Ho, IH. }
  unfold listed. rewrite (sr_prepare _ _ Ha). destruct (prepare o').1; [|done..]. cbn [mbind res_mbind res_bind].
  destruct (lock_root idx) as [[root| |]|]; [|done..]. cbn [mbind res_mbind res_bind]. destruct (raw_path _) as [raw| |]; [|done..].
  cbn [mbind res_mbind res_bind]. rewrite (first_file_reads _ _ _ _ Ha).
  destruct (first_file _ _ _) as [[c|]| |]; [|done..]. cbn [mbind res_mbind res_bind]. by rewrite Hf.
Qed.

(** What a step leaves: a result of the registry, the same data, the same cache. *)
Definition same_result (idx : RegistryIndex) (r : cresult (list Entry * RegistryIndex)) (spec : cresult (list Entry)) : Prop :=
  match r with
  | Ok (l, idx') => spec = Ok l ∧ same_index idx idx' ∧ ri_cache idx' = ri_cache idx
  | Err e => spec = Err e
  | Panic m => spec = Panic m
  end.
Lemma read_contents_spec idx o c :
  same_result idx (read_contents o idx c)
    (if valid_utf8 c then file_entries (ri_source_id idx) (ri_config idx) o (index_lines c)
     else Err "registry index file was not valid utf-8").
Proof.
  unfold read_contents. destruct (valid_utf8 c); [|done]. pose proof (read_lines_entries o (index_lines c) [] idx) as H.
  destruct (foldM _ _ _) as [[l idx']| |]; cbn; [|done..]. destruct H as (l' & -> & -> & H1 & H2). done.
Qed.
Lemma try_paths_spec idx root paths : ∀ o, alike o o →
  alike o (try_paths idx o root paths).2 ∧
  same_result idx (try_paths idx o root paths).1
    (contents ← first_file o root paths;
     match contents with
     | None => Ok []
     | Some c => if valid_utf8 c then file_entries (ri_source_id idx) (ri_config idx) o (index_lines c)
                 else Err "registry index file was not valid utf-8"
     end).
Proof.
  induction paths as [|p paths IH]; intros o Ha; [by split|]. cbn [try_paths first_file].
  pose proof (load_alike o root p Ha) as Hl. destruct (load o root p) as [r o1]. cbn [fst snd] in *.
  destruct r as [c|e|m]; cbn [fst snd mbind res_mbind res_bind].
  - split; [done|]. rewrite (file_entries_alike _ _ _ _ _ Hl). apply read_contents_spec.
  - destruct (IH o1 (alike_right _ _ Hl)) as [H1 H2]. split; [by etransitivity|].
    rewrite (first_file_alike _ _ _ _ Hl). destruct (first_file o1 root paths) as [[c|]| |]; [|done..].
    cbn [mbind res_mbind res_bind] in *. by rewrite (file_entries_alike _ _ _ _ _ Hl).
  - done.
Qed.
Lemma load_summaries_spec idx name o : alike o o →
  alike o (load_summaries idx name o).2 ∧ same_result idx (load_summaries idx name o).1 (listed idx name o).
Proof.
  intros Ha. unfold load_summaries, listed. pose proof (prepare_alike o Ha) as Hp. destruct (prepare o) as [u o1]. cbn [fst snd] in *.
  destruct u as [[]| |]; cbn [fst snd mbind res_mbind res_bind]; [|done..].
  destruct (lock_root idx) as [root|]; [|done]. destruct root as [root| |]; cbn [fst snd mbind res_mbind res_bind]; [|done..].
  destruct (raw_path _) as [raw| |]; cbn [fst snd mbind res_mbind res_bind]; [|done..].
  destruct (try_paths_spec idx root (tried raw) o1 (alike_right _ _ Hp)) as [H1 H2]. split; [by etransitivity|].
  rewrite (first_file_alike _ _ _ _ Hp). destruct (first_file o1 root _) as [[c|]| |]; [|done..].
  cbn [mbind res_mbind res_bind] in *. by rewrite (file_entries_alike _ _ _ _ _ Hp).
Qed.

(** * The checksums *)

(** A line of a file of the index, and the checksum it gives. *)
Definition line_for (idx : RegistryIndex) (o : Ops) (line : string) : Prop :=
  ∃ name root raw contents, lock_root idx = Some (Ok root) ∧ raw_path (fs_name name) = Ok raw ∧
    first_file o root (tried raw) = Ok (Some contents) ∧ line ∈ index_lines contents.
Definition line_hash (idx : RegistryIndex) (line : string) (pkg : PackageId) (c : string) : Prop :=
  ∃ e, parse_entry (ri_source_id idx) line = Ok e ∧ pid_name (sum_package_id e.1) = pid_name pkg ∧
       to_key (pid_version (sum_package_id e.1)) = to_key (pid_version pkg) ∧ sum_checksum e.1 = Some c.
Lemma line_hash_same idx idx' line pkg c : same_index idx idx' → line_hash idx line pkg c → line_hash idx' line pkg c.
Proof. unfold line_hash. by intros [-> _ _ _]. Qed.
Lemma line_for_same idx idx' o o' line : same_index idx idx' → alike o o' → line_for idx o line → line_for idx' o' line.
Proof.
  intros [_ Hp _ Hl] Ha (name & root & raw & c & H1 & H2 & H3 & H4). exists name, root, raw, c. split_and!; [|done| |done].
  - unfold lock_root in *. by rewrite Hp, Hl.
  - by rewrite <-(first_file_alike _ _ _ _ Ha).
Qed.

Lemma new_package_id id deps features links ns s : Summary.new id deps features links ns = Ok s → sum_package_id s = id.
Proof. intros H. pose proof (new_cases id deps features links ns) as Hc. rewrite H in Hc. tauto. Qed.
Lemma parse_registry_package_hash idx line e idx' pkg c :
  parse_registry_package idx line = Ok (e, idx') → known_hash idx' pkg = Some c →
  known_hash idx pkg = Some c ∨ line_hash idx line pkg c.
Proof.
  intros H Hk. pose proof (parse_registry_package_entry idx line) as He. rewrite H in He. destruct He as (He & _ & _).
  unfold parse_registry_package in H. destruct (json_package line) as [p| |]; cbn [mbind res_mbind res_bind] in H; [|done..].
  destruct (foldM _ [] (rp_deps p)) as [deps| |]; cbn [mbind res_mbind res_bind] in H; [|done..].
  destruct (Summary.new _ _ _ _ _) as [s| |] eqn:Hs; cbn [mbind res_mbind res_bind] in H; [|done..].
  injection H as <- <-. revert Hk. unfold known_hash. cbn [ri_hashes set_hashes].
  destruct (decide (pid_name pkg = rp_name p)) as [Hn|Hn]; [|rewrite lookup_insert_ne by done; by left].
  rewrite Hn, lookup_insert_eq. cbn [mbind option_bind]. rewrite hget_hinsert. case_decide as Hv.
  - intros [= <-]. right. eexists. split; [exact He|]. cbn [fst Summary.set_checksum sum_package_id sum_checksum].
    rewrite (new_package_id _ _ _ _ _ _ Hs). by split_and!.
  - intros Hk. left. destruct (ri_hashes idx !! rp_name p) as [m|]; [done|]. cbn [default from_option id] in Hk. by rewrite hget_empty in Hk.
Qed.
Lemma read_lines_hash o lines pkg c : ∀ acc idx l idx', foldM (read_line o) (acc, idx) lines = Ok (l, idx') →
  known_hash idx' pkg = Some c → known_hash idx pkg = Some c ∨ ∃ line, line ∈ lines ∧ line_hash idx line pkg c.
Proof.
  induction lines as [|line lines IH]; intros acc idx l idx'; cbn [foldM]; [intros [= <- <-]; by left|].
  pose proof (parse_registry_package_entry idx line) as Hp. pose proof (parse_registry_package_hash idx line) as Hh.
  unfold read_line. cbn [fst snd]. destruct (parse_registry_package idx line) as [[[s y] idx1]|e|m]; cbn [mbind res_mbind res_bind]; [| |done].
  - destruct Hp as (_ & Hsame & _). intros H Hk. specialize (Hh _ _ pkg c eq_refl).
    assert (known_hash idx1 pkg = Some c ∨ ∃ line0, line0 ∈ lines ∧ line_hash idx line0 pkg c) as [H1|(l0 & H1 & H2)].
    { destruct (_ || _); cbn [mbind res_mbind res_bind] in H; destruct (IH _ _ _ _ H Hk) as [?|(l0 & H1 & H2)]; try (by left);
        right; exists l0; split; [done|by apply (line_hash_same idx1)|done|by apply (line_hash_same idx1)]. }
    + destruct (Hh H1) as [?|?]; [by left|]. right. exists line. by split; [left|].
    + right. exists l0. by split; [right|].
  - intros H Hk. destruct (IH _ _ _ _ H Hk) as [?|(l0 & H1 & H2)]; [by left|]. right. exists l0. by split; [right|].
Qed.
Lemma try_paths_hash idx root paths pkg c : ∀ o l idx', alike o o → (try_paths idx o root paths).1 = Ok (l, idx') → known_hash idx' pkg = Some c →
  known_hash idx pkg = Some c ∨
  ∃ contents line, first_file o root paths = Ok (Some contents) ∧ line ∈ index_lines contents ∧ line_hash idx line pkg c.
Proof.
  induction paths as [|p paths IH]; intros o l idx' Ha; cbn [try_paths first_file]; [intros [= <- <-]; by left|].
  pose proof (load_alike o root p Ha) as Hl. destruct (load o root p) as [r o1]. cbn [fst snd] in *. destruct r as [ct|e|m]; cbn [fst]; [| |done].
  - unfold read_contents. destruct (valid_utf8 ct); [|done]. intros H Hk.
    destruct (read_lines_hash _ _ _ _ _ _ _ _ H Hk) as [?|(line & H1 & H2)]; [by left|]. right. by exists ct, line.
  - intros H Hk. rewrite (first_file_alike _ _ _ _ Hl). by apply (IH o1 l idx'); [eapply alike_right|..].
Qed.
Lemma load_summaries_hash idx name o l idx' pkg c : alike o o → (load_summaries idx name o).1 = Ok (l, idx') → known_hash idx' pkg = Some c →
  known_hash idx pkg = Some c ∨ ∃ line, line_for idx o line ∧ line_hash idx line pkg c.
Proof.
  intros Ha. unfold load_summaries. pose proof (prepare_alike o Ha) as Hp. destruct (prepare o) as [u o1]. cbn [fst snd] in *.
  destruct u as [[]| |]; [|done..]. destruct (lock_root idx) as [[root| |]|] eqn:Hr; cbn [fst mbind res_mbind res_bind]; [|done..|intros [= <- <-]; by left].
  destruct (raw_path (fs_name name)) as [raw| |] eqn:Hraw; cbn [fst mbind res_mbind res_bind]; [|done..]. intros H Hk.
  destruct (try_paths_hash _ _ _ _ _ _ _ _ (alike_right _ _ Hp) H Hk) as [?|(ct & line & H1 & H2 & H3)]; [by left|].
  right. exists line. split; [|done]. exists name, root, raw, ct. split_and!; [done..| |done]. by rewrite (first_file_alike _ _ _ _ Hp).
Qed.

(** * The cache *)
Record index_ok (idx : RegistryIndex) (o : Ops) : Prop := {
  io_alike : alike o o;
  io_cache name l : ri_cache idx !! name = Some l → listed idx name o = Ok l;
  io_hashes pkg c : known_hash idx pkg = Some c → ∃ line, line_for idx o line ∧ line_hash idx line pkg c;
}.
Lemma index_ok_new sid p config locked o : alike o o → index_ok (index_new sid p config locked) o.
Proof. by split. Qed.
Lemma index_ok_same idx idx' o o' : index_ok idx o → same_index idx idx' → alike o o' → ri_cache idx' = ri_cache idx →
  ri_hashes idx' = ri_hashes idx → index_ok idx' o'.
Proof.
  intros [Ha Hc Hh] Hs Ho Hcache Hhash. split; [by eapply alike_right| |].
  - intros name l. rewrite Hcache. intros Hl. rewrite <-(listed_same idx idx' name o o'); auto.
  - intros pkg c. unfold known_hash. rewrite Hhash. intros H. destruct (Hh pkg c H) as (line & H1 & H2).
    exists line. split; [by apply (line_for_same idx idx' o o')|by apply (line_hash_same idx)].
Qed.
Lemma index_ok_reads idx o o' : index_ok idx o → same_reads o o' → alike o' o' → offline (ri_config idx) = false → index_ok idx o'.
Proof.
  intros [Ha Hc Hh] Hs Ha' Ho. split; [done| |].
  - intros name l Hl. rewrite <-(listed_reads idx name o o') by done. by apply Hc.
  - intros pkg c Hk. destruct (Hh pkg c Hk) as (line & (name & root & raw & t & H1 & H2 & H3 & H4) & H5). exists line. split; [|done].
    exists name, root, raw, t. by rewrite <-(first_file_reads o o').
Qed.
Lemma summaries_ok idx name o : index_ok idx o →
  (summaries idx name o).1 = listed idx name o ∧
  same_index idx (summaries idx name o).2.1 ∧ alike o (summaries idx name o).2.2 ∧
  index_ok (summaries idx name o).2.1 (summaries idx name o).2.2.
Proof.
  intros Hok. pose proof (io_alike _ _ Hok) as Ha. unfold summaries. destruct (ri_cache idx !! name) as [l|] eqn:Hc.
  { by rewrite (io_cache _ _ Hok name l Hc). }
  destruct (load_summaries_spec idx name o Ha) as [H1 H2]. pose proof (load_summaries_hash idx name o) as Hh.
  destruct (load_summaries idx name o) as [r o']. cbn [fst snd] in *.
  destruct r as [[l idx']|e|m]; cbn [same_result fst snd] in *.
  - destruct H2 as (H2 & H3 & H4). assert (Hs : same_index idx (set_cache idx' (<[name := l]> (ri_cache idx')))) by (destruct H3; by split).
    split_and!; [done|done|done|]. split; [by eapply alike_right| |].
    2:{ intros pkg c Hk. assert (known_hash idx pkg = Some c ∨ ∃ line, line_for idx o line ∧ line_hash idx line pkg c) as [Hk'|Hk'] by exact (Hh _ _ _ _ Ha eq_refl Hk).
        - destruct (io_hashes _ _ Hok _ _ Hk') as (line & L1 & L2). exists line.
          split; [by apply (line_for_same idx _ o o')|by apply (line_hash_same idx)].
        - destruct Hk' as (line & L1 & L2). exists line. split; [by apply (line_for_same idx _ o o')|by apply (line_hash_same idx)]. }
    intros n l'. rewrite <-(listed_same _ _ n _ _ Hs H1). cbn [ri_cache set_cache]. rewrite H4. destruct (decide (n = name)) as [->|Hne].
    + rewrite lookup_insert_eq. by intros [= <-].
    + rewrite lookup_insert_ne by done. apply (io_cache _ _ Hok).
  - split_and!; [done..|]. by apply (index_ok_same idx idx o o').
  - split_and!; [done..|]. by apply (index_ok_same idx idx o o').
Qed.
Lemma hash_ok idx pkg o : index_ok idx o →
  same_index idx (hash idx pkg o).2.1 ∧ alike o (hash idx pkg o).2.2 ∧ index_ok (hash idx pkg o).2.1 (hash idx pkg o).2.2.
Proof.
  intros Hok. unfold hash. destruct (known_hash idx pkg); [split_and!; [done|exact (io_alike _ _ Hok)|done]|].
  destruct (summaries_ok idx (pid_name pkg) o Hok) as (_ & H). by destruct (summaries idx (pid_name pkg) o) as [l [idx' o']].
Qed.
Lemma query_inner_ok idx d o : index_ok idx o →
  (query_inner idx d o).1 = (l ← listed idx (dep_name d) o; visible (ri_source_id idx) d l) ∧
  same_index idx (query_inner idx d o).2.1 ∧ alike o (query_inner idx d o).2.2 ∧
  index_ok (query_inner idx d o).2.1 (query_inner idx d o).2.2.
Proof.
  intros Hok. unfold query_inner. destruct (summaries_ok idx (dep_name d) o Hok) as (<- & H).
  by destruct (summaries idx (dep_name d) o) as [l [idx' o']].
Qed.

(** A run of the index's operations. *)
Inductive index_step : RegistryIndex * Ops → RegistryIndex * Ops → Prop :=
| step_summaries idx o name : index_step (idx, o) (summaries idx name o).2
| step_hash idx o pkg : index_step (idx, o) (hash idx pkg o).2
| step_query idx o d : index_step (idx, o) (query_inner idx d o).2.
Lemma index_steps_ok st st' : rtc index_step st st' → index_ok st.1 st.2 →
  index_ok st'.1 st'.2 ∧ same_index st.1 st'.1 ∧ alike st.2 st'.2.
Proof.
  induction 1 as [st|st st1 st' Hs _ IH]; intros Hok; [by split_and!; [|done|exact (io_alike _ _ Hok)]|].
  assert (H : same_index st.1 st1.1 ∧ alike st.2 st1.2 ∧ index_ok st1.1 st1.2).
  { destruct Hs; cbn [fst snd] in *; [by apply summaries_ok|by apply hash_ok|by apply query_inner_ok]. }
  destruct H as (H1 & H2 & H3). destruct (IH H3) as (H4 & H5 & H6). split_and!; [done|by etransitivity..].
Qed.

Lemma filter_res_spec {A} (f : A → cresult bool) l r : filter_res f l = Ok r → ∀ x, x ∈ r ↔ x ∈ l ∧ f x = Ok true.
Proof.
  revert r. induction l as [|y l IH]; intros r; cbn [filter_res]; [intros [= <-] x; set_solver|].
  destruct (f y) as [b| |] eqn:Hy; cbn [mbind res_mbind res_bind]; [|done..].
  destruct (filter_res f l) as [r'| |]; cbn [mbind res_mbind res_bind]; [|done..]. intros [= <-] x. specialize (IH r' eq_refl x).
  destruct b; rewrite !elem_of_cons, ?IH; (split; [|]); intros H; naive_solver congruence.
Qed.
Lemma visible_spec sid d l r : visible sid d l = Ok r → ∀ s, s ∈ r ↔
  (∃ y, (s, y) ∈ l ∧ (is_Some (sid_precise (dep_source_id d)) ∨ y = false)) ∧ precise_keeps (sid_precise sid) d s = Ok true.
Proof.
  intros H s. rewrite (filter_res_spec _ _ _ H s), elem_of_list_map. apply and_iff_compat_r. split.
  - intros ([s' y] & Hin%elem_of_filter_bool & ->). destruct Hin as [Hin Hy]. exists y. split; [done|]. unfold not_yanked in Hy.
    apply orb_true_iff in Hy as [?%bool_decide_eq_true|?%negb_true_iff]; auto.
  - intros (y & Hin & Hy). exists (s, y). split; [|done]. apply elem_of_filter_bool. split; [done|]. unfold not_yanked. cbn [snd].
    apply orb_true_iff. rewrite bool_decide_eq_true. destruct Hy as [?| ->]; auto.
Qed.
Lemma hash_known idx pkg o c : (hash idx pkg o).1 = Ok c → known_hash (hash idx pkg o).2.1 pkg = Some c.
Proof.
  unfold hash. destruct (known_hash idx pkg) as [s|] eqn:Hk; [by intros [= <-]|].
  destruct (summaries idx (pid_name pkg) o) as [l [idx' o']]. cbn [fst snd]. destruct l; cbn [mbind res_mbind res_bind]; [|done..].
  destruct (known_hash idx' pkg); [by intros [= <-]|]. by destruct (PackageId.display pkg).
Qed.

(** C23. The cache of the index does not show.  Whatever was asked of an index since
    it was made, it lists for a name what is read afresh from the registry's data:
    the entries, in order, of the lines it understands of the first file found under
    a spelling of the name.  A query is answered from these, without what was yanked,
    unless the dependency is locked, and without what [--precise] excludes. *)
Theorem index_answers sid p config locked o idx' o' name d :
  alike o o → rtc index_step (index_new sid p config locked, o) (idx', o') →
  (summaries idx' name o').1 = listed (index_new sid p config locked) name o ∧
  ∀ l, (query_inner idx' d o').1 = Ok l → ∃ entries, listed (index_new sid p config locked) (dep_name d) o = Ok entries ∧
    ∀ s, s ∈ l ↔ (∃ yanked, (s, yanked) ∈ entries ∧ (is_Some (sid_precise (dep_source_id d)) ∨ yanked = false)) ∧
                 precise_keeps (sid_precise sid) d s = Ok true.
Proof.
  intros Ha Hr. destruct (index_steps_ok _ _ Hr (index_ok_new sid p config locked o Ha)) as (Hok & Hs & Ho). cbn [fst snd] in *.
  destruct (summaries_ok idx' name o' Hok) as (H1 & _). destruct (query_inner_ok idx' d o' Hok) as (H2 & _). rewrite H1, H2.
  rewrite (si_source_id _ _ Hs). rewrite <-!(listed_same _ _ _ _ _ Hs Ho). split; [done|]. intros l.
  destruct (listed _ (dep_name d) o) as [entries| |]; cbn [mbind res_mbind res_bind]; [|done..].
  intros Hl. exists entries. split; [done|]. by apply visible_spec.
Qed.

(** A checksum that the index gives for a package is the one that some line of
    the registry's files gives for that name and version. *)
Theorem hash_listed sid p config locked o idx' o' pkg c :
  alike o o → rtc index_step (index_new sid p config locked, o) (idx', o') → (hash idx' pkg o').1 = Ok c →
  ∃ line, line_for (index_new sid p config locked) o line ∧ line_hash (index_new sid p config locked) line pkg c.
Proof.
  intros Ha Hr Hc. destruct (index_steps_ok _ _ Hr (index_ok_new sid p config locked o Ha)) as (Hok & Hs & Ho). cbn [fst snd] in *.
  destruct (hash_ok idx' pkg o' Hok) as (H1 & H2 & H3). destruct (io_hashes _ _ H3 _ _ (hash_known _ _ _ _ Hc)) as (line & L1 & L2).
  exists line. split; [eapply (line_for_same _ _ _ _ line _ _ L1)|eapply (line_hash_same _ _ line pkg c _ L2)].
  Unshelve. all: symmetry; by etransitivity.
Qed.
End index.

(** * A concrete registry: files by path *)
Section runs.
Local Existing Instance sem_lib.
Local Existing Instance hier_lib.
#[local] Instance ascii_lower : UnicodeLower := {| char_to_lowercase c := c |}.

Definition dep_line (name req : string) : RegistryDependency :=
  mkRegistryDependency name req [""; "std"] false true None None None None.
(** Lines stand for what JSON would spell out. *)
#[local] Instance named_json : IndexJson := {|
  json_package line :=
    if String.eqb line "serde 1.0.0" then Ok (mkRegistryPackage "serde" (1, 0, 0) [] ∅ "c0" None None)
    else if String.eqb line "serde 1.0.1" then Ok (mkRegistryPackage "serde" (1, 0, 1) [dep_line "lib_c" "1.0.0"] ∅ "c1" (Some true) None)
    else if String.eqb line "nameless" then Ok (mkRegistryPackage "serde" (2, 0, 0) [dep_line "" "1.0.0"] ∅ "c2" None None)
    else Err "unknown line";
|}.
#[local] Instance file_data : RegistryData := {|
  Ops := gmap string string;
  prepare o := (Ok tt, o);
  index_path o := "/index";
  load o root p := (match o !! path_join root p with Some c => Ok c | None => Err "no such file" end, o);
  update_index o := (Ok tt, o);
  is_crate_downloaded o id := true;
|}.
#[local] Instance file_data_laws : RegistryDataLaws.
Proof. refine {| alike := (eq : relation Ops) |}; try done; try apply _; by intros; subst. Defined.
Definition sample_files : gmap string string :=
  {[ "/index/se/rd/serde" := "serde 1.0.0" ++ nl ++ "what is this" ++ nl ++ "  serde 1.0.1 " ++ nl ]}.
Definition sample_index : RegistryIndex := index_new PackageId.crates_io "/index" cli_default false.
Definition no_lock (p : path) : cresult path := Err "no lock".
Definition serde_dep (precise : option string) : Dependency :=
  mkDependency "serde" (SourceId.with_precise PackageId.crates_io precise) None SemAny false Normal false None false true [] None.

Definition is_Ok_with {A} (f : A → bool) (r : cresult A) : bool := match r with Ok x => f x | _ => false end.
Definition versions (l : list Summary) : list string := (λ s, version_to_string (pid_version (sum_package_id s))) <$> l.
Definition serde_1_0_1 : PackageId := mkPackageId "serde" (1, 0, 1) PackageId.crates_io.
Definition after_hash := (hash no_lock sample_index serde_1_0_1 sample_files).
Example index_run :
  (versions <$> (query_inner no_lock sample_index (serde_dep None) sample_files).1) = Ok ["1.0.0"] ∧
  (versions <$> (query_inner no_lock sample_index (serde_dep (Some "locked")) sample_files).1) = Ok ["1.0.0"; "1.0.1"] ∧
  after_hash.1 = Ok "c1".
Proof. split_and!; vm_eq. Qed.
(** A line that cannot be read is skipped, but a dependency without a name panics. *)
Example unknown_skipped : (summaries no_lock sample_index "serde" {["/index/se/rd/serde" := "what is this"]}).1 = Ok [].
Proof. vm_eq. Qed.
Example nameless_panics : is_panic (summaries no_lock sample_index "serde" {["/index/se/rd/serde" := "nameless"]}).1 = true.
Proof. vm_eq. Qed.
Lemma index_answers_witness :
  (summaries no_lock after_hash.2.1 "serde" after_hash.2.2).1 = listed no_lock sample_index "serde" sample_files.
Proof.
  apply (index_answers (RL:=file_data_laws) no_lock PackageId.crates_io "/index" cli_default false sample_files after_hash.2.1 after_hash.2.2 "serde" (serde_dep None)); [done|].
  apply rtc_once.
  pose proof (step_hash no_lock sample_index sample_files serde_1_0_1) as H.
  fold after_hash in H. rewrite (surjective_pairing after_hash.2) in H. exact H.
Defined.
Lemma hash_listed_witness : ∃ line,
  line_hash sample_index line serde_1_0_1 "c1".
Proof.
  destruct (hash_listed (SV:=sem_lib) (UL:=hier_lib) (RL:=file_data_laws) no_lock PackageId.crates_io "/index" cli_default false sample_files sample_index sample_files
    serde_1_0_1 "c1" eq_refl (rtc_refl _ _) (proj2 (proj2 index_run))) as (line & _ & H).
  by exists line.
Defined.
End runs.
