(* ===== verification/RegistrySource.v ===== *)
(** A registry as a source of packages, [RegistrySource] of
    [src/cargo/sources/registry/mod.rs]: queries with their lazy update, updates,
    and downloads; what a query changes, and what a package that is handed over was
    made of. *)
From S2P Require Import Prelude Str Extern Path Features SourceId PackageId Dependency Summary Profiles Target Package IndexNames RegistryIndex.

Local Open Scope string_scope.

Section source.
Context `{SV : SemverLib} `{UL : UrlLib} `{RS : RustStd} `{LO : UnicodeLower} `{IJ : !IndexJson} `{RD : !RegistryData}.
Context (open_ro : path → cresult path).

(** * State *)
Record RegistrySource := mkRegistrySource {
  rs_source_id : SourceId;
  rs_src_path : path;
  rs_config : CliUnstable;
  rs_updated : bool;
  rs_ops : Ops;
  rs_index : RegistryIndex;
  rs_index_locked : bool;
}.
Definition with_data (s : RegistrySource) (st : RegistryIndex * Ops) : RegistrySource :=
  mkRegistrySource (rs_source_id s) (rs_src_path s) (rs_config s) (rs_updated s) st.2 st.1 (rs_index_locked s).

(** [new]; [registry_source_path] is the directory of unpacked packages, [name]
    the short name of the registry. *)
Definition new (id : SourceId) (config : CliUnstable) (registry_source_path : path) (name : string) (ops : Ops) (index_locked : bool)
    : RegistrySource :=
  mkRegistrySource id (path_join registry_source_path name) config false ops
    (index_new id (index_path ops) config index_locked) index_locked.
(** [short_name] *)
Definition short_name (short_hash : SourceId → string) (id : SourceId) : string :=
  default "" (url_host_str (sid_url id)) ++ "-" ++ short_hash id.

(** * Updates *)
Definition fresh_index (s : RegistrySource) (o : Ops) : RegistryIndex :=
  index_new (rs_source_id s) (index_path o) (rs_config s) (rs_index_locked s).
Definition do_update (s : RegistrySource) : cresult unit * RegistrySource :=
  match update_index (rs_ops s) with
  | (Ok _, o) => (Ok tt, with_data s (fresh_index s o, o))
  | (Err e, o) => (Err e, with_data s (rs_index s, o))
  | (Panic m, o) => (Panic m, with_data s (rs_index s, o))
  end.
Definition update (s : RegistrySource) : cresult unit * RegistrySource :=
  if bool_decide (sid_precise (rs_source_id s) = Some "locked") then (Ok tt, s) else do_update s.

(** * Queries *)
Definition is_precise (d : Dependency) : bool := bool_decide (is_Some (sid_precise (dep_source_id d))).
Definition matching (d : Dependency) (l : list Summary) : list Summary :=
  List.filter (λ s, matches_id d (sum_package_id s)) l.
Definition ask_index (s : RegistrySource) (d : Dependency) : cresult (list Summary) * RegistrySource :=
  let '(l, st) := query_inner open_ro (rs_index s) d (rs_ops s) in (l, with_data s st).
Definition fuzzy_query (s : RegistrySource) (d : Dependency) : cresult (list Summary) * RegistrySource := ask_index s d.
Definition ask_matching (s : RegistrySource) (d : Dependency) : cresult (list Summary) * RegistrySource :=
  let '(l, s) := ask_index s d in (matching d <$> l, s).
Definition query (s : RegistrySource) (d : Dependency) : cresult (list Summary) * RegistrySource :=
  if is_precise d && negb (rs_updated s) then
    let '(l, s) := ask_matching s d in
    match l with
    | Ok [] =>
        let '(u, s) := do_update s in
        match u with
        | Ok _ => ask_matching s d
        | Err e => (Err e, s)
        | Panic m => (Panic m, s)
        end
    | _ => (l, s)
    end
  else ask_matching s d.
Definition ask (s : RegistrySource) (d : Dependency) (fuzzy : bool) : cresult (list Summary) * RegistrySource :=
  if fuzzy then fuzzy_query s d else query s d.

(** * Downloads *)
Inductive MaybeLock := LockReady (file : string) | LockDownload (url descriptor : string).
Inductive MaybePackage := Ready (pkg : Package) | Download (url descriptor : string).
(** The remaining methods of the data: a file stands for its contents. *)
Class RegistryFiles := {
  data_download : Ops → PackageId → string → cresult MaybeLock * Ops;
  data_finish_download : Ops → PackageId → string → string → cresult string * Ops;
}.
Context `{RF : !RegistryFiles}.
(** Unpacking a file and reading the manifest that is in it. *)
Context (unpack_read : path → PackageId → string → cresult Package).

Definition with_summary (pkg : Package) (s : Summary) : Package := mkPackage (set_summary (manifest pkg) s) (manifest_path pkg).
Definition get_pkg (s : RegistrySource) (package : PackageId) (file : string) : cresult Package * RegistrySource :=
  match unpack_read (rs_src_path s) package file with
  | Err e => (Err e, s)
  | Panic m => (Panic m, s)
  | Ok pkg =>
      let '(l, st) := summaries open_ro (rs_index s) (pid_name package) (rs_ops s) in
      (l ← l;
       match List.find (λ s, sum_package_id s ==? package) (List.map fst l) with
       | None => Panic "summary not found"
       | Some summary => Ok (with_summary pkg summary)
       end, with_data s st)
  end.
Definition source_hash (s : RegistrySource) (package : PackageId) : cresult string * RegistrySource :=
  let '(h, st) := hash open_ro (rs_index s) package (rs_ops s) in (h, with_data s st).
Definition download (s : RegistrySource) (package : PackageId) : cresult MaybePackage * RegistrySource :=
  let '(h, s) := source_hash s package in
  match h with
  | Err e => (Err e, s)
  | Panic m => (Panic m, s)
  | Ok h =>
      let '(f, o) := data_download (rs_ops s) package h in
      let s := with_data s (rs_index s, o) in
      match f with
      | Ok (LockReady file) => let '(p, s) := get_pkg s package file in (Ready <$> p, s)
      | Ok (LockDownload url descriptor) => (Ok (Download url descriptor), s)
      | Err e => (Err e, s)
      | Panic m => (Panic m, s)
      end
  end.
Definition finish_download (s : RegistrySource) (package : PackageId) (data : string) : cresult Package * RegistrySource :=
  let '(h, s) := source_hash s package in
  match h with
  | Err e => (Err e, s)
  | Panic m => (Panic m, s)
  | Ok h =>
      let '(f, o) := data_finish_download (rs_ops s) package h data in
      let s := with_data s (rs_index s, o) in
      match f with
      | Ok file => get_pkg s package file
      | Err e => (Err e, s)
      | Panic m => (Panic m, s)
      end
  end.

(** * Facts *)
Context `{RL : !RegistryDataLaws}.
(** Looking for a downloaded file leaves the data alike; storing one leaves them
    in order, and they read as before. *)
Class RegistryFilesLaws := {
  download_alike o p c : alike o o → alike o (data_download o p c).2;
  finish_alike o p c d : alike o o → alike (data_finish_download o p c d).2 (data_finish_download o p c d).2;
  finish_reads o p c d : alike o o → same_reads o (data_finish_download o p c d).2;
}.
Context `{RFL : !RegistryFilesLaws}.

(** What a query is to answer, from the data as they are now. *)
Definition read_now (s : RegistrySource) (o : Ops) (d : Dependency) : cresult (list Summary) :=
  l ← listed open_ro (fresh_index s o) (dep_name d) o; visible (rs_source_id s) d l.
Definition answer (s : RegistrySource) (d : Dependency) (fuzzy : bool) : cresult (list Summary) :=
  let o := rs_ops s in
  found ← read_now s o d;
  if fuzzy then Ok found
  else match matching d found with
       | [] => if is_precise d && negb (rs_updated s)
               then _ ← (update_index o).1; found ← read_now s (update_index o).2 d; Ok (matching d found)
               else Ok []
       | l => Ok l
       end.

(** The index is one of the source's registry, with a cache that does not show. *)
Record source_ok (s : RegistrySource) : Prop := {
  so_index : index_ok open_ro (rs_index s) (rs_ops s);
  so_same : same_index (fresh_index s (rs_ops s)) (rs_index s);
}.
Record same_registry (s s' : RegistrySource) : Prop := {
  ss_id : rs_source_id s' = rs_source_id s;
  ss_src : rs_src_path s' = rs_src_path s;
  ss_config : rs_config s' = rs_config s;
  ss_updated : rs_updated s' = rs_updated s;
  ss_locked : rs_index_locked s' = rs_index_locked s;
}.
#[global] Instance same_registry_equiv : Equivalence same_registry.
Proof. split; [by split|intros ?? []; by split|intros ??? [] []; split; congruence]. Qed.
Definition same_source (s s' : RegistrySource) : Prop := same_registry s s' ∧ alike (rs_ops s) (rs_ops s').
#[global] Instance same_source_sym : Symmetric same_source.
Proof. by intros s s' []. Qed.
#[global] Instance same_source_trans : Transitive same_source.
Proof. intros s1 s2 s3 [] []. split; by etransitivity. Qed.
Lemma source_alike s : source_ok s → alike (rs_ops s) (rs_ops s).
Proof. intros [H _]. exact (io_alike _ _ _ H). Qed.
Lemma same_source_refl s : source_ok s → same_source s s.
Proof. intros H. split; [done|by apply source_alike]. Qed.
Lemma with_data_same s st : same_registry s (with_data s st).
Proof. by split. Qed.

Lemma fresh_index_alike s s' o o' : same_registry s s' → alike o o' → fresh_index s o = fresh_index s' o'.
Proof. intros [] Ha. unfold fresh_index. rewrite (alike_path _ _ Ha). congruence. Qed.
Lemma read_now_alike s s' o o' d : same_registry s s' → alike o o' → read_now s o d = read_now s' o' d.
Proof.
  intros Hs Ha. unfold read_now. rewrite (fresh_index_alike _ _ _ _ Hs Ha), (ss_id _ _ Hs).
  by rewrite (listed_same open_ro (fresh_index s' o') (fresh_index s' o') (dep_name d) o o').
Qed.
Lemma answer_alike s s' d fuzzy : same_source s s' → answer s d fuzzy = answer s' d fuzzy.
Proof.
  intros [Hs Ha]. destruct (alike_update _ _ Ha) as [Hu Hu']. unfold answer.
  by rewrite (read_now_alike s s' _ _ d Hs Ha), (read_now_alike s s' _ _ d Hs Hu'), (ss_updated _ _ Hs), Hu.
Qed.

(** An operation of the index, inside the source. *)
Lemma with_data_ok s st : source_ok s → same_index (rs_index s) st.1 → alike (rs_ops s) st.2 → index_ok open_ro st.1 st.2 →
  source_ok (with_data s st) ∧ same_source s (with_data s st).
Proof.
  intros [Hi Hs] H1 H2 H3. split; [|by split; [apply with_data_same|]]. split; [done|]. cbn [rs_index rs_ops with_data].
  etransitivity; [|exact H1]. etransitivity; [|exact Hs]. unfold fresh_index. cbn. rewrite (alike_path _ _ H2). done.
Qed.
Lemma ask_index_ok s d : source_ok s →
  (ask_index s d).1 = read_now s (rs_ops s) d ∧ source_ok (ask_index s d).2 ∧ same_source s (ask_index s d).2.
Proof.
  intros Hok. destruct (query_inner_ok open_ro (rs_index s) d (rs_ops s) (so_index _ Hok)) as (H1 & H2 & H3 & H4).
  unfold ask_index. destruct (query_inner _ _ _ _) as [l st]. cbn [fst snd] in *. split; [|by apply with_data_ok].
  rewrite H1. unfold read_now. rewrite <-(listed_same open_ro _ _ (dep_name d) _ _ (so_same _ Hok) (source_alike _ Hok)).
  by rewrite (si_source_id _ _ (so_same _ Hok)).
Qed.
Lemma source_hash_ok s p : source_ok s → source_ok (source_hash s p).2 ∧ same_source s (source_hash s p).2.
Proof.
  intros Hok. destruct (hash_ok open_ro (rs_index s) p (rs_ops s) (so_index _ Hok)) as (H2 & H3 & H4).
  unfold source_hash. destruct (hash _ _ _ _) as [l st]. by apply with_data_ok.
Qed.
Lemma do_update_ok s : source_ok s →
  (do_update s).1 = (update_index (rs_ops s)).1 ∧ rs_ops (do_update s).2 = (update_index (rs_ops s)).2 ∧
  (is_ok (update_index (rs_ops s)).1 = true → source_ok (do_update s).2) ∧
  ((do_update s).2 = with_data s (rs_index (do_update s).2, rs_ops (do_update s).2)).
Proof.
  intros Hok. destruct (alike_update _ _ (source_alike _ Hok)) as [_ Ha]. unfold do_update.
  destruct (update_index (rs_ops s)) as [u o]. cbn [fst snd] in *. by destruct u as [[]| |]; cbn [fst snd]; split_and!.
Qed.

(** * Queries *)
Lemma ask_matching_ok s d : source_ok s →
  (ask_matching s d).1 = (l ← read_now s (rs_ops s) d; Ok (matching d l)) ∧
  source_ok (ask_matching s d).2 ∧ same_source s (ask_matching s d).2.
Proof. intros Hok. unfold ask_matching. destruct (ask_index_ok s d Hok) as (<- & H). by destruct (ask_index s d). Qed.
Lemma answer_matching s d l : read_now s (rs_ops s) d = Ok l → matching d l ≠ [] → answer s d false = Ok (matching d l).
Proof. intros Hl Hne. unfold answer. rewrite Hl. cbn [mbind res_mbind res_bind]. by destruct (matching d l). Qed.

Lemma answer_matches s d l x : answer s d false = Ok l → x ∈ l → matches_id d (sum_package_id x) = true.
Proof.
  unfold answer.
  destruct (read_now s (rs_ops s) d) as [found| |]; cbn [mbind res_mbind res_bind]; [|done..]. intros H Hx.
  assert (Hm : ∀ l', x ∈ matching d l' → matches_id d (sum_package_id x) = true) by (intros l' [_ ?]%elem_of_filter_bool; done).
  destruct (matching d found) as [|y m] eqn:Hf.
  - destruct (is_precise d && _); [|by injection H as <-; apply elem_of_nil in Hx].
    destruct (update_index (rs_ops s)).1; cbn [mbind res_mbind res_bind] in H; [|done..].
    destruct (read_now s _ d) as [found'| |]; cbn [mbind res_mbind res_bind] in H; [|done..]. injection H as <-. by apply (Hm found').
  - injection H as <-. apply (Hm found). by rewrite Hf.
Qed.

(** A locked dependency that nothing matches; [updated] is never set. *)
Definition misses (s : RegistrySource) (d : Dependency) : bool :=
  is_precise d && negb (rs_updated s) &&
  match read_now s (rs_ops s) d with Ok l => match matching d l with [] => true | _ => false end | _ => false end.
(** The source after a query that succeeds. *)
Record after_ask (s : RegistrySource) (d : Dependency) (s' : RegistrySource) : Prop := {
  aa_ok : source_ok s';
  aa_update : misses s d = true → is_ok (update_index (rs_ops s)).1 = true;
  aa_data : same_source (if misses s d then (do_update s).2 else s) s';
}.
Lemma source_query_ok s d : source_ok s →
  (query s d).1 = answer s d false ∧ (is_ok (query s d).1 = true → after_ask s d (query s d).2).
Proof.
  intros Hok. destruct (ask_matching_ok s d Hok) as (H1 & H2 & H3). unfold query.
  destruct (is_precise d && negb (rs_updated s)) eqn:Hp.
  2:{ split; [|intros _; split; [done|unfold misses; by rewrite Hp|unfold misses; by rewrite Hp]]. rewrite H1. unfold answer. rewrite Hp.
      destruct (read_now s (rs_ops s) d) as [l| |]; [|done..]. cbn [mbind res_mbind res_bind]. by destruct (matching d l). }
  destruct (ask_matching s d) as [l s1]. cbn [fst snd] in *. subst l. unfold answer. rewrite Hp.
  assert (Hmiss : misses s d = match read_now s (rs_ops s) d with Ok l => match matching d l with [] => true | _ => false end | _ => false end)
    by (unfold misses; by rewrite Hp).
  destruct (read_now s (rs_ops s) d) as [l| |]; [|done..]. cbn [mbind res_mbind res_bind].
  destruct (matching d l) as [|x m]; [|split; [done|intros _; by split; rewrite ?Hmiss]].
  destruct (do_update_ok s1 H2) as (U1 & U2 & U3 & U4). destruct H3 as [H3 Ha3]. destruct (alike_update _ _ Ha3) as [Hu Hu'].
  destruct (do_update_ok s Hok) as (_ & V2 & _ & V4).
  destruct (do_update s1) as [u s2]. cbn [fst snd] in *. rewrite Hu, <-U1. destruct u as [[]| |]; cbn [mbind res_mbind res_bind fst snd]; [|done..].
  assert (Hok2 : source_ok s2) by (apply U3; by rewrite <-U1).
  destruct (ask_matching_ok s2 d Hok2) as (W1 & W2 & W3).
  assert (Hs : same_registry s s2) by (rewrite U4; etransitivity; [exact H3|apply with_data_same]).
  split.
  - rewrite W1. rewrite <-U2 in Hu'. by rewrite (read_now_alike s s2 (update_index (rs_ops s)).2 (rs_ops s2) d Hs Hu').
  - intros _. split; [done|intros _; by rewrite Hu, <-U1|]. rewrite Hmiss. etransitivity; [|exact W3]. split; [|by rewrite V2, U2].
    rewrite V4. etransitivity; [symmetry; apply with_data_same|done].
Qed.

(** * Downloads *)

(** A package that was made of a file: what was unpacked, under the summary that
    the index lists for the package that was asked for. *)
Definition made_of (s : RegistrySource) (p : PackageId) (file : string) (pkg : Package) : Prop :=
  ∃ unpacked summary l yanked, unpack_read (rs_src_path s) p file = Ok unpacked ∧ pkg = with_summary unpacked summary ∧
    to_key (sum_package_id summary) = to_key p ∧
    listed open_ro (fresh_index s (rs_ops s)) (pid_name p) (rs_ops s) = Ok l ∧ (summary, yanked) ∈ l.
(** The checksum of a package: the one a line of the registry's files gives for it. *)
Definition listed_checksum (s : RegistrySource) (p : PackageId) (c : string) : Prop :=
  ∃ line, line_for open_ro (fresh_index s (rs_ops s)) (rs_ops s) line ∧ line_hash (fresh_index s (rs_ops s)) line p c.
Lemma made_of_same s s' p file pkg : same_source s s' → made_of s' p file pkg → made_of s p file pkg.
Proof.
  intros [Hs Ha] (u & x & l & y & H1 & H2 & H3 & H4 & H5). exists u, x, l, y. rewrite <-(ss_src _ _ Hs). split_and!; [done..| |done].
  rewrite <-H4, (fresh_index_alike _ _ _ _ Hs Ha). by apply (listed_same open_ro).
Qed.

Lemma get_pkg_ok s p file : source_ok s →
  source_ok (get_pkg s p file).2 ∧ same_source s (get_pkg s p file).2 ∧
  ∀ pkg, (get_pkg s p file).1 = Ok pkg → made_of s p file pkg.
Proof.
  intros Hok. unfold get_pkg. destruct (unpack_read _ _ _) as [pkg0| |] eqn:Hp0; [|(split; [done|split; [by apply same_source_refl|done]])..].
  destruct (summaries_ok open_ro (rs_index s) (pid_name p) (rs_ops s) (so_index _ Hok)) as (H1 & H2 & H3 & H4).
  destruct (summaries _ _ _ _) as [l st]. cbn [fst snd] in *. destruct (with_data_ok s st Hok H2 H3 H4) as [W1 W2].
  split_and!; [done..|]. intros pkg. rewrite H1. rewrite <-(listed_same open_ro _ _ (pid_name p) _ _ (so_same _ Hok) (source_alike _ Hok)).
  destruct (listed open_ro (fresh_index s (rs_ops s)) (pid_name p) (rs_ops s)) as [entries| |] eqn:He; cbn [fst mbind res_mbind res_bind]; [|done..].
  destruct (List.find _ _) as [x|] eqn:Hf; [|done]. intros [= <-]. apply find_some in Hf as [Hin Hkey%heqb_true].
  apply list_elem_of_In, elem_of_list_map in Hin as ([x' y] & Hin & ->). exists pkg0, x', entries, y. by split_and!.
Qed.
Lemma source_hash_listed s p c : source_ok s → (source_hash s p).1 = Ok c → listed_checksum s p c.
Proof.
  intros Hok. unfold source_hash. destruct (hash_ok open_ro (rs_index s) p (rs_ops s) (so_index _ Hok)) as (S1 & S2 & S3).
  pose proof (hash_known open_ro (rs_index s) p (rs_ops s) c) as Hk. destruct (hash _ _ _ _) as [h st]. cbn [fst snd] in *. intros Hc.
  destruct (io_hashes _ _ _ S3 _ _ (Hk Hc)) as (line & L1 & L2). exists line.
  assert (Hs : same_index st.1 (fresh_index s (rs_ops s))) by (symmetry; etransitivity; [exact (so_same _ Hok)|done]).
  split; [by apply (line_for_same open_ro st.1 _ st.2)|by apply (line_hash_same st.1)].
Qed.
Lemma download_ok s p : source_ok s →
  source_ok (download s p).2 ∧ same_source s (download s p).2 ∧
  ∀ pkg, (download s p).1 = Ok (Ready pkg) → ∃ c file, listed_checksum s p c ∧
    (data_download (rs_ops (source_hash s p).2) p c).1 = Ok (LockReady file) ∧ made_of s p file pkg.
Proof.
  intros Hok. unfold download. destruct (source_hash_ok s p Hok) as [H1 H2]. pose proof (source_hash_listed s p) as Hline.
  destruct (source_hash s p) as [h s1]. cbn [fst snd] in *. destruct h as [h| |]; [|(split; [done|split; [done|by intros ? [=]]])..].
  pose proof (download_alike (rs_ops s1) p h (source_alike _ H1)) as Hd. destruct (data_download (rs_ops s1) p h) as [f o] eqn:Hf. cbn [snd] in Hd.
  assert (Hst : source_ok (with_data s1 (rs_index s1, o)) ∧ same_source s1 (with_data s1 (rs_index s1, o))).
  { apply with_data_ok; [done..|]. apply (index_ok_same open_ro (rs_index s1) _ (rs_ops s1)); [exact (so_index _ H1)|done..]. }
  destruct Hst as [D1 D2]. assert (Hs2 : same_source s (with_data s1 (rs_index s1, o))) by (etransitivity; [exact H2|exact D2]).
  destruct f as [[file|url desc]| |]; [|(split; [done|split; [done|by intros ? [=]]])..]. destruct (get_pkg_ok _ p file D1) as (G1 & G2 & G3).
  destruct (get_pkg _ p file) as [r s3]. cbn [fst snd] in *. split_and!; [done|by etransitivity|].
  intros pkg Hr. destruct r as [pkg'| |]; [|done..]. injection Hr as ->. exists h, file. split_and!; [by apply Hline|by rewrite Hf|].
  by eapply made_of_same, G3.
Qed.
Lemma finish_download_ok s p data : source_ok s → offline (rs_config s) = false →
  source_ok (finish_download s p data).2 ∧
  ∀ pkg, (finish_download s p data).1 = Ok pkg → ∃ c file, listed_checksum s p c ∧
    (data_finish_download (rs_ops (source_hash s p).2) p c data).1 = Ok file ∧ made_of s p file pkg.
Proof.
  intros Hok Hoff. unfold finish_download. destruct (source_hash_ok s p Hok) as [H1 H2]. pose proof (source_hash_listed s p) as Hline.
  destruct (source_hash s p) as [h s1]. cbn [fst snd] in *. destruct h as [h| |]; [|by split..].
  pose proof (finish_alike (rs_ops s1) p h data (source_alike _ H1)) as Ha. pose proof (finish_reads (rs_ops s1) p h data (source_alike _ H1)) as Hrd.
  destruct (data_finish_download (rs_ops s1) p h data) as [f o] eqn:Hf. cbn [snd] in Ha, Hrd.
  assert (Hcfg : offline (rs_config s1) = false) by (destruct H2 as [H2 _]; by rewrite (ss_config _ _ H2)).
  set (s2 := with_data s1 (rs_index s1, o)).
  assert (Hfr : fresh_index s2 (rs_ops s2) = fresh_index s1 (rs_ops s1)) by (unfold fresh_index; cbn; by rewrite (sr_path _ _ Hrd)).
  assert (Hok2 : source_ok s2).
  { split; [|rewrite Hfr; exact (so_same _ H1)]. apply (index_ok_reads open_ro _ (rs_ops s1)); [exact (so_index _ H1)|done..|].
    cbn [rs_index s2 with_data fst]. by rewrite (si_config _ _ (so_same _ H1)). }
  destruct f as [file| |]; [|by split..]. destruct (get_pkg_ok s2 p file Hok2) as (G1 & _ & G3). split; [done|].
  intros pkg Hr. exists h, file. split_and!; [by apply Hline|by rewrite Hf|]. destruct (G3 pkg Hr) as (u & x & l & y & E1 & E2 & E3 & E4 & E5).
  apply (made_of_same s s1 p file pkg H2). exists u, x, l, y. split_and!; [done..| |done]. rewrite <-E4, Hfr. by apply listed_reads.
Qed.

(** * The source over time: operations that succeed, and downloads, which are
    finished online. *)
Inductive source_step : RegistrySource → RegistrySource → Prop :=
| step_ask s d fuzzy : is_ok (ask s d fuzzy).1 = true → source_step s (ask s d fuzzy).2
| step_update s : is_ok (update s).1 = true → source_step s (update s).2
| step_download s p : source_step s (download s p).2
| step_finish s p data : offline (rs_config s) = false → source_step s (finish_download s p data).2.
Lemma ask_ok s d fuzzy : source_ok s →
  (ask s d fuzzy).1 = answer s d fuzzy ∧ (is_ok (ask s d fuzzy).1 = true → source_ok (ask s d fuzzy).2).
Proof.
  intros Hok. destruct fuzzy; cbn [ask].
  - destruct (ask_index_ok s d Hok) as (H1 & H2 & _). unfold fuzzy_query, answer. rewrite H1. split; [|done]. by destruct (read_now s _ d).
  - destruct (source_query_ok s d Hok) as [H1 H2]. split; [done|]. intros H. apply (H2 H).
Qed.
Lemma update_ok s : source_ok s → is_ok (update s).1 = true → source_ok (update s).2.
Proof.
  intros Hok. unfold update. case_bool_decide; [done|]. destruct (do_update_ok s Hok) as (H1 & _ & H3 & _). rewrite H1. done.
Qed.
Lemma source_steps_ok s s' : rtc source_step s s' → source_ok s → source_ok s'.
Proof.
  induction 1 as [|s s1 s2 Hs _ IH]; [done|]. intros Hok. apply IH. destruct Hs as [s d fuzzy H|s H|s p|s p data H].
  - by apply ask_ok.
  - by apply update_ok.
  - by apply download_ok.
  - by apply finish_download_ok.
Qed.
Lemma new_ok id config p name o locked : alike o o → source_ok (new id config p name o locked).
Proof. intros Ha. split; [by apply index_ok_new|done]. Qed.

(** C24. Whatever a registry was asked and whatever it updated or downloaded before, a
    query is answered from its index as it is read at that moment: the entries that
    are not hidden, and, of an exact query, those the dependency matches; a locked
    dependency that nothing matches brings about an update, whose error is the
    query's and after which the answer is that of the updated index. *)
Theorem source_answers id config p name o locked s d fuzzy :
  alike o o → rtc source_step (new id config p name o locked) s →
  (ask s d fuzzy).1 = answer s d fuzzy ∧
  ∀ l x, (ask s d fuzzy).1 = Ok l → x ∈ l → fuzzy = true ∨ matches_id d (sum_package_id x) = true.
Proof.
  intros Ha Hr. pose proof (source_steps_ok _ _ Hr (new_ok _ _ _ _ _ _ Ha)) as Hok.
  destruct (ask_ok s d fuzzy Hok) as [H1 _]. rewrite H1. split; [done|]. intros l x. destruct fuzzy; [by left|]. right. by eapply answer_matches.
Qed.

(** A package that a registry hands over is the one asked for: its summary is the
    one the index lists, and its file is what the data gave under the checksum
    that the index lists. *)
Lemma handed_over id config p name o locked s pkgid : alike o o → rtc source_step (new id config p name o locked) s →
  (∀ pkg, (download s pkgid).1 = Ok (Ready pkg) → ∃ c file, listed_checksum s pkgid c ∧
     (data_download (rs_ops (source_hash s pkgid).2) pkgid c).1 = Ok (LockReady file) ∧ made_of s pkgid file pkg) ∧
  (∀ data pkg, offline (rs_config s) = false → (finish_download s pkgid data).1 = Ok pkg → ∃ c file, listed_checksum s pkgid c ∧
     (data_finish_download (rs_ops (source_hash s pkgid).2) pkgid c data).1 = Ok file ∧ made_of s pkgid file pkg).
Proof.
  intros Ha Hr. pose proof (source_steps_ok _ _ Hr (new_ok _ _ _ _ _ _ Ha)) as Hok. split; [by apply download_ok|].
  intros data pkg Hoff. by apply finish_download_ok.
Qed.
End source.

(** * A run: serde 1.0.1 is yanked, so that only a locked dependency finds it. *)
Section runs.
Local Existing Instance sem_lib.
Local Existing Instance hier_lib.
Local Existing Instance std_order.
Local Existing Instance ascii_lower.
Local Existing Instance named_json.
Local Existing Instance file_data.
Local Existing Instance file_data_laws.

(** The file of a crate is its name; what is unpacked has another checksum. *)
#[local] Instance named_files : RegistryFiles := {|
  data_download o p c := (Ok (if String.eqb c "c1" then LockReady (pid_name p) else LockDownload "url" "serde"), o);
  data_finish_download o p c d := (Ok d, o);
|}.
#[local] Instance named_files_laws : RegistryFilesLaws.
Proof. by split; [|done|split]. Qed.
Definition release_profiles : Profiles :=
  let m := mkMaker default_release None None in mkProfiles m m m m m.
Definition unpacked (src : path) (p : PackageId) (file : string) : cresult Package :=
  Ok (mkPackage (mkManifest (mkSummary p [] ∅ (Some "other") None false) [] None [] [] [] release_profiles
    None false [] ∅ features_default Edition2015 None None None) "/src/serde/Cargo.toml").
Definition sample_source : RegistrySource := new PackageId.crates_io cli_default "/src" "crates-io" sample_files false.
Definition asked_once : RegistrySource := (ask no_lock sample_source (serde_dep (Some "locked")) false).2.
Lemma sample_step : source_step no_lock unpacked sample_source asked_once.
Proof. apply (step_ask no_lock unpacked sample_source (serde_dep (Some "locked")) false). vm_eq. Qed.

Lemma source_answers_witness :
  versions <$> (ask no_lock asked_once (serde_dep None) false).1 = Ok ["1.0.0"] ∧
  (ask no_lock asked_once (serde_dep None) false).1 = answer no_lock asked_once (serde_dep None) false.
Proof.
  split; [vm_eq|]. apply (source_answers (RFL:=named_files_laws) (RL:=file_data_laws) no_lock unpacked PackageId.crates_io cli_default "/src" "crates-io" sample_files false); [done|].
  apply rtc_once, sample_step.
Defined.
End runs.
