(* ===== verification/RegistryData.v ===== *)
(** The two kinds of data a registry has: a directory,
    [src/cargo/sources/registry/local.rs], and a clone of a git repository,
    [src/cargo/sources/registry/remote.rs].  Both keep what the index relies on, and
    hand over packages whose files were verified. *)
From S2P Require Import Prelude Str Extern Path Features SourceId PackageId Summary Package IndexNames RegistryIndex RegistrySource.

Local Open Scope string_scope.

(** [s.replace(p, r)] for a non-empty [p]; [skip] characters belong to the last
    occurrence. *)
Fixpoint replace_from (p r : string) (skip : nat) (s : string) : string :=
  match s with
  | EmptyString => EmptyString
  | String c s' =>
      match skip with
      | S skip => replace_from p r skip s'
      | O => if starts_with p s then r ++ replace_from p r (String.length p - 1) s'
             else String c (replace_from p r 0 s')
      end
  end.
Definition str_replace (p r s : string) : string := replace_from p r 0 s.

(** A computation on a state that may fail. *)
Definition SM (S A : Type) : Type := S → cresult A * S.
#[global] Instance SM_ret {S} : MRet (SM S) := λ A a s, (Ok a, s).
#[global] Instance SM_bind {S} : MBind (SM S) := λ A B f m s,
  match m s with
  | (Ok a, s) => f a s
  | (Err e, s) => (Err e, s)
  | (Panic msg, s) => (Panic msg, s)
  end.
Lemma SM_bind_eq {S A B} (m : SM S A) (f : A → SM S B) s :
  (m ≫= f) s = match m s with (Ok a, s) => f a s | (Err e, s) => (Err e, s) | (Panic msg, s) => (Panic msg, s) end.
Proof. done. Qed.
Definition of_result {S A} (r : cresult A) : SM S A := λ s, (r, s).
Definition modify {S} (f : S → S) : SM S unit := λ s, (Ok tt, f s).

Lemma right_id_bind {A} (x : cresult A) : (a ← x; Ok a) = x.
Proof. by destruct x. Qed.

Section data.
Context `{SV : SemverLib} `{UL : UrlLib}.
(** A digest in hexadecimal. *)
Context (sha256_hex : string → string).

Definition crate_file (pkg : PackageId) : string := pid_name pkg ++ "-" ++ version_to_string (pid_version pkg) ++ ".crate".

(** * Local registries *)
Record LocalRegistry := mkLocalRegistry {
  lr_index_path : path;
  lr_root : path;
  lr_src_path : path;
}.
Definition local_new (root registry_source_path : path) (name : string) : LocalRegistry :=
  mkLocalRegistry (path_join root "index") root (path_join registry_source_path name).
Section local.
(** The disk: files, directories, what exists. *)
Context (read_bytes : path → cresult string) (is_dir exists_path : path → bool).

Definition local_update_index (r : LocalRegistry) : cresult unit :=
  if negb (is_dir (lr_root r)) then Err ("local registry path is not a directory: " ++ lr_root r)
  else if negb (is_dir (lr_index_path r)) then Err ("local registry index path is not a directory: " ++ lr_index_path r)
  else Ok tt.
Definition local_download (r : LocalRegistry) (pkg : PackageId) (checksum : string) : cresult MaybeLock :=
  file ← read_bytes (path_join (lr_root r) (crate_file pkg));
  let dst := pid_name pkg ++ "-" ++ version_to_string (pid_version pkg) in
  if exists_path (path_join (lr_src_path r) dst) then Ok (LockReady file)
  else if String.eqb (sha256_hex file) checksum then Ok (LockReady file)
  else p ← PackageId.display pkg; Err ("failed to verify the checksum of `" ++ p ++ "`").

#[local] Instance local_data : RegistryData := {|
  Ops := LocalRegistry;
  prepare r := (Ok tt, r);
  index_path := lr_index_path;
  load r root p := (read_bytes (path_join root p), r);
  update_index r := (local_update_index r, r);
  is_crate_downloaded _ _ := true;
|}.
#[local] Instance local_files : RegistryFiles := {|
  data_download r p c := (local_download r p c, r);
  data_finish_download r p c d := (Panic "this source doesn't download", r);
|}.
#[local] Instance local_data_laws : RegistryDataLaws.
Proof. refine {| alike := (eq : relation Ops) |}; try done; try apply _; by intros; subst. Defined.
#[local] Instance local_files_laws : RegistryFilesLaws.
Proof. by split. Qed.
End local.

(** * Remote registries *)

(** What [git2] is asked for.  [git_fetch] returns the repository as it leaves it;
    [refname_to_id] is asked for the branch that was fetched. *)
Class GitLib := {
  Repo : Type;
  Oid : Type;
  Tree : Type;
  git_open : path → cresult Repo;
  git_init : path → cresult Repo;
  refname_to_id : Repo → string → cresult Oid;
  commit_tree : Repo → Oid → cresult Tree;
  tree_entry : Repo → Tree → path → cresult (option string);   (* [None]: not a blob *)
  git_fetch : Repo → Url → string → cresult unit * Repo;
}.
Context `{GL : !GitLib}.
(** Locking the index for writing, for reading, and the HTTP handle. *)
Context (open_rw open_ro : path → cresult path) (http : cresult unit).

(** [struct RegistryConfig] and [serde_json] at this type. *)
Record RegistryConfig := mkRegistryConfig { dl : string; api : option string }.
Context (json_config : string → cresult RegistryConfig).

(** [rr_files]: the files of the cache directory, which is the registry's own. *)
Record RemoteRegistry := mkRemoteRegistry {
  rr_index_path : path;
  rr_source_id : SourceId;
  rr_config : CliUnstable;
  rr_files : gmap string string;
  rr_tree : option Tree;
  rr_repo : option Repo;
  rr_head : option Oid;
}.
Definition remote_new (id : SourceId) (config : CliUnstable) (registry_index_path : path) (name : string) (files : gmap string string)
    : RemoteRegistry := mkRemoteRegistry (path_join registry_index_path name) id config files None None None.
Definition set_git (t : option Tree) (rp : option Repo) (h : option Oid) (r : RemoteRegistry) : RemoteRegistry :=
  mkRemoteRegistry (rr_index_path r) (rr_source_id r) (rr_config r) (rr_files r) t rp h.
Definition set_files (r : RemoteRegistry) (f : gmap string string) : RemoteRegistry :=
  mkRemoteRegistry (rr_index_path r) (rr_source_id r) (rr_config r) f (rr_tree r) (rr_repo r) (rr_head r).

Definition master : string := "refs/remotes/origin/master".
Definition refspec : string := "refs/heads/master:refs/remotes/origin/master".

(** The closure of [repo]: opened, or made under the lock. *)
Definition open_or_init (p : path) : cresult Repo :=
  match git_open p with
  | Err _ =>
      _ ← open_rw p;
      match git_open p with
      | Err _ => chain_err "failed to initialized index git repository" (git_init p)
      | r => r
      end
  | r => r
  end.
Definition repo : SM RemoteRegistry Repo := λ r,
  match rr_repo r with
  | Some rp => (Ok rp, r)
  | None => match open_or_init (rr_index_path r) with
            | Ok rp => (Ok rp, set_git (rr_tree r) (Some rp) (rr_head r) r)
            | Err e => (Err e, r)
            | Panic m => (Panic m, r)
            end
  end.
Definition head : SM RemoteRegistry Oid := λ r,
  match rr_head r with
  | Some h => (Ok h, r)
  | None => (rp ← repo; h ← of_result (refname_to_id rp master);
             _ ← modify (λ r, set_git (rr_tree r) (rr_repo r) (Some h) r); mret h) r
  end.
Definition tree : SM RemoteRegistry Tree := λ r,
  match rr_tree r with
  | Some t => (Ok t, r)
  | None => (rp ← repo; h ← head; t ← of_result (commit_tree rp h);
             _ ← modify (λ r, set_git (Some t) (rr_repo r) (rr_head r) r); mret t) r
  end.
Definition remote_prepare : SM RemoteRegistry unit := _ ← repo; mret tt.
Definition remote_load (p : path) : SM RemoteRegistry string :=
  rp ← repo; t ← tree; b ← of_result (tree_entry rp t p);
  of_result (match b with Some contents => Ok contents | None => Err ("path `" ++ p ++ "` is not a blob in the git repo") end).
Definition index_dir : SM RemoteRegistry path := λ r, (Ok (rr_index_path r), r).
Definition remote_config : SM RemoteRegistry (option RegistryConfig) :=
  _ ← remote_prepare;
  dir ← index_dir; _ ← of_result (open_ro dir);
  json ← remote_load "config.json";
  c ← of_result (json_config json);
  mret (Some c).

(** [update_index] *)
Definition fetch : SM RemoteRegistry unit := λ r,
  match rr_repo r with
  | None => (Panic "called `Option::unwrap()` on a `None` value", r)
  | Some rp =>
      let url := sid_url (rr_source_id r) in
      let '(x, rp) := git_fetch rp url refspec in
      (chain_err ("failed to fetch `" ++ url_as_str url ++ "`") x, set_git (rr_tree r) (Some rp) (rr_head r) r)
  end.
Definition remote_update_index : SM RemoteRegistry unit := λ r,
  if offline (rr_config r) then (Ok tt, r)
  else if no_index_update (rr_config r) then (Ok tt, r)
  else (_ ← of_result http;
        _ ← remote_prepare;
        _ ← modify (λ r, set_git None (rr_repo r) None r);
        _ ← of_result (open_rw (rr_index_path r));
        fetch) r.

(** Downloads *)
Definition crate_template : string := "{crate}".
Definition version_template : string := "{version}".
Definition download_url (dl : string) (pkg : PackageId) : string :=
  let url := if negb (contains_str crate_template dl) && negb (contains_str version_template dl)
             then dl ++ "/" ++ crate_template ++ "/" ++ version_template ++ "/download" else dl in
  str_replace version_template (version_to_string (pid_version pkg)) (str_replace crate_template (pid_name pkg) url).
Definition cached_file (r : RemoteRegistry) (pkg : PackageId) : option string :=
  match rr_files r !! crate_file pkg with
  | Some file => if is_empty file then None else Some file
  | None => None
  end.
Definition remote_download (pkg : PackageId) : SM RemoteRegistry MaybeLock := λ r,
  match cached_file r pkg with
  | Some file => (Ok (LockReady file), r)
  | None => (c ← remote_config; c ← of_result (unwrap c); d ← of_result (PackageId.display pkg);
             mret (LockDownload (download_url (dl c) pkg) d)) r
  end.
Definition remote_finish_download (pkg : PackageId) (checksum data : string) : SM RemoteRegistry string := λ r,
  if String.eqb (sha256_hex data) checksum then
    match cached_file r pkg with
    | Some file => (Ok file, r)
    | None => (Ok data, set_files r (<[crate_file pkg := data]> (rr_files r)))
    end
  else (p ← PackageId.display pkg; Err ("failed to verify the checksum of `" ++ p ++ "`"), r).

#[local] Instance remote_data : RegistryData := {|
  Ops := RemoteRegistry;
  prepare := remote_prepare;
  index_path := rr_index_path;
  load r _ p := remote_load p r;
  update_index := remote_update_index;
  is_crate_downloaded r pkg := bool_decide (is_Some (cached_file r pkg));
|}.
#[local] Instance remote_files : RegistryFiles := {|
  data_download r p _ := remote_download p r;
  data_finish_download r p c d := remote_finish_download p c d r;
|}.

(** ** What the caches stand for *)
Definition current (r : RemoteRegistry) : cresult Repo :=
  match rr_repo r with Some rp => Ok rp | None => open_or_init (rr_index_path r) end.
Definition current_tree (r : RemoteRegistry) : cresult Tree := rp ← current r; h ← refname_to_id rp master; commit_tree rp h.
Record remote_wf (r : RemoteRegistry) : Prop := {
  wf_head h : rr_head r = Some h → (rp ← current r; refname_to_id rp master) = Ok h;
  wf_tree t : rr_tree r = Some t → current_tree r = Ok t;
}.
(** The registry [r'] holds what [r] holds, perhaps with more in its caches. *)
Record kept (r r' : RemoteRegistry) : Prop := {
  kp_path : rr_index_path r' = rr_index_path r;
  kp_id : rr_source_id r' = rr_source_id r;
  kp_config : rr_config r' = rr_config r;
  kp_files : rr_files r' = rr_files r;
  kp_current : current r' = current r;
  kp_wf : remote_wf r';
}.
Definition remote_alike (r r' : RemoteRegistry) : Prop := remote_wf r ∧ kept r r'.
#[global] Instance remote_alike_sym : Symmetric remote_alike.
Proof. intros r r' [Hw []]. by split; [|split]. Qed.
#[global] Instance remote_alike_trans : Transitive remote_alike.
Proof. intros r1 r2 r3 [Hw []] [_ []]. split; [done|]. split; congruence || done. Qed.
Lemma kept_refl r : remote_wf r → kept r r.
Proof. by split. Qed.
Lemma kept_trans r1 r2 r3 : kept r1 r2 → kept r2 r3 → kept r1 r3.
Proof. intros [] []. split; congruence || done. Qed.

(** A computation that answers [x] and keeps the registry. *)
Definition answers {A} (r : RemoteRegistry) (m : SM RemoteRegistry A) (r0 : RemoteRegistry) (x : cresult A) : Prop :=
  (m r0).1 = x ∧ kept r (m r0).2.
Lemma answers_bind {A B} r r0 (m : SM RemoteRegistry A) (f : A → SM RemoteRegistry B) x y :
  answers r m r0 x → (∀ a r', x = Ok a → kept r r' → (m r0).2 = r' → answers r (f a) r' (y a)) → answers r (m ≫= f) r0 (x ≫= y).
Proof.
  intros [H1 H2] Hf. unfold answers. rewrite SM_bind_eq. destruct (m r0) as [a r'] eqn:Hm. cbn [fst snd] in *. subst a.
  destruct x as [a| |]; cbn [mbind res_mbind res_bind]; [|done..]. by apply (Hf a r').
Qed.
Lemma keeps_bind {A B} r r0 (m : SM RemoteRegistry A) (f : A → SM RemoteRegistry B) :
  kept r (m r0).2 → (∀ a r', kept r r' → kept r (f a r').2) → kept r ((m ≫= f) r0).2.
Proof. intros H Hf. rewrite SM_bind_eq. destruct (m r0) as [[a| |] r']; cbn [snd] in *; auto. Qed.
Lemma answers_then {A} r r0 (m : SM RemoteRegistry A) f x :
  answers r m r0 x → (∀ a r', x = Ok a → kept r r' → answers r (f a) r' (Ok a)) → answers r (m ≫= f) r0 x.
Proof. intros Hm Hf. pose proof (answers_bind r r0 m f x (λ a, Ok a) Hm) as H. unfold answers in *. rewrite right_id_bind in H. apply H. auto. Qed.
Lemma answers_result {A} r r0 (x : cresult A) : kept r r0 → answers r (of_result x) r0 x.
Proof. by split. Qed.

Lemma repo_answers r : remote_wf r → answers r repo r (current r).
Proof.
  intros Hw. unfold answers, repo. destruct (rr_repo r) as [rp|] eqn:Hr.
  { split; [by unfold current; rewrite Hr|by apply kept_refl]. }
  assert (Hc : current r = open_or_init (rr_index_path r)) by (unfold current; by rewrite Hr).
  rewrite Hc. destruct (open_or_init _) as [rp| |] eqn:Ho; [|by split; [|apply kept_refl]..]. split; [done|].
  assert (Hc' : current (set_git (rr_tree r) (Some rp) (rr_head r) r) = current r) by by rewrite Hc.
  destruct Hw as [Wh Wt]. cbn [snd]. split; try done. split; unfold current_tree; rewrite Hc'; [exact Wh|exact Wt].
Qed.
Lemma repo_answers_kept r r0 : kept r r0 → answers r repo r0 (current r).
Proof. intros Hk. destruct (repo_answers r0 (kp_wf _ _ Hk)) as [H1 H2]. split; [by rewrite H1, (kp_current _ _ Hk)|by eapply kept_trans]. Qed.
Lemma set_head_kept r r0 h : kept r r0 → (rp ← current r; refname_to_id rp master) = Ok h →
  kept r (set_git (rr_tree r0) (rr_repo r0) (Some h) r0).
Proof.
  intros [H1 H2 H3 H4 H5 [Wh Wt]] Hh. split; try done. split; [|exact Wt]. intros h' [= <-]. rewrite <-H5 in Hh. exact Hh.
Qed.
Lemma set_tree_kept r r0 t : kept r r0 → current_tree r = Ok t → kept r (set_git (Some t) (rr_repo r0) (rr_head r0) r0).
Proof.
  intros [H1 H2 H3 H4 H5 [Wh Wt]] Ht. split; try done. split; [exact Wh|]. intros t' [= <-]. unfold current_tree in *. rewrite <-H5 in Ht. exact Ht.
Qed.
Lemma head_answers r r0 : kept r r0 → answers r head r0 (rp ← current r; refname_to_id rp master).
Proof.
  intros Hk. unfold answers, head. destruct (rr_head r0) as [h|] eqn:Hh.
  { split; [|done]. rewrite <-(kp_current _ _ Hk). symmetry. exact (wf_head _ (kp_wf _ _ Hk) h Hh). }
  apply (answers_bind r r0 repo); [by apply repo_answers_kept|]. intros rp r1 Hrp Hk1 _.
  apply answers_then; [by apply answers_result|]. intros h r2 Hh2 Hk2.
  split; [done|]. apply set_head_kept; [done|]. by rewrite Hrp.
Qed.
Lemma tree_answers r r0 : kept r r0 → answers r tree r0 (current_tree r).
Proof.
  intros Hk. unfold answers, tree. destruct (rr_tree r0) as [t|] eqn:Ht.
  { split; [|done]. pose proof (wf_tree _ (kp_wf _ _ Hk) t Ht) as H. unfold current_tree in *. by rewrite <-(kp_current _ _ Hk). }
  unfold current_tree at 1. apply (answers_bind r r0 repo); [by apply repo_answers_kept|]. intros rp r1 Hrp Hk1 _.
  pose proof (head_answers r r1 Hk1) as Hh. rewrite Hrp in Hh. cbn [mbind res_mbind res_bind] in Hh.
  apply answers_bind; [exact Hh|]. intros h r2 Hh2 Hk2 _. apply answers_then; [by apply answers_result|]. intros t r3 Ht3 Hk3. split; [done|]. apply set_tree_kept; [done|].
  unfold current_tree. rewrite Hrp. cbn [mbind res_mbind res_bind]. by rewrite Hh2.
Qed.
Definition blob (r : RemoteRegistry) (p : path) : cresult string :=
  rp ← current r; t ← current_tree r; b ← tree_entry rp t p;
  match b with Some contents => Ok contents | None => Err ("path `" ++ p ++ "` is not a blob in the git repo") end.
Lemma load_answers r r0 p : kept r r0 → answers r (remote_load p) r0 (blob r p).
Proof.
  intros Hk. apply answers_bind; [by apply repo_answers_kept|]. intros rp r1 Hrp Hk1 _.
  apply answers_bind; [by apply tree_answers|]. intros t r2 Ht Hk2 _.
  apply answers_bind; [by apply answers_result|]. intros b r3 Hb Hk3 _. by apply answers_result.
Qed.

(** ** Updates: the result, and the repository afterwards. *)
Definition updated (r : RemoteRegistry) : cresult unit * cresult Repo :=
  if offline (rr_config r) || no_index_update (rr_config r) then (Ok tt, current r)
  else match (_ ← http; rp ← current r; _ ← open_rw (rr_index_path r); Ok rp) with
       | Ok rp => let '(x, rp) := git_fetch rp (sid_url (rr_source_id r)) refspec in
                  (chain_err ("failed to fetch `" ++ url_as_str (sid_url (rr_source_id r)) ++ "`") x, Ok rp)
       | Err e => (Err e, current r)
       | Panic m => (Panic m, current r)
       end.
Record moved (r r' : RemoteRegistry) (c : cresult Repo) : Prop := {
  mv_path : rr_index_path r' = rr_index_path r;
  mv_id : rr_source_id r' = rr_source_id r;
  mv_config : rr_config r' = rr_config r;
  mv_files : rr_files r' = rr_files r;
  mv_current : current r' = c;
  mv_wf : remote_wf r';
}.
Lemma kept_moved r r' : kept r r' → moved r r' (current r).
Proof. intros []. by split. Qed.
Lemma cleared_moved r r' rp : kept r r' → moved r (set_git None (Some rp) None r') (Ok rp).
Proof. intros []. by split. Qed.
Lemma repo_cell r rp : (repo r).1 = Ok rp → rr_repo (repo r).2 = Some rp.
Proof.
  unfold repo. destruct (rr_repo r) as [x|] eqn:Hx; cbn [fst snd]; [intros [= <-]; by rewrite Hx|].
  destruct (open_or_init _); [|done..]. by intros [= <-].
Qed.
Lemma prepare_eq r : remote_prepare r = (_ ← (repo r).1; Ok tt, (repo r).2).
Proof. unfold remote_prepare. rewrite SM_bind_eq. by destruct (repo r) as [[] r1]. Qed.
Lemma update_moved r : remote_wf r →
  (remote_update_index r).1 = (updated r).1 ∧ moved r (remote_update_index r).2 (updated r).2.
Proof.
  intros Hw. pose proof (kept_moved r r (kept_refl r Hw)) as Hr. unfold remote_update_index, updated.
  destruct (offline (rr_config r)); [done|]. destruct (no_index_update (rr_config r)); [done|]. cbn [orb].
  rewrite SM_bind_eq. cbn [of_result]. destruct http as [[]| |]; cbn [mbind res_mbind res_bind]; [|done..].
  destruct (repo_answers r Hw) as [H1 H2]. rewrite SM_bind_eq, prepare_eq. pose proof (repo_cell r) as Hrp.
  destruct (repo r) as [x r1]. cbn [fst snd] in *. subst x.
  destruct (current r) as [rp| |] eqn:Hc; cbn [mbind res_mbind res_bind]; [|by rewrite <-Hc; split; [|apply kept_moved]..].
  specialize (Hrp rp eq_refl). rewrite SM_bind_eq. cbn [modify]. rewrite SM_bind_eq. cbn [of_result]. rewrite <-(kp_path _ _ H2).
  change (rr_index_path (set_git None (rr_repo r1) None r1)) with (rr_index_path r1). rewrite Hrp.
  destruct (open_rw (rr_index_path r1)); cbn [fst snd mbind res_mbind res_bind]; [|by split; [|apply cleared_moved]..].
  unfold fetch. cbn [rr_repo set_git rr_source_id]. rewrite (kp_id _ _ H2).
  destruct (git_fetch rp (sid_url (rr_source_id r)) refspec) as [u rp']. cbn [fst snd]. split; [done|exact (cleared_moved r r1 rp' H2)].
Qed.
Lemma update_alike r r' : remote_alike r r' →
  (remote_update_index r).1 = (remote_update_index r').1 ∧ remote_alike (remote_update_index r).2 (remote_update_index r').2.
Proof.
  intros [Hw [H1 H2 H3 H4 H5 Hw']]. destruct (update_moved r Hw) as [U1 [U2 U3 U4 U5 U6 U7]].
  destruct (update_moved r' Hw') as [V1 [V2 V3 V4 V5 V6 V7]].
  assert (Hu : updated r' = updated r) by (unfold updated; by rewrite H1, H2, H3, H5).
  split; [by rewrite U1, V1, Hu|]. split; [done|]. split; congruence || done.
Qed.

#[local] Instance remote_data_laws : RegistryDataLaws.
Proof.
  refine {| alike := (remote_alike : relation Ops) |}.
  - intros r r' [Hw Hk]. cbn. rewrite !prepare_eq. cbn [fst].
    destruct (repo_answers r Hw) as [-> _], (repo_answers_kept r r' Hk) as [-> _]. done.
  - intros r [Hw _]. split; [done|]. cbn. rewrite prepare_eq. apply (repo_answers r Hw).
  - intros r r' rt p [Hw Hk]. destruct (load_answers r r p (kept_refl r Hw)) as [H1 _], (load_answers r r' p Hk) as [H2 _].
    cbn. by rewrite H1, H2.
  - intros r rt p [Hw Hk]. split; [done|]. by destruct (load_answers r r p (kept_refl r Hw)) as [_ H].
  - intros r r' [_ Hk]. symmetry. exact (kp_path _ _ Hk).
  - intros r r' [_ Hk]. cbn. unfold cached_file. by rewrite (kp_files _ _ Hk).
  - exact update_alike.
Defined.
(** A file more in the cache. *)
Lemma set_files_wf r f : remote_wf r → remote_wf (set_files r f).
Proof. by intros [Wh Wt]. Qed.
Lemma set_files_reads r f : remote_wf r → same_reads (r : Ops) (set_files r f).
Proof.
  intros Hw. pose proof (set_files_wf r f Hw) as Hw'. split; [| |done].
  - cbn. rewrite !prepare_eq. cbn [fst]. destruct (repo_answers r Hw) as [-> _], (repo_answers _ Hw') as [-> _]. done.
  - intros rt p. cbn. destruct (load_answers r r p (kept_refl r Hw)) as [-> _], (load_answers _ _ p (kept_refl _ Hw')) as [-> _]. done.
Qed.
Lemma finish_files r p c d : (remote_finish_download p c d r).2 = r ∨ ∃ f, (remote_finish_download p c d r).2 = set_files r f.
Proof. unfold remote_finish_download. destruct (String.eqb _ _); [|by left]. destruct (cached_file r p); [by left|]. right. by eexists. Qed.
#[local] Instance remote_files_laws : RegistryFilesLaws.
Proof.
  split.
  2:{ intros r p c d [Hw _]. cbn. destruct (finish_files r p c d) as [->|[f ->]]; (split; [|apply kept_refl]); by try apply set_files_wf. }
  2:{ intros r p c d [Hw _]. cbn. destruct (finish_files r p c d) as [->|[f ->]]; [done|by apply set_files_reads]. }
  intros r p c [Hw _]. split; [done|]. cbn. unfold remote_download. pose proof (kept_refl r Hw) as Hk.
  destruct (cached_file r p); [done|]. apply keeps_bind.
  - apply keeps_bind; [rewrite prepare_eq; apply (repo_answers_kept r r Hk)|]. intros _ r1 H1.
    apply keeps_bind; [done|]. intros dir r2 H2. apply keeps_bind; [done|]. intros _ r3 H3.
    apply keeps_bind; [apply (load_answers r r3 _ H3)|]. intros json r4 H4. apply keeps_bind; [done|]. by intros.
  - intros o r1 H1. apply keeps_bind; [done|]. intros cf r2 H2. apply keeps_bind; [done|]. by intros.
Qed.
End data.

(** * Without updates: offline, or with [-Z no-index-update], the data stay. *)
Section offline.
Context `{SV : SemverLib} `{UL : UrlLib} (sha256_hex : string → string) `{GL : !GitLib}.
Context (open_rw open_ro : path → cresult path) (http : cresult unit) (json_config : string → cresult RegistryConfig).
Local Existing Instance remote_data.
Definition no_update (r : RemoteRegistry) : bool := offline (rr_config r) || no_index_update (rr_config r).
Definition offline_alike (r r' : RemoteRegistry) : Prop := remote_alike open_rw r r' ∧ no_update r = true.
Lemma offline_alike_eq r r' : offline_alike r r' → no_update r' = true.
Proof. intros [[_ Hk] Ho]. unfold no_update in *. by rewrite (kp_config _ _ _ Hk). Qed.
#[global] Instance offline_alike_sym : Symmetric offline_alike.
Proof. intros r r' H. split; [by destruct H|by eapply offline_alike_eq]. Qed.
#[global] Instance offline_alike_trans : Transitive offline_alike.
Proof. intros r1 r2 r3 [H1 H2] [H3 _]. split; [by etransitivity|done]. Qed.
Lemma no_update_kept r : no_update r = true → remote_update_index open_rw http r = (Ok tt, r).
Proof. unfold no_update, remote_update_index. by destruct (offline _), (no_index_update _). Qed.

#[local] Instance offline_data_laws : RegistryDataLaws (RD:=remote_data open_rw http).
Proof.
  pose (L := remote_data_laws open_rw http).
  refine {| alike := (offline_alike : relation (Ops (RegistryData:=remote_data open_rw http))) |}.
  - intros r r' [H _]. exact (alike_prepare (RegistryDataLaws:=L) r r' H).
  - intros r [H Ho]. split; [exact (prepare_alike (RegistryDataLaws:=L) r H)|done].
  - intros r r' rt p [H _]. exact (alike_load (RegistryDataLaws:=L) r r' rt p H).
  - intros r rt p [H Ho]. split; [exact (load_alike (RegistryDataLaws:=L) r rt p H)|done].
  - intros r r' [H _]. exact (alike_path (RegistryDataLaws:=L) r r' H).
  - intros r r' [H _]. exact (alike_downloaded (RegistryDataLaws:=L) r r' H).
  - intros r r' H. cbn. rewrite (no_update_kept r (proj2 H)), (no_update_kept r' (offline_alike_eq r r' H)). done.
Defined.
Lemma offline_update r : offline_alike r r → offline_alike (remote_update_index open_rw http r).2 r.
Proof. intros H. by rewrite (no_update_kept r (proj2 H)). Qed.
Lemma offline_new id cli p name files : offline cli || no_index_update cli = true → offline_alike (remote_new id cli p name files) (remote_new id cli p name files).
Proof. intros H. split; [|done]. by split; [split|split]. Qed.
End offline.

(** * Data of one kind or the other *)
Section either.
Context `{SV : SemverLib} `{UL : UrlLib} (D1 D2 : RegistryData) (L1 : RegistryDataLaws (RD:=D1)) (L2 : RegistryDataLaws (RD:=D2)).
Definition on_left {A} (x : A * Ops (RegistryData:=D1)) : A * (Ops (RegistryData:=D1) + Ops (RegistryData:=D2)) := (x.1, inl x.2).
Definition on_right {A} (x : A * Ops (RegistryData:=D2)) : A * (Ops (RegistryData:=D1) + Ops (RegistryData:=D2)) := (x.1, inr x.2).
Definition either_data : RegistryData := {|
  Ops := Ops (RegistryData:=D1) + Ops (RegistryData:=D2);
  prepare o := match o with inl o => on_left (prepare o) | inr o => on_right (prepare o) end;
  index_path o := match o with inl o => index_path o | inr o => index_path o end;
  load o r p := match o with inl o => on_left (load o r p) | inr o => on_right (load o r p) end;
  update_index o := match o with inl o => on_left (update_index o) | inr o => on_right (update_index o) end;
  is_crate_downloaded o := match o with inl o => is_crate_downloaded o | inr o => is_crate_downloaded o end;
|}.
Definition either_alike : relation (Ops (RegistryData:=either_data)) := λ a b,
  match a, b with inl a, inl b => alike a b | inr a, inr b => alike a b | _, _ => False end.
#[global] Instance either_alike_sym : Symmetric either_alike.
Proof. intros [a|a] [b|b]; cbn; [apply alike_sym|done|done|apply alike_sym]. Qed.
#[global] Instance either_alike_trans : Transitive either_alike.
Proof. intros [a|a] [b|b] [c|c]; cbn; try done; apply alike_trans. Qed.
Definition either_laws : RegistryDataLaws (RD:=either_data).
Proof.
  refine {| alike := either_alike |}.
  - intros [a|a] [b|b] H; try done; exact (alike_prepare _ _ H).
  - intros [a|a] H; exact (prepare_alike _ H).
  - intros [a|a] [b|b] r p H; try done; exact (alike_load _ _ r p H).
  - intros [a|a] r p H; exact (load_alike _ r p H).
  - intros [a|a] [b|b] H; try done; exact (alike_path _ _ H).
  - intros [a|a] [b|b] H; try done; exact (alike_downloaded _ _ H).
  - intros [a|a] [b|b] H; try done; exact (alike_update _ _ H).
Defined.
End either.

(** * Packages are what the index has a checksum of *)
Section verified.
Context `{SV : SemverLib} `{UL : UrlLib} `{RS : RustStd} `{LO : UnicodeLower} `{IJ : !IndexJson}.
Context (sha256_hex : string → string) (unpack_read : path → PackageId → string → cresult Package) (lock_ro : path → cresult path).

Section remote_registry.
Context `{GL : !GitLib} (open_rw open_ro : path → cresult path) (http : cresult unit) (json_config : string → cresult RegistryConfig).
#[local] Instance remote_rd : RegistryData := remote_data open_rw http.
#[local] Instance remote_rf : RegistryFiles := remote_files sha256_hex open_rw open_ro http json_config.
#[local] Instance remote_rl : RegistryDataLaws := remote_data_laws open_rw http.
#[local] Instance remote_rfl : RegistryFilesLaws := remote_files_laws sha256_hex open_rw open_ro http json_config.
Abbreviation step := (source_step lock_ro unpack_read).

(** The cache of packages. *)
Definition cache (s : RegistrySource) : gmap string string := rr_files (rs_ops s : RemoteRegistry).
Lemma same_cache s s' : same_source s s' → cache s' = cache s.
Proof. intros [_ [_ Hk]]. exact (kp_files _ _ _ Hk). Qed.
Lemma do_update_cache s : source_ok lock_ro s → cache (do_update s).2 = cache s.
Proof.
  intros Hok. destruct (do_update_ok lock_ro s Hok) as (_ & H & _). unfold cache. rewrite H.
  destruct (source_alike lock_ro s Hok) as [Hw _]. exact (mv_files _ _ _ _ (proj2 (update_moved open_rw http _ Hw))).
Qed.
Lemma ask_cache s d fuzzy : source_ok lock_ro s → is_ok (ask lock_ro s d fuzzy).1 = true → cache (ask lock_ro s d fuzzy).2 = cache s.
Proof.
  intros Hok H. destruct fuzzy; cbn [ask] in *; [apply same_cache; by apply ask_index_ok|].
  destruct (source_query_ok lock_ro s d Hok) as [_ Ha]. destruct (Ha H) as [_ _ A]. apply same_cache in A. rewrite A.
  destruct (misses lock_ro s d); [by apply do_update_cache|done].
Qed.
Lemma finish_cache s p data : source_ok lock_ro s → offline (rs_config s) = false →
  cache (finish_download lock_ro unpack_read s p data).2 = cache s ∨
  listed_checksum lock_ro s p (sha256_hex data) ∧ cache (finish_download lock_ro unpack_read s p data).2 = <[crate_file p := data]> (cache s).
Proof.
  intros Hok Hoff.
  unfold finish_download. destruct (source_hash_ok lock_ro s p Hok) as [H1 H2]. pose proof (source_hash_listed lock_ro s p) as Hline.
  assert (Hcfg : offline (rs_config (source_hash lock_ro s p).2) = false) by (destruct H2 as [Hs _]; by rewrite (ss_config _ _ Hs)).
  apply same_cache in H2. destruct (source_hash lock_ro s p) as [h s1]. cbn [fst snd] in *.
  destruct h as [h| |]; [|by left..]. specialize (Hline h Hok eq_refl). cbn [data_finish_download remote_rf remote_files].
  unfold remote_finish_download. destruct (String.eqb_spec (sha256_hex data) h) as [<-|Hne].
  2:{ left. by destruct (PackageId.display p). }
  destruct (cached_file (rs_ops s1) p) as [file|].
  - left. set (s2 := with_data s1 _). rewrite <-H2. destruct (get_pkg_ok lock_ro unpack_read s2 p file) as (_ & G & _); [|by apply same_cache in G].
    destruct H1 as [Hi Hs]. by split.
  - right. split; [done|]. set (s2 := with_data s1 _). rewrite <-H2. change (<[crate_file p:=data]> (cache s1)) with (cache s2).
    assert (Hok2 : source_ok lock_ro s2).
    { pose proof (source_alike lock_ro s1 H1) as [Hw _]. split.
      - apply (index_ok_reads lock_ro _ (rs_ops s1)); [exact (so_index _ _ H1)|by apply set_files_reads|by split; [apply set_files_wf|apply kept_refl, set_files_wf]|].
        change (ri_config (rs_index s2)) with (ri_config (rs_index s1)). by rewrite (si_config _ _ (so_same _ _ H1)).
      - exact (so_same _ _ H1). }
    destruct (get_pkg_ok lock_ro unpack_read s2 p data Hok2) as (_ & G & _). by apply same_cache in G.
Qed.

(** Where a file of the cache is from: it was there at the start, or it was
    downloaded and verified with a checksum the index listed then. *)
Definition verified_before (s0 s : RegistrySource) (name file : string) : Prop :=
  cache s0 !! name = Some file ∨
  ∃ s' p, rtc step s0 s' ∧ rtc step s' s ∧ crate_file p = name ∧ listed_checksum lock_ro s' p (sha256_hex file).
Lemma verified_later s0 s s' name file : rtc step s s' → verified_before s0 s name file → verified_before s0 s' name file.
Proof. intros Hs [H|(s1 & p & H1 & H2 & H3)]; [by left|right]. exists s1, p. split_and!; [done|by etransitivity|apply H3..]. Qed.
Lemma step_cache s s' name file : source_ok lock_ro s → step s s' → cache s' !! name = Some file →
  cache s !! name = Some file ∨ ∃ p, crate_file p = name ∧ listed_checksum lock_ro s p (sha256_hex file).
Proof.
  intros Hok Hs. destruct Hs as [s d fuzzy H|s H|s p|s p data H].
  - rewrite ask_cache by done. by left.
  - unfold update. case_bool_decide; [by left|]. rewrite do_update_cache by done. by left.
  - destruct (download_ok lock_ro unpack_read s p Hok) as (_ & Hs & _). rewrite (same_cache _ _ Hs). by left.
  - destruct (finish_cache s p data Hok H) as [->|[Hc ->]]; [by left|]. intros [[<- <-]|[_ Hf]]%lookup_insert_Some; [right|by left]. by exists p.
Qed.
Lemma cache_verified s0 s name file : source_ok lock_ro s0 → rtc step s0 s → cache s !! name = Some file → verified_before s0 s name file.
Proof.
  intros Hok Hr. revert s Hr file.
  apply (rtc_ind_r (λ s, ∀ file, cache s !! name = Some file → verified_before s0 s name file) s0); [by left|]. intros s1 s2 H1 H2 IH file Hf.
  pose proof (source_steps_ok lock_ro unpack_read _ _ H1 Hok) as Hok1.
  destruct (step_cache _ _ _ _ Hok1 H2 Hf) as [Hf'|(p & <- & Hc)].
  - eapply verified_later; [by apply rtc_once|by apply IH].
  - right. exists s1, p. split_and!; [done|by apply rtc_once|done|done].
Qed.

End remote_registry.

Section local_registry.
Context (read_bytes : path → cresult string) (is_dir exists_path : path → bool).
#[local] Instance local_rd : RegistryData := local_data read_bytes is_dir.
#[local] Instance local_rf : RegistryFiles := local_files sha256_hex read_bytes is_dir exists_path.
#[local] Instance local_rl : RegistryDataLaws := local_data_laws read_bytes is_dir.
#[local] Instance local_rfl : RegistryFilesLaws := local_files_laws sha256_hex read_bytes is_dir exists_path.

End local_registry.
End verified.

(** * A run: serde is downloaded, and then it is ready. *)
Section runs.
Local Existing Instance sem_lib.
Local Existing Instance hier_lib.
Local Existing Instance std_order.
Local Existing Instance ascii_lower.
Local Existing Instance named_json.

#[local] Instance crate_tree : GitLib := {|
  Repo := unit; Oid := unit; Tree := unit;
  git_open p := Ok tt;
  git_init p := Ok tt;
  refname_to_id r n := Ok tt;
  commit_tree r h := Ok tt;
  tree_entry r t p := if String.eqb p "se/rd/serde" then Ok (Some "serde 1.0.1") else Err "no such entry";
  git_fetch r u s := (Ok tt, r);
|}.
Definition lock_ok (p : path) : cresult path := Ok p.
Definition digest (data : string) : string := if String.eqb data "the crate" then "c1" else "another".
Definition serde_remote : RemoteRegistry := remote_new PackageId.crates_io cli_default "/index" "crates-io" ∅.
Section remote_run.
#[local] Instance run_rd : RegistryData := remote_data lock_ok (Ok tt).
#[local] Instance run_rf : RegistryFiles := remote_files digest lock_ok lock_ok (Ok tt) (λ _, Err "no JSON").
Definition before_download : RegistrySource := new PackageId.crates_io cli_default "/src" "crates-io" serde_remote true.
Definition finished : cresult Package * RegistrySource := finish_download lock_ok unpacked before_download serde_1_0_1 "the crate".
Definition ready : cresult MaybePackage * RegistrySource := download lock_ok unpacked finished.2 serde_1_0_1.
Example refused : is_ok (finish_download lock_ok unpacked before_download serde_1_0_1 "the other crate").1 = false.
Proof. vm_eq. Qed.
Lemma ready_package : match ready.1 with Ok (Ready _) => true | _ => false end = true.
Proof. vm_eq. Qed.
End remote_run.

Definition crates_dir (p : path) : cresult string :=
  if String.eqb p "/crates/index/se/rd/serde" then Ok "serde 1.0.1"
  else if String.eqb p "/crates/serde-1.0.1.crate" then Ok "the crate" else Err "no such file".
Section local_run.
#[local] Instance dir_rd : RegistryData := local_data crates_dir (λ _, true).
#[local] Instance dir_rf : RegistryFiles := local_files digest crates_dir (λ _, true) (λ _, false).
Definition local_source : RegistrySource := new PackageId.crates_io cli_default "/src" "local" (local_new "/crates" "/src" "local") false.
Definition unpacked_local : cresult MaybePackage * RegistrySource := download lock_ok unpacked local_source serde_1_0_1.
Lemma local_package : match unpacked_local.1 with Ok (Ready _) => true | _ => false end = true.
Proof. vm_eq. Qed.
End local_run.
End runs.
