(* ===== verification/Sources.v ===== *)
(** The sources that a configuration names, as objects of the [Source] trait: directory
    sources ([src/cargo/sources/directory.rs]), sources that stand for another
    ([src/cargo/sources/replaced.rs]), registries, and any other.  Together with the
    [load] of the configuration they are the sources a package registry is over.  A query changes the answers of
    such a source only by the update of a locked dependency that finds nothing. *)
From S2P Require Import Prelude Str Extern Path Features SourceId PackageId Dependency Summary Package ResTypes PackageRegistry RegistryTrait.
From S2P Require Import ConfigValue Config SourceConfig IndexNames RegistryIndex RegistrySource RegistryData.

Local Open Scope string_scope.

Section sources.
Context `{SV : SemverLib} `{UL : UrlLib} `{RS : RustStd}.

(** * Directory sources *)
Record Checksum := mkChecksum { ck_package : option string; ck_files : gmap string string }.
Record DirectorySource := mkDirectorySource {
  ds_source_id : SourceId;
  ds_root : path;
  ds_packages : hashmap PackageId (Package * Checksum);
}.
Definition directory_new (p : path) (id : SourceId) : DirectorySource := mkDirectorySource id p ∅.
Definition set_packages (s : DirectorySource) m : DirectorySource := mkDirectorySource (ds_source_id s) (ds_root s) m.

Section directory.
(** The disk; the package in a directory, read by its path source; JSON; digests. *)
Context (read_dir : path → cresult (list (cresult path))) (exists_path : path → bool) (read_file : path → cresult string).
Context (root_package : path → SourceId → cresult Package) (json_checksum : string → cresult Checksum).
Context (sha256_hex : string → string).

Definition directory_query (s : DirectorySource) (d : Dependency) (fuzzy : bool) : list Summary :=
  let packages := List.map fst (hvalues (ds_packages s)) in
  List.map pkg_summary (if fuzzy then packages else List.filter (λ p, matches_id d (package_id p)) packages).

(** One entry of the directory. *)
Definition hidden (p : path) : bool := match file_name p with Some s => starts_with "." s | None => false end.
Definition failed_to (what : string) (pkg : Package) : string :=
  "failed to " ++ what ++ " of " ++ pid_name (package_id pkg) ++ " v" ++ version_to_string (pid_version (package_id pkg)).
Definition read_entry (s : DirectorySource) (p : path) : cresult (Package * Checksum) :=
  pkg ← root_package p (ds_source_id s);
  text ← chain_err (failed_to "load checksum `.cargo-checksum.json`" pkg) (read_file (path_join p (path_join p ".cargo-checksum.json")));
  cksum ← chain_err (failed_to "decode `.cargo-checksum.json`" pkg) (json_checksum text);
  let summary := match ck_package cksum with
                 | Some c => Summary.set_checksum (pkg_summary pkg) c
                 | None => pkg_summary pkg
                 end in
  Ok (with_summary pkg summary, cksum).
Fixpoint load_entries (s : DirectorySource) (entries : list (cresult path)) : cresult unit * DirectorySource :=
  match entries with
  | [] => (Ok tt, s)
  | Err e :: _ => (Err e, s)
  | Panic m :: _ => (Panic m, s)
  | Ok p :: entries =>
      if hidden p || negb (exists_path (path_join p "Cargo.toml")) then load_entries s entries
      else match read_entry s p with
           | Ok (pkg, cksum) => load_entries (set_packages s (hinsert (package_id pkg) (pkg, cksum) (ds_packages s))) entries
           | Err e => (Err e, s)
           | Panic m => (Panic m, s)
           end
  end.
Definition directory_update (s : DirectorySource) : cresult unit * DirectorySource :=
  let s := set_packages s ∅ in
  match chain_err ("failed to read root of directory source: " ++ ds_root s) (read_dir (ds_root s)) with
  | Ok entries => load_entries s entries
  | Err e => (Err e, s)
  | Panic m => (Panic m, s)
  end.
Definition directory_download (s : DirectorySource) (id : PackageId) : cresult Package :=
  match hget (ds_packages s) id with
  | Some (pkg, _) => Ok pkg
  | None => p ← PackageId.display id; Err ("failed to find package with id: " ++ p)
  end.
Definition nl : string := String (ch 10) "".
Definition changed (file expected actual : string) : string :=
  "the listed checksum of `" ++ file ++ "` has changed:" ++ nl ++ "expected: " ++ expected ++ nl ++ "actual:   " ++ actual ++ nl ++ nl ++
  "directory sources are not intended to be edited, if modifications are required then it is recommended that " ++
  "[replace] is used with a forked copy of the source".
Definition verify_file (pkg : Package) (u : unit) (fc : string * string) : cresult unit :=
  root ← unwrap (parent (manifest_path pkg));
  let file := path_join root fc.1 in
  data ← chain_err ("failed to calculate checksum of: " ++ file) (read_file file);
  if String.eqb (sha256_hex data) fc.2 then Ok tt else Err (changed file fc.2 (sha256_hex data)).
Definition directory_verify (s : DirectorySource) (id : PackageId) : cresult unit :=
  match hget (ds_packages s) id with
  | None => p ← PackageId.display id; Err ("failed to find entry for `" ++ p ++ "` in directory source")
  | Some (pkg, cksum) => foldM (verify_file pkg) tt (hm_iter (ck_files cksum))
  end.

(** Verification: of a package that is there, every listed file has the listed digest. *)
Lemma foldM_unit_ok {A} (f : unit → A → cresult unit) l : foldM f tt l = Ok tt ↔ ∀ x, x ∈ l → f tt x = Ok tt.
Proof.
  induction l as [|x l IH]; cbn [foldM]; [split; [by intros _ x ?%elem_of_nil|done]|]. split.
  - destruct (f tt x) as [[]| |] eqn:Hx; cbn [mbind res_mbind res_bind]; [|done..]. intros H y [->|Hy]%elem_of_cons; [done|by apply IH].
  - intros H. rewrite (H x) by constructor. cbn [mbind res_mbind res_bind]. apply IH. intros y Hy. apply H. by constructor.
Qed.
Lemma directory_verify_spec s id : directory_verify s id = Ok tt ↔
  ∃ pkg cksum root, hget (ds_packages s) id = Some (pkg, cksum) ∧
    (ck_files cksum = ∅ ∨ parent (manifest_path pkg) = Some root) ∧
    ∀ file digest, ck_files cksum !! file = Some digest → ∃ data, read_file (path_join root file) = Ok data ∧ sha256_hex data = digest.
Proof.
  unfold directory_verify. destruct (hget (ds_packages s) id) as [[pkg cksum]|].
  2:{ split; [|by intros (? & ? & ? & [=] & _)]. intros H. apply bind_Ok_inv in H as (? & _ & [=]). }
  rewrite foldM_unit_ok. split.
  - intros H. destruct (parent (manifest_path pkg)) as [root|] eqn:Hp.
    + exists pkg, cksum, root. split_and!; [done|by right|]. intros file digest Hf. specialize (H (file, digest)).
      rewrite elem_of_hm_iter in H. specialize (H Hf). unfold verify_file in H. rewrite Hp in H. cbn [unwrap mbind res_mbind res_bind fst snd] in H.
      destruct (read_file (path_join root file)) as [data| |]; cbn [chain_err map_err mbind res_mbind res_bind] in H; [|done..].
      exists data. split; [done|]. revert H. by destruct (String.eqb_spec (sha256_hex data) digest).
    + exists pkg, cksum, "". assert (He : ck_files cksum = ∅); [|rewrite He; split_and!; [done|by left|done]].
      apply map_empty. intros file. destruct (ck_files cksum !! file) as [digest|] eqn:Hf; [|done]. specialize (H (file, digest)).
      rewrite elem_of_hm_iter in H. specialize (H Hf). unfold verify_file in H. by rewrite Hp in H.
  - intros (pkg' & cksum' & root & [= <- <-] & Hp & H) [file digest] Hf%elem_of_hm_iter. destruct Hp as [Hp|Hp]; [by rewrite Hp in Hf|].
    destruct (H file digest Hf) as (data & Hd & <-). unfold verify_file. rewrite Hp. cbn [unwrap mbind res_mbind res_bind fst snd]. rewrite Hd.
    cbn [chain_err map_err mbind res_mbind res_bind]. by rewrite String.eqb_refl.
Qed.
End directory.

(** * Any source.  Git and path sources are those of [other]. *)
Context `{LO : UnicodeLower} `{IJ : !IndexJson} `{RD : !RegistryData}.
Context (open_ro : path → cresult path) (other : SourceLib).
Inductive AnySource :=
| OfRegistry (s : RegistrySource.RegistrySource)
| OfDirectory (s : DirectorySource)
| OfOther (s : Source (SourceLib:=other))
| OfReplaced (to_replace replace_with : SourceId) (inner : AnySource).

Definition any_source_id (s : AnySource) : SourceId :=
  match s with
  | OfRegistry s => rs_source_id s
  | OfDirectory s => ds_source_id s
  | OfOther s => source_id_of s
  | OfReplaced to_replace _ _ => to_replace
  end.
(** The context that a replaced source adds to an error. *)
Definition replaced_err {A} (what : string) (to_replace : SourceId) (m : cresult A) : cresult A :=
  match m with
  | Err e => src ← SourceId.display to_replace; chain_err ("failed to " ++ what ++ " replaced source " ++ src) (Err e)
  | m => m
  end.
Fixpoint any_query (s : AnySource) (d : Dependency) (fuzzy : bool) : cresult (list Summary) * AnySource :=
  match s with
  | OfRegistry s => let '(l, s) := ask open_ro s d fuzzy in (l, OfRegistry s)
  | OfDirectory s => (Ok (directory_query s d fuzzy), OfDirectory s)
  | OfOther s => let '(l, s) := source_query s d fuzzy in (l, OfOther s)
  | OfReplaced to_replace replace_with inner =>
      let '(l, inner) := any_query inner (Dependency.map_source d to_replace replace_with) fuzzy in
      (replaced_err "query" to_replace (List.map (λ s, Summary.map_source s replace_with to_replace) <$> l),
       OfReplaced to_replace replace_with inner)
  end.
Fixpoint any_describe (s : AnySource) : string :=
  match s with
  | OfRegistry s => display_registry (rs_source_id s)
  | OfDirectory s => "directory source `" ++ ds_root s ++ "`"
  | OfOther s => source_describe s
  | OfReplaced to_replace _ inner =>
      any_describe inner ++ " (which is replacing " ++ match SourceId.display to_replace with Ok s => s | _ => "" end ++ ")"
  end.
Definition any_is_replaced (s : AnySource) : bool :=
  match s with OfReplaced _ _ _ => true | OfOther s => source_is_replaced s | _ => false end.

Context (read_dir : path → cresult (list (cresult path))) (exists_path : path → bool) (read_file : path → cresult string).
Context (root_package : path → SourceId → cresult Package) (json_checksum : string → cresult Checksum).
Fixpoint any_update (s : AnySource) : cresult unit * AnySource :=
  match s with
  | OfRegistry s => let '(u, s) := RegistrySource.update s in (u, OfRegistry s)
  | OfDirectory s => let '(u, s) := directory_update read_dir exists_path read_file root_package json_checksum s in (u, OfDirectory s)
  | OfOther s => let '(u, s) := source_update s in (u, OfOther s)
  | OfReplaced to_replace replace_with inner =>
      let '(u, inner) := any_update inner in
      (replaced_err "update" to_replace u, OfReplaced to_replace replace_with inner)
  end.

(** * Opening what the configuration loads *)
Context `{FS : FileSystem} `{TL : TomlLib} `{UC : UnicodeCase}.
Context (cli : CliUnstable) (registry_source_path : path) (short_hash : SourceId → string) (short_hash_url : Url → string).
Context (remote_ops : SourceId → Ops) (local_ops : SourceId → path → Ops).
Fixpoint open_loaded (s : LoadedSource) : cresult AnySource :=
  match s with
  | SourceConfig.GitSource id _ _ | SourceConfig.PathSource id _ => s ← config_load id; Ok (OfOther s)
  | SourceConfig.RegistrySource id =>
      Ok (OfRegistry (RegistrySource.new id cli registry_source_path (short_name short_hash id) (remote_ops id) true))
  | SourceConfig.LocalRegistrySource id p =>
      Ok (OfRegistry (RegistrySource.new id cli registry_source_path (short_name short_hash id) (local_ops id p) false))
  | SourceConfig.DirectorySource id p => Ok (OfDirectory (directory_new p id))
  | SourceConfig.ReplacedSource to_replace replace_with inner =>
      inner ← open_loaded inner; Ok (OfReplaced to_replace replace_with inner)
  end.

(** * Facts *)
Context `{RL : !RegistryDataLaws}.
(** A source in order: registries with an index that does not show its cache, and
    what stands for a source is the source named. *)
Fixpoint any_ok (s : AnySource) : Prop :=
  match s with
  | OfRegistry s => source_ok open_ro s
  | OfDirectory _ | OfOther _ => True
  | OfReplaced _ replace_with inner => any_source_id inner = replace_with ∧ any_ok inner
  end.
Fixpoint loaded_wf (s : LoadedSource) : Prop :=
  match s with
  | SourceConfig.ReplacedSource _ replace_with inner => loaded_source_id inner = replace_with ∧ loaded_wf inner
  | _ => True
  end.

(** What is relied on: the data of registries are in order, and other sources are
    made for the id asked for, keep it, answer with what is asked for, and are not
    changed by answering. *)
Record sources_in_order : Prop := {
  sd_remote id : alike (remote_ops id) (remote_ops id);
  sd_local id p : alike (local_ops id p) (local_ops id p);
  sd_other_id id s : config_load (SourceLib:=other) id = Ok s → source_id_of s = id;
  sd_other_kept (s : Source (SourceLib:=other)) d f : source_id_of (source_query s d f).2 = source_id_of s;
  sd_other_updated (s : Source (SourceLib:=other)) : source_id_of (source_update s).2 = source_id_of s;
  sd_other (s : Source (SourceLib:=other)) d f d' f' : (source_query (source_query s d f).2 d' f').1 = (source_query s d' f').1;
  sd_other_matches (s : Source (SourceLib:=other)) d l x :
    (source_query s d false).1 = Ok l → x ∈ l → matches_id d (sum_package_id x) = true;
}.
(** Where there is no network, an update does not change what registries hold. *)
Record steady_sources : Prop := {
  sd_in_order : sources_in_order;
  sd_update o : alike o o → alike (update_index o).2 o;
}.

Section in_order.
Context (Hor : sources_in_order).

(** Sources that answer alike. *)
Inductive any_same : AnySource → AnySource → Prop :=
| same_registries s s' : source_ok open_ro s → source_ok open_ro s' → same_source s s' → any_same (OfRegistry s) (OfRegistry s')
| same_directory s : any_same (OfDirectory s) (OfDirectory s)
| same_other s s' : (∀ d f, (source_query s d f).1 = (source_query s' d f).1) → source_id_of s' = source_id_of s → any_same (OfOther s) (OfOther s')
| same_replaced a b s s' : any_same s s' → any_same (OfReplaced a b s) (OfReplaced a b s').
Lemma any_same_answers s s' d fuzzy : any_same s s' → (any_query s d fuzzy).1 = (any_query s' d fuzzy).1.
Proof.
  intros Hs. revert d. induction Hs as [s s' H1 H2 H3|s|s s' H|a b s s' _ IH]; intros d; cbn [any_query].
  - destruct (ask_ok open_ro s d fuzzy H1) as [E1 _], (ask_ok open_ro s' d fuzzy H2) as [E2 _].
    rewrite (answer_alike open_ro s s' d fuzzy H3), <-E2 in E1. by destruct (ask open_ro s d fuzzy), (ask open_ro s' d fuzzy).
  - done.
  - specialize (H d fuzzy). by destruct (source_query s d fuzzy), (source_query s' d fuzzy).
  - specialize (IH (Dependency.map_source d a b)). destruct (any_query s _ _), (any_query s' _ _). cbn [fst] in *. by rewrite IH.
Qed.
Lemma any_same_ok s s' : any_same s s' → any_ok s → any_ok s' ∧ any_source_id s' = any_source_id s.
Proof.
  induction 1 as [s s' H1 H2 [H3 _]|s|s s' H Hid|a b s s' _ IH]; cbn [any_ok any_source_id]; [|done..|].
  - intros _. split; [done|]. exact (ss_id _ _ H3).
  - intros [Hi Hok]. destruct (IH Hok) as [H1 H2]. split; [|done]. split; [congruence|done].
Qed.
Lemma load_entries_id entries : ∀ s, ds_source_id (load_entries exists_path read_file root_package json_checksum s entries).2 = ds_source_id s.
Proof.
  induction entries as [|[p| |] entries IH]; intros s; cbn [load_entries]; [done| |done..].
  destruct (_ || _); [apply IH|]. destruct (read_entry _ _ _ _ _) as [[pkg ck]| |]; [by rewrite IH|done..].
Qed.
(** An exact query is answered with what the dependency matches, also through a
    source that stands for another. *)
Lemma replaced_err_Ok {A} what to_replace (m : cresult A) a : replaced_err what to_replace m = Ok a → m = Ok a.
Proof. destruct m as [a'|e|]; cbn [replaced_err]; [done| |done]. intros H. by apply bind_Ok_inv in H as (? & _ & [=]). Qed.
Lemma map_source_matches d x (to_replace replace_with : SourceId) :
  to_key (dep_source_id d) = to_key to_replace →
  matches_id (Dependency.map_source d to_replace replace_with) (sum_package_id x) = true →
  matches_id d (sum_package_id (Summary.map_source x replace_with to_replace)) = true.
Proof.
  intros Hd. unfold Dependency.map_source. rewrite (proj2 (heqb_true _ _) Hd). cbn [negb].
  assert (Hid : sum_package_id (Summary.map_source x replace_with to_replace) =
    if pid_source_id (sum_package_id x) ==? replace_with then with_source_id (sum_package_id x) to_replace else sum_package_id x).
  { unfold Summary.map_source. by destruct (_ ==? _). }
  rewrite Hid. unfold matches_id. destruct d as [n src g r sr k oo e op df fs p]. cbn in *. intros H. apply andb_true_iff in H as [H1 H2].
  assert (Hn : pid_name (if pid_source_id (sum_package_id x) ==? replace_with then with_source_id (sum_package_id x) to_replace else sum_package_id x)
    = pid_name (sum_package_id x)) by by destruct (_ ==? _).
  rewrite Hn, H1. cbn [andb]. destruct oo; [done|]. cbn [orb] in *. apply andb_true_iff in H2 as [H2 H3].
  apply heqb_true in H3. rewrite (proj2 (heqb_true _ _)) by done. cbn. rewrite H2. by apply heqb_true.
Qed.
Lemma any_query_matches s d l x : any_ok s → to_key (dep_source_id d) = to_key (any_source_id s) →
  (any_query s d false).1 = Ok l → x ∈ l → matches_id d (sum_package_id x) = true.
Proof.
  revert d l x. induction s as [s|s|s|a b s IH]; intros d l x Hok Hd; cbn [any_query any_ok any_source_id] in *.
  - destruct (ask_ok open_ro s d false Hok) as [H1 _]. destruct (ask open_ro s d false) as [r s']. cbn [fst] in *. rewrite H1.
    apply answer_matches.
  - intros [= <-] (y & Hy%elem_of_filter_bool & ->)%elem_of_list_map. apply Hy.
  - pose proof (sd_other_matches Hor s d l x) as H. by destruct (source_query s d false).
  - destruct Hok as [Hi Hok]. specialize (IH (Dependency.map_source d a b)).
    destruct (any_query s _ false) as [r s']. cbn [fst] in *. intros H%replaced_err_Ok Hx.
    destruct r as [l'| |]; [|done..]. injection H as <-. apply elem_of_list_map in Hx as (y & Hy & ->).
    apply map_source_matches; [done|]. apply (IH l' y Hok); [|done..]. rewrite Hi. unfold Dependency.map_source.
    rewrite (proj2 (heqb_true _ _) Hd). cbn [negb]. by destruct d.
Qed.

(** ** What is loaded is opened. *)
Lemma source_load_wf id s : source_load short_hash_url id = Ok s → loaded_wf s ∧ loaded_source_id s = id.
Proof.
  intros H. destruct (source_load_id short_hash_url id s H) as [Hid _]. split; [|done].
  unfold source_load, git_source_new in H. destruct (sid_kind id); try (apply bind_Ok_inv in H as (x & _ & [= <-]); done). by injection H as <-.
Qed.
Lemma load_wf fuel m id s : SourceConfig.load short_hash_url fuel m id = Some (Ok s) → loaded_wf s ∧ loaded_source_id s = id.
Proof.
  unfold SourceConfig.load. destruct (hget (id2name m) id) as [orig|]; [|intros [= H]; by apply source_load_wf].
  destruct (follow _ _ _ _ _ _) as [[[r name]| |]|]; cbn [fbind]; [|done..]. intros [= H]. unfold replace in H.
  destruct r as [|new_id]; [by apply source_load_wf|].
  destruct (source_load short_hash_url new_id) as [new_src| |] eqn:Hn; cbn [mbind res_mbind res_bind] in H; [|done..].
  destruct (source_load short_hash_url id); cbn [mbind res_mbind res_bind] in H; [|done..].
  destruct (_ && _); [done|]. destruct (_ && _); [done|]. injection H as <-.
  destruct (source_load_wf _ _ Hn) as [H1 H2]. done.
Qed.
Lemma open_loaded_ok ls : ∀ s, loaded_wf ls → open_loaded ls = Ok s → any_ok s ∧ any_source_id s = loaded_source_id ls.
Proof.
  induction ls as [id i r|id p|id|id p|id p|a b ls IH]; intros s Hwf; cbn [open_loaded loaded_source_id].
  - intros H. apply bind_Ok_inv in H as (x & Hx & [= <-]). split; [done|]. exact (sd_other_id Hor _ _ Hx).
  - intros H. apply bind_Ok_inv in H as (x & Hx & [= <-]). split; [done|]. exact (sd_other_id Hor _ _ Hx).
  - intros [= <-]. split; [|done]. apply new_ok, (sd_remote Hor).
  - intros [= <-]. split; [|done]. apply new_ok, (sd_local Hor).
  - by intros [= <-].
  - intros H. apply bind_Ok_inv in H as (x & Hx & [= <-]). destruct Hwf as [Hw Hwf]. destruct (IH x Hwf Hx) as [H1 H2].
    split; [|done]. split; [congruence|done].
Qed.

(** ** The source after a query *)

(** Whether a query makes a registry update: a locked dependency that nothing in
    it matches, by the ids of the source that stands for another. *)
Fixpoint any_misses (s : AnySource) (d : Dependency) (fuzzy : bool) : bool :=
  match s with
  | OfRegistry s => negb fuzzy && misses open_ro s d
  | OfReplaced to_replace replace_with inner => any_misses inner (Dependency.map_source d to_replace replace_with) fuzzy
  | _ => false
  end.
Fixpoint refreshed (s : AnySource) (d : Dependency) (fuzzy : bool) : AnySource :=
  match s with
  | OfRegistry r => if negb fuzzy && misses open_ro r d then OfRegistry (do_update r).2 else s
  | OfReplaced to_replace replace_with inner =>
      OfReplaced to_replace replace_with (refreshed inner (Dependency.map_source d to_replace replace_with) fuzzy)
  | s => s
  end.
Lemma refreshed_quiet s : ∀ d fuzzy, any_misses s d fuzzy = false → refreshed s d fuzzy = s.
Proof.
  induction s as [s|s|s|a b s IH]; intros d fuzzy; cbn [any_misses refreshed]; [by intros ->|done|done|].
  intros H. by rewrite IH.
Qed.
Lemma replaced_err_ok {A} what to_replace (m : cresult A) : is_ok (replaced_err what to_replace m) = is_ok m.
Proof. destruct m as [a|e|]; cbn [replaced_err]; [done| |done]. by destruct (SourceId.display to_replace). Qed.

Lemma ask_refreshed r d fuzzy : source_ok open_ro r → is_ok (ask open_ro r d fuzzy).1 = true →
  any_same (refreshed (OfRegistry r) d fuzzy) (OfRegistry (ask open_ro r d fuzzy).2).
Proof.
  intros Hok. cbn [refreshed]. destruct fuzzy; cbn [ask negb andb].
  - intros _. destruct (ask_index_ok open_ro r d Hok) as (_ & H1 & H2). by constructor.
  - intros H. destruct (source_query_ok open_ro r d Hok) as [_ Ha]. destruct (Ha H) as [A1 A2 A3].
    destruct (misses open_ro r d); constructor; try done. by apply (do_update_ok open_ro r Hok), A2.
Qed.
Lemma any_query_refreshed s : ∀ d fuzzy, any_ok s → is_ok (any_query s d fuzzy).1 = true →
  any_same (refreshed s d fuzzy) (any_query s d fuzzy).2 ∧ any_ok (any_query s d fuzzy).2 ∧
  any_source_id (any_query s d fuzzy).2 = any_source_id s.
Proof.
  induction s as [r|s|s|a b s IH]; intros d fuzzy Hok H; cbn [any_query any_ok any_source_id] in *.
  - pose proof (ask_refreshed r d fuzzy Hok) as Ha. destruct (ask open_ro r d fuzzy) as [l r']. cbn [fst snd] in *. specialize (Ha H). split; [done|].
    cbn [refreshed] in Ha. destruct (negb fuzzy && misses open_ro r d); inversion Ha as [? ? _ H1 [H2 _]| | |]; subst; (split; [done|]); cbn.
    + rewrite (ss_id _ _ H2). unfold do_update. by destruct (update_index (rs_ops r)) as [[]].
    + exact (ss_id _ _ H2).
  - split; [constructor|done].
  - pose proof (sd_other Hor s d fuzzy) as Ho. pose proof (sd_other_kept Hor s d fuzzy) as Hk.
    destruct (source_query s d fuzzy) as [l s']. cbn [fst snd] in *. split; [|done]. constructor; [|done]. intros d' f'. symmetry. apply Ho.
  - destruct Hok as [Hi Hok]. specialize (IH (Dependency.map_source d a b) fuzzy Hok). cbn [refreshed].
    destruct (any_query s _ fuzzy) as [l s']. cbn [fst snd] in *. rewrite replaced_err_ok in H.
    destruct IH as (I1 & I2 & I3); [by destruct l|]. split; [by constructor|]. split; [|done]. split; [congruence|done].
Qed.
Lemma any_update_fine s : any_ok s → is_ok (any_update s).1 = true → any_ok (any_update s).2 ∧ any_source_id (any_update s).2 = any_source_id s.
Proof.
  induction s as [r|s|s|a b s IH]; cbn [any_update any_ok any_source_id].
  - intros Hok H. pose proof (update_ok open_ro r Hok) as Hu.
    assert (Hid : rs_source_id (RegistrySource.update r).2 = rs_source_id r).
    { unfold RegistrySource.update, do_update. case_bool_decide; [done|]. by destruct (update_index (rs_ops r)) as [[]]. }
    destruct (RegistrySource.update r) as [u r']. cbn [fst snd] in *. by split; [apply Hu|].
  - intros _ _. assert (Hid : ds_source_id (directory_update read_dir exists_path read_file root_package json_checksum s).2 = ds_source_id s).
    { unfold directory_update. destruct (chain_err _ _) as [l| |]; [exact (load_entries_id l (set_packages s ∅))|done..]. }
    by destruct (directory_update _ _ _ _ _ s).
  - intros _ _. pose proof (sd_other_updated Hor s). by destruct (source_update s).
  - intros [Hi Hok]. destruct (any_update s) as [u s']. cbn [fst snd] in *. rewrite replaced_err_ok. intros H.
    destruct (IH Hok H) as [H1 H2]. split; [|done]. split; [congruence|done].
Qed.

(** A source over time: queries and updates that succeed. *)
Inductive any_step : AnySource → AnySource → Prop :=
| any_asked s d fuzzy : is_ok (any_query s d fuzzy).1 = true → any_step s (any_query s d fuzzy).2
| any_updated s : is_ok (any_update s).1 = true → any_step s (any_update s).2.
Lemma any_steps_ok s s' : rtc any_step s s' → any_ok s → any_ok s' ∧ any_source_id s' = any_source_id s.
Proof.
  induction 1 as [s|s s1 s2 Hs _ IH]; [done|]. intros Hok.
  assert (H : any_ok s1 ∧ any_source_id s1 = any_source_id s); [|destruct H as [H1 <-]; by apply IH].
  destruct Hs as [s d fuzzy H|s H]; [by apply any_query_refreshed|by apply any_update_fine].
Qed.
End in_order.

Section stable.
Context (Hsd : steady_sources).

Lemma do_update_steady s : source_ok open_ro s →
  source_ok open_ro (do_update s).2 ∧ same_source s (do_update s).2.
Proof.
  intros Hok. pose proof (sd_update Hsd _ (source_alike _ _ Hok)) as Ha.
  destruct (do_update_ok open_ro s Hok) as (_ & U2 & U3 & U4).
  assert (Hs : same_source s (do_update s).2).
  { split; [rewrite U4; apply with_data_same|]. symmetry. by rewrite U2. }
  split; [|done]. unfold do_update in *. destruct (update_index (rs_ops s)) as [[[]| |] o]; cbn [fst snd] in *; [by apply U3|..].
  all: apply (with_data_ok open_ro s (rs_index s, o)); [done..| |]; cbn [fst snd]; [by symmetry|];
    apply (index_ok_same open_ro (rs_index s) _ (rs_ops s)); [exact (so_index _ _ Hok)|done|by symmetry|done..].
Qed.
Lemma ask_steady s d fuzzy : source_ok open_ro s →
  source_ok open_ro (ask open_ro s d fuzzy).2 ∧ same_source s (ask open_ro s d fuzzy).2.
Proof.
  intros Hok. destruct fuzzy; cbn [ask]; [apply (ask_index_ok open_ro s d Hok)|]. unfold query.
  destruct (ask_matching_ok open_ro s d Hok) as (_ & H2 & H3). destruct (_ && _); [|done].
  destruct (ask_matching open_ro s d) as [l s1]. cbn [fst snd] in *. destruct l as [[|]| |]; [|done..].
  destruct (do_update_steady s1 H2) as [H4 H5]. destruct (do_update s1) as [u s2]. cbn [fst snd] in *.
  assert (Hs : same_source s s2) by (etransitivity; [exact H3|exact H5]).
  destruct u; [|done..]. destruct (ask_matching_ok open_ro s2 d H4) as (_ & H6 & H7). split; [done|]. etransitivity; [exact Hs|exact H7].
Qed.

Lemma any_query_same s d fuzzy : any_ok s → any_same s (any_query s d fuzzy).2.
Proof.
  revert d. induction s as [s|s|s|a b s IH]; intros d Hok; cbn [any_query any_ok] in *.
  - destruct (ask_steady s d fuzzy Hok) as [H1 H2]. destruct (ask open_ro s d fuzzy). by constructor.
  - constructor.
  - pose proof (sd_other (sd_in_order Hsd) s d fuzzy) as H. pose proof (sd_other_kept (sd_in_order Hsd) s d fuzzy) as Hk.
    destruct (source_query s d fuzzy) as [l s']. cbn [fst snd] in *. constructor; [|done]. intros d' f'. symmetry. apply H.
  - destruct Hok as [_ Hok]. specialize (IH (Dependency.map_source d a b) Hok). destruct (any_query s _ _). by constructor.
Qed.
Lemma any_query_ok s d fuzzy : any_ok s → any_ok (any_query s d fuzzy).2.
Proof. intros Hok. by apply (any_same_ok s _ (any_query_same s d fuzzy Hok)). Qed.

Lemma any_update_ok s : any_ok s → any_ok (any_update s).2 ∧ any_source_id (any_update s).2 = any_source_id s.
Proof.
  induction s as [s|s|s|a b s IH]; cbn [any_update any_ok any_source_id].
  - intros Hok. unfold RegistrySource.update. case_bool_decide; [done|]. destruct (do_update_steady s Hok) as [H1 [H2 _]].
    destruct (do_update s) as [u s']. cbn [fst snd] in *. split; [done|]. exact (ss_id _ _ H2).
  - intros _. assert (Hid : ds_source_id (directory_update read_dir exists_path read_file root_package json_checksum s).2 = ds_source_id s).
    { unfold directory_update. destruct (chain_err _ _) as [l| |]; [exact (load_entries_id l (set_packages s ∅))|done..]. }
    by destruct (directory_update _ _ _ _ _ s).
  - intros _. pose proof (sd_other_updated (sd_in_order Hsd) s). by destruct (source_update s).
  - intros [Hi Hok]. destruct (IH Hok) as [H1 H2]. destruct (any_update s) as [u s']. cbn [fst snd] in *.
    split; [|done]. split; [congruence|done].
Qed.

(** * The sources of a package registry *)
(** [SourceConfigMap::load] where it returns, at every id. *)
Context (fuel : nat) (m : SourceConfigMap) (config_source : SourceId → cresult LoadedSource).
Context (Hconf : ∀ id, SourceConfig.load short_hash_url fuel m id = Some (config_source id)).

Definition GoodSource : Type := { s : AnySource | any_ok s }.
Definition opened (id : SourceId) : cresult GoodSource :=
  match config_source id as r return config_source id = r → cresult GoodSource with
  | Err e => λ _, Err e
  | Panic msg => λ _, Panic msg
  | Ok ls => λ Hls,
      match open_loaded ls as r return open_loaded ls = r → cresult GoodSource with
      | Err e => λ _, Err e
      | Panic msg => λ _, Panic msg
      | Ok s => λ Hs, Ok (s ↾ proj1 (open_loaded_ok (sd_in_order Hsd) ls s
                   (proj1 (load_wf fuel m id ls (eq_trans (Hconf id) (f_equal Some Hls)))) Hs))
      end eq_refl
  end eq_refl.
Definition configured_sources : SourceLib := {|
  Source := GoodSource;
  source_id_of s := any_source_id (`s);
  config_load := opened;
  source_update s := ((any_update (`s)).1, (any_update (`s)).2 ↾ proj1 (any_update_ok (`s) (proj2_sig s)));
  source_query s d fuzzy := ((any_query (`s) d fuzzy).1, (any_query (`s) d fuzzy).2 ↾ any_query_ok (`s) d fuzzy (proj2_sig s));
  source_describe s := any_describe (`s);
  source_is_replaced s := any_is_replaced (`s);
|}.
Lemma opened_id id s : opened id = Ok s → any_source_id (`s) = id.
Proof.
  unfold opened.
  assert (H : ∀ r (E : config_source id = r), (match r as r return config_source id = r → cresult GoodSource with
    | Err e => λ _, Err e | Panic msg => λ _, Panic msg
    | Ok ls => λ Hls, match open_loaded ls as r return open_loaded ls = r → cresult GoodSource with
      | Err e => λ _, Err e | Panic msg => λ _, Panic msg
      | Ok s => λ Hs, Ok (s ↾ proj1 (open_loaded_ok (sd_in_order Hsd) ls s (proj1 (load_wf fuel m id ls (eq_trans (Hconf id) (f_equal Some Hls)))) Hs))
      end eq_refl end) E = Ok s → any_source_id (`s) = id); [|apply H].
  intros [ls| |] E; [|done..].
  assert (H : ∀ r (E' : open_loaded ls = r), (match r as r return open_loaded ls = r → cresult GoodSource with
      | Err e => λ _, Err e | Panic msg => λ _, Panic msg
      | Ok s => λ Hs, Ok (s ↾ proj1 (open_loaded_ok (sd_in_order Hsd) ls s (proj1 (load_wf fuel m id ls (eq_trans (Hconf id) (f_equal Some E)))) Hs))
      end) E' = Ok s → any_source_id (`s) = id); [|apply H].
  intros [x| |] E'; [|done..]. intros [= <-]. cbn. destruct (load_wf fuel m id ls (eq_trans (Hconf id) (f_equal Some E))) as [Hw <-].
  by apply (open_loaded_ok (sd_in_order Hsd)).
Qed.
End stable.

(** Where updates change nothing, the sources that a configuration names keep what
    the package registry relies on. *)
Lemma configured_sources_stable (Hsd : steady_sources) fuel m config_source
    (Hconf : ∀ id, SourceConfig.load short_hash_url fuel m id = Some (config_source id)) :
  sources_stable (SL:=configured_sources Hsd fuel m config_source Hconf).
Proof.
  split.
  - intros id s. apply opened_id.
  - intros [s Hs] d f d' f'. cbn. apply (f_equal told). symmetry. apply any_same_answers. by apply any_query_same.
Qed.

(** C22. A source that a configuration names is made for the very id asked for, and
    whatever it was asked and updated before, a query that succeeds changes its
    answers in one way only: the query of a locked dependency that nothing matches
    updates the registry, and then it answers as the updated registry.  Every other
    query changes no answer, though registries cache, and stand for one another.
    An exact query is answered with what the dependency matches, with the ids of
    the source that was asked and not of the one that stands for it.  Git and path
    sources are taken not to be changed by answering ([sources_in_order]). *)
Theorem configured_queries (Hor : sources_in_order) fuel m id ls s0 s
    (Hload : SourceConfig.load short_hash_url fuel m id = Some (Ok ls)) (Hopen : open_loaded ls = Ok s0) (Hsteps : rtc any_step s0 s) :
  any_source_id s = id ∧
  ∀ d fuzzy l, (any_query s d fuzzy).1 = Ok l →
    (∀ d' fuzzy', (any_query (any_query s d fuzzy).2 d' fuzzy').1 = (any_query (refreshed s d fuzzy) d' fuzzy').1) ∧
    (any_misses s d fuzzy = false → refreshed s d fuzzy = s) ∧
    (fuzzy = false → to_key (dep_source_id d) = to_key id → ∀ x, x ∈ l → matches_id d (sum_package_id x) = true).
Proof.
  destruct (load_wf fuel m id ls Hload) as [Hwf <-]. destruct (open_loaded_ok Hor ls s0 Hwf Hopen) as [Hok <-].
  destruct (any_steps_ok Hor s0 s Hsteps Hok) as [Hs Hid]. split; [done|]. intros d fuzzy l Hl. split_and!.
  - intros d' fuzzy'. symmetry. apply any_same_answers. apply (any_query_refreshed Hor); [done|by rewrite Hl].
  - apply refreshed_quiet.
  - intros -> Hd x. apply (any_query_matches Hor s d l x Hs); [by rewrite Hid|done].
Qed.
End sources.

(** * A run: crates.io, offline, replaced by a local registry of the same files. *)
Section runs.
Local Existing Instance sem_lib.
Local Existing Instance hier_lib.
Local Existing Instance std_order.
Local Existing Instance ascii_lower.
Local Existing Instance named_json.

(** A repository with one tree. *)
#[local] Instance one_tree : GitLib := {|
  Repo := unit; Oid := unit; Tree := unit;
  git_open p := Ok tt;
  git_init p := Ok tt;
  refname_to_id r n := Ok tt;
  commit_tree r h := Ok tt;
  tree_entry r t p := if String.eqb p "se/rd/serde" then Ok (Some "serde 1.0.0") else Err "no such entry";
  git_fetch r u s := (Err "no network", r);
|}.
Definition local_read (p : path) : cresult string :=
  if String.eqb p "/local/index/se/rd/serde" then Ok "serde 1.0.0" else Err "no such file".
Definition no_write (p : path) : cresult path := Err "read-only".
#[local] Instance both_data : RegistryData :=
  either_data (remote_data no_write (Ok tt)) (local_data local_read (λ _, true)).
#[local] Instance both_laws : RegistryDataLaws :=
  either_laws _ _ (offline_data_laws no_write (Ok tt)) (local_data_laws local_read (λ _, true)).

Definition offline_cli : CliUnstable := mkCli false false true false false false false false false.
Definition remote_of (id : SourceId) : Ops := inl (remote_new id offline_cli "/index" "crates-io" ∅).
Definition local_of (id : SourceId) (p : path) : Ops := inr (local_new p "/src" "local").
Definition both_sources := AnySource listed_sources.

Definition local_registry_id : SourceId :=
  let u := ("file", "", ["local"], None, None) in mkSourceId u u SourceId.LocalRegistry None None.
Definition replaced_map : SourceConfigMap :=
  mkSourceConfigMap (list_to_map [("crates-io", mkSourceConfig PackageId.crates_io (Some ("here", "/h/config"))); ("here", mkSourceConfig local_registry_id None)])
    (hinsert PackageId.crates_io "crates-io" (hinsert local_registry_id "here" ∅)).
Definition loaded_as (id : SourceId) : cresult LoadedSource := default (Err "no answer") (SourceConfig.load no_hash 3 replaced_map id).
Lemma loaded_returns id : SourceConfig.load no_hash 3 replaced_map id = Some (loaded_as id).
Proof.
  enough (is_Some (SourceConfig.load no_hash 3 replaced_map id)) as [r Hr] by (unfold loaded_as; by rewrite Hr).
  unfold SourceConfig.load. destruct (hget (id2name replaced_map) id) as [name|] eqn:Hn; [|by eexists].
  assert (Hname : name = "crates-io" ∨ name = "here").
  { revert Hn. cbn [id2name replaced_map]. rewrite !hget_hinsert, hget_empty. repeat case_decide; intros [= <-]; auto. }
  assert (Hc : cfgs replaced_map !! "crates-io" = Some (mkSourceConfig PackageId.crates_io (Some ("here", "/h/config")))) by reflexivity.
  assert (Hh : cfgs replaced_map !! "here" = Some (mkSourceConfig local_registry_id None)) by reflexivity.
  destruct Hname as [-> | ->]; cbn [follow]; rewrite ?Hc, ?Hh; cbn [SourceConfig.replace_with].
  - change (String.eqb "here" "crates-io") with false. cbn [follow]. rewrite Hh. cbn [SourceConfig.replace_with].
    destruct (source_id_eq _ _); by eexists.
  - destruct (source_id_eq _ _); by eexists.
Qed.
Lemma both_in_order : sources_in_order listed_sources remote_of local_of.
Proof.
  split.
  - intros id. by apply offline_new.
  - done.
  - by intros id s [= <-].
  - done.
  - done.
  - done.
  - intros s d l x [= <-] Hx. by apply list_elem_of_filter in Hx as [? _].
Qed.
Lemma both_steady : steady_sources listed_sources remote_of local_of.
Proof. split; [exact both_in_order|]. intros [o|o] H; [by apply offline_update|done]. Qed.

Definition opened_source (id : SourceId) : cresult both_sources := ls ← loaded_as id; open_loaded listed_sources offline_cli "/src" (λ _, "0") remote_of local_of ls.
Definition shown (x : Summary) : string * bool :=
  (version_to_string (pid_version (sum_package_id x)), pid_source_id (sum_package_id x) ==? PackageId.crates_io).
Definition found (id : SourceId) : cresult (list (string * bool)) :=
  match opened_source id with
  | Ok s => List.map shown <$> (any_query no_lock listed_sources s (serde_dep None) false).1
  | Err e => Err e
  | Panic m => Panic m
  end.
Example found_replaced : found PackageId.crates_io = Ok [("1.0.0", true)].
Proof. vm_eq. Qed.
Definition crates_source : both_sources := match opened_source PackageId.crates_io with Ok s => s | _ => OfDirectory listed_sources (directory_new "" PackageId.crates_io) end.
Definition asked_crates := any_query no_lock listed_sources crates_source (serde_dep (Some "locked")) false.
Lemma asked_ok : is_ok asked_crates.1 = true.
Proof. vm_eq. Qed.
(** The registry that stands for crates.io is asked through ids that are not locked. *)
Lemma configured_queries_witness :
  any_source_id listed_sources crates_source = PackageId.crates_io ∧
  any_misses no_lock listed_sources crates_source (serde_dep (Some "locked")) false = false ∧
  ∃ l, asked_crates.1 = Ok l ∧
    (any_query no_lock listed_sources asked_crates.2 (serde_dep None) true).1 = (any_query no_lock listed_sources crates_source (serde_dep None) true).1 ∧
    ∀ x, x ∈ l → matches_id (serde_dep (Some "locked")) (sum_package_id x) = true.
Proof.
  assert (Hmiss : any_misses no_lock listed_sources crates_source (serde_dep (Some "locked")) false = false) by vm_eq.
  assert (Hload : ∃ ls, SourceConfig.load no_hash 3 replaced_map PackageId.crates_io = Some (Ok ls) ∧
    open_loaded listed_sources offline_cli "/src" (λ _, "0") remote_of local_of ls = Ok crates_source).
  { rewrite loaded_returns. assert (Ho : is_ok (opened_source PackageId.crates_io) = true) by vm_eq.
    unfold crates_source, opened_source in *. destruct (loaded_as PackageId.crates_io) as [ls| |]; [|discriminate Ho..].
    exists ls. split; [reflexivity|]. cbn [mbind res_mbind res_bind] in *. by destruct (open_loaded _ _ _ _ _ _ ls). }
  destruct Hload as (ls & Hload & Hopen).
  destruct (configured_queries no_lock listed_sources (λ _, Err "no directory") (λ _, false) (λ _, Err "no file") (λ _ _, Err "no package") (λ _, Err "no JSON")
    offline_cli "/src" (λ _, "0") no_hash remote_of local_of both_in_order 3 replaced_map PackageId.crates_io ls crates_source crates_source Hload Hopen (rtc_refl _ _)) as [H1 H2].
  split; [exact H1|]. split; [exact Hmiss|]. pose proof asked_ok as Hok. destruct asked_crates.1 as [l| |] eqn:Hl; [|discriminate Hok..].
  destruct (H2 (serde_dep (Some "locked")) false l Hl) as (H3 & H4 & H5). exists l. split; [reflexivity|].
  pose proof (H3 (serde_dep None) true) as H6. rewrite (H4 Hmiss) in H6. split; [exact H6|exact (H5 eq_refl eq_refl)].
Defined.
End runs.
