(* ===== verification/RegistryPins.v ===== *)
(** Registries that are named with and without a precise version
    ([src/cargo/sources/registry/]): their answers are the same up to the precise
    versions in source ids, which is what the package registry relies on where one
    source is named in both ways. *)
From S2P Require Import Prelude Str Extern Path Utf8 Features SourceId PackageId Dependency Summary ResTypes PackageRegistry RegistryTrait IndexNames RegistryIndex RegistrySource RegistryData.

Local Open Scope string_scope.

(** * Loops over what is the same for their steps *)
Lemma foldM_same {A B} (f f' : B → A → cresult B) l l' : Forall2 (λ x y, ∀ b, f b x = f' b y) l l' → ∀ b, foldM f b l = foldM f' b l'.
Proof. induction 1 as [|x y l l' H _ IH]; intros b; cbn [foldM]; [done|]. rewrite H. destruct (f' b y); cbn; [apply IH|done..]. Qed.

Lemma bind_same {A B} (m m' : cresult A) (f f' : A → cresult B) : m = m' → (∀ x, f x = f' x) → m ≫= f = m' ≫= f'.
Proof. intros -> H. destruct m'; [apply H|done..]. Qed.

Section summaries.
Context `{SV : SemverLib} `{UL : UrlLib} `{RS : RustStd}.

(** * Summaries of dependencies that differ in precise versions *)
Definition same_dep (d d' : Dependency) : Prop := unpinned_dep d = unpinned_dep d'.
Lemma same_dep_facts d d' : same_dep d d' → name_in_toml d = name_in_toml d' ∧ optional d = optional d' ∧ is_transitive d = is_transitive d'.
Proof. intros [_ ->]%unpinned_dep_eq. by destruct d. Qed.
Definition same_map_at (m m' : gmap string (list Dependency)) (k : string) : Prop := option_Forall2 (Forall2 same_dep) (m !! k) (m' !! k).
Lemma build_dep_map_same ds ds' : Forall2 same_dep ds ds' → ∀ k, same_map_at (build_dep_map ds) (build_dep_map ds') k.
Proof.
  intros Hds. unfold build_dep_map.
  assert (H : ∀ m m' : gmap string (list Dependency), (∀ k, same_map_at m m' k) → ∀ k, same_map_at (foldl (λ m dep, <[name_in_toml dep := (default [] (m !! name_in_toml dep) ++ [dep])%list]> m) m ds)
    (foldl (λ m dep, <[name_in_toml dep := (default [] (m !! name_in_toml dep) ++ [dep])%list]> m) m' ds') k).
  2:{ apply H. intros k. unfold same_map_at. rewrite lookup_empty. constructor. }
  induction Hds as [|d d' ds ds' Hd _ IH]; intros m m' Hm; cbn [foldl]; [done|]. apply IH. intros k.
  destruct (same_dep_facts d d' Hd) as [Hn _]. rewrite <-Hn. unfold same_map_at. destruct (decide (name_in_toml d = k)) as [<-|Hk].
  - rewrite !lookup_insert_eq. constructor. apply Forall2_app; [|by constructor]. specialize (Hm (name_in_toml d)). unfold same_map_at in Hm.
    destruct (m !! _), (m' !! _); inversion Hm; [done|constructor].
  - rewrite !lookup_insert_ne by done. apply Hm.
Qed.
Lemma same_map_some m m' k : same_map_at m m' k → bool_decide (is_Some (m !! k)) = bool_decide (is_Some (m' !! k)) ∧
  existsb optional (default [] (m !! k)) = existsb optional (default [] (m' !! k)).
Proof.
  unfold same_map_at. intros H. split.
  - apply bool_decide_ext. destruct H; [by split; eexists|done].
  - destruct H as [l l' Hl|]; [|done]. cbn. induction Hl as [|d d' l l' Hd _ IH]; [done|]. cbn.
    destruct (same_dep_facts d d' Hd) as (_ & -> & _). by rewrite IH.
Qed.
Lemma check_values_same features m m' ns feature l : (∀ k, same_map_at m m' k) → ∀ map values found,
  check_values features m ns feature l map values found = check_values features m' ns feature l map values found.
Proof.
  intros Hm. induction l as [|x l IH]; intros map values found; cbn [check_values]; [done|].
  assert (Hv : ∀ v, check_value features m ns feature map v = check_value features m' ns feature map v).
  { intros v. unfold check_value. destruct (same_map_some m m' (value_dep v) (Hm _)) as [-> ->]. done. }
  rewrite Hv. destruct (check_value _ m' _ _ _ _); cbn; [apply IH|done..].
Qed.
Lemma new_same id id' ds ds' features links ns : PackageId.with_precise id None = PackageId.with_precise id' None → Forall2 same_dep ds ds' →
  unpinned <$> Summary.new id ds features links ns = unpinned <$> Summary.new id' ds' features links ns.
Proof.
  intros Hid Hds. unfold Summary.new.
  rewrite (foldM_same _ (check_dependency features ns) ds ds').
  2:{ eapply Forall2_impl; [exact Hds|]. intros d d' Hd b. unfold check_dependency. by destruct (same_dep_facts d d' Hd) as (-> & -> & ->). }
  destruct (foldM _ tt ds'); cbn; [|done..].
  assert (Hb : build_feature_map features ds ns = build_feature_map features ds' ns).
  { unfold build_feature_map. apply foldM_same. apply Forall_Forall2_diag, Forall_forall. intros [feature l] _ map. unfold check_feature.
    pose proof (build_dep_map_same ds ds' Hds) as Hm. destruct (same_map_some _ _ feature (Hm feature)) as [H1 H2].
    apply bind_same; [|intros found; by rewrite (check_values_same features _ _ ns feature l Hm)].
    unfold same_map_at in Hm. specialize (Hm feature).
    destruct (build_dep_map ds !! feature) as [l1|], (build_dep_map ds' !! feature) as [l2|]; [|by inversion Hm|by inversion Hm|done].
    cbn in H2. by rewrite H2. }
  rewrite Hb. destruct (build_feature_map features ds' ns); cbn; [|done..]. unfold unpinned. cbn. f_equal. rewrite Hid. f_equal.
  by apply (same_map unpinned_dep).
Qed.
End summaries.

Section pins.
Context `{SV : SemverLib} `{UL : UrlLib} `{RS : RustStd} `{LO : UnicodeLower} `{IJ : !IndexJson} `{RD : !RegistryData}.
Context (open_ro : path → cresult path).
Context `{RL : !RegistryDataLaws}.

(** * The lines of the index *)
Definition unpinned_entry (e : Summary * bool) : Summary * bool := (unpinned e.1, e.2).
Lemma parse_same name version id id' : unpinned_id id = unpinned_id id' →
  unpinned_dep <$> (Dependency.parse name version id None).1 = unpinned_dep <$> (Dependency.parse name version id' None).1.
Proof.
  intros Hid. unfold Dependency.parse, new_override. destruct version as [v|].
  - destruct (parse_req_with_deprecated name v None) as [[r| |] w]; cbn; [|done..]. destruct (String.eqb name ""); cbn; [done|].
    unfold unpinned_dep. cbn. by rewrite Hid.
  - cbn. destruct (String.eqb name ""); cbn; [done|]. unfold unpinned_dep. cbn. by rewrite Hid.
Qed.
Lemma into_dep_same rd id id' : unpinned_id id = unpinned_id id' → unpinned_dep <$> into_dep rd id = unpinned_dep <$> into_dep rd id'.
Proof.
  intros Hid. unfold into_dep. destruct (rd_registry rd) as [registry|]; [done|]. cbn [mbind res_mbind res_bind].
  pose proof (parse_same (default (rd_name rd) (rd_package rd)) (Some (rd_req rd)) id id' Hid) as H.
  destruct (Dependency.parse _ _ id None).1 as [d| |], (Dependency.parse _ _ id' None).1 as [d'| |]; cbn in H |- *; try discriminate H; [|congruence..].
  injection H as [Hi ->]%unpinned_dep_eq. destruct (parse_target (rd_target rd)); cbn; [|done..].
  destruct d, (rd_package rd); unfold unpinned_dep; cbn in *; unfold unpinned_id in *; by rewrite Hi.
Qed.
Lemma parse_entry_same line id id' : unpinned_id id = unpinned_id id' → unpinned_entry <$> parse_entry id line = unpinned_entry <$> parse_entry id' line.
Proof.
  intros Hid. unfold parse_entry, parse_registry_package. destruct (json_package line) as [p| |]; cbn; [|done..].
  assert (Hds := collect_same (λ d, into_dep d id) (λ d, into_dep d id') unpinned_dep (rp_deps p) (rp_deps p)
    ltac:(apply Forall_Forall2_diag, Forall_forall; intros d _; by apply into_dep_same) [] [] eq_refl).
  destruct (foldM _ [] (rp_deps p)) as [ds| |], (foldM _ [] (rp_deps p)) as [ds'| |]; cbn in Hds |- *; try discriminate Hds; [|congruence..].
  injection Hds as Hds. apply (same_map unpinned_dep) in Hds.
  pose proof (new_same (mkPackageId (rp_name p) (rp_vers p) id) (mkPackageId (rp_name p) (rp_vers p) id') ds ds' (rp_features p) (rp_links p) false
    ltac:(unfold PackageId.with_precise; cbn; unfold unpinned_id in Hid; by rewrite Hid) Hds) as H.
  destruct (Summary.new _ ds _ _ _) as [s| |], (Summary.new _ ds' _ _ _) as [s'| |]; cbn in H |- *; try discriminate H; [|congruence..].
  assert (Hs : unpinned s = unpinned s') by congruence.
  change (@Ok string _ (Summary.set_checksum (unpinned s) (rp_cksum p), default false (rp_yanked p)) =
          Ok (Summary.set_checksum (unpinned s') (rp_cksum p), default false (rp_yanked p))). by rewrite Hs.
Qed.

(** What is downloaded is known by name and version. *)
Context (Hdown : ∀ o p p', PackageId.with_precise p None = PackageId.with_precise p' None → is_crate_downloaded o p = is_crate_downloaded o p').
Lemma file_entries_same config o id id' lines : unpinned_id id = unpinned_id id' →
  fmap (M:=list) unpinned_entry <$> file_entries id config o lines = fmap (M:=list) unpinned_entry <$> file_entries id' config o lines.
Proof.
  intros Hid. induction lines as [|line lines IH]; cbn [file_entries]; [done|]. pose proof (parse_entry_same line id id' Hid) as H.
  destruct (parse_entry id line) as [e| |], (parse_entry id' line) as [e'| |]; cbn in H; try discriminate H; [|done|congruence].
  assert (Hk : RegistryIndex.kept config o e = RegistryIndex.kept config o e').
  { unfold RegistryIndex.kept. f_equal. apply Hdown. apply (f_equal (λ r : cresult (Summary * bool), match r with Ok e => sum_package_id e.1 | _ => sum_package_id e.1 end)) in H. exact H. }
  rewrite Hk. destruct (file_entries id config o lines), (file_entries id' config o lines); cbn in IH |- *; try discriminate IH; [|congruence..].
  destruct (RegistryIndex.kept config o e'); cbn; [|done]. congruence.
Qed.

(** * Queries *)
Definition shown (d : Dependency) (l : list (Summary * bool)) : list Summary := List.map fst (List.filter (not_yanked d) l).
Lemma visible_shown id d l : precise_for (sid_precise id) (dep_name d) = None → visible id d l = Ok (shown d l).
Proof.
  intros Hp. unfold visible, precise_keeps. rewrite Hp. fold (shown d l). induction (shown d l) as [|s m IH]; cbn [filter_res]; [done|].
  cbn. by rewrite IH.
Qed.
Lemma shown_same d l l' : unpinned_entry <$> l = unpinned_entry <$> l' → Forall2 same_summary (shown d l) (shown d l').
Proof.
  intros H. apply same_map in H. unfold shown. induction H as [|[s y] [s' y'] l l' H _ IH]; cbn [List.filter List.map]; [constructor|].
  pose proof (f_equal fst H : unpinned s = unpinned s') as H1. pose proof (f_equal snd H : y = y') as ->. unfold not_yanked. cbn [snd]. destruct (_ || _); [|done]. cbn. by constructor.
Qed.
Lemma matching_same d l l' : Forall2 same_summary l l' → Forall2 same_summary (matching d l) (matching d l').
Proof.
  induction 1 as [|s s' l l' H _ IH]; [constructor|]. unfold matching in *. cbn [List.filter].
  assert (Hm : matches_id d (sum_package_id s) = matches_id d (sum_package_id s')).
  { destruct (same_summary_id _ _ H) as (_ & Hn & Hv & Hi). unfold matches_id, heqb. by rewrite Hn, Hv, Hi. }
  rewrite Hm. destruct (matches_id d (sum_package_id s')); [by constructor|done].
Qed.

(** Two sources for one registry, whose ids differ in their precise versions. *)
Record same_place (s s' : RegistrySource) : Prop := {
  sp_id : unpinned_id (rs_source_id s) = unpinned_id (rs_source_id s');
  sp_config : rs_config s = rs_config s';
  sp_updated : rs_updated s = rs_updated s';
  sp_locked : rs_index_locked s = rs_index_locked s';
  sp_data : alike (rs_ops s) (rs_ops s');
}.
Lemma listed_pins s s' o o' name : same_place s s' → alike o o' →
  fmap (M:=list) unpinned_entry <$> listed open_ro (fresh_index s o) name o = fmap (M:=list) unpinned_entry <$> listed open_ro (fresh_index s' o') name o'.
Proof.
  intros [Hid Hc _ Hl _] Ha. rewrite <-(listed_same open_ro (fresh_index s' o) (fresh_index s' o') name o o'); [|unfold fresh_index; by rewrite (alike_path _ _ Ha)|done].
  unfold listed, lock_root, fresh_index. cbn [index_new ri_locked ri_path ri_source_id ri_config]. rewrite <-Hc, <-Hl.
  destruct (prepare o).1; cbn [mbind res_mbind res_bind]; [|done..].
  destruct (if rs_index_locked s then _ else _) as [[root| |]|]; cbn [mbind res_mbind res_bind]; [|done..].
  destruct (raw_path _) as [raw| |]; cbn [mbind res_mbind res_bind]; [|done..].
  destruct (first_file _ _ _) as [[c|]| |]; cbn [mbind res_mbind res_bind]; [|done..].
  destruct (valid_utf8 c); [|done]. by apply file_entries_same.
Qed.
Lemma read_now_pins s s' o o' d : same_place s s' → alike o o' →
  precise_for (sid_precise (rs_source_id s)) (dep_name d) = None → precise_for (sid_precise (rs_source_id s')) (dep_name d) = None →
  told (read_now open_ro s o d) = told (read_now open_ro s' o' d).
Proof.
  intros Hs Ha Hp Hp'. pose proof (listed_pins s s' o o' (dep_name d) Hs Ha) as H. unfold read_now.
  destruct (listed open_ro (fresh_index s o) _ _) as [l| |], (listed open_ro (fresh_index s' o') _ _) as [l'| |];
    cbn in H |- *; try discriminate H; [|congruence..]. rewrite !visible_shown by done. injection H as H.
  apply (f_equal Ok), (same_map unpinned). by apply shown_same.
Qed.

(** A registry answers the same, but for the precise versions in source ids, whether
    it is named with a precise version or without, unless that version asks for one
    of the package in question ([cargo update --precise]). *)
Theorem answer_pins s s' d fuzzy : same_place s s' →
  precise_for (sid_precise (rs_source_id s)) (dep_name d) = None → precise_for (sid_precise (rs_source_id s')) (dep_name d) = None →
  source_ok open_ro s → source_ok open_ro s' → told (ask open_ro s d fuzzy).1 = told (ask open_ro s' d fuzzy).1.
Proof.
  intros Hs Hp Hp' Hok Hok'. destruct (ask_ok open_ro s d fuzzy Hok) as [-> _], (ask_ok open_ro s' d fuzzy Hok') as [-> _].
  destruct (alike_update _ _ (sp_data _ _ Hs)) as [Hu Hu'].
  pose proof (read_now_pins s s' _ _ d Hs (sp_data _ _ Hs) Hp Hp') as H1. pose proof (read_now_pins s s' _ _ d Hs Hu' Hp Hp') as H2.
  unfold answer. destruct (read_now open_ro s (rs_ops s) d) as [l| |], (read_now open_ro s' (rs_ops s') d) as [l'| |];
    cbn in H1 |- *; try discriminate H1; [|congruence..].
  destruct fuzzy; [done|]. injection H1 as H1. apply (same_map unpinned) in H1. apply (matching_same d) in H1.
  rewrite <-(sp_updated _ _ Hs). destruct H1 as [|x x' m m' Hx Hm]; [|apply (f_equal Ok), (same_map unpinned); by constructor].
  destruct (is_precise d && _); [|done]. rewrite Hu. destruct (update_index (rs_ops s')).1; cbn; [|done..].
  destruct (read_now open_ro s _ d) as [k| |], (read_now open_ro s' _ d) as [k'| |]; cbn in H2 |- *; try discriminate H2; [|congruence..].
  injection H2 as H2. apply (same_map unpinned) in H2. apply (f_equal Ok), (same_map unpinned). by apply matching_same.
Qed.
End pins.

(** The data of a remote and of a local registry know what is downloaded by name
    and version, as [Hdown] asks. *)
Section data.
Context `{SV : SemverLib} `{UL : UrlLib} `{!GitLib}.
Context (open_rw : path → cresult path) (http : cresult unit).
Context (read_bytes : path → cresult string) (is_dir : path → bool).
Lemma remote_pins (o : RemoteRegistry) p p' : PackageId.with_precise p None = PackageId.with_precise p' None →
  is_crate_downloaded (RegistryData:=remote_data open_rw http) o p =
  is_crate_downloaded (RegistryData:=remote_data open_rw http) o p'.
Proof. destruct p, p'. intros [= -> -> _ _ _ _]. done. Qed.
Lemma local_pins (o : LocalRegistry) p p' : PackageId.with_precise p None = PackageId.with_precise p' None →
  is_crate_downloaded (RegistryData:=local_data read_bytes is_dir) o p = is_crate_downloaded (RegistryData:=local_data read_bytes is_dir) o p'.
Proof. done. Qed.
End data.
