(* ===== verification/Fingerprint.v ===== *)
(** Fingerprints of units of compilation, [src/cargo/core/compiler/fingerprint.rs]:
    what they record, their hash and its memo, how they are written and read back,
    and the comparison that decides whether a unit is fresh.  A fingerprint is
    shared ([Arc]) and its memo and times are changed in place, so that it is an
    address of a store. *)
From Stdlib Require Import NArith ZArith.
From S2P Require Import Prelude Str Extern Path Features.

Local Open Scope string_scope.

(** * Hexadecimal text: [to_hex] of [src/cargo/util/hex.rs] *)

(** The crate [hex]; different bytes have different texts. *)
Class HexLib := { hex_encode : list N → string }.
Class HexLaws `{HL : HexLib} := {
  hex_encode_inj l m : Forall (λ x, x < 256)%N l → Forall (λ x, x < 256)%N m → hex_encode l = hex_encode m → l = m;
}.
Definition as_u8 (n : N) : N := N.land n 255.
Definition to_hex `{HL : HexLib} (num : N) : string :=
  hex_encode (List.map (λ k, as_u8 (N.shiftr num k)) [0; 8; 16; 24; 32; 40; 48; 56]%N).

(** Two digits for each byte. *)
Definition hex_digit (n : N) : ascii := if (n <? 10)%N then ascii_of_N (48 + n) else ascii_of_N (87 + n).
Definition hex_byte (b : N) : string := String (hex_digit (b / 16)) (String (hex_digit (b mod 16)) EmptyString).
Definition two_digits : HexLib := {| hex_encode l := join "" (List.map hex_byte l) |}.
Example to_hex_1 : to_hex (HL:=two_digits) 258 = "0201000000000000" ∧ to_hex (HL:=two_digits) 175 = "af00000000000000".
Proof. split; vm_eq. Qed.

(** * Data *)

(** [filetime::FileTime]: seconds and nanoseconds, in lexicographic order. *)
Record FileTime := mkTime { seconds : Z; nanoseconds : N }.
#[global] Instance FileTime_eq_dec : EqDecision FileTime.
Proof. solve_decision. Defined.
Definition time_ltb (a b : FileTime) : bool :=
  (seconds a <? seconds b)%Z || ((seconds a =? seconds b)%Z && (nanoseconds a <? nanoseconds b)%N).
Definition time_leb (a b : FileTime) : bool := negb (time_ltb b a).

(** [enum LocalFingerprint]; the slot of a time may be set later. *)
Inductive LocalFingerprint :=
| Precalculated (s : string)
| MtimeBased (slot : option FileTime) (p : path)
| EnvBased (key : string) (value : option string).
#[global] Instance LocalFingerprint_eq_dec : EqDecision LocalFingerprint.
Proof. solve_decision. Defined.
(** [LocalFingerprint::mtime] *)
Definition mtime_local (root : path) (mtime : option FileTime) (p : path) : cresult LocalFingerprint :=
  if is_absolute p then Ok (MtimeBased mtime (default p (strip_prefix p root)))
  else Panic "assertion failed: path.is_absolute()".

(** [struct Fingerprint]; a dependency is its package id, its extern name, and the
    address of its fingerprint. *)
Abbreviation loc := nat.
Record Fingerprint := mkFingerprint {
  rustc : N;
  features : string;
  target : N;
  profile : N;
  fp_path : N;
  deps : list (string * string * loc);
  local : list LocalFingerprint;
  memoized_hash : option N;
  rustflags : list string;
  edition : Edition;
}.
Abbreviation Store := (list Fingerprint).
Definition set_memo (h : option N) (f : Fingerprint) : Fingerprint :=
  mkFingerprint (rustc f) (features f) (target f) (profile f) (fp_path f) (deps f) (local f) h (rustflags f) (edition f).
Definition set_local (l : list LocalFingerprint) (f : Fingerprint) : Fingerprint :=
  mkFingerprint (rustc f) (features f) (target f) (profile f) (fp_path f) (deps f) l (memoized_hash f) (rustflags f) (edition f).
Definition set_deps (d : list (string * string * loc)) (f : Fingerprint) : Fingerprint :=
  mkFingerprint (rustc f) (features f) (target f) (profile f) (fp_path f) d (local f) (memoized_hash f) (rustflags f) (edition f).

(** What is fed to the hasher, and what is written as JSON: the dependencies are
    their hashes. *)
Record Content := mkContent {
  c_rustc : N;
  c_features : string;
  c_target : N;
  c_path : N;
  c_profile : N;
  c_local : list LocalFingerprint;
  c_edition : Edition;
  c_rustflags : list string;
  c_deps : list (string * string * N);
}.
Definition content_of (f : Fingerprint) (ds : list (string * string * N)) : Content :=
  mkContent (rustc f) (features f) (target f) (fp_path f) (profile f) (local f) (edition f) (rustflags f) ds.

Section fingerprint.
Context `{HL : HexLib}.
(** [util::hash_u64] at fingerprints, and [serde_json] at their form. *)
Context (hash_u64 : Content → N) (json_write : Content → cresult string) (json_read : string → cresult Content).
(** [{:?}] of times, texts and paths. *)
Context (debug_time : option FileTime → string) (debug_value : option string → string) (debug_path : path → string).

(** * [Fingerprint::hash] *)
Fixpoint hash_deps (h : Store → loc → option (N * Store)) (st : Store) (ds : list (string * string * loc))
    : option (list (string * string * N) * Store) :=
  match ds with
  | [] => Some ([], st)
  | (pkg_id, name, a) :: ds =>
      '(x, st) ← h st a; '(xs, st) ← hash_deps h st ds;
      Some ((pkg_id, name, x) :: xs, st)
  end.
Fixpoint hash (fuel : nat) (st : Store) (a : loc) : option (N * Store) :=
  match fuel with
  | O => None
  | S fuel =>
      f ← st !! a;
      match memoized_hash f with
      | Some s => Some (s, st)
      | None =>
          '(ds, st) ← hash_deps (hash fuel) st (deps f);
          let ret := hash_u64 (content_of f ds) in
          Some (ret, alter (set_memo (Some ret)) a st)
      end
  end.

(** * [Fingerprint::compare] *)
Definition same (b : bool) (msg : string) : cresult unit := if b then Ok tt else Err msg.
Definition compare_local (new old : LocalFingerprint) : cresult unit :=
  match new, old with
  | Precalculated a, Precalculated b =>
      same (String.eqb a b) ("precalculated components have changed: " ++ a ++ " != " ++ b)
  | MtimeBased on_disk ap, MtimeBased previously_built bp =>
      let should_rebuild := match on_disk, previously_built with
                            | None, None => false
                            | Some _, None | None, Some _ => true
                            | Some on_disk, Some previously_built => time_ltb previously_built on_disk
                            end in
      same (negb should_rebuild)
           ("mtime based components have changed: previously " ++ debug_time previously_built ++ " now " ++ debug_time on_disk ++
            ", paths are " ++ debug_path ap ++ " and " ++ debug_path bp)
  | EnvBased akey avalue, EnvBased bkey bvalue =>
      _ ← same (String.eqb akey bkey) ("env vars changed: " ++ akey ++ " != " ++ bkey);
      same (bool_decide (avalue = bvalue))
           ("env var `" ++ akey ++ "` changed: previously " ++ debug_value bvalue ++ " now " ++ debug_value avalue)
  | _, _ => Err "local fingerprint type has changed"
  end.
(** [iter().zip(..)] *)
Fixpoint compare_locals (new old : list LocalFingerprint) : cresult unit :=
  match new, old with
  | a :: new, b :: old => _ ← compare_local a b; compare_locals new old
  | _, _ => Ok tt
  end.
Definition compare_fields (new old : Fingerprint) : cresult unit :=
  _ ← same (rustc new =? rustc old)%N "rust compiler has changed";
  _ ← same (String.eqb (features new) (features old)) ("features have changed: " ++ features new ++ " != " ++ features old);
  _ ← same (target new =? target old)%N "target configuration has changed";
  _ ← same (fp_path new =? fp_path old)%N "path to the compiler has changed";
  _ ← same (profile new =? profile old)%N "profile configuration has changed";
  _ ← same (bool_decide (rustflags new = rustflags old)) "RUSTFLAGS has changed";
  _ ← same (length (local new) =? length (local old))%nat "local lens changed";
  _ ← same (bool_decide (edition new = edition old)) "edition changed";
  _ ← compare_locals (local new) (local old);
  same (length (deps new) =? length (deps old))%nat "number of dependencies has changed".
Fixpoint compare_deps (fuel : nat) (st : Store) (new old : list (string * string * loc)) : option (cresult unit * Store) :=
  match new, old with
  | (aid, aname, a) :: new, (bid, bname, b) :: old =>
      let differ := "new (" ++ aid ++ ") != old (" ++ bid ++ ")" in
      if negb (String.eqb aname bname) then Some (Err differ, st)
      else '(x, st) ← hash fuel st a; '(y, st) ← hash fuel st b;
           if negb (x =? y)%N then Some (Err differ, st) else compare_deps fuel st new old
  | _, _ => Some (Ok tt, st)
  end.
Definition compare (fuel : nat) (st : Store) (new old : Fingerprint) : option (cresult unit * Store) :=
  match compare_fields new old with
  | Ok _ => compare_deps fuel st (deps new) (deps old)
  | e => Some (e, st)
  end.

(** * On disk *)

(** [deserialize_deps]: a fingerprint of which only the hash is known. *)
Definition stub (h : N) : Fingerprint := mkFingerprint 0 "" 0 0 0 [] [Precalculated ""] (Some h) [] Edition2015.
Fixpoint stub_deps (n : loc) (ds : list (string * string * N)) : list (string * string * loc) * Store :=
  match ds with
  | [] => ([], [])
  | (pkg_id, name, h) :: ds => let '(d, s) := stub_deps (S n) ds in ((pkg_id, name, n) :: d, stub h :: s)
  end.
Definition read_back (n : loc) (c : Content) : Fingerprint * Store :=
  let '(ds, stubs) := stub_deps n (c_deps c) in
  (mkFingerprint (c_rustc c) (c_features c) (c_target c) (c_profile c) (c_path c) ds (c_local c) None (c_rustflags c) (c_edition c), stubs).
(** [serde_json::to_vec]: the dependencies are written as their hashes. *)
Definition serialized (fuel : nat) (st : Store) (a : loc) : option (Content * Store) :=
  f ← st !! a; '(ds, st) ← hash_deps (hash fuel) st (deps f); Some (content_of f ds, st).

(** [write_fingerprint]: the texts of its two files. *)
Definition write_fingerprint (fuel : nat) (st : Store) (a : loc) : option ((string * cresult string) * Store) :=
  '(h, st) ← hash fuel st a; '(c, st) ← serialized fuel st a;
  Some ((to_hex h, match json_write c with
                   | Err _ => Panic "called `Result::unwrap()` on an `Err` value"
                   | r => r
                   end), st).
(** The comparison with the fingerprint read back, which is dropped at the end. *)
Definition compare_loaded (fuel : nat) (st : Store) (a : loc) (c : Content) : option (cresult unit * Store) :=
  let '(old, stubs) := read_back (length st) c in
  f ← st !! a;
  '(r, st') ← compare fuel (st ++ stubs) f old;
  Some (r, take (length st) st').
(** [compare_old_fingerprint], given what reading the two files gives. *)
Definition compare_old_fingerprint (fuel : nat) (st : Store) (a : loc) (short json : cresult string) : option (cresult unit * Store) :=
  match short with
  | Err e => Some (Err e, st)
  | Panic m => Some (Panic m, st)
  | Ok old_short =>
      '(new_hash, st) ← hash fuel st a;
      if String.eqb (to_hex new_hash) old_short then Some (Ok tt, st)
      else match (json ← json; chain_err "failed to deserialize json" (json_read json)) with
           | Err e => Some (Err e, st)
           | Panic m => Some (Panic m, st)
           | Ok c => compare_loaded fuel st a c
           end
  end.

(** * [update_local]: the times of files that exist now; those of an unfinished
    update stay, with the hash from before. *)
Fixpoint update_locals (root : path) (mtime : path → cresult FileTime) (ls : list LocalFingerprint)
    : cresult unit * list LocalFingerprint * bool :=
  match ls with
  | [] => (Ok tt, [], false)
  | MtimeBased slot p :: rest =>
      match mtime (path_join root p) with
      | Ok t => let '(r, rest, _) := update_locals root mtime rest in (r, MtimeBased (Some t) p :: rest, true)
      | Err e => (Err e, ls, false)
      | Panic m => (Panic m, ls, false)
      end
  | l :: rest => let '(r, rest, b) := update_locals root mtime rest in (r, l :: rest, b)
  end.
Definition update_local (root : path) (mtime : path → cresult FileTime) (f : Fingerprint) : cresult unit * Fingerprint :=
  let '(r, ls, hash_busted) := update_locals root mtime (local f) in
  let f := set_local ls f in
  match r with
  | Ok _ => (Ok tt, if hash_busted then set_memo None f else f)
  | e => (e, f)
  end.

(** * The hash without the memo *)
Fixpoint value_deps (v : loc → option N) (ds : list (string * string * loc)) : option (list (string * string * N)) :=
  match ds with
  | [] => Some []
  | (pkg_id, name, a) :: ds => x ← v a; xs ← value_deps v ds; Some ((pkg_id, name, x) :: xs)
  end.
Fixpoint value_at (fuel : nat) (st : Store) (a : loc) : option N :=
  match fuel with
  | O => None
  | S fuel => f ← st !! a; ds ← value_deps (value_at fuel st) (deps f); Some (hash_u64 (content_of f ds))
  end.
Definition value (st : Store) (a : loc) : option N := value_at (S a) st a.

(** Of the first [n] fingerprints: dependencies are older, and a memo is the hash. *)
Record wf (n : nat) (st : Store) : Prop := {
  wf_length : (n ≤ length st)%nat;
  wf_deps a f d : (a < n)%nat → st !! a = Some f → d ∈ deps f → (d.2 < a)%nat;
}.
Definition settled (n : nat) (st : Store) : Prop :=
  ∀ a f h, (a < n)%nat → st !! a = Some f → memoized_hash f = Some h → value st a = Some h.
(** Stores that differ in the memos only. *)
Definition same_shape (st st' : Store) : Prop := set_memo None <$> st = set_memo None <$> st'.
#[global] Instance same_shape_equiv : Equivalence same_shape.
Proof. split; [done|by intros ??|]. intros ??? H1 H2. unfold same_shape in *. by rewrite H1. Qed.

(** * Facts about hexadecimal text *)
Lemma as_u8_lt n : (as_u8 n < 256)%N.
Proof. unfold as_u8. change 255%N with (N.ones 8). rewrite N.land_ones. by apply N.mod_lt. Qed.
Lemma to_hex_inj `{HX : !HexLaws} a b : (a < 2 ^ 64)%N → (b < 2 ^ 64)%N → to_hex a = to_hex b → a = b.
Proof.
  intros Ha Hb H.
  assert (Hm : (λ k, as_u8 (N.shiftr a k)) <$> [0; 8; 16; 24; 32; 40; 48; 56]%N = (λ k, as_u8 (N.shiftr b k)) <$> [0; 8; 16; 24; 32; 40; 48; 56]%N).
  { apply hex_encode_inj; [..|exact H]; apply Forall_forall; intros x (k & -> & _)%list_elem_of_fmap; apply as_u8_lt. }
  apply N.bits_inj. intros i. destruct (N.lt_ge_cases i 64) as [Hi|Hi].
  - assert (Hbit : ∀ n k, (i - k < 8 → k <= i → N.testbit (as_u8 (N.shiftr n k)) (i - k) = N.testbit n i)%N).
    { intros n k H1 H2. unfold as_u8. rewrite N.land_spec, N.shiftr_spec' by lia. change 255%N with (N.ones 8).
      rewrite N.ones_spec_low, andb_true_r by done. f_equal. lia. }
    assert (Hq : ∃ q, (i - 8 * q < 8 ∧ 8 * q <= i ∧ q < 8)%N).
    { exists (i / 8)%N. pose proof (N.Div0.mul_div_le i 8) as H1. pose proof (N.mul_succ_div_gt i 8 ltac:(done)) as H2.
      assert (H3 : (i / 8 < 8)%N) by (by apply N.Div0.div_lt_upper_bound). revert H1 H2 H3. generalize (i / 8)%N. lia. }
    destruct Hq as (q & Hq1 & Hq2 & Hq3).
    assert (Hk : (8 * q)%N ∈ [0; 8; 16; 24; 32; 40; 48; 56]%N).
    { apply list_elem_of_In. assert (Hc : (q = 0 ∨ q = 1 ∨ q = 2 ∨ q = 3 ∨ q = 4 ∨ q = 5 ∨ q = 6 ∨ q = 7)%N) by lia.
      destruct Hc as [->|[->|[->|[->|[->|[->|[->| ->]]]]]]]; cbn; tauto. }
    rewrite <-!(Hbit _ (8 * q)%N) by done. f_equal.
    apply list_elem_of_lookup in Hk as [p Hp]. apply (f_equal (.!! p)) in Hm. rewrite !list_lookup_fmap, Hp in Hm. by injection Hm.
  - rewrite !N.bits_above_log2; try done; (eapply N.lt_le_trans; [|exact Hi]).
    + destruct (N.eq_dec b 0%N) as [->|]; [done|]. by apply N.log2_lt_pow2; [lia|].
    + destruct (N.eq_dec a 0%N) as [->|]; [done|]. by apply N.log2_lt_pow2; [lia|].
Qed.

(** * The memo *)
Lemma same_shape_lookup st st' a f : same_shape st st' → st !! a = Some f → ∃ h, st' !! a = Some (set_memo h f).
Proof.
  intros H Hf. assert (Hn : (set_memo None <$> st) !! a = Some (set_memo None f)) by (by rewrite list_lookup_fmap, Hf).
  rewrite H, list_lookup_fmap in Hn. destruct (st' !! a) as [g|]; [|done]. exists (memoized_hash g).
  destruct f, g. cbn in *. by simplify_eq.
Qed.
Lemma same_shape_none st st' a : same_shape st st' → st !! a = None → st' !! a = None.
Proof. intros H. rewrite !lookup_ge_None. apply (f_equal length) in H. rewrite !length_fmap in H. lia. Qed.
Lemma same_shape_length st st' : same_shape st st' → length st' = length st.
Proof. intros H. apply (f_equal length) in H. by rewrite !length_fmap in H. Qed.
Lemma same_shape_alter st a h : same_shape st (alter (set_memo h) a st).
Proof.
  unfold same_shape. apply list_eq. intros i. rewrite !list_lookup_fmap. destruct (decide (i = a)) as [->|].
  - rewrite list_lookup_alter_eq. by destruct (st !! a).
  - by rewrite list_lookup_alter_ne.
Qed.
Lemma wf_same n st st' : same_shape st st' → wf n st → wf n st'.
Proof.
  intros Hs [Hl Hd]. split; [by rewrite (same_shape_length _ _ Hs)|]. intros a f d Ha Hf Hin.
  symmetry in Hs. destruct (same_shape_lookup _ _ _ _ Hs Hf) as [h Hh]. by apply (Hd a _ d Ha Hh).
Qed.

Lemma value_deps_ext (v w : loc → option N) ds : (∀ d, d ∈ ds → v d.2 = w d.2) → value_deps v ds = value_deps w ds.
Proof.
  induction ds as [|[[i n] a] ds IH]; intros H; cbn [value_deps]; [done|].
  rewrite IH by (intros d Hd; apply H; by constructor). pose proof (H (i, n, a) ltac:(constructor)) as He. cbn in He. by rewrite He.
Qed.
Lemma value_same fuel st st' a : same_shape st st' → value_at fuel st a = value_at fuel st' a.
Proof.
  intros Hs. revert a. induction fuel as [|fuel IH]; intros a; [done|]. cbn [value_at].
  destruct (st !! a) as [f|] eqn:Hf.
  - destruct (same_shape_lookup _ _ _ _ Hs Hf) as [h ->]. cbn [mbind option_bind].
    by rewrite (value_deps_ext _ (value_at fuel st') _ (λ d _, IH d.2)).
  - by rewrite (same_shape_none _ _ _ Hs Hf).
Qed.
Lemma settled_same n st st' : same_shape st st' → settled n st →
  (∀ a f, (a < n)%nat → st' !! a = Some f → memoized_hash f = None ∨ st !! a = Some f ∨ value st a = memoized_hash f) → settled n st'.
Proof.
  intros Hs Hst H a f h Ha Hf Hh. unfold value. rewrite <-(value_same _ _ _ a Hs). destruct (H a f Ha Hf) as [H1|[H1|H1]].
  - congruence.
  - by apply (Hst a f).
  - by rewrite <-Hh.
Qed.

(** Enough fuel is the address. *)
Lemma value_fuel n st a fuel : wf n st → (a < n)%nat → (a < fuel)%nat → value_at fuel st a = value st a ∧ is_Some (value st a).
Proof.
  intros Hwf. revert fuel. induction (lt_wf a) as [a _ IH]. intros fuel Ha Hfuel.
  destruct (lookup_lt_is_Some_2 st a) as [f Hf]; [pose proof (wf_length _ _ Hwf); lia|].
  assert (Hlt : ∀ d, d ∈ deps f → (d.2 < a)%nat) by (intros d; by apply (wf_deps _ _ Hwf a f)).
  assert (Heq : ∀ k, (a ≤ k)%nat → value_deps (value_at k st) (deps f) = value_deps (value st) (deps f)).
  { intros k Hk. apply value_deps_ext. intros d Hd. pose proof (Hlt d Hd). apply IH; lia. }
  unfold value. destruct fuel as [|fuel]; [lia|]. cbn [value_at]. rewrite Hf. cbn [mbind option_bind].
  rewrite !Heq by lia. split; [done|].
  assert (Hs : is_Some (value_deps (value st) (deps f))); [|destruct Hs as [ds ->]; by eexists].
  clear Heq. induction (deps f) as [|[[i m] b] ds IHd]; [by eexists|]. cbn [value_deps].
  destruct (IH b (Hlt (i, m, b) ltac:(constructor)) (S b)) as [_ [x Hx]]; [pose proof (Hlt (i, m, b) ltac:(constructor)); cbn in *; lia|lia|].
  rewrite Hx. cbn [mbind option_bind]. destruct IHd as [xs ->]; [intros d Hd; apply Hlt; by constructor|by eexists].
Qed.

Lemma value_step n st a f : wf n st → (a < n)%nat → st !! a = Some f →
  value st a = ds ← value_deps (value st) (deps f); Some (hash_u64 (content_of f ds)).
Proof.
  intros Hwf Ha Hf. unfold value at 1. cbn [value_at]. rewrite Hf. cbn [mbind option_bind].
  rewrite (value_deps_ext _ (value st)); [done|]. intros d Hd. pose proof (wf_deps _ _ Hwf a f d Ha Hf Hd). apply (value_fuel n); [done|lia|lia].
Qed.

(** What hashing leaves: memos that are hashes, and nothing past [n] is touched. *)
Record hashed (n : nat) (st st' : Store) : Prop := {
  hd_shape : same_shape st st';
  hd_settled : settled n st';
  hd_past a : (n ≤ a)%nat → st' !! a = st !! a;
}.
Lemma hashed_refl n st : settled n st → hashed n st st.
Proof. by split. Qed.
Lemma hashed_trans n st1 st2 st3 : hashed n st1 st2 → hashed n st2 st3 → hashed n st1 st3.
Proof. intros [H1 H2 H3] [H4 H5 H6]. split; [by etransitivity|done|]. intros a Ha. by rewrite H6, H3. Qed.
Lemma hashed_value n st st' a : hashed n st st' → value st' a = value st a.
Proof. intros [H _ _]. symmetry. by apply value_same. Qed.
Lemma hash_deps_spec n h ds : ∀ st, wf n st → settled n st →
  (∀ d st, d ∈ ds → wf n st → settled n st → ∃ x st', h st d.2 = Some (x, st') ∧ value st d.2 = Some x ∧ hashed n st st') →
  ∃ xs st', hash_deps h st ds = Some (xs, st') ∧ value_deps (value st) ds = Some xs ∧ hashed n st st'.
Proof.
  induction ds as [|[[i m] a] ds IH]; intros st Hwf Hst Hh; [exists [], st; by split_and!; [..|apply hashed_refl]|].
  destruct (Hh (i, m, a) st ltac:(constructor) Hwf Hst) as (x & st1 & H1 & H2 & H3). cbn [snd] in *.
  destruct (IH st1) as (xs & st2 & H4 & H5 & H6); [exact (wf_same n st st1 (hd_shape _ _ _ H3) Hwf)|exact (hd_settled _ _ _ H3)| |].
  { intros d st' Hd. apply Hh. by constructor. }
  exists ((i, m, x) :: xs), st2. cbn [hash_deps value_deps]. rewrite H1, H2. cbn [mbind option_bind]. rewrite H4. cbn [mbind option_bind].
  rewrite <-(value_deps_ext (value st1) (value st) ds) by (intros; by apply (hashed_value n)). rewrite H5.
  split_and!; [done..|]. by eapply hashed_trans.
Qed.
(** The memo does not show: hashing gives the hash, and leaves the store settled. *)
Lemma hash_spec n fuel : ∀ st a, wf n st → settled n st → (a < n)%nat → (a < fuel)%nat →
  ∃ h st', hash fuel st a = Some (h, st') ∧ value st a = Some h ∧ hashed n st st'.
Proof.
  induction fuel as [|fuel IH]; intros st a Hwf Hst Ha Hfuel; [lia|]. cbn [hash].
  destruct (lookup_lt_is_Some_2 st a) as [f Hf]; [pose proof (wf_length _ _ Hwf); lia|]. rewrite Hf. cbn [mbind option_bind].
  destruct (memoized_hash f) as [s|] eqn:Hm.
  { exists s, st. split_and!; [done|by apply (Hst a f)|by apply hashed_refl]. }
  assert (Hlt : ∀ d, d ∈ deps f → (d.2 < a)%nat) by (intros d; by apply (wf_deps _ _ Hwf a f)).
  destruct (hash_deps_spec n (hash fuel) (deps f) st Hwf Hst) as (xs & st1 & H1 & H2 & H3).
  { intros d st0 Hd Hwf0 Hst0. pose proof (Hlt d Hd). apply IH; [done..|lia|lia]. }
  rewrite H1. cbn [mbind option_bind]. eexists _, _. split; [done|].
  assert (Hv : value st a = Some (hash_u64 (content_of f xs))).
  { by rewrite (value_step n st a f), H2 by done. }
  split; [done|]. eapply hashed_trans; [exact H3|]. split.
  - apply same_shape_alter.
  - apply (settled_same n st1); [apply same_shape_alter|exact (hd_settled _ _ _ H3)|]. intros b g Hb.
    destruct (decide (b = a)) as [->|Hne]; [|rewrite list_lookup_alter_ne by done; by right; left].
    rewrite list_lookup_alter_eq. destruct (st1 !! a); intros [= <-]. right; right. by rewrite (hashed_value n st).
  - intros b Hb. rewrite list_lookup_alter_ne by lia. done.
Qed.

(** * The hash the memos show

    A memo that is set answers for its fingerprint, right or not. *)
Fixpoint seen_at (fuel : nat) (st : Store) (a : loc) : option N :=
  match fuel with
  | O => None
  | S fuel =>
      f ← st !! a;
      match memoized_hash f with
      | Some h => Some h
      | None => ds ← value_deps (seen_at fuel st) (deps f); Some (hash_u64 (content_of f ds))
      end
  end.
Definition seen (st : Store) (a : loc) : option N := seen_at (S a) st a.
(** What is recorded of a fingerprint: its dependencies with the hashes seen. *)
Definition recorded_at (st : Store) (a : loc) : option Content :=
  f ← st !! a; ds ← value_deps (seen st) (deps f); Some (content_of f ds).

Lemma value_deps_some (v : loc → option N) ds : (∀ d, d ∈ ds → is_Some (v d.2)) → is_Some (value_deps v ds).
Proof.
  induction ds as [|[[i m] b] ds IH]; intros H; [by eexists|]. cbn [value_deps].
  destruct (H (i, m, b) ltac:(constructor)) as [x Hx]. cbn in Hx. rewrite Hx. cbn [mbind option_bind].
  destruct IH as [xs ->]; [intros d Hd; apply H; by constructor|by eexists].
Qed.
Lemma seen_fuel n st a fuel : wf n st → (a < n)%nat → (a < fuel)%nat → seen_at fuel st a = seen st a ∧ is_Some (seen st a).
Proof.
  intros Hwf. revert fuel. induction (lt_wf a) as [a _ IH]. intros fuel Ha Hfuel.
  destruct (lookup_lt_is_Some_2 st a) as [f Hf]; [pose proof (wf_length _ _ Hwf); lia|].
  assert (Hlt : ∀ d, d ∈ deps f → (d.2 < a)%nat) by (intros d; by apply (wf_deps _ _ Hwf a f)).
  assert (Heq : ∀ k, (a ≤ k)%nat → value_deps (seen_at k st) (deps f) = value_deps (seen st) (deps f)).
  { intros k Hk. apply value_deps_ext. intros d Hd. pose proof (Hlt d Hd). apply IH; lia. }
  unfold seen. destruct fuel as [|fuel]; [lia|]. cbn [seen_at]. rewrite Hf. cbn [mbind option_bind].
  destruct (memoized_hash f); [by split|]. rewrite !Heq by lia. split; [done|].
  destruct (value_deps_some (seen st) (deps f)) as [ds ->]; [|by eexists].
  intros d Hd. pose proof (Hlt d Hd). apply (IH d.2) with (fuel := S d.2); lia.
Qed.
Lemma seen_step n st a f : wf n st → (a < n)%nat → st !! a = Some f →
  seen st a = match memoized_hash f with Some h => Some h | None => ds ← value_deps (seen st) (deps f); Some (hash_u64 (content_of f ds)) end.
Proof.
  intros Hwf Ha Hf. unfold seen at 1. cbn [seen_at]. rewrite Hf. cbn [mbind option_bind]. destruct (memoized_hash f); [done|].
  rewrite (value_deps_ext _ (seen st)); [done|]. intros d Hd. pose proof (wf_deps _ _ Hwf a f d Ha Hf Hd). apply (seen_fuel n); [done|lia|lia].
Qed.

(** Hashing does not change what is seen. *)
Record kept (n : nat) (st st' : Store) : Prop := {
  kp_shape : same_shape st st';
  kp_seen a : (a < n)%nat → seen st' a = seen st a;
}.
Lemma kept_transitive n st1 st2 st3 : kept n st1 st2 → kept n st2 st3 → kept n st1 st3.
Proof. intros [H1 H2] [H3 H4]. split; [by etransitivity|]. intros a Ha. by rewrite H4, H2. Qed.
Lemma kept_memo n st a h : wf n st → (a < n)%nat → seen st a = Some h → kept n st (alter (set_memo (Some h)) a st).
Proof.
  intros Hwf Ha Hh. split; [apply same_shape_alter|]. intros b. induction (lt_wf b) as [b _ IH]. intros Hb.
  assert (Hwf' : wf n (alter (set_memo (Some h)) a st)) by exact (wf_same n _ _ (same_shape_alter _ _ _) Hwf).
  destruct (lookup_lt_is_Some_2 st b) as [f Hf]; [pose proof (wf_length _ _ Hwf); lia|]. destruct (decide (b = a)) as [->|Hne].
  - rewrite (seen_step n _ a (set_memo (Some h) f)); [by rewrite Hh|done|done|]. by rewrite list_lookup_alter_eq, Hf.
  - assert (Hf' : alter (set_memo (Some h)) a st !! b = Some f) by (by rewrite list_lookup_alter_ne).
    rewrite (seen_step n _ b f Hwf' Hb Hf'), (seen_step n _ b f Hwf Hb Hf). destruct (memoized_hash f); [done|].
    rewrite (value_deps_ext _ (seen st)); [done|]. intros d Hd. pose proof (wf_deps _ _ Hwf b f d Hb Hf Hd). apply IH; lia.
Qed.
Lemma hash_deps_seen n h ds : ∀ st, wf n st → (∀ d, d ∈ ds → (d.2 < n)%nat) →
  (∀ d st, d ∈ ds → wf n st → ∃ x st', h st d.2 = Some (x, st') ∧ seen st d.2 = Some x ∧ kept n st st') →
  ∃ xs st', hash_deps h st ds = Some (xs, st') ∧ value_deps (seen st) ds = Some xs ∧ kept n st st'.
Proof.
  induction ds as [|[[i m] a] ds IH]; intros st Hwf Hlt Hh; [by exists [], st|].
  destruct (Hh (i, m, a) st ltac:(constructor) Hwf) as (x & st1 & H1 & H2 & H3). cbn [snd] in *.
  destruct (IH st1) as (xs & st2 & H4 & H5 & H6); [exact (wf_same n st st1 (kp_shape _ _ _ H3) Hwf)|intros d Hd; apply Hlt; by constructor| |].
  { intros d st' Hd. apply Hh. by constructor. }
  exists ((i, m, x) :: xs), st2. cbn [hash_deps value_deps]. rewrite H1, H2. cbn [mbind option_bind]. rewrite H4. cbn [mbind option_bind].
  rewrite <-(value_deps_ext (seen st1) (seen st) ds) by (intros d Hd; apply (kp_seen _ _ _ H3), Hlt; by constructor). rewrite H5.
  split_and!; [done..|]. by eapply kept_transitive.
Qed.
Lemma hash_seen n fuel : ∀ st a, wf n st → (a < n)%nat → (a < fuel)%nat →
  ∃ h st', hash fuel st a = Some (h, st') ∧ seen st a = Some h ∧ kept n st st'.
Proof.
  induction fuel as [|fuel IH]; intros st a Hwf Ha Hfuel; [lia|]. cbn [hash].
  destruct (lookup_lt_is_Some_2 st a) as [f Hf]; [pose proof (wf_length _ _ Hwf); lia|]. rewrite (seen_step n st a f Hwf Ha Hf), Hf.
  cbn [mbind option_bind]. destruct (memoized_hash f) as [s|] eqn:Hm; [by exists s, st|].
  assert (Hlt : ∀ d, d ∈ deps f → (d.2 < a)%nat) by (intros d; by apply (wf_deps _ _ Hwf a f)).
  destruct (hash_deps_seen n (hash fuel) (deps f) st Hwf) as (xs & st1 & H1 & H2 & H3).
  { intros d Hd. pose proof (Hlt d Hd). lia. }
  { intros d st0 Hd Hwf0. pose proof (Hlt d Hd). apply IH; [done|lia|lia]. }
  rewrite H1, H2. cbn [mbind option_bind]. eexists _, _. split; [done|]. split; [done|]. eapply kept_transitive; [exact H3|].
  apply kept_memo; [exact (wf_same n st st1 (kp_shape _ _ _ H3) Hwf)|done|]. rewrite (kp_seen _ _ _ H3) by done.
  by rewrite (seen_step n st a f Hwf Ha Hf), Hm, H2.
Qed.
(** A store whose memos are right is seen as it is. *)
Lemma seen_settled n st a : wf n st → settled n st → (a < n)%nat → seen st a = value st a.
Proof.
  intros Hwf Hst. induction (lt_wf a) as [a _ IH]. intros Ha.
  destruct (lookup_lt_is_Some_2 st a) as [f Hf]; [pose proof (wf_length _ _ Hwf); lia|].
  rewrite (seen_step n st a f Hwf Ha Hf), (value_step n st a f Hwf Ha Hf). destruct (memoized_hash f) as [h|] eqn:Hm.
  - rewrite <-(value_step n st a f Hwf Ha Hf). symmetry. by apply (Hst a f).
  - rewrite (value_deps_ext _ (value st)); [done|]. intros d Hd. pose proof (wf_deps _ _ Hwf a f d Ha Hf Hd). apply IH; lia.
Qed.

(** * What the comparison establishes *)
Definition local_ok (new old : LocalFingerprint) : Prop :=
  match new, old with
  | Precalculated a, Precalculated b => a = b
  | MtimeBased None _, MtimeBased None _ => True
  | MtimeBased (Some now) _, MtimeBased (Some previously) _ => time_leb now previously = true
  | EnvBased a v, EnvBased b w => a = b ∧ v = w
  | _, _ => False
  end.
Definition dep_ok (new old : string * string * N) : Prop := new.1.2 = old.1.2 ∧ new.2 = old.2.
Record unchanged (st : Store) (new : Fingerprint) (old : Content) : Prop := {
  un_rustc : rustc new = c_rustc old;
  un_features : features new = c_features old;
  un_target : target new = c_target old;
  un_path : fp_path new = c_path old;
  un_profile : profile new = c_profile old;
  un_rustflags : rustflags new = c_rustflags old;
  un_edition : edition new = c_edition old;
  un_local : Forall2 local_ok (local new) (c_local old);
  un_deps : ∃ ds, value_deps (value st) (deps new) = Some ds ∧ Forall2 dep_ok ds (c_deps old);
}.
(** A comparison that either passes or fails with a message. *)
Definition decides (r : cresult unit) (P : Prop) : Prop := (r = Ok tt ∧ P) ∨ (∃ e, r = Err e ∧ ¬ P).

Lemma decides_iff r P Q : decides r P → (P ↔ Q) → decides r Q.
Proof. unfold decides. naive_solver. Qed.
Lemma decides_same b msg : decides (same b msg) (b = true).
Proof. destruct b; [by left|by right; eexists]. Qed.
Lemma decides_then r P k Q : decides r P → decides k Q → decides (_ ← r; k) (P ∧ Q).
Proof.
  intros [[-> HP]|(e & -> & HP)] Hk; cbn [mbind res_mbind res_bind]; [|right; exists e; naive_solver].
  apply (decides_iff _ _ _ Hk). naive_solver.
Qed.
Lemma time_leb_refl t : time_leb t t = true.
Proof. unfold time_leb, time_ltb. by rewrite Z.ltb_irrefl, N.ltb_irrefl, andb_false_r. Qed.
Lemma local_ok_refl l : local_ok l l.
Proof. destruct l as [|[|]|]; cbn -[time_leb]; auto using time_leb_refl. Qed.
Lemma compare_local_spec new old : decides (compare_local new old) (local_ok new old).
Proof.
  destruct new as [a|m p|k v], old as [b|o q|k' w]; cbn -[time_leb time_ltb same];
    try (by right; eexists; split; [done|]; try destruct m; tauto).
  - apply (decides_iff _ _ _ (decides_same _ _)). by rewrite String.eqb_eq.
  - apply (decides_iff _ _ _ (decides_same _ _)). destruct m, o; naive_solver.
  - apply (decides_iff _ _ _ (decides_then _ _ _ _ (decides_same _ _) (decides_same _ _))). by rewrite String.eqb_eq, bool_decide_eq_true.
Qed.
Lemma compare_locals_spec new : ∀ old, length new = length old → decides (compare_locals new old) (Forall2 local_ok new old).
Proof.
  induction new as [|a new IH]; intros [|b old] Hl; try done; cbn [compare_locals]; [left; by split|].
  apply (decides_iff _ _ _ (decides_then _ _ _ _ (compare_local_spec a b) (IH old ltac:(by injection Hl)))). by rewrite Forall2_cons.
Qed.
Lemma decides_guard b msg k (Q : Prop) : (b = true → decides k Q) → decides (_ ← same b msg; k) (b = true ∧ Q).
Proof.
  destruct b; cbn; intros H; [apply (decides_iff _ _ _ (H eq_refl)); tauto|].
  right. eexists. split; [done|]. by intros [? _].
Qed.
Definition same_fields (new old : Fingerprint) : Prop :=
  rustc new = rustc old ∧ features new = features old ∧ target new = target old ∧ fp_path new = fp_path old ∧
  profile new = profile old ∧ rustflags new = rustflags old ∧ edition new = edition old ∧
  Forall2 local_ok (local new) (local old) ∧ length (deps new) = length (deps old).
Lemma compare_fields_spec new old : decides (compare_fields new old) (same_fields new old).
Proof.
  unfold compare_fields, same_fields. eapply decides_iff.
  { do 6 (apply decides_then; [apply decides_same|]). apply decides_guard. intros Hl.
    apply decides_then; [apply decides_same|]. apply decides_then; [|apply decides_same].
    apply compare_locals_spec. by apply Nat.eqb_eq. }
  rewrite !N.eqb_eq, !String.eqb_eq, !bool_decide_eq_true, !Nat.eqb_eq.
  split; [tauto|]. intros H. assert (length (local new) = length (local old)) by (eapply Forall2_length; apply H). tauto.
Qed.

(** The fingerprints read back are past the others and stay as they are. *)
Lemma stub_deps_length k ds : length (stub_deps k ds).1 = length ds.
Proof. revert k. induction ds as [|[[i m] h] ds IH]; intros k; cbn; [done|]. specialize (IH (S k)). destruct (stub_deps (S k) ds); cbn in *; lia. Qed.
Lemma compare_deps_spec n fuel new : ∀ st k ds xs, wf n st → settled n st → (n ≤ k)%nat → (0 < fuel)%nat →
  (∀ d, d ∈ new → (d.2 < n)%nat ∧ (d.2 < fuel)%nat) → (∀ i g, (stub_deps k ds).2 !! i = Some g → st !! (k + i)%nat = Some g) →
  length new = length ds → value_deps (value st) new = Some xs →
  ∃ r st', compare_deps fuel st new (stub_deps k ds).1 = Some (r, st') ∧ hashed n st st' ∧ decides r (Forall2 dep_ok xs ds).
Proof.
  induction new as [|[[i m] a] new IH]; intros st k [|[[i' m'] y] ds] xs Hwf Hst Hk Hf Hn Hstubs Hl Hv; try done.
  { injection Hv as <-. eexists _, _. split_and!; [done|by apply hashed_refl|left; by split]. }
  cbn [stub_deps value_deps] in *. destruct (value st a) as [x|] eqn:Ha; [|done]. cbn [mbind option_bind] in Hv.
  destruct (value_deps (value st) new) as [xs'|] eqn:Hxs; [|done]. injection Hv as <-.
  destruct (stub_deps (S k) ds) as [d s] eqn:Hsd. cbn [fst snd] in *. cbn [compare_deps].
  destruct (String.eqb m m') eqn:Hm; cbn [negb].
  2:{ eexists _, _. split_and!; [done|by apply hashed_refl|]. right. eexists. split; [done|]. intros Hfa. inversion Hfa as [|???? [Hd _]]; subst.
      cbn in Hd. apply String.eqb_neq in Hm. done. }
  apply String.eqb_eq in Hm as <-. destruct (Hn (i, m, a) ltac:(constructor)) as [Hlt Hlf]. cbn in Hlt, Hlf.
  destruct (hash_spec n fuel st a Hwf Hst Hlt Hlf) as (x' & st1 & Hh & Hx & H1). rewrite Ha in Hx. injection Hx as <-.
  rewrite Hh. cbn [mbind option_bind]. destruct fuel as [|fuel]; [lia|].
  assert (Hstub : hash (S fuel) st1 k = Some (y, st1)).
  { cbn [hash]. rewrite (hd_past _ _ _ H1) by lia. pose proof (Hstubs 0%nat (stub y) eq_refl) as H0. rewrite Nat.add_0_r in H0. by rewrite H0. }
  rewrite Hstub. cbn [mbind option_bind]. destruct (N.eqb_spec x y) as [->|Hne]; cbn [negb].
  2:{ eexists _, _. split_and!; [done|done|]. right. eexists. split; [done|]. intros Hfa. by inversion Hfa as [|???? [_ Hd]]; subst. }
  destruct (IH st1 (S k) ds xs') as (r & st2 & H2 & H3 & H4); [exact (wf_same n st st1 (hd_shape _ _ _ H1) Hwf)|exact (hd_settled _ _ _ H1)|lia|lia| | | | |].
  - intros d' Hd'. apply Hn. by constructor.
  - intros j g Hj. rewrite Hsd in Hj. rewrite (hd_past _ _ _ H1) by lia. rewrite <-(Hstubs (S j) g Hj). f_equal. lia.
  - by injection Hl.
  - rewrite <-Hxs. apply value_deps_ext. intros. by apply (hashed_value n).
  - rewrite Hsd in H2. exists r, st2. split_and!; [exact H2|by eapply hashed_trans|]. apply (decides_iff _ _ _ H4).
    rewrite Forall2_cons. unfold dep_ok at 2. cbn. tauto.
Qed.

(** Fingerprints put behind the others are not seen by them. *)
Lemma lookup_before {A} n (st s : list A) a : (n ≤ length st)%nat → (a < n)%nat → (st ++ s)%list !! a = st !! a.
Proof. intros. apply lookup_app_l. lia. Qed.
Lemma value_app n st s fuel a : wf n st → (a < n)%nat → value_at fuel (st ++ s) a = value_at fuel st a.
Proof.
  intros Hwf. revert a. induction fuel as [|fuel IH]; intros a Ha; [done|]. cbn [value_at].
  rewrite (lookup_before n) by (done || apply (wf_length _ _ Hwf)). destruct (st !! a) as [f|] eqn:Hf; [|done]. cbn [mbind option_bind].
  rewrite (value_deps_ext _ (value_at fuel st)); [done|]. intros d Hd. apply IH. pose proof (wf_deps _ _ Hwf a f d Ha Hf Hd). lia.
Qed.
Lemma wf_app n st s : wf n st → wf n (st ++ s).
Proof.
  intros [Hl Hd]. split; [rewrite length_app; lia|]. intros a f d Ha. rewrite (lookup_before n) by done. by apply Hd.
Qed.
Lemma settled_app n st s : wf n st → settled n st → settled n (st ++ s).
Proof.
  intros Hwf Hst a f h Ha. rewrite (lookup_before n) by (done || apply (wf_length _ _ Hwf)). unfold value. rewrite (value_app n) by done. by apply Hst.
Qed.
Lemma hashed_take n st s st' : wf n st → settled n st → hashed n (st ++ s) st' → hashed n st (take (length st) st').
Proof.
  intros Hwf Hst [Hs Hset Hp]. assert (Hsh : same_shape st (take (length st) st')).
  { unfold same_shape in *. rewrite fmap_take, <-Hs, fmap_app. symmetry. apply take_app_length'. by rewrite length_fmap. }
  split; [done| |].
  - intros a f h Ha Hf Hh. pose proof (wf_length _ _ Hwf). rewrite lookup_take in Hf. pose proof (Hset a f h Ha) as Hv.
    rewrite decide_True in Hf by lia. specialize (Hv Hf Hh). unfold value in *. rewrite <-(value_same _ _ _ a Hs), (value_app n) in Hv by done.
    by rewrite <-(value_same _ _ _ a Hsh).
  - intros a Ha. rewrite lookup_take. case_decide as Hlt; [rewrite Hp by done; by apply lookup_app_l|]. symmetry. apply lookup_ge_None. lia.
Qed.

(** What is written is what is hashed. *)
Definition content_at (st : Store) (a : loc) : option Content :=
  f ← st !! a; ds ← value_deps (value st) (deps f); Some (content_of f ds).
Lemma content_value n st a : wf n st → (a < n)%nat → ∃ c, content_at st a = Some c ∧ value st a = Some (hash_u64 c).
Proof.
  intros Hwf Ha. destruct (value_fuel n st a (S a) Hwf Ha ltac:(lia)) as [_ [h Hh]].
  destruct (lookup_lt_is_Some_2 st a) as [f Hf]; [pose proof (wf_length _ _ Hwf); lia|]. pose proof (value_step n st a f Hwf Ha Hf) as Hv.
  unfold content_at. rewrite Hf. cbn [mbind option_bind]. rewrite Hh in Hv. destruct (value_deps (value st) (deps f)) as [ds|]; [|done].
  injection Hv as ->. by eexists.
Qed.
Lemma content_unchanged st a f c : st !! a = Some f → content_at st a = Some c → unchanged st f c.
Proof.
  intros Hf. unfold content_at. rewrite Hf. cbn [mbind option_bind]. destruct (value_deps (value st) (deps f)) as [ds|] eqn:Hds; [|done].
  intros [= <-]. split; try done; cbn.
  - apply Forall_Forall2_diag, Forall_forall. auto using local_ok_refl.
  - exists ds. split; [done|]. apply Forall_Forall2_diag, Forall_forall. by split.
Qed.
Lemma hashed_content n st st' a : wf n st → hashed n st st' → content_at st' a = content_at st a.
Proof.
  intros Hwf H. unfold content_at. destruct (st !! a) as [f|] eqn:Hf.
  - destruct (same_shape_lookup _ _ _ _ (hd_shape _ _ _ H) Hf) as [h ->]. cbn [mbind option_bind].
    by rewrite (value_deps_ext _ (value st) _ (λ d _, hashed_value n _ _ _ H)).
  - by rewrite (same_shape_none _ _ _ (hd_shape _ _ _ H) Hf).
Qed.
Lemma recorded_settled n st a : wf n st → settled n st → (a < n)%nat → recorded_at st a = content_at st a.
Proof.
  intros Hwf Hst Ha. unfold recorded_at, content_at. destruct (st !! a) as [f|] eqn:Hf; [|done]. cbn [mbind option_bind].
  rewrite (value_deps_ext _ (value st)); [done|]. intros d Hd. pose proof (wf_deps _ _ Hwf a f d Ha Hf Hd). apply (seen_settled n); [done|done|lia].
Qed.
Lemma write_spec n fuel st a c : wf n st → (a < n)%nat → (a < fuel)%nat → recorded_at st a = Some c → seen st a = Some (hash_u64 c) →
  ∃ st', write_fingerprint fuel st a = Some ((to_hex (hash_u64 c), match json_write c with
                                                                   | Err _ => Panic "called `Result::unwrap()` on an `Err` value"
                                                                   | r => r
                                                                   end), st') ∧ kept n st st'.
Proof.
  intros Hwf Ha Hfuel Hc Hs. destruct (hash_seen n fuel st a Hwf Ha Hfuel) as (h & st1 & H1 & H2 & H3).
  rewrite Hs in H2. injection H2 as <-. unfold write_fingerprint. rewrite H1. cbn [mbind option_bind].
  unfold recorded_at in Hc. destruct (st !! a) as [f|] eqn:Hf; [|done]. cbn [mbind option_bind] in Hc.
  destruct (value_deps (seen st) (deps f)) as [ds|] eqn:Hds; [|done]. injection Hc as <-.
  destruct (same_shape_lookup _ _ _ _ (kp_shape _ _ _ H3) Hf) as [m Hm].
  assert (Hwf1 : wf n st1) by exact (wf_same n _ _ (kp_shape _ _ _ H3) Hwf).
  assert (Hlt : ∀ d, d ∈ deps f → (d.2 < a)%nat) by (intros d; by apply (wf_deps _ _ Hwf a f)).
  destruct (hash_deps_seen n (hash fuel) (deps f) st1 Hwf1) as (xs & st2 & H4 & H5 & H6).
  { intros d Hd. pose proof (Hlt d Hd). lia. }
  { intros d st0 Hd Hwf0. pose proof (Hlt d Hd). apply hash_seen; [done|lia|lia]. }
  rewrite (value_deps_ext _ (seen st)), Hds in H5 by (intros d Hd; pose proof (Hlt d Hd); apply (kp_seen _ _ _ H3); lia). injection H5 as <-.
  exists st2. unfold serialized. rewrite Hm. cbn [mbind option_bind deps set_memo]. rewrite H4. cbn [mbind option_bind].
  split; [by destruct f|by eapply kept_transitive].
Qed.
(** The comparison field by field. *)
Lemma compare_spec n fuel st a f c st0 : wf n st → settled n st → (a < n)%nat → (a < fuel)%nat → st !! a = Some f → st0 = (st ++ (read_back (length st) c).2)%list →
  ∃ r st', compare fuel st0 f (read_back (length st) c).1 = Some (r, st') ∧ hashed n st0 st' ∧ decides r (unchanged st f c).
Proof.
  intros Hwf Hst Ha Hfuel Hf ->. unfold read_back. destruct (stub_deps (length st) (c_deps c)) as [ds stubs] eqn:Hsd. cbn [fst snd].
  set (old := mkFingerprint _ _ _ _ _ _ _ _ _ _). set (st0 := (st ++ stubs)%list).
  assert (Hwf0 : wf n st0) by by apply wf_app. assert (Hst0 : settled n st0) by by apply settled_app.
  assert (Hds : length ds = length (c_deps c)) by (rewrite <-(stub_deps_length (length st)), Hsd; done).
  assert (Hlt : ∀ d, d ∈ deps f → (d.2 < n)%nat ∧ (d.2 < fuel)%nat) by (intros d Hd; pose proof (wf_deps _ _ Hwf a f d Ha Hf Hd); lia).
  destruct (content_value n st a Hwf Ha) as (c' & Hc' & _). unfold content_at in Hc'. rewrite Hf in Hc'. cbn [mbind option_bind] in Hc'.
  destruct (value_deps (value st) (deps f)) as [xs|] eqn:Hxs; [|done]. clear c' Hc'.
  assert (Hvals : value_deps (value st0) (deps f) = Some xs).
  { rewrite <-Hxs. apply value_deps_ext. intros d Hd. apply (value_app n); [done|by apply Hlt]. }
  unfold compare. destruct (compare_fields_spec f old) as [[-> Hsame]|(e & -> & Hdiff)].
  - destruct Hsame as (H1 & H2 & H3 & H4 & H5 & H6 & H7 & H8 & H9). subst old. cbn in H1, H2, H3, H4, H5, H6, H7, H8, H9.
    destruct (compare_deps_spec n fuel (deps f) st0 (length st) (c_deps c) xs) as (r & st' & Hr & Hh & Hd); try done.
    + by apply wf_length.
    + lia.
    + intros i g Hi. rewrite Hsd in Hi. subst st0. rewrite lookup_app_r by lia. by replace (length st + i - length st)%nat with i by lia.
    + by rewrite H9.
    + rewrite Hsd in Hr. cbn [deps]. exists r, st'. split_and!; [done|done|]. apply (decides_iff _ _ _ Hd). split.
      * intros Hxd. split; try done. by exists xs.
      * intros [_ _ _ _ _ _ _ _ (xs' & Hxs' & Hok)]. rewrite Hxs in Hxs'. by injection Hxs' as <-.
  - eexists _, st0. split_and!; [done|by apply hashed_refl|]. right. exists e. split; [done|]. intros [H1 H2 H3 H4 H5 H6 H7 H8 (xs' & Hxs' & Hok)].
    apply Hdiff. subst old. unfold same_fields. cbn. rewrite Hds, <-(Forall2_length _ _ _ Hok). rewrite Hxs in Hxs'. injection Hxs' as <-.
    split_and!; try done. clear -Hxs. revert xs Hxs. induction (deps f) as [|[[i m] b] l IH]; intros xs; cbn [value_deps]; [by intros [= <-]|].
    destruct (value st b); [|done]. cbn [mbind option_bind]. destruct (value_deps (value st) l) as [ys|] eqn:Hys; [|done]. intros [= <-]. cbn. f_equal. by apply IH.
Qed.

Lemma unchanged_hashed n st st' f m c : hashed n st st' → unchanged st' (set_memo m f) c ↔ unchanged st f c.
Proof.
  intros Hhd. split; intros [? ? ? ? ? ? ? ? (ds & Hds & Hok)]; (split; [done..|]); exists ds;
    (split; [|done]); rewrite <-Hds; apply value_deps_ext; intros; cbn; [symmetry|]; by apply (hashed_value n).
Qed.
(** The comparison with any two texts returns, and changes memos only. *)
Lemma compare_read n fuel st0 st a f c : wf n st0 → hashed n st0 st → (a < n)%nat → (a < fuel)%nat → st0 !! a = Some f →
  ∃ r st', compare_loaded fuel st a c = Some (r, st') ∧ hashed n st0 st' ∧ decides r (unchanged st0 f c).
Proof.
  intros Hwf0 Hhd Ha Hfuel Hf. assert (Hwf : wf n st) by exact (wf_same n _ _ (hd_shape _ _ _ Hhd) Hwf0).
  pose proof (hd_settled _ _ _ Hhd) as Hst. destruct (same_shape_lookup _ _ _ _ (hd_shape _ _ _ Hhd) Hf) as [m Hm].
  destruct (compare_spec n fuel st a (set_memo m f) c _ Hwf Hst Ha Hfuel Hm eq_refl) as (r & st3 & H1 & H2 & H3).
  exists r, (take (length st) st3). unfold compare_loaded. destruct (read_back (length st) c) as [old stubs]. cbn [fst snd] in *.
  rewrite Hm. cbn [mbind option_bind]. rewrite H1. split_and!; [done| |].
  - eapply hashed_trans; [exact Hhd|]. exact (hashed_take n st _ st3 Hwf Hst H2).
  - apply (decides_iff _ _ _ H3). by apply (unchanged_hashed n).
Qed.
Lemma compare_old_returns n fuel st a short json : wf n st → settled n st → (a < n)%nat → (a < fuel)%nat →
  ∃ r st', compare_old_fingerprint fuel st a short json = Some (r, st') ∧ hashed n st st'.
Proof.
  intros Hwf Hst Ha Hfuel. destruct (lookup_lt_is_Some_2 st a) as [f Hf]; [pose proof (wf_length _ _ Hwf); lia|].
  destruct (hash_spec n fuel st a) as (h & st1 & Hh & _ & Hhd); try done. unfold compare_old_fingerprint.
  destruct short as [s| |]; [|eexists _, st; by split; [|apply hashed_refl]..]. rewrite Hh. cbn [mbind option_bind].
  destruct (String.eqb _ _); [by eexists _, st1|]. destruct (_ ≫= _) as [c| |]; [|by eexists _, st1..].
  destruct (compare_read n fuel st st1 a f c) as (r & st' & H1 & H2 & _); try done. by exists r, st'.
Qed.
Lemma compare_old_spec `{HX : !HexLaws} n fuel st a f c c1 text : wf n st → settled n st → (a < n)%nat → (a < fuel)%nat → st !! a = Some f →
  content_at st a = Some c → (hash_u64 c = hash_u64 c1 → c = c1) → (hash_u64 c < 2 ^ 64)%N → (hash_u64 c1 < 2 ^ 64)%N → json_read text = Ok c1 →
  ∃ r st', compare_old_fingerprint fuel st a (Ok (to_hex (hash_u64 c1))) (Ok text) = Some (r, st') ∧ decides r (unchanged st f c1) ∧ hashed n st st'.
Proof.
  intros Hwf Hst Ha Hfuel Hf Hc Hinj Hlt Hlt1 Hr. destruct (hash_spec n fuel st a) as (h & st1 & Hh & Hv & Hhd); try done.
  destruct (content_value n st a Hwf Ha) as (c' & Hc' & Hv'). rewrite Hc in Hc'. injection Hc' as <-. rewrite Hv in Hv'. injection Hv' as ->.
  unfold compare_old_fingerprint. rewrite Hh. cbn [mbind option_bind].
  destruct (String.eqb_spec (to_hex (hash_u64 c)) (to_hex (hash_u64 c1))) as [He|Hne].
  - exists (Ok tt), st1. split_and!; [done|left; split; [done|]|done]. apply to_hex_inj in He; [|done..]. apply Hinj in He as ->. by eapply content_unchanged.
  - cbn [mbind res_mbind res_bind chain_err map_err]. rewrite Hr. cbn [chain_err map_err].
    destruct (compare_read n fuel st st1 a f c1) as (r & st' & H1 & H2 & H3); try done. by exists r, st'.
Qed.

(** C17. A fingerprint that was written and is read back by a later build is fresh exactly when nothing it records
    changed: the compiler, features, target, path, profile, flags and edition are the same, every file time is no later
    than the one recorded (and known if it was known), every recorded text and variable is the same, and the
    dependencies have the same names and hashes in the same order.  The comparison always returns; it leaves a store
    that differs in memos only, each of them the hash.  When it is written, the memos of what it depends on may be wrong,
    as [update_local] leaves them, and then the hash they show is recorded; its own memo, if set, is the hash of what is
    recorded.  In the later build the memos that are set are right ([settled]), which planning keeps
    ([Freshness.prepare_target_spec]).  It is also assumed that the text written reads back, that hashes are 64 bits
    wide, and that the two fingerprints at hand do not collide. *)
Theorem fresh_iff `{HX : !HexLaws} n1 st1 a1 fuel1 c1 text n2 st2 a2 fuel2 f2 c2 :
  wf n1 st1 → (a1 < n1)%nat → (a1 < fuel1)%nat → recorded_at st1 a1 = Some c1 → seen st1 a1 = Some (hash_u64 c1) →
  json_write c1 = Ok text → json_read text = Ok c1 →
  wf n2 st2 → settled n2 st2 → (a2 < n2)%nat → (a2 < fuel2)%nat → st2 !! a2 = Some f2 → content_at st2 a2 = Some c2 →
  (hash_u64 c2 = hash_u64 c1 → c2 = c1) → (hash_u64 c1 < 2 ^ 64)%N → (hash_u64 c2 < 2 ^ 64)%N →
  ∃ short st1' r st2', write_fingerprint fuel1 st1 a1 = Some ((short, Ok text), st1') ∧
    compare_old_fingerprint fuel2 st2 a2 (Ok short) (Ok text) = Some (r, st2') ∧
    decides r (unchanged st2 f2 c1) ∧ hashed n2 st2 st2'.
Proof.
  intros Hwf1 Ha1 Hfuel1 Hc1 Hs1 Hw Hr Hwf2 Hst2 Ha2 Hfuel2 Hf2 Hc2 Hinj Hlt1 Hlt2.
  destruct (write_spec n1 fuel1 st1 a1 c1) as (st1' & Hwr & _); try done. rewrite Hw in Hwr.
  destruct (compare_old_spec n2 fuel2 st2 a2 f2 c2 c1 text) as (r & st2' & Hcmp & Hd & Hhd); try done. by eexists _, st1', r, st2'.
Qed.
End fingerprint.

(** * Sample runs *)
Lemma hex_digit_inj a b : (a < 16)%N → (b < 16)%N → hex_digit a = hex_digit b → a = b.
Proof.
  intros Ha Hb. assert (Hall : ∀ n, (n < 16)%N → ∃ i, (i < 16)%nat ∧ n = N.of_nat i) by (intros n Hn; exists (N.to_nat n); lia).
  destruct (Hall a Ha) as (i & Hi & ->), (Hall b Hb) as (j & Hj & ->). intros H. f_equal.
  do 16 (destruct i as [|i]; [do 16 (destruct j as [|j]; [done || by vm_compute in H|]); lia|]). lia.
Qed.
Lemma hex_byte_inj a b : (a < 256)%N → (b < 256)%N → hex_byte a = hex_byte b → a = b.
Proof.
  intros Ha Hb [H1 [H2 _]%String_inj]%String_inj.
  apply hex_digit_inj in H1; [|by apply N.Div0.div_lt_upper_bound..].
  apply hex_digit_inj in H2; [|by apply N.mod_lt..].
  rewrite (N.div_mod a 16), (N.div_mod b 16) by done. congruence.
Qed.
#[global] Instance two_digits_laws : HexLaws (HL:=two_digits).
Proof.
  split. cbn. induction l as [|a l IH]; intros [|b m] Hl Hm Heq; try done; cbn [List.map] in Heq.
  - destruct (List.map hex_byte m); discriminate Heq.
  - destruct (List.map hex_byte l); discriminate Heq.
  - assert (Hj : ∀ (x : string) r, join "" (x :: r) = x ++ join "" r) by (intros x [|y r]; cbn; [by rewrite app_nil_r_str|done]).
    rewrite !Hj in Heq. unfold hex_byte at 1 3 in Heq. cbn [String.append] in Heq.
    apply String_inj in Heq as [H1 [H2 H3]%String_inj]. inversion Hl; inversion Hm; subst. f_equal; [|by apply IH].
    apply hex_byte_inj; [done..|]. unfold hex_byte. by rewrite H1, H2.
Qed.
Local Existing Instance two_digits.
Definition time_code (t : option FileTime) : N := match t with Some t => 1 + Z.to_N (seconds t) * 1000000000 + nanoseconds t | None => 0 end.
Definition local_code (l : LocalFingerprint) : N :=
  match l with MtimeBased t _ => time_code t | Precalculated s => N.of_nat (String.length s) | EnvBased _ _ => 7 end.
(** A hash that tells apart what the runs below tell apart. *)
Definition sample_hash (c : Content) : N :=
  (foldl (λ h d, h * 31 + d.2) (foldl (λ h l, h * 31 + local_code l) (c_rustc c) (c_local c)) (c_deps c) mod 2 ^ 64)%N.
Definition sample_write (c : Content) : cresult string := Ok (to_hex (sample_hash c)).
(** A text reads as the one of [known] that it was written from. *)
Definition sample_read (known : list Content) (s : string) : cresult Content :=
  match List.find (λ c, String.eqb (to_hex (sample_hash c)) s) known with Some c => Ok c | None => Err "bad json" end.
Definition sample_fp (rustc : N) (ds : list (string * string * loc)) (l : LocalFingerprint) : Fingerprint :=
  mkFingerprint rustc "[]" 1 2 3 ds [l] None [] Edition2015.
Definition built : FileTime := mkTime 100 5.
Definition touched : FileTime := mkTime 101 0.
(** A library [e], and documentation [d] and [p] on top of it. *)
Definition e_fp (t : option FileTime) : Fingerprint := sample_fp 9 [] (MtimeBased t "dep-lib-e").
Definition sample_store (t : option FileTime) : Store :=
  [e_fp t; sample_fp 9 [("e", "e", 0%nat)] (Precalculated "d"); sample_fp 9 [("d", "d", 1%nat)] (Precalculated "p")].
Definition p_content (st : Store) : option Content := content_at sample_hash st 2.

(** The library has a memo that is wrong when [p] is written. *)
Definition stale_store : Store := alter (set_memo (Some 42%N)) 1%nat (sample_store (Some built)).
Lemma sample_wf t : wf 3 (sample_store t).
Proof.
  split; [done|]. intros a f d Ha Hf Hd. destruct a as [|[|[|a]]]; [| | |lia]; injection Hf as <-; cbn in Hd;
    [by apply elem_of_nil in Hd|apply list_elem_of_singleton in Hd as ->; cbn; lia..].
Qed.
Lemma sample_settled t : settled sample_hash 3 (sample_store t).
Proof. intros [|[|[|a]]] f h Ha Hf Hh; [..|lia]; injection Hf as <-; done. Qed.
Definition stale_content : Content := match recorded_at sample_hash stale_store 2 with Some c => c | None => mkContent 0 "" 0 0 0 [] Edition2015 [] [] end.
Definition touched_content : Content := match p_content (sample_store (Some touched)) with Some c => c | None => stale_content end.
Lemma fresh_iff_witness : ∃ short st1' r st2', c_deps stale_content = [("d", "d", 42%N)] ∧
  write_fingerprint sample_hash sample_write 3 stale_store 2 = Some ((short, sample_write stale_content), st1') ∧
  compare_old_fingerprint sample_hash (sample_read [stale_content]) (λ _, "") (λ _, "") id 3 (sample_store (Some touched)) 2
    (Ok short) (sample_write stale_content) = Some (r, st2') ∧
  decides r (unchanged sample_hash (sample_store (Some touched)) (sample_fp 9 [("d", "d", 1%nat)] (Precalculated "p")) stale_content) ∧
  hashed sample_hash 3 (sample_store (Some touched)) st2'.
Proof.
  assert (Hwf : wf 3 stale_store) by exact (wf_same 3 _ _ (same_shape_alter _ _ _) (sample_wf _)).
  destruct (fresh_iff sample_hash sample_write (sample_read [stale_content]) (λ _, "") (λ _, "") id 3 stale_store 2 3 stale_content
    (to_hex (sample_hash stale_content)) 3 (sample_store (Some touched)) 2 3 (sample_fp 9 [("d", "d", 1%nat)] (Precalculated "p")) touched_content
    Hwf ltac:(lia) ltac:(lia) eq_refl eq_refl eq_refl ltac:(vm_compute; reflexivity) (sample_wf _) (sample_settled _) ltac:(lia) ltac:(lia)
    eq_refl eq_refl ltac:(vm_compute; discriminate) ltac:(vm_compute; reflexivity) ltac:(vm_compute; reflexivity)) as (short & st1' & r & st2' & H).
  exists short, st1', r, st2'. split; [reflexivity|exact H].
Defined.

(** Two builds with no change between them.  In the first the library was touched; its dependants were hashed while the
    build was planned, the library was compiled and its time set, and the fingerprints were written in order. *)
Definition second_build (planned : bool) : option (cresult unit) :=
  let st := sample_store None in
  '(_, st) ← (if planned then hash sample_hash 3 st 2 else Some (0%N, st));
  let st := alter (λ f, (update_local "/target" (λ _, Ok built) f).2) 0%nat st in
  '(_, st) ← write_fingerprint sample_hash sample_write 3 st 0;
  '(_, st) ← write_fingerprint sample_hash sample_write 3 st 1;
  '((short, json), st) ← write_fingerprint sample_hash sample_write 3 st 2;
  '(c, _) ← serialized sample_hash 3 st 2;
  '(r, _) ← compare_old_fingerprint sample_hash (sample_read [c]) (λ _, "") (λ _, "") id 3 (sample_store (Some built)) 2 (Ok short) json;
  Some r.
(** [update_local] clears the memo of the fingerprint whose times it sets, not those of its dependants: the hash [d] had
    before is written for [p], and the second build finds [d] changed. *)
Example stale_memo : second_build true = Some (Err "new (d) != old (d)") ∧ second_build false = Some (Ok tt).
Proof. split; vm_eq. Qed.
