(* ===== verification/DepInfo.v ===== *)
(** The files a unit was built from, [src/cargo/core/compiler/fingerprint.rs]:
    the makefile the compiler leaves ([parse_rustc_dep_info]), its translation to
    the form that is kept beside the fingerprint ([translate_dep_info],
    [parse_dep_info]), and the time of last use it gives ([mtime_if_fresh]). *)
From S2P Require Import Prelude Str BuildScript.
From S2P Require Import Extern Path Utf8 PackageId Config TomlTargets LockFileOps Fingerprint.

Local Open Scope string_scope.

Definition backslash : ascii := ch 92.
Definition nul : ascii := ch 0.
(** [String::pop] of an ASCII character *)
Fixpoint str_pop (s : string) : string :=
  match s with
  | EmptyString | String _ EmptyString => EmptyString
  | String c s => String c (str_pop s)
  end.
(** [collect::<Result<_, _>>()] *)
Fixpoint map_ok {A B} (f : A → cresult B) (l : list A) : cresult (list B) :=
  match l with
  | [] => Ok []
  | x :: l => y ← f x; ys ← map_ok f l; Ok (y :: ys)
  end.

(** * The compiler's makefile *)

(** The loops of [parse_rustc_dep_info]: a word that ends in a backslash goes on
    with a space and the next word. *)
Fixpoint dep_files (deps : list string) : cresult (list string) :=
  match deps with
  | [] => Ok []
  | s :: deps =>
      (fix escaped (file : string) (deps : list string) {struct deps} : cresult (list string) :=
         if ends_with_char backslash file then
           match deps with
           | [] => Err ("malformed dep-info format, trailing " ++ String backslash "")
           | d :: deps => escaped (str_pop file ++ " " ++ d) deps
           end
         else ret ← dep_files deps; Ok (file :: ret)) s deps
  end.
Definition parse_dep_line (line : string) : option (cresult (string * list string)) :=
  match split_str ": " line with
  | (target, Some deps) => Some (ret ← dep_files (words deps); Ok (target, ret))
  | (_, None) => None
  end.
Definition parse_rustc_dep_info (contents : cresult string) : cresult (list (string * list string)) :=
  contents ← contents; map_ok id (omap parse_dep_line (str_lines contents)).

(** [translate_dep_info]: what it writes. *)
Definition cargo_path (pkg_root rustc_cwd : path) (file : string) : path :=
  let absolute := path_join rustc_cwd file in default absolute (strip_prefix absolute pkg_root).
Definition translate_dep_info (rustc_dep_info : cresult string) (pkg_root rustc_cwd : path) : cresult string :=
  target ← parse_rustc_dep_info rustc_dep_info;
  match target with
  | [] => Err "malformed dep-info format, no targets"
  | (_, deps) :: _ => Ok (join "" (List.map (λ file, cargo_path pkg_root rustc_cwd file ++ String nul "") deps))
  end.

(** * What is kept *)
Definition parse_dep_info (pkg_root : path) (dep_info : cresult string) : cresult (option (list path)) :=
  match dep_info with
  | Ok data =>
      let paths := List.map (path_join pkg_root) (List.filter (λ x, negb (is_empty x)) (split_char nul data)) in
      Ok (match paths with [] => None | _ => Some paths end)
  | _ => Ok None
  end.

(** * Times *)
Section times.
(** [fs::metadata]: the error, or the time of the last change. *)
Context (stat : path → string + FileTime).
(** [paths::mtime] *)
Definition mtime (p : path) : cresult FileTime :=
  match stat p with
  | inr t => Ok t
  | inl e => chain_err ("failed to stat `" ++ p ++ "`") (Err e)
  end.
Definition stale (t : FileTime) (p : path) : bool :=
  match mtime p with Ok t2 => time_leb t t2 | _ => true end.
Definition mtime_if_fresh (output : path) (paths : list path) : option FileTime :=
  match mtime output with
  | Ok t => if existsb (stale t) paths then None else Some t
  | _ => None
  end.
Definition dep_info_mtime_if_fresh (pkg_root dep_info : path) (data : cresult string) : cresult (option FileTime) :=
  paths ← parse_dep_info pkg_root data;
  Ok (match paths with Some paths => mtime_if_fresh dep_info paths | None => None end).
End times.

Example dep_info_1 :
  parse_rustc_dep_info (Ok ("/t/liba.d: src/lib.rs src/a\ b.rs /x/c.rs" ++ nl ++ nl ++ "src/lib.rs:" ++ nl))
  = Ok [("/t/liba.d", ["src/lib.rs"; "src/a b.rs"; "/x/c.rs"])]
  ∧ translate_dep_info (Ok ("/t/liba.d: src/lib.rs src/a\ b.rs /x/c.rs" ++ nl)) "/p" "/p"
    = Ok ("src/lib.rs" ++ String nul ("src/a b.rs" ++ String nul ("/x/c.rs" ++ String nul "")))
  ∧ parse_dep_info "/p" (translate_dep_info (Ok ("/t/liba.d: src/lib.rs src/a\ b.rs /x/c.rs" ++ nl)) "/p" "/p")
    = Ok (Some ["/p/src/lib.rs"; "/p/src/a b.rs"; "/x/c.rs"])
  ∧ parse_rustc_dep_info (Ok ("a: b\" ++ nl)) = Err ("malformed dep-info format, trailing " ++ String backslash "").
Proof. split_and!; vm_eq. Qed.

(** * Facts about characters and words *)
Definition head_ok (s : string) : Prop := match s with String c _ => is_continuation c = false | EmptyString => True end.
Lemma chars_aux_app s : head_ok s → ∀ w acc, chars_aux acc (w ++ s) = (chars_aux acc w ++ chars s)%list.
Proof.
  intros Hs. assert (Hbase : ∀ acc, chars_aux acc s = (chars_aux acc "" ++ chars s)%list).
  { intros acc. destruct s as [|c s]; [by rewrite app_nil_r|]. cbn in Hs. unfold chars. cbn [chars_aux]. rewrite Hs. done. }
  induction w as [|c w IH]; intros acc; [apply Hbase|]. change (String c w ++ s) with (String c (w ++ s)). cbn [chars_aux].
  destruct (is_continuation c); [apply IH|]. rewrite IH. by rewrite app_assoc.
Qed.
Lemma chars_app w s : head_ok s → chars (w ++ s) = (chars w ++ chars s)%list.
Proof. intros Hs. by apply chars_aux_app. Qed.
Lemma of_chars_app l k : of_chars (l ++ k) = of_chars l ++ of_chars k.
Proof.
  assert (Hj : ∀ (x : string) r, of_chars (x :: r) = x ++ of_chars r) by (intros x [|y r]; cbn; [by rewrite app_nil_r_str|done]).
  induction l as [|x l IH]; [done|]. change ((x :: l) ++ k)%list with (x :: (l ++ k))%list. by rewrite !Hj, IH, app_assoc_str.
Qed.
Lemma of_chars_chars s : of_chars (chars s) = s.
Proof.
  assert (H : ∀ acc, of_chars (chars_aux acc s) = acc ++ s); [|apply H]. induction s as [|c s IH]; intros acc; cbn [chars_aux].
  - destruct acc; [done|]. cbn. by rewrite app_nil_r_str.
  - destruct (is_continuation c); [by rewrite IH, app_assoc_str|]. rewrite of_chars_app, IH. destruct acc; done.
Qed.

(** A word: not empty, without white space, and not the middle of a character. *)
Definition is_word (w : string) : Prop := w ≠ "" ∧ head_ok w ∧ Forall (λ c, is_whitespace c = false) (chars w).
Lemma split_words_word w l acc : Forall (λ c, is_whitespace c = false) w →
  split_words acc (w ++ " " :: l) = of_chars (rev acc ++ w) :: split_words [] l.
Proof.
  intros Hw. revert acc. induction Hw as [|c w Hc Hw IH]; intros acc.
  - cbn [app split_words]. assert (Hsp : is_whitespace " " = true) by vm_eq. by rewrite Hsp, app_nil_r.
  - cbn [app split_words]. rewrite Hc, IH. f_equal. cbn [rev]. by rewrite <-app_assoc.
Qed.
Lemma split_words_last w acc : Forall (λ c, is_whitespace c = false) w → split_words acc w = [of_chars (rev acc ++ w)].
Proof.
  intros Hw. revert acc. induction Hw as [|c w Hc Hw IH]; intros acc; [cbn; by rewrite app_nil_r|].
  cbn [split_words]. rewrite Hc, IH. f_equal. cbn [rev]. by rewrite <-app_assoc.
Qed.
Lemma words_join ws : Forall is_word ws → words (join " " ws) = ws.
Proof.
  intros Hws. unfold words. destruct ws as [|w0 ws0] eqn:Hempty; [done|]. rewrite <-Hempty in *.
  assert (Hsplit : split_words [] (chars (join " " ws)) = ws).
  { assert (Hne : ws ≠ []) by by rewrite Hempty. clear Hempty w0 ws0. induction Hws as [|w ws (_ & Hhd & Hw) Hws IH]; [done|].
    destruct ws as [|v ws]; [cbn [join]; rewrite split_words_last by done; cbn [rev app]; by rewrite of_chars_chars|].
    change (join " " (w :: v :: ws)) with (w ++ " " ++ join " " (v :: ws)).
    assert (Hh : head_ok (join " " (v :: ws))).
    { inversion Hws as [|?? (Hv & Hvh & _) _]; subst. destruct v as [|c v]; [done|]. by destruct ws. }
    rewrite chars_app, (chars_app " ") by done. change (chars " ") with [" "]. cbn [app].
    rewrite split_words_word by done. rewrite IH by done. cbn [rev app]. by rewrite of_chars_chars. }
  rewrite Hsplit. apply List.forallb_filter_id, forallb_forall. intros x Hx. apply list_elem_of_In in Hx.
  rewrite Forall_forall in Hws. destruct (Hws x Hx) as (Hne & _ & Hnw). apply existsb_exists.
  destruct (chars x) as [|c l] eqn:Hc; [by rewrite <-(of_chars_chars x), Hc in Hne|]. exists c. split; [by left|].
  inversion Hnw as [|?? Hcw _]; subst. by rewrite Hcw.
Qed.

(** * What the compiler writes
    A file name, with a backslash before each space; its pieces are what is between the spaces. *)
Fixpoint escaped (ps : list string) : list string :=
  match ps with
  | [] => []
  | [p] => [p]
  | p :: ps => (p ++ String backslash "") :: escaped ps
  end.
Definition pieces (file : string) : list string := split_char " " file.
Definition escape_name (file : string) : string := join " " (escaped (pieces file)).
Definition makefile_line (target : string) (files : list string) : string :=
  target ++ ": " ++ join " " (List.map escape_name files).
(** The names that survive: white space other than single spaces would split them, and a space or a backslash at the
    end would join them to the next. *)
Definition last_ok (p : string) : Prop := p ≠ "" ∧ ends_with_char backslash p = false.
Record dep_name (file : string) : Prop := {
  dn_pieces : Forall (λ p, head_ok p ∧ Forall (λ c, is_whitespace c = false) (chars p)) (pieces file);
  dn_last : from_option last_ok False (last (pieces file));
  dn_no_nul : contains_char nul file = false;
}.
Example escape_1 : escape_name "my lib.rs" = "my\ lib.rs" ∧ escape_name "a" = "a".
Proof. done. Qed.

Lemma pieces_join file : join " " (pieces file) = file.
Proof. apply (join_split_char " "). Qed.
Lemma escaped_words ps : Forall (λ p, head_ok p ∧ Forall (λ c, is_whitespace c = false) (chars p)) ps → from_option last_ok False (last ps) →
  Forall is_word (escaped ps).
Proof.
  induction 1 as [|p ps (Hh & Hp) Hps IH]; [done|]. destruct ps as [|q ps].
  - intros (Hne & _). cbn [escaped]. constructor; [done|constructor].
  - intros Hl. change (escaped (p :: q :: ps)) with ((p ++ String backslash "") :: escaped (q :: ps)). constructor; [|by apply IH].
    split_and!; [by destruct p|by destruct p|]. rewrite chars_app by done. apply Forall_app. split; [done|]. change (chars (String backslash "")) with ["\"].
    constructor; [vm_eq|constructor].
Qed.
Lemma ends_with_char_tail c a b : b ≠ "" → ends_with_char c (a ++ b) = ends_with_char c b.
Proof.
  intros Hb. induction a as [|x a IH]; [done|]. change (String x a ++ b) with (String x (a ++ b)). cbn [ends_with_char].
  destruct (a ++ b) eqn:Hab; [|exact IH]. destruct a; [by cbn in Hab|done].
Qed.
Lemma str_pop_snoc c s : str_pop (s ++ String c "") = s.
Proof.
  induction s as [|x s IH]; [done|]. change (String x s ++ String c "") with (String x (s ++ String c "")). cbn [str_pop].
  destruct (s ++ String c "") eqn:Hs; [by destruct s|]. by rewrite IH.
Qed.
Lemma dep_files_cons s deps : dep_files (s :: deps) =
  if ends_with_char backslash s then
    match deps with
    | [] => Err ("malformed dep-info format, trailing " ++ String backslash "")
    | d :: deps => dep_files ((str_pop s ++ " " ++ d) :: deps)
    end
  else ret ← dep_files deps; Ok (s :: ret).
Proof. destruct deps; reflexivity. Qed.
Lemma dep_files_pieces ps rest : from_option last_ok False (last ps) → ∀ f,
  match (escaped ps ++ rest)%list with
  | w :: ws => dep_files ((f ++ w) :: ws) = ret ← dep_files rest; Ok ((f ++ join " " ps) :: ret)
  | [] => False
  end.
Proof.
  induction ps as [|p ps IH]; [done|]. destruct ps as [|q ps]; intros Hl f.
  - destruct Hl as (Hne & Hb). cbn [escaped app]. rewrite dep_files_cons, ends_with_char_tail, Hb by done. done.
  - specialize (IH Hl). change (escaped (p :: q :: ps)) with ((p ++ String backslash "") :: escaped (q :: ps)). cbn [app].
    rewrite dep_files_cons, <-app_assoc_str, ends_with_char_snoc, str_pop_snoc. specialize (IH ((f ++ p) ++ " ")).
    destruct (escaped (q :: ps) ++ rest)%list as [|w ws]; [done|]. rewrite app_assoc_str in IH. rewrite IH.
    change (join " " (p :: q :: ps)) with (p ++ " " ++ join " " (q :: ps)). by rewrite !app_assoc_str.
Qed.
Lemma dep_files_spec files : Forall dep_name files → dep_files (concat (List.map (λ f, escaped (pieces f)) files)) = Ok files.
Proof.
  induction 1 as [|f files Hf Hfiles IH]; [done|]. cbn [List.map concat].
  pose proof (dep_files_pieces (pieces f) (concat (List.map (λ f, escaped (pieces f)) files)) (dn_last _ Hf) "") as H.
  destruct (_ ++ _)%list as [|w ws]; [done|]. change ("" ++ w) with w in H. rewrite H, IH. cbn [mbind res_mbind res_bind].
  change ("" ++ join " " (pieces f)) with (join " " (pieces f)). by rewrite pieces_join.
Qed.
Lemma join_concat sep ls : Forall (λ l, l ≠ []) ls → join sep (List.map (join sep) ls) = join sep (concat ls).
Proof.
  intros Hne. induction Hne as [|l ls Hl Hls IH]; [done|]. destruct ls as [|m ls]; [cbn [List.map join concat]; by rewrite app_nil_r|].
  change (join sep (List.map (join sep) (l :: m :: ls))) with (join sep l ++ sep ++ join sep (List.map (join sep) (m :: ls))).
  rewrite IH. cbn [concat]. rewrite (join_app sep l); [done..|]. inversion Hls; by destruct m.
Qed.
Lemma split_str_colon target l : contains_char " " target = false → split_str ": " (target ++ ": " ++ l) = (target, Some l).
Proof.
  assert (Hhd : ∀ a r, starts_with ": " (String a r) = true → ∃ t, a = ":"%char ∧ r = String " " t).
  { intros a r (t & Ht)%starts_with_spec. injection Ht as -> ->. by exists t. }
  induction target as [|c target IH]; intros Hsp; [cbn; by destruct l|]. cbn [contains_char] in Hsp. apply orb_false_iff in Hsp as [Hc Hsp].
  change (String c target ++ ": " ++ l) with (String c (target ++ ": " ++ l)). cbn [split_str].
  destruct (starts_with ": " _) eqn:Hst; [|by rewrite IH]. apply Hhd in Hst as (t & -> & Ht). exfalso.
  destruct target as [|d target]; [done|]. injection Ht as -> _. done.
Qed.

(** The line the compiler writes parses back to the files it names. *)
Lemma parse_makefile_line target files : contains_char " " target = false → Forall dep_name files →
  parse_dep_line (makefile_line target files) = Some (Ok (target, files)).
Proof.
  intros Ht Hf. unfold parse_dep_line, makefile_line. rewrite split_str_colon by done.
  assert (Hj : join " " (List.map escape_name files) = join " " (concat (List.map (λ f, escaped (pieces f)) files))).
  { rewrite <-join_concat; [by rewrite List.map_map|]. apply Forall_forall. intros x (f & <- & Hin)%list_elem_of_In%in_map_iff Hx.
    apply list_elem_of_In in Hin. rewrite Forall_forall in Hf. pose proof (dn_last _ (Hf f Hin)) as Hl. by destruct (pieces f) as [|p [|q ps]]. }
  rewrite Hj, words_join, dep_files_spec; [done..|]. apply Forall_concat, Forall_map. eapply Forall_impl; [exact Hf|].
  intros f Hn. apply escaped_words; apply Hn.
Qed.

(** * What is kept, and read back *)
Lemma contains_join c sep l : contains_char c sep = false → contains_char c (join sep l) = existsb (contains_char c) l.
Proof.
  intros Hs. induction l as [|x l IH]; [done|]. destruct l as [|y l]; [cbn; by rewrite orb_false_r|].
  change (join sep (x :: y :: l)) with (x ++ sep ++ join sep (y :: l)). rewrite !contains_char_app, Hs, IH. done.
Qed.
Lemma existsb_false {A} (f : A → bool) l : existsb f l = false ↔ ∀ x, x ∈ l → f x = false.
Proof.
  rewrite <-not_true_iff_false, existsb_exists. setoid_rewrite <-list_elem_of_In. split; [|by intros H (x & Hx & Hf); rewrite (H x Hx) in Hf].
  intros H x Hx. destruct (f x) eqn:Hf; [|done]. destruct H. by exists x.
Qed.
Lemma strip_prefix_chars c p base r : contains_char c "/" = false → is_absolute base = true → strip_prefix p base = Some r →
  contains_char c p = false → contains_char c r = false.
Proof.
  intros Hc Hb Hr Hp. unfold strip_prefix in Hr. destruct (strip_components _ _); [|done].
  assert (Hcb : components base ≠ []) by (unfold components; by rewrite Hb). rewrite bool_decide_eq_false_2 in Hr by done.
  injection Hr as <-. rewrite contains_join by done. apply existsb_false. intros x Hx. apply trim_ends_spec in Hx.
  assert (Hin : ∀ dot m l, x ∈ drop_components dot m l → x ∈ l).
  { clear. intros dot m l. revert dot m. induction l as [|s l IH]; intros dot [|m]; cbn [drop_components]; try done. case_match; intros Hx; right; by eapply IH. }
  apply Hin in Hx. unfold body in Hx.
  assert (Hbody : contains_char c (if is_absolute p then str_drop 1 p else p) = false).
  { destruct (is_absolute p); [|done]. destruct p; [done|]. cbn in Hp. apply orb_false_iff in Hp as [_ Hp]. exact Hp. }
  pose proof (contains_join c "/" (split_char "/" (if is_absolute p then str_drop 1 p else p)) Hc) as Hj.
  rewrite join_split_char, Hbody in Hj. by apply (proj1 (existsb_false _ _) (eq_sym Hj)).
Qed.
Lemma path_join_chars c a b : contains_char c "/" = false → contains_char c a = false → contains_char c b = false →
  contains_char c (path_join a b) = false.
Proof. intros Hc Ha Hb. unfold path_join. repeat case_match; rewrite ?contains_char_app, ?Hc, ?Ha, ?Hb; done. Qed.

Section kept.
Context (pkg_root rustc_cwd : path) (Hroot : is_absolute pkg_root = true) (Hcwd : is_absolute rustc_cwd = true).
Context (Hnul : contains_char nul rustc_cwd = false).

Lemma cargo_path_spec f : components (path_join pkg_root (cargo_path pkg_root rustc_cwd f)) = components (path_join rustc_cwd f).
Proof.
  unfold cargo_path. destruct (strip_prefix _ _) as [r|] eqn:Hs; cbn [default from_option]; [exact (proj2 (join_strip_prefix _ _ _ Hroot Hs))|].
  unfold path_join at 1. by rewrite (join_absolute _ f Hcwd).
Qed.
Lemma cargo_path_nul f : dep_name f → contains_char nul (cargo_path pkg_root rustc_cwd f) = false.
Proof.
  intros Hf. assert (Hj : contains_char nul (path_join rustc_cwd f) = false) by (apply path_join_chars; [done..|apply Hf]).
  unfold cargo_path. destruct (strip_prefix _ _) as [r|] eqn:Hs; [|done]. by apply (strip_prefix_chars nul _ _ r eq_refl Hroot Hs).
Qed.
Lemma cargo_path_ne f : components (path_join rustc_cwd f) ≠ components pkg_root → is_empty (cargo_path pkg_root rustc_cwd f) = false.
Proof.
  intros Hne. destruct (cargo_path pkg_root rustc_cwd f) eqn:Hc; [|done]. destruct Hne. rewrite <-cargo_path_spec, Hc.
  rewrite components_join_relative by done. cbn. apply app_nil_r.
Qed.
Lemma parse_dep_info_spec files : files ≠ [] → Forall dep_name files → (∀ f, f ∈ files → components (path_join rustc_cwd f) ≠ components pkg_root) →
  parse_dep_info pkg_root (Ok (join "" (List.map (λ f, cargo_path pkg_root rustc_cwd f ++ String nul "") files)))
  = Ok (Some (List.map (λ f, path_join pkg_root (cargo_path pkg_root rustc_cwd f)) files)).
Proof.
  intros Hne Hf Hr. unfold parse_dep_info.
  assert (Hsp : split_char nul (join "" (List.map (λ f, cargo_path pkg_root rustc_cwd f ++ String nul "") files))
                = (List.map (cargo_path pkg_root rustc_cwd) files ++ [""])%list).
  { clear Hne Hr. induction Hf as [|f files Hf Hfs IH]; [done|]. cbn [List.map].
    assert (Hj : ∀ (x : string) r, join "" (x :: r) = x ++ join "" r) by (intros x [|y r]; cbn; [by rewrite app_nil_r_str|done]).
    rewrite Hj, app_assoc_str. change (String nul "" ++ ?x) with (String nul x).
    rewrite split_char_app, (split_char_none nul (cargo_path _ _ _)), IH by by apply cargo_path_nul. done. }
  rewrite Hsp, List.filter_app. cbn [List.filter is_empty negb]. rewrite app_nil_r, List.forallb_filter_id.
  - rewrite List.map_map. by destruct files.
  - apply forallb_forall. intros x (f & <- & Hin)%in_map_iff. by rewrite cargo_path_ne by (apply Hr, list_elem_of_In, Hin).
Qed.
End kept.

(** C18. The files the compiler names are the files whose times decide: when it wrote the makefile line of a target, with
    its spaces escaped, translating the file and reading back what was kept gives the unit a time exactly when the kept
    file has that time and every named file can be read and is strictly older.  It is assumed that no name has white
    space other than single spaces inside it, a NUL byte, or a space or backslash at its end, that none is the package's
    directory itself, and that the file system does not tell apart two spellings of one path. *)
Theorem dep_info_fresh stat target files more ts pkg_root rustc_cwd dep_info :
  is_absolute pkg_root = true → is_absolute rustc_cwd = true → contains_char nul rustc_cwd = false →
  contains_char " " target = false → files ≠ [] → Forall dep_name files →
  no_line_end (makefile_line target files) → no_return (makefile_line target files) →
  map_ok id (omap parse_dep_line (str_lines more)) = Ok ts →
  (∀ f, f ∈ files → components (path_join rustc_cwd f) ≠ components pkg_root) →
  (∀ p q, components p = components q → stat p = stat q) →
  ∃ data, translate_dep_info (Ok (makefile_line target files ++ nl ++ more)) pkg_root rustc_cwd = Ok data ∧
    ∃ o, dep_info_mtime_if_fresh stat pkg_root dep_info (Ok data) = Ok o ∧
      ∀ t, o = Some t ↔
        mtime stat dep_info = Ok t ∧ ∀ f, f ∈ files → ∃ t2, mtime stat (path_join rustc_cwd f) = Ok t2 ∧ time_ltb t2 t = true.
Proof.
  intros Hroot Hcwd Hnul Ht Hne Hf Hlf Hcr Hmore Hr Hstat. eexists. split.
  { unfold translate_dep_info, parse_rustc_dep_info. cbn [mbind res_mbind res_bind]. rewrite str_lines_cons, strip_cr_none by done.
    cbn [omap list_omap]. rewrite parse_makefile_line by done. cbn [map_ok id mbind res_mbind res_bind]. rewrite Hmore. done. }
  eexists. split; [unfold dep_info_mtime_if_fresh; by rewrite parse_dep_info_spec|]. intros t. unfold mtime_if_fresh.
  destruct (mtime stat dep_info) as [t0| |]; [|naive_solver..].
  assert (Hst : ∀ f, stale stat t0 (path_join pkg_root (cargo_path pkg_root rustc_cwd f)) = false
                     ↔ ∃ t2, mtime stat (path_join rustc_cwd f) = Ok t2 ∧ time_ltb t2 t0 = true).
  { intros f. unfold stale, mtime. rewrite (Hstat _ (path_join rustc_cwd f)) by by apply cargo_path_spec.
    destruct (stat (path_join rustc_cwd f)) as [e|t2]; cbn -[time_ltb]; [naive_solver|]. unfold time_leb. rewrite negb_false_iff. naive_solver. }
  destruct (existsb _ _) eqn:He.
  - split; [done|]. intros [[= ->] Hall]. apply existsb_exists in He as (p & (f & <- & Hin)%in_map_iff & Hs).
    apply list_elem_of_In, Hall, Hst in Hin. congruence.
  - rewrite existsb_false in He. split; [|naive_solver]. intros [= ->]. split; [done|]. intros f Hin. apply Hst, He.
    apply list_elem_of_In, in_map_iff. exists f. split; [done|]. by apply list_elem_of_In.
Qed.
Definition sample_stat (p : path) : string + FileTime :=
  if bool_decide (components p = components "/t/dep-lib-a") then inr (mkTime 9 0)
  else if bool_decide (components p = components "/p/src/a b.rs") then inr (mkTime 8 999999999) else inl "not found".
Lemma dep_info_fresh_witness : ∃ data,
  translate_dep_info (Ok (makefile_line "/t/a.d" ["src/a b.rs"] ++ nl ++ "")) "/p" "/p" = Ok data ∧
    ∃ o, dep_info_mtime_if_fresh sample_stat "/p" "/t/dep-lib-a" (Ok data) = Ok o ∧
      ∀ t, o = Some t ↔ mtime sample_stat "/t/dep-lib-a" = Ok t ∧
        ∀ f, f ∈ ["src/a b.rs"] → ∃ t2, mtime sample_stat (path_join "/p" f) = Ok t2 ∧ time_ltb t2 t = true.
Proof.
  apply (dep_info_fresh sample_stat "/t/a.d" ["src/a b.rs"] "" [] "/p" "/p" "/t/dep-lib-a"); try reflexivity; try discriminate.
  - apply Forall_singleton. split; [|split; [discriminate|reflexivity]|reflexivity]. repeat constructor.
  - intros f ->%list_elem_of_singleton. discriminate.
  - intros p q Hpq. unfold sample_stat. rewrite Hpq. reflexivity.
Defined.
