(* ===== verification/CompileArgs.v ===== *)
(** What the compiler is called with and the fingerprint records: flags from the
    environment and the configuration ([env_args] of
    [src/cargo/core/compiler/build_context/mod.rs]), incremental compilation
    ([src/cargo/core/compiler/context/mod.rs]) and the path of the root module
    ([path_args] of [src/cargo/core/compiler/mod.rs]). *)
From S2P Require Import Prelude Str Extern Path Utf8 SourceId PackageId ConfigValue Config Target Cfg Summary Profiles Package.

Local Open Scope string_scope.

(** [env::var(..).ok()] *)
Definition env_var (c : Config) (name : string) : option string :=
  match os_env c !! name with
  | Some v => if valid_utf8 v then Some v else None
  | None => None
  end.
Definition non_empty (s : string) : bool := negb (is_empty s).
(** The closure of [filter_map]: the keys [cfg(..)] that are true of the target. *)
Definition matching (target_cfg : list Cfg) (key : string) : bool := bool_decide (matches_key key target_cfg = Some true).

Section flags.
Context `{RS : RustStd} `{FS : FileSystem} `{TL : TomlLib} `{UC : UnicodeCase}.

(** [Option::map(|a| a.val)], or nothing. *)
Definition flags_at (config : Config) (key : string) : cresult (list string) :=
  args ← get_list_or_split_string config key;
  Ok (match args with Some args => val args | None => [] end).
(** The loop over the sorted keys. *)
Fixpoint flags_of_all (config : Config) (name : string) (cfgs : list string) : cresult (list string) :=
  match cfgs with
  | [] => Ok []
  | n :: cfgs =>
      args ← flags_at config ("target." ++ n ++ "." ++ name); rest ← flags_of_all config name cfgs;
      Ok (args ++ rest)%list
  end.
Definition env_args (config : Config) (requested_target : option string) (host_triple : string) (target_cfg : option (list Cfg))
    (kind : PlatformKind) (name : string) : cresult (list string) :=
  let compiling_with_target := bool_decide (is_Some requested_target) in
  let is_target_kind := bool_decide (kind = KTarget) in
  if compiling_with_target && negb is_target_kind then Ok []
  else match env_var config name with
  | Some a => Ok (List.filter non_empty (List.map trim (split_char " " a)))
  | None =>
      let name := to_lowercase name in
      let target := default host_triple requested_target in
      rustflags ← flags_at config ("target." ++ target ++ "." ++ name);
      more ← match target_cfg with
             | Some target_cfg =>
                 table ← get_table config "target";
                 match table with
                 | Some table => flags_of_all config name (sort_by String.compare (List.filter (matching target_cfg) (hm_iter (val table)).*1))
                 | None => Ok []
                 end
             | None => Ok []
             end;
      let rustflags := (rustflags ++ more)%list in
      match rustflags with
      | _ :: _ => Ok rustflags
      | [] => flags_at config ("build." ++ name)
      end
  end.

(** [BuildContext::new], the variable [CARGO_INCREMENTAL]. *)
Definition incremental_env (config : Config) : option bool := (λ v, String.eqb v "1") <$> env_var config "CARGO_INCREMENTAL".
(** [Context::incremental_args]; [dir] is the directory of the layout. *)
Definition incremental_args `{SV : SemverLib} `{UL : UrlLib} (config : Config) (dir : PlatformKind → path) (u : CUnit) : cresult (list string) :=
  global_cfg ← get_bool config "build.incremental";
  let incremental := match incremental_env config, val <$> global_cfg with
                     | Some v, _ => v
                     | None, Some false => false
                     | None, _ => incremental (unit_profile u)
                     end in
  if negb incremental then Ok []
  else if negb (SourceId.is_path (pid_source_id (package_id (unit_pkg u)))) then Ok []
  else Ok ["-C"; "incremental=" ++ dir (unit_kind u)].
End flags.

Section paths.
Context `{SV : SemverLib} `{UL : UrlLib}.
(** [Package::root] *)
Definition package_root (p : Package) : cresult path := unwrap (parent (manifest_path p)).
(** [Manifest::metabuild_path], with [short_hash] of the package id. *)
Definition metabuild_path (short_hash : PackageId → string) (m : Manifest) (target_dir : path) : path :=
  let hash := short_hash (sum_package_id (man_summary m)) in
  path_join (path_join target_dir ".metabuild")
    ("metabuild-" ++ pid_name (sum_package_id (man_summary m)) ++ "-" ++ hash ++ ".rs").
(** [path_args]: the argument, and the directory to run in. *)
Definition path_args (short_hash : PackageId → string) (ws_root target_dir : path) (u : CUnit) : cresult (path * path) :=
  src ← (if is_custom_build (unit_target u) && bool_decide (is_Some (man_metabuild (manifest (unit_pkg u))))
         then Ok (metabuild_path short_hash (manifest (unit_pkg u)) target_dir)
         else src_path_path (src_path (unit_target u)));
  if negb (is_absolute src) then Panic "assertion failed: src.is_absolute()"
  else
    let below := if SourceId.is_path (pid_source_id (package_id (unit_pkg u))) then strip_prefix src ws_root else None in
    match below with
    | Some p => Ok (p, ws_root)
    | None => dir ← package_root (unit_pkg u); Ok (src, dir)
    end.
End paths.

(** The matching keys come in ascending order, each once, whatever the order of the table. *)
Lemma matching_keys_sorted `{RS : RustStd} {A} (cfgs : list Cfg) (table : gmap string A) :
  let keys := sort_by String.compare (List.filter (matching cfgs) (hm_iter table).*1) in
  StronglySorted (cmp_le String.compare) keys ∧ NoDup keys ∧ ∀ k, k ∈ keys ↔ is_Some (table !! k) ∧ matching cfgs k = true.
Proof.
  cbv zeta. split_and!; [apply sort_by_sorted, string_cmp_total| |].
  - rewrite sort_by_perm. apply NoDup_ListNoDup, List.NoDup_filter, NoDup_ListNoDup. rewrite hm_iter_perm. apply NoDup_fst_map_to_list.
  - intros k. rewrite sort_by_perm, elem_of_filter_bool, hm_iter_perm, list_elem_of_fmap. split.
    + intros [((k', x) & -> & Hin) Hm]. split; [exists x; by apply elem_of_map_to_list|done].
    + intros [[x Hx] Hm]. split; [|done]. exists (k, x). split; [done|by apply elem_of_map_to_list].
Qed.
(** Run in the directory, the argument names the root module. *)
Lemma path_args_names_source `{SV : SemverLib} `{UL : UrlLib} short_hash ws_root target_dir u arg dir :
  is_absolute ws_root = true → path_args short_hash ws_root target_dir u = Ok (arg, dir) →
  ∃ src, components (path_join dir arg) = components src ∧ is_absolute src = true ∧
    (if is_custom_build (unit_target u) && bool_decide (is_Some (man_metabuild (manifest (unit_pkg u))))
     then src = metabuild_path short_hash (manifest (unit_pkg u)) target_dir
     else src_path_path (src_path (unit_target u)) = Ok src).
Proof.
  intros Hws. unfold path_args.
  set (b := is_custom_build _ && _). set (m := if b then _ else _).
  assert (Hm : ∀ src, m = Ok src → if b then src = metabuild_path short_hash (manifest (unit_pkg u)) target_dir else src_path_path (src_path (unit_target u)) = Ok src).
  { intros src. subst m. destruct b; [by intros [= <-]|done]. }
  destruct m as [src| |]; cbn [mbind res_mbind res_bind]; [|done..]. destruct (is_absolute src) eqn:Hsrc; [|done]. cbn [negb].
  intros H. exists src. split; [|split; [done|by apply Hm]].
  destruct (SourceId.is_path _); [destruct (strip_prefix src ws_root) as [p|] eqn:Hp|].
  - injection H as <- <-. by apply (join_strip_prefix _ _ _ Hws Hp).
  - destruct (package_root _); cbn [mbind res_mbind res_bind] in H; [|done..]. injection H as <- <-. unfold path_join. by rewrite Hsrc.
  - destruct (package_root _); cbn [mbind res_mbind res_bind] in H; [|done..]. injection H as <- <-. unfold path_join. by rewrite Hsrc.
Qed.
