(* ===== verification/RustcInfo.v ===== *)
(** Processes and the compiler: [src/cargo/util/process_builder.rs], the lookup of
    an executable ([src/cargo/util/paths.rs]), and the compiler with the cache of
    what it printed, [src/cargo/util/rustc.rs]. *)
From Stdlib Require Import NArith.
From S2P Require Import Prelude Str Path Utf8 LockFileOps Fingerprint DepInfo.

Local Open Scope string_scope.

(** * Processes *)

(** [struct ProcessBuilder]; the map of the environment is only read by key and
    in the order of its keys.  Of the job server it matters that it is handed on. *)
Record ProcessBuilder := mkProcess {
  pb_program : string;
  pb_args : list string;
  pb_env : gmap string (option string);
  pb_cwd : option path;
  pb_jobserver : bool;
}.
Definition process (cmd : string) : ProcessBuilder := mkProcess cmd [] ∅ None false.
Definition set_program (s : string) (p : ProcessBuilder) : ProcessBuilder :=
  mkProcess s (pb_args p) (pb_env p) (pb_cwd p) (pb_jobserver p).
Definition add_args (l : list string) (p : ProcessBuilder) : ProcessBuilder :=
  mkProcess (pb_program p) (pb_args p ++ l) (pb_env p) (pb_cwd p) (pb_jobserver p).
Definition add_arg (s : string) : ProcessBuilder → ProcessBuilder := add_args [s].
Definition args_replace (l : list string) (p : ProcessBuilder) : ProcessBuilder :=
  mkProcess (pb_program p) l (pb_env p) (pb_cwd p) (pb_jobserver p).
Definition set_cwd (d : path) (p : ProcessBuilder) : ProcessBuilder :=
  mkProcess (pb_program p) (pb_args p) (pb_env p) (Some d) (pb_jobserver p).
Definition set_env (key val : string) (p : ProcessBuilder) : ProcessBuilder :=
  mkProcess (pb_program p) (pb_args p) (<[key := Some val]> (pb_env p)) (pb_cwd p) (pb_jobserver p).
Definition env_remove (key : string) (p : ProcessBuilder) : ProcessBuilder :=
  mkProcess (pb_program p) (pb_args p) (<[key := None]> (pb_env p)) (pb_cwd p) (pb_jobserver p).
Definition inherit_jobserver (p : ProcessBuilder) : ProcessBuilder :=
  mkProcess (pb_program p) (pb_args p) (pb_env p) (pb_cwd p) true.
(** [get_env], in a process whose own environment is [os]. *)
Definition get_env (os : gmap string string) (p : ProcessBuilder) (var : string) : option string :=
  match pb_env p !! var with
  | Some v => v
  | None => os !! var
  end.

(** [env::split_paths], [env::join_paths] on Unix *)
Definition split_paths (s : string) : list path := split_char ":" s.
Definition env_join_paths (l : list path) : option string :=
  if existsb (contains_char ":") l then None else Some (join ":" l).

Section rustc.
(** The environment of Cargo, and the disk: [is_file], [canonicalize] and
    [paths::mtime]. *)
Context (os : gmap string string) (is_file : path → bool) (canonicalize : path → cresult path) (mtime : path → cresult FileTime).
(** [env::var(..)]: a variable that is not UTF-8 is an error. *)
Definition var (name : string) : option string := match os !! name with Some v => if valid_utf8 v then Some v else None | None => None end.

(** [resolve_executable]; there is no extension to add on Unix. *)
Fixpoint first_file (candidates : list path) : option path :=
  match candidates with
  | [] => None
  | c :: candidates => if is_file c then Some c else first_file candidates
  end.
Definition resolve_executable (exec : path) : cresult path :=
  if (length (components exec) =? 1)%nat then
    match os !! "PATH" with
    | None => Err "no PATH"
    | Some paths =>
        match first_file (List.map (λ p, path_join p exec) (split_paths paths)) with
        | Some c => canonicalize c
        | None => Err ("no executable for `" ++ exec ++ "` found in PATH")
        end
    end
  else canonicalize exec.

(** * The cache *)

(** What is fed to the hashers of [rustc_fingerprint] and [process_fingerprint]. *)
Definition CompilerKey : Type := path * FileTime * option (string * string * FileTime).
Definition ProcessKey : Type := list string * list (string * option string).
(** [SipHasher], and [serde_json] at the type of the cache. *)
Record CacheData := mkCacheData {
  rustc_fingerprint : N;
  outputs : gmap N (string * string);
  successes : gmap N bool;
}.
Class CacheLib := {
  hash_compiler : CompilerKey → N;
  hash_process : ProcessKey → N;
  cache_read : string → cresult CacheData;
  cache_write : CacheData → string;
}.
Context `{CL : !CacheLib}.
(** [paths::read]; running a process: [exec_with_output] with both outputs as
    bytes, and [status] with its success. *)
Context (read : path → cresult string) (exec_with_output : ProcessBuilder → cresult (string * string)) (status : ProcessBuilder → cresult bool).

(** [rustc_fingerprint] *)
Definition real_rustc (home toolchain : string) : path :=
  path_join (path_join (path_join (path_join home "toolchains") toolchain) "bin") "rustc".
Definition compiler_fingerprint (rustc rustup_rustc : path) : cresult N :=
  p ← resolve_executable rustc;
  t ← mtime p;
  let maybe_rustup := path_eqb rustup_rustc p in
  match maybe_rustup, var "RUSTUP_HOME", var "RUSTUP_TOOLCHAIN" with
  | _, Some home, Some toolchain => u ← mtime (real_rustc home toolchain); Ok (hash_compiler (p, t, Some (toolchain, home, u)))
  | true, _, _ => Err "probably rustup rustc, but without rustup's env vars"
  | _, _, _ => Ok (hash_compiler (p, t, None))
  end.
(** [process_fingerprint] *)
Definition process_fingerprint (cmd : ProcessBuilder) : N := hash_process (pb_args cmd, btree_iter (pb_env cmd)).

(** [struct Cache] *)
Record Cache := mkCache { cache_location : option path; dirty : bool; data : CacheData }.
Definition empty_data (fp : N) : CacheData := mkCacheData fp ∅ ∅.
(** [Cache::load] *)
Definition cache_load (rustc rustup_rustc : path) (location : option path) : Cache :=
  match location, compiler_fingerprint rustc rustup_rustc with
  | Some location, Ok fp =>
      match (json ← read location; cache_read json) with
      | Ok d => if N.eqb (rustc_fingerprint d) fp then mkCache (Some location) false d else mkCache (Some location) true (empty_data fp)
      | _ => mkCache (Some location) true (empty_data fp)
      end
  | _, _ => mkCache None false (empty_data 0)
  end.
(** [Cache::cached_output] *)
Definition utf8_output (o : string * string) : cresult (string * string) :=
  if valid_utf8 o.1 && valid_utf8 o.2 then Ok o else Err "rustc didn't return utf8 output".
Definition cached_output (cmd : ProcessBuilder) (c : Cache) : cresult (string * string) * Cache :=
  let key := process_fingerprint cmd in
  match outputs (data c) !! key with
  | Some o => (Ok o, c)
  | None =>
      match (o ← exec_with_output cmd; utf8_output o) with
      | Ok o => (Ok o, mkCache (cache_location c) true
                         (mkCacheData (rustc_fingerprint (data c)) (<[key := o]> (outputs (data c))) (successes (data c))))
      | r => (r, c)
      end
  end.
(** [Cache::cached_success] *)
Definition cached_success (cmd : ProcessBuilder) (c : Cache) : cresult bool * Cache :=
  let key := process_fingerprint cmd in
  match successes (data c) !! key with
  | Some b => (Ok b, c)
  | None =>
      match status cmd with
      | Ok b => (Ok b, mkCache (cache_location c) true
                         (mkCacheData (rustc_fingerprint (data c)) (outputs (data c)) (<[key := b]> (successes (data c)))))
      | r => (r, c)
      end
  end.
(** [Drop for Cache]: what is written, and where. *)
Definition cache_drop (c : Cache) : option (path * string) :=
  if negb (dirty c) then None else match cache_location c with Some l => Some (l, cache_write (data c)) | None => None end.

(** * The compiler *)

(** [struct Rustc] *)
Record Rustc := mkRustc {
  rustc_path : path;
  wrapper : option path;
  verbose_version : string;
  rustc_host : string;
  cache : Cache;
}.
(** [Rustc::process_no_wrapper], [Rustc::process] *)
Definition process_no_wrapper (r : Rustc) : ProcessBuilder := process (rustc_path r).
Definition rustc_process (r : Rustc) : ProcessBuilder :=
  match wrapper r with
  | Some w => if negb (is_empty w) then add_arg (rustc_path r) (process w) else process_no_wrapper r
  | None => process_no_wrapper r
  end.
(** [Rustc::new] *)
Definition host_of (version : string) : option string := str_drop 6 <$> List.find (starts_with "host: ") (str_lines version).
Definition rustc_new (p : path) (w : option path) (rustup_rustc : path) (location : option path) : cresult Rustc :=
  let '(r, c) := cached_output (add_arg "-vV" (process p)) (cache_load p rustup_rustc location) in
  o ← r;
  match host_of o.1 with
  | Some host => Ok (mkRustc p w o.1 host c)
  | None => Err "rustc -v didn't have a line for `host:`"
  end.

(** A session: what is asked of the cache, one request after the other, until
    one fails; the answers, and the cache at the end. *)
Inductive Request := RqOutput (cmd : ProcessBuilder) | RqSuccess (cmd : ProcessBuilder).
Inductive Answer := AnOutput (o : string * string) | AnSuccess (b : bool).
Definition ask (q : Request) (c : Cache) : cresult Answer * Cache :=
  match q with
  | RqOutput cmd => let '(r, c) := cached_output cmd c in (o ← r; Ok (AnOutput o), c)
  | RqSuccess cmd => let '(r, c) := cached_success cmd c in (b ← r; Ok (AnSuccess b), c)
  end.
Fixpoint session (qs : list Request) (c : Cache) : cresult (list Answer) * Cache :=
  match qs with
  | [] => (Ok [], c)
  | q :: qs =>
      match ask q c with
      | (Ok a, c) => let '(r, c) := session qs c in (l ← r; Ok (a :: l), c)
      | (Err e, c) => (Err e, c)
      | (Panic m, c) => (Panic m, c)
      end
  end.
(** The same without a cache. *)
Definition run (q : Request) : cresult Answer :=
  match q with
  | RqOutput cmd => o ← exec_with_output cmd; o ← utf8_output o; Ok (AnOutput o)
  | RqSuccess cmd => b ← status cmd; Ok (AnSuccess b)
  end.
Fixpoint run_all (qs : list Request) : cresult (list Answer) :=
  match qs with
  | [] => Ok []
  | q :: qs => a ← run q; l ← run_all qs; Ok (a :: l)
  end.
End rustc.

(** * The cache answers as the compiler does *)
Section cache.
Context (os : gmap string string) (is_file : path → bool) (canonicalize : path → cresult path) (mtime : path → cresult FileTime).
Context `{CL : !CacheLib}.
Context (read : path → cresult string) (exec_with_output : ProcessBuilder → cresult (string * string)) (status : ProcessBuilder → cresult bool).

Abbreviation fingerprint_of := (compiler_fingerprint os is_file canonicalize mtime).
Definition output_of (cmd : ProcessBuilder) : cresult (string * string) := o ← exec_with_output cmd; utf8_output o.
Definition asked (q : Request) : ProcessBuilder := match q with RqOutput cmd | RqSuccess cmd => cmd end.

(** Commands [P] that the key tells apart as far as their outcome goes. *)
Definition told_apart (P : ProcessBuilder → Prop) : Prop := ∀ a b, P a → P b →
  process_fingerprint a = process_fingerprint b → output_of a = output_of b ∧ status a = status b.
(** What is kept for the commands [P] is what they answer. *)
Definition sound (P : ProcessBuilder → Prop) (d : CacheData) : Prop := ∀ cmd, P cmd →
  (∀ o, outputs d !! process_fingerprint cmd = Some o → output_of cmd = Ok o) ∧
  (∀ b, successes d !! process_fingerprint cmd = Some b → status cmd = Ok b).
(** What the file holds, if it is the present compiler's. *)
Definition file_sound (P : ProcessBuilder → Prop) (p rustup_rustc : path) (location : option path) : Prop := ∀ l d,
  location = Some l → (json ← read l; cache_read json) = Ok d → fingerprint_of p rustup_rustc = Ok (rustc_fingerprint d) → sound P d.
(** A cache of the present compiler for that file. *)
Definition present (P : ProcessBuilder → Prop) (p rustup_rustc : path) (location : option path) (c : Cache) : Prop :=
  sound P (data c) ∧
  ∀ l, cache_location c = Some l → location = Some l ∧ fingerprint_of p rustup_rustc = Ok (rustc_fingerprint (data c)).

Section commands.
Context (P : ProcessBuilder → Prop) (Hapart : told_apart P).
Context (p rustup_rustc : path) (location : option path).
Abbreviation good := (present P p rustup_rustc location).

Lemma sound_empty fp : sound P (empty_data fp).
Proof. intros cmd _. split; intros ? H; cbn in H; by rewrite lookup_empty in H. Qed.

Lemma cache_load_present : file_sound P p rustup_rustc location →
  good (cache_load os is_file canonicalize mtime read p rustup_rustc location).
Proof.
  intros Hfile. unfold cache_load. destruct location as [l|] eqn:Hl; [|split; [apply sound_empty|done]].
  destruct (fingerprint_of p rustup_rustc) as [fp| |] eqn:Hfp; try (split; [apply sound_empty|done]).
  destruct (json ← read l; cache_read json) as [d| |] eqn:Hd; try (split; [apply sound_empty|by intros ? [= ->]]).
  destruct (N.eqb_spec (rustc_fingerprint d) fp) as [<-|_]; (split; [|by intros ? [= ->]]); [by eapply Hfile|apply sound_empty].
Qed.

Lemma cached_output_spec cmd c : P cmd → good c →
  (cached_output exec_with_output cmd c).1 = output_of cmd ∧ good (cached_output exec_with_output cmd c).2.
Proof.
  intros Hcmd [Hs Hl]. unfold cached_output. fold (output_of cmd).
  destruct (outputs (data c) !! process_fingerprint cmd) as [o|] eqn:Ho; [split; [by symmetry; apply (Hs cmd Hcmd)|done]|].
  destruct (output_of cmd) as [o| |] eqn:Hout; (split; [done|]); [|done..]. split; [|done].
  intros cmd' Hcmd'. cbn. split; [|apply Hs, Hcmd'].
  intros o' H. apply lookup_insert_Some in H as [[Hk <-]|[_ H]]; [|by apply Hs].
  rewrite <-Hout. symmetry. by apply (Hapart cmd cmd').
Qed.

Lemma cached_success_spec cmd c : P cmd → good c →
  (cached_success status cmd c).1 = status cmd ∧ good (cached_success status cmd c).2.
Proof.
  intros Hcmd [Hs Hl]. unfold cached_success.
  destruct (successes (data c) !! process_fingerprint cmd) as [b|] eqn:Hb; [split; [by symmetry; apply (Hs cmd Hcmd)|done]|].
  destruct (status cmd) as [b| |] eqn:Hout; (split; [done|]); [|done..]. split; [|done].
  intros cmd' Hcmd'. cbn. split; [apply Hs, Hcmd'|].
  intros b' H. apply lookup_insert_Some in H as [[Hk <-]|[_ H]]; [|by apply Hs].
  rewrite <-Hout. symmetry. by apply (Hapart cmd cmd').
Qed.

Lemma ask_spec q c : P (asked q) → good c →
  (ask exec_with_output status q c).1 = run exec_with_output status q ∧ good (ask exec_with_output status q c).2.
Proof.
  intros Hq Hc. destruct q as [cmd|cmd]; unfold ask, run.
  - pose proof (cached_output_spec cmd c Hq Hc) as [H1 H2].
    destruct (cached_output exec_with_output cmd c) as [r c']. cbn in *. subst r. split; [|done].
    unfold output_of. by destruct (exec_with_output cmd).
  - pose proof (cached_success_spec cmd c Hq Hc) as [H1 H2].
    destruct (cached_success status cmd c) as [r c']. cbn in *. by subst r.
Qed.

Lemma session_spec qs c : (∀ q, q ∈ qs → P (asked q)) → good c →
  (session exec_with_output status qs c).1 = run_all exec_with_output status qs ∧ good (session exec_with_output status qs c).2.
Proof.
  revert c. induction qs as [|q qs IH]; intros c Hqs Hc; [done|]. cbn [session run_all].
  pose proof (ask_spec q c (Hqs q (list_elem_of_here _ _)) Hc) as [H1 H2].
  destruct (ask exec_with_output status q c) as [r c']. cbn in H1, H2. subst r.
  destruct (run exec_with_output status q) as [a| |]; [|done..].
  pose proof (IH c' (λ q' Hq', Hqs q' (list_elem_of_further _ _ _ Hq')) H2) as [H3 H4].
  destruct (session exec_with_output status qs c') as [r c'']. cbn in H3, H4 |- *. by subst r.
Qed.
End commands.
End cache.

(** C16. The cache of what the compiler printed is not observable: on a file that
    is sound for the compiler it names (or on none), the description of the
    compiler is made of what [rustc -vV] answers, whatever is asked of it
    afterwards is answered as the processes themselves answer, and what is
    written in the end is again sound for the present compiler.  This needs that
    the key of a command tells the commands that are asked apart. *)
Theorem rustc_session_spec (os : gmap string string) (is_file : path → bool) (canonicalize : path → cresult path)
    (mtime : path → cresult FileTime) `{CL : !CacheLib} (read : path → cresult string)
    (exec_with_output : ProcessBuilder → cresult (string * string)) (status : ProcessBuilder → cresult bool)
    (P : ProcessBuilder → Prop) (p : path) (w : option path) (rustup_rustc : path) (location : option path) (qs : list Request)
    (Hapart : told_apart exec_with_output status P)
    (Hversion : P (add_arg "-vV" (process p))) (Hqs : ∀ q, q ∈ qs → P (asked q))
    (Hfile : file_sound os is_file canonicalize mtime read exec_with_output status P p rustup_rustc location) :
  match rustc_new os is_file canonicalize mtime read exec_with_output p w rustup_rustc location,
        (o ← output_of exec_with_output (add_arg "-vV" (process p));
         match host_of o.1 with Some h => Ok (o.1, h) | None => Err "rustc -v didn't have a line for `host:`" end) with
  | Ok r, Ok (version, host) =>
      r = mkRustc p w version host (cache r) ∧
      (session exec_with_output status qs (cache r)).1 = run_all exec_with_output status qs ∧
      ∀ l text, cache_drop (session exec_with_output status qs (cache r)).2 = Some (l, text) →
        location = Some l ∧ ∃ d, text = cache_write d ∧ sound exec_with_output status P d ∧
          compiler_fingerprint os is_file canonicalize mtime p rustup_rustc = Ok (rustc_fingerprint d)
  | Err e, Err e' => e = e'
  | Panic m, Panic m' => m = m'
  | _, _ => False
  end.
Proof.
  pose proof (cache_load_present os is_file canonicalize mtime read exec_with_output status P p rustup_rustc location Hfile) as Hc.
  unfold rustc_new. set (c := cache_load _ _ _ _ _ _ _ _) in *.
  pose proof (cached_output_spec _ _ _ _ _ _ P Hapart _ _ _ _ c Hversion Hc) as [H1 H2].
  destruct (cached_output exec_with_output _ c) as [r c']. cbn in H1, H2. subst r.
  destruct (output_of exec_with_output _) as [o| |]; cbn [mbind res_mbind res_bind]; [|done..].
  destruct (host_of o.1) as [h|]; [|done]. cbn [cache]. split; [done|].
  pose proof (session_spec _ _ _ _ _ _ P Hapart _ _ _ qs c' Hqs H2) as [H3 [H4 H5]]. split; [done|].
  intros l text Hdrop. unfold cache_drop in Hdrop.
  destruct (negb _); [done|]. destruct (cache_location _) as [l'|] eqn:Hl; [|done]. injection Hdrop as <- <-.
  destruct (H5 _ eq_refl) as [-> Hfp]. split; [done|]. by eexists.
Qed.

(** * What the key leaves out *)

(** The program is not part of the key: two wrappers have one key. *)
Lemma wrapper_ignored `{CL : !CacheLib} p w w' version host c : is_empty w = false → is_empty w' = false →
  process_fingerprint (rustc_process (mkRustc p (Some w) version host c)) =
  process_fingerprint (rustc_process (mkRustc p (Some w') version host c)).
Proof. intros Hw Hw'. unfold rustc_process. cbn. by rewrite Hw, Hw'. Qed.

Section examples.
#[local] Instance one_cache : CacheLib := {|
  hash_compiler k := Z.to_N (seconds k.1.2);
  hash_process k := N.of_nat (length k.1);
  cache_read s := if String.eqb s "old" then Ok (mkCacheData 7 {[1%N := (("host: unix", "") : string * string)]} ∅) else Err "expected value";
  cache_write d := if bool_decide (is_Some (outputs d !! 3%N)) then "new" else "old";
|}.
Definition rustc_env : gmap string string := {["PATH" := "/usr/bin:/bin"]}.
Definition only_rustc (p : path) : bool := String.eqb p "/bin/rustc".
Definition rustc_time (p : path) : cresult FileTime := Ok (mkTime 7 0).
Definition old_file (p : path) : cresult string := if String.eqb p "/cache" then Ok "old" else Err "no file".
Definition rustc_run (cmd : ProcessBuilder) : cresult (string * string) :=
  if bool_decide (pb_args cmd = ["-vV"]) then Ok ("host: unix", "") else Ok (join " " (pb_program cmd :: pb_args cmd), "").
Definition rustc_status (cmd : ProcessBuilder) : cresult bool := Ok true.
Definition version_cmd : ProcessBuilder := add_arg "-vV" (process "rustc").
Definition print_cmd (program : string) : ProcessBuilder := add_args ["-"; "--print"; "cfg"] (process program).

Lemma rustc_session_spec_witness :
  is_ok (rustc_new rustc_env only_rustc Ok rustc_time old_file rustc_run "rustc" None "" (Some "/cache")) = true ∧
  match rustc_new rustc_env only_rustc Ok rustc_time old_file rustc_run "rustc" None "" (Some "/cache"),
        (o ← output_of rustc_run version_cmd;
         match host_of o.1 with Some h => Ok (o.1, h) | None => Err "rustc -v didn't have a line for `host:`" end) with
  | Ok r, Ok (version, host) =>
      r = mkRustc "rustc" None version host (cache r) ∧
      (session rustc_run rustc_status [RqOutput (print_cmd "rustc"); RqSuccess version_cmd] (cache r)).1 =
        run_all rustc_run rustc_status [RqOutput (print_cmd "rustc"); RqSuccess version_cmd] ∧
      ∀ l text, cache_drop (session rustc_run rustc_status [RqOutput (print_cmd "rustc"); RqSuccess version_cmd] (cache r)).2 = Some (l, text) →
        Some "/cache" = Some l ∧ ∃ d, text = cache_write d ∧
          sound rustc_run rustc_status (λ c, c ∈ [version_cmd; print_cmd "rustc"]) d ∧
          compiler_fingerprint rustc_env only_rustc Ok rustc_time "rustc" "" = Ok (rustc_fingerprint d)
  | Err e, Err e' => e = e'
  | Panic m, Panic m' => m = m'
  | _, _ => False
  end.
Proof.
  split; [by vm_compute|].
  refine (rustc_session_spec rustc_env only_rustc Ok rustc_time old_file rustc_run rustc_status
    (λ c, c ∈ [version_cmd; print_cmd "rustc"]) "rustc" None "" (Some "/cache") [RqOutput (print_cmd "rustc"); RqSuccess version_cmd] _ _ _ _).
  - intros a b Ha Hb. rewrite !elem_of_cons, elem_of_nil in Ha, Hb.
    destruct Ha as [->|[->|[]]], Hb as [->|[->|[]]]; [done|by vm_compute..|done].
  - apply list_elem_of_here.
  - intros q Hq. rewrite !elem_of_cons, elem_of_nil in Hq. destruct Hq as [->|[->|[]]]; cbn [asked]; set_solver.
  - intros l d [= <-] Hd _. injection Hd as <-. intros cmd Hcmd. rewrite !elem_of_cons, elem_of_nil in Hcmd.
    destruct Hcmd as [->|[->|[]]]; (split; [|done]); intros o; vm_compute; congruence.
Defined.

(** A cache filled through one wrapper answers for another. *)
Example stale_wrapper :
  let r w := mkRustc "rustc" (Some w) "" "unix" (mkCache None false (empty_data 0)) in
  let cmd w := add_args ["--print"; "cfg"] (rustc_process (r w)) in
  let '(a, c) := cached_output rustc_run (cmd "/old") (cache (r "/old")) in
  a = Ok ("/old rustc --print cfg", "") ∧ (cached_output rustc_run (cmd "/new") c).1 = Ok ("/old rustc --print cfg", "") ∧
  rustc_run (cmd "/new") = Ok ("/new rustc --print cfg", "").
Proof. by vm_compute. Qed.
End examples.
