(* ===== verification/TargetInfo.v ===== *)
(** What the compiler tells of a platform,
    [src/cargo/core/compiler/build_context/target_info.rs]: the names of the files
    of each crate type, the [cfg]s and the directory of libraries. *)
From S2P Require Import Prelude Str Extern Path Utf8 ConfigValue Config LockFileOps Target Cfg CompileArgs RustcInfo.

Local Open Scope string_scope.

(** [enum FileFlavor], [struct FileType] *)
Inductive FileFlavor := FNormal | FLinkable | FDebugInfo.
#[global] Instance FileFlavor_eq_dec : EqDecision FileFlavor.
Proof. solve_decision. Defined.
Record FileType := mkFileType {
  ft_flavor : FileFlavor;
  ft_suffix : string;
  ft_prefix : string;
  should_replace_hyphens : bool;
}.
(** [FileType::filename] *)
Definition ft_filename (t : FileType) (stem : string) : string :=
  ft_prefix t ++ (if should_replace_hyphens t then replace_char "-" "_" stem else stem) ++ ft_suffix t.

(** [parse_crate_type]; the lines that are left are returned as well. *)
Definition says_unsupported (crate_type line : string) : bool :=
  (contains_str "unsupported crate type" line || contains_str "unknown crate type" line) && contains_str crate_type line.
Definition parse_crate_type (crate_type error : string) (lines : list string) : cresult (option (string * string) * list string) :=
  if existsb (says_unsupported crate_type) (str_lines error) then Ok (None, lines)
  else match lines with
  | [] => Err ("malformed output when learning about crate-type " ++ crate_type ++ " information")
  | line :: lines =>
      match split_str "___" (trim line) with
      | (_, None) => Err "output of --print=file-names has changed in the compiler, cannot parse"
      | (prefix, Some rest) => Ok (Some (prefix, (split_str "___" rest).1), lines)
      end
  end.

(** [struct TargetInfo]; of the map of crate types only lookups are made. *)
Abbreviation CrateTypes := (gmap string (option (string * string))).
Record TargetInfo := mkTargetInfo {
  crate_type_process : ProcessBuilder;
  crate_types : CrateTypes;
  ti_cfg : option (list Cfg);
  sysroot_libdir : option path;
}.
Definition KNOWN_CRATE_TYPES : list string := ["bin"; "rlib"; "dylib"; "cdylib"; "staticlib"; "proc-macro"].
(** The loop over the known crate types. *)
Definition read_crate_type (error : string) (st : CrateTypes * list string) (crate_type : string) : cresult (CrateTypes * list string) :=
  '(out, lines) ← parse_crate_type crate_type error st.2; Ok (<[crate_type := out]> st.1, lines).
Definition read_crate_types (error : string) (lines : list string) : cresult (CrateTypes * list string) :=
  foldM (read_crate_type error) (∅, lines) KNOWN_CRATE_TYPES.
Definition libdir (kind : PlatformKind) (target_triple sysroot : string) : path :=
  match kind with
  | KHost => path_join sysroot "lib"
  | KTarget => path_join (path_join (path_join (path_join sysroot "lib") "rustlib") target_triple) "lib"
  end.
Definition read_cfg (cfgs : list Cfg) (line : string) : cresult (list Cfg) := c ← cfg_from_str line; Ok (cfgs ++ [c])%list.

Section target_info.
Context `{UL : UrlLib} `{RS : RustStd} `{FS : FileSystem} `{TL : TomlLib} `{UC : UnicodeCase} `{CL : !CacheLib}.
Context (exec_with_output : ProcessBuilder → cresult (string * string)).

(** [TargetInfo::new], up to what is read of the output. *)
Definition probe (rustc : Rustc) (rustflags : list string) (target_triple : string) (kind : PlatformKind) : ProcessBuilder :=
  let p := env_remove "RUST_LOG" (add_args (["-"; "--crate-name"; "___"; "--print=file-names"] ++ rustflags) (rustc_process rustc)) in
  match kind with KTarget => add_args ["--target"; target_triple] p | KHost => p end.
Definition with_crate_types (p : ProcessBuilder) : ProcessBuilder :=
  add_args (flat_map (λ t, ["--crate-type"; t]) KNOWN_CRATE_TYPES) p.
Definition with_cfg (p : ProcessBuilder) : ProcessBuilder := add_args ["--print=sysroot"; "--print=cfg"] p.
Definition read_info (kind : PlatformKind) (target_triple : string) (crate_type_process : ProcessBuilder) (has_cfg_and_sysroot : bool)
    (output error : string) : cresult TargetInfo :=
  '(map, lines) ← read_crate_types error (str_lines output);
  if has_cfg_and_sysroot then
    match lines with
    | [] => Err "output of --print=sysroot missing when learning about target-specific information from rustc"
    | line :: lines =>
        cfgs ← foldM read_cfg [] lines;
        Ok (mkTargetInfo crate_type_process map (Some cfgs) (Some (libdir kind target_triple line)))
    end
  else Ok (mkTargetInfo crate_type_process map None None).
Definition target_info_new (config : Config) (requested_target : option string) (rustc : Rustc) (kind : PlatformKind) (c : Cache)
    : cresult TargetInfo * Cache :=
  match env_args config requested_target (rustc_host rustc) None kind "RUSTFLAGS" with
  | Err e => (Err e, c)
  | Panic m => (Panic m, c)
  | Ok rustflags =>
      let target_triple := default (rustc_host rustc) requested_target in
      let crate_type_process := probe rustc rustflags target_triple kind in
      let process := with_crate_types crate_type_process in
      let read has (r : cresult (string * string)) :=
        '(output, error) ← chain_err "failed to run `rustc` to learn about target-specific information" r;
        read_info kind target_triple crate_type_process has output error in
      match cached_output exec_with_output (with_cfg process) c with
      | (Err _, c) => let '(r, c) := cached_output exec_with_output process c in (read false r, c)
      | (r, c) => (read true r, c)
      end
  end.

(** [TargetInfo::discover_crate_type] *)
Definition discover_crate_type (p : ProcessBuilder) (crate_type : string) : cresult (option (string * string)) :=
  '(output, error) ← chain_err ("failed to run `rustc` to learn about crate-type " ++ crate_type ++ " information")
                       (exec_with_output (add_args ["--crate-type"; crate_type] p));
  if negb (valid_utf8 error) || negb (valid_utf8 output) then Panic "called `Result::unwrap()` on an `Err` value"
  else '(info, _) ← parse_crate_type crate_type error (str_lines output); Ok info.

(** [TargetInfo::file_types]: the names, and the memo of the crate types. *)
Definition types_of (crate_type : string) (flavor : FileFlavor) (kind : TargetKind) (target_triple prefix suffix : string) : list FileType :=
  [mkFileType flavor suffix prefix false] ++
  (if ends_with "pc-windows-msvc" target_triple && ends_with "dylib" crate_type && String.eqb suffix ".dll"
   then [mkFileType FNormal ".dll.lib" prefix false] else []) ++
  (if starts_with "wasm32-" target_triple && String.eqb crate_type "bin" && String.eqb suffix ".js"
   then [mkFileType FNormal ".wasm" prefix true] else []) ++
  (if bool_decide (kind = TBin) then
     if contains_str "-apple-" target_triple then [mkFileType FDebugInfo ".dSYM" prefix false]
     else if ends_with "-msvc" target_triple then [mkFileType FDebugInfo ".pdb" prefix false] else []
   else []).
Definition crate_type_info (ti : TargetInfo) (crate_type : string) : cresult (option (string * string) * TargetInfo) :=
  match crate_types ti !! crate_type with
  | Some info => Ok (info, ti)
  | None =>
      info ← discover_crate_type (crate_type_process ti) crate_type;
      Ok (info, mkTargetInfo (crate_type_process ti) (<[crate_type := info]> (crate_types ti)) (ti_cfg ti) (sysroot_libdir ti))
  end.
Definition file_types (ti : TargetInfo) (crate_type : string) (flavor : FileFlavor) (kind : TargetKind) (target_triple : string)
    : cresult (option (list FileType) * TargetInfo) :=
  '(info, ti) ← crate_type_info ti crate_type;
  Ok (option_map (λ i : string * string, types_of crate_type flavor kind target_triple i.1 i.2) info, ti).
End target_info.

(** * What the compiler prints is what is read *)

(** The answer of a compiler: the file of each crate type it supports, in order,
    and a complaint for each of the others.  A name is read back if it can be
    told from the [___] that stands for the crate. *)
Definition file_line (info : option (string * string)) : list string :=
  match info with Some (prefix, suffix) => [prefix ++ "___" ++ suffix] | None => [] end.
Definition readable (error crate_type : string) (info : option (string * string)) : Prop :=
  existsb (says_unsupported crate_type) (str_lines error) = bool_decide (info = None) ∧
  ∀ prefix suffix, info = Some (prefix, suffix) →
    trim (prefix ++ "___" ++ suffix) = prefix ++ "___" ++ suffix ∧
    split_str "___" (prefix ++ "___" ++ suffix) = (prefix, Some suffix) ∧ split_str "___" suffix = (suffix, None).

Lemma parse_crate_type_spec crate_type error info lines : readable error crate_type info →
  parse_crate_type crate_type error (file_line info ++ lines)%list = Ok (info, lines).
Proof.
  intros [Hno Hyes]. unfold parse_crate_type. rewrite Hno. destruct info as [[prefix suffix]|]; [|done].
  destruct (Hyes _ _ eq_refl) as (H1 & H2 & H3). rewrite bool_decide_eq_false_2 by done.
  cbn [file_line app]. rewrite H1, H2. cbn. by rewrite H3.
Qed.

Lemma read_each_spec (answer : string → option (string * string)) error ts m lines :
  (∀ t, t ∈ ts → readable error t (answer t)) →
  ∃ m', foldM (read_crate_type error) (m, (flat_map (λ t, file_line (answer t)) ts ++ lines)%list) ts = Ok (m', lines) ∧
    ∀ t, m' !! t = if bool_decide (t ∈ ts) then Some (answer t) else m !! t.
Proof.
  revert m. induction ts as [|t ts IH]; intros m Hts; [by exists m|].
  cbn [foldM flat_map]. unfold read_crate_type at 1. cbn [fst snd]. rewrite <-app_assoc.
  rewrite (parse_crate_type_spec t error (answer t)) by apply Hts, list_elem_of_here. cbn [mbind res_mbind res_bind].
  destruct (IH (<[t := answer t]> m)) as (m' & H1 & H2); [intros t' Ht'; by apply Hts, list_elem_of_further|].
  exists m'. split; [done|]. intros t'. rewrite H2. destruct (decide (t' = t)) as [->|Hne].
  - rewrite lookup_insert_eq, (bool_decide_eq_true_2 (t ∈ t :: ts)) by apply list_elem_of_here. by case_bool_decide.
  - rewrite lookup_insert_ne by done.
    by rewrite (bool_decide_ext (t' ∈ t :: ts) (t' ∈ ts)) by (rewrite elem_of_cons; naive_solver).
Qed.

(** The whole output: the files, the directory of the compiler, and a [cfg] on each
    of the other lines. *)
Lemma read_info_spec kind triple p output error (answer : string → option (string * string)) sysroot lines cfgs :
  (∀ t, t ∈ KNOWN_CRATE_TYPES → readable error t (answer t)) →
  str_lines output = (flat_map (λ t, file_line (answer t)) KNOWN_CRATE_TYPES ++ sysroot :: lines)%list →
  Forall2 (λ line c, cfg_from_str line = Ok c) lines cfgs →
  ∃ m, read_info kind triple p true output error = Ok (mkTargetInfo p m (Some cfgs) (Some (libdir kind triple sysroot))) ∧
    ∀ t, t ∈ KNOWN_CRATE_TYPES → m !! t = Some (answer t).
Proof.
  intros Hr Hlines Hcfgs. destruct (read_each_spec answer error KNOWN_CRATE_TYPES ∅ (sysroot :: lines) Hr) as (m & H1 & H2).
  exists m. split; [|intros t Ht; by rewrite H2, bool_decide_eq_true_2].
  unfold read_info, read_crate_types. rewrite Hlines, H1. cbn [mbind res_mbind res_bind].
  assert (Hall : ∀ acc, foldM read_cfg acc lines = Ok (acc ++ cfgs)%list).
  { clear -Hcfgs. induction Hcfgs as [|line c lines cfgs Hc _ IH]; intros acc; [by rewrite app_nil_r|].
    cbn [foldM]. unfold read_cfg at 1. rewrite Hc. cbn [mbind res_mbind res_bind]. by rewrite IH, <-app_assoc. }
  by rewrite Hall.
Qed.

(** A complaint about [cdylib] names [dylib] too: its line is then taken for that
    of the next type, and so on. *)
Example dylib_hidden :
  (m ← read_crate_types "warning: dropping unsupported crate type `cdylib` for target `t`"
         ["___"; "lib___.rlib"; "lib___.so"; "lib___.a"; "lib___.so"]; Ok (m.1 !! "dylib", m.1 !! "staticlib"))
  = Ok (Some None, Some (Some ("lib", ".so"))).
Proof. vm_eq. Qed.
