(* ===== verification/OutputFiles.v ===== *)
(** Where the files of a build go: the directories of
    [src/cargo/core/compiler/layout.rs], the metadata that makes the names of a
    unit's files its own, and the files themselves,
    [src/cargo/core/compiler/context/compilation_files.rs]. *)
From Stdlib Require Import NArith.
From S2P Require Import Prelude Str BuildScript UnitGraph.
From S2P Require Import Extern Path Utf8 SourceId PackageId Features ConfigValue Config Target Cfg Dependency Summary Profiles TomlTargets Package ReadManifest Resolve Workspace UnitDeps BuildMap Fingerprint RustcInfo TargetInfo.

Local Open Scope string_scope.

(** * The directories of a build *)

(** [struct Layout], without its lock. *)
Record Layout := mkLayout {
  lay_root : path;
  lay_deps : path;
  lay_native : path;
  lay_build : path;
  lay_incremental : path;
  lay_fingerprint : path;
  lay_examples : path;
}.
(** [Layout::at], [Layout::new]; the directory is not locked here. *)
Definition layout_at (root : path) : Layout :=
  mkLayout root (path_join root "deps") (path_join root "native") (path_join root "build") (path_join root "incremental")
    (path_join root ".fingerprint") (path_join root "examples").
Definition layout_new (target_dir : path) (triple : option string) (dest : string) : cresult Layout :=
  p ← match triple with
      | Some triple => match Path.file_stem triple with Some s => Ok (path_join target_dir s) | None => Err "invalid target" end
      | None => Ok target_dir
      end;
  Ok (layout_at (path_join p dest)).
(** [Layout::prepare]: the directories that are made, in order. *)
Definition layout_prepare (exists_ : path → bool) (l : Layout) : list path :=
  List.filter (λ d, negb (exists_ d)) [lay_root l; lay_deps l; lay_native l; lay_incremental l; lay_fingerprint l; lay_examples l; lay_build l].

(** * Metadata *)

(** [Display for Metadata], [{:016x}] *)
Fixpoint hex_digits (k : nat) (n : N) : string :=
  match k with
  | O => ""
  | S k => hex_digits k (n / 16) ++ String (hex_digit (n mod 16)) ""
  end.
Definition show_metadata (m : N) : string := hex_digits 16 m.

(** The metadata of units: [None] for a unit without any. *)
Abbreviation Metas := (hashmap CUnit (option N)).

Section files.
Context `{SV : SemverLib} `{UL : UrlLib} `{RS : RustStd} `{CL : !CacheLib}.

(** What [SourceId::stable_hash] and [PackageId::stable_hash] feed to the hasher:
    the directory of a path source as it is seen from the workspace. *)
Inductive StableSource := StableRelative (k : Kind) (p : path) | StableFull (s : hkey SourceId).
Definition stable_source (workspace : path) (s : SourceId) : cresult StableSource :=
  if SourceId.is_path s then
    p ← unwrap (url_to_file_path (sid_url s));
    match strip_prefix p workspace with
    | Some p => Ok (StableRelative (sid_kind s) p)
    | None => Ok (StableFull (to_key s))
    end
  else Ok (StableFull (to_key s)).
Definition StablePackage : Type := string * hkey Version * StableSource.
Definition stable_package (workspace : path) (id : PackageId) : cresult StablePackage :=
  s ← stable_source workspace (pid_source_id id); Ok (pid_name id, to_key (pid_version id), s).

(** What [compute_metadata] feeds to the hasher. *)
Record MetadataKey := mkMetadataKey {
  mk_package : StablePackage;
  mk_authors : list string;
  mk_description : option string;
  mk_homepage : option string;
  mk_features : list string;
  mk_deps : list (option N);
  mk_profile : hkey Profile;
  mk_mode : CompileMode;
  mk_extra_args : option (list string);
  mk_kind : PlatformKind;
  mk_name : string;
  mk_target_kind : TargetKind;
  mk_rustc : string;
  mk_channel : option string;
}.
Class MetadataHash := {
  hash_metadata : MetadataKey → N;
  short_hash_package : StablePackage → string;
}.
(** A hash is a [u64]. *)
Class MetadataHashLaws `{MH : !MetadataHash} := { hash_metadata_u64 : ∀ k, (hash_metadata k < 2 ^ 64)%N }.
Context `{MH : !MetadataHash}.
Context (exec_with_output : ProcessBuilder → cresult (string * string)).
(** What is read of the context, [__CARGO_DEFAULT_LIB_METADATA] among it. *)
Context (bcx : BuildContext) (ws_root : path) (rustc_version : string) (default_lib_metadata : option string).
Context (manifest_metadata : Package → ManifestMetadata) (extra_compiler_args : hashmap CUnit (list string)).
Context (unit_cmp : CUnit → CUnit → comparison) (unit_dependencies : hashmap CUnit (list CUnit)) (overridden : hashset (PackageId * PlatformKind)).
Abbreviation targets_of := (dep_targets unit_cmp unit_dependencies overridden).

(** [compute_metadata]: the units that get none. *)
Definition no_metadata (u : CUnit) : bool :=
  negb (mode_is_any_test (unit_mode u) || mode_is_check (unit_mode u)) &&
  (is_dylib (unit_target u) || is_cdylib (unit_target u) || (is_bin (unit_target u) && starts_with "wasm32-" (target_triple bcx))) &&
  SourceId.is_path (pid_source_id (package_id (unit_pkg u))) &&
  negb (bool_decide (is_Some default_lib_metadata)).
Definition metadata_key (u : CUnit) (pkg : StablePackage) (deps : list (option N)) : MetadataKey :=
  let md := manifest_metadata (unit_pkg u) in
  mkMetadataKey pkg (md_authors md) (md_description md) (md_homepage md)
    (features_sorted (bcx_resolve bcx) (package_id (unit_pkg u))) (sort_by (option_cmp N.compare) deps)
    (to_key (unit_profile u)) (unit_mode u) (hget extra_compiler_args u) (unit_kind u) (tgt_name (unit_target u))
    (tgt_kind (unit_target u)) rustc_version default_lib_metadata.

Fixpoint metadata_of_all (f : CUnit → Metas → option (cresult (option N * Metas))) (us : list CUnit) (metas : Metas)
    : option (cresult (list (option N) * Metas)) :=
  match us with
  | [] => Some (Ok ([], metas))
  | u :: us =>
      let* (m, metas) := f u metas in
      let* (ms, metas) := metadata_of_all f us metas in
      Some (Ok (m :: ms, metas))
  end.
Definition compute_metadata (f : CUnit → Metas → option (cresult (option N * Metas))) (u : CUnit) (metas : Metas)
    : option (cresult (option N * Metas)) :=
  if no_metadata u then Some (Ok (None, metas))
  else
    let* pkg := Some (stable_package ws_root (package_id (unit_pkg u))) in
    let* targets := Some (targets_of u) in
    let* (deps, metas) := metadata_of_all f targets metas in
    Some (Ok (Some (hash_metadata (metadata_key u pkg deps)), metas)).
Definition index_metas (metas : Metas) (u : CUnit) : cresult (option N) :=
  match hget metas u with Some m => Ok m | None => Panic "no entry found for key" end.
Fixpoint metadata_of (fuel : nat) (u : CUnit) (metas : Metas) : option (cresult (option N * Metas)) :=
  match hget metas u with
  | Some m => Some (Ok (m, metas))
  | None =>
      match fuel with
      | O => None
      | S fuel =>
          let* (meta, metas) := compute_metadata (metadata_of fuel) u metas in
          let metas := hinsert u meta metas in
          let* targets := Some (targets_of u) in
          let* (_, metas) := metadata_of_all (metadata_of fuel) targets metas in
          let* m := Some (index_metas metas u) in
          Some (Ok (m, metas))
      end
  end.

(** * The files of a unit *)

(** [struct OutputFile], [struct CompilationFiles] *)
Record OutputFile := mkOutputFile { of_path : path; of_hardlink : option path; of_flavor : FileFlavor }.
Record CompilationFiles := mkFiles {
  cf_host : Layout;
  cf_target : option Layout;
  cf_export_dir : option path;
  cf_roots : list CUnit;
  cf_metas : Metas;
  cf_outputs : hashmap CUnit (option (list OutputFile));
}.
(** [CompilationFiles::new] *)
Definition files_new (fuel : nat) (roots : list CUnit) (host : Layout) (target : option Layout) (export_dir : option path)
    : option (cresult CompilationFiles) :=
  let* (_, metas) := metadata_of_all (metadata_of fuel) roots ∅ in
  Some (Ok (mkFiles host target export_dir roots metas (foldl (λ m u, hinsert u None m) ∅ (hkeys metas)))).

Section names.
Context (files : CompilationFiles).

Definition cf_layout (k : PlatformKind) : Layout := match k with KHost => cf_host files | KTarget => default (cf_host files) (cf_target files) end.
Definition cf_metadata (u : CUnit) : cresult (option N) := index_metas (cf_metas files) u.
Definition target_short_hash (u : CUnit) : cresult string :=
  p ← stable_package ws_root (package_id (unit_pkg u)); Ok (short_hash_package p).
Definition pkg_dir (u : CUnit) : cresult string :=
  let name := pid_name (package_id (unit_pkg u)) in
  meta ← cf_metadata u;
  match meta with
  | Some meta => Ok (name ++ "-" ++ show_metadata meta)
  | None => h ← target_short_hash u; Ok (name ++ "-" ++ h)
  end.
Definition cf_target_root : path := lay_root (cf_host files).
Definition cf_host_deps : path := lay_deps (cf_host files).
Definition cf_deps_dir (u : CUnit) : path := lay_deps (cf_layout (unit_kind u)).
Definition cf_fingerprint_dir (u : CUnit) : cresult path :=
  dir ← pkg_dir u; Ok (path_join (lay_fingerprint (cf_layout (unit_kind u))) dir).
Definition assert_ (b : bool) (condition : string) : cresult unit := if b then Ok tt else Panic ("assertion failed: " ++ condition).
Definition build_script_dir (u : CUnit) : cresult path :=
  _ ← assert_ (is_custom_build (unit_target u)) "unit.target.is_custom_build()";
  _ ← assert_ (negb (mode_is_run_custom_build (unit_mode u))) "!unit.mode.is_run_custom_build()";
  dir ← pkg_dir u; Ok (path_join (lay_build (cf_layout KHost)) dir).
Definition build_script_out_dir (u : CUnit) : cresult path :=
  _ ← assert_ (is_custom_build (unit_target u)) "unit.target.is_custom_build()";
  _ ← assert_ (mode_is_run_custom_build (unit_mode u)) "unit.mode.is_run_custom_build()";
  dir ← pkg_dir u; Ok (path_join (path_join (lay_build (cf_layout (unit_kind u))) dir) "out").
Definition cf_out_dir (u : CUnit) : cresult path :=
  if mode_is_doc (unit_mode u) then p ← unwrap (parent (lay_root (cf_layout (unit_kind u)))); Ok (path_join p "doc")
  else if is_custom_build (unit_target u) then build_script_dir u
  else if is_example (unit_target u) then Ok (lay_examples (cf_layout (unit_kind u)))
  else Ok (cf_deps_dir u).
Definition bin_stem (u : CUnit) : string :=
  if allows_underscores (unit_target u) then tgt_name (unit_target u) else crate_name (unit_target u).
Definition cf_file_stem (u : CUnit) : cresult string :=
  meta ← cf_metadata u;
  match meta with
  | Some m => Ok (crate_name (unit_target u) ++ "-" ++ show_metadata m)
  | None => Ok (bin_stem u)
  end.
(** [CompilationFiles::link_stem] *)
Definition link_stem (u : CUnit) : cresult (option (path * string)) :=
  out_dir ← cf_out_dir u;
  file_stem ← cf_file_stem u;
  let bin_stem := bin_stem u in
  if path_ends_with out_dir "deps" then
    if is_bin (unit_target u) || hmem u (cf_roots files) then
      up ← unwrap (parent out_dir);
      Ok (Some (up, if mode_is_any_test (unit_mode u) then file_stem else bin_stem))
    else Ok None
  else if String.eqb bin_stem file_stem then Ok None
  else if path_ends_with out_dir "examples" then Ok (Some (out_dir, bin_stem))
  else up ← unwrap (parent out_dir); Ok (if path_ends_with up "build" then Some (out_dir, bin_stem) else None).

(** [CompilationFiles::calc_outputs]: the crate types that are asked for, *)
Definition wanted_types (u : CUnit) : list (string * FileFlavor) :=
  match tgt_kind (unit_target u) with
  | TBin | TCustomBuild | TExampleBin | TBench | TTest => [("bin", FNormal)]
  | TLib kinds | TExampleLib kinds =>
      if mode_is_any_test (unit_mode u) then [("bin", FNormal)]
      else List.map (λ k, (crate_type k, if kind_linkable k then FLinkable else FNormal)) kinds
  end.
(** the file of a type, and its link, *)
Definition output_file (out_dir file_stem : string) (link : option (path * string)) (t : FileType) : OutputFile :=
  mkOutputFile (path_join out_dir (ft_filename t file_stem)) (option_map (λ l, path_join l.1 (ft_filename t l.2)) link) (ft_flavor t).
(** the closure [add], which also collects the types that are not supported, *)
Record Added := mkAdded { ret : list OutputFile; unsupported : list string; info : TargetInfo }.
Definition add_type (u : CUnit) (out_dir file_stem : string) (link : option (path * string)) (st : Added) (t : string * FileFlavor)
    : cresult Added :=
  let crate_type := if String.eqb t.1 "lib" then "rlib" else t.1 in
  '(types, ti) ← file_types exec_with_output (info st) crate_type t.2 (tgt_kind (unit_target u)) (target_triple bcx);
  match types with
  | Some types => Ok (mkAdded (ret st ++ List.map (output_file out_dir file_stem link) types) (unsupported st) ti)
  | None => Ok (mkAdded (ret st) (unsupported st ++ [crate_type]) ti)
  end.
Definition rmeta : FileType := mkFileType FLinkable ".rmeta" "lib" false.
(** and what is known of the platforms, with their memos. *)
Record Infos := mkInfos { host_info : TargetInfo; target_info : TargetInfo }.
Definition unit_info (u : CUnit) (i : Infos) : TargetInfo := if for_host (unit_target u) then host_info i else target_info i.
Definition set_unit_info (u : CUnit) (ti : TargetInfo) (i : Infos) : Infos :=
  if for_host (unit_target u) then mkInfos ti (target_info i) else mkInfos (host_info i) ti.
Definition calc_outputs (u : CUnit) (i : Infos) : cresult (list OutputFile * Infos) :=
  out_dir ← cf_out_dir u;
  file_stem ← cf_file_stem u;
  link ← link_stem u;
  st ← (if mode_is_check (unit_mode u) then Ok (mkAdded [output_file out_dir file_stem link rmeta] [] (unit_info u i))
        else foldM (add_type u out_dir file_stem link) (mkAdded [] [] (unit_info u i)) (wanted_types u));
  match ret st with
  | [] =>
      pkg ← PackageId.display (package_id (unit_pkg u));
      match unsupported st with
      | [] => Err ("cannot compile `" ++ pkg ++ "` as the target `" ++ target_triple bcx ++
                   "` does not support any of the output crate types")
      | l => Err ("cannot produce " ++ join ", " l ++ " for `" ++ pkg ++ "` as the target `" ++ target_triple bcx ++
                  "` does not support these crate types")
      end
  | _ :: _ => Ok (ret st, set_unit_info u (info st) i)
  end.
End names.

(** [CompilationFiles::outputs]: calculated once, unless it fails. *)
Definition cf_unit_outputs (u : CUnit) (files : CompilationFiles) (i : Infos) : cresult (list OutputFile * CompilationFiles * Infos) :=
  match hget (cf_outputs files) u with
  | None => Panic "no entry found for key"
  | Some (Some o) => Ok (o, files, i)
  | Some None =>
      '(o, i) ← calc_outputs files u i;
      Ok (o, mkFiles (cf_host files) (cf_target files) (cf_export_dir files) (cf_roots files) (cf_metas files)
               (hinsert u (Some o) (cf_outputs files)), i)
  end.
End files.

(** * Strings *)

(** The last occurrence of a character cuts a string in one way. *)
Lemma last_cut c x y s t : contains_char c s = false → contains_char c t = false →
  x ++ String c s = y ++ String c t → x = y ∧ s = t.
Proof.
  intros Hs Ht. revert y. induction x as [|a x IH]; intros [|b y] H.
  - by apply String_inj in H as [_ ->].
  - apply String_inj in H as [_ ->]. rewrite contains_char_app in Hs. cbn in Hs. rewrite Ascii.eqb_refl in Hs. by rewrite orb_true_r in Hs.
  - apply String_inj in H as [_ <-]. rewrite contains_char_app in Ht. cbn in Ht. rewrite Ascii.eqb_refl in Ht. by rewrite orb_true_r in Ht.
  - cbn in H. apply String_inj in H as [-> H]. by apply IH in H as [-> ->].
Qed.

Lemma app_inj_length (a b s t : string) : String.length a = String.length b → a ++ s = b ++ t → a = b ∧ s = t.
Proof.
  revert b. induction a as [|c a IH]; intros [|d b] Hl H; try done. cbn in H. apply String_inj in H as [-> H].
  by apply IH in H as [-> ->]; [|cbn in Hl; lia].
Qed.

(** ** Hexadecimal *)
Lemma hex_digits_length k n : String.length (hex_digits k n) = k.
Proof. revert n. induction k as [|k IH]; intros n; [done|]. cbn [hex_digits]. rewrite length_app_str, IH. cbn [String.length]. lia. Qed.
Lemma hex_digits_inj k n m : (n < 16 ^ N.of_nat k)%N → (m < 16 ^ N.of_nat k)%N → hex_digits k n = hex_digits k m → n = m.
Proof.
  revert n m. induction k as [|k IH]; intros n m Hn Hm H; [cbn in Hn, Hm; lia|].
  rewrite Nat2N.inj_succ, N.pow_succ_r' in Hn, Hm. cbn [hex_digits] in H.
  apply app_inj_length in H as [H1 H2]; [|by rewrite !hex_digits_length]. apply String_inj in H2 as [H2 _].
  apply hex_digit_inj in H2; [|by apply N.mod_lt..].
  apply IH in H1; [|apply N.Div0.div_lt_upper_bound; lia..].
  rewrite (N.div_mod n 16), (N.div_mod m 16) by done. by rewrite H1, H2.
Qed.
Lemma show_metadata_inj n m : (n < 2 ^ 64)%N → (m < 2 ^ 64)%N → show_metadata n = show_metadata m → n = m.
Proof. apply (hex_digits_inj 16). Qed.
(** It has no character that separates. *)
Definition separators : list ascii := ["-"; "_"; "/"]%char.
Lemma hex_digits_plain c k n : c ∈ separators → contains_char c (hex_digits k n) = false.
Proof.
  intros Hc. revert n. induction k as [|k IH]; intros n; [done|]. cbn [hex_digits]. rewrite contains_char_app, IH. cbn.
  rewrite orb_false_r. apply Ascii.eqb_neq. intros ->.
  assert (Hd : (n mod 16 < 16)%N) by (by apply N.mod_lt). revert Hc Hd. generalize (n mod 16)%N. intros d Hc Hd.
  assert (Hb : forallb (λ d, negb (bool_decide (hex_digit d ∈ separators))) (N.of_nat <$> seq 0 16) = true) by (by vm_compute).
  rewrite forallb_forall in Hb. specialize (Hb d).
  assert (Hin : In d (N.of_nat <$> seq 0 16)).
  { apply list_elem_of_In, list_elem_of_fmap. exists (N.to_nat d). split; [by rewrite N2Nat.id|]. apply elem_of_seq. cbn. lia. }
  apply Hb, negb_true_iff, bool_decide_eq_false in Hin. done.
Qed.

Lemma replace_char_app a b s t : replace_char a b (s ++ t) = replace_char a b s ++ replace_char a b t.
Proof. induction s as [|c s IH]; [done|]. cbn. by rewrite IH. Qed.
Lemma replace_char_none a b s : contains_char a s = false → replace_char a b s = s.
Proof. induction s as [|c s IH]; [done|]. cbn. intros H. by destruct (Ascii.eqb a c); [|rewrite IH]. Qed.
Lemma replace_char_gone a b s : a ≠ b → contains_char a (replace_char a b s) = false.
Proof.
  intros Hab. induction s as [|c s IH]; [done|]. cbn. destruct (Ascii.eqb a c) eqn:Hc; [by rewrite (proj2 (Ascii.eqb_neq a b) Hab)|by rewrite Hc].
Qed.

(** ** The last component of a path *)
Lemma split_char_tail s t : no_slash t → ∃ l r, split_char "/" (s ++ t) = (l ++ [(r ++ t)%string])%list ∧
  ∀ c, contains_char c s = false → contains_char c r = false.
Proof.
  intros Ht. induction s as [|d s IH].
  { exists [], "". split; [|done]. cbn [String.append app]. by apply split_char_plain. }
  destruct IH as (l & r & H1 & H2). cbn [String.append split_char]. rewrite H1. destruct (Ascii.eqb_spec "/" d) as [<-|Hne].
  - exists ("" :: l), r. split; [done|]. intros c Hc. apply H2. cbn in Hc. by destruct (Ascii.eqb c "/").
  - destruct l as [|x l].
    + exists [], (String d r). split; [done|]. intros c Hc. cbn in Hc |- *. destruct (Ascii.eqb c d); [done|by apply H2].
    + exists (String d x :: l), r. split; [done|]. intros c Hc. apply H2. cbn in Hc. by destruct (Ascii.eqb c d).
Qed.

Lemma components_last p l x : split_char "/" p = (l ++ [x])%list → plain x → last (components p) = Some (Path.Normal x).
Proof.
  intros Hp Hx. unfold components. rewrite last_app.
  enough (last (body_components (body p)) = Some (Path.Normal x)) as -> by done.
  unfold body. destruct (is_absolute p) eqn:Ha.
  - unfold is_absolute in Ha. apply starts_with_spec in Ha as [r ->]. change (str_drop 1 ("/" ++ r)) with r.
    cbn in Hp. destruct (split_char_cons "/" r) as (y & l' & Hr). destruct l as [|z l]; cbn in Hp; [congruence|].
    injection Hp as _ Hp. by rewrite Hp, body_components_app, (body_components_plain x Hx), last_snoc.
  - by rewrite Hp, body_components_app, (body_components_plain x Hx), last_snoc.
Qed.
Lemma split_join_tail d f : ∃ l, split_char "/" (path_join d f) = (l ++ split_char "/" f)%list.
Proof.
  unfold path_join. destruct (is_absolute f); [by exists []|]. destruct (is_empty d || _) eqn:Hd.
  - apply orb_true_iff in Hd as [Hd|Hd]; [destruct d; [by exists []|done]|].
    apply ends_with_char_app in Hd as [d' ->]. rewrite app_assoc_str. change (String "/" "" ++ f) with ("/" ++ f).
    eexists. by rewrite split_char_slash.
  - eexists. by rewrite split_char_slash.
Qed.
Lemma long_name s : (2 < String.length s)%nat → skipped s = false ∧ s ≠ "..".
Proof. destruct s as [|a [|b [|c s]]]; cbn [String.length]; try lia. intros _. split; [|done]. unfold skipped. cbn. by destruct (Ascii.eqb a "."). Qed.
(** A file whose name ends in a character that separates and some more. *)
Lemma file_last d a c t : (c = "-" ∨ c = "_")%char → no_slash t → (2 < String.length t)%nat →
  ∃ a', last (components (path_join d (a ++ String c t))) = Some (Path.Normal (a' ++ String c t)) ∧
    ∀ e, contains_char e a = false → contains_char e a' = false.
Proof.
  intros Hc Ht Hl. destruct (split_join_tail d (a ++ String c t)) as [l Hl'].
  assert (Ht' : no_slash (String c t)) by (by destruct Hc as [-> | ->]).
  destruct (split_char_tail a (String c t) Ht') as (l2 & r & H1 & H2). exists r. split; [|done].
  apply (components_last _ (l ++ l2)%list); [by rewrite Hl', H1, app_assoc|].
  assert (Hlen : (2 < String.length (r ++ String c t))%nat) by (rewrite length_app_str; cbn; lia).
  pose proof (split_char_segments (a ++ String c t)) as Hseg. rewrite H1, Forall_app, Forall_singleton in Hseg.
  split; [apply Hseg|by apply long_name].
Qed.

(** * The table of metadata *)
Section table.
Context `{SV : SemverLib} `{UL : UrlLib} `{RS : RustStd} `{MH : !MetadataHash}.
Context (bcx : BuildContext) (ws_root : path) (rustc_version : string) (default_lib_metadata : option string).
Context (manifest_metadata : Package → ManifestMetadata) (extra_compiler_args : hashmap CUnit (list string)).
Context (unit_cmp : CUnit → CUnit → comparison) (unit_dependencies : hashmap CUnit (list CUnit)) (overridden : hashset (PackageId * PlatformKind)).
Abbreviation targets_of := (dep_targets unit_cmp unit_dependencies overridden).
Abbreviation no_meta := (no_metadata bcx default_lib_metadata).
Abbreviation key_of := (metadata_key bcx rustc_version default_lib_metadata manifest_metadata extra_compiler_args).
Abbreviation meta_of := (metadata_of bcx ws_root rustc_version default_lib_metadata manifest_metadata extra_compiler_args unit_cmp unit_dependencies overridden).
Abbreviation build_files := (files_new bcx ws_root rustc_version default_lib_metadata manifest_metadata extra_compiler_args unit_cmp unit_dependencies overridden).

Definition unit_edge (u v : CUnit) : Prop := ∃ ts, targets_of u = Ok ts ∧ v ∈ ts.

(** What a unit's metadata is a hash of, given that of its dependencies. *)
Definition key_in (metas : Metas) (u : CUnit) (k : MetadataKey) : Prop :=
  ∃ pkg ts ds, stable_package ws_root (package_id (unit_pkg u)) = Ok pkg ∧ targets_of u = Ok ts ∧
    Forall2 (λ t d, hget metas t = Some d) ts ds ∧ k = key_of u pkg ds.
Record entry_ok (metas : Metas) (u : CUnit) (m : option N) : Prop := {
  eo_targets : ∃ ts, targets_of u = Ok ts ∧ ∀ t, t ∈ ts → is_Some (hget metas t);
  eo_value : if no_meta u then m = None else ∃ k, key_in metas u k ∧ m = Some (hash_metadata k);
}.
(** What is added for the units [us]. *)
Record grown (us : list CUnit) (metas metas' : Metas) : Prop := {
  gn_old : metas ⊆ metas';
  gn_new i v m : metas' !! i = Some (v, m) → metas !! i = None →
    to_key v = i ∧ entry_ok metas' v m ∧ ∃ u, u ∈ us ∧ rtc unit_edge u v;
}.
Lemma hget_sub (metas metas' : Metas) u m : metas ⊆ metas' → hget metas u = Some m → hget metas' u = Some m.
Proof. intros Hs [v Hv]%hget_Some_inv. eapply hget_Some. by eapply lookup_weaken. Qed.
Lemma entry_sub metas metas' u m : metas ⊆ metas' → entry_ok metas u m → entry_ok metas' u m.
Proof.
  intros Hs [(ts & Ht & Hin) Hv]. split.
  - exists ts. split; [done|]. intros t [d Hd]%Hin. exists d. by eapply hget_sub.
  - destruct (no_meta u); [done|]. destruct Hv as (k & (pkg & ts' & ds & H1 & H2 & H3 & H4) & Hm). exists k. split; [|done].
    exists pkg, ts', ds. split_and!; [done..| |done]. eapply Forall2_impl; [exact H3|]. intros t d. by apply hget_sub.
Qed.
Lemma grown_refl us metas : grown us metas metas.
Proof. split; [done|]. intros i v m H1 H2. congruence. Qed.
Lemma grown_trans us vs metas1 metas2 metas3 : grown us metas1 metas2 → grown vs metas2 metas3 → grown (us ++ vs) metas1 metas3.
Proof.
  intros [H1 H2] [H3 H4]. split; [by etrans|]. intros i v m Hm Hn. destruct (metas2 !! i) as [[v' m']|] eqn:Hi.
  - assert (metas3 !! i = Some (v', m')) by (by eapply lookup_weaken). simplify_eq.
    destruct (H2 _ _ _ Hi Hn) as (Hk & He & u & Hu & Hr). split; [done|]. split; [by eapply entry_sub|].
    exists u. split; [apply elem_of_app; by left|done].
  - destruct (H4 _ _ _ Hm Hi) as (Hk & He & u & Hu & Hr). split; [done|]. split; [done|].
    exists u. split; [apply elem_of_app; by right|done].
Qed.

Context (rank : CUnit → nat) (Hrank : ∀ u v, unit_edge u v → (rank v < rank u)%nat) (Hkey : ∀ u v, to_key u = to_key v → rank u = rank v).

Definition computes {A} (us : list CUnit) (good : A → Metas → Prop) (metas : Metas) (o : option (cresult (A * Metas))) : Prop :=
  ∃ r, o = Some r ∧ match r with Ok (a, metas') => grown us metas metas' ∧ good a metas' | _ => True end.
Lemma all_computes f us metas :
  (∀ u metas, u ∈ us → computes [u] (λ m metas', hget metas' u = Some m) metas (f u metas)) →
  computes us (λ ms metas', Forall2 (λ u m, hget metas' u = Some m) us ms) metas (metadata_of_all f us metas).
Proof.
  revert metas. induction us as [|u us IH]; intros metas Hf; [by eexists; split; [done|]; split; [apply grown_refl|constructor]|].
  cbn [metadata_of_all]. destruct (Hf u metas (list_elem_of_here _ _)) as ([[m metas1]| |] & -> & Hr); cbn [fbind]; [|by eexists..].
  destruct Hr as [Hg Hm].
  destruct (IH metas1) as ([[ms metas2]| |] & -> & Hr); cbn [fbind]; [by intros; apply Hf, list_elem_of_further| |by eexists..].
  destruct Hr as [Hg' Hms]. eexists. split; [done|]. split; [by eapply (grown_trans [u])|].
  constructor; [by eapply hget_sub; [apply Hg'|]|done].
Qed.

Lemma rank_reach u v : rtc unit_edge u v → (rank v <= rank u)%nat.
Proof. induction 1 as [|a b c H _ IH]; [done|]. apply Hrank in H. lia. Qed.

(** A unit is not reached from what it depends on. *)
Lemma not_below u ts metas metas' : targets_of u = Ok ts → metas !! to_key u = None → grown ts metas metas' → metas' !! to_key u = None.
Proof.
  intros Ht Hnone [_ Hnew]. destruct (metas' !! to_key u) as [[v m]|] eqn:Hv; [|done].
  destruct (Hnew _ _ _ Hv Hnone) as (Hk & _ & t & Hin & Hr). apply rank_reach in Hr. apply Hkey in Hk.
  assert (unit_edge u t) as He%Hrank by (by exists ts). lia.
Qed.
Lemma below_grown u ts metas metas' : targets_of u = Ok ts → grown ts metas metas' →
  ∀ i v m, metas' !! i = Some (v, m) → metas !! i = None → to_key v = i ∧ entry_ok metas' v m ∧ ∃ w, w ∈ [u] ∧ rtc unit_edge w v.
Proof.
  intros Ht [_ Hnew] i v m Hm Hn. destruct (Hnew _ _ _ Hm Hn) as (Hk & He & t & Hin & Hr). split; [done|]. split; [done|].
  exists u. split; [apply list_elem_of_here|]. eapply rtc_l; [|exact Hr]. by exists ts.
Qed.

(** A unit that is inserted between two visits of what it depends on. *)
Lemma grown_insert u ts m metas metas1 metas2 : targets_of u = Ok ts → metas !! to_key u = None →
  grown ts metas metas1 → grown ts (hinsert u m metas1) metas2 → entry_ok metas2 u m →
  grown [u] metas metas2 ∧ hget metas2 u = Some m.
Proof.
  intros Ht Hnone Hg1 Hg2 He. pose proof (not_below _ _ _ _ Ht Hnone Hg1) as Hn1.
  assert (Hu : hinsert u m metas1 !! to_key u = Some (u, m)) by (unfold hinsert; rewrite Hn1; by rewrite lookup_insert_eq).
  assert (Hsub : metas1 ⊆ hinsert u m metas1) by (unfold hinsert; rewrite Hn1; by apply insert_subseteq).
  assert (Hu2 : metas2 !! to_key u = Some (u, m)) by (eapply lookup_weaken; [exact Hu|apply Hg2]).
  split; [|by eapply hget_Some]. split; [etrans; [apply Hg1|etrans; [exact Hsub|apply Hg2]]|].
  intros i v d Hv Hi. destruct (hinsert u m metas1 !! i) as [[v' d']|] eqn:Hi'; [|by eapply (below_grown u ts _ _ Ht Hg2)].
  assert (metas2 !! i = Some (v', d')) by (eapply lookup_weaken; [exact Hi'|apply Hg2]). simplify_eq.
  unfold hinsert in Hi'. rewrite Hn1 in Hi'. apply lookup_insert_Some in Hi' as [[<- [= <- <-]]|[Hne Hi']].
  - split; [done|]. split; [done|]. exists u. split; [apply list_elem_of_here|apply rtc_refl].
  - destruct (below_grown u ts _ _ Ht Hg1 _ _ _ Hi' Hi) as (Hk & He' & Hr). split; [done|]. split; [|done].
    eapply entry_sub; [|exact He']. etrans; [exact Hsub|apply Hg2].
Qed.

Lemma metadata_of_computes fuel u metas : (rank u < fuel)%nat →
  computes [u] (λ m metas', hget metas' u = Some m) metas (meta_of fuel u metas).
Proof.
  revert u metas. induction fuel as [|fuel IH]; intros u metas Hf; [lia|]. cbn [metadata_of].
  destruct (hget metas u) as [m|] eqn:Hnone; [by eexists; split; [done|]; split; [apply grown_refl|]|].
  assert (Hnone' : metas !! to_key u = None) by (destruct (metas !! to_key u) as [[v m]|] eqn:E; [by apply hget_Some in E; congruence|done]).
  assert (Hall : ∀ ts metas, targets_of u = Ok ts →
    computes ts (λ ms metas', Forall2 (λ u m, hget metas' u = Some m) ts ms) metas (metadata_of_all (meta_of fuel) ts metas)).
  { intros ts metas0 Ht. apply all_computes. intros t metas' Hin. apply IH.
    assert (unit_edge u t) as He%Hrank by (by exists ts). lia. }
  unfold compute_metadata. destruct (no_meta u) eqn:Hno; cbn [fbind].
  - destruct (targets_of u) as [ts| |] eqn:Ht; cbn [fbind]; [|by eexists..].
    destruct (Hall ts (hinsert u None metas) eq_refl) as ([[ds metas2]| |] & -> & Hr); cbn [fbind]; [|by eexists..].
    destruct Hr as [Hg Hds].
    destruct (grown_insert u ts None metas metas metas2 Ht Hnone' (grown_refl _ _) Hg) as [H1 H2].
    { split; [|by rewrite Hno]. exists ts. split; [done|]. intros t Hin.
      apply list_elem_of_lookup in Hin as [j Hj]. apply (Forall2_lookup_l _ _ _ _ _ Hds) in Hj as (d & _ & Hd). by exists d. }
    unfold index_metas. rewrite H2. by eexists.
  - destruct (stable_package ws_root (package_id (unit_pkg u))) as [pkg| |] eqn:Hpkg; cbn [fbind]; [|by eexists..].
    destruct (targets_of u) as [ts| |] eqn:Ht; cbn [fbind]; [|by eexists..].
    destruct (Hall ts metas eq_refl) as ([[ds metas1]| |] & -> & Hr); cbn [fbind]; [|by eexists..]. destruct Hr as [Hg1 Hds1].
    set (m := Some _).
    destruct (Hall ts (hinsert u m metas1) eq_refl) as ([[ds2 metas2]| |] & -> & Hr); cbn [fbind]; [|by eexists..].
    destruct Hr as [Hg2 Hds2].
    pose proof (not_below _ _ _ _ Ht Hnone' Hg1) as Hn1.
    assert (Hsub : metas1 ⊆ metas2) by (etrans; [|apply Hg2]; unfold hinsert; rewrite Hn1; by apply insert_subseteq).
    destruct (grown_insert u ts m metas metas1 metas2 Ht Hnone' Hg1 Hg2) as [H1 H2].
    { split.
      - exists ts. split; [done|]. intros t Hin.
        apply list_elem_of_lookup in Hin as [j Hj]. apply (Forall2_lookup_l _ _ _ _ _ Hds2) in Hj as (d & _ & Hd). by exists d.
      - rewrite Hno. eexists. split; [|done]. exists pkg, ts, ds. split_and!; [done..| |done].
        eapply Forall2_impl; [exact Hds1|]. intros t d. by apply hget_sub. }
    unfold index_metas. rewrite H2. by eexists.
Qed.
End table.

(** * The files of a build *)

(** Of two elements of a list that is no longer than one there is one; of two of
    the same name where names are different as well. *)
Lemma short_same {A} (l : list A) x y : (length l <= 1)%nat → x ∈ l → y ∈ l → x = y.
Proof. destruct l as [|a [|b l]]; cbn; intros Hl Hx Hy; [by apply elem_of_nil in Hx|set_solver|lia]. Qed.
Lemma NoDup_fmap_same {A B} (f : A → B) l x y : NoDup (f <$> l) → x ∈ l → y ∈ l → f x = f y → x = y.
Proof.
  induction l as [|a l IH]; [by intros _ Hx%elem_of_nil|]. rewrite fmap_cons, NoDup_cons, !elem_of_cons.
  intros [Ha Hn] [->|Hx] [->|Hy] Hf; [done| | |by apply IH].
  - destruct Ha. rewrite Hf. by apply list_elem_of_fmap_2.
  - destruct Ha. rewrite <-Hf. by apply list_elem_of_fmap_2.
Qed.
Lemma target_ident ts t t' : well_formed ts → t ∈ ts → t' ∈ ts → tgt_kind t = tgt_kind t' → tgt_name t = tgt_name t' → t = t'.
Proof.
  intros Hwf Ht Ht' Hk Hn.
  assert (Hin : ∀ k : Target → bool, k t = true → k t' = true → t ∈ List.filter k ts ∧ t' ∈ List.filter k ts).
  { intros k H1 H2. rewrite !list_elem_of_In, !List.filter_In, <-!list_elem_of_In. done. }
  destruct (tgt_kind t) eqn:E; symmetry in Hk.
  1: destruct (Hin is_lib) as [H1 H2]; [by unfold is_lib; rewrite ?E, ?Hk..|]; by apply (short_same _ _ _ (wf_one_lib _ Hwf)).
  1: destruct (Hin is_bin) as [H1 H2]; [by unfold is_bin; rewrite ?E, ?Hk..|].
  2: destruct (Hin is_test) as [H1 H2]; [by unfold is_test; rewrite ?E, ?Hk..|].
  3: destruct (Hin is_bench) as [H1 H2]; [by unfold is_bench; rewrite ?E, ?Hk..|].
  4: destruct (Hin is_example) as [H1 H2]; [by unfold is_example; rewrite ?E, ?Hk..|].
  5: destruct (Hin is_example) as [H1 H2]; [by unfold is_example; rewrite ?E, ?Hk..|].
  6: destruct (Hin is_custom_build) as [H1 H2]; [by unfold is_custom_build; rewrite ?E, ?Hk..|]; by apply (short_same _ _ _ (wf_one_script _ Hwf)).
  all: eapply NoDup_fmap_same; [apply (wf_unique _ Hwf)|exact H1|exact H2|done]; set_solver.
Qed.

(** ** Names *)
Definition plain_name (s : string) : Prop := ∀ c, c ∈ separators → contains_char c s = false.
Definition plain_type (t : FileType) : Prop := contains_char "-" (ft_prefix t) = false ∧ plain_name (ft_suffix t).
Lemma plain_by_run s : forallb (λ c, negb (contains_char c s)) separators = true → plain_name s.
Proof. rewrite forallb_forall. intros H c Hc. apply negb_true_iff, H. by apply list_elem_of_In. Qed.
Lemma in_separators c : (c = "-" ∨ c = "_")%char → c ∈ separators.
Proof. intros [-> | ->]; set_solver. Qed.

Lemma ft_filename_cut t n m : plain_type t → ∃ a c, ft_filename t (n ++ "-" ++ show_metadata m) = a ++ String c (show_metadata m ++ ft_suffix t) ∧
  (c = "-" ∨ c = "_" ∧ contains_char "-" a = false)%char.
Proof.
  intros [Hp _]. unfold ft_filename. destruct (should_replace_hyphens t).
  - exists (ft_prefix t ++ replace_char "-" "_" n), "_"%char.
    rewrite !replace_char_app, (replace_char_none _ _ (show_metadata m)) by (apply hex_digits_plain; set_solver).
    split; [by rewrite !app_assoc_str|]. right. split; [done|]. by rewrite contains_char_app, Hp, replace_char_gone.
  - exists (ft_prefix t ++ n), "-"%char. split; [|by left]. rewrite !app_assoc_str. done.
Qed.
Lemma plain_tail m s c : plain_name s → c ∈ separators → contains_char c (show_metadata m ++ s) = false.
Proof. intros Hs Hc. unfold show_metadata. by rewrite contains_char_app, (hex_digits_plain c _ _ Hc), (Hs c Hc). Qed.
Lemma tail_long m s : (2 < String.length (show_metadata m ++ s))%nat.
Proof. rewrite length_app_str. unfold show_metadata. rewrite hex_digits_length. lia. Qed.
Lemma cut_same c c' a a' m m' s s' : plain_name s → plain_name s' → (c = "-" ∨ c = "_" ∧ contains_char "-" a = false)%char →
  (c' = "-" ∨ c' = "_" ∧ contains_char "-" a' = false)%char → (m < 2 ^ 64)%N → (m' < 2 ^ 64)%N →
  a ++ String c (show_metadata m ++ s) = a' ++ String c' (show_metadata m' ++ s') → m = m'.
Proof.
  intros Hs Hs' Hc Hc' Hm Hm' H.
  assert (Hsame : c = c' → m = m').
  { intros <-. apply last_cut in H as [_ H]; [|apply plain_tail; [done|apply in_separators; naive_solver]..].
    apply app_inj_length in H as [H _]; [by apply show_metadata_inj|]. unfold show_metadata. by rewrite !hex_digits_length. }
  assert (Hdash : ∀ a c t, contains_char c (a ++ String c t) = true) by (intros b d t; rewrite contains_char_app; cbn; by rewrite Ascii.eqb_refl, orb_true_r).
  assert (Hno : ∀ a m s, contains_char "-" a = false → plain_name s → contains_char "-" (a ++ String "_" (show_metadata m ++ s)) = false).
  { intros b k t Hb Ht. rewrite contains_char_app, Hb. cbn. apply (plain_tail k t "-"%char); [done|set_solver]. }
  destruct Hc as [-> | [-> Ha]], Hc' as [-> | [-> Ha']]; [by apply Hsame| | |by apply Hsame]; exfalso.
  - pose proof (Hdash a "-"%char (show_metadata m ++ s)) as E. rewrite H, Hno in E by done. done.
  - pose proof (Hdash a' "-"%char (show_metadata m' ++ s')) as E. rewrite <-H, Hno in E by done. done.
Qed.
(** Two files whose names end in metadata are the same only if the metadata is. *)
Lemma same_file d d' c c' a a' m m' s s' : plain_name s → plain_name s' → (c = "-" ∨ c = "_" ∧ contains_char "-" a = false)%char →
  (c' = "-" ∨ c' = "_" ∧ contains_char "-" a' = false)%char → (m < 2 ^ 64)%N → (m' < 2 ^ 64)%N →
  path_eqb (path_join d (a ++ String c (show_metadata m ++ s))) (path_join d' (a' ++ String c' (show_metadata m' ++ s'))) = true → m = m'.
Proof.
  intros Hs Hs' Hc Hc' Hm Hm' H%bool_decide_eq_true.
  assert (Hsl : ∀ m s, plain_name s → no_slash (show_metadata m ++ s)) by (intros k t Ht; apply plain_tail; [done|set_solver]).
  destruct (file_last d a c (show_metadata m ++ s)) as (b & H1 & H2); [naive_solver|by apply Hsl|apply tail_long|].
  destruct (file_last d' a' c' (show_metadata m' ++ s')) as (b' & H3 & H4); [naive_solver|by apply Hsl|apply tail_long|].
  rewrite H, H3 in H1. injection H1 as H1. symmetry in H1.
  apply (cut_same c c' b b' m m' s s'); [done..| | |done|done|exact H1]; naive_solver.
Qed.

(** ** What [file_types] names *)
Section names_of_types.
Context (exec_with_output : ProcessBuilder → cresult (string * string)).
(** The names a compiler gives: nothing that separates in what follows the
    crate's name, no hyphen before it. *)
Definition plain_info (i : option (string * string)) : Prop :=
  match i with Some (prefix, suffix) => contains_char "-" prefix = false ∧ plain_name suffix | None => True end.
Definition plain_compiler : Prop := ∀ p crate_type i, discover_crate_type exec_with_output p crate_type = Ok i → plain_info i.
Definition plain_target (ti : TargetInfo) : Prop := ∀ crate_type i, crate_types ti !! crate_type = Some i → plain_info i.

Lemma types_of_plain crate_type flavor kind triple prefix suffix t : plain_info (Some (prefix, suffix)) →
  t ∈ types_of crate_type flavor kind triple prefix suffix → plain_type t.
Proof.
  intros [Hp Hs]. unfold types_of. rewrite !elem_of_app.
  assert (Hin : ∀ (b : bool) (f : string * bool), b = true → (if b then [mkFileType FNormal f.1 prefix f.2] else []) =
    [mkFileType FNormal f.1 prefix f.2]) by (by intros b f ->).
  assert (Hone : ∀ fl s r, plain_name s → t ∈ [mkFileType fl s prefix r] → plain_type t).
  { intros fl s r Hn Ht. apply list_elem_of_singleton in Ht as ->. by split. }
  assert (Hnil : t ∈ [] → plain_type t) by (intros Ht; by apply elem_of_nil in Ht).
  intros [Ht|[Ht|[Ht|Ht]]]; [by eapply Hone| | |].
  - destruct (_ && _); [|by apply Hnil]. eapply Hone, Ht. by apply plain_by_run.
  - destruct (_ && _); [|by apply Hnil]. eapply Hone, Ht. by apply plain_by_run.
  - destruct (bool_decide _); [|by apply Hnil]. destruct (contains_str _ _); [eapply Hone, Ht; by apply plain_by_run|].
    destruct (ends_with _ _); [|by apply Hnil]. eapply Hone, Ht. by apply plain_by_run.
Qed.
Lemma file_types_plain ti crate_type flavor kind triple types ti' : plain_compiler → plain_target ti →
  file_types exec_with_output ti crate_type flavor kind triple = Ok (types, ti') →
  plain_target ti' ∧ ∀ ts t, types = Some ts → t ∈ ts → plain_type t.
Proof.
  intros Hc Ht H. unfold file_types in H. apply bind_Ok_inv in H as ([i ti1] & Hi & [= <- <-]).
  assert (plain_info i ∧ plain_target ti1) as [Hp Ht1].
  { unfold crate_type_info in Hi. destruct (crate_types ti !! crate_type) as [i'|] eqn:Hl.
    - injection Hi as <- <-. split; [by eapply Ht|done].
    - apply bind_Ok_inv in Hi as (i' & Hd & [= <- <-]). pose proof (Hc _ _ _ Hd) as Hp. split; [done|].
      intros ct j Hj. cbn in Hj. apply lookup_insert_Some in Hj as [[_ <-]|[_ Hj]]; [done|by eapply Ht]. }
  split; [done|]. intros ts t Hts Hin. destruct i as [[prefix suffix]|]; [|done]. injection Hts as <-. by eapply types_of_plain.
Qed.
End names_of_types.

Section build.
Context `{SV : SemverLib} `{UL : UrlLib} `{RS : RustStd} `{CL : !CacheLib} `{MH : !MetadataHash}.
Context (exec_with_output : ProcessBuilder → cresult (string * string)).
Context (bcx : BuildContext) (ws_root : path) (rustc_version : string) (default_lib_metadata : option string).
Context (manifest_metadata : Package → ManifestMetadata) (extra_compiler_args : hashmap CUnit (list string)).
Context (unit_cmp : CUnit → CUnit → comparison) (unit_dependencies : hashmap CUnit (list CUnit)) (overridden : hashset (PackageId * PlatformKind)).
Abbreviation targets_of := (dep_targets unit_cmp unit_dependencies overridden).
Abbreviation build_files := (files_new bcx ws_root rustc_version default_lib_metadata manifest_metadata extra_compiler_args unit_cmp unit_dependencies overridden).
Abbreviation entry := (entry_ok bcx ws_root rustc_version default_lib_metadata manifest_metadata extra_compiler_args unit_cmp unit_dependencies overridden).
Abbreviation key := (key_in bcx ws_root rustc_version default_lib_metadata manifest_metadata extra_compiler_args unit_cmp unit_dependencies overridden).
Abbreviation edge := (unit_edge unit_cmp unit_dependencies overridden).
Abbreviation outputs_of := (calc_outputs exec_with_output bcx ws_root).

(** The dependencies of a unit are those of its key. *)
Lemma dep_targets_key u v : to_key u = to_key v → targets_of u = targets_of v.
Proof.
  intros Hk. assert (Hk' := Hk). apply unit_key_eq in Hk' as (Hp & Ht & _ & Hkind & _). unfold dep_targets.
  rewrite Ht, (hget_key unit_dependencies u v) by done. unfold hcontains.
  assert (Hkey : to_key (package_id (unit_pkg u), unit_kind u) = to_key (package_id (unit_pkg v), unit_kind v)); [|by rewrite Hkey].
  change ((to_key (package_id (unit_pkg u)), unit_kind u) = (to_key (package_id (unit_pkg v)), unit_kind v)). by rewrite Hp, Hkind.
Qed.

(** The table of a build: one entry for each unit the roots lead to. *)
Record table_ok (roots : list CUnit) (metas : Metas) : Prop := {
  tb_entry i v m : metas !! i = Some (v, m) → to_key v = i ∧ entry metas v m ∧ ∃ r, r ∈ roots ∧ rtc edge r v;
  tb_roots r : r ∈ roots → is_Some (hget metas r);
}.
Lemma metas_closed roots metas u v : table_ok roots metas → is_Some (hget metas u) → rtc edge u v → is_Some (hget metas v).
Proof.
  intros Ht Hu Hr. induction Hr as [|u w v (ts & Hts & Hw) _ IH]; [done|]. apply IH.
  destruct Hu as [m (u' & Hu')%hget_Some_inv]. destruct (tb_entry _ _ Ht _ _ _ Hu') as (Hk & He & _).
  destruct (eo_targets _ _ _ _ _ _ _ _ _ _ _ _ He) as (ts' & Hts' & Hin). apply Hin.
  rewrite (dep_targets_key _ _ Hk), Hts in Hts'. by injection Hts' as <-.
Qed.

Lemma files_new_ok rank fuel roots host target export :
  (∀ u v, edge u v → (rank v < rank u)%nat) → (∀ u v, to_key u = to_key v → rank u = rank v) → (∀ u, u ∈ roots → (rank u < fuel)%nat) →
  ∃ r, build_files fuel roots host target export = Some r ∧
    match r with
    | Ok files => table_ok roots (cf_metas files) ∧ cf_host files = host ∧ cf_target files = target ∧ cf_roots files = roots
    | _ => True
    end.
Proof.
  intros Hrank Hkey Hfuel. unfold files_new.
  destruct (all_computes bcx ws_root rustc_version default_lib_metadata manifest_metadata extra_compiler_args unit_cmp unit_dependencies overridden
    (metadata_of bcx ws_root rustc_version default_lib_metadata manifest_metadata extra_compiler_args unit_cmp unit_dependencies overridden fuel) roots ∅)
    as ([[ms metas]| |] & -> & H); cbn [fbind]; [|destruct H as [Hg Hms]|by eexists..].
  { intros u metas Hu. eapply metadata_of_computes; [done..|by apply Hfuel]. }
  eexists. split; [done|]. cbn. split; [|done]. split.
  - intros i v m Hm. by apply Hg.
  - intros r [j Hj]%list_elem_of_lookup. apply (Forall2_lookup_l _ _ _ _ _ Hms) in Hj as (m & _ & Hm). by exists m.
Qed.

(** ** Each file of a unit with metadata is named by it *)
Definition named_by (m : N) (o : OutputFile) : Prop :=
  ∃ dir t n, plain_type t ∧ of_path o = path_join dir (ft_filename t (n ++ "-" ++ show_metadata m)).
Lemma calc_outputs_named files u i os i' m : plain_compiler exec_with_output → plain_target (host_info i) → plain_target (target_info i) →
  hget (cf_metas files) u = Some (Some m) → outputs_of files u i = Ok (os, i') →
  plain_target (host_info i') ∧ plain_target (target_info i') ∧ ∀ o, o ∈ os → named_by m o.
Proof.
  intros Hc Hh Ht Hm H. unfold calc_outputs in H.
  apply bind_Ok_inv in H as (dir & _ & H). apply bind_Ok_inv in H as (stem & Hstem & H). apply bind_Ok_inv in H as (link & _ & H).
  apply bind_Ok_inv in H as (st & Hst & H).
  assert (Hs : stem = crate_name (unit_target u) ++ "-" ++ show_metadata m).
  { unfold cf_file_stem, cf_metadata, index_metas in Hstem. rewrite Hm in Hstem. by injection Hstem as <-. }
  set (good st := plain_target (info st) ∧ ∀ o, o ∈ ret st → named_by m o).
  assert (Hi : plain_target (unit_info u i)) by (unfold unit_info; by destruct (for_host _)).
  assert (Hmade : ∀ t, plain_type t → named_by m (output_file dir stem link t)).
  { intros t Htp. exists dir, t, (crate_name (unit_target u)). subst stem. by split. }
  assert (Hgood : good st).
  { destruct (mode_is_check _).
    - injection Hst as <-. split; [done|]. intros o Ho. apply list_elem_of_singleton in Ho as ->. apply Hmade. split; [done|by apply plain_by_run].
    - refine (foldM_inv _ good _ _ _ _ _ Hst); [|split; [done|]; by intros o Ho%elem_of_nil].
      intros st1 t st2 _ [Hp Hr] Hadd. unfold add_type in Hadd. apply bind_Ok_inv in Hadd as ([types ti] & Hty & Hadd).
      apply file_types_plain in Hty as [Hti Hall]; [|done..].
      destruct types as [types|]; injection Hadd as <-; split; cbn; [done| |done|done].
      intros o Ho. apply elem_of_app in Ho as [Ho|Ho]; [by apply Hr|].
      apply list_elem_of_fmap in Ho as (t' & -> & Ht'). by apply Hmade, (Hall types). }
  destruct Hgood as [Hp Hr]. destruct (ret st) as [|o os'] eqn:Hret.
  { apply bind_Ok_inv in H as (pkg & _ & H). by destruct (unsupported st). }
  injection H as <- <-. unfold set_unit_info. by destruct (for_host _).
Qed.
Lemma named_apart m m' o o' : (m < 2 ^ 64)%N → (m' < 2 ^ 64)%N → named_by m o → named_by m' o' → m ≠ m' → path_eqb (of_path o) (of_path o') = false.
Proof.
  intros Hm Hm' (d & t & n & Ht & ->) (d' & t' & n' & Ht' & ->) Hne.
  destruct (ft_filename_cut t n m Ht) as (a & c & -> & Hc), (ft_filename_cut t' n' m' Ht') as (a' & c' & -> & Hc').
  apply not_true_is_false. intros H. by apply same_file in H; [|apply Ht|apply Ht'|..].
Qed.

(** ** Units with metadata are told apart by it *)
Lemma stable_package_key workspace a b p : is_absolute workspace = true →
  (∀ f f', url_to_file_path (sid_url (pid_source_id a)) = Some f → url_to_file_path (sid_url (pid_source_id b)) = Some f' → path_eqb f f' = true →
     SourceId.is_path (pid_source_id a) = true → SourceId.is_path (pid_source_id b) = true → to_key (pid_source_id a) = to_key (pid_source_id b)) →
  stable_package workspace a = Ok p → stable_package workspace b = Ok p → to_key a = to_key b.
Proof.
  intros Hw Hdirs Ha Hb. unfold stable_package in Ha, Hb.
  apply bind_Ok_inv in Ha as (s & Ha & [= <-]). apply bind_Ok_inv in Hb as (s' & Hb & [= Hn Hv Hs]). subst s'.
  enough (to_key (pid_source_id a) = to_key (pid_source_id b)) as Hk.
  { change ((pid_name a, to_key (pid_version a), to_key (pid_source_id a)) = (pid_name b, to_key (pid_version b), to_key (pid_source_id b))).
    by rewrite Hn, Hv, Hk. }
  unfold stable_source in Ha, Hb.
  destruct (SourceId.is_path (pid_source_id a)) eqn:Hpa, (SourceId.is_path (pid_source_id b)) eqn:Hpb.
  - apply bind_Ok_inv in Ha as (f & Hf & Ha). apply bind_Ok_inv in Hb as (f' & Hf' & Hb).
    destruct (url_to_file_path (sid_url (pid_source_id a))) as [x|] eqn:Hx; [|done]. injection Hf as ->.
    destruct (url_to_file_path (sid_url (pid_source_id b))) as [y|] eqn:Hy; [|done]. injection Hf' as ->.
    destruct (strip_prefix f workspace) as [q|] eqn:Hq, (strip_prefix f' workspace) as [q'|] eqn:Hq'; [|congruence..].
    assert (q = q') as <- by congruence.
    apply (Hdirs f f'); [done..| |done|done]. apply join_strip_prefix in Hq as [_ Hq]; [|done]. apply join_strip_prefix in Hq' as [_ Hq']; [|done].
    apply bool_decide_eq_true. by rewrite <-Hq, <-Hq'.
  - apply bind_Ok_inv in Ha as (f & Hf & Ha). destruct (strip_prefix _ _); congruence.
  - apply bind_Ok_inv in Hb as (f & Hf & Hb). destruct (strip_prefix _ _); congruence.
  - congruence.
Qed.
End build.

(** * Theorems *)
Section theorems.
Context `{SV : SemverLib} `{UL : UrlLib} `{RS : RustStd} `{CL : !CacheLib} `{MH : !MetadataHash}.
Context (exec_with_output : ProcessBuilder → cresult (string * string)).
Context (bcx : BuildContext) (ws_root : path) (rustc_version : string) (default_lib_metadata : option string).
Context (manifest_metadata : Package → ManifestMetadata) (extra_compiler_args : hashmap CUnit (list string)).
Context (unit_cmp : CUnit → CUnit → comparison) (unit_dependencies : hashmap CUnit (list CUnit)) (overridden : hashset (PackageId * PlatformKind)).
Abbreviation build_files := (files_new bcx ws_root rustc_version default_lib_metadata manifest_metadata extra_compiler_args unit_cmp unit_dependencies overridden).
Abbreviation entry := (entry_ok bcx ws_root rustc_version default_lib_metadata manifest_metadata extra_compiler_args unit_cmp unit_dependencies overridden).
Abbreviation key := (key_in bcx ws_root rustc_version default_lib_metadata manifest_metadata extra_compiler_args unit_cmp unit_dependencies overridden).
Abbreviation edge := (unit_edge unit_cmp unit_dependencies overridden).
Abbreviation outputs_of := (calc_outputs exec_with_output bcx ws_root).
Abbreviation fingerprint_dir_of := (cf_fingerprint_dir ws_root).

(** The units of a build; a graph of units without cycles. *)
Definition in_build (roots : list CUnit) (u : CUnit) : Prop := ∃ r, r ∈ roots ∧ rtc edge r u.
Definition acyclic_units (rank : CUnit → nat) : Prop :=
  (∀ u v, edge u v → (rank v < rank u)%nat) ∧ (∀ u v, to_key u = to_key v → rank u = rank v).
(** What the names of a build rest on: no two hashes that are made collide; a
    package of one id is one package, with well-formed targets; two path sources
    of one directory are one source. *)
Record tellable (roots : list CUnit) (metas : Metas) : Prop := {
  tl_hash a b k k' : in_build roots a → in_build roots b → key metas a k → key metas b k' → hash_metadata k = hash_metadata k' → k = k';
  tl_packages a b : in_build roots a → in_build roots b →
    to_key (package_id (unit_pkg a)) = to_key (package_id (unit_pkg b)) → unit_pkg a = unit_pkg b;
  tl_targets a : in_build roots a → unit_target a ∈ targets (unit_pkg a) ∧ well_formed (targets (unit_pkg a));
  tl_dirs a b f f' : in_build roots a → in_build roots b →
    let s := pid_source_id (package_id (unit_pkg a)) in let s' := pid_source_id (package_id (unit_pkg b)) in
    url_to_file_path (sid_url s) = Some f → url_to_file_path (sid_url s') = Some f' → path_eqb f f' = true →
    SourceId.is_path s = true → SourceId.is_path s' = true → to_key s = to_key s';
}.

Abbreviation table := (table_ok bcx ws_root rustc_version default_lib_metadata manifest_metadata extra_compiler_args unit_cmp unit_dependencies overridden).

Lemma table_in_build roots metas v : table roots metas → is_Some (hget metas v) ↔ ∃ w, in_build roots w ∧ to_key w = to_key v.
Proof.
  intros Ht. split.
  - intros [m (w & Hw)%hget_Some_inv]. destruct (tb_entry _ _ _ _ _ _ _ _ _ _ _ Ht _ _ _ Hw) as (Hk & _ & Hr). by exists w.
  - intros (w & (r & Hr & Hw) & Hk). rewrite <-(hget_key metas w v) by done.
    eapply metas_closed; [done|by eapply tb_roots|done].
Qed.
Lemma cells_empty (l : list CUnit) m v : (∃ u, u ∈ l ∧ to_key u = to_key v) ∨ hget m v = Some None →
  hget (foldl (λ m u, hinsert u (None : option (list OutputFile)) m) m l) v = Some None.
Proof.
  revert m. induction l as [|u l IH]; intros m H; cbn; [destruct H as [(u & Hu & _)|H]; [by apply elem_of_nil in Hu|done]|].
  apply IH. destruct H as [(w & Hw & Hk)|H].
  - apply elem_of_cons in Hw as [->|Hw]; [|left; by exists w]. right. rewrite hget_hinsert. by rewrite decide_True.
  - right. rewrite hget_hinsert. by case_decide.
Qed.

(** The metadata of two units of a build tells them apart. *)
Lemma same_metadata roots metas u v m : is_absolute ws_root = true → table roots metas → tellable roots metas →
  hget metas u = Some (Some m) → hget metas v = Some (Some m) → to_key u = to_key v.
Proof.
  intros Hw Ht Htl (u' & Hu)%hget_Some_inv (v' & Hv)%hget_Some_inv.
  destruct (tb_entry _ _ _ _ _ _ _ _ _ _ _ Ht _ _ _ Hu) as (<- & Heu & Hbu), (tb_entry _ _ _ _ _ _ _ _ _ _ _ Ht _ _ _ Hv) as (<- & Hev & Hbv).
  apply eo_value in Heu, Hev. destruct (no_metadata bcx default_lib_metadata u'); [done|]. destruct (no_metadata bcx default_lib_metadata v'); [done|].
  destruct Heu as (k & Hk & [= ->]), Hev as (k' & Hk' & [= Hh]).
  pose proof (tl_hash _ _ Htl u' v' k k' Hbu Hbv Hk Hk' Hh) as <-.
  destruct Hk as (p & ts & ds & Hp & _ & _ & ->), Hk' as (p' & ts' & ds' & Hp' & _ & _ & Hkey).
  assert (p' = p) as -> by (symmetry; exact (f_equal mk_package Hkey)).
  assert (Hid : to_key (package_id (unit_pkg u')) = to_key (package_id (unit_pkg v'))).
  { apply (stable_package_key ws_root _ _ p Hw); [|done..]. intros f f'. by apply (tl_dirs _ _ Htl u' v'). }
  apply unit_key_eq. split_and!; [done| |exact (f_equal mk_profile Hkey)|exact (f_equal mk_kind Hkey)|exact (f_equal mk_mode Hkey)].
  destruct (tl_targets _ _ Htl u' Hbu) as [Htu Hwf], (tl_targets _ _ Htl v' Hbv) as [Htv _].
  rewrite <-(tl_packages _ _ Htl u' v' Hbu Hbv Hid) in Htv.
  eapply target_ident; [exact Hwf|done|done|exact (f_equal mk_target_kind Hkey)|exact (f_equal mk_name Hkey)].
Qed.

(** C14. The names of a build are worked out in finitely many steps, and unless
    that panics there is metadata for exactly the units the roots lead to, each
    entry being what [compute_metadata] defines from those of the unit's
    dependencies: nothing for libraries that are linked by name, and else a hash.
    The outputs of each of these units can then be asked for. *)
Theorem files_new_spec (rank : CUnit → nat) (fuel : nat) (roots : list CUnit) (host : Layout) (target : option Layout) (export : option path)
    (Hacyclic : acyclic_units rank) (Hfuel : ∀ u, u ∈ roots → (rank u < fuel)%nat) :
  ∃ r, build_files fuel roots host target export = Some r ∧ ∀ files, r = Ok files →
    (∀ v, is_Some (hget (cf_metas files) v) ↔ ∃ w, in_build roots w ∧ to_key w = to_key v) ∧
    (∀ v m, hget (cf_metas files) v = Some m → ∃ w, to_key w = to_key v ∧ in_build roots w ∧ entry (cf_metas files) w m) ∧
    (∀ v, in_build roots v → hget (cf_outputs files) v = Some None).
Proof.
  destruct Hacyclic as [Hrank Hkey].
  destruct (files_new_ok bcx ws_root rustc_version default_lib_metadata manifest_metadata extra_compiler_args unit_cmp unit_dependencies overridden
    rank fuel roots host target export Hrank Hkey Hfuel) as (r & Hr & H). exists r. split; [done|]. intros files ->. destruct H as [Ht _].
  split_and!.
  - intros v. by apply table_in_build.
  - intros v m (w & Hw)%hget_Some_inv. destruct (tb_entry _ _ _ _ _ _ _ _ _ _ _ Ht _ _ _ Hw) as (Hk & He & Hb). by exists w.
  - intros v Hv. assert (is_Some (hget (cf_metas files) v)) as [m Hm] by (apply (table_in_build roots); [done|by exists v]).
    assert (Hwf : hwf (cf_metas files)) by (intros i k x Hx; by apply (tb_entry _ _ _ _ _ _ _ _ _ _ _ Ht) in Hx as [-> _]).
    unfold files_new in Hr. destruct (metadata_of_all _ _ _) as [[[ms metas]| |]|]; [|done..]. injection Hr as <-.
    cbn in *. apply cells_empty. left. by eapply hget_elem_of_hkeys.
Qed.

(** Directories named by metadata are apart, and so are directories in them. *)
Lemma dirs_apart d d' n n' m m' : (m < 2 ^ 64)%N → (m' < 2 ^ 64)%N → m ≠ m' →
  path_eqb (path_join d (n ++ "-" ++ show_metadata m)) (path_join d' (n' ++ "-" ++ show_metadata m')) = false.
Proof.
  intros Hm Hm' Hne. apply not_true_is_false. intros Hd.
  rewrite <-(app_nil_r_str (show_metadata m)), <-(app_nil_r_str (show_metadata m')) in Hd.
  apply same_file in Hd; [done|by apply plain_by_run|by apply plain_by_run|by left|by left|done|done].
Qed.
Lemma below_apart p q : path_eqb p q = false → path_eqb (path_join p "out") (path_join q "out") = false.
Proof.
  intros H. apply not_true_is_false. intros Ho. apply not_true_iff_false in H. apply H, bool_decide_eq_true.
  apply bool_decide_eq_true in Ho. rewrite !components_join in Ho by done. by apply app_inj_tail in Ho as [Ho _].
Qed.
Lemma pkg_dir_named files u m : hget (cf_metas files) u = Some (Some m) →
  pkg_dir ws_root files u = Ok (pid_name (package_id (unit_pkg u)) ++ "-" ++ show_metadata m).
Proof. intros Hu. unfold pkg_dir, cf_metadata, index_metas. by rewrite Hu. Qed.

End theorems.

(** * Concrete builds *)
Section runs.
Local Existing Instance sem_lib.
Local Existing Instance hier_lib.
Local Existing Instance std_order.
Local Open Scope string_scope.

#[local] Instance sample_metadata_hash : MetadataHash := {|
  hash_metadata k := match mk_deps k with [] => 17%N | _ => 171%N end;
  short_hash_package p := p.1.1;
|}.
#[local] Instance sample_metadata_laws : MetadataHashLaws.
Proof. split. intros k. unfold hash_metadata, sample_metadata_hash. by destruct (mk_deps k). Qed.
#[local] Instance sample_cache_lib : CacheLib := {| hash_compiler _ := 0%N; hash_process _ := 0%N; cache_read _ := Err ""; cache_write _ := "" |}.

(** A library that depends on another. *)
Definition source_at (dir : string) : SourceId :=
  let u := ("file", "", ["ws"; dir], None, None) in mkSourceId u u SourceId.Path None None.
Definition lib_package (name : string) : Package :=
  mkPackage (sample_manifest (mkPackageId name (1, 0, 0) (source_at name)) [tgt (TLib [LibLib]) name false] None) ("/ws/" ++ name ++ "/Cargo.toml").
Definition ws_unit (name : string) : CUnit := mkUnit (lib_package name) (tgt (TLib [LibLib]) name false) default_dev KTarget MBuild.
Definition files_a : CUnit := ws_unit "a".
Definition files_z : CUnit := ws_unit "z".
Definition files_graph : hashmap CUnit (list CUnit) := hinsert files_a [files_z] (hinsert files_z [] ∅).
Definition any_order (_ _ : CUnit) : comparison := Eq.
Definition no_md (_ : Package) : ManifestMetadata := mkMetadata [] [] [] None None None None None None None ∅ None.
Definition no_compiler (_ : ProcessBuilder) : cresult (string * string) := Err "no compiler".
Definition known_types (l : list (string * (string * string))) : TargetInfo :=
  mkTargetInfo (process "rustc") (list_to_map (prod_map id Some <$> l)) None None.
Definition linux : TargetInfo := known_types [("bin", ("", "")); ("rlib", ("lib", ".rlib")); ("dylib", ("lib", ".so"))].
Definition windows : TargetInfo := known_types [("bin", ("", ".exe")); ("rlib", ("lib", ".rlib")); ("dylib", ("", ".dll"))].
Definition two_linux : Infos := mkInfos linux linux.
Definition files_of (fuel : nat) : option (cresult CompilationFiles) :=
  files_new sample_context "/ws" "rustc 1.31" None no_md ∅ any_order files_graph ∅ fuel [files_a] (layout_at "/t/debug") None None.
Definition made_files : CompilationFiles :=
  match files_of 2 with Some (Ok f) => f | _ => mkFiles (layout_at "") None None [] ∅ ∅ end.
Definition paths_of (f : CompilationFiles) (u : CUnit) (i : Infos) : cresult (list (path * option path)) :=
  '(o, _) ← calc_outputs no_compiler sample_context "/ws" f u i; Ok (List.map (λ o, (of_path o, of_hardlink o)) o).

Example run_1 : paths_of made_files files_a two_linux = Ok [("/t/debug/deps/liba-00000000000000ab.rlib", Some "/t/debug/liba.rlib")]
  ∧ paths_of made_files files_z two_linux = Ok [("/t/debug/deps/libz-0000000000000011.rlib", None)].
Proof. split; vm_eq. Qed.
(** A library for the host is named as the target names it: a dynamic library a
    build script uses, when Linux builds for Windows. *)
Definition dyws_unit : CUnit := mkUnit pkg_a (tgt (TLib [LibDylib]) "a" false) default_dev KHost MBuild.
Example host_dylib :
  paths_of (mkFiles (layout_at "/t/debug") (Some (layout_at "/t/win/debug")) None [] (hinsert dyws_unit (Some 1%N) ∅) ∅) dyws_unit (mkInfos linux windows)
  = Ok [("/t/debug/deps/a-0000000000000001.dll", None)].
Proof. vm_eq. Qed.

Definition files_rank (u : CUnit) : nat := if decide (to_key u = to_key files_a) then 1 else 0.
Lemma files_keys : to_key files_a ≠ to_key files_z.
Proof. intros (Hp & _)%unit_key_eq. by apply package_id_key_eq in Hp as [Hn _]. Qed.
Lemma files_edge u v : unit_edge any_order files_graph ∅ u v → to_key u = to_key files_a ∧ v = files_z.
Proof.
  intros (ts & Hts & Hv). unfold dep_targets in Hts. destruct (_ && _); [injection Hts as <-; by apply elem_of_nil in Hv|].
  unfold files_graph in Hts. rewrite !hget_hinsert, hget_empty in Hts.
  case_decide as Ha; [|case_decide as Hz; [|done]]; injection Hts as <-; [|by apply elem_of_nil in Hv].
  by apply list_elem_of_singleton in Hv.
Qed.
Lemma files_acyclic : acyclic_units any_order files_graph ∅ files_rank.
Proof.
  split; [|intros u v Huv; unfold files_rank; by rewrite Huv]. intros u v [Hu ->]%files_edge. unfold files_rank.
  rewrite (decide_True (P:=to_key u = _)) by done. rewrite decide_False; [lia|]. intros H. by destruct files_keys.
Qed.
Lemma files_in_build u : in_build any_order files_graph ∅ [files_a] u → u = files_a ∨ u = files_z.
Proof.
  intros (r & ->%list_elem_of_singleton & Hr). apply rtc_inv in Hr as [<-|(w & [_ ->]%files_edge & Hr)]; [by left|right].
  apply rtc_inv in Hr as [<-|(w & [Hk _]%files_edge & _)]; [done|]. by destruct files_keys.
Qed.
Lemma files_fuel u : u ∈ [files_a] → (files_rank u < 2)%nat.
Proof. intros _. unfold files_rank. case_decide; lia. Qed.
Lemma files_new_spec_witness : ∃ r, files_of 2 = Some r ∧ ∀ files, r = Ok files →
  (∀ v, is_Some (hget (cf_metas files) v) ↔ ∃ w, in_build any_order files_graph ∅ [files_a] w ∧ to_key w = to_key v) ∧
  (∀ v m, hget (cf_metas files) v = Some m → ∃ w, to_key w = to_key v ∧ in_build any_order files_graph ∅ [files_a] w ∧
     entry_ok sample_context "/ws" "rustc 1.31" None no_md ∅ any_order files_graph ∅ (cf_metas files) w m) ∧
  (∀ v, in_build any_order files_graph ∅ [files_a] v → hget (cf_outputs files) v = Some None).
Proof.
  exact (files_new_spec sample_context "/ws" "rustc 1.31" None no_md ∅ any_order files_graph ∅ files_rank 2 [files_a]
    (layout_at "/t/debug") None None files_acyclic files_fuel).
Defined.

(** Keys are made in one way, and those of the two libraries hash apart. *)
Lemma key_in_unique metas u k k' :
  key_in sample_context "/ws" "rustc 1.31" None no_md ∅ any_order files_graph ∅ metas u k →
  key_in sample_context "/ws" "rustc 1.31" None no_md ∅ any_order files_graph ∅ metas u k' → k = k'.
Proof.
  intros (p & ts & ds & Hp & Hts & Hds & ->) (p' & ts' & ds' & Hp' & Hts' & Hds' & ->).
  rewrite Hp in Hp'. injection Hp' as <-. rewrite Hts in Hts'. injection Hts' as <-.
  assert (ds = ds') as <-; [|done]. clear Hts. revert ds' Hds'. induction Hds as [|t d ts ds Hd _ IH]; intros ds' Hds'.
  - by apply Forall2_nil_inv_l in Hds'.
  - apply Forall2_cons_inv_l in Hds' as (d' & ds'' & Hd' & Hr & ->). rewrite Hd in Hd'. injection Hd' as <-. by rewrite (IH ds'').
Qed.
Lemma files_a_targets : dep_targets any_order files_graph ∅ files_a = Ok [files_z].
Proof. vm_eq. Qed.
Lemma files_z_targets : dep_targets any_order files_graph ∅ files_z = Ok [].
Proof. vm_eq. Qed.
Lemma files_hash metas u k :
  key_in sample_context "/ws" "rustc 1.31" None no_md ∅ any_order files_graph ∅ metas u k →
  (u = files_a → hash_metadata k = 171%N) ∧ (u = files_z → hash_metadata k = 17%N).
Proof.
  intros (p & ts & ds & _ & Hts & Hds & ->). cbn. split; intros ->.
  - rewrite files_a_targets in Hts. injection Hts as <-.
    apply Forall2_cons_inv_l in Hds as (d & ds' & _ & Hr & ->). by apply Forall2_nil_inv_l in Hr as ->.
  - rewrite files_z_targets in Hts. injection Hts as <-. by apply Forall2_nil_inv_l in Hds as ->.
Qed.
Lemma lib_well_formed name : is_empty (trim name) = false → well_formed [tgt (TLib [LibLib]) name false].
Proof.
  intros Hn. split; [|apply Nat.leb_le; reflexivity|apply Nat.leb_le; reflexivity|intros t ->%list_elem_of_singleton _; exact Hn| |].
  - intros k Hk. rewrite !elem_of_cons, elem_of_nil in Hk. destruct Hk as [->|[->|[->|[->|[]]]]]; cbn; constructor.
  - intros t ->%list_elem_of_singleton Ht. discriminate Ht.
  - intros t ->%list_elem_of_singleton. exact (starts_with_app "/" (name ++ ".rs")).
Qed.
Lemma files_tellable metas : tellable sample_context "/ws" "rustc 1.31" None no_md ∅ any_order files_graph ∅ [files_a] metas.
Proof.
  split.
  - intros a b k k' Ha%files_in_build Hb%files_in_build Hk Hk' Hh.
    pose proof (files_hash _ _ _ Hk) as [H1 H2]. pose proof (files_hash _ _ _ Hk') as [H3 H4]. rewrite Hh in H1, H2.
    assert (a = b) as -> by (destruct Ha as [-> | ->], Hb as [-> | ->]; [done| | |done];
      [rewrite H1 in H4 by done; by specialize (H4 eq_refl)|rewrite H2 in H3 by done; by specialize (H3 eq_refl)]).
    by eapply key_in_unique.
  - intros a b [-> | ->]%files_in_build [-> | ->]%files_in_build Hk; [done| | |done]; by apply package_id_key_eq in Hk as [Hk _].
  - intros a [-> | ->]%files_in_build; (split; [apply list_elem_of_here|by apply lib_well_formed]).
  - intros a b f f' [-> | ->]%files_in_build [-> | ->]%files_in_build s s' Hf Hf' Heq _ _; [done| | |done];
      vm_compute in Hf, Hf'; injection Hf as <-; injection Hf' as <-; by vm_compute in Heq.
Qed.
Definition outputs_in (f : CompilationFiles) (u : CUnit) : list OutputFile :=
  match calc_outputs no_compiler sample_context "/ws" f u two_linux with Ok (o, _) => o | _ => [] end.
Lemma made_files_made : files_of 2 = Some (Ok made_files).
Proof.
  assert (match files_of 2 with Some (Ok _) => true | _ => false end = true) as H by vm_eq.
  unfold made_files. destruct (files_of 2) as [[f|e|e]|]; [reflexivity|discriminate H..].
Qed.
Lemma sample_metas : hget (cf_metas made_files) files_a = Some (Some 171%N) ∧ hget (cf_metas made_files) files_z = Some (Some 17%N).
Proof. split; vm_eq. Qed.
Lemma outputs_made f u : match calc_outputs no_compiler sample_context "/ws" f u two_linux with Ok (_, i) => i = two_linux | _ => False end →
  calc_outputs no_compiler sample_context "/ws" f u two_linux = Ok (outputs_in f u, two_linux).
Proof. unfold outputs_in. by destruct (calc_outputs _ _ _ _ _ _) as [[o i]|e|e]; [intros ->| |]. Qed.
Lemma sample_outputs : calc_outputs no_compiler sample_context "/ws" made_files files_a two_linux = Ok (outputs_in made_files files_a, two_linux) ∧
  calc_outputs no_compiler sample_context "/ws" made_files files_z two_linux = Ok (outputs_in made_files files_z, two_linux).
Proof. split; apply outputs_made; vm_compute; reflexivity. Qed.
Lemma sample_infos t : t ∈ [host_info two_linux; target_info two_linux; host_info two_linux; target_info two_linux] → plain_target t.
Proof.
  assert (plain_target linux) as Hl; [|rewrite !elem_of_cons, elem_of_nil; by intros [->|[->|[->|[->|[]]]]]].
  intros ct i Hi. apply elem_of_list_to_map_2 in Hi. cbn in Hi. rewrite !elem_of_cons, elem_of_nil in Hi.
  destruct Hi as [[= -> ->]|[[= -> ->]|[[= -> ->]|[]]]]; (split; [reflexivity|by apply plain_by_run]).
Qed.
Lemma no_compiler_plain : plain_compiler no_compiler.
Proof. intros p t i H. discriminate H. Qed.
End runs.
