(* ===== verification/CommandLine.v ===== *)
(** The command line of the compiler: its environment and that of the processes a
    package runs ([src/cargo/core/compiler/compilation.rs]), what the configuration
    says of a platform ([src/cargo/core/compiler/build_context/mod.rs]), and the
    arguments of rustc and rustdoc ([src/cargo/core/compiler/mod.rs]). *)
From Stdlib Require Import NArith.
From stdpp Require Import pretty.
From S2P Require Import Prelude Str BuildScript UnitGraph.
From S2P Require Import Extern Path Utf8 SourceId PackageId Features ConfigValue Config Target Cfg Dependency Summary Profiles TomlTargets Package ReadManifest Resolve UnitDeps BuildMap Fingerprint CompileArgs RustcInfo TargetInfo OutputFiles.

Local Open Scope string_scope.

(** * What the configuration says of a platform *)

(** [struct TargetConfig] *)
Record TargetConfig := mkTargetConfig {
  tc_ar : option path;
  tc_linker : option path;
  tc_overrides : gmap string BuildOutput;
}.
Section target_config.
Context `{RS : RustStd} `{FS : FileSystem} `{TL : TomlLib} `{UC : UnicodeCase}.

(** The loop over the variables of [rustc-env]. *)
Definition override_env (env : list (string * string)) (kv : string * CV) : cresult (list (string * string)) :=
  v ← cv_string kv.2 kv.1; Ok (env ++ [(kv.1, v.1)])%list.
(** One key of an override. *)
Definition override_key (table_key : string) (out : BuildOutput) (kv : string * CV) : cresult BuildOutput :=
  let '(k, value) := kv in
  let '(mkOutput paths links cfgs env metadata changed env_changed warnings) := out in
  if String.eqb k "rustc-flags" then
    '(flags, definition) ← cv_string value k;
    '(ps, ls) ← parse_rustc_flags flags ("in `" ++ table_key ++ "." ++ k ++ "` (in " ++ definition ++ ")");
    Ok (mkOutput (paths ++ ps) (links ++ ls) cfgs env metadata changed env_changed warnings)
  else if String.eqb k "rustc-link-lib" then
    l ← cv_list value k; Ok (mkOutput paths (links ++ l.*1) cfgs env metadata changed env_changed warnings)
  else if String.eqb k "rustc-link-search" then
    l ← cv_list value k; Ok (mkOutput (paths ++ l.*1) links cfgs env metadata changed env_changed warnings)
  else if String.eqb k "rustc-cfg" then
    l ← cv_list value k; Ok (mkOutput paths links (cfgs ++ l.*1) env metadata changed env_changed warnings)
  else if String.eqb k "rustc-env" then
    t ← cv_table value k;
    env ← foldM override_env env (hm_iter t.1);
    Ok (mkOutput paths links cfgs env metadata changed env_changed warnings)
  else if existsb (String.eqb k) ["warning"; "rerun-if-changed"; "rerun-if-env-changed"] then
    Err ("`" ++ k ++ "` is not supported in build script overrides")
  else
    v ← cv_string value k; Ok (mkOutput paths links cfgs env (metadata ++ [(k, v.1)]) changed env_changed warnings).
(** One entry of the table of a platform. *)
Definition by_key (a b : string * CV) : comparison := String.compare a.1 b.1.
Definition override_output (table_key lib_name : string) (value : CV) : cresult BuildOutput :=
  t ← cv_table value lib_name;
  foldM (override_key table_key) no_output (sort_by by_key (hm_iter t.1)).
Definition add_override (table_key : string) (overrides : gmap string BuildOutput) (kv : string * CV) : cresult (gmap string BuildOutput) :=
  if existsb (String.eqb kv.1) ["ar"; "linker"; "runner"; "rustflags"] then Ok overrides
  else output ← override_output table_key kv.1 kv.2; Ok (<[kv.1 := output]> overrides).
(** [TargetConfig::new] *)
Definition target_config_new (config : Config) (triple : string) : cresult TargetConfig :=
  let key := "target." ++ triple in
  ar ← get_path config (key ++ ".ar");
  linker ← get_path config (key ++ ".linker");
  table ← get_table config key;
  let ar := val <$> ar in let linker := val <$> linker in
  match table with
  | None => Ok (mkTargetConfig ar linker ∅)
  | Some table => overrides ← foldM (add_override key) ∅ (hm_iter (val table)); Ok (mkTargetConfig ar linker overrides)
  end.
(** [target_runner]: at most one [cfg(..)] may match. *)
Definition matching_runner (config : Config) (cfgs : list Cfg) (found : option (path * list string)) (key : string)
    : cresult (option (path * list string)) :=
  if matching cfgs key then
    runner ← get_path_and_args config ("target." ++ key ++ ".runner");
    match runner, found with
    | None, _ => Ok found
    | Some _, Some _ => Err "several matching instances of `target.'cfg(..)'.runner` in `.cargo/config`"
    | Some runner, None => Ok (Some (val runner))
    end
  else Ok found.
Definition target_runner (config : Config) (target : string) (target_cfg : option (list Cfg)) : cresult (option (path * list string)) :=
  runner ← get_path_and_args config ("target." ++ target ++ ".runner");
  match runner, target_cfg with
  | Some v, _ => Ok (Some (val v))
  | None, Some target_cfg =>
      table ← get_table config "target";
      match table with
      | Some table => foldM (matching_runner config target_cfg) None (hm_iter (val table)).*1
      | None => Ok None
      end
  | None, None => Ok None
  end.
End target_config.

Section command_line.
Context `{SV : SemverLib} `{UL : UrlLib} `{RS : RustStd} `{FS : FileSystem} `{TL : TomlLib} `{UC : UnicodeCase} `{CL : !CacheLib} `{MH : !MetadataHash}.

(** * The environment of processes *)

(** What is read of [Compilation]. *)
Record Compilation := mkCompilation {
  native_dirs : list path;
  root_output : path;
  deps_output : path;
  host_deps_output : path;
  host_dylib_path : option path;
  target_dylib_path : option path;
  extra_env : hashmap PackageId (list (string * string));
  co_rustc_process : ProcessBuilder;
  co_target_runner : option (path * list string);
}.
(** [Compilation::new], the compiler that is run: Cargo itself where it stands for it. *)
Definition compilation_process (as_wrapper : bool) (current_exe : cresult string) (extra_rustc_env : list (string * string))
    (extra_rustc_args : list string) (configure : ProcessBuilder → ProcessBuilder) (r : Rustc) : cresult ProcessBuilder :=
  p ← (if as_wrapper then
         let p := process_no_wrapper r in
         exe ← current_exe; Ok (set_program exe (set_env "RUSTC" (pb_program p) p))
       else Ok (RustcInfo.rustc_process r));
  Ok (configure (foldl (λ p a, add_arg a p) (foldl (λ p kv, set_env kv.1 kv.2 p) p extra_rustc_env) extra_rustc_args)).

(** What is shown when paths cannot be joined. *)
Context (os : gmap string string) (join_error : string) (debug_paths : list path → string).
Definition join_paths (l : list path) (env : string) : cresult string :=
  match env_join_paths l with
  | Some s => Ok s
  | None =>
      chain_err ("failed to join search paths together" ++ nl ++ "Does $" ++ env ++ " have an unterminated quote character?")
        (chain_err ("failed to join path array: " ++ debug_paths l) (Err join_error))
  end.
Definition dylib_path : list path := match os !! dylib_path_envvar with Some v => split_paths v | None => [] end.
(** [v.pre] *)
Context (version_pre : Version → list string) (manifest_metadata : Package → ManifestMetadata) (cargo_exe : cresult string).
Definition pre_version_component (v : Version) : string := join "." (version_pre v).
Definition package_env (pkg : Package) (root : path) : list (string * string) :=
  let v := pid_version (package_id pkg) in
  let md := manifest_metadata pkg in
  [("CARGO_MANIFEST_DIR", root); ("CARGO_PKG_VERSION_MAJOR", pretty (version_major v)); ("CARGO_PKG_VERSION_MINOR", pretty (version_minor v));
   ("CARGO_PKG_VERSION_PATCH", pretty (version_patch v)); ("CARGO_PKG_VERSION_PRE", pre_version_component v);
   ("CARGO_PKG_VERSION", version_to_string v); ("CARGO_PKG_NAME", pid_name (package_id pkg));
   ("CARGO_PKG_DESCRIPTION", default "" (md_description md)); ("CARGO_PKG_HOMEPAGE", default "" (md_homepage md));
   ("CARGO_PKG_REPOSITORY", default "" (md_repository md)); ("CARGO_PKG_AUTHORS", join ":" (md_authors md))].
Definition search_path (c : Compilation) (is_host : bool) : list path :=
  (if is_host then host_deps_output c :: option_list (host_dylib_path c)
   else filter_dynamic_search_path (native_dirs c) (root_output c) ++ [deps_output c; root_output c] ++ option_list (target_dylib_path c))%list.
(** [Compilation::fill_env] *)
Definition fill_env (c : Compilation) (cmd : ProcessBuilder) (pkg : Package) (is_host : bool) : cresult ProcessBuilder :=
  joined ← join_paths (search_path c is_host ++ dylib_path) dylib_path_envvar;
  let cmd := set_env dylib_path_envvar joined cmd in
  let cmd := foldl (λ cmd kv, set_env kv.1 kv.2 cmd) cmd (default [] (hget (extra_env c) (package_id pkg))) in
  exe ← cargo_exe;
  let cmd := set_env "CARGO" exe cmd in
  root ← package_root pkg;
  Ok (set_cwd root (foldl (λ cmd kv, set_env kv.1 kv.2 cmd) cmd (package_env pkg root))).
Definition edition_arg (t : Target) (p : ProcessBuilder) : ProcessBuilder :=
  if bool_decide (tgt_edition t = Edition2015) then p else add_arg ("--edition=" ++ edition_display (tgt_edition t)) p.
(** [Compilation::rustc_process], [rustdoc_process], [host_process], [target_process] *)
Definition comp_rustc_process (c : Compilation) (pkg : Package) (t : Target) : cresult ProcessBuilder :=
  p ← fill_env c (co_rustc_process c) pkg true; Ok (edition_arg t p).
Definition rustdoc_process (c : Compilation) (rustdoc : cresult path) (pkg : Package) (t : Target) : cresult ProcessBuilder :=
  doc ← rustdoc; p ← fill_env c (process doc) pkg false; Ok (edition_arg t p).
Definition host_process (c : Compilation) (cmd : string) (pkg : Package) : cresult ProcessBuilder := fill_env c (process cmd) pkg true.
Definition target_process (c : Compilation) (cmd : string) (pkg : Package) : cresult ProcessBuilder :=
  fill_env c match co_target_runner c with Some (runner, args) => add_arg cmd (add_args args (process runner)) | None => process cmd end pkg false.

(** * Arguments *)

(** [enum MessageFormat] *)
Inductive MessageFormat := MfHuman | MfJson | MfShort.
(** What is read of the context. *)
Context (exec_with_output : ProcessBuilder → cresult (string * string)).
Context (bcx : BuildContext) (config : Config) (ws_root target_dir : path) (requested_target : option string).
Context (short_hash : PackageId → string) (message_format : MessageFormat) (supports_color extra_verbose : bool).
Context (host_config target_config : TargetConfig) (extra_compiler_args : hashmap CUnit (list string)).
Context (unit_cmp : CUnit → CUnit → comparison) (unit_dependencies : hashmap CUnit (list CUnit)) (overridden : hashset (PackageId * PlatformKind)).

Definition add_path_args (u : CUnit) (cmd : ProcessBuilder) : cresult ProcessBuilder :=
  '(arg, cwd) ← path_args short_hash ws_root target_dir u; Ok (set_cwd cwd (add_arg arg cmd)).
(** [BuildContext::show_warnings], [add_cap_lints] *)
Definition show_warnings (id : PackageId) : bool := SourceId.is_path (pid_source_id id) || extra_verbose.
Definition cap_lints_args (u : CUnit) : list string :=
  let id := package_id (unit_pkg u) in
  if negb (show_warnings id) then ["--cap-lints"; "allow"]
  else if negb (SourceId.is_path (pid_source_id id)) then ["--cap-lints"; "warn"] else [].
Definition color_args : list string := ["--color"; if supports_color then "always" else "never"].
Definition error_format_args : list string :=
  match message_format with MfHuman => [] | MfJson => ["--error-format"; "json"] | MfShort => ["--error-format"; "short"] end.

(** [build_base_args], argument by argument *)
Definition crate_type_args (u : CUnit) (crate_types : list string) : list string :=
  if mode_is_any_test (unit_mode u) then [] else flat_map (λ t, ["--crate-type"; t]) crate_types.
Definition emit_args (u : CUnit) : list string :=
  [if mode_is_check (unit_mode u) then "--emit=dep-info,metadata" else "--emit=dep-info,link"].
Definition prefer_dynamic (u : CUnit) (crate_types : list string) : bool :=
  (for_host (unit_target u) && negb (is_custom_build (unit_target u))) ||
  (existsb (String.eqb "dylib") crate_types && existsb (λ p, negb (p ==? unit_pkg u)) (ws_members bcx)).
Definition prefer_dynamic_args (u : CUnit) (crate_types : list string) : list string :=
  if prefer_dynamic u crate_types then ["-C"; "prefer-dynamic"] else [].
Definition opt_level_args (p : Profile) : list string :=
  if String.eqb (opt_level p) "0" then [] else ["-C"; "opt-level=" ++ opt_level p].
Definition panic_args (p : Profile) : list string := match panic p with Some s => ["-C"; "panic=" ++ s] | None => [] end.
Definition lto_args (t : Target) (p : Profile) : list string :=
  if can_lto t && negb (for_host t) then
    match lto p with LtoBool false => [] | LtoBool true => ["-C"; "lto"] | LtoNamed s => ["-C"; "lto=" ++ s] end
  else [].
Definition codegen_units_args (p : Profile) : list string :=
  match codegen_units p with Some n => ["-C"; "codegen-units=" ++ pretty n] | None => [] end.
Definition debuginfo_args (p : Profile) : list string :=
  match debuginfo p with Some n => ["-C"; "debuginfo=" ++ pretty n] | None => [] end.
Definition checks_args (p : Profile) : list string :=
  if negb (String.eqb (opt_level p) "0") then
    if debug_assertions p then
      ["-C"; "debug-assertions=on"] ++ (if negb (overflow_checks p) then ["-C"; "overflow-checks=off"] else [])
    else if overflow_checks p then ["-C"; "overflow-checks=on"] else []
  else if negb (debug_assertions p) then
    ["-C"; "debug-assertions=off"] ++ (if overflow_checks p then ["-C"; "overflow-checks=on"] else [])
  else if negb (overflow_checks p) then ["-C"; "overflow-checks=off"] else [].
Definition test_args (u : CUnit) : list string :=
  if mode_is_any_test (unit_mode u) then (if harness (unit_target u) then ["--test"] else ["--cfg"; "test"]) else [].
Definition feature_args (u : CUnit) : list string :=
  flat_map (λ f, ["--cfg"; "feature=" ++ quote_str ++ f ++ quote_str]) (features_sorted (bcx_resolve bcx) (package_id (unit_pkg u))).
Definition metadata_args (files : CompilationFiles) (u : CUnit) : cresult (list string) :=
  meta ← cf_metadata files u;
  match meta with
  | Some m => Ok ["-C"; "metadata=" ++ show_metadata m; "-C"; "extra-filename=-" ++ show_metadata m]
  | None => h ← target_short_hash ws_root u; Ok ["-C"; "metadata=" ++ h]
  end.
Definition rpath_args (p : Profile) : list string := if rpath p then ["-C"; "rpath"] else [].
Definition opt (key prefix : string) (v : option string) : list string := match v with Some v => [key; prefix ++ v] | None => [] end.
Definition platform_args (u : CUnit) : list string :=
  let c := match unit_kind u with KHost => host_config | KTarget => target_config end in
  ((if bool_decide (unit_kind u = KTarget) then opt "--target" "" requested_target else []) ++
   opt "-C" "ar=" (tc_ar c) ++ opt "-C" "linker=" (tc_linker c))%list.
Definition profile_args (u : CUnit) (crate_types : list string) : list string :=
  let p := unit_profile u in
  (crate_type_args u crate_types ++ emit_args u ++ prefer_dynamic_args u crate_types ++ opt_level_args p ++ panic_args p ++
   lto_args (unit_target u) p ++ codegen_units_args p ++ debuginfo_args p ++ default [] (hget extra_compiler_args u) ++
   checks_args p ++ test_args u ++ feature_args u)%list.
Definition build_base_args (files : CompilationFiles) (u : CUnit) (crate_types : list string) (cmd : ProcessBuilder) : cresult ProcessBuilder :=
  _ ← assert_ (negb (mode_is_run_custom_build (unit_mode u))) "!unit.mode.is_run_custom_build()";
  cmd ← add_path_args u (add_args ["--crate-name"; crate_name (unit_target u)] cmd);
  let cmd := add_args (color_args ++ error_format_args ++ profile_args u crate_types) cmd in
  meta ← metadata_args files u;
  out_dir ← cf_out_dir ws_root files u;
  incremental ← incremental_args config (λ k, lay_incremental (cf_layout files k)) u;
  Ok (add_args (meta ++ rpath_args (unit_profile u) ++ ["--out-dir"; out_dir] ++ platform_args u ++ incremental) cmd).

(** [build_deps_args]: with what is printed, and the memos of the outputs. *)
Record Linking := mkLinking { ln_files : CompilationFiles; ln_infos : Infos; ln_printed : list string }.
Definition extern_name (u dep : CUnit) : cresult string :=
  Resolve.extern_crate_name (bcx_resolve bcx) (package_id (unit_pkg u)) (package_id (unit_pkg dep)) (crate_name (unit_target dep)).
(** [link_to] *)
Definition link_output (u dep : CUnit) (st : ProcessBuilder * CompilationFiles) (o : OutputFile) : cresult (ProcessBuilder * CompilationFiles) :=
  if negb (bool_decide (of_flavor o = FLinkable)) then Ok st
  else
    name ← extern_name u dep;
    out_dir ← cf_out_dir ws_root st.2 dep;
    file ← unwrap (file_name (of_path o));
    Ok (add_args ["--extern"; name ++ "=" ++ out_dir ++ "/" ++ file] st.1, st.2).
Definition link_to (u dep : CUnit) (cmd : ProcessBuilder) (l : Linking) : cresult (ProcessBuilder * Linking) :=
  '(os, files, infos) ← cf_unit_outputs exec_with_output bcx ws_root dep (ln_files l) (ln_infos l);
  '(cmd, files) ← foldM (link_output u dep) (cmd, files) os;
  Ok (cmd, mkLinking files infos (ln_printed l)).
Definition add_dep (u : CUnit) (st : ProcessBuilder * Linking) (dep : CUnit) : cresult (ProcessBuilder * Linking) :=
  let '(cmd, l) := st in
  cmd ← (if mode_is_run_custom_build (unit_mode dep)
         then out ← build_script_out_dir ws_root (ln_files l) dep; Ok (set_env "OUT_DIR" out cmd) else Ok cmd);
  if linkable (unit_target dep) && negb (mode_is_doc (unit_mode dep)) then link_to u dep cmd l else Ok (cmd, l).
Definition no_linkable_warning (u dep : CUnit) : string :=
  "The package `" ++ crate_name (unit_target dep) ++ "` provides no linkable target. The compiler might raise an error while compiling `" ++
  crate_name (unit_target u) ++ "`. Consider adding 'dylib' or 'rlib' to key `crate-type` in `" ++ crate_name (unit_target dep) ++
  "`'s Cargo.toml. This warning might turn into a hard error in the future.".
Definition linkable_warning (u : CUnit) (targets : list CUnit) : list string :=
  if existsb (λ d, negb (mode_is_doc (unit_mode d)) && linkable (unit_target d)) targets then []
  else match List.find (λ d, negb (mode_is_doc (unit_mode d)) && is_lib (unit_target d)) targets with
       | Some d => [no_linkable_warning u d]
       | None => []
       end.
Definition build_deps_args (u : CUnit) (cmd : ProcessBuilder) (l : Linking) : cresult (ProcessBuilder * Linking) :=
  let cmd := add_args ["-L"; "dependency=" ++ cf_deps_dir (ln_files l) u] cmd in
  let cmd := if bool_decide (unit_kind u = KTarget) then add_args ["-L"; "dependency=" ++ cf_host_deps (ln_files l)] cmd else cmd in
  targets ← dep_targets unit_cmp unit_dependencies overridden u;
  foldM (add_dep u) (cmd, mkLinking (ln_files l) (ln_infos l) (ln_printed l ++ linkable_warning u targets)) targets.

(** [prepare_rustc], and the command of [rustc] before its job runs; what [rustc]
    asks of the files for the renaming of its outputs is left out. *)
Definition prepare_rustc (c : Compilation) (u : CUnit) (crate_types : list string) (l : Linking) : cresult (ProcessBuilder * Linking) :=
  base ← comp_rustc_process c (unit_pkg u) (unit_target u);
  base ← build_base_args (ln_files l) u crate_types (inherit_jobserver base);
  build_deps_args u base l.
Definition rustc_command (c : Compilation) (is_primary : bool) (rustflags : cresult (list string)) (u : CUnit) (l : Linking)
    : cresult (ProcessBuilder * Linking) :=
  '(cmd, l) ← prepare_rustc c u (rustc_crate_types (unit_target u)) l;
  let cmd := if is_primary then set_env "CARGO_PRIMARY_PACKAGE" "1" cmd else cmd in
  let cmd := add_args (cap_lints_args u) cmd in
  '(_, files, infos) ← cf_unit_outputs exec_with_output bcx ws_root u (ln_files l) (ln_infos l);
  flags ← rustflags;
  Ok (add_args flags cmd, mkLinking files infos (ln_printed l)).
(** The command of [rustdoc], for a directory that can be made; [can_color] is
    whether the tool knows [--color]. *)
Definition rustdoc_command (c : Compilation) (rustdoc : cresult path) (can_color : cresult bool) (rustdocflags : cresult (list string))
    (u : CUnit) (l : Linking) : cresult (ProcessBuilder * Linking) :=
  cmd ← rustdoc_process c rustdoc (unit_pkg u) (unit_target u);
  let cmd := add_args ["--crate-name"; crate_name (unit_target u)] (inherit_jobserver cmd) in
  cmd ← add_path_args u cmd;
  let cmd := add_args (cap_lints_args u) cmd in
  color ← can_color;
  let cmd := if (color : bool) then add_args color_args cmd else cmd in
  let cmd := if bool_decide (unit_kind u = KHost) then cmd else add_args (opt "--target" "" requested_target) cmd in
  doc_dir ← cf_out_dir ws_root (ln_files l) u;
  let cmd := add_args (["-o"; doc_dir] ++ feature_args u ++ error_format_args ++ default [] (hget extra_compiler_args u)) cmd in
  '(cmd, l) ← build_deps_args u cmd l;
  flags ← rustdocflags;
  Ok (add_args flags cmd, l).
(** What the outputs of build scripts add when the job of [rustc] runs. *)
Definition pass_l_flag (u : CUnit) : bool := is_lib (unit_target u) || negb (existsb is_lib (targets (unit_pkg u))).
Definition run_rustdoc (build_state : hashmap (PackageId * PlatformKind) BuildOutput) (u : CUnit) (cmd : ProcessBuilder) : ProcessBuilder :=
  match hget build_state ((package_id (unit_pkg u) : PackageId), unit_kind u) with
  | Some o => foldl (λ cmd kv, set_env kv.1 kv.2 cmd) (add_args (flat_map (λ c, ["--cfg"; c]) (cfgs o)) cmd) (env_vars o)
  | None => cmd
  end.
Definition run_rustc (build_state : hashmap (PackageId * PlatformKind) BuildOutput) (scripts : option BuildScripts) (build_plan : bool) (root_output : path) (u : CUnit)
    (cmd : ProcessBuilder) : cresult ProcessBuilder :=
  match scripts with
  | None => Ok cmd
  | Some scripts =>
      let id : PackageId := package_id (unit_pkg u) in
      cmd ← (if build_plan then Ok cmd
             else
               args ← add_native_deps build_state scripts (pass_l_flag u) id;
               let cmd := add_args args cmd in
               let dirs := split_paths (default "" (get_env os cmd dylib_path_envvar)) in
               dirs ← add_plugin_deps build_state scripts root_output dirs;
               joined ← join_paths dirs dylib_path_envvar;
               Ok (set_env dylib_path_envvar joined cmd));
      Ok (foldl (λ cmd kv, set_env kv.1 kv.2 cmd) cmd (match hget build_state (id, unit_kind u) with Some o => env_vars o | None => [] end))
  end.
End command_line.

(** * How the compiler reads its options *)

(** The values of [-C], in order; [rustc] takes the last one of a key. *)
Fixpoint codegen (args : list string) : list string :=
  match args with
  | [] => []
  | x :: rest => if String.eqb x "-C" then match rest with v :: rest => v :: codegen rest | [] => [] end else codegen rest
  end.
Definition value_of (key o : string) : option string :=
  if starts_with (key ++ "=") o then Some (str_drop (String.length key + 1) o) else None.
Definition codegen_value (opts : list string) (key : string) : option string := last (omap (value_of key) opts).
Definition switch (v : option string) (otherwise : bool) : bool := match v with Some v => String.eqb v "on" | None => otherwise end.
(** The documented defaults: no optimisation, and checks unless there is any. *)
Definition rustc_opt_level (opts : list string) : string := default "0" (codegen_value opts "opt-level").
Definition rustc_debug_assertions (opts : list string) : bool :=
  switch (codegen_value opts "debug-assertions") (String.eqb (rustc_opt_level opts) "0").
Definition rustc_overflow_checks (opts : list string) : bool :=
  switch (codegen_value opts "overflow-checks") (rustc_debug_assertions opts).

(** Arguments whose options all have their values. *)
Fixpoint whole (args : list string) : bool :=
  match args with
  | [] => true
  | x :: rest => if String.eqb x "-C" then match rest with _ :: rest => whole rest | [] => false end else whole rest
  end.
Lemma whole_app_codegen n l l' : (length l <= n)%nat → whole l = true → codegen (l ++ l') = (codegen l ++ codegen l')%list ∧ (whole l' = true → whole (l ++ l') = true).
Proof.
  revert l. induction n as [|n IH]; intros [|x l] Hl; cbn [length] in Hl; try done; [lia|]. cbn [whole codegen app].
  destruct (String.eqb x "-C").
  - destruct l as [|v l]; [done|]. intros Hw. cbn [app]. destruct (IH l) as [-> H]; [cbn in Hl; lia|done|done].
  - intros Hw. apply IH; [lia|done].
Qed.
Lemma codegen_app l l' : whole l = true → codegen (l ++ l') = (codegen l ++ codegen l')%list.
Proof. intros Hw. by apply (whole_app_codegen (length l)). Qed.
Lemma whole_app l l' : whole l = true → whole l' = true → whole (l ++ l') = true.
Proof. intros Hw. by apply (whole_app_codegen (length l)). Qed.
(** A list without the option has no values. *)
Lemma codegen_none l : "-C" ∉ l → codegen l = [] ∧ whole l = true.
Proof.
  induction l as [|x l IH]; [done|]. rewrite not_elem_of_cons. intros [Hx Hl]. cbn.
  rewrite (proj2 (String.eqb_neq x "-C")) by done. by apply IH.
Qed.
Lemma codegen_concat ls : Forall (λ l, whole l = true) ls → codegen (concat ls) = concat (codegen <$> ls).
Proof. induction 1 as [|l ls Hl _ IH]; [done|]. cbn [concat fmap list_fmap]. by rewrite codegen_app, IH. Qed.
Lemma value_of_own key v : value_of key ((key ++ "=") ++ v) = Some v.
Proof.
  unfold value_of. rewrite starts_with_app. f_equal.
  rewrite <-(str_drop_app (key ++ "=") v) at 2. by rewrite length_app_str.
Qed.

Section reading.
Context `{SV : SemverLib} `{UL : UrlLib} `{RS : RustStd} `{FS : FileSystem} `{TL : TomlLib} `{UC : UnicodeCase} `{MH : !MetadataHash}.
Context (bcx : BuildContext) (config : Config) (ws_root target_dir : path) (requested_target : option string).
Context (short_hash : PackageId → string) (message_format : MessageFormat) (supports_color : bool).
Context (host_config target_config : TargetConfig) (extra_compiler_args : hashmap CUnit (list string)).
Abbreviation base_args := (build_base_args bcx config ws_root target_dir requested_target short_hash message_format supports_color host_config target_config extra_compiler_args).
Definition config_of (u : CUnit) : TargetConfig := match unit_kind u with KHost => host_config | KTarget => target_config end.

(** The options a unit is compiled with, from what decides each of them. *)
Definition unit_options (u : CUnit) (crate_types meta incremental : list string) : list (list string) :=
  let p := unit_profile u in
  [prefer_dynamic_args bcx u crate_types; opt_level_args p; panic_args p; lto_args (unit_target u) p; codegen_units_args p; debuginfo_args p;
   checks_args p; meta; rpath_args p; opt "-C" "ar=" (tc_ar (config_of u)); opt "-C" "linker=" (tc_linker (config_of u)); incremental].
(** No argument that comes from elsewhere is taken for the option. *)
Record no_option (files : CompilationFiles) (u : CUnit) (crate_types : list string) (cmd : ProcessBuilder) : Prop := {
  no_extra : hget extra_compiler_args u = None;
  no_cmd : "-C" ∉ pb_args cmd;
  no_types : "-C" ∉ crate_types;
  no_target : requested_target ≠ Some "-C";
  no_source arg cwd : path_args short_hash ws_root target_dir u = Ok (arg, cwd) → arg ≠ "-C";
  no_out_dir d : cf_out_dir ws_root files u = Ok d → d ≠ "-C";
}.

Lemma crate_name_no_option t : crate_name t ≠ "-C".
Proof.
  intros H. assert (contains_char "-" (crate_name t) = false) as Hc by (by apply replace_char_gone). by rewrite H in Hc.
Qed.
Lemma flat_map_no_option {A} (f : A → list string) (l : list A) : (∀ x, x ∈ l → "-C" ∉ f x) → "-C" ∉ flat_map f l.
Proof.
  induction l as [|x l IH]; cbn; intros Hf; [by apply not_elem_of_nil|]. apply not_elem_of_app.
  split; [apply Hf, list_elem_of_here|]. apply IH. intros y Hy. by apply Hf, list_elem_of_further.
Qed.
Lemma meta_whole files u meta : metadata_args ws_root files u = Ok meta → whole meta = true.
Proof.
  unfold metadata_args. destruct (cf_metadata files u) as [[m|]| |]; cbn; [by intros [= <-]| |done..].
  destruct (target_short_hash ws_root u); cbn; [by intros [= <-]|done..].
Qed.
Lemma incremental_whole dir u inc : incremental_args config dir u = Ok inc → whole inc = true.
Proof.
  unfold incremental_args. destruct (get_bool config _) as [g| |]; cbn [mbind res_mbind res_bind]; [|done..].
  destruct (negb _); [by intros [= <-]|]. destruct (negb _); [by intros [= <-]|]. by intros [= <-].
Qed.

Lemma base_args_codegen files u crate_types cmd cmd' : no_option files u crate_types cmd → base_args files u crate_types cmd = Ok cmd' →
  ∃ meta inc, metadata_args ws_root files u = Ok meta ∧ incremental_args config (λ k, lay_incremental (cf_layout files k)) u = Ok inc ∧
    codegen (pb_args cmd') = concat (codegen <$> unit_options u crate_types meta inc).
Proof.
  intros Hno H. unfold build_base_args in H. apply bind_Ok_inv in H as (_ & _ & H).
  apply bind_Ok_inv in H as (cmd1 & Hsrc & H). apply bind_Ok_inv in H as (meta & Hmeta & H). apply bind_Ok_inv in H as (out & Hout & H).
  apply bind_Ok_inv in H as (inc & Hinc & [= <-]). exists meta, inc. split; [done|]. split; [done|].
  unfold add_path_args in Hsrc. apply bind_Ok_inv in Hsrc as ([arg cwd] & Harg & [= <-]).
  unfold profile_args, platform_args. rewrite (no_extra _ _ _ _ Hno). cbn [pb_args add_args add_arg set_cwd from_option].
  fold (config_of u).
  set (p := unit_profile u). set (front := (pb_args cmd ++ ["--crate-name"; crate_name (unit_target u)] ++ [arg] ++ color_args supports_color ++
    error_format_args message_format ++ crate_type_args u crate_types ++ emit_args u)%list).
  set (middle := (test_args u ++ feature_args bcx u)%list).
  set (target := if bool_decide (unit_kind u = KTarget) then opt "--target" "" requested_target else []).
  transitivity (codegen (concat [front; prefer_dynamic_args bcx u crate_types; opt_level_args p; panic_args p; lto_args (unit_target u) p; codegen_units_args p;
    debuginfo_args p; checks_args p; middle; meta; rpath_args p; ["--out-dir"; out]; target; opt "-C" "ar=" (tc_ar (config_of u));
    opt "-C" "linker=" (tc_linker (config_of u)); inc])).
  { f_equal. unfold front, middle, color_args. cbn [concat]. rewrite <-!app_assoc. cbn [app]. rewrite app_nil_r, <-!app_assoc. done. }
  assert (Hfront : "-C" ∉ front).
  { unfold front, color_args, error_format_args, crate_type_args, emit_args. rewrite !not_elem_of_app, !not_elem_of_cons.
    pose proof (no_cmd _ _ _ _ Hno). pose proof (crate_name_no_option (unit_target u)). pose proof (no_source _ _ _ _ Hno _ _ Harg).
    split_and!; try (apply not_elem_of_nil); try done; [by destruct supports_color|destruct message_format; set_solver| |by destruct (mode_is_check _)].
    destruct (mode_is_any_test _); [apply not_elem_of_nil|]. apply flat_map_no_option. intros t Ht. pose proof (no_types _ _ _ _ Hno). set_solver. }
  assert (Hmiddle : "-C" ∉ middle).
  { unfold middle, test_args, feature_args. apply not_elem_of_app. split.
    - destruct (mode_is_any_test _); [|apply not_elem_of_nil]. destruct (harness _); set_solver.
    - apply flat_map_no_option. intros f _. rewrite !not_elem_of_cons. split_and!; [done| |apply not_elem_of_nil]. cbn. congruence. }
  assert (Htarget : "-C" ∉ target).
  { unfold target, opt. destruct (bool_decide _); [|apply not_elem_of_nil]. destruct requested_target as [t|] eqn:Ht; [|apply not_elem_of_nil].
    pose proof (no_target _ _ _ _ Hno). rewrite !not_elem_of_cons. split_and!; [done| |apply not_elem_of_nil]. cbn. congruence. }
  assert (Hdir : "-C" ∉ ["--out-dir"; out]).
  { rewrite !not_elem_of_cons. split_and!; [done|by apply not_eq_sym, (no_out_dir _ _ _ _ Hno)|apply not_elem_of_nil]. }
  apply codegen_none in Hfront as [Hf1 Hf2], Hmiddle as [Hm1 Hm2], Htarget as [Ht1 Ht2], Hdir as [Hd1 Hd2].
  rewrite codegen_concat.
  - unfold unit_options. fold p. cbn [fmap list_fmap concat]. rewrite Hf1, Hm1, Ht1, Hd1. done.
  - repeat constructor; try done; try (by eapply meta_whole); try (by eapply incremental_whole);
      unfold prefer_dynamic_args, opt_level_args, panic_args, lto_args, codegen_units_args, debuginfo_args, checks_args, rpath_args, opt;
      repeat case_match; done.
Qed.
End reading.

(** * What the compiler reads is the profile *)
Section profile.
Context `{SV : SemverLib} `{UL : UrlLib} `{RS : RustStd} `{FS : FileSystem} `{TL : TomlLib} `{UC : UnicodeCase} `{MH : !MetadataHash}.
Context (bcx : BuildContext) (config : Config) (ws_root target_dir : path) (requested_target : option string).
Context (short_hash : PackageId → string) (message_format : MessageFormat) (supports_color : bool).
Context (host_config target_config : TargetConfig) (extra_compiler_args : hashmap CUnit (list string)).
Abbreviation base_args := (build_base_args bcx config ws_root target_dir requested_target short_hash message_format supports_color host_config target_config extra_compiler_args).
Abbreviation options := (unit_options bcx host_config target_config).

Definition profile_keys : list string := ["opt-level"; "debug-assertions"; "overflow-checks"; "panic"; "codegen-units"; "debuginfo"].
(** What a list of arguments says of a key. *)
Definition says (key : string) (args : list string) : list string := omap (value_of key) (codegen args).

Ltac keys H := unfold profile_keys in H; rewrite !elem_of_cons, elem_of_nil in H; destruct H as [->|[->|[->|[->|[->|[->|[]]]]]]].
Ltac silence := unfold says; repeat case_match; reflexivity.

Lemma silent_dynamic key u ct : key ∈ profile_keys → says key (prefer_dynamic_args bcx u ct) = [].
Proof. intros H. unfold prefer_dynamic_args. keys H; silence. Qed.
Lemma silent_lto key t p : key ∈ profile_keys → says key (lto_args t p) = [].
Proof. intros H. unfold lto_args. keys H; silence. Qed.
Lemma silent_rpath key p : key ∈ profile_keys → says key (rpath_args p) = [].
Proof. intros H. unfold rpath_args. keys H; silence. Qed.
Lemma silent_tools key v : key ∈ profile_keys → says key (opt "-C" "ar=" v) = [] ∧ says key (opt "-C" "linker=" v) = [].
Proof. intros H. unfold opt. keys H; split; silence. Qed.
Lemma silent_meta key files u meta : key ∈ profile_keys → metadata_args ws_root files u = Ok meta → says key meta = [].
Proof.
  intros H. unfold metadata_args. destruct (cf_metadata files u) as [[m|]| |]; cbn; [| |done..].
  - intros [= <-]. keys H; reflexivity.
  - destruct (target_short_hash ws_root u); cbn; [|done..]. intros [= <-]. keys H; reflexivity.
Qed.
Lemma silent_incremental key dir u inc : key ∈ profile_keys → incremental_args config dir u = Ok inc → says key inc = [].
Proof.
  intros H. unfold incremental_args. destruct (get_bool config _) as [g| |]; cbn [mbind res_mbind res_bind]; [|done..].
  destruct (negb _); [by intros [= <-]|]. destruct (negb _); [by intros [= <-]|]. intros [= <-]. keys H; reflexivity.
Qed.
(** Only the arguments made of the profile say something of its keys. *)
Lemma options_say key files dir u ct meta inc : key ∈ profile_keys → metadata_args ws_root files u = Ok meta → incremental_args config dir u = Ok inc →
  let p := unit_profile u in
  omap (value_of key) (concat (codegen <$> options u ct meta inc)) =
  (says key (opt_level_args p) ++ says key (panic_args p) ++ says key (codegen_units_args p) ++ says key (debuginfo_args p) ++ says key (checks_args p))%list.
Proof.
  intros Hk Hm Hi p. set (ar := opt "-C" "ar=" (tc_ar (config_of host_config target_config u))).
  set (linker := opt "-C" "linker=" (tc_linker (config_of host_config target_config u))).
  transitivity (says key (prefer_dynamic_args bcx u ct) ++ says key (opt_level_args p) ++ says key (panic_args p) ++
    says key (lto_args (unit_target u) p) ++ says key (codegen_units_args p) ++ says key (debuginfo_args p) ++ says key (checks_args p) ++
    says key meta ++ says key (rpath_args p) ++ says key ar ++ says key linker ++ says key inc ++ [])%list.
  { unfold unit_options. cbn [fmap list_fmap concat]. by rewrite !omap_app. }
  rewrite silent_dynamic, silent_lto, silent_rpath by done. unfold ar, linker. rewrite (proj1 (silent_tools key _ Hk)), (proj2 (silent_tools key _ Hk)).
  rewrite (silent_meta key files u meta Hk Hm), (silent_incremental key dir u inc Hk Hi). cbn [app]. by rewrite !app_nil_r.
Qed.

Lemma says_one key v : says key ["-C"; (key ++ "=") ++ v] = [v].
Proof. unfold says. change (codegen ["-C"; (key ++ "=") ++ v]) with [(key ++ "=") ++ v]. cbn [omap list_omap]. by rewrite value_of_own. Qed.
Lemma says_opt_level p : says "opt-level" (opt_level_args p) = if String.eqb (opt_level p) "0" then [] else [opt_level p].
Proof. unfold opt_level_args. destruct (String.eqb _ _); [done|]. apply (says_one "opt-level"). Qed.
Lemma says_panic p : says "panic" (panic_args p) = option_list (panic p).
Proof. unfold panic_args. destruct (panic p) as [s|]; [|done]. apply (says_one "panic"). Qed.
Lemma says_codegen_units p : says "codegen-units" (codegen_units_args p) = option_list (pretty <$> codegen_units p).
Proof. unfold codegen_units_args. destruct (codegen_units p) as [n|]; [|done]. apply (says_one "codegen-units"). Qed.
Lemma says_debuginfo p : says "debuginfo" (debuginfo_args p) = option_list (pretty <$> debuginfo p).
Proof. unfold debuginfo_args. destruct (debuginfo p) as [n|]; [|done]. apply (says_one "debuginfo"). Qed.
(** Each of the arguments speaks of its own key. *)
Lemma says_other key p : key ∈ profile_keys →
  (key ≠ "opt-level" → says key (opt_level_args p) = []) ∧ (key ≠ "panic" → says key (panic_args p) = []) ∧
  (key ≠ "codegen-units" → says key (codegen_units_args p) = []) ∧ (key ≠ "debuginfo" → says key (debuginfo_args p) = []) ∧
  (key ∉ ["debug-assertions"; "overflow-checks"] → says key (checks_args p) = []).
Proof.
  intros H. unfold opt_level_args, panic_args, codegen_units_args, debuginfo_args, checks_args.
  keys H; (split_and!; [intros Hne|intros Hne|intros Hne|intros Hne|intros Hne]); first [by destruct Hne|by (destruct Hne; set_solver)|silence].
Qed.
Lemma last_option_list {A} (o : option A) : last (option_list o) = o.
Proof. by destruct o. Qed.

(** The options of the checks are read as the profile has them. *)
Lemma checks_read p (opts : list string) :
  codegen_value opts "opt-level" = last (says "opt-level" (opt_level_args p)) →
  codegen_value opts "debug-assertions" = last (says "debug-assertions" (checks_args p)) →
  codegen_value opts "overflow-checks" = last (says "overflow-checks" (checks_args p)) →
  rustc_opt_level opts = opt_level p ∧ rustc_debug_assertions opts = debug_assertions p ∧ rustc_overflow_checks opts = overflow_checks p.
Proof.
  intros H1 H2 H3. rewrite says_opt_level in H1.
  assert (Hlevel : rustc_opt_level opts = opt_level p).
  { unfold rustc_opt_level. rewrite H1. by destruct (String.eqb_spec (opt_level p) "0") as [->|]. }
  split; [done|]. assert (Hdebug : rustc_debug_assertions opts = debug_assertions p).
  { unfold rustc_debug_assertions. rewrite H2, Hlevel. unfold checks_args.
    by destruct (String.eqb (opt_level p) "0"), (debug_assertions p), (overflow_checks p). }
  split; [done|]. unfold rustc_overflow_checks. rewrite H3, Hdebug. unfold checks_args.
  by destruct (String.eqb (opt_level p) "0"), (debug_assertions p), (overflow_checks p).
Qed.

(** C15. The compiler reads the profile of a unit back from its arguments: with the
    last value of each [-C] option and the documented defaults, the optimisation
    level, debug assertions and overflow checks, the panic strategy, the number
    of codegen units and the debug information are those of the profile, although
    the switches that agree with a default are left out.  Only the profile is to
    speak ([no_option]): no arguments of the user are passed on, the command holds
    no [-C] before, and no path, target or crate type is that very text. *)
Theorem build_base_args_profile (files : CompilationFiles) (u : CUnit) (crate_types : list string) (cmd cmd' : ProcessBuilder)
    (Hplain : no_option ws_root target_dir requested_target short_hash extra_compiler_args files u crate_types cmd)
    (Hargs : base_args files u crate_types cmd = Ok cmd') :
  let p := unit_profile u in let opts := codegen (pb_args cmd') in
  rustc_opt_level opts = opt_level p ∧ rustc_debug_assertions opts = debug_assertions p ∧ rustc_overflow_checks opts = overflow_checks p ∧
  codegen_value opts "panic" = panic p ∧ codegen_value opts "codegen-units" = pretty <$> codegen_units p ∧
  codegen_value opts "debuginfo" = pretty <$> debuginfo p.
Proof.
  intros p opts. destruct (base_args_codegen _ _ _ _ _ _ _ _ _ _ _ _ _ _ _ _ Hplain Hargs) as (meta & inc & Hm & Hi & Hc).
  assert (Hv : ∀ key, key ∈ profile_keys → codegen_value opts key = last (says key (opt_level_args p) ++ says key (panic_args p) ++
    says key (codegen_units_args p) ++ says key (debuginfo_args p) ++ says key (checks_args p))).
  { intros key Hk. unfold codegen_value, opts. rewrite Hc. by erewrite options_say. }
  assert (Hin : ∀ key, key ∈ profile_keys → key ∈ profile_keys ∧ codegen_value opts key = last (says key (opt_level_args p) ++ says key (panic_args p) ++
    says key (codegen_units_args p) ++ says key (debuginfo_args p) ++ says key (checks_args p))) by auto.
  destruct (checks_read p opts) as (H1 & H2 & H3).
  - destruct (Hin "opt-level") as [Hk ->]; [set_solver|]. destruct (says_other _ p Hk) as (_ & E2 & E3 & E4 & E5).
    rewrite E2, E3, E4, E5 by (done || set_solver). by rewrite !app_nil_r.
  - destruct (Hin "debug-assertions") as [Hk ->]; [set_solver|]. destruct (says_other _ p Hk) as (E1 & E2 & E3 & E4 & _).
    by rewrite E1, E2, E3, E4.
  - destruct (Hin "overflow-checks") as [Hk ->]; [set_solver|]. destruct (says_other _ p Hk) as (E1 & E2 & E3 & E4 & _).
    by rewrite E1, E2, E3, E4.
  - split_and!; [done..| | |].
    + destruct (Hin "panic") as [Hk ->]; [set_solver|]. destruct (says_other _ p Hk) as (E1 & _ & E3 & E4 & E5).
      rewrite E1, E3, E4, E5, says_panic by (done || set_solver). cbn [app]. by rewrite !app_nil_r, last_option_list.
    + destruct (Hin "codegen-units") as [Hk ->]; [set_solver|]. destruct (says_other _ p Hk) as (E1 & E2 & _ & E4 & E5).
      rewrite E1, E2, E4, E5, says_codegen_units by (done || set_solver). cbn [app]. by rewrite !app_nil_r, last_option_list.
    + destruct (Hin "debuginfo") as [Hk ->]; [set_solver|]. destruct (says_other _ p Hk) as (E1 & E2 & E3 & _ & E5).
      rewrite E1, E2, E3, E5, says_debuginfo by (done || set_solver). cbn [app]. by rewrite !app_nil_r, last_option_list.
Qed.
End profile.

(** * The overrides of the configuration *)

(** The variables of an override come in the order of a hash table. *)
Lemma override_env_order (l : list (string * string * path)) env :
  foldM override_env env (List.map (λ x, (x.1.1, CString x.1.2 x.2)) l) = Ok (env ++ List.map fst l)%list.
Proof.
  revert env. induction l as [|[[k v] p] l IH]; intros env; [by rewrite app_nil_r|].
  cbn [List.map foldM]. unfold override_env at 1. cbn. by rewrite IH, <-app_assoc.
Qed.

(** * Concrete runs *)
Section runs.
Local Existing Instance sem_lib.
Local Existing Instance hier_lib.
Local Existing Instance std_order.
Local Existing Instance ascii_case.
Local Existing Instance two_digits.
Local Existing Instance line_toml.
Local Existing Instance sample_files.
Local Existing Instance sample_metadata_hash.

(** A library built for release. *)
Definition release_lto : Profile := mkProfile "release" "3" (LtoBool true) (Some 4%N) (Some 2%N) false true false false (Some "abort").
Definition fast_bin : CUnit := mkUnit pkg_a (tgt TBin "a" false) release_lto KTarget MBuild.
Definition fast_files : CompilationFiles := mkFiles (layout_at "/t/release") None None [] (hinsert fast_bin (Some 1%N) ∅) ∅.
Definition no_tools : TargetConfig := mkTargetConfig None None ∅.
Definition fast_args : cresult ProcessBuilder :=
  build_base_args sample_context (sample_config ∅) "/ws" "/t" None (λ _, "0") MfHuman false no_tools no_tools ∅ fast_files fast_bin ["bin"] (process "rustc").
Definition fast_command : ProcessBuilder := match fast_args with Ok p => p | _ => process "" end.
Example fast_options : pb_args fast_command =
  ["--crate-name"; "a"; "/a.rs"; "--color"; "never"; "--crate-type"; "bin"; "--emit=dep-info,link"; "-C"; "opt-level=3"; "-C"; "panic=abort";
   "-C"; "lto"; "-C"; "codegen-units=4"; "-C"; "debuginfo=2"; "-C"; "overflow-checks=on"; "-C"; "metadata=0000000000000001";
   "-C"; "extra-filename=-0000000000000001"; "--out-dir"; "/t/release/deps"].
Proof. vm_eq. Qed.
(** Codegen units are asked for together with LTO. *)
Example lto_with_codegen_units : "lto" ∈ codegen (pb_args fast_command) ∧ codegen_value (codegen (pb_args fast_command)) "codegen-units" = Some "4".
Proof. rewrite fast_options. split; [|vm_eq]. cbn. set_solver. Qed.
Lemma fast_made : fast_args = Ok fast_command.
Proof.
  assert (match fast_args with Ok _ => true | _ => false end = true) as H by vm_eq.
  unfold fast_command. destruct fast_args; [reflexivity|discriminate H..].
Qed.
Lemma fast_plain : no_option "/ws" "/t" None (λ _, "0") ∅ fast_files fast_bin ["bin"] (process "rustc").
Proof.
  split; [done|apply not_elem_of_nil|set_solver|done| |].
  - intros arg cwd H. assert (path_args (λ _, "0") "/ws" "/t" fast_bin = Ok ("/a.rs", "/a")) as E by vm_eq. rewrite E in H. by injection H as <- _.
  - intros d H. assert (cf_out_dir "/ws" fast_files fast_bin = Ok "/t/release/deps") as E by vm_eq. rewrite E in H. by injection H as <-.
Qed.
Lemma build_base_args_profile_witness : let opts := codegen (pb_args fast_command) in
  rustc_opt_level opts = "3" ∧ rustc_debug_assertions opts = false ∧ rustc_overflow_checks opts = true ∧
  codegen_value opts "panic" = Some "abort" ∧ codegen_value opts "codegen-units" = pretty <$> Some 4%N ∧
  codegen_value opts "debuginfo" = pretty <$> Some 2%N.
Proof.
  exact (build_base_args_profile sample_context (sample_config ∅) "/ws" "/t" None (λ _, "0") MfHuman false no_tools no_tools ∅
    fast_files fast_bin ["bin"] (process "rustc") fast_command fast_plain fast_made).
Defined.
End runs.
