(* ===== verification/Freshness.v ===== *)
(** Whether a unit of compilation is fresh, [src/cargo/core/compiler/fingerprint.rs]:
    the fingerprints of the units of a build ([calculate]), the decision
    ([prepare_target], [prepare_build_cmd]) and what is written once the unit is
    built. *)
From Stdlib Require Import NArith ZArith.
From S2P Require Import Prelude Str BuildScript UnitGraph.
From S2P Require Import Extern Path Utf8 SourceId PackageId Features ConfigValue Config Target Cfg Dependency Summary Profiles Resolve Package UnitDeps BuildMap.
From S2P Require Import RustcInfo TargetInfo OutputFiles.
From S2P Require Import Fingerprint DepInfo CompileArgs.

Local Open Scope string_scope.

(** [Path::with_extension] *)
Definition with_extension (p : path) (ext : string) : path :=
  match file_stem p with
  | Some stem => path_join (default "" (parent p)) (stem ++ "." ++ ext)
  | None => p
  end.

Section freshness.
Context `{SV : SemverLib} `{UL : UrlLib} `{RS : RustStd} `{FS : FileSystem} `{TL : TomlLib} `{UC : UnicodeCase}.

(** [util::hash_u64] and [short_hash] at the types they are used at. *)
Class Hashing := {
  hash_content : Content → N;
  hash_text : string → N;
  hash_target : Target → N;
  hash_profile : Profile * CompileMode * option (list string) * list string → N;
  hash_path : path → N;
  hash_output : BuildOutput → N;
  short_hash : PackageId → string;
}.
(** The names [context/compilation_files.rs] gives to files and directories. *)
Class FileNames := {
  target_root : path;
  fingerprint_dir : CUnit → path;
  out_dir : CUnit → path;
  unit_file_stem : CUnit → string;
  unit_outputs : CUnit → cresult (list OutputFile);
  incremental_dir : PlatformKind → path;
}.
(** The sources of the packages: [None] where there is none. *)
Class PackageSources := {
  source_fingerprint : SourceId → option (Package → cresult string);
  source_verify : SourceId → option (PackageId → cresult unit);
}.
(** The disk, as it is while a build is planned. *)
Class Disk := {
  stat : path → string + FileTime;
  read_text : path → cresult string;
  read_bytes : path → cresult string;
  json_read : string → cresult Content;
  json_write : Content → cresult string;
}.
Context `{HL : HexLib} `{HA : !Hashing} `{LA : !FileNames} `{PS : !PackageSources} `{DK : !Disk}.
Context (debug_time : option FileTime → string) (debug_value : option string → string) (debug_path : path → string).
(** What is shown by [{:?}] of the features. *)
Context (debug_features : list string → string).
(** What is read of the context. *)
Context (bcx : BuildContext) (config : Config) (requested_target : option string) (ws_root target_dir : path) (rustc_version : string).
Context (extra_compiler_args : hashmap CUnit (list string)).
Context (unit_cmp : CUnit → CUnit → comparison) (unit_dependencies : hashmap CUnit (list CUnit)) (overridden : hashset (PackageId * PlatformKind)).

Definition is_path_pkg (p : Package) : bool := SourceId.is_path (pid_source_id (package_id p)).
Definition extra_args_for (u : CUnit) : option (list string) := hget extra_compiler_args u.
(** [BuildContext::info] *)
Definition info_cfg (k : PlatformKind) : option (list Cfg) := match k with KHost => host_cfg bcx | KTarget => target_cfg bcx end.
Definition flags_args (name : string) (u : CUnit) : cresult (list string) :=
  env_args config requested_target (host_triple bcx) (info_cfg (unit_kind u)) (unit_kind u) name.
Definition rustflags_args : CUnit → cresult (list string) := flags_args "RUSTFLAGS".
Definition rustdocflags_args : CUnit → cresult (list string) := flags_args "RUSTDOCFLAGS".
Definition unit_crate_name (u dep : CUnit) : cresult string :=
  Resolve.extern_crate_name (bcx_resolve bcx) (package_id (unit_pkg u)) (package_id (unit_pkg dep)) (crate_name (unit_target dep)).

Definition use_dep_info (u : CUnit) : bool := negb (mode_is_doc (unit_mode u)) && is_path_pkg (unit_pkg u).
Definition filename (u : CUnit) : string :=
  let kind := match tgt_kind (unit_target u) with
              | TLib _ => "lib"
              | TBin => "bin"
              | TTest => "integration-test"
              | TExampleBin | TExampleLib _ => "example"
              | TBench => "bench"
              | TCustomBuild => "build-script"
              end in
  let flavor := if mode_is_any_test (unit_mode u) then "test-" else if mode_is_doc (unit_mode u) then "doc-" else "" in
  flavor ++ kind ++ "-" ++ unit_file_stem u.
Definition dep_info_loc (u : CUnit) : path := path_join (fingerprint_dir u) ("dep-" ++ filename u).
Definition pkg_fingerprint (p : Package) : cresult string :=
  match source_fingerprint (pid_source_id (package_id p)) with
  | Some f => f p
  | None => Err "missing package source"
  end.

(** * [calculate] *)
Record FpState := mkFpState { fingerprints : hashmap CUnit loc; store : Store }.
Definition counted (u : CUnit) : bool := negb (is_custom_build (unit_target u)) && negb (is_bin (unit_target u)).
Definition local_fingerprint (u : CUnit) : cresult LocalFingerprint :=
  if use_dep_info u then
    let dep_info := dep_info_loc u in
    root ← package_root (unit_pkg u);
    mtime ← dep_info_mtime_if_fresh stat root dep_info (read_bytes dep_info);
    mtime_local target_root mtime dep_info
  else fingerprint ← pkg_fingerprint (unit_pkg u); Ok (Precalculated fingerprint).
Definition by_pkg_id (a b : string * string * loc) : comparison := String.compare a.1.1 b.1.1.
(** The fingerprint of a unit whose dependencies are known. *)
Definition new_fingerprint (u : CUnit) (deps : list (string * string * loc)) : cresult Fingerprint :=
  local ← local_fingerprint u;
  let deps := sort_by by_pkg_id deps in
  extra_flags ← (if mode_is_doc (unit_mode u) then rustdocflags_args u else rustflags_args u);
  incremental ← incremental_args config incremental_dir u;
  let profile := hash_profile (unit_profile u, unit_mode u, extra_args_for u, incremental) in
  args ← path_args short_hash ws_root target_dir u;
  Ok (mkFingerprint (hash_text rustc_version)
        (debug_features (features_sorted (bcx_resolve bcx) (package_id (unit_pkg u))))
        (hash_target (unit_target u)) profile (hash_path args.1) deps [local] None extra_flags (tgt_edition (unit_target u))).
Fixpoint calculate_deps (calc : CUnit → FpState → option (cresult (loc * FpState))) (u : CUnit) (ds : list CUnit) (st : FpState)
    : option (cresult (list (string * string * loc) * FpState)) :=
  match ds with
  | [] => Some (Ok ([], st))
  | dep :: ds =>
      let* (a, st) := calc dep st in
      let* name := Some (unit_crate_name u dep) in
      let* id := Some (PackageId.display (package_id (unit_pkg dep))) in
      let* (rest, st) := calculate_deps calc u ds st in
      Some (Ok ((id, name, a) :: rest, st))
  end.
Fixpoint calculate (fuel : nat) (u : CUnit) (st : FpState) : option (cresult (loc * FpState)) :=
  match hget (fingerprints st) u with
  | Some a => Some (Ok (a, st))
  | None =>
      match fuel with
      | O => None
      | S fuel =>
          let* targets := Some (dep_targets unit_cmp unit_dependencies overridden u) in
          let* (deps, st) := calculate_deps (calculate fuel) u (List.filter counted targets) st in
          let* fingerprint := Some (new_fingerprint u deps) in
          let a := length (store st) in
          Some (Ok (a, mkFpState (hinsert u a (fingerprints st)) (store st ++ [fingerprint])%list))
      end
  end.

(** * [prepare_target] *)
Definition compare_at (fuel : nat) (file : path) (a : loc) (st : FpState) : option (cresult unit * FpState) :=
  '(r, s) ← compare_old_fingerprint hash_content json_read debug_time debug_value debug_path fuel (store st) a
              (read_text file) (read_text (with_extension file "json"));
  Some (r, mkFpState (fingerprints st) s).
Definition verify_source (u : CUnit) : cresult unit :=
  match source_verify (pid_source_id (package_id (unit_pkg u))) with
  | Some verify => verify (package_id (unit_pkg u))
  | None => Err "missing package source"
  end.
(** [Path::exists] *)
Definition exists_file (p : path) : bool := match stat p with inr _ => true | inl _ => false end.
Definition missing_outputs (u : CUnit) : cresult bool :=
  if mode_is_doc (unit_mode u) then
    Ok (negb (exists_file (path_join (path_join (out_dir u) (crate_name (unit_target u))) "index.html")))
  else
    outputs ← unit_outputs u;
    Ok (existsb (λ o, negb (bool_decide (of_flavor o = FDebugInfo)) && negb (exists_file (of_path o))) outputs).
(** The fingerprint, and whether the unit is fresh; what is to be written later is
    [write_target]. *)
Definition prepare_target (fuel : nat) (u : CUnit) (st : FpState) : option (cresult (loc * bool * FpState)) :=
  let file := path_join (fingerprint_dir u) (filename u) in
  let* (a, st) := calculate fuel u st in
  match compare_at (S a) file a st with
  | None => None
  | Some (Panic m, _) => Some (Panic m)
  | Some (compare, st) =>
      let ok := match compare with Ok _ => true | _ => false end in
      let* _ := Some (if ok then Ok tt else verify_source u) in
      let* missing := Some (missing_outputs u) in
      Some (Ok (a, ok && negb missing, st))
  end.
(** The work that runs when the unit is built: [mtime_then] reads the times there are then. *)
Definition write_target (mtime_then : path → cresult FileTime) (u : CUnit) (a : loc) (st : Store)
    : option (cresult (option (string * cresult string)) * Store) :=
  let allow_failure := bool_decide (is_Some (extra_args_for u)) in
  f ← st !! a;
  let '(r, f) := update_local target_root mtime_then f in
  let st := <[a := f]> st in
  match r with
  | Ok _ => '(texts, st) ← write_fingerprint hash_content json_write (S a) st a; Some (Ok (Some texts), st)
  | Err e => Some (if allow_failure then Ok None else Err e, st)
  | Panic m => Some (Panic m, st)
  end.

(** * Build scripts *)
Definition set_only_local (l : list LocalFingerprint) : Fingerprint := mkFingerprint 0 "" 0 0 0 [] l None [] Edition2015.
(** [local_fingerprints_deps], with the times and variables of the moment. *)
Definition local_fingerprints_deps (stat : path → string + FileTime) (env : string → option string) (deps : BuildDeps) (pkg_root : path)
    : cresult (list LocalFingerprint) :=
  local ← match deps_rerun_if_changed deps with
          | [] => Ok []
          | changed =>
              let output := build_script_output deps in
              let mtime := mtime_if_fresh stat output (List.map (path_join pkg_root) changed) in
              l ← mtime_local target_root mtime output; Ok [l]
          end;
  Ok (local ++ List.map (λ var, EnvBased var (env var)) (deps_rerun_if_env_changed deps))%list.
(** [cx.build_state.outputs] while planning, and [cx.build_explicit_deps]. *)
Context (outputs : hashmap (PackageId * PlatformKind) BuildOutput) (build_explicit_deps : hashmap CUnit BuildDeps) (debug_u64 : N → string).
Definition build_script_local_fingerprints (u : CUnit) : cresult (list LocalFingerprint * option path) :=
  match hget outputs (package_id (unit_pkg u), unit_kind u) with
  | Some output => Ok ([Precalculated ("overridden build state with hash: " ++ debug_u64 (hash_output output))], None)
  | None =>
      match hget build_explicit_deps u with
      | None => Panic "no entry found for key"
      | Some deps =>
          let output := build_script_output deps in
          match deps_rerun_if_changed deps, deps_rerun_if_env_changed deps with
          | [], [] => s ← pkg_fingerprint (unit_pkg u); Ok ([Precalculated s], Some output)
          | _, _ =>
              root ← package_root (unit_pkg u);
              local ← local_fingerprints_deps stat (env_var config) deps root; Ok (local, Some output)
          end
      end
  end.
(** [prepare_build_cmd]: the fingerprint it made (its own store), the output of the
    script when it is to be looked at again, and whether the unit is fresh. *)
Definition prepare_build_cmd (u : CUnit) : option (cresult (Fingerprint * option path * bool)) :=
  let file := path_join (fingerprint_dir u) "build" in
  let* (local, output_path) := Some (build_script_local_fingerprints u) in
  let fingerprint := set_only_local local in
  match compare_at 1 file 0%nat (mkFpState ∅ [fingerprint]) with
  | None => None
  | Some (Panic m, _) => Some (Panic m)
  | Some (compare, st) =>
      Some (Ok (default fingerprint (store st !! 0%nat), output_path, match compare with Ok _ => true | _ => false end))
  end.
(** Its work: what the script asked for this time replaces what it was compared by. *)
Definition write_build_cmd (stat_then : path → string + FileTime) (env_then : string → option string)
    (outputs_then : hashmap (PackageId * PlatformKind) BuildOutput) (u : CUnit) (f : Fingerprint) (output_path : option path)
    : option (cresult (string * cresult string)) :=
  let write f := '(texts, _) ← write_fingerprint hash_content json_write 1 [f] 0%nat; Some (Ok texts) in
  match output_path with
  | None => write f
  | Some output_path =>
      match hget outputs_then (package_id (unit_pkg u), unit_kind u) with
      | None => Some (Panic "no entry found for key")
      | Some out =>
          match rerun_if_changed out, rerun_if_env_changed out with
          | [], [] => write f
          | _, _ =>
              let* root := Some (package_root (unit_pkg u)) in
              let* local := Some (local_fingerprints_deps stat_then env_then (build_deps_new output_path (Some out)) root) in
              let '(r, f) := update_local target_root (mtime stat_then) (set_local local f) in
              let* _ := Some r in write f
          end
      end
  end.

(** * The fingerprints of a build *)

(** A fingerprint made for a unit, with those of its dependencies. *)
Definition dep_entry (st : FpState) (u dep : CUnit) (d : string * string * loc) : Prop :=
  hget (fingerprints st) dep = Some d.2 ∧ unit_crate_name u dep = Ok d.1.2 ∧ PackageId.display (package_id (unit_pkg dep)) = Ok d.1.1.
Definition made_for (st : FpState) (u : CUnit) (f : Fingerprint) : Prop :=
  ∃ targets ds, dep_targets unit_cmp unit_dependencies overridden u = Ok targets ∧
    Forall2 (dep_entry st u) (List.filter counted targets) ds ∧ new_fingerprint u ds = Ok (set_memo None f).
Record planned (st : FpState) : Prop := {
  pl_wf : wf (length (store st)) (store st);
  pl_settled : settled hash_content (length (store st)) (store st);
  pl_made i v a : fingerprints st !! i = Some (v, a) → to_key v = i ∧ ∃ f, store st !! a = Some f ∧ made_for st v f;
}.
(** What later steps keep: the fingerprints, but for their memos, and which unit has which. *)
Record grows (st st' : FpState) : Prop := {
  gr_store a f : store st !! a = Some f → ∃ m, store st' !! a = Some (set_memo m f);
  gr_units i x : fingerprints st !! i = Some x → fingerprints st' !! i = Some x;
}.
#[global] Instance grows_preorder : PreOrder grows.
Proof.
  split; [intros st; split; [intros a f H; exists (memoized_hash f); by destruct f|done]|].
  intros st1 st2 st3 [H1 H2] [H3 H4]. split; [|auto]. intros a f Ha. destruct (H1 a f Ha) as [m Hm].
  destruct (H3 _ _ Hm) as [k Hk]. exists k. by destruct f.
Qed.
Lemma grows_hget st st' u a : grows st st' → hget (fingerprints st) u = Some a → hget (fingerprints st') u = Some a.
Proof. intros Hg [v Hv]%hget_Some_inv. eapply hget_Some. by apply (gr_units _ _ Hg). Qed.
Lemma made_grows st st' u f m : grows st st' → made_for st u f → made_for st' u (set_memo m f).
Proof.
  intros Hg (ts & ds & H1 & H2 & H3). exists ts, ds. split_and!; [done| |by destruct f]. eapply Forall2_impl; [exact H2|].
  intros dep d (Ha & Hb & Hc). split_and!; [by eapply grows_hget|done..].
Qed.
Lemma planned_range st u a : planned st → hget (fingerprints st) u = Some a → (a < length (store st))%nat.
Proof. intros Hp [v Hv]%hget_Some_inv. destruct (pl_made _ Hp _ _ _ Hv) as (_ & f & Hf & _). by eapply lookup_lt_Some. Qed.

Lemma planned_nothing : planned (mkFpState ∅ []).
Proof.
  split; cbn [store fingerprints]; [split; [done|intros a f d Ha; cbn in Ha; lia]|intros a f h Ha; cbn in Ha; lia|].
  intros i v a Hv. by rewrite lookup_empty in Hv.
Qed.
(** Hashing keeps a plan. *)
Lemma planned_hashed st s : planned st → hashed hash_content (length (store st)) (store st) s →
  planned (mkFpState (fingerprints st) s) ∧ grows st (mkFpState (fingerprints st) s).
Proof.
  intros Hp Hh. assert (Hg : grows st (mkFpState (fingerprints st) s)).
  { split; [|done]. intros a f Ha. by apply (same_shape_lookup _ _ _ _ (hd_shape _ _ _ _ Hh)). }
  assert (Hl : length s = length (store st)) by apply (same_shape_length _ _ (hd_shape _ _ _ _ Hh)).
  split; [|done]. split; cbn [store fingerprints]; rewrite ?Hl.
  - by apply (wf_same _ _ _ (hd_shape _ _ _ _ Hh)), pl_wf.
  - apply Hh.
  - intros i v a Hv. destruct (pl_made _ Hp _ _ _ Hv) as (Hi & f & Hf & Hm). split; [done|].
    destruct (gr_store _ _ Hg _ _ Hf) as [m Hm']. exists (set_memo m f). split; [done|by eapply made_grows].
Qed.
(** A new fingerprint at the end. *)
Lemma planned_push st u ds targets f : planned st → hget (fingerprints st) u = None →
  dep_targets unit_cmp unit_dependencies overridden u = Ok targets → Forall2 (dep_entry st u) (List.filter counted targets) ds →
  new_fingerprint u ds = Ok f →
  let st' := mkFpState (hinsert u (length (store st)) (fingerprints st)) (store st ++ [f])%list in planned st' ∧ grows st st'.
Proof.
  intros Hp Hnone Ht Hds Hf st'.
  assert (Hmemo : memoized_hash f = None ∧ deps f = sort_by by_pkg_id ds).
  { unfold new_fingerprint in Hf. repeat (match type of Hf with context [?m ≫= _] => destruct m as [?| |]; cbn [mbind res_mbind res_bind] in Hf; [|done..] end).
    by injection Hf as <-. }
  destruct Hmemo as [Hmemo Hdeps].
  assert (Hnew : fingerprints st !! to_key u = None).
  { destruct (fingerprints st !! to_key u) as [[v b]|] eqn:Hv; [|done]. apply hget_Some in Hv. congruence. }
  assert (Hg : grows st st').
  { split; cbn.
    - intros a g Ha. exists (memoized_hash g). rewrite lookup_app_l by by eapply lookup_lt_Some. by destruct g.
    - intros i x Hx. unfold hinsert. rewrite Hnew. rewrite lookup_insert_ne; [done|]. intros <-. congruence. }
  split; [|done].
  assert (Hrange : ∀ d, d ∈ deps f → (d.2 < length (store st))%nat).
  { intros d Hd. rewrite Hdeps, sort_by_perm in Hd. apply list_elem_of_lookup in Hd as [i Hi].
    destruct (Forall2_lookup_r _ _ _ _ _ Hds Hi) as (dep & _ & Hdep & _). by eapply planned_range. }
  destruct (pl_wf _ Hp) as [_ Hold]. split; unfold st'; cbn [store fingerprints].
  - split; [done|]. intros a g d Ha Hg' Hd. rewrite length_app in Ha. cbn in Ha. apply lookup_app_Some in Hg' as [Hg'|[Hle Hg']].
    + apply (Hold a g d); [by eapply lookup_lt_Some|done..].
    + apply list_lookup_singleton_Some in Hg' as [Hz <-]. pose proof (Hrange d Hd). lia.
  - intros a g h Ha Hg' Hh. apply lookup_app_Some in Hg' as [Hg'|[Hle Hg']].
    + pose proof (lookup_lt_Some _ _ _ Hg') as Hlt. unfold value. rewrite (value_app _ (length (store st))) by (done || apply (pl_wf _ Hp)).
      by apply (pl_settled _ Hp a g).
    + apply list_lookup_singleton_Some in Hg' as [_ <-]. congruence.
  - intros i v a Hv. unfold hinsert in Hv. rewrite Hnew in Hv. apply lookup_insert_Some in Hv as [[<- [= <- <-]]|[Hne Hv]].
    + split; [done|]. exists f. split; [rewrite lookup_app_r, Nat.sub_diag by done; done|].
      exists targets, ds. split_and!; [done| |by rewrite Hf; destruct f; cbn in Hmemo; subst].
      eapply Forall2_impl; [exact Hds|]. intros dep d (H1 & H2 & H3). split_and!; [by apply (grows_hget st st')|done..].
    + destruct (pl_made _ Hp _ _ _ Hv) as (Hi & g & Hg' & Hm). split; [done|]. exists g.
      split; [rewrite lookup_app_l; [done|by eapply lookup_lt_Some]|].
      apply (made_grows st st' v g (memoized_hash g)) in Hm; [by destruct g|done].
Qed.

Context (rank : CUnit → nat).
(** The units a unit counts on come before it. *)
Definition ranked : Prop :=
  (∀ u v, to_key u = to_key v → rank u = rank v) ∧
  (∀ u ds d, dep_targets unit_cmp unit_dependencies overridden u = Ok ds → d ∈ ds → counted d = true → (rank d < rank u)%nat).
Context (Hrank : ranked).
(** What a calculation gives: it may fail; else the plan has grown by units up to the given rank. *)
Definition calculated {A} (st : FpState) (bound : nat) (r : option (cresult (A * FpState))) (P : A → FpState → Prop) : Prop :=
  ∃ x, r = Some x ∧ ∀ a st', x = Ok (a, st') → planned st' ∧ grows st st' ∧ P a st' ∧
    (∀ i v b, fingerprints st' !! i = Some (v, b) → fingerprints st !! i = Some (v, b) ∨ (rank v < bound)%nat).
Lemma calculate_deps_spec calc u ds bound : ∀ st,
  (∀ dep st, dep ∈ ds → planned st → calculated st bound (calc dep st) (λ a st', hget (fingerprints st') dep = Some a)) → planned st →
  calculated st bound (calculate_deps calc u ds st) (λ l st', Forall2 (dep_entry st' u) ds l).
Proof.
  induction ds as [|dep ds IH]; intros st Hcalc Hp.
  { eexists. split; [done|]. intros l st' [= <- <-]. split_and!; [done|done|constructor|by left]. }
  cbn [calculate_deps]. destruct (Hcalc dep st ltac:(constructor) Hp) as ([[a st1]| |] & -> & H1); cbn [fbind]; [|by eexists..].
  destruct (H1 a st1 eq_refl) as (Hp1 & Hg1 & Ha & Hb1). destruct (unit_crate_name u dep) as [name| |] eqn:Hn; cbn [fbind]; [|by eexists..].
  destruct (PackageId.display _) as [id| |] eqn:Hid; cbn [fbind]; [|by eexists..].
  destruct (IH st1 (λ d st Hd, Hcalc d st (list_elem_of_further _ _ _ Hd)) Hp1) as ([[rest st2]| |] & -> & H2); cbn [fbind]; [|by eexists..].
  destruct (H2 rest st2 eq_refl) as (Hp2 & Hg2 & Hrest & Hb2). eexists. split; [done|]. intros l st' [= <- <-]. split_and!; [done|by etransitivity| |].
  - constructor; [|done]. split_and!; [by apply (grows_hget st1 st2)|done..].
  - intros i v b Hv. destruct (Hb2 i v b Hv) as [Hv1|]; [by apply Hb1|by right].
Qed.
Lemma calculate_ok fuel : ∀ u st, planned st → (rank u < fuel)%nat →
  calculated st (S (rank u)) (calculate fuel u st) (λ a st', hget (fingerprints st') u = Some a).
Proof.
  induction fuel as [|fuel IH]; intros u st Hp Hfuel; [lia|]. cbn [calculate].
  destruct (hget (fingerprints st) u) as [a|] eqn:Hget.
  { eexists. split; [done|]. intros b st' [= <- <-]. split_and!; [done|done|done|by left]. }
  destruct (dep_targets _ _ _ u) as [targets| |] eqn:Ht; cbn [fbind]; [|by eexists..].
  assert (Hlow : ∀ d, d ∈ List.filter counted targets → (rank d < rank u)%nat).
  { intros d [Hd Hc]%elem_of_filter_bool. by apply (proj2 Hrank u targets). }
  destruct (calculate_deps_spec (calculate fuel) u (List.filter counted targets) (rank u) st) as (x & -> & Hx); [|done|].
  { intros dep st0 Hd Hp0. pose proof (Hlow dep Hd) as Hl. destruct (IH dep st0 Hp0 ltac:(lia)) as (y & Hy & HPy). exists y. split; [done|].
    intros a st' Ha. destruct (HPy a st' Ha) as (H1 & H2 & H3 & H4). split_and!; [done..|]. intros i v b Hv.
    destruct (H4 i v b Hv); [by left|right; lia]. }
  destruct x as [[ds st1]| |]; cbn [fbind]; [|by eexists..]. destruct (Hx ds st1 eq_refl) as (Hp1 & Hg1 & Hds & Hb1).
  destruct (new_fingerprint u ds) as [f| |] eqn:Hf; cbn [fbind]; [|by eexists..].
  assert (Hnone : hget (fingerprints st1) u = None).
  { destruct (hget (fingerprints st1) u) as [b|] eqn:Hb; [|done]. apply hget_Some_inv in Hb as [v Hv].
    destruct (Hb1 _ _ _ Hv) as [Hv0|Hlt]; [apply hget_Some in Hv0; congruence|].
    destruct (pl_made _ Hp1 _ _ _ Hv) as (Hi & _). pose proof (proj1 Hrank v u Hi). lia. }
  destruct (planned_push st1 u ds targets f) as [Hp2 Hg2]; try done. eexists. split; [done|]. intros a st' [= <- <-].
  split_and!; [done|by etransitivity|cbn; rewrite hget_hinsert; by case_decide|].
  intros i v b Hv. cbn in Hv. unfold hinsert in Hv. destruct (fingerprints st1 !! to_key u) as [[w c]|] eqn:Hw; [apply hget_Some in Hw; congruence|].
  apply lookup_insert_Some in Hv as [[<- [= <- <-]]|[_ Hv]]; [right; lia|]. destruct (Hb1 i v b Hv); [by left|right; lia].
Qed.

(** What planning a unit does: it computes the fingerprint, compares it, and looks for the outputs. *)
Lemma prepare_target_run fuel u st : planned st → (rank u < fuel)%nat →
  ∃ x, prepare_target fuel u st = Some x ∧ ∀ a fresh st', x = Ok (a, fresh, st') →
    ∃ st1 r s, planned st1 ∧ grows st st1 ∧ hget (fingerprints st1) u = Some a ∧
      compare_old_fingerprint hash_content json_read debug_time debug_value debug_path (S a) (store st1) a
        (read_text (path_join (fingerprint_dir u) (filename u)))
        (read_text (with_extension (path_join (fingerprint_dir u) (filename u)) "json")) = Some (r, s) ∧
      hashed hash_content (length (store st1)) (store st1) s ∧ st' = mkFpState (fingerprints st1) s ∧
      (r ≠ Ok tt → verify_source u = Ok tt) ∧ (fresh = true ↔ r = Ok tt ∧ missing_outputs u = Ok false).
Proof.
  intros Hp Hfuel. unfold prepare_target. destruct (calculate_ok fuel u st Hp Hfuel) as ([[a st1]| |] & -> & H1); cbn [fbind]; [|by eexists..].
  destruct (H1 a st1 eq_refl) as (Hp1 & Hg1 & Ha & _). pose proof (planned_range _ _ _ Hp1 Ha) as Hlt. unfold compare_at.
  destruct (compare_old_returns hash_content json_read debug_time debug_value debug_path (length (store st1)) (S a) (store st1) a
    (read_text (path_join (fingerprint_dir u) (filename u))) (read_text (with_extension (path_join (fingerprint_dir u) (filename u)) "json")))
    as (r & s & Hcmp & Hh); [apply Hp1|apply Hp1|done|lia|]. rewrite Hcmp. cbn [mbind option_bind].
  set (ok := match r with Ok _ => true | _ => false end).
  assert (Hok : ok = true ↔ r = Ok tt) by (destruct r as [[]| |]; subst ok; naive_solver).
  assert (Hend : ∃ x, (let* _ := Some (if ok then Ok tt else verify_source u) in
      let* missing := Some (missing_outputs u) in Some (Ok (a, ok && negb missing, mkFpState (fingerprints st1) s))) = Some x ∧
    ∀ a' fresh st', x = Ok (a', fresh, st') → a' = a ∧ st' = mkFpState (fingerprints st1) s ∧ (ok = false → verify_source u = Ok tt) ∧
      (fresh = true ↔ ok = true ∧ missing_outputs u = Ok false)).
  { clearbody ok. destruct (if ok then Ok tt else verify_source u) as [[]| |] eqn:Hv; cbn [fbind]; [|by eexists..].
    destruct (missing_outputs u) as [m| |]; cbn [fbind]; [|by eexists..]. eexists. split; [done|]. intros a' fresh st' [= <- <- <-].
    split_and!; [done|done|by destruct ok|]. destruct ok, m; naive_solver. }
  destruct Hend as (x & Hx & Hres). exists (match r with Panic m => Panic m | _ => x end).
  split; [destruct r; [exact Hx|exact Hx|done]|]. intros a' fresh st' Hx'.
  assert (Hxo : x = Ok (a', fresh, st')) by by destruct r. destruct (Hres _ _ _ Hxo) as (-> & -> & Hver & Hfresh).
  exists st1, r, s. clear -Hp1 Hg1 Ha Hcmp Hh Hver Hfresh Hok. clearbody ok. split_and!; try done; [|by rewrite <-Hok].
  intros Hr. apply Hver. destruct ok; [|done]. by destruct Hr; apply Hok.
Qed.
Lemma prepare_target_keeps fuel u st : planned st → (rank u < fuel)%nat →
  ∃ x, prepare_target fuel u st = Some x ∧ ∀ a fresh st', x = Ok (a, fresh, st') → planned st' ∧ grows st st'.
Proof.
  intros Hp Hfuel. destruct (prepare_target_run fuel u st Hp Hfuel) as (x & Hx & H). exists x. split; [done|]. intros a fresh st' Hres.
  destruct (H a fresh st' Hres) as (st1 & r & s & Hp1 & Hg1 & _ & _ & Hh & -> & _). destruct (planned_hashed st1 s Hp1 Hh) as [Hp2 Hg2].
  split; [done|by etransitivity].
Qed.

(** What the fingerprint of the last build says of the one of this build. *)
Record last_build (u : CUnit) (c c1 : Content) : Prop := {
  lb_short : read_text (path_join (fingerprint_dir u) (filename u)) = Ok (to_hex (hash_content c1));
  lb_json : ∃ text, read_text (with_extension (path_join (fingerprint_dir u) (filename u)) "json") = Ok text ∧ json_read text = Ok c1;
  lb_distinct : hash_content c = hash_content c1 → c = c1;
  lb_bounds : (hash_content c < 2 ^ 64)%N ∧ (hash_content c1 < 2 ^ 64)%N;
}.
(** C12. Planning a unit returns, and when it does not fail the plan stays well formed: every unit that has a fingerprint
    has the one made for it, after those of the units it counts on, which keep theirs, and the hashes kept in
    fingerprints are their hashes.  The unit is then fresh exactly when nothing the last build recorded for it changed
    and all its outputs exist; a unit without a record is not fresh; and one that changed has passed the verification of
    its source.  The units a unit counts on are those it depends on that are neither build scripts nor binaries; they
    are assumed to form no cycle. *)
Theorem prepare_target_spec `{HX : !HexLaws} fuel u st : planned st → (rank u < fuel)%nat →
  ∃ x, prepare_target fuel u st = Some x ∧ ∀ a fresh st', x = Ok (a, fresh, st') →
    planned st' ∧ grows st st' ∧ hget (fingerprints st') u = Some a ∧
    (∀ e, read_text (path_join (fingerprint_dir u) (filename u)) = Err e → fresh = false) ∧
    ∃ f c, store st' !! a = Some f ∧ content_at hash_content (store st') a = Some c ∧
      ∀ c1, last_build u c c1 →
        (fresh = true ↔ unchanged hash_content (store st') f c1 ∧ missing_outputs u = Ok false) ∧
        (¬ unchanged hash_content (store st') f c1 → verify_source u = Ok tt).
Proof.
  intros Hp Hfuel. destruct (prepare_target_run fuel u st Hp Hfuel) as (x & Hx & H). exists x. split; [done|]. intros a fresh st' Hres.
  destruct (H a fresh st' Hres) as (st1 & r & s & Hp1 & Hg1 & Ha & Hcmp & Hh & -> & Hver & Hfresh). clear H Hres.
  destruct (planned_hashed st1 s Hp1 Hh) as [Hp2 Hg2]. pose proof (planned_range _ _ _ Hp1 Ha) as Hlt.
  split_and!; [done|by etransitivity|done| |].
  { intros e He. rewrite He in Hcmp. cbn in Hcmp. injection Hcmp as <- _. destruct fresh; [|done]. by destruct (proj1 Hfresh eq_refl). }
  destruct (lookup_lt_is_Some_2 _ _ Hlt) as [f Hf]. destruct (same_shape_lookup _ _ _ _ (hd_shape _ _ _ _ Hh) Hf) as [m Hm].
  destruct (content_value hash_content _ _ a (pl_wf _ Hp1) Hlt) as (c & Hc & _).
  exists (set_memo m f), c. cbn [store]. split_and!; [done|by rewrite (hashed_content hash_content (length (store st1)) (store st1)) by (done || apply Hp1)|].
  intros c1 [Hs (text & Ht & Hj) Hinj [Hb Hb1]]. rewrite Hs, Ht in Hcmp.
  destruct (compare_old_spec hash_content json_read debug_time debug_value debug_path (length (store st1)) (S a) (store st1) a f c c1 text)
    as (r' & s' & Hcmp' & Hd & _); try done; [apply Hp1|apply Hp1|lia|]. rewrite Hcmp in Hcmp'. injection Hcmp' as <- <-.
  rewrite (unchanged_hashed hash_content (length (store st1)) (store st1) s f m c1 Hh).
  clear -Hd Hfresh Hver. destruct Hd as [[-> Hun]|(e & -> & Hun)].
  - split; [|done]. rewrite Hfresh. tauto.
  - split; [|by intros; apply Hver]. rewrite Hfresh. by split; intros [? ?].
Qed.
End freshness.

(** * The names of a build's files *)
Section names.
Context `{SV : SemverLib} `{UL : UrlLib} `{RS : RustStd} `{MH : !MetadataHash}.
Context (exec_with_output : ProcessBuilder → cresult (string * string)) (bcx : BuildContext) (ws_root : path).

(** What [CompilationFiles] answers, as the names that are used here; that they
    do not panic is shown below for the units of a build. *)
Definition answer (r : cresult string) : string := match r with Ok s => s | _ => "" end.
Definition build_names (files : CompilationFiles) (i : Infos) : FileNames := {|
  target_root := cf_target_root files;
  fingerprint_dir u := answer (cf_fingerprint_dir ws_root files u);
  out_dir u := answer (cf_out_dir ws_root files u);
  unit_file_stem u := answer (cf_file_stem files u);
  unit_outputs u := '(o, _) ← calc_outputs exec_with_output bcx ws_root files u i; Ok o;
  incremental_dir k := lay_incremental (cf_layout files k);
|}.
Lemma build_names_answer (files : CompilationFiles) (i : Infos) (u : CUnit) p : is_Some (hget (cf_metas files) u) →
  stable_package ws_root (package_id (unit_pkg u)) = Ok p →
  cf_fingerprint_dir ws_root files u = Ok (fingerprint_dir (FileNames:=build_names files i) u) ∧
  cf_file_stem files u = Ok (unit_file_stem (FileNames:=build_names files i) u) ∧
  (is_custom_build (unit_target u) = false → mode_is_doc (unit_mode u) = false →
     cf_out_dir ws_root files u = Ok (out_dir (FileNames:=build_names files i) u)).
Proof.
  intros [m Hm] Hp. unfold fingerprint_dir, unit_file_stem, out_dir, build_names, cf_fingerprint_dir, cf_file_stem, cf_out_dir, pkg_dir,
    target_short_hash, cf_metadata, index_metas. rewrite Hm, Hp. cbn [mbind res_mbind res_bind].
  split_and!; [by destruct m..|]. intros -> ->. by destruct (is_example _).
Qed.
End names.

(** * Concrete runs *)
Section runs.
Local Existing Instance sem_lib.
Local Existing Instance hier_lib.
Local Existing Instance std_order.
Local Existing Instance ascii_case.
Local Existing Instance two_digits.
Local Existing Instance line_toml.
Local Existing Instance sample_files.

(** The library [a], which uses the library [z]. *)
Definition lib_unit (p : Package) (name : string) : CUnit := mkUnit p (tgt (TLib [LibLib]) name false) default_dev KTarget MBuild.
Definition lib_a : CUnit := lib_unit pkg_a "a".
Definition lib_z : CUnit := lib_unit pkg_z "z".
Definition two_units : hashmap CUnit (list CUnit) := hinsert lib_a [lib_z] (hinsert lib_z [] ∅).
Definition no_order (a b : CUnit) : comparison := Eq.
Definition sample_rank (u : CUnit) : nat := if decide (to_key u = to_key lib_a) then 1 else 0.
Local Instance sample_hashing : Hashing := {|
  hash_content := sample_hash;
  hash_text s := N.of_nat (String.length s);
  hash_target t := N.of_nat (String.length (tgt_name t));
  hash_profile p := 3%N;
  hash_path p := N.of_nat (String.length p);
  hash_output o := 0%N;
  short_hash _ := "0";
|}.
Local Instance sample_layout : FileNames := {|
  target_root := "/target";
  fingerprint_dir u := "/target/.fingerprint/" ++ tgt_name (unit_target u);
  out_dir _ := "/target";
  unit_file_stem u := tgt_name (unit_target u);
  unit_outputs u := Ok [mkOutputFile ("/target/lib" ++ tgt_name (unit_target u) ++ ".rlib") None FLinkable];
  incremental_dir _ := "/target/incremental";
|}.
Local Instance sample_sources : PackageSources := {|
  source_fingerprint _ := Some (λ _, Ok "1.0");
  source_verify _ := Some (λ _, Ok tt);
|}.
(** A disk with the given times and texts. *)
Definition sample_disk (times : list (path * FileTime)) (texts : list (path * string)) (known : list Content) : Disk := {|
  stat p := match List.find (λ e, String.eqb e.1 p) times with Some (_, t) => inr t | None => inl "not found" end;
  read_text p := match List.find (λ e, String.eqb e.1 p) texts with Some (_, s) => Ok s | None => Err "not found" end;
  read_bytes p := match List.find (λ e, String.eqb e.1 p) texts with Some (_, s) => Ok s | None => Err "not found" end;
  json_read := sample_read known;
  json_write := sample_write;
|}.
Definition plan (DK : Disk) (u : CUnit) (st : FpState) : option (cresult (loc * bool * FpState)) :=
  prepare_target (λ _, "") (λ _, "") id (λ l, join "," l) sample_context (sample_config ∅) None "/" "/target" "rustc 1.31"
    ∅ no_order two_units ∅ 2 u st.
Definition no_plan : FpState := mkFpState ∅ [].
Definition fresh_of (r : option (cresult (loc * bool * FpState))) : option bool :=
  match r with Some (Ok (_, fresh, _)) => Some fresh | _ => None end.

(** A first build of both: the texts of the fingerprints of [z] and [a], and what they say. *)
Definition written (r : option (cresult (option (string * cresult string)) * Store)) : option (string * string * Store) :=
  match r with Some (Ok (Some (short, Ok json)), s) => Some (short, json, s) | _ => None end.
Definition first_build : option (list (path * string) * list Content) :=
  match plan (sample_disk [] [] []) lib_a no_plan with
  | Some (Ok (_, false, st)) =>
      let write := write_target (LA:=sample_layout) (DK:=sample_disk [] [] []) ∅ (λ _, Ok built) in
      '(sz, jz, s) ← written (write lib_z 0%nat (store st));
      '(sa, ja, s) ← written (write lib_a 1%nat s);
      cz ← content_at sample_hash s 0; ca ← content_at sample_hash s 1;
      Some ([("/target/.fingerprint/z/lib-z", sz); ("/target/.fingerprint/z/lib-z.json", jz);
             ("/target/.fingerprint/a/lib-a", sa); ("/target/.fingerprint/a/lib-a.json", ja)], [cz; ca])
  | _ => None
  end.
(** A second build, with the time of [z]'s source and the outputs that exist: is [a] fresh? *)
Definition rebuild (source : FileTime) (outputs : list string) : option bool :=
  '(texts, known) ← first_build;
  let times := (List.map (λ o, (o, built)) outputs ++
    [("/target/.fingerprint/z/dep-lib-z", built); ("/target/.fingerprint/a/dep-lib-a", built); ("/z/z.rs", source); ("/a/a.rs", mkTime 1 0)])%list in
  let texts := (texts ++ [("/target/.fingerprint/z/dep-lib-z", ("z.rs" ++ String nul "")%string); ("/target/.fingerprint/a/dep-lib-a", ("a.rs" ++ String nul "")%string)])%list in
  fresh_of (plan (sample_disk times texts known) lib_a no_plan).
Definition rlibs : list string := ["/target/liba.rlib"; "/target/libz.rlib"].
Example builds : rebuild (mkTime 1 0) rlibs = Some true ∧ rebuild built rlibs = Some false ∧ rebuild (mkTime 1 0) [] = Some false.
Proof. split_and!; vm_eq. Qed.

(** A script that now asks for a variable: the record has the variable, and the hash of what it was compared by. *)
Definition asks_for_foo : BuildOutput := mkOutput [] [] [] [] [] [] ["FOO"] [].
Definition script_key : PackageId * PlatformKind := (package_id (unit_pkg run_unit), unit_kind run_unit).
Definition script_rebuild : option (string * N) :=
  let DK := sample_disk [] [("/target/.fingerprint/s/build", "0000000000000000")] [] in
  match prepare_build_cmd (DK:=DK) (λ _, "") (λ _, "") id (sample_config ∅) ∅ (hinsert run_unit (mkBuildDeps "/target/out" [] []) ∅) (λ _, "0") run_unit with
  | Some (Ok (f, output_path, false)) =>
      match write_build_cmd (DK:=DK) (λ _, inl "not found") (λ _, Some "1") (hinsert script_key asks_for_foo ∅) run_unit f output_path with
      | Some (Ok (short, _)) => c ← content_at sample_hash [set_local [EnvBased "FOO" (Some "1")] (set_only_local [])] 0; Some (short, sample_hash c)
      | _ => None
      end
  | _ => None
  end.
Example variable_memo : fst <$> script_rebuild = Some (to_hex 3) ∧ snd <$> script_rebuild = Some 7%N.
Proof. split; vm_eq. Qed.
Definition sample_planned (DK : Disk) : FpState → Prop :=
  planned (HA:=sample_hashing) (LA:=sample_layout) (PS:=sample_sources) (DK:=DK) (λ l, join "," l)
    sample_context (sample_config ∅) None "/" "/target" "rustc 1.31" ∅ no_order two_units ∅.
Lemma no_plan_planned DK : sample_planned DK no_plan.
Proof. apply planned_nothing. Qed.
Lemma sample_ranked : ranked no_order two_units ∅ sample_rank.
Proof.
  split; [intros u v Huv; unfold sample_rank; by rewrite Huv|]. intros u ds d Hds Hd _. unfold dep_targets in Hds.
  destruct (_ && _); [injection Hds as <-; by apply elem_of_nil in Hd|]. unfold two_units in Hds. rewrite !hget_hinsert, hget_empty in Hds.
  case_decide as Ha; [|case_decide as Hz; [|done]]; injection Hds as <-; [|by apply elem_of_nil in Hd].
  apply list_elem_of_singleton in Hd as ->. unfold sample_rank. rewrite (decide_True (P:=to_key u = _)) by done.
  rewrite decide_False; [lia|]. intros (Hp & _)%unit_key_eq. by apply package_id_key_eq in Hp as [Hn _].
Qed.
Lemma prepare_target_spec_witness : ∃ x, plan (sample_disk [] [] []) lib_a no_plan = Some x ∧ ∀ a fresh st', x = Ok (a, fresh, st') →
  sample_planned (sample_disk [] [] []) st' ∧ hget (fingerprints st') lib_a = Some a ∧ fresh = false.
Proof.
  destruct (prepare_target_spec (HA:=sample_hashing) (LA:=sample_layout) (PS:=sample_sources) (DK:=sample_disk [] [] [])
    (λ _, "") (λ _, "") id (λ l, join "," l) sample_context (sample_config ∅) None "/" "/target" "rustc 1.31" ∅ no_order two_units ∅
    sample_rank sample_ranked 2 lib_a no_plan (no_plan_planned _)) as (x & Hx & H); [vm_compute; lia|].
  exists x. split; [exact Hx|]. intros a fresh st' Hres. destruct (H a fresh st' Hres) as (H1 & _ & H2 & H3 & _).
  split; [exact H1|split; [exact H2|]]. apply (H3 "not found"). reflexivity.
Defined.
End runs.
