(* ===== verification/CompileUnits.v ===== *)
(** Planning a build: [compile] of [src/cargo/core/compiler/mod.rs], which walks
    along the graph of units, prepares the job of each ([prepare_target] or the
    build script's [prepare]) and puts it into the job queue, and the loop over
    the roots in [Context::compile] ([src/cargo/core/compiler/context/mod.rs]). *)
From S2P Require Import Prelude Str BuildScript UnitGraph DepQueue JobQueue JobRun.
From S2P Require Import Extern Path SourceId PackageId Features ConfigValue Config Target Cfg Graph Dependency Summary Profiles Resolve Package UnitDeps BuildMap.
From S2P Require Import Fingerprint CompileArgs Freshness.

Local Open Scope string_scope.

Section compile.
Context `{SV : SemverLib} `{UL : UrlLib} `{RS : RustStd} `{FS : FileSystem} `{TL : TomlLib} `{UC : UnicodeCase}.
Context `{HL : HexLib} `{HA : !Hashing} `{LA : !FileNames} `{PS : !PackageSources} `{DK : !Disk}.
Context (debug_time : option FileTime → string) (debug_value : option string → string) (debug_path : path → string).
Context (debug_features : list string → string) (debug_u64 : N → string).
Context (bcx : BuildContext) (config : Config) (requested_target : option string) (ws_root target_dir : path) (rustc_version : string).
Context (extra_compiler_args : hashmap CUnit (list string)).
Context (unit_cmp : CUnit → CUnit → comparison) (unit_dependencies : hashmap CUnit (list CUnit)) (overridden : hashset (PackageId * PlatformKind)).
Context (outputs : hashmap (PackageId * PlatformKind) BuildOutput) (build_explicit_deps : hashmap CUnit BuildDeps).

(** What the jobs do: the work of the compiler, of a build script when it runs and
    when it does not, of linking the outputs when dirty and when fresh, and the
    writing of the fingerprints; a directory is made while planning. *)
Class Works := {
  Work : Type;
  noop : Work;
  and_then : Work → Work → Work;
  rustc_work : CUnit → cresult Work;
  rustdoc_work : CUnit → cresult Work;
  script_work : CUnit → cresult (Work * Work);
  link_work : CUnit → bool → cresult Work;
  write_work : CUnit → loc → Work;
  write_script_work : CUnit → Fingerprint → option path → Work;
  prepare_dir : CUnit → cresult unit;
  exec_force_rebuild : CUnit → bool;
}.
Context `{WK : !Works}.
(** The build plan, and whether one is made. *)
Context {Plan : Type} (plan_add : CUnit → Plan → cresult Plan) (build_plan : bool).

(** [Job::new(dirty, fresh)] *)
Definition Job : Type := Work * Work.
(** What planning changes. *)
Record Planning := mkPlanning {
  seen : hashset CUnit;      (* [compiled] *)
  pl_links : Links;
  pl_jobs : @JobQueue SV UL Job;
  pl_fp : FpState;
  pl_plan : Plan;
}.
Abbreviation targets_of := (dep_targets unit_cmp unit_dependencies overridden).
Abbreviation prepare_target_of := (prepare_target debug_time debug_value debug_path debug_features bcx config requested_target ws_root target_dir
  rustc_version extra_compiler_args unit_cmp unit_dependencies overridden).
Abbreviation prepare_script_of := (prepare_build_cmd debug_time debug_value debug_path config outputs build_explicit_deps debug_u64).

Definition freshness_of (b : bool) : Freshness := if b then Fresh else Dirty.
(** [custom_build::prepare] *)
Definition prepare_script (u : CUnit) : option (cresult (Job * Freshness)) :=
  let* (work_dirty, work_fresh) :=
    Some (if hcontains overridden (package_id (unit_pkg u), unit_kind u) then Ok (noop, noop) else script_work u) in
  if build_plan then Some (Ok ((work_dirty, work_fresh), Dirty))
  else
    let* (f, output_path, fresh) := prepare_script_of u in
    Some (Ok ((and_then work_dirty (write_script_work u f output_path), and_then work_fresh noop), freshness_of fresh)).
(** The job of a unit. *)
Definition prepare_job (fuel : nat) (u : CUnit) (force_rebuild : bool) (fp : FpState) : option (cresult (Job * Freshness * FpState)) :=
  if mode_is_run_custom_build (unit_mode u) then
    let* (job, freshness) := prepare_script u in Some (Ok (job, freshness, fp))
  else if bool_decide (unit_mode u = MDoctest) then Some (Ok ((noop, noop), Fresh, fp))
  else if build_plan then let* work := Some (rustc_work u) in Some (Ok ((work, noop), Dirty, fp))
  else
    let* (a, fresh, fp) := prepare_target_of fuel u fp in
    let* work := Some (if mode_is_doc (unit_mode u) then rustdoc_work u else rustc_work u) in
    let* link_dirty := Some (link_work u false) in
    let* link_fresh := Some (link_work u true) in
    let freshness := if exec_force_rebuild u || force_rebuild then Dirty else freshness_of fresh in
    Some (Ok ((and_then (and_then work link_dirty) (write_work u a), and_then link_fresh noop), freshness, fp)).
(** The loops over units. *)
Fixpoint each (visit : CUnit → Planning → option (cresult Planning)) (us : list CUnit) (st : Planning) : option (cresult Planning) :=
  match us with
  | [] => Some (Ok st)
  | u :: us => let* st := visit u st in each visit us st
  end.
Fixpoint compile (fuel : nat) (u : CUnit) (force_rebuild : bool) (st : Planning) : option (cresult Planning) :=
  if hcontains (seen st) u then Some (Ok st)
  else match fuel with
  | O => None
  | S fuel' =>
      let* _ := Some (prepare_dir u) in
      let* links := validate_links (pl_links st) (bcx_resolve bcx) u in
      let* (job, freshness, fp) := prepare_job fuel u force_rebuild (pl_fp st) in
      let* targets := Some (targets_of u) in
      let st := mkPlanning (hinsert u tt (seen st)) links (enqueue (pl_jobs st) u targets job freshness) fp (pl_plan st) in
      let* st := each (λ u, compile fuel' u false) targets st in
      if build_plan then
        let* plan := Some (plan_add u (pl_plan st)) in
        Some (Ok (mkPlanning (seen st) (pl_links st) (pl_jobs st) (pl_fp st) plan))
      else Some (Ok st)
  end.
(** [Context::compile], the loop over the units asked for, on fresh state. *)
Definition plan_units (fuel : nat) (force_rebuild : bool) (units : list CUnit) (plan : Plan) : option (cresult Planning) :=
  each (λ u, compile fuel u force_rebuild) units (mkPlanning ∅ links_new jobqueue_new (mkFpState ∅ []) plan).

(** * The queue a plan makes *)
Abbreviation entry := (@Entry SV UL Job).
Implicit Types (es : list entry) (st : Planning).
Definition has_key es (u : CUnit) : Prop := ∃ e, e ∈ es ∧ entry_key e = key_new u.
(** The queue is that of the entries, one for each unit seen, with what the unit depends on. *)
Record plans es st : Prop := {
  pn_jobs : pl_jobs st = enqueue_all es;
  pn_seen u : hcontains (seen st) u = true ↔ has_key es u;
  pn_once : NoDup (entry_key <$> es);
  pn_deps e : e ∈ es → targets_of e.1.1.1 = Ok e.1.1.2;
  pn_planned : planned debug_features bcx config requested_target ws_root target_dir rustc_version extra_compiler_args
    unit_cmp unit_dependencies overridden (pl_fp st);
}.
Definition needs (u d : CUnit) : Prop := ∃ targets, targets_of u = Ok targets ∧ d ∈ targets.
(** What visiting units does: it adds entries, which need only units that are there, and comes to no others. *)
Definition visited es (us : list CUnit) (r : option (cresult Planning)) : Prop :=
  ∃ x, r = Some x ∧ ∀ st', x = Ok st' → ∃ new, plans (es ++ new) st' ∧
    (∀ e d, e ∈ new → d ∈ e.1.1.2 → has_key (es ++ new) d) ∧ (∀ u, u ∈ us → has_key (es ++ new) u) ∧
    (∀ e, e ∈ new → ∃ u, u ∈ us ∧ rtc needs u e.1.1.1).

Context (rank : CUnit → nat).
Definition ordered : Prop :=
  (∀ u v, to_key u = to_key v → rank u = rank v) ∧ ∀ u d, needs u d → (rank d < rank u)%nat.
Context (Hord : ordered) (Hgraph : Graph.wf (graph (bcx_resolve bcx))).

Lemma ordered_ranked : ranked unit_cmp unit_dependencies overridden rank.
Proof. destruct Hord as [H1 H2]. split; [done|]. intros u ds d Hds Hd _. apply H2. by exists ds. Qed.
Lemma has_key_app es new u : has_key es u → has_key (es ++ new) u.
Proof. intros (e & He & Hk). exists e. split; [|done]. apply elem_of_app. by left. Qed.
Lemma validate_links_returns l u : ∃ x, validate_links l (bcx_resolve bcx) u = Some x.
Proof.
  assert (Hd : ∀ id, ∃ x, describe_path (bcx_resolve bcx) id = Some x).
  { intros id. unfold describe_path, Resolve.path_to_top. destruct (path_to_top_spec _ id Hgraph) as (ext & -> & _). by eexists. }
  unfold validate_links. destruct (hcontains _ _); [by eexists|]. destruct (links (unit_pkg u)) as [lib|]; [|by eexists].
  destruct (Package.linked _ !! lib) as [prev|]; [|destruct (negb _); by eexists].
  destruct (Hd prev) as [[p| |] ->]; cbn [fbind]; [|by eexists..]. destruct (Hd (package_id (unit_pkg u))) as [[q| |] ->]; by eexists.
Qed.
Lemma prepare_script_returns u : ∃ x, prepare_script u = Some x.
Proof.
  unfold prepare_script. destruct (if hcontains _ _ then _ else _) as [[wd wf]| |]; cbn [fbind]; [|by eexists..].
  destruct build_plan; [by eexists|]. unfold prepare_build_cmd.
  destruct (build_script_local_fingerprints _ _ _ _ _) as [[local output_path]| |]; cbn [fbind]; [|by eexists..]. unfold compare_at.
  destruct (compare_old_returns hash_content json_read debug_time debug_value debug_path 1 1 [set_only_local local] 0
    (read_text (path_join (fingerprint_dir u) "build")) (read_text (with_extension (path_join (fingerprint_dir u) "build") "json")))
    as (r & s & Hcmp & _).
  - split; [done|]. intros a f d Ha Hf Hd. destruct a; [|lia]. injection Hf as <-. by apply elem_of_nil in Hd.
  - intros a f h Ha Hf Hh. destruct a; [|lia]. injection Hf as <-. done.
  - lia.
  - lia.
  - cbn [store]. rewrite Hcmp. cbn [mbind option_bind]. destruct r; cbn [fbind]; by eexists.
Qed.
Lemma prepare_job_ok fuel u force fp :
  planned debug_features bcx config requested_target ws_root target_dir rustc_version extra_compiler_args unit_cmp unit_dependencies overridden fp →
  (rank u < fuel)%nat → ∃ x, prepare_job fuel u force fp = Some x ∧ ∀ job freshness fp', x = Ok (job, freshness, fp') →
    planned debug_features bcx config requested_target ws_root target_dir rustc_version extra_compiler_args unit_cmp unit_dependencies overridden fp'.
Proof.
  intros Hp Hfuel. unfold prepare_job. destruct (mode_is_run_custom_build _).
  { destruct (prepare_script_returns u) as [[[job freshness]| |] ->]; cbn [fbind]; eexists; (split; [done|]); naive_solver. }
  case_bool_decide; [eexists; split; [done|]; naive_solver|].
  destruct build_plan; [destruct (rustc_work u); cbn [fbind]; eexists; (split; [done|]); naive_solver|].
  destruct (prepare_target_keeps debug_time debug_value debug_path debug_features bcx config requested_target ws_root target_dir rustc_version
    extra_compiler_args unit_cmp unit_dependencies overridden rank ordered_ranked fuel u fp Hp Hfuel) as (x & -> & Hx).
  destruct x as [[[a fresh] fp']| |]; cbn [fbind]; [|by eexists..]. destruct (Hx a fresh fp' eq_refl) as [Hp' _].
  destruct (if mode_is_doc _ then _ else _); cbn [fbind]; [|by eexists..]. destruct (link_work u false); cbn [fbind]; [|by eexists..].
  destruct (link_work u true); cbn [fbind]; [|by eexists..]. eexists. split; [done|]. by intros job freshness fp'' [= _ _ <-].
Qed.

Lemma key_new_eq (u v : CUnit) : key_new u = key_new v ↔ to_key u = to_key v.
Proof. done. Qed.
Lemma visited_nil es st : plans es st → visited es [] (Some (Ok st)).
Proof.
  intros Hp. eexists. split; [done|]. intros st' [= <-]. exists []. rewrite app_nil_r. split_and!; [done|..]; by intros ? ?%elem_of_nil || intros ? ? ?%elem_of_nil.
Qed.
Lemma each_ok visit us : ∀ es st, (∀ u es st, u ∈ us → plans es st → visited es [u] (visit u st)) → plans es st →
  visited es us (each visit us st).
Proof.
  induction us as [|u us IH]; intros es st Hv Hp; [by apply visited_nil|]. cbn [each].
  destruct (Hv u es st ltac:(constructor) Hp) as ([st1| |] & -> & H1); cbn [fbind]; [|by eexists..].
  destruct (H1 st1 eq_refl) as (new1 & Hp1 & Hd1 & Hu1 & Hr1).
  destruct (IH (es ++ new1)%list st1 (λ v es st Hin, Hv v es st (list_elem_of_further _ _ _ Hin)) Hp1) as (x & -> & H2).
  exists x. split; [done|]. intros st' ->. destruct (H2 st' eq_refl) as (new2 & Hp2 & Hd2 & Hu2 & Hr2).
  exists (new1 ++ new2)%list. rewrite app_assoc. split_and!; [done| | |].
  - intros e d [He|He]%elem_of_app Hd; [by apply has_key_app, (Hd1 e)|by apply (Hd2 e)].
  - intros v [->|Hv']%elem_of_cons; [apply has_key_app, Hu1; constructor|by apply Hu2].
  - intros e [He|He]%elem_of_app.
    + destruct (Hr1 e He) as (v & ->%list_elem_of_singleton & Hv'). exists u. split; [constructor|done].
    + destruct (Hr2 e He) as (v & Hv1 & Hv2). exists v. split; [by constructor|done].
Qed.
(** A unit that is not there yet is put into the queue. *)
Lemma plans_push es st u targets job freshness links fp :
  plans es st → hcontains (seen st) u = false → targets_of u = Ok targets →
  planned debug_features bcx config requested_target ws_root target_dir rustc_version extra_compiler_args unit_cmp unit_dependencies overridden fp →
  plans (es ++ [(u, targets, job, freshness)])
    (mkPlanning (hinsert u tt (seen st)) links (enqueue (pl_jobs st) u targets job freshness) fp (pl_plan st)).
Proof.
  intros [H1 H2 H3 H4 H5] Hnew Ht Hfp. split; cbn [pl_jobs seen pl_fp]; [| | | |done].
  - unfold enqueue_all. rewrite foldl_app. cbn. by rewrite H1.
  - intros v. rewrite hcontains_true. setoid_rewrite hget_hinsert. unfold has_key. setoid_rewrite elem_of_app. split.
    + case_decide as Hk; [intros _; exists (u, targets, job, freshness); split; [right; constructor|done]|].
      intros Hv. apply hcontains_true, H2 in Hv as (e & He & Hek). exists e. by split; [left|].
    + intros (e & [He|He%list_elem_of_singleton] & Hek); case_decide as Hk; try (by eexists).
      * apply hcontains_true, H2. by exists e.
      * destruct Hk. by subst e.
  - rewrite fmap_app. apply NoDup_app. split_and!; [done| |apply NoDup_singleton].
    intros k (e & -> & He)%list_elem_of_fmap Hin. cbn in Hin. apply list_elem_of_singleton in Hin.
    assert (Hk : has_key es u) by (by exists e). apply H2 in Hk. congruence.
  - intros e [He|He%list_elem_of_singleton]%elem_of_app; [by apply H4|by subst e].
Qed.
Lemma compile_ok fuel : ∀ u force es st, plans es st → (rank u < fuel)%nat → visited es [u] (compile fuel u force st).
Proof.
  induction fuel as [|fuel IH]; intros u force es st Hp Hfuel; [lia|]. cbn [compile]. destruct (hcontains (seen st) u) eqn:Hseen.
  { eexists. split; [done|]. intros st' [= <-]. exists []. rewrite app_nil_r. split_and!; [done|by intros ? ? ?%elem_of_nil| |by intros ? ?%elem_of_nil].
    intros v ->%list_elem_of_singleton. by apply (pn_seen _ _ Hp). }
  destruct (prepare_dir u); cbn [fbind]; [|by eexists..].
  destruct (validate_links_returns (pl_links st) u) as [[links| |] ->]; cbn [fbind]; [|by eexists..].
  destruct (prepare_job_ok (S fuel) u force (pl_fp st) (pn_planned _ _ Hp) Hfuel) as ([[[job freshness] fp]| |] & -> & Hfp); cbn [fbind]; [|by eexists..].
  specialize (Hfp job freshness fp eq_refl). destruct (targets_of u) as [targets| |] eqn:Ht; cbn [fbind]; [|by eexists..].
  pose proof (plans_push es st u targets job freshness links fp Hp Hseen Ht Hfp) as Hp1. set (st1 := mkPlanning _ _ _ _ _) in *.
  destruct (each_ok (λ u, compile fuel u false) targets (es ++ [(u, targets, job, freshness)]) st1) as (x & -> & Hx); [|done|].
  { intros d es' st' Hd Hp'. apply IH; [done|]. pose proof (proj2 Hord u d ltac:(by exists targets)). lia. }
  destruct x as [st2| |]; cbn [fbind]; [|by eexists..]. destruct (Hx st2 eq_refl) as (new & Hp2 & Hd2 & Hu2 & Hr2).
  assert (Hdone : ∀ plan, visited es [u] (Some (Ok (mkPlanning (seen st2) (pl_links st2) (pl_jobs st2) (pl_fp st2) plan)))).
  { intros plan. eexists. split; [done|]. intros st' [= <-]. exists ((u, targets, job, freshness) :: new). 
    replace (es ++ (u, targets, job, freshness) :: new)%list with ((es ++ [(u, targets, job, freshness)]) ++ new)%list by (by rewrite <-app_assoc).
    split_and!; [by destruct Hp2| | |].
    - intros e d [->|He]%elem_of_cons Hd; [by apply Hu2|by apply (Hd2 e)].
    - intros v ->%list_elem_of_singleton. apply has_key_app. exists (u, targets, job, freshness). split; [|done]. apply elem_of_app. right. constructor.
    - intros e [->|He]%elem_of_cons; [exists u; split; [constructor|done]|]. destruct (Hr2 e He) as (d & Hd & Hrt).
      exists u. split; [constructor|]. eapply rtc_l; [|done]. by exists targets. }
  destruct build_plan; [|specialize (Hdone (pl_plan st2)); by destruct st2].
  destruct (plan_add u (pl_plan st2)) as [plan| |]; cbn [fbind]; [apply Hdone|by eexists..].
Qed.

(** * The queue accepts the plan *)
Section accepted.
Context (universe : gset JobKey) (es : list entry).
Context (Huniverse : ∀ e, e ∈ es → entry_key e ∈ universe) (Hsmall : (N.of_nat (size universe) < IN_PROGRESS)%N).
Context (Honce : NoDup (entry_key <$> es)) (Hdeps : ∀ e, e ∈ es → targets_of e.1.1.1 = Ok e.1.1.2).
Context (Hclosed : ∀ e d, e ∈ es → d ∈ e.1.1.2 → has_key es d).

Lemma deps_of_entries_lookup k ds : deps_of_entries es !! k = Some ds → ∃ e, e ∈ es ∧ entry_key e = k ∧ ds = entry_deps e.
Proof.
  unfold deps_of_entries. clear. assert (Hgen : ∀ D, foldl add_entry D es !! k = Some ds →
    D !! k = Some ds ∨ ∃ e, e ∈ es ∧ entry_key e = k ∧ ds = entry_deps e).
  { induction es as [|e l IH]; intros D; cbn [foldl]; [by left|]. intros H. destruct (IH _ H) as [HD|(e' & He' & Hk)].
    - unfold add_entry in HD. case_decide; [by left|]. apply lookup_insert_Some in HD as [[<- <-]|[_ HD]]; [right|by left].
      exists e. split; [constructor|done].
    - right. exists e'. split; [by constructor|done]. }
  intros H. destruct (Hgen ∅ H) as [H'|H']; [by rewrite lookup_empty in H'|done].
Qed.
Lemma dom_deps_of_entries k : k ∈ dom (deps_of_entries es) ↔ ∃ e, e ∈ es ∧ entry_key e = k.
Proof.
  split.
  - intros [ds (e & He & Hk & _)%deps_of_entries_lookup]%elem_of_dom. by exists e.
  - intros (e & He & <-). by apply elem_of_deps_of_entries.
Qed.
Lemma entry_deps_key e k : e ∈ es → k ∈ entry_deps e → ∃ d, d ∈ e.1.1.2 ∧ key_new d = k.
Proof.
  intros _ (d & Hd & Hk)%elem_of_list_to_set%list_elem_of_omap. exists d. split; [done|]. destruct (_ && _); [done|by injection Hk].
Qed.
Lemma entries_closed : DepQueue.closed (deps_of_entries es).
Proof.
  intros k ds d Hk Hd. apply deps_of_entries_lookup in Hk as (e & He & _ & ->). apply (entry_deps_key e d He) in Hd as (u & Hu & <-).
  apply dom_deps_of_entries. by apply (Hclosed e u).
Qed.
Lemma reverse_ne es' k s : reverse_dep_map (queue (enqueue_all (es' : list entry))) !! k = Some s → s ≠ ∅.
Proof.
  unfold enqueue_all. assert (Hgen : ∀ j : @JobQueue SV UL Job, (∀ k s, reverse_dep_map (queue j) !! k = Some s → s ≠ ∅) →
    ∀ k s, reverse_dep_map (queue (foldl (λ j e, enqueue j e.1.1.1 e.1.1.2 e.1.2 e.2) j es')) !! k = Some s → s ≠ ∅).
  { induction es' as [|e l IH]; intros j Hj; [done|]. cbn [foldl]. apply IH. clear IH. unfold enqueue. cbn [queue]. unfold DepQueue.queue.
    destruct (dep_map (queue j) !! _) as [[]|]; [done|]. cbn [reverse_dep_map]. revert Hj. generalize (reverse_dep_map (queue j)) as m.
    induction (key_dependencies _ _) as [|d ds IHd]; intros m Hm; [done|]. cbn [foldl]. apply IHd. intros k' s'. unfold add_reverse.
    intros [[_ <-]|[_ H]]%lookup_insert_Some; [set_solver|by apply (Hm k')]. }
  apply Hgen. intros k' s' H. cbn in H. by rewrite lookup_empty in H.
Qed.
Lemma queue_keys k : k ∈ all_keys (queue (enqueue_all es)) → k ∈ dom (deps_of_entries es).
Proof.
  destruct (enqueue_all_ok es) as [Hinv _ _ _].
  assert (Hred : ∀ d x, redge (reverse_dep_map (queue (enqueue_all es))) d x → x ∈ dom (deps_of_entries es) ∧ d ∈ dom (deps_of_entries es)).
  { intros d x (ds & Hx & Hd)%(qi_reverse _ _ _ _ Hinv). split; [by apply elem_of_dom; eexists|by eapply entries_closed]. }
  unfold all_keys. intros [[Hk|Hk]%elem_of_union|Hk]%elem_of_union.
  - apply elem_of_dom in Hk as [[s v] Hk]. destruct (qi_waiting _ _ _ _ Hinv _ _ _ Hk) as (_ & _ & ds & Hds & _). apply elem_of_dom. by eexists.
  - apply elem_of_dom in Hk as [s Hk]. pose proof (reverse_ne es k s Hk) as Hne. apply set_choose_L in Hne as [x Hx].
    apply (Hred k x). unfold redge. by rewrite Hk.
  - assert (Hin : ∃ d s, reverse_dep_map (queue (enqueue_all es)) !! d = Some s ∧ k ∈ s).
    { revert Hk. apply (map_fold_weak_ind (λ acc m, k ∈ acc → ∃ d s, m !! d = Some s ∧ k ∈ s)); [by intros ?%elem_of_empty|].
      intros d s m acc Hm IH [Hs|Hacc]%elem_of_union; [exists d, s; by rewrite lookup_insert_eq|].
      destruct (IH Hacc) as (d' & s' & Hd & Hs). exists d', s'. split; [|done]. rewrite lookup_insert_ne; [done|]. intros ->. congruence. }
    destruct Hin as (d & s & Hd & Hs). apply (Hred d k). unfold redge. by rewrite Hd.
Qed.
Lemma entries_acyclic : DepQueue.acyclic (queue (enqueue_all es)).
Proof.
  destruct (enqueue_all_ok es) as [Hinv _ _ _].
  assert (Hstep : ∀ d x, redge (reverse_dep_map (queue (enqueue_all es))) d x →
    ∃ u v, key_new u = x ∧ key_new v = d ∧ (rank v < rank u)%nat).
  { intros d x (ds & Hx & Hd)%(qi_reverse _ _ _ _ Hinv). apply deps_of_entries_lookup in Hx as (e & He & <- & ->).
    apply (entry_deps_key e d He) in Hd as (v & Hv & <-). exists e.1.1.1, v. split_and!; [done..|]. apply Hord. exists e.1.1.2. split; [by apply Hdeps|done]. }
  assert (Htc : ∀ d x, tc (redge (reverse_dep_map (queue (enqueue_all es)))) d x → ∃ u v, key_new u = x ∧ key_new v = d ∧ (rank v < rank u)%nat).
  { induction 1 as [d x H|d y x H _ IH]; [by apply Hstep|]. destruct (Hstep _ _ H) as (u & v & Hu & Hv & Hlt), IH as (w & u' & Hw & Hu' & Hlt').
    exists w, v. split_and!; [done..|]. rewrite <-Hu' in Hu. apply key_new_eq, Hord in Hu. lia. }
  intros k x _ _ H. destruct (Htc x x H) as (u & v & Hu & Hv & Hlt). rewrite <-Hu in Hv. apply key_new_eq, Hord in Hv. lia.
Qed.
Lemma entries_buildable_of : buildable es.
Proof.
  split; [|apply entries_acyclic|apply entries_closed].
  assert (Hsub : all_keys (queue (enqueue_all es)) ⊆ universe).
  { intros k Hk%queue_keys. apply dom_deps_of_entries in Hk as (e & He & <-). by apply Huniverse. }
  apply subseteq_size in Hsub. lia.
Qed.
End accepted.

Lemma targets_key u v : key_new u = key_new v → targets_of u = targets_of v.
Proof.
  intros Hk. assert (Hk' := Hk). apply key_new_eq, unit_key_eq in Hk' as (Hp & Ht & _ & Hkind & _). unfold dep_targets.
  rewrite Ht, (hget_key unit_dependencies u v) by done.
  replace (hcontains overridden (package_id (unit_pkg u), unit_kind u)) with (hcontains overridden (package_id (unit_pkg v), unit_kind v)); [done|].
  unfold hcontains. assert (Hkey : to_key (package_id (unit_pkg v), unit_kind v) = to_key (package_id (unit_pkg u), unit_kind u)); [|by rewrite Hkey].
  change ((to_key (package_id (unit_pkg v)), unit_kind v) = (to_key (package_id (unit_pkg u)), unit_kind u)). by rewrite Hp, Hkind.
Qed.
(** C9. Planning a build returns, and when it does not fail the queue it makes holds one job for each unit that the
    units asked for lead to, and for no other, each waiting for the units it depends on.  Such a queue is one the job
    queue's theorems speak of: its dependencies are all queued and have no cycle, and its size is in bounds, so that
    executing it never panics.  It is assumed that the graph of units has no cycle and is smaller than the address
    space, and that the graph of packages is well formed. *)
Theorem plan_units_spec (universe : gset JobKey) fuel force units plan :
  (∀ u, u ∈ units → (rank u < fuel)%nat ∧ key_new u ∈ universe) →
  (∀ u d, key_new u ∈ universe → needs u d → key_new d ∈ universe) → (N.of_nat (size universe) < IN_PROGRESS)%N →
  ∃ x, plan_units fuel force units plan = Some x ∧ ∀ st, x = Ok st → ∃ es : list entry,
    pl_jobs st = enqueue_all es ∧ buildable es ∧ NoDup (entry_key <$> es) ∧ (∀ e, e ∈ es → targets_of e.1.1.1 = Ok e.1.1.2) ∧
    ∀ v, has_key es v ↔ ∃ u w, u ∈ units ∧ rtc needs u w ∧ key_new w = key_new v.
Proof.
  intros Hunits Huniv Hsmall. unfold plan_units. set (st0 := mkPlanning _ _ _ _ _).
  assert (Hp0 : plans [] st0).
  { split; [done| |constructor|by intros e ?%elem_of_nil|apply planned_nothing]. intros u. rewrite hcontains_true.
    unfold has_key. split; [intros [v Hv]; cbn in Hv; by rewrite hget_empty in Hv|by intros (e & ?%elem_of_nil & _)]. }
  destruct (each_ok (λ u, compile fuel u force) units [] st0) as (x & Hx & Hres); [|done|].
  { intros u es st Hu Hp. apply compile_ok; [done|by apply Hunits]. }
  exists x. split; [done|]. intros st ->. destruct (Hres st eq_refl) as (es & [H1 H2 H3 H4 H5] & Hd & Hu & Hr). cbn [app] in *.
  assert (Hreach : ∀ u w, key_new u ∈ universe → rtc needs u w → key_new w ∈ universe).
  { intros u w Hin Hrt. revert Hin. induction Hrt as [|u v w Huv _ IH]; [done|]. intros Hin. apply IH. by apply (Huniv u). }
  exists es. split_and!; [done| |done|done|].
  - apply (entries_buildable_of universe); [|done..]. intros e He. destruct (Hr e He) as (u & Hin & Hrt).
    apply (Hreach u); [by apply Hunits|done].
  - intros v. split.
    + intros (e & He & Hk). destruct (Hr e He) as (u & Hin & Hrt). by exists u, e.1.1.1.
    + intros (u & w & Hin & Hrt & Hk). assert (Hw : has_key es w); [|destruct Hw as (e & He & Hek); exists e; split; [done|congruence]].
      clear Hk. assert (Hstart : has_key es u) by by apply Hu. clear Hin. revert Hstart.
      induction Hrt as [|u y w (ts & Hts & Hy) _ IH]; [done|]. intros (e & He & Hek). apply IH. apply (Hd e); [done|].
      assert (Heq : targets_of e.1.1.1 = targets_of u) by (by apply targets_key). rewrite (H4 e He), Hts in Heq. injection Heq as ->. done.
Qed.
End compile.

(** * A concrete plan: the libraries [a] and [z] *)
Section runs.
Local Existing Instance sem_lib.
Local Existing Instance hier_lib.
Local Existing Instance std_order.
Local Existing Instance ascii_case.
Local Existing Instance two_digits.
Local Existing Instance line_toml.
Local Existing Instance sample_files.
Local Existing Instance sample_hashing.
Local Existing Instance sample_layout.
Local Existing Instance sample_sources.
Local Instance empty_disk : Disk := sample_disk [] [] [].
(** Work as the names of its steps. *)
Local Instance named_works : Works := {|
  Work := list string;
  noop := [];
  and_then a b := (a ++ b)%list;
  rustc_work u := Ok ["rustc " ++ tgt_name (unit_target u)];
  rustdoc_work u := Ok ["rustdoc " ++ tgt_name (unit_target u)];
  script_work u := Ok (["run " ++ tgt_name (unit_target u)], []);
  link_work u fresh := Ok ["link " ++ tgt_name (unit_target u)];
  write_work u a := ["write " ++ tgt_name (unit_target u)];
  write_script_work u f o := ["write " ++ tgt_name (unit_target u)];
  prepare_dir u := Ok tt;
  exec_force_rebuild u := false;
|}.
Definition sample_plan (fuel : nat) (roots : list CUnit) : option (cresult (@Planning _ _ named_works unit)) :=
  plan_units (λ _, "") (λ _, "") id (λ l, join "," l) (λ _, "0") sample_context (sample_config ∅) None "/" "/target" "rustc 1.31"
    ∅ no_order two_units ∅ ∅ ∅ (λ _ p, Ok p) false fuel false roots tt.
Definition job_of (r : option (cresult (@Planning _ _ named_works unit))) (u : CUnit) : option (nat * list (list string * Freshness)) :=
  match r with
  | Some (Ok st) => (λ e, (size e.1, List.map (λ j : (list string * list string) * Freshness, (j.1.1, j.2)) e.2)) <$> dep_map (queue (pl_jobs st)) !! key_new u
  | _ => None
  end.
Example plan_1 :
  job_of (sample_plan 2 [lib_a; lib_z]) lib_a = Some (1%nat, [(["rustc a"; "link a"; "write a"], Dirty)]) ∧
  job_of (sample_plan 2 [lib_a; lib_z]) lib_z = Some (0%nat, [(["rustc z"; "link z"; "write z"], Dirty)]).
Proof. split; vm_eq. Qed.

Lemma sample_needs u d : needs no_order two_units ∅ u d → key_new u = key_new lib_a ∧ d = lib_z.
Proof.
  intros (ds & Hds & Hd). unfold dep_targets in Hds. destruct (_ && _); [injection Hds as <-; by apply elem_of_nil in Hd|].
  unfold two_units in Hds. rewrite !hget_hinsert, hget_empty in Hds.
  case_decide as Ha; [|case_decide as Hz; [|done]]; injection Hds as <-; [|by apply elem_of_nil in Hd].
  apply list_elem_of_singleton in Hd. by split.
Qed.
Lemma sample_ordered : ordered no_order two_units ∅ sample_rank.
Proof.
  split; [intros u v Huv; unfold sample_rank; by rewrite Huv|]. intros u d [Hu ->]%sample_needs. apply (proj2 sample_ranked u [lib_z]); [|constructor|done].
  assert (Ht := targets_key no_order two_units ∅ u lib_a Hu). rewrite Ht. reflexivity.
Qed.
Lemma sample_graph_wf : Graph.wf (graph (bcx_resolve sample_context)).
Proof. apply Graph.wf_link, Graph.wf_add, Graph.wf_add, Graph.wf_new. Qed.
Lemma plan_units_spec_witness : ∃ x, sample_plan 2 [lib_a] = Some x ∧ ∀ st, x = Ok st → ∃ es : list (@Entry _ _ Job),
  pl_jobs st = enqueue_all es ∧ buildable es ∧ NoDup (entry_key <$> es) ∧ (∀ e, e ∈ es → dep_targets no_order two_units ∅ e.1.1.1 = Ok e.1.1.2) ∧
  ∀ v, has_key es v ↔ ∃ u w, u ∈ [lib_a] ∧ rtc (needs no_order two_units ∅) u w ∧ key_new w = key_new v.
Proof.
  refine (plan_units_spec (λ _, "") (λ _, "") id (λ l, join "," l) (λ _, "0") sample_context (sample_config ∅) None "/" "/target" "rustc 1.31"
    ∅ no_order two_units ∅ ∅ ∅ (λ _ p, Ok p) false sample_rank sample_ordered sample_graph_wf {[key_new lib_a; key_new lib_z]} 2 false [lib_a] tt _ _ _).
  - intros u ->%list_elem_of_singleton. split; [vm_compute; lia|set_solver].
  - intros u d _ [_ ->]%sample_needs. set_solver.
  - rewrite size_union_alt, size_singleton. pose proof (subseteq_size (C:=gset JobKey) ({[key_new lib_z]} ∖ {[key_new lib_a]}) {[key_new lib_z]} ltac:(set_solver)) as H.
    rewrite size_singleton in H. apply N.le_lt_trans with 2%N; [lia|reflexivity].
Defined.
End runs.
